(* ===== verification/_CoqProject ===== *)
-Q . S2P
Prelude.v
StdSort.v
Crc32c.v
FlatHash.v
Env.v
MemoryEnv.v
Types.v
Wal.v
WalCodec.v
WalLog.v
WalTheorems.v
Sync.v
SyncTheorems.v
WalGraph.v
Graph.v
Lexical.v
DocEngines.v
DocTheorems.v
MemTable.v
FixedLog.v
MemTableTheorems.v
Recovery.v
Text.v
PosixFile.v
FixedLogTheorems.v
Manifest.v
ManifestTheorems.v
ManifestCatalogue.v
IoProvider.v
SegmentManifest.v
Segment.v
SegmentTheorems.v
Layers.v
Runtime.v
RuntimeTheorems.v
FreezeDisk.v
FreezeTheorems.v
IteratorTheorems.v
SearchParts.v
Search.v
SearchTheorems.v
Rag.v
RagTheorems.v
Chunking.v
ChunkTheorems.v
Pipeline.v
PipelineTheorems.v
Compact.v
CompactTheorems.v
Stream.v
KeyValue.v
KeyValueTheorems.v
Blob.v
TimeSeries.v
Spatial.v
SpatialTheorems.v
SetEngines.v
Mailbox.v
MailboxTheorems.v
Bloom.v
Linker.v
Lifecycle.v
Manager.v
ManagerTheorems.v
ManagerRestart.v
ManagerReopen.v
ManagerKv.v
PagePool.v
PagePoolTheorems.v
Kernel.v
Database.v
DatabaseTheorems.v
VectorEngine.v
VectorEngineTheorems.v
AgentMemory.v
AgentMemoryTheorems.v
Scan.v
ScanTheorems.v
