(* ===== verification/Prelude.v ===== *)
(** * PomaiDB verification library

    PomaiDB is an embedded database.  A database is a set of membranes, each
    with one engine: a sharded vector store, a graph, a key-value map, a time
    series, a blob store, a Bloom filter and others.  This library translates
    the parts that store, recover and find data into Rocq functions and proves
    what makes them correct.

    ** How the code is translated

    Stateful code is a function in the monad [M S A := S -> (Status + A) * S]
    of this file: an early return with a [Status] is [inl], and the state keeps
    the changes made before it.  Integers are [Z] with [u8], [u32] and [u64]
    where the source wraps; bytes are lists of [byte]; floats are bit patterns,
    compared as IEEE prescribes, whose arithmetic and distance kernels are
    parameters (the classes [F32] and [Kernels]); unordered maps
    are [gmap], and where the code iterates over one, the order is an arbitrary
    member of [MapOrder].  The file system ([Env]) is a finite map from path to
    contents together with a list of faults that the system calls consume, so a
    theorem about every fault list covers every pattern of I/O errors.  Undefined
    behaviour (an access outside a buffer, a null pointer) is a value of its own,
    never a default.  A definition that models code is preceded by the file and
    the lines it translates.

    ** The parts and their files

    Foundations.  This file: integers, bytes, the monad, map orders and the
    tactics.  [Crc32c] (util/crc32c.cc), [Env] (util/posix_env.cc), [MemoryEnv]
    (util/memory_env.cc, compared with [Env]), [PosixFile] (util/posix_file.cc
    and the calls of std::filesystem), [Stream] (std::fstream and the record
    logs of the small engines), [IoProvider] (core/storage/io_provider.h),
    [Text] (number and word parsing), [Types] (metadata and vectors), [StdSort]
    (std::sort as an interface).

    Log.  [Wal] (storage/wal/wal.cc) has open, append, batch, rotation, replay
    and reset; [WalCodec], [WalLog] and [WalTheorems] prove the round trip, what
    a torn or damaged tail does, termination and the segment size bound;
    [WalGraph] is the part the graph uses.  AES-GCM is a parameter with its
    documented laws.  [Sync] and [SyncTheorems]
    (core/storage/sync_provider.cc) stream the log to a receiver.

    Memory.  [FlatHash] (table/flat_hash_memmap.h) implements the class [IdMap];
    [MemTable] and [MemTableTheorems] (table/memtable.cc, arena.h) are proved
    against that class;
    [Lexical] (core/query/lexical_index.cc) is its keyword index; [Recovery]
    joins log and memtable: after replay every identifier shows its last write
    among the records up to the first one the reader rejects.

    Disk.  [Segment] and [SegmentTheorems] (table/segment.cc) build, open and
    search a segment; [SegmentManifest] (core/shard/manifest.cc) is the list of
    live segments; [Manifest], [ManifestTheorems] and [ManifestCatalogue]
    (storage/manifest/manifest.cc) are the catalogue of membranes, a refinement
    of a finite map.

    Shard.  [Layers] (layer_lookup.cc, iterator.cc) reads across memtables and
    segments; [Runtime] (core/shard/runtime.cc) is the object that writes, reads,
    rotates and freezes; [RuntimeTheorems] proves that it implements a store;
    [FreezeDisk] and [FreezeTheorems] treat the background freeze, its failure
    and the restart after it; [Compact] and [CompactTheorems] the compaction;
    [IteratorTheorems] the snapshot iterator.  [SearchParts], [Search] and
    [SearchTheorems] are the vector search of a shard: filters, the table of
    newest versions, the bounded sink of hits, the scan of all layers and the
    fast path over sidecar indexes.  [Mailbox] and [MailboxTheorems]
    (core/shard/mailbox.h) are the lock-free queue in front of a shard, as a
    transition function over every schedule of producers and consumer.

    Engines.  [KeyValue], [KeyValueTheorems], [Blob], [TimeSeries], [Bloom] and
    [Graph] are the engines of the other kinds; [PagePool] and [PagePoolTheorems]
    (palloc_page_pool.cc) are the page cache with its swap file.  [DocEngines]
    and [DocTheorems] are the document, text and sketch engines, [Spatial] and
    [SpatialTheorems] the spatial engine, [SetEngines] sparse vectors and bit
    sets with their counting kernels, [FixedLog] and [FixedLogTheorems]
    (storage/storage_engine.cc) the engine of fixed-size records.  [Scan] and
    [ScanTheorems] (core/membrane/membrane_record_iterator.cc) iterate over the
    records of a membrane of any kind, with limits and deadlines.  [VectorEngine]
    (core/vector_engine/vector_engine.cc) is the engine of vector membranes: it
    opens and replays the log, starts the shard and forwards to it.
    [VectorEngineTheorems] keeps an invariant that ties the files to the memory
    of the shard through writes, flushes, freezes, compactions and restarts.

    Embedded database.  [Kernel] (core/kernel/micro_kernel.h and the vector and
    graph pods) is the message queue with its time budget; a message carries
    pointers into the frame of the call that sent it.  [Database] (database.cc,
    scheduler.cc, auto_edge_hook.h) sends every operation as a message and adds
    back pressure and maintenance; its monad [U] has undefined behaviour beside
    the statuses.  [DatabaseTheorems] proves that an open database is the store
    of its shard.  [AgentMemory] and [AgentMemoryTheorems]
    (core/rag/agent_memory.cc) are the records of agents on top of it.

    Retrieval.  [Chunking] and [ChunkTheorems] (core/rag/chunking) split a
    document; [Rag] and [RagTheorems] (core/rag/rag_engine.cc) store the chunks
    and search them by token; [Pipeline] and [PipelineTheorems]
    (core/rag/rag_pipeline.cc) compose the two behind the interfaces of the
    source.

    Manager.  [Manager] (core/membrane/manager.cc) is the registry that owns the
    engines, with [Linker] and [Lifecycle] beside it.  An engine is anything in
    the class [EngineOps]; what the manager relies on is the class [EngineLaws]
    of [ManagerRestart].  [ManagerTheorems] proves that every membrane has
    exactly the engine of its kind; [ManagerRestart] and [ManagerReopen] prove
    that a database survives a restart for every engine that keeps the laws;
    [ManagerKv] shows that the key-value engine does.

    ** What the theorems show

    The comment of each theorem names the conditions under which it holds.

    Refinement: the vector engine is a persistent map over any run of writes,
    freezes, compactions and restarts, without quantisation, coalescing and
    expiry; the log with the memtable, the shard, the hash table, the graph, the
    fixed-record engine, the page pool and the manager implement maps, and a
    restart finds what was written; the manifest is the map of its
    specifications up to what its text format keeps.  Log: records are replayed
    in order up to the first one that the reader rejects, a put without a tenant
    but with other metadata, or whose checksum does not match; a torn last
    record is ignored.  Crash safety: atomic file replacement, torn logs of
    every engine; a commit of the segment list leaves the old or the new list,
    except that a failing last rename leaves none ([sm_commit_window_loses_list]).
    Errors: what a failed freeze, a failing write or a damaged file leaves.
    Bounds and termination: replay, segment search, arena allocation, log
    segments, text splitting, caps of the engines.  Liveness: a freeze completes
    and keeps what reads find, a compaction completes, the mailbox makes
    progress, a page can be fetched while a frame is unpinned.  Search: on
    segments without sidecar indexes, the hits are the best [topk] of the newest
    live versions that match; the retrieval engine returns the chunks with most
    matching tokens.  Scans: complete and in order, or reported as cut or late.
    Composition: what an agent appends, reads and prunes is traced through
    database, kernel, shard and iterator; an ingested document through splitter,
    pipeline and retrieval engine.

    Lemmas beside the theorems exhibit the runs that the conditions exclude: the
    order in which a freeze installs the segments of several memtables, a
    compaction of tombstones that does not end, the kinds the manifest forgets,
    the window in a commit, calls lost to the time budget, the entry a scan of
    agent memory skips, a log record that cannot be read back.

    ** Fuel

    Loops without a structural measure take fuel: replay of a log its length in
    bytes, each frame being at least one byte; binary search the number of
    entries; the snapshot iterator the number of entries plus the sources
    ([iter_fuel]), which also bounds the scans of agent memory; the kernel the
    number of messages its budget allows; a freeze and a compaction the number of rounds the theorems
    state.  Lemmas show that the bound is enough, so running out is never what a
    theorem is about.

    ** Not modelled

    Quantisers and the segments written with them, distances, k-means, shard
    routing, HNSW and IVF indexes, query planning, mesh and audio engines: they
    compute with floats, and their results have no specification short of the
    computation itself.  Vulkan: a generated loader and calls into a driver.
    Edge gateway, server, C interface, inspection and logging: sockets,
    conversion and output.  The facade of the membrane database: forwarding to
    the manager.  Threads.  The query pod and multi-modal queries.  Windows
    branches.  Allocation failure.  Directories: a missing one is a failing call.
    Weak memory orders: the mailbox is modelled with sequentially consistent
    atomics. *)
From Stdlib Require Export ZArith Lia.
From Stdlib Require Import Strings.Byte.
From coqutil Require Export Byte Word.LittleEndianList.
From stdpp Require Export sorting base strings pretty numbers fin_maps gmap list.

(** ** Scope and basic types *)

Declare Scope pomai_scope.
Delimit Scope pomai_scope with pomai.

Abbreviation byte := Corelib.Init.Byte.byte.
Abbreviation bytes := (list Corelib.Init.Byte.byte).

(** [std::string] literals of the source, as byte sequences. *)
Definition bstr (s : string) : bytes := String.list_byte_of_string s.

#[global] Instance byte_eq_dec : EqDecision byte := Byte.byte_eq_dec.

#[global] Instance byte_countable : Countable byte :=
  inj_countable Byte.to_N Byte.of_N Byte.of_to_N.

(** ** Machine integers: a w-bit unsigned value is a [Z] in [0, 2^w). *)

Definition u8 (z : Z) : Z := Z.modulo z (2 ^ 8).
Definition u32 (z : Z) : Z := Z.modulo z (2 ^ 32).
Definition u64 (z : Z) : Z := Z.modulo z (2 ^ 64).

Definition is_u32 (z : Z) : Prop := (0 <= z < 2 ^ 32)%Z.
Definition is_u64 (z : Z) : Prop := (0 <= z < 2 ^ 64)%Z.

#[global] Instance is_u32_dec z : Decision (is_u32 z).
Proof. unfold is_u32. apply _. Defined.
#[global] Instance is_u64_dec z : Decision (is_u64 z).
Proof. unfold is_u64. apply _. Defined.

Lemma u8_range z : (0 <= u8 z < 2 ^ 8)%Z.
Proof. apply Z.mod_pos_bound. lia. Qed.
Lemma u32_range z : is_u32 (u32 z).
Proof. apply Z.mod_pos_bound. lia. Qed.
Lemma u64_range z : is_u64 (u64 z).
Proof. apply Z.mod_pos_bound. lia. Qed.
Lemma u32_id z : is_u32 z -> u32 z = z.
Proof. apply Z.mod_small. Qed.
Lemma u64_id z : is_u64 z -> u64 z = z.
Proof. apply Z.mod_small. Qed.
Lemma u32_u64 z : is_u32 z -> is_u64 z.
Proof. unfold is_u32, is_u64. lia. Qed.

(** Sizes: [container.size()] as an integer. *)
Definition zlen {A} (l : list A) : Z := Z.of_nat (length l).

(** Different offsets below the capacity reach different slots of a ring. *)
Lemma offset_mod_inj (cap h i j : Z) : (0 <= i < cap -> 0 <= j < cap -> (h + i) mod cap = (h + j) mod cap -> i = j)%Z.
Proof.
  intros Hi Hj E. assert ((i - j) mod cap = 0)%Z as E'.
  { replace (i - j)%Z with ((h + i) - (h + j))%Z by lia. by rewrite Zminus_mod, E, Z.sub_diag, Zmod_0_l. }
  apply Z.mod_divide in E' as [q Hq]; [|lia]. assert (- cap < q * cap < cap)%Z by lia. assert (q = 0)%Z by nia. subst q. lia.
Qed.

Lemma zlen_nonneg {A} (l : list A) : (0 <= zlen l)%Z.
Proof. unfold zlen. lia. Qed.

(** ** Byte-level encodings: a host (little-endian) [memcpy] of an n-byte
    integer is coqutil's [le_split n]; reading it back is [le_combine]. *)

Definition le_read (n off : nat) (b : bytes) : Z := le_combine (take n (drop off b)).

Lemma le_combine_split_id n z :
  (0 <= z < 2 ^ (Z.of_nat n * 8))%Z -> le_combine (le_split n z) = z.
Proof. intros Hz. rewrite le_combine_split. by apply Z.mod_small. Qed.

Lemma le_split_inj n x y :
  (0 <= x < 2 ^ (Z.of_nat n * 8))%Z -> (0 <= y < 2 ^ (Z.of_nat n * 8))%Z ->
  le_split n x = le_split n y -> x = y.
Proof.
  intros Hx Hy E. apply (f_equal le_combine) in E.
  by rewrite !le_combine_split_id in E.
Qed.

(** ** Length automation: the [len] rewrite base and the tactics over it. *)

Create HintDb pomai discriminated.
#[export] Hint Resolve u8_range u32_range u64_range zlen_nonneg u32_u64 : pomai.
Create Rewrite HintDb len.
#[export] Hint Rewrite @length_app @length_le_split @length_take @length_drop
  @length_fmap @length_replicate @length_reverse @length_insert : len.

Ltac len := unfold zlen in *; autorewrite with len in *; cbn [length] in *; lia.

(** Rewrites [take]/[drop] of an append whose first part has the literal
    length, the step every decoder proof takes. *)
Lemma take_app_len {A} n (l k : list A) : length l = n -> take n (l ++ k) = l.
Proof. intros <-. apply take_app_length. Qed.
Lemma drop_app_len {A} n (l k : list A) : length l = n -> drop n (l ++ k) = k.
Proof. intros <-. apply drop_app_length. Qed.

Lemma drop_app_plus {A} n m (l k : list A) :
  length l = n -> drop (n + m) (l ++ k) = drop m k.
Proof. intros <-. by rewrite drop_app_add. Qed.

Lemma fold_left_cons {A B} (f : A -> B -> A) b l a :
  fold_left f (b :: l) a = fold_left f l (f a b).
Proof. done. Qed.

Lemma le_read_app_l n z rest :
  (0 <= z < 2 ^ (Z.of_nat n * 8))%Z -> le_read n 0 (le_split n z ++ rest) = z.
Proof.
  intros Hz. unfold le_read. rewrite drop_0, take_app_len by len.
  by apply le_combine_split_id.
Qed.

Lemma le_read_app_r n off l k :
  length l = off -> le_read n off (l ++ k) = le_read n 0 k.
Proof. intros H. unfold le_read. by rewrite drop_app_len, drop_0. Qed.

Lemma le_read_bound n off b : (0 <= le_read n off b < 2 ^ (8 * Z.of_nat n))%Z.
Proof.
  unfold le_read. pose proof (le_combine_bound (take n (drop off b))) as H.
  split; [lia|]. eapply Z.lt_le_trans; [apply H|].
  apply Z.pow_le_mono_r; [lia|]. rewrite length_take. lia.
Qed.

(** ** [pomai::Status] (include/pomai/status.h) *)

(** include/pomai/status.h:9-23 [ErrorCode]. *)
Inductive ErrorCode : Type :=
  | kOk | kInvalidArgument | kNotFound | kAlreadyExists | kPermissionDenied
  | kResourceExhausted | kFailedPrecondition | kAborted | kIO | kInternal
  | kPartial | kCorruption | kUnknown.

#[global] Instance ErrorCode_eq_dec : EqDecision ErrorCode.
Proof. solve_decision. Defined.

(** include/pomai/status.h:29-41 [Status]. [subcode_] is never set. *)
Record Status : Type := MkStatus { st_code : ErrorCode; st_message : string }.

#[global] Instance Status_eq_dec : EqDecision Status.
Proof. solve_decision. Defined.

Definition Ok : Status := MkStatus kOk "".
Definition NotFound (m : string) : Status := MkStatus kNotFound m.
Definition InvalidArgument (m : string) : Status := MkStatus kInvalidArgument m.
Definition IOError (m : string) : Status := MkStatus kIO m.
Definition Corruption (m : string) : Status := MkStatus kCorruption m.
Definition Internal (m : string) : Status := MkStatus kInternal m.
Definition Aborted (m : string) : Status := MkStatus kAborted m.
Definition Busy (m : string) : Status := MkStatus kAborted m.
Definition ResourceExhausted (m : string) : Status := MkStatus kResourceExhausted m.
Definition AlreadyExists (m : string) : Status := MkStatus kAlreadyExists m.

(** What the code does there is not defined by the language: a null pointer is
    dereferenced or an index is out of range. *)
Definition Undefined (m : string) : Status := MkStatus kUnknown m.
(** The bound chosen for a loop of the model was too small; the termination
    theorems show that no run of the modelled code gets here. *)
Definition OutOfFuel : Status := MkStatus kUnknown "loop bound".

Definition st_is_ok (s : Status) : bool := bool_decide (st_code s = kOk).

(** ** A state and status monad

    A C++ member function that returns a [Status] and mutates [*this] is a
    computation of [M S A]: it threads the object state [S] and either yields
    a value or stops with a non-ok status.  The state reached when it stops is
    kept, as the early returns of the source keep the members they changed. *)

Definition M (S A : Type) : Type := S -> (Status + A) * S.

#[global] Instance M_ret S : MRet (M S) := fun _ a s => (inr a, s).
#[global] Instance M_bind S : MBind (M S) := fun _ _ k m s =>
  match m s with
  | (inl e, s') => (inl e, s')
  | (inr a, s') => k a s'
  end.

Definition mfail {S A} (e : Status) : M S A := fun s => (inl e, s).
Definition mget {S} : M S S := fun s => (inr s, s).
Definition mput {S} (s : S) : M S unit := fun _ => (inr tt, s).
Definition mmodify {S} (f : S -> S) : M S unit := fun s => (inr tt, f s).
(** [if (cond) return status;] *)
Definition mguard {S} (b : bool) (e : Status) : M S unit :=
  if b then mret tt else mfail e.

(** A result that is already known. *)
Definition of_sum {S A} (r : Status + A) : M S A := fun s => (r, s).

(** The status a computation returns to its caller. *)
Definition status_of {S A} (r : (Status + A) * S) : Status :=
  match r.1 with inl e => e | inr _ => Ok end.

Lemma mbind_ok {S A B} (m : M S A) (k : A -> M S B) s a s' :
  m s = (inr a, s') -> (m ≫= k) s = k a s'.
Proof. unfold mbind, M_bind. by intros ->. Qed.
Lemma mbind_err {S A B} (m : M S A) (k : A -> M S B) s e s' :
  m s = (inl e, s') -> (m ≫= k) s = (inl e, s').
Proof. unfold mbind, M_bind. by intros ->. Qed.
Lemma mbind_inv {S A B} (m : M S A) (k : A -> M S B) s b s' :
  (m ≫= k) s = (inr b, s') -> exists a s1, m s = (inr a, s1) /\ k a s1 = (inr b, s').
Proof. unfold mbind, M_bind. destruct (m s) as [[e|a] s1]; naive_solver. Qed.

(** ** Frame reasoning: what a computation leaves unchanged *)

Definition preserves {S X A} (proj : S -> X) (m : M S A) : Prop :=
  forall s r s', m s = (r, s') -> proj s' = proj s.

Lemma preserves_bind {S X A B} (proj : S -> X) (m : M S A) (k : A -> M S B) :
  preserves proj m -> (forall a, preserves proj (k a)) -> preserves proj (m ≫= k).
Proof.
  intros Hm Hk s r s' E. unfold mbind, M_bind in E. destruct (m s) as [[e|a] s1] eqn:E1.
  - simplify_eq. by eapply Hm.
  - apply Hk in E. apply Hm in E1. congruence.
Qed.
Lemma preserves_ret {S X A} (proj : S -> X) (a : A) : preserves proj (mret a).
Proof. intros s r s' E. by injection E as _ <-. Qed.
Lemma preserves_fail {S X A} (proj : S -> X) e : preserves (A := A) proj (mfail e).
Proof. intros s r s' E. by injection E as _ <-. Qed.
Lemma preserves_get {S X} (proj : S -> X) : preserves proj mget.
Proof. intros s r s' E. by injection E as _ <-. Qed.
Lemma preserves_guard {S X} (proj : S -> X) b e : preserves proj (mguard b e).
Proof. destruct b; [apply preserves_ret|apply preserves_fail]. Qed.
Lemma preserves_modify {S X} (proj : S -> X) f :
  (forall s, proj (f s) = proj s) -> preserves proj (mmodify f).
Proof. intros Hf s r s' E. by injection E as _ <-. Qed.

Create HintDb preserve discriminated.
#[export] Hint Resolve preserves_bind preserves_ret preserves_fail preserves_get
  preserves_guard preserves_modify : preserve.

Create HintDb bounded discriminated.

(** A computation that does not stop on the bound of a loop. *)
Definition in_bounds {S A} (m : M S A) : Prop := forall s, (m s).1 <> inl OutOfFuel.

Lemma in_bounds_bind {S A B} (m : M S A) (k : A -> M S B) :
  in_bounds m -> (forall a, in_bounds (k a)) -> in_bounds (m ≫= k).
Proof.
  intros Hm Hk s. specialize (Hm s). unfold mbind, M_bind.
  destruct (m s) as [[e|a] s1]; [naive_solver|apply Hk].
Qed.
Lemma in_bounds_ret {S A} (a : A) : in_bounds (S := S) (mret a).
Proof. done. Qed.
Lemma in_bounds_get {S} : in_bounds (S := S) mget.
Proof. done. Qed.
Lemma in_bounds_modify {S} (f : S -> S) : in_bounds (mmodify f).
Proof. done. Qed.
Lemma in_bounds_fail {S A} e : e <> OutOfFuel -> in_bounds (S := S) (A := A) (mfail e).
Proof. intros He s. cbn. naive_solver. Qed.
Lemma in_bounds_guard {S} b e : e <> OutOfFuel -> in_bounds (S := S) (mguard b e).
Proof. destruct b; [done|apply in_bounds_fail]. Qed.
#[export] Hint Resolve in_bounds_bind in_bounds_ret in_bounds_get in_bounds_modify : bounded.
#[export] Hint Extern 1 (in_bounds (mfail _)) => apply in_bounds_fail; discriminate : bounded.
#[export] Hint Extern 1 (in_bounds (mguard _ _)) => apply in_bounds_guard; discriminate : bounded.

(** ** [std::unordered_map] iteration

    The order in which an unordered map is iterated is unspecified.  Every
    operation of the source that depends on it ([begin()], a range-for) takes
    it from an instance of this class, so the theorems hold for every order that
    is a function of the contents; the order of a real table also depends on
    the insertions before. *)

Class MapOrder (K V : Type) `{Countable K} := {
  iter_order : gmap K V -> list (K * V);
  iter_order_perm : forall m, iter_order m ≡ₚ map_to_list m
}.

Section map_order.
Context `{Countable K} {V : Type} `{!MapOrder K V}.
Implicit Types m : gmap K V.

Lemma elem_of_iter_order m k v : (k, v) ∈ iter_order m <-> m !! k = Some v.
Proof. by rewrite iter_order_perm, elem_of_map_to_list. Qed.

Lemma iter_order_nil m : iter_order m = [] <-> m = ∅.
Proof.
  split.
  - intros E. apply map_to_list_empty_iff.
    apply Permutation_nil_r. by rewrite <-iter_order_perm, E.
  - intros ->. apply Permutation_nil_r. by rewrite iter_order_perm, map_to_list_empty.
Qed.

Lemma length_iter_order m : length (iter_order m) = size m.
Proof. by rewrite iter_order_perm, length_map_to_list. Qed.

Lemma NoDup_iter_order m : NoDup (iter_order m).*1.
Proof. rewrite iter_order_perm. apply NoDup_fst_map_to_list. Qed.

(** [m.erase(m.begin())]; the source only calls it on a non-empty map. *)
Definition erase_begin m : gmap K V :=
  match iter_order m with
  | [] => m
  | (k, _) :: _ => delete k m
  end.

Lemma erase_begin_size m : m <> ∅ -> size m = S (size (erase_begin m)).
Proof.
  intros Hm. unfold erase_begin. destruct (iter_order m) as [|[k v] l] eqn:E.
  - by apply iter_order_nil in E.
  - assert (m !! k = Some v) as Hk.
    { apply elem_of_iter_order. rewrite E. by left. }
    rewrite map_size_delete_Some by eauto.
    assert (size m <> 0) by by rewrite map_size_empty_iff.
    lia.
Qed.

Lemma erase_begin_subseteq m : erase_begin m ⊆ m.
Proof. unfold erase_begin. destruct (iter_order m) as [|[k v] l]; [done|]. apply delete_subseteq. Qed.
End map_order.

(** An order exists: the one of stdpp's own enumeration. *)
Definition default_order {K V : Type} `{Countable K} : MapOrder K V :=
  {| iter_order := map_to_list; iter_order_perm m := reflexivity (map_to_list m) |}.
