(* ===== verification/StdSort.v ===== *)
(** * [std::sort]

    The sort of the standard library as an interface: the result is a
    permutation of its input, and ordered when the comparison is a strict weak
    order on the elements that occur.  The theorems that use it hold for every
    implementation; insertion sort is one. *)
From S2P Require Import Prelude.

(** [std::sort] with a comparison that is a strict weak order on the elements
    that occur. *)
Record weak_order {A} (P : A -> Prop) (lt : A -> A -> bool) : Prop := {
  wo_asym a b : P a -> P b -> lt a b = true -> lt b a = false;
  wo_trans a b c : P a -> P b -> P c -> lt b a = false -> lt c b = false -> lt c a = false
}.
Class StdSort := {
  std_sort {A} (lt : A -> A -> bool) : list A -> list A;
  std_sort_perm {A} (lt : A -> A -> bool) l : std_sort lt l ≡ₚ l;
  std_sort_sorted {A} (lt : A -> A -> bool) P l :
    weak_order P lt -> Forall P l -> StronglySorted (fun a b => lt b a = false) (std_sort lt l)
}.

(** ** An implementation *)

Fixpoint insert_by {A} (lt : A -> A -> bool) (x : A) (l : list A) : list A :=
  match l with
  | [] => [x]
  | y :: l => if lt y x then y :: insert_by lt x l else x :: y :: l
  end.
Definition insertion_sort {A} (lt : A -> A -> bool) (l : list A) : list A := foldr (insert_by lt) [] l.

Lemma insert_by_perm {A} (lt : A -> A -> bool) x l : insert_by lt x l ≡ₚ x :: l.
Proof. induction l as [|y l IH]; [done|]. cbn. destruct (lt y x); [|done]. rewrite IH. apply perm_swap. Qed.

Lemma insertion_sort_perm {A} (lt : A -> A -> bool) l : insertion_sort lt l ≡ₚ l.
Proof. induction l as [|x l IH]; [done|]. cbn. fold (insertion_sort lt l). by rewrite insert_by_perm, IH. Qed.

Lemma insert_by_sorted {A} (lt : A -> A -> bool) P x l :
  weak_order P lt -> P x -> Forall P l -> StronglySorted (fun a b => lt b a = false) l ->
  StronglySorted (fun a b => lt b a = false) (insert_by lt x l).
Proof.
  intros Hlt Hx Hl Hs. induction Hs as [|y l Hs IH Hy]; [by repeat constructor|]. apply Forall_cons in Hl as [Py Hl]. cbn.
  destruct (lt y x) eqn:E.
  - constructor; [by apply IH|]. rewrite insert_by_perm. constructor; [by apply (wo_asym _ _ Hlt)|done].
  - constructor; [by constructor|]. constructor; [done|]. rewrite Forall_forall in Hl, Hy |- *. intros z Hz.
    apply (wo_trans _ _ Hlt x y z); auto.
Qed.

Lemma insertion_sort_sorted {A} (lt : A -> A -> bool) P l :
  weak_order P lt -> Forall P l -> StronglySorted (fun a b => lt b a = false) (insertion_sort lt l).
Proof.
  intros Hlt Hl. induction Hl as [|x l Hx Hl IH]; [constructor|]. cbn. fold (insertion_sort lt l).
  eapply insert_by_sorted; [done..| |done]. by rewrite insertion_sort_perm.
Qed.

Definition insertion_StdSort : StdSort := {|
  std_sort := @insertion_sort;
  std_sort_perm := @insertion_sort_perm;
  std_sort_sorted := @insertion_sort_sorted
|}.

(** ** Sorting by a key *)

Lemma weak_order_key {A} (key : A -> Z) : weak_order (fun _ => True) (fun a b => key a <? key b)%Z.
Proof.
  split; [intros a b _ _ Hlt%Z.ltb_lt|intros a b c _ _ _ H1%Z.ltb_ge H2%Z.ltb_ge]; apply Z.ltb_ge; lia.
Qed.

Lemma std_sort_key_sorted `{StdSort} {A} (key : A -> Z) l :
  StronglySorted (fun a b => key a <= key b)%Z (std_sort (fun a b => key a <? key b)%Z l).
Proof.
  pose proof (std_sort_sorted (fun a b => key a <? key b)%Z _ l (weak_order_key key) (Forall_true _ _ (fun _ => I))) as Hs.
  induction Hs as [|x k Hs IH Hf]; constructor; [done|]. eapply Forall_impl; [exact Hf|]. intros y Hy%Z.ltb_ge. done.
Qed.

(** The first [n] elements of a sorted vector: nothing left out precedes one of
    them. *)
Lemma StronglySorted_split {A} (R : A -> A -> Prop) a b :
  StronglySorted R (a ++ b) -> StronglySorted R a /\ forall x y, x ∈ a -> y ∈ b -> R x y.
Proof.
  induction a as [|z a IH]; cbn; intros Hs; [split; [constructor|set_solver]|].
  apply StronglySorted_inv in Hs as [Hs Hz]. destruct (IH Hs) as [Ha Hab]. rewrite Forall_app, !Forall_forall in Hz.
  destruct Hz as [Hz1 Hz2]. split; [by constructor; [|apply Forall_forall]|]. intros x y [->|Hx]%elem_of_cons Hy; auto.
Qed.

Lemma std_sort_take `{StdSort} {A} (lt : A -> A -> bool) P l n :
  weak_order P lt -> Forall P l ->
  let a := take n (std_sort lt l) in
  let b := drop n (std_sort lt l) in
  a ++ b ≡ₚ l /\ StronglySorted (fun x y => lt y x = false) a /\ forall x y, x ∈ a -> y ∈ b -> lt y x = false.
Proof.
  intros Hlt Hl a b. assert (a ++ b = std_sort lt l) as E by apply take_drop.
  rewrite E. split; [apply std_sort_perm|]. apply StronglySorted_split. rewrite E. by eapply std_sort_sorted.
Qed.

(** ** [std::nth_element] *)

Class NthElement := {
  nth_element {A} (lt : A -> A -> bool) (n : nat) : list A -> list A;
  nth_element_perm {A} (lt : A -> A -> bool) n l : nth_element lt n l ≡ₚ l;
  nth_element_split {A} (lt : A -> A -> bool) P n l x y :
    weak_order P lt -> Forall P l -> x ∈ take n (nth_element lt n l) -> y ∈ drop n (nth_element lt n l) -> lt y x = false
}.

Lemma insertion_sort_split {A} (lt : A -> A -> bool) P n l x y :
  weak_order P lt -> Forall P l -> x ∈ take n (insertion_sort lt l) -> y ∈ drop n (insertion_sort lt l) -> lt y x = false.
Proof.
  intros Hlt Hl. pose proof (insertion_sort_sorted lt P l Hlt Hl) as Hs. rewrite <-(take_drop n (insertion_sort lt l)) in Hs.
  apply StronglySorted_split in Hs as [_ Hs]. apply Hs.
Qed.

Definition insertion_NthElement : NthElement := {|
  nth_element A lt _ := insertion_sort lt;
  nth_element_perm A lt _ := insertion_sort_perm lt;
  nth_element_split := @insertion_sort_split
|}.
