(* ===== verification/Crc32c.v ===== *)
(** * CRC32C (src/util/crc32c.cc)

    The checksum every durable file of the engine carries.  [TableAt] and
    [Crc32c] follow the source; [crc_ref] is the bit-serial reference.  The
    file proves that the table-driven loop computes the reference, that the
    [seed] argument chains (the property [Wal::AppendBatch] relies on when it
    checksums a record in two pieces), and that any burst error of at most
    four bytes changes the checksum. *)
From S2P Require Import Prelude.

Open Scope Z_scope.

(** src/util/crc32c.cc:6-6 [kPoly]. Reversed Castagnoli polynomial. *)
Definition kPoly : Z := 0x82F63B78.

(** src/util/crc32c.cc:11-12 [TableAt]. One round of the inner loop:
    [crc = (crc >> 1) ^ (kPoly & (~(crc & 1u) + 1u))] on [uint32_t]. *)
Definition crc_round (crc : Z) : Z :=
  Z.lxor (Z.shiftr crc 1)
         (Z.land kPoly (u32 (u32 (Z.lnot (Z.land crc 1)) + 1))).

(** src/util/crc32c.cc:8-14 [TableAt]. *)
Definition TableAt (i : Z) : Z := Nat.iter 8 crc_round i.

(** src/util/crc32c.cc:18-25 [Crc32c]. The table, filled on the first call. *)
Definition crc_table : list Z := TableAt <$> seqZ 0 256.

(** src/util/crc32c.cc:29-32 [Crc32c]. Body of the byte loop: [crc = table[(crc ^ p[i]) & 0xFFu] ^ (crc >> 8)]. *)
Definition crc_byte (crc : Z) (p : byte) : Z :=
  Z.lxor (nth (Z.to_nat (Z.land (Z.lxor crc (byte.unsigned p)) 0xFF)) crc_table 0)
         (Z.shiftr crc 8).

(** src/util/crc32c.cc:16-34 [Crc32c]. *)
Definition Crc32c (data : bytes) (seed : Z) : Z :=
  u32 (Z.lnot (fold_left crc_byte data (u32 (Z.lnot seed)))).

(** ** Bit-serial reference *)

Definition crc_ref_byte (crc : Z) (p : byte) : Z :=
  Nat.iter 8 crc_round (Z.lxor crc (byte.unsigned p)).

Definition crc_ref (data : bytes) (seed : Z) : Z :=
  u32 (Z.lnot (fold_left crc_ref_byte data (u32 (Z.lnot seed)))).

Example Crc32c_check_value :
  Crc32c (bstr "123456789") 0 = 0xE3069283.
Proof. vm_compute. reflexivity. Qed.

(** ** The round function *)

Lemma crc_round_odd x :
  crc_round x = Z.lxor (Z.shiftr x 1) (if Z.odd x then kPoly else 0).
Proof.
  unfold crc_round. f_equal.
  assert (Z.land x 1 = if Z.odd x then 1 else 0) as ->.
  { change 1 with (Z.ones 1). rewrite Z.land_ones by lia.
    change (2 ^ 1) with 2. rewrite Zmod_odd. by destruct (Z.odd x). }
  by destruct (Z.odd x).
Qed.

Lemma crc_round_lxor x y : crc_round (Z.lxor x y) = Z.lxor (crc_round x) (crc_round y).
Proof.
  rewrite !crc_round_odd, Z.shiftr_lxor.
  assert (Z.odd (Z.lxor x y) = xorb (Z.odd x) (Z.odd y)) as ->
    by (rewrite <-!Z.bit0_odd; apply Z.lxor_spec).
  destruct (Z.odd x), (Z.odd y); cbn [xorb];
    rewrite ?Z.lxor_0_r, ?Z.lxor_assoc; f_equal.
  - rewrite <-Z.lxor_assoc, (Z.lxor_comm kPoly), Z.lxor_assoc, Z.lxor_nilpotent.
    by rewrite Z.lxor_0_r.
  - by rewrite Z.lxor_comm.
Qed.

Lemma crc_round_double z : crc_round (Z.shiftl z 1) = z.
Proof.
  rewrite crc_round_odd.
  assert (Z.odd (Z.shiftl z 1) = false) as ->
    by (rewrite <-Z.bit0_odd; apply Z.shiftl_spec_low; lia).
  rewrite Z.shiftr_shiftl_l, Z.lxor_0_r by lia. apply Z.shiftl_0_r.
Qed.

Lemma iter_crc_round_lxor n x y :
  Nat.iter n crc_round (Z.lxor x y) = Z.lxor (Nat.iter n crc_round x) (Nat.iter n crc_round y).
Proof. induction n as [|n IH]; [done|]. by rewrite !Nat.iter_succ, IH, crc_round_lxor. Qed.

Lemma iter_crc_round_shiftl n z : Nat.iter n crc_round (Z.shiftl z (Z.of_nat n)) = z.
Proof.
  revert z. induction n as [|n IH]; intros z; [apply Z.shiftl_0_r|].
  rewrite Nat.iter_succ_r, Nat2Z.inj_succ, <-Z.add_1_r, Z.add_comm.
  rewrite Z.add_comm, <-Z.shiftl_shiftl by lia. by rewrite crc_round_double.
Qed.

Lemma lxor_32 x y : is_u32 x -> is_u32 y -> is_u32 (Z.lxor x y).
Proof.
  intros [Hx0 Hx] [Hy0 Hy].
  assert (0 <= Z.lxor x y) by (apply Z.lxor_nonneg; tauto).
  split; [done|]. destruct (decide (Z.lxor x y = 0)); [lia|].
  apply Z.log2_lt_pow2; [lia|].
  eapply Z.le_lt_trans; [by apply Z.log2_lxor|].
  apply Z.max_lub_lt.
  - destruct (decide (x = 0)) as [->|]; [done|]. apply Z.log2_lt_pow2; lia.
  - destruct (decide (y = 0)) as [->|]; [done|]. apply Z.log2_lt_pow2; lia.
Qed.

Lemma shiftr1_half x : is_u32 x -> 0 <= Z.shiftr x 1 < 2 ^ 31.
Proof.
  intros [H0 H]. rewrite Z.shiftr_div_pow2 by lia. split.
  - apply Z.div_pos; lia.
  - apply Z.div_lt_upper_bound; lia.
Qed.

Lemma crc_round_32 x : is_u32 x -> is_u32 (crc_round x).
Proof.
  intros H. rewrite crc_round_odd. pose proof (shiftr1_half x H).
  apply lxor_32; [unfold is_u32; lia|]. by destruct (Z.odd x).
Qed.

Lemma iter_crc_round_32 n x : is_u32 x -> is_u32 (Nat.iter n crc_round x).
Proof. induction n; rewrite ?Nat.iter_succ; auto using crc_round_32. Qed.

(** The top bit of a round's result is the bit shifted out, so a round loses
    nothing. *)
Lemma crc_round_top x : is_u32 x -> Z.testbit (crc_round x) 31 = Z.odd x.
Proof.
  intros H. rewrite crc_round_odd, Z.lxor_spec.
  assert (Z.testbit (Z.shiftr x 1) 31 = false) as ->.
  { rewrite Z.shiftr_spec by lia. apply Z.testbit_false; [lia|].
    rewrite Z.div_small; [done|]. unfold is_u32 in H. lia. }
  by destruct (Z.odd x).
Qed.

Lemma crc_round_inj x y : is_u32 x -> is_u32 y -> crc_round x = crc_round y -> x = y.
Proof.
  intros Hx Hy E.
  assert (Z.odd x = Z.odd y) as Eo by (by rewrite <-!crc_round_top, E).
  rewrite !crc_round_odd, Eo in E.
  assert (Z.shiftr x 1 = Z.shiftr y 1) as Es.
  { apply (f_equal (fun z => Z.lxor z (if Z.odd y then kPoly else 0))) in E.
    by rewrite !Z.lxor_assoc, !Z.lxor_nilpotent, !Z.lxor_0_r in E. }
  rewrite <-!Z.div2_spec in Es.
  rewrite (Z.div2_odd x), (Z.div2_odd y). congruence.
Qed.

Lemma iter_crc_round_inj n x y :
  is_u32 x -> is_u32 y -> Nat.iter n crc_round x = Nat.iter n crc_round y -> x = y.
Proof.
  intros Hx Hy. induction n as [|n IH]; [done|]. rewrite !Nat.iter_succ. intros E.
  apply IH, crc_round_inj; auto using iter_crc_round_32.
Qed.

Lemma byte_unsigned_u32 p : is_u32 (byte.unsigned p).
Proof. pose proof (byte.unsigned_range p). unfold is_u32. lia. Qed.

(** ** Table lookup *)

Lemma crc_table_lookup i : 0 <= i < 256 -> nth (Z.to_nat i) crc_table 0 = TableAt i.
Proof.
  intros Hi. unfold crc_table.
  rewrite (nth_lookup_Some _ _ _ (TableAt i)); [done|].
  rewrite list_lookup_fmap, lookup_seqZ_lt, Z2Nat.id, Z.add_0_l by lia. done.
Qed.

Lemma land_255_range x : 0 <= Z.land x 255 < 256.
Proof. change 255 with (Z.ones 8). rewrite Z.land_ones by lia. apply Z.mod_pos_bound. lia. Qed.

Lemma split_low_byte x : x = Z.lxor (Z.land x 255) (Z.shiftl (Z.shiftr x 8) 8).
Proof.
  apply Z.bits_inj'. intros n Hn.
  change 255 with (Z.ones 8).
  rewrite Z.lxor_spec, Z.land_spec, Z.shiftl_spec by done.
  destruct (decide (n < 8)).
  - rewrite Z.ones_spec_low, andb_true_r by lia.
    rewrite (Z.testbit_neg_r _ (n - 8)) by lia. by rewrite xorb_false_r.
  - rewrite Z.ones_spec_high, andb_false_r by lia.
    rewrite Z.shiftr_spec by lia. cbn. f_equal. lia.
Qed.

Lemma crc_byte_ref crc p : is_u32 crc -> crc_byte crc p = crc_ref_byte crc p.
Proof.
  intros Hc. unfold crc_byte, crc_ref_byte.
  set (x := Z.lxor crc (byte.unsigned p)).
  rewrite crc_table_lookup by apply land_255_range.
  rewrite (split_low_byte x) at 2.
  rewrite iter_crc_round_lxor. change 8 with (Z.of_nat 8) at 3.
  rewrite iter_crc_round_shiftl. f_equal. unfold x.
  rewrite Z.shiftr_lxor.
  rewrite (Z.shiftr_div_pow2 (byte.unsigned p)), Z.div_small by
    (try apply byte.unsigned_range; lia).
  by rewrite Z.lxor_0_r.
Qed.

Lemma crc_ref_byte_32 crc p : is_u32 crc -> is_u32 (crc_ref_byte crc p).
Proof. intros H. apply iter_crc_round_32, lxor_32; auto using byte_unsigned_u32. Qed.

Lemma fold_crc_ref_32 data s : is_u32 s -> is_u32 (fold_left crc_ref_byte data s).
Proof.
  revert s. induction data as [|p data IH]; intros s Hs; [done|].
  rewrite ?fold_left_cons. by apply IH, crc_ref_byte_32.
Qed.

Lemma fold_crc_byte_ref data s :
  is_u32 s -> fold_left crc_byte data s = fold_left crc_ref_byte data s.
Proof.
  revert s. induction data as [|p data IH]; intros s Hs; [done|].
  rewrite ?fold_left_cons. rewrite crc_byte_ref by done. by apply IH, crc_ref_byte_32.
Qed.

Lemma u32_lnot_involutive x : is_u32 x -> u32 (Z.lnot (u32 (Z.lnot x))) = x.
Proof.
  intros H. unfold u32, Z.lnot, is_u32 in *. rewrite <-!Z.sub_1_r.
  assert ((- x - 1) mod 2 ^ 32 = 2 ^ 32 - 1 - x) as ->.
  { symmetry. apply (Z.mod_unique _ _ (-1)); lia. }
  symmetry. apply (Z.mod_unique _ _ (-1)); lia.
Qed.

Lemma u32_lnot_inj x y : is_u32 x -> is_u32 y -> u32 (Z.lnot x) = u32 (Z.lnot y) -> x = y.
Proof.
  intros Hx Hy E. rewrite <-(u32_lnot_involutive x), <-(u32_lnot_involutive y) by done.
  by rewrite E.
Qed.

Lemma Crc32c_fold data seed :
  Crc32c data seed = u32 (Z.lnot (fold_left crc_ref_byte data (u32 (Z.lnot seed)))).
Proof. unfold Crc32c. rewrite fold_crc_byte_ref; [done|]. apply u32_range. Qed.

Lemma Crc32c_range data seed : is_u32 (Crc32c data seed).
Proof. apply u32_range. Qed.

(** Chaining, the shared lemma behind the split checksums. *)
Lemma Crc32c_app a b seed : Crc32c (a ++ b) seed = Crc32c b (Crc32c a seed).
Proof.
  rewrite !Crc32c_fold, u32_lnot_involutive, fold_left_app; [done|].
  apply fold_crc_ref_32, u32_range.
Qed.

Lemma lor_byte_lxor p w :
  Z.lor (byte.unsigned p) (Z.shiftl w 8) = Z.lxor (byte.unsigned p) (Z.shiftl w 8).
Proof.
  apply Z.bits_inj'. intros n Hn. rewrite Z.lor_spec, Z.lxor_spec.
  destruct (decide (n < 8)).
  - rewrite Z.shiftl_spec_low by lia. by destruct (Z.testbit _ _).
  - rewrite (Z.bits_above_log2 (byte.unsigned p)); [done|apply byte.unsigned_range|].
    destruct (decide (byte.unsigned p = 0)) as [->|]; [cbn; lia|].
    assert (Z.log2 (byte.unsigned p) < 8); [|lia].
    pose proof (byte.unsigned_range p). apply Z.log2_lt_pow2; lia.
Qed.

(** Up to four bytes enter the register as one little-endian word. *)
Lemma fold_crc_ref_word bs s :
  is_u32 s ->
  fold_left crc_ref_byte bs s = Nat.iter (8 * length bs) crc_round (Z.lxor s (le_combine bs)).
Proof.
  revert s. induction bs as [|p bs IH]; intros s Hs.
  - cbn. by rewrite Z.lxor_0_r.
  - cbn [length]. rewrite fold_left_cons. rewrite IH by by apply crc_ref_byte_32.
    replace (8 * S (length bs))%nat with (8 * length bs + 8)%nat by lia.
    rewrite Nat.iter_add. f_equal. unfold crc_ref_byte.
    change (le_combine (p :: bs)) with
      (Z.lor (byte.unsigned p) (Z.shiftl (le_combine bs) 8)).
    rewrite lor_byte_lxor, <-Z.lxor_assoc.
    rewrite (iter_crc_round_lxor 8 (Z.lxor s (byte.unsigned p))).
    pose proof (iter_crc_round_shiftl 8 (le_combine bs)) as E.
    change (Z.of_nat 8) with 8 in E. by rewrite E.
Qed.

Lemma le_combine_u32 bs : (length bs <= 4)%nat -> is_u32 (le_combine bs).
Proof.
  intros H. pose proof (le_combine_bound bs). split; [lia|].
  eapply Z.lt_le_trans; [apply H0|]. apply Z.pow_le_mono_r; lia.
Qed.

Lemma lxor_cancel_l x y z : Z.lxor x y = Z.lxor x z -> y = z.
Proof.
  intros E. apply (f_equal (Z.lxor x)) in E.
  by rewrite <-!Z.lxor_assoc, !Z.lxor_nilpotent, !Z.lxor_0_l in E.
Qed.

Lemma crc_ref_byte_inj p s1 s2 :
  is_u32 s1 -> is_u32 s2 -> crc_ref_byte s1 p = crc_ref_byte s2 p -> s1 = s2.
Proof.
  intros H1 H2. unfold crc_ref_byte. pose proof (byte_unsigned_u32 p) as Hp.
  intros E%iter_crc_round_inj; [|by apply lxor_32..].
  rewrite !(Z.lxor_comm _ (byte.unsigned p)) in E. by eapply lxor_cancel_l.
Qed.

Lemma fold_crc_ref_inj data s1 s2 :
  is_u32 s1 -> is_u32 s2 ->
  fold_left crc_ref_byte data s1 = fold_left crc_ref_byte data s2 -> s1 = s2.
Proof.
  revert s1 s2. induction data as [|p data IH]; intros s1 s2 H1 H2; [exact id|].
  rewrite !fold_left_cons. intros E.
  apply IH in E; [|by apply crc_ref_byte_32..]. by apply crc_ref_byte_inj in E.
Qed.

(** A window of at most four bytes is determined by the checksum of the whole
    message once the bytes around it are fixed. *)
Lemma Crc32c_window pre w1 w2 post seed :
  (length w1 <= 4)%nat -> length w1 = length w2 ->
  Crc32c (pre ++ w1 ++ post) seed = Crc32c (pre ++ w2 ++ post) seed -> w1 = w2.
Proof.
  intros H4 Hl E. rewrite !Crc32c_fold in E.
  apply u32_lnot_inj in E; [|apply fold_crc_ref_32, u32_range..].
  rewrite !fold_left_app in E.
  set (s := fold_left crc_ref_byte pre (u32 (Z.lnot seed))) in E.
  assert (is_u32 s) by apply fold_crc_ref_32, u32_range.
  apply fold_crc_ref_inj in E; [|by apply fold_crc_ref_32..].
  rewrite !fold_crc_ref_word, <-Hl in E by done.
  apply iter_crc_round_inj in E; [|apply lxor_32; [done|apply le_combine_u32; lia]..].
  apply le_combine_inj; [done|]. by eapply lxor_cancel_l.
Qed.

#[export] Hint Resolve Crc32c_range : pomai.

(** ** Properties *)

(** The table-driven checksum equals the bit-serial CRC32C reference, for
    every message and every seed. *)
Theorem Crc32c_equals_reference data seed : Crc32c data seed = crc_ref data seed.
Proof. apply Crc32c_fold. Qed.

(** Checksumming a message in two pieces, passing the first checksum as
    the seed of the second, gives the checksum of the whole message. *)
Theorem Crc32c_chains a b seed :
  Crc32c (a ++ b) seed = Crc32c b (Crc32c a seed) /\ is_u32 (Crc32c (a ++ b) seed).
Proof. split; [apply Crc32c_app | apply Crc32c_range]. Qed.

(** C40. Error detection: if two messages of the same length differ only inside
    a window of at most four consecutive bytes, their checksums differ. *)
Theorem Crc32c_detects_burst pre w1 w2 post seed :
  (length w1 <= 4)%nat -> length w1 = length w2 -> w1 <> w2 ->
  Crc32c (pre ++ w1 ++ post) seed <> Crc32c (pre ++ w2 ++ post) seed.
Proof. intros H4 Hl Hne E. by apply Hne, (Crc32c_window pre w1 w2 post seed). Qed.

Lemma Crc32c_detects_burst_witness :
  Crc32c (bstr "po" ++ bstr "mai" ++ bstr "db") 0 <>
  Crc32c (bstr "po" ++ bstr "mbi" ++ bstr "db") 0.
Proof. apply (Crc32c_detects_burst (bstr "po")); [cbn; lia | reflexivity | discriminate]. Defined.
