(* ===== verification/FlatHash.v ===== *)
(** * The open-addressing hash map of the memtable (src/table/flat_hash_memmap.h)

    [FlatHashMemMap] with the slots as a list, [K = VectorId] (a 64-bit
    integer) and [hash_] a parameter: [std::hash] only has to return a
    [size_t].  [size_t] additions and subtractions are always masked by
    [cap_ - 1] in the source, so their wrap-around at 2^64 is invisible and
    they are written over [Z].  The file proves that the table implements a
    finite map ([fh_abs]): [Put] (through any number of [Grow]s), [Find] and
    [Clear] refine insert, lookup and empty.  The interface [IdMap] states this
    contract for the clients. *)
From S2P Require Import Prelude.

Open Scope Z_scope.

(** ** The contract a client relies on *)

Class IdMap (T : Type) (V : Type) := {
  im_new : Z -> T;
  im_clear : T -> T;
  im_put : Z -> V -> T -> bool * T;
  im_find : Z -> T -> option V;
  im_entries : T -> list (Z * V);
  im_size : T -> Z;
  im_wf : T -> Prop;
  im_abs : T -> gmap Z V;
}.

(** The sentinel key is reserved ([assert(key != sentinel_)] in [Put]). *)
Definition kEmptyKey : Z := 2 ^ 64 - 1.

Class IdMapLaws (T V : Type) `{IdMap T V} : Prop := {
  im_wf_new cap : 0 <= cap <= 2 ^ 63 -> im_wf (im_new cap);
  im_abs_new cap : im_abs (im_new cap) = ∅;
  im_wf_clear t : im_wf t -> im_wf (im_clear t);
  im_abs_clear t : im_abs (im_clear t) = ∅;
  im_wf_put k v t : im_wf t -> k <> kEmptyKey -> im_wf (im_put k v t).2;
  im_abs_put k v t :
    im_wf t -> k <> kEmptyKey -> im_abs (im_put k v t).2 = <[k := v]> (im_abs t);
  im_find_abs k t : im_wf t -> k <> kEmptyKey -> im_find k t = im_abs t !! k;
  im_entries_perm t : im_wf t -> im_entries t ≡ₚ map_to_list (im_abs t);
  im_size_abs t : im_wf t -> im_size t = Z.of_nat (size (im_abs t));
}.

Section flat_hash.
Context {V : Type} (vdef : V) (hash_ : Z -> Z).

(** [Slot]: key and value. *)
Local Abbreviation Slot := (Z * V)%type.

(** src/table/flat_hash_memmap.h:170-176 [FlatHashMemMap]. [mask_] is
    [cap_ - 1] throughout and is computed from [cap_]. *)
Record FlatHashMemMap : Type := MkFlatHash {
  fh_cap : Z;
  fh_slots : list Slot;
  fh_count : Z
}.

(** src/table/flat_hash_memmap.h:193-203 [RoundUpPow2]. On [size_t]. *)
Definition RoundUpPow2 (n : Z) : Z :=
  if n =? 0 then 1 else
  let n := n - 1 in
  let n := Z.lor n (Z.shiftr n 1) in
  let n := Z.lor n (Z.shiftr n 2) in
  let n := Z.lor n (Z.shiftr n 4) in
  let n := Z.lor n (Z.shiftr n 8) in
  let n := Z.lor n (Z.shiftr n 16) in
  let n := Z.lor n (Z.shiftr n 32) in
  u64 (n + 1).

(** src/table/flat_hash_memmap.h:186-191 [clear_slots]. Over the whole array. *)
Definition clear_slots (cap : Z) : list Slot := replicate (Z.to_nat cap) (kEmptyKey, vdef).

(** src/table/flat_hash_memmap.h:54-62 [FlatHashMemMap::FlatHashMemMap]. *)
Definition fh_new (initial_cap : Z) : FlatHashMemMap :=
  let cap := if initial_cap =? 0 then 64 else RoundUpPow2 initial_cap in
  MkFlatHash cap (clear_slots cap) 0.

(** src/table/flat_hash_memmap.h:178-180 [threshold]. *)
Definition fh_threshold (cap : Z) : Z := (cap * 3) / 4.

(** src/table/flat_hash_memmap.h:182-184 [BucketOf]. *)
Definition BucketOf (cap : Z) (k : Z) : Z := Z.land (hash_ k) (cap - 1).

(** src/table/flat_hash_memmap.h:210-210 [PutInternal]. Index of the i-th probed slot. *)
Definition fh_probe (cap idx i : Z) : nat := Z.to_nat (Z.land (idx + i) (cap - 1)).

Definition fh_slot (slots : list Slot) (p : nat) : Slot := default (kEmptyKey, vdef) (slots !! p).

(** The probe loops run [i = 0, 1, ..., cap_ - 1] and leave at the first slot
    on which they act; [fh_scan] is that first [i]. *)
Definition fh_scan (stop : Slot -> bool) (slots : list Slot) (cap idx : Z) : option Z :=
  snd <$> list_find (fun i => Is_true (stop (fh_slot slots (fh_probe cap idx i)))) (seqZ 0 cap).

Definition is_empty_slot (s : Slot) : bool := bool_decide (s.1 = kEmptyKey).
Definition empty_or_key (key : Z) (s : Slot) : bool :=
  bool_decide (s.1 = kEmptyKey) || bool_decide (s.1 = key).

(** src/table/flat_hash_memmap.h:82-90 [Find]. *)
Definition fh_Find (key : Z) (m : FlatHashMemMap) : option V :=
  let idx := BucketOf (fh_cap m) key in
  match fh_scan (empty_or_key key) (fh_slots m) (fh_cap m) idx with
  | None => None
  | Some i =>
      let s := fh_slot (fh_slots m) (fh_probe (fh_cap m) idx i) in
      if is_empty_slot s then None else Some s.2
  end.

(** src/table/flat_hash_memmap.h:206-226 [PutInternal]. With
    [allow_overwrite = true], its only use; gives the new slots, the new
    [count_] and whether the key is new. *)
Definition fh_PutInternal (slots : list Slot) (cap count key : Z) (value : V)
    : bool * (list Slot * Z) :=
  let idx := BucketOf cap key in
  match fh_scan (empty_or_key key) slots cap idx with
  | None => (false, (slots, count))
  | Some i =>
      let p := fh_probe cap idx i in
      if is_empty_slot (fh_slot slots p) then
        (true, (<[p := (key, value)]> slots, count + 1))
      else (false, (<[p := ((fh_slot slots p).1, value)]> slots, count))
  end.

(** src/table/flat_hash_memmap.h:252-262 [PutIntoRaw]. *)
Definition fh_PutIntoRaw (cap : Z) (slots : list Slot) (s : Slot) : list Slot :=
  let idx := BucketOf cap s.1 in
  match fh_scan is_empty_slot slots cap idx with
  | None => slots
  | Some i => <[fh_probe cap idx i := s]> slots
  end.

(** src/table/flat_hash_memmap.h:228-250 [Grow]. *)
Definition fh_Grow (m : FlatHashMemMap) : FlatHashMemMap :=
  let new_cap := fh_cap m * 2 in
  let step new_slots s :=
    if is_empty_slot s then new_slots else fh_PutIntoRaw new_cap new_slots s in
  MkFlatHash new_cap (fold_left step (fh_slots m) (clear_slots new_cap)) (fh_count m).

(** src/table/flat_hash_memmap.h:73-79 [Put]. *)
Definition fh_Put (key : Z) (value : V) (m : FlatHashMemMap) : bool * FlatHashMemMap :=
  let m := if fh_threshold (fh_cap m) <=? fh_count m then fh_Grow m else m in
  let '(fresh, (slots, count)) :=
    fh_PutInternal (fh_slots m) (fh_cap m) (fh_count m) key value in
  (fresh, MkFlatHash (fh_cap m) slots count).

(** src/table/flat_hash_memmap.h:112-127 [Erase]. The backward-shift loop:
    [i] runs from [cap_ - n] to [cap_ - 1], [hole] moves with it. *)
Fixpoint fh_shift (n : nat) (i hole cap : Z) (slots : list Slot) : list Slot * Z :=
  match n with
  | O => (slots, hole)
  | S n' =>
      let next := Z.land (hole + i) (cap - 1) in
      let s := fh_slot slots (Z.to_nat next) in
      if is_empty_slot s then (slots, hole) else
      let home := BucketOf cap s.1 in
      let dist_home_to_next := Z.land (next - home) (cap - 1) in
      let dist_home_to_hole := Z.land (hole - home) (cap - 1) in
      if dist_home_to_hole <=? dist_home_to_next
      then fh_shift n' (i + 1) next cap (<[Z.to_nat hole := s]> slots)
      else fh_shift n' (i + 1) hole cap slots
  end.

(** src/table/flat_hash_memmap.h:98-133 [Erase]. *)
Definition fh_Erase (key : Z) (m : FlatHashMemMap) : bool * FlatHashMemMap :=
  let cap := fh_cap m in
  let idx := BucketOf cap key in
  match fh_scan (empty_or_key key) (fh_slots m) cap idx with
  | None => (false, m)
  | Some i =>
      let pos := fh_probe cap idx i in
      if is_empty_slot (fh_slot (fh_slots m) pos) then (false, m) else
      let '(slots, hole) :=
        fh_shift (Z.to_nat (cap - 1)) 1 (Z.of_nat pos) cap (fh_slots m) in
      (true, MkFlatHash cap (<[Z.to_nat hole := (kEmptyKey, vdef)]> slots) (fh_count m - 1))
  end.

(** src/table/flat_hash_memmap.h:139-142 [Clear]. *)
Definition fh_Clear (m : FlatHashMemMap) : FlatHashMemMap :=
  MkFlatHash (fh_cap m) (clear_slots (fh_cap m)) 0.

(** src/table/flat_hash_memmap.h:145-153 [ForEach]. The slots the callback
    sees, in the order it sees them. *)
Definition fh_ForEach (m : FlatHashMemMap) : list Slot :=
  filter (fun s => is_empty_slot s = false) (fh_slots m).

(** ** Specification *)

(** The live entries of an array of slots. *)
Definition fh_live (slots : list Slot) : list Slot :=
  filter (fun s => is_empty_slot s = false) slots.

(** The finite map a table stands for. *)
Definition fh_abs (m : FlatHashMemMap) : gmap Z V := list_to_map (fh_live (fh_slots m)).

Definition fh_occupied (slots : list Slot) (p : nat) : Prop :=
  is_empty_slot (fh_slot slots p) = false.

(** Every live entry is reachable from its home bucket through occupied slots. *)
Definition fh_placed (cap : Z) (slots : list Slot) : Prop :=
  forall p s, slots !! p = Some s -> is_empty_slot s = false ->
  exists i, 0 <= i < cap /\ p = fh_probe cap (BucketOf cap s.1) i /\
    forall j, 0 <= j < i -> fh_occupied slots (fh_probe cap (BucketOf cap s.1) j).

Record fh_table (cap : Z) (slots : list Slot) : Prop := {
  ft_pow : exists k, 0 <= k /\ cap = 2 ^ k;
  ft_len : zlen slots = cap;
  ft_nodup : NoDup (fh_live slots).*1;
  ft_placed : fh_placed cap slots
}.

(** The class invariant: load at most three quarters, so a probe ends. *)
Record fh_wf (m : FlatHashMemMap) : Prop := {
  fw_table : fh_table (fh_cap m) (fh_slots m);
  fw_count : fh_count m = zlen (fh_live (fh_slots m));
  fw_load : fh_count m <= fh_threshold (fh_cap m)
}.


(** ** Index arithmetic *)

Implicit Types (slots : list Slot) (key : Z).

Lemma land_pow2 x cap : (exists k, 0 <= k /\ cap = 2 ^ k) -> Z.land x (cap - 1) = x mod cap.
Proof.
  intros (k & Hk & ->). replace (2 ^ k - 1) with (Z.ones k) by (rewrite Z.ones_equiv; lia).
  by rewrite Z.land_ones.
Qed.

Lemma fh_probe_lt cap slots idx i :
  fh_table cap slots -> (fh_probe cap idx i < length slots)%nat.
Proof.
  intros [Hp Hl _ _]. unfold fh_probe, zlen in *. rewrite land_pow2 by done.
  destruct Hp as (k & ? & ->). pose proof (Z.mod_pos_bound (idx + i) (2 ^ k)). lia.
Qed.

Lemma mod_add_inj c a i j :
  0 < c -> 0 <= i < c -> 0 <= j < c -> (a + i) mod c = (a + j) mod c -> i = j.
Proof.
  intros Hc Hi Hj E. rewrite (Z.add_mod a i), (Z.add_mod a j), (Z.mod_small i), (Z.mod_small j) in E by lia.
  pose proof (Z.mod_pos_bound a c Hc).
  pose proof (Z.div_mod (a mod c + i) c). pose proof (Z.div_mod (a mod c + j) c).
  pose proof (Z.mod_pos_bound (a mod c + i) c Hc).
  assert ((a mod c + i) / c = 0 \/ (a mod c + i) / c = 1) by nia.
  assert ((a mod c + j) / c = 0 \/ (a mod c + j) / c = 1) by nia. nia.
Qed.

Lemma fh_probe_inj cap idx i j :
  (exists k, 0 <= k /\ cap = 2 ^ k) -> 0 <= i < cap -> 0 <= j < cap ->
  fh_probe cap idx i = fh_probe cap idx j -> i = j.
Proof.
  intros Hp Hi Hj. unfold fh_probe. rewrite !land_pow2 by done. intros E.
  apply (mod_add_inj cap idx); [lia..|].
  pose proof (Z.mod_pos_bound (idx + i) cap). pose proof (Z.mod_pos_bound (idx + j) cap). lia.
Qed.

Lemma fh_probe_surj cap idx p :
  (exists k, 0 <= k /\ cap = 2 ^ k) -> Z.of_nat p < cap ->
  exists i, 0 <= i < cap /\ fh_probe cap idx i = p.
Proof.
  intros Hp Hlt. exists ((Z.of_nat p - idx) mod cap). unfold fh_probe.
  rewrite land_pow2 by done. split; [apply Z.mod_pos_bound; lia|].
  rewrite Z.add_mod_idemp_r by lia. rewrite Z.add_sub_assoc.
  replace (idx + Z.of_nat p - idx) with (Z.of_nat p) by lia.
  rewrite Z.mod_small by lia. lia.
Qed.

(** ** The probe loop *)

Lemma fh_scan_Some stop slots cap idx i :
  fh_scan stop slots cap idx = Some i <->
  0 <= i < cap /\ stop (fh_slot slots (fh_probe cap idx i)) = true /\
  forall j, 0 <= j < i -> stop (fh_slot slots (fh_probe cap idx j)) = false.
Proof.
  unfold fh_scan. rewrite fmap_Some. split.
  - intros ([n i'] & (Hn & Hs & Hb)%list_find_Some & ->). cbn in *.
    apply lookup_seqZ in Hn as [-> ?]. split; [lia|]. split; [by apply Is_true_eq_true|].
    intros j Hj. apply not_true_iff_false. intros Hst.
    apply (Hb (Z.to_nat j) j); [rewrite lookup_seqZ; lia|lia|by apply Is_true_eq_left].
  - intros (Hi & Hs & Hb). exists (Z.to_nat i, i). split; [|done].
    apply list_find_Some. split_and!.
    + rewrite lookup_seqZ. lia.
    + by apply Is_true_eq_left.
    + intros j y [-> Hy]%lookup_seqZ Hlt Hst. rewrite Hb in Hst by lia. done.
Qed.

Lemma fh_scan_is_Some stop slots cap idx i :
  0 <= i < cap -> stop (fh_slot slots (fh_probe cap idx i)) = true ->
  is_Some (fh_scan stop slots cap idx).
Proof.
  intros Hi Hs. unfold fh_scan. apply fmap_is_Some.
  apply (list_find_elem_of _ _ i); [|by apply Is_true_eq_left].
  apply elem_of_seqZ. lia.
Qed.

(** ** Live entries *)

Lemma is_empty_slot_spec s : is_empty_slot s = true <-> s.1 = kEmptyKey.
Proof. unfold is_empty_slot. by rewrite bool_decide_eq_true. Qed.

Lemma is_empty_slot_key k v : k <> kEmptyKey -> is_empty_slot (k, v) = false.
Proof. intros. unfold is_empty_slot. by rewrite bool_decide_eq_false. Qed.

Lemma fh_live_app l1 l2 : fh_live (l1 ++ l2) = fh_live l1 ++ fh_live l2.
Proof. apply filter_app. Qed.

Lemma fh_live_cons s l :
  fh_live (s :: l) = if is_empty_slot s then fh_live l else s :: fh_live l.
Proof.
  unfold fh_live. rewrite filter_cons.
  destruct (is_empty_slot s); by case_decide.
Qed.

Lemma elem_of_fh_live s slots : s ∈ fh_live slots <-> is_empty_slot s = false /\ s ∈ slots.
Proof. unfold fh_live. by rewrite list_elem_of_filter. Qed.

(** Writing a live entry splits the live list around the written slot. *)
Lemma fh_live_insert slots p s s0 :
  slots !! p = Some s0 -> is_empty_slot s = false ->
  exists rest, fh_live (<[p := s]> slots) ≡ₚ s :: rest /\
    fh_live slots ≡ₚ (if is_empty_slot s0 then rest else s0 :: rest).
Proof.
  intros Hp Hs. exists (fh_live (take p slots) ++ fh_live (drop (S p) slots)). split.
  - rewrite insert_take_drop by (by eapply lookup_lt_Some).
    rewrite fh_live_app, fh_live_cons, Hs. by rewrite Permutation_middle.
  - rewrite <-(take_drop_middle slots p s0 Hp) at 1.
    rewrite fh_live_app, fh_live_cons. destruct (is_empty_slot s0); [done|].
    by rewrite Permutation_middle.
Qed.

Lemma fh_live_pos_inj slots p q s t :
  NoDup (fh_live slots).*1 -> slots !! p = Some s -> slots !! q = Some t ->
  is_empty_slot s = false -> s.1 = t.1 -> p = q.
Proof.
  revert p q. induction slots as [|u l IH]; intros p q Hnd Hp Hq Hs He; [done|].
  assert (is_empty_slot t = false) as Ht by (revert Hs; unfold is_empty_slot; by rewrite He).
  rewrite fh_live_cons in Hnd.
  destruct p as [|p], q as [|q]; cbn in *; simplify_eq; try done.
  - rewrite Hs in Hnd. apply NoDup_cons in Hnd as [Hn _]. destruct Hn.
    rewrite He. apply list_elem_of_fmap_2, elem_of_fh_live. eauto using list_elem_of_lookup_2.
  - rewrite Ht in Hnd. apply NoDup_cons in Hnd as [Hn _]. destruct Hn.
    rewrite <-He. apply list_elem_of_fmap_2, elem_of_fh_live. eauto using list_elem_of_lookup_2.
  - f_equal. apply IH; try done. destruct (is_empty_slot u); [done|].
    by apply NoDup_cons in Hnd as [].
Qed.

Lemma fh_exists_empty slots :
  (length (fh_live slots) < length slots)%nat ->
  exists p s, slots !! p = Some s /\ is_empty_slot s = true.
Proof.
  induction slots as [|s l IH]; cbn [length]; [lia|]. rewrite fh_live_cons.
  destruct (is_empty_slot s) eqn:E; [by exists 0%nat, s|]. cbn [length].
  intros H. destruct IH as (p & t & ? & ?); [lia|]. by exists (S p), t.
Qed.

Lemma fh_slot_lookup slots p s : slots !! p = Some s -> fh_slot slots p = s.
Proof. unfold fh_slot. by intros ->. Qed.

Lemma fh_slot_lt slots p : (p < length slots)%nat -> slots !! p = Some (fh_slot slots p).
Proof. intros [s Hs]%lookup_lt_is_Some. by rewrite (fh_slot_lookup _ _ _ Hs). Qed.

Lemma fh_slot_insert slots p q s :
  (p < length slots)%nat -> fh_slot (<[p := s]> slots) q = if decide (p = q) then s else fh_slot slots q.
Proof.
  intros H. unfold fh_slot. case_decide; subst.
  - by rewrite list_lookup_insert_eq.
  - by rewrite list_lookup_insert_ne.
Qed.

(** ** Search, and insertion at the end of a probe *)

Lemma fh_table_empty cap slots :
  fh_table cap slots -> zlen (fh_live slots) < cap -> forall idx,
  exists i, 0 <= i < cap /\ is_empty_slot (fh_slot slots (fh_probe cap idx i)) = true.
Proof.
  intros Ht Hlt idx. destruct (fh_exists_empty slots) as (p & s & Hp & Hs).
  { destruct Ht. unfold zlen in *. lia. }
  destruct (fh_probe_surj cap idx p) as (i & Hi & <-).
  - apply ft_pow in Ht as ?. done.
  - apply lookup_lt_Some in Hp. destruct Ht. unfold zlen in *. lia.
  - exists i. by rewrite (fh_slot_lookup _ _ _ Hp).
Qed.

Lemma fh_live_key cap slots key :
  fh_table cap slots -> key ∈ (fh_live slots).*1 ->
  exists i s, 0 <= i < cap /\ let p := fh_probe cap (BucketOf cap key) i in
    slots !! p = Some s /\ s.1 = key /\ is_empty_slot s = false /\
    forall j, 0 <= j < i -> empty_or_key key (fh_slot slots (fh_probe cap (BucketOf cap key) j)) = false.
Proof.
  intros Ht (s & -> & (Hs & (p & Hp)%list_elem_of_lookup)%elem_of_fh_live)%list_elem_of_fmap.
  destruct (ft_placed _ _ Ht p s Hp Hs) as (i & Hi & -> & Hocc).
  exists i, s. split; [done|]. cbn zeta. split_and!; [done..|]. intros j Hj.
  unfold empty_or_key. apply orb_false_iff. split; [by apply Hocc|].
  apply bool_decide_eq_false. intros E.
  assert (i = j); [|lia]. eapply (fh_probe_inj cap (BucketOf cap s.1)); [apply Ht|lia..|].
  eapply (fh_live_pos_inj slots); [apply Ht|done|apply fh_slot_lt|done|done].
  by eapply fh_probe_lt.
Qed.

Lemma fh_scan_key cap slots key :
  fh_table cap slots -> zlen (fh_live slots) < cap -> key <> kEmptyKey ->
  exists i, fh_scan (empty_or_key key) slots cap (BucketOf cap key) = Some i /\
    let s := fh_slot slots (fh_probe cap (BucketOf cap key) i) in
    (is_empty_slot s = true /\ key ∉ (fh_live slots).*1) \/ (is_empty_slot s = false /\ s.1 = key).
Proof.
  intros Ht Hlt Hk. destruct (fh_table_empty cap slots Ht Hlt (BucketOf cap key)) as (i0 & Hi0 & He0).
  destruct (fh_scan_is_Some (empty_or_key key) slots cap (BucketOf cap key) i0) as [i Hi]; [done| |].
  { unfold empty_or_key. by unfold is_empty_slot in He0; rewrite He0. }
  clear He0. exists i. split; [done|]. apply fh_scan_Some in Hi as (Hi & Hstop & Hbef). cbn zeta.
  unfold empty_or_key in Hstop. destruct (is_empty_slot _) eqn:E; unfold is_empty_slot in E.
  - left. split; [done|]. intros (j & s & Hj & Hp & <- & Hs & Hb)%(fh_live_key cap); [|done].
    destruct (Z.lt_trichotomy i j) as [?|[->|?]].
    + specialize (Hb i). unfold empty_or_key in Hb. rewrite E in Hb. by discriminate Hb; lia.
    + rewrite (fh_slot_lookup _ _ _ Hp) in E. unfold is_empty_slot in Hs. congruence.
    + specialize (Hbef j). rewrite (fh_slot_lookup _ _ _ Hp) in Hbef. unfold empty_or_key in Hbef.
      rewrite (bool_decide_eq_true_2 (s.1 = s.1)), orb_true_r in Hbef by done. by discriminate Hbef; lia.
  - right. split; [done|]. rewrite E in Hstop. by apply bool_decide_eq_true in Hstop.
Qed.

Lemma fh_placed_insert cap slots p s0 s :
  fh_placed cap slots -> slots !! p = Some s0 -> is_empty_slot s = false ->
  (exists i, 0 <= i < cap /\ p = fh_probe cap (BucketOf cap s.1) i /\
    forall j, 0 <= j < i -> fh_occupied slots (fh_probe cap (BucketOf cap s.1) j)) ->
  fh_placed cap (<[p := s]> slots).
Proof.
  intros Hpl Hp Hs Hnew q t Hq Ht.
  assert (forall r, fh_occupied slots r -> fh_occupied (<[p := s]> slots) r) as Hmono.
  { intros r. unfold fh_occupied. rewrite fh_slot_insert by (by eapply lookup_lt_Some).
    by case_decide. }
  destruct (decide (q = p)) as [->|Hne].
  - rewrite list_lookup_insert_eq in Hq by (by eapply lookup_lt_Some). simplify_eq.
    destruct Hnew as (i & ? & ? & ?). exists i. eauto.
  - rewrite list_lookup_insert_ne in Hq by done.
    destruct (Hpl q t Hq Ht) as (i & ? & ? & ?). exists i. eauto.
Qed.

(** Writing an entry into the empty slot its probe reached. *)
Lemma fh_table_add cap slots i key v :
  fh_table cap slots -> key <> kEmptyKey -> key ∉ (fh_live slots).*1 ->
  let idx := BucketOf cap key in
  0 <= i < cap -> is_empty_slot (fh_slot slots (fh_probe cap idx i)) = true ->
  (forall j, 0 <= j < i -> fh_occupied slots (fh_probe cap idx j)) ->
  fh_table cap (<[fh_probe cap idx i := (key, v)]> slots) /\
  fh_live (<[fh_probe cap idx i := (key, v)]> slots) ≡ₚ (key, v) :: fh_live slots.
Proof.
  intros Ht Hk Hnew idx Hi He Hocc.
  pose proof (fh_slot_lt slots _ (fh_probe_lt cap slots idx i Ht)) as Hp.
  destruct (fh_live_insert slots _ (key, v) _ Hp) as (rest & E1 & E2); [by apply is_empty_slot_key|].
  rewrite He in E2. rewrite E1, E2. split; [|done]. split; [apply Ht|..].
  - rewrite <-(ft_len _ _ Ht). len.
  - rewrite E1. cbn. rewrite <-E2. constructor; [done|apply Ht].
  - eapply fh_placed_insert; [apply Ht|done|by apply is_empty_slot_key|]. exists i. done.
Qed.

(** Overwriting the value of an entry in place. *)
Lemma fh_table_overwrite cap slots p s v :
  fh_table cap slots -> slots !! p = Some s -> is_empty_slot s = false ->
  exists rest, fh_table cap (<[p := (s.1, v)]> slots) /\
    fh_live slots ≡ₚ s :: rest /\ fh_live (<[p := (s.1, v)]> slots) ≡ₚ (s.1, v) :: rest.
Proof.
  intros Ht Hp Hs.
  destruct (fh_live_insert slots p (s.1, v) s Hp) as (rest & E1 & E2); [done|].
  rewrite Hs in E2. exists rest. split_and!; [|done..]. split; [apply Ht|..].
  - rewrite <-(ft_len _ _ Ht). len.
  - rewrite E1. pose proof (ft_nodup _ _ Ht) as Hnd. by rewrite E2 in Hnd.
  - eapply fh_placed_insert; [apply Ht|done|done|]. exact (ft_placed _ _ Ht p s Hp Hs).
Qed.

Lemma fh_live_clear cap : fh_live (clear_slots cap) = [].
Proof.
  unfold clear_slots. induction (Z.to_nat cap) as [|n IH]; [done|].
  by cbn [replicate]; rewrite fh_live_cons.
Qed.

Lemma fh_table_clear cap :
  (exists k, 0 <= k /\ cap = 2 ^ k) -> fh_table cap (clear_slots cap).
Proof.
  intros Hp. pose proof (fh_live_clear cap) as El. split; [done| |by rewrite El; constructor|].
  - unfold clear_slots. destruct Hp as (k & ? & ->). len.
  - intros p s Hps Hs. exfalso. assert (s ∈ fh_live (clear_slots cap)) as Hin.
    { apply elem_of_fh_live. eauto using list_elem_of_lookup_2. }
    rewrite El in Hin. by apply not_elem_of_nil in Hin.
Qed.

Lemma fh_PutIntoRaw_spec cap slots s :
  fh_table cap slots -> zlen (fh_live slots) < cap -> is_empty_slot s = false ->
  s.1 ∉ (fh_live slots).*1 ->
  fh_table cap (fh_PutIntoRaw cap slots s) /\ fh_live (fh_PutIntoRaw cap slots s) ≡ₚ s :: fh_live slots.
Proof.
  intros Ht Hlt Hs Hnew. unfold fh_PutIntoRaw. destruct s as [key v]. cbn [fst] in *.
  assert (key <> kEmptyKey) as Hk by (intros ->; by unfold is_empty_slot in Hs; rewrite bool_decide_eq_true_2 in Hs).
  destruct (fh_table_empty cap slots Ht Hlt (BucketOf cap key)) as (i0 & Hi0 & He0).
  destruct (fh_scan_is_Some is_empty_slot slots cap (BucketOf cap key) i0 Hi0 He0) as [i Hi].
  rewrite Hi. apply fh_scan_Some in Hi as (Hi & Hstop & Hbef).
  by apply fh_table_add.
Qed.

(** [Grow]: the loop re-inserts every live entry into the larger array. *)
Lemma fh_rehash_spec cap l slots :
  fh_table cap slots -> NoDup (fh_live l ++ fh_live slots).*1 ->
  zlen (fh_live l) + zlen (fh_live slots) <= cap ->
  let r := fold_left (fun acc s => if is_empty_slot s then acc else fh_PutIntoRaw cap acc s) l slots in
  fh_table cap r /\ fh_live r ≡ₚ fh_live l ++ fh_live slots.
Proof.
  revert slots. induction l as [|s l IH]; intros slots Ht Hnd Hle; [done|].
  cbn zeta. rewrite fold_left_cons. rewrite fh_live_cons in *.
  destruct (is_empty_slot s) eqn:Hs; [by apply IH|].
  cbn [app fmap list_fmap] in Hnd. rewrite fmap_app in Hnd. apply NoDup_cons in Hnd as [Hnin Hnd].
  destruct (fh_PutIntoRaw_spec cap slots s) as [Ht' El]; [done|len|done| |].
  { intros ?. by apply Hnin, elem_of_app; right. }
  assert (fh_live l ++ fh_live (fh_PutIntoRaw cap slots s) ≡ₚ (s :: fh_live l) ++ fh_live slots) as Ep.
  { rewrite El. by rewrite <-Permutation_middle. }
  destruct (IH (fh_PutIntoRaw cap slots s)) as [? E]; [done| | |].
  - rewrite Ep. cbn. rewrite fmap_app. by constructor.
  - apply Permutation_length in El. len.
  - split; [done|]. by rewrite E, Ep.
Qed.

Lemma fh_threshold_lt cap : 0 < cap -> fh_threshold cap < cap.
Proof. intros. unfold fh_threshold. apply Z.div_lt_upper_bound; lia. Qed.

Lemma fh_threshold_double cap : 0 < cap -> fh_threshold cap < fh_threshold (cap * 2).
Proof.
  intros. unfold fh_threshold.
  pose proof (Z.div_mod (cap * 3) 4). pose proof (Z.mod_pos_bound (cap * 3) 4).
  pose proof (Z.div_mod (cap * 2 * 3) 4). pose proof (Z.mod_pos_bound (cap * 2 * 3) 4). lia.
Qed.

Lemma fh_pow_pos cap : (exists k, 0 <= k /\ cap = 2 ^ k) -> 0 < cap.
Proof. intros (k & ? & ->). lia. Qed.

Lemma fh_wf_room m : fh_wf m -> zlen (fh_live (fh_slots m)) < fh_cap m.
Proof.
  intros [Ht Hc Hl]. pose proof (fh_threshold_lt (fh_cap m)).
  pose proof (fh_pow_pos _ (ft_pow _ _ Ht)). lia.
Qed.

Lemma fh_Grow_spec m :
  fh_wf m -> fh_wf (fh_Grow m) /\ fh_count (fh_Grow m) < fh_threshold (fh_cap (fh_Grow m)) /\
  fh_live (fh_slots (fh_Grow m)) ≡ₚ fh_live (fh_slots m).
Proof.
  intros Hwf. pose proof (fh_wf_room m Hwf). destruct Hwf as [Ht Hc Hl].
  pose proof (fh_pow_pos _ (ft_pow _ _ Ht)) as Hpos.
  pose proof (fh_threshold_double _ Hpos).
  destruct (fh_rehash_spec (fh_cap m * 2) (fh_slots m) (clear_slots (fh_cap m * 2))) as [Ht' El].
  - apply fh_table_clear. destruct (ft_pow _ _ Ht) as (k & ? & ->). exists (k + 1).
    split; [lia|]. by rewrite Z.pow_add_r by lia.
  - rewrite fh_live_clear, app_nil_r. apply Ht.
  - rewrite fh_live_clear. cbn. change (zlen []) with 0. lia.
  - rewrite fh_live_clear, app_nil_r in El. unfold fh_Grow.
    split; [split|split]; cbn [fh_slots fh_count fh_cap]; [done| |lia|lia|done].
    rewrite Hc. unfold zlen. by rewrite El.
Qed.

Lemma fh_PutInternal_spec cap slots count key v :
  fh_table cap slots -> zlen (fh_live slots) < cap -> key <> kEmptyKey ->
  exists r, fh_PutInternal slots cap count key v = r /\
    fh_table cap r.2.1 /\ r.1 = bool_decide (key ∉ (fh_live slots).*1) /\
    r.2.2 = count + (zlen (fh_live r.2.1) - zlen (fh_live slots)) /\
    zlen (fh_live r.2.1) = zlen (fh_live slots) + (if r.1 then 1 else 0) /\
    list_to_map (M := gmap Z V) (fh_live r.2.1) = <[key := v]> (list_to_map (fh_live slots)).
Proof.
  intros Ht Hlt Hk. unfold fh_PutInternal. eexists. split; [done|].
  destruct (fh_scan_key cap slots key Ht Hlt Hk) as (i & Hi & Hcase). rewrite Hi. cbn zeta in Hcase.
  apply fh_scan_Some in Hi as (Hi & _ & Hbef).
  set (p := fh_probe cap (BucketOf cap key) i) in *.
  destruct Hcase as [(He & Hnew)|(He & Hkey)]; rewrite He; cbn [fst snd].
  - destruct (fh_table_add cap slots i key v) as [Ht' El]; [done..| |].
    { intros j Hj. specialize (Hbef j Hj). by apply orb_false_iff in Hbef as []. }
    fold p in Ht', El. pose proof (Permutation_length El) as Elen. cbn in Elen.
    split; [done|]. split; [by rewrite bool_decide_eq_true_2|].
    split; [unfold zlen; lia|]. split; [unfold zlen; lia|].
    rewrite (list_to_map_proper _ _ (ft_nodup _ _ Ht') El). done.
  - pose proof (fh_slot_lt slots p (fh_probe_lt cap slots _ i Ht)) as Hp.
    destruct (fh_table_overwrite cap slots p _ v Ht Hp He) as (rest & Ht' & E1 & E2).
    rewrite Hkey in Ht', E2. pose proof (Permutation_length E1) as L1.
    pose proof (Permutation_length E2) as L2. cbn in L1, L2. rewrite Hkey.
    split; [done|]. split.
    { symmetry. apply bool_decide_eq_false. intros H. apply H. rewrite E1. cbn. rewrite Hkey. by left. }
    split; [unfold zlen; lia|]. split; [unfold zlen; lia|].
    rewrite (list_to_map_proper _ _ (ft_nodup _ _ Ht') E2).
    rewrite (list_to_map_proper _ _ (ft_nodup _ _ Ht) E1).
    destruct (fh_slot slots p) as [k' v']. cbn in *. subst k'. by rewrite insert_insert_eq.
Qed.

Lemma fh_Put_spec key v m :
  fh_wf m -> key <> kEmptyKey ->
  fh_wf (fh_Put key v m).2 /\ fh_abs (fh_Put key v m).2 = <[key := v]> (fh_abs m) /\
  (fh_Put key v m).1 = bool_decide (fh_abs m !! key = None).
Proof.
  intros Hwf Hk. unfold fh_Put.
  set (m' := if fh_threshold (fh_cap m) <=? fh_count m then fh_Grow m else m).
  assert (fh_wf m' /\ fh_count m' < fh_threshold (fh_cap m') /\
    fh_live (fh_slots m') ≡ₚ fh_live (fh_slots m)) as (Hwf' & Hload & El).
  { unfold m'. destruct (Z.leb_spec (fh_threshold (fh_cap m)) (fh_count m)); [by apply fh_Grow_spec|done]. }
  pose proof (fh_wf_room m' Hwf') as Hroom. destruct Hwf' as [Ht Hc Hl].
  destruct (fh_PutInternal_spec (fh_cap m') (fh_slots m') (fh_count m') key v Ht Hroom Hk)
    as ([fresh [slots count]] & -> & Ht' & Hf & Hcnt & Hlen & Habs). cbn [fst snd] in *.
  assert (fh_abs m' = fh_abs m) as Ea.
  { unfold fh_abs. apply list_to_map_proper; [apply Ht|done]. }
  split; [split; cbn [fh_slots fh_count fh_cap]; [done|lia|destruct fresh; lia]|].
  split; [rewrite <-Ea; exact Habs|].
  rewrite Hf. apply bool_decide_ext. rewrite <-Ea. unfold fh_abs.
  apply not_elem_of_list_to_map.
Qed.

Lemma fh_Find_spec key m :
  fh_wf m -> key <> kEmptyKey -> fh_Find key m = fh_abs m !! key.
Proof.
  intros Hwf Hk. pose proof (fh_wf_room m Hwf) as Hroom. destruct Hwf as [Ht Hc Hl].
  unfold fh_Find, fh_abs.
  destruct (fh_scan_key _ _ key Ht Hroom Hk) as (i & -> & [[He Hn]|[He Hkey]]); rewrite He.
  - symmetry. by apply not_elem_of_list_to_map.
  - symmetry. apply elem_of_list_to_map; [apply Ht|].
    pose proof (fh_slot_lt (fh_slots m) _ (fh_probe_lt _ _ (BucketOf (fh_cap m) key) i Ht)) as Hp.
    destruct (fh_slot _ _) as [k' v']. cbn in Hkey, He |- *. subst k'.
    apply elem_of_fh_live. eauto using list_elem_of_lookup_2.
Qed.

Lemma fh_wf_clear_slots cap :
  (exists k, 0 <= k /\ cap = 2 ^ k) -> fh_wf (MkFlatHash cap (clear_slots cap) 0).
Proof.
  intros Hp. split; cbn [fh_slots fh_count fh_cap].
  - by apply fh_table_clear.
  - by rewrite fh_live_clear.
  - apply Z.div_pos; [|lia]. pose proof (fh_pow_pos _ Hp). lia.
Qed.

(** ** Capacity rounding *)

(** [x] has bit [i] set iff [m] has one of the bits [i .. i + w - 1] set. *)
Definition covers (w x m : Z) : Prop :=
  0 <= x /\
  forall i, 0 <= i -> Z.testbit x i = true <-> exists j, 0 <= j < w /\ Z.testbit m (i + j) = true.

Definition smear (w x : Z) : Z := Z.lor x (Z.shiftr x w).

Lemma covers_step w x m : 0 < w -> covers w x m -> covers (2 * w) (smear w x) m.
Proof.
  unfold smear. intros Hw [Hx Hc]. split.
  { apply Z.lor_nonneg. by rewrite Z.shiftr_nonneg. }
  intros i Hi. rewrite Z.lor_spec, Z.shiftr_spec, orb_true_iff by done.
  rewrite (Hc i), (Hc (i + w)) by lia. split.
  - intros [(j & ? & ?)|(j & ? & ?)]; [by exists j; split; [lia|]|].
    exists (w + j). split; [lia|]. by rewrite Z.add_assoc.
  - intros (j & ? & ?). destruct (decide (j < w)); [left; by exists j; split; [lia|]|].
    right. exists (j - w). split; [lia|]. by replace (i + w + (j - w)) with (i + j) by lia.
Qed.

Lemma covers_ones m x : 0 < m < 2 ^ 64 -> covers 64 x m -> x = Z.ones (Z.log2 m + 1).
Proof.
  intros Hm [Hx Hc]. assert (0 <= Z.log2 m < 64) as Hl.
  { split; [apply Z.log2_nonneg|apply Z.log2_lt_pow2; lia]. }
  apply Z.bits_inj'. intros i Hi. rewrite Z.testbit_ones_nonneg by lia.
  apply eq_true_iff_eq. rewrite (Hc i Hi), Z.ltb_lt. split.
  - intros (j & ? & Hb). destruct (decide (Z.log2 m < i + j)); [|lia].
    rewrite Z.bits_above_log2 in Hb by lia. done.
  - intros ?. exists (Z.log2 m - i). split; [lia|].
    replace (i + (Z.log2 m - i)) with (Z.log2 m) by lia. apply Z.bit_log2. lia.
Qed.

Lemma RoundUpPow2_smear n :
  n <> 0 -> RoundUpPow2 n =
    u64 (smear 32 (smear 16 (smear 8 (smear 4 (smear 2 (smear 1 (n - 1)))))) + 1).
Proof. intros H. unfold RoundUpPow2. by destruct (Z.eqb_spec n 0). Qed.

Lemma covers_all m : 0 <= m ->
  covers 64 (smear 32 (smear 16 (smear 8 (smear 4 (smear 2 (smear 1 m)))))) m.
Proof.
  intros Hm. apply (covers_step 32), (covers_step 16), (covers_step 8), (covers_step 4),
    (covers_step 2), (covers_step 1); [lia..|].
  split; [done|]. intros i Hi. split.
  - intros; exists 0; split; [lia|by rewrite Z.add_0_r].
  - intros (j & ? & Hb). by replace (i + j) with i in Hb by lia.
Qed.

Lemma RoundUpPow2_spec n : 0 < n <= 2 ^ 63 -> RoundUpPow2 n = 2 ^ Z.log2_up n.
Proof.
  intros Hn. destruct (decide (n = 1)) as [->|]; [done|].
  rewrite RoundUpPow2_smear, (covers_ones (n - 1) _ ltac:(lia) (covers_all (n - 1) ltac:(lia))) by lia.
  rewrite Z.ones_equiv, Z.log2_up_eqn by lia. change (Z.pred n) with (n - 1).
  assert (0 <= Z.log2 (n - 1) < 63) by (split; [apply Z.log2_nonneg|apply Z.log2_lt_pow2; lia]).
  rewrite Z.add_1_r, Z.add_1_r, Z.succ_pred.
  apply u64_id. split; [lia|]. apply Z.pow_lt_mono_r; lia.
Qed.

Lemma fh_wf_new initial_cap : 0 <= initial_cap <= 2 ^ 63 -> fh_wf (fh_new initial_cap).
Proof.
  intros H. unfold fh_new. apply fh_wf_clear_slots.
  destruct (Z.eqb_spec initial_cap 0); [by exists 6|].
  exists (Z.log2_up initial_cap). split; [apply Z.log2_up_nonneg|apply RoundUpPow2_spec; lia].
Qed.

Lemma fh_abs_new initial_cap : fh_abs (fh_new initial_cap) = ∅.
Proof. unfold fh_abs, fh_new. cbn [fh_slots]. by rewrite fh_live_clear. Qed.

Lemma fh_entries_perm m : fh_wf m -> fh_ForEach m ≡ₚ map_to_list (fh_abs m).
Proof.
  intros [Ht _ _]. change (fh_ForEach m) with (fh_live (fh_slots m)). unfold fh_abs.
  rewrite map_to_list_to_map; [done|apply Ht].
Qed.

Lemma fh_size_abs m : fh_wf m -> fh_count m = Z.of_nat (size (fh_abs m)).
Proof.
  intros Hwf. rewrite (fw_count _ Hwf), <-length_map_to_list, <-(fh_entries_perm m Hwf). done.
Qed.

(** The table discharges the contract. *)
#[global] Instance fh_IdMap : IdMap FlatHashMemMap V := {|
  im_new := fh_new; im_clear := fh_Clear; im_put := fh_Put; im_find := fh_Find;
  im_entries := fh_ForEach; im_size := fh_count; im_wf := fh_wf; im_abs := fh_abs
|}.

#[global] Instance fh_IdMapLaws : IdMapLaws FlatHashMemMap V.
Proof.
  split.
  - exact fh_wf_new.
  - exact fh_abs_new.
  - intros t Ht. apply fh_wf_clear_slots, Ht.
  - intros t. unfold im_abs. cbn. unfold fh_abs. cbn [fh_Clear fh_slots]. by rewrite fh_live_clear.
  - intros. by apply fh_Put_spec.
  - intros. by apply fh_Put_spec.
  - exact fh_Find_spec.
  - exact fh_entries_perm.
  - exact fh_size_abs.
Qed.

End flat_hash.

(** ** Properties *)

Section properties.
Context {V : Type} (vdef : V) (hash_ : Z -> Z).

Lemma fh_Find_sentinel m : fh_Find vdef hash_ kEmptyKey m = None.
Proof.
  unfold fh_Find. destruct (fh_scan _ _ _ _ _) as [i|] eqn:Hi; [|done].
  apply fh_scan_Some in Hi as (_ & Hs & _). unfold empty_or_key in Hs. rewrite orb_diag in Hs.
  unfold is_empty_slot. by rewrite Hs.
Qed.

(** C32. The open-addressing table refines a finite map: from a well-formed
    table, [Put] (including the rehash of [Grow]) gives a well-formed table
    that stands for the updated map, reports whether the key is new, and
    [Find] afterwards returns what the map holds at every key. *)
Theorem fh_refines_map m key value k :
  fh_wf vdef hash_ m -> key <> kEmptyKey -> k <> kEmptyKey ->
  let r := fh_Put vdef hash_ key value m in
  fh_wf vdef hash_ r.2 /\
  fh_abs r.2 = <[key := value]> (fh_abs m) /\
  r.1 = bool_decide (fh_abs m !! key = None) /\
  fh_Find vdef hash_ k r.2 = <[key := value]> (fh_abs m) !! k.
Proof.
  intros Hwf Hkey Hk. destruct (fh_Put_spec vdef hash_ key value m Hwf Hkey) as (Hwf' & Ha & Hf).
  cbn zeta. split_and!; [done..|]. by rewrite <-Ha; apply fh_Find_spec.
Qed.

End properties.

Lemma fh_refines_map_witness :
  let m := (fh_Put 0 id 7 70 (fh_new 0 1)).2 in
  fh_cap m = 2 /\ fh_Find 0 id 7 (fh_Put 0 id 9 90 m).2 = Some 70.
Proof.
  split; [reflexivity|].
  assert (fh_wf 0 id (fh_Put 0 id 7 70 (fh_new 0 1)).2) as Hwf.
  { apply fh_Put_spec; [apply fh_wf_new; lia|discriminate]. }
  destruct (fh_refines_map 0 id _ 9 90 7 Hwf) as (_ & _ & _ & ->); [discriminate..|].
  vm_compute. reflexivity.
Defined.

(** The reserved identifier is silently lost: storing a value under the
    all-ones key (64-bit [-1]) reports a new entry and raises the size, but the
    key is never found afterwards. *)
Theorem fh_sentinel_put_is_lost {V} (vdef : V) hash_ v m :
  fh_wf vdef hash_ m ->
  (fh_Put vdef hash_ kEmptyKey v m).1 = true /\
  fh_count (fh_Put vdef hash_ kEmptyKey v m).2 = fh_count m + 1 /\
  fh_Find vdef hash_ kEmptyKey (fh_Put vdef hash_ kEmptyKey v m).2 = None.
Proof.
  intros Hwf. split_and!; [| |apply fh_Find_sentinel];
    unfold fh_Put; set (m' := if fh_threshold (fh_cap m) <=? fh_count m then fh_Grow vdef hash_ m else m);
    assert (fh_wf vdef hash_ m' /\ fh_count m' = fh_count m) as [Hwf' Hc]
      by (unfold m'; destruct (_ <=? _); [split; [by apply fh_Grow_spec|done]|done]);
    pose proof (fh_wf_room _ _ m' Hwf') as Hroom; unfold fh_PutInternal;
    destruct (fh_table_empty vdef hash_ _ _ (fw_table _ _ _ Hwf') Hroom (BucketOf hash_ (fh_cap m') kEmptyKey)) as (i0 & Hi0 & He0);
    (destruct (fh_scan_is_Some vdef (empty_or_key kEmptyKey) (fh_slots m') (fh_cap m') (BucketOf hash_ (fh_cap m') kEmptyKey) i0)
      as [i Hi]; [done|by unfold empty_or_key, is_empty_slot in *; rewrite He0|]);
    rewrite Hi; apply fh_scan_Some in Hi as (_ & Hs & _); unfold empty_or_key in Hs; rewrite orb_diag in Hs;
    unfold is_empty_slot; rewrite Hs; [done|cbn; lia].
Qed.

Lemma fh_sentinel_put_is_lost_witness :
  fh_Find 0 id kEmptyKey (fh_Put 0 id kEmptyKey 5 (fh_new 0 4)).2 = None.
Proof. apply fh_sentinel_put_is_lost, fh_wf_new. lia. Defined.

(** Three keys with one home bucket, in insertion order. *)
Definition erase_example : FlatHashMemMap :=
  (fh_Put 0 id 129 3 (fh_Put 0 id 65 2 (fh_Put 0 id 1 1 (fh_new 0 64)).2).2).2.

(** [Erase] does not refine deletion: with three keys in one bucket,
    erasing the first reports success and decrements the size, yet the third
    key, which the table held, can no longer be found. *)
Theorem fh_Erase_loses_third_key :
  fh_wf 0 id erase_example /\
  fh_abs erase_example !! 129 = Some 3 /\
  (fh_Erase 0 id 1 erase_example).1 = true /\
  fh_count (fh_Erase 0 id 1 erase_example).2 = 2 /\
  fh_Find 0 id 65 (fh_Erase 0 id 1 erase_example).2 = Some 2 /\
  fh_Find 0 id 129 (fh_Erase 0 id 1 erase_example).2 = None.
Proof.
  split; [|vm_compute; done].
  do 3 (apply fh_Put_spec; [|discriminate]). apply fh_wf_new. lia.
Qed.
