(* ===== verification/Env.v ===== *)
(** * The file environment (include/pomai/env.h, src/util/posix_env.cc)

    [PosixEnv] over a finite map from path to contents.  Every system call
    can fail: the state carries a list of fault decisions that the operations
    consume in order ([None] or an exhausted list is success), so a theorem
    about every fault list covers every pattern of I/O errors.  A failing
    [Append] first writes a prefix of its data, as a short [pwrite] followed
    by an error does.  A file handle keeps its path and its write offset; the
    sources never rename or delete a file they hold open.  Directories are not
    tracked: creating or syncing one succeeds or fails by the fault list. *)
From S2P Require Import Prelude.

Open Scope Z_scope.

Abbreviation path := string.

(** One failing system call: the text of [strerror(errno)] and, for a write,
    how many bytes reached the file before the failure. *)
Record fault : Type := MkFault { flt_errno : string; flt_written : nat }.

Record fs : Type := MkFs {
  fs_files : gmap path bytes;
  fs_faults : list (option fault)
}.

(** A component that owns an environment. *)
Class HasFs (S : Type) := { get_fs : S -> fs; set_fs : fs -> S -> S }.
#[global] Instance fs_HasFs : HasFs fs := {| get_fs := id; set_fs f _ := f |}.

Definition on_fs {S A} `{HasFs S} (m : M fs A) : M S A := fun s =>
  let '(r, f) := m (get_fs s) in (r, set_fs f s).

(** The decision of the next system call. *)
Definition next_fault : M fs (option fault) := fun f =>
  match fs_faults f with
  | [] => (inr None, f)
  | d :: rest => (inr d, MkFs (fs_files f) rest)
  end.

(** src/util/posix_env.cc:26-28 [ErrnoStatus]. *)
Definition ErrnoStatus (op errno : string) : Status := IOError (op +:+ ": " +:+ errno).

Definition ENOENT_text : string := "No such file or directory".
Definition EINVAL_text : string := "Invalid argument".

(** Runs [m] unless the call fails; the failing call leaves the files alone. *)
Definition syscall {A} (op : string) (m : M fs A) : M fs A :=
  d ← next_fault;
  match d with
  | Some flt => mfail (ErrnoStatus op (flt_errno flt))
  | None => m
  end.

Definition lookup_file (op : string) (p : path) : M fs bytes :=
  f ← mget;
  match fs_files f !! p with
  | Some c => mret c
  | None => mfail (ErrnoStatus op ENOENT_text)
  end.

Definition set_file (p : path) (c : bytes) : M fs unit :=
  mmodify (fun f => MkFs (<[p := c]> (fs_files f)) (fs_faults f)).

(** src/util/posix_env.cc:112-159 [PosixWritableFile]. *)
Record WritableFile : Type := MkWFile {
  wf_path : path;
  wf_open : bool;
  wf_offset : Z;
  wf_bytes_written : Z
}.

(** [pwrite(fd, data, n, off)] on the contents of a file. *)
Definition pwrite (c : bytes) (off : Z) (data : bytes) : bytes :=
  let o := Z.to_nat off in
  take o (c ++ replicate (o - length c) Byte.x00) ++ data ++ drop (o + length data) c.

(** src/util/posix_env.cc:118-134 [PosixWritableFile::Append]. The retry loop
    writes everything, or fails with the bytes written so far in the file and
    in the offset. *)
Definition wf_Append (h : WritableFile) (data : bytes) : M fs (Status * WritableFile) :=
  if negb (wf_open h) then mret (InvalidArgument "file closed", h) else
  if bool_decide (data = []) then mret (Ok, h) else
  d ← next_fault;
  f ← mget;
  let c := default [] (fs_files f !! wf_path h) in
  let '(st, written) :=
    match d with
    | None => (Ok, data)
    | Some flt => (ErrnoStatus "pwrite" (flt_errno flt), take (flt_written flt) data)
    end in
  set_file (wf_path h) (pwrite c (wf_offset h) written) ;;
  mret (st, MkWFile (wf_path h) true (u64 (wf_offset h + zlen written))
                    (u64 (wf_bytes_written h + zlen written))).

(** src/util/posix_env.cc:139-143 [PosixWritableFile::Sync]. *)
Definition wf_Sync (h : WritableFile) : M fs unit :=
  if wf_open h then syscall "fdatasync" (mret tt) else mfail (InvalidArgument "file closed").

(** src/util/posix_env.cc:145-153 [PosixWritableFile::Close]. *)
Definition wf_Close (h : WritableFile) : M fs unit :=
  if wf_open h then syscall "close" (mret tt) else mret tt.

(** src/util/posix_env.cc:193-199 [PosixEnv::NewRandomAccessFile]. The handle is
    the path; the sources do not modify a file while it is being read. *)
Definition NewRandomAccessFile (p : path) : M fs path :=
  syscall "open" (_ ← lookup_file "open" p; mret p).

(** src/util/posix_env.cc:81-92 [PosixRandomAccessFile::Read]. An offset of
    2^63 or more is negative as an [off_t] and [pread] refuses it; no file is
    that long, so such an offset lies past the end.  The buffer of [n] bytes is
    taken to fit in memory. *)
Definition raf_Read (p : path) (off n : Z) : M fs bytes :=
  syscall "pread" (c ← lookup_file "pread" p;
    if (2 ^ 63 <=? off) && (zlen c <? off) then mfail (ErrnoStatus "pread" EINVAL_text)
    else mret (take (Z.to_nat n) (drop (Z.to_nat off) c))).

(** src/util/posix_env.cc:201-207 [PosixEnv::NewWritableFile]. A parent
    directory that does not exist is a failing [open] of the fault list. *)
Definition NewWritableFile (p : path) : M fs WritableFile :=
  syscall "open" (set_file p [] ;; mret (MkWFile p true 0 0)).

(** src/util/posix_env.cc:209-221 [PosixEnv::NewAppendableFile]. A failing
    [fstat] is a failing call of its own, after the file has been created. *)
Definition NewAppendableFile (p : path) : M fs WritableFile :=
  syscall "open" (f ← mget; set_file p (default [] (fs_files f !! p))) ;;
  syscall "fstat" (f ← mget; mret (MkWFile p true (zlen (default [] (fs_files f !! p))) 0)).

(** src/util/posix_env.cc:245-252 [PosixEnv::FileExists]. *)
Definition FileExists (p : path) : M fs unit :=
  syscall "stat" (f ← mget;
    if decide (is_Some (fs_files f !! p)) then mret tt
    else mfail (NotFound "file does not exist")).

(** [env_->FileExists(p).ok()] *)
Definition FileExists_ok (p : path) : M fs bool := fun f =>
  let '(r, f') := FileExists p f in
  (inr (match r with inl _ => false | inr _ => true end), f').

(** src/util/posix_env.cc:254-260 [PosixEnv::GetFileSize]. *)
Definition GetFileSize (p : path) : M fs Z :=
  syscall "stat" (c ← lookup_file "stat" p; mret (zlen c)).

(** src/util/posix_env.cc:262-265 [PosixEnv::DeleteFile]. *)
Definition DeleteFile (p : path) : M fs unit :=
  syscall "unlink" (_ ← lookup_file "unlink" p;
    mmodify (fun f => MkFs (delete p (fs_files f)) (fs_faults f))).

(** src/util/posix_env.cc:267-270 [PosixEnv::RenameFile]. *)
Definition RenameFile (src dst : path) : M fs unit :=
  syscall "rename" (c ← lookup_file "rename" src;
    mmodify (fun f => MkFs (<[dst := c]> (delete src (fs_files f))) (fs_faults f))).

(** src/util/posix_env.cc:272-285 [PosixEnv::CreateDirIfMissing]. A [mkdir] for
    each component of the path; one that exists is no error. *)
Fixpoint mkdir_loop (p rest : path) : M fs unit :=
  let make := if bool_decide (p = EmptyString) then mret tt else syscall "mkdir" (mret tt) in
  match rest with
  | EmptyString => make
  | String c rest =>
      (if bool_decide (String c EmptyString = "/") then make else mret tt) ;;
      mkdir_loop (p +:+ String c EmptyString) rest
  end.
Definition CreateDirIfMissing (p : path) : M fs unit := mkdir_loop EmptyString p.

(** src/util/posix_env.cc:287-298 [PosixEnv::SyncDir]. *)
Definition SyncDir (p : path) : M fs unit := syscall "open dir" (mret tt) ;; syscall "fsync dir" (mret tt).

(** [(void)op]: the outcome is dropped, the effect kept. *)
Definition ignore {S A} (m : M S A) : M S unit := fun s => (inr tt, (m s).2).

(** The status of an operation as a value ([Status st = op]). *)
Definition try_ {S A} (m : M S A) : M S (Status + A) := fun s =>
  let '(r, s') := m s in (inr r, s').

(** ** Fault-free runs *)

(** Runs the environment's monadic code without unfolding the file map. *)
Ltac run_fs :=
  cbv beta iota zeta delta [mbind M_bind mret M_ret mget mput mfail mmodify next_fault
    syscall lookup_file set_file fs_files fs_faults on_fs fst snd from_option id].

Lemma wf_Append_ok p off bw c data fm :
  fm !! p = Some c -> off = zlen c -> zlen c + zlen data < 2 ^ 64 ->
  wf_Append (MkWFile p true off bw) data (MkFs fm []) =
  (inr (Ok, MkWFile p true (zlen (c ++ data)) (if bool_decide (data = []) then bw else u64 (bw + zlen data))),
   MkFs (<[p := c ++ data]> fm) []).
Proof.
  intros Hp -> Hlt. unfold wf_Append. cbn [wf_open negb]. case_bool_decide as Hd.
  - subst. rewrite app_nil_r, insert_id by done. done.
  - run_fs. cbn [wf_path wf_offset wf_bytes_written]. rewrite Hp. unfold pwrite, zlen in *. rewrite Nat2Z.id, Nat.sub_diag, app_nil_r.
    rewrite take_ge, drop_ge, app_nil_r, length_app by lia.
    rewrite u64_id by (split; lia). rewrite Nat2Z.inj_add. done.
Qed.

Lemma FileExists_ok_eq p fm :
  FileExists_ok p (MkFs fm []) = (inr (bool_decide (is_Some (fm !! p))), MkFs fm []).
Proof.
  unfold FileExists_ok, FileExists. run_fs.
  case_decide; [rewrite bool_decide_eq_true_2 by done|rewrite bool_decide_eq_false_2 by done]; done.
Qed.

Lemma raf_Read_ok p off n c fm :
  fm !! p = Some c -> off <= zlen c ->
  raf_Read p off n (MkFs fm []) = (inr (take (Z.to_nat n) (drop (Z.to_nat off) c)), MkFs fm []).
Proof. intros H Ho. unfold raf_Read. run_fs. rewrite H, (proj2 (Z.ltb_ge _ _) Ho), andb_false_r. done. Qed.

Lemma NewRandomAccessFile_ok p c fm :
  fm !! p = Some c -> NewRandomAccessFile p (MkFs fm []) = (inr p, MkFs fm []).
Proof. intros H. unfold NewRandomAccessFile. run_fs. by rewrite H. Qed.

Lemma GetFileSize_ok p c fm :
  fm !! p = Some c -> GetFileSize p (MkFs fm []) = (inr (zlen c), MkFs fm []).
Proof. intros H. unfold GetFileSize. run_fs. by rewrite H. Qed.

Lemma DeleteFile_ok p c fm :
  fm !! p = Some c -> DeleteFile p (MkFs fm []) = (inr tt, MkFs (delete p fm) []).
Proof. intros H. unfold DeleteFile. run_fs. by rewrite H. Qed.

Lemma RenameFile_ok p q c fm :
  fm !! p = Some c -> RenameFile p q (MkFs fm []) = (inr tt, MkFs (<[q := c]> (delete p fm)) []).
Proof. intros H. unfold RenameFile. run_fs. by rewrite H. Qed.

Lemma CreateDirIfMissing_ok p fm : CreateDirIfMissing p (MkFs fm []) = (inr tt, MkFs fm []).
Proof.
  unfold CreateDirIfMissing. generalize EmptyString. induction p as [|c p IH]; intros q; cbn [mkdir_loop].
  - by case_bool_decide.
  - unfold mbind, M_bind. repeat case_bool_decide; apply IH.
Qed.

Lemma NewAppendableFile_ok p fm :
  fm !! p = None ->
  NewAppendableFile p (MkFs fm []) = (inr (MkWFile p true 0 0), MkFs (<[p := []]> fm) []).
Proof. intros H. unfold NewAppendableFile. run_fs. by rewrite H, lookup_insert_eq. Qed.

(** ** Reads leave the files alone, and no call reports a loop bound *)

Lemma preserves_next_fault : preserves fs_files next_fault.
Proof. intros s r s' E. unfold next_fault in E. destruct (fs_faults s); by injection E as _ <-. Qed.

Lemma preserves_syscall {A} op (m : M fs A) : preserves fs_files m -> preserves fs_files (syscall op m).
Proof. intros Hm. apply preserves_bind; [apply preserves_next_fault|]. intros []; eauto with preserve. Qed.

Lemma preserves_lookup op p : preserves fs_files (lookup_file op p).
Proof. apply preserves_bind; [apply preserves_get|]. intros f. destruct (_ !! p); eauto with preserve. Qed.

Lemma preserves_try {S X A} (proj : S -> X) (m : M S A) : preserves proj m -> preserves proj (try_ m).
Proof. intros Hm s r s' E. unfold try_ in E. destruct (m s) eqn:E1. simplify_eq. by eapply Hm. Qed.
#[export] Hint Resolve preserves_syscall preserves_lookup preserves_try : preserve.

Lemma preserves_raf_Read p off n : preserves fs_files (raf_Read p off n).
Proof.
  apply preserves_syscall, preserves_bind; [apply preserves_lookup|]. intros c. destruct (_ && _); eauto with preserve.
Qed.
Lemma preserves_NewRandomAccessFile p : preserves fs_files (NewRandomAccessFile p).
Proof. unfold NewRandomAccessFile. eauto 10 with preserve. Qed.
Lemma preserves_GetFileSize p : preserves fs_files (GetFileSize p).
Proof. unfold GetFileSize. eauto 10 with preserve. Qed.
Lemma preserves_FileExists p : preserves fs_files (FileExists p).
Proof.
  apply preserves_syscall, preserves_bind; [apply preserves_get|]. intros f. case_decide; eauto with preserve.
Qed.
Lemma preserves_FileExists_ok p : preserves fs_files (FileExists_ok p).
Proof.
  intros s r s' E. unfold FileExists_ok in E. destruct (FileExists p s) as [x f] eqn:E1.
  injection E as _ <-. by eapply preserves_FileExists.
Qed.
#[export] Hint Resolve preserves_raf_Read preserves_NewRandomAccessFile preserves_GetFileSize
  preserves_FileExists_ok : preserve.

Lemma preserves_CreateDirIfMissing p : preserves fs_files (CreateDirIfMissing p).
Proof.
  unfold CreateDirIfMissing. generalize EmptyString. induction p as [|c p IH]; intros q; cbn [mkdir_loop].
  - case_bool_decide; eauto with preserve.
  - apply preserves_bind; [repeat case_bool_decide; eauto with preserve|]. intros _. apply IH.
Qed.
#[export] Hint Resolve preserves_CreateDirIfMissing : preserve.

Lemma FileExists_ok_true p s s' : FileExists_ok p s = (inr true, s') -> is_Some (fs_files s !! p).
Proof.
  unfold FileExists_ok, FileExists, syscall, next_fault, mbind, M_bind, mget, mfail, mret, M_ret.
  destruct (fs_faults s) as [|[]]; cbn; try done; by case_decide.
Qed.

Lemma in_bounds_syscall {A} op (m : M fs A) : in_bounds m -> in_bounds (syscall op m).
Proof.
  intros Hm. apply in_bounds_bind; [intros s; unfold next_fault; by destruct (fs_faults s)|].
  intros []; [|done]. by apply in_bounds_fail.
Qed.
Lemma in_bounds_lookup op p : in_bounds (lookup_file op p).
Proof. apply in_bounds_bind; [apply in_bounds_get|]. intros f. destruct (_ !! p); [done|by apply in_bounds_fail]. Qed.
Lemma in_bounds_raf_Read p off n : in_bounds (raf_Read p off n).
Proof.
  apply in_bounds_syscall, in_bounds_bind; [apply in_bounds_lookup|]. intros c.
  destruct (_ && _); [by apply in_bounds_fail|done].
Qed.
Lemma in_bounds_try {S A} (m : M S A) : in_bounds (try_ m).
Proof. intros s. unfold try_. by destruct (m s). Qed.
Lemma in_bounds_FileExists_ok p : in_bounds (FileExists_ok p).
Proof. intros s. unfold FileExists_ok. by destruct (FileExists p s). Qed.
Lemma in_bounds_on_fs {S A} `{HasFs S} (m : M fs A) : in_bounds m -> in_bounds (on_fs (S := S) m).
Proof. intros Hm s. specialize (Hm (get_fs s)). unfold on_fs. by destruct (m (get_fs s)). Qed.
#[export] Hint Resolve in_bounds_syscall in_bounds_lookup in_bounds_raf_Read in_bounds_try in_bounds_FileExists_ok
  in_bounds_on_fs : bounded.
