(* ===== verification/MemoryEnv.v ===== *)
(** * The in-memory environment (src/util/memory_env.cc)

    [InMemoryEnv] keeps the files in a map; a handle owns its data: a reader
    copies the file when it is opened, a writer publishes its content when it
    is closed.  The theorem compares it with [PosixEnv] of [Env]: a client that
    closes a file before it is looked at again cannot tell the two apart.  The
    lemmas after it are the uses that can. *)
From S2P Require Import Prelude Env.

Open Scope Z_scope.

Abbreviation FileMap := (gmap path bytes).

Definition no_file : Status := NotFound "file does not exist".

(** src/util/memory_env.cc:21-52 [InMemorySequentialFile]. *)
Record InMemorySequentialFile : Type := MkMsf { ms_data : bytes; ms_pos : Z }.

(** src/util/memory_env.cc:27-38 [InMemorySequentialFile::Read]. *)
Definition ms_Read (n : Z) (h : InMemorySequentialFile) : bytes * InMemorySequentialFile :=
  let avail := if ms_pos h <? zlen (ms_data h) then zlen (ms_data h) - ms_pos h else 0 in
  let to_read := Z.min n avail in
  if to_read =? 0 then ([], h) else
  (take (Z.to_nat to_read) (drop (Z.to_nat (ms_pos h)) (ms_data h)), MkMsf (ms_data h) (ms_pos h + to_read)).

(** src/util/memory_env.cc:40-44 [InMemorySequentialFile::Skip]. *)
Definition ms_Skip (n : Z) (h : InMemorySequentialFile) : InMemorySequentialFile :=
  MkMsf (ms_data h) (ms_pos h + Z.min n (zlen (ms_data h) - ms_pos h)).

(** src/util/memory_env.cc:62-72 [InMemoryRandomAccessFile::Read]. The handle is
    its copy of the file. *)
Definition mr_Read (data : bytes) (offset n : Z) : bytes :=
  if zlen data <=? offset then [] else
  take (Z.to_nat (Z.min n (zlen data - offset))) (drop (Z.to_nat offset) data).

(** src/util/memory_env.cc:84-120 [InMemoryWritableFile]. *)
Record InMemoryWritableFile : Type := MkMwf {
  mw_path : path;
  mw_closed : bool;
  mw_content : bytes;
  mw_bytes_written : Z
}.

(** src/util/memory_env.cc:86-92 [InMemoryWritableFile::InMemoryWritableFile]. *)
Definition mw_new (p : path) (append : bool) : M FileMap InMemoryWritableFile :=
  fm ← mget;
  mret (MkMwf p false (if append then default [] (fm !! p) else []) 0).

(** src/util/memory_env.cc:95-100 [InMemoryWritableFile::Append]. *)
Definition mw_Append (data : bytes) (h : InMemoryWritableFile) : InMemoryWritableFile :=
  MkMwf (mw_path h) (mw_closed h) (mw_content h ++ data) (u64 (mw_bytes_written h + zlen data)).

(** src/util/memory_env.cc:106-111 [InMemoryWritableFile::Close]. The content is
    moved to the map. *)
Definition mw_Close (h : InMemoryWritableFile) : M FileMap InMemoryWritableFile :=
  if mw_closed h then mret h else
  mmodify (<[mw_path h := mw_content h]>) ;;
  mret (MkMwf (mw_path h) true [] (mw_bytes_written h)).

(** src/util/memory_env.cc:142-148 [InMemoryEnv::NewSequentialFile]. *)
Definition me_NewSequentialFile (p : path) : M FileMap InMemorySequentialFile :=
  fm ← mget;
  match fm !! p with None => mfail no_file | Some c => mret (MkMsf c 0) end.

(** src/util/memory_env.cc:150-156 [InMemoryEnv::NewRandomAccessFile]. *)
Definition me_NewRandomAccessFile (p : path) : M FileMap bytes :=
  fm ← mget;
  match fm !! p with None => mfail no_file | Some c => mret c end.

(** src/util/memory_env.cc:158-162 [InMemoryEnv::NewWritableFile]. *)
Definition me_NewWritableFile (p : path) : M FileMap InMemoryWritableFile := mw_new p false.

(** src/util/memory_env.cc:164-168 [InMemoryEnv::NewAppendableFile]. *)
Definition me_NewAppendableFile (p : path) : M FileMap InMemoryWritableFile := mw_new p true.

(** src/util/memory_env.cc:170-176 [InMemoryEnv::NewFileMapping]. The mapped
    bytes. *)
Definition me_NewFileMapping (p : path) : M FileMap bytes :=
  fm ← mget;
  match fm !! p with None => mfail no_file | Some c => mret c end.

(** src/util/memory_env.cc:178-180 [InMemoryEnv::FileExists]. *)
Definition me_FileExists (p : path) : M FileMap unit :=
  fm ← mget;
  if decide (is_Some (fm !! p)) then mret tt else mfail no_file.

(** src/util/memory_env.cc:182-188 [InMemoryEnv::GetFileSize]. *)
Definition me_GetFileSize (p : path) : M FileMap Z :=
  fm ← mget;
  match fm !! p with None => mfail no_file | Some c => mret (zlen c) end.

(** src/util/memory_env.cc:190-193 [InMemoryEnv::DeleteFile]. *)
Definition me_DeleteFile (p : path) : M FileMap unit := mmodify (delete p).

(** src/util/memory_env.cc:195-202 [InMemoryEnv::RenameFile]. *)
Definition me_RenameFile (src dst : path) : M FileMap unit :=
  fm ← mget;
  match fm !! src with
  | None => mfail no_file
  | Some content => mput (<[dst := content]> (delete src fm))
  end.

(** ** The handles of [PosixEnv] that [Env] leaves out *)

(** src/util/posix_env.cc:33-71 [PosixSequentialFile]. The path and the file
    offset of the open descriptor. *)
Record PosixSequentialFile : Type := MkPsf { ps_path : path; ps_pos : Z }.

(** src/util/posix_env.cc:185-191 [PosixEnv::NewSequentialFile]. *)
Definition NewSequentialFile (p : path) : M fs PosixSequentialFile :=
  syscall "open" (_ ← lookup_file "open" p; mret (MkPsf p 0)).

(** src/util/posix_env.cc:38-49 [PosixSequentialFile::Read]. *)
Definition ps_Read (n : Z) (h : PosixSequentialFile) : M fs (bytes * PosixSequentialFile) :=
  syscall "read" (
    c ← lookup_file "read" (ps_path h);
    let b := take (Z.to_nat n) (drop (Z.to_nat (ps_pos h)) c) in
    mret (b, MkPsf (ps_path h) (ps_pos h + zlen b))).

(** src/util/posix_env.cc:51-56 [PosixSequentialFile::Skip]. [lseek] takes a
    signed offset and refuses a position it cannot represent. *)
Definition ps_Skip (n : Z) (h : PosixSequentialFile) : M fs PosixSequentialFile :=
  let pos := ps_pos h + (if n <? 2 ^ 63 then n else n - 2 ^ 64) in
  if (pos <? 0) || (2 ^ 63 <=? pos) then mfail (ErrnoStatus "lseek" "Invalid argument") else
  syscall "lseek" (mret (MkPsf (ps_path h) pos)).

(** src/util/posix_env.cc:223-243 [PosixEnv::NewFileMapping]. The mapped bytes;
    an empty file is not mapped. *)
Definition NewFileMapping (p : path) : M fs bytes :=
  syscall "open" (lookup_file "open" p ;; mret tt) ;;
  size ← syscall "fstat" (c ← lookup_file "fstat" p; mret (zlen c));
  if size =? 0 then mret [] else
  syscall "mmap" (lookup_file "mmap" p).

(** ** A client of the interface *)

Inductive seq_step : Type := SRead (n : Z) | SSkip (n : Z).

(** A use of the environment that finishes with its handles. *)
Inductive env_use : Type :=
  | UWrite (p : path) (chunks : list bytes)
  | UAppend (p : path) (chunks : list bytes)
  | URead (p : path) (off n : Z)
  | USeq (p : path) (steps : list seq_step)
  | UMap (p : path)
  | UExists (p : path)
  | USize (p : path)
  | UDelete (p : path)
  | URename (src dst : path).

(** What the client learns; the texts of the errors are not compared. *)
Inductive env_answer : Type := AFailed | ADone | ABytes (b : list bytes) | ASize (n : Z).

Definition answer_of {S A} (f : A -> env_answer) (r : (Status + A) * S) : env_answer * S :=
  match r with (inl _, s) => (AFailed, s) | (inr a, s) => (f a, s) end.
Definition done_of {S A} : (Status + A) * S -> env_answer * S := answer_of (fun _ => ADone).
Definition bytes_of {S} : (Status + bytes) * S -> env_answer * S := answer_of (fun b => ABytes [b]).

(** The client on [PosixEnv]. *)
Fixpoint posix_chunks (chunks : list bytes) (h : WritableFile) : M fs WritableFile :=
  match chunks with
  | [] => mret h
  | c :: chunks => r ← wf_Append h c; if st_is_ok r.1 then posix_chunks chunks r.2 else mfail r.1
  end.
Fixpoint posix_steps (steps : list seq_step) (h : PosixSequentialFile) : M fs (list bytes) :=
  match steps with
  | [] => mret []
  | SRead n :: steps => r ← ps_Read n h; bs ← posix_steps steps r.2; mret (r.1 :: bs)
  | SSkip n :: steps => h ← ps_Skip n h; posix_steps steps h
  end.

Definition posix_use (u : env_use) (f : fs) : env_answer * fs :=
  match u with
  | UWrite p chunks => done_of ((h ← NewWritableFile p; h ← posix_chunks chunks h; wf_Close h) f)
  | UAppend p chunks => done_of ((h ← NewAppendableFile p; h ← posix_chunks chunks h; wf_Close h) f)
  | URead p off n => bytes_of ((raf ← NewRandomAccessFile p; raf_Read raf off n) f)
  | USeq p steps => answer_of ABytes ((h ← NewSequentialFile p; posix_steps steps h) f)
  | UMap p => bytes_of (NewFileMapping p f)
  | UExists p => done_of (FileExists p f)
  | USize p => answer_of ASize (GetFileSize p f)
  | UDelete p => done_of (DeleteFile p f)
  | URename src dst => done_of (RenameFile src dst f)
  end.

(** The client on [InMemoryEnv]. *)
Fixpoint memory_steps (steps : list seq_step) (h : InMemorySequentialFile) : list bytes :=
  match steps with
  | [] => []
  | SRead n :: steps => let '(b, h) := ms_Read n h in b :: memory_steps steps h
  | SSkip n :: steps => memory_steps steps (ms_Skip n h)
  end.

Definition memory_use (u : env_use) (fm : FileMap) : env_answer * FileMap :=
  match u with
  | UWrite p chunks => done_of ((h ← me_NewWritableFile p; mw_Close (fold_left (fun h c => mw_Append c h) chunks h)) fm)
  | UAppend p chunks => done_of ((h ← me_NewAppendableFile p; mw_Close (fold_left (fun h c => mw_Append c h) chunks h)) fm)
  | URead p off n => bytes_of ((data ← me_NewRandomAccessFile p; mret (mr_Read data off n)) fm)
  | USeq p steps => answer_of ABytes ((h ← me_NewSequentialFile p; mret (memory_steps steps h)) fm)
  | UMap p => bytes_of (me_NewFileMapping p fm)
  | UExists p => done_of (me_FileExists p fm)
  | USize p => answer_of ASize (me_GetFileSize p fm)
  | UDelete p => done_of (me_DeleteFile p fm)
  | URename src dst => done_of (me_RenameFile src dst fm)
  end.

(** Positions and sizes fit [off_t], and a file that is deleted exists. *)
Definition step_size (s : seq_step) : Z := match s with SRead n => n | SSkip n => n end.
Definition use_ok (fm : FileMap) (u : env_use) : Prop :=
  match u with
  | UWrite p chunks => zlen (mjoin chunks) < 2 ^ 63
  | UAppend p chunks => zlen (default [] (fm !! p)) + zlen (mjoin chunks) < 2 ^ 63
  | URead p off n => 0 <= off < 2 ^ 63 /\ 0 <= n
  | USeq p steps => Forall (fun s => 0 <= step_size s) steps /\
      zlen (default [] (fm !! p)) + foldr Z.add 0 (step_size <$> steps) < 2 ^ 63
  | UDelete p => is_Some (fm !! p)
  | _ => True
  end.

Fixpoint run_uses {S} (use : env_use -> S -> env_answer * S) (us : list env_use) (s : S) : list env_answer * S :=
  match us with
  | [] => ([], s)
  | u :: us => let '(a, s) := use u s in let '(l, s) := run_uses use us s in (a :: l, s)
  end.

Fixpoint uses_ok (us : list env_use) (fm : FileMap) : Prop :=
  match us with
  | [] => True
  | u :: us => use_ok fm u /\ uses_ok us (memory_use u fm).2
  end.

(** ** The two environments agree *)

Lemma zlen_mjoin_cons (chunks : list bytes) c : zlen (mjoin (c :: chunks)) = zlen c + zlen (mjoin chunks).
Proof. change (mjoin (c :: chunks)) with (c ++ mjoin chunks). unfold zlen. rewrite length_app. lia. Qed.

Lemma posix_chunks_ok chunks p bw c fm :
  fm !! p = Some c -> zlen c + zlen (mjoin chunks) < 2 ^ 63 ->
  exists bw', posix_chunks chunks (MkWFile p true (zlen c) bw) (MkFs fm []) =
    (inr (MkWFile p true (zlen (c ++ mjoin chunks)) bw'), MkFs (<[p := c ++ mjoin chunks]> fm) []).
Proof.
  revert c bw fm. induction chunks as [|x chunks IH]; intros c bw fm Hp Hlt.
  - exists bw. change (mjoin []) with (@nil byte). by rewrite app_nil_r, insert_id.
  - rewrite zlen_mjoin_cons in Hlt. pose proof (zlen_nonneg (mjoin chunks)). cbn [posix_chunks].
    rewrite (mbind_ok _ _ _ _ _ (wf_Append_ok p _ bw c x fm Hp eq_refl ltac:(lia))). cbn [fst snd].
    change (st_is_ok Ok) with true. cbv iota.
    destruct (IH (c ++ x) (if bool_decide (x = []) then bw else u64 (bw + zlen x)) (<[p := c ++ x]> fm)) as (bw' & E).
    + apply lookup_insert_eq.
    + unfold zlen in *. rewrite length_app. lia.
    + exists bw'. rewrite E, insert_insert_eq, <-app_assoc. done.
Qed.

Lemma memory_chunks chunks h :
  fold_left (fun h c => mw_Append c h) chunks h =
  MkMwf (mw_path h) (mw_closed h) (mw_content h ++ mjoin chunks)
        (mw_bytes_written (fold_left (fun h c => mw_Append c h) chunks h)).
Proof.
  revert h. induction chunks as [|x chunks IH]; intros h.
  - destruct h. cbn. by rewrite app_nil_r.
  - cbn [fold_left]. rewrite IH at 1. cbn [mw_path mw_closed mw_content mw_Append mjoin list_join]. by rewrite <-app_assoc.
Qed.

Lemma mr_Read_eq data off n : 0 <= off -> 0 <= n ->
  mr_Read data off n = take (Z.to_nat n) (drop (Z.to_nat off) data).
Proof.
  intros Ho Hn. unfold mr_Read. destruct (Z.leb_spec (zlen data) off).
  - rewrite drop_ge by (unfold zlen in *; lia). by rewrite take_nil.
  - destruct (Z.min_spec n (zlen data - off)) as [[? ->]|[? ->]]; [done|].
    rewrite !take_ge; [done|rewrite length_drop; unfold zlen in *; lia..].
Qed.

(** Positions in a file: beyond its end the kernel keeps counting, the copy in
    memory stays at the end. *)
Definition same_place (c : bytes) (pos_k pos_m : Z) : Prop := 0 <= pos_k /\ pos_m = Z.min pos_k (zlen c).

Lemma seq_steps_agree steps p c fm pos_k pos_m :
  fm !! p = Some c -> Forall (fun s => 0 <= step_size s) steps -> same_place c pos_k pos_m ->
  Z.max pos_k (zlen c) + foldr Z.add 0 (step_size <$> steps) < 2 ^ 63 ->
  posix_steps steps (MkPsf p pos_k) (MkFs fm []) = (inr (memory_steps steps (MkMsf c pos_m)), MkFs fm []).
Proof.
  intros Hp Hs. revert pos_k pos_m. induction Hs as [|s steps Hs Hss IH]; intros k m [Hk ->] Hlt; [done|].
  cbn [fmap list_fmap foldr] in Hlt. pose proof (zlen_nonneg c) as Hc.
  assert (0 <= foldr Z.add 0 (step_size <$> steps)) as Hrest.
  { clear -Hss. induction Hss; cbn [fmap list_fmap foldr]; [lia|]. lia. }
  destruct s as [n|n]; cbn [step_size posix_steps memory_steps] in *.
  - set (b := take (Z.to_nat n) (drop (Z.to_nat k) c)).
    assert (zlen b = Z.min n (zlen c - Z.min k (zlen c))) as Hb
      by (unfold b, zlen in *; rewrite length_take, length_drop; lia).
    assert (ps_Read n (MkPsf p k) (MkFs fm []) = (inr (b, MkPsf p (k + zlen b)), MkFs fm [])) as E
      by (unfold ps_Read; cbn [ps_path ps_pos]; run_fs; by rewrite Hp).
    assert (ms_Read n (MkMsf c (Z.min k (zlen c))) = (b, MkMsf c (Z.min k (zlen c) + zlen b))) as Em.
    { unfold ms_Read. cbn [ms_pos ms_data].
      replace (if _ <? _ then _ else 0) with (zlen c - Z.min k (zlen c))
        by (destruct (Z.ltb_spec (Z.min k (zlen c)) (zlen c)); lia).
      rewrite <-Hb. destruct (Z.eqb_spec (zlen b) 0) as [E0|E0].
      - rewrite E0, Z.add_0_r. destruct b; [done|]. unfold zlen in E0. cbn in E0. lia.
      - f_equal. unfold b, zlen in *. replace (Z.to_nat (Z.min k (Z.of_nat (length c)))) with (Z.to_nat k) by lia.
        rewrite length_take, length_drop. destruct (Nat.min_spec (Z.to_nat n) (length c - Z.to_nat k)) as [[? ->]|[? ->]].
        + by rewrite Nat2Z.id.
        + rewrite Nat2Z.id, !take_ge by (rewrite length_drop; lia). done. }
    rewrite (mbind_ok _ _ _ _ _ E), Em. cbn [fst snd]. erewrite mbind_ok; [reflexivity|].
    clearbody b. assert (0 <= zlen b <= n /\ (k <= zlen c -> k + zlen b <= zlen c) /\ (zlen c <= k -> zlen b = 0)) as (? & ? & ?)
      by (clear -Hb Hs Hk Hc; destruct (Z.min_spec k (zlen c)) as [[? E]|[? E]]; rewrite E in Hb; lia).
    clear Hb. apply IH; [split; lia|lia].
  - unfold ps_Skip. cbn [ps_path ps_pos]. rewrite (proj2 (Z.ltb_lt n (2 ^ 63))) by lia.
    rewrite (proj2 (Z.ltb_ge (k + n) 0)), (proj2 (Z.leb_gt (2 ^ 63) (k + n))) by lia. cbn [orb].
    rewrite (mbind_ok _ _ _ (MkPsf p (k + n)) (MkFs fm [])) by done. unfold ms_Skip. cbn [ms_data ms_pos].
    apply IH; [split; lia|lia].
Qed.

(** One use: the same answer and the same files. *)
Lemma use_agrees u fm : use_ok fm u ->
  posix_use u (MkFs fm []) = let '(a, fm') := memory_use u fm in (a, MkFs fm' []).
Proof.
  destruct u as [p chunks|p chunks|p off n|p steps|p|p|p|p|src dst]; cbn [use_ok posix_use memory_use]; intros Hok.
  - destruct (posix_chunks_ok chunks p 0 [] (<[p := []]> fm)) as (bw & E); [apply lookup_insert_eq|done|].
    rewrite (mbind_ok _ _ _ (MkWFile p true 0 0) (MkFs (<[p := []]> fm) [])) by done.
    change 0 with (zlen (@nil byte)) at 1. rewrite (mbind_ok _ _ _ _ _ E), insert_insert_eq.
    unfold me_NewWritableFile, mw_new, mbind, M_bind, mget, mret, M_ret. rewrite memory_chunks. done.
  - destruct (posix_chunks_ok chunks p 0 (default [] (fm !! p)) (<[p := default [] (fm !! p)]> fm)) as (bw & E);
      [apply lookup_insert_eq|done|].
    rewrite (mbind_ok _ _ _ (MkWFile p true (zlen (default [] (fm !! p))) 0) (MkFs (<[p := default [] (fm !! p)]> fm) [])).
    2:{ unfold NewAppendableFile. run_fs. by rewrite lookup_insert_eq. }
    rewrite (mbind_ok _ _ _ _ _ E), insert_insert_eq.
    unfold me_NewAppendableFile, mw_new, mbind, M_bind, mget, mret, M_ret. rewrite memory_chunks. done.
  - destruct Hok as [Ho Hn]. unfold me_NewRandomAccessFile, NewRandomAccessFile, raf_Read. run_fs.
    destruct (fm !! p) as [c|] eqn:Hp; [|done].
    rewrite mr_Read_eq, Hp, (proj2 (Z.leb_gt (2 ^ 63) off)) by lia. done.
  - destruct Hok as [Hs Hlt]. unfold me_NewSequentialFile. destruct (fm !! p) as [c|] eqn:Hp.
    + rewrite (mbind_ok _ _ _ (MkPsf p 0) (MkFs fm [])) by (unfold NewSequentialFile; run_fs; by rewrite Hp).
      cbn [default from_option id] in Hlt. pose proof (zlen_nonneg c).
      rewrite (seq_steps_agree steps p c fm 0 0 Hp Hs) by (try (split; lia); lia).
      unfold mbind, M_bind, mget, mret, M_ret. by rewrite Hp.
    + unfold NewSequentialFile. run_fs. by rewrite Hp.
  - unfold NewFileMapping, me_NewFileMapping. run_fs. destruct (fm !! p) as [c|] eqn:Hp; [|done].
    rewrite Hp. destruct (Z.eqb_spec (zlen c) 0) as [E|E]; [by destruct c|]. by rewrite Hp.
  - unfold FileExists, me_FileExists. run_fs. by case_decide.
  - unfold GetFileSize, me_GetFileSize. run_fs. by destruct (fm !! p).
  - unfold DeleteFile, me_DeleteFile. run_fs. destruct Hok as [c ->]. done.
  - unfold RenameFile, me_RenameFile. run_fs. by destruct (fm !! src).
Qed.


Definition example_uses : list env_use :=
  [UWrite "a" [bstr "he"; []; bstr "llo"]; UAppend "a" [bstr "!"]; USeq "a" [SRead 2; SSkip 9; SRead 3];
   URead "a" 1 100; URename "a" "b"; UExists "a"; USize "b"; UMap "b"; UDelete "b"; UExists "b"].


(** ** Where they differ *)

(** A file that is still open for writing is visible to other handles in the
    file system, and not in memory: creating or truncating it happens when it
    is closed, whatever [Flush] and [Sync] return. *)
Lemma memory_env_hides_open_files :
  let fm : FileMap := {[ "a" := bstr "old" ]} in
  (me_GetFileSize "a" (me_NewWritableFile "a" fm).2).1 = inr 3 /\
  (GetFileSize "a" (NewWritableFile "a" (MkFs fm [])).2).1 = inr 0.
Proof. vm_compute. done. Qed.

(** Deleting a file that does not exist succeeds in memory only. *)
Lemma memory_env_deletes_missing :
  (me_DeleteFile "a" ∅).1 = inr tt /\ (DeleteFile "a" (MkFs ∅ [])).1 <> inr tt.
Proof. split; vm_compute; congruence. Qed.

(** A closed file that is written to and closed again takes the data and drops
    it; [PosixWritableFile] reports that it is closed. *)
Lemma memory_env_loses_late_writes h fm data :
  mw_closed h = true -> (mw_Close (mw_Append data h) fm).2 = fm /\ is_Some (match (mw_Close (mw_Append data h) fm).1 with inr x => Some x | inl _ => None end).
Proof. intros Hc. unfold mw_Close. cbn [mw_closed mw_Append]. rewrite Hc. split; [done|by eexists]. Qed.
