(* ===== verification/Types.v ===== *)
(** * Shared data types (include/pomai/types.h, include/pomai/metadata.h)

    Identifiers are 64-bit integers, a float is its 32-bit pattern and a double
    its 64-bit pattern (the modelled code moves them, compares them for
    nothing but order of bytes, and never computes with them here). *)
From S2P Require Import Prelude.

Open Scope Z_scope.

(** include/pomai/metadata.h:18-29 [Metadata]. *)
Record Metadata : Type := MkMeta {
  md_tenant : bytes;
  md_device_id : bytes;
  md_location_id : bytes;
  md_src_vid : Z;
  md_timestamp : Z;
  md_lsn : Z;
  md_text : bytes;
  md_payload : bytes;
  md_lat : Z;
  md_lon : Z
}.

#[global] Instance Metadata_eq_dec : EqDecision Metadata.
Proof. solve_decision. Defined.

Definition md_default : Metadata := MkMeta [] [] [] 0 0 0 [] [] 0 0.

Definition with_lsn (lsn : Z) (m : Metadata) : Metadata :=
  MkMeta (md_tenant m) (md_device_id m) (md_location_id m) (md_src_vid m)
         (md_timestamp m) lsn (md_text m) (md_payload m) (md_lat m) (md_lon m).

(** The value fits the C++ field types and its strings fit a 32-bit length. *)
Record md_valid (m : Metadata) : Prop := {
  mv_src : is_u64 (md_src_vid m);
  mv_ts : is_u64 (md_timestamp m);
  mv_lsn : is_u64 (md_lsn m);
  mv_lat : is_u64 (md_lat m);
  mv_lon : is_u64 (md_lon m);
  mv_tenant : zlen (md_tenant m) < 2 ^ 32;
  mv_device : zlen (md_device_id m) < 2 ^ 32;
  mv_location : zlen (md_location_id m) < 2 ^ 32;
  mv_text : zlen (md_text m) < 2 ^ 32;
  mv_payload : zlen (md_payload m) < 2 ^ 32
}.

(** include/pomai/types.h:20-37 [VectorView]. The floats as bit patterns; [dim]
    is their number. *)
Definition vec : Type := list Z.
Definition vec_dim (v : vec) : Z := zlen v.
Definition vec_bytes (v : vec) : bytes := v ≫= le_split 4.

(** Reading [dim] floats back from memory. *)
Fixpoint read_vec (dim : nat) (b : bytes) : vec :=
  match dim with
  | O => []
  | S d => le_combine (take 4 b) :: read_vec d (drop 4 b)
  end.

Definition vec_ok (v : vec) : Prop := Forall is_u32 v.

Lemma length_vec_bytes v : length (vec_bytes v) = (4 * length v)%nat.
Proof. unfold vec_bytes. induction v as [|x v IH]; [done|]. cbn [mbind list_bind]. len. Qed.
#[export] Hint Rewrite length_vec_bytes : len.

Lemma read_vec_bytes v rest : vec_ok v -> read_vec (length v) (vec_bytes v ++ rest) = v.
Proof.
  induction 1 as [|x v Hx Hv IH]; [done|]. unfold vec_bytes. cbn [mbind list_bind length read_vec].
  rewrite <-app_assoc, take_app_len, drop_app_len by len. fold (vec_bytes v).
  by rewrite le_combine_split_id, IH.
Qed.
