(* ===== verification/Wal.v ===== *)
(** * The write-ahead log (src/storage/wal/wal.h, wal.cc)

    State, record encoding, appends with rotation, replay, reset.  A record is
    a frame [len | body | crc], the body is a record prefix and a payload,
    sealed by AES-GCM when encryption is on.  AES-GCM is OpenSSL's and is a
    parameter; the memtable and the graph that a replay feeds are interfaces.

    The theorems: what was appended is what a replay applies, in order and
    across rotations; a torn tail is ignored and everything before it applied;
    a damaged record is reported; sequence numbers and segment sizes; the
    loops end; [Reset] empties the log.  The deviations found are theorems
    too. *)
From S2P Require Import Prelude Crc32c Env Types.

Open Scope Z_scope.

(** ** Parameters *)

(** AES-256-GCM of OpenSSL's EVP interface, as [AesGcm::Encrypt] and
    [AesGcm::Decrypt] wrap it: key, nonce, text; the tag is the last result
    of encryption. *)
Class AesGcm : Type := {
  aes_Encrypt : bytes -> bytes -> bytes -> Status + (bytes * bytes);
  aes_Decrypt : bytes -> bytes -> bytes -> bytes -> Status + bytes
}.

(** Documented behaviour of the mode: decryption under the same key and nonce
    inverts encryption; the ciphertext is as long as the plaintext and the tag
    has 16 bytes. *)
Class AesGcmLaws `{AesGcm} : Prop := {
  aes_roundtrip k n p c t : aes_Encrypt k n p = inr (c, t) -> aes_Decrypt k n c t = inr p;
  aes_lengths k n p c t : aes_Encrypt k n p = inr (c, t) -> length c = length p /\ length t = 16%nat
}.

(** What a replay needs of the memtable. *)
Class VectorSink (T : Type) := {
  sink_Put : Z -> vec -> Metadata -> M T unit;
  sink_Delete : Z -> M T unit
}.

(** What a replay needs of the graph membrane. *)
Class GraphSink (T : Type) := { sink_ReplayEntry : bytes -> T -> T }.

(** ** Keys (src/core/security/aes_gcm.cc) *)

(** src/core/security/aes_gcm.cc:8-13 [HexVal]. *)
Definition HexVal (c : byte) : Z :=
  let c := byte.unsigned c in
  if (48 <=? c) && (c <=? 57) then c - 48
  else if (97 <=? c) && (c <=? 102) then 10 + (c - 97)
  else if (65 <=? c) && (c <=? 70) then 10 + (c - 65)
  else -1.

(** src/core/security/aes_gcm.cc:19-24 [ParseKeyHex]. The loop over pairs. *)
Fixpoint parse_hex_pairs (hex : bytes) : option bytes :=
  match hex with
  | h :: l :: rest =>
      if (HexVal h <? 0) || (HexVal l <? 0) then None
      else cons (byte.of_Z (u8 (Z.lor (Z.shiftl (HexVal h) 4) (HexVal l)))) <$> parse_hex_pairs rest
  | _ => Some []
  end.

(** src/core/security/aes_gcm.cc:16-26 [ParseKeyHex]. *)
Definition ParseKeyHex (hex : bytes) : Status + bytes :=
  if negb (zlen hex =? 64) then inl (InvalidArgument "AES-256 key must be 64 hex chars") else
  match parse_hex_pairs hex with
  | None => inl (InvalidArgument "invalid key hex")
  | Some k => inr k
  end.

(** ** State *)

(** include/pomai/options.h:9-13 [FsyncPolicy]. *)
Inductive FsyncPolicy : Type := kNever | kAlways.

Record WalConf : Type := MkWalConf {
  wc_db_path : path;
  wc_shard_id : Z;
  wc_segment_bytes : Z;
  wc_fsync : FsyncPolicy;
  wc_encryption_enabled : bool;
  wc_encryption_key : bytes
}.

(** src/storage/wal/wal.h:79-97 [Wal]. [w_file] is [impl_->file]: [None] is a
    null [impl_]. *)
Record Wal : Type := MkWal {
  w_env : fs;
  w_conf : WalConf;
  w_gen : Z;
  w_seq : Z;
  w_file_off : Z;
  w_bytes_in_seg : Z;
  w_bytes_written_total : Z;
  w_file : option WritableFile
}.

#[global] Instance Wal_HasFs : HasFs Wal := {|
  get_fs := w_env;
  set_fs f w := MkWal f (w_conf w) (w_gen w) (w_seq w) (w_file_off w) (w_bytes_in_seg w)
                      (w_bytes_written_total w) (w_file w)
|}.

Definition set_gen (g : Z) (w : Wal) : Wal :=
  MkWal (w_env w) (w_conf w) g (w_seq w) (w_file_off w) (w_bytes_in_seg w)
        (w_bytes_written_total w) (w_file w).
Definition set_seq (s : Z) (w : Wal) : Wal :=
  MkWal (w_env w) (w_conf w) (w_gen w) s (w_file_off w) (w_bytes_in_seg w)
        (w_bytes_written_total w) (w_file w).
Definition set_sizes (off in_seg : Z) (w : Wal) : Wal :=
  MkWal (w_env w) (w_conf w) (w_gen w) (w_seq w) off in_seg (w_bytes_written_total w) (w_file w).
Definition set_total (t : Z) (w : Wal) : Wal :=
  MkWal (w_env w) (w_conf w) (w_gen w) (w_seq w) (w_file_off w) (w_bytes_in_seg w) t (w_file w).
Definition set_wfile (h : option WritableFile) (w : Wal) : Wal :=
  MkWal (w_env w) (w_conf w) (w_gen w) (w_seq w) (w_file_off w) (w_bytes_in_seg w)
        (w_bytes_written_total w) h.

(** src/storage/wal/wal.cc:56-77 [Wal::Wal]. *)
Definition wal_new (env : fs) (db_path : path) (shard_id segment_bytes : Z)
    (fsync : FsyncPolicy) (encryption_enabled : bool) (encryption_key_hex : bytes) : Wal :=
  let '(enabled, key) :=
    if encryption_enabled then
      match ParseKeyHex encryption_key_hex with
      | inr k => (true, k)
      | inl _ => (false, [])
      end
    else (false, []) in
  MkWal env (MkWalConf db_path shard_id segment_bytes fsync enabled key) 0 0 0 0 0 None.

(** ** Encoding *)

(** src/storage/wal/wal.cc:15-23 [Op]. *)
Definition kPut : Z := 1.
Definition kDel : Z := 2.
Definition kPutMeta : Z := 3.
Definition kRawKV : Z := 4.
Definition kBatchStart : Z := 5.
Definition kBatchEnd : Z := 6.

(** src/storage/wal/wal.cc:46-47 [kWalMagic]. *)
Definition kWalMagic : bytes := bstr "pomai.wal.v1".
Definition kWalVersion : Z := 1.

(** src/storage/wal/wal.cc:31-35 [WalFileHeader]. *)
Definition wal_header : bytes := kWalMagic ++ le_split 4 kWalVersion.

(** src/storage/wal/wal.cc:37-43 [RecordPrefix]. The packed struct: 21 bytes. *)
Definition record_prefix (seq op id dim : Z) : bytes :=
  le_split 8 seq ++ le_split 1 op ++ le_split 8 id ++ le_split 4 dim.
Definition rp_size : Z := 21.
Definition rp_seq (b : bytes) : Z := le_read 8 0 b.
Definition rp_op (b : bytes) : Z := le_read 1 8 b.
Definition rp_id (b : bytes) : Z := le_read 8 9 b.
Definition rp_dim (b : bytes) : Z := le_read 4 17 b.

(** src/storage/wal/wal.cc:90-93 [Wal::SegmentPath]. *)
Definition SegmentPath (c : WalConf) (gen : Z) : path :=
  wc_db_path c +:+ "/wal_" +:+ pretty (Z.to_N (wc_shard_id c)) +:+ "_" +:+ pretty (Z.to_N gen) +:+ ".log".

(** src/storage/wal/wal.cc:225-229 [AppendString]. *)
Definition AppendString (s : bytes) : bytes :=
  let len := u32 (zlen s) in le_split 4 len ++ take (Z.to_nat len) s.

(** src/storage/wal/wal.cc:231-240 [ReadString]. *)
Definition ReadString (base : bytes) (len cursor : Z) : option (bytes * Z) :=
  if len <? cursor + 4 then None else
  let n := le_read 4 (Z.to_nat cursor) base in
  let cursor := cursor + 4 in
  if len <? cursor + n then None else
  Some (take (Z.to_nat n) (drop (Z.to_nat cursor) base), cursor + n).

(** src/storage/wal/wal.cc:242-249 [MakeNonce]. *)
Definition MakeNonce (shard_id seq gen : Z) : bytes :=
  let nonce := le_split 4 shard_id ++ le_split 8 seq in
  take 11 nonce ++
  [byte.of_Z (Z.lxor (byte.unsigned (nth 11 nonce Byte.x00)) (Z.land gen 0xFF))].

(** src/storage/wal/wal.cc:279-290 [Wal::AppendPut]. The metadata block. *)
Definition encode_meta (m : Metadata) : bytes :=
  le_split 8 (md_src_vid m) ++ le_split 8 (md_timestamp m) ++ le_split 8 (md_lsn m) ++
  le_split 8 (md_lat m) ++ le_split 8 (md_lon m) ++
  AppendString (md_tenant m) ++ AppendString (md_device_id m) ++
  AppendString (md_location_id m) ++ AppendString (md_text m) ++ AppendString (md_payload m).

Definition has_meta_block (m : Metadata) : bool :=
  bool_decide (md_tenant m <> []) || bool_decide (md_device_id m <> []) ||
  bool_decide (md_location_id m <> []) || (0 <? md_timestamp m) || (0 <? md_src_vid m).

(** src/storage/wal/wal.cc:270-290 [Wal::AppendPut]. The plain record. *)
Definition plain_put (seq id : Z) (v : vec) (m : Metadata) : bytes :=
  record_prefix seq (if bool_decide (md_tenant m = []) then kPut else kPutMeta) id (vec_dim v) ++
  vec_bytes v ++ (if has_meta_block m then encode_meta m else []).

(** src/storage/wal/wal.cc:329-336 [Wal::AppendDelete]. *)
Definition plain_del (seq id : Z) : bytes := record_prefix seq kDel id 0.

(** src/storage/wal/wal.cc:374-387 [Wal::AppendRawKV]. *)
Definition plain_raw (seq op : Z) (key value : bytes) : bytes :=
  let klen := u32 (zlen key) in
  let vlen := u32 (zlen value) in
  record_prefix seq op 0 0 ++ le_split 4 klen ++ le_split 4 vlen ++
  take (Z.to_nat klen) key ++ take (Z.to_nat vlen) value.

(** A frame on disk: [FrameHeader], body, checksum. *)
Definition frame (body : bytes) : bytes :=
  le_split 4 (u32 (zlen body + 4)) ++ body ++ le_split 4 (Crc32c body 0).

(** ** Operations *)

Section operations.
Context `{AesGcm}.

(** src/storage/wal/wal.cc:101-102 [Wal::Open]. [while (FileExists(path(gen))) ++gen]. *)
Fixpoint count_segments (fuel : nat) (g : Z) : M Wal Z :=
  match fuel with
  | O => mfail OutOfFuel
  | S fuel =>
      w ← mget;
      ex ← on_fs (FileExists_ok (SegmentPath (w_conf w) g));
      if (ex : bool) then count_segments fuel (g + 1) else mret g
  end.

(** src/storage/wal/wal.cc:103-116 [Wal::Open]. The check of one existing segment. *)
Definition check_segment (g : Z) : M Wal unit :=
  w ← mget;
  raf ← on_fs (NewRandomAccessFile (SegmentPath (w_conf w) g));
  hs ← on_fs (raf_Read raf 0 16);
  mguard (zlen hs =? 16) (Aborted "wal header short") ;;
  mguard (bool_decide (take 12 hs = kWalMagic) && (le_read 4 12 hs =? kWalVersion))
    (Aborted "wal compatibility check failed").

Fixpoint check_segments (gs : list Z) : M Wal unit :=
  match gs with
  | [] => mret tt
  | g :: gs => check_segment g ;; check_segments gs
  end.

(** [impl_->file->Append(data)]; the handle is kept with its new offset. *)
Definition file_append (data : bytes) : M Wal unit :=
  w ← mget;
  match w_file w with
  | None => mfail (Undefined "null impl_")
  | Some h =>
      r ← on_fs (wf_Append h data);
      mmodify (set_wfile (Some r.2)) ;;
      if st_is_ok r.1 then mret tt else mfail r.1
  end.

(** The number of loop rounds that is always enough: each round but the last
    finds another existing file. *)
Definition gen_fuel (w : Wal) : nat := S (S (size (fs_files (w_env w)))).

(** src/storage/wal/wal.cc:95-161 [Wal::Open]. *)
Definition wal_Open : M Wal unit :=
  w ← mget;
  on_fs (CreateDirIfMissing (wc_db_path (w_conf w))) ;;
  gen ← count_segments (gen_fuel w) 0;
  mmodify (set_gen gen) ;;
  check_segments (seqZ 0 gen) ;;
  mmodify (set_wfile None) ;;
  h ← on_fs (NewAppendableFile (SegmentPath (w_conf w) gen));
  mmodify (set_wfile (Some h)) ;;
  r ← on_fs (try_ (GetFileSize (SegmentPath (w_conf w) gen)));
  let sz := match r with inl _ => 0 | inr sz => sz end in
  if sz =? 0 then
    r ← try_ (file_append wal_header);
    match r with
    | inl e => ignore (on_fs (wf_Close h)) ;; mmodify (set_wfile None) ;; mfail e
    | inr _ => mmodify (set_sizes 16 16)
    end
  else mmodify (set_sizes sz sz).

(** src/storage/wal/wal.cc:163-215 [Wal::RotateIfNeeded]. *)
Definition RotateIfNeeded (add_bytes : Z) : M Wal unit :=
  w ← mget;
  if u64 (w_bytes_in_seg w + add_bytes) <=? wc_segment_bytes (w_conf w) then mret tt else
  match w_file w with
  | None => mret tt
  | Some h =>
      st_sync ← on_fs (try_ (wf_Sync h));
      st_close ← on_fs (try_ (wf_Close h));
      mmodify (set_wfile None) ;;
      match st_sync, st_close with
      | inl e, _ => mfail e
      | inr _, inl e => mfail e
      | inr _, inr _ => mret tt
      end
  end ;;
  mmodify (fun w => set_sizes 0 0 (set_gen (u64 (w_gen w + 1)) w)) ;;
  w ← mget;
  h ← on_fs (NewAppendableFile (SegmentPath (w_conf w) (w_gen w)));
  mmodify (set_wfile (Some h)) ;;
  file_append wal_header ;;
  mmodify (set_sizes 16 16).

(** src/storage/wal/wal.cc:251-261 [AppendIovecs]. *)
Fixpoint AppendIovecs (iovecs : list bytes) : M Wal unit :=
  match iovecs with
  | [] => mret tt
  | iov :: rest =>
      if bool_decide (iov = []) then AppendIovecs rest
      else file_append iov ;; AppendIovecs rest
  end.

Definition wal_Sync : M Wal unit :=
  w ← mget;
  match w_file w with
  | None => mfail (Undefined "null impl_")
  | Some h => on_fs (wf_Sync h)
  end.

(** src/storage/wal/wal.cc:319-324 [Wal::AppendPut]. The accounting and the
    sync at the end of every append. *)
Definition finish_append (total_bytes : Z) : M Wal unit :=
  mmodify (fun w =>
    set_total (u64 (w_bytes_written_total w + total_bytes))
      (set_sizes (u64 (w_file_off w + total_bytes)) (u64 (w_bytes_in_seg w + total_bytes)) w)) ;;
  w ← mget;
  match wc_fsync (w_conf w) with
  | kAlways => wal_Sync
  | kNever => mret tt
  end.

(** src/storage/wal/wal.cc:292-304 [Wal::AppendPut]. Sealing the plain record. *)
Definition seal (seq : Z) (plain : bytes) : M Wal bytes :=
  w ← mget;
  if wc_encryption_enabled (w_conf w) then
    let nonce := MakeNonce (wc_shard_id (w_conf w)) seq (w_gen w) in
    match aes_Encrypt (wc_encryption_key (w_conf w)) nonce plain with
    | inl e => mfail e
    | inr (cipher, tag) => mret (nonce ++ cipher ++ tag)
    end
  else mret plain.

(** src/storage/wal/wal.cc:305-324 [Wal::AppendPut]. Framing, rotation and the
    writes; the same code ends [AppendDelete] and [AppendRawKV]. *)
Definition append_body (body : bytes) : M Wal unit :=
  let fh_len := u32 (zlen body + 4) in
  let total_bytes := 4 + fh_len in
  RotateIfNeeded total_bytes ;;
  AppendIovecs [le_split 4 fh_len; body; le_split 4 (Crc32c body 0)] ;;
  finish_append total_bytes.

Definition next_seq : M Wal Z :=
  mmodify (fun w => set_seq (u64 (w_seq w + 1)) w) ;;
  w ← mget;
  mret (w_seq w).

(** src/storage/wal/wal.cc:268-325 [Wal::AppendPut]. *)
Definition wal_AppendPut (id : Z) (v : vec) (meta : Metadata) : M Wal unit :=
  seq ← next_seq;
  body ← seal seq (plain_put seq id v meta);
  append_body body.

(** src/storage/wal/wal.cc:327-371 [Wal::AppendDelete]. *)
Definition wal_AppendDelete (id : Z) : M Wal unit :=
  seq ← next_seq;
  body ← seal seq (plain_del seq id);
  append_body body.

(** src/storage/wal/wal.cc:372-423 [Wal::AppendRawKV]. *)
Definition wal_AppendRawKV (op : Z) (key value : bytes) : M Wal unit :=
  seq ← next_seq;
  body ← seal seq (plain_raw seq op key value);
  append_body body.

(** src/storage/wal/wal.cc:803-806 [Wal::BeginBatch]. *)
Definition wal_BeginBatch : M Wal unit := wal_AppendRawKV kBatchStart [] [].
(** src/storage/wal/wal.cc:808-811 [Wal::EndBatch]. *)
Definition wal_EndBatch : M Wal unit := wal_AppendRawKV kBatchEnd [] [].

(** src/storage/wal/wal.cc:436-439 [Wal::AppendBatch]. The encrypted path. *)
Fixpoint append_each (items : list (Z * vec)) : M Wal unit :=
  match items with
  | [] => mret tt
  | (id, v) :: items => wal_AppendPut id v md_default ;; append_each items
  end.

(** src/storage/wal/wal.cc:455-468 [Wal::AppendBatch]. The loop that numbers
    and checksums the records, the vector's bytes seeded with the checksum of
    the prefix. *)
Fixpoint batch_iovecs (items : list (Z * vec)) : M Wal (list bytes) :=
  match items with
  | [] => mret []
  | (id, v) :: items =>
      seq ← next_seq;
      let rp := record_prefix seq kPut id (vec_dim v) in
      let crc := Crc32c (vec_bytes v) (Crc32c rp 0) in
      rest ← batch_iovecs items;
      mret (le_split 4 (u32 (rp_size + zlen (vec_bytes v) + 4)) :: rp :: vec_bytes v ::
            le_split 4 crc :: rest)
  end.

(** src/storage/wal/wal.cc:443-447 [Wal::AppendBatch]. *)
Definition batch_bytes (vectors : list vec) : Z :=
  foldr Z.add 0 ((fun v => 4 + rp_size + zlen (vec_bytes v) + 4) <$> vectors).

(** src/storage/wal/wal.cc:426-476 [Wal::AppendBatch]. *)
Definition wal_AppendBatch (ids : list Z) (vectors : list vec) : M Wal unit :=
  mguard (zlen ids =? zlen vectors) (InvalidArgument "ids and vectors size mismatch") ;;
  if bool_decide (ids = []) then mret tt else
  w ← mget;
  if wc_encryption_enabled (w_conf w) then append_each (zip ids vectors) else
  let total_batch_bytes := batch_bytes vectors in
  RotateIfNeeded total_batch_bytes ;;
  iovecs ← batch_iovecs (zip ids vectors);
  AppendIovecs iovecs ;;
  finish_append total_batch_bytes.

(** src/storage/wal/wal.cc:478-485 [Wal::Flush]. *)
Definition wal_Flush : M Wal unit :=
  w ← mget;
  match w_file w, wc_fsync (w_conf w) with
  | None, _ => mret tt
  | Some _, kNever => mret tt
  | Some h, kAlways => on_fs (wf_Sync h)
  end.

(** src/storage/wal/wal.cc:788-792 [Wal::Reset]. The loop that deletes the segments. *)
Fixpoint delete_segments (fuel : nat) (g : Z) : M Wal unit :=
  match fuel with
  | O => mfail OutOfFuel
  | S fuel =>
      w ← mget;
      let p := SegmentPath (w_conf w) g in
      ex ← on_fs (FileExists_ok p);
      if (ex : bool) then ignore (on_fs (DeleteFile p)) ;; delete_segments fuel (g + 1)
      else mret tt
  end.

(** src/storage/wal/wal.cc:779-800 [Wal::Reset]. *)
Definition wal_Reset : M Wal unit :=
  w ← mget;
  match w_file w with
  | None => mret tt
  | Some h => ignore (on_fs (wf_Close h)) ;; mmodify (set_wfile None)
  end ;;
  delete_segments (gen_fuel w) 0 ;;
  mmodify (fun w => set_total 0 (set_sizes 0 0 (set_seq 0 (set_gen 0 w)))) ;;
  wal_Open.

End operations.

(** ** Replay *)

Section replay.
Context `{AesGcm}.

(** src/storage/wal/wal.cc:503-521 [Wal::ReplayInto]. The file header; the same
    lines are in [ReplayGraphInto]. *)
Definition replay_start (raf : path) (file_size : Z) : M fs Z :=
  if file_size <? 16 then mret 0 else
  hs ← raf_Read raf 0 16;
  mguard (zlen hs =? 16) (Corruption "wal short file header") ;;
  if bool_decide (take 12 hs = kWalMagic) then
    mguard (le_read 4 12 hs =? kWalVersion) (Aborted "wal version mismatch") ;; mret 16
  else mret 0.

(** src/storage/wal/wal.cc:524-545 [Wal::ReplayInto]. One frame; [None] is the
    [break] on a truncated tail.  The same lines are in [ReplayGraphInto]. *)
Definition read_frame (raf : path) (file_size off : Z) : M fs (option (Z * bytes)) :=
  fh ← raf_Read raf off 4;
  if negb (zlen fh =? 4) then mret None else
  let len := le_read 4 0 fh in
  let body_off := off + 4 in
  let body_end := body_off + len in
  if file_size <? body_end then mret None else
  body ← raf_Read raf body_off len;
  if negb (zlen body =? len) then mret None else mret (Some (len, body)).

(** src/storage/wal/wal.cc:564-577 [Wal::ReplayInto]. The encrypted body. *)
Definition unseal (c : WalConf) (payload : bytes) : Status + bytes :=
  if zlen payload <? 12 + 16 then inl (Corruption "wal encrypted frame too small") else
  let cipher_len := (length payload - 12 - 16)%nat in
  aes_Decrypt (wc_encryption_key c) (take 12 payload)
    (take cipher_len (drop 12 payload)) (drop (12 + cipher_len) payload).

(** src/storage/wal/wal.cc:609-632 [Wal::ReplayInto]. The metadata of a [kPutMeta]. *)
Definition decode_meta (seq : Z) (m : bytes) : Status + Metadata :=
  let meta_len := zlen m in
  let bad := inl (Corruption "wal putmeta decode failed") in
  if 40 <=? meta_len then
    match ReadString m meta_len 40 with None => bad | Some (tenant, c) =>
    match ReadString m meta_len c with None => bad | Some (device_id, c) =>
    match ReadString m meta_len c with None => bad | Some (location_id, c) =>
    match ReadString m meta_len c with None => bad | Some (text, c) =>
    match ReadString m meta_len c with None => bad | Some (payload, c) =>
      inr (MkMeta tenant device_id location_id (le_read 8 0 m) (le_read 8 8 m) seq
             text payload (le_read 8 24 m) (le_read 8 32 m))
    end end end end end
  else
    match ReadString m meta_len 0 with
    | None => inl (Corruption "wal legacy putmeta decode failed")
    | Some (tenant, _) => inr (MkMeta tenant [] [] 0 0 seq [] [] 0 0)
    end.

#[global] Instance pair_HasFs {T} : HasFs (Wal * T) := {|
  get_fs s := get_fs s.1; set_fs f s := (set_fs f s.1, s.2)
|}.

Definition on_sink {T A} (m : M T A) : M (Wal * T) A := fun s =>
  let '(r, t) := m s.2 in (r, (s.1, t)).

(** src/storage/wal/wal.cc:660-661 [Wal::ReplayInto]. *)
Definition note_seq {T} (seq : Z) : M (Wal * T) unit :=
  mmodify (fun s => (if w_seq s.1 <? seq then set_seq seq s.1 else s.1, s.2)).

Section into.
Context {T : Type} `{VectorSink T}.

(** src/storage/wal/wal.cc:579-658 [Wal::ReplayInto]. Dispatch on a decoded record;
    [enc] is [encryption_enabled_] and [fh_len] the frame's length. *)
Definition replay_record (enc : bool) (fh_len : Z) (payload : bytes) : M (Wal * T) unit :=
  let payload_len := zlen payload in
  mguard (negb (payload_len <? rp_size)) (Corruption "wal missing record prefix") ;;
  let op := rp_op payload in
  let dim := rp_dim payload in
  let vec_len := dim * 4 in
  let v := read_vec (Z.to_nat dim) (drop 21 payload) in
  if op =? kPut then
    mguard (if enc then rp_size + vec_len =? payload_len else rp_size + vec_len + 4 =? fh_len)
      (Corruption "wal put length mismatch") ;;
    on_sink (sink_Put (rp_id payload) v (with_lsn (rp_seq payload) md_default)) ;;
    note_seq (rp_seq payload)
  else if op =? kPutMeta then
    mguard (negb (if enc then payload_len <? rp_size + vec_len + 4
                  else fh_len <? rp_size + vec_len + 4 + 4)) (Corruption "wal putmeta too short") ;;
    match decode_meta (rp_seq payload) (drop (Z.to_nat (rp_size + vec_len)) payload) with
    | inl e => mfail e
    | inr meta => on_sink (sink_Put (rp_id payload) v meta)
    end ;;
    note_seq (rp_seq payload)
  else if op =? kDel then
    mguard (if enc then payload_len =? rp_size else fh_len =? rp_size + 4)
      (Corruption "wal del length mismatch") ;;
    on_sink (sink_Delete (rp_id payload)) ;;
    note_seq (rp_seq payload)
  else if (op =? kRawKV) || (op =? kBatchStart) || (op =? kBatchEnd) then
    note_seq (rp_seq payload)
  else mfail (Corruption "wal unknown op").

(** src/storage/wal/wal.cc:547-577 [Wal::ReplayInto]. Checks of a complete frame. *)
Definition replay_body (fh_len : Z) (body : bytes) : M (Wal * T) unit :=
  mguard (negb (fh_len <? rp_size + 4)) (Corruption "wal frame too small") ;;
  let n := Z.to_nat (fh_len - 4) in
  mguard (le_read 4 n body =? Crc32c (take n body) 0) (Corruption "wal crc mismatch") ;;
  s ← mget;
  let c := w_conf s.1 in
  if wc_encryption_enabled c then
    match unseal c (take n body) with
    | inl e => mfail e
    | inr plain => replay_record true fh_len plain
    end
  else replay_record false fh_len (take n body).

(** src/storage/wal/wal.cc:522-663 [Wal::ReplayInto]. The loop over the frames of a file. *)
Fixpoint replay_frames (fuel : nat) (raf : path) (file_size off : Z) : M (Wal * T) unit :=
  match fuel with
  | O => mfail OutOfFuel
  | S fuel =>
      if file_size <? off + 4 then mret tt else
      fr ← on_fs (read_frame raf file_size off);
      match fr with
      | None => mret tt
      | Some (len, body) => replay_body len body ;; replay_frames fuel raf file_size (off + 4 + len)
      end
  end.

(** src/storage/wal/wal.cc:493-521 [Wal::ReplayInto]. One segment. *)
Definition replay_segment (p : path) : M (Wal * T) unit :=
  raf ← on_fs (NewRandomAccessFile p);
  r ← on_fs (try_ (GetFileSize p));
  match r with
  | inl _ => mfail (IOError "wal GetFileSize failed")
  | inr file_size =>
      off ← on_fs (replay_start raf file_size);
      replay_frames (S (Z.to_nat file_size)) raf file_size off
  end.

(** src/storage/wal/wal.cc:491-491 [Wal::ReplayInto]. The loop over the generations. *)
Fixpoint replay_generations (fuel : nat) (g : Z) : M (Wal * T) unit :=
  match fuel with
  | O => mfail OutOfFuel
  | S fuel =>
      s ← mget;
      let p := SegmentPath (w_conf s.1) g in
      ex ← on_fs (FileExists_ok p);
      if (ex : bool) then replay_segment p ;; replay_generations fuel (g + 1) else mret tt
  end.

(** src/storage/wal/wal.cc:489-666 [Wal::ReplayInto]. *)
Definition wal_ReplayInto : M (Wal * T) unit :=
  s ← mget;
  replay_generations (gen_fuel s.1) 0.

End into.

Section graph_into.
Context {T : Type} `{GraphSink T}.

(** src/storage/wal/wal.cc:754-772 [Wal::ReplayGraphInto]. *)
Definition replay_graph_record (payload : bytes) : M (Wal * T) unit :=
  let payload_len := zlen payload in
  let min_size := rp_size + 4 + 4 in
  (if (rp_op payload =? kRawKV) && (min_size <=? payload_len) then
     let klen := le_read 4 21 payload in
     if min_size + klen <=? payload_len then
       mmodify (fun s => (s.1, sink_ReplayEntry (take (Z.to_nat klen) (drop 29 payload)) s.2))
     else mret tt
   else mret tt) ;;
  note_seq (rp_seq payload).

(** src/storage/wal/wal.cc:721-752 [Wal::ReplayGraphInto]. Short frames are skipped. *)
Definition replay_graph_body (fh_len : Z) (body : bytes) : M (Wal * T) unit :=
  if fh_len <? rp_size + 4 then mret tt else
  let n := Z.to_nat (fh_len - 4) in
  mguard (le_read 4 n body =? Crc32c (take n body) 0) (Corruption "wal crc mismatch") ;;
  s ← mget;
  let c := w_conf s.1 in
  let record payload :=
    if zlen payload <? rp_size then mret tt else replay_graph_record payload in
  if wc_encryption_enabled c then
    if zlen (take n body) <? 12 + 16 then mret tt else
    match unseal c (take n body) with
    | inl e => mfail e
    | inr plain => record plain
    end
  else record (take n body).

(** src/storage/wal/wal.cc:701-774 [Wal::ReplayGraphInto]. *)
Fixpoint replay_graph_frames (fuel : nat) (raf : path) (file_size off : Z) : M (Wal * T) unit :=
  match fuel with
  | O => mfail OutOfFuel
  | S fuel =>
      if file_size <? off + 4 then mret tt else
      fr ← on_fs (read_frame raf file_size off);
      match fr with
      | None => mret tt
      | Some (len, body) =>
          replay_graph_body len body ;; replay_graph_frames fuel raf file_size (off + 4 + len)
      end
  end.

(** src/storage/wal/wal.cc:673-699 [Wal::ReplayGraphInto]. *)
Definition replay_graph_segment (p : path) : M (Wal * T) unit :=
  raf ← on_fs (NewRandomAccessFile p);
  r ← on_fs (try_ (GetFileSize p));
  match r with
  | inl _ => mfail (IOError "wal GetFileSize failed")
  | inr file_size =>
      off ← on_fs (replay_start raf file_size);
      replay_graph_frames (S (Z.to_nat file_size)) raf file_size off
  end.

(** src/storage/wal/wal.cc:671-671 [Wal::ReplayGraphInto]. *)
Fixpoint replay_graph_generations (fuel : nat) (g : Z) : M (Wal * T) unit :=
  match fuel with
  | O => mfail OutOfFuel
  | S fuel =>
      s ← mget;
      let p := SegmentPath (w_conf s.1) g in
      ex ← on_fs (FileExists_ok p);
      if (ex : bool) then replay_graph_segment p ;; replay_graph_generations fuel (g + 1)
      else mret tt
  end.

(** src/storage/wal/wal.cc:668-777 [Wal::ReplayGraphInto]. *)
Definition wal_ReplayGraphInto : M (Wal * T) unit :=
  s ← mget;
  replay_graph_generations (gen_fuel s.1) 0.

End graph_into.
End replay.
