(* ===== verification/WalCodec.v ===== *)
(** * Record codec of the write-ahead log

    Decoding inverts encoding for record prefixes, strings, metadata blocks
    and sealed bodies, and a frame written by an append is the frame a replay
    reads.  These are the lemmas the log theorems of [WalLog] rest on. *)
From S2P Require Import Prelude Crc32c Env Types Wal.

Open Scope Z_scope.

Lemma length_record_prefix seq op id dim : length (record_prefix seq op id dim) = 21%nat.
Proof. unfold record_prefix. len. Qed.
Lemma length_wal_header : length wal_header = 16%nat.
Proof. done. Qed.
Lemma length_frame body : length (frame body) = (8 + length body)%nat.
Proof. unfold frame. len. Qed.
#[export] Hint Rewrite length_record_prefix length_wal_header length_frame : len.

Lemma le_read_skip n k off l rest :
  length l = k -> le_read n (k + off) (l ++ rest) = le_read n off rest.
Proof. intros H. unfold le_read. by rewrite drop_app_plus. Qed.

Lemma rp_seq_prefix seq op id dim rest :
  is_u64 seq -> rp_seq (record_prefix seq op id dim ++ rest) = seq.
Proof. intros. unfold rp_seq, record_prefix. rewrite <-!app_assoc. by apply le_read_app_l. Qed.

Lemma rp_op_prefix seq op id dim rest :
  0 <= op < 256 -> rp_op (record_prefix seq op id dim ++ rest) = op.
Proof.
  intros. unfold rp_op, record_prefix. rewrite <-!app_assoc.
  change 8%nat with (8 + 0)%nat at 1. rewrite !le_read_skip by len. by apply le_read_app_l.
Qed.

Lemma rp_id_prefix seq op id dim rest :
  is_u64 id -> rp_id (record_prefix seq op id dim ++ rest) = id.
Proof.
  intros. unfold rp_id, record_prefix. rewrite <-!app_assoc.
  change 9%nat with (8 + (1 + 0))%nat. rewrite !le_read_skip by len. by apply le_read_app_l.
Qed.

Lemma rp_dim_prefix seq op id dim rest :
  is_u32 dim -> rp_dim (record_prefix seq op id dim ++ rest) = dim.
Proof.
  intros. unfold rp_dim, record_prefix. rewrite <-!app_assoc.
  change 17%nat with (8 + (1 + (8 + 0)))%nat. rewrite !le_read_skip by len. by apply le_read_app_l.
Qed.

(** ** Strings and metadata *)

Lemma AppendString_small s : zlen s < 2 ^ 32 -> AppendString s = le_split 4 (zlen s) ++ s.
Proof.
  intros Hs. unfold AppendString. rewrite u32_id by (split; [apply zlen_nonneg|done]).
  rewrite take_ge; [done|]. unfold zlen. lia.
Qed.

Lemma length_AppendString s : zlen s < 2 ^ 32 -> length (AppendString s) = (4 + length s)%nat.
Proof. intros. rewrite AppendString_small by done. len. Qed.

Lemma ReadString_at base pre s rest :
  zlen s < 2 ^ 32 -> base = pre ++ AppendString s ++ rest ->
  ReadString base (zlen base) (zlen pre) = Some (s, zlen (pre ++ AppendString s)).
Proof.
  intros Hs ->. replace (zlen (pre ++ AppendString s)) with (zlen pre + 4 + zlen s)
    by (unfold zlen; rewrite length_app, length_AppendString by done; lia).
  rewrite AppendString_small by done. rewrite <-app_assoc.
  assert (le_read 4 (length pre) (pre ++ le_split 4 (zlen s) ++ s ++ rest) = zlen s) as El.
  { rewrite le_read_app_r by done. apply le_read_app_l. split; [apply zlen_nonneg|done]. }
  unfold ReadString. replace (Z.to_nat (zlen pre)) with (length pre) by len. rewrite El.
  destruct (Z.ltb_spec (zlen (pre ++ le_split 4 (zlen s) ++ s ++ rest)) (zlen pre + 4)) as [Hlt|_]; [len|].
  destruct (Z.ltb_spec (zlen (pre ++ le_split 4 (zlen s) ++ s ++ rest)) (zlen pre + 4 + zlen s)) as [Hlt|_]; [len|].
  do 2 f_equal. replace (Z.to_nat (zlen pre + 4)) with (length pre + 4)%nat by len.
  rewrite drop_app_plus, drop_app_len by len.
  rewrite take_app_len; [done|len].
Qed.

Lemma decode_encode_meta seq m :
  md_valid m -> decode_meta seq (encode_meta m) = inr (with_lsn seq m).
Proof.
  intros [mv_src mv_ts mv_lsn mv_lat mv_lon mv_tenant mv_device mv_location mv_text mv_payload].
  unfold decode_meta.
  set (F := le_split 8 (md_src_vid m) ++ le_split 8 (md_timestamp m) ++ le_split 8 (md_lsn m) ++
            le_split 8 (md_lat m) ++ le_split 8 (md_lon m)).
  assert (40 = zlen F) as HF by (unfold F; len).
  assert (le_read 8 0 (encode_meta m) = md_src_vid m) as -> by by apply le_read_app_l.
  assert (le_read 8 8 (encode_meta m) = md_timestamp m) as ->
    by (unfold encode_meta; change 8%nat with (8 + 0)%nat at 2; rewrite le_read_skip by len; by apply le_read_app_l).
  assert (le_read 8 24 (encode_meta m) = md_lat m) as ->
    by (unfold encode_meta; change 24%nat with (8 + (8 + (8 + 0)))%nat; rewrite !le_read_skip by len; by apply le_read_app_l).
  assert (le_read 8 32 (encode_meta m) = md_lon m) as ->
    by (unfold encode_meta; change 32%nat with (8 + (8 + (8 + (8 + 0))))%nat; rewrite !le_read_skip by len; by apply le_read_app_l).
  assert (40 <= zlen (encode_meta m)) as Hlen by (unfold encode_meta; len).
  rewrite (proj2 (Z.leb_le _ _) Hlen), HF.
  erewrite (ReadString_at (encode_meta m) F (md_tenant m)); [|done|by unfold F, encode_meta; rewrite <-!app_assoc].
  erewrite ReadString_at; [|exact mv_device|by unfold F, encode_meta; rewrite <-!app_assoc].
  erewrite ReadString_at; [|exact mv_location|by unfold F, encode_meta; rewrite <-!app_assoc].
  erewrite ReadString_at; [|exact mv_text|by unfold F, encode_meta; rewrite <-!app_assoc].
  erewrite ReadString_at; [|exact mv_payload|by unfold F, encode_meta; rewrite <-!app_assoc, app_nil_r].
  done.
Qed.

(** ** Records *)

(** What a caller asks the log to record. *)
Inductive wal_rec : Type :=
  | RPut (id : Z) (v : vec) (m : Metadata)
  | RDel (id : Z)
  | RRaw (op : Z) (key value : bytes).

Definition plain_rec (seq : Z) (r : wal_rec) : bytes :=
  match r with
  | RPut id v m => plain_put seq id v m
  | RDel id => plain_del seq id
  | RRaw op k v => plain_raw seq op k v
  end.

(** Inputs within the widths of the format, and raw records with the opcodes
    the callers use. *)
Definition rec_ok (r : wal_rec) : Prop :=
  zlen (plain_rec 0 r) + 32 < 2 ^ 32 /\
  match r with
  | RPut id v m =>
      is_u64 id /\ vec_ok v /\ md_valid m
  | RDel id => is_u64 id
  | RRaw op k v =>
      (op = kRawKV \/ op = kBatchStart \/ op = kBatchEnd) /\ zlen k < 2 ^ 32 /\ zlen v < 2 ^ 32
  end.

(** The metadata a replay gives a put: its own, with the record's sequence
    number, when it has a tenant; the defaults otherwise. *)
Definition replayed_meta (seq : Z) (m : Metadata) : Metadata :=
  with_lsn seq (if bool_decide (md_tenant m = []) then md_default else m).

(** The effect of a record on the table being rebuilt. *)
Definition apply_rec {T} `{VectorSink T} (seq : Z) (r : wal_rec) : M T unit :=
  match r with
  | RPut id v m => sink_Put id v (replayed_meta seq m)
  | RDel id => sink_Delete id
  | RRaw _ _ _ => mret tt
  end.

(** A put without a tenant that carries a device, a location, a timestamp or a
    source vertex is written as [kPut] with a metadata block after the vector;
    a replay takes the block for a wrong length. *)
Definition readable (r : wal_rec) : bool :=
  match r with
  | RPut _ _ m => bool_decide (md_tenant m <> []) || negb (has_meta_block m)
  | _ => true
  end.

(** What a replay does at a record: it applies it and takes over its number, or
    it stops at a record it cannot read. *)
Definition replay_one {T} `{VectorSink T} (seq : Z) (r : wal_rec) : M (Wal * T) unit :=
  if readable r then on_sink (apply_rec seq r) ;; note_seq seq
  else mfail (Corruption "wal put length mismatch").

Lemma length_plain_rec seq r : length (plain_rec seq r) = length (plain_rec 0 r).
Proof. destruct r; cbn; unfold plain_put, plain_del, plain_raw; rewrite ?length_app, ?length_record_prefix; done. Qed.

Lemma plain_rec_min seq r : 21 <= zlen (plain_rec seq r).
Proof. destruct r; cbn; unfold plain_put, plain_del, plain_raw; len. Qed.

Lemma mbind_guard_true {S A} (b : bool) e (m : M S A) s :
  b = true -> (mguard b e ;; m) s = m s.
Proof. by intros ->. Qed.

Lemma mbind_guard_false {S A} (b : bool) e (m : M S A) s :
  b = false -> (mguard b e ;; m) s = (inl e, s).
Proof. by intros ->. Qed.

Lemma mbind_assoc {S A B C} (m : M S A) (k : A -> M S B) (l : B -> M S C) s :
  ((m ≫= k) ≫= l) s = (m ≫= (fun a => k a ≫= l)) s.
Proof. unfold mbind, M_bind. by destruct (m s) as [[]]. Qed.

Section replay_record.
Context {T : Type} `{VectorSink T}.

Lemma replay_record_put enc fh_len seq id v m s :
  is_u64 seq -> rec_ok (RPut id v m) ->
  (enc = false -> fh_len = zlen (plain_put seq id v m) + 4) ->
  replay_record enc fh_len (plain_put seq id v m) s = replay_one seq (RPut id v m) s.
Proof.
  intros Hseq (Hsz & Hid & Hv & Hm) Hlen. cbn [plain_rec] in Hsz.
  assert (is_u32 (vec_dim v)) as Hd.
  { revert Hsz. unfold plain_put, vec_dim. split; [apply zlen_nonneg|len]. }
  assert (21 <= zlen (plain_put seq id v m)) as Hmin by apply (plain_rec_min seq (RPut id v m)).
  unfold replay_record. rewrite mbind_guard_true by (unfold rp_size; apply negb_true_iff, Z.ltb_ge; lia).
  unfold plain_put in *. rewrite rp_dim_prefix, rp_op_prefix, rp_id_prefix, rp_seq_prefix
    by (try done; by case_bool_decide).
  rewrite drop_app_len by len. replace (Z.to_nat (vec_dim v)) with (length v) by (unfold vec_dim; len).
  rewrite read_vec_bytes by done.
  unfold replay_one, readable. cbn [apply_rec]. unfold replayed_meta. rewrite bool_decide_not.
  case_bool_decide as Ht; cbn [negb orb].
  - rewrite Z.eqb_refl. destruct (has_meta_block m); cbn [negb]; cbv iota.
    + apply mbind_guard_false. unfold rp_size, vec_dim, encode_meta in *.
      destruct enc; [|rewrite Hlen by done]; apply Z.eqb_neq; clear Hlen; len.
    + rewrite app_nil_r in Hlen |- *. apply mbind_guard_true. unfold rp_size, vec_dim.
      destruct enc; [|rewrite Hlen by done]; apply Z.eqb_eq; clear Hlen; len.
  - change (kPutMeta =? kPut) with false. rewrite Z.eqb_refl. cbv iota.
    assert (has_meta_block m = true) as Hb by (unfold has_meta_block; by rewrite bool_decide_eq_true_2).
    rewrite Hb in *. rewrite mbind_guard_true.
    2:{ apply negb_true_iff. unfold rp_size, vec_dim, encode_meta in *.
        destruct enc; [|rewrite Hlen by done]; apply Z.ltb_ge; clear Hlen; len. }
    replace (Z.to_nat (rp_size + vec_dim v * 4)) with (21 + 4 * length v)%nat by (unfold rp_size, vec_dim; len).
    rewrite drop_app_plus, drop_app_len by len. by rewrite decode_encode_meta.
Qed.

Lemma replay_record_plain enc fh_len seq r s :
  is_u64 seq -> rec_ok r -> (enc = false -> fh_len = zlen (plain_rec seq r) + 4) ->
  replay_record enc fh_len (plain_rec seq r) s = replay_one seq r s.
Proof.
  destruct r as [id v m|id|op k v]; intros Hseq Hok Hlen; [by apply replay_record_put|..];
    destruct Hok as (Hsz & Hok); cbn [plain_rec] in *.
  - unfold replay_record, plain_del in *.
    rewrite mbind_guard_true by (apply negb_true_iff, Z.ltb_ge; unfold rp_size; len).
    rewrite <-(app_nil_r (record_prefix seq kDel id 0)).
    rewrite rp_op_prefix, rp_id_prefix, rp_seq_prefix by done.
    change (kDel =? kPut) with false. change (kDel =? kPutMeta) with false. rewrite Z.eqb_refl. cbv iota.
    apply mbind_guard_true. unfold rp_size.
    destruct enc; [|rewrite Hlen by done]; apply Z.eqb_eq; clear Hlen; len.
  - destruct Hok as (Hop & Hk & Hv). unfold replay_record, plain_raw in *.
    rewrite mbind_guard_true by (apply negb_true_iff, Z.ltb_ge; unfold rp_size; len).
    rewrite rp_op_prefix, rp_seq_prefix by (try done; by destruct Hop as [->|[->| ->]]).
    unfold replay_one. cbn [apply_rec]. by destruct Hop as [->|[->| ->]].
Qed.

End replay_record.

(** ** Sealed bodies and frames *)

(** [body] is what an append of [r] under number [seq] writes between the
    frame header and the checksum. *)
Definition sealed `{AesGcm} (c : WalConf) (seq : Z) (r : wal_rec) (body : bytes) : Prop :=
  if wc_encryption_enabled c then
    exists nonce cipher tag, length nonce = 12%nat /\
      aes_Encrypt (wc_encryption_key c) nonce (plain_rec seq r) = inr (cipher, tag) /\
      body = nonce ++ cipher ++ tag
  else body = plain_rec seq r.

Section frames.
Context `{AesGcmLaws} {T : Type} `{VectorSink T}.

Lemma sealed_length c seq r body :
  sealed c seq r body -> zlen (plain_rec 0 r) <= zlen body <= zlen (plain_rec 0 r) + 28.
Proof.
  pose proof (length_plain_rec seq r). unfold sealed, zlen. destruct (wc_encryption_enabled c).
  - intros (nonce & cipher & tag & Hn & [E1 E2]%aes_lengths & ->). len.
  - intros ->. lia.
Qed.

Lemma length_MakeNonce shard seq gen : length (MakeNonce shard seq gen) = 12%nat.
Proof. unfold MakeNonce. len. Qed.

Lemma unseal_sealed c seq r nonce cipher tag :
  length nonce = 12%nat ->
  aes_Encrypt (wc_encryption_key c) nonce (plain_rec seq r) = inr (cipher, tag) ->
  unseal c (nonce ++ cipher ++ tag) = inr (plain_rec seq r).
Proof.
  intros Hn Henc. destruct (aes_lengths _ _ _ _ _ Henc) as [E1 E2]. unfold unseal.
  destruct (Z.ltb_spec (zlen (nonce ++ cipher ++ tag)) (12 + 16)); [len|].
  replace (length (nonce ++ cipher ++ tag) - 12 - 16)%nat with (length cipher) by len.
  rewrite take_app_len, drop_app_len, drop_app_plus by done.
  rewrite take_app_len, drop_app_len by done. by eapply aes_roundtrip.
Qed.

Lemma replay_body_frame c seq r body s :
  w_conf s.1 = c -> is_u64 seq -> rec_ok r -> sealed c seq r body ->
  replay_body (zlen body + 4) (body ++ le_split 4 (Crc32c body 0)) s = replay_one seq r s.
Proof.
  intros Hc Hseq Hok Hseal. pose proof (sealed_length _ _ _ _ Hseal) as Hl.
  pose proof (plain_rec_min 0 r) as Hmin. unfold replay_body.
  rewrite mbind_guard_true by (apply negb_true_iff, Z.ltb_ge; unfold rp_size; lia).
  replace (Z.to_nat (zlen body + 4 - 4)) with (length body) by len.
  rewrite take_app_len by done. rewrite mbind_guard_true.
  2:{ apply Z.eqb_eq. rewrite le_read_app_r by done. rewrite <-(app_nil_r (le_split 4 _)).
      apply le_read_app_l, Crc32c_range. }
  unfold mbind, M_bind, mget. rewrite Hc. unfold sealed in Hseal.
  destruct (wc_encryption_enabled c).
  - destruct Hseal as (nonce & cipher & tag & Hn & Henc & ->).
    rewrite (unseal_sealed c seq r) by done. by apply replay_record_plain.
  - subst body. by apply replay_record_plain.
Qed.

(** A frame whose body was changed in place keeps its header and checksum. *)
Definition damaged_frame (body body' : bytes) : bytes :=
  le_split 4 (u32 (zlen body + 4)) ++ body' ++ le_split 4 (Crc32c body 0).

Lemma read_frame_damaged fm p pre body body' rest :
  zlen body' = zlen body -> zlen body + 4 < 2 ^ 32 ->
  fm !! p = Some (pre ++ damaged_frame body body' ++ rest) ->
  read_frame p (zlen (pre ++ damaged_frame body body' ++ rest)) (zlen pre) (MkFs fm []) =
  (inr (Some (zlen body + 4, body' ++ le_split 4 (Crc32c body 0))), MkFs fm []).
Proof.
  intros Hl Hb Hp. unfold read_frame. pose proof (zlen_nonneg body) as Hnn.
  rewrite (mbind_ok _ _ _ _ _ (raf_Read_ok p (zlen pre) _ _ fm Hp ltac:(len))).
  replace (Z.to_nat (zlen pre)) with (length pre) by len. rewrite drop_app_len by done.
  assert (take (Z.to_nat 4) (damaged_frame body body' ++ rest) = le_split 4 (zlen body + 4)) as ->.
  { unfold damaged_frame. rewrite <-!app_assoc, take_app_len, u32_id by first [len|split; lia]. done. }
  assert (zlen (le_split 4 (zlen body + 4)) = 4) as -> by len.
  assert (le_read 4 0 (le_split 4 (zlen body + 4)) = zlen body + 4) as ->.
  { rewrite <-(app_nil_r (le_split 4 _)). apply le_read_app_l. split; lia. }
  change (negb (4 =? 4)) with false. cbv iota.
  destruct (Z.ltb_spec (zlen (pre ++ damaged_frame body body' ++ rest)) (zlen pre + 4 + (zlen body + 4)));
    [unfold damaged_frame in *; len|].
  rewrite (mbind_ok _ _ _ _ _ (raf_Read_ok p (zlen pre + 4) _ _ fm Hp ltac:(lia))).
  replace (Z.to_nat (zlen pre + 4)) with (length pre + 4)%nat by len.
  replace (Z.to_nat (zlen body + 4)) with (length (body' ++ le_split 4 (Crc32c body 0))) by len.
  rewrite drop_app_plus by done. unfold damaged_frame. rewrite <-!app_assoc, drop_app_len by len.
  rewrite app_assoc, take_app_length.
  assert (zlen (body' ++ le_split 4 (Crc32c body 0)) = zlen body + 4) as -> by len.
  by rewrite Z.eqb_refl.
Qed.

(** A complete frame in a file is read back whole. *)
Lemma read_frame_at fm p pre body rest :
  fm !! p = Some (pre ++ frame body ++ rest) -> zlen body + 4 < 2 ^ 32 ->
  read_frame p (zlen (pre ++ frame body ++ rest)) (zlen pre) (MkFs fm []) =
  (inr (Some (zlen body + 4, body ++ le_split 4 (Crc32c body 0))), MkFs fm []).
Proof. intros Hp Hb. by apply (read_frame_damaged fm p pre body body rest). Qed.

End frames.
