(* ===== verification/WalLog.v ===== *)
(** * The log as a sequence of records

    The contents of the segment files are related to the records they hold
    ([log_on_disk]); a replay applies exactly those records, whatever torn
    tail a crash left in a segment; appends extend the sequence, across
    rotations; opening an existing log keeps it. *)
From S2P Require Import Prelude Crc32c Env Types Wal WalCodec.

Open Scope Z_scope.

Record entry : Type := MkEntry { en_seq : Z; en_rec : wal_rec; en_body : bytes }.

Definition frames (es : list entry) : bytes := es ≫= (fun e => frame (en_body e)).
Definition seg_bytes (es : list entry) : bytes := wal_header ++ frames es.

(** What a crash in the middle of an append leaves: a strict prefix of a frame. *)
Definition torn (tail : bytes) : Prop :=
  tail = [] \/ exists body k, zlen body + 4 < 2 ^ 32 /\ (k < length (frame body))%nat /\
                         tail = take k (frame body).

Section disk.
Context `{AesGcm}.

Record entry_ok (c : WalConf) (e : entry) : Prop := {
  eo_seq : is_u64 (en_seq e);
  eo_rec : rec_ok (en_rec e);
  eo_sealed : sealed c (en_seq e) (en_rec e) (en_body e)
}.

(** Segment [i] of the log holds the records [segs[i].1] and then the torn
    bytes [segs[i].2]; there is no segment after the last one. *)
Record log_on_disk (c : WalConf) (fm : gmap path bytes) (segs : list (list entry * bytes)) : Prop := {
  ld_seg i es tail : segs !! i = Some (es, tail) ->
    fm !! SegmentPath c (Z.of_nat i) = Some (seg_bytes es ++ tail) /\
    Forall (entry_ok c) es /\ torn tail;
  ld_end : fm !! SegmentPath c (Z.of_nat (length segs)) = None
}.

(** The records of a log, in order. *)
Definition log_entries (segs : list (list entry * bytes)) : list entry := segs ≫= fst.

End disk.

(** The specification of a replay: apply the records in order, up to the first
    that cannot be read. *)
Fixpoint replay_entries {T} `{VectorSink T} (es : list entry) : M (Wal * T) unit :=
  match es with
  | [] => mret tt
  | e :: es => replay_one (en_seq e) (en_rec e) ;; replay_entries es
  end.

(** ** Paths *)

Lemma string_app_inj_r (a b s : string) : a +:+ s = b +:+ s -> a = b.
Proof.
  intros E. apply (f_equal String.list_ascii_of_string) in E.
  assert (forall x y, String.list_ascii_of_string (x +:+ y) =
    (String.list_ascii_of_string x ++ String.list_ascii_of_string y)%list) as Happ.
  { intros x y. induction x as [|ch x IH]; [done|]. cbn. by rewrite <-IH. }
  rewrite !Happ in E. apply app_inv_tail in E.
  by rewrite <-(String.string_of_list_ascii_of_string a), E, String.string_of_list_ascii_of_string.
Qed.

Lemma SegmentPath_inj c g1 g2 :
  0 <= g1 -> 0 <= g2 -> SegmentPath c g1 = SegmentPath c g2 -> g1 = g2.
Proof.
  intros H1 H2 E. unfold SegmentPath in E.
  do 4 apply (inj (String.append _)) in E. apply string_app_inj_r in E.
  apply (inj pretty) in E. lia.
Qed.

(** The first [n] segments exist, so there are at least [n] files. *)
Lemma segments_le_size c (fm : gmap path bytes) n :
  (forall i, (i < n)%nat -> is_Some (fm !! SegmentPath c (Z.of_nat i))) -> (n <= size fm)%nat.
Proof.
  intros Hex. set (l := (fun i => SegmentPath c (Z.of_nat i)) <$> seq 0 n).
  assert (NoDup l) as Hnd.
  { apply NoDup_fmap_2_strong; [|apply NoDup_ListNoDup, seq_NoDup].
    intros i j _ _ E%SegmentPath_inj; lia. }
  assert (list_to_set l ⊆@{gset path} dom fm) as Hsub.
  { intros p (i & -> & Hi%elem_of_seq)%elem_of_list_to_set%list_elem_of_fmap.
    apply elem_of_dom, Hex. lia. }
  apply subseteq_size in Hsub. rewrite size_list_to_set in Hsub by done.
  rewrite size_dom in Hsub. unfold l in Hsub. by rewrite length_fmap, length_seq in Hsub.
Qed.

(** ** Frames *)

Lemma frames_cons e es : frames (e :: es) = frame (en_body e) ++ frames es.
Proof. done. Qed.

Lemma length_frames_ge es : (length es <= length (frames es))%nat.
Proof. induction es as [|e es IH]; [done|]. rewrite frames_cons. len. Qed.

(** A torn tail holds no complete frame. *)
Lemma read_frame_torn p pre tail fm :
  torn tail -> fm !! p = Some (pre ++ tail) -> zlen pre + 4 <= zlen (pre ++ tail) ->
  read_frame p (zlen (pre ++ tail)) (zlen pre) (MkFs fm []) = (inr None, MkFs fm []).
Proof.
  intros [->|(body & k & Hb & Hk & ->)] Hp Hge; [len|].
  assert (0 <= zlen body) by apply zlen_nonneg.
  assert (4 <= k)%nat by (revert Hk Hge; len).
  unfold read_frame. rewrite (mbind_ok _ _ _ _ _ (raf_Read_ok p (zlen pre) _ _ fm Hp ltac:(len))).
  replace (Z.to_nat (zlen pre)) with (length pre) by len. rewrite drop_app_len by done.
  rewrite take_take, Nat.min_l by lia.
  assert (take (Z.to_nat 4) (frame body) = le_split 4 (zlen body + 4)) as ->.
  { unfold frame. rewrite take_app_len, u32_id by first [len|split; lia]. done. }
  assert (zlen (le_split 4 (zlen body + 4)) = 4) as -> by len.
  assert (le_read 4 0 (le_split 4 (zlen body + 4)) = zlen body + 4) as ->.
  { rewrite <-(app_nil_r (le_split 4 _)). apply le_read_app_l. split; lia. }
  cbn [Z.eqb negb Pos.eqb].
  destruct (Z.ltb_spec (zlen (pre ++ take k (frame body))) (zlen pre + 4 + (zlen body + 4))); [done|].
  revert Hk; len.
Qed.

Section replay.
Context `{AesGcmLaws} {T : Type} `{VectorSink T}.

Lemma replay_one_env seq r s s' :
  replay_one seq r s = (inr tt, s') -> w_env s'.1 = w_env s.1 /\ w_conf s'.1 = w_conf s.1.
Proof.
  unfold replay_one, on_sink, note_seq, mmodify, mbind, M_bind. destruct (readable r); [|done].
  destruct (apply_rec seq r s.2) as [[|] t]; intros E; simplify_eq.
  cbn. by destruct (_ <? _).
Qed.

(** [read_frame] on the remainder of a file: nothing complete is left. *)
Lemma replay_frames_torn fuel p pre tail fm w t :
  torn tail -> fm !! p = Some (pre ++ tail) -> w_env w = MkFs fm [] -> (0 < fuel)%nat ->
  replay_frames fuel p (zlen (pre ++ tail)) (zlen pre) (w, t) = (inr tt, (w, t)).
Proof.
  intros Htorn Hp Hw Hf. destruct fuel as [|fuel]; [lia|]. cbn [replay_frames].
  destruct (Z.ltb_spec (zlen (pre ++ tail)) (zlen pre + 4)) as [|Hge]; [done|].
  unfold on_fs, mbind at 1, M_bind at 1. cbn [get_fs pair_HasFs fst Wal_HasFs]. rewrite Hw.
  rewrite (read_frame_torn p pre tail fm Htorn Hp Hge). by destruct w; cbn in Hw; subst.
Qed.

Lemma replay_frames_spec c fuel p pre es tail fm w t :
  Forall (entry_ok c) es -> torn tail -> fm !! p = Some (pre ++ frames es ++ tail) ->
  w_env w = MkFs fm [] -> w_conf w = c -> (length es < fuel)%nat ->
  replay_frames fuel p (zlen (pre ++ frames es ++ tail)) (zlen pre) (w, t) = replay_entries es (w, t).
Proof.
  intros Hok Htorn. revert fuel pre w t. induction Hok as [|e es [Hseq Hrec Hseal] _ IH]; intros fuel pre w t Hp Hw Hc Hf.
  - by apply (replay_frames_torn fuel p pre tail fm).
  - destruct fuel as [|fuel]; cbn [length] in Hf; [lia|]. cbn [replay_frames replay_entries].
    rewrite frames_cons in *. rewrite <-app_assoc in *.
    pose proof (sealed_length _ _ _ _ Hseal) as Hl. destruct (Hrec) as [Hsz _].
    destruct (Z.ltb_spec (zlen (pre ++ frame (en_body e) ++ frames es ++ tail)) (zlen pre + 4)); [len|].
    unfold on_fs, mbind at 1, M_bind at 1. cbn [get_fs pair_HasFs fst Wal_HasFs]. rewrite Hw.
    rewrite read_frame_at by first [done|lia].
    replace (set_fs (MkFs fm []) (w, t)) with (w, t) by (by destruct w; cbn in Hw; subst).
    unfold mbind, M_bind. rewrite (replay_body_frame c _ _ _ (w, t) Hc Hseq Hrec Hseal).
    destruct (replay_one (en_seq e) (en_rec e) (w, t)) as [[err|[]] [w' t']] eqn:E; [done|].
    apply replay_one_env in E as [E1 E2]. cbn in E1, E2.
    replace (zlen pre + 4 + (zlen (en_body e) + 4)) with (zlen (pre ++ frame (en_body e))) by len.
    rewrite app_assoc in Hp |- *. apply IH; [done|congruence|congruence|lia].
Qed.

Lemma replay_start_ok p es tail fm :
  fm !! p = Some (seg_bytes es ++ tail) ->
  replay_start p (zlen (seg_bytes es ++ tail)) (MkFs fm []) = (inr 16, MkFs fm []).
Proof.
  intros Hp. unfold replay_start.
  destruct (Z.ltb_spec (zlen (seg_bytes es ++ tail)) 16); [unfold seg_bytes in *; len|].
  rewrite (mbind_ok _ _ _ _ _ (raf_Read_ok p 0 _ _ fm Hp ltac:(len))).
  rewrite drop_0. unfold seg_bytes. by rewrite <-app_assoc, take_app_len by done.
Qed.

Lemma replay_segment_spec c p es tail fm w t :
  Forall (entry_ok c) es -> torn tail -> fm !! p = Some (seg_bytes es ++ tail) ->
  w_env w = MkFs fm [] -> w_conf w = c ->
  replay_segment p (w, t) = replay_entries es (w, t).
Proof.
  intros Hok Htorn Hp Hw Hc. unfold replay_segment, on_fs, mbind, M_bind, try_.
  assert (forall f, set_fs f (w, t) = (set_fs f w, t)) as Es by done.
  assert (set_fs (MkFs fm []) w = w) as Ew by (by destruct w; cbn in Hw; subst).
  cbn [get_fs pair_HasFs fst Wal_HasFs]. rewrite Hw, (NewRandomAccessFile_ok p _ fm Hp), Es, Ew.
  cbn [get_fs pair_HasFs fst Wal_HasFs]. rewrite Hw, (GetFileSize_ok p _ fm Hp), Es, Ew.
  cbn [get_fs pair_HasFs fst Wal_HasFs]. rewrite Hw, (replay_start_ok p es tail fm Hp), Es, Ew.
  unfold seg_bytes in *. rewrite <-app_assoc in *. change 16 with (zlen wal_header).
  apply (replay_frames_spec c _ p wal_header es tail fm); try done.
  pose proof (length_frames_ge es). len.
Qed.

Lemma replay_entries_env es s s' :
  replay_entries es s = (inr tt, s') -> w_env s'.1 = w_env s.1 /\ w_conf s'.1 = w_conf s.1.
Proof.
  revert s. induction es as [|e es IH]; cbn [replay_entries]; intros s E; [by injection E as <-|].
  apply mbind_inv in E as ([] & s1 & E1%replay_one_env & E2%IH). destruct E1, E2. split; congruence.
Qed.

Lemma replay_entries_app es1 es2 s :
  replay_entries (es1 ++ es2) s = (replay_entries es1 ;; replay_entries es2) s.
Proof.
  revert s. induction es1 as [|e es1 IH]; intros s; [done|].
  cbn [app replay_entries]. rewrite mbind_assoc. unfold mbind, M_bind.
  destruct (replay_one _ _ s) as [[err|[]] s1]; [done|]. apply IH.
Qed.

Lemma replay_generations_spec c segs fuel g fm w t :
  (forall i es tail, segs !! i = Some (es, tail) ->
    fm !! SegmentPath c (g + Z.of_nat i) = Some (seg_bytes es ++ tail) /\
    Forall (entry_ok c) es /\ torn tail) ->
  fm !! SegmentPath c (g + Z.of_nat (length segs)) = None ->
  w_env w = MkFs fm [] -> w_conf w = c -> (length segs < fuel)%nat ->
  replay_generations fuel g (w, t) = replay_entries (log_entries segs) (w, t).
Proof.
  revert fuel g w t. induction segs as [|[es tail] segs IH]; intros fuel g w t Hseg Hend Hw Hc Hf;
    (destruct fuel as [|fuel]; cbn [length] in Hf; [lia|]); cbn [replay_generations];
    unfold mbind at 1 2, M_bind at 1 2, mget, on_fs;
    assert (set_fs (MkFs fm []) (w, t) = (w, t)) as Ew by (by destruct w; cbn in Hw; subst);
    cbn [get_fs pair_HasFs fst Wal_HasFs]; rewrite Hw, Hc, FileExists_ok_eq, Ew.
  - rewrite Z.add_0_r in Hend. by rewrite Hend.
  - destruct (Hseg 0%nat es tail eq_refl) as (Hp & Hok & Ht). rewrite Z.add_0_r in Hp.
    rewrite bool_decide_eq_true_2 by by rewrite Hp.
    change (log_entries ((es, tail) :: segs)) with (es ++ log_entries segs).
    rewrite replay_entries_app. unfold mbind, M_bind.
    rewrite (replay_segment_spec c _ es tail fm w t Hok Ht Hp Hw Hc).
    destruct (replay_entries es (w, t)) as [[err|[]] [w' t']] eqn:E; [done|].
    apply replay_entries_env in E as [E1 E2]. cbn in E1, E2.
    apply IH; [|rewrite <-Hend; cbn [length]; do 2 f_equal; lia|congruence|congruence|lia].
    intros i es' tail' Hi. destruct (Hseg (S i) es' tail' Hi) as (? & ? & ?).
    split_and!; [|done..]. by replace (g + 1 + Z.of_nat i) with (g + Z.of_nat (S i)) by lia.
Qed.

Lemma replay_into_spec segs fm w t :
  log_on_disk (w_conf w) fm segs -> w_env w = MkFs fm [] ->
  wal_ReplayInto (w, t) = replay_entries (log_entries segs) (w, t).
Proof.
  intros [Hseg Hend] Hw. unfold wal_ReplayInto. unfold mbind, M_bind, mget. cbn [fst].
  eapply replay_generations_spec; try done.
  unfold gen_fuel. rewrite Hw. cbn [fs_files].
  assert (length segs <= size fm)%nat; [|lia].
  eapply segments_le_size. intros i [[es tail] Hi]%lookup_lt_is_Some.
  destruct (Hseg i es tail Hi) as [-> _]. done.
Qed.

End replay.

(** ** An open log *)

Section log_state.
Context `{AesGcm}.

(** A log open for appending on a file system without pending faults: [segs]
    are the closed segments and [es] the records of the current one; [ns] and
    [ng] more records and rotations fit the 64-bit counters. *)
Record wal_inv (ns ng : Z) (w : Wal) (segs : list (list entry * bytes)) (es : list entry) : Prop := {
  wi_faults : fs_faults (w_env w) = [];
  wi_disk : log_on_disk (w_conf w) (fs_files (w_env w)) (segs ++ [(es, [])]);
  wi_gen : w_gen w = zlen segs;
  wi_beyond g : w_gen w < g -> fs_files (w_env w) !! SegmentPath (w_conf w) g = None;
  wi_file : exists bw, w_file w =
    Some (MkWFile (SegmentPath (w_conf w) (w_gen w)) true (zlen (seg_bytes es)) bw);
  wi_size : w_bytes_in_seg w = zlen (seg_bytes es);
  wi_room : zlen (seg_bytes es) < 2 ^ 63;
  wi_limit : 0 <= wc_segment_bytes (w_conf w) < 2 ^ 63;
  wi_seq : 0 <= w_seq w /\ w_seq w + ns < 2 ^ 64;
  wi_gens : w_gen w + ng < 2 ^ 64
}.

Lemma log_on_disk_last c fm segs es tail :
  log_on_disk c fm (segs ++ [(es, tail)]) ->
  fm !! SegmentPath c (zlen segs) = Some (seg_bytes es ++ tail) /\ Forall (entry_ok c) es.
Proof.
  intros [Hseg _]. destruct (Hseg (length segs) es tail) as (? & ? & ?); [|done].
  by rewrite lookup_app_r, Nat.sub_diag.
Qed.

(** Writing the file of the segment after [segs]. *)
Lemma log_on_disk_set c fm segs es :
  (forall i es0 tail, segs !! i = Some (es0, tail) ->
    fm !! SegmentPath c (Z.of_nat i) = Some (seg_bytes es0 ++ tail) /\
    Forall (entry_ok c) es0 /\ torn tail) ->
  Forall (entry_ok c) es -> fm !! SegmentPath c (zlen segs + 1) = None ->
  log_on_disk c (<[SegmentPath c (zlen segs) := seg_bytes es]> fm) (segs ++ [(es, [])]).
Proof.
  intros Hseg Hok Hnext. split.
  - intros i es0 tail Hi. destruct (decide (i = length segs)) as [->|Hne].
    + rewrite lookup_app_r, Nat.sub_diag in Hi by done. injection Hi as <- <-.
      rewrite lookup_insert_eq, app_nil_r. split_and!; [done..|by left].
    + pose proof (lookup_lt_Some _ _ _ Hi) as Hlt. rewrite length_app in Hlt. cbn in Hlt.
      rewrite lookup_app_l in Hi by lia. destruct (Hseg i es0 tail Hi) as (? & ? & ?).
      split_and!; [|done..]. rewrite lookup_insert_ne; [done|].
      intros E%SegmentPath_inj; unfold zlen in *; lia.
  - rewrite length_app. rewrite lookup_insert_ne.
    + rewrite <-Hnext. do 2 f_equal. len.
    + intros E%SegmentPath_inj; unfold zlen in *; cbn in *; lia.
Qed.

Lemma log_on_disk_update c fm segs es es' :
  log_on_disk c fm (segs ++ [(es, [])]) -> Forall (entry_ok c) es' ->
  log_on_disk c (<[SegmentPath c (zlen segs) := seg_bytes es']> fm) (segs ++ [(es', [])]).
Proof.
  intros [Hseg Hend] Hok. apply log_on_disk_set; [|done|].
  - intros i es0 tail Hi. apply Hseg. apply lookup_app_l_Some, Hi.
  - rewrite <-Hend. do 2 f_equal. len.
Qed.

Lemma frames_app es1 es2 : frames (es1 ++ es2) = frames es1 ++ frames es2.
Proof. apply bind_app. Qed.

Lemma set_fs_same w f : w_env w = f -> set_fs f w = w.
Proof. by destruct w; cbn; intros ->. Qed.

(** ** Writing to the current file *)

Lemma file_append_spec w p c bw fm data :
  w_env w = MkFs fm [] -> w_file w = Some (MkWFile p true (zlen c) bw) -> fm !! p = Some c ->
  zlen c + zlen data < 2 ^ 64 ->
  exists bw', file_append data w =
    (inr tt, set_wfile (Some (MkWFile p true (zlen (c ++ data)) bw'))
               (set_fs (MkFs (<[p := c ++ data]> fm) []) w)).
Proof.
  intros Hw Hf Hp Hlt. unfold file_append, mbind, M_bind, mget, on_fs. rewrite Hf.
  cbn [get_fs Wal_HasFs]. rewrite Hw, (wf_Append_ok p (zlen c) bw c data fm Hp eq_refl Hlt).
  eexists. reflexivity.
Qed.

Lemma AppendIovecs_spec iovs w p c bw fm :
  w_env w = MkFs fm [] -> w_file w = Some (MkWFile p true (zlen c) bw) -> fm !! p = Some c ->
  zlen c + zlen (concat iovs) < 2 ^ 64 ->
  exists bw', AppendIovecs iovs w =
    (inr tt, set_wfile (Some (MkWFile p true (zlen (c ++ concat iovs)) bw'))
               (set_fs (MkFs (<[p := c ++ concat iovs]> fm) []) w)).
Proof.
  revert w c bw fm. induction iovs as [|iov iovs IH]; intros w c bw fm Hw Hf Hp Hlt.
  - exists bw. cbn [AppendIovecs concat]. rewrite app_nil_r, insert_id by done.
    rewrite <-Hw, <-Hf. by destruct w.
  - cbn [AppendIovecs concat] in *. case_bool_decide as Hi.
    { subst iov. by eapply IH. }
    destruct (file_append_spec w p c bw fm iov) as [bw1 E]; [done..|len|].
    rewrite (mbind_ok _ _ _ _ _ E).
    destruct (IH (set_wfile (Some (MkWFile p true (zlen (c ++ iov)) bw1)) (set_fs (MkFs (<[p := c ++ iov]> fm) []) w))
      (c ++ iov) bw1 (<[p := c ++ iov]> fm)) as [bw2 ->]; [done..|by rewrite lookup_insert_eq|len|].
    exists bw2. rewrite insert_insert_eq, <-app_assoc. done.
Qed.

Lemma wal_Sync_spec w h :
  w_file w = Some h -> wf_open h = true -> fs_faults (w_env w) = [] -> wal_Sync w = (inr tt, w).
Proof.
  intros Hf Ho Hfl. unfold wal_Sync, wf_Sync, mbind, M_bind, mget, on_fs. rewrite Hf, Ho.
  cbn [get_fs Wal_HasFs]. destruct w as [[fm fl] ? ? ? ? ? ? ?]. cbn in Hfl. by subst.
Qed.

Lemma finish_append_spec w h total :
  w_file w = Some h -> wf_open h = true -> fs_faults (w_env w) = [] ->
  finish_append total w =
  (inr tt, set_total (u64 (w_bytes_written_total w + total))
     (set_sizes (u64 (w_file_off w + total)) (u64 (w_bytes_in_seg w + total)) w)).
Proof.
  intros Hf Ho Hfl. unfold finish_append, mbind, M_bind, mmodify, mget. cbn [w_conf set_total set_sizes].
  destruct (wc_fsync (w_conf w)); [reflexivity|]. by erewrite wal_Sync_spec.
Qed.

(** The writes and the accounting of an append add the new records to the
    current segment. *)
Lemma append_frames_spec ns ng w segs es iovs news total :
  wal_inv ns ng w segs es -> Forall (entry_ok (w_conf w)) news ->
  concat iovs = frames news -> total = zlen (frames news) ->
  zlen (seg_bytes es) + total < 2 ^ 63 ->
  exists w', (AppendIovecs iovs ;; finish_append total) w = (inr tt, w') /\
    wal_inv ns ng w' segs (es ++ news) /\ w_conf w' = w_conf w /\ w_seq w' = w_seq w.
Proof.
  intros Hinv Hok Hio -> Hlt. destruct Hinv as [Hfl Hd Hg Hb [bw Hf] Hs Hr Hl Hq Hgs].
  destruct (log_on_disk_last _ _ _ _ _ Hd) as [Hp Hes]. rewrite app_nil_r, <-Hg in Hp.
  destruct w as [[fm fl] c gen seq off inseg tot h]; cbn [w_env fs_faults fs_files w_conf w_gen w_bytes_in_seg w_file w_seq] in *.
  subst fl h. set (w0 := MkWal _ _ _ _ _ _ _ _).
  destruct (AppendIovecs_spec iovs w0 (SegmentPath c gen) (seg_bytes es) bw fm) as [bw' E]; [done..| |].
  { rewrite Hio. pose proof (zlen_nonneg (frames news)). lia. }
  rewrite (mbind_ok _ _ _ _ _ E). rewrite Hio.
  assert (seg_bytes es ++ frames news = seg_bytes (es ++ news)) as ->
    by (unfold seg_bytes; by rewrite frames_app, app_assoc).
  assert (zlen (seg_bytes (es ++ news)) = zlen (seg_bytes es) + zlen (frames news)) as Elen
    by (unfold seg_bytes; rewrite frames_app; len).
  pose proof (zlen_nonneg (seg_bytes es)). pose proof (zlen_nonneg (frames news)).
  erewrite finish_append_spec by reflexivity. eexists. split; [reflexivity|]. unfold w0. split; [|done].
  split; cbn [set_total set_sizes set_wfile set_fs Wal_HasFs w_env fs_faults fs_files w_conf w_gen w_bytes_in_seg w_file w_seq];
    try done; try lia.
  - rewrite Hg. apply (log_on_disk_update c fm segs es); [done|by apply Forall_app].
  - intros g Hgt. rewrite lookup_insert_ne; [by apply Hb|].
    pose proof (zlen_nonneg segs). intros Ep%SegmentPath_inj; lia.
  - by exists bw'.
  - rewrite u64_id; [lia|]. split; lia.
Qed.

Lemma RotateIfNeeded_spec ns ng w segs es add :
  wal_inv ns ng w segs es -> 0 <= add < 2 ^ 62 -> 0 < ng ->
  exists w' segs' es', RotateIfNeeded add w = (inr tt, w') /\ wal_inv ns (ng - 1) w' segs' es' /\
    log_entries (segs' ++ [(es', [])]) = log_entries (segs ++ [(es, [])]) /\
    w_conf w' = w_conf w /\ w_seq w' = w_seq w /\
    (zlen (seg_bytes es') + add <= wc_segment_bytes (w_conf w) \/ es' = []).
Proof.
  intros Hinv Hadd Hng. pose proof Hinv as Hinv'. destruct Hinv' as [Hfl Hd Hg Hb [bw Hf] Hs Hr Hl Hq Hgs].
  pose proof (zlen_nonneg (seg_bytes es)) as Hnn. pose proof (zlen_nonneg segs) as Hns.
  unfold RotateIfNeeded. unfold mbind at 1, M_bind at 1, mget at 1.
  rewrite Hs, u64_id by (split; lia).
  destruct (Z.leb_spec (zlen (seg_bytes es) + add) (wc_segment_bytes (w_conf w))) as [Hle|Hgt].
  { exists w, segs, es. split; [done|]. split; [|by repeat split; left]. destruct Hinv. split; try done; lia. }
  rewrite Hf. destruct w as [[fm fl] c gen seq off inseg tot h];
    cbn [w_env fs_faults fs_files w_conf w_gen w_bytes_in_seg w_file w_seq] in *. subst fl h.
  erewrite mbind_ok; [|reflexivity].
  erewrite mbind_ok; [|reflexivity]. unfold mbind at 1, M_bind at 1, mget at 1.
  cbn [set_wfile set_sizes set_gen set_fs Wal_HasFs w_conf w_gen].
  rewrite u64_id by (split; lia).
  erewrite mbind_ok.
  2:{ unfold on_fs. cbn [get_fs Wal_HasFs w_env set_wfile set_sizes set_gen set_fs].
      rewrite NewAppendableFile_ok by (apply Hb; lia). reflexivity. }
  erewrite mbind_ok; [|reflexivity].
  destruct (file_append_spec (MkWal (MkFs (<[SegmentPath c (gen + 1) := []]> fm) []) c (gen + 1) seq 0 0 tot
    (Some (MkWFile (SegmentPath c (gen + 1)) true 0 0))) (SegmentPath c (gen + 1)) [] 0
    (<[SegmentPath c (gen + 1) := []]> fm) wal_header) as [bw' E]; [done..|by rewrite lookup_insert_eq|done|].
  erewrite mbind_ok; [|exact E]. unfold mmodify.
  eexists _, (segs ++ [(es, [])]), []. split; [reflexivity|].
  split; [|split; [|by repeat split; right]].
  - rewrite insert_insert_eq. cbn [app].
    split; cbn [set_total set_sizes set_wfile set_fs Wal_HasFs w_env fs_faults fs_files w_conf w_gen w_bytes_in_seg w_file w_seq];
      try done; try lia.
    + replace (gen + 1) with (zlen (segs ++ [(es, [])])) by len.
      apply (log_on_disk_set c fm (segs ++ [(es, [])]) []); [apply Hd|constructor|]. apply Hb. len.
    + len.
    + intros g Hgt'. rewrite lookup_insert_ne; [apply Hb; lia|]. intros Ep%SegmentPath_inj; lia.
    + by exists bw'.
  - unfold log_entries. rewrite (bind_app _ (segs ++ _)). by rewrite app_nil_r.
Qed.

End log_state.

(** ** Client operations *)

Inductive wal_op : Type :=
  | OpRec (r : wal_rec)
  | OpBatch (items : list (Z * vec))
  | OpFlush.

(** The records an operation asks for. *)
Definition op_recs (o : wal_op) : list wal_rec :=
  match o with
  | OpRec r => [r]
  | OpBatch items => (fun p => RPut p.1 p.2 md_default) <$> items
  | OpFlush => []
  end.

(** Records numbered from [seq + 1]. *)
Fixpoint number (seq : Z) (rs : list wal_rec) : list (Z * wal_rec) :=
  match rs with
  | [] => []
  | r :: rs => (seq + 1, r) :: number (seq + 1) rs
  end.

(** The longest prefix whose elements satisfy [f]. *)
Fixpoint prefix_while {A} (f : A -> bool) (l : list A) : list A :=
  match l with
  | [] => []
  | x :: l => if f x then x :: prefix_while f l else []
  end.

Lemma prefix_number seq rs :
  prefix_while (fun p => readable p.2) (number seq rs) = number seq (prefix_while readable rs).
Proof.
  revert seq. induction rs as [|r rs IH]; intros seq; [done|]. cbn [number prefix_while snd].
  destruct (readable r); [|done]. cbn [number]. by rewrite IH.
Qed.

Lemma number_snd seq rs : (number seq rs).*2 = rs.
Proof. revert seq. induction rs as [|r rs IH]; intros seq; [done|]. cbn. by rewrite IH. Qed.

Definition untag (e : entry) : Z * wal_rec := (en_seq e, en_rec e).

Section appends.
Context `{AesGcmLaws}.

Definition run_op (o : wal_op) : M Wal unit :=
  match o with
  | OpRec (RPut id v m) => wal_AppendPut id v m
  | OpRec (RDel id) => wal_AppendDelete id
  | OpRec (RRaw op k v) => wal_AppendRawKV op k v
  | OpBatch items => wal_AppendBatch items.*1 items.*2
  | OpFlush => wal_Flush
  end.

Fixpoint run_ops (os : list wal_op) : M Wal unit :=
  match os with
  | [] => mret tt
  | o :: os => run_op o ;; run_ops os
  end.

(** Encryption, when it is on, does not fail. *)
Definition aes_available (c : WalConf) : Prop :=
  wc_encryption_enabled c = true ->
  forall nonce p, exists r, aes_Encrypt (wc_encryption_key c) nonce p = inr r.

Lemma next_seq_eq w :
  next_seq w = (inr (u64 (w_seq w + 1)), set_seq (u64 (w_seq w + 1)) w).
Proof. done. Qed.

Lemma next_seq_spec ns ng w segs es :
  wal_inv ns ng w segs es -> 0 < ns ->
  exists w1, next_seq w = (inr (w_seq w + 1), w1) /\ wal_inv (ns - 1) ng w1 segs es /\
    w_conf w1 = w_conf w /\ w_seq w1 = w_seq w + 1.
Proof.
  intros [Hfl Hd Hg Hb Hf Hs Hr Hl Hq Hgs] Hns. rewrite next_seq_eq, u64_id by (split; lia). eexists. split; [done|].
  split; [|done]. split; cbn [set_seq w_env fs_faults fs_files w_conf w_gen w_bytes_in_seg w_file w_seq];
    try done; lia.
Qed.

Lemma seal_spec w seq r :
  aes_available (w_conf w) ->
  exists body, seal seq (plain_rec seq r) w = (inr body, w) /\ sealed (w_conf w) seq r body.
Proof.
  intros Hav. unfold seal, sealed, mbind, M_bind, mget.
  destruct (wc_encryption_enabled (w_conf w)) eqn:E; [|by eexists].
  set (nonce := MakeNonce _ _ _). destruct (Hav E nonce (plain_rec seq r)) as [[c t] Hc]. rewrite Hc.
  eexists. split; [done|]. exists nonce, c, t. split_and!; [apply length_MakeNonce|done..].
Qed.

Lemma append_body_spec ns ng w segs es e :
  wal_inv ns ng w segs es -> 0 < ng -> entry_ok (w_conf w) e ->
  exists w' segs' es', append_body (en_body e) w = (inr tt, w') /\ wal_inv ns (ng - 1) w' segs' es' /\
    log_entries (segs' ++ [(es', [])]) = log_entries (segs ++ [(es, [])]) ++ [e] /\
    w_conf w' = w_conf w /\ w_seq w' = w_seq w /\
    (zlen (seg_bytes es') <= wc_segment_bytes (w_conf w) \/ es' = [e]).
Proof.
  intros Hinv Hng He. pose proof (sealed_length _ _ _ _ (eo_sealed _ _ He)) as Hl.
  destruct (eo_rec _ _ He) as [Hsz _]. pose proof (zlen_nonneg (en_body e)) as Hnn.
  unfold append_body. rewrite u32_id by (split; lia).
  destruct (RotateIfNeeded_spec ns ng w segs es (4 + (zlen (en_body e) + 4)))
    as (w1 & segs1 & es1 & E1 & Hinv1 & Hlog & Hc & Hs & Hroom); [done|lia|done|].
  assert (zlen (frames [e]) = 4 + (zlen (en_body e) + 4)) as Ef
    by (unfold frames; cbn [mbind list_bind]; rewrite app_nil_r; len).
  rewrite (mbind_ok _ _ _ _ _ E1).
  destruct (append_frames_spec ns (ng - 1) w1 segs1 es1
    [le_split 4 (zlen (en_body e) + 4); en_body e; le_split 4 (Crc32c (en_body e) 0)] [e]
    (4 + (zlen (en_body e) + 4))) as (w' & E2 & Hinv2 & Hc2 & Hs2); [done|by rewrite Hc; constructor| |done| |].
  { cbn. rewrite !app_nil_r. unfold frame. by rewrite u32_id by (split; lia). }
  { destruct Hinv1. rewrite Hc in *. destruct Hroom as [| ->]; [lia|]. unfold seg_bytes. cbn [frames mbind list_bind]. len. }
  exists w', segs1, (es1 ++ [e]). split; [exact E2|]. split; [done|].
  assert (log_entries (segs1 ++ [(es1 ++ [e], [])]) = log_entries (segs1 ++ [(es1, [])]) ++ [e]) as ->.
  { unfold log_entries. rewrite !bind_app. cbn. by rewrite !app_nil_r, app_assoc. }
  rewrite Hlog. split_and!; [done|congruence|congruence|].
  destruct Hroom as [Hle| ->]; [left|by right]. unfold seg_bytes in *. rewrite frames_app. revert Hle Ef. len.
Qed.

(** A record append, common to puts, deletes and raw records. *)
Lemma append_rec_spec ns ng w segs es r :
  wal_inv ns ng w segs es -> 0 < ns -> 0 < ng -> rec_ok r -> aes_available (w_conf w) ->
  exists w' segs' es' e, run_op (OpRec r) w = (inr tt, w') /\ wal_inv (ns - 1) (ng - 1) w' segs' es' /\
    untag e = (w_seq w + 1, r) /\
    log_entries (segs' ++ [(es', [])]) = log_entries (segs ++ [(es, [])]) ++ [e] /\
    w_conf w' = w_conf w /\ w_seq w' = w_seq w + 1 /\
    (zlen (seg_bytes es') <= wc_segment_bytes (w_conf w) \/ es' = [e]).
Proof.
  intros Hinv Hns Hng Hok Hav.
  destruct (next_seq_spec ns ng w segs es Hinv Hns) as (w1 & E1 & Hinv1 & Hc1 & Hs1).
  destruct (seal_spec w1 (w_seq w + 1) r) as (body & E2 & Hseal); [by rewrite Hc1|].
  set (e := MkEntry (w_seq w + 1) r body).
  destruct (append_body_spec (ns - 1) ng w1 segs es e Hinv1 Hng) as (w' & segs' & es' & E3 & Hinv' & Hlog & Hc & Hs & Hroom).
  { split; [|done..]. destruct (wi_seq _ _ _ _ _ Hinv). split; cbn; lia. }
  exists w', segs', es', e. split.
  { assert (run_op (OpRec r) w = (seq ← next_seq; body ← seal seq (plain_rec seq r); append_body body) w) as ->
      by by destruct r.
    rewrite (mbind_ok _ _ _ _ _ E1), (mbind_ok _ _ _ _ _ E2). exact E3. }
  rewrite Hc1 in *. split_and!; try done; lia.
Qed.

Lemma number_app seq rs1 rs2 :
  number seq (rs1 ++ rs2) = number seq rs1 ++ number (seq + zlen rs1) rs2.
Proof.
  revert seq. induction rs1 as [|r rs1 IH]; intros seq; [by rewrite Z.add_0_r|].
  cbn [app number]. rewrite IH. do 3 f_equal. len.
Qed.

Lemma number_rec seq rs p : p ∈ number seq rs -> p.2 ∈ rs.
Proof.
  revert seq. induction rs as [|r rs IH]; intros seq; cbn [number]; [by rewrite !elem_of_nil|].
  rewrite !elem_of_cons. intros [->|Hp]; [by left|]. right. by eapply IH.
Qed.

Definition batch_item_ok (p : Z * vec) : Prop := rec_ok (RPut p.1 p.2 md_default).

(** The batch path writes the frames the single appends would write. *)
Lemma batch_iovecs_spec items w :
  wc_encryption_enabled (w_conf w) = false -> Forall batch_item_ok items ->
  0 <= w_seq w -> w_seq w + zlen items < 2 ^ 64 ->
  exists iovs news, batch_iovecs items w = (inr iovs, set_seq (w_seq w + zlen items) w) /\
    concat iovs = frames news /\ Forall (entry_ok (w_conf w)) news /\
    untag <$> news = number (w_seq w) (op_recs (OpBatch items)) /\
    zlen (frames news) = batch_bytes items.*2.
Proof.
  intros Henc Hok. revert w Henc. induction Hok as [|[id v] items Hi Hok IH]; intros w Henc Hge Hlt.
  - exists [], []. cbn. rewrite Z.add_0_r. by destruct w.
  - cbn [batch_iovecs]. rewrite (mbind_ok _ _ _ _ _ (next_seq_eq w)).
    pose proof (zlen_nonneg items). unfold zlen in Hlt. cbn [length] in Hlt.
    rewrite u64_id by (split; lia).
    destruct (IH (set_seq (w_seq w + 1) w)) as (iovs & news & E & Hio & Hn & Hu & Hz); [done|cbn; lia|cbn; len|].
    rewrite (mbind_ok _ _ _ _ _ E). cbv beta iota delta [mret M_ret].
    set (e := MkEntry (w_seq w + 1) (RPut id v md_default) (plain_put (w_seq w + 1) id v md_default)).
    assert (en_body e = record_prefix (w_seq w + 1) kPut id (vec_dim v) ++ vec_bytes v) as Eb.
    { unfold e, plain_put. cbn. by rewrite app_nil_r. }
    destruct Hi as [Hsz Hi]. cbn [fst snd plain_rec] in Hsz.
    eexists _, (e :: news). split; [|split; [|split; [|split]]].
    + f_equal. unfold set_seq. cbn [w_seq w_env w_conf]. f_equal. len.
    + cbn [concat]. rewrite Hio, frames_cons, Eb. unfold frame. rewrite <-!app_assoc.
      rewrite Crc32c_app. do 3 f_equal. unfold rp_size. len.
    + constructor; [|done]. split; [split; cbn; lia|by split|]. unfold sealed. by rewrite Henc.
    + cbn [fmap list_fmap op_recs fst snd number]. cbn in Hu. by rewrite Hu.
    + rewrite frames_cons. unfold batch_bytes in *. cbn [fmap list_fmap foldr snd fst]. rewrite <-Hz, Eb.
      unfold rp_size. len.
Qed.

Lemma append_each_spec items : forall ns ng w segs es,
  wal_inv ns ng w segs es -> zlen items <= ns -> zlen items <= ng -> Forall batch_item_ok items ->
  aes_available (w_conf w) ->
  exists w' segs' es' news, append_each items w = (inr tt, w') /\
    wal_inv (ns - zlen items) (ng - zlen items) w' segs' es' /\
    untag <$> news = number (w_seq w) (op_recs (OpBatch items)) /\
    log_entries (segs' ++ [(es', [])]) = log_entries (segs ++ [(es, [])]) ++ news /\
    w_conf w' = w_conf w /\ w_seq w' = w_seq w + zlen items.
Proof.
  induction items as [|[id v] items IH]; intros ns ng w segs es Hinv Hns Hng Hok Hav.
  - exists w, segs, es, []. rewrite !Z.sub_0_r, Z.add_0_r, app_nil_r. done.
  - apply Forall_cons in Hok as [Hi Hok]. unfold zlen in Hns, Hng. cbn [length] in Hns, Hng.
    destruct (append_rec_spec ns ng w segs es (RPut id v md_default)) as
      (w1 & segs1 & es1 & e & E1 & Hinv1 & Hu1 & Hlog1 & Hc1 & Hs1 & _); [done|lia|lia|done|done|].
    destruct (IH (ns - 1) (ng - 1) w1 segs1 es1) as
      (w2 & segs2 & es2 & news & E2 & Hinv2 & Hu2 & Hlog2 & Hc2 & Hs2); [done|len|len|done|by rewrite Hc1|].
    exists w2, segs2, es2, (e :: news).
    assert (zlen ((id, v) :: items) = zlen items + 1) as -> by len.
    split; [by cbn [append_each]; rewrite (mbind_ok _ _ _ _ _ E1)|].
    split; [by replace (ns - (zlen items + 1)) with (ns - 1 - zlen items) by lia;
      replace (ng - (zlen items + 1)) with (ng - 1 - zlen items) by lia|].
    split_and!.
    + rewrite fmap_cons, Hu1, Hu2, Hs1. done.
    + by rewrite Hlog2, Hlog1, <-app_assoc.
    + congruence.
    + lia.
Qed.

(** The size of an operation fits the counters and the record widths. *)
Definition op_ok (o : wal_op) : Prop :=
  match o with
  | OpRec r => rec_ok r
  | OpBatch items => Forall batch_item_ok items /\ batch_bytes items.*2 < 2 ^ 62
  | OpFlush => True
  end.

Lemma batch_bytes_nonneg vs : 0 <= batch_bytes vs.
Proof.
  unfold batch_bytes. induction vs as [|v vs IH]; [done|]. rewrite fmap_cons. cbn [foldr].
  pose proof (zlen_nonneg (vec_bytes v)). unfold rp_size in *. lia.
Qed.

Lemma AppendBatch_spec ns ng w segs es items :
  wal_inv ns ng w segs es -> zlen items <= ns -> zlen items <= ng -> op_ok (OpBatch items) ->
  aes_available (w_conf w) ->
  exists w' segs' es' news, run_op (OpBatch items) w = (inr tt, w') /\
    wal_inv (ns - zlen items) (ng - zlen items) w' segs' es' /\
    untag <$> news = number (w_seq w) (op_recs (OpBatch items)) /\
    log_entries (segs' ++ [(es', [])]) = log_entries (segs ++ [(es, [])]) ++ news /\
    w_conf w' = w_conf w /\ w_seq w' = w_seq w + zlen items.
Proof.
  intros Hinv Hns Hng [Hok Hbytes] Hav. cbn [run_op]. unfold wal_AppendBatch.
  rewrite mbind_guard_true by (apply Z.eqb_eq; len). case_bool_decide as Hnil.
  { apply fmap_nil_inv in Hnil as ->. exists w, segs, es, []. rewrite !Z.sub_0_r, Z.add_0_r, app_nil_r. done. }
  unfold mbind at 1, M_bind at 1, mget at 1. rewrite zip_fst_snd.
  destruct (wc_encryption_enabled (w_conf w)) eqn:Henc; [by eapply append_each_spec|].
  assert (0 < zlen items) as Hpos by (destruct items; [done|len]).
  pose proof (batch_bytes_nonneg items.*2).
  destruct (RotateIfNeeded_spec ns ng w segs es (batch_bytes items.*2))
    as (w1 & segs1 & es1 & E1 & Hinv1 & Hlog1 & Hc1 & Hs1 & Hroom); [done|lia|lia|].
  rewrite (mbind_ok _ _ _ _ _ E1). destruct (wi_seq _ _ _ _ _ Hinv1) as [Hq1 Hq2].
  destruct (batch_iovecs_spec items w1) as (iovs & news & E2 & Hio & Hn & Hu & Hz);
    [by rewrite Hc1|done|done|lia|].
  rewrite (mbind_ok _ _ _ _ _ E2).
  destruct (append_frames_spec (ns - zlen items) (ng - zlen items) (set_seq (w_seq w1 + zlen items) w1)
    segs1 es1 iovs news (batch_bytes items.*2)) as (w2 & E3 & Hinv2 & Hc2 & Hs2); [|done..| |].
  { destruct Hinv1. split; cbn; try done; lia. }
  { destruct Hinv1. rewrite Hc1 in *. destruct Hroom as [| ->]; [lia|]. unfold seg_bytes. cbn [frames mbind list_bind]. len. }
  exists w2, segs1, (es1 ++ news), news. split; [exact E3|]. split; [done|].
  split; [by rewrite Hu, Hs1|]. split; [|cbn in *; split; [congruence|lia]].
  rewrite <-Hlog1. unfold log_entries. rewrite !bind_app. cbn. by rewrite !app_nil_r, app_assoc.
Qed.

Lemma run_op_spec ns ng w segs es o :
  wal_inv ns ng w segs es -> zlen (op_recs o) <= ns -> zlen (op_recs o) <= ng -> op_ok o ->
  aes_available (w_conf w) ->
  exists w' segs' es' news, run_op o w = (inr tt, w') /\
    wal_inv (ns - zlen (op_recs o)) (ng - zlen (op_recs o)) w' segs' es' /\
    untag <$> news = number (w_seq w) (op_recs o) /\
    log_entries (segs' ++ [(es', [])]) = log_entries (segs ++ [(es, [])]) ++ news /\
    w_conf w' = w_conf w /\ w_seq w' = w_seq w + zlen (op_recs o).
Proof.
  intros Hinv Hns Hng Hok Hav. destruct o as [r|items|].
  - change (zlen (op_recs (OpRec r))) with 1 in *.
    destruct (append_rec_spec ns ng w segs es r) as (w' & segs' & es' & e & ? & ? & Hu & ? & ? & ? & _);
      [done|lia|lia|done|done|].
    exists w', segs', es', [e]. split_and!; try done. cbn. by rewrite Hu.
  - assert (zlen (op_recs (OpBatch items)) = zlen items) as E by (cbn; len). rewrite E in *.
    by apply AppendBatch_spec.
  - change (zlen (op_recs OpFlush)) with 0 in *. exists w, segs, es, [].
    rewrite !Z.sub_0_r, Z.add_0_r, app_nil_r. split_and!; try done.
    destruct Hinv as [Hfl _ _ _ [bw Hf] _ _ _ _ _].
    cbn [run_op]. unfold wal_Flush, mbind, M_bind, mget. rewrite Hf.
    destruct (wc_fsync (w_conf w)); [done|]. destruct w as [[fm fl] ? ? ? ? ? ? ?]. cbn in *. by subst.
Qed.

Lemma run_ops_spec os : forall ns ng w segs es,
  wal_inv ns ng w segs es -> zlen (os ≫= op_recs) <= ns -> zlen (os ≫= op_recs) <= ng ->
  Forall op_ok os -> aes_available (w_conf w) ->
  exists w' segs' es' news, run_ops os w = (inr tt, w') /\ wal_inv 0 0 w' segs' es' /\
    untag <$> news = number (w_seq w) (os ≫= op_recs) /\
    log_entries (segs' ++ [(es', [])]) = log_entries (segs ++ [(es, [])]) ++ news /\
    w_conf w' = w_conf w /\ w_seq w' = w_seq w + zlen (os ≫= op_recs).
Proof.
  induction os as [|o os IH]; intros ns ng w segs es Hinv Hns Hng Hok Hav.
  - exists w, segs, es, []. rewrite Z.add_0_r, app_nil_r. split_and!; try done.
    change (zlen ([] ≫= op_recs)) with 0 in *. destruct Hinv. split; try done; lia.
  - rewrite bind_cons in *. apply Forall_cons in Hok as [Ho Hok]. unfold zlen in Hns, Hng. rewrite length_app in Hns, Hng.
    destruct (run_op_spec ns ng w segs es o) as (w1 & segs1 & es1 & news1 & E1 & Hinv1 & Hu1 & Hlog1 & Hc1 & Hs1);
      [done|unfold zlen; lia|unfold zlen; lia|done|done|].
    destruct (IH (ns - zlen (op_recs o)) (ng - zlen (op_recs o)) w1 segs1 es1) as
      (w2 & segs2 & es2 & news2 & E2 & Hinv2 & Hu2 & Hlog2 & Hc2 & Hs2);
      [done|unfold zlen; lia|unfold zlen; lia|done|by rewrite Hc1|].
    exists w2, segs2, es2, (news1 ++ news2). cbn [run_ops]. rewrite (mbind_ok _ _ _ _ _ E1).
    split_and!; try done.
    + by rewrite fmap_app, Hu1, Hu2, number_app, Hs1.
    + by rewrite Hlog2, Hlog1, <-app_assoc.
    + congruence.
    + len.
Qed.

End appends.

(** ** Opening a log *)

Section opening.
Context `{AesGcm}.

Lemma count_segments_spec c fm n : forall fuel g w,
  (forall i, (i < n)%nat -> is_Some (fm !! SegmentPath c (g + Z.of_nat i))) ->
  fm !! SegmentPath c (g + Z.of_nat n) = None ->
  w_env w = MkFs fm [] -> w_conf w = c -> (n < fuel)%nat ->
  count_segments fuel g w = (inr (g + Z.of_nat n), w).
Proof.
  induction n as [|n IH]; intros fuel g w Hex Hend Hw Hc Hf; (destruct fuel as [|fuel]; [lia|]);
    cbn [count_segments]; unfold mbind at 1 2, M_bind at 1 2, mget, on_fs; cbn [get_fs Wal_HasFs];
    rewrite Hw, Hc, FileExists_ok_eq, (set_fs_same w _ Hw).
  - rewrite Z.add_0_r in *. by rewrite Hend.
  - rewrite bool_decide_eq_true_2 by (rewrite <-(Z.add_0_r g); apply (Hex 0%nat); lia).
    rewrite (IH fuel (g + 1)); [do 2 f_equal; lia| | |done..|lia].
    + intros i Hi. replace (g + 1 + Z.of_nat i) with (g + Z.of_nat (S i)) by lia. apply Hex. lia.
    + rewrite <-Hend. do 2 f_equal. lia.
Qed.

Lemma check_segments_spec c fm gs w :
  Forall (fun g => exists rest, fm !! SegmentPath c g = Some (wal_header ++ rest)) gs ->
  w_env w = MkFs fm [] -> w_conf w = c -> check_segments gs w = (inr tt, w).
Proof.
  intros Hgs Hw Hc. induction Hgs as [|g gs (rest & Hp) _ IH]; [done|]. cbn [check_segments].
  erewrite mbind_ok; [exact IH|]. unfold check_segment, mbind, M_bind, mget, on_fs.
  cbn [get_fs Wal_HasFs]. rewrite Hw, Hc, (NewRandomAccessFile_ok _ _ _ Hp), (set_fs_same w _ Hw).
  rewrite Hw, (raf_Read_ok _ 0 _ _ _ Hp ltac:(len)), (set_fs_same w _ Hw), drop_0, take_app_len by done. done.
Qed.

Lemma Open_spec ns ng w fm segs :
  w_env w = MkFs fm [] -> log_on_disk (w_conf w) fm segs ->
  (forall g, zlen segs < g -> fm !! SegmentPath (w_conf w) g = None) ->
  0 <= wc_segment_bytes (w_conf w) < 2 ^ 63 ->
  0 <= w_seq w -> w_seq w + ns < 2 ^ 64 -> zlen segs + ng < 2 ^ 64 ->
  exists w', wal_Open w = (inr tt, w') /\ wal_inv ns ng w' segs [] /\
    w_conf w' = w_conf w /\ w_seq w' = w_seq w.
Proof.
  intros Hw Hd Hbeyond Hlim Hs Hns Hng. pose proof Hd as [Hseg Hend]. pose proof (zlen_nonneg segs) as Hnn.
  assert (forall i, (i < length segs)%nat -> exists rest, fm !! SegmentPath (w_conf w) (Z.of_nat i) = Some (wal_header ++ rest)) as Hhdr.
  { intros i [[es tail] Hi]%lookup_lt_is_Some. destruct (Hseg i es tail Hi) as [-> _].
    unfold seg_bytes. exists (frames es ++ tail). by rewrite app_assoc. }
  unfold wal_Open. unfold mbind at 1, M_bind at 1, mget at 1.
  erewrite mbind_ok.
  2:{ unfold on_fs. cbn [get_fs Wal_HasFs]. rewrite Hw, CreateDirIfMissing_ok, (set_fs_same w _ Hw). done. }
  erewrite mbind_ok.
  2:{ apply (count_segments_spec (w_conf w) fm (length segs)); [|done..|].
      - intros i Hi. rewrite Z.add_0_l. destruct (Hhdr i Hi) as [rest ->]. done.
      - unfold gen_fuel. rewrite Hw. cbn [fs_files].
        assert (length segs <= size fm)%nat; [|lia]. eapply segments_le_size.
        intros i Hi. destruct (Hhdr i Hi) as [rest ->]. done. }
  rewrite Z.add_0_l. fold (zlen segs). destruct w as [env c gen seq off inseg tot h].
  cbn [w_env w_conf w_seq] in *. subst env.
  erewrite mbind_ok; [|reflexivity]. erewrite mbind_ok.
  2:{ apply (check_segments_spec c fm); [|done..]. apply Forall_forall. intros g Hg%elem_of_seqZ.
      destruct (Hhdr (Z.to_nat g)) as [rest Hr]; [unfold zlen in *; lia|].
      exists rest. by rewrite Z2Nat.id in Hr by lia. }
  erewrite mbind_ok; [|reflexivity]. erewrite mbind_ok.
  2:{ unfold on_fs. cbn [get_fs Wal_HasFs w_env set_wfile set_gen].
      rewrite NewAppendableFile_ok by done. reflexivity. }
  erewrite mbind_ok; [|reflexivity]. erewrite mbind_ok.
  2:{ unfold on_fs, try_. cbn [get_fs Wal_HasFs w_env set_wfile set_gen set_fs].
      erewrite GetFileSize_ok by apply lookup_insert_eq. reflexivity. }
  cbv iota. change (@zlen byte [] =? 0) with true. cbv iota.
  destruct (file_append_spec (MkWal (MkFs (<[SegmentPath c (zlen segs) := []]> fm) []) c (zlen segs) seq off inseg tot
    (Some (MkWFile (SegmentPath c (zlen segs)) true 0 0))) (SegmentPath c (zlen segs)) [] 0
    (<[SegmentPath c (zlen segs) := []]> fm) wal_header) as [bw E]; [done..|by rewrite lookup_insert_eq|done|].
  erewrite mbind_ok.
  2:{ unfold try_. setoid_rewrite E. reflexivity. }
  rewrite insert_insert_eq. eexists. split; [reflexivity|]. split; [|done].
  split; cbn [set_total set_sizes set_wfile set_fs Wal_HasFs w_env fs_faults fs_files w_conf w_gen w_bytes_in_seg w_file w_seq];
    try done; try lia.
  - apply (log_on_disk_set c fm segs []); [done|constructor|]. apply Hbeyond. lia.
  - intros g Hg. rewrite lookup_insert_ne; [by apply Hbeyond|]. intros Ep%SegmentPath_inj; lia.
  - by exists bw.
Qed.

End opening.
