(* ===== verification/WalTheorems.v ===== *)
(** * Theorems about the write-ahead log

    The properties of [Wal], from the codec and log lemmas. *)
From S2P Require Import Prelude Crc32c Env Types Wal WalCodec WalLog.

Open Scope Z_scope.

(** ** Sequence numbers after a replay *)

Section seqs.
Context {T : Type} `{VectorSink T}.

Lemma replay_one_seq seq r s s' :
  replay_one seq r s = (inr tt, s') -> w_seq s'.1 = Z.max (w_seq s.1) seq.
Proof.
  unfold replay_one, on_sink, note_seq, mmodify, mbind, M_bind. destruct (readable r); [|done].
  destruct (apply_rec seq r s.2) as [[|] t]; intros E; simplify_eq.
  cbn. destruct (Z.ltb_spec (w_seq s.1) seq); cbn; lia.
Qed.

Lemma replay_entries_seq es s s' :
  replay_entries es s = (inr tt, s') ->
  w_seq s.1 <= w_seq s'.1 /\ Forall (fun e => en_seq e <= w_seq s'.1) es.
Proof.
  revert s. induction es as [|e es IH]; cbn [replay_entries]; intros s E.
  - injection E as <-. split; [lia|constructor].
  - apply mbind_inv in E as ([] & s1 & E1%replay_one_seq & [Hle Hall]%IH).
    split; [lia|]. constructor; [lia|done].
Qed.

End seqs.

(** ** Termination of a replay under any faults *)

Section bounds.
Context `{AesGcm} {T : Type} `{VectorSink T}.

(** The files and the configuration, which a replay only reads. *)
Definition wal_static (s : Wal * T) : gmap path bytes * WalConf :=
  (fs_files (w_env s.1), w_conf s.1).

Lemma preserves_on_fs {A} (m : M fs A) : preserves fs_files m -> preserves wal_static (on_fs m).
Proof.
  intros Hm [w t] r s' E. unfold on_fs in E. cbn in E. destruct (m (w_env w)) as [r' f] eqn:E1.
  injection E as <- <-. unfold wal_static. cbn. f_equal. by eapply Hm.
Qed.
Lemma preserves_on_sink {A} (m : M T A) : preserves wal_static (on_sink m).
Proof. intros [w t] r s' E. unfold on_sink in E. cbn in E. destruct (m t). by injection E as <- <-. Qed.
Lemma preserves_note_seq seq : preserves wal_static (note_seq seq).
Proof. apply preserves_modify. intros [w t]. cbn. by destruct (_ <? _). Qed.
#[local] Hint Resolve preserves_on_fs preserves_on_sink preserves_note_seq : preserve.

Lemma preserves_read_frame p sz off : preserves fs_files (read_frame p sz off).
Proof.
  apply preserves_bind; [apply preserves_raf_Read|]. intros fh.
  destruct (negb _); [apply preserves_ret|]. cbn zeta. destruct (_ <? _); [apply preserves_ret|].
  apply preserves_bind; [apply preserves_raf_Read|]. intros body. destruct (negb _); apply preserves_ret.
Qed.
Lemma preserves_replay_start p sz : preserves fs_files (replay_start p sz).
Proof.
  unfold replay_start. destruct (_ <? _); [apply preserves_ret|].
  apply preserves_bind; [apply preserves_raf_Read|]. intros hs.
  apply preserves_bind; [apply preserves_guard|]. intros _. case_bool_decide; eauto with preserve.
Qed.
Lemma preserves_replay_record enc len payload : preserves wal_static (replay_record enc len payload).
Proof.
  apply preserves_bind; [apply preserves_guard|]. intros _. cbn zeta.
  repeat match goal with |- preserves _ (if ?b then _ else _) => destruct b end; eauto with preserve.
  apply preserves_bind; [apply preserves_guard|]. intros _.
  apply preserves_bind; [|eauto with preserve]. destruct (decode_meta _ _); eauto with preserve.
Qed.
Lemma preserves_replay_body len body : preserves wal_static (replay_body len body).
Proof.
  apply preserves_bind; [apply preserves_guard|]. intros _. cbn zeta.
  apply preserves_bind; [apply preserves_guard|]. intros _.
  apply preserves_bind; [apply preserves_get|]. intros s.
  destruct (wc_encryption_enabled _); [destruct (unseal _ _)|]; eauto using preserves_replay_record with preserve.
Qed.
#[local] Hint Resolve preserves_read_frame preserves_replay_start preserves_replay_body : preserve.
Lemma preserves_replay_frames fuel p sz off : preserves wal_static (replay_frames fuel p sz off).
Proof.
  revert off. induction fuel as [|fuel IH]; intros off; cbn [replay_frames]; [apply preserves_fail|].
  destruct (_ <? _); [apply preserves_ret|].
  apply preserves_bind; [eauto with preserve|]. intros [[len body]|]; eauto with preserve.
Qed.
Lemma preserves_replay_segment p : preserves wal_static (replay_segment p).
Proof.
  apply preserves_bind; [eauto with preserve|]. intros raf.
  apply preserves_bind; [eauto with preserve|]. intros [|sz]; [apply preserves_fail|].
  apply preserves_bind; [eauto with preserve|]. intros off. apply preserves_replay_frames.
Qed.

(** The errors of the table and of the cipher are their own. *)
Hypothesis put_in_bounds : forall id v m, in_bounds (sink_Put id v m).
Hypothesis delete_in_bounds : forall id, in_bounds (sink_Delete id).
Hypothesis decrypt_in_bounds : forall k n c t, aes_Decrypt k n c t <> inl OutOfFuel.

Lemma in_bounds_on_sink {A} (m : M T A) : in_bounds m -> in_bounds (on_sink m).
Proof. intros Hm [w t]. specialize (Hm t). unfold on_sink. cbn. by destruct (m t). Qed.
#[local] Hint Resolve in_bounds_on_sink put_in_bounds delete_in_bounds : bounded.

Lemma in_bounds_read_frame p sz off : in_bounds (read_frame p sz off).
Proof.
  unfold read_frame. apply in_bounds_bind; [eauto with bounded|]. intros fh.
  destruct (negb _); [done|]. cbn zeta. destruct (_ <? _); [done|].
  apply in_bounds_bind; [eauto with bounded|]. intros body. by destruct (negb _).
Qed.
Lemma in_bounds_replay_start p sz : in_bounds (replay_start p sz).
Proof.
  unfold replay_start. destruct (_ <? _); [done|]. apply in_bounds_bind; [eauto with bounded|].
  intros hs. apply in_bounds_bind; [eauto with bounded|]. intros _. case_bool_decide; eauto with bounded.
Qed.
Lemma in_bounds_note_seq seq : in_bounds (note_seq (T := T) seq).
Proof. done. Qed.
#[local] Hint Resolve in_bounds_read_frame in_bounds_replay_start in_bounds_note_seq : bounded.

Lemma in_bounds_replay_record enc len payload : in_bounds (replay_record enc len payload).
Proof.
  apply in_bounds_bind; [eauto with bounded|]. intros _. cbn zeta.
  repeat match goal with |- in_bounds (if ?b then _ else _) => destruct b end; eauto with bounded.
  apply in_bounds_bind; [eauto with bounded|]. intros _.
  apply in_bounds_bind; [|eauto with bounded]. unfold decode_meta. cbn zeta.
  repeat case_match; simplify_eq; eauto with bounded.
Qed.

Lemma in_bounds_replay_body len body : in_bounds (replay_body len body).
Proof.
  apply in_bounds_bind; [eauto with bounded|]. intros _. cbn zeta.
  apply in_bounds_bind; [eauto with bounded|]. intros _.
  apply in_bounds_bind; [eauto with bounded|]. intros s.
  destruct (wc_encryption_enabled _); [|apply in_bounds_replay_record].
  unfold unseal. destruct (_ <? _); [eauto with bounded|].
  destruct (aes_Decrypt _ _ _ _) eqn:E; [|apply in_bounds_replay_record].
  apply in_bounds_fail. intros ->. by eapply decrypt_in_bounds.
Qed.

(** Every frame moves the offset by at least four bytes. *)
Lemma in_bounds_replay_frames fuel p sz off :
  (Z.to_nat (sz - off) < fuel)%nat -> in_bounds (replay_frames fuel p sz off).
Proof.
  revert off. induction fuel as [|fuel IH]; intros off Hf; cbn [replay_frames]; [lia|].
  destruct (Z.ltb_spec sz (off + 4)); [done|]. intros s. unfold mbind, M_bind.
  pose proof (in_bounds_on_fs (S := Wal * T) _ (in_bounds_read_frame p sz off) s) as Hb.
  destruct (on_fs _ s) as [[e|fr] s1] eqn:E1; [cbn in *; congruence|]. destruct fr as [[len body]|]; [|done].
  assert (0 <= len) as Hlen.
  { unfold on_fs in E1. destruct (read_frame p sz off (get_fs s)) as [r f] eqn:E2. injection E1 as -> <-.
    apply mbind_inv in E2 as (fh & f1 & _ & E2). destruct (negb _); [done|].
    cbv zeta in E2. destruct (_ <? _); [done|]. apply mbind_inv in E2 as (b & f2 & _ & E2).
    destruct (negb _) in E2; [done|]. injection E2 as <- _ _. apply le_read_bound. }
  pose proof (in_bounds_replay_body len body s1) as Hb2.
  destruct (replay_body len body s1) as [[e|[]] s2]; [done|]. apply IH. lia.
Qed.

Lemma in_bounds_replay_segment p : in_bounds (replay_segment p).
Proof.
  unfold replay_segment, NewRandomAccessFile. apply in_bounds_bind; [eauto 10 with bounded|]. intros raf.
  apply in_bounds_bind; [eauto with bounded|]. intros [|sz]; [eauto with bounded|].
  intros s. unfold mbind, M_bind.
  pose proof (in_bounds_on_fs (S := Wal * T) _ (in_bounds_replay_start raf sz) s) as Hb.
  destruct (on_fs _ s) as [[e|off] s1] eqn:E1; [cbn in *; congruence|]. apply in_bounds_replay_frames.
  assert (0 <= off); [|lia]. unfold on_fs in E1.
  destruct (replay_start raf sz (get_fs s)) as [r f] eqn:E2. injection E1 as -> <-.
  unfold replay_start in E2. destruct (_ <? _); [by injection E2 as <-|].
  apply mbind_inv in E2 as (hs & f1 & _ & E2). apply mbind_inv in E2 as ([] & f2 & _ & E2).
  case_bool_decide; [apply mbind_inv in E2 as ([] & f3 & _ & E2)|]; by injection E2 as <-.
Qed.

Lemma in_bounds_replay_generations fuel g s :
  0 <= g -> (forall i, 0 <= i < g -> is_Some (fs_files (w_env s.1) !! SegmentPath (w_conf s.1) i)) ->
  (size (fs_files (w_env s.1)) < Z.to_nat g + fuel)%nat ->
  (replay_generations fuel g s).1 <> inl OutOfFuel.
Proof.
  revert g s. induction fuel as [|fuel IH]; intros g s Hg Hex Hf.
  - assert (Z.to_nat g <= size (fs_files (w_env s.1)))%nat; [|lia].
    apply (segments_le_size (w_conf s.1)). intros i Hi. apply Hex. lia.
  - cbn [replay_generations]. unfold mbind at 1 2, M_bind at 1 2, mget at 1. set (p := SegmentPath _ g).
    pose proof (in_bounds_on_fs (S := Wal * T) _ (in_bounds_FileExists_ok p) s) as Hb.
    destruct (on_fs (FileExists_ok p) s) as [[e|[]] s1] eqn:E1; [cbn in *; congruence| |done].
    pose proof (preserves_on_fs _ (preserves_FileExists_ok p) _ _ _ E1) as Hs1.
    assert (is_Some (fs_files (w_env s.1) !! p)) as Hp.
    { unfold on_fs in E1. destruct (FileExists_ok p (get_fs s)) as [r f] eqn:E2. injection E1 as -> <-.
      by apply FileExists_ok_true in E2. }
    unfold mbind, M_bind. pose proof (in_bounds_replay_segment p s1) as Hb2.
    destruct (replay_segment p s1) as [[e|[]] s2] eqn:E2; [done|].
    apply preserves_replay_segment in E2. rewrite Hs1 in E2. injection E2 as Ef Ec.
    apply IH; [lia| |rewrite Ef; lia]. intros i Hi. rewrite Ef, Ec.
    destruct (decide (i = g)) as [->|]; [done|]. apply Hex. lia.
Qed.

Lemma in_bounds_ReplayInto : in_bounds (wal_ReplayInto (T := T)).
Proof.
  intros s. unfold wal_ReplayInto, mbind, M_bind, mget. apply in_bounds_replay_generations; [lia|lia|].
  unfold gen_fuel. lia.
Qed.

End bounds.

(** ** A damaged record *)

Section damage.
Context `{AesGcmLaws} {T : Type} `{VectorSink T}.

Lemma replay_body_bad_crc body body' s :
  zlen body' = zlen body -> 21 <= zlen body -> Crc32c body' 0 <> Crc32c body 0 ->
  replay_body (zlen body + 4) (body' ++ le_split 4 (Crc32c body 0)) s =
  (inl (Corruption "wal crc mismatch"), s).
Proof.
  intros Hl Hmin Hne. unfold replay_body.
  rewrite mbind_guard_true by (apply negb_true_iff, Z.ltb_ge; unfold rp_size; lia).
  replace (Z.to_nat (zlen body + 4 - 4)) with (length body') by (unfold zlen in *; lia).
  rewrite take_app_len by done. apply mbind_guard_false, Z.eqb_neq.
  rewrite le_read_app_r by done. rewrite <-(app_nil_r (le_split 4 _)).
  rewrite le_read_app_l by apply Crc32c_range. congruence.
Qed.

Lemma replay_frames_damaged c p es e body' rest : forall fuel pre fm w t w' t',
  Forall (entry_ok c) (es ++ [e]) -> zlen body' = zlen (en_body e) ->
  Crc32c body' 0 <> Crc32c (en_body e) 0 ->
  fm !! p = Some (pre ++ frames es ++ damaged_frame (en_body e) body' ++ rest) ->
  w_env w = MkFs fm [] -> w_conf w = c -> (length es < fuel)%nat ->
  replay_entries es (w, t) = (inr tt, (w', t')) ->
  replay_frames fuel p (zlen (pre ++ frames es ++ damaged_frame (en_body e) body' ++ rest)) (zlen pre) (w, t) =
  (inl (Corruption "wal crc mismatch"), (w', t')).
Proof.
  induction es as [|e0 es IH]; intros fuel pre fm w t w' t' Hok Hl Hne Hp Hw Hc Hf E;
    (destruct fuel as [|fuel]; [cbn in Hf; lia|]); cbn [replay_frames];
    assert (set_fs (MkFs fm []) (w, t) = (w, t)) as Es by (by destruct w; cbn in Hw; subst);
    apply Forall_cons in Hok as [[Hseq Hrec Hseal] Hok];
    pose proof (sealed_length _ _ _ _ Hseal) as Hsl; destruct (Hrec) as [Hsz _].
  - injection E as <- <-. change (frames []) with (@nil byte) in *. cbn [app] in *.
    destruct (Z.ltb_spec (zlen (pre ++ damaged_frame (en_body e) body' ++ rest)) (zlen pre + 4));
      [unfold damaged_frame in *; len|].
    unfold on_fs, mbind, M_bind. cbn [get_fs pair_HasFs fst Wal_HasFs]. rewrite Hw.
    rewrite read_frame_damaged by first [done|lia]. rewrite Es.
    rewrite replay_body_bad_crc; [done..| |done]. pose proof (plain_rec_min 0 (en_rec e)). lia.
  - rewrite frames_cons in *. rewrite <-app_assoc in *.
    set (tl := frames es ++ damaged_frame (en_body e) body' ++ rest) in *.
    destruct (Z.ltb_spec (zlen (pre ++ frame (en_body e0) ++ tl)) (zlen pre + 4)); [len|].
    unfold on_fs, mbind at 1, M_bind at 1. cbn [get_fs pair_HasFs fst Wal_HasFs]. rewrite Hw.
    rewrite read_frame_at by first [done|lia]. rewrite Es.
    cbn [replay_entries] in E. apply mbind_inv in E as ([] & [w1 t1] & E1 & E2).
    erewrite mbind_ok; [|rewrite (replay_body_frame c _ _ _ (w, t) Hc Hseq Hrec Hseal); exact E1].
    apply replay_one_env in E1 as [Ew Ec]. cbn in Ew, Ec.
    replace (zlen pre + 4 + (zlen (en_body e0) + 4)) with (zlen (pre ++ frame (en_body e0))) by len.
    rewrite app_assoc in Hp |- *. unfold tl in *. cbn in Hf.
    apply (IH fuel _ fm w1 t1); [done..|congruence|congruence|lia|done].
Qed.

End damage.

(** ** Reset *)

Section reset.
Context `{AesGcm}.

Lemma delete_segments_spec c n : forall fuel g fm w,
  0 <= g -> (forall i, (i < n)%nat -> is_Some (fm !! SegmentPath c (g + Z.of_nat i))) ->
  fm !! SegmentPath c (g + Z.of_nat n) = None ->
  w_env w = MkFs fm [] -> w_conf w = c -> (n < fuel)%nat ->
  exists fm', delete_segments fuel g w = (inr tt, set_fs (MkFs fm' []) w) /\
    forall h, 0 <= h -> fm' !! SegmentPath c h =
      if bool_decide (g <= h < g + Z.of_nat n) then None else fm !! SegmentPath c h.
Proof.
  induction n as [|n IH]; intros fuel g fm w Hg Hex Hend Hw Hc Hf; (destruct fuel as [|fuel]; [lia|]);
    cbn [delete_segments]; unfold mbind at 1 2, M_bind at 1 2, mget, on_fs at 1; cbn [get_fs Wal_HasFs];
    rewrite Hw, Hc, FileExists_ok_eq, (set_fs_same w _ Hw).
  - rewrite Z.add_0_r in *. rewrite Hend. exists fm. split; [by rewrite (set_fs_same w _ Hw)|].
    intros h Hh. case_bool_decide; [lia|done].
  - destruct (Hex 0%nat ltac:(lia)) as [c0 Hc0]. rewrite Z.add_0_r in Hc0.
    rewrite bool_decide_eq_true_2 by by rewrite Hc0.
    unfold mbind at 1, M_bind at 1, ignore, on_fs. cbn [get_fs Wal_HasFs].
    rewrite Hw, (DeleteFile_ok _ _ _ Hc0). cbn [snd].
    destruct (IH fuel (g + 1) (delete (SegmentPath c g) fm) (set_fs (MkFs (delete (SegmentPath c g) fm) []) w))
      as (fm' & E & Hfm'); [lia| | |done|done|lia|].
    + intros i Hi. rewrite lookup_delete_ne by (intros E%SegmentPath_inj; lia).
      replace (g + 1 + Z.of_nat i) with (g + Z.of_nat (S i)) by lia. apply Hex. lia.
    + rewrite lookup_delete_ne by (intros E%SegmentPath_inj; lia). rewrite <-Hend. do 2 f_equal. lia.
    + exists fm'. split; [exact E|]. intros h Hh. rewrite Hfm' by done.
      destruct (decide (h = g)) as [->|Hne].
      * rewrite lookup_delete_eq. repeat case_bool_decide; try done; lia.
      * rewrite lookup_delete_ne by (intros E'%SegmentPath_inj; lia).
        repeat case_bool_decide; try done; lia.
Qed.

Lemma Reset_spec ns ng w segs es :
  wal_inv ns ng w segs es -> ns < 2 ^ 64 -> ng < 2 ^ 64 ->
  exists w', wal_Reset w = (inr tt, w') /\ wal_inv ns ng w' [] [] /\
    w_seq w' = 0 /\ w_conf w' = w_conf w.
Proof.
  intros Hinv Hns Hng. pose proof Hinv as [Hfl Hd Hg Hb [bw Hf] Hs Hr Hl Hq Hgs].
  unfold wal_Reset. unfold mbind at 1, M_bind at 1, mget at 1. rewrite Hf.
  destruct w as [[fm fl] c gen seq off inseg tot h]; cbn [w_env fs_faults fs_files w_conf w_gen w_bytes_in_seg w_file w_seq] in *.
  subst fl h. erewrite mbind_ok; [|reflexivity].
  set (w1 := set_wfile None _).
  assert (forall i, (i < length (segs ++ [(es, [])]))%nat -> is_Some (fm !! SegmentPath c (Z.of_nat i))) as Hall.
  { intros i [[es0 tail] Hi]%lookup_lt_is_Some. destruct (ld_seg _ _ _ Hd i es0 tail Hi) as [-> _]. done. }
  destruct (delete_segments_spec c (length (segs ++ [(es, [])])) (gen_fuel (MkWal (MkFs fm []) c gen seq off inseg tot
    (Some (MkWFile (SegmentPath c gen) true (zlen (seg_bytes es)) bw)))) 0 fm w1) as (fm' & E & Hfm');
    [lia|exact Hall|apply Hd|done|done| |].
  { unfold gen_fuel. cbn [w_env fs_files]. pose proof (segments_le_size c fm _ Hall). lia. }
  rewrite (mbind_ok _ _ _ _ _ E). erewrite mbind_ok; [|reflexivity].
  assert (forall g, 0 <= g -> fm' !! SegmentPath c g = None) as Hnone.
  { intros g Hg0. rewrite Hfm' by done. case_bool_decide; [done|]. apply Hb. rewrite length_app in *. unfold zlen in *. cbn in *. lia. }
  destruct (Open_spec ns ng (set_total 0 (set_sizes 0 0 (set_seq 0 (set_gen 0 (set_fs (MkFs fm' []) w1))))) fm' [])
    as (w' & E' & Hinv' & Hc' & Hs'); [done| | |done|done|done|done|].
  - split; [intros i es0 tail Hi; by rewrite lookup_nil in Hi|]. by apply Hnone.
  - intros g Hg0. apply Hnone. change (zlen []) with 0 in Hg0. lia.
  - exists w'. split; [exact E'|]. done.
Qed.

End reset.

(** ** Instances for the concrete runs *)

Inductive event : Type := EvPut (id : Z) (v : vec) (m : Metadata) | EvDel (id : Z).

(** A table that records what it is asked to do. *)
#[global] Instance trace_sink : VectorSink (list event) := {|
  sink_Put id v m := mmodify (fun l => l ++ [EvPut id v m]);
  sink_Delete id := mmodify (fun l => l ++ [EvDel id])
|}.

(** A cipher with the documented shape. *)
Definition test_aes : AesGcm := {|
  aes_Encrypt _ _ p := inr (p, replicate 16 Byte.x00);
  aes_Decrypt _ _ c _ := inr c
|}.
Lemma test_aes_laws : AesGcmLaws (H := test_aes).
Proof. split; cbn; intros; by simplify_eq. Qed.

Definition test_conf : WalConf := MkWalConf "db" 3 120 kAlways false [].
Definition test_wal : Wal := MkWal (MkFs ∅ []) test_conf 0 0 0 0 0 None.
Definition test_ops : list wal_op :=
  [OpRec (RPut 7 [1; 2] md_default); OpBatch [(8, [3]); (9, [4])]; OpRec (RDel 7); OpFlush].

Lemma test_disk : @log_on_disk test_aes test_conf ∅ [].
Proof. split; [intros i es tail Hi; by rewrite lookup_nil in Hi|done]. Qed.

Lemma test_ops_ok : Forall op_ok test_ops.
Proof. repeat constructor; cbn; unfold is_u64, is_u32; try lia; vm_compute; done. Qed.

(** ** Properties *)

Section properties.
Context `{AesGcmLaws}.

(** Durability, the lemma behind the round-trip theorems. *)
Lemma wal_roundtrip w fm segs os :
  w_env w = MkFs fm [] -> log_on_disk (w_conf w) fm segs ->
  (forall g, zlen segs < g -> fm !! SegmentPath (w_conf w) g = None) ->
  0 <= wc_segment_bytes (w_conf w) < 2 ^ 63 ->
  0 <= w_seq w -> w_seq w + zlen (os ≫= op_recs) < 2 ^ 64 ->
  zlen segs + zlen (os ≫= op_recs) < 2 ^ 64 ->
  Forall op_ok os -> aes_available (w_conf w) ->
  exists w' news, (wal_Open ;; run_ops os) w = (inr tt, w') /\
    untag <$> news = number (w_seq w) (os ≫= op_recs) /\
    forall (T : Type) (sink : VectorSink T) (w2 : Wal) (t : T),
      w_conf w2 = w_conf w -> w_env w2 = w_env w' ->
      wal_ReplayInto (w2, t) = replay_entries (log_entries segs ++ news) (w2, t).
Proof.
  intros Hw Hd Hb Hlim Hs Hns Hng Hok Hav.
  destruct (Open_spec (zlen (os ≫= op_recs)) (zlen (os ≫= op_recs)) w fm segs)
    as (w1 & E1 & Hinv1 & Hc1 & Hs1); [done..|].
  destruct (run_ops_spec os _ _ w1 segs [] Hinv1) as (w' & segs' & es' & news & E2 & Hinv & Hu & Hlog & Hc & _);
    [done..|by rewrite Hc1|].
  exists w', news. split; [by rewrite (mbind_ok _ _ _ _ _ E1)|]. split; [by rewrite Hu, Hs1|].
  intros T sink w2 t Hcw Hew. destruct Hinv as [Hfl Hdisk _ _ _ _ _ _ _ _].
  rewrite (replay_into_spec (segs' ++ [(es', [])]) (fs_files (w_env w')) w2 t).
  - rewrite Hlog. unfold log_entries. rewrite (bind_app _ segs). cbn. by rewrite app_nil_r.
  - rewrite Hcw, <-Hc1, <-Hc. done.
  - rewrite Hew. destruct (w_env w'). cbn in *. by subst.
Qed.

(** C6. Durability of acknowledged writes.  Let no system call fail, let
    encryption, if it is on, not fail, and let the inputs fit the format
    ([op_ok]: 64-bit identifiers, records below 4 GiB, batches below 2^62
    bytes, raw records with the three opcodes the callers use; the 64-bit
    counters do not wrap).  Opening a log (whatever readable or unreadable
    records and torn tails its segments hold) and running any sequence of
    appends, batches and flushes on it succeeds.  A replay by a later process
    does exactly what [replay_entries] does on the records that were there
    before followed by the new ones, each new one under the next sequence
    number: it applies them in order and across segment rotations, up to the
    first record that is not [readable], where it stops with a corruption
    error.  Every record is readable except a put without a tenant that has a
    device, a location, a timestamp or a source vertex; a put without a tenant
    is applied with the default metadata. *)
Theorem wal_append_replay_roundtrip w fm segs os :
  w_env w = MkFs fm [] -> log_on_disk (w_conf w) fm segs ->
  (forall g, zlen segs < g -> fm !! SegmentPath (w_conf w) g = None) ->
  0 <= wc_segment_bytes (w_conf w) < 2 ^ 63 ->
  0 <= w_seq w -> w_seq w + zlen (os ≫= op_recs) < 2 ^ 64 ->
  zlen segs + zlen (os ≫= op_recs) < 2 ^ 64 ->
  Forall op_ok os -> aes_available (w_conf w) ->
  exists w' news, (wal_Open ;; run_ops os) w = (inr tt, w') /\
    untag <$> news = number (w_seq w) (os ≫= op_recs) /\
    forall (T : Type) (sink : VectorSink T) (w2 : Wal) (t : T),
      w_conf w2 = w_conf w -> w_env w2 = w_env w' ->
      wal_ReplayInto (w2, t) = replay_entries (log_entries segs ++ news) (w2, t).
Proof. apply wal_roundtrip. Qed.

(** C29. Crash tolerance: whatever strict prefix of a frame a crash left at the
    end of any segment, a replay without I/O errors ignores the torn bytes and
    does exactly what [replay_entries] does on the complete records of all
    segments: it applies them in order, up to the first one that is not
    [readable] (a put without a tenant that has a device, a location, a
    timestamp or a source vertex) or that the table refuses, where it stops
    with that error. *)
Theorem wal_replay_ignores_torn_tails {T} `{VectorSink T} w fm segs t :
  log_on_disk (w_conf w) fm segs -> w_env w = MkFs fm [] ->
  wal_ReplayInto (w, t) = replay_entries (log_entries segs) (w, t).
Proof. apply replay_into_spec. Qed.

(** The segments before the one a replay stops in. *)
Lemma replay_generations_prefix {T} `{VectorSink T} c segs : forall fuel g fm w t w' t',
  (forall i es tail, segs !! i = Some (es, tail) ->
    fm !! SegmentPath c (g + Z.of_nat i) = Some (seg_bytes es ++ tail) /\ Forall (entry_ok c) es /\ torn tail) ->
  w_env w = MkFs fm [] -> w_conf w = c -> replay_entries (log_entries segs) (w, t) = (inr tt, (w', t')) ->
  replay_generations (length segs + fuel) g (w, t) = replay_generations fuel (g + Z.of_nat (length segs)) (w', t').
Proof.
  induction segs as [|[es tail] segs IH]; intros fuel g fm w t w' t' Hseg Hw Hc E.
  { injection E as -> ->. cbn [length plus]. by rewrite Z.add_0_r. }
  cbn [length plus replay_generations]. unfold mbind at 1 2, M_bind at 1 2, mget, on_fs.
  assert (set_fs (MkFs fm []) (w, t) = (w, t)) as Ew by (by destruct w; cbn in Hw; subst).
  destruct (Hseg 0%nat es tail eq_refl) as (Hp & Hok & Ht). rewrite Z.add_0_r in Hp.
  cbn [get_fs pair_HasFs fst Wal_HasFs]. rewrite Hw, Hc, FileExists_ok_eq, Ew.
  rewrite bool_decide_eq_true_2 by by rewrite Hp.
  change (log_entries ((es, tail) :: segs)) with (es ++ log_entries segs) in E.
  rewrite replay_entries_app in E. apply mbind_inv in E as ([] & [w1 t1] & E1 & E).
  erewrite mbind_ok; [|rewrite (replay_segment_spec c _ es tail fm w t Hok Ht Hp Hw Hc); exact E1].
  apply replay_entries_env in E1 as [Ew1 Ec1]. cbn in Ew1, Ec1.
  rewrite (IH fuel (g + 1) fm w1 t1 w' t'); [f_equal; lia| |congruence|congruence|done].
  intros i es' tail' Hi. destruct (Hseg (S i) es' tail' Hi) as (? & ? & ?). split_and!; [|done..].
  by replace (g + 1 + Z.of_nat i) with (g + Z.of_nat (S i)) by lia.
Qed.

(** A replay stops in a segment with a damaged record. *)
Lemma replay_segment_damaged {T} `{VectorSink T} p fm es e body' rest w t w' t' :
  Forall (entry_ok (w_conf w)) (es ++ [e]) -> zlen body' = zlen (en_body e) ->
  Crc32c body' 0 <> Crc32c (en_body e) 0 ->
  fm !! p = Some (seg_bytes es ++ damaged_frame (en_body e) body' ++ rest) ->
  w_env w = MkFs fm [] -> replay_entries es (w, t) = (inr tt, (w', t')) ->
  replay_segment p (w, t) = (inl (Corruption "wal crc mismatch"), (w', t')).
Proof.
  intros Hok Hlen Hne Hp Hw E. unfold replay_segment, on_fs, mbind, M_bind, try_.
  assert (set_fs (MkFs fm []) (w, t) = (w, t)) as Es by (by destruct w; cbn in Hw; subst).
  cbn [get_fs pair_HasFs fst Wal_HasFs]. rewrite Hw, (NewRandomAccessFile_ok _ _ fm Hp), Es.
  cbn [get_fs pair_HasFs fst Wal_HasFs]. rewrite Hw, (GetFileSize_ok _ _ fm Hp), Es.
  cbn [get_fs pair_HasFs fst Wal_HasFs]. rewrite Hw, (replay_start_ok _ es _ fm Hp), Es.
  unfold seg_bytes in *. rewrite <-app_assoc in *. change 16 with (zlen wal_header).
  eapply replay_frames_damaged; try done. pose proof (length_frames_ge es). len.
Qed.

(** C31. Damage detection: let the body of a stored record, in the segment of
    any generation and after any records [es] of that segment, be changed in
    a window of at most four consecutive bytes, its frame header and checksum
    being left as they were.  If no table operation fails on the records
    before it and none of these is unreadable (that is what the last
    hypothesis says), a replay without I/O errors applies exactly them and
    stops with a corruption error. *)
Theorem wal_replay_detects_damage {T} `{VectorSink T} w fm segs es e pre w1 w2 post rest t w' t' :
  (forall i es0 tail, segs !! i = Some (es0, tail) ->
    fm !! SegmentPath (w_conf w) (Z.of_nat i) = Some (seg_bytes es0 ++ tail) /\
    Forall (entry_ok (w_conf w)) es0 /\ torn tail) ->
  Forall (entry_ok (w_conf w)) (es ++ [e]) ->
  en_body e = pre ++ w1 ++ post -> (length w1 <= 4)%nat -> length w2 = length w1 -> w2 <> w1 ->
  fm !! SegmentPath (w_conf w) (zlen segs) =
    Some (seg_bytes es ++ damaged_frame (en_body e) (pre ++ w2 ++ post) ++ rest) ->
  w_env w = MkFs fm [] -> replay_entries (log_entries segs ++ es) (w, t) = (inr tt, (w', t')) ->
  wal_ReplayInto (w, t) = (inl (Corruption "wal crc mismatch"), (w', t')).
Proof.
  intros Hseg Hok Hbody H4 Hlen Hne Hp Hw E. rewrite replay_entries_app in E.
  apply mbind_inv in E as ([] & [wa ta] & Ea & E).
  unfold wal_ReplayInto. unfold mbind at 1, M_bind at 1, mget. cbn [fst].
  assert (length segs < gen_fuel w)%nat as Hf.
  { unfold gen_fuel. rewrite Hw. cbn [fs_files]. enough (length segs <= size fm)%nat by lia.
    eapply segments_le_size. intros i [[es0 tail] Hi]%lookup_lt_is_Some. by destruct (Hseg i es0 tail Hi) as [-> _]. }
  replace (gen_fuel w) with (length segs + S (gen_fuel w - length segs - 1))%nat by lia.
  erewrite replay_generations_prefix; [|exact Hseg|exact Hw|done|exact Ea].
  apply replay_entries_env in Ea as [Ew Ec]. cbn in Ew, Ec. fold (zlen segs). rewrite Z.add_0_l.
  cbn [replay_generations fst]. unfold mbind at 1 2, M_bind at 1 2, mget, on_fs. rewrite <-Ew in Hw.
  assert (set_fs (MkFs fm []) (wa, ta) = (wa, ta)) as Es by (by destruct wa; cbn in Hw; subst).
  cbn [get_fs pair_HasFs fst Wal_HasFs]. rewrite Hw, FileExists_ok_eq, Es, Ec.
  rewrite bool_decide_eq_true_2 by by rewrite Hp.
  apply mbind_err. eapply replay_segment_damaged; [by rewrite Ec| | |exact Hp|done|exact E].
  - rewrite Hbody. len.
  - rewrite Hbody. intros Ecrc. apply Hne. by apply (Crc32c_window pre w2 w1 post 0); [lia|done|].
Qed.

(** Sequence numbers survive a restart: after a successful replay the log's
    counter is at least every replayed number, so the next append gets a
    fresh, larger one. *)
Theorem wal_replay_restores_seq {T} `{VectorSink T} w fm segs t w' t' :
  log_on_disk (w_conf w) fm segs -> w_env w = MkFs fm [] ->
  wal_ReplayInto (w, t) = (inr tt, (w', t')) ->
  w_seq w <= w_seq w' /\ Forall (fun e => en_seq e <= w_seq w') (log_entries segs).
Proof. intros Hd Hw E. rewrite (replay_into_spec segs fm) in E by done. exact (replay_entries_seq _ _ _ E). Qed.

(** Rotation bounds the segments: after a record append the current segment
    is within the configured size, or it holds that record alone. *)
Theorem wal_segment_size_bounded ns ng w segs es r :
  wal_inv ns ng w segs es -> 0 < ns -> 0 < ng -> rec_ok r -> aes_available (w_conf w) ->
  exists w', run_op (OpRec r) w = (inr tt, w') /\
    (w_bytes_in_seg w' <= wc_segment_bytes (w_conf w) \/
     exists segs' e, wal_inv (ns - 1) (ng - 1) w' segs' [e] /\ en_rec e = r).
Proof.
  intros Hinv Hns Hng Hok Hav.
  destruct (append_rec_spec ns ng w segs es r Hinv Hns Hng Hok Hav)
    as (w' & segs' & es' & e & E & Hinv' & Hu & _ & _ & _ & Hroom).
  exists w'. split; [done|]. destruct Hroom as [Hle| ->].
  - left. by rewrite (wi_size _ _ _ _ _ Hinv').
  - right. exists segs', e. split; [done|]. by injection Hu.
Qed.

(** Reset: it removes every segment and leaves an open, empty log.  Its
    counters start again at zero, so under an unchanged key the first record
    after a reset is sealed with the nonce of the first record ever written. *)
Theorem wal_Reset_empties_log ns ng w segs es :
  wal_inv ns ng w segs es -> ns < 2 ^ 64 -> ng < 2 ^ 64 ->
  exists w', wal_Reset w = (inr tt, w') /\ wal_inv ns ng w' [] [] /\
    MakeNonce (wc_shard_id (w_conf w')) (w_seq w' + 1) (w_gen w') =
    MakeNonce (wc_shard_id (w_conf w)) 1 0 /\
    wc_encryption_key (w_conf w') = wc_encryption_key (w_conf w).
Proof.
  intros Hinv Hns Hng. destruct (Reset_spec ns ng w segs es Hinv Hns Hng) as (w' & E & Hinv' & Hs & Hc).
  exists w'. split_and!; [done|done| |by rewrite Hc].
  by rewrite Hc, Hs, (wi_gen _ _ _ _ _ Hinv').
Qed.

End properties.

(** A replay terminates: for every content of the file system and every
    pattern of I/O errors it returns within the bounds of the model's loops,
    provided the table's and the cipher's errors are not the bound itself. *)
Theorem wal_replay_terminates `{AesGcm} {T} `{VectorSink T} :
  (forall id v m, in_bounds (sink_Put id v m)) -> (forall id, in_bounds (sink_Delete id)) ->
  (forall k n c t, aes_Decrypt k n c t <> inl OutOfFuel) ->
  forall s, (wal_ReplayInto (T := T) s).1 <> inl OutOfFuel.
Proof. intros Hput Hdel Haes. by apply in_bounds_ReplayInto. Qed.

Lemma wal_replay_terminates_witness :
  (@wal_ReplayInto test_aes (list event) trace_sink (test_wal, [])).1 <> inl OutOfFuel.
Proof. apply (@wal_replay_terminates test_aes (list event) trace_sink); done. Defined.

(** A put without a tenant but with a device, a location, a timestamp or a
    source vertex cannot be read back: the record [AppendPut] writes for it
    makes every replay stop with a corruption error. *)
Theorem wal_put_without_tenant_is_unreadable {T} `{VectorSink T} seq id v m (s : Wal * T) :
  md_tenant m = [] -> has_meta_block m = true -> is_u64 seq -> is_u32 (vec_dim v) ->
  replay_record false (zlen (plain_put seq id v m) + 4) (plain_put seq id v m) s =
  (inl (Corruption "wal put length mismatch"), s).
Proof.
  intros Ht Hb Hseq Hd. unfold replay_record.
  rewrite mbind_guard_true by (apply negb_true_iff, Z.ltb_ge; apply (plain_rec_min seq (RPut id v m))).
  unfold plain_put. rewrite Hb, (bool_decide_eq_true_2 _ Ht).
  rewrite rp_dim_prefix, rp_op_prefix by done. rewrite Z.eqb_refl.
  apply mbind_guard_false, Z.eqb_neq. unfold rp_size, vec_dim, encode_meta. len.
Qed.

Lemma wal_put_without_tenant_is_unreadable_witness :
  let m := MkMeta [] (bstr "dev-1") [] 0 0 0 [] [] 0 0 in
  replay_record (T := list event) false (zlen (plain_put 1 7 [5] m) + 4) (plain_put 1 7 [5] m) (test_wal, []) =
  (inl (Corruption "wal put length mismatch"), (test_wal, [])).
Proof. apply wal_put_without_tenant_is_unreadable; done. Defined.

(** A failed rotation breaks the log object: when the new segment cannot be
    opened the append reports an I/O error and forgets the file, and the next
    append that fits a segment dereferences the null file. *)
Theorem wal_append_after_failed_rotation w h add flt body :
  w_file w = Some h -> wf_open h = true -> fs_faults (w_env w) = [None; None; Some flt] ->
  wc_segment_bytes (w_conf w) < u64 (w_bytes_in_seg w + add) ->
  4 + u32 (zlen body + 4) <= wc_segment_bytes (w_conf w) -> body <> [] ->
  exists w', RotateIfNeeded add w = (inl (ErrnoStatus "open" (flt_errno flt)), w') /\
    (append_body body w').1 = inl (Undefined "null impl_").
Proof.
  intros Hf Ho Hfl Hgt Hle Hne. unfold RotateIfNeeded. unfold mbind at 1, M_bind at 1, mget at 1.
  destruct (Z.leb_spec (u64 (w_bytes_in_seg w + add)) (wc_segment_bytes (w_conf w))); [lia|].
  rewrite Hf. destruct w as [[fm fl] c gen seq off inseg tot h0]. destruct h as [p op o bw].
  cbn in Ho, Hfl, Hf, Hle |- *. subst. eexists. split; [reflexivity|].
  unfold append_body. erewrite mbind_ok.
  2:{ unfold RotateIfNeeded, mbind, M_bind, mget. cbn [w_bytes_in_seg w_conf set_fs Wal_HasFs set_sizes set_gen set_wfile].
      rewrite u64_id by (pose proof (u32_range (zlen body + 4)); unfold is_u32, is_u64 in *; lia).
      rewrite (proj2 (Z.leb_le _ _)) by lia. reflexivity. }
  done.
Qed.

Lemma wal_append_after_failed_rotation_witness :
  let w := MkWal (MkFs ∅ [None; None; Some (MkFault "No space left on device" 0)])
             (MkWalConf "db" 0 64 kNever false []) 0 0 0 60 0 (Some (MkWFile "db/wal_0_0.log" true 60 60)) in
  exists w', RotateIfNeeded 29 w = (inl (ErrnoStatus "open" "No space left on device"), w') /\
    (append_body (plain_del 1 5) w').1 = inl (Undefined "null impl_").
Proof.
  apply (wal_append_after_failed_rotation _ (MkWFile "db/wal_0_0.log" true 60 60) 29
    (MkFault "No space left on device" 0)); vm_compute; done.
Defined.

Lemma take_MakeNonce shard seq gen :
  take 11 (MakeNonce shard seq gen) = le_split 4 shard ++ le_split 7 seq.
Proof. unfold MakeNonce. rewrite take_app_len by len. by rewrite take_app, length_le_split. Qed.

(** Within one life of the log nonces do not repeat: for sequence numbers
    below 2^56 the nonce determines the number, whatever the segment. *)
Theorem MakeNonce_determines_seq shard s1 s2 g1 g2 :
  0 <= s1 < 2 ^ 56 -> 0 <= s2 < 2 ^ 56 -> MakeNonce shard s1 g1 = MakeNonce shard s2 g2 -> s1 = s2.
Proof.
  intros H1 H2 E. apply (f_equal (take 11)) in E. rewrite !take_MakeNonce in E.
  apply app_inv_head, le_split_inj in E; lia.
Qed.

Lemma MakeNonce_determines_seq_witness : MakeNonce 3 1 0 <> MakeNonce 3 2 1.
Proof. intros E. discriminate (MakeNonce_determines_seq 3 1 2 0 1 ltac:(lia) ltac:(lia) E). Defined.

(** ** Concrete runs of the log theorems *)

Lemma test_open :
  exists w1, @wal_Open test_wal = (inr tt, w1) /\ @wal_inv test_aes 9 9 w1 [] [] /\
    w_conf w1 = test_conf /\ w_seq w1 = 0.
Proof. apply (@Open_spec test_aes 9 9 test_wal ∅ []); done. Qed.

Lemma wal_append_replay_roundtrip_witness :
  exists w', (wal_Open ;; @run_ops test_aes test_ops) test_wal = (inr tt, w') /\
    (@wal_ReplayInto test_aes _ trace_sink (MkWal (w_env w') test_conf 0 0 0 0 0 None, [])).2.2 =
    [EvPut 7 [1; 2] (with_lsn 1 md_default); EvPut 8 [3] (with_lsn 2 md_default);
     EvPut 9 [4] (with_lsn 3 md_default); EvDel 7].
Proof.
  destruct (@wal_append_replay_roundtrip test_aes test_aes_laws test_wal ∅ [] test_ops)
    as (w' & news & E & Hu & Hrep); [done|apply test_disk|done..|apply test_ops_ok|done|].
  exists w'. split; [exact E|]. rewrite (Hrep _ trace_sink) by reflexivity. clear E Hrep.
  destruct news as [|[] [|[] [|[] [|[] [|]]]]]; try discriminate Hu. cbv in Hu. simplify_eq. reflexivity.
Defined.

Definition one_entry : entry := MkEntry 4 (RDel 5) (plain_del 4 5).
Lemma one_entry_ok : @entry_ok test_aes test_conf one_entry.
Proof. split; [done|split; done|done]. Qed.

Lemma one_segment_disk tail :
  torn tail ->
  @log_on_disk test_aes test_conf {[ SegmentPath test_conf 0 := seg_bytes [one_entry] ++ tail ]} [([one_entry], tail)].
Proof.
  intros Ht. split.
  - intros [|i] es tl Hi; [|by destruct i]. injection Hi as <- <-. rewrite lookup_singleton_eq.
    split_and!; [done|repeat constructor; apply one_entry_ok|done].
  - by rewrite lookup_singleton_ne.
Qed.

Lemma wal_replay_ignores_torn_tails_witness :
  let tail := take 13 (frame (plain_del 5 6)) in
  let w := MkWal (MkFs {[ SegmentPath test_conf 0 := seg_bytes [one_entry] ++ tail ]} []) test_conf 0 0 0 0 0 None in
  @wal_ReplayInto test_aes _ trace_sink (w, []) = (inr tt, (set_seq 4 w, [EvDel 5])).
Proof.
  intros tail w.
  rewrite (@wal_replay_ignores_torn_tails test_aes test_aes_laws _ trace_sink w (fs_files (w_env w))
    [([one_entry], tail)]);
    [reflexivity| |reflexivity].
  apply one_segment_disk. right. exists (plain_del 5 6), 13%nat. split; [done|]. split; [vm_compute; lia|done].
Defined.

Lemma wal_replay_restores_seq_witness :
  exists w' t', @wal_ReplayInto test_aes _ trace_sink
    (MkWal (MkFs {[ SegmentPath test_conf 0 := seg_bytes [one_entry] ++ [] ]} []) test_conf 0 0 0 0 0 None, []) =
    (inr tt, (w', t')) /\ Forall (fun e => en_seq e <= w_seq w') [one_entry].
Proof.
  eexists _, _. split; [vm_compute; reflexivity|].
  refine (proj2 (@wal_replay_restores_seq test_aes test_aes_laws _ trace_sink
    (MkWal (MkFs {[ SegmentPath test_conf 0 := seg_bytes [one_entry] ++ [] ]} []) test_conf 0 0 0 0 0 None)
    _ [([one_entry], [])] [] _ _ _ _ _)).
  - apply one_segment_disk. by left.
  - reflexivity.
  - vm_compute. reflexivity.
Defined.

Lemma wal_replay_detects_damage_witness :
  let body := plain_del 4 5 in
  let bad := take 9 body ++ [Byte.x06] ++ drop 10 body in
  let w := MkWal (MkFs {[ SegmentPath test_conf 0 := seg_bytes [one_entry] ++ [];
                          SegmentPath test_conf 1 := seg_bytes [] ++ damaged_frame body bad ++ [] ]} [])
             test_conf 0 0 0 0 0 None in
  @wal_ReplayInto test_aes _ trace_sink (w, []) = (inl (Corruption "wal crc mismatch"), (set_seq 4 w, [EvDel 5])).
Proof.
  intros body bad w.
  refine (@wal_replay_detects_damage test_aes test_aes_laws _ trace_sink w (fs_files (w_env w)) [([one_entry], [])] []
    one_entry (take 9 body) [Byte.x05] [Byte.x06] (drop 10 body) [] [] (set_seq 4 w) [EvDel 5] _ _ _ _ _ _ _ _ _);
    try reflexivity.
  - intros [|i] es0 tail Hi; [|by destruct i]. injection Hi as <- <-.
    split_and!; [reflexivity|repeat constructor; apply one_entry_ok|by left].
  - constructor; [apply one_entry_ok|constructor].
  - cbn. lia.
  - discriminate.
Defined.

Lemma wal_segment_size_bounded_witness :
  exists w1 w', @wal_Open test_wal = (inr tt, w1) /\
    @run_op test_aes (OpRec (RDel 5)) w1 = (inr tt, w') /\
    (w_bytes_in_seg w' <= 120 \/ exists segs' e, @wal_inv test_aes 8 8 w' segs' [e] /\ en_rec e = RDel 5).
Proof.
  destruct test_open as (w1 & E & Hinv & Hc & _). exists w1.
  destruct (@wal_segment_size_bounded test_aes test_aes_laws 9 9 w1 [] [] (RDel 5) Hinv) as (w' & E' & H);
    [lia|lia|split; done|by rewrite Hc|].
  exists w'. rewrite Hc in H. done.
Defined.

Lemma wal_Reset_empties_log_witness :
  exists w1 w', @wal_Open test_wal = (inr tt, w1) /\ @wal_Reset w1 = (inr tt, w') /\
    MakeNonce (wc_shard_id (w_conf w')) (w_seq w' + 1) (w_gen w') = MakeNonce 3 1 0.
Proof.
  destruct test_open as (w1 & E & Hinv & Hc & _). exists w1.
  destruct (@wal_Reset_empties_log test_aes 9 9 w1 [] [] Hinv) as (w' & E' & _ & Hn & _); [done..|].
  exists w'. rewrite Hc in Hn. done.
Defined.
