(* ===== verification/Sync.v ===== *)
(** * Log streaming (src/core/storage/sync_provider.cc)

    [WalStreamer::PushSince] reads the segment files of a log and hands every
    record above a sequence number to a receiver; [VectorRuntime::PushSync]
    keeps the number of the last record sent.  The receiver is the caller's
    and is a parameter with a state of its own.  Reads of a record past its
    end are reported as undefined. *)
From S2P Require Import Prelude Crc32c Env Types Wal WalCodec WalLog.

Open Scope Z_scope.

(** src/core/storage/sync_provider.h:19-27 [WalEntry]. Of [meta] only the tenant
    is ever set. *)
Record WalEntry : Type := MkWe {
  we_lsn : Z;
  we_op : Z;
  we_id : Z;
  we_dim : Z;
  we_vec : vec;
  we_raw_data : bytes;
  we_tenant : bytes
}.

(** src/core/storage/sync_provider.h:69-70 [WalStreamer]. *)
Record WalStreamer : Type := MkWs { ws_db_path : path; ws_shard_id : Z }.

(** src/core/storage/sync_provider.cc:33-35 [WalStreamer::SegmentPath]. *)
Definition ws_SegmentPath (s : WalStreamer) (gen : Z) : path :=
  ws_db_path s +:+ "/wal_" +:+ pretty (Z.to_N (ws_shard_id s)) +:+ "_" +:+ pretty (Z.to_N gen) +:+ ".log".

Definition past_end : Status := Undefined "read past the end of a record".

(** src/core/storage/sync_provider.cc:90-117 [WalStreamer::PushSince]. [len] is
    the length of the frame, checksum included. *)
Definition decode_entry (len : Z) (body : bytes) : Status + WalEntry :=
  if len <? rp_size then inl past_end else
  let op := rp_op body in
  let dim := rp_dim body in
  let entry := MkWe (rp_seq body) op (rp_id body) dim in
  let vec_bytes := dim * 4 in
  let v := read_vec (Z.to_nat dim) (drop 21 body) in
  if op =? kPut then
    if len <? rp_size + vec_bytes then inl past_end else inr (entry v [] [])
  else if op =? kPutMeta then
    let meta := rp_size + vec_bytes in
    if len <? meta + 4 then inl past_end else
    let meta_len := le_read 4 (Z.to_nat meta) body in
    if len <? meta + 4 + meta_len then inl past_end else
    inr (entry v [] (take (Z.to_nat meta_len) (drop (Z.to_nat (meta + 4)) body)))
  else if op =? kRawKV then
    if len <? rp_size + 8 then inl past_end else
    let klen := le_read 4 21 body in
    let vlen := le_read 4 25 body in
    if len <? rp_size + 8 + klen + vlen then inl past_end else
    inr (entry [] (take (Z.to_nat klen) (drop 29 body) ++ bstr ":" ++
                   take (Z.to_nat vlen) (drop (29 + Z.to_nat klen) body)) [])
  else inr (entry [] [] []).

Section stream.
Context {R : Type} (Receive : WalEntry -> M R unit).

#[global] Instance receiver_HasFs : HasFs (fs * R) := {| get_fs s := s.1; set_fs f s := (f, s.2) |}.

Definition on_receiver {A} (m : M R A) : M (fs * R) A := fun s =>
  let '(r, x) := m s.2 in (r, (s.1, x)).

(** src/core/storage/sync_provider.cc:83-124 [WalStreamer::PushSince]. One frame;
    the result is the new [current_lsn].  [fh.len - 4] wraps for a frame that
    is shorter than its checksum. *)
Definition push_body (len : Z) (body : bytes) (current_lsn : Z) : M (fs * R) Z :=
  if len <? 4 then mfail past_end else
  let n := Z.to_nat (len - 4) in
  mguard (le_read 4 n body =? Crc32c (take n body) 0) (Corruption "WAL CRC mismatch during sync") ;;
  if len <? 8 then mfail past_end else
  if current_lsn <? rp_seq body then
    match decode_entry len body with
    | inl e => mfail e
    | inr entry => on_receiver (Receive entry) ;; mret (rp_seq body)
    end
  else mret current_lsn.

(** src/core/storage/sync_provider.cc:63-126 [WalStreamer::PushSince]. The loop
    over the frames of a segment. *)
Fixpoint push_frames (fuel : nat) (raf : path) (file_size off current_lsn : Z) : M (fs * R) Z :=
  match fuel with
  | O => mfail OutOfFuel
  | S fuel =>
      if file_size <? off + 4 then mret current_lsn else
      fh ← on_fs (raf_Read raf off 4);
      let len := le_read 4 0 fh in
      let body_off := off + 4 in
      if file_size <? body_off + len then mret current_lsn else
      body ← on_fs (raf_Read raf body_off len);
      current_lsn ← push_body len body current_lsn;
      push_frames fuel raf file_size (body_off + len) current_lsn
  end.

(** src/core/storage/sync_provider.cc:43-61 [WalStreamer::PushSince]. A segment
    with the magic of the log starts after its header; the version is not read. *)
Definition push_segment (p : path) (current_lsn : Z) : M (fs * R) Z :=
  raf ← on_fs (NewRandomAccessFile p);
  file_size ← on_fs (GetFileSize p);
  off ← (if 16 <=? file_size then
           hdr ← on_fs (raf_Read raf 0 16);
           mret (if bool_decide (take 12 hdr = kWalMagic) then 16 else 0)
         else mret 0);
  push_frames (S (Z.to_nat file_size)) raf file_size off current_lsn.

(** src/core/storage/sync_provider.cc:42-127 [WalStreamer::PushSince]. The loop
    over the generations. *)
Fixpoint push_generations (fuel : nat) (ws : WalStreamer) (g current_lsn : Z) : M (fs * R) Z :=
  match fuel with
  | O => mfail OutOfFuel
  | S fuel =>
      ex ← on_fs (FileExists_ok (ws_SegmentPath ws g));
      if (ex : bool) then
        current_lsn ← push_segment (ws_SegmentPath ws g) current_lsn;
        push_generations fuel ws (g + 1) current_lsn
      else mret current_lsn
  end.

(** src/core/storage/sync_provider.cc:37-131 [WalStreamer::PushSince]. The result
    is [*new_last_lsn]. *)
Definition PushSince (ws : WalStreamer) (last_lsn : Z) : M (fs * R) Z :=
  s ← mget;
  push_generations (S (S (size (fs_files s.1)))) ws 0 last_lsn.

(** The members of [VectorRuntime] that syncing uses, and the receiver the
    caller passes (null is [None]). *)
Record SyncRuntime : Type := MkSr {
  sy_started : bool;
  sy_data_dir : path;
  sy_runtime_id : Z;
  sy_last_synced_lsn : Z;
  sy_fs : fs;
  sy_receiver : option R
}.

(** src/core/shard/runtime.cc:805-816 [VectorRuntime::HandleSync]. *)
Definition HandleSync : M SyncRuntime unit := fun s =>
  match sy_receiver s with
  | None => (inl (InvalidArgument "receiver null"), s)
  | Some r =>
      let '(res, (f, r')) := PushSince (MkWs (sy_data_dir s) (sy_runtime_id s)) (sy_last_synced_lsn s) (sy_fs s, r) in
      match res with
      | inl e => (inl e, MkSr (sy_started s) (sy_data_dir s) (sy_runtime_id s) (sy_last_synced_lsn s) f (Some r'))
      | inr n => (inr tt, MkSr (sy_started s) (sy_data_dir s) (sy_runtime_id s) n f (Some r'))
      end
  end.

(** src/core/shard/runtime.cc:797-803 [VectorRuntime::PushSync]. *)
Definition rt_PushSync : M SyncRuntime unit :=
  s ← mget;
  mguard (sy_started s) (Aborted "shard not started") ;;
  HandleSync.
End stream.

(** src/core/storage/sync_provider.h:42-51 [MockSyncReceiver]. *)
Definition mock_Receive (entry : WalEntry) : M Z unit := mput (we_lsn entry).
