(* ===== verification/SyncTheorems.v ===== *)
(** * Streaming a log delivers it

    [PushSince] over the segment files of a log is the delivery of its records
    above the given number, in order, to any receiver; a writer that appends
    and streams in turns sends every record exactly once. *)
From S2P Require Import Prelude Crc32c Env Types Wal WalCodec WalLog Sync.

Open Scope Z_scope.

(** What the receiver sees of a record.  The tenant of a put with metadata is
    looked for where the log writes other fields, see [sync_garbles_tenant]. *)
Definition sync_view (seq : Z) (r : wal_rec) : WalEntry :=
  match r with
  | RPut id v m => MkWe seq (if bool_decide (md_tenant m = []) then kPut else kPutMeta) id (vec_dim v) v [] []
  | RDel id => MkWe seq kDel id 0 [] [] []
  | RRaw op k v => MkWe seq op 0 0 [] (if op =? kRawKV then k ++ bstr ":" ++ v else []) []
  end.

(** The records whose metadata the streamer does not misread. *)
Definition sync_ok (r : wal_rec) : Prop :=
  match r with
  | RPut _ _ m => md_tenant m = [] \/ md_src_vid m mod 2 ^ 32 = 0
  | _ => True
  end.

Lemma le_read_4_of_8 z rest : le_read 4 0 (le_split 8 z ++ rest) = z mod 2 ^ 32.
Proof.
  unfold le_read. rewrite drop_0, take_app_le by len. change 8%nat with (4 + 4)%nat.
  assert (take 4 (le_split (4 + 4) z) = le_split 4 z) as -> by reflexivity. apply le_combine_split.
Qed.

Lemma decode_entry_put seq id v m crc :
  is_u64 seq -> rec_ok (RPut id v m) -> sync_ok (RPut id v m) -> length crc = 4%nat ->
  decode_entry (zlen (plain_put seq id v m) + 4) (plain_put seq id v m ++ crc) = inr (sync_view seq (RPut id v m)).
Proof.
  intros Hseq (Hsz & Hid & Hv & Hm) Hs Hcrc. cbn [plain_rec] in Hsz.
  assert (is_u32 (vec_dim v)) as Hd.
  { revert Hsz. unfold plain_put, vec_dim. split; [apply zlen_nonneg|len]. }
  unfold decode_entry, sync_view. rewrite (proj2 (Z.ltb_ge _ _)) by (unfold plain_put, rp_size; len).
  unfold plain_put. rewrite <-!app_assoc. rewrite rp_dim_prefix, rp_op_prefix, rp_id_prefix, rp_seq_prefix
    by (try done; by case_bool_decide).
  rewrite drop_app_len by len. replace (Z.to_nat (vec_dim v)) with (length v) by (unfold vec_dim; len).
  rewrite read_vec_bytes by done. case_bool_decide as Ht.
  - rewrite Z.eqb_refl, (proj2 (Z.ltb_ge _ _)); [done|]. unfold rp_size, vec_dim. len.
  - change (kPutMeta =? kPut) with false. rewrite Z.eqb_refl. cbv iota. destruct Hs as [?|Hs]; [done|].
    assert (has_meta_block m = true) as Hb by (unfold has_meta_block; by rewrite bool_decide_eq_true_2). rewrite Hb.
    rewrite (proj2 (Z.ltb_ge _ _)) by (unfold rp_size, vec_dim, encode_meta; len).
    assert (le_read 4 (Z.to_nat (rp_size + vec_dim v * 4)) (record_prefix seq kPutMeta id (vec_dim v) ++ vec_bytes v ++ encode_meta m ++ crc) = 0) as ->.
    { replace (Z.to_nat (rp_size + vec_dim v * 4)) with (21 + (4 * length v + 0))%nat by (unfold rp_size, vec_dim; len).
      rewrite !le_read_skip by len. unfold encode_meta. rewrite <-!app_assoc. by rewrite le_read_4_of_8. }
    rewrite (proj2 (Z.ltb_ge _ _)) by (unfold rp_size, vec_dim, encode_meta; len). done.
Qed.

Lemma decode_entry_plain seq r crc :
  is_u64 seq -> rec_ok r -> sync_ok r -> length crc = 4%nat ->
  decode_entry (zlen (plain_rec seq r) + 4) (plain_rec seq r ++ crc) = inr (sync_view seq r).
Proof.
  destruct r as [id v m|id|op k v]; intros Hseq Hok Hs Hcrc; [by apply decode_entry_put|..];
    destruct Hok as (Hsz & Hok); cbn [plain_rec sync_view] in *.
  - unfold decode_entry, plain_del in *. rewrite (proj2 (Z.ltb_ge _ _)) by (unfold rp_size; len).
    rewrite rp_dim_prefix, rp_op_prefix, rp_id_prefix, rp_seq_prefix by done. done.
  - destruct Hok as (Hop & Hk & Hv). unfold decode_entry, plain_raw in *.
    rewrite (proj2 (Z.ltb_ge _ _)) by (unfold rp_size; len). rewrite <-!app_assoc.
    rewrite rp_dim_prefix, rp_op_prefix, rp_id_prefix, rp_seq_prefix by (try done; by destruct Hop as [->|[->| ->]]).
    destruct Hop as [->|[->| ->]]; [|done..]. change (kRawKV =? kPut) with false. change (kRawKV =? kPutMeta) with false.
    rewrite Z.eqb_refl. cbv iota. pose proof (zlen_nonneg k). pose proof (zlen_nonneg v).
    rewrite !u32_id in * by (split; lia).
    rewrite (proj2 (Z.ltb_ge _ _)) by (unfold rp_size; len).
    rewrite !(take_ge k), !(take_ge v) in * by (unfold zlen; lia).
    set (b := record_prefix seq kRawKV 0 0 ++ le_split 4 (zlen k) ++ le_split 4 (zlen v) ++ k ++ v ++ crc).
    assert (le_read 4 21 b = zlen k) as ->.
    { change 21%nat with (21 + 0)%nat. unfold b. rewrite le_read_skip by len. apply le_read_app_l. split; lia. }
    assert (le_read 4 25 b = zlen v) as ->.
    { change 25%nat with (21 + (4 + 0))%nat. unfold b. rewrite !le_read_skip by len. apply le_read_app_l. split; lia. }
    assert (drop 29 b = k ++ v ++ crc) as Hb.
    { change 29%nat with (21 + (4 + (4 + 0)))%nat. unfold b. by rewrite !drop_app_plus, drop_0 by len. }
    rewrite <-drop_drop, Hb. replace (Z.to_nat (zlen k)) with (length k) by len. replace (Z.to_nat (zlen v)) with (length v) by len.
    rewrite drop_app_length, !take_app_length. unfold rp_size, b. by rewrite (proj2 (Z.ltb_ge _ _)) by len.
Qed.

(** ** Delivery *)

Section delivery.
Context `{AesGcmLaws} {R : Type} (Receive : WalEntry -> M R unit).

(** The specification: the records above [cur], in order; the first call the
    receiver refuses ends the delivery. *)
Fixpoint deliver (es : list (Z * wal_rec)) (cur : Z) : M R Z :=
  match es with
  | [] => mret cur
  | (seq, r) :: es =>
      if cur <? seq then Receive (sync_view seq r) ;; deliver es seq else deliver es cur
  end.

Lemma deliver_app es1 es2 cur x : deliver (es1 ++ es2) cur x = (deliver es1 cur ≫= deliver es2) x.
Proof.
  revert cur x. induction es1 as [|[seq r] es1 IH]; intros cur x; [done|]. cbn [app deliver].
  destruct (cur <? seq); [|apply IH]. rewrite mbind_assoc. destruct (Receive (sync_view seq r) x) as [[e|[]] x1] eqn:E.
  - by rewrite !(mbind_err _ _ _ _ _ E).
  - rewrite !(mbind_ok _ _ _ _ _ E). apply IH.
Qed.

(** Delivery run beside the files. *)
Definition beside {A} (f : fs) (m : M R A) (x : R) : (Status + A) * (fs * R) := let '(res, x') := m x in (res, (f, x')).

Definition streamable (c : WalConf) (e : entry) : Prop := entry_ok c e /\ sync_ok (en_rec e).

Lemma push_body_spec c e cur f x :
  wc_encryption_enabled c = false -> streamable c e ->
  push_body Receive (zlen (en_body e) + 4) (en_body e ++ le_split 4 (Crc32c (en_body e) 0)) cur (f, x) =
  beside f (deliver [untag e] cur) x.
Proof.
  intros Henc [[Hseq Hrec Hseal] Hs]. destruct e as [seq r body]. cbn [en_seq en_rec en_body] in *.
  unfold sealed in Hseal. rewrite Henc in Hseal. subst body. pose proof (plain_rec_min seq r) as Hmin.
  unfold push_body. rewrite (proj2 (Z.ltb_ge _ 4)) by lia.
  replace (Z.to_nat (zlen (plain_rec seq r) + 4 - 4)) with (length (plain_rec seq r)) by len.
  rewrite take_app_length. rewrite mbind_guard_true.
  2:{ apply Z.eqb_eq. rewrite le_read_app_r by done. rewrite <-(app_nil_r (le_split 4 _)). apply le_read_app_l, Crc32c_range. }
  rewrite (proj2 (Z.ltb_ge _ 8)) by lia.
  assert (rp_seq (plain_rec seq r ++ le_split 4 (Crc32c (plain_rec seq r) 0)) = seq) as ->.
  { destruct r; cbn [plain_rec]; unfold plain_put, plain_del, plain_raw; rewrite <-?app_assoc; by apply rp_seq_prefix. }
  rewrite decode_entry_plain by (try done; len). cbn [deliver untag en_seq en_rec]. unfold beside.
  destruct (cur <? seq); [|done]. unfold mbind, M_bind, on_receiver. cbn [snd fst].
  by destruct (Receive _ x) as [[e|[]] x1].
Qed.

Lemma push_frames_torn fuel p pre tail fm cur x :
  torn tail -> fm !! p = Some (pre ++ tail) -> (0 < fuel)%nat ->
  push_frames Receive fuel p (zlen (pre ++ tail)) (zlen pre) cur (MkFs fm [], x) = (inr cur, (MkFs fm [], x)).
Proof.
  intros Ht Hp Hf. destruct fuel as [|fuel]; [lia|]. cbn [push_frames].
  destruct (Z.ltb_spec (zlen (pre ++ tail)) (zlen pre + 4)) as [|Hge]; [done|].
  unfold mbind at 1, M_bind at 1, on_fs at 1. cbn [get_fs receiver_HasFs fst]. rewrite (raf_Read_ok p (zlen pre) _ _ fm Hp ltac:(len)).
  destruct Ht as [->|(body & k & Hb & Hk & ->)]; [len|]. assert (0 <= zlen body) by apply zlen_nonneg.
  assert (4 <= k)%nat by (revert Hk Hge; len).
  replace (Z.to_nat (zlen pre)) with (length pre) by len. rewrite drop_app_len by done.
  rewrite take_take, Nat.min_l by lia.
  assert (take (Z.to_nat 4) (frame body) = le_split 4 (zlen body + 4)) as ->.
  { unfold frame. rewrite take_app_len, u32_id by first [len|split; lia]. done. }
  assert (le_read 4 0 (le_split 4 (zlen body + 4)) = zlen body + 4) as ->.
  { rewrite <-(app_nil_r (le_split 4 _)). apply le_read_app_l. split; lia. }
  rewrite (proj2 (Z.ltb_lt _ _)); [done|]. revert Hk. unfold frame. len.
Qed.

Lemma push_frames_spec c fuel p pre es tail fm cur x :
  wc_encryption_enabled c = false -> Forall (streamable c) es -> torn tail ->
  fm !! p = Some (pre ++ frames es ++ tail) -> (length es < fuel)%nat ->
  push_frames Receive fuel p (zlen (pre ++ frames es ++ tail)) (zlen pre) cur (MkFs fm [], x) =
  beside (MkFs fm []) (deliver (untag <$> es) cur) x.
Proof.
  intros Henc Hok Ht. revert fuel pre cur x. induction Hok as [|e es He _ IH]; intros fuel pre cur x Hp Hf.
  - by apply (push_frames_torn fuel p pre tail fm).
  - destruct fuel as [|fuel]; cbn [length] in Hf; [lia|]. cbn [push_frames].
    rewrite frames_cons in *. rewrite <-app_assoc in *. destruct (He) as [[_ [Hsz _] Hseal] _].
    pose proof (sealed_length _ _ _ _ Hseal) as Hl. pose proof (zlen_nonneg (en_body e)) as Hnn.
    rewrite (proj2 (Z.ltb_ge _ (zlen pre + 4))) by (unfold frame; len).
    unfold mbind at 1, M_bind at 1, on_fs at 1. cbn [get_fs receiver_HasFs fst]. rewrite (raf_Read_ok p (zlen pre) _ _ fm Hp ltac:(len)).
    replace (Z.to_nat (zlen pre)) with (length pre) by len. rewrite drop_app_length.
    assert (take (Z.to_nat 4) (frame (en_body e) ++ frames es ++ tail) = le_split 4 (zlen (en_body e) + 4)) as ->.
    { unfold frame. rewrite <-!app_assoc, take_app_len, u32_id by first [len|split; lia]. done. }
    assert (le_read 4 0 (le_split 4 (zlen (en_body e) + 4)) = zlen (en_body e) + 4) as ->.
    { rewrite <-(app_nil_r (le_split 4 _)). apply le_read_app_l. split; lia. }
    rewrite (proj2 (Z.ltb_ge _ _)) by (unfold frame; len).
    unfold mbind at 1, M_bind at 1, on_fs at 1. cbn [get_fs set_fs receiver_HasFs fst snd]. rewrite (raf_Read_ok p (zlen pre + 4) _ _ fm Hp ltac:(unfold frame; len)).
    replace (Z.to_nat (zlen pre + 4)) with (length pre + 4)%nat by len.
    replace (Z.to_nat (zlen (en_body e) + 4)) with (length (en_body e ++ le_split 4 (Crc32c (en_body e) 0))) by len.
    rewrite drop_app_plus by done.
    assert (drop 4 (frame (en_body e) ++ frames es ++ tail) =
      (en_body e ++ le_split 4 (Crc32c (en_body e) 0)) ++ frames es ++ tail) as ->
      by (unfold frame; rewrite <-!app_assoc; apply drop_app_len; len).
    rewrite take_app_length. unfold mbind at 1, M_bind at 1. cbn [fst snd]. rewrite (push_body_spec c) by done.
    change (untag <$> e :: es) with ([untag e] ++ (untag <$> es)). unfold beside. rewrite deliver_app.
    unfold mbind, M_bind. destruct (deliver [untag e] cur x) as [[err|cur'] x']; [done|].
    replace (zlen pre + 4 + (zlen (en_body e) + 4)) with (zlen (pre ++ frame (en_body e))) by len.
    rewrite (app_assoc pre) in Hp |- *. rewrite IH by (done || lia). done.
Qed.

Lemma push_segment_spec c p es tail fm cur x :
  wc_encryption_enabled c = false -> Forall (streamable c) es -> torn tail ->
  fm !! p = Some (seg_bytes es ++ tail) ->
  push_segment Receive p cur (MkFs fm [], x) = beside (MkFs fm []) (deliver (untag <$> es) cur) x.
Proof.
  intros Henc Hok Ht Hp. unfold push_segment. unfold mbind, M_bind, on_fs. cbn [get_fs set_fs receiver_HasFs fst snd].
  rewrite (NewRandomAccessFile_ok p _ fm Hp). cbn [fst snd]. rewrite (GetFileSize_ok p _ fm Hp). cbn [fst snd].
  rewrite (proj2 (Z.leb_le 16 _)) by (unfold seg_bytes; len). rewrite (raf_Read_ok p 0 _ _ fm Hp ltac:(len)). cbn [fst snd mret M_ret].
  unfold seg_bytes in *. rewrite <-app_assoc in *. rewrite drop_0.
  assert (take (Z.to_nat 16) (wal_header ++ frames es ++ tail) = wal_header) as -> by (by apply take_app_len).
  rewrite bool_decide_eq_true_2 by done. cbv iota. change 16 with (zlen wal_header).
  apply (push_frames_spec c); try done. pose proof (length_frames_ge es). len.
Qed.

Lemma push_generations_spec c segs fuel g fm cur x :
  wc_encryption_enabled c = false ->
  (forall i es tail, segs !! i = Some (es, tail) ->
    fm !! SegmentPath c (g + Z.of_nat i) = Some (seg_bytes es ++ tail) /\ Forall (streamable c) es /\ torn tail) ->
  fm !! SegmentPath c (g + Z.of_nat (length segs)) = None -> (length segs < fuel)%nat ->
  push_generations Receive fuel (MkWs (wc_db_path c) (wc_shard_id c)) g cur (MkFs fm [], x) =
  beside (MkFs fm []) (deliver (untag <$> log_entries segs) cur) x.
Proof.
  intros Henc. revert fuel g cur x. induction segs as [|[es tail] segs IH]; intros fuel g cur x Hseg Hend Hf;
    (destruct fuel as [|fuel]; cbn [length] in Hf; [lia|]); cbn [push_generations];
    change (ws_SegmentPath _ g) with (SegmentPath c g);
    unfold mbind at 1, M_bind at 1, on_fs; cbn [get_fs set_fs receiver_HasFs fst snd]; rewrite FileExists_ok_eq.
  - rewrite Z.add_0_r in Hend. by rewrite Hend.
  - destruct (Hseg 0%nat es tail eq_refl) as (Hp & Hok & Ht). rewrite Z.add_0_r in Hp.
    rewrite bool_decide_eq_true_2 by by rewrite Hp. cbn [fst snd].
    unfold mbind at 1, M_bind at 1. rewrite (push_segment_spec c _ es tail fm cur x Henc Hok Ht Hp).
    change (log_entries ((es, tail) :: segs)) with (es ++ log_entries segs). unfold beside.
    rewrite fmap_app, deliver_app. unfold mbind at 1, M_bind at 1.
    destruct (deliver (untag <$> es) cur x) as [[err|cur'] x']; [done|].
    rewrite IH; [done| |rewrite <-Hend; cbn [length]; do 2 f_equal; lia|lia].
    intros i es' tail' Hi. destruct (Hseg (S i) es' tail' Hi) as (? & ? & ?).
    split_and!; [|done..]. by replace (g + 1 + Z.of_nat i) with (g + Z.of_nat (S i)) by lia.
Qed.

Lemma push_since_deliver c fm segs last x :
  wc_encryption_enabled c = false -> log_on_disk c fm segs -> Forall (fun e => sync_ok (en_rec e)) (log_entries segs) ->
  PushSince Receive (MkWs (wc_db_path c) (wc_shard_id c)) last (MkFs fm [], x) =
  beside (MkFs fm []) (deliver (untag <$> log_entries segs) last) x.
Proof.
  intros Henc [Hseg Hend] Hs. unfold PushSince. rewrite (mbind_ok mget _ _ _ _ eq_refl). cbn [fst fs_files].
  apply (push_generations_spec c); [done| |done|].
  - intros i es tail Hi. destruct (Hseg i es tail Hi) as (Hp & Hok & Ht). split_and!; [done| |done].
    rewrite Forall_forall in Hs, Hok |- *. intros e He. split; [by apply Hok|]. apply Hs. unfold log_entries.
    apply list_elem_of_bind. exists (es, tail). split; [done|]. by eapply list_elem_of_lookup_2.
  - assert (length segs <= size fm)%nat; [|lia].
    eapply (segments_le_size c). intros i [[es tail] Hi]%lookup_lt_is_Some. destruct (Hseg i es tail Hi) as [-> _]. done.
Qed.
End delivery.

(** ** Writing and streaming in turns *)

(** A receiver that keeps what it is given. *)
Definition collect (e : WalEntry) : M (list WalEntry) unit := fun got => (inr tt, got ++ [e]).

Definition view_of (p : Z * wal_rec) : WalEntry := sync_view p.1 p.2.

Lemma deliver_old rs s cur got : s + zlen rs <= cur -> deliver collect (number s rs) cur got = (inr cur, got).
Proof.
  revert s. induction rs as [|r rs IH]; intros s Hs; [done|]. cbn [number deliver].
  rewrite (proj2 (Z.ltb_ge _ _)) by (revert Hs; len). apply IH. revert Hs. len.
Qed.

Lemma deliver_new rs s got :
  deliver collect (number s rs) s got = (inr (s + zlen rs), got ++ (view_of <$> number s rs)).
Proof.
  revert s got. induction rs as [|r rs IH]; intros s got.
  - cbn. by rewrite Z.add_0_r, app_nil_r.
  - cbn [number deliver]. rewrite (proj2 (Z.ltb_lt s (s + 1))) by lia. unfold mbind, M_bind, collect at 1.
    rewrite IH, <-app_assoc. cbn [fmap list_fmap app]. do 2 f_equal. len.
Qed.

Section rounds.
Context `{AesGcmLaws}.

(** One round: some operations on the log, then a push of what is new. *)
Definition sync_round (os : list wal_op) : M (Wal * (Z * list WalEntry)) unit := fun '(w, (last, got)) =>
  match run_ops os w with
  | (inl e, w') => (inl e, (w', (last, got)))
  | (inr _, w') =>
      let '(res, s) := rt_PushSync collect
        (MkSr true (wc_db_path (w_conf w')) (wc_shard_id (w_conf w')) last (w_env w') (Some got)) in
      (res, (set_fs (sy_fs s) w', (sy_last_synced_lsn s, default [] (sy_receiver s))))
  end.

Fixpoint sync_rounds (rounds : list (list wal_op)) : M (Wal * (Z * list WalEntry)) unit :=
  match rounds with
  | [] => mret tt
  | os :: rounds => sync_round os ;; sync_rounds rounds
  end.

Lemma sync_rounds_snoc rounds os x : sync_rounds (rounds ++ [os]) x = (sync_rounds rounds ;; sync_round os) x.
Proof.
  revert x. induction rounds as [|r rounds IH]; intros x; cbn [app sync_rounds].
  - unfold mbind, M_bind, mret, M_ret. by destruct (sync_round os x) as [[?|[]] ?].
  - rewrite mbind_assoc. unfold mbind at 1 2, M_bind at 1 2. destruct (sync_round r x) as [[?|?] ?]; [done|apply IH].
Qed.

Lemma run_ops_app os1 os2 w : run_ops (os1 ++ os2) w = (run_ops os1 ;; run_ops os2) w.
Proof.
  revert w. induction os1 as [|o os1 IH]; intros w; cbn [app run_ops]; [done|].
  rewrite mbind_assoc. unfold mbind at 1 2, M_bind at 1 2. destruct (run_op o w) as [[?|?] ?]; [done|apply IH].
Qed.

(** A push after the records [old] have been sent sends the records [new]. *)
Lemma push_new_records w segs es old new news got :
  wal_inv 0 0 w segs es -> wc_encryption_enabled (w_conf w) = false -> Forall sync_ok (old ++ new) ->
  log_entries (segs ++ [(es, [])]) = news -> untag <$> news = number 0 (old ++ new) ->
  rt_PushSync collect (MkSr true (wc_db_path (w_conf w)) (wc_shard_id (w_conf w)) (zlen old) (w_env w) (Some got)) =
  (inr tt, MkSr true (wc_db_path (w_conf w)) (wc_shard_id (w_conf w)) (zlen (old ++ new)) (w_env w)
             (Some (got ++ (view_of <$> number (zlen old) new)))).
Proof.
  intros Hinv Henc Hs Hlog Hu. destruct (w_env w) as [fm fl] eqn:Hw.
  pose proof (wi_faults _ _ _ _ _ Hinv) as Hfl. pose proof (wi_disk _ _ _ _ _ Hinv) as Hd. rewrite Hw in Hfl, Hd. cbn in Hfl, Hd.
  subst fl. unfold rt_PushSync. rewrite (mbind_ok mget _ _ _ _ eq_refl). rewrite mbind_guard_true by done.
  unfold HandleSync. cbn [sy_receiver sy_data_dir sy_runtime_id sy_last_synced_lsn sy_fs sy_started].
  rewrite (push_since_deliver collect (w_conf w) fm (segs ++ [(es, [])])); [|done|done|].
  - rewrite Hlog, Hu, number_app, Z.add_0_l. unfold beside. rewrite deliver_app. unfold mbind, M_bind.
    rewrite deliver_old by lia. rewrite deliver_new. do 3 f_equal. len.
  - rewrite Hlog. apply Forall_forall. intros e He. apply (proj1 (Forall_forall _ _) Hs).
    apply (number_rec 0 _ (untag e)). rewrite <-Hu. by apply list_elem_of_fmap_2.
Qed.

Lemma sync_rounds_spec ns ng w rounds :
  wal_inv ns ng w [] [] -> w_seq w = 0 -> wc_encryption_enabled (w_conf w) = false ->
  zlen (mjoin rounds ≫= op_recs) <= ns -> zlen (mjoin rounds ≫= op_recs) <= ng ->
  Forall op_ok (mjoin rounds) -> Forall sync_ok (mjoin rounds ≫= op_recs) ->
  exists w', sync_rounds rounds (w, (0, [])) =
      (inr tt, (w', (zlen (mjoin rounds ≫= op_recs), view_of <$> number 0 (mjoin rounds ≫= op_recs)))) /\
    run_ops (mjoin rounds) w = (inr tt, w').
Proof.
  intros Hinv Hseq Henc. induction rounds as [|os rounds IH] using rev_ind; intros Hns Hng Hok Hs.
  - exists w. done.
  - rewrite join_app in *. cbn [mjoin list_join] in *. rewrite app_nil_r in *.
    destruct (run_ops_spec (mjoin rounds ++ os) ns ng w [] []) as (w2 & segs & es & news & E & Hinv2 & Hu & Hlog & Hc & _);
      [done|done|done|done|unfold aes_available; by rewrite Henc|].
    rewrite bind_app in *. set (old := mjoin rounds ≫= op_recs) in *. set (new := os ≫= op_recs) in *.
    apply Forall_app in Hok as [Hok1 _]. pose proof Hs as [Hs1 _]%Forall_app.
    destruct IH as (w1 & E1 & Er); [revert Hns; len|revert Hng; len|done|done|].
    rewrite sync_rounds_snoc, (mbind_ok _ _ _ _ _ E1). exists w2. split; [|done].
    rewrite run_ops_app, (mbind_ok _ _ _ _ _ Er) in E. unfold sync_round. rewrite E.
    rewrite Hseq in Hu.
    rewrite (push_new_records w2 segs es old new news); [|done|by rewrite Hc|done|exact Hlog|exact Hu].
    cbn [sy_fs sy_last_synced_lsn sy_receiver default]. rewrite set_fs_same by done.
    by rewrite number_app, fmap_app, Z.add_0_l.
Qed.
End rounds.

(** ** The theorems *)

Section claims.
Context `{AesGcmLaws}.

(** Streaming the segment files of an unencrypted log, torn tails included,
    hands any receiver exactly the records above the given number, in log
    order and across segments, stops at the first call the receiver refuses
    with its status, and reports the number of the last record handed over. *)
Theorem sync_delivers_log {R} (Receive : WalEntry -> M R unit) c fm segs last x :
  wc_encryption_enabled c = false -> log_on_disk c fm segs -> Forall (fun e => sync_ok (en_rec e)) (log_entries segs) ->
  PushSince Receive (MkWs (wc_db_path c) (wc_shard_id c)) last (MkFs fm [], x) =
  beside (MkFs fm []) (deliver Receive (untag <$> log_entries segs) last) x.
Proof. apply push_since_deliver. Qed.

End claims.

(** ** Concrete runs *)

Definition stream_aes : AesGcm := {| aes_Encrypt _ _ p := inr (p, replicate 16 Byte.x00); aes_Decrypt _ _ c _ := inr c |}.
Lemma stream_aes_laws : AesGcmLaws (H := stream_aes).
Proof. split; intros k n p c t E; cbn in *; by injection E as <- <-. Qed.
Definition stream_conf : WalConf := MkWalConf "db" 3 200 kAlways false [].
Definition stream_wal : Wal := MkWal (MkFs ∅ []) stream_conf 0 0 0 0 0 None.
Definition stream_ops : list (list wal_op) :=
  [[OpRec (RPut 7 [1; 2] md_default); OpBatch [(8, [3]); (9, [4])]]; []; [OpRec (RDel 7); OpRec (RRaw kRawKV (bstr "k") (bstr "v"))]].

Lemma stream_disk : @log_on_disk stream_aes stream_conf ∅ [].
Proof. split; [intros i es tail Hi; by rewrite lookup_nil in Hi|done]. Qed.
Lemma stream_ops_ok : Forall op_ok (mjoin stream_ops).
Proof. repeat constructor; cbn; unfold is_u64, is_u32; try lia; vm_compute; try done; naive_solver. Qed.


Definition stream_entry : entry := MkEntry 4 (RDel 5) (plain_del 4 5).
Definition stream_file : bytes := seg_bytes [stream_entry] ++ take 13 (frame (plain_del 5 6)).
Definition stream_files : gmap path bytes := {[ SegmentPath stream_conf 0 := stream_file ]}.

Lemma stream_files_disk : @log_on_disk stream_aes stream_conf stream_files [([stream_entry], take 13 (frame (plain_del 5 6)))].
Proof.
  unfold stream_files. split; [|by rewrite lookup_singleton_ne]. intros [|i] es tl Hi; [|by destruct i]. injection Hi as <- <-.
  rewrite lookup_singleton_eq. split_and!; [done| |].
  - repeat constructor; done.
  - right. exists (plain_del 5 6), 13%nat. split; [done|]. split; [vm_compute; lia|done].
Qed.

Lemma sync_delivers_log_witness :
  PushSince mock_Receive (MkWs "db" 3) 2 (MkFs stream_files [], 0) = (inr 4, (MkFs stream_files [], 4)).
Proof.
  exact (@sync_delivers_log stream_aes stream_aes_laws Z mock_Receive stream_conf stream_files _ 2 0
    eq_refl stream_files_disk ltac:(repeat constructor)).
Defined.

(** A put with a tenant and a source id: the streamer takes the source id for
    the length of the tenant and hands over bytes of other fields. *)
Lemma sync_garbles_tenant :
  let m := MkMeta (bstr "acme") [] [] 4 0 0 [] [] 0 0 in
  let body := plain_put 1 7 [5] m ++ le_split 4 0 in
  match decode_entry (zlen body) body with inr e => we_tenant e = replicate 4 Byte.x00 | inl _ => False end /\
  decode_entry (zlen body) (plain_put 1 7 [5] (MkMeta (bstr "acme") [] [] 4000 0 0 [] [] 0 0) ++ le_split 4 0) = inl past_end.
Proof. vm_compute. done. Qed.

(** Resetting the log restarts its numbers, so the records written after a
    reset are not sent until they pass the number reached before it. *)
Lemma sync_stalls_after_reset :
  let run m (w : Wal) := (m w).2 in
  let w := run (wal_Reset ;; @run_ops stream_aes [OpRec (RDel 9); OpRec (RDel 8)])
             (run (wal_Open ;; @run_ops stream_aes [OpRec (RDel 7); OpRec (RDel 6)]) stream_wal) in
  PushSince collect (MkWs "db" 3) 2 (w_env w, []) = (inr 2, (w_env w, [])) /\
  (PushSince collect (MkWs "db" 3) 0 (w_env w, [])).1 = inr 2.
Proof. vm_compute. done. Qed.
