(* ===== verification/WalGraph.v ===== *)
(** * Replaying a log into the graph

    [Wal::ReplayGraphInto] on a log whose segments hold complete records and
    torn tails: every raw record is handed to the graph in order, the other
    records only move the sequence number. *)
From S2P Require Import Prelude Crc32c Env Types Wal WalCodec WalLog.

Open Scope Z_scope.

Section graph.
Context `{AesGcmLaws} {T : Type} `{GraphSink T}.

(** The effect of a record on the graph. *)
Definition apply_graph (r : wal_rec) (t : T) : T :=
  match r with
  | RRaw op k _ => if op =? kRawKV then sink_ReplayEntry k t else t
  | _ => t
  end.

Definition replay_graph_one (seq : Z) (r : wal_rec) : M (Wal * T) unit :=
  mmodify (fun s => (s.1, apply_graph r s.2)) ;; note_seq seq.

Fixpoint replay_graph_entries (es : list entry) : M (Wal * T) unit :=
  match es with
  | [] => mret tt
  | e :: es => replay_graph_one (en_seq e) (en_rec e) ;; replay_graph_entries es
  end.

Lemma replay_graph_record_plain seq r s :
  is_u64 seq -> rec_ok r -> replay_graph_record (plain_rec seq r) s = replay_graph_one seq r s.
Proof.
  intros Hseq [Hsz Hok]. unfold replay_graph_record, replay_graph_one. destruct r as [id v m|id|op k v]; cbn [plain_rec] in *.
  - unfold plain_put. rewrite rp_op_prefix, rp_seq_prefix by (try done; by case_bool_decide).
    case_bool_decide; by destruct s.
  - unfold plain_del. rewrite <-(app_nil_r (record_prefix seq kDel id 0)). rewrite rp_op_prefix, rp_seq_prefix by done.
    by destruct s.
  - destruct Hok as (Hop & Hk & Hv). pose proof (zlen_nonneg k). pose proof (zlen_nonneg v).
    unfold plain_raw. rewrite rp_op_prefix, rp_seq_prefix by (try done; by destruct Hop as [->|[->| ->]]).
    cbn [apply_graph]. destruct (Z.eqb_spec op kRawKV); cbn [andb]; [|by destruct s].
    rewrite !u32_id by (split; lia). rewrite !(take_ge k), !(take_ge v) by len.
    set (payload := record_prefix seq op 0 0 ++ le_split 4 (zlen k) ++ le_split 4 (zlen v) ++ k ++ v).
    assert (zlen payload = 29 + zlen k + zlen v) as Hl by (subst payload; len).
    assert (le_read 4 21 payload = zlen k) as El.
    { subst payload. rewrite le_read_app_r by apply length_record_prefix. apply le_read_app_l. split; lia. }
    assert (take (Z.to_nat (zlen k)) (drop 29 payload) = k) as Ek.
    { subst payload. rewrite !app_assoc, <-app_assoc, drop_app_len, take_app_len by len. done. }
    rewrite Hl, El, Ek. rewrite !(proj2 (Z.leb_le _ _)) by (unfold rp_size; lia). by destruct s.
Qed.

Lemma replay_graph_body_frame c seq r body s :
  w_conf s.1 = c -> is_u64 seq -> rec_ok r -> sealed c seq r body ->
  replay_graph_body (zlen body + 4) (body ++ le_split 4 (Crc32c body 0)) s = replay_graph_one seq r s.
Proof.
  intros Hc Hseq Hok Hseal. pose proof (sealed_length _ _ _ _ Hseal) as Hl.
  pose proof (plain_rec_min seq r) as Hmin. pose proof (plain_rec_min 0 r) as Hmin0. unfold replay_graph_body.
  rewrite (proj2 (Z.ltb_ge _ _)) by (unfold rp_size; lia).
  replace (Z.to_nat (zlen body + 4 - 4)) with (length body) by len.
  rewrite take_app_len by done. rewrite mbind_guard_true.
  2:{ apply Z.eqb_eq. rewrite le_read_app_r by done. rewrite <-(app_nil_r (le_split 4 _)).
      apply le_read_app_l, Crc32c_range. }
  rewrite (mbind_ok mget _ _ _ _ eq_refl). rewrite Hc. unfold sealed in Hseal.
  assert ((if zlen (plain_rec seq r) <? rp_size then mret tt else replay_graph_record (plain_rec seq r)) s = replay_graph_one seq r s) as E.
  { rewrite (proj2 (Z.ltb_ge _ _)) by (unfold rp_size; lia). by apply replay_graph_record_plain. }
  destruct (wc_encryption_enabled c).
  - destruct Hseal as (nonce & cipher & tag & Hn & Henc & ->). destruct (aes_lengths _ _ _ _ _ Henc) as [E1 E2].
    rewrite (proj2 (Z.ltb_ge _ _)) by len. by rewrite (unseal_sealed c seq r).
  - by subst body.
Qed.

Lemma replay_graph_one_env seq r s s' :
  replay_graph_one seq r s = (inr tt, s') -> w_env s'.1 = w_env s.1 /\ w_conf s'.1 = w_conf s.1.
Proof.
  unfold replay_graph_one, note_seq, mmodify, mbind, M_bind. intros E. simplify_eq. cbn. by destruct (_ <? _).
Qed.

(** [read_frame] on the remainder of a file: nothing complete is left. *)
Lemma replay_graph_frames_torn fuel p pre tail fm w t :
  torn tail -> fm !! p = Some (pre ++ tail) -> w_env w = MkFs fm [] -> (0 < fuel)%nat ->
  replay_graph_frames fuel p (zlen (pre ++ tail)) (zlen pre) (w, t) = (inr tt, (w, t)).
Proof.
  intros Htorn Hp Hw Hf. destruct fuel as [|fuel]; [lia|]. cbn [replay_graph_frames].
  destruct (Z.ltb_spec (zlen (pre ++ tail)) (zlen pre + 4)) as [|Hge]; [done|].
  unfold on_fs, mbind at 1, M_bind at 1. cbn [get_fs pair_HasFs fst Wal_HasFs]. rewrite Hw.
  rewrite (read_frame_torn p pre tail fm Htorn Hp Hge). by destruct w; cbn in Hw; subst.
Qed.

Lemma replay_graph_frames_spec c fuel p pre es tail fm w t :
  Forall (entry_ok c) es -> torn tail -> fm !! p = Some (pre ++ frames es ++ tail) ->
  w_env w = MkFs fm [] -> w_conf w = c -> (length es < fuel)%nat ->
  replay_graph_frames fuel p (zlen (pre ++ frames es ++ tail)) (zlen pre) (w, t) = replay_graph_entries es (w, t).
Proof.
  intros Hok Htorn. revert fuel pre w t. induction Hok as [|e es [Hseq Hrec Hseal] _ IH]; intros fuel pre w t Hp Hw Hc Hf.
  - by apply (replay_graph_frames_torn fuel p pre tail fm).
  - destruct fuel as [|fuel]; cbn [length] in Hf; [lia|]. cbn [replay_graph_frames replay_graph_entries].
    rewrite frames_cons in *. rewrite <-app_assoc in *.
    pose proof (sealed_length _ _ _ _ Hseal) as Hl. destruct (Hrec) as [Hsz _].
    destruct (Z.ltb_spec (zlen (pre ++ frame (en_body e) ++ frames es ++ tail)) (zlen pre + 4)); [len|].
    unfold on_fs, mbind at 1, M_bind at 1. cbn [get_fs pair_HasFs fst Wal_HasFs]. rewrite Hw.
    rewrite read_frame_at by first [done|lia].
    replace (set_fs (MkFs fm []) (w, t)) with (w, t) by (by destruct w; cbn in Hw; subst).
    unfold mbind, M_bind. rewrite (replay_graph_body_frame c _ _ _ (w, t) Hc Hseq Hrec Hseal).
    destruct (replay_graph_one (en_seq e) (en_rec e) (w, t)) as [[err|[]] [w' t']] eqn:E; [done|].
    apply replay_graph_one_env in E as [E1 E2]. cbn in E1, E2.
    replace (zlen pre + 4 + (zlen (en_body e) + 4)) with (zlen (pre ++ frame (en_body e))) by len.
    rewrite app_assoc in Hp |- *. apply IH; [done|congruence|congruence|lia].
Qed.

Lemma replay_graph_segment_spec c p es tail fm w t :
  Forall (entry_ok c) es -> torn tail -> fm !! p = Some (seg_bytes es ++ tail) ->
  w_env w = MkFs fm [] -> w_conf w = c ->
  replay_graph_segment p (w, t) = replay_graph_entries es (w, t).
Proof.
  intros Hok Htorn Hp Hw Hc. unfold replay_graph_segment, on_fs, mbind, M_bind, try_.
  assert (forall f, set_fs f (w, t) = (set_fs f w, t)) as Es by done.
  assert (set_fs (MkFs fm []) w = w) as Ew by (by destruct w; cbn in Hw; subst).
  cbn [get_fs pair_HasFs fst Wal_HasFs]. rewrite Hw, (NewRandomAccessFile_ok p _ fm Hp), Es, Ew.
  cbn [get_fs pair_HasFs fst Wal_HasFs]. rewrite Hw, (GetFileSize_ok p _ fm Hp), Es, Ew.
  cbn [get_fs pair_HasFs fst Wal_HasFs]. rewrite Hw, (replay_start_ok p es tail fm Hp), Es, Ew.
  unfold seg_bytes in *. rewrite <-app_assoc in *. change 16 with (zlen wal_header).
  apply (replay_graph_frames_spec c _ p wal_header es tail fm); try done.
  pose proof (length_frames_ge es). len.
Qed.

Lemma replay_graph_entries_env es s s' :
  replay_graph_entries es s = (inr tt, s') -> w_env s'.1 = w_env s.1 /\ w_conf s'.1 = w_conf s.1.
Proof.
  revert s. induction es as [|e es IH]; cbn [replay_graph_entries]; intros s E; [by injection E as <-|].
  apply mbind_inv in E as ([] & s1 & E1%replay_graph_one_env & E2%IH). destruct E1, E2. split; congruence.
Qed.

Lemma replay_graph_entries_app es1 es2 s :
  replay_graph_entries (es1 ++ es2) s = (replay_graph_entries es1 ;; replay_graph_entries es2) s.
Proof.
  revert s. induction es1 as [|e es1 IH]; intros s; [done|].
  cbn [app replay_graph_entries]. rewrite mbind_assoc. unfold mbind, M_bind.
  destruct (replay_graph_one _ _ s) as [[err|[]] s1]; [done|]. apply IH.
Qed.

Lemma replay_graph_generations_spec c segs fuel g fm w t :
  (forall i es tail, segs !! i = Some (es, tail) ->
    fm !! SegmentPath c (g + Z.of_nat i) = Some (seg_bytes es ++ tail) /\ Forall (entry_ok c) es /\ torn tail) ->
  fm !! SegmentPath c (g + Z.of_nat (length segs)) = None ->
  w_env w = MkFs fm [] -> w_conf w = c -> (length segs < fuel)%nat ->
  replay_graph_generations fuel g (w, t) = replay_graph_entries (log_entries segs) (w, t).
Proof.
  revert fuel g w t. induction segs as [|[es tail] segs IH]; intros fuel g w t Hseg Hend Hw Hc Hf;
    (destruct fuel as [|fuel]; cbn [length] in Hf; [lia|]); cbn [replay_graph_generations];
    unfold mbind at 1 2, M_bind at 1 2, mget, on_fs;
    assert (set_fs (MkFs fm []) (w, t) = (w, t)) as Ew by (by destruct w; cbn in Hw; subst);
    cbn [get_fs pair_HasFs fst Wal_HasFs]; rewrite Hw, Hc, FileExists_ok_eq, Ew.
  - rewrite Z.add_0_r in Hend. by rewrite Hend.
  - destruct (Hseg 0%nat es tail eq_refl) as (Hp & Hok & Ht). rewrite Z.add_0_r in Hp.
    rewrite bool_decide_eq_true_2 by by rewrite Hp.
    change (log_entries ((es, tail) :: segs)) with (es ++ log_entries segs).
    rewrite replay_graph_entries_app. unfold mbind, M_bind.
    rewrite (replay_graph_segment_spec c _ es tail fm w t Hok Ht Hp Hw Hc).
    destruct (replay_graph_entries es (w, t)) as [[err|[]] [w' t']] eqn:E; [done|].
    apply replay_graph_entries_env in E as [E1 E2]. cbn in E1, E2.
    apply IH; [|rewrite <-Hend; cbn [length]; do 2 f_equal; lia|congruence|congruence|lia].
    intros i es' tail' Hi. destruct (Hseg (S i) es' tail' Hi) as (? & ? & ?).
    split_and!; [|done..]. by replace (g + 1 + Z.of_nat i) with (g + Z.of_nat (S i)) by lia.
Qed.

(** The records a replay hands to the graph. *)
Definition graph_keys (rs : list wal_rec) (t : T) : T := fold_left (fun t r => apply_graph r t) rs t.

Lemma replay_graph_entries_sink es w t :
  exists w', replay_graph_entries es (w, t) = (inr tt, (w', graph_keys (en_rec <$> es) t)).
Proof.
  revert w t. induction es as [|e es IH]; intros w t; [by exists w|]. cbn [replay_graph_entries].
  unfold replay_graph_one, note_seq. unfold mbind, M_bind, mmodify. cbn [fst snd].
  destruct (IH (if w_seq w <? en_seq e then set_seq (en_seq e) w else w) (apply_graph (en_rec e) t)) as [w' E].
  exists w'. exact E.
Qed.

Lemma replay_graph_into_spec segs fm w t :
  log_on_disk (w_conf w) fm segs -> w_env w = MkFs fm [] ->
  exists w', wal_ReplayGraphInto (w, t) = (inr tt, (w', graph_keys (en_rec <$> log_entries segs) t)).
Proof.
  intros [Hseg Hend] Hw. unfold wal_ReplayGraphInto. rewrite (mbind_ok mget _ _ _ _ eq_refl). cbn [fst].
  rewrite (replay_graph_generations_spec (w_conf w) segs _ 0 fm); try done.
  - apply replay_graph_entries_sink.
  - unfold gen_fuel. rewrite Hw. cbn [fs_files].
    assert (length segs <= size fm)%nat; [|lia].
    eapply segments_le_size. intros i [[es tail] Hi]%lookup_lt_is_Some.
    destruct (Hseg i es tail Hi) as [-> _]. done.
Qed.
End graph.
