(* ===== verification/Graph.v ===== *)
(** * The graph membrane (src/core/graph/graph_membrane_impl.h, graph_key.h)

    Adjacency lists in memory, every change logged first as a raw record of the
    write-ahead log whose key is the big-endian encoding of the vertex or edge.
    [WarmUp] replays the log.

    The theorems: keys decode to what was encoded; after any sequence of
    operations, replaying the log into an empty graph gives the same adjacency
    lists in the same order, and the same byte count; the byte count is exact
    as long as edges leave known vertices. *)
From S2P Require Import Prelude Env Types Wal WalCodec WalLog WalTheorems WalGraph.

Open Scope Z_scope.

(** include/pomai/graph.h:17-22 [Neighbor]. *)
Record Neighbor : Type := MkNeighbor { nb_id : Z; nb_type : Z; nb_rank : Z }.

#[global] Instance Neighbor_eq_dec : EqDecision Neighbor.
Proof. solve_decision. Defined.

(** [htobe64] followed by a copy of the bytes, and back. *)
Definition be_split (n : nat) (x : Z) : bytes := reverse (le_split n x).
Definition be_read (n off : nat) (b : bytes) : Z := le_combine (reverse (take n (drop off b))).

(** src/core/graph/graph_key.h:32-41 [GraphKey::EncodeVertex]. *)
Definition EncodeVertex (vid tag : Z) : bytes := bstr "V" ++ be_split 8 vid ++ be_split 4 tag.

(** src/core/graph/graph_key.h:47-60 [GraphKey::EncodeEdge]. *)
Definition EncodeEdge (src type rank dst : Z) : bytes :=
  bstr "E" ++ be_split 8 src ++ be_split 4 type ++ be_split 4 rank ++ be_split 8 dst.

(** src/core/graph/graph_membrane_impl.h:54-56 [GraphMembraneImpl::DeleteVertex]. *)
Definition tombstone_vertex (id : Z) : bytes := bstr "T" ++ be_split 8 id.

(** src/core/graph/graph_membrane_impl.h:70-78 [GraphMembraneImpl::DeleteEdge]. *)
Definition tombstone_edge (src dst type : Z) : bytes :=
  bstr "X" ++ be_split 8 src ++ be_split 4 type ++ be_split 4 0 ++ be_split 8 dst.

(** src/core/graph/graph_membrane_impl.h:197-199 [GraphMembraneImpl]. The members other
    than the log. *)
Record GraphMem : Type := MkGraph { gm_adj : gmap Z (list Neighbor); gm_bytes_used : Z }.

(** [sizeof(VertexId) + sizeof(std::vector<Neighbor>)] and [sizeof(Neighbor)] on
    the 64-bit ABI. *)
Definition vertex_bytes : Z := 8 + 24.
Definition neighbor_bytes : Z := 16.

(** src/core/graph/graph_membrane_impl.h:35-38 [GraphMembraneImpl::AddVertex]. *)
Definition mem_add_vertex (id : Z) (g : GraphMem) : GraphMem :=
  match gm_adj g !! id with
  | None => MkGraph (<[id := []]> (gm_adj g)) (u64 (gm_bytes_used g + vertex_bytes))
  | Some _ => g
  end.

(** src/core/graph/graph_membrane_impl.h:46-48 [GraphMembraneImpl::AddEdge]. *)
Definition mem_add_edge (src : Z) (n : Neighbor) (g : GraphMem) : GraphMem :=
  MkGraph (<[src := default [] (gm_adj g !! src) ++ [n]]> (gm_adj g)) (u64 (gm_bytes_used g + neighbor_bytes)).

(** src/core/graph/graph_membrane_impl.h:59-64 [GraphMembraneImpl::DeleteVertex]. *)
Definition mem_delete_vertex (id : Z) (g : GraphMem) : GraphMem :=
  match gm_adj g !! id with
  | Some v => MkGraph (delete id (gm_adj g)) (u64 (gm_bytes_used g - (vertex_bytes + zlen v * neighbor_bytes)))
  | None => g
  end.

Definition edge_is (dst type : Z) (n : Neighbor) : Prop := nb_id n = dst /\ nb_type n = type.
#[global] Instance edge_is_dec dst type n : Decision (edge_is dst type n).
Proof. unfold edge_is. apply _. Defined.

(** src/core/graph/graph_membrane_impl.h:81-89 [GraphMembraneImpl::DeleteEdge]. *)
Definition mem_delete_edge (src dst type : Z) (g : GraphMem) : GraphMem :=
  match gm_adj g !! src with
  | Some v =>
      let v' := filter (fun n => ~ edge_is dst type n) v in
      MkGraph (<[src := v']> (gm_adj g)) (u64 (gm_bytes_used g - (zlen v - zlen v') * neighbor_bytes))
  | None => g
  end.

(** src/core/graph/graph_membrane_impl.h:127-186 [GraphMembraneImpl::ReplayEntry]. *)
Definition ReplayEntry (key : bytes) (g : GraphMem) : GraphMem :=
  match key with
  | [] => g
  | prefix :: _ =>
      if bool_decide ([prefix] = bstr "V") && (13 <=? zlen key) then mem_add_vertex (be_read 8 1 key) g
      else if bool_decide ([prefix] = bstr "E") && (25 <=? zlen key) then
        mem_add_edge (be_read 8 1 key) (MkNeighbor (be_read 8 17 key) (be_read 4 9 key) (be_read 4 13 key)) g
      else if bool_decide ([prefix] = bstr "T") && (9 <=? zlen key) then mem_delete_vertex (be_read 8 1 key) g
      else if bool_decide ([prefix] = bstr "X") && (25 <=? zlen key) then
        mem_delete_edge (be_read 8 1 key) (be_read 8 17 key) (be_read 4 9 key) g
      else g
  end.

#[global] Instance graph_sink : GraphSink GraphMem := {| sink_ReplayEntry := ReplayEntry |}.

(** ** Operations: the graph and its log *)

Section graph.
Context `{AesGcm}.

Definition GraphMembraneImpl : Type := Wal * GraphMem.

Definition on_graph_wal {A} (m : M Wal A) : M GraphMembraneImpl A := fun s =>
  let '(r, w) := m s.1 in (r, (w, s.2)).
Definition on_graph_mem (f : GraphMem -> GraphMem) : M GraphMembraneImpl unit := mmodify (fun s => (s.1, f s.2)).

(** src/core/graph/graph_membrane_impl.h:31-40 [GraphMembraneImpl::AddVertex]. *)
Definition AddVertex (id tag : Z) (meta : Metadata) : M GraphMembraneImpl unit :=
  on_graph_wal (wal_AppendRawKV 4 (EncodeVertex id tag) (md_tenant meta)) ;;
  on_graph_mem (mem_add_vertex id).

(** src/core/graph/graph_membrane_impl.h:42-50 [GraphMembraneImpl::AddEdge]. *)
Definition AddEdge (src dst type rank : Z) (meta : Metadata) : M GraphMembraneImpl unit :=
  on_graph_wal (wal_AppendRawKV 4 (EncodeEdge src type rank dst) (md_tenant meta)) ;;
  on_graph_mem (mem_add_edge src (MkNeighbor dst type rank)).

(** src/core/graph/graph_membrane_impl.h:52-66 [GraphMembraneImpl::DeleteVertex]. *)
Definition DeleteVertex (id : Z) : M GraphMembraneImpl unit :=
  on_graph_wal (wal_AppendRawKV 4 (tombstone_vertex id) []) ;;
  on_graph_mem (mem_delete_vertex id).

(** src/core/graph/graph_membrane_impl.h:68-91 [GraphMembraneImpl::DeleteEdge]. *)
Definition DeleteEdge (src dst type : Z) : M GraphMembraneImpl unit :=
  on_graph_wal (wal_AppendRawKV 4 (tombstone_edge src dst type) []) ;;
  on_graph_mem (mem_delete_edge src dst type).

(** src/core/graph/graph_membrane_impl.h:93-99 [GraphMembraneImpl::GetNeighbors]. [out]
    keeps its contents when the vertex is unknown. *)
Definition GetNeighbors (src : Z) (out : list Neighbor) (g : GraphMem) : list Neighbor :=
  default out (gm_adj g !! src).

(** src/core/graph/graph_membrane_impl.h:101-109 [GraphMembraneImpl::GetNeighbors]. *)
Definition GetNeighbors_typed (src type : Z) (out : list Neighbor) (g : GraphMem) : list Neighbor :=
  out ++ filter (fun n => nb_type n = type) (default [] (gm_adj g !! src)).

(** src/core/graph/graph_membrane_impl.h:121-121 [GraphMembraneImpl::WarmUp]. *)
Definition WarmUp : M GraphMembraneImpl unit := wal_ReplayGraphInto.
End graph.

(** ** Keys *)

Lemma length_be_split n x : length (be_split n x) = n.
Proof. unfold be_split. len. Qed.
Lemma length_prefix a : length (bstr (String a EmptyString)) = 1%nat.
Proof. done. Qed.
#[export] Hint Rewrite length_be_split length_prefix : len.

Lemma be_read_at n off pre x rest :
  length pre = off -> 0 <= x < 2 ^ (Z.of_nat n * 8) -> be_read n off (pre ++ be_split n x ++ rest) = x.
Proof.
  intros Hoff Hx. unfold be_read. rewrite drop_app_len, take_app_len by first [done|apply length_be_split].
  unfold be_split. rewrite reverse_involutive. by apply le_combine_split_id.
Qed.

Inductive GraphOp : Type :=
  | GAddVertex (id tag : Z) (meta : Metadata)
  | GAddEdge (src dst type rank : Z) (meta : Metadata)
  | GDeleteVertex (id : Z)
  | GDeleteEdge (src dst type : Z).

(** The raw key an operation logs, and what it does to the memory. *)
Definition op_key (op : GraphOp) : bytes :=
  match op with
  | GAddVertex id tag _ => EncodeVertex id tag
  | GAddEdge src dst type rank _ => EncodeEdge src type rank dst
  | GDeleteVertex id => tombstone_vertex id
  | GDeleteEdge src dst type => tombstone_edge src dst type
  end.

Definition op_effect (op : GraphOp) : GraphMem -> GraphMem :=
  match op with
  | GAddVertex id _ _ => mem_add_vertex id
  | GAddEdge src dst type rank _ => mem_add_edge src (MkNeighbor dst type rank)
  | GDeleteVertex id => mem_delete_vertex id
  | GDeleteEdge src dst type => mem_delete_edge src dst type
  end.

Definition op_value (op : GraphOp) : bytes :=
  match op with GAddVertex _ _ meta | GAddEdge _ _ _ _ meta => md_tenant meta | _ => [] end.

(** Identifiers within their widths, and a tenant a record can hold. *)
Definition graph_op_ok (op : GraphOp) : Prop :=
  zlen (op_value op) < 2 ^ 31 /\
  match op with
  | GAddVertex id tag _ => is_u64 id /\ is_u32 tag
  | GAddEdge src dst type rank _ => is_u64 src /\ is_u64 dst /\ is_u32 type /\ is_u32 rank
  | GDeleteVertex id => is_u64 id
  | GDeleteEdge src dst type => is_u64 src /\ is_u64 dst /\ is_u32 type
  end.

Lemma ReplayEntry_key op g : graph_op_ok op -> ReplayEntry (op_key op) g = op_effect op g.
Proof.
  intros [_ Hok]. destruct op as [id tag m|src dst type rank m|id|src dst type]; cbn [op_key op_effect].
  - destruct Hok as [Hid Htag]. unfold EncodeVertex.
    assert (be_read 8 1 (bstr "V" ++ be_split 8 id ++ be_split 4 tag) = id) as E by by apply be_read_at.
    assert (zlen (bstr "V" ++ be_split 8 id ++ be_split 4 tag) = 13) as El by len.
    unfold ReplayEntry. rewrite E, El. done.
  - destruct Hok as (Hsrc & Hdst & Htype & Hrank). unfold EncodeEdge.
    set (key := bstr "E" ++ be_split 8 src ++ be_split 4 type ++ be_split 4 rank ++ be_split 8 dst).
    assert (be_read 8 1 key = src) as E1 by by apply be_read_at.
    assert (be_read 4 9 key = type) as E2.
    { subst key. rewrite app_assoc. apply be_read_at; [len|done]. }
    assert (be_read 4 13 key = rank) as E3.
    { subst key. rewrite !app_assoc, <-app_assoc. apply be_read_at; [len|done]. }
    assert (be_read 8 17 key = dst) as E4.
    { subst key. rewrite !app_assoc, <-(app_nil_r (be_split 8 dst)). apply be_read_at; [len|done]. }
    assert (zlen key = 25) as El by (subst key; len).
    unfold ReplayEntry. rewrite El, E1, E2, E3, E4. done.
  - unfold tombstone_vertex.
    assert (be_read 8 1 (bstr "T" ++ be_split 8 id) = id) as E
      by (rewrite <-(app_nil_r (be_split 8 id)); by apply be_read_at).
    assert (zlen (bstr "T" ++ be_split 8 id) = 9) as El by len.
    unfold ReplayEntry. rewrite E, El. done.
  - destruct Hok as (Hsrc & Hdst & Htype). unfold tombstone_edge.
    set (key := bstr "X" ++ be_split 8 src ++ be_split 4 type ++ be_split 4 0 ++ be_split 8 dst).
    assert (be_read 8 1 key = src) as E1 by by apply be_read_at.
    assert (be_read 4 9 key = type) as E2.
    { subst key. rewrite app_assoc. apply be_read_at; [len|done]. }
    assert (be_read 8 17 key = dst) as E4.
    { subst key. rewrite !app_assoc, <-(app_nil_r (be_split 8 dst)). apply be_read_at; [len|done]. }
    assert (zlen key = 25) as El by (subst key; len).
    unfold ReplayEntry. rewrite El, E1, E2, E4. done.
Qed.

(** ** Restarting *)

Section graph_theorems.
Context `{AesGcmLaws}.

Definition graph_op (op : GraphOp) : M GraphMembraneImpl unit :=
  match op with
  | GAddVertex id tag meta => AddVertex id tag meta
  | GAddEdge src dst type rank meta => AddEdge src dst type rank meta
  | GDeleteVertex id => DeleteVertex id
  | GDeleteEdge src dst type => DeleteEdge src dst type
  end.

Fixpoint graph_run (ops : list GraphOp) : M GraphMembraneImpl unit :=
  match ops with
  | [] => mret tt
  | op :: ops => graph_op op ;; graph_run ops
  end.

Definition op_record (op : GraphOp) : wal_rec := RRaw kRawKV (op_key op) (op_value op).

Definition graph_effects (ops : list GraphOp) (g : GraphMem) : GraphMem := fold_left (fun g op => op_effect op g) ops g.

Lemma op_record_ok op : graph_op_ok op -> op_ok (OpRec (op_record op)).
Proof.
  intros [Hv _]. assert (zlen (op_key op) <= 25) as Hk.
  { destruct op; cbn [op_key]; unfold EncodeVertex, EncodeEdge, tombstone_vertex, tombstone_edge; len. }
  pose proof (zlen_nonneg (op_key op)). pose proof (zlen_nonneg (op_value op)).
  split; [|split; [by left|lia]]. unfold op_record. cbn [plain_rec]. unfold plain_raw. rewrite !u32_id by (split; lia). len.
Qed.

Lemma graph_run_spec ops w w' g :
  run_ops (OpRec <$> (op_record <$> ops)) w = (inr tt, w') -> graph_run ops (w, g) = (inr tt, (w', graph_effects ops g)).
Proof.
  revert w g. induction ops as [|op ops IH]; intros w g E; [by injection E as <-|].
  cbn [fmap list_fmap run_ops] in E. apply mbind_inv in E as ([] & w1 & E1 & E2).
  cbn [graph_run graph_effects fold_left]. rewrite (mbind_ok _ _ _ tt (w1, op_effect op g)); [by apply IH|].
  assert (on_graph_wal (wal_AppendRawKV 4 (op_key op) (op_value op)) (w, g) = (inr tt, (w1, g))) as E.
  { unfold on_graph_wal. cbn [fst snd]. cbn [run_op op_record] in E1. unfold kRawKV in E1. by rewrite E1. }
  destruct op; cbn [graph_op op_key op_value] in *;
    unfold AddVertex, AddEdge, DeleteVertex, DeleteEdge; by rewrite (mbind_ok _ _ _ _ _ E).
Qed.

Lemma graph_keys_ops ops g :
  Forall graph_op_ok ops -> graph_keys (op_record <$> ops) g = graph_effects ops g.
Proof.
  intros Hops. revert g. induction Hops as [|op ops Hop Hops IH]; intros g; [done|].
  unfold graph_keys, graph_effects in *. cbn [fmap list_fmap fold_left]. cbn [apply_graph op_record].
  rewrite Z.eqb_refl. cbn [sink_ReplayEntry graph_sink]. rewrite ReplayEntry_key by done. apply IH.
Qed.

(** The graph a log replays to. *)
Definition graph_of (segs : list (list entry * bytes)) : GraphMem := graph_keys (en_rec <$> log_entries segs) (MkGraph ∅ 0).

End graph_theorems.

(** ** The byte count *)

Definition graph_total (m : gmap Z (list Neighbor)) : Z :=
  map_fold (fun _ v n => n + (vertex_bytes + zlen v * neighbor_bytes)) 0 m.

Lemma graph_total_delete id v m :
  m !! id = Some v -> graph_total m = graph_total (delete id m) + (vertex_bytes + zlen v * neighbor_bytes).
Proof. intros E. unfold graph_total at 1. by rewrite (map_fold_delete_L _ _ id v m) by (done || (intros; lia)). Qed.

Lemma graph_total_insert id v m :
  graph_total (<[id := v]> m) = graph_total (delete id m) + (vertex_bytes + zlen v * neighbor_bytes).
Proof.
  rewrite <-insert_delete_eq. unfold graph_total at 1.
  rewrite map_fold_insert_L; [done|intros; lia|apply lookup_delete_eq].
Qed.

Lemma graph_total_nonneg m : 0 <= graph_total m.
Proof.
  unfold graph_total. apply (map_fold_weak_ind (fun b _ => 0 <= b)); [done|].
  intros k v m' n _ Hn. pose proof (zlen_nonneg v). unfold vertex_bytes, neighbor_bytes. lia.
Qed.

(** An edge leaves a vertex that is known. *)
Definition op_known (op : GraphOp) (g : GraphMem) : Prop :=
  match op with GAddEdge src _ _ _ _ => is_Some (gm_adj g !! src) | _ => True end.

(** The byte count is the size of the lists, as long as edges are only added to
    known vertices and the lists fit in memory. *)
Theorem graph_bytes_exact op g :
  gm_bytes_used g = graph_total (gm_adj g) -> graph_total (gm_adj g) + vertex_bytes < 2 ^ 64 -> op_known op g ->
  gm_bytes_used (op_effect op g) = graph_total (gm_adj (op_effect op g)).
Proof.
  intros Hb Hfit Hk. pose proof (graph_total_nonneg (gm_adj g)). unfold vertex_bytes in *.
  destruct op as [id tag m|src dst type rank m|id|src dst type]; cbn [op_effect op_known] in *.
  - unfold mem_add_vertex. destruct (gm_adj g !! id) eqn:E; [done|]. cbn.
    rewrite graph_total_insert, delete_id by done. unfold vertex_bytes, neighbor_bytes.
    rewrite Hb, u64_id by (split; lia). change (zlen (@nil Neighbor)) with 0. lia.
  - destruct Hk as [v E]. unfold mem_add_edge. rewrite E. cbn. rewrite graph_total_insert.
    pose proof (graph_total_delete src v (gm_adj g) E) as Et. pose proof (zlen_nonneg v).
    pose proof (graph_total_nonneg (delete src (gm_adj g))).
    unfold vertex_bytes, neighbor_bytes in *. assert (zlen (v ++ [MkNeighbor dst type rank]) = zlen v + 1) as -> by len.
    rewrite Hb, u64_id by (split; lia). lia.
  - unfold mem_delete_vertex. destruct (gm_adj g !! id) as [v|] eqn:E; [|done]. cbn.
    pose proof (graph_total_delete id v (gm_adj g) E) as Et. pose proof (graph_total_nonneg (delete id (gm_adj g))).
    pose proof (zlen_nonneg v). unfold vertex_bytes, neighbor_bytes in *. rewrite Hb, u64_id by (split; lia). lia.
  - unfold mem_delete_edge. destruct (gm_adj g !! src) as [v|] eqn:E; [|done]. cbn. rewrite graph_total_insert.
    pose proof (graph_total_delete src v (gm_adj g) E) as Et. pose proof (graph_total_nonneg (delete src (gm_adj g))).
    pose proof (length_filter (fun n => ~ edge_is dst type n) v) as Hl. unfold vertex_bytes, neighbor_bytes, zlen in *.
    rewrite Hb, u64_id by (split; lia). lia.
Qed.

(** An edge from an unknown vertex creates the vertex without counting it, and
    deleting the vertex subtracts it: the count wraps around. *)
Theorem graph_bytes_underflow :
  gm_bytes_used (graph_effects [GAddEdge 1 2 0 0 md_default; GDeleteVertex 1] (MkGraph ∅ 0)) = 2 ^ 64 - 32.
Proof. by vm_compute. Qed.

