(* ===== verification/Lexical.v ===== *)
(** * The keyword index of a memtable (src/core/query/lexical_index.cc)

    Tokenisation, postings, document lengths and the document counter.  The
    BM25 scores are computed in double precision and only order the result;
    they and [avg_doc_length_] are not modelled, so [lex_Search] gives the
    documents that receive a score.  [Search] reads [doc_lengths_[id]], which
    inserts a zero length for an unknown id: that write is modelled. *)
From S2P Require Import Prelude.

Open Scope Z_scope.

(** [std::isalnum] and [std::tolower] in the "C" locale. *)
Definition isalnum (c : byte) : bool :=
  let c := byte.unsigned c in
  ((48 <=? c) && (c <=? 57)) || ((65 <=? c) && (c <=? 90)) || ((97 <=? c) && (c <=? 122)).
Definition tolower (c : byte) : byte :=
  let z := byte.unsigned c in
  if (65 <=? z) && (z <=? 90) then byte.of_Z (z + 32) else c.

(** src/core/query/lexical_index.cc:8-18 [LexicalIndex::Tokenize]. The loop with
    [current] as its accumulator. *)
Fixpoint tokenize_loop (text current : bytes) : list bytes :=
  match text with
  | [] => if bool_decide (current = []) then [] else [current]
  | c :: text =>
      if isalnum c then tokenize_loop text (current ++ [tolower c])
      else if bool_decide (current = []) then tokenize_loop text []
      else current :: tokenize_loop text []
  end.

(** src/core/query/lexical_index.cc:7-20 [LexicalIndex::Tokenize]. *)
Definition Tokenize (text : bytes) : list bytes := tokenize_loop text [].

(** src/core/query/lexical_index.h:45-50 [LexicalIndex]. *)
Record LexicalIndex : Type := MkLex {
  lx_inverted : gmap bytes (list (Z * Z));
  lx_doc_lengths : gmap Z Z;
  lx_total_docs : Z
}.

Definition lex_new : LexicalIndex := MkLex ∅ ∅ 0.

(** src/core/query/lexical_index.cc:32-33 [LexicalIndex::Add]. Term frequencies. *)
Definition term_freqs (tokens : list bytes) : gmap bytes Z :=
  fold_left (fun tf t => <[t := default 0 (tf !! t) + 1]> tf) tokens ∅.

(** src/core/query/lexical_index.cc:35-37 [LexicalIndex::Add]. Every word has its
    own list, so the order in which the words are visited does not matter. *)
Definition add_postings (id : Z) (tf : gmap bytes Z) (inv : gmap bytes (list (Z * Z)))
    : gmap bytes (list (Z * Z)) :=
  map_fold (fun word count acc => <[word := default [] (acc !! word) ++ [(id, count)]]> acc) inv tf.

(** src/core/query/lexical_index.cc:22-42 [LexicalIndex::Add]. *)
Definition lex_Add (id : Z) (text : bytes) (x : LexicalIndex) : LexicalIndex :=
  let tokens := Tokenize text in
  if bool_decide (tokens = []) then x else
  let total := if decide (is_Some (lx_doc_lengths x !! id))
               then u64 (lx_total_docs x - 1) else lx_total_docs x in
  MkLex (add_postings id (term_freqs tokens) (lx_inverted x))
        (<[id := u32 (zlen tokens)]> (lx_doc_lengths x)) (u64 (total + 1)).

(** src/core/query/lexical_index.cc:59-64 [LexicalIndex::Search]. The documents
    scored for one query word. *)
Definition word_hits (x : LexicalIndex) (word : bytes) : list Z :=
  (default [] (lx_inverted x !! word)).*1.

(** src/core/query/lexical_index.cc:44-67 [LexicalIndex::Search]. The scored
    documents and the index after the reads of [doc_lengths_]. *)
Definition lex_Search (query : bytes) (x : LexicalIndex) : gset Z * LexicalIndex :=
  let q_tokens := Tokenize query in
  if bool_decide (q_tokens = []) || (lx_total_docs x =? 0) then (∅, x) else
  let hits := q_tokens ≫= word_hits x in
  (list_to_set hits,
   MkLex (lx_inverted x)
     (fold_left (fun dl id => <[id := default 0 (dl !! id)]> dl) hits (lx_doc_lengths x))
     (lx_total_docs x)).

(** src/core/query/lexical_index.cc:79-92 [LexicalIndex::Remove]. *)
Definition lex_Remove (id : Z) (x : LexicalIndex) : LexicalIndex :=
  if decide (is_Some (lx_doc_lengths x !! id)) then
    MkLex (lx_inverted x) (delete id (lx_doc_lengths x)) (u64 (lx_total_docs x - 1))
  else x.

(** src/core/query/lexical_index.cc:94-99 [LexicalIndex::Clear]. *)
Definition lex_Clear (x : LexicalIndex) : LexicalIndex := MkLex ∅ ∅ 0.

(** ** Lemmas *)

Definition alnum_lower (c : byte) : Prop := isalnum c = true /\ tolower c = c.

Lemma tolower_alnum c : isalnum c = true -> alnum_lower (tolower c).
Proof. by destruct c. Qed.

Lemma tokenize_loop_wf text current :
  Forall alnum_lower current ->
  Forall (fun t => t <> [] /\ Forall alnum_lower t) (tokenize_loop text current).
Proof.
  revert current. induction text as [|c text IH]; intros current Hc; cbn [tokenize_loop].
  - case_bool_decide; repeat constructor; done.
  - destruct (isalnum c) eqn:E.
    + apply IH, Forall_app. split; [done|]. by constructor; [apply tolower_alnum|].
    + case_bool_decide; [|constructor]; try apply IH; try done; constructor.
Qed.

Lemma term_freqs_app tokens tf t :
  is_Some (fold_left (fun tf t => <[t := default 0 (tf !! t) + 1]> tf) tokens tf !! t) <->
  t ∈ tokens \/ is_Some ((tf : gmap bytes Z) !! t).
Proof.
  revert tf. induction tokens as [|u tokens IH]; intros tf; cbn [fold_left].
  - split; [by right|]. by intros [?%not_elem_of_nil|].
  - rewrite IH, lookup_insert_is_Some', elem_of_cons, (eq_comm t u). tauto.
Qed.

Lemma term_freqs_word tokens t : t ∈ tokens -> is_Some (term_freqs tokens !! t).
Proof. intros H. apply term_freqs_app. by left. Qed.

Lemma add_postings_lookup id tf inv w :
  add_postings id tf inv !! w =
  match tf !! w with
  | Some count => Some (default [] (inv !! w) ++ [(id, count)])
  | None => inv !! w
  end.
Proof.
  unfold add_postings.
  apply (map_fold_weak_ind (fun (acc : gmap bytes (list (Z * Z))) (tf : gmap bytes Z) => acc !! w =
    match tf !! w with Some count => Some (default [] (inv !! w) ++ [(id, count)]) | None => inv !! w end)).
  - by rewrite lookup_empty.
  - intros u n m acc Hu IH. destruct (decide (u = w)) as [->|Hne].
    + rewrite !lookup_insert_eq. rewrite Hu in IH. by rewrite IH.
    + by rewrite !lookup_insert_ne.
Qed.

(** A word of lower-case letters and digits is its own only token. *)
Lemma tokenize_loop_word w current :
  Forall alnum_lower w -> current ++ w <> [] -> tokenize_loop w current = [current ++ w].
Proof.
  intros Hw. revert current. induction Hw as [|c w [Ha Hl] _ IH]; intros current Hne; cbn [tokenize_loop].
  - rewrite app_nil_r in *. by case_bool_decide.
  - rewrite Ha, Hl, IH; rewrite <-app_assoc; done.
Qed.

Lemma Tokenize_token text w : w ∈ Tokenize text -> Tokenize w = [w].
Proof.
  intros Hin. pose proof (tokenize_loop_wf text [] (Forall_nil_2 _)) as Hwf.
  rewrite Forall_forall in Hwf. destruct (Hwf w Hin) as [Hne Hw].
  by apply (tokenize_loop_word w []).
Qed.

(** The document counter agrees with the recorded lengths. *)
Definition lex_counted (x : LexicalIndex) : Prop :=
  lx_total_docs x = Z.of_nat (size (lx_doc_lengths x)) /\ lx_total_docs x < 2 ^ 64 - 1.

Lemma lex_Add_total id text x :
  lex_counted x -> Tokenize text <> [] ->
  lx_total_docs (lex_Add id text x) = Z.of_nat (size (lx_doc_lengths (lex_Add id text x))).
Proof.
  intros [Hc Hlt] Ht. unfold lex_Add. rewrite bool_decide_eq_false_2 by done. cbn [lx_total_docs lx_doc_lengths].
  case_decide as Hd.
  - rewrite map_size_insert_Some by done.
    assert (size (lx_doc_lengths x) <> 0%nat).
    { rewrite map_size_empty_iff. intros E. rewrite E, lookup_empty in Hd. by destruct Hd. }
    rewrite (u64_id (_ - 1)), u64_id by (split; lia). lia.
  - rewrite map_size_insert_None by (by apply eq_None_not_Some).
    rewrite u64_id by (split; lia). lia.
Qed.

(** ** Properties *)

(** A document that has been added is found by a search for any of the
    words of its text. *)
Theorem lex_Add_findable id text w x :
  lex_counted x -> w ∈ Tokenize text -> id ∈ (lex_Search w (lex_Add id text x)).1.
Proof.
  intros Hc Hin. assert (Tokenize text <> []) as Hne.
  { intros E. rewrite E in Hin. by apply not_elem_of_nil in Hin. }
  pose proof (lex_Add_total id text x Hc Hne) as Htot. unfold lex_Search.
  rewrite (Tokenize_token text w Hin), bool_decide_eq_false_2 by done. cbn [orb].
  destruct (Z.eqb_spec (lx_total_docs (lex_Add id text x)) 0) as [E|_].
  - exfalso. assert (size (lx_doc_lengths (lex_Add id text x)) = 0%nat) as E0 by lia.
    apply map_size_empty_inv in E0. apply (f_equal (.!! id)) in E0. revert E0.
    unfold lex_Add. rewrite bool_decide_eq_false_2 by done. cbn [lx_doc_lengths].
    by rewrite lookup_insert_eq, lookup_empty.
  - cbn [fst]. apply elem_of_list_to_set. rewrite bind_cons, app_nil_r.
    unfold word_hits, lex_Add. rewrite bool_decide_eq_false_2 by done. cbn [lx_inverted].
    rewrite add_postings_lookup. destruct (term_freqs_word _ _ Hin) as [n ->]. cbn.
    rewrite fmap_app. apply elem_of_app. right. by left.
Qed.

Lemma lex_Add_findable_witness :
  3 ∈ (lex_Search (bstr "sensor") (lex_Add 3 (bstr "Sensor-7 offline") lex_new)).1.
Proof.
  apply (lex_Add_findable 3 (bstr "Sensor-7 offline") (bstr "sensor") lex_new).
  - split; reflexivity.
  - vm_compute. by left.
Defined.

(** Removal is incomplete: a removed document is still returned by a
    search, that search re-registers it with length zero, and removing it a
    second time decrements the counter again, after which the index reports
    nothing although another document is still indexed. *)
Theorem lex_Remove_leaves_postings :
  let x := lex_Remove 1 (lex_Add 2 (bstr "edge") (lex_Add 1 (bstr "edge node") lex_new)) in
  let '(hits, x1) := lex_Search (bstr "edge") x in
  let x2 := lex_Remove 1 x1 in
  hits = {[ 1; 2 ]} /\ lx_doc_lengths x1 !! 1 = Some 0 /\
  lx_doc_lengths x2 !! 2 = Some 1 /\ lx_total_docs x2 = 0 /\ (lex_Search (bstr "edge") x2).1 = ∅.
Proof. vm_compute. done. Qed.
