(* ===== verification/DocEngines.v ===== *)
(** * The document, text and sketch engines

    [DocumentEngine] (src/core/document/document_engine.cc) and [TextMembrane]
    (src/core/text/text_membrane.cc) keep texts by identifier beside a
    [LexicalIndex]; [SketchEngine] (src/core/sketch/sketch_engine.cc) counts
    keys.  All three hold at most a configured number of entries.  The order of
    a search result by BM25 score is the parameter [LexRank]. *)
From S2P Require Import Prelude Env Lexical.

Open Scope Z_scope.

(** The documents that receive a score, in descending order of the scores, which
    are double precision sums of logarithms. *)
Class LexRank := {
  lex_rank : bytes -> LexicalIndex -> list Z;
  lex_rank_spec q x : NoDup (lex_rank q x) /\ (list_to_set (lex_rank q x) : gset Z) = (lex_Search q x).1
}.

(** [lex_rank] has instances. *)
Definition default_rank : LexRank := {|
  lex_rank q x := elements (lex_Search q x).1;
  lex_rank_spec q x := conj (NoDup_elements _) (list_to_set_elements_L _)
|}.

(** src/core/query/lexical_index.cc:69-76 [LexicalIndex::Search]. The best [topk]. *)
Definition ranked `{LexRank} (query : bytes) (topk : Z) (x : LexicalIndex) : list Z := take (Z.to_nat topk) (lex_rank query x).

(** ** Documents *)

(** src/core/document/document_engine.h:67-72 [DocumentEngine]. *)
Record DocumentEngine : Type := MkDoc {
  doc_max_documents : Z;
  doc_docs : gmap Z bytes;
  doc_index : LexicalIndex
}.

Definition doc_new (cap : Z) : DocumentEngine := MkDoc cap ∅ lex_new.

(** [std::min_element] of the keys. *)
Definition min_key (l : list (Z * bytes)) : option Z :=
  foldr (fun p best => Some (match best with Some k => Z.min p.1 k | None => p.1 end)) None l.

Section documents.
Context `{LexRank} `{!MapOrder Z bytes}.

(** src/core/document/document_engine.cc:26-33 [DocumentEngine::Put]. *)
Definition doc_evict (s : DocumentEngine) : DocumentEngine :=
  if (doc_max_documents s <=? Z.of_nat (size (doc_docs s))) && (0 <? doc_max_documents s) then
    match min_key (iter_order (doc_docs s)) with
    | Some k => MkDoc (doc_max_documents s) (delete k (doc_docs s)) (lex_Remove k (doc_index s))
    | None => s
    end
  else s.

(** src/core/document/document_engine.cc:14-40 [DocumentEngine::Put]. *)
Definition doc_Put (doc_id : Z) (json_content : bytes) (s : DocumentEngine) : (Status + unit) * DocumentEngine :=
  if bool_decide (json_content = []) then (inl (InvalidArgument "document content must be non-empty"), s) else
  let s := match doc_docs s !! doc_id with
           | Some _ => MkDoc (doc_max_documents s) (<[doc_id := json_content]> (doc_docs s)) (lex_Remove doc_id (doc_index s))
           | None => let s := doc_evict s in
                     MkDoc (doc_max_documents s) (<[doc_id := json_content]> (doc_docs s)) (doc_index s)
           end in
  (inr tt, MkDoc (doc_max_documents s) (doc_docs s) (lex_Add doc_id json_content (doc_index s))).

(** src/core/document/document_engine.cc:42-49 [DocumentEngine::Get]. *)
Definition doc_Get (doc_id : Z) (s : DocumentEngine) : Status + bytes :=
  match doc_docs s !! doc_id with Some b => inr b | None => inl (NotFound "document not found") end.

(** src/core/document/document_engine.cc:51-58 [DocumentEngine::Delete]. *)
Definition doc_Delete (doc_id : Z) (s : DocumentEngine) : (Status + unit) * DocumentEngine :=
  match doc_docs s !! doc_id with
  | None => (inl (NotFound "document not found"), s)
  | Some _ => (inr tt, MkDoc (doc_max_documents s) (delete doc_id (doc_docs s)) (lex_Remove doc_id (doc_index s)))
  end.

(** src/core/document/document_engine.cc:60-63 [DocumentEngine::Exists]. *)
Definition doc_Exists (doc_id : Z) (s : DocumentEngine) : bool := bool_decide (is_Some (doc_docs s !! doc_id)).

(** src/core/document/document_engine.cc:65-80 [DocumentEngine::Search]. *)
Definition doc_Search (query : bytes) (topk : Z) (s : DocumentEngine) : list Z * DocumentEngine :=
  if topk =? 0 then ([], s) else
  (ranked query topk (doc_index s), MkDoc (doc_max_documents s) (doc_docs s) (lex_Search query (doc_index s)).2).

(** src/core/document/document_engine.cc:82-87 [DocumentEngine::ForEach]. *)
Definition doc_ForEach (s : DocumentEngine) : list (Z * bytes) := iter_order (doc_docs s).

End documents.

(** ** Texts *)

(** src/core/text/text_membrane.h:26-28 [TextMembrane]. *)
Record TextMembrane : Type := MkText {
  tx_index : LexicalIndex;
  tx_docs : gmap Z bytes;
  tx_max_docs : Z
}.

Definition text_new (cap : Z) : TextMembrane := MkText lex_new ∅ cap.

Section texts.
Context `{LexRank} `{!MapOrder Z bytes}.

(** src/core/text/text_membrane.cc:5-11 [TextMembrane::Get]. *)
Definition text_Get (id : Z) (s : TextMembrane) : Status + bytes :=
  match tx_docs s !! id with Some b => inr b | None => inl (NotFound "text doc not found") end.

(** src/core/text/text_membrane.cc:49-54 [TextMembrane::RebuildIndex]. *)
Definition RebuildIndex (s : TextMembrane) : TextMembrane :=
  MkText (fold_left (fun x p => lex_Add p.1 p.2 x) (iter_order (tx_docs s)) (lex_Clear (tx_index s))) (tx_docs s) (tx_max_docs s).

(** src/core/text/text_membrane.cc:13-25 [TextMembrane::Put]. *)
Definition text_Put (id : Z) (text : bytes) (s : TextMembrane) : TextMembrane :=
  let s := if (0 <? tx_max_docs s) && (tx_max_docs s <=? Z.of_nat (size (tx_docs s))) && bool_decide (tx_docs s !! id = None)
           then RebuildIndex (MkText (tx_index s) (erase_begin (tx_docs s)) (tx_max_docs s))
           else s in
  MkText (lex_Add id text (tx_index s)) (<[id := text]> (tx_docs s)) (tx_max_docs s).

(** src/core/text/text_membrane.cc:27-31 [TextMembrane::Delete]. *)
Definition text_Delete (id : Z) (s : TextMembrane) : TextMembrane :=
  MkText (lex_Remove id (tx_index s)) (delete id (tx_docs s)) (tx_max_docs s).

(** src/core/text/text_membrane.cc:33-38 [TextMembrane::Search]. *)
Definition text_Search (query : bytes) (topk : Z) (s : TextMembrane) : list Z * TextMembrane :=
  (ranked query topk (tx_index s), MkText (lex_Search query (tx_index s)).2 (tx_docs s) (tx_max_docs s)).

(** src/core/text/text_membrane.cc:40-43 [TextMembrane::Clear]. *)
Definition text_Clear (s : TextMembrane) : TextMembrane := MkText (lex_Clear (tx_index s)) ∅ (tx_max_docs s).

(** src/core/text/text_membrane.cc:45-47 [TextMembrane::ForEach]. *)
Definition text_ForEach (s : TextMembrane) : list (Z * bytes) := iter_order (tx_docs s).
End texts.

(** ** Counters *)

(** src/core/sketch/sketch_engine.h:25-27 [SketchEngine]. *)
Record SketchEngine : Type := MkSketch {
  sk_max_entries : Z;
  sk_counts : gmap bytes Z;
  sk_seen : gset bytes
}.

Definition sketch_new (cap : Z) : SketchEngine := MkSketch cap ∅ ∅.

Section sketch.
Context `{!MapOrder bytes Z}.

(** src/core/sketch/sketch_engine.cc:37-45 [SketchEngine::EvictIfNeeded]. *)
Definition sketch_EvictIfNeeded (s : SketchEngine) : SketchEngine :=
  if sk_max_entries s =? 0 then s else
  if Z.of_nat (size (sk_counts s)) <? sk_max_entries s then s else
  match iter_order (sk_counts s) with
  | [] => s
  | (k, _) :: _ => MkSketch (sk_max_entries s) (delete k (sk_counts s)) (sk_seen s ∖ {[k]})
  end.

(** src/core/sketch/sketch_engine.cc:5-12 [SketchEngine::Add]. *)
Definition sketch_Add (key : bytes) (increment : Z) (s : SketchEngine) : (Status + unit) * SketchEngine :=
  if bool_decide (key = []) then (inl (InvalidArgument "sketch key empty"), s) else
  let s := sketch_EvictIfNeeded s in
  (inr tt, MkSketch (sk_max_entries s) (<[key := u64 (default 0 (sk_counts s !! key) + increment)]> (sk_counts s))
             ({[key]} ∪ sk_seen s)).

(** src/core/sketch/sketch_engine.cc:14-19 [SketchEngine::Estimate]. *)
Definition sketch_Estimate (key : bytes) (s : SketchEngine) : Z := default 0 (sk_counts s !! key).

(** src/core/sketch/sketch_engine.cc:21-25 [SketchEngine::Seen]. *)
Definition sketch_Seen (key : bytes) (s : SketchEngine) : bool := bool_decide (key ∈ sk_seen s).

(** src/core/sketch/sketch_engine.cc:27-31 [SketchEngine::UniqueEstimate]. *)
Definition sketch_UniqueEstimate (s : SketchEngine) : Z := Z.of_nat (size (sk_seen s)).

(** src/core/sketch/sketch_engine.cc:33-35 [SketchEngine::ForEach]. *)
Definition sketch_ForEach (s : SketchEngine) : list (bytes * Z) := iter_order (sk_counts s).
End sketch.
