(* ===== verification/DocTheorems.v ===== *)
(** * The document, text and sketch engines: searches and counts

    The caps, that every stored text is found by each of its words after any
    puts and deletes, that the sketch never counts too much and counts exactly
    below its cap, and a run with searches in which a stored document is lost
    to the search. *)
From S2P Require Import Prelude Env Lexical DocEngines.

Open Scope Z_scope.

(** ** The index beside its texts *)

Record lex_ok (docs : gmap Z bytes) (x : LexicalIndex) : Prop := {
  lo_total : lx_total_docs x = Z.of_nat (size (lx_doc_lengths x));
  lo_dom : dom (lx_doc_lengths x) ⊆ dom docs;
  lo_words id text w : docs !! id = Some text -> w ∈ Tokenize text ->
    is_Some (lx_doc_lengths x !! id) /\ id ∈ word_hits x w
}.

Lemma lex_ok_new : lex_ok ∅ lex_new.
Proof. split; [by vm_compute|done|]. intros id text w E. by rewrite lookup_empty in E. Qed.

Lemma lex_ok_size docs x : lex_ok docs x -> lx_total_docs x <= Z.of_nat (size docs).
Proof.
  intros [Ht Hd _]. rewrite Ht, <-!size_dom. apply subseteq_size in Hd. lia.
Qed.

Lemma lex_Add_hits id text x id' w :
  id' ∈ word_hits (lex_Add id text x) w <-> id' ∈ word_hits x w \/ (id' = id /\ w ∈ Tokenize text).
Proof.
  unfold lex_Add. case_bool_decide as Ht.
  { rewrite Ht. split; [by left|]. intros [?|[_ []%not_elem_of_nil]]. done. }
  unfold word_hits. cbn [lx_inverted]. rewrite add_postings_lookup.
  assert (is_Some (term_freqs (Tokenize text) !! w) <-> w ∈ Tokenize text) as Hw.
  { unfold term_freqs. rewrite term_freqs_app. split; [|by left]. intros [?|[? E]]; [done|by rewrite lookup_empty in E]. }
  destruct (term_freqs (Tokenize text) !! w) as [n|].
  - cbn. rewrite fmap_app, elem_of_app. cbn. rewrite list_elem_of_singleton.
    assert (w ∈ Tokenize text) by by apply Hw. tauto.
  - assert (w ∉ Tokenize text) by (intros Hin%Hw; by destruct Hin). tauto.
Qed.

Lemma lex_ok_Add docs x id text :
  lex_ok docs x -> Z.of_nat (size docs) < 2 ^ 64 - 1 -> lex_ok (<[id := text]> docs) (lex_Add id text x).
Proof.
  intros Hok Hsz. pose proof (lex_ok_size _ _ Hok). destruct Hok as [Ht Hd Hw]. split.
  - destruct (decide (Tokenize text = [])) as [E|E].
    + unfold lex_Add. by rewrite bool_decide_true.
    + apply lex_Add_total; [|done]. split; [done|lia].
  - unfold lex_Add. case_bool_decide; cbn [lx_doc_lengths]; set_solver.
  - intros id' text' w Hin Hx. rewrite lex_Add_hits. destruct (decide (id' = id)) as [->|Hne].
    + rewrite lookup_insert_eq in Hin. simplify_eq. split; [|by right]. unfold lex_Add.
      rewrite bool_decide_false by (intros E; rewrite E in Hx; by apply not_elem_of_nil in Hx).
      cbn [lx_doc_lengths]. by rewrite lookup_insert_eq.
    + rewrite lookup_insert_ne in Hin by done. destruct (Hw _ _ _ Hin Hx) as [Hl Hh]. split; [|by left].
      unfold lex_Add. case_bool_decide; [done|]. cbn [lx_doc_lengths]. by rewrite lookup_insert_ne.
Qed.

Lemma lex_ok_Remove docs x id :
  lex_ok docs x -> Z.of_nat (size docs) < 2 ^ 64 -> lex_ok (delete id docs) (lex_Remove id x).
Proof.
  intros Hok Hsz. pose proof (lex_ok_size _ _ Hok). destruct Hok as [Ht Hd Hw]. unfold lex_Remove. case_decide as Hi.
  - assert (size (lx_doc_lengths x) <> 0%nat) by (rewrite map_size_non_empty_iff; intros E; rewrite E in Hi; destruct Hi as [? Hi]; by rewrite lookup_empty in Hi).
    split; cbn [lx_total_docs lx_doc_lengths lx_inverted].
    + rewrite map_size_delete_Some by done. rewrite u64_id by (unfold is_u64; lia). lia.
    + rewrite !dom_delete_L. set_solver.
    + intros id' text w [Hne Hin]%lookup_delete_Some Hx. rewrite lookup_delete_ne by done. by apply (Hw id' text).
  - split; [done| |].
    + rewrite dom_delete_L. assert (id ∉ dom (lx_doc_lengths x)) by by rewrite elem_of_dom. set_solver.
    + intros id' text w [Hne Hin]%lookup_delete_Some Hx. by apply (Hw id' text).
Qed.

Lemma lex_ok_found docs x id text w :
  lex_ok docs x -> docs !! id = Some text -> w ∈ Tokenize text -> id ∈ (lex_Search w x).1.
Proof.
  intros [Ht _ Hw] Hid Hin. destruct (Hw id text w Hid Hin) as [Hl Hh]. unfold lex_Search.
  rewrite (Tokenize_token text w Hin), bool_decide_eq_false_2 by done. cbn [orb].
  destruct (Z.eqb_spec (lx_total_docs x) 0) as [E|_].
  - rewrite Ht in E. assert (size (lx_doc_lengths x) = 0%nat) as E0 by lia.
    apply map_size_empty_inv in E0. rewrite E0 in Hl. destruct Hl as [? Hl]. by rewrite lookup_empty in Hl.
  - cbn [fst]. apply elem_of_list_to_set. by rewrite bind_cons, app_nil_r.
Qed.

(** A search that is given room returns every stored text with the word. *)
Lemma ranked_found `{LexRank} docs x id text w topk :
  lex_ok docs x -> docs !! id = Some text -> w ∈ Tokenize text ->
  Z.of_nat (size (lex_Search w x).1) <= topk -> id ∈ ranked w topk x.
Proof.
  intros Hok Hid Hw Hk. pose proof (lex_ok_found _ _ _ _ _ Hok Hid Hw) as Hin.
  destruct (lex_rank_spec w x) as [Hnd Hset]. rewrite <-Hset in Hin, Hk. rewrite size_list_to_set in Hk by done.
  apply elem_of_list_to_set in Hin. unfold ranked. by rewrite take_ge by lia.
Qed.

(** ** Documents *)

Section documents.
Context `{LexRank} `{!MapOrder Z bytes}.

Lemma min_key_spec l : match min_key l with
  | Some k => k ∈ l.*1 /\ Forall (fun p => k <= p.1) l
  | None => l = []
  end.
Proof.
  induction l as [|p l IH]; [done|]. cbn [min_key foldr]. fold (min_key l). destruct (min_key l) as [k|].
  - destruct IH as [Hk Hl]. split.
    + destruct (Z.min_spec p.1 k) as [[_ ->]|[_ ->]]; set_solver.
    + constructor; [lia|]. eapply Forall_impl; [exact Hl|]. intros q Hq. cbn in *. lia.
  - subst l. split; [set_solver|]. by repeat constructor.
Qed.

Inductive DocOp : Type := DocPut (id : Z) (text : bytes) | DocDelete (id : Z).

Definition doc_op (op : DocOp) (s : DocumentEngine) : DocumentEngine :=
  match op with DocPut id text => (doc_Put id text s).2 | DocDelete id => (doc_Delete id s).2 end.

Record doc_inv (s : DocumentEngine) : Prop := {
  di_lex : lex_ok (doc_docs s) (doc_index s);
  di_cap : 0 < doc_max_documents s -> Z.of_nat (size (doc_docs s)) <= doc_max_documents s
}.

Lemma doc_evict_spec s :
  doc_inv s -> Z.of_nat (size (doc_docs s)) < 2 ^ 64 - 1 ->
  let s' := doc_evict s in
  doc_max_documents s' = doc_max_documents s /\ doc_docs s' ⊆ doc_docs s /\ lex_ok (doc_docs s') (doc_index s') /\
  (0 < doc_max_documents s -> Z.of_nat (size (doc_docs s')) < doc_max_documents s).
Proof.
  intros [Hl Hc] Hsz. unfold doc_evict. destruct (_ && _) eqn:E; cbn zeta.
  - apply andb_true_iff in E as [E1%Z.leb_le E2%Z.ltb_lt]. pose proof (min_key_spec (iter_order (doc_docs s))) as Hm.
    destruct (min_key _) as [k|].
    + destruct Hm as [([k' v] & -> & Hk%elem_of_iter_order)%list_elem_of_fmap _]. cbn [fst] in *. split; [done|].
      split; [apply delete_subseteq|]. split; [apply lex_ok_Remove; [done|lia]|]. intros _. cbn [doc_docs].
      specialize (Hc E2). rewrite map_size_delete_Some by done.
      assert (size (doc_docs s) <> 0%nat) by (rewrite map_size_non_empty_iff; intros E; by rewrite E in Hk). lia.
    + apply iter_order_nil in Hm. rewrite Hm, map_size_empty in E1. lia.
  - split; [done|]. split; [done|]. split; [done|]. intros Hp.
    apply andb_false_iff in E as [E%Z.leb_gt|E%Z.ltb_ge]; lia.
Qed.

Lemma doc_Put_inv id text s :
  doc_inv s -> Z.of_nat (size (doc_docs s)) < 2 ^ 64 - 1 -> doc_inv (doc_Put id text s).2.
Proof.
  intros Hi Hsz. unfold doc_Put. case_bool_decide; [done|]. cbn [snd].
  destruct (doc_docs s !! id) as [old|] eqn:E.
  - destruct Hi as [Hl Hc]. split; cbn.
    + rewrite <-insert_delete_eq. apply lex_ok_Add; [apply lex_ok_Remove; [done|lia]|].
      rewrite map_size_delete_Some by done. lia.
    + by rewrite map_size_insert_Some.
  - destruct (doc_evict_spec s Hi Hsz) as (Hm & Hsub & Hl & Hc). cbn zeta in *. set (s' := doc_evict s) in *.
    pose proof (map_subseteq_size _ _ Hsub). split; cbn.
    + apply lex_ok_Add; [done|lia].
    + rewrite Hm. intros Hp. specialize (Hc Hp). rewrite map_size_insert. destruct (doc_docs s' !! id); cbn; lia.
Qed.

Lemma doc_op_inv op s : doc_inv s -> Z.of_nat (size (doc_docs s)) < 2 ^ 64 - 1 -> doc_inv (doc_op op s).
Proof.
  intros Hi Hsz. destruct op as [id text|id]; [by apply doc_Put_inv|]. cbn. unfold doc_Delete.
  destruct (doc_docs s !! id) as [b|] eqn:E; [|done]. destruct Hi as [Hl Hc]. split; cbn.
  - apply lex_ok_Remove; [done|lia].
  - intros Hp. specialize (Hc Hp). rewrite map_size_delete_Some by done. lia.
Qed.

Definition doc_exec (ops : list DocOp) (s : DocumentEngine) : DocumentEngine := fold_left (fun s op => doc_op op s) ops s.

(** The contents an unbounded store would have. *)
Definition doc_apply (m : gmap Z bytes) (op : DocOp) : gmap Z bytes :=
  match op with
  | DocPut id text => if bool_decide (text = []) then m else <[id := text]> m
  | DocDelete id => delete id m
  end.
Definition doc_writes (ops : list DocOp) : gmap Z bytes := fold_left doc_apply ops ∅.

Lemma doc_op_subseteq op s m :
  doc_inv s -> Z.of_nat (size (doc_docs s)) < 2 ^ 64 - 1 -> doc_docs s ⊆ m -> doc_docs (doc_op op s) ⊆ doc_apply m op.
Proof.
  intros Hi Hsz Hm. destruct op as [id text|id]; cbn.
  - unfold doc_Put. case_bool_decide; [done|]. cbn. destruct (doc_docs s !! id); cbn; apply insert_mono; [done|].
    destruct (doc_evict_spec s Hi Hsz) as (_ & Hsub & _). by etransitivity.
  - unfold doc_Delete. destruct (doc_docs s !! id) as [b|] eqn:E; cbn; [by apply delete_mono|].
    rewrite <-(delete_id (doc_docs s) id) by done. by apply delete_mono.
Qed.

Lemma doc_op_size op s : (size (doc_docs (doc_op op s)) <= S (size (doc_docs s)))%nat.
Proof.
  destruct op as [id text|id]; cbn.
  - unfold doc_Put. case_bool_decide; cbn; [lia|].
    assert (forall m : gmap Z bytes, (size (<[id := text]> m) <= S (size m))%nat) as Hi
      by (intros m; rewrite map_size_insert; destruct (m !! id); cbn; lia).
    destruct (doc_docs s !! id); cbn; [apply Hi|]. etransitivity; [apply Hi|].
    apply le_n_S, map_subseteq_size. unfold doc_evict. repeat case_match; try done. apply delete_subseteq.
  - unfold doc_Delete. destruct (doc_docs s !! id) eqn:E; cbn; [|lia]. rewrite map_size_delete_Some by done. lia.
Qed.

Lemma lex_Remove_hits id x w : word_hits (lex_Remove id x) w = word_hits x w.
Proof. unfold lex_Remove. by case_decide. Qed.

Lemma doc_op_hits op s id w :
  id ∈ word_hits (doc_index (doc_op op s)) w ->
  id ∈ word_hits (doc_index s) w \/ exists text, op = DocPut id text /\ w ∈ Tokenize text.
Proof.
  destruct op as [id' text|id']; cbn.
  - unfold doc_Put. case_bool_decide; [by left|]. cbn. rewrite lex_Add_hits. intros [Hh|[-> Hw]]; [left|right; by eexists].
    destruct (doc_docs s !! id'); cbn in Hh; [by rewrite lex_Remove_hits in Hh|].
    unfold doc_evict in Hh. repeat case_match; cbn in Hh; by rewrite ?lex_Remove_hits in Hh.
  - unfold doc_Delete. destruct (doc_docs s !! id'); cbn; rewrite ?lex_Remove_hits; by left.
Qed.

Lemma doc_exec_run cap ops :
  Z.of_nat (length ops) < 2 ^ 64 - 1 ->
  let s := doc_exec ops (doc_new cap) in
  doc_inv s /\ doc_max_documents s = cap /\ (size (doc_docs s) <= length ops)%nat /\ doc_docs s ⊆ doc_writes ops /\
  forall id w, id ∈ word_hits (doc_index s) w -> exists text, DocPut id text ∈ ops /\ w ∈ Tokenize text.
Proof.
  cbn. induction ops as [|op ops IH] using rev_ind; intros Hlen.
  { split; [split; [apply lex_ok_new|cbn; rewrite map_size_empty; lia]|]. split; [done|]. split; [done|]. split; [done|].
    intros id w Hin. unfold word_hits in Hin. cbn in Hin. rewrite lookup_empty in Hin. by apply not_elem_of_nil in Hin. }
  rewrite length_app in Hlen |- *. cbn in Hlen |- *. destruct IH as (Hi & Hm & Hs & Hsub & Hh); [lia|].
  unfold doc_exec, doc_writes. rewrite !fold_left_app. cbn [fold_left].
  fold (doc_exec ops (doc_new cap)). fold (doc_writes ops). set (s := doc_exec ops (doc_new cap)) in *.
  assert (Z.of_nat (size (doc_docs s)) < 2 ^ 64 - 1) as Hsz by lia.
  split; [by apply doc_op_inv|]. split.
  { rewrite <-Hm. destruct op; cbn; unfold doc_Put, doc_Delete, doc_evict; repeat case_match; by simplify_eq. }
  split; [pose proof (doc_op_size op s); lia|]. split; [by apply doc_op_subseteq|].
  intros id w [Hin|(text & -> & Hw)]%doc_op_hits.
  - destruct (Hh id w Hin) as (text & Ht & Hw). exists text. set_solver.
  - exists text. set_solver.
Qed.

(** C36. The document store after any puts and deletes: it never holds more than
    its cap, it holds nothing but the last content put for an identifier, a
    search that is given room for its hits returns every stored document that
    contains the word, and every hit was once put with a content that
    contains the word. *)
Theorem document_search_complete cap ops :
  Z.of_nat (length ops) < 2 ^ 64 - 1 ->
  let s := doc_exec ops (doc_new cap) in
  (0 < cap -> Z.of_nat (size (doc_docs s)) <= cap) /\
  (forall id text, doc_Get id s = inr text -> doc_writes ops !! id = Some text) /\
  (forall id text w topk, doc_Get id s = inr text -> w ∈ Tokenize text ->
     Z.of_nat (size (lex_Search w (doc_index s)).1) <= topk -> id ∈ (doc_Search w topk s).1) /\
  (forall id w topk, Tokenize w = [w] -> id ∈ (doc_Search w topk s).1 ->
     exists text, DocPut id text ∈ ops /\ w ∈ Tokenize text).
Proof.
  intros Hlen s. destruct (doc_exec_run cap ops Hlen) as ([Hl Hc] & Hm & _ & Hsub & Hh). fold s in Hl, Hc, Hm, Hsub, Hh.
  assert (forall id text, doc_Get id s = inr text -> doc_docs s !! id = Some text) as Hget
    by (intros id text; unfold doc_Get; destruct (doc_docs s !! id); congruence).
  split; [by rewrite <-Hm|]. split; [intros id text Hg; by eapply lookup_weaken; [apply Hget|]|]. split.
  - intros id text w topk Hg%Hget Hw Hk. unfold doc_Search.
    pose proof (lex_ok_found _ _ _ _ _ Hl Hg Hw) as Hin. destruct (Z.eqb_spec topk 0) as [->|_].
    + assert (size (lex_Search w (doc_index s)).1 <> 0%nat) by (intros E%size_empty_inv; set_solver). lia.
    + by eapply ranked_found.
  - intros id w topk Hw Hin. apply (Hh id w). unfold doc_Search in Hin. destruct (topk =? 0); [by apply not_elem_of_nil in Hin|].
    cbn in Hin. unfold ranked in Hin. apply subseteq_take in Hin. destruct (lex_rank_spec w (doc_index s)) as [_ Hset].
    assert (id ∈ (lex_Search w (doc_index s)).1) as Hs by (rewrite <-Hset; by apply elem_of_list_to_set).
    unfold lex_Search in Hs. rewrite Hw in Hs. destruct (_ || _); cbn [fst] in Hs; [set_solver|].
    rewrite bind_cons, app_nil_r in Hs by done. by apply elem_of_list_to_set in Hs.
Qed.
End documents.

#[local] Existing Instances default_order default_rank.

Lemma document_search_complete_witness :
  let s := doc_exec [DocPut 1 (bstr "edge node"); DocPut 2 (bstr "cloud edge"); DocDelete 1; DocPut 3 (bstr "edge");
                     DocPut 4 (bstr "core")] (doc_new 2) in
  doc_Get 3 s = inr (bstr "edge") /\ 3 ∈ (doc_Search (bstr "edge") 5 s).1.
Proof.
  intros s. split; [by vm_compute|].
  apply (document_search_complete 2 [DocPut 1 (bstr "edge node"); DocPut 2 (bstr "cloud edge"); DocDelete 1;
           DocPut 3 (bstr "edge"); DocPut 4 (bstr "core")]) with (text := bstr "edge"); [done|by vm_compute|..].
  - vm_compute. by left.
  - vm_compute. done.
Defined.

(** A search between a delete and the next put registers the deleted document
    again with length zero; the put then does not count it, and after one more
    delete a stored document is not found by its only word. *)
Lemma document_search_loses_live :
  let s := doc_exec [DocPut 1 (bstr "edge"); DocPut 2 (bstr "edge"); DocDelete 1] (doc_new 0) in
  let s := (doc_Search (bstr "edge") 5 s).2 in
  let s := doc_exec [DocPut 1 (bstr "edge"); DocDelete 2] s in
  doc_Get 1 s = inr (bstr "edge") /\ (doc_Search (bstr "edge") 5 s).1 = [].
Proof. by vm_compute. Qed.

(** ** Texts *)

Section texts.
Context `{LexRank} `{!MapOrder Z bytes}.

Inductive TextOp : Type := TextPut (id : Z) (text : bytes) | TextDelete (id : Z) | TextClear.

Definition text_op (s : TextMembrane) (op : TextOp) : TextMembrane :=
  match op with TextPut id text => text_Put id text s | TextDelete id => text_Delete id s | TextClear => text_Clear s end.

Definition text_apply (m : gmap Z bytes) (op : TextOp) : gmap Z bytes :=
  match op with TextPut id text => <[id := text]> m | TextDelete id => delete id m | TextClear => ∅ end.

Record text_inv (s : TextMembrane) : Prop := {
  ti_lex : lex_ok (tx_docs s) (tx_index s);
  ti_cap : 0 < tx_max_docs s -> Z.of_nat (size (tx_docs s)) <= tx_max_docs s
}.

(** Adding the texts of a map one by one, in any order. *)
Lemma lex_ok_fold l docs x :
  lex_ok docs x -> Z.of_nat (size docs) + zlen l < 2 ^ 64 ->
  lex_ok (fold_left (fun m p => <[p.1 := p.2]> m) l docs) (fold_left (fun x p => lex_Add p.1 p.2 x) l x).
Proof.
  unfold zlen. revert docs x. induction l as [|p l IH]; intros docs x Hok Hsz; [done|]. cbn [fold_left length] in *.
  apply IH; [apply lex_ok_Add; [done|lia]|]. rewrite map_size_insert. destruct (docs !! p.1); cbn; lia.
Qed.

Lemma insert_all_iter_order (m : gmap Z bytes) : fold_left (fun m p => <[p.1 := p.2]> m) (iter_order m) ∅ = m.
Proof.
  rewrite <-(fold_left_rev_right (fun p m => <[p.1 := p.2]> m)).
  change (list_to_map (rev (iter_order m)) = m). rewrite <-(list_to_map_to_list m) at 2. apply list_to_map_proper.
  - rewrite <-Permutation_rev. apply NoDup_iter_order.
  - by rewrite <-Permutation_rev, iter_order_perm.
Qed.

Lemma RebuildIndex_ok s : Z.of_nat (size (tx_docs s)) < 2 ^ 64 -> lex_ok (tx_docs s) (tx_index (RebuildIndex s)).
Proof.
  intros Hsz. cbn. pose proof (lex_ok_fold (iter_order (tx_docs s)) ∅ lex_new lex_ok_new) as Hl.
  rewrite insert_all_iter_order in Hl. apply Hl. unfold zlen. rewrite length_iter_order, map_size_empty. lia.
Qed.

Lemma text_op_inv s op :
  text_inv s -> Z.of_nat (size (tx_docs s)) < 2 ^ 64 - 1 -> text_inv (text_op s op).
Proof.
  intros [Hl Hc] Hsz. destruct op as [id text|id|]; cbn.
  - unfold text_Put. destruct (_ && _) eqn:E.
    + apply andb_true_iff in E as [[E1%Z.ltb_lt E2%Z.leb_le]%andb_true_iff E3%bool_decide_eq_true].
      specialize (Hc E1). assert (tx_docs s <> ∅) as Hne by (intros E; rewrite E, map_size_empty in *; lia).
      pose proof (erase_begin_size _ Hne) as Hz. split; cbn [tx_docs tx_index tx_max_docs RebuildIndex].
      * apply lex_ok_Add; [|lia]. apply (RebuildIndex_ok (MkText (tx_index s) (erase_begin (tx_docs s)) (tx_max_docs s))). cbn. lia.
      * rewrite map_size_insert. destruct (erase_begin (tx_docs s) !! id); cbn; lia.
    + split; cbn [tx_docs tx_index tx_max_docs]; [by apply lex_ok_Add|]. intros Hp. specialize (Hc Hp).
      rewrite map_size_insert. destruct (tx_docs s !! id) eqn:Ei; cbn; [lia|].
      rewrite bool_decide_true, andb_true_r in E by done. apply andb_false_iff in E as [E%Z.ltb_ge|E%Z.leb_gt]; lia.
  - split; cbn; [apply lex_ok_Remove; [done|lia]|]. intros Hp. specialize (Hc Hp).
    pose proof (map_subseteq_size _ _ (delete_subseteq (tx_docs s) id)). lia.
  - split; cbn; [apply lex_ok_new|]. rewrite map_size_empty. lia.
Qed.

Lemma text_op_docs s op m :
  tx_docs s ⊆ m -> tx_docs (text_op s op) ⊆ text_apply m op /\ (size (tx_docs (text_op s op)) <= S (size (tx_docs s)))%nat.
Proof.
  intros Hm. destruct op as [id text|id|]; cbn.
  - assert (forall d : gmap Z bytes, (size (<[id := text]> d) <= S (size d))%nat) as Hi
      by (intros d; rewrite map_size_insert; destruct (d !! id); cbn; lia).
    pose proof (erase_begin_subseteq (tx_docs s)) as He. unfold text_Put. destruct (_ && _); cbn; (split; [apply insert_mono|]); auto.
    + by etransitivity.
    + etransitivity; [apply Hi|]. by apply le_n_S, map_subseteq_size.
  - split; [by apply delete_mono|]. pose proof (map_subseteq_size _ _ (delete_subseteq (tx_docs s) id)). lia.
  - split; [done|]. rewrite map_size_empty. lia.
Qed.

(** The text membrane after any puts, deletes and clears: the cap holds, a
    text that is read is the last one put for its identifier, and a search
    that is given room for its hits returns every stored text that contains
    the word, also after the evictions that rebuild the index. *)
Theorem text_search_complete cap ops :
  Z.of_nat (length ops) < 2 ^ 64 - 1 ->
  let s := fold_left text_op ops (text_new cap) in
  (0 < cap -> Z.of_nat (size (tx_docs s)) <= cap) /\
  (forall id text, text_Get id s = inr text -> fold_left text_apply ops ∅ !! id = Some text) /\
  (forall id text w topk, text_Get id s = inr text -> w ∈ Tokenize text ->
     Z.of_nat (size (lex_Search w (tx_index s)).1) <= topk -> id ∈ (text_Search w topk s).1).
Proof.
  intros Hlen s. assert (text_inv s /\ tx_max_docs s = cap /\ (size (tx_docs s) <= length ops)%nat /\
    tx_docs s ⊆ fold_left text_apply ops ∅) as ([Hl Hc] & Hm & _ & Hsub).
  { subst s. induction ops as [|op ops IH] using rev_ind.
    - split; [split; [apply lex_ok_new|cbn; rewrite map_size_empty; lia]|done].
    - rewrite length_app in Hlen |- *. cbn [length] in *. destruct IH as (Hi & Hm & Hs & Hsub); [lia|].
      rewrite !fold_left_app. cbn [fold_left]. set (s := fold_left text_op ops _) in *.
      destruct (text_op_docs s op _ Hsub) as [H1 H2]. split; [apply text_op_inv; [done|lia]|].
      split; [|split; [lia|done]]. destruct op; cbn; unfold text_Put; repeat case_match; done. }
  assert (forall id text, text_Get id s = inr text -> tx_docs s !! id = Some text) as Hget
    by (intros id text; unfold text_Get; destruct (tx_docs s !! id); congruence).
  split; [by rewrite <-Hm|]. split; [intros id text Hg; by eapply lookup_weaken; [apply Hget|]|].
  intros id text w topk Hg%Hget Hw Hk. by eapply ranked_found.
Qed.
End texts.

Lemma text_search_complete_witness :
  let s := fold_left text_op [TextPut 1 (bstr "edge node"); TextPut 2 (bstr "Edge!"); TextPut 1 (bstr "core"); TextPut 3 (bstr "an edge")] (text_new 2) in
  text_Get 3 s = inr (bstr "an edge") /\ 3 ∈ (text_Search (bstr "edge") 9 s).1.
Proof.
  intros s. split; [by vm_compute|].
  apply (text_search_complete 2 [TextPut 1 (bstr "edge node"); TextPut 2 (bstr "Edge!"); TextPut 1 (bstr "core");
           TextPut 3 (bstr "an edge")]) with (text := bstr "an edge"); [done|by vm_compute|..].
  - vm_compute. by right; left.
  - by vm_compute.
Defined.

(** ** Counters *)

Section sketch.
Context `{!MapOrder bytes Z}.

Definition sketch_exec (adds : list (bytes * Z)) (s : SketchEngine) : SketchEngine :=
  fold_left (fun s a => (sketch_Add a.1 a.2 s).2) adds s.

(** What was added under a key; an empty key is refused. *)
Definition added (adds : list (bytes * Z)) (key : bytes) : Z :=
  foldr (fun a n => if bool_decide (a.1 = key /\ key <> []) then a.2 + n else n) 0 adds.
Definition sketch_keys (adds : list (bytes * Z)) : gset bytes := list_to_set adds.*1 ∖ {[ [] ]}.
Definition add_sum (adds : list (bytes * Z)) : Z := foldr (fun a n => a.2 + n) 0 adds.

Lemma added_snoc adds a key :
  added (adds ++ [a]) key = added adds key + (if bool_decide (a.1 = key /\ key <> []) then a.2 else 0).
Proof.
  induction adds as [|b adds IH]; cbn [added foldr app].
  - case_bool_decide; lia.
  - fold (added (adds ++ [a]) key). fold (added adds key). rewrite IH. case_bool_decide; case_bool_decide; lia.
Qed.

Lemma added_le_sum adds key : Forall (fun a => 0 <= a.2) adds -> 0 <= added adds key <= add_sum adds.
Proof.
  induction 1 as [|a l Ha _ IH]; [done|]. cbn [added add_sum foldr]. fold (added l key). fold (add_sum l).
  case_bool_decide; lia.
Qed.

Record sketch_inv (cap : Z) (adds : list (bytes * Z)) (s : SketchEngine) : Prop := {
  ki_cap : sk_max_entries s = cap;
  ki_seen : sk_seen s = dom (sk_counts s);
  ki_bound : 0 < cap -> Z.of_nat (size (sk_counts s)) <= cap;
  ki_keys : dom (sk_counts s) ⊆ sketch_keys adds;
  ki_under key : 0 <= default 0 (sk_counts s !! key) <= added adds key;
  ki_exact : cap = 0 \/ Z.of_nat (size (sketch_keys adds)) < cap ->
    dom (sk_counts s) = sketch_keys adds /\ forall key, default 0 (sk_counts s !! key) = added adds key
}.

(** After [sketch_EvictIfNeeded] there is room for one more, and nothing is evicted
    while there was. *)
Lemma sketch_evict_spec cap adds s :
  0 <= cap -> sketch_inv cap adds s ->
  sketch_inv cap adds (sketch_EvictIfNeeded s) /\ (0 < cap -> Z.of_nat (size (sk_counts (sketch_EvictIfNeeded s))) < cap).
Proof.
  intros Hcap Hi. pose proof Hi as [Hc Hseen Hb Hk Hu He]. unfold sketch_EvictIfNeeded. rewrite Hc.
  destruct (Z.eqb_spec cap 0); [split; [done|lia]|]. destruct (Z.ltb_spec (Z.of_nat (size (sk_counts s))) cap); [done|].
  destruct (iter_order (sk_counts s)) as [|[k v] l] eqn:E.
  { apply iter_order_nil in E. rewrite E, map_size_empty in *. lia. }
  assert (sk_counts s !! k = Some v) as Hkv by (apply elem_of_iter_order; rewrite E; by left).
  assert (size (sk_counts s) <> 0%nat) by (rewrite map_size_non_empty_iff; intros E0; by rewrite E0 in Hkv).
  assert (size (delete k (sk_counts s)) = pred (size (sk_counts s))) as Hz by by apply map_size_delete_Some.
  split; [split; cbn|cbn; lia].
  - done.
  - by rewrite Hseen, dom_delete_L.
  - lia.
  - rewrite dom_delete_L. set_solver.
  - intros key. destruct (decide (key = k)) as [->|Hne]; [rewrite lookup_delete_eq; cbn; specialize (Hu k); lia|].
    rewrite lookup_delete_ne by done. apply Hu.
  - intros Hx. destruct (He Hx) as [Hd _]. rewrite <-Hd, size_dom in Hx. lia.
Qed.

Lemma sketch_Add_inv cap adds s a :
  0 <= cap -> 0 <= a.2 -> Forall (fun a => 0 <= a.2) adds -> add_sum adds + a.2 < 2 ^ 64 ->
  sketch_inv cap adds s -> sketch_inv cap (adds ++ [a]) (sketch_Add a.1 a.2 s).2.
Proof.
  intros Hcap Ha Hadds Hsum Hi. destruct a as [key inc]. cbn [fst snd] in *. unfold sketch_Add.
  assert (sketch_keys (adds ++ [(key, inc)]) = sketch_keys adds ∪ ({[key]} ∖ {[ [] ]})) as Hkeys
    by (unfold sketch_keys; rewrite fmap_app, list_to_set_app_L; cbn; set_solver).
  destruct (decide (key = [])) as [->|Hne].
  { rewrite bool_decide_true by done. cbn [snd]. rewrite difference_diag_L, union_empty_r_L in Hkeys. destruct Hi as [Hc Hseen Hb Hk Hu He].
    assert (forall k, added (adds ++ [([], inc)]) k = added adds k) as Hadd
      by (intros k; rewrite added_snoc, bool_decide_false by (by intros [<- ?]); lia).
    split; rewrite ?Hkeys; try done; [intros k; by rewrite Hadd|].
    intros [Hd Hx]%He. split; [done|]. intros k. by rewrite Hadd. }
  rewrite bool_decide_false by done. cbn [snd]. destruct (sketch_evict_spec cap adds s Hcap Hi) as [[Hc Hseen Hb Hk Hu He] Hroom].
  set (s' := sketch_EvictIfNeeded s) in *. clearbody s'. clear Hi s.
  assert (u64 (default 0 (sk_counts s' !! key) + inc) = default 0 (sk_counts s' !! key) + inc) as Hn.
  { specialize (Hu key). pose proof (added_le_sum adds key Hadds). apply u64_id. unfold is_u64. lia. }
  assert (({[key]} ∖ {[ [] ]} : gset bytes) = {[key]}) as Hkey by (clear -Hne; set_solver). rewrite Hkey in Hkeys.
  split; cbn [sk_max_entries sk_counts sk_seen]; rewrite ?Hn, ?Hkeys.
  - done.
  - by rewrite dom_insert_L, Hseen.
  - intros Hp. specialize (Hroom Hp). rewrite map_size_insert. destruct (sk_counts s' !! key); cbn; lia.
  - rewrite dom_insert_L. set_solver.
  - intros k. rewrite added_snoc. cbn [fst snd]. specialize (Hu k). destruct (decide (k = key)) as [->|Hk'].
    + rewrite lookup_insert_eq, bool_decide_true by done. cbn. lia.
    + rewrite lookup_insert_ne, bool_decide_false by (done || by intros [-> ?]). lia.
  - intros Hx. destruct He as [Hd Hcnt].
    { destruct Hx as [?|Hx]; [by left|right]. assert (sketch_keys adds ⊆ sketch_keys adds ∪ {[key]}) as Hle%subseteq_size by set_solver. lia. }
    split; [rewrite dom_insert_L, Hd; set_solver|]. intros k. rewrite added_snoc. cbn [fst snd].
    destruct (decide (k = key)) as [->|Hk'].
    + rewrite lookup_insert_eq, bool_decide_true by done. cbn. by rewrite Hcnt.
    + rewrite lookup_insert_ne, bool_decide_false by (done || by intros [-> ?]). rewrite Hcnt. lia.
Qed.

(** The sketch after any additions: it never counts more than was added under
    a key, it holds at most its cap of keys and reports exactly those as seen,
    and with fewer distinct keys than the cap, or no cap, its counts, the seen
    keys and the number of distinct keys are exact. *)
Theorem sketch_exact_below_cap cap adds :
  0 <= cap -> Forall (fun a => 0 <= a.2) adds -> add_sum adds < 2 ^ 64 ->
  let s := sketch_exec adds (sketch_new cap) in
  (forall key, 0 <= sketch_Estimate key s <= added adds key) /\
  (0 < cap -> sketch_UniqueEstimate s <= cap) /\
  (forall key, sketch_Seen key s = bool_decide (is_Some (sk_counts s !! key))) /\
  (cap = 0 \/ Z.of_nat (size (sketch_keys adds)) < cap ->
     (forall key, sketch_Estimate key s = added adds key) /\
     (forall key, sketch_Seen key s = bool_decide (key ∈ sketch_keys adds)) /\
     sketch_UniqueEstimate s = Z.of_nat (size (sketch_keys adds))).
Proof.
  intros Hcap Hadds Hsum s. assert (sketch_inv cap adds s) as [Hc Hseen Hb Hk Hu He].
  { subst s. induction adds as [|a adds IH] using rev_ind.
    - split; try done; try (cbn; rewrite map_size_empty; lia).
    - rewrite Forall_app, Forall_singleton in Hadds. destruct Hadds as [H1 H2].
      assert (add_sum (adds ++ [a]) = add_sum adds + a.2) as Hs
        by (clear; induction adds as [|b adds IH]; cbn [add_sum foldr app] in *; [lia|]; unfold add_sum in IH; rewrite IH; lia).
      unfold sketch_exec. rewrite fold_left_app. apply sketch_Add_inv; try done; [lia|]. apply IH; [done|cbn in H2; lia]. }
  unfold sketch_Estimate, sketch_Seen, sketch_UniqueEstimate. rewrite Hseen, size_dom. split; [done|]. split; [done|].
  split; [intros key; apply bool_decide_ext, elem_of_dom|]. intros Hx. destruct (He Hx) as [Hd Hcnt]. split; [done|].
  split; [by rewrite Hd|]. by rewrite <-size_dom, Hd.
Qed.
End sketch.

Lemma sketch_exact_below_cap_witness :
  let adds := [(bstr "a", 2); (bstr "b", 1); (bstr "a", 3)] in
  sketch_Estimate (bstr "a") (sketch_exec adds (sketch_new 3)) = 5.
Proof.
  intros adds. destruct (sketch_exact_below_cap 3 adds) as (_ & _ & _ & H); [done|by repeat constructor|done|].
  destruct H as [H _]; [right; by vm_compute|]. rewrite H. by vm_compute.
Defined.

(** At its cap the sketch evicts an entry for every addition, also for a key
    that it already holds: one key under a cap of one restarts at every
    addition. *)
Lemma sketch_restarts_at_cap : sketch_Estimate (bstr "a") (sketch_exec [(bstr "a", 2); (bstr "a", 3)] (sketch_new 1)) = 3.
Proof. by vm_compute. Qed.
