(* ===== verification/MemTable.v ===== *)
(** * The memtable (src/table/memtable.h, memtable.cc, arena.h)

    The primary map is used through the [IdMap] interface, so the theorems
    hold for the flat hash table under any hash function (the source uses the
    third-party XXHash64).  A value of the map is the memory a [float*] points
    to, as bytes, or [None] for the null pointer of a tombstone; arena memory
    is never written twice, so the contents stand for the pointer.  The arena
    keeps the allocation state.  Single-precision arithmetic, used only by the
    in-memory quantisation, is a parameter. *)
From S2P Require Import Prelude FlatHash Types Lexical.

Open Scope Z_scope.

(** IEEE single-precision operations on bit patterns. *)
Class F32 : Type := {
  f32_lt : Z -> Z -> bool;
  f32_add : Z -> Z -> Z;
  f32_sub : Z -> Z -> Z;
  f32_mul : Z -> Z -> Z;
  f32_div : Z -> Z -> Z;
  f32_of_u8 : Z -> Z;
  f32_to_u8 : Z -> Z
}.
Definition f32_0 : Z := 0.
Definition f32_1 : Z := 0x3F800000.
Definition f32_255 : Z := 0x437F0000.

(** ** Arena *)

(** src/table/arena.h:32-34 [Arena]. A block is the number of its bytes in use. *)
Record Arena : Type := MkArena { ar_block_bytes : Z; ar_blocks : list Z }.

(** src/table/memtable.cc:14-16 [AlignUp]. *)
Definition AlignUp (x a : Z) : Z := Z.land (x + (a - 1)) (Z.lnot (a - 1)).

(** src/table/memtable.cc:18-35 [Arena::Allocate]. The result is the index of
    the block and the offset in it.  A request larger than a block gets an
    offset at which the code writes past the end of the block. *)
Definition arena_Allocate (n align : Z) (ar : Arena) : (nat * Z) * Arena :=
  let blocks :=
    match last (ar_blocks ar) with
    | Some used => if ar_block_bytes ar <? AlignUp used align + n
                   then ar_blocks ar ++ [0] else ar_blocks ar
    | None => [0]
    end in
  let i := (length blocks - 1)%nat in
  let off := AlignUp (default 0 (last blocks)) align in
  ((i, off), MkArena (ar_block_bytes ar) (<[i := off + n]> blocks)).

(** src/table/memtable.cc:37-45 [Arena::Clear]. *)
Definition arena_Clear (ar : Arena) : Arena := MkArena (ar_block_bytes ar) [].

(** src/table/memtable.cc:47-52 [Arena::BytesUsed]. *)
Definition arena_BytesUsed (ar : Arena) : Z := foldr Z.add 0 (ar_blocks ar).

(** ** The multimap of timestamps: ascending keys, equal keys in insertion order *)

(** [std::multimap::insert] *)
Fixpoint mm_insert (ts id : Z) (l : list (Z * Z)) : list (Z * Z) :=
  match l with
  | [] => [(ts, id)]
  | (t, i) :: l' => if ts <? t then (ts, id) :: l else (t, i) :: mm_insert ts id l'
  end.

(** src/table/memtable.cc:116-122 [MemTable::Put]. The loop over
    [equal_range(ts)] that erases the first entry of [id]. *)
Fixpoint mm_erase_one (ts id : Z) (l : list (Z * Z)) : list (Z * Z) :=
  match l with
  | [] => []
  | (t, i) :: l => if (t =? ts) && (i =? id) then l else (t, i) :: mm_erase_one ts id l
  end.

(** ** The table *)

Section memtable.
Context {T : Type} `{IdMap T (option bytes)} `{F32}.

(** src/table/memtable.h:215-225 [MemTable]. *)
Record MemTable : Type := MkMem {
  mt_dim : Z;
  mt_quantize_inmem : bool;
  mt_arena : Arena;
  mt_map : T;
  mt_metadata : gmap Z Metadata;
  mt_temporal : list (Z * Z);
  mt_lexical : LexicalIndex
}.

(** src/table/memtable.cc:61-66 [MemTable::MemTable]. *)
Definition mt_new (dim arena_block_bytes : Z) (quantize_inmem : bool) : MemTable :=
  MkMem dim quantize_inmem (MkArena arena_block_bytes []) (im_new 128) ∅ [] lex_new.

(** src/table/memtable.cc:90-103 [MemTable::Put]. The quantised layout
    [min | inv_scale | codes]. *)
Definition sq8_encode (v : vec) : bytes :=
  let v0 := default 0 (head v) in
  let '(vmin, vmax) :=
    fold_left (fun '(mn, mx) x =>
      (if f32_lt x mn then x else mn, if f32_lt mx x then x else mx)) (tail v) (v0, v0) in
  let range := f32_sub vmax vmin in
  let pos := f32_lt f32_0 range in
  let inv_scale := if pos then f32_div f32_255 range else f32_0 in
  let code x :=
    let scaled := if pos then f32_mul (f32_div (f32_sub x vmin) range) f32_255 else f32_0 in
    f32_to_u8 (if f32_lt scaled f32_0 then f32_0
               else if f32_lt f32_255 scaled then f32_255 else scaled) in
  le_split 4 vmin ++ le_split 4 inv_scale ++ ((fun x => byte.of_Z (code x)) <$> v).

(** src/table/memtable.cc:259-265 [MemTable::Cursor::Next]. Decoding the
    quantised layout; the same lines are in [IterateWithMetadata]. *)
Definition sq8_decode (dim : Z) (mem : bytes) : vec :=
  let vmin := le_read 4 0 mem in
  let inv_scale := le_read 4 4 mem in
  let scale := if f32_lt f32_0 inv_scale then f32_div f32_1 inv_scale else f32_0 in
  (fun c => f32_add vmin (f32_mul (f32_of_u8 (byte.unsigned c)) scale)) <$> take (Z.to_nat dim) (drop 8 mem).

(** src/table/memtable.cc:112-124 [MemTable::Put]. The old timestamp of the id
    leaves the temporal index; the same lines are in [Delete]. *)
Definition drop_old_ts (id : Z) (m : MemTable) : list (Z * Z) :=
  match mt_metadata m !! id with
  | Some old => if 0 <? md_timestamp old then mm_erase_one (md_timestamp old) id (mt_temporal m)
                else mt_temporal m
  | None => mt_temporal m
  end.

Definition keeps_meta (meta : Metadata) : bool :=
  bool_decide (md_tenant meta <> []) || negb (md_src_vid meta =? 0) ||
  negb (md_timestamp meta =? 0) || bool_decide (md_text meta <> []).

(** src/table/memtable.cc:78-138 [MemTable::Put]. *)
Definition mt_Put (id : Z) (v : vec) (meta : Metadata) : M MemTable unit := fun m =>
  if negb (vec_dim v =? mt_dim m) then (inl (InvalidArgument "dim mismatch"), m) else
  let '(alloc_bytes, mem) :=
    if mt_quantize_inmem m && (0 <? mt_dim m) then (8 + mt_dim m, sq8_encode v)
    else (vec_dim v * 4, vec_bytes v) in
  let arena := (arena_Allocate alloc_bytes 4 (mt_arena m)).2 in
  let map := (im_put id (Some mem) (mt_map m)).2 in
  let temporal := drop_old_ts id m in
  if keeps_meta meta then
    (inr tt, MkMem (mt_dim m) (mt_quantize_inmem m) arena map (<[id := meta]> (mt_metadata m))
      (if 0 <? md_timestamp meta then mm_insert (md_timestamp meta) id temporal else temporal)
      (if bool_decide (md_text meta <> []) then lex_Add id (md_text meta) (mt_lexical m) else mt_lexical m))
  else
    (inr tt, MkMem (mt_dim m) (mt_quantize_inmem m) arena map (delete id (mt_metadata m))
      temporal (mt_lexical m)).

(** src/table/memtable.cc:143-167 [MemTable::PutBatch]. *)
Definition mt_PutBatch (ids : list Z) (vectors : list vec) : M MemTable unit := fun m =>
  if negb (zlen ids =? zlen vectors) then (inl (InvalidArgument "ids and vectors size mismatch"), m) else
  if bool_decide (ids = []) then (inr tt, m) else
  if negb (forallb (fun v => vec_dim v =? mt_dim m) vectors) then (inl (InvalidArgument "dim mismatch"), m) else
  let arena := fold_left (fun ar v => (arena_Allocate (vec_dim v * 4) 4 ar).2) vectors (mt_arena m) in
  let map := fold_left (fun mp '(id, v) => (im_put id (Some (vec_bytes v)) mp).2) (zip ids vectors) (mt_map m) in
  (inr tt, MkMem (mt_dim m) (mt_quantize_inmem m) arena map (mt_metadata m) (mt_temporal m) (mt_lexical m)).

(** src/table/memtable.cc:172-192 [MemTable::Delete]. *)
Definition mt_Delete (id : Z) : M MemTable unit := fun m =>
  (inr tt, MkMem (mt_dim m) (mt_quantize_inmem m) (mt_arena m) (im_put id None (mt_map m)).2
    (delete id (mt_metadata m)) (drop_old_ts id m) (lex_Remove id (mt_lexical m))).

(** src/table/memtable.cc:204-222 [MemTable::Get]. The memory behind
    [*out_vec] and [*out_meta]. *)
Definition mt_Get (id : Z) (m : MemTable) : Status + (bytes * Metadata) :=
  match im_find id (mt_map m) with
  | Some (Some mem) => inr (mem, default md_default (mt_metadata m !! id))
  | _ => inl (NotFound "vector not found")
  end.

(** src/table/memtable.h:98-101 [MemTable::IsTombstone]. *)
Definition mt_IsTombstone (id : Z) (m : MemTable) : bool :=
  match im_find id (mt_map m) with Some None => true | _ => false end.

(** src/table/memtable.h:58-60 [MemTable::GetCount]. *)
Definition mt_GetCount (m : MemTable) : Z := im_size (mt_map m).

(** src/table/memtable.cc:54-56 [MemTable::BytesUsed]. *)
Definition mt_BytesUsed (m : MemTable) : Z := arena_BytesUsed (mt_arena m).

(** src/table/memtable.cc:227-234 [MemTable::Clear]. *)
Definition mt_Clear (m : MemTable) : MemTable :=
  MkMem (mt_dim m) (mt_quantize_inmem m) (arena_Clear (mt_arena m)) (im_clear (mt_map m)) ∅ [] (lex_Clear (mt_lexical m)).

(** src/table/memtable.h:66-71 [MemTable::CursorEntry]. *)
Record CursorEntry : Type := MkCursorEntry {
  ce_id : Z; ce_vec : vec; ce_is_deleted : bool; ce_meta : option Metadata
}.

(** src/table/memtable.cc:239-279 [MemTable::CreateCursor]. The entries [Next]
    yields, in order. *)
Definition mt_cursor (m : MemTable) : list CursorEntry :=
  (fun '(id, ptr) =>
    match ptr with
    | None => MkCursorEntry id [] true None
    | Some mem =>
        MkCursorEntry id
          (if mt_quantize_inmem m then sq8_decode (mt_dim m) mem
           else read_vec (Z.to_nat (mt_dim m)) mem)
          false (mt_metadata m !! id)
    end) <$> im_entries (mt_map m).

(** src/table/memtable.h:188-195 [MemTable::GetByTimeRange]. From
    [lower_bound(start)] to [upper_bound(end)]; when the first lies after the
    second the loop runs past the end of the index. *)
Definition mt_GetByTimeRange (start end_ : Z) (m : MemTable) : Status + list Z :=
  let first := length (filter (fun e : Z * Z => e.1 < start) (mt_temporal m)) in
  let stop := length (filter (fun e : Z * Z => e.1 <= end_) (mt_temporal m)) in
  if (first <=? stop)%nat then inr (take (stop - first) (drop first (mt_temporal m))).*2
  else inl (Undefined "iterator past the end").

End memtable.

Arguments MemTable : clear implicits.
