(* ===== verification/FixedLog.v ===== *)
(** * The fixed-record storage engine (src/storage/storage_engine.cc)

    A file of 64-byte aligned records behind a 64-byte header, an in-memory
    buffer of records not yet written, and an index that is scanned from its
    newest entry.  The descriptor is opened without [O_APPEND], so it carries
    its own file offset, which starts at 0; the mapping is shared, so the
    mapped bytes are the bytes of the file.  Sizes stay below 2^63 (a file or
    an object in memory), so the sums of offsets are written without a wrap;
    the 32-bit header fields are truncated as the casts of the source do. *)
From S2P Require Import Prelude Env Types FlatHash Lexical MemTable.

Open Scope Z_scope.

(** [<=] of floats, which the quantiser uses beside the operations of [F32]. *)
Class F32Le : Type := { f32_le : Z -> Z -> bool }.
Definition f32_1e_9 : Z := 0x3089705F.
Definition f32_half : Z := 0x3F000000.

(** ** The file format *)

Definition kStorageAlign : Z := 64.
Definition zeros (n : Z) : bytes := replicate (Z.to_nat n) Byte.x00.

Definition log_magic : bytes := bstr "POMAI_LOGv1" ++ [Byte.x00].

(** include/pomai/storage_engine.hpp:74-83 [StorageFileHeader]. The magic, the
    version, the dimension, ten reserved words and four bytes of alignment
    padding, which nothing reads. *)
Definition StorageFileHeader (version dim : Z) : bytes :=
  log_magic ++ le_split 4 version ++ le_split 4 dim ++ zeros 40 ++ zeros 4.

(** include/pomai/storage_engine.hpp:80-82 [StorageFileHeader::valid]. *)
Definition header_valid (h : bytes) : bool :=
  bool_decide (take 12 h = log_magic) && (le_read 4 12 h =? 1) && (0 <? le_read 4 16 h).

(** include/pomai/storage_engine.hpp:88-98 [VectorRecordHeader]. *)
Record VectorRecordHeader : Type := MkVrh {
  vrh_id : Z;
  vrh_dim : Z;
  vrh_flags : Z;
  vrh_metadata_len : Z
}.
Definition kFlagTombstone : Z := 1.
Definition kFlagQuantized : Z := 2.
Definition is_tombstone (h : VectorRecordHeader) : bool := negb (Z.land (vrh_flags h) kFlagTombstone =? 0).
Definition is_quantized (h : VectorRecordHeader) : bool := negb (Z.land (vrh_flags h) kFlagQuantized =? 0).

(** The 64 bytes of the header in memory. *)
Definition vrh_bytes (h : VectorRecordHeader) : bytes :=
  le_split 8 (vrh_id h) ++ le_split 4 (vrh_dim h) ++ le_split 4 (vrh_flags h) ++
  le_split 4 (vrh_metadata_len h) ++ zeros 44.
Definition vrh_at (b : bytes) : VectorRecordHeader :=
  MkVrh (le_read 8 0 b) (le_read 4 8 b) (le_read 4 12 b) (le_read 4 16 b).

(** include/pomai/storage_engine.hpp:101-108 [RecordSize]. *)
Definition RecordSize (dim metadata_len : Z) (quantized : bool) : Z :=
  let payload := if quantized then metadata_len + 2 * 4 + dim else metadata_len + dim * 4 in
  Z.land ((64 + payload) + kStorageAlign - 1) (Z.lnot (kStorageAlign - 1)).

(** ** The engine *)

(** include/pomai/storage_engine.hpp:176-176 [StorageEngine::IndexEntry]. *)
Record IndexEntry : Type := MkIe {
  ie_offset : Z;
  ie_length : Z;
  ie_tombstone : bool;
  ie_in_buffer : bool
}.

(** include/pomai/storage_engine.hpp:166-180 [StorageEngine]. [fx_fd] is the
    file offset of the descriptor when one is open; [fx_map_size] is 0 when
    nothing is mapped. *)
Record FixedStore : Type := MkFx {
  fx_path : path;
  fx_fd : option Z;
  fx_dim : Z;
  fx_flush_threshold : Z;
  fx_file_size : Z;
  fx_buffer : bytes;
  fx_pending_bytes : Z;
  fx_map_size : Z;
  fx_index : list (Z * IndexEntry);
  fx_use_quantization : bool;
  fx_fs : fs
}.

#[global] Instance fx_HasFs : HasFs FixedStore := {|
  get_fs := fx_fs;
  set_fs f s := MkFx (fx_path s) (fx_fd s) (fx_dim s) (fx_flush_threshold s) (fx_file_size s)
    (fx_buffer s) (fx_pending_bytes s) (fx_map_size s) (fx_index s) (fx_use_quantization s) f
|}.

Definition fx_new (f : fs) : FixedStore := MkFx "" None 0 (32 * 1024 * 1024) 0 [] 0 0 [] true f.

Definition with_fd (fd : option Z) (s : FixedStore) : FixedStore :=
  MkFx (fx_path s) fd (fx_dim s) (fx_flush_threshold s) (fx_file_size s)
    (fx_buffer s) (fx_pending_bytes s) (fx_map_size s) (fx_index s) (fx_use_quantization s) (fx_fs s).
Definition with_file_size (n : Z) (s : FixedStore) : FixedStore :=
  MkFx (fx_path s) (fx_fd s) (fx_dim s) (fx_flush_threshold s) n
    (fx_buffer s) (fx_pending_bytes s) (fx_map_size s) (fx_index s) (fx_use_quantization s) (fx_fs s).
Definition with_buffer (b : bytes) (pending : Z) (s : FixedStore) : FixedStore :=
  MkFx (fx_path s) (fx_fd s) (fx_dim s) (fx_flush_threshold s) (fx_file_size s)
    b pending (fx_map_size s) (fx_index s) (fx_use_quantization s) (fx_fs s).
Definition with_map_size (n : Z) (s : FixedStore) : FixedStore :=
  MkFx (fx_path s) (fx_fd s) (fx_dim s) (fx_flush_threshold s) (fx_file_size s)
    (fx_buffer s) (fx_pending_bytes s) n (fx_index s) (fx_use_quantization s) (fx_fs s).
Definition with_index (idx : list (Z * IndexEntry)) (s : FixedStore) : FixedStore :=
  MkFx (fx_path s) (fx_fd s) (fx_dim s) (fx_flush_threshold s) (fx_file_size s)
    (fx_buffer s) (fx_pending_bytes s) (fx_map_size s) idx (fx_use_quantization s) (fx_fs s).

Definition fx_is_open (s : FixedStore) : bool := bool_decide (is_Some (fx_fd s)).
Definition not_open : Status := MkStatus kFailedPrecondition "not open".

(** The bytes of the file behind the descriptor. *)
Definition fx_contents (s : FixedStore) : bytes := default [] (fs_files (fx_fs s) !! fx_path s).

(** [write(fd, data, n)]: the bytes go to the file offset of the descriptor,
    which advances by what was written; a failing call may have written a
    prefix. *)
Definition fd_write (op : string) (data : bytes) : M FixedStore unit :=
  s ← mget;
  let off := default 0 (fx_fd s) in
  d ← on_fs next_fault;
  let written := match d with None => data | Some flt => take (flt_written flt) data end in
  on_fs (set_file (fx_path s) (pwrite (fx_contents s) off written)) ;;
  mmodify (with_fd (Some (off + zlen written))) ;;
  match d with
  | None => mret tt
  | Some flt => mfail (ErrnoStatus op (flt_errno flt))
  end.

(** A record is at least as long as its header. *)
Definition scan_fuel (map_size : Z) : nat := Z.to_nat map_size.

(** src/storage/storage_engine.cc:361-367 [StorageEngine::BuildIndexFromMmap].
    The scan loop; [None] when the bound on the number of records is used up. *)
Fixpoint scan_records (fuel : nat) (map : bytes) (off : Z) : option (list (Z * IndexEntry)) :=
  if zlen map <? off + 64 then Some [] else
  match fuel with
  | O => None
  | S fuel =>
      let h := vrh_at (drop (Z.to_nat off) map) in
      let rec_len := RecordSize (vrh_dim h) (vrh_metadata_len h) (is_quantized h) in
      if zlen map <? off + rec_len then Some [] else
      rest ← scan_records fuel map (off + rec_len);
      Some ((vrh_id h, MkIe off rec_len (is_tombstone h) false) :: rest)
  end.

(** src/storage/storage_engine.cc:355-369 [StorageEngine::BuildIndexFromMmap]. *)
Definition fx_BuildIndexFromMmap : M FixedStore unit :=
  mmodify (with_index []) ;;
  s ← mget;
  if fx_map_size s <=? 64 then mret tt else
  match scan_records (scan_fuel (fx_map_size s)) (take (Z.to_nat (fx_map_size s)) (fx_contents s)) 64 with
  | None => mfail OutOfFuel
  | Some idx => mmodify (with_index idx)
  end.

(** src/storage/storage_engine.cc:371-390 [StorageEngine::ReloadMmap]. *)
Definition fx_ReloadMmap : M FixedStore unit :=
  s ← mget;
  (if 0 <? fx_map_size s then ignore (on_fs (syscall "munmap" (mret tt))) ;; mmodify (with_map_size 0)
   else mret tt) ;;
  if negb (fx_is_open s) then mret tt else
  size ← on_fs (syscall "fstat" (c ← lookup_file "fstat" (fx_path s); mret (zlen c)));
  mmodify (with_file_size size) ;;
  if size =? 0 then fx_BuildIndexFromMmap else
  on_fs (syscall "mmap" (mret tt)) ;;
  mmodify (with_map_size size) ;;
  fx_BuildIndexFromMmap.

(** src/storage/storage_engine.cc:97-113 [StorageEngine::Close]. *)
Definition fx_Close : M FixedStore unit :=
  s ← mget;
  (if 0 <? fx_map_size s then ignore (on_fs (syscall "munmap" (mret tt))) else mret tt) ;;
  (if fx_is_open s then ignore (on_fs (syscall "close" (mret tt))) else mret tt) ;;
  mmodify (fun s => with_fd None (with_file_size 0 (with_map_size 0 (with_index [] (with_buffer [] 0 s))))).

(** The failure exits of [Open] after the descriptor is there. *)
Definition close_and_fail (e : Status) : M FixedStore unit :=
  ignore (on_fs (syscall "close" (mret tt))) ;; mmodify (with_fd None) ;; mfail e.

(** src/storage/storage_engine.cc:62-91 [StorageEngine::Open]. A new file gets
    its header by [write]; an existing one is checked by [pread], which does
    not move the offset.  A read that fails or finds the end stops the loop. *)
Definition open_header (dim : Z) : M FixedStore unit :=
  s ← mget;
  if fx_file_size s =? 0 then
    r ← try_ (fd_write "write header" (StorageFileHeader 1 dim));
    match r with
    | inl e => close_and_fail e
    | inr _ => mmodify (with_file_size 64)
    end
  else
    d ← on_fs next_fault;
    let hdr := match d with None => take 64 (fx_contents s) | Some _ => [] end in
    if (zlen hdr <? 64) || negb (header_valid hdr) || negb (le_read 4 16 hdr =? dim)
    then close_and_fail (Corruption "invalid header")
    else mret tt.

(** src/storage/storage_engine.cc:30-95 [StorageEngine::Open]. *)
Definition fx_Open (p : path) (dim threshold : Z) (use_quantization : bool) : M FixedStore unit :=
  mguard (negb (dim =? 0)) (InvalidArgument "dim must be > 0") ;;
  fx_Close ;;
  mmodify (fun s => MkFx p None dim threshold (fx_file_size s) [] 0 (fx_map_size s) [] use_quantization (fx_fs s)) ;;
  on_fs (syscall "open" (f ← mget; set_file p (default [] (fs_files f !! p)))) ;;
  mmodify (with_fd (Some 0)) ;;
  r ← try_ (on_fs (syscall "fstat" (c ← lookup_file "fstat" p; mret (zlen c))));
  match r with
  | inl e => close_and_fail e
  | inr size =>
      mmodify (with_file_size size) ;;
      open_header dim ;;
      fx_ReloadMmap
  end.

(** ** Writing *)

Section quantise.
Context `{F32} `{F32Le}.

(** src/storage/storage_engine.cc:178-182 [StorageEngine::Append]. The smallest
    and the largest component, from a first one; the same loop is in [AppendBatch]. *)
Definition range_from (v0 : Z) (l : vec) : Z * Z :=
  fold_left (fun '(mn, mx) x => (if f32_lt x mn then x else mn, if f32_lt mx x then x else mx)) l (v0, v0).

(** src/storage/storage_engine.cc:183-189 [StorageEngine::Append]. One byte per
    component; [std::min] and [std::max] keep their first argument on ties. *)
Definition quantise (mn mx : Z) (v : vec) : bytes :=
  let scale := if f32_le (f32_sub mx mn) f32_1e_9 then f32_0 else f32_div f32_255 (f32_sub mx mn) in
  (fun x =>
     let f := f32_add (f32_mul (f32_sub x mn) scale) f32_half in
     let m := if f32_lt f f32_255 then f else f32_255 in
     byte.of_Z (f32_to_u8 (if f32_lt f32_0 m then m else f32_0))) <$> v.

(** src/storage/storage_engine.cc:430-432 [StorageEngine::Get]. *)
Definition dequantise (mn mx : Z) (q : bytes) : vec :=
  let inv_scale := if f32_le (f32_sub mx mn) f32_1e_9 then f32_0 else f32_div (f32_sub mx mn) f32_255 in
  (fun c => f32_add mn (f32_mul (f32_of_u8 (byte.unsigned c)) inv_scale)) <$> q.

(** The record goes to the end of the buffer, which [resize] has filled with
    zeros; copying more than the record holds would leave the buffer. *)
Definition buffer_record (rec_len : Z) (data : bytes) : M FixedStore unit :=
  if rec_len <? zlen data then mfail (Undefined "copy past the end of the buffer") else
  mmodify (fun s => with_buffer (fx_buffer s ++ data ++ zeros (rec_len - zlen data)) (fx_pending_bytes s + rec_len) s).

(** src/storage/storage_engine.cc:115-133 [StorageEngine::AppendToBuffer]. *)
Definition fx_AppendToBuffer (h : VectorRecordHeader) (metadata : bytes) (v : vec) : M FixedStore unit :=
  buffer_record (RecordSize (vrh_dim h) (vrh_metadata_len h) (is_quantized h))
    (vrh_bytes h ++ metadata ++ vec_bytes v).

(** src/storage/storage_engine.cc:135-157 [StorageEngine::AppendToBufferQuantized]. *)
Definition fx_AppendToBufferQuantized (h : VectorRecordHeader) (metadata : bytes) (mn mx : Z) (q : bytes)
  : M FixedStore unit :=
  buffer_record (RecordSize (vrh_dim h) (vrh_metadata_len h) true)
    (vrh_bytes h ++ metadata ++ le_split 4 mn ++ le_split 4 mx ++ q).

(** src/storage/storage_engine.cc:197-204 [StorageEngine::Append]. The index
    entry of the record that ends the buffer; the same lines are in
    [AppendBatch] and [Delete]. *)
Definition index_buffered (id rec_len : Z) (tombstone : bool) : M FixedStore unit :=
  mmodify (fun s =>
    with_index (fx_index s ++ [(id, MkIe (fx_file_size s + (zlen (fx_buffer s) - rec_len)) rec_len tombstone true)]) s).

(** src/storage/storage_engine.cc:314-345 [StorageEngine::FlushBufferToFile].
    The loop writes everything, or fails with a prefix written. *)
Definition fx_FlushBufferToFile : M FixedStore unit :=
  s ← mget;
  if bool_decide (fx_buffer s = []) then mret tt else
  fd_write "write" (fx_buffer s) ;;
  on_fs (syscall "fsync" (mret tt)) ;;
  mmodify (fun s =>
    with_file_size (fx_file_size s + zlen (fx_buffer s))
      (with_buffer [] 0
        (with_index ((fun '(id, e) => (id, MkIe (ie_offset e) (ie_length e) (ie_tombstone e) false)) <$> fx_index s) s))).

(** src/storage/storage_engine.cc:347-353 [StorageEngine::Flush]. *)
Definition fx_Flush : M FixedStore unit :=
  s ← mget;
  mguard (fx_is_open s) not_open ;;
  fx_FlushBufferToFile ;;
  fx_ReloadMmap.

(** src/storage/storage_engine.cc:207-213 [StorageEngine::Append]. The same
    lines end [AppendBatch] and [Delete]. *)
Definition auto_flush : M FixedStore unit :=
  s ← mget;
  if fx_flush_threshold s <=? fx_pending_bytes s then fx_Flush else mret tt.

(** src/storage/storage_engine.cc:159-214 [StorageEngine::Append]. *)
Definition fx_Append (id : Z) (v : vec) (meta : option Metadata) : M FixedStore unit :=
  s ← mget;
  mguard (fx_is_open s) not_open ;;
  mguard (vec_dim v =? fx_dim s) (InvalidArgument "dim mismatch") ;;
  let blob := match meta with Some m => md_tenant m | None => [] end in
  let dim := u32 (vec_dim v) in
  let len := u32 (zlen blob) in
  (if fx_use_quantization s then
     let '(mn, mx) := range_from (default 0 (head v)) (tail v) in
     fx_AppendToBufferQuantized (MkVrh id dim kFlagQuantized len) blob mn mx (quantise mn mx v)
   else fx_AppendToBuffer (MkVrh id dim 0 len) blob v) ;;
  index_buffered id (RecordSize dim len (fx_use_quantization s)) false ;;
  auto_flush.

(** The vectors of a flat buffer, [dim] floats each. *)
Fixpoint batch_rows (dim : nat) (ids : list Z) (vectors : vec) : list (Z * vec) :=
  match ids with
  | [] => []
  | id :: ids => (id, take dim vectors) :: batch_rows dim ids (drop dim vectors)
  end.

(** src/storage/storage_engine.cc:229-233 [StorageEngine::AppendBatch]. *)
Fixpoint append_rows (rows : list (Z * vec)) : M FixedStore unit :=
  match rows with
  | [] => mret tt
  | (id, v) :: rows => fx_Append id v None ;; append_rows rows
  end.

(** src/storage/storage_engine.cc:250-273 [StorageEngine::AppendBatch]. *)
Fixpoint append_rows_quantized (dim mn mx : Z) (rows : list (Z * vec)) : M FixedStore unit :=
  match rows with
  | [] => mret tt
  | (id, v) :: rows =>
      fx_AppendToBufferQuantized (MkVrh id dim kFlagQuantized 0) [] mn mx (quantise mn mx v) ;;
      index_buffered id (RecordSize dim 0 true) false ;;
      append_rows_quantized dim mn mx rows
  end.

(** src/storage/storage_engine.cc:216-282 [StorageEngine::AppendBatch]. *)
Definition fx_AppendBatch (ids : list Z) (vectors : vec) (dim : Z) : M FixedStore unit :=
  s ← mget;
  mguard (fx_is_open s) not_open ;;
  mguard (negb (dim =? 0)) (InvalidArgument "dim must be > 0") ;;
  if bool_decide (ids = []) then mret tt else
  mguard (zlen vectors =? u64 (zlen ids * dim)) (InvalidArgument "AppendBatch: ids * dim mismatch") ;;
  let rows := batch_rows (Z.to_nat dim) ids vectors in
  if negb (fx_use_quantization s) then append_rows rows else
  let '(mn, mx) := range_from (default 0 (head vectors)) vectors in
  append_rows_quantized dim mn mx rows ;;
  auto_flush.

(** src/storage/storage_engine.cc:284-312 [StorageEngine::Delete]. *)
Definition fx_Delete (id : Z) : M FixedStore unit :=
  s ← mget;
  mguard (fx_is_open s) not_open ;;
  fx_AppendToBuffer (MkVrh id (fx_dim s) kFlagTombstone 0) [] [] ;;
  index_buffered id (RecordSize (fx_dim s) 0 false) true ;;
  auto_flush.

(** ** Reading *)

(** include/pomai/storage_engine.hpp:137-142 [StorageEngine::GetResult]. The
    floats behind [data]; [meta] is never set. *)
Record GetResult : Type := MkGr { gr_data : option vec; gr_dim : Z; gr_is_tombstone : bool }.

(** src/storage/storage_engine.cc:399-400 [StorageEngine::Get]. *)
Definition find_newest (id : Z) (idx : list (Z * IndexEntry)) : option IndexEntry :=
  (fun r => r.2.2) <$> list_find (fun p : Z * IndexEntry => p.1 = id) (reverse idx).

(** src/storage/storage_engine.cc:419-436 [StorageEngine::Get]. The vector of a
    record in memory. *)
Definition record_vec (rec : bytes) : vec :=
  let h := vrh_at rec in
  let body := drop (Z.to_nat (64 + vrh_metadata_len h)) rec in
  if is_quantized h
  then dequantise (le_read 4 0 body) (le_read 4 4 body) (take (Z.to_nat (vrh_dim h)) (drop 8 body))
  else read_vec (Z.to_nat (vrh_dim h)) body.

(** src/storage/storage_engine.cc:392-438 [StorageEngine::Get]. *)
Definition fx_Get (id : Z) (s : FixedStore) : Status + GetResult :=
  match find_newest id (fx_index s) with
  | None => inl (NotFound "vector id")
  | Some e =>
      if ie_tombstone e then inr (MkGr None 0 true) else
      let buf_off := if ie_in_buffer e then ie_offset e - fx_file_size s else 0 in
      if ie_in_buffer e && (zlen (fx_buffer s) <? buf_off + ie_length e) then inl (Corruption "index") else
      if negb (ie_in_buffer e) && (fx_map_size s <? ie_offset e + ie_length e) then inl (Corruption "index") else
      let rec := if ie_in_buffer e then drop (Z.to_nat buf_off) (fx_buffer s)
                 else drop (Z.to_nat (ie_offset e)) (fx_contents s) in
      inr (MkGr (Some (record_vec rec)) (vrh_dim (vrh_at rec)) false)
  end.
End quantise.
