(* ===== verification/MemTableTheorems.v ===== *)
(** * Theorems about the memtable

    The table implements a map from identifiers to vectors with metadata and
    tombstones; its temporal index lists exactly the timestamped entries; the
    arena never hands out overlapping or out-of-block memory for requests that
    fit a block. *)
From S2P Require Import Prelude FlatHash Types Lexical MemTable.

Open Scope Z_scope.

(** ** The temporal index as a sorted list *)

Definition ts_le (x y : Z * Z) : Prop := x.1 <= y.1.

Lemma elem_of_mm_insert ts id l x : x ∈ mm_insert ts id l <-> x = (ts, id) \/ x ∈ l.
Proof.
  induction l as [|[t i] l IH]; cbn [mm_insert]; [by rewrite list_elem_of_singleton, elem_of_nil; tauto|].
  destruct (ts <? t); rewrite !elem_of_cons, ?IH; tauto.
Qed.

Lemma NoDup_mm_insert ts id l : NoDup l -> (ts, id) ∉ l -> NoDup (mm_insert ts id l).
Proof.
  induction 1 as [|[t i] l Hn Hnd IH]; cbn [mm_insert]; intros Hni; [repeat constructor; set_solver|].
  apply not_elem_of_cons in Hni as [Hne Hni].
  destruct (ts <? t); constructor; [|by constructor| |by apply IH].
  - by apply not_elem_of_cons.
  - rewrite elem_of_mm_insert. intros [E|E]; [by apply Hne|by apply Hn].
Qed.

Lemma StronglySorted_mm_insert ts id l :
  StronglySorted ts_le l -> StronglySorted ts_le (mm_insert ts id l).
Proof.
  induction 1 as [|[t i] l Hs IH Hall]; cbn [mm_insert]; [repeat constructor|].
  destruct (Z.ltb_spec ts t) as [Hlt|Hge].
  - constructor; [by constructor|]. constructor; [unfold ts_le; cbn; lia|].
    eapply Forall_impl; [exact Hall|]. unfold ts_le. cbn. intros; lia.
  - constructor; [done|]. apply Forall_forall. intros x [->|Hx]%elem_of_mm_insert; [unfold ts_le; cbn; lia|].
    rewrite Forall_forall in Hall. by apply Hall.
Qed.

Lemma elem_of_mm_erase_one ts id l x :
  NoDup l -> x ∈ mm_erase_one ts id l <-> x ∈ l /\ x <> (ts, id).
Proof.
  induction 1 as [|[t i] l Hn Hnd IH]; cbn [mm_erase_one].
  - rewrite !elem_of_nil. tauto.
  - rewrite elem_of_cons.
    destruct (Z.eqb_spec t ts) as [->|Ht], (Z.eqb_spec i id) as [->|Hi]; cbn [andb];
      rewrite ?elem_of_cons, ?IH; split; intros Hx; destruct_and?; destruct_or?; subst;
      (split; [tauto|]) || idtac; try congruence; try tauto; try (intros ->; by apply Hn).
Qed.

Lemma sublist_mm_erase_one ts id l : sublist (mm_erase_one ts id l) l.
Proof.
  induction l as [|[t i] l IH]; cbn [mm_erase_one]; [constructor|].
  destruct (_ && _); [by apply sublist_cons|by apply sublist_skip].
Qed.

Lemma StronglySorted_sublist {A} (R : relation A) l k :
  sublist l k -> StronglySorted R k -> StronglySorted R l.
Proof.
  induction 1 as [|x l k Hs IH|x l k Hs IH]; [done|..]; intros Hk; apply StronglySorted_inv in Hk as [Hk Hall].
  - constructor; [by apply IH|]. apply Forall_forall. intros y Hy. rewrite Forall_forall in Hall.
    apply Hall. by eapply elem_of_submseteq; [|apply sublist_submseteq].
  - by apply IH.
Qed.

(** In a sorted list the entries below a bound come first. *)
Lemma sorted_split (P : Z * Z -> Prop) `{forall x, Decision (P x)} l :
  StronglySorted ts_le l -> (forall x y, ts_le x y -> P y -> P x) ->
  take (length (filter P l)) l = filter P l /\
  drop (length (filter P l)) l = filter (fun x => ~ P x) l.
Proof.
  intros Hs Hmono. induction Hs as [|x l Hs IH Hall]; [done|]. rewrite !filter_cons.
  destruct (decide (P x)) as [Hx|Hx].
  - cbn [length take drop]. destruct IH as [-> ->]. split; [done|]. by rewrite decide_False by tauto.
  - rewrite decide_True by done. assert (filter P l = []) as E.
    { destruct (filter P l) as [|y k] eqn:E; [done|]. exfalso. apply Hx.
      assert (y ∈ filter P l) as [Py Hy]%list_elem_of_filter by (rewrite E; by left).
      eapply Hmono; [|exact Py]. rewrite Forall_forall in Hall. by apply Hall. }
    rewrite E in *. cbn [length take drop] in *. destruct IH as [_ <-]. by rewrite drop_0.
Qed.

(** The slice between two bounds, as [lower_bound] and [upper_bound] give it. *)
Lemma sorted_range start end_ l :
  StronglySorted ts_le l -> start <= end_ ->
  let first := length (filter (fun e : Z * Z => e.1 < start) l) in
  let stop := length (filter (fun e : Z * Z => e.1 <= end_) l) in
  (first <= stop)%nat /\
  take (stop - first) (drop first l) = filter (fun e : Z * Z => start <= e.1 <= end_) l.
Proof.
  intros Hs Hle. cbn zeta. set (hi := filter (fun e : Z * Z => e.1 <= end_) l).
  assert (filter (fun e : Z * Z => e.1 < start) l = filter (fun e : Z * Z => e.1 < start) hi) as Elo.
  { unfold hi. rewrite list_filter_filter. apply list_filter_iff. intros; lia. }
  rewrite Elo. set (lo := filter (fun e : Z * Z => e.1 < start) hi).
  assert (length lo <= length hi)%nat as Hlen by apply length_filter.
  split; [done|]. rewrite take_drop_commute.
  replace (length lo + (length hi - length lo))%nat with (length hi) by lia.
  destruct (sorted_split (fun e => e.1 <= end_) l) as [Etake _]; [done|unfold ts_le; intros; lia|].
  fold hi in Etake. rewrite Etake.
  destruct (sorted_split (fun e => e.1 < start) hi) as [_ Edrop]; [|unfold ts_le; intros; lia|].
  { eapply StronglySorted_sublist; [apply sublist_filter|done]. }
  fold lo in Edrop. rewrite Edrop. unfold hi. rewrite list_filter_filter. apply list_filter_iff. intros; lia.
Qed.

(** How many entries satisfy a condition. *)
Definition count (P : Z * Z -> Prop) `{forall x, Decision (P x)} (l : list (Z * Z)) : nat := length (filter P l).

(** A timestamp strictly between [end] and [start] puts the bounds in the
    wrong order. *)
Lemma count_gap start end_ ts id l :
  (ts, id) ∈ l -> end_ < ts < start ->
  (count (fun e => e.1 <= end_)%Z l < count (fun e => e.1 < start)%Z l)%nat.
Proof.
  intros Hin Hb. unfold count. induction l as [|[t i] l IH]; [by apply not_elem_of_nil in Hin|].
  rewrite !filter_cons. cbn [fst].
  assert (length (filter (fun e : Z * Z => e.1 <= end_)%Z l) <= length (filter (fun e : Z * Z => e.1 < start)%Z l))%nat as Hle.
  { clear -Hb. induction l as [|[t i] l IH]; [done|]. rewrite !filter_cons. cbn [fst].
    repeat case_decide; cbn [length]; lia. }
  apply elem_of_cons in Hin as [[= <- <-]|Hin].
  - rewrite decide_False, decide_True by lia. cbn [length]. lia.
  - specialize (IH Hin). repeat case_decide; cbn [length]; lia.
Qed.

(** ** Invariant and abstract view *)

Section view.
Context {T : Type} `{IdMapLaws T (option bytes)} `{F32}.
Implicit Types m : MemTable T.

(** The temporal index holds exactly the timestamps of the metadata, and only
    stored vectors have metadata. *)
Record mt_inv m : Prop := {
  mi_map : im_wf (mt_map m);
  mi_sorted : StronglySorted ts_le (mt_temporal m);
  mi_nodup : NoDup (mt_temporal m);
  mi_temporal ts id : (ts, id) ∈ mt_temporal m <->
    0 < ts /\ exists meta, mt_metadata m !! id = Some meta /\ md_timestamp meta = ts;
  mi_meta id : is_Some (mt_metadata m !! id) -> exists mem, im_abs (mt_map m) !! id = Some (Some mem)
}.

(** What a reader sees at an identifier: nothing, a tombstone, or the stored
    memory with its metadata. *)
Definition mt_view m (id : Z) : option (option (bytes * Metadata)) :=
  match im_abs (mt_map m) !! id with
  | None => None
  | Some None => Some None
  | Some (Some mem) => Some (Some (mem, default md_default (mt_metadata m !! id)))
  end.

Definition id_ok (id : Z) : Prop := id <> kEmptyKey.

Lemma mt_Get_view m id :
  im_wf (mt_map m) -> id_ok id ->
  mt_Get id m = match mt_view m id with
                | Some (Some r) => inr r
                | _ => inl (NotFound "vector not found")
                end.
Proof.
  intros Hwf Hid. unfold mt_Get, mt_view. rewrite im_find_abs by done.
  destruct (im_abs (mt_map m) !! id) as [[mem|]|]; done.
Qed.

(** Removing the old timestamp of an identifier. *)
Lemma elem_of_drop_old_ts m id x :
  mt_inv m -> x ∈ drop_old_ts id m <-> x ∈ mt_temporal m /\ x.2 <> id.
Proof.
  intros [_ _ Hnd Ht _]. unfold drop_old_ts. destruct x as [ts i]. cbn [snd].
  destruct (mt_metadata m !! id) as [old|] eqn:E.
  - destruct (Z.ltb_spec 0 (md_timestamp old)) as [Hpos|Hle].
    + rewrite elem_of_mm_erase_one by done. split; intros [Hin Hne]; (split; [done|]).
      * intros ->. apply Ht in Hin as (_ & meta & Hm & <-). rewrite E in Hm. by injection Hm as ->.
      * intros [= -> ->]. done.
    + split; [|tauto]. intros Hin. split; [done|]. intros ->.
      apply Ht in Hin as (Hp & meta & Hm & <-). rewrite E in Hm. injection Hm as ->. lia.
  - split; [|tauto]. intros Hin. split; [done|]. intros ->.
    apply Ht in Hin as (_ & meta & Hm & _). congruence.
Qed.

Lemma sublist_drop_old_ts m id : sublist (drop_old_ts id m) (mt_temporal m).
Proof.
  unfold drop_old_ts. destruct (mt_metadata m !! id); [destruct (_ <? _)|]; try done.
  apply sublist_mm_erase_one.
Qed.

Lemma mt_inv_clear m : mt_inv m -> mt_inv (mt_Clear m).
Proof.
  intros [Hwf _ _ _ _]. split; cbn; [by apply im_wf_clear|constructor|constructor|..].
  - intros ts id. rewrite elem_of_nil. split; [done|]. by intros (_ & meta & ? & _).
  - intros id [? ?]. done.
Qed.

Lemma mt_inv_new dim blk q : mt_inv (mt_new (T := T) dim blk q).
Proof.
  split; cbn; [apply im_wf_new; lia|constructor|constructor|..].
  - intros ts id. rewrite elem_of_nil. split; [done|]. by intros (_ & meta & ? & _).
  - intros id [? ?]. done.
Qed.

Lemma mt_inv_delete m id : mt_inv m -> id_ok id -> mt_inv (mt_Delete id m).2.
Proof.
  intros Hinv Hid. pose proof Hinv as [Hwf Hs Hnd Ht Hm]. split; cbn [snd mt_Delete mt_map mt_temporal mt_metadata].
  - by apply im_wf_put.
  - eapply StronglySorted_sublist; [apply sublist_drop_old_ts|done].
  - eapply sublist_NoDup; [done|apply sublist_drop_old_ts].
  - intros ts i. rewrite elem_of_drop_old_ts, Ht by done. cbn [snd]. split.
    + intros ((Hp & meta & Hme & Hts) & Hne). split; [done|]. exists meta. by rewrite lookup_delete_ne.
    + intros (Hp & meta & [Hne Hme]%lookup_delete_Some & Hts). split; [|done]. split; [done|]. by exists meta.
  - intros i [meta [Hne Hme]%lookup_delete_Some]. rewrite im_abs_put, lookup_insert_ne by done.
    apply Hm. by exists meta.
Qed.

(** The state a successful [Put] leaves. *)
Definition put_mem m (v : vec) : bytes :=
  if mt_quantize_inmem m && (0 <? mt_dim m) then sq8_encode v else vec_bytes v.

Lemma mt_Put_ok m id v meta :
  vec_dim v = mt_dim m ->
  exists m', mt_Put id v meta m = (inr tt, m') /\
    mt_map m' = (im_put id (Some (put_mem m v)) (mt_map m)).2 /\
    mt_metadata m' = (if keeps_meta meta then <[id := meta]> (mt_metadata m) else delete id (mt_metadata m)) /\
    mt_temporal m' = (if keeps_meta meta && (0 <? md_timestamp meta)
                      then mm_insert (md_timestamp meta) id (drop_old_ts id m) else drop_old_ts id m) /\
    mt_dim m' = mt_dim m /\ mt_quantize_inmem m' = mt_quantize_inmem m.
Proof.
  intros Hd. unfold mt_Put, put_mem. rewrite Hd, Z.eqb_refl. cbn [negb].
  destruct (mt_quantize_inmem m && (0 <? mt_dim m)), (keeps_meta meta) eqn:E;
    (eexists; split; [reflexivity|]); cbn; by destruct (0 <? md_timestamp meta).
Qed.

Lemma keeps_meta_ts meta : 0 < md_timestamp meta -> keeps_meta meta = true.
Proof.
  intros Hp. unfold keeps_meta. rewrite (proj2 (Z.eqb_neq (md_timestamp meta) 0)) by lia.
  cbn [negb]. by rewrite orb_true_r.
Qed.

Lemma mt_inv_put m id v meta :
  mt_inv m -> id_ok id -> vec_dim v = mt_dim m -> mt_inv (mt_Put id v meta m).2.
Proof.
  intros Hinv Hid Hd. destruct (mt_Put_ok m id v meta Hd) as (m' & -> & Emap & Emeta & Etemp & _ & _). cbn [snd].
  pose proof Hinv as [Hwf Hs Hnd Ht Hm].
  assert (NoDup (drop_old_ts id m)) as Hnd' by (eapply sublist_NoDup; [done|apply sublist_drop_old_ts]).
  assert (StronglySorted ts_le (drop_old_ts id m)) as Hs'
    by (eapply StronglySorted_sublist; [apply sublist_drop_old_ts|done]).
  assert ((md_timestamp meta, id) ∉ drop_old_ts id m) as Hni by (rewrite elem_of_drop_old_ts by done; cbn; tauto).
  assert (forall ts i, (ts, i) ∈ mt_temporal m' <-> (ts, i) ∈ drop_old_ts id m \/
    (keeps_meta meta = true /\ 0 < md_timestamp meta /\ ts = md_timestamp meta /\ i = id)) as Hin.
  { intros ts i. rewrite Etemp. destruct (keeps_meta meta), (Z.ltb_spec 0 (md_timestamp meta)) as [H3|H3]; cbn [andb];
      rewrite ?elem_of_mm_insert; clear -H3; intuition (try congruence; try lia). }
  split.
  - rewrite Emap. by apply im_wf_put.
  - rewrite Etemp. destruct (_ && _); [by apply StronglySorted_mm_insert|done].
  - rewrite Etemp. destruct (_ && _); [by apply NoDup_mm_insert|done].
  - intros ts i. rewrite Hin, elem_of_drop_old_ts, Ht, Emeta by done. cbn [snd].
    destruct (decide (i = id)) as [->|Hne].
    + split.
      * intros [[_ ?]|(Hk & Hp & -> & _)]; [done|]. rewrite Hk, lookup_insert_eq. eauto.
      * intros (Hp & me & Hme & <-). destruct (keeps_meta meta) eqn:Ek.
        -- rewrite lookup_insert_eq in Hme. injection Hme as ->. right. done.
        -- rewrite lookup_delete_eq in Hme. done.
    + assert ((if keeps_meta meta then <[id := meta]> (mt_metadata m) else delete id (mt_metadata m)) !! i =
        mt_metadata m !! i) as -> by (destruct (keeps_meta meta); [by rewrite lookup_insert_ne|by rewrite lookup_delete_ne]).
      naive_solver.
  - intros i Hi. rewrite Emap, im_abs_put by done. destruct (decide (i = id)) as [->|Hne].
    + rewrite lookup_insert_eq. eauto.
    + rewrite lookup_insert_ne by done. apply Hm. revert Hi. rewrite Emeta.
      destruct (keeps_meta meta); [by rewrite lookup_insert_ne|by rewrite lookup_delete_ne].
Qed.

Lemma batch_map_spec items : forall t,
  im_wf t -> Forall (fun p : Z * vec => id_ok p.1) items ->
  let r := fold_left (fun mp '(id, v) => (im_put id (Some (vec_bytes v)) mp).2) items t in
  im_wf r /\ im_abs r = fold_left (fun mp '(id, v) => <[id := Some (vec_bytes v)]> mp) items (im_abs t).
Proof.
  induction items as [|[id v] items IH]; intros t Hwf Hok; [done|].
  apply Forall_cons in Hok as [Hid Hok]. cbn [fold_left].
  destruct (IH (im_put id (Some (vec_bytes v)) t).2) as [Hw Ha]; [by apply im_wf_put|done|].
  cbn zeta in *. split; [done|]. by rewrite Ha, im_abs_put.
Qed.

Lemma fold_insert_other (items : list (Z * vec)) (mp : gmap Z (option bytes)) id :
  id ∉ items.*1 ->
  fold_left (fun mp '(id, v) => <[id := Some (vec_bytes v)]> mp) items mp !! id = mp !! id.
Proof.
  revert mp. induction items as [|[i v] items IH]; intros mp Hn; [done|]. cbn [fold_left].
  apply not_elem_of_cons in Hn as [Hne Hn]. rewrite IH by done. by rewrite lookup_insert_ne.
Qed.

(** The last vector of the batch under an identifier is the one stored. *)
Lemma fold_insert_last (items : list (Z * vec)) (mp : gmap Z (option bytes)) id :
  id ∈ items.*1 ->
  exists v, (id, v) ∈ items /\
    fold_left (fun mp '(id, v) => <[id := Some (vec_bytes v)]> mp) items mp !! id = Some (Some (vec_bytes v)).
Proof.
  revert mp. induction items as [|[i v] items IH]; intros mp Hin; [by apply not_elem_of_nil in Hin|].
  cbn [fold_left]. destruct (decide (id ∈ items.*1)) as [Hi|Hi].
  - destruct (IH (<[i := Some (vec_bytes v)]> mp) Hi) as (v' & ? & ?). exists v'. split; [by right|done].
  - apply elem_of_cons in Hin as [Hin|Hin]; [|done]. cbn in Hin. subst i. exists v. split; [by left|].
    by rewrite fold_insert_other, lookup_insert_eq.
Qed.

Lemma mt_PutBatch_ok m ids vs :
  length ids = length vs -> Forall (fun v => vec_dim v = mt_dim m) vs ->
  exists m', mt_PutBatch ids vs m = (inr tt, m') /\
    mt_map m' = fold_left (fun mp '(id, v) => (im_put id (Some (vec_bytes v)) mp).2) (zip ids vs) (mt_map m) /\
    mt_metadata m' = mt_metadata m /\ mt_temporal m' = mt_temporal m /\ mt_dim m' = mt_dim m /\
    mt_quantize_inmem m' = mt_quantize_inmem m.
Proof.
  intros Hl Hd. unfold mt_PutBatch. unfold zlen. rewrite Hl, Z.eqb_refl. cbn [negb].
  case_bool_decide as Hnil; [by subst; eexists|].
  assert (forallb (fun v => vec_dim v =? mt_dim m) vs = true) as ->; [|by eexists].
  apply forallb_forall. intros v Hv%list_elem_of_In. rewrite Forall_forall in Hd. rewrite (Hd v Hv). apply Z.eqb_refl.
Qed.

Lemma mt_inv_putbatch m ids vs :
  mt_inv m -> length ids = length vs -> Forall (fun v => vec_dim v = mt_dim m) vs -> Forall id_ok ids ->
  mt_inv (mt_PutBatch ids vs m).2.
Proof.
  intros [Hwf Hs Hnd Ht Hm] Hl Hd Hid.
  destruct (mt_PutBatch_ok m ids vs Hl Hd) as (m' & -> & Emap & Emeta & Etemp & _). cbn [snd].
  assert (Forall (fun p : Z * vec => id_ok p.1) (zip ids vs)) as Hok.
  { apply Forall_forall. intros p Hp. rewrite Forall_forall in Hid. apply Hid.
    apply (list_elem_of_fmap_2 fst) in Hp. by rewrite fst_zip in Hp by lia. }
  destruct (batch_map_spec (zip ids vs) (mt_map m) Hwf Hok) as [Hw Ha].
  split; rewrite ?Emap, ?Etemp; try done.
  - intros ts id. rewrite Emeta. apply Ht.
  - intros id Hi. rewrite Emeta in Hi. rewrite Ha.
    destruct (decide (id ∈ (zip ids vs).*1)) as [Hin|Hin].
    + destruct (fold_insert_last _ (im_abs (mt_map m)) id Hin) as (v & _ & ->). by exists (vec_bytes v).
    + rewrite fold_insert_other by done. by apply Hm.
Qed.

(** A write as a reader sees it. *)
Lemma mt_view_put m id v meta i :
  mt_inv m -> id_ok id -> vec_dim v = mt_dim m ->
  mt_view (mt_Put id v meta m).2 i =
  if decide (i = id) then Some (Some (put_mem m v, if keeps_meta meta then meta else md_default)) else mt_view m i.
Proof.
  intros [Hwf _ _ _ _] Hid Hd. destruct (mt_Put_ok m id v meta Hd) as (m' & -> & Emap & Emeta & _). cbn [snd].
  unfold mt_view. rewrite Emap, Emeta, im_abs_put by done. case_decide as Hi; [subst i|].
  - rewrite lookup_insert_eq. destruct (keeps_meta meta); [by rewrite lookup_insert_eq|by rewrite lookup_delete_eq].
  - rewrite lookup_insert_ne by done.
    destruct (keeps_meta meta); [by rewrite lookup_insert_ne|by rewrite lookup_delete_ne].
Qed.

Lemma mt_view_delete m id i :
  mt_inv m -> id_ok id ->
  mt_view (mt_Delete id m).2 i = if decide (i = id) then Some None else mt_view m i.
Proof.
  intros [Hwf _ _ _ _] Hid. unfold mt_view. cbn [snd mt_Delete mt_map mt_metadata].
  rewrite im_abs_put by done. case_decide as Hi; [subst i|].
  - by rewrite lookup_insert_eq.
  - by rewrite lookup_insert_ne, lookup_delete_ne.
Qed.

End view.

(** ** Properties *)

Section properties.
Context {T : Type} `{IdMapLaws T (option bytes)} `{F32}.
Implicit Types m : MemTable T.

(** Put and Delete on the memtable behave as updates of a map from
    identifiers to stored vectors: a put makes exactly its identifier readable
    with the stored vector and its metadata, a delete leaves a tombstone, and
    no other identifier changes. *)
Theorem mt_put_get_delete m id v meta i :
  mt_inv m -> id_ok id -> id_ok i -> vec_dim v = mt_dim m ->
  mt_Get i (mt_Put id v meta m).2 =
    (if decide (i = id) then inr (put_mem m v, if keeps_meta meta then meta else md_default) else mt_Get i m) /\
  mt_Get i (mt_Delete id m).2 =
    (if decide (i = id) then inl (NotFound "vector not found") else mt_Get i m) /\
  mt_IsTombstone i (mt_Delete id m).2 = (bool_decide (i = id) || mt_IsTombstone i m).
Proof.
  intros Hinv Hid Hi Hd. pose proof (mi_map _ Hinv) as Hwf.
  rewrite (mt_Get_view (mt_Put id v meta m).2) by first [done|by apply mt_inv_put].
  rewrite (mt_Get_view (mt_Delete id m).2) by first [done|by apply mt_inv_delete].
  rewrite mt_view_put, mt_view_delete, (mt_Get_view m i Hwf Hi) by done.
  split_and!; [by case_decide..|].
  unfold mt_IsTombstone. rewrite !im_find_abs by first [done|by apply mt_inv_delete].
  cbn [snd mt_Delete mt_map]. rewrite im_abs_put by done. case_bool_decide as E.
  - subst i. by rewrite lookup_insert_eq.
  - by rewrite lookup_insert_ne.
Qed.

(** The invariant of the memtable (well-formed map; the temporal index is
    sorted, duplicate-free and lists exactly the positive timestamps of the
    stored metadata; metadata only for stored vectors) holds initially and
    every operation preserves it. *)
Theorem mt_invariant_preserved m dim blk q id v meta ids vs :
  mt_inv m -> id_ok id -> vec_dim v = mt_dim m ->
  length ids = length vs -> Forall (fun v => vec_dim v = mt_dim m) vs -> Forall id_ok ids ->
  mt_inv (mt_new (T := T) dim blk q) /\ mt_inv (mt_Put id v meta m).2 /\ mt_inv (mt_Delete id m).2 /\
  mt_inv (mt_PutBatch ids vs m).2 /\ mt_inv (mt_Clear m).
Proof.
  intros. split_and!; [apply mt_inv_new|by apply mt_inv_put|by apply mt_inv_delete|by apply mt_inv_putbatch|by apply mt_inv_clear].
Qed.

(** A time-range query with [start <= end] returns, without repetition and
    in timestamp order, exactly the identifiers whose metadata has a positive
    timestamp in the range; with [start > end] and a timestamp strictly in
    between, the iteration runs past the end of the index. *)
Theorem mt_time_range m start end_ :
  mt_inv m ->
  (start <= end_ -> exists l, mt_GetByTimeRange start end_ m = inr l.*2 /\
    StronglySorted ts_le l /\ NoDup l /\
    forall ts id, (ts, id) ∈ l <-> 0 < ts /\ start <= ts <= end_ /\
      exists meta, mt_metadata m !! id = Some meta /\ md_timestamp meta = ts) /\
  (forall ts id, (ts, id) ∈ mt_temporal m -> end_ < ts < start ->
    mt_GetByTimeRange start end_ m = inl (Undefined "iterator past the end")).
Proof.
  intros [Hwf Hs Hnd Ht Hm]. unfold mt_GetByTimeRange. split.
  - intros Hle. destruct (sorted_range start end_ (mt_temporal m) Hs Hle) as [Hlen Eq].
    rewrite (proj2 (Nat.leb_le _ _) Hlen), Eq. eexists. split; [reflexivity|].
    split; [by eapply StronglySorted_sublist; [apply sublist_filter|]|]. split; [by apply NoDup_filter|].
    intros ts id. rewrite list_elem_of_filter, Ht. cbn [fst]. tauto.
  - intros ts id Hin Hb. rewrite (proj2 (Nat.leb_gt _ _)); [done|].
    exact (count_gap start end_ ts id _ Hin Hb).
Qed.

(** A batch stores, under each of its identifiers, the raw floats of its
    last vector for that identifier and keeps whatever metadata the identifier
    already had; other identifiers are unchanged. *)
Theorem mt_PutBatch_functional m ids vs i :
  mt_inv m -> length ids = length vs -> Forall (fun v => vec_dim v = mt_dim m) vs ->
  Forall id_ok ids -> id_ok i ->
  (i ∉ ids -> mt_Get i (mt_PutBatch ids vs m).2 = mt_Get i m) /\
  (i ∈ ids -> exists v, (i, v) ∈ zip ids vs /\
     mt_Get i (mt_PutBatch ids vs m).2 = inr (vec_bytes v, default md_default (mt_metadata m !! i))).
Proof.
  intros Hinv Hl Hd Hid Hi. pose proof (mt_inv_putbatch m ids vs Hinv Hl Hd Hid) as [Hwf' _ _ _ _].
  destruct (mt_PutBatch_ok m ids vs Hl Hd) as (m' & E & Emap & Emeta & _). rewrite E in *. cbn [snd] in *.
  assert (Forall (fun p : Z * vec => id_ok p.1) (zip ids vs)) as Hok.
  { apply Forall_forall. intros p Hp. rewrite Forall_forall in Hid. apply Hid.
    apply (list_elem_of_fmap_2 fst) in Hp. by rewrite fst_zip in Hp by lia. }
  destruct (batch_map_spec (zip ids vs) (mt_map m) (mi_map _ Hinv) Hok) as [_ Ha].
  rewrite !mt_Get_view by first [done|apply Hinv]. unfold mt_view. rewrite Emap, Emeta, Ha.
  split; intros Hin.
  - rewrite fold_insert_other; [done|]. by rewrite fst_zip by lia.
  - destruct (fold_insert_last (zip ids vs) (im_abs (mt_map m)) i) as (v & Hv & ->).
    { by rewrite fst_zip by lia. }
    exists v. done.
Qed.

(** In a quantised table a batch bypasses the quantisation: the stored
    memory is the float array of [4 * dim] bytes, while a single put of the
    same vector stores the [8 + dim] bytes of the quantised layout that every
    reader of the table decodes. *)
Theorem mt_PutBatch_ignores_quantisation m id v :
  mt_inv m -> mt_quantize_inmem m = true -> 0 < mt_dim m -> vec_dim v = mt_dim m -> id_ok id ->
  exists b1 b2 md1 md2,
    mt_Get id (mt_PutBatch [id] [v] m).2 = inr (b1, md1) /\ zlen b1 = 4 * mt_dim m /\
    mt_Get id (mt_Put id v md_default m).2 = inr (b2, md2) /\ zlen b2 = 8 + mt_dim m.
Proof.
  intros Hinv Hq Hpos Hd Hid.
  pose proof (mt_inv_putbatch m [id] [v] Hinv eq_refl ltac:(by constructor) ltac:(by constructor)) as Hinv'.
  pose proof (mt_inv_put m id v md_default Hinv Hid Hd) as Hinv2.
  rewrite (mt_Get_view (mt_Put id v md_default m).2 id (mi_map _ Hinv2) Hid), mt_view_put by done.
  rewrite (mt_Get_view (mt_PutBatch [id] [v] m).2 id (mi_map _ Hinv') Hid).
  destruct (mt_PutBatch_ok m [id] [v] eq_refl ltac:(by constructor)) as (m' & -> & Emap & Emeta & _). cbn [snd].
  unfold mt_view. rewrite Emap. cbn [zip_with zip fold_left snd].
  rewrite im_abs_put, lookup_insert_eq by first [apply Hinv|done]. rewrite decide_True by done.
  eexists _, _, _, _. split; [reflexivity|]. split; [unfold vec_dim in Hd; len|]. split; [reflexivity|].
  unfold put_mem. rewrite Hq, (proj2 (Z.ltb_lt _ _) Hpos). cbn [andb]. unfold sq8_encode.
  destruct (fold_left _ _ _) as [vmin vmax]. unfold vec_dim in Hd. len.
Qed.

(** Metadata that only names a device or a location, or only carries a
    payload or a position, is dropped by a put: reading the vector back gives
    the empty metadata. *)
Theorem mt_Put_drops_partition_metadata m id v meta :
  mt_inv m -> id_ok id -> vec_dim v = mt_dim m ->
  md_tenant meta = [] -> md_src_vid meta = 0 -> md_timestamp meta = 0 -> md_text meta = [] ->
  mt_Get id (mt_Put id v meta m).2 = inr (put_mem m v, md_default).
Proof.
  intros Hinv Hid Hd H3 H4 H5 H6. pose proof (mt_inv_put m id v meta Hinv Hid Hd) as Hinv'.
  rewrite (mt_Get_view _ id (mi_map _ Hinv') Hid), mt_view_put, decide_True by done.
  unfold keeps_meta. by rewrite H3, H4, H5, H6.
Qed.

End properties.

(** ** Arena *)

Lemma AlignUp_pow2 x k : 0 <= k -> 0 <= x -> AlignUp x (2 ^ k) = (x + (2 ^ k - 1)) / 2 ^ k * 2 ^ k.
Proof.
  intros Hk Hx. unfold AlignUp.
  assert (Z.lnot (2 ^ k - 1) = Z.shiftl (-1) k) as ->.
  { rewrite Z.shiftl_mul_pow2 by lia. unfold Z.lnot. lia. }
  apply Z.bits_inj'. intros n Hn. rewrite Z.land_spec.
  rewrite <-Z.shiftr_div_pow2, <-Z.shiftl_mul_pow2 by lia.
  destruct (decide (n < k)).
  - rewrite !(Z.shiftl_spec_low _ k n) by lia. by rewrite andb_false_r.
  - rewrite !Z.shiftl_spec_high, Z.shiftr_spec by lia. rewrite Z.bits_m1 by lia.
    rewrite andb_true_r. f_equal. lia.
Qed.

Lemma AlignUp_bounds x k : 0 <= k -> 0 <= x ->
  x <= AlignUp x (2 ^ k) < x + 2 ^ k /\ (2 ^ k | AlignUp x (2 ^ k)).
Proof.
  intros Hk Hx. rewrite AlignUp_pow2 by done. set (c := 2 ^ k). assert (0 < c) by (unfold c; lia).
  pose proof (Z.div_mod (x + (c - 1)) c). pose proof (Z.mod_pos_bound (x + (c - 1)) c).
  split; [nia|]. by apply Z.divide_factor_r.
Qed.

(** Blocks are used from the start and never beyond their end. *)
Definition arena_wf (ar : Arena) : Prop :=
  0 < ar_block_bytes ar /\ Forall (fun used => 0 <= used <= ar_block_bytes ar) (ar_blocks ar).

(** The two cases of [Allocate]: the current block has room, or a fresh block
    is started. *)
Lemma arena_Allocate_cases ar n k :
  arena_wf ar -> 0 <= k -> 0 <= n ->
  (exists pre used, ar_blocks ar = pre ++ [used] /\ AlignUp used (2 ^ k) + n <= ar_block_bytes ar /\
     arena_Allocate n (2 ^ k) ar =
     ((length pre, AlignUp used (2 ^ k)), MkArena (ar_block_bytes ar) (pre ++ [AlignUp used (2 ^ k) + n]))) \/
  arena_Allocate n (2 ^ k) ar =
  ((length (ar_blocks ar), 0), MkArena (ar_block_bytes ar) (ar_blocks ar ++ [n])).
Proof.
  intros [Hpos Hall] Hk Hn. unfold arena_Allocate.
  assert (AlignUp 0 (2 ^ k) = 0) as E0.
  { rewrite AlignUp_pow2, Z.div_small by lia. done. }
  assert (forall l x, <[length l := x]> (l ++ [0]) = l ++ [x]) as Eins.
  { intros l x. rewrite insert_app_r_alt, Nat.sub_diag by done. done. }
  destruct (ar_blocks ar) as [|b0 bs] eqn:Eb using rev_ind.
  { right. cbn [last length Nat.sub from_option id]. by rewrite E0. }
  clear IHbs. rewrite last_snoc. destruct (Z.ltb_spec (ar_block_bytes ar) (AlignUp b0 (2 ^ k) + n)).
  - right. rewrite !last_snoc. cbn [from_option id]. rewrite E0, length_app. cbn [length].
    replace (length (bs ++ [b0]) + 1 - 1)%nat with (length (bs ++ [b0])) by lia. by rewrite Eins.
  - left. exists bs, b0. split_and!; [done|lia|]. rewrite last_snoc. cbn [from_option id].
    rewrite length_app. cbn [length]. replace (length bs + 1 - 1)%nat with (length bs) by lia.
    do 2 f_equal. rewrite insert_app_r_alt, Nat.sub_diag by done. done.
Qed.

(** Allocation safety: a request that fits a block gets an aligned range
    inside a block that starts at or after everything handed out of that block
    before, the earlier blocks keep their contents, and the arena stays within
    its blocks.  (A request larger than a block gets a range that ends beyond
    the block: the size is not checked.) *)
Theorem arena_Allocate_safe ar n k i off ar' :
  arena_wf ar -> 0 <= k -> 0 <= n -> arena_Allocate n (2 ^ k) ar = ((i, off), ar') ->
  (2 ^ k | off) /\ ar_blocks ar' !! i = Some (off + n) /\
  (forall used, ar_blocks ar !! i = Some used -> used <= off) /\
  (forall j, (j < i)%nat -> ar_blocks ar' !! j = ar_blocks ar !! j) /\
  (off + n <= ar_block_bytes ar <-> n <= ar_block_bytes ar) /\
  (n <= ar_block_bytes ar -> arena_wf ar').
Proof.
  intros Hwf Hk Hn E. pose proof Hwf as [Hpos Hall].
  destruct (arena_Allocate_cases ar n k Hwf Hk Hn) as [(pre & used & Eb & Hfit & Ea)|Ea];
    rewrite Ea in E; injection E as <- <- <-; cbn [ar_blocks ar_block_bytes].
  - rewrite Eb in *. apply Forall_app in Hall as [Hpre Hu]. apply Forall_cons in Hu as [Hu _].
    destruct (AlignUp_bounds used k) as [Hb Hd]; [done|lia|].
    split; [done|]. split; [by rewrite lookup_app_r, Nat.sub_diag by done|].
    split; [intros u Hl; rewrite lookup_app_r, Nat.sub_diag in Hl by done; injection Hl as <-; lia|].
    split; [intros j Hj; by rewrite !lookup_app_l by done|]. split; [lia|].
    intros _. split; [done|]. apply Forall_app. split; [done|]. apply Forall_singleton. cbn. lia.
  - split; [apply Z.divide_0_r|]. split; [by rewrite lookup_app_r, Nat.sub_diag by done|].
    split; [intros u Hl; apply lookup_lt_Some in Hl; lia|].
    split; [intros j Hj; by rewrite lookup_app_l by done|]. split; [lia|].
    intros Hfit. split; [done|]. apply Forall_app. split; [done|]. apply Forall_singleton. cbn. lia.
Qed.

Lemma arena_Allocate_safe_witness :
  (4 | 8) /\ [8 + 12] !! 0%nat = Some 20.
Proof.
  destruct (arena_Allocate_safe (MkArena 64 [7]) 12 2 0 8 (MkArena 64 [20])) as (H1 & H2 & _).
  - split; [done|]. constructor; [cbn; lia|constructor].
  - lia.
  - lia.
  - reflexivity.
  - split; [exact H1|exact H2].
Defined.

(** ** Concrete runs *)

Definition test_f32 : F32 := {|
  f32_lt := Z.ltb; f32_add := Z.add; f32_sub := Z.sub; f32_mul := Z.mul; f32_div := Z.div;
  f32_of_u8 := id; f32_to_u8 := fun x => Z.min 255 x
|}.
#[local] Existing Instance test_f32.
#[local] Instance test_idmap : IdMap (@FlatHashMemMap (option bytes)) (option bytes) := fh_IdMap None id.
#[local] Instance test_idmap_laws : IdMapLaws (@FlatHashMemMap (option bytes)) (option bytes) := fh_IdMapLaws None id.

Definition test_mem (q : bool) : MemTable (@FlatHashMemMap (option bytes)) := mt_new 2 4096 q.
Definition stamped (ts : Z) : Metadata := MkMeta (bstr "t") [] [] 0 ts 0 [] [] 0 0.

Lemma test_mem_inv q : mt_inv (test_mem q).
Proof. apply mt_inv_new. Qed.

Lemma mt_put_get_delete_witness :
  mt_Get 5 (mt_Put 5 [1; 2] (stamped 9) (test_mem false)).2 = inr (vec_bytes [1; 2], stamped 9).
Proof.
  destruct (mt_put_get_delete (test_mem false) 5 [1; 2] (stamped 9) 5 (test_mem_inv false)) as [H _];
    [discriminate..|reflexivity|exact H].
Defined.

Lemma mt_invariant_preserved_witness :
  mt_inv (mt_Put 5 [1; 2] (stamped 9) (test_mem false)).2.
Proof.
  destruct (mt_invariant_preserved (test_mem false) 2 64 true 5 [1; 2] (stamped 9) [6] [[3; 4]] (test_mem_inv false))
    as (_ & H & _); [discriminate|reflexivity..|repeat constructor|repeat constructor; discriminate|exact H].
Defined.

Lemma mt_time_range_witness :
  exists l : list (Z * Z), mt_GetByTimeRange 5 10 (mt_Put 5 [1; 2] (stamped 9) (test_mem false)).2 = inr l.*2.
Proof.
  destruct (mt_time_range (mt_Put 5 [1; 2] (stamped 9) (test_mem false)).2 5 10) as [H _].
  - apply mt_inv_put; [apply test_mem_inv|discriminate|reflexivity].
  - destruct (H ltac:(lia)) as (l & E & _). exists l. exact E.
Defined.

Lemma mt_PutBatch_functional_witness :
  exists v, (6, v) ∈ zip [6] [[3; 4]] /\
    mt_Get 6 (mt_PutBatch [6] [[3; 4]] (test_mem false)).2 = inr (vec_bytes v, md_default).
Proof.
  destruct (mt_PutBatch_functional (test_mem false) [6] [[3; 4]] 6 (test_mem_inv false)) as [_ H];
    [reflexivity|repeat constructor|repeat constructor; discriminate|discriminate|].
  apply H. by left.
Defined.

Lemma mt_PutBatch_ignores_quantisation_witness :
  exists b1 b2 md1 md2,
    mt_Get 6 (mt_PutBatch [6] [[3; 4]] (test_mem true)).2 = inr (b1, md1) /\ zlen b1 = 4 * 2 /\
    mt_Get 6 (mt_Put 6 [3; 4] md_default (test_mem true)).2 = inr (b2, md2) /\ zlen b2 = 8 + 2.
Proof.
  apply (mt_PutBatch_ignores_quantisation (test_mem true) 6 [3; 4] (test_mem_inv true));
    [reflexivity|cbn; lia|reflexivity|discriminate].
Defined.

Lemma mt_Put_drops_partition_metadata_witness :
  let meta := MkMeta [] (bstr "dev-1") (bstr "hall") 0 0 0 [] (bstr "{}") 0 0 in
  mt_Get 6 (mt_Put 6 [3; 4] meta (test_mem false)).2 = inr (vec_bytes [3; 4], md_default).
Proof.
  intros meta.
  apply (mt_Put_drops_partition_metadata (test_mem false) 6 [3; 4] meta (test_mem_inv false));
    [discriminate|reflexivity..].
Defined.
