(* ===== verification/Recovery.v ===== *)
(** * Recovery: the memtable rebuilt from the log

    The memtable is the table a replay feeds.  After any sequence of logged
    writes, a process that opens the same files and replays them ends with a
    memtable in which every identifier shows its last write among the records
    before the first one that cannot be read back. *)
From S2P Require Import Prelude FlatHash Env Types Lexical MemTable MemTableTheorems Wal WalCodec.
From S2P Require Import WalLog WalTheorems.

Open Scope Z_scope.

Section recovery.
Context {T : Type} `{IdMapLaws T (option bytes)} `{F32}.

(** [ReplayInto] calls [mem.Put] and [mem.Delete]. *)
#[global] Instance memtable_sink : VectorSink (MemTable T) := {|
  sink_Put := mt_Put; sink_Delete := mt_Delete
|}.

(** A record the table accepts: its dimension, no reserved identifier. *)
Definition rec_fits (dim : Z) (r : wal_rec) : Prop :=
  match r with
  | RPut id v _ => vec_dim v = dim /\ id_ok id
  | RDel id => id_ok id
  | RRaw _ _ _ => True
  end.

(** The stored_vec form of a vector in a table. *)
Definition stored_vec (dim : Z) (q : bool) (v : vec) : bytes :=
  if q && (0 <? dim) then sq8_encode v else vec_bytes v.

(** What a reader should see after a list of numbered records: the last put or
    delete of the identifier, if any, else what was there before. *)
Fixpoint last_write (dim : Z) (q : bool) (rs : list (Z * wal_rec)) (i : Z)
    (before : option (option (bytes * Metadata))) : option (option (bytes * Metadata)) :=
  match rs with
  | [] => before
  | (seq, r) :: rs =>
      last_write dim q rs i
        match r with
        | RPut id v m =>
            if decide (i = id) then
              let meta := replayed_meta seq m in
              Some (Some (stored_vec dim q v, if keeps_meta meta then meta else md_default))
            else before
        | RDel id => if decide (i = id) then Some None else before
        | RRaw _ _ _ => before
        end
  end.

(** What a replay leaves of one record in the table. *)
Lemma apply_rec_memtable seq r m :
  mt_inv m -> rec_fits (mt_dim m) r ->
  exists m1, apply_rec seq r m = (inr tt, m1) /\ mt_inv m1 /\
    mt_dim m1 = mt_dim m /\ mt_quantize_inmem m1 = mt_quantize_inmem m /\
    forall i, mt_view m1 i = last_write (mt_dim m) (mt_quantize_inmem m) [(seq, r)] i (mt_view m i).
Proof.
  intros Hinv He. destruct r as [id v meta|id|op k v]; cbn in He |- *.
  - destruct He as [Hd Hid]. destruct (mt_Put_ok m id v (replayed_meta seq meta) Hd) as (m1 & E & _ & _ & _ & ? & ?).
    exists m1. rewrite E. split_and!; try done.
    + pose proof (mt_inv_put m id v (replayed_meta seq meta) Hinv Hid Hd) as Hi. by rewrite E in Hi.
    + intros i. pose proof (mt_view_put m id v (replayed_meta seq meta) i Hinv Hid Hd) as Hi. by rewrite E in Hi.
  - exists (mt_Delete id m).2. split_and!; try done; [by apply mt_inv_delete|].
    intros i. by apply mt_view_delete.
  - by exists m.
Qed.

(** The outcome of a replay: success, or the error of the first record that
    cannot be read. *)
Definition replay_outcome (rs : list wal_rec) : Status + unit :=
  if forallb readable rs then inr tt else inl (Corruption "wal put length mismatch").

Lemma replay_entries_memtable es : forall w m,
  mt_inv m -> Forall (fun e => rec_fits (mt_dim m) (en_rec e)) es ->
  exists w' m', replay_entries es (w, m) = (replay_outcome (en_rec <$> es), (w', m')) /\ mt_inv m' /\
    forall i, mt_view m' i = last_write (mt_dim m) (mt_quantize_inmem m)
      (prefix_while (fun p => readable p.2) (untag <$> es)) i (mt_view m i).
Proof.
  induction es as [|e es IH]; intros w m Hinv Hfit; [by exists w, m|].
  apply Forall_cons in Hfit as [He Hfit]. destruct e as [seq r body]. cbn [en_rec] in He.
  cbn [replay_entries fmap list_fmap en_seq en_rec prefix_while untag fst snd]. unfold replay_outcome, replay_one.
  cbn [forallb]. destruct (readable r); cbn [andb]; [|by exists w, m].
  destruct (apply_rec_memtable seq r m Hinv He) as (m1 & Ea & Hinv1 & Hd1 & Hq1 & Hv1).
  unfold on_sink, note_seq, mmodify, mbind, M_bind. cbn [fst snd]. rewrite Ea.
  cbn [fst snd]. rewrite <-Hd1 in Hfit.
  destruct (IH (if w_seq w <? seq then set_seq seq w else w) m1 Hinv1 Hfit) as (w' & m' & E & Hinv' & Hv').
  exists w', m'. split; [exact E|]. split; [done|]. intros i. rewrite Hv', Hd1, Hq1, Hv1. done.
Qed.

(** ** Properties *)

(** C4. Crash recovery is last-writer-wins.  Let a log be opened on an empty
    file system and any sequence of puts, batches, deletes, raw records and
    flushes be run on it, no system call or encryption failing, the inputs
    fitting the format ([op_ok]: 64-bit identifiers, records below 4 GiB,
    batches below 2^62 bytes) and the dimension of the table, and no
    identifier being the reserved one.  Then a process that replays the files
    into an empty memtable succeeds if every record is [readable], and
    otherwise stops with a corruption error at the first that is not (a put
    without a tenant that has a device, a location, a timestamp or a source
    vertex).  In both cases a read of an identifier then returns its last put
    among the records before that point (the vector as the table stores it;
    the metadata as the log keeps it, which for a put without a tenant are the
    defaults), and nothing if there it was never put or was deleted last. *)
Theorem recovery_last_writer_wins `{AesGcmLaws} w os dim blk q i :
  w_env w = MkFs ∅ [] -> 0 <= wc_segment_bytes (w_conf w) < 2 ^ 63 -> w_seq w = 0 ->
  zlen (os ≫= op_recs) < 2 ^ 64 -> Forall op_ok os -> aes_available (w_conf w) ->
  Forall (rec_fits dim) (os ≫= op_recs) -> id_ok i ->
  exists w1, (wal_Open ;; run_ops os) w = (inr tt, w1) /\
    (forall w2, w_conf w2 = w_conf w -> w_env w2 = w_env w1 ->
     exists w3 m, wal_ReplayInto (w2, mt_new (T := T) dim blk q) = (replay_outcome (os ≫= op_recs), (w3, m)) /\
       mt_Get i m = match last_write dim q (number 0 (prefix_while readable (os ≫= op_recs))) i None with
                    | Some (Some r) => inr r
                    | _ => inl (NotFound "vector not found")
                    end).
Proof.
  intros Hw Hlim Hs Hn Hok Hav Hfit Hi.
  destruct (wal_roundtrip w ∅ [] os) as (w1 & news & E & Hu & Hrep);
    [done| |done|done|lia|by rewrite Hs|done..|].
  { split; [intros j es tail Hj; by rewrite lookup_nil in Hj|done]. }
  exists w1. split; [done|]. intros w2 Hc Hew. rewrite Hs in Hu.
  assert (en_rec <$> news = os ≫= op_recs) as Hr.
  { rewrite <-(number_snd 0 (os ≫= op_recs)), <-Hu, <-list_fmap_compose. done. }
  assert (Forall (fun e => rec_fits (mt_dim (mt_new (T := T) dim blk q)) (en_rec e)) news) as Hfit'.
  { rewrite <-Hr in Hfit. by rewrite Forall_fmap in Hfit. }
  destruct (replay_entries_memtable news w2 (mt_new dim blk q) (mt_inv_new dim blk q) Hfit')
    as (w3 & m & E3 & Hinv & Hv).
  exists w3, m. split; [rewrite (Hrep _ memtable_sink w2 (mt_new dim blk q) Hc Hew), <-Hr; exact E3|].
  rewrite (mt_Get_view m i (mi_map _ Hinv) Hi), Hv, Hu, prefix_number. cbn [mt_dim mt_quantize_inmem mt_new].
  unfold mt_view. cbn [mt_map mt_new]. rewrite im_abs_new, lookup_empty. done.
Qed.

End recovery.

#[local] Existing Instance test_f32.
#[local] Existing Instance test_idmap.
#[local] Existing Instance test_idmap_laws.

Definition recovery_ops : list wal_op :=
  [OpRec (RPut 7 [1; 2] (stamped 5)); OpBatch [(8, [3; 4]); (9, [5; 6])]; OpRec (RDel 9);
   OpRec (RPut 7 [7; 8] (stamped 6)); OpRec (RPut 7 [9; 9] (MkMeta [] (bstr "dev") [] 0 0 0 [] [] 0 0))].

Lemma recovery_last_writer_wins_witness :
  exists w1, (wal_Open ;; @run_ops test_aes recovery_ops) test_wal = (inr tt, w1) /\
    exists w3 m, @wal_ReplayInto test_aes _ memtable_sink
        (MkWal (w_env w1) test_conf 0 0 0 0 0 None, test_mem false) =
        (inl (Corruption "wal put length mismatch"), (w3, m)) /\
      mt_Get 7 m = inr (vec_bytes [7; 8], with_lsn 5 (stamped 6)).
Proof.
  destruct (@recovery_last_writer_wins _ test_idmap test_idmap_laws test_f32 test_aes test_aes_laws
    test_wal recovery_ops 2 4096 false 7) as (w1 & E & H); [done..| |done| |done|].
  - repeat constructor; cbn; unfold is_u64, is_u32; try lia; vm_compute; done.
  - repeat constructor; done.
  - exists w1. split; [exact E|].
    exact (H (MkWal (w_env w1) test_conf 0 0 0 0 0 None) eq_refl eq_refl).
Defined.
