(* ===== verification/Text.v ===== *)
(** * Text handling of the manifests

    Decimal numbers ([std::to_string], [ParseU32], [std::stoull]), the split of
    a text into lines and of a line into blank-separated tokens, the order and
    sort of names, and the paths that [std::filesystem] builds.  The lemmas show
    that what is printed is read back. *)
From S2P Require Import Prelude.

Open Scope Z_scope.

(** ** Characters *)

Definition nl : byte := Byte.x0a.
Definition sp : byte := Byte.x20.

(** [line[i] == ' ' || line[i] == '\t' || line[i] == '\r'] *)
Definition is_ws (c : byte) : bool :=
  bool_decide (c = sp) || bool_decide (c = Byte.x09) || bool_decide (c = Byte.x0d).

Definition code (c : byte) : Z := byte.unsigned c.
Definition is_digit (c : byte) : bool := (48 <=? code c) && (code c <=? 57).
Definition digit (d : Z) : byte := byte.of_Z (48 + d).

(** ** Numbers *)

(** [std::to_string] of an unsigned integer of at most 64 bits. *)
Fixpoint digits (fuel : nat) (n : Z) : bytes :=
  match fuel with
  | O => []
  | S fuel => if n <? 10 then [digit n] else digits fuel (n / 10) ++ [digit (n mod 10)]
  end.
Definition to_string (n : Z) : bytes := digits 20 n.

(** The number a sequence of digits writes. *)
Definition value (ds : bytes) : Z := fold_left (fun v c => v * 10 + (code c - 48)) ds 0.

(** src/storage/manifest/manifest.cc:145-163 [ParseU32]. The output pointer is
    never null; [None] is one of its three [InvalidArgument] returns, which
    every caller discards. *)
Fixpoint ParseU32_loop (v : Z) (tok : bytes) : option Z :=
  match tok with
  | [] => Some (u32 v)
  | c :: tok =>
      if negb (is_digit c) then None else
      let v := u64 (v * 10 + (code c - 48)) in
      if 2 ^ 32 - 1 <? v then None else ParseU32_loop v tok
  end.
Definition ParseU32 (tok : bytes) : option Z :=
  if bool_decide (tok = []) then None else ParseU32_loop 0 tok.

(** [(void)ParseU32(tok, &field)]: a token that is no number leaves the field. *)
Definition ParseU32_into (tok : bytes) (old : Z) : Z := default old (ParseU32 tok).

(** [std::stoull(tok)] on a token without blanks: an optional sign and the
    longest run of digits; [None] is an exception. *)
Fixpoint digit_prefix (tok : bytes) : bytes :=
  match tok with
  | c :: tok => if is_digit c then c :: digit_prefix tok else []
  | [] => []
  end.
Definition stoull (tok : bytes) : option Z :=
  let '(neg, tok) :=
    match tok with
    | c :: r => if bool_decide (c = Byte.x2d) then (true, r)
                else if bool_decide (c = Byte.x2b) then (false, r) else (false, tok)
    | [] => (false, [])
    end in
  let ds := digit_prefix tok in
  if bool_decide (ds = []) then None else
  if 2 ^ 64 - 1 <? value ds then None else
  Some (if neg : bool then u64 (- value ds) else value ds).

(** ** Lines and tokens *)

(** The text before the first line break and the text after it. *)
Fixpoint cut_line (sv : bytes) : bytes * bytes :=
  match sv with
  | [] => ([], [])
  | c :: r => if bool_decide (c = nl) then ([], r) else let '(l, r) := cut_line r in (c :: l, r)
  end.

(** The lines that a [while (!sv.empty())] loop over line breaks visits. *)
Fixpoint lines (sv : bytes) : list bytes :=
  match sv with
  | [] => []
  | c :: r =>
      if bool_decide (c = nl) then [] :: lines r
      else match lines r with
           | [] => [[c]]
           | l :: ls => (c :: l) :: ls
           end
  end.

(** src/storage/manifest/manifest.cc:165-182 [SplitWs]. *)
Fixpoint SplitWs (line : bytes) : list bytes :=
  match line with
  | [] => []
  | c :: r =>
      if is_ws c then SplitWs r
      else match r with
           | d :: _ =>
               if is_ws d then [c] :: SplitWs r
               else match SplitWs r with
                    | [] => [[c]]
                    | t :: ts => (c :: t) :: ts
                    end
           | [] => [[c]]
           end
  end.

(** ** Names and paths *)

(** [operator<=] of [std::string]: lexicographic on unsigned characters. *)
Fixpoint bytes_leb (a b : bytes) : bool :=
  match a, b with
  | [], _ => true
  | _ :: _, [] => false
  | x :: a, y :: b => if code x <? code y then true else if code y <? code x then false else bytes_leb a b
  end.
Definition bytes_le (a b : bytes) : Prop := Is_true (bytes_leb a b).
#[global] Instance bytes_le_dec a b : Decision (bytes_le a b) := _.
(** [operator<] of [std::string]. *)
Definition bytes_ltb (a b : bytes) : bool := negb (bytes_leb b a).

(** [std::sort] by name. *)
Definition sort_names (l : list bytes) : list bytes := merge_sort bytes_le l.

(** [fs::path(a) / b] for a relative [b]. *)
Definition path_join (a b : string) : string :=
  if bool_decide (a = EmptyString) then b
  else if bool_decide (last (String.list_byte_of_string a) = Some Byte.x2f) then a +:+ b
  else a +:+ "/" +:+ b.

(** A name as a path component. *)
Definition text (b : bytes) : string := String.string_of_list_byte b.

Lemma bytes_ltb_spec x y : bytes_ltb x y = false <-> bytes_le y x.
Proof. unfold bytes_ltb, bytes_le. destruct (bytes_leb y x); cbn; naive_solver. Qed.

(** ** What is printed is read back *)

Lemma digit_code d : 0 <= d < 10 -> code (digit d) = 48 + d.
Proof. intros Hd. unfold code, digit. rewrite byte.unsigned_of_Z. unfold byte.wrap. apply Z.mod_small. lia. Qed.

Lemma digit_is_digit d : 0 <= d < 10 -> is_digit (digit d) = true.
Proof. intros Hd. unfold is_digit. rewrite digit_code by done. lia. Qed.

Lemma value_snoc ds c : value (ds ++ [c]) = value ds * 10 + (code c - 48).
Proof. unfold value. by rewrite fold_left_app. Qed.

Lemma digits_spec fuel n :
  0 <= n < 10 ^ Z.of_nat fuel ->
  Forall (fun c => is_digit c = true) (digits fuel n) /\ value (digits fuel n) = n /\
  ((0 < fuel)%nat -> digits fuel n <> []).
Proof.
  revert n. induction fuel as [|fuel IH]; intros n Hn; [cbn in *; split_and!; [done|lia|lia]|].
  cbn [digits]. destruct (Z.ltb_spec n 10).
  - split_and!; [|unfold value; cbn [fold_left]; rewrite digit_code; lia|done].
    apply Forall_cons. split; [apply digit_is_digit; lia|done].
  - destruct (IH (n / 10)) as (H1 & H2 & _).
    { split; [apply Z.div_pos; lia|]. apply Z.div_lt_upper_bound; [lia|].
      rewrite Nat2Z.inj_succ, Z.pow_succ_r in Hn by lia. lia. }
    pose proof (Z.mod_pos_bound n 10 ltac:(lia)). split_and!.
    + apply Forall_app. split; [done|]. apply Forall_cons. split; [by apply digit_is_digit|done].
    + rewrite value_snoc, H2, digit_code by lia. pose proof (Z.div_mod n 10). lia.
    + intros _ E. by apply app_eq_nil in E as [_ ?].
Qed.

Lemma to_string_digits n : is_u64 n -> Forall (fun c => is_digit c = true) (to_string n).
Proof. intros H. apply (digits_spec 20 n). unfold is_u64 in H. cbn. lia. Qed.
Lemma to_string_value n : is_u64 n -> value (to_string n) = n.
Proof. intros H. apply (digits_spec 20 n). unfold is_u64 in H. cbn. lia. Qed.
Lemma to_string_nonempty n : is_u64 n -> to_string n <> [].
Proof. intros H. apply (digits_spec 20 n); [|lia]. unfold is_u64 in H. cbn. lia. Qed.

Lemma value_from_mono ds v :
  Forall (fun c => is_digit c = true) ds -> 0 <= v ->
  v <= fold_left (fun v c => v * 10 + (code c - 48)) ds v.
Proof.
  revert v. induction ds as [|c ds IH]; intros v Hd Hv; [done|].
  apply Forall_cons in Hd as [Hc Hd]. rewrite fold_left_cons. unfold is_digit in Hc.
  transitivity (v * 10 + (code c - 48)); [|apply IH; [done|]]; lia.
Qed.

Lemma ParseU32_loop_value ds v :
  Forall (fun c => is_digit c = true) ds -> 0 <= v ->
  is_u32 (fold_left (fun v c => v * 10 + (code c - 48)) ds v) ->
  ParseU32_loop v ds = Some (fold_left (fun v c => v * 10 + (code c - 48)) ds v).
Proof.
  revert v. induction ds as [|c ds IH]; intros v Hd Hv Hr.
  - cbn. by rewrite u32_id.
  - apply Forall_cons in Hd as [Hc Hd]. rewrite fold_left_cons in *. cbn [ParseU32_loop].
    rewrite Hc. cbn [negb]. unfold is_digit in Hc.
    pose proof (value_from_mono ds (v * 10 + (code c - 48)) Hd ltac:(lia)) as Hm. unfold is_u32 in Hr.
    rewrite u64_id by (unfold is_u64; lia).
    rewrite (proj2 (Z.ltb_ge _ _)) by lia. apply IH; [done|lia|done].
Qed.

Lemma ParseU32_to_string n : is_u32 n -> ParseU32 (to_string n) = Some n.
Proof.
  intros H. pose proof (u32_u64 _ H) as H'. unfold ParseU32.
  rewrite bool_decide_eq_false_2 by by apply to_string_nonempty.
  rewrite ParseU32_loop_value; [f_equal; by apply to_string_value|by apply to_string_digits|lia|].
  change (is_u32 (value (to_string n))). by rewrite to_string_value.
Qed.

Lemma digit_prefix_digits ds : Forall (fun c => is_digit c = true) ds -> digit_prefix ds = ds.
Proof. induction 1 as [|c ds Hc _ IH]; [done|]. cbn. by rewrite Hc, IH. Qed.

Lemma stoull_to_string n : is_u64 n -> stoull (to_string n) = Some n.
Proof.
  intros H. pose proof (to_string_digits n H) as Hd. pose proof (to_string_nonempty n H) as Hne.
  unfold stoull. destruct (to_string n) as [|c ds] eqn:E; [done|].
  assert (is_digit c = true) as Hc by by apply Forall_cons in Hd as [??].
  rewrite !bool_decide_eq_false_2 by (intros ->; done). cbn iota zeta.
  rewrite digit_prefix_digits by done. rewrite bool_decide_eq_false_2 by done.
  rewrite <-E, to_string_value by done. unfold is_u64 in H. by rewrite (proj2 (Z.ltb_ge _ _)) by lia.
Qed.

(** ** Lines *)

Definition no_nl (l : bytes) : Prop := nl ∉ l.

Lemma cut_line_app l rest : no_nl l -> cut_line (l ++ nl :: rest) = (l, rest).
Proof.
  unfold no_nl. induction l as [|c l IH]; intros H; [done|]. cbn.
  rewrite not_elem_of_cons in H. destruct H as [Hc H].
  rewrite bool_decide_eq_false_2 by congruence. by rewrite IH.
Qed.

Lemma lines_app l rest : no_nl l -> lines (l ++ nl :: rest) = l :: lines rest.
Proof.
  unfold no_nl. induction l as [|c l IH]; intros H; [done|]. cbn [lines app].
  rewrite not_elem_of_cons in H. destruct H as [Hc H].
  rewrite bool_decide_eq_false_2 by congruence. by rewrite IH.
Qed.

(** A text of complete lines. *)
Definition unlines (ls : list bytes) : bytes := concat (map (fun l => l ++ [nl]) ls).

Lemma lines_unlines ls : Forall no_nl ls -> lines (unlines ls) = ls.
Proof.
  induction 1 as [|l ls Hl _ IH]; [done|]. unfold unlines. cbn [map concat].
  rewrite <-app_assoc. cbn [app]. rewrite lines_app by done. f_equal. exact IH.
Qed.

(** ** Tokens *)

(** A token: printable, so without blanks or line breaks, and not empty. *)
Definition tok_char (c : byte) : bool := negb (is_ws c) && negb (bool_decide (c = nl)).
Definition token (t : bytes) : Prop := t <> [] /\ Forall (fun c => tok_char c = true) t.

#[global] Instance token_dec t : Decision (token t).
Proof. unfold token. apply _. Defined.

Lemma SplitWs_token t : token t -> SplitWs t = [t].
Proof.
  intros [Hne H]. induction H as [|c t Hc H IH]; [done|]. clear Hne.
  unfold tok_char in Hc. apply andb_true_iff in Hc as [Hc _]. apply negb_true_iff in Hc.
  cbn [SplitWs]. rewrite Hc. destruct t as [|d t]; [done|].
  assert (is_ws d = false) as ->.
  { apply Forall_cons in H as [Hd _]. unfold tok_char in Hd. by destruct (is_ws d). }
  by rewrite IH.
Qed.

Lemma SplitWs_cons t rest : token t -> SplitWs (t ++ sp :: rest) = t :: SplitWs rest.
Proof.
  intros [Hne H]. induction H as [|c t Hc H IH]; [done|]. clear Hne.
  unfold tok_char in Hc. apply andb_true_iff in Hc as [Hc _]. apply negb_true_iff in Hc.
  cbn [SplitWs app]. rewrite Hc. destruct t as [|d t]; [done|].
  assert (is_ws d = false) as Hd.
  { apply Forall_cons in H as [Hd _]. unfold tok_char in Hd. by destruct (is_ws d). }
  cbn [app]. cbn [app] in IH. rewrite Hd, IH by done. done.
Qed.

(** Tokens joined by single blanks. *)
Fixpoint join (ts : list bytes) : bytes :=
  match ts with
  | [] => []
  | [t] => t
  | t :: ts => t ++ sp :: join ts
  end.

Lemma SplitWs_join ts : Forall token ts -> SplitWs (join ts) = ts.
Proof.
  induction 1 as [|t ts Ht _ IH]; [done|]. destruct ts as [|t' ts]; [by apply SplitWs_token|].
  cbn [join]. rewrite SplitWs_cons by done. by f_equal.
Qed.

Lemma token_no_nl t : token t -> no_nl t.
Proof.
  intros [_ H] Hin. rewrite Forall_forall in H. apply H in Hin. unfold tok_char in Hin.
  by rewrite andb_false_r in Hin.
Qed.

Lemma join_no_nl ts : Forall token ts -> no_nl (join ts).
Proof.
  induction 1 as [|t ts Ht _ IH]; [apply not_elem_of_nil|].
  destruct ts as [|t' ts]; [by apply token_no_nl|]. unfold no_nl in *. cbn [join].
  rewrite elem_of_app, elem_of_cons. intros [H|[H|H]]; [by apply token_no_nl in H|done|done].
Qed.

Lemma digit_tok_char c : is_digit c = true -> tok_char c = true.
Proof. by destruct c. Qed.

Lemma to_string_token n : is_u64 n -> token (to_string n).
Proof.
  intros H. split; [by apply to_string_nonempty|].
  eapply Forall_impl; [by apply to_string_digits|]. intros c. apply digit_tok_char.
Qed.
Lemma to_string_token32 n : is_u32 n -> token (to_string n).
Proof. intros H. by apply to_string_token, u32_u64. Qed.
#[export] Hint Resolve to_string_token to_string_token32 : pomai.

(** ** The order of names *)

#[global] Instance bytes_le_total : Total bytes_le.
Proof.
  intros a. induction a as [|x a IH]; intros [|y b]; [by left|by left|by right|]. unfold bytes_le in *. cbn.
  destruct (Z.ltb_spec (code x) (code y)), (Z.ltb_spec (code y) (code x)); [lia|by left|by right|apply IH].
Qed.
Lemma code_inj x y : code x = code y -> x = y.
Proof. intros H. rewrite <-(byte.of_Z_unsigned x), <-(byte.of_Z_unsigned y). unfold code in H. by rewrite H. Qed.
#[global] Instance bytes_le_antisym : AntiSymm eq bytes_le.
Proof.
  intros a. induction a as [|x a IH]; intros [|y b]; [done|done|done|]. unfold bytes_le in *. cbn.
  destruct (Z.ltb_spec (code x) (code y)), (Z.ltb_spec (code y) (code x)); [lia|done|done|].
  intros H1 H2. rewrite (IH b) by done. f_equal. apply code_inj. lia.
Qed.
#[global] Instance bytes_le_trans : Transitive bytes_le.
Proof.
  intros a. induction a as [|x a IH]; intros [|y b] [|z c]; try done. unfold bytes_le in *. cbn.
  destruct (Z.ltb_spec (code x) (code y)), (Z.ltb_spec (code y) (code x)),
    (Z.ltb_spec (code y) (code z)), (Z.ltb_spec (code z) (code y)); try done; try lia;
    intros; destruct (Z.ltb_spec (code x) (code z)), (Z.ltb_spec (code z) (code x)); try done; try lia.
  by eapply IH.
Qed.

Lemma sort_names_perm l : sort_names l ≡ₚ l.
Proof. apply merge_sort_Permutation. Qed.
Lemma sort_names_sorted l : StronglySorted bytes_le (sort_names l).
Proof. apply StronglySorted_merge_sort; apply _. Qed.
Lemma sort_names_id l : StronglySorted bytes_le l -> sort_names l = l.
Proof.
  intros H. eapply StronglySorted_unique; [apply _|apply sort_names_sorted|done|apply sort_names_perm].
Qed.

(** ** Strings and byte sequences *)

Lemma bstr_app a b : bstr (a +:+ b) = bstr a ++ bstr b.
Proof.
  unfold bstr. induction a as [|c a IH]; [done|].
  change (String c a +:+ b) with (String c (a +:+ b)). unfold String.list_byte_of_string in *.
  cbn [String.list_ascii_of_string map app]. by rewrite IH.
Qed.
Lemma bstr_inj a b : bstr a = bstr b -> a = b.
Proof.
  unfold bstr. intros H. rewrite <-(String.string_of_list_byte_of_string a), <-(String.string_of_list_byte_of_string b).
  by rewrite H.
Qed.
Lemma bstr_text b : bstr (text b) = b.
Proof. apply String.list_byte_of_string_of_list_byte. Qed.

(** What [path_join] puts before the name. *)
Definition dir_prefix (a : string) : bytes :=
  if bool_decide (a = EmptyString) then []
  else if bool_decide (last (bstr a) = Some Byte.x2f) then bstr a else bstr a ++ [Byte.x2f].

Lemma bstr_path_join a b : bstr (path_join a b) = dir_prefix a ++ bstr b.
Proof.
  unfold path_join, dir_prefix. case_bool_decide; [done|]. change (String.list_byte_of_string a) with (bstr a).
  case_bool_decide; rewrite !bstr_app; [done|]. by rewrite <-app_assoc.
Qed.

Lemma dir_prefix_slash a c : last (bstr a) = Some c -> c <> Byte.x2f -> dir_prefix a = bstr a ++ [Byte.x2f].
Proof.
  intros Hl Hc. unfold dir_prefix. rewrite (bool_decide_eq_false_2 (a = _)) by by intros ->.
  by rewrite bool_decide_eq_false_2 by congruence.
Qed.
