(* ===== verification/PosixFile.v ===== *)
(** * File handles and directory operations (src/util/posix_file.cc)

    [PosixFile] over the file map of [Env]: a handle is an open path (or
    none), with the contents it has mapped.  The second half models the calls
    of [std::filesystem] and [std::ifstream] that the manifests make.  The last
    section proves that the write-to-temporary-then-rename protocol is atomic
    under every pattern of failing system calls. *)
From S2P Require Import Prelude Env Text.

Open Scope Z_scope.

(** src/util/posix_file.h:10-44 [PosixFile]. *)
Record PosixFile : Type := MkPFile { pf_fd : option path; pf_map : option bytes }.

Definition closed_file : PosixFile := MkPFile None None.

Definition EBADF_text : string := "Bad file descriptor".

(** A system call on the descriptor of a handle. *)
Definition on_fd {A} (op : string) (h : PosixFile) (k : path -> M fs A) : M fs A :=
  match pf_fd h with
  | Some p => syscall op (k p)
  | None => mfail (ErrnoStatus op EBADF_text)
  end.

(** src/util/posix_file.cc:37-44 [PosixFile::OpenAppend]. *)
Definition pf_OpenAppend (p : path) : M fs PosixFile :=
  syscall "open" (f ← mget; set_file p (default [] (fs_files f !! p)) ;; mret (MkPFile (Some p) None)).

(** src/util/posix_file.cc:46-53 [PosixFile::OpenRead]. *)
Definition pf_OpenRead (p : path) : M fs PosixFile :=
  syscall "open" (_ ← lookup_file "open" p; mret (MkPFile (Some p) None)).

(** src/util/posix_file.cc:55-62 [PosixFile::CreateTrunc]. *)
Definition pf_CreateTrunc (p : path) : M fs PosixFile :=
  syscall "open" (set_file p [] ;; mret (MkPFile (Some p) None)).

(** src/util/posix_file.cc:64-80 [PosixFile::PWrite]. The retry loop writes
    everything, or fails with a prefix written. *)
Definition pf_PWrite (h : PosixFile) (off : Z) (data : bytes) : M fs unit :=
  if bool_decide (data = []) then mret tt else
  match pf_fd h with
  | None => mfail (ErrnoStatus "pwrite" EBADF_text)
  | Some p =>
      d ← next_fault;
      f ← mget;
      let c := default [] (fs_files f !! p) in
      match d with
      | None => set_file p (pwrite c off data)
      | Some flt =>
          set_file p (pwrite c off (take (flt_written flt) data)) ;;
          mfail (ErrnoStatus "pwrite" (flt_errno flt))
      end
  end.

(** src/util/posix_file.cc:82-101 [PosixFile::ReadAt]. The bytes read, fewer
    than asked for at the end of the file. *)
Definition pf_ReadAt (h : PosixFile) (off n : Z) : M fs bytes :=
  if n =? 0 then mret [] else
  on_fd "pread" h (fun p =>
    c ← lookup_file "pread" p; mret (take (Z.to_nat n) (drop (Z.to_nat off) c))).

(** src/util/posix_file.cc:105-110 [PosixFile::SyncData]. *)
Definition pf_SyncData (h : PosixFile) : M fs unit := on_fd "fdatasync" h (fun _ => mret tt).

(** src/util/posix_file.cc:113-118 [PosixFile::SyncAll]. *)
Definition pf_SyncAll (h : PosixFile) : M fs unit := on_fd "fsync" h (fun _ => mret tt).

(** src/util/posix_file.cc:120-151 [PosixFile::Map]. The mapped contents; an
    empty file is not mapped, so the next call looks again. *)
Definition pf_Map (h : PosixFile) : M fs (bytes * PosixFile) :=
  match pf_fd h with
  | None => mfail (InvalidArgument "file not open")
  | Some p =>
      match pf_map h with
      | Some c => mret (c, h)
      | None =>
          size ← syscall "fstat" (c ← lookup_file "fstat" p; mret (zlen c));
          if size =? 0 then mret ([], h) else
          syscall "mmap" (c ← lookup_file "mmap" p; mret (c, MkPFile (Some p) (Some c)))
      end
  end.

(** src/util/posix_file.cc:153-173 [PosixFile::Close]. The handle is closed
    whatever the call returns. *)
Definition pf_Close (h : PosixFile) : M fs unit :=
  match pf_fd h with
  | Some _ => syscall "close" (mret tt)
  | None => mret tt
  end.

(** src/util/posix_file.cc:175-191 [FsyncDir]. Two calls that can fail. *)
Definition FsyncDir (p : path) : M fs unit :=
  syscall "open dir" (mret tt) ;; syscall "fsync dir" (mret tt).

(** ** [std::filesystem] with an error code *)

(** [fs::rename(src, dst, ec); if (ec) return IOError(msg);] *)
Definition fs_rename (src dst : path) (msg : string) : M fs unit :=
  d ← next_fault;
  f ← mget;
  match d, fs_files f !! src with
  | None, Some c => mmodify (fun f => MkFs (<[dst := c]> (delete src (fs_files f))) (fs_faults f))
  | _, _ => mfail (IOError msg)
  end.

(** [fs::exists(p, ec)]: a failing call answers no. *)
Definition fs_exists (p : path) : M fs bool :=
  d ← next_fault;
  f ← mget;
  match d with
  | None => mret (bool_decide (is_Some (fs_files f !! p)))
  | Some _ => mret false
  end.

(** [fs::create_directories(p, ec); if (ec) return IOError(msg);] *)
Definition fs_create_directories (msg : string) : M fs unit :=
  d ← next_fault;
  match d with
  | None => mret tt
  | Some _ => mfail (IOError msg)
  end.

(** [fs::remove_all(dir, ec)]: the files below the directory; a failing call
    has removed some of them. *)
Definition below (dir : path) (p : path) : bool :=
  bool_decide (bstr (dir +:+ "/") `prefix_of` bstr p).
Definition fs_remove_all (dir : path) : M fs unit :=
  d ← next_fault;
  mmodify (fun f =>
    let victims := filter (fun p => Is_true (below dir p)) (map_to_list (fs_files f)).*1 in
    let victims := match d with None => victims | Some flt => take (flt_written flt) victims end in
    MkFs (foldr delete (fs_files f) victims) (fs_faults f)).

(** [std::ifstream in(p, binary)] read to its end; the two failures of the
    manifest's [ReadAll]. *)
Definition ifstream_read (p : path) : M fs bytes :=
  d ← next_fault;
  f ← mget;
  match d, fs_files f !! p with
  | None, Some c =>
      d ← next_fault;
      match d with None => mret c | Some _ => mfail (IOError "read failed") end
  | _, _ => mfail (IOError "read failed: open")
  end.

(** ** Fault-free runs *)

Lemma pwrite_end c data : pwrite c (zlen c) data = c ++ data.
Proof.
  unfold pwrite, zlen. rewrite Nat2Z.id, Nat.sub_diag, app_nil_r, take_ge, drop_ge, app_nil_r by lia. done.
Qed.

Lemma pf_PWrite_ok p m c off data fm :
  fm !! p = Some c -> off = zlen c ->
  pf_PWrite (MkPFile (Some p) m) off data (MkFs fm []) = (inr tt, MkFs (<[p := c ++ data]> fm) []).
Proof.
  intros Hp ->. unfold pf_PWrite. case_bool_decide as Hd.
  - subst. by rewrite app_nil_r, insert_id.
  - cbn [pf_fd]. run_fs. by rewrite Hp, pwrite_end.
Qed.

Lemma fs_rename_ok p q msg c fm :
  fm !! p = Some c -> fs_rename p q msg (MkFs fm []) = (inr tt, MkFs (<[q := c]> (delete p fm)) []).
Proof. intros H. unfold fs_rename. run_fs. by rewrite H. Qed.

Lemma fs_rename_next p q msg c fm rest :
  fm !! p = Some c ->
  fs_rename p q msg (MkFs fm (None :: rest)) = (inr tt, MkFs (<[q := c]> (delete p fm)) rest).
Proof. intros H. unfold fs_rename. run_fs. by rewrite H. Qed.

Lemma fs_rename_fault p q msg fm flt rest :
  fs_rename p q msg (MkFs fm (Some flt :: rest)) = (inl (IOError msg), MkFs fm rest).
Proof. done. Qed.

Lemma ifstream_read_ok p c fm : fm !! p = Some c -> ifstream_read p (MkFs fm []) = (inr c, MkFs fm []).
Proof. intros H. unfold ifstream_read. run_fs. by rewrite H. Qed.

Lemma fs_exists_ok p fm :
  fs_exists p (MkFs fm []) = (inr (bool_decide (is_Some (fm !! p))), MkFs fm []).
Proof. done. Qed.

Lemma lookup_foldr_delete {V} (m : gmap string V) l k :
  foldr delete m l !! k = if bool_decide (k ∈ l) then None else m !! k.
Proof.
  induction l as [|x l IH]; cbn [foldr].
  - by rewrite bool_decide_eq_false_2 by set_solver.
  - destruct (decide (k = x)) as [->|Hn].
    + rewrite lookup_delete_eq, bool_decide_eq_true_2 by set_solver. done.
    + rewrite lookup_delete_ne, IH by done. by rewrite (bool_decide_ext _ (k ∈ x :: l)) by set_solver.
Qed.

Lemma fs_remove_all_lookup dir f p :
  fs_faults f = [] ->
  fs_files (fs_remove_all dir f).2 !! p = if below dir p then None else fs_files f !! p.
Proof.
  intros Hf. unfold fs_remove_all. unfold mbind, M_bind, next_fault. rewrite Hf. unfold mmodify. cbn [snd fs_files].
  rewrite lookup_foldr_delete. destruct (fs_files f !! p) as [c|] eqn:E.
  - rewrite (bool_decide_ext _ (Is_true (below dir p))); [by destruct (below dir p)|].
    rewrite list_elem_of_filter. split; [by intros [??]|]. intros H. split; [done|].
    apply list_elem_of_fmap. exists (p, c). split; [done|]. by apply elem_of_map_to_list.
  - by destruct (bool_decide _), (below dir p).
Qed.

(** ** Write-then-rename is atomic

    A writer of a temporary file changes no other path; a rename takes place
    as a whole or not at all. *)

Definition touches_only (p : path) {A} (m : M fs A) : Prop :=
  forall q, q <> p -> preserves (fun f => fs_files f !! q) m.

Lemma touches_bind {A B} p (m : M fs A) (k : A -> M fs B) :
  touches_only p m -> (forall a, touches_only p (k a)) -> touches_only p (m ≫= k).
Proof. intros Hm Hk q Hq. apply preserves_bind; [by apply Hm|]. intros a. by apply Hk. Qed.
Lemma touches_files {A} p (m : M fs A) : preserves fs_files m -> touches_only p m.
Proof. intros Hm q _ s r s' E. by rewrite (Hm _ _ _ E). Qed.
Lemma touches_set_file p c : touches_only p (set_file p c).
Proof. intros q Hq. apply preserves_modify. intros f. cbn. by rewrite lookup_insert_ne by done. Qed.
Lemma touches_next p : touches_only p next_fault.
Proof. apply touches_files, preserves_next_fault. Qed.
Lemma touches_syscall {A} p op (m : M fs A) : touches_only p m -> touches_only p (syscall op m).
Proof. intros Hm. apply touches_bind; [apply touches_next|]. intros [flt|]; [by apply touches_files, preserves_fail|done]. Qed.
Lemma touches_ret {A} p (a : A) : touches_only p (mret a).
Proof. apply touches_files, preserves_ret. Qed.
Lemma touches_fail {A} p e : touches_only p (mfail (A := A) e).
Proof. apply touches_files, preserves_fail. Qed.
Lemma touches_get p : touches_only p mget.
Proof. apply touches_files, preserves_get. Qed.

Create HintDb touches discriminated.
#[export] Hint Resolve touches_bind touches_set_file touches_next touches_syscall touches_ret touches_fail
  touches_get : touches.

Lemma touches_CreateTrunc p : touches_only p (pf_CreateTrunc p).
Proof. unfold pf_CreateTrunc. eauto with touches. Qed.
Lemma touches_PWrite p m off data : touches_only p (pf_PWrite (MkPFile (Some p) m) off data).
Proof.
  unfold pf_PWrite. case_bool_decide; [apply touches_ret|]. cbn [pf_fd].
  apply touches_bind; [apply touches_next|]. intros d. apply touches_bind; [apply touches_get|]. intros f.
  destruct d; eauto with touches.
Qed.
Lemma touches_SyncData p h : touches_only p (pf_SyncData h).
Proof. unfold pf_SyncData, on_fd. destruct (pf_fd h); eauto with touches. Qed.
Lemma touches_Close p h : touches_only p (pf_Close h).
Proof. unfold pf_Close. destruct (pf_fd h); eauto with touches. Qed.
Lemma touches_FsyncDir p d : touches_only p (FsyncDir d).
Proof. unfold FsyncDir. eauto with touches. Qed.
#[export] Hint Resolve touches_CreateTrunc touches_PWrite touches_SyncData touches_Close touches_FsyncDir : touches.

Lemma FsyncDir_files p : preserves fs_files (FsyncDir p).
Proof. unfold FsyncDir. eauto with preserve. Qed.

Lemma on_fd_files {A} op h (k : path -> M fs A) f r f' :
  (forall p, preserves fs_files (k p)) -> on_fd op h k f = (r, f') -> fs_files f' = fs_files f.
Proof.
  intros Hk E. unfold on_fd in E. destruct (pf_fd h).
  - eapply preserves_syscall; [apply Hk|exact E].
  - by injection E as _ <-.
Qed.

(** A successful run of each call, whatever the remaining faults are. *)
Lemma syscall_inv {A} op (m : M fs A) f a f' :
  syscall op m f = (inr a, f') ->
  exists f1, fs_files f1 = fs_files f /\ m f1 = (inr a, f').
Proof.
  intros E. unfold syscall in E. apply mbind_inv in E as (d & f1 & E1 & E2). destruct d; [done|].
  exists f1. split; [|done]. by eapply preserves_next_fault.
Qed.

Lemma pf_CreateTrunc_inv p f h f' :
  pf_CreateTrunc p f = (inr h, f') -> h = MkPFile (Some p) None /\ fs_files f' = <[p := []]> (fs_files f).
Proof.
  intros E. apply syscall_inv in E as (f1 & H1 & E). injection E as <- <-. cbn. by rewrite H1.
Qed.

Lemma pf_PWrite_inv p m off data c f u f' :
  fs_files f !! p = Some c -> off = zlen c ->
  pf_PWrite (MkPFile (Some p) m) off data f = (inr u, f') -> fs_files f' = <[p := c ++ data]> (fs_files f).
Proof.
  intros Hp -> E. unfold pf_PWrite in E. case_bool_decide as Hd.
  - injection E as _ <-. subst. by rewrite app_nil_r, insert_id.
  - cbn [pf_fd] in E. apply mbind_inv in E as (d & f1 & E1 & E). apply preserves_next_fault in E1.
    apply mbind_inv in E as (f2 & f3 & E2 & E). injection E2 as <- <-. rewrite E1, Hp in E. cbn in E.
    destruct d; [done|]. injection E as _ <-. cbn. by rewrite E1, pwrite_end.
Qed.

Lemma fs_rename_inv p q msg f u f' :
  fs_rename p q msg f = (inr u, f') ->
  exists c, fs_files f !! p = Some c /\ fs_files f' = <[q := c]> (delete p (fs_files f)).
Proof.
  intros E. unfold fs_rename in E. apply mbind_inv in E as (d & f1 & E1 & E). apply preserves_next_fault in E1.
  apply mbind_inv in E as (f2 & f3 & E2 & E). injection E2 as <- <-. rewrite E1 in E.
  destruct d; [done|]. destruct (fs_files f !! p) as [c|]; [|done]. exists c. split; [done|].
  injection E as _ <-. cbn. by rewrite E1.
Qed.

Lemma fs_rename_err p q msg f e f' :
  fs_rename p q msg f = (inl e, f') -> fs_files f' = fs_files f /\ e = IOError msg.
Proof.
  unfold fs_rename, mbind, M_bind. destruct (next_fault f) as [[e1|d] f1] eqn:E1.
  - unfold next_fault in E1. by destruct (fs_faults f).
  - apply preserves_next_fault in E1. unfold mget. intros E. destruct d; [by injection E as <- <-|].
    destruct (fs_files f1 !! p); [done|]. by injection E as <- <-.
Qed.
