(* ===== verification/FixedLogTheorems.v ===== *)
(** * The fixed-record storage engine is a map, and its file recovers

    A state of the engine is described by the records its file and its buffer
    hold ([fx_state]).  Every operation is an equation between such states;
    reading is the newest record of an id; opening a file whose last write was
    cut short finds the records that are complete. *)
From S2P Require Import Prelude Env Types FlatHash Lexical MemTable PosixFile FixedLog.

Open Scope Z_scope.

Section theorems.
Context `{F32} `{F32Le}.

(** ** Records *)

Record LogRecord : Type := MkLr { lr_header : VectorRecordHeader; lr_body : bytes }.

Definition payload_size (h : VectorRecordHeader) : Z :=
  if is_quantized h then vrh_metadata_len h + 8 + vrh_dim h else vrh_metadata_len h + vrh_dim h * 4.
Definition lr_len (r : LogRecord) : Z :=
  RecordSize (vrh_dim (lr_header r)) (vrh_metadata_len (lr_header r)) (is_quantized (lr_header r)).
Definition lr_bytes (r : LogRecord) : bytes :=
  vrh_bytes (lr_header r) ++ lr_body r ++ zeros (lr_len r - 64 - zlen (lr_body r)).

Record lr_ok (r : LogRecord) : Prop := {
  lo_id : is_u64 (vrh_id (lr_header r));
  lo_dim : is_u32 (vrh_dim (lr_header r));
  lo_flags : is_u32 (vrh_flags (lr_header r));
  lo_meta : is_u32 (vrh_metadata_len (lr_header r));
  lo_body : zlen (lr_body r) = payload_size (lr_header r) \/
            is_tombstone (lr_header r) = true /\ lr_body r = []
}.

(** What a reader gets for the record. *)
Definition lr_value (r : LogRecord) : option vec :=
  let h := lr_header r in
  if is_tombstone h then None else
  let body := drop (Z.to_nat (vrh_metadata_len h)) (lr_body r) in
  Some (if is_quantized h
        then dequantise (le_read 4 0 body) (le_read 4 4 body) (take (Z.to_nat (vrh_dim h)) (drop 8 body))
        else read_vec (Z.to_nat (vrh_dim h)) body).

Lemma RecordSize_spec dim mlen (q : bool) :
  is_u32 dim -> is_u32 mlen ->
  let n := 64 + (if q then mlen + 2 * 4 + dim else mlen + dim * 4) in
  n <= RecordSize dim mlen q < n + 64 /\ 64 <= RecordSize dim mlen q.
Proof.
  intros Hd Hm n. unfold is_u32 in *. assert (RecordSize dim mlen q = (n + 63) / 64 * 64) as ->.
  { unfold RecordSize, kStorageAlign. change (64 - 1) with (Z.ones 6).
    rewrite <-Z.ldiff_land, Z.ldiff_ones_r, Z.shiftl_mul_pow2, Z.shiftr_div_pow2 by lia.
    change (2 ^ 6) with 64. f_equal. f_equal. unfold n. destruct q; lia. }
  pose proof (Z.div_mod (n + 63) 64 ltac:(lia)). pose proof (Z.mod_pos_bound (n + 63) 64 ltac:(lia)).
  assert (64 <= n) by (unfold n; destruct q; lia). lia.
Qed.

Lemma length_vrh_bytes h : length (vrh_bytes h) = 64%nat.
Proof. unfold vrh_bytes, zeros. len. Qed.
Lemma length_zeros n : length (zeros n) = Z.to_nat n.
Proof. apply length_replicate. Qed.
#[local] Hint Rewrite length_vrh_bytes length_zeros : len.

Lemma lr_len_spec r : lr_ok r ->
  64 + payload_size (lr_header r) <= lr_len r /\ 64 <= lr_len r /\ zlen (lr_body r) <= lr_len r - 64.
Proof.
  intros [_ Hd _ Hm Hb]. unfold lr_len, payload_size in *.
  pose proof (RecordSize_spec (vrh_dim (lr_header r)) (vrh_metadata_len (lr_header r))
    (is_quantized (lr_header r)) Hd Hm) as Hs.
  cbv zeta in Hs. unfold is_u32 in *.
  assert (zlen (lr_body r) <= (if is_quantized (lr_header r)
    then vrh_metadata_len (lr_header r) + 8 + vrh_dim (lr_header r)
    else vrh_metadata_len (lr_header r) + vrh_dim (lr_header r) * 4)) as Hle.
  { destruct Hb as [->|[_ ->]]; [done|]. unfold zlen. cbn [length]. destruct (is_quantized _); lia. }
  destruct (is_quantized (lr_header r)); lia.
Qed.

Lemma zlen_lr_bytes r : lr_ok r -> zlen (lr_bytes r) = lr_len r.
Proof. intros Hr. pose proof (lr_len_spec r Hr). unfold lr_bytes, zlen in *. autorewrite with len. lia. Qed.

Lemma vrh_at_bytes h rest :
  is_u64 (vrh_id h) -> is_u32 (vrh_dim h) -> is_u32 (vrh_flags h) -> is_u32 (vrh_metadata_len h) ->
  vrh_at (vrh_bytes h ++ rest) = h.
Proof.
  destruct h as [id dim fl ml]. cbn. intros Hi Hd Hf Hm. unfold vrh_at, vrh_bytes. cbn [vrh_id vrh_dim vrh_flags vrh_metadata_len].
  rewrite <-!app_assoc. f_equal.
  - by apply le_read_app_l.
  - rewrite le_read_app_r by len. by apply le_read_app_l.
  - rewrite app_assoc, le_read_app_r by len. by apply le_read_app_l.
  - rewrite app_assoc, app_assoc, le_read_app_r by len. by apply le_read_app_l.
Qed.

Lemma lr_header_at r rest : lr_ok r -> vrh_at (lr_bytes r ++ rest) = lr_header r.
Proof. intros [? ? ? ? _]. unfold lr_bytes. rewrite <-app_assoc. by apply vrh_at_bytes. Qed.

Lemma read_vec_app n b rest : (4 * n <= length b)%nat -> read_vec n (b ++ rest) = read_vec n b.
Proof.
  revert b. induction n as [|n IH]; intros b Hb; [done|]. cbn [read_vec].
  rewrite take_app_le, drop_app_le by lia. rewrite IH by (rewrite length_drop; lia). done.
Qed.

Lemma le_read_app n off b rest : (off + n <= length b)%nat -> le_read n off (b ++ rest) = le_read n off b.
Proof. intros Hb. unfold le_read. by rewrite drop_app_le, take_app_le by (rewrite ?length_drop; lia). Qed.

(** Reading a live record back, whatever follows it in memory. *)
Lemma record_vec_at r rest :
  lr_ok r -> is_tombstone (lr_header r) = false ->
  Some (record_vec (lr_bytes r ++ rest)) = lr_value r.
Proof.
  intros Hr Ht. pose proof (lo_dim r Hr). pose proof (lo_meta r Hr). unfold record_vec, lr_value.
  rewrite lr_header_at, Ht by done. destruct (lo_body r Hr) as [Hb|[Ht' _]]; [|congruence]. f_equal.
  unfold lr_bytes. rewrite <-!app_assoc. unfold is_u32, payload_size, zlen in *.
  rewrite Z2Nat.inj_add, drop_app_plus by (try lia; len).
  destruct (is_quantized (lr_header r)); rewrite drop_app_le by lia.
  - rewrite !le_read_app by (rewrite length_drop; lia).
    rewrite drop_app_le, take_app_le by (rewrite ?length_drop; lia). done.
  - apply read_vec_app. rewrite length_drop. lia.
Qed.

(** ** The scan of the mapping *)

Lemma to_nat_zlen {A} (l : list A) : Z.to_nat (zlen l) = length l.
Proof. apply Nat2Z.id. Qed.

Definition log_bytes (rs : list LogRecord) : bytes := rs ≫= lr_bytes.

Fixpoint index_of (off : Z) (in_buffer : bool) (rs : list LogRecord) : list (Z * IndexEntry) :=
  match rs with
  | [] => []
  | r :: rs =>
      (vrh_id (lr_header r), MkIe off (lr_len r) (is_tombstone (lr_header r)) in_buffer)
      :: index_of (off + lr_len r) in_buffer rs
  end.

(** What a write that was cut short leaves after the complete records. *)
Definition torn (tl : bytes) : Prop :=
  tl = [] \/ exists r k, lr_ok r /\ (k < length (lr_bytes r))%nat /\ tl = take k (lr_bytes r).

Lemma fixed_log_bytes_app rs rs' : log_bytes (rs ++ rs') = log_bytes rs ++ log_bytes rs'.
Proof. apply bind_app. Qed.
Lemma log_bytes_cons r rs : log_bytes (r :: rs) = lr_bytes r ++ log_bytes rs.
Proof. done. Qed.

Lemma log_bytes_one r : log_bytes [r] = lr_bytes r.
Proof. apply app_nil_r. Qed.

Lemma index_of_app off b rs rs' :
  Forall lr_ok rs -> index_of off b (rs ++ rs') = index_of off b rs ++ index_of (off + zlen (log_bytes rs)) b rs'.
Proof.
  intros Hrs. revert off. induction Hrs as [|r rs Hr _ IH]; intros off; cbn [index_of app].
  - unfold zlen. cbn. by rewrite Z.add_0_r.
  - rewrite IH, log_bytes_cons, <-(zlen_lr_bytes r Hr). do 3 f_equal. unfold zlen. rewrite length_app. lia.
Qed.

Lemma scan_torn fuel pre tl : torn tl -> scan_records (S fuel) (pre ++ tl) (zlen pre) = Some [].
Proof.
  intros Ht. cbn [scan_records]. case (Z.ltb_spec (zlen (pre ++ tl)) (zlen pre + 64)) as [|Hge]; [done|].
  destruct Ht as [->|(r & k & Hr & Hk & ->)]; [exfalso; revert Hge; rewrite app_nil_r; lia|].
  pose proof (zlen_lr_bytes r Hr) as Hl. pose proof (lr_len_spec r Hr) as Hs.
  assert (64 <= k)%nat by (revert Hge; unfold zlen; autorewrite with len; lia).
  rewrite to_nat_zlen, drop_app_length.
  assert (vrh_at (take k (lr_bytes r)) = lr_header r) as ->.
  { unfold lr_bytes. rewrite take_app_ge, length_vrh_bytes by (rewrite length_vrh_bytes; lia).
    destruct Hr. by apply vrh_at_bytes. }
  fold (lr_len r). case (Z.ltb_spec (zlen (pre ++ take k (lr_bytes r))) (zlen pre + lr_len r)) as [|Hge2]; [done|].
  exfalso. revert Hge2. rewrite <-Hl. unfold zlen. autorewrite with len. lia.
Qed.

Lemma scan_log fuel pre rs tl :
  Forall lr_ok rs -> torn tl -> (length rs < fuel)%nat ->
  scan_records fuel (pre ++ log_bytes rs ++ tl) (zlen pre) = Some (index_of (zlen pre) false rs).
Proof.
  intros Hrs Ht. revert fuel pre. induction Hrs as [|r rs Hr _ IH]; intros fuel pre Hf.
  - destruct fuel as [|fuel]; [cbn in Hf; lia|]. by apply scan_torn.
  - destruct fuel as [|fuel]; [lia|]. cbn [length] in Hf. pose proof (zlen_lr_bytes r Hr) as Hl.
    pose proof (lr_len_spec r Hr) as Hs. cbn [scan_records]. rewrite log_bytes_cons, <-app_assoc.
    rewrite (proj2 (Z.ltb_ge _ _)) by (revert Hl; unfold zlen; autorewrite with len; lia).
    rewrite to_nat_zlen, drop_app_length, lr_header_at by done. fold (lr_len r).
    rewrite (proj2 (Z.ltb_ge _ _)) by (revert Hl; unfold zlen; autorewrite with len; lia).
    assert (zlen pre + lr_len r = zlen (pre ++ lr_bytes r)) as E by (rewrite <-Hl; unfold zlen; autorewrite with len; lia).
    rewrite E, (app_assoc pre), IH by lia. cbn [index_of]. by rewrite E.
Qed.

Lemma log_bytes_length rs : Forall lr_ok rs -> (64 * length rs <= length (log_bytes rs))%nat.
Proof.
  induction 1 as [|r rs Hr _ IH]; [done|]. rewrite log_bytes_cons. pose proof (zlen_lr_bytes r Hr) as Hl.
  pose proof (lr_len_spec r Hr). unfold zlen in Hl. autorewrite with len. cbn [length]. lia.
Qed.

(** ** States

    [fx_state off tl done pending fm]: the file holds the header, the records
    [done] and a torn tail [tl], the buffer the records [pending]; the
    descriptor is at [off] and [fm] are the other files. *)

Context (p : path) (dim threshold : Z) (quant : bool).

Definition contents (done : list LogRecord) (tl : bytes) : bytes :=
  StorageFileHeader 1 dim ++ log_bytes done ++ tl.

Definition fx_state (off : Z) (tl : bytes) (done pending : list LogRecord) (fm : gmap path bytes) : FixedStore :=
  let n := zlen (contents done tl) in
  MkFx p (Some off) dim threshold n (log_bytes pending) (zlen (log_bytes pending)) n
    (index_of 64 false done ++ index_of n true pending) quant (MkFs (<[p := contents done tl]> fm) []).

(** The engine writes at the end of its file. *)
Abbreviation running done pending := (fx_state (zlen (contents done [])) [] done pending).

Lemma length_file_header : length (StorageFileHeader 1 dim) = 64%nat.
Proof. unfold StorageFileHeader, zeros. by rewrite !length_app, !length_le_split, !length_replicate. Qed.

Lemma fx_contents_state off tl done pending fm : fx_contents (fx_state off tl done pending fm) = contents done tl.
Proof. unfold fx_contents, fx_state. cbn. by rewrite lookup_insert_eq. Qed.

Lemma contents_size done tl : 64 <= zlen (contents done tl).
Proof. unfold contents, zlen. rewrite length_app, length_file_header. lia. Qed.

Lemma BuildIndex_spec s done tl :
  Forall lr_ok done -> torn tl -> fx_contents s = contents done tl -> fx_map_size s = zlen (contents done tl) ->
  fx_BuildIndexFromMmap s = (inr tt, with_index (index_of 64 false done) s).
Proof.
  intros Hd Ht Hc Hm. unfold fx_BuildIndexFromMmap.
  rewrite (mbind_ok (mmodify _) _ s tt (with_index [] s) eq_refl), (mbind_ok mget _ _ _ _ eq_refl).
  change (fx_map_size (with_index [] s)) with (fx_map_size s).
  change (fx_contents (with_index [] s)) with (fx_contents s). rewrite Hc, Hm.
  destruct (Z.leb_spec (zlen (contents done tl)) 64) as [Hle|Hgt].
  - destruct done as [|r done]; [done|]. exfalso. pose proof (log_bytes_length (r :: done) Hd) as Hl.
    revert Hle. unfold contents, zlen. rewrite !length_app, length_file_header. cbn [length] in Hl. lia.
  - unfold scan_fuel. rewrite to_nat_zlen, take_ge by done. unfold contents at 2.
    assert (64 = zlen (StorageFileHeader 1 dim)) as -> by (unfold zlen; by rewrite length_file_header).
    rewrite scan_log; [done|done|done|]. pose proof (log_bytes_length done Hd). unfold contents.
    rewrite !length_app, length_file_header. lia.
Qed.

Lemma ReloadMmap_spec off fsize buf pb msize idx fm done tl :
  Forall lr_ok done -> torn tl -> fm !! p = Some (contents done tl) ->
  fx_ReloadMmap (MkFx p (Some off) dim threshold fsize buf pb msize idx quant (MkFs fm [])) =
  (inr tt, MkFx p (Some off) dim threshold (zlen (contents done tl)) buf pb (zlen (contents done tl))
             (index_of 64 false done) quant (MkFs fm [])).
Proof.
  intros Hd Ht Hp. unfold fx_ReloadMmap. rewrite (mbind_ok mget _ _ _ _ eq_refl). cbn [fx_map_size].
  set (s1 := MkFx p (Some off) dim threshold fsize buf pb (if 0 <? msize then 0 else msize) idx quant (MkFs fm [])).
  rewrite (mbind_ok _ _ _ tt s1) by (unfold s1; by destruct (0 <? msize)).
  unfold fx_is_open. cbn [fx_fd fx_path]. rewrite bool_decide_eq_true_2 by done. cbn [negb].
  rewrite (mbind_ok _ _ s1 (zlen (contents done tl)) s1).
  2:{ unfold s1, on_fs, get_fs, fx_HasFs. cbn [fx_fs]. run_fs. by rewrite Hp. }
  rewrite (mbind_ok (mmodify _) _ _ tt (with_file_size (zlen (contents done tl)) s1) eq_refl).
  pose proof (contents_size done tl). rewrite (proj2 (Z.eqb_neq _ _)) by lia.
  rewrite (mbind_ok _ _ _ tt (with_file_size (zlen (contents done tl)) s1)) by reflexivity.
  rewrite (mbind_ok (mmodify _) _ _ _ _ eq_refl).
  rewrite (BuildIndex_spec _ done tl); [done|done|done| |done].
  unfold fx_contents, s1. cbn. by rewrite Hp.
Qed.

(** Adding a record to the buffer and to the index. *)
Lemma buffer_spec off tl done pending fm r data :
  lr_ok r -> Forall lr_ok pending -> data = vrh_bytes (lr_header r) ++ lr_body r ->
  (buffer_record (lr_len r) data ;;
   index_buffered (vrh_id (lr_header r)) (lr_len r) (is_tombstone (lr_header r))) (fx_state off tl done pending fm) =
  (inr tt, fx_state off tl done (pending ++ [r]) fm).
Proof.
  intros Hr Hp ->. pose proof (lr_len_spec r Hr) as Hs. pose proof (zlen_lr_bytes r Hr) as Hl.
  assert (zlen (vrh_bytes (lr_header r) ++ lr_body r) = 64 + zlen (lr_body r)) as Hd
    by (unfold zlen; autorewrite with len; lia).
  unfold buffer_record. rewrite Hd, (proj2 (Z.ltb_ge _ _)) by lia.
  assert (log_bytes pending ++ (vrh_bytes (lr_header r) ++ lr_body r) ++ zeros (lr_len r - (64 + zlen (lr_body r)))
          = log_bytes (pending ++ [r])) as Eb.
  { rewrite fixed_log_bytes_app, log_bytes_one. unfold lr_bytes.
    rewrite <-!app_assoc. do 4 f_equal. lia. }
  assert (zlen (log_bytes pending) + lr_len r = zlen (log_bytes (pending ++ [r]))) as El.
  { rewrite fixed_log_bytes_app, log_bytes_one, <-Hl. unfold zlen. rewrite length_app. lia. }
  unfold mbind at 1, M_bind at 1, mmodify, index_buffered, fx_state, with_buffer, with_index.
  cbn [fx_path fx_fd fx_dim fx_flush_threshold fx_file_size fx_buffer fx_pending_bytes fx_map_size fx_index
    fx_use_quantization fx_fs mmodify].
  unfold mmodify. cbn [fx_path fx_fd fx_dim fx_flush_threshold fx_file_size fx_buffer fx_pending_bytes fx_map_size fx_index
    fx_use_quantization fx_fs]. rewrite Eb, El. do 2 f_equal.
  rewrite <-app_assoc. f_equal. rewrite index_of_app by done. cbn [index_of]. do 5 f_equal. lia.
Qed.

Lemma index_flushed off b rs :
  (fun '(id, e) => (id, MkIe (ie_offset e) (ie_length e) (ie_tombstone e) false)) <$> index_of off b rs
  = index_of off false rs.
Proof. revert off. induction rs as [|r rs IH]; intros off; [done|]. cbn [index_of fmap list_fmap]. by rewrite <-IH. Qed.

(** Runs the engine's monadic code without unfolding the file map. *)
Ltac run_fx :=
  cbv beta iota zeta delta [mbind M_bind mret M_ret mget mput mfail mmodify next_fault syscall lookup_file set_file
    fs_files fs_faults on_fs fst snd from_option id get_fs set_fs fx_HasFs ignore try_ tail
    fx_path fx_fd fx_dim fx_flush_threshold fx_file_size fx_buffer fx_pending_bytes fx_map_size fx_index
    fx_use_quantization fx_fs with_fd with_file_size with_buffer with_map_size with_index].

(** One [write] at the end of the file, complete or cut short. *)
Lemma fd_write_spec op off fsize buf pb msize idx fm faults c data :
  off = zlen c ->
  fd_write op data (MkFx p (Some off) dim threshold fsize buf pb msize idx quant (MkFs (<[p := c]> fm) faults)) =
  let written := match faults with Some flt :: _ => take (flt_written flt) data | _ => data end in
  (match faults with Some flt :: _ => inl (ErrnoStatus op (flt_errno flt)) | _ => inr tt end,
   MkFx p (Some (off + zlen written)) dim threshold fsize buf pb msize idx quant
     (MkFs (<[p := c ++ written]> fm) (tail faults))).
Proof.
  intros ->. unfold fd_write. rewrite (mbind_ok mget _ _ _ _ eq_refl). unfold fx_contents. cbn [fx_fs fs_files fx_path fx_fd].
  rewrite lookup_insert_eq. cbn [default from_option]. unfold id.
  destruct faults as [|[flt|] faults]; run_fx; rewrite insert_insert_eq, pwrite_end; done.
Qed.

Lemma contents_app done rs tl : contents done [] ++ log_bytes rs ++ tl = contents (done ++ rs) tl.
Proof. unfold contents. by rewrite fixed_log_bytes_app, app_nil_r, <-!app_assoc. Qed.

Lemma log_bytes_nil rs : Forall lr_ok rs -> log_bytes rs = [] -> rs = [].
Proof. intros Hrs E. apply log_bytes_length in Hrs. rewrite E in Hrs. destruct rs; [done|]. cbn in Hrs. lia. Qed.

Lemma FlushBuffer_spec done pending fm :
  Forall lr_ok pending ->
  fx_FlushBufferToFile (running done pending fm) =
  (inr tt, MkFx p (Some (zlen (contents (done ++ pending) []))) dim threshold (zlen (contents (done ++ pending) [])) [] 0
             (zlen (contents done []))
             (index_of 64 false done ++ index_of (zlen (contents done [])) false pending) quant
             (MkFs (<[p := contents (done ++ pending) []]> fm) [])).
Proof.
  intros Hp. assert (contents done [] ++ log_bytes pending = contents (done ++ pending) []) as Ec
    by (by rewrite <-contents_app, app_nil_r).
  assert (zlen (contents done []) + zlen (log_bytes pending) = zlen (contents (done ++ pending) [])) as El
    by (rewrite <-Ec; len).
  unfold fx_FlushBufferToFile. rewrite (mbind_ok mget _ _ _ _ eq_refl). cbn [fx_buffer fx_state]. case_bool_decide as Hb.
  - apply log_bytes_nil in Hb as ->; [|done]. unfold fx_state. cbn [index_of]. by rewrite !app_nil_r.
  - unfold fx_state. erewrite (mbind_ok (fd_write _ _)); [|exact (fd_write_spec "write" _ _ _ _ _ _ fm [] (contents done []) _ eq_refl)].
    run_fx. by rewrite fmap_app, !index_flushed, Ec, El.
Qed.

Lemma Flush_spec done pending fm :
  Forall lr_ok done -> Forall lr_ok pending ->
  fx_Flush (running done pending fm) = (inr tt, running (done ++ pending) [] fm).
Proof.
  intros Hd Hp. unfold fx_Flush. rewrite (mbind_ok mget _ _ _ _ eq_refl).
  rewrite (mbind_ok _ _ _ tt (running done pending fm)) by reflexivity.
  rewrite (mbind_ok _ _ _ _ _ (FlushBuffer_spec done pending fm Hp)).
  rewrite (ReloadMmap_spec _ _ _ _ _ _ _ (done ++ pending) []);
    [|by apply Forall_app|by left|by rewrite lookup_insert_eq].
  unfold fx_state. cbn [index_of]. by rewrite app_nil_r.
Qed.

(** ** The operations on running states *)

(** The records of a write that is not flushed, then of one that is. *)
Lemma auto_flush_spec done pending fm :
  Forall lr_ok done -> Forall lr_ok pending ->
  exists done' pending', auto_flush (running done pending fm) = (inr tt, running done' pending' fm) /\
    done' ++ pending' = done ++ pending /\ done `prefix_of` done'.
Proof.
  intros Hd Hp. unfold auto_flush. rewrite (mbind_ok mget _ _ _ _ eq_refl). destruct (_ <=? _).
  - rewrite Flush_spec by done. exists (done ++ pending), []. rewrite app_nil_r. eauto using prefix_app_r.
  - exists done, pending. eauto.
Qed.

(** ** Reading is the newest entry *)

Definition entry_of (r : LogRecord) : Z * option vec := (vrh_id (lr_header r), lr_value r).
Definition log_map (l : list (Z * option vec)) : gmap Z (option vec) := fold_left (fun m e => <[e.1 := e.2]> m) l ∅.

(** What [Get] reports for the value of an id. *)
Definition get_answer (o : option (option vec)) : Status + GetResult :=
  match o with
  | None => inl (NotFound "vector id")
  | Some None => inr (MkGr None 0 true)
  | Some (Some v) => inr (MkGr (Some v) (zlen v) false)
  end.

Lemma log_map_app l l' : log_map (l ++ l') = fold_left (fun m e => <[e.1 := e.2]> m) l' (log_map l).
Proof. apply fold_left_app. Qed.

Lemma find_newest_snoc id idx i e :
  find_newest id (idx ++ [(i, e)]) = if decide (i = id) then Some e else find_newest id idx.
Proof.
  unfold find_newest. rewrite reverse_snoc. cbn [list_find]. repeat case_decide; cbn [fst] in *; try done.
  by destruct (list_find _ _) as [[]|].
Qed.

(** An index entry points at a record of a memory that starts at [base]. *)
Definition points (base : Z) (b : bool) (mem : bytes) (ix : Z * IndexEntry) (r : LogRecord) : Prop :=
  exists off rest, ix = (vrh_id (lr_header r), MkIe off (lr_len r) (is_tombstone (lr_header r)) b) /\
    base <= off /\ drop (Z.to_nat (off - base)) mem = lr_bytes r ++ rest.

Lemma index_points base b pre rs suf :
  Forall lr_ok rs ->
  Forall2 (points base b (pre ++ log_bytes rs ++ suf)) (index_of (base + zlen pre) b rs) rs.
Proof.
  intros Hrs. revert pre. induction Hrs as [|r rs Hr _ IH]; intros pre; [constructor|]. cbn [index_of]. constructor.
  - exists (base + zlen pre), (log_bytes rs ++ suf). split; [done|]. split; [pose proof (zlen_nonneg pre); lia|].
    replace (base + zlen pre - base) with (zlen pre) by lia.
    by rewrite to_nat_zlen, drop_app_length, log_bytes_cons, <-app_assoc.
  - specialize (IH (pre ++ lr_bytes r)). rewrite log_bytes_cons, <-app_assoc, (app_assoc pre).
    replace (base + zlen pre + lr_len r) with (base + zlen (pre ++ lr_bytes r)); [done|].
    rewrite <-(zlen_lr_bytes r Hr). unfold zlen. rewrite length_app. lia.
Qed.

Lemma find_newest_spec (R : Z * IndexEntry -> LogRecord -> Prop) idx rs id :
  Forall2 R idx rs -> (forall ix r, R ix r -> ix.1 = vrh_id (lr_header r)) ->
  match find_newest id idx with
  | None => log_map (entry_of <$> rs) !! id = None
  | Some e => exists r, R (id, e) r /\ r ∈ rs /\ log_map (entry_of <$> rs) !! id = Some (lr_value r)
  end.
Proof.
  intros H2 Hid. revert rs H2. induction idx as [|[i e] idx IH] using rev_ind; intros rs H2.
  - apply Forall2_nil_inv_l in H2 as ->. done.
  - apply Forall2_app_inv_l in H2 as (rs1 & rs2 & H1 & H2 & ->). apply Forall2_cons_inv_l in H2 as (r & ? & Hr & H2 & ->).
    apply Forall2_nil_inv_l in H2 as ->. rewrite find_newest_snoc, fmap_app, log_map_app. cbn [fmap list_fmap fold_left entry_of fst snd].
    pose proof (Hid _ _ Hr) as Hi. cbn in Hi. case_decide as Hd.
    + subst. exists r. split; [done|]. split; [set_solver|]. by rewrite lookup_insert_eq.
    + rewrite lookup_insert_ne by congruence. specialize (IH _ H1). destruct (find_newest id idx); [|done].
      destruct IH as (r' & ? & ? & ?). exists r'. split_and!; [done|set_solver|done].
Qed.

Lemma length_read_vec n b : length (read_vec n b) = n.
Proof. revert b. induction n as [|n IH]; intros b; cbn; [done|]. by rewrite IH. Qed.

Lemma lr_value_dim r v : lr_ok r -> lr_value r = Some v -> zlen v = vrh_dim (lr_header r).
Proof.
  intros Hr Hv. pose proof (lo_dim r Hr). pose proof (lo_meta r Hr). unfold is_u32, lr_value in *.
  destruct (lo_body r Hr) as [Hb|[Ht _]]; [|by rewrite Ht in Hv].
  destruct (is_tombstone _); [done|]. injection Hv as <-. unfold payload_size in Hb. destruct (is_quantized _).
  - unfold dequantise, zlen in *. rewrite length_fmap, length_take, !length_drop. lia.
  - unfold zlen. rewrite length_read_vec. lia.
Qed.

Lemma points_bound base b mem ix r : points base b mem ix r -> lr_ok r ->
  ie_offset ix.2 - base + lr_len r <= zlen mem.
Proof.
  intros (off & rest & -> & Ho & E) Hr. cbn. apply (f_equal length) in E. pose proof (zlen_lr_bytes r Hr) as Hl.
  pose proof (lr_len_spec r Hr). revert Hl E. unfold zlen. autorewrite with len. lia.
Qed.

Lemma read_answer r rest : lr_ok r -> is_tombstone (lr_header r) = false ->
  inr (MkGr (Some (record_vec (lr_bytes r ++ rest))) (vrh_dim (vrh_at (lr_bytes r ++ rest))) false)
  = get_answer (Some (lr_value r)).
Proof.
  intros Hr Ht. pose proof (record_vec_at r rest Hr Ht) as E. rewrite lr_header_at, E by done.
  rewrite <-(lr_value_dim r _ Hr (eq_sym E)), <-E. done.
Qed.

Lemma Get_spec off tl done pending fm id :
  Forall lr_ok done -> Forall lr_ok pending ->
  fx_Get id (fx_state off tl done pending fm) = get_answer (log_map (entry_of <$> done ++ pending) !! id).
Proof.
  intros Hd Hp. set (s := fx_state off tl done pending fm). set (n := zlen (contents done tl)).
  set (R := fun ix r => points 0 false (contents done tl) ix r \/ points n true (log_bytes pending) ix r).
  pose proof (index_points 0 false (StorageFileHeader 1 dim) done tl Hd) as H1.
  rewrite Z.add_0_l in H1. unfold zlen in H1. rewrite length_file_header in H1.
  pose proof (index_points n true [] pending [] Hp) as H2. rewrite app_nil_r, Z.add_0_r in H2.
  assert (Forall2 R (fx_index s) (done ++ pending)) as HR.
  { apply Forall2_app; [eapply Forall2_impl; [exact H1|by left]|eapply Forall2_impl; [exact H2|by right]]. }
  pose proof (find_newest_spec R _ _ id HR) as Hn. unfold fx_Get.
  destruct (find_newest id (fx_index s)) as [e|]; [|rewrite Hn; [done|]; by intros ix r [(? & ? & -> & _)|(? & ? & -> & _)]].
  destruct Hn as (r & Hr & Hin & ->); [by intros ix r [(? & ? & -> & _)|(? & ? & -> & _)]|].
  assert (lr_ok r) as Hok. { apply (Forall_forall lr_ok (done ++ pending)); [by apply Forall_app|done]. }
  assert (ie_tombstone e = is_tombstone (lr_header r)) as ->
    by (by destruct Hr as [(? & ? & [= _ ->] & _)|(? & ? & [= _ ->] & _)]).
  destruct (is_tombstone (lr_header r)) eqn:Ht; [unfold lr_value; by rewrite Ht|].
  destruct Hr as [Hr|Hr]; pose proof (points_bound _ _ _ _ _ Hr Hok) as Hb;
    destruct Hr as (o & rest & [= _ ->] & Ho & Hm); cbn [ie_in_buffer ie_offset ie_length andb negb snd] in *.
  - change (fx_map_size s) with n. fold n in Hb. rewrite (proj2 (Z.ltb_ge n _)) by lia.
    unfold s at 1 2. rewrite fx_contents_state. rewrite Z.sub_0_r in Hm. rewrite Hm. by apply read_answer.
  - change (fx_buffer s) with (log_bytes pending). change (fx_file_size s) with n.
    rewrite (proj2 (Z.ltb_ge (zlen (log_bytes pending)) _)) by lia. rewrite Hm. by apply read_answer.
Qed.

(** ** The records the operations write *)

Definition put_record (id : Z) (v : vec) (blob : bytes) (rng : Z * Z) : LogRecord :=
  if quant then
    MkLr (MkVrh id (zlen v) kFlagQuantized (zlen blob))
      (blob ++ le_split 4 rng.1 ++ le_split 4 rng.2 ++ quantise rng.1 rng.2 v)
  else MkLr (MkVrh id (zlen v) 0 (zlen blob)) (blob ++ vec_bytes v).
Definition del_record (id : Z) : LogRecord := MkLr (MkVrh id dim kFlagTombstone 0) [].

(** What the engine keeps of a vector: its 8-bit form when it quantises. *)
Definition stored (rng : Z * Z) (v : vec) : vec :=
  if quant then dequantise rng.1 rng.2 (quantise rng.1 rng.2 v) else v.

Lemma put_record_ok id v blob rng :
  is_u64 id -> is_u32 (zlen v) -> is_u32 (zlen blob) -> lr_ok (put_record id v blob rng).
Proof.
  intros Hi Hv Hb. unfold put_record. destruct quant; constructor; cbn [lr_header vrh_id vrh_dim vrh_flags vrh_metadata_len lr_body];
    try done; left; unfold payload_size, quantise.
  - change (is_quantized _) with true. cbn [vrh_dim vrh_metadata_len]. unfold zlen. autorewrite with len. lia.
  - change (is_quantized _) with false. cbn [vrh_dim vrh_metadata_len]. unfold zlen. autorewrite with len. lia.
Qed.

Lemma del_record_ok id : is_u64 id -> is_u32 dim -> lr_ok (del_record id).
Proof. intros Hi Hd. constructor; cbn; try done. right. done. Qed.

Lemma put_record_entry id v blob rng :
  vec_ok v -> is_u32 rng.1 -> is_u32 rng.2 ->
  entry_of (put_record id v blob rng) = (id, Some (stored rng v)).
Proof.
  intros Hv H1 H2. unfold entry_of, put_record, stored, lr_value. destruct quant; cbn -[le_read quantise];
    rewrite to_nat_zlen, drop_app_length.
  - do 2 f_equal. rewrite le_read_app_l, le_read_app_r by (try done; len). rewrite le_read_app_l by done.
    rewrite app_assoc, drop_app_len, to_nat_zlen by len. rewrite take_ge; [done|]. unfold quantise. len.
  - rewrite to_nat_zlen, <-(app_nil_r (vec_bytes v)), read_vec_bytes by done. done.
Qed.

Lemma range_from_ok v0 l : is_u32 v0 -> vec_ok l -> is_u32 (range_from v0 l).1 /\ is_u32 (range_from v0 l).2.
Proof.
  intros Hv0 Hl. unfold range_from. assert (forall a b, is_u32 a -> is_u32 b ->
    is_u32 (fold_left (fun '(mn, mx) x => (if f32_lt x mn then x else mn, if f32_lt mx x then x else mx)) l (a, b)).1 /\
    is_u32 (fold_left (fun '(mn, mx) x => (if f32_lt x mn then x else mn, if f32_lt mx x then x else mx)) l (a, b)).2); [|auto].
  induction Hl as [|x l Hx _ IH]; intros a b Ha Hb; [done|]. cbn [fold_left].
  apply IH; by destruct (f32_lt _ _).
Qed.

Lemma head_ok v : vec_ok v -> is_u32 (default 0 (head v)).
Proof. intros [|x l Hx _]; cbn; done. Qed.
Lemma tail_ok v : vec_ok v -> vec_ok (tail v).
Proof. intros [|x l _ Hl]; cbn; [constructor|done]. Qed.

(** ** The operations on running states *)

Inductive fx_op : Type :=
  | OpAppend (id : Z) (v : vec) (meta : option Metadata)
  | OpBatch (ids : list Z) (vectors : vec) (bdim : Z)
  | OpDelete (id : Z)
  | OpFlush.

Definition fx_step (op : fx_op) : M FixedStore unit :=
  match op with
  | OpAppend id v meta => fx_Append id v meta
  | OpBatch ids vectors bdim => fx_AppendBatch ids vectors bdim
  | OpDelete id => fx_Delete id
  | OpFlush => fx_Flush
  end.
(** The state after a sequence of operations, whatever they return. *)
Definition fx_run (ops : list fx_op) (s : FixedStore) : FixedStore := fold_left (fun s op => (fx_step op s).2) ops s.

Definition blob_of (meta : option Metadata) : bytes := match meta with Some m => md_tenant m | None => [] end.

Definition op_ok (op : fx_op) : Prop :=
  match op with
  | OpAppend id v meta => is_u64 id /\ vec_ok v /\ is_u32 (zlen (blob_of meta))
  | OpBatch ids vectors bdim => Forall is_u64 ids /\ vec_ok vectors /\ is_u32 bdim /\ is_u64 (zlen ids * bdim)
  | OpDelete id => is_u64 id
  | OpFlush => True
  end.

(** What an operation adds to the abstract log; a rejected one adds nothing. *)
Definition op_entries (op : fx_op) : list (Z * option vec) :=
  match op with
  | OpAppend id v meta =>
      if zlen v =? dim then [(id, Some (stored (range_from (default 0 (head v)) (tail v)) v))] else []
  | OpBatch ids vectors bdim =>
      if (zlen vectors =? zlen ids * bdim) && negb (bdim =? 0) && (quant || (bdim =? dim)) then
        (fun '(id, v) => (id, Some (stored (range_from (default 0 (head vectors)) vectors) v)))
          <$> batch_rows (Z.to_nat bdim) ids vectors
      else []
  | OpDelete id => [(id, None)]
  | OpFlush => []
  end.

(** The effect of a computation on a running state: some records are added and
    part of the buffer may have been flushed. *)
Definition extends (m : M FixedStore unit) (entries : list (Z * option vec)) : Prop :=
  forall done pending fm, Forall lr_ok done -> Forall lr_ok pending ->
  exists done' pending' rs, (m (running done pending fm)).2 = running done' pending' fm /\
    Forall lr_ok rs /\ done' ++ pending' = (done ++ pending) ++ rs /\ done `prefix_of` done' /\ entry_of <$> rs = entries.

(** One record, then the automatic flush. *)
Lemma extends_record r data m :
  is_u32 dim -> lr_ok r -> data = vrh_bytes (lr_header r) ++ lr_body r ->
  (forall done pending fm, m (running done pending fm) =
    ((buffer_record (lr_len r) data ;;
      index_buffered (vrh_id (lr_header r)) (lr_len r) (is_tombstone (lr_header r))) ;; auto_flush) (running done pending fm)) ->
  forall done pending fm, Forall lr_ok done -> Forall lr_ok pending ->
  exists done' pending', m (running done pending fm) = (inr tt, running done' pending' fm) /\
    done' ++ pending' = (done ++ pending) ++ [r] /\ done `prefix_of` done'.
Proof.
  intros Hdim Hr Hdata Hm done pending fm Hd Hp. rewrite Hm.
  rewrite (mbind_ok _ _ _ _ _ (buffer_spec _ _ _ _ _ r data Hr Hp Hdata)).
  destruct (auto_flush_spec done (pending ++ [r]) fm) as (d' & p' & -> & E & Hpre);
    [done|apply Forall_app; by split; [|constructor]|].
  exists d', p'. split; [done|]. split; [|done]. by rewrite E, app_assoc.
Qed.

Lemma mseq_assoc {S A B C} (a : M S A) (b : M S B) (c : M S C) s : (a ;; b ;; c) s = ((a ;; b) ;; c) s.
Proof. unfold mbind, M_bind. by destruct (a s) as [[|] ?]. Qed.

Lemma Append_eq id v meta done pending fm :
  is_u32 dim -> zlen v = dim -> is_u32 (zlen (blob_of meta)) ->
  let r := put_record id v (blob_of meta) (range_from (default 0 (head v)) (tail v)) in
  fx_Append id v meta (running done pending fm) =
  ((buffer_record (lr_len r) (vrh_bytes (lr_header r) ++ lr_body r) ;;
    index_buffered (vrh_id (lr_header r)) (lr_len r) (is_tombstone (lr_header r))) ;; auto_flush) (running done pending fm).
Proof.
  intros Hdim Hv Hb r. unfold fx_Append. rewrite (mbind_ok mget _ _ _ _ eq_refl).
  rewrite (mbind_ok _ _ _ tt (running done pending fm)) by reflexivity.
  change (fx_dim (running done pending fm)) with dim. unfold vec_dim. rewrite (proj2 (Z.eqb_eq _ _) Hv).
  rewrite (mbind_ok _ _ _ tt (running done pending fm)) by reflexivity.
  change (fx_use_quantization (running done pending fm)) with quant. fold (blob_of meta).
  rewrite !u32_id by (rewrite ?Hv; done). rewrite mseq_assoc. unfold r, put_record, lr_len.
  destruct (range_from _ _) as [mn mx]. destruct quant; cbn [lr_header lr_body vrh_id vrh_dim vrh_metadata_len fst snd]; done.
Qed.

Lemma Append_spec id v meta done pending fm :
  is_u32 dim -> Forall lr_ok done -> Forall lr_ok pending ->
  zlen v = dim -> is_u64 id -> is_u32 (zlen (blob_of meta)) ->
  exists done' pending', fx_Append id v meta (running done pending fm) = (inr tt, running done' pending' fm) /\
    done' ++ pending' = (done ++ pending) ++ [put_record id v (blob_of meta) (range_from (default 0 (head v)) (tail v))] /\
    done `prefix_of` done'.
Proof.
  intros Hdim Hd Hp Hv Hi Hb. eapply extends_record; [done| |reflexivity| |done|done].
  - apply put_record_ok; [done|by rewrite Hv|done].
  - intros. by apply Append_eq.
Qed.

Lemma Delete_spec id done pending fm :
  is_u32 dim -> Forall lr_ok done -> Forall lr_ok pending -> is_u64 id ->
  exists done' pending', fx_Delete id (running done pending fm) = (inr tt, running done' pending' fm) /\
    done' ++ pending' = (done ++ pending) ++ [del_record id] /\ done `prefix_of` done'.
Proof.
  intros Hdim Hd Hp Hi. eapply extends_record; [done|by apply del_record_ok|reflexivity| |done|done].
  intros done0 pending0 fm0. unfold fx_Delete. rewrite (mbind_ok mget _ _ _ _ eq_refl).
  rewrite (mbind_ok _ _ _ tt (running done0 pending0 fm0)) by reflexivity. by rewrite mseq_assoc.
Qed.

Lemma append_rows_spec rows : is_u32 dim -> forall done pending fm,
  Forall lr_ok done -> Forall lr_ok pending -> Forall (fun row => is_u64 row.1 /\ zlen row.2 = dim) rows ->
  exists done' pending', append_rows rows (running done pending fm) = (inr tt, running done' pending' fm) /\
    done' ++ pending' = (done ++ pending) ++
      ((fun '(id, v) => put_record id v [] (range_from (default 0 (head v)) (tail v))) <$> rows) /\
    done `prefix_of` done'.
Proof.
  intros Hdim. induction rows as [|[id v] rows IH]; intros done pending fm Hd Hp Hr.
  - exists done, pending. by rewrite app_nil_r.
  - apply Forall_cons in Hr as [[Hi Hv] Hr]. cbn [fst snd] in *.
    destruct (Append_spec id v None done pending fm) as (d1 & p1 & E1 & El & Hpre); try done. cbn [append_rows].
    rewrite (mbind_ok _ _ _ _ _ E1). assert (Forall lr_ok (d1 ++ p1)) as [Hd1 Hp1]%Forall_app.
    { rewrite El. apply Forall_app. split; [by apply Forall_app|]. constructor; [|done].
      apply put_record_ok; [done|by rewrite Hv|done]. }
    destruct (IH d1 p1 fm Hd1 Hp1 Hr) as (d2 & p2 & -> & El2 & Hpre2). exists d2, p2. split; [done|].
    split; [|by transitivity d1]. rewrite El2, El. cbn [fmap list_fmap]. by rewrite <-!app_assoc.
Qed.

Lemma append_rows_quantized_spec rows bdim rng : is_u32 bdim -> quant = true -> forall done pending fm,
  Forall lr_ok done -> Forall lr_ok pending -> Forall (fun row => is_u64 row.1 /\ zlen row.2 = bdim) rows ->
  append_rows_quantized bdim rng.1 rng.2 rows (running done pending fm) =
    (inr tt, running done (pending ++ ((fun '(id, v) => put_record id v [] rng) <$> rows)) fm).
Proof.
  intros Hdim Hq. induction rows as [|[id v] rows IH]; intros done pending fm Hd Hp Hr; [by rewrite app_nil_r|].
  apply Forall_cons in Hr as [[Hi Hv] Hr]. cbn [fst snd] in *. cbn [append_rows_quantized]. rewrite mseq_assoc.
  set (r := put_record id v [] rng). assert (lr_ok r) as Hok by (apply put_record_ok; [done|by rewrite Hv|done]).
  assert (lr_header r = MkVrh id bdim kFlagQuantized 0) as Eh by (unfold r, put_record; by rewrite Hq, <-Hv).
  pose proof (buffer_spec (zlen (contents done [])) [] done pending fm r _ Hok Hp eq_refl) as E.
  assert (lr_len r = RecordSize bdim 0 true) as El by (unfold lr_len; by rewrite Eh).
  rewrite El, Eh in E. rewrite (mbind_ok _ _ _ tt (running done (pending ++ [r]) fm)).
  - rewrite IH by (try done; apply Forall_app; by split; [|constructor]). cbn [fmap list_fmap]. by rewrite <-app_assoc.
  - rewrite <-E. unfold fx_AppendToBufferQuantized. cbn [vrh_dim vrh_metadata_len vrh_id]. unfold r, put_record. by rewrite Hq.
Qed.

Lemma batch_rows_ok n ids vectors :
  Forall is_u64 ids -> vec_ok vectors -> length vectors = (length ids * n)%nat ->
  Forall (fun row => is_u64 row.1 /\ zlen row.2 = Z.of_nat n) (batch_rows n ids vectors) /\
  Forall (fun row => vec_ok row.2) (batch_rows n ids vectors).
Proof.
  intros Hi. revert vectors. induction Hi as [|id ids Hid _ IH]; intros vectors Hv Hl; [by split; constructor|].
  cbn [batch_rows length] in *. destruct (IH (drop n vectors)) as [H1 H2].
  { by apply Forall_drop. }
  { rewrite length_drop. lia. }
  split; constructor; try done; cbn.
  - split; [done|]. unfold zlen. rewrite length_take. f_equal. lia.
  - by apply Forall_take.
Qed.

Lemma extends_same m : (forall done pending fm, (m (running done pending fm)).2 = running done pending fm) -> extends m [].
Proof. intros Hm done pending fm Hd Hp. exists done, pending, []. rewrite Hm, app_nil_r. by split_and!. Qed.

Lemma extends_records m f (rows : list (Z * vec)) (g : Z * vec -> Z * option vec) :
  (forall done pending fm, Forall lr_ok done -> Forall lr_ok pending ->
    exists done' pending', m (running done pending fm) = (inr tt, running done' pending' fm) /\
      done' ++ pending' = (done ++ pending) ++ (f <$> rows) /\ done `prefix_of` done') ->
  Forall (fun row => lr_ok (f row) /\ entry_of (f row) = g row) rows -> extends m (g <$> rows).
Proof.
  intros Hm Hrows done pending fm Hd Hp. destruct (Hm done pending fm Hd Hp) as (d' & p' & -> & E & Hpre).
  exists d', p', (f <$> rows). split_and!; try done.
  - apply Forall_fmap. eapply Forall_impl; [exact Hrows|]. by intros ? [? _].
  - rewrite <-list_fmap_compose. apply list_fmap_ext. intros i row Hi. by eapply Forall_lookup_1 in Hrows as [_ ?].
Qed.

Lemma AppendBatch_eq ids vectors bdim done pending fm :
  is_u64 (zlen ids * bdim) ->
  exists e, e <> Ok /\ fx_AppendBatch ids vectors bdim (running done pending fm) =
  if bool_decide (ids = []) && negb (bdim =? 0) then (inr tt, running done pending fm) else
  if (zlen vectors =? zlen ids * bdim) && negb (bdim =? 0) then
    let rows := batch_rows (Z.to_nat bdim) ids vectors in
    let rng := range_from (default 0 (head vectors)) vectors in
    (if quant then append_rows_quantized bdim rng.1 rng.2 rows ;; auto_flush else append_rows rows) (running done pending fm)
  else (inl e, running done pending fm).
Proof.
  intros Hn. unfold fx_AppendBatch. rewrite (mbind_ok mget _ _ _ _ eq_refl).
  rewrite (mbind_ok _ _ _ tt (running done pending fm)) by reflexivity.
  change (fx_use_quantization (running done pending fm)) with quant. rewrite u64_id by done.
  destruct (bdim =? 0); cbn [negb andb mguard].
  - rewrite !andb_false_r. by exists (InvalidArgument "dim must be > 0").
  - rewrite !andb_true_r. rewrite (mbind_ok _ _ _ tt (running done pending fm)) by reflexivity.
    destruct (bool_decide _); [by exists (NotFound "")|].
    destruct (zlen vectors =? _); cbn [mguard]; [|by exists (InvalidArgument "AppendBatch: ids * dim mismatch")].
    rewrite (mbind_ok _ _ _ tt (running done pending fm)) by reflexivity. exists (NotFound ""). split; [done|].
    destruct (range_from _ _). by destruct quant.
Qed.

Lemma append_rows_mismatch id v rows done pending fm :
  zlen v <> dim -> (append_rows ((id, v) :: rows) (running done pending fm)).2 = running done pending fm.
Proof.
  intros Hv. cbn [append_rows]. unfold fx_Append, vec_dim. unfold mbind, M_bind, mget, mguard.
  change (fx_is_open (running done pending fm)) with true. change (fx_dim (running done pending fm)) with dim.
  rewrite (proj2 (Z.eqb_neq _ _) Hv). done.
Qed.

Lemma rows_impl (Q : Z * vec -> Prop) bdim rows :
  Forall (fun row => is_u64 row.1 /\ zlen row.2 = bdim) rows -> Forall (fun row => vec_ok row.2) rows ->
  (forall id v, is_u64 id -> zlen v = bdim -> vec_ok v -> Q (id, v)) -> Forall Q rows.
Proof.
  intros H1 H2 HQ. apply Forall_forall. intros [id v] Hin.
  apply (proj1 (Forall_forall _ _) H1) in Hin as Hi. apply (proj1 (Forall_forall _ _) H2) in Hin. destruct Hi. by apply HQ.
Qed.

Lemma Batch_extends ids vectors bdim :
  is_u32 dim -> op_ok (OpBatch ids vectors bdim) ->
  extends (fx_AppendBatch ids vectors bdim) (op_entries (OpBatch ids vectors bdim)).
Proof.
  intros Hdim (Hids & Hv & Hb & Hn). cbn [op_entries].
  destruct (decide (ids = [])) as [->|Hne].
  { replace (if _ && _ then _ else []) with (@nil (Z * option vec)) by (by destruct (_ && _)). apply extends_same.
    intros. destruct (AppendBatch_eq [] vectors bdim done pending fm Hn) as (e & _ & ->). cbn [bool_decide].
    by destruct (bdim =? 0), (zlen vectors =? _), quant. }
  destruct ((zlen vectors =? _) && negb (bdim =? 0)) eqn:Hg; cbn [andb].
  2:{ apply extends_same. intros. destruct (AppendBatch_eq ids vectors bdim done pending fm Hn) as (e & _ & ->).
      rewrite bool_decide_eq_false_2 by done. cbn [andb]. by rewrite Hg. }
  pose proof Hg as [Hl%Z.eqb_eq H1%negb_true_iff%Z.eqb_neq]%andb_true_iff.
  assert (length vectors = (length ids * Z.to_nat bdim)%nat) as Hln by (unfold zlen, is_u32 in *; nia).
  destruct (batch_rows_ok _ _ _ Hids Hv Hln) as [Hr1 Hr2]. rewrite Z2Nat.id in Hr1 by (unfold is_u32 in *; lia).
  assert (batch_rows (Z.to_nat bdim) ids vectors <> []) as Hrne by (by destruct ids).
  remember (batch_rows (Z.to_nat bdim) ids vectors) as rows eqn:Er.
  assert (forall done pending fm, fx_AppendBatch ids vectors bdim (running done pending fm) =
    (if quant then append_rows_quantized bdim (range_from (default 0 (head vectors)) vectors).1
                     (range_from (default 0 (head vectors)) vectors).2 rows ;; auto_flush
     else append_rows rows) (running done pending fm)) as Heq.
  { intros. destruct (AppendBatch_eq ids vectors bdim done pending fm Hn) as (e & _ & ->).
    rewrite bool_decide_eq_false_2, Hg by done. cbn [andb]. by rewrite <-Er. }
  destruct (range_from_ok (default 0 (head vectors)) vectors (head_ok _ Hv) Hv) as [Hm1 Hm2].
  set (rng := range_from (default 0 (head vectors)) vectors) in *.
  destruct quant eqn:Hq; cbn [orb]; [|destruct (Z.eqb_spec bdim dim) as [Hbd|Hbd]].
  - apply (extends_records _ (fun '(id, v) => put_record id v [] rng)).
    + intros done pending fm Hd Hp. rewrite Heq.
      rewrite (mbind_ok _ _ _ _ _ (append_rows_quantized_spec rows bdim rng Hb Hq done pending fm Hd Hp Hr1)).
      set (rs := (fun '(id, v) => put_record id v [] rng) <$> rows).
      destruct (auto_flush_spec done (pending ++ rs) fm) as (d' & p' & -> & E & Hpre); [done| |].
      { apply Forall_app. split; [done|]. apply Forall_fmap. eapply Forall_impl; [exact Hr1|].
        intros [id v] [Hi Hl']. cbn in *. apply put_record_ok; [done|by rewrite Hl'|done]. }
      exists d', p'. by rewrite E, app_assoc.
    + eapply rows_impl; [exact Hr1|exact Hr2|]. intros id v Hi Hlv Hok. split.
      * apply put_record_ok; [done|by rewrite Hlv|done].
      * by apply put_record_entry.
  - apply (extends_records _ (fun '(id, v) => put_record id v [] (range_from (default 0 (head v)) (tail v)))).
    + intros done pending fm Hd Hp. rewrite Heq. rewrite Hbd in Hr1. by apply append_rows_spec.
    + eapply rows_impl; [exact Hr1|exact Hr2|]. intros id v Hi Hlv Hok. split.
      * apply put_record_ok; [done|by rewrite Hlv|done].
      * destruct (range_from_ok _ _ (head_ok v Hok) (tail_ok v Hok)) as [H2 H3].
        rewrite put_record_entry by done. unfold stored. by rewrite Hq.
  - apply extends_same. intros. rewrite Heq. destruct rows as [|[id v] rows]; [done|].
    apply append_rows_mismatch. apply Forall_inv in Hr1 as [_ Hlv]. cbn in Hlv. congruence.
Qed.

Lemma step_extends op : is_u32 dim -> op_ok op -> extends (fx_step op) (op_entries op).
Proof.
  intros Hdim. destruct op as [id v meta|ids vectors bdim|id|]; cbn [fx_step op_ok].
  - intros (Hi & Hv & Hb). cbn [op_entries]. destruct (Z.eqb_spec (zlen v) dim) as [Hl|Hl].
    + intros done pending fm Hd Hp.
      destruct (Append_spec id v meta done pending fm) as (d' & p' & -> & E & Hpre); try done.
      eexists d', p', [_]. destruct (range_from_ok _ _ (head_ok v Hv) (tail_ok v Hv)) as [H1 H2]. split_and!; [done| |exact E|done|].
      * constructor; [|done]. apply put_record_ok; [done|by rewrite Hl|done].
      * cbn [fmap list_fmap]. by rewrite put_record_entry.
    + apply extends_same. intros. unfold fx_Append, vec_dim, mbind, M_bind, mget, mguard.
      change (fx_is_open (running done pending fm)) with true. change (fx_dim (running done pending fm)) with dim.
      by rewrite (proj2 (Z.eqb_neq _ _) Hl).
  - intros Hok. by apply Batch_extends.
  - intros Hi done pending fm Hd Hp.
    destruct (Delete_spec id done pending fm) as (d' & p' & -> & E & Hpre); try done.
    exists d', p', [del_record id]. split_and!; [done| |exact E|done|done].
    constructor; [by apply del_record_ok|done].
  - intros _ done pending fm Hd Hp. rewrite Flush_spec by done. exists (done ++ pending), [], [].
    rewrite !app_nil_r. split_and!; [done|done|done|by apply prefix_app_r|done].
Qed.

Lemma run_extends ops done pending fm :
  is_u32 dim -> Forall op_ok ops -> Forall lr_ok done -> Forall lr_ok pending ->
  exists done' pending' rs, fx_run ops (running done pending fm) = running done' pending' fm /\
    Forall lr_ok rs /\ done' ++ pending' = (done ++ pending) ++ rs /\ done `prefix_of` done' /\
    entry_of <$> rs = ops ≫= op_entries.
Proof.
  intros Hdim Hops. revert done pending. induction Hops as [|op ops Hop _ IH]; intros done pending Hd Hp.
  - exists done, pending, []. rewrite app_nil_r. by split_and!.
  - destruct (step_extends op Hdim Hop done pending fm Hd Hp) as (d1 & p1 & r1 & E1 & Hr1 & El1 & Hp1 & He1).
    assert (Forall lr_ok (d1 ++ p1)) as [Hd1 Hpe1]%Forall_app by (rewrite El1; by rewrite !Forall_app).
    destruct (IH d1 p1 Hd1 Hpe1) as (d2 & p2 & r2 & E2 & Hr2 & El2 & Hp2 & He2).
    exists d2, p2, (r1 ++ r2). split_and!.
    + unfold fx_run in *. cbn [fold_left]. by rewrite E1.
    + by apply Forall_app.
    + by rewrite El2, El1, app_assoc.
    + by transitivity d1.
    + cbn [mbind list_bind]. by rewrite fmap_app, He1, He2.
Qed.

(** ** Opening *)

Lemma header_ok rest : 0 < dim -> is_u32 dim ->
  let hdr := take 64 (StorageFileHeader 1 dim ++ rest) in
  (zlen hdr <? 64) || negb (header_valid hdr) || negb (le_read 4 16 hdr =? dim) = false.
Proof.
  intros Hpos Hd hdr. assert (hdr = StorageFileHeader 1 dim) as -> by (apply take_app_len, length_file_header).
  assert (le_read 4 16 (StorageFileHeader 1 dim) = dim) as Ed.
  { unfold StorageFileHeader. rewrite app_assoc, le_read_app_r by done. by apply le_read_app_l. }
  assert (header_valid (StorageFileHeader 1 dim) = true) as ->.
  { unfold header_valid. rewrite Ed. apply andb_true_iff. split; [|by apply Z.ltb_lt]. done. }
  unfold zlen. rewrite length_file_header, Ed, Z.eqb_refl. done.
Qed.

Lemma Close_spec s fm : fx_fs s = MkFs fm [] ->
  fx_Close s = (inr tt, MkFx (fx_path s) None (fx_dim s) (fx_flush_threshold s) 0 [] 0 0 [] (fx_use_quantization s) (MkFs fm [])).
Proof.
  destruct s as [p0 fd d th fsz b pb ms idx q f]. cbn. intros ->. unfold fx_Close.
  rewrite (mbind_ok mget _ _ _ _ eq_refl). cbn [fx_map_size]. by destruct (0 <? ms), fd.
Qed.

Definition opening (c : bytes) (fm : gmap path bytes) : FixedStore :=
  MkFx p (Some 0) dim threshold (zlen c) [] 0 0 [] quant (MkFs (<[p := c]> fm) []).

Lemma Open_start s fm c :
  0 < dim -> fx_fs s = MkFs fm [] -> default [] (fm !! p) = c ->
  fx_Open p dim threshold quant s = (open_header dim ;; fx_ReloadMmap) (opening c fm).
Proof.
  intros Hpos Hs Hc. unfold fx_Open. rewrite (proj2 (Z.eqb_neq _ _)) by lia. cbn [negb mguard].
  rewrite (mbind_ok (mret tt) _ s tt s eq_refl), (mbind_ok _ _ _ _ _ (Close_spec s fm Hs)).
  rewrite (mbind_ok _ _ _ tt (MkFx p None dim threshold 0 [] 0 0 [] quant (MkFs fm []))) by reflexivity.
  set (s1 := MkFx p None dim threshold 0 [] 0 0 [] quant (MkFs (<[p := c]> fm) [])).
  rewrite (mbind_ok _ _ _ tt s1) by (unfold s1; rewrite <-Hc; reflexivity).
  rewrite (mbind_ok _ _ _ tt (with_fd (Some 0) s1)) by reflexivity.
  rewrite (mbind_ok _ _ _ (inr (zlen c)) (with_fd (Some 0) s1)).
  - by rewrite (mbind_ok _ _ _ tt (opening c fm)) by reflexivity.
  - unfold s1. run_fx. by rewrite lookup_insert_eq.
Qed.

Lemma Open_existing s fm done tl :
  0 < dim -> is_u32 dim -> Forall lr_ok done -> torn tl -> fx_fs s = MkFs fm [] -> fm !! p = Some (contents done tl) ->
  fx_Open p dim threshold quant s = (inr tt, fx_state 0 tl done [] fm).
Proof.
  intros Hpos Hdim Hd Ht Hs Hp. rewrite (Open_start s fm (contents done tl)) by (try done; by rewrite Hp).
  rewrite (mbind_ok _ _ _ tt (opening (contents done tl) fm)).
  - unfold opening, fx_state. rewrite (ReloadMmap_spec _ _ _ _ _ _ _ done tl) by (try done; by rewrite lookup_insert_eq).
    cbn [index_of]. by rewrite app_nil_r.
  - unfold open_header. rewrite (mbind_ok mget _ _ _ _ eq_refl). pose proof (contents_size done tl) as Hn.
    cbn [fx_file_size opening]. rewrite (proj2 (Z.eqb_neq _ 0)) by lia.
    unfold fx_contents, opening. run_fx. rewrite lookup_insert_eq. cbn [default from_option]. unfold id.
    unfold contents at 1 2 3. by rewrite header_ok.
Qed.

Lemma Open_new s fm :
  0 < dim -> fx_fs s = MkFs fm [] -> default [] (fm !! p) = [] ->
  fx_Open p dim threshold quant s = (inr tt, running [] [] fm).
Proof.
  intros Hpos Hs Hp. rewrite (Open_start s fm []) by done.
  set (c := contents [] []). assert (c = StorageFileHeader 1 dim) as Ec by (unfold c, contents; apply app_nil_r).
  assert (zlen c = 64) as El by (rewrite Ec; unfold zlen; by rewrite length_file_header).
  rewrite (mbind_ok _ _ _ tt (MkFx p (Some 64) dim threshold 64 [] 0 0 [] quant (MkFs (<[p := c]> fm) []))).
  - rewrite (ReloadMmap_spec _ _ _ _ _ _ _ [] []) by (done || (by left) || by rewrite lookup_insert_eq).
    unfold fx_state. fold c. by rewrite El.
  - unfold open_header. rewrite (mbind_ok mget _ _ _ _ eq_refl). change (fx_file_size (opening [] fm) =? 0) with true.
    cbv iota. unfold opening. rewrite (mbind_ok _ _ _ (inr tt) (MkFx p (Some 64) dim threshold 0 [] 0 0 [] quant (MkFs (<[p := c]> fm) []))).
    + done.
    + unfold try_. rewrite (fd_write_spec "write header" 0 _ _ _ _ _ fm [] [] _ eq_refl). cbn [app].
      rewrite <-Ec. by rewrite El.
Qed.

(** ** What a cut-short flush leaves *)

(** A prefix of a log is some complete records and a torn one. *)
Lemma take_log k rs : Forall lr_ok rs ->
  exists n tl, take k (log_bytes rs) = log_bytes (take n rs) ++ tl /\ torn tl /\ (n <= length rs)%nat.
Proof.
  intros Hrs. revert k. induction Hrs as [|r rs Hr _ IH]; intros k.
  - exists 0%nat, []. change (log_bytes []) with (@nil byte). rewrite !take_nil. split_and!; [done|by left|done].
  - rewrite log_bytes_cons. destruct (decide (k < length (lr_bytes r))%nat) as [Hk|Hk].
    + exists 0%nat, (take k (lr_bytes r)). rewrite take_app_le by lia. split_and!; [done|right; eauto|lia].
    + rewrite take_app_ge by lia. destruct (IH (k - length (lr_bytes r))%nat) as (n & tl & -> & Ht & Hn).
      exists (S n), tl. cbn [take]. rewrite log_bytes_cons, <-app_assoc. split_and!; [done|done|cbn; lia].
Qed.

(** The process dies inside a flush, at the write (after some of its bytes) or
    at the [fsync]; only the files remain. *)
Definition crash_in_flush (flt : fault) (at_fsync : bool) (s : FixedStore) : fs :=
  let faults := if at_fsync then [None; Some flt] else [Some flt] in
  MkFs (fs_files (fx_fs (fx_Flush (set_fs (MkFs (fs_files (fx_fs s)) faults) s)).2)) [].

Definition fx_files (s : FixedStore) : gmap path bytes := fs_files (fx_fs s).

Lemma preserves_fx_fs {A} (m : M fs A) : preserves fs_files m -> preserves fx_files (on_fs m).
Proof. intros Hm s r s' E. unfold on_fs in E. destruct (m (get_fs s)) eqn:E1. simplify_eq. unfold fx_files. cbn. by eapply Hm. Qed.
Lemma preserves_fx_ignore {A} (m : M FixedStore A) : preserves fx_files m -> preserves fx_files (ignore m).
Proof. intros Hm s r s' E. unfold ignore in E. simplify_eq. destruct (m s) as [? s'] eqn:E1. by eapply Hm. Qed.
#[local] Hint Resolve preserves_fx_fs preserves_fx_ignore : preserve.

Lemma preserves_ReloadMmap : preserves fx_files fx_ReloadMmap.
Proof.
  assert (preserves fx_files fx_BuildIndexFromMmap) as Hb.
  { apply preserves_bind; [by apply preserves_modify|]. intros _. apply preserves_bind; [apply preserves_get|]. intros s.
    destruct (_ <=? _); [apply preserves_ret|]. destruct (scan_records _ _ _); [by apply preserves_modify|apply preserves_fail]. }
  apply preserves_bind; [apply preserves_get|]. intros s. apply preserves_bind.
  { destruct (_ <? _); [|apply preserves_ret]. apply preserves_bind; [eauto with preserve|]. intros _. by apply preserves_modify. }
  intros _. destruct (negb _); [apply preserves_ret|]. apply preserves_bind; [eauto 6 with preserve|]. intros size.
  apply preserves_bind; [by apply preserves_modify|]. intros _. destruct (_ =? _); [done|].
  apply preserves_bind; [eauto with preserve|]. intros _. apply preserves_bind; [by apply preserves_modify|]. by intros _.
Qed.

Lemma crash_spec flt at_fsync done pending fm :
  Forall lr_ok pending ->
  exists k, crash_in_flush flt at_fsync (running done pending fm) =
    MkFs (<[p := contents done [] ++ take k (log_bytes pending)]> fm) [].
Proof.
  intros Hp. unfold crash_in_flush. set (faults := if at_fsync then _ else _).
  set (s := MkFx p (Some (zlen (contents done []))) dim threshold (zlen (contents done [])) (log_bytes pending)
    (zlen (log_bytes pending)) (zlen (contents done []))
    (index_of 64 false done ++ index_of (zlen (contents done [])) true pending) quant
    (MkFs (<[p := contents done []]> fm) faults)).
  change (set_fs _ _) with s. unfold fx_Flush. rewrite (mbind_ok mget _ _ _ _ eq_refl).
  rewrite (mbind_ok _ _ _ tt s) by reflexivity.
  destruct (bool_decide (log_bytes pending = [])) eqn:Hb.
  - exists 0%nat. rewrite (mbind_ok _ _ _ tt s).
    2:{ unfold fx_FlushBufferToFile. rewrite (mbind_ok mget _ _ _ _ eq_refl). cbn [fx_buffer s]. by rewrite Hb. }
    destruct (fx_ReloadMmap s) as [r s'] eqn:E. apply preserves_ReloadMmap in E. unfold fx_files in E. cbn [snd].
    rewrite E. by rewrite take_0, app_nil_r.
  - assert (exists k e s', fx_FlushBufferToFile s = (inl e, s') /\
      fx_files s' = <[p := contents done [] ++ take k (log_bytes pending)]> fm) as (k & e & s' & E1 & E);
      [|exists k; rewrite (mbind_err _ _ _ _ _ E1); cbn [snd]; unfold fx_files in E; by rewrite E].
    unfold fx_FlushBufferToFile. rewrite (mbind_ok mget _ _ _ _ eq_refl). cbn [fx_buffer s]. rewrite Hb. unfold s.
    pose proof (fd_write_spec "write" _ (zlen (contents done [])) (log_bytes pending) (zlen (log_bytes pending))
      (zlen (contents done [])) (index_of 64 false done ++ index_of (zlen (contents done [])) true pending)
      fm faults (contents done []) (log_bytes pending) eq_refl) as Hw.
    destruct at_fsync; unfold faults in Hw |- *; cbv zeta iota in Hw.
    + rewrite (mbind_ok _ _ _ _ _ Hw). exists (length (log_bytes pending)). rewrite take_ge by done.
      eexists _, _. split; [reflexivity|]. done.
    + rewrite (mbind_err _ _ _ _ _ Hw). exists (flt_written flt). eexists _, _. split; [reflexivity|]. done.
Qed.
End theorems.

(** ** The theorems *)

Section claims.
Context `{F32} `{F32Le}.

(** C13. On a new file, any sequence of appends, batches, deletes and flushes leaves
    an engine that answers [Get] as the map of the last write of each id does,
    wherever the record is: in the buffer, in the mapped file, or moved from
    one to the other by a flush that the threshold started.  Rejected
    operations change nothing. *)
Theorem fixed_store_refines_map p dim threshold quant fm s0 ops id :
  0 < dim -> is_u32 dim -> fx_fs s0 = MkFs fm [] -> default [] (fm !! p) = [] -> Forall (op_ok) ops ->
  exists s, fx_Open p dim threshold quant s0 = (inr tt, s) /\
    fx_Get id (fx_run ops s) = get_answer (log_map (ops ≫= op_entries dim quant) !! id).
Proof.
  intros Hpos Hdim Hs Hp Hops. eexists. split; [by apply Open_new|].
  destruct (run_extends p dim threshold quant ops [] [] fm Hdim Hops) as (d & pe & rs & -> & Hrs & El & _ & He);
    [constructor|constructor|]. cbn [app] in El. rewrite <-He, <-El.
  assert (Forall lr_ok (d ++ pe)) as [Hd Hpe]%Forall_app by (by rewrite El). by apply Get_spec.
Qed.

(** C19. A crash inside a flush loses no record that an earlier flush had written
    and never invents one: the engine that opens the file answers from a
    prefix of the operations' records, and the prefix covers everything up to
    the last completed flush. *)
Theorem fixed_store_crash_recovers_prefix p dim threshold quant fm s0 ops1 ops2 flt at_fsync :
  0 < dim -> is_u32 dim -> fx_fs s0 = MkFs fm [] -> default [] (fm !! p) = [] ->
  Forall op_ok (ops1 ++ ops2) ->
  exists s n s', fx_Open p dim threshold quant s0 = (inr tt, s) /\
    (length (ops1 ≫= op_entries dim quant) <= n)%nat /\
    fx_Open p dim threshold quant (fx_new (crash_in_flush flt at_fsync (fx_run (ops1 ++ OpFlush :: ops2) s))) = (inr tt, s') /\
    forall id, fx_Get id s' = get_answer (log_map (take n ((ops1 ++ ops2) ≫= op_entries dim quant)) !! id).
Proof.
  intros Hpos Hdim Hs Hp [Ho1 Ho2]%Forall_app. set (s := fx_state p dim threshold quant (zlen (contents dim [] [])) [] [] [] fm).
  destruct (run_extends p dim threshold quant ops1 [] [] fm Hdim Ho1) as (d1 & p1 & r1 & E1 & Hr1 & El1 & _ & He1);
    [constructor|constructor|]. cbn [app] in El1.
  assert (Forall lr_ok (d1 ++ p1)) as [Hd1 Hp1]%Forall_app by (by rewrite El1).
  destruct (run_extends p dim threshold quant ops2 r1 [] fm Hdim Ho2 Hr1) as (d2 & p2 & r2 & E2 & Hr2 & El2 & Hpre & He2);
    [constructor|]. rewrite app_nil_r in El2.
  assert (Forall lr_ok (d2 ++ p2)) as [Hd2 Hp2]%Forall_app by (rewrite El2; by apply Forall_app).
  assert (fx_run (ops1 ++ OpFlush :: ops2) s = fx_state p dim threshold quant (zlen (contents dim d2 [])) [] d2 p2 fm) as Er.
  { unfold fx_run in *. rewrite fold_left_app. unfold s. rewrite E1. cbn [fold_left fx_step].
    rewrite Flush_spec by done. cbn [snd]. by rewrite El1, E2. }
  destruct (crash_spec p dim threshold quant flt at_fsync d2 p2 fm Hp2) as (k & Ek).
  destruct (take_log k p2 Hp2) as (n & tl & Et & Ht & Hn).
  exists s, (length d2 + n)%nat. eexists. split; [by apply Open_new|]. split; [|split].
  - rewrite <-He1, length_fmap. apply prefix_length in Hpre. lia.
  - rewrite Er, Ek, Et. eapply (Open_existing p dim threshold quant _ _ (d2 ++ take n p2) tl); try done.
    + apply Forall_app. split; [done|]. by apply Forall_take.
    + rewrite <-contents_app. apply lookup_insert_eq.
  - intros id. rewrite Get_spec; [|apply Forall_app; split; [done|by apply Forall_take]|constructor].
    rewrite app_nil_r, bind_app, <-He1, <-He2, <-fmap_app, <-El2, <-fmap_take. do 3 f_equal.
    by rewrite take_app_add.
Qed.
End claims.

(** ** Concrete runs *)

Definition toy_f32 : F32 := {|
  f32_lt := Z.ltb; f32_add := Z.add; f32_sub := Z.sub; f32_mul := Z.mul; f32_div := Z.div;
  f32_of_u8 := id; f32_to_u8 := id |}.
Definition toy_le : F32Le := {| f32_le := Z.leb |}.

Definition example_ops : list fx_op :=
  [OpAppend 7 [1; 2] (Some md_default); OpDelete 7; OpAppend 7 [3; 4] None; OpAppend 9 [5] None].
Definition example_batch : list fx_op := [OpBatch [8; 7] [5; 6; 7; 8] 2; OpDelete 8].

Lemma example_ops_ok : Forall op_ok (example_ops ++ example_batch).
Proof. repeat constructor; vm_compute; congruence. Qed.

Lemma fixed_store_refines_map_witness :
  exists s, @fx_Open "log" 2 200 false (fx_new (MkFs ∅ [])) = (inr tt, s) /\
    @fx_Get toy_f32 toy_le 7 (@fx_run toy_f32 toy_le (example_ops ++ example_batch) s) = inr (MkGr (Some [7; 8]) 2 false).
Proof.
  destruct (@fixed_store_refines_map toy_f32 toy_le "log" 2 200 false ∅ (fx_new (MkFs ∅ [])) (example_ops ++ example_batch) 7)
    as (s & E1 & E2); [lia|vm_compute; split; congruence|reflexivity|reflexivity|exact example_ops_ok|].
  exists s. split; [exact E1|]. rewrite E2. vm_compute. reflexivity.
Defined.

Lemma fixed_store_crash_recovers_prefix_witness :
  exists s n s', fx_Open "log" 2 1000 false (fx_new (MkFs ∅ [])) = (inr tt, s) /\ (3 <= n)%nat /\
    fx_Open "log" 2 1000 false (fx_new (crash_in_flush (MkFault "ENOSPC" 140) false
      (@fx_run toy_f32 toy_le (example_ops ++ OpFlush :: example_batch) s))) = (inr tt, s') /\
    forall id, @fx_Get toy_f32 toy_le id s' =
      get_answer (log_map (take n ((example_ops ++ example_batch) ≫= @op_entries toy_f32 toy_le 2 false)) !! id).
Proof.
  exact (@fixed_store_crash_recovers_prefix toy_f32 toy_le "log" 2 1000 false ∅ (fx_new (MkFs ∅ [])) example_ops example_batch
    (MkFault "ENOSPC" 140) false ltac:(lia) ltac:(vm_compute; split; congruence) eq_refl eq_refl example_ops_ok).
Defined.

(** The descriptor of a reopened file starts at offset 0, so the first flush
    after [Open] writes over the header and the records: the file does not
    open again. *)
Lemma fixed_store_reopen_overwrites :
  let run m s := (m s).2 in
  let s1 := run (fx_Open "log" 2 1000 false) (fx_new (MkFs ∅ [])) in
  let s2 := run fx_Close (@fx_run toy_f32 toy_le [OpAppend 7 [1; 2] None; OpFlush] s1) in
  let s3 := run (fx_Open "log" 2 1000 false) s2 in
  let s4 := run fx_Close (@fx_run toy_f32 toy_le [OpAppend 8 [3; 4] None; OpFlush] s3) in
  @fx_Get toy_f32 toy_le 7 s3 = inr (MkGr (Some [1; 2]) 2 false) /\
  (fx_Open "log" 2 1000 false s4).1 = inl (Corruption "invalid header").
Proof. vm_compute. done. Qed.
