(* ===== verification/Manifest.v ===== *)
(** * The database manifest (src/storage/manifest/manifest.cc)

    The catalogue of membranes: a root file that lists the names and one file
    per membrane with its specification.  Every file is text followed by a
    four-byte CRC32C and is replaced by writing a temporary file, syncing it and
    renaming it.  Names and texts are byte sequences; the paths are built as
    [std::filesystem::path] builds them. *)
From S2P Require Import Prelude Crc32c Env Text PosixFile.

Open Scope Z_scope.

(** ** The specification of a membrane *)

(** include/pomai/options.h:15-20 [MetricType]. *)
Inductive MetricType : Type := kL2 | kInnerProduct | kCosine.

(** include/pomai/options.h:22-40 [MembraneKind]. *)
Inductive MembraneKind : Type :=
  | kVector | kRag | kGraph | kText | kTimeSeries | kKeyValue | kSketch | kBlob
  | kSpatial | kMesh | kSparse | kBitset | kMeta | kAudio | kBloom | kDocument.

(** include/pomai/options.h:48-52 [IndexType]. *)
Inductive IndexType : Type := kIvfFlat | kHnsw.

(** include/pomai/options.h:54-61 [QuantizationType]. *)
Inductive QuantizationType : Type := kNone | kSq8 | kFp16 | kBit | kPq8.

#[global] Instance MetricType_eq_dec : EqDecision MetricType.
Proof. solve_decision. Defined.
#[global] Instance MembraneKind_eq_dec : EqDecision MembraneKind.
Proof. solve_decision. Defined.
#[global] Instance IndexType_eq_dec : EqDecision IndexType.
Proof. solve_decision. Defined.
#[global] Instance QuantizationType_eq_dec : EqDecision QuantizationType.
Proof. solve_decision. Defined.

(** include/pomai/options.h:82-101 [IndexParams]. *)
Record IndexParams : Type := MkIndexParams {
  ip_type : IndexType;
  ip_nlist : Z;
  ip_nprobe : Z;
  ip_hnsw_m : Z;
  ip_hnsw_ef_construction : Z;
  ip_hnsw_ef_search : Z;
  ip_adaptive_threshold : Z;
  ip_quant_type : QuantizationType;
  ip_pq_m : Z;
  ip_hnsw_no_vector_pool : bool
}.

(** include/pomai/options.h:104-106 [IndexParams::Default]. *)
Definition IndexParams_Default : IndexParams :=
  MkIndexParams kIvfFlat 64 16 32 200 64 5000 kNone 8 false.

(** include/pomai/options.h:113-126 [IndexParams::ForEdge]. *)
Definition IndexParams_ForEdge : IndexParams :=
  MkIndexParams kIvfFlat 16 4 16 100 32 2000 kNone 4 true.

(** include/pomai/options.h:294-308 [MembraneSpec]. *)
Record MembraneSpec : Type := MkSpec {
  ms_name : bytes;
  ms_shard_count : Z;
  ms_dim : Z;
  ms_metric : MetricType;
  ms_index_params : IndexParams;
  ms_kind : MembraneKind;
  ms_sync_lsn : Z;
  ms_ttl_sec : Z;
  ms_retention_max_count : Z;
  ms_retention_max_bytes : Z
}.

(** A default-constructed [MembraneSpec]. *)
Definition MembraneSpec_default : MembraneSpec :=
  MkSpec [] 0 0 kL2 IndexParams_Default kVector 0 0 0 0.

Definition set_name v s := MkSpec v (ms_shard_count s) (ms_dim s) (ms_metric s) (ms_index_params s) (ms_kind s)
  (ms_sync_lsn s) (ms_ttl_sec s) (ms_retention_max_count s) (ms_retention_max_bytes s).
Definition set_shards v s := MkSpec (ms_name s) v (ms_dim s) (ms_metric s) (ms_index_params s) (ms_kind s)
  (ms_sync_lsn s) (ms_ttl_sec s) (ms_retention_max_count s) (ms_retention_max_bytes s).
Definition set_dim v s := MkSpec (ms_name s) (ms_shard_count s) v (ms_metric s) (ms_index_params s) (ms_kind s)
  (ms_sync_lsn s) (ms_ttl_sec s) (ms_retention_max_count s) (ms_retention_max_bytes s).
Definition set_metric v s := MkSpec (ms_name s) (ms_shard_count s) (ms_dim s) v (ms_index_params s) (ms_kind s)
  (ms_sync_lsn s) (ms_ttl_sec s) (ms_retention_max_count s) (ms_retention_max_bytes s).
Definition set_index v s := MkSpec (ms_name s) (ms_shard_count s) (ms_dim s) (ms_metric s) v (ms_kind s)
  (ms_sync_lsn s) (ms_ttl_sec s) (ms_retention_max_count s) (ms_retention_max_bytes s).
Definition set_kind v s := MkSpec (ms_name s) (ms_shard_count s) (ms_dim s) (ms_metric s) (ms_index_params s) v
  (ms_sync_lsn s) (ms_ttl_sec s) (ms_retention_max_count s) (ms_retention_max_bytes s).
Definition set_sync v s := MkSpec (ms_name s) (ms_shard_count s) (ms_dim s) (ms_metric s) (ms_index_params s)
  (ms_kind s) v (ms_ttl_sec s) (ms_retention_max_count s) (ms_retention_max_bytes s).
Definition set_ttl v s := MkSpec (ms_name s) (ms_shard_count s) (ms_dim s) (ms_metric s) (ms_index_params s)
  (ms_kind s) (ms_sync_lsn s) v (ms_retention_max_count s) (ms_retention_max_bytes s).
Definition set_max_count v s := MkSpec (ms_name s) (ms_shard_count s) (ms_dim s) (ms_metric s) (ms_index_params s)
  (ms_kind s) (ms_sync_lsn s) (ms_ttl_sec s) v (ms_retention_max_bytes s).
Definition set_max_bytes v s := MkSpec (ms_name s) (ms_shard_count s) (ms_dim s) (ms_metric s) (ms_index_params s)
  (ms_kind s) (ms_sync_lsn s) (ms_ttl_sec s) (ms_retention_max_count s) v.

(** ** Names and paths *)

Definition name_char (c : byte) : bool :=
  let c := code c in
  ((97 <=? c) && (c <=? 122)) || ((65 <=? c) && (c <=? 90)) || ((48 <=? c) && (c <=? 57))
  || (c =? 95) || (c =? 45) || (c =? 46).

(** src/storage/manifest/manifest.cc:19-35 [IsValidName]. *)
Definition IsValidName (s : bytes) : bool :=
  if bool_decide (s = []) || (64 <? zlen s) then false else
  if bool_decide (s = bstr ".") || bool_decide (s = bstr "..") then false else
  forallb name_char s.

(** src/storage/manifest/manifest.cc:37-40 [RootManifestPath]. *)
Definition RootManifestPath (root : path) : path := path_join root "MANIFEST".

(** src/storage/manifest/manifest.cc:42-45 [MembraneDir]. *)
Definition MembraneDir (root : path) (name : bytes) : path :=
  path_join (path_join root "membranes") (text name).

(** src/storage/manifest/manifest.cc:47-50 [MembraneManifestPath]. *)
Definition MembraneManifestPath (root : path) (name : bytes) : path :=
  path_join (path_join (path_join root "membranes") (text name)) "MANIFEST".

(** ** Checked files *)

(** src/storage/manifest/manifest.cc:52-94 [ReadAll]. *)
Definition ReadAll (p : path) : M fs bytes :=
  buf ← ifstream_read p;
  if zlen buf <? 4 then mfail (Aborted "file too short for CRC") else
  let content_len := (length buf - 4)%nat in
  let stored_crc := le_read 4 content_len buf in
  if negb (Crc32c (take content_len buf) 0 =? stored_crc) then mfail (Aborted "CRC mismatch") else
  mret (take content_len buf).

(** src/storage/manifest/manifest.cc:96-138 [AtomicWriteFile]. *)
Definition AtomicWriteFile (final_path : path) (content : bytes) : M fs unit :=
  let tmp := final_path +:+ ".tmp" in
  pf ← pf_CreateTrunc tmp;
  pf_PWrite pf 0 content ;;
  pf_PWrite pf (zlen content) (le_split 4 (Crc32c content 0)) ;;
  pf_SyncData pf ;;
  pf_Close pf ;;
  fs_rename tmp final_path "rename failed" ;;
  FsyncDir final_path.

(** ** The root file *)

(** src/storage/manifest/manifest.cc:204-229 [LoadRoot]. The loop over the
    lines after the header. *)
Fixpoint root_entries (acc : list bytes) (ls : list bytes) : Status + list bytes :=
  match ls with
  | [] => inr acc
  | line :: ls =>
      match SplitWs line with
      | [] => root_entries acc ls
      | t0 :: ts =>
          if bool_decide (t0 = bstr "version") then root_entries acc ls else
          if bool_decide (t0 = bstr "membrane") then
            match ts with
            | [] => inl (Corruption "bad membrane line")
            | name :: _ =>
                if negb (IsValidName name) then inl (Corruption "invalid membrane name")
                else root_entries (acc ++ [name]) ls
            end
          else root_entries acc ls
      end
  end.

(** src/storage/manifest/manifest.cc:184-236 [LoadRoot]. *)
Definition LoadRoot (root : path) : M fs (list bytes) :=
  content ← ReadAll (RootManifestPath root);
  let '(header, sv) := cut_line content in
  if negb (bool_decide (header = bstr "pomai.manifest.v3"))
  then mfail (Aborted "bad manifest header: expected v3") else
  entries ← of_sum (root_entries [] (lines sv));
  mret (sort_names entries).

(** src/storage/manifest/manifest.cc:238-248 [SerializeRoot]. *)
Definition SerializeRoot (entries : list bytes) : bytes :=
  (bstr "pomai.manifest.v3" ++ [nl]) ++ (bstr "version 1" ++ [nl]) ++
  concat (map (fun e => bstr "membrane " ++ e ++ [nl]) entries).

(** ** The file of a membrane *)

(** src/storage/manifest/manifest.cc:250-268 [MembraneKindToString]. *)
Definition MembraneKindToString (kind : MembraneKind) : bytes :=
  bstr match kind with
       | kVector => "VECTOR"
       | kRag => "RAG"
       | kGraph => "GRAPH"
       | kText => "TEXT"
       | kTimeSeries => "TIMESERIES"
       | kKeyValue => "KEYVALUE"
       | kMeta => "META"
       | kSketch => "SKETCH"
       | kBlob => "BLOB"
       | kSpatial => "SPATIAL"
       | kMesh => "MESH"
       | kSparse => "SPARSE"
       | kBitset => "BITSET"
       | _ => "VECTOR"
       end.

(** src/storage/manifest/manifest.cc:270-285 [ParseMembraneKind]. *)
Definition ParseMembraneKind (tok : bytes) : MembraneKind :=
  if bool_decide (tok = bstr "RAG") then kRag else
  if bool_decide (tok = bstr "GRAPH") then kGraph else
  if bool_decide (tok = bstr "TEXT") then kText else
  if bool_decide (tok = bstr "TIMESERIES") then kTimeSeries else
  if bool_decide (tok = bstr "KEYVALUE") then kKeyValue else
  if bool_decide (tok = bstr "META") then kMeta else
  if bool_decide (tok = bstr "SKETCH") then kSketch else
  if bool_decide (tok = bstr "BLOB") then kBlob else
  if bool_decide (tok = bstr "SPATIAL") then kSpatial else
  if bool_decide (tok = bstr "MESH") then kMesh else
  if bool_decide (tok = bstr "SPARSE") then kSparse else
  if bool_decide (tok = bstr "BITSET") then kBitset else
  kVector.

(** [static_cast<uint32_t>(type)] *)
Definition IndexType_code (t : IndexType) : Z := match t with kIvfFlat => 0 | kHnsw => 1 end.

(** src/storage/manifest/manifest.cc:289-310 [WriteMembraneManifest]. The text. *)
Definition membrane_text (spec : MembraneSpec) : bytes :=
  let ip := ms_index_params spec in
  let mtype := bstr match ms_metric spec with kL2 => "L2" | kInnerProduct => "IP" | kCosine => "COS" end in
  (bstr "pomai.membrane.v3" ++ [nl]) ++
  (bstr "name " ++ ms_name spec ++ [nl]) ++
  (bstr "shards " ++ to_string (ms_shard_count spec) ++ [nl]) ++
  (bstr "dim " ++ to_string (ms_dim spec) ++ [nl]) ++
  (bstr "kind " ++ MembraneKindToString (ms_kind spec) ++ [nl]) ++
  (bstr "metric " ++ mtype ++ [nl]) ++
  (bstr "index_params " ++ to_string (IndexType_code (ip_type ip)) ++ bstr " " ++
     to_string (ip_nlist ip) ++ bstr " " ++
     to_string (ip_nprobe ip) ++ bstr " " ++
     to_string (ip_hnsw_m ip) ++ bstr " " ++
     to_string (ip_hnsw_ef_construction ip) ++ bstr " " ++
     to_string (ip_hnsw_ef_search ip) ++ [nl]) ++
  (bstr "sync_lsn " ++ to_string (ms_sync_lsn spec) ++ [nl]) ++
  (bstr "ttl_sec " ++ to_string (ms_ttl_sec spec) ++ [nl]) ++
  (bstr "retention_max_count " ++ to_string (ms_retention_max_count spec) ++ [nl]) ++
  (bstr "retention_max_bytes " ++ to_string (ms_retention_max_bytes spec) ++ [nl]).

(** src/storage/manifest/manifest.cc:287-312 [WriteMembraneManifest]. *)
Definition WriteMembraneManifest (root : path) (spec : MembraneSpec) : M fs unit :=
  AtomicWriteFile (MembraneManifestPath root (ms_name spec)) (membrane_text spec).

(** src/storage/manifest/manifest.cc:365-379 [LoadMembraneManifest]. The
    [index_params] line: the short and the long form. *)
Definition read_index_params (toks : list bytes) (ip : IndexParams) : IndexParams :=
  match toks with
  | [_; t1; t2] =>
      MkIndexParams kIvfFlat (ParseU32_into t1 (ip_nlist ip)) (ParseU32_into t2 (ip_nprobe ip))
        (ip_hnsw_m ip) (ip_hnsw_ef_construction ip) (ip_hnsw_ef_search ip)
        (ip_adaptive_threshold ip) (ip_quant_type ip) (ip_pq_m ip) (ip_hnsw_no_vector_pool ip)
  | _ :: t1 :: t2 :: t3 :: t4 :: t5 :: t6 :: _ =>
      MkIndexParams (if ParseU32_into t1 0 =? 1 then kHnsw else kIvfFlat)
        (ParseU32_into t2 (ip_nlist ip)) (ParseU32_into t3 (ip_nprobe ip)) (ParseU32_into t4 (ip_hnsw_m ip))
        (ParseU32_into t5 (ip_hnsw_ef_construction ip)) (ParseU32_into t6 (ip_hnsw_ef_search ip))
        (ip_adaptive_threshold ip) (ip_quant_type ip) (ip_pq_m ip) (ip_hnsw_no_vector_pool ip)
  | _ => ip
  end.

(** src/storage/manifest/manifest.cc:347-396 [LoadMembraneManifest]. The tokens
    of one line. *)
Definition read_spec_toks (spec : MembraneSpec) (toks : list bytes) : MembraneSpec :=
  match toks with
  | [] => spec
  | t0 :: ts =>
      let on_value (f : bytes -> MembraneSpec) := match ts with [] => spec | t1 :: _ => f t1 end in
      if bool_decide (t0 = bstr "name") then spec else
      if bool_decide (t0 = bstr "shards") then
        on_value (fun t => set_shards (ParseU32_into t (ms_shard_count spec)) spec) else
      if bool_decide (t0 = bstr "dim") then
        on_value (fun t => set_dim (ParseU32_into t (ms_dim spec)) spec) else
      if bool_decide (t0 = bstr "metric") then
        on_value (fun t => set_metric (if bool_decide (t = bstr "IP") then kInnerProduct
                                       else if bool_decide (t = bstr "COS") then kCosine else kL2) spec) else
      if bool_decide (t0 = bstr "kind") then on_value (fun t => set_kind (ParseMembraneKind t) spec) else
      if bool_decide (t0 = bstr "index_params") then
        set_index (read_index_params (t0 :: ts) (ms_index_params spec)) spec else
      if bool_decide (t0 = bstr "sync_lsn") then
        on_value (fun t => set_sync (default (ms_sync_lsn spec) (stoull t)) spec) else
      if bool_decide (t0 = bstr "ttl_sec") then
        on_value (fun t => set_ttl (ParseU32_into t (ms_ttl_sec spec)) spec) else
      if bool_decide (t0 = bstr "retention_max_count") then
        on_value (fun t => set_max_count (ParseU32_into t (ms_retention_max_count spec)) spec) else
      if bool_decide (t0 = bstr "retention_max_bytes") then
        on_value (fun t => set_max_bytes (default (ms_retention_max_bytes spec) (stoull t)) spec) else
      spec
  end.

(** src/storage/manifest/manifest.cc:345-347 [LoadMembraneManifest]. One line;
    an empty line has no tokens. *)
Definition read_spec_line (spec : MembraneSpec) (line : bytes) : MembraneSpec :=
  read_spec_toks spec (SplitWs line).

(** src/storage/manifest/manifest.cc:330-338 [LoadMembraneManifest]. The
    fields that are reset before the lines are read. *)
Definition reset_spec (name : bytes) (spec : MembraneSpec) : MembraneSpec :=
  MkSpec name 0 0 kL2 (ms_index_params spec) kVector (ms_sync_lsn spec) 0 0 0.

(** src/storage/manifest/manifest.cc:314-399 [LoadMembraneManifest]. *)
Definition LoadMembraneManifest (root : path) (name : bytes) (spec : MembraneSpec) : M fs MembraneSpec :=
  content ← ReadAll (MembraneManifestPath root name);
  let '(header, sv) := cut_line content in
  if negb (bool_decide (header = bstr "pomai.membrane.v2"))
     && negb (bool_decide (header = bstr "pomai.membrane.v3"))
  then mfail (Corruption "bad membrane manifest header: expected v2/v3") else
  mret (fold_left read_spec_line (lines sv) (reset_spec name spec)).

(** ** The catalogue *)

(** src/storage/manifest/manifest.cc:403-420 [Manifest::EnsureInitialized]. *)
Definition EnsureInitialized (root : path) : M fs unit :=
  fs_create_directories "create_directories root failed" ;;
  fs_create_directories "create_directories membranes failed" ;;
  let mp := RootManifestPath root in
  ex ← fs_exists mp;
  if (ex : bool) then mret tt else
  AtomicWriteFile mp ((bstr "pomai.manifest.v3" ++ [nl]) ++ (bstr "version 1" ++ [nl])).

(** The kinds whose membranes store vectors. *)
Definition dim_required (k : MembraneKind) : bool :=
  match k with kVector | kRag | kGraph | kText => true | _ => false end.

(** src/storage/manifest/manifest.cc:422-465 [Manifest::CreateMembrane]. *)
Definition CreateMembrane (root : path) (spec : MembraneSpec) : M fs unit :=
  mguard (IsValidName (ms_name spec)) (InvalidArgument "invalid membrane name") ;;
  mguard (negb (dim_required (ms_kind spec) && (ms_dim spec =? 0))) (InvalidArgument "dim must be > 0") ;;
  mguard (negb (ms_shard_count spec =? 0)) (InvalidArgument "shard_count must be > 0") ;;
  EnsureInitialized root ;;
  entries ← LoadRoot root;
  mguard (negb (bool_decide (ms_name spec ∈ entries))) (AlreadyExists "membrane already exists") ;;
  fs_create_directories "create_directories membrane failed" ;;
  WriteMembraneManifest root spec ;;
  AtomicWriteFile (RootManifestPath root) (SerializeRoot (sort_names (entries ++ [ms_name spec]))).

(** [entries.erase(it)] of the first entry with the name. *)
Fixpoint erase_name (name : bytes) (entries : list bytes) : list bytes :=
  match entries with
  | [] => []
  | e :: entries => if bool_decide (e = name) then entries else e :: erase_name name entries
  end.

(** src/storage/manifest/manifest.cc:467-495 [Manifest::DropMembrane]. *)
Definition DropMembrane (root : path) (name : bytes) : M fs unit :=
  mguard (IsValidName name) (InvalidArgument "invalid membrane name") ;;
  EnsureInitialized root ;;
  entries ← LoadRoot root;
  mguard (bool_decide (name ∈ entries)) (NotFound "membrane not found") ;;
  AtomicWriteFile (RootManifestPath root) (SerializeRoot (erase_name name entries)) ;;
  fs_remove_all (MembraneDir root name).

(** src/storage/manifest/manifest.cc:497-517 [Manifest::ListMembranes]. *)
Definition ListMembranes (root : path) : M fs (list bytes) :=
  EnsureInitialized root ;;
  LoadRoot root.

(** src/storage/manifest/manifest.cc:519-539 [Manifest::GetMembrane]. *)
Definition GetMembrane (root : path) (name : bytes) (out : MembraneSpec) : M fs MembraneSpec :=
  mguard (IsValidName name) (InvalidArgument "invalid membrane name") ;;
  entries ← LoadRoot root;
  mguard (bool_decide (name ∈ entries)) (NotFound "membrane not found in root") ;;
  LoadMembraneManifest root name out.

(** src/storage/manifest/manifest.cc:541-549 [Manifest::UpdateSyncLSN]. *)
Definition UpdateSyncLSN (root : path) (name : bytes) (lsn : Z) : M fs unit :=
  spec ← GetMembrane root name MembraneSpec_default;
  if ms_sync_lsn spec =? lsn then mret tt else
  WriteMembraneManifest root (set_sync lsn spec).

(** src/storage/manifest/manifest.cc:551-561 [Manifest::UpdateRetentionPolicy]. *)
Definition UpdateRetentionPolicy (root : path) (name : bytes) (ttl max_count max_bytes : Z) : M fs unit :=
  spec ← GetMembrane root name MembraneSpec_default;
  WriteMembraneManifest root (set_max_bytes max_bytes (set_max_count max_count (set_ttl ttl spec))).

(** src/storage/manifest/manifest.cc:563-574 [Manifest::CheckCompatibility]. *)
Definition CheckCompatibility (root : path) : M fs unit :=
  content ← ReadAll (RootManifestPath root);
  let '(header, _) := cut_line content in
  mguard (bool_decide (header = bstr "pomai.manifest.v3"))
         (Aborted "manifest compatibility check failed").
