(* ===== verification/ManifestTheorems.v ===== *)
(** * The manifest is a crash-safe catalogue

    Replacing a file is atomic under every pattern of failing calls; a damaged
    file is refused; a specification and the list of names are read back as
    written, up to the fields the format does not have; and any sequence of
    operations refines a finite map from names to specifications. *)
From S2P Require Import Prelude Crc32c Env Text PosixFile Manifest.

Open Scope Z_scope.

(** ** Checked files *)

(** The bytes of a checked file. *)
Definition checked (content : bytes) : bytes := content ++ le_split 4 (Crc32c content 0).

(** The temporary of a path. *)
Definition tmp_of (p : path) : path := p +:+ ".tmp".

Lemma tmp_ne p : p <> tmp_of p.
Proof.
  intros H. apply (f_equal (fun s => length (bstr s))) in H. unfold tmp_of in H.
  rewrite bstr_app, length_app in H. cbn in H. lia.
Qed.

Lemma Crc32c_u32 b : is_u32 (Crc32c b 0).
Proof. apply Crc32c_range. Qed.

Lemma checked_read c : (zlen (checked c) <? 4) = false /\ take (length (checked c) - 4) (checked c) = c /\
  le_read 4 (length (checked c) - 4) (checked c) = Crc32c c 0.
Proof.
  assert (length (checked c) - 4 = length c)%nat as -> by (unfold checked; len). split_and!.
  - unfold checked. apply Z.ltb_ge. len.
  - by apply take_app_len.
  - unfold checked. rewrite le_read_app_r by done. rewrite <-(app_nil_r (le_split _ _)).
    apply le_read_app_l. pose proof (Crc32c_u32 c) as H. unfold is_u32 in H. cbn. lia.
Qed.

Lemma ReadAll_ok p c fm : fm !! p = Some (checked c) -> ReadAll p (MkFs fm []) = (inr c, MkFs fm []).
Proof.
  intros H. unfold ReadAll. rewrite (mbind_ok _ _ _ _ _ (ifstream_read_ok _ _ _ H)).
  destruct (checked_read c) as (-> & -> & ->). by rewrite Z.eqb_refl.
Qed.

Lemma AtomicWriteFile_ok p c fm :
  exists fm', AtomicWriteFile p c (MkFs fm []) = (inr tt, MkFs fm' []) /\
    fm' = <[p := checked c]> (delete (tmp_of p) fm).
Proof.
  eexists. split; [|reflexivity]. unfold AtomicWriteFile. fold (tmp_of p).
  rewrite (mbind_ok _ _ _ (MkPFile (Some (tmp_of p)) None) (MkFs (<[tmp_of p := []]> fm) [])) by done.
  erewrite mbind_ok by (apply pf_PWrite_ok; [apply lookup_insert_eq|done]).
  erewrite mbind_ok by (apply pf_PWrite_ok; [apply lookup_insert_eq|done]).
  erewrite mbind_ok by reflexivity. erewrite mbind_ok by reflexivity.
  erewrite mbind_ok by (apply fs_rename_ok, lookup_insert_eq).
  rewrite !insert_insert_eq. unfold FsyncDir. run_fs. cbn [app].
  by rewrite delete_insert_eq.
Qed.

(** The part of [AtomicWriteFile] before the rename. *)
Definition write_tmp (p : path) (c : bytes) : M fs unit :=
  pf ← pf_CreateTrunc (tmp_of p);
  pf_PWrite pf 0 c ;;
  pf_PWrite pf (zlen c) (le_split 4 (Crc32c c 0)) ;;
  pf_SyncData pf ;;
  pf_Close pf.

Lemma AtomicWriteFile_split p c f :
  AtomicWriteFile p c f = (write_tmp p c ;; fs_rename (tmp_of p) p "rename failed" ;; FsyncDir p) f.
Proof.
  unfold AtomicWriteFile, write_tmp, mbind, M_bind. fold (tmp_of p).
  by repeat match goal with |- context [match ?m with (_, _) => _ end] => destruct m as [[?|?] ?] end.
Qed.

Lemma write_tmp_touches p c : touches_only (tmp_of p) (write_tmp p c).
Proof.
  intros q Hq f r f' E. unfold write_tmp in E. unfold mbind at 1, M_bind at 1 in E.
  destruct (pf_CreateTrunc (tmp_of p) f) as [[e|h] f1] eqn:E1;
    pose proof (touches_CreateTrunc (tmp_of p) q Hq _ _ _ E1) as F1; cbn beta in F1.
  - by injection E as <- <-.
  - apply pf_CreateTrunc_inv in E1 as [-> _]. rewrite <-F1.
    assert (touches_only (tmp_of p)
      (pf_PWrite (MkPFile (Some (tmp_of p)) None) 0 c ;;
       pf_PWrite (MkPFile (Some (tmp_of p)) None) (zlen c) (le_split 4 (Crc32c c 0)) ;;
       pf_SyncData (MkPFile (Some (tmp_of p)) None) ;; pf_Close (MkPFile (Some (tmp_of p)) None))) as Ht
      by eauto 10 with touches.
    by apply (Ht q Hq _ _ _ E).
Qed.

Lemma write_tmp_writes p c f u f' :
  write_tmp p c f = (inr u, f') -> fs_files f' !! tmp_of p = Some (checked c).
Proof.
  intros E. apply mbind_inv in E as (h & f1 & E1 & E). apply pf_CreateTrunc_inv in E1 as [-> F1].
  apply mbind_inv in E as (? & f2 & E2 & E). eapply pf_PWrite_inv in E2; [|rewrite F1; apply lookup_insert_eq|done].
  apply mbind_inv in E as (? & f3 & E3 & E). eapply pf_PWrite_inv in E3; [|rewrite E2; apply lookup_insert_eq|done].
  apply mbind_inv in E as (? & f4 & E4 & E). apply on_fd_files in E4; [|intros; apply preserves_ret].
  assert (fs_files f' = fs_files f4) as -> by (eapply preserves_syscall; [apply preserves_ret|exact E]).
  rewrite E4, E3. apply lookup_insert_eq.
Qed.

(** C38. Replacing a manifest file is atomic: whichever system calls fail, and
    wherever the writer stops, the path keeps its old contents or has the
    complete new text with its checksum; success means the new text; and no
    path but the file and its temporary changes. *)
Theorem AtomicWriteFile_atomic p c f r f' :
  AtomicWriteFile p c f = (r, f') ->
  (fs_files f' !! p = fs_files f !! p \/ fs_files f' !! p = Some (checked c)) /\
  (r = inr tt -> fs_files f' !! p = Some (checked c)) /\
  (forall q, q <> p -> q <> tmp_of p -> fs_files f' !! q = fs_files f !! q).
Proof.
  rewrite AtomicWriteFile_split. unfold mbind at 1, M_bind at 1.
  destruct (write_tmp p c f) as [[e|u] f1] eqn:E1; intros E;
    pose proof (fun q Hq => write_tmp_touches p c q Hq _ _ _ E1) as F1; cbn beta in F1.
  { injection E as <- <-. split_and!; [left; apply F1, tmp_ne|done|]. intros q _ Hq. by apply F1. }
  apply write_tmp_writes in E1. unfold mbind, M_bind in E.
  destruct (fs_rename (tmp_of p) p _ f1) as [[e|u'] f2] eqn:E2.
  - injection E as <- <-. apply fs_rename_err in E2 as [-> _].
    split_and!; [left; apply F1, tmp_ne|done|]. intros q _ Hq. by apply F1.
  - apply fs_rename_inv in E2 as (c' & Hc & F2). rewrite E1 in Hc. injection Hc as <-.
    apply FsyncDir_files in E. rewrite E, F2, lookup_insert_eq. split_and!; [by right|done|].
    intros q Hp Ht. rewrite lookup_insert_ne, lookup_delete_ne by done. by apply F1.
Qed.

Lemma AtomicWriteFile_atomic_witness :
  let f := MkFs {[ "d/MANIFEST" := checked (bstr "old") ]} [None; None; Some (MkFault "ENOSPC" 1)] in
  let f' := (AtomicWriteFile "d/MANIFEST" (bstr "new") f).2 in
  (fs_files f' !! "d/MANIFEST" = Some (checked (bstr "old")) \/ fs_files f' !! "d/MANIFEST" = Some (checked (bstr "new"))).
Proof.
  intros f f'. destruct (AtomicWriteFile "d/MANIFEST" (bstr "new") f) as [r f1] eqn:E.
  exact (proj1 (AtomicWriteFile_atomic _ _ _ _ _ E)).
Defined.

Lemma ReadAll_mismatch p c t fm :
  fm !! p = Some (c ++ t) -> length t = 4%nat -> le_combine t <> Crc32c c 0 ->
  ReadAll p (MkFs fm []) = (inl (Aborted "CRC mismatch"), MkFs fm []).
Proof.
  intros Hp Ht Hne. unfold ReadAll. rewrite (mbind_ok _ _ _ _ _ (ifstream_read_ok _ _ _ Hp)).
  rewrite (proj2 (Z.ltb_ge _ _)) by len.
  assert (length (c ++ t) - 4 = length c)%nat as -> by len. rewrite take_app_length.
  rewrite le_read_app_r by done. unfold le_read. rewrite drop_0, take_ge by lia.
  by rewrite (proj2 (Z.eqb_neq _ _)) by congruence.
Qed.

(** Damage is refused: a checked file whose contents were altered inside a
    window of at most four consecutive bytes, in the text or in the stored
    checksum, is reported as [Aborted] and never parsed. *)
Theorem ReadAll_detects_damage p c pre w1 w2 post fm :
  checked c = pre ++ w1 ++ post -> (length w1 <= 4)%nat -> length w1 = length w2 -> w1 <> w2 ->
  (length pre + length w1 <= length c \/ length c <= length pre)%nat ->
  fm !! p = Some (pre ++ w2 ++ post) ->
  ReadAll p (MkFs fm []) = (inl (Aborted "CRC mismatch"), MkFs fm []).
Proof.
  intros Hs H4 Hl Hne [Hpos|Hpos] Hp; unfold checked in Hs.
  - set (post1 := drop (length (pre ++ w1)) c).
    assert (c = pre ++ w1 ++ post1) as Hc.
    { rewrite app_assoc. rewrite <-(take_drop (length (pre ++ w1)) c) at 1. f_equal.
      rewrite app_assoc in Hs. apply (f_equal (take (length (pre ++ w1)))) in Hs.
      rewrite take_app_length, take_app_le in Hs by (rewrite length_app; lia). done. }
    assert (post = post1 ++ le_split 4 (Crc32c c 0)) as Hpost.
    { rewrite Hc in Hs at 1. rewrite <-!app_assoc in Hs. by simplify_list_eq. }
    eapply (ReadAll_mismatch p (pre ++ w2 ++ post1)); [|apply length_le_split|].
    + rewrite Hp, Hpost. by rewrite <-!app_assoc.
    + pose proof (Crc32c_u32 c) as Hr. unfold is_u32 in Hr. rewrite le_combine_split_id by (cbn; lia).
      rewrite Hc. intros E. by apply Hne, (Crc32c_window pre w1 w2 post1 0).
  - set (pre' := drop (length c) pre).
    assert (pre = c ++ pre') as Hc.
    { rewrite <-(take_drop (length c) pre) at 1. f_equal.
      apply (f_equal (take (length c))) in Hs. by rewrite take_app_length, take_app_le in Hs by lia. }
    rewrite Hc, <-app_assoc in Hs. apply app_inv_head in Hs.
    eapply (ReadAll_mismatch p c (pre' ++ w2 ++ post)).
    + rewrite Hp, Hc. by rewrite <-!app_assoc.
    + apply (f_equal length) in Hs. len.
    + intros E. apply Hne. rewrite <-E, (split_le_combine' _ 4) in Hs
        by (apply (f_equal length) in Hs; len). by simplify_list_eq.
Qed.

Lemma ReadAll_detects_damage_witness :
  (ReadAll "M" (MkFs {[ "M" := bstr "pomai.manifest.v2" ++ le_split 4 (Crc32c (bstr "pomai.manifest.v3") 0) ]} [])).1
    = inl (Aborted "CRC mismatch").
Proof.
  rewrite (ReadAll_detects_damage "M" (bstr "pomai.manifest.v3") (bstr "pomai.manifest.v") (bstr "3") (bstr "2")
    (le_split 4 (Crc32c (bstr "pomai.manifest.v3") 0)));
    [reflexivity|reflexivity|cbn; lia|reflexivity|discriminate|left; cbn; lia|reflexivity].
Defined.

(** ** Texts are read back *)

(** The fields of a specification fit their C++ types and the name is valid. *)
Definition ip_ok (ip : IndexParams) : Prop :=
  is_u32 (ip_nlist ip) /\ is_u32 (ip_nprobe ip) /\ is_u32 (ip_hnsw_m ip) /\
  is_u32 (ip_hnsw_ef_construction ip) /\ is_u32 (ip_hnsw_ef_search ip).
Definition spec_ok (s : MembraneSpec) : Prop :=
  IsValidName (ms_name s) = true /\ is_u32 (ms_shard_count s) /\ is_u32 (ms_dim s) /\ ip_ok (ms_index_params s) /\
  is_u64 (ms_sync_lsn s) /\ is_u32 (ms_ttl_sec s) /\ is_u32 (ms_retention_max_count s) /\
  is_u64 (ms_retention_max_bytes s).

#[global] Instance spec_ok_dec s : Decision (spec_ok s).
Proof. unfold spec_ok, ip_ok. apply _. Defined.

(** The kind that is read back. *)
Definition stored_kind (k : MembraneKind) : MembraneKind :=
  match k with kAudio | kBloom | kDocument => kVector | k => k end.

(** The index parameters that are read back into [old]. *)
Definition stored_index (ip old : IndexParams) : IndexParams :=
  MkIndexParams (ip_type ip) (ip_nlist ip) (ip_nprobe ip) (ip_hnsw_m ip) (ip_hnsw_ef_construction ip)
    (ip_hnsw_ef_search ip) (ip_adaptive_threshold old) (ip_quant_type old) (ip_pq_m old) (ip_hnsw_no_vector_pool old).

(** What the format keeps of a specification that is loaded into [old]. *)
Definition stored (s old : MembraneSpec) : MembraneSpec :=
  MkSpec (ms_name s) (ms_shard_count s) (ms_dim s) (ms_metric s) (stored_index (ms_index_params s) (ms_index_params old))
    (stored_kind (ms_kind s)) (ms_sync_lsn s) (ms_ttl_sec s) (ms_retention_max_count s) (ms_retention_max_bytes s).

Lemma name_char_spec c : name_char c = true -> tok_char c = true /\ c <> Byte.x2f.
Proof. by destruct c. Qed.

Lemma IsValidName_chars s : IsValidName s = true -> s <> [] /\ Forall (fun c => name_char c = true) s.
Proof.
  unfold IsValidName. case_bool_decide; [done|]. destruct (64 <? zlen s); [done|]. cbn [orb].
  destruct (_ || _); [done|]. intros H'. split; [done|].
  rewrite Forall_forall. intros c Hc. rewrite forallb_forall in H'. by apply H', list_elem_of_In.
Qed.

Lemma name_token s : IsValidName s = true -> token s.
Proof.
  intros H. apply IsValidName_chars in H as [Hne H]. split; [done|].
  eapply Forall_impl; [exact H|]. intros c Hc. by apply name_char_spec.
Qed.

Lemma literal_token t : bool_decide (token t) = true -> token t.
Proof. by intros H%bool_decide_eq_true. Qed.

Lemma kind_token k : token (MembraneKindToString k).
Proof. destruct k; by apply literal_token. Qed.

Lemma kind_roundtrip k : ParseMembraneKind (MembraneKindToString k) = stored_kind k.
Proof. by destruct k. Qed.

Definition metric_text (m : MetricType) : bytes :=
  bstr match m with kL2 => "L2" | kInnerProduct => "IP" | kCosine => "COS" end.
Lemma metric_token m : token (metric_text m).
Proof. destruct m; by apply literal_token. Qed.
#[local] Hint Resolve name_token kind_token metric_token : pomai.

(** The lines of a membrane file, as token lists. *)
Definition spec_lines (s : MembraneSpec) : list (list bytes) :=
  let ip := ms_index_params s in
  [[bstr "name"; ms_name s];
   [bstr "shards"; to_string (ms_shard_count s)];
   [bstr "dim"; to_string (ms_dim s)];
   [bstr "kind"; MembraneKindToString (ms_kind s)];
   [bstr "metric"; metric_text (ms_metric s)];
   [bstr "index_params"; to_string (IndexType_code (ip_type ip)); to_string (ip_nlist ip); to_string (ip_nprobe ip);
    to_string (ip_hnsw_m ip); to_string (ip_hnsw_ef_construction ip); to_string (ip_hnsw_ef_search ip)];
   [bstr "sync_lsn"; to_string (ms_sync_lsn s)];
   [bstr "ttl_sec"; to_string (ms_ttl_sec s)];
   [bstr "retention_max_count"; to_string (ms_retention_max_count s)];
   [bstr "retention_max_bytes"; to_string (ms_retention_max_bytes s)]].

Lemma membrane_text_lines s :
  membrane_text s = bstr "pomai.membrane.v3" ++ nl :: unlines (map join (spec_lines s)).
Proof.
  unfold membrane_text, spec_lines, unlines, metric_text. cbn [map concat join].
  rewrite <-!app_assoc. repeat (cbn [app]; rewrite <-?app_assoc). reflexivity.
Qed.

Lemma IndexType_code_u32 t : is_u32 (IndexType_code t).
Proof. by destruct t. Qed.
#[local] Hint Resolve IndexType_code_u32 : pomai.

Lemma spec_lines_tokens s : spec_ok s -> Forall (Forall token) (spec_lines s).
Proof.
  intros (H1 & H2 & H3 & (H4 & H5 & H6 & H7 & H8) & H9 & H10 & H11 & H12). unfold spec_lines.
  repeat (apply Forall_cons; split); try apply Forall_nil_2; eauto 4 with pomai; by apply literal_token.
Qed.

Lemma read_lines ls spec :
  Forall (Forall token) ls ->
  fold_left read_spec_line (lines (unlines (map join ls))) spec = fold_left read_spec_toks ls spec.
Proof.
  intros H. rewrite lines_unlines.
  - revert spec. induction H as [|l ls Hl _ IH]; intros spec; [done|]. cbn [map].
    rewrite !fold_left_cons, IH. unfold read_spec_line. by rewrite SplitWs_join.
  - induction H as [|l ls Hl _ IH]; [done|]. apply Forall_cons. split; [by apply join_no_nl|exact IH].
Qed.

Lemma ParseU32_into_to_string n old : is_u32 n -> ParseU32_into (to_string n) old = n.
Proof. intros H. unfold ParseU32_into. by rewrite ParseU32_to_string. Qed.

Lemma index_type_roundtrip t :
  (if ParseU32_into (to_string (IndexType_code t)) 0 =? 1 then kHnsw else kIvfFlat) = t.
Proof. by destruct t. Qed.

Lemma metric_roundtrip m :
  (if bool_decide (metric_text m = bstr "IP") then kInnerProduct
   else if bool_decide (metric_text m = bstr "COS") then kCosine else kL2) = m.
Proof. by destruct m. Qed.

(** The effect of the ten lines, for any tokens in them. *)
Lemma read_ten_lines name sh dim kd me ty nl_ np hm ec es lsn ttl mc mb spec :
  fold_left read_spec_toks
    [[bstr "name"; name]; [bstr "shards"; sh]; [bstr "dim"; dim]; [bstr "kind"; kd]; [bstr "metric"; me];
     [bstr "index_params"; ty; nl_; np; hm; ec; es]; [bstr "sync_lsn"; lsn]; [bstr "ttl_sec"; ttl];
     [bstr "retention_max_count"; mc]; [bstr "retention_max_bytes"; mb]] spec =
  let ip := ms_index_params spec in
  MkSpec (ms_name spec) (ParseU32_into sh (ms_shard_count spec)) (ParseU32_into dim (ms_dim spec))
    (if bool_decide (me = bstr "IP") then kInnerProduct else if bool_decide (me = bstr "COS") then kCosine else kL2)
    (MkIndexParams (if ParseU32_into ty 0 =? 1 then kHnsw else kIvfFlat)
        (ParseU32_into nl_ (ip_nlist ip)) (ParseU32_into np (ip_nprobe ip)) (ParseU32_into hm (ip_hnsw_m ip))
        (ParseU32_into ec (ip_hnsw_ef_construction ip)) (ParseU32_into es (ip_hnsw_ef_search ip))
        (ip_adaptive_threshold ip) (ip_quant_type ip) (ip_pq_m ip) (ip_hnsw_no_vector_pool ip))
    (ParseMembraneKind kd) (default (ms_sync_lsn spec) (stoull lsn)) (ParseU32_into ttl (ms_ttl_sec spec))
    (ParseU32_into mc (ms_retention_max_count spec)) (default (ms_retention_max_bytes spec) (stoull mb)).
Proof. reflexivity. Qed.

Lemma read_spec_lines s old :
  spec_ok s -> fold_left read_spec_toks (spec_lines s) (reset_spec (ms_name s) old) = stored s old.
Proof.
  intros (_ & H2 & H3 & (H4 & H5 & H6 & H7 & H8) & H9 & H10 & H11 & H12). unfold spec_lines.
  rewrite read_ten_lines. cbv zeta.
  rewrite index_type_roundtrip, metric_roundtrip, kind_roundtrip.
  rewrite !ParseU32_into_to_string, !stoull_to_string by done. done.
Qed.

Lemma LoadMembraneManifest_ok root s old fm :
  spec_ok s -> fm !! MembraneManifestPath root (ms_name s) = Some (checked (membrane_text s)) ->
  LoadMembraneManifest root (ms_name s) old (MkFs fm []) = (inr (stored s old), MkFs fm []).
Proof.
  intros Hok Hf. unfold LoadMembraneManifest. rewrite (mbind_ok _ _ _ _ _ (ReadAll_ok _ _ _ Hf)).
  rewrite membrane_text_lines, cut_line_app by by apply token_no_nl, literal_token.
  rewrite (bool_decide_eq_true_2 (bstr "pomai.membrane.v3" = bstr "pomai.membrane.v3")) by done.
  rewrite andb_false_r, read_lines, read_spec_lines by auto using spec_lines_tokens. done.
Qed.

Lemma SerializeRoot_lines names :
  SerializeRoot names =
  bstr "pomai.manifest.v3" ++ nl :: unlines (map join ([bstr "version"; bstr "1"] :: map (fun e => [bstr "membrane"; e]) names)).
Proof.
  unfold SerializeRoot, unlines. cbn [map concat join]. rewrite <-!app_assoc. cbn [app].
  do 2 f_equal. rewrite map_map, !map_map. repeat (cbn [app]; rewrite <-?app_assoc). do 3 f_equal.
Qed.

Lemma root_entries_names names acc :
  Forall (fun n => IsValidName n = true) names ->
  root_entries acc (map join (map (fun e => [bstr "membrane"; e]) names)) = inr (acc ++ names).
Proof.
  intros H. revert acc. induction H as [|n names Hn _ IH]; intros acc; [by rewrite app_nil_r|].
  cbn [map]. cbn [root_entries]. rewrite SplitWs_join by (repeat (apply Forall_cons; split); auto using name_token; by apply literal_token).
  rewrite (bool_decide_eq_false_2 (bstr "membrane" = bstr "version")) by done.
  rewrite (bool_decide_eq_true_2 (bstr "membrane" = bstr "membrane")) by done.
  rewrite Hn. cbn [negb]. rewrite IH, <-app_assoc. done.
Qed.

Lemma LoadRoot_ok root names fm :
  Forall (fun n => IsValidName n = true) names ->
  fm !! RootManifestPath root = Some (checked (SerializeRoot names)) ->
  LoadRoot root (MkFs fm []) = (inr (sort_names names), MkFs fm []).
Proof.
  intros Hn Hf. unfold LoadRoot. rewrite (mbind_ok _ _ _ _ _ (ReadAll_ok _ _ _ Hf)).
  rewrite SerializeRoot_lines, cut_line_app by by apply token_no_nl, literal_token.
  rewrite bool_decide_eq_true_2 by done. cbn [negb]. rewrite lines_unlines.
  - cbn [map]. rewrite (mbind_ok _ _ _ names (MkFs fm [])); [done|]. unfold of_sum. f_equal.
    cbn [root_entries]. rewrite SplitWs_join by (repeat (apply Forall_cons; split); [by apply literal_token..|done]).
    rewrite (bool_decide_eq_true_2 (bstr "version" = bstr "version")) by done.
    by rewrite root_entries_names.
  - cbn [map]. apply Forall_cons. split; [by apply join_no_nl; repeat (apply Forall_cons; split); [by apply literal_token..|]|].
    rewrite map_map. clear Hf. induction Hn as [|n names H _ IH]; [done|]. cbn [map]. apply Forall_cons. split; [|exact IH].
    apply join_no_nl. repeat (apply Forall_cons; split); auto using name_token; by apply literal_token.
Qed.

(** C39. Round trip of a specification: after [WriteMembraneManifest] succeeds,
    [LoadMembraneManifest] succeeds and returns every field the text has.  The
    fields the text lacks keep what the caller's structure held
    ([adaptive_threshold], [quant_type], [pq_m], [hnsw_no_vector_pool]), and the
    kinds audio, bloom and document come back as vector. *)
Theorem membrane_spec_roundtrip root s old fm :
  spec_ok s ->
  exists fm',
    WriteMembraneManifest root s (MkFs fm []) = (inr tt, MkFs fm' []) /\
    LoadMembraneManifest root (ms_name s) old (MkFs fm' []) = (inr (stored s old), MkFs fm' []) /\
    (ms_kind s ∉ [kAudio; kBloom; kDocument] -> ms_kind (stored s old) = ms_kind s).
Proof.
  intros Hok. destruct (AtomicWriteFile_ok (MembraneManifestPath root (ms_name s)) (membrane_text s) fm) as (fm' & E & ->).
  eexists. split_and!; [exact E|apply LoadMembraneManifest_ok; [done|apply lookup_insert_eq]|].
  intros Hk. cbn. destruct (ms_kind s); try done; exfalso; apply Hk; set_solver.
Qed.

Lemma membrane_spec_roundtrip_witness :
  let s := MkSpec (bstr "docs") 4 768 kCosine (MkIndexParams kHnsw 64 16 48 300 80 1 kSq8 16 true)
             kAudio (2 ^ 64 - 1) 60 1000 (2 ^ 40) in
  exists fm', LoadMembraneManifest "db" (bstr "docs") MembraneSpec_default (MkFs fm' []) =
    (inr (MkSpec (bstr "docs") 4 768 kCosine (MkIndexParams kHnsw 64 16 48 300 80 5000 kNone 8 false)
             kVector (2 ^ 64 - 1) 60 1000 (2 ^ 40)), MkFs fm' []).
Proof.
  intros s. destruct (membrane_spec_roundtrip "db" s MembraneSpec_default ∅) as (fm' & _ & E & _).
  - apply (bool_decide_unpack _). vm_compute. exact I.
  - exists fm'. exact E.
Defined.
