(* ===== verification/ManifestCatalogue.v ===== *)
(** * The manifest refines a finite map

    The abstract catalogue is a map from names to specifications.  Every
    sequence of operations on the files, from an initialised directory and
    without I/O errors, returns what the catalogue returns and leaves files
    that represent it, up to the fields the text format does not keep.  The last theorem is the effect of one failing [stat]. *)
From S2P Require Import Prelude Crc32c Env Text PosixFile Manifest ManifestTheorems.

Open Scope Z_scope.

(** ** Paths *)

Lemma bstr_RootManifestPath root : bstr (RootManifestPath root) = dir_prefix root ++ bstr "MANIFEST".
Proof. apply bstr_path_join. Qed.

Lemma dir_prefix_membranes root :
  dir_prefix (path_join root "membranes") = dir_prefix root ++ bstr "membranes/".
Proof.
  rewrite (dir_prefix_slash _ Byte.x73); [|by rewrite bstr_path_join, last_app|done].
  rewrite bstr_path_join, <-app_assoc. done.
Qed.

Lemma bstr_MembraneDir root n :
  bstr (MembraneDir root n) = dir_prefix root ++ bstr "membranes/" ++ n.
Proof. unfold MembraneDir. rewrite bstr_path_join, dir_prefix_membranes, bstr_text, <-app_assoc. done. Qed.

Lemma valid_no_slash n : IsValidName n = true -> Byte.x2f ∉ n.
Proof.
  intros [_ H]%IsValidName_chars Hin. rewrite Forall_forall in H. by apply H, name_char_spec in Hin as [_ ?].
Qed.

Lemma bstr_MembraneManifestPath root n :
  IsValidName n = true ->
  bstr (MembraneManifestPath root n) = dir_prefix root ++ bstr "membranes/" ++ n ++ bstr "/MANIFEST".
Proof.
  intros Hn. unfold MembraneManifestPath. rewrite bstr_path_join. fold (MembraneDir root n).
  pose proof Hn as [Hne _]%IsValidName_chars. destruct (last n) as [c|] eqn:Hl; [|by apply last_None in Hl].
  rewrite (dir_prefix_slash _ c).
  - rewrite bstr_MembraneDir. by rewrite <-!app_assoc.
  - rewrite bstr_MembraneDir, !last_app, Hl. done.
  - intros ->. apply (valid_no_slash n Hn). by apply last_Some_elem_of.
Qed.

Section paths.
Context (root : path) (n m : bytes) (Hn : IsValidName n = true) (Hm : IsValidName m = true).

Lemma MembraneManifestPath_inj :
  MembraneManifestPath root n = MembraneManifestPath root m -> n = m.
Proof.
  intros E%(f_equal bstr). rewrite !bstr_MembraneManifestPath in E by done.
  do 2 apply app_inv_head in E. by apply app_inv_tail in E.
Qed.

Lemma MembraneManifestPath_root : MembraneManifestPath root n <> RootManifestPath root.
Proof.
  intros E%(f_equal bstr). rewrite bstr_MembraneManifestPath, bstr_RootManifestPath in E by done.
  by apply app_inv_head in E.
Qed.

Lemma MembraneManifestPath_root_tmp : MembraneManifestPath root n <> tmp_of (RootManifestPath root).
Proof.
  intros E%(f_equal bstr). unfold tmp_of in E. rewrite bstr_app, bstr_MembraneManifestPath, bstr_RootManifestPath in E by done.
  rewrite <-app_assoc in E. by apply app_inv_head in E.
Qed.

Lemma MembraneManifestPath_tmp : MembraneManifestPath root n <> tmp_of (MembraneManifestPath root m).
Proof.
  intros E%(f_equal (last ∘ bstr)). unfold tmp_of, compose in E.
  rewrite bstr_app, !bstr_MembraneManifestPath, !last_app in E by done. done.
Qed.

Lemma RootManifestPath_tmp : RootManifestPath root <> tmp_of (MembraneManifestPath root n).
Proof.
  intros E%(f_equal bstr). unfold tmp_of in E. rewrite bstr_app, bstr_MembraneManifestPath, bstr_RootManifestPath in E by done.
  rewrite <-app_assoc in E. by apply app_inv_head in E.
Qed.

Lemma below_root : below (MembraneDir root n) (RootManifestPath root) = false.
Proof.
  unfold below. apply bool_decide_eq_false_2. intros [k E].
  rewrite bstr_app, bstr_MembraneDir, bstr_RootManifestPath, <-!app_assoc in E. by apply app_inv_head in E.
Qed.

Lemma below_membrane : n <> m -> below (MembraneDir root n) (MembraneManifestPath root m) = false.
Proof.
  intros Hne. unfold below. apply bool_decide_eq_false_2. intros [k E].
  rewrite bstr_app, bstr_MembraneDir, bstr_MembraneManifestPath, <-!app_assoc in E by done.
  do 2 apply app_inv_head in E. apply Hne. apply valid_no_slash in Hn, Hm. clear Hne.
  revert m Hm E. induction n as [|c n' IH]; intros [|d m'] Hm E.
  - done.
  - cbn in E. injection E as -> _. set_solver.
  - cbn in E. injection E as <- _. set_solver.
  - cbn in E. injection E as -> E. f_equal. apply (IH ltac:(set_solver) m'); [set_solver|done].
Qed.
End paths.

(** ** The catalogue *)

Abbreviation catalogue := (gmap bytes MembraneSpec).

Inductive man_op : Type :=
  | OpCreate (spec : MembraneSpec)
  | OpDrop (name : bytes)
  | OpSync (name : bytes) (lsn : Z)
  | OpRetention (name : bytes) (ttl max_count max_bytes : Z)
  | OpList
  | OpGet (name : bytes).

Inductive man_reply : Type := RDone | RNames (names : list bytes) | RSpec (spec : MembraneSpec).

(** The operations on the files. *)
Definition man_run (root : path) (op : man_op) : M fs man_reply :=
  match op with
  | OpCreate spec => CreateMembrane root spec ;; mret RDone
  | OpDrop name => DropMembrane root name ;; mret RDone
  | OpSync name lsn => UpdateSyncLSN root name lsn ;; mret RDone
  | OpRetention name ttl c b => UpdateRetentionPolicy root name ttl c b ;; mret RDone
  | OpList => names ← ListMembranes root; mret (RNames names)
  | OpGet name => spec ← GetMembrane root name MembraneSpec_default; mret (RSpec spec)
  end.

(** The names of a catalogue, in order. *)
Definition cat_names (cat : catalogue) : list bytes := sort_names (map_to_list cat).*1.

(** The specification of a name, for the operations that need one. *)
Definition cat_get (name : bytes) (missing : Status) : M catalogue MembraneSpec :=
  mguard (IsValidName name) (InvalidArgument "invalid membrane name") ;;
  cat ← mget;
  match cat !! name with
  | Some s => mret s
  | None => mfail missing
  end.

(** The operations on the catalogue of what the files keep: a created
    specification is entered as the format stores it. *)
Definition cat_run (op : man_op) : M catalogue man_reply :=
  match op with
  | OpCreate s =>
      mguard (IsValidName (ms_name s)) (InvalidArgument "invalid membrane name") ;;
      mguard (negb (dim_required (ms_kind s) && (ms_dim s =? 0))) (InvalidArgument "dim must be > 0") ;;
      mguard (negb (ms_shard_count s =? 0)) (InvalidArgument "shard_count must be > 0") ;;
      cat ← mget;
      match cat !! ms_name s with
      | Some _ => mfail (AlreadyExists "membrane already exists")
      | None => mput (<[ms_name s := stored s MembraneSpec_default]> cat) ;; mret RDone
      end
  | OpDrop name =>
      cat_get name (NotFound "membrane not found") ;; mmodify (delete name) ;; mret RDone
  | OpSync name lsn =>
      s ← cat_get name (NotFound "membrane not found in root");
      mmodify (<[name := set_sync lsn s]>) ;; mret RDone
  | OpRetention name ttl c b =>
      s ← cat_get name (NotFound "membrane not found in root");
      mmodify (<[name := set_max_bytes b (set_max_count c (set_ttl ttl s))]>) ;; mret RDone
  | OpList => cat ← mget; mret (RNames (cat_names cat))
  | OpGet name => s ← cat_get name (NotFound "membrane not found in root"); mret (RSpec s)
  end.

(** The operations on a plain map from names to specifications. *)
Definition map_run (op : man_op) : M catalogue man_reply :=
  match op with
  | OpCreate s =>
      mguard (IsValidName (ms_name s)) (InvalidArgument "invalid membrane name") ;;
      mguard (negb (dim_required (ms_kind s) && (ms_dim s =? 0))) (InvalidArgument "dim must be > 0") ;;
      mguard (negb (ms_shard_count s =? 0)) (InvalidArgument "shard_count must be > 0") ;;
      cat ← mget;
      match cat !! ms_name s with
      | Some _ => mfail (AlreadyExists "membrane already exists")
      | None => mput (<[ms_name s := s]> cat) ;; mret RDone
      end
  | op => cat_run op
  end.

(** A sequence of operations and the replies to them. *)
Fixpoint run_all {S Op R} (step : Op -> M S R) (ops : list Op) (s : S) : list (Status + R) * S :=
  match ops with
  | [] => ([], s)
  | op :: ops =>
      let '(r, s) := step op s in
      let '(rs, s) := run_all step ops s in (r :: rs, s)
  end.

(** The arguments fit their C++ types. *)
Definition op_fits (op : man_op) : Prop :=
  match op with
  | OpCreate s =>
      is_u32 (ms_shard_count s) /\ is_u32 (ms_dim s) /\ ip_ok (ms_index_params s) /\
      is_u64 (ms_sync_lsn s) /\ is_u32 (ms_ttl_sec s) /\ is_u32 (ms_retention_max_count s) /\
      is_u64 (ms_retention_max_bytes s)
  | OpSync _ lsn => is_u64 lsn
  | OpRetention _ ttl c b => is_u32 ttl /\ is_u32 c /\ is_u64 b
  | _ => True
  end.

#[global] Instance op_fits_dec op : Decision (op_fits op).
Proof. destruct op; cbn; unfold ip_ok; apply _. Defined.

(** Files that represent a catalogue. *)
Record man_rep (root : path) (fm : gmap path bytes) (cat : catalogue) : Prop := {
  rep_root : fm !! RootManifestPath root = Some (checked (SerializeRoot (cat_names cat)));
  rep_spec n s : cat !! n = Some s ->
    ms_name s = n /\ spec_ok s /\ stored s MembraneSpec_default = s /\
    fm !! MembraneManifestPath root n = Some (checked (membrane_text s))
}.

(** ** Sorted names *)

Lemma sort_names_ext l k : l ≡ₚ k -> sort_names l = sort_names k.
Proof.
  intros H. eapply (StronglySorted_unique bytes_le); [apply sort_names_sorted..|].
  by rewrite !sort_names_perm.
Qed.

Lemma elem_of_cat_names cat n : n ∈ cat_names cat <-> is_Some (cat !! n).
Proof.
  unfold cat_names. rewrite sort_names_perm, list_elem_of_fmap. split.
  - intros ([k s] & -> & H). apply elem_of_map_to_list in H. eauto.
  - intros [s H]. exists (n, s). split; [done|]. by apply elem_of_map_to_list.
Qed.

Lemma cat_names_insert cat n s : cat !! n = None -> sort_names (cat_names cat ++ [n]) = cat_names (<[n := s]> cat).
Proof.
  intros H. apply sort_names_ext. unfold cat_names. rewrite sort_names_perm, map_to_list_insert by done. cbn.
  by rewrite Permutation_app_comm.
Qed.

Lemma cat_names_update cat n s : is_Some (cat !! n) -> cat_names (<[n := s]> cat) = cat_names cat.
Proof.
  intros [s' H]. apply sort_names_ext. rewrite <-(insert_id cat n s') at 2 by done.
  rewrite <-insert_delete_eq, <-(insert_delete_eq cat n s').
  by rewrite !map_to_list_insert by apply lookup_delete_eq.
Qed.

Lemma erase_name_perm n l : n ∈ l -> n :: erase_name n l ≡ₚ l.
Proof.
  induction l as [|x l IH]; [by intros ?%not_elem_of_nil|]. cbn. case_bool_decide as Hx; [by subst|].
  intros Hin. rewrite Permutation_swap, IH by set_solver. done.
Qed.

Lemma erase_name_sorted n l : StronglySorted bytes_le l -> StronglySorted bytes_le (erase_name n l).
Proof.
  induction 1 as [|x l Hs IH Hx]; [constructor|]. cbn. case_bool_decide; [done|]. constructor; [done|].
  clear -Hx. induction Hx as [|y l Hy Hx IH]; [done|]. cbn. by case_bool_decide; [|constructor].
Qed.

Lemma cat_names_delete cat n : is_Some (cat !! n) -> erase_name n (cat_names cat) = cat_names (delete n cat).
Proof.
  intros [s H]. eapply (StronglySorted_unique bytes_le);
    [apply erase_name_sorted, sort_names_sorted|apply sort_names_sorted|].
  apply (Permutation_cons_inv (a := n)). rewrite erase_name_perm by (apply elem_of_cat_names; eauto).
  unfold cat_names. rewrite !sort_names_perm, <-(map_to_list_delete cat n s) by done. done.
Qed.

(** ** One operation *)

Lemma membrane_text_stored s old : membrane_text (stored s old) = membrane_text s.
Proof. unfold membrane_text, stored, stored_index, stored_kind. cbn [ms_kind ms_name]. by destruct (ms_kind s). Qed.

Lemma stored_stored s old : stored (stored s old) old = stored s old.
Proof. unfold stored, stored_index, stored_kind. cbn. by destruct (ms_kind s). Qed.

Lemma WriteMembraneManifest_ok root s fm :
  WriteMembraneManifest root s (MkFs fm []) =
  (inr tt, MkFs (<[MembraneManifestPath root (ms_name s) := checked (membrane_text s)]>
                  (delete (tmp_of (MembraneManifestPath root (ms_name s))) fm)) []).
Proof. unfold WriteMembraneManifest. by destruct (AtomicWriteFile_ok (MembraneManifestPath root (ms_name s)) (membrane_text s) fm) as (? & -> & ->). Qed.

Lemma WriteRoot_ok root names fm :
  AtomicWriteFile (RootManifestPath root) (SerializeRoot names) (MkFs fm []) =
  (inr tt, MkFs (<[RootManifestPath root := checked (SerializeRoot names)]> (delete (tmp_of (RootManifestPath root)) fm)) []).
Proof. by destruct (AtomicWriteFile_ok (RootManifestPath root) (SerializeRoot names) fm) as (? & -> & ->). Qed.

Lemma cat_get_eq n e cat :
  cat_get n e cat =
  (if IsValidName n then match cat !! n with Some s => inr s | None => inl e end
   else inl (InvalidArgument "invalid membrane name"), cat).
Proof.
  unfold cat_get, mguard. destruct (IsValidName n); [|done].
  unfold mbind, M_bind, mret, M_ret, mget. by destruct (cat !! n).
Qed.

Section rep.
Context (root : path) (fm : gmap path bytes) (cat : catalogue) (Hrep : man_rep root fm cat).

Lemma rep_valid n s : cat !! n = Some s -> IsValidName n = true.
Proof using Hrep. intros H. apply (rep_spec _ _ _ Hrep) in H as (<- & Hok & _). apply Hok. Qed.

Lemma LoadRoot_rep : LoadRoot root (MkFs fm []) = (inr (cat_names cat), MkFs fm []).
Proof using Hrep.
  rewrite (LoadRoot_ok root (cat_names cat)).
  - do 2 f_equal. apply sort_names_id, sort_names_sorted.
  - apply Forall_forall. intros n Hn. apply elem_of_cat_names in Hn as [s Hs]. by eapply rep_valid.
  - apply Hrep.
Qed.

Lemma EnsureInitialized_rep : EnsureInitialized root (MkFs fm []) = (inr tt, MkFs fm []).
Proof using Hrep.
  unfold EnsureInitialized. do 2 (erewrite mbind_ok by reflexivity). erewrite mbind_ok by apply fs_exists_ok.
  by rewrite (rep_root _ _ _ Hrep), bool_decide_eq_true_2 by eauto.
Qed.

Lemma GetMembrane_rep n :
  GetMembrane root n MembraneSpec_default (MkFs fm []) =
  ((cat_get n (NotFound "membrane not found in root") cat).1, MkFs fm []).
Proof using Hrep.
  rewrite cat_get_eq. unfold GetMembrane, mguard. destruct (IsValidName n); [|done].
  erewrite mbind_ok by reflexivity. erewrite mbind_ok by apply LoadRoot_rep. destruct (cat !! n) as [s|] eqn:E.
  - apply (rep_spec _ _ _ Hrep) in E as E'. destruct E' as (<- & Hok & Hst & Hf).
    rewrite bool_decide_eq_true_2 by (apply elem_of_cat_names; eauto). erewrite mbind_ok by reflexivity.
    rewrite (LoadMembraneManifest_ok root s) by done. by rewrite Hst.
  - rewrite bool_decide_eq_false_2 by (rewrite elem_of_cat_names, E; by intros [??]). done.
Qed.

(** Writing the file of one membrane. *)
Lemma rep_write s fm' :
  spec_ok s ->
  fm' = <[MembraneManifestPath root (ms_name s) := checked (membrane_text s)]>
          (delete (tmp_of (MembraneManifestPath root (ms_name s))) fm) ->
  fm' !! RootManifestPath root = fm !! RootManifestPath root /\
  (forall n t, <[ms_name s := stored s MembraneSpec_default]> cat !! n = Some t ->
    ms_name t = n /\ spec_ok t /\ stored t MembraneSpec_default = t /\
    fm' !! MembraneManifestPath root n = Some (checked (membrane_text t))).
Proof using Hrep.
  intros Hok ->. pose proof Hok as [Hv _]. split.
  - rewrite lookup_insert_ne by by apply MembraneManifestPath_root.
    by rewrite lookup_delete_ne by by apply not_eq_sym, RootManifestPath_tmp.
  - intros n t. destruct (decide (n = ms_name s)) as [->|Hn].
    + rewrite lookup_insert_eq. intros [= <-]. split_and!; [done|exact Hok|apply stored_stored|].
      by rewrite lookup_insert_eq, membrane_text_stored.
    + rewrite lookup_insert_ne by done. intros Ht. pose proof (rep_valid _ _ Ht) as Hvn.
      apply (rep_spec _ _ _ Hrep) in Ht as (H1 & H2 & H3 & H4). split_and!; [done..|].
      rewrite lookup_insert_ne by (intros E; by apply Hn, (MembraneManifestPath_inj root n (ms_name s))).
      by rewrite lookup_delete_ne by by apply not_eq_sym, MembraneManifestPath_tmp.
Qed.

(** Updating a membrane that is listed. *)
Lemma rep_update s fm' :
  spec_ok s -> is_Some (cat !! ms_name s) ->
  fm' = <[MembraneManifestPath root (ms_name s) := checked (membrane_text s)]>
          (delete (tmp_of (MembraneManifestPath root (ms_name s))) fm) ->
  man_rep root fm' (<[ms_name s := stored s MembraneSpec_default]> cat).
Proof using Hrep.
  intros Hok Hin Hfm. destruct (rep_write s fm' Hok Hfm) as [H1 H2]. constructor; [|exact H2].
  rewrite H1, cat_names_update by done. apply Hrep.
Qed.
End rep.

(** Replacing the root file keeps the membranes that stay listed. *)
Lemma rep_root_write root fm cat :
  (forall n t, cat !! n = Some t ->
    ms_name t = n /\ spec_ok t /\ stored t MembraneSpec_default = t /\
    fm !! MembraneManifestPath root n = Some (checked (membrane_text t))) ->
  man_rep root (<[RootManifestPath root := checked (SerializeRoot (cat_names cat))]>
                 (delete (tmp_of (RootManifestPath root)) fm)) cat.
Proof.
  intros H. constructor; [apply lookup_insert_eq|]. intros n t Ht. apply H in Ht as (H1 & H2 & H3 & H4).
  split_and!; [done..|]. assert (IsValidName n = true) as Hv by (rewrite <-H1; apply H2).
  rewrite lookup_insert_ne by by apply not_eq_sym, MembraneManifestPath_root.
  by rewrite lookup_delete_ne by by apply not_eq_sym, MembraneManifestPath_root_tmp.
Qed.

(** The simulation square of one operation. *)
Definition simulates (root : path) (op : man_op) : Prop :=
  forall fm cat, man_rep root fm cat -> op_fits op ->
  exists fm', man_run root op (MkFs fm []) = ((cat_run op cat).1, MkFs fm' []) /\
    man_rep root fm' (cat_run op cat).2.

Lemma sim_create root s : simulates root (OpCreate s).
Proof.
  intros fm cat Hrep Hfits. cbn [man_run cat_run]. unfold CreateMembrane, mguard.
  destruct (IsValidName (ms_name s)) eqn:Hv; [|by exists fm].
  destruct (negb (dim_required _ && _)); [|by exists fm].
  destruct (negb (ms_shard_count s =? 0)); [|by exists fm].
  unfold mbind at 1, M_bind at 1.
  do 3 (erewrite mbind_ok by reflexivity). erewrite mbind_ok by exact (EnsureInitialized_rep root fm cat Hrep).
  erewrite mbind_ok by exact (LoadRoot_rep root fm cat Hrep). unfold mbind, M_bind, mget, mret, M_ret, mput.
  destruct (cat !! ms_name s) as [t|] eqn:E.
  - rewrite bool_decide_eq_true_2 by (apply elem_of_cat_names; eauto). by exists fm.
  - rewrite bool_decide_eq_false_2 by (rewrite elem_of_cat_names, E; by intros [??]). cbn [negb].
    assert (spec_ok s) as Hok by done.
    change (fs_create_directories "create_directories membrane failed" (MkFs fm [])) with (inr tt : Status + unit, MkFs fm []).
    cbv iota beta. rewrite WriteMembraneManifest_ok. cbv iota beta. rewrite WriteRoot_ok.
    eexists. split; [done|]. cbn [snd].
    rewrite (cat_names_insert cat _ (stored s MembraneSpec_default)) by done. apply rep_root_write.
    eapply rep_write; done.
Qed.

Lemma sim_drop root n : simulates root (OpDrop n).
Proof.
  intros fm cat Hrep _. cbn [man_run cat_run]. unfold DropMembrane, mguard, mbind, M_bind. rewrite cat_get_eq.
  destruct (IsValidName n) eqn:Hv; [|by exists fm]. unfold mret, M_ret.
  rewrite (EnsureInitialized_rep root fm cat Hrep), (LoadRoot_rep root fm cat Hrep).
  destruct (cat !! n) as [t|] eqn:E.
  - rewrite bool_decide_eq_true_2 by (apply elem_of_cat_names; eauto).
    rewrite cat_names_delete, WriteRoot_ok by eauto.
    set (fm1 := <[RootManifestPath root := _]> _).
    assert (man_rep root fm1 (delete n cat)) as Hrep1.
    { apply rep_root_write. intros m u Hu. apply lookup_delete_Some in Hu as [_ Hu]. by apply (rep_spec _ _ _ Hrep). }
    assert (fs_remove_all (MembraneDir root n) (MkFs fm1 []) =
      (inr tt, MkFs (fs_files (fs_remove_all (MembraneDir root n) (MkFs fm1 [])).2) [])) as Er by done.
    rewrite Er. eexists. split; [done|]. cbn [snd mmodify].
    pose proof (fun p => fs_remove_all_lookup (MembraneDir root n) (MkFs fm1 []) p eq_refl) as Hl.
    constructor; [rewrite Hl, below_root; apply Hrep1|]. intros m u Hu.
    pose proof (rep_valid _ _ _ Hrep1 _ _ Hu) as Hm. pose proof Hu as [Hne _]%lookup_delete_Some.
    rewrite Hl, below_membrane by done. by apply (rep_spec _ _ _ Hrep1).
  - rewrite bool_decide_eq_false_2 by (rewrite elem_of_cat_names, E; by intros [??]). by exists fm.
Qed.

Lemma stored_fix s : stored s MembraneSpec_default = s ->
  forall n t c b, stored (set_sync n s) MembraneSpec_default = set_sync n s /\
  stored (set_max_bytes b (set_max_count c (set_ttl t s))) MembraneSpec_default =
  set_max_bytes b (set_max_count c (set_ttl t s)).
Proof.
  intros Hs n t c b. destruct s. unfold stored in *. cbn in *. injection Hs as Hi Hk. by rewrite Hi, Hk.
Qed.

Lemma sim_sync root n lsn : simulates root (OpSync n lsn).
Proof.
  intros fm cat Hrep Hlsn. cbn [man_run cat_run]. unfold UpdateSyncLSN.
  unfold mbind, M_bind. rewrite (GetMembrane_rep root fm cat Hrep), cat_get_eq. cbn [fst].
  destruct (IsValidName n) eqn:Hv; [|by exists fm]. destruct (cat !! n) as [s|] eqn:E; [|by exists fm].
  apply (rep_spec _ _ _ Hrep) in E as E'. destruct E' as (<- & Hok & Hst & Hf).
  destruct (Z.eqb_spec (ms_sync_lsn s) lsn) as [<-|Hne].
  - exists fm. split; [done|]. cbn. by destruct s; rewrite insert_id.
  - rewrite WriteMembraneManifest_ok. eexists. split; [done|]. cbn.
    destruct (stored_fix s Hst lsn 0 0 0) as [<- _].
    apply (rep_update root fm cat Hrep (set_sync lsn s)); [|cbn; eauto|done].
    destruct Hok as (?&?&?&?&?&?&?&?). by split_and!.
Qed.

Lemma sim_retention root n ttl c b : simulates root (OpRetention n ttl c b).
Proof.
  intros fm cat Hrep (Ht & Hc & Hb). cbn [man_run cat_run]. unfold UpdateRetentionPolicy.
  unfold mbind, M_bind. rewrite (GetMembrane_rep root fm cat Hrep), cat_get_eq. cbn [fst].
  destruct (IsValidName n) eqn:Hv; [|by exists fm]. destruct (cat !! n) as [s|] eqn:E; [|by exists fm].
  apply (rep_spec _ _ _ Hrep) in E as E'. destruct E' as (<- & Hok & Hst & Hf).
  rewrite WriteMembraneManifest_ok. eexists. split; [done|]. cbn.
  destruct (stored_fix s Hst 0 ttl c b) as [_ <-].
  apply (rep_update root fm cat Hrep (set_max_bytes b (set_max_count c (set_ttl ttl s)))); [|cbn; eauto|done].
  destruct Hok as (?&?&?&?&?&?&?&?). by split_and!.
Qed.

Lemma sim_all root op : simulates root op.
Proof.
  destruct op; [apply sim_create|apply sim_drop|apply sim_sync|apply sim_retention|..].
  - intros fm cat Hrep _. exists fm. split; [|done]. cbn [man_run cat_run]. unfold ListMembranes.
    unfold mbind, M_bind. by rewrite (EnsureInitialized_rep root fm cat), (LoadRoot_rep root fm cat).
  - intros fm cat Hrep _. exists fm. cbn [man_run cat_run].
    unfold mbind, M_bind. rewrite (GetMembrane_rep root fm cat Hrep), cat_get_eq. cbn [fst].
    by destruct (IsValidName name); [|]; [destruct (cat !! name)|].
Qed.

Lemma run_all_sim root ops fm cat :
  man_rep root fm cat -> Forall op_fits ops ->
  exists fm', run_all (man_run root) ops (MkFs fm []) = ((run_all cat_run ops cat).1, MkFs fm' []) /\
    man_rep root fm' (run_all cat_run ops cat).2.
Proof.
  intros Hrep Hf. revert fm cat Hrep. induction Hf as [|op ops Hop _ IH]; intros fm cat Hrep; [by exists fm|].
  cbn [run_all]. destruct (sim_all root op fm cat Hrep Hop) as (fm1 & E & Hrep1).
  destruct (cat_run op cat) as [r cat1]. cbn in *. rewrite E.
  destruct (IH fm1 cat1 Hrep1) as (fm2 & E2 & Hrep2). destruct (run_all cat_run ops cat1) as [rs cat2]. cbn in *.
  rewrite E2. by exists fm2.
Qed.

Lemma EnsureInitialized_new root fm :
  fm !! RootManifestPath root = None ->
  exists fm', EnsureInitialized root (MkFs fm []) = (inr tt, MkFs fm' []) /\ man_rep root fm' ∅.
Proof.
  intros H. unfold EnsureInitialized. do 2 (erewrite mbind_ok by reflexivity). erewrite mbind_ok by apply fs_exists_ok.
  rewrite H, bool_decide_eq_false_2 by by intros [??].
  change ((bstr "pomai.manifest.v3" ++ [nl]) ++ (bstr "version 1" ++ [nl])) with (SerializeRoot (cat_names ∅)).
  rewrite WriteRoot_ok. eexists. split; [done|]. by apply rep_root_write.
Qed.

(** What the format keeps of a specification, and of a reply that holds one. *)
Definition kept (s : MembraneSpec) : MembraneSpec := stored s MembraneSpec_default.
Definition kept_reply (r : Status + man_reply) : Status + man_reply :=
  match r with inr (RSpec s) => inr (RSpec (kept s)) | r => r end.

(** The specifications that the format keeps whole: the kind is not AUDIO,
    BLOOM or DOCUMENT, and the adaptive threshold, the quantisation type, the
    number of sub-quantisers and the pool flag are the defaults. *)
Definition op_expressible (op : man_op) : Prop := match op with OpCreate s => kept s = s | _ => True end.

#[global] Instance IndexParams_eq_dec : EqDecision IndexParams.
Proof. solve_decision. Defined.
#[global] Instance MembraneSpec_eq_dec : EqDecision MembraneSpec.
Proof. solve_decision. Defined.
#[global] Instance op_expressible_dec op : Decision (op_expressible op).
Proof. destruct op; cbn; apply _. Defined.

Lemma cat_names_kept (m : catalogue) : cat_names (kept <$> m) = cat_names m.
Proof.
  unfold cat_names. rewrite map_to_list_fmap. f_equal. rewrite <-list_fmap_compose.
  apply list_fmap_ext. by intros ? [].
Qed.

Lemma cat_run_kept (op : man_op) (m : catalogue) :
  cat_run op (kept <$> m) = (kept_reply (map_run op m).1, kept <$> (map_run op m).2).
Proof.
  destruct op as [s|name|name lsn|name ttl c b| |name]; cbn [map_run cat_run]; unfold cat_get, mguard;
    unfold mbind, M_bind, mret, M_ret, mget, mput, mfail, mmodify;
    cbn; repeat (match goal with |- context [if ?b then _ else _] =>
      match type of b with bool => destruct b end end; cbn; try done);
    rewrite ?lookup_fmap; try (destruct (m !! _); cbn); by rewrite ?fmap_insert, ?fmap_delete, ?cat_names_kept.
Qed.

Lemma run_all_kept (ops : list man_op) (m : catalogue) :
  run_all cat_run ops (kept <$> m) = (kept_reply <$> (run_all map_run ops m).1, kept <$> (run_all map_run ops m).2).
Proof.
  revert m. induction ops as [|op ops IH]; intros m; [done|]. cbn [run_all]. rewrite cat_run_kept.
  destruct (map_run op m) as [r m1]. cbn [fst snd]. rewrite IH. by destruct (run_all map_run ops m1).
Qed.

Lemma run_all_map ops cat : Forall op_expressible ops -> run_all cat_run ops cat = run_all map_run ops cat.
Proof.
  intros H. revert cat. induction H as [|op ops Hop _ IH]; intros cat; [done|]. cbn [run_all].
  assert (cat_run op cat = map_run op cat) as ->
    by (destruct op; [|done..]; cbn in Hop |- *; unfold kept in Hop; by rewrite Hop).
  destruct (map_run op cat) as [r cat1]. by rewrite IH.
Qed.

(** C27. Refinement: in a directory without a root file and without I/O errors,
    every sequence of create, drop, list, get, sync-position and retention
    calls, with arguments within the widths of their types, replies as a
    finite map from names to the created specifications does, error returns
    included, except that a specification read back is what the format keeps
    of it ([kept]: the kinds AUDIO, BLOOM and DOCUMENT come back as VECTOR,
    and the adaptive threshold, the quantisation type, the number of
    sub-quantisers and the pool flag come back as the defaults); the files
    left behind represent the kept map.  Where every created specification is
    one the format keeps whole, the replies and the represented map are
    exactly the map's. *)
Theorem manifest_refines_catalogue root ops fm :
  fm !! RootManifestPath root = None -> Forall op_fits ops ->
  exists fm0 fm',
    EnsureInitialized root (MkFs fm []) = (inr tt, MkFs fm0 []) /\
    run_all (man_run root) ops (MkFs fm0 []) = (kept_reply <$> (run_all map_run ops ∅).1, MkFs fm' []) /\
    man_rep root fm' (kept <$> (run_all map_run ops ∅).2) /\
    (Forall op_expressible ops ->
     run_all (man_run root) ops (MkFs fm0 []) = ((run_all map_run ops ∅).1, MkFs fm' []) /\
     man_rep root fm' (run_all map_run ops ∅).2).
Proof.
  intros H Hf. destruct (EnsureInitialized_new root fm H) as (fm0 & E0 & Hrep).
  destruct (run_all_sim root ops fm0 ∅ Hrep Hf) as (fm' & E & Hrep').
  pose proof (run_all_kept ops ∅) as Hk. rewrite fmap_empty in Hk.
  exists fm0, fm'. split; [done|]. split; [|split].
  - rewrite E. by rewrite Hk.
  - by rewrite Hk in Hrep'.
  - intros He. by rewrite <-run_all_map.
Qed.

Definition test_spec (n : string) (k : MembraneKind) : MembraneSpec :=
  MkSpec (bstr n) 1 8 kL2 IndexParams_ForEdge k 0 0 0 0.

Lemma manifest_refines_catalogue_witness :
  exists fm0 fm',
    run_all (man_run "db")
      [OpCreate (test_spec "b" kVector); OpCreate (test_spec "a" kGraph); OpCreate (test_spec "b" kText);
       OpCreate (test_spec "a/b" kText); OpSync (bstr "a") 7; OpDrop (bstr "b"); OpList; OpGet (bstr "b")] (MkFs fm0 []) =
    ([inr RDone; inr RDone; inl (AlreadyExists "membrane already exists");
      inl (InvalidArgument "invalid membrane name"); inr RDone; inr RDone; inr (RNames [bstr "a"]);
      inl (NotFound "membrane not found in root")], MkFs fm' []).
Proof.
  edestruct (manifest_refines_catalogue "db") as (fm0 & fm' & _ & E & _); cycle 2.
  - exists fm0, fm'. rewrite E. reflexivity.
  - apply lookup_empty.
  - apply (bool_decide_unpack _). vm_compute. exact I.
Defined.

(** One failing [stat] empties the catalogue: [EnsureInitialized] reads an
    error of [fs::exists] as absence, replaces the root file by an empty one and
    returns success; the names that were listed are gone. *)
Theorem EnsureInitialized_stat_error_loses_names root fm cat flt :
  man_rep root fm cat ->
  LoadRoot root (MkFs fm []) = (inr (cat_names cat), MkFs fm []) /\
  exists fm',
    EnsureInitialized root (MkFs fm [None; None; Some flt]) = (inr tt, MkFs fm' []) /\
    LoadRoot root (MkFs fm' []) = (inr [], MkFs fm' []).
Proof.
  intros Hrep. split; [by apply LoadRoot_rep|]. unfold EnsureInitialized. do 3 (erewrite mbind_ok by reflexivity).
  change ((bstr "pomai.manifest.v3" ++ [nl]) ++ (bstr "version 1" ++ [nl])) with (SerializeRoot (cat_names ∅)).
  cbv iota. cbn [fs_faults fs_files]. rewrite WriteRoot_ok. eexists. split; [done|].
  rewrite (LoadRoot_rep root _ ∅); [done|]. by apply rep_root_write.
Qed.

Lemma EnsureInitialized_stat_error_loses_names_witness :
  exists fm fm', LoadRoot "db" (MkFs fm []) = (inr [bstr "a"], MkFs fm []) /\
    EnsureInitialized "db" (MkFs fm [None; None; Some (MkFault "EIO" 0)]) = (inr tt, MkFs fm' []) /\
    LoadRoot "db" (MkFs fm' []) = (inr [], MkFs fm' []).
Proof.
  destruct (EnsureInitialized_new "db" ∅ (lookup_empty _)) as (fm0 & _ & H0).
  destruct (run_all_sim "db" [OpCreate (test_spec "a" kVector)] fm0 ∅ H0) as (fm & _ & Hrep).
  { apply (bool_decide_unpack _). vm_compute. exact I. }
  destruct (EnsureInitialized_stat_error_loses_names "db" fm _ (MkFault "EIO" 0) Hrep) as (E & fm' & E1 & E2).
  exists fm, fm'. exact (conj E (conj E1 E2)).
Defined.
