(* ===== verification/IoProvider.v ===== *)
(** * Files of the segment layer (src/core/storage/io_provider.h)

    The unbuffered files behind segments and the segment manifest, over the
    file map of [Env].  [Append] and [Pwrite] issue one [write] and do not look
    at the count it returns: a fault that has written some bytes is a short
    count, which the code takes as success. *)
From S2P Require Import Prelude Env.

Open Scope Z_scope.

(** src/core/storage/io_provider.h:135-166 [PosixWritableFile]. *)
Record IoFile : Type := MkIoFile { io_path : path; io_pos : Z; io_bytes_written : Z }.

(** The bytes a [write] transfers: all of them, or a prefix; [None] when the
    call fails. *)
Definition write_outcome (d : option fault) (data : bytes) : option bytes :=
  match d with
  | None => Some data
  | Some flt => if Nat.eqb (flt_written flt) 0 then None else Some (take (flt_written flt) data)
  end.

(** src/core/storage/io_provider.h:219-224 [PosixIOProvider::NewWritableFile]. *)
Definition io_NewWritableFile (p : path) : M fs IoFile :=
  d ← next_fault;
  match d with
  | Some _ => mfail (IOError ("open failed: " +:+ p))
  | None => set_file p [] ;; mret (MkIoFile p 0 0)
  end.

(** src/core/storage/io_provider.h:140-145 [PosixWritableFile::Append]. *)
Definition io_Append (h : IoFile) (data : bytes) : M fs IoFile :=
  d ← next_fault;
  f ← mget;
  match write_outcome d data with
  | None => mfail (IOError "Append failed")
  | Some w =>
      set_file (io_path h) (pwrite (default [] (fs_files f !! io_path h)) (io_pos h) w) ;;
      mret (MkIoFile (io_path h) (io_pos h + zlen w) (u64 (io_bytes_written h + zlen w)))
  end.

(** src/core/storage/io_provider.h:147-152 [PosixWritableFile::Pwrite]. *)
Definition io_Pwrite (h : IoFile) (off : Z) (data : bytes) : M fs IoFile :=
  d ← next_fault;
  f ← mget;
  match write_outcome d data with
  | None => mfail (IOError "Pwrite failed")
  | Some w =>
      set_file (io_path h) (pwrite (default [] (fs_files f !! io_path h)) off w) ;;
      mret (MkIoFile (io_path h) (io_pos h) (u64 (io_bytes_written h + zlen w)))
  end.

(** A call whose failure is an [IOError] with a fixed text. *)
Definition io_call (msg : string) : M fs unit :=
  d ← next_fault;
  match d with None => mret tt | Some _ => mfail (IOError msg) end.

(** src/core/storage/io_provider.h:156-156 [PosixWritableFile::Sync]. *)
Definition io_Sync (h : IoFile) : M fs unit := io_call "Sync failed".

(** src/core/storage/io_provider.h:157-161 [PosixWritableFile::Close]. *)
Definition io_Close (h : IoFile) : M fs unit := io_call "Close failed".

(** src/core/storage/io_provider.h:172-201 [SectorAlignedWritableFile]. [offset_]
    counts the bytes handed over, not the bytes written. *)
Record SectorFile : Type := MkSector { sf_file : IoFile; sf_offset : Z }.

Definition SECTOR_SIZE : Z := 4096.

(** src/core/storage/io_provider.h:178-182 [SectorAlignedWritableFile::Append]. *)
Definition sf_Append (h : SectorFile) (data : bytes) : M fs SectorFile :=
  io ← io_Append (sf_file h) data;
  mret (MkSector io (u64 (sf_offset h + zlen data))).

(** src/core/storage/io_provider.h:189-197 [SectorAlignedWritableFile::Sync]. *)
Definition sf_Sync (h : SectorFile) : M fs SectorFile :=
  let padding := SECTOR_SIZE - sf_offset h mod SECTOR_SIZE in
  h ← (if padding =? SECTOR_SIZE then mret h
       else sf_Append h (replicate (Z.to_nat padding) Byte.x00));
  io_Sync (sf_file h) ;;
  mret h.

(** src/core/storage/io_provider.h:90-113 [PosixSequentialFile]. *)
Record SeqFile : Type := MkSeqFile { sq_path : path; sq_pos : Z }.

(** An [open] for reading, whose failure names the path. *)
Definition io_open (p : path) : M fs bytes :=
  d ← next_fault;
  f ← mget;
  match d, fs_files f !! p with
  | None, Some c => mret c
  | _, _ => mfail (IOError ("open failed: " +:+ p))
  end.

(** src/core/storage/io_provider.h:205-210 [PosixIOProvider::NewSequentialFile]. *)
Definition io_NewSequentialFile (p : path) : M fs SeqFile :=
  _ ← io_open p; mret (MkSeqFile p 0).

(** src/core/storage/io_provider.h:97-102 [PosixSequentialFile::Read]. *)
Definition sq_Read (h : SeqFile) (n : Z) : M fs (bytes * SeqFile) :=
  d ← next_fault;
  f ← mget;
  match d, fs_files f !! sq_path h with
  | None, Some c =>
      let r := take (Z.to_nat n) (drop (Z.to_nat (sq_pos h)) c) in
      mret (r, MkSeqFile (sq_path h) (sq_pos h + zlen r))
  | _, _ => mfail (IOError "Sequential Read failed")
  end.

(** src/core/storage/io_provider.h:104-109 [PosixSequentialFile::Skip]. *)
Definition sq_Skip (h : SeqFile) (n : Z) : M fs SeqFile :=
  d ← next_fault;
  match d with
  | None => mret (MkSeqFile (sq_path h) (sq_pos h + n))
  | Some _ => mfail (IOError "Skip failed")
  end.

(** src/core/storage/io_provider.h:226-240 [PosixIOProvider::NewMemoryMappedFile].
    An empty file cannot be mapped. *)
Definition io_NewMemoryMappedFile (p : path) : M fs bytes :=
  c ← io_open p;
  io_call ("fstat failed: " +:+ p) ;;
  d ← next_fault;
  match d with
  | None => if zlen c =? 0 then mfail (IOError ("mmap failed: " +:+ p)) else mret c
  | Some _ => mfail (IOError ("mmap failed: " +:+ p))
  end.

(** ** Successful runs under any faults *)

Lemma io_call_files msg : preserves fs_files (io_call msg).
Proof. apply preserves_bind; [apply preserves_next_fault|]. intros []; eauto with preserve. Qed.
#[export] Hint Resolve io_call_files : preserve.
