(* ===== verification/SegmentManifest.v ===== *)
(** * The segment manifest of a shard (src/core/shard/manifest.cc)

    The list of live segments, in [manifest.current], with the previous list in
    [manifest.prev].  [Commit] writes a temporary, moves the current file to
    the previous one and the temporary to the current one; [Load] reads the
    current file and falls back to the previous one when it is damaged; a
    missing current file is an empty list.  The theorems give the
    round trip, what every pattern of failing calls can leave behind, and the
    window between the two renames in which the list is lost. *)
From S2P Require Import Prelude Crc32c Env Text PosixFile IoProvider.

Open Scope Z_scope.

Definition kManifestHeader : bytes := bstr "pomai.manifest.v2".
Definition kManifestHeaderAlt : bytes := bstr "pomai.shard_manifest.v2".
Definition kCrcSize : nat := 4.
Definition kStreamReadChunkSize : nat := Nat.pow 2 20.

Definition starts_with (h b : bytes) : bool := bool_decide (h `prefix_of` b).

(** src/core/shard/manifest.cc:29-37 [ReadFileStreaming]. The read loop: a
    zero count ends it, an error gives [None]. *)
Fixpoint read_chunks (fuel : nat) (p : path) (out : bytes) : M fs (option bytes) :=
  match fuel with
  | O => mfail OutOfFuel
  | S fuel =>
      d ← next_fault;
      f ← mget;
      match d, fs_files f !! p with
      | None, Some c =>
          let chunk := take kStreamReadChunkSize (drop (length out) c) in
          if bool_decide (chunk = []) then mret (Some out) else read_chunks fuel p (out ++ chunk)
      | _, _ => mret None
      end
  end.

(** src/core/shard/manifest.cc:23-40 [ReadFileStreaming]. [None] is [false];
    the loop makes at most one call per byte and a last one. *)
Definition ReadFileStreaming (p : path) : M fs (option bytes) :=
  d ← next_fault;
  f ← mget;
  match d, fs_files f !! p with
  | None, Some c => read_chunks (S (length c)) p []
  | _, _ => mret None
  end.

(** src/core/shard/manifest.cc:43-54 [ParseSegmentLines]. [line] is the part of
    the current line already seen; an unterminated line is dropped. *)
Fixpoint ParseSegmentLines (line payload : bytes) : list bytes :=
  match payload with
  | [] => []
  | c :: payload =>
      if bool_decide (c = nl) then
        if bool_decide (line = []) then ParseSegmentLines [] payload
        else line :: ParseSegmentLines [] payload
      else ParseSegmentLines (line ++ [c]) payload
  end.

(** src/core/shard/manifest.cc:62-89 [TryLoadOne]. The decoding of a file. *)
Definition decode_manifest (raw : bytes) : Status + list bytes :=
  if bool_decide (raw = []) then inr [] else
  if (length raw <? kCrcSize)%nat
     || (negb (starts_with kManifestHeader raw) && negb (starts_with kManifestHeaderAlt raw))
  then inr (ParseSegmentLines [] raw) else
  let content_len := (length raw - kCrcSize)%nat in
  let content := take content_len raw in
  let stored_crc := le_read 4 content_len raw in
  if negb (Crc32c content 0 =? stored_crc) then inl (Corruption "segment manifest CRC mismatch") else
  if bool_decide (nl ∈ content) then inr (ParseSegmentLines [] (cut_line content).2)
  else inl (Corruption "segment manifest truncated").

(** src/core/shard/manifest.cc:57-90 [TryLoadOne]. *)
Definition TryLoadOne (p : path) : M fs (list bytes) :=
  raw ← ReadFileStreaming p;
  match raw with
  | None => mfail (IOError "segment manifest read failed")
  | Some raw => of_sum (decode_manifest raw)
  end.

(** [fs::exists(p)] without an error code: an exception when [stat] fails. *)
Definition fs_exists_throwing (p : path) : M fs bool :=
  d ← next_fault;
  f ← mget;
  match d with
  | None => mret (bool_decide (is_Some (fs_files f !! p)))
  | Some _ => mfail (Undefined "filesystem_error")
  end.

Definition curr_path (dir : path) : path := path_join dir "manifest.current".
Definition prev_path (dir : path) : path := path_join dir "manifest.prev".
Definition tmp_path (dir : path) : path := path_join dir "manifest.tmp".

(** src/core/shard/manifest.cc:93-112 [SegmentManifest::Load]. *)
Definition sm_Load (dir : path) : M fs (list bytes) :=
  ex ← fs_exists_throwing (curr_path dir);
  if negb ex then mret [] else
  st ← try_ (TryLoadOne (curr_path dir));
  match st with
  | inr segs => mret segs
  | inl e =>
      exp ← fs_exists_throwing (prev_path dir);
      if (exp : bool) then TryLoadOne (prev_path dir) else mfail e
  end.

(** src/core/shard/manifest.cc:119-130 [SegmentManifest::Commit]. The bytes. *)
Definition manifest_bytes (segments : list bytes) : bytes :=
  let buffer := kManifestHeader ++ [nl] ++ concat (map (fun s => s ++ [nl]) segments) in
  buffer ++ le_split 4 (Crc32c buffer 0).

(** src/core/shard/manifest.cc:114-158 [SegmentManifest::Commit]. The outcome of
    the directory sync is not looked at. *)
Definition sm_Commit (dir : path) (segments : list bytes) : M fs unit :=
  file ← io_NewWritableFile (tmp_path dir);
  file ← io_Append file (manifest_bytes segments);
  io_Sync file ;;
  io_Close file ;;
  ex ← fs_exists_throwing (curr_path dir);
  (if (ex : bool) then fs_rename (curr_path dir) (prev_path dir) "Manifest prev rename failed" else mret tt) ;;
  fs_rename (tmp_path dir) (curr_path dir) "Manifest rename failed" ;;
  ignore (FsyncDir dir).

(** ** Decoding *)

Definition seg_name (s : bytes) : Prop := s <> [] /\ no_nl s.
#[global] Instance seg_name_dec s : Decision (seg_name s).
Proof. unfold seg_name, no_nl. apply _. Defined.

Lemma ParseSegmentLines_line line s rest :
  no_nl s -> line ++ s <> [] -> ParseSegmentLines line (s ++ nl :: rest) = (line ++ s) :: ParseSegmentLines [] rest.
Proof.
  unfold no_nl. revert line. induction s as [|c s IH]; intros line Hs Hne; cbn [ParseSegmentLines app].
  - rewrite app_nil_r in *. by rewrite (bool_decide_eq_false_2 (line = [])).
  - rewrite not_elem_of_cons in Hs. rewrite bool_decide_eq_false_2 by naive_solver.
    rewrite IH by (first [naive_solver | by rewrite <-app_assoc]). by rewrite <-app_assoc.
Qed.

Lemma ParseSegmentLines_unlines segs : Forall seg_name segs -> ParseSegmentLines [] (unlines segs) = segs.
Proof.
  induction 1 as [|s segs [Hne Hs] _ IH]; [done|]. unfold unlines. cbn [map concat].
  rewrite <-app_assoc. cbn [app]. rewrite ParseSegmentLines_line by done. cbn [app]. f_equal. exact IH.
Qed.

Lemma decode_manifest_bytes segs : Forall seg_name segs -> decode_manifest (manifest_bytes segs) = inr segs.
Proof.
  intros Hs. unfold decode_manifest, manifest_bytes. fold (unlines segs).
  set (buf := kManifestHeader ++ [nl] ++ unlines segs).
  assert (length (buf ++ le_split 4 (Crc32c buf 0)) - kCrcSize = length buf)%nat as -> by (unfold kCrcSize; len).
  rewrite (bool_decide_eq_false_2 (_ ++ _ = [])) by done.
  assert (starts_with kManifestHeader (buf ++ le_split 4 (Crc32c buf 0)) = true) as ->.
  { apply bool_decide_eq_true_2. unfold buf. rewrite <-app_assoc. by eexists. }
  rewrite (proj2 (Nat.ltb_ge _ _)) by (unfold kCrcSize; len). cbn [negb orb andb].
  rewrite take_app_length, le_read_app_r by done. rewrite <-(app_nil_r (le_split _ _)), le_read_app_l, Z.eqb_refl.
  2:{ exact (Crc32c_range buf 0). }
  cbn [negb]. rewrite bool_decide_eq_true_2 by (unfold buf; set_solver).
  unfold buf. cbn [app]. rewrite cut_line_app; [cbn [snd]; by rewrite ParseSegmentLines_unlines|].
  unfold no_nl. apply (bool_decide_unpack _). by vm_compute.
Qed.

(** ** Reading files *)

Lemma kStreamReadChunkSize_pos : (0 < kStreamReadChunkSize)%nat.
Proof. apply Nat.neq_0_lt_0, Nat.pow_nonzero. lia. Qed.
#[local] Opaque kStreamReadChunkSize.

Lemma read_chunks_ok fuel p out rest fm :
  fm !! p = Some (out ++ rest) -> (length rest < fuel)%nat ->
  read_chunks fuel p out (MkFs fm []) = (inr (Some (out ++ rest)), MkFs fm []).
Proof.
  revert out rest. induction fuel as [|fuel IH]; intros out rest Hp Hf; [lia|].
  cbn [read_chunks]. do 2 (erewrite mbind_ok by reflexivity). cbn [fs_files]. rewrite Hp, drop_app_length.
  pose proof kStreamReadChunkSize_pos as HK.
  case_bool_decide as Hc.
  - apply (f_equal length) in Hc. rewrite length_take in Hc. cbn [length] in Hc.
    destruct rest; [by rewrite app_nil_r|cbn in Hc; lia].
  - pose proof (take_drop kStreamReadChunkSize rest) as Hr.
    rewrite <-Hr in Hp. rewrite app_assoc in Hp. rewrite (IH _ (drop kStreamReadChunkSize rest) Hp).
    + by rewrite <-app_assoc, Hr.
    + rewrite length_drop. destruct rest; [by rewrite take_nil in Hc|cbn in *; lia].
Qed.

Lemma TryLoadOne_ok p raw fm :
  fm !! p = Some raw -> TryLoadOne p (MkFs fm []) = (decode_manifest raw, MkFs fm []).
Proof.
  intros Hp. unfold TryLoadOne. rewrite (mbind_ok _ _ _ (Some raw) (MkFs fm [])); [done|].
  unfold ReadFileStreaming. do 2 (erewrite mbind_ok by reflexivity). cbn [fs_files]. rewrite Hp.
  apply (read_chunks_ok _ p []); [done|cbn; lia].
Qed.

(** What [Load] returns, as a function of the two files. *)
Definition load_result (curr prev : option bytes) : Status + list bytes :=
  match curr with
  | None => inr []
  | Some c =>
      match decode_manifest c, prev with
      | inr segs, _ => inr segs
      | inl _, Some p => decode_manifest p
      | inl e, None => inl e
      end
  end.

Lemma sm_Load_eq dir fm :
  sm_Load dir (MkFs fm []) = (load_result (fm !! curr_path dir) (fm !! prev_path dir), MkFs fm []).
Proof.
  unfold sm_Load, load_result.
  rewrite (mbind_ok _ _ _ (bool_decide (is_Some (fm !! curr_path dir))) (MkFs fm [])) by done.
  destruct (fm !! curr_path dir) as [c|] eqn:Ec.
  - rewrite bool_decide_eq_true_2 by eauto. cbn [negb].
    rewrite (mbind_ok _ _ _ (decode_manifest c) (MkFs fm [])).
    2:{ unfold try_. by rewrite (TryLoadOne_ok _ _ _ Ec). }
    destruct (decode_manifest c) as [e|segs]; [|done].
    rewrite (mbind_ok _ _ _ (bool_decide (is_Some (fm !! prev_path dir))) (MkFs fm [])) by done.
    destruct (fm !! prev_path dir) as [p|] eqn:Ep.
    + rewrite bool_decide_eq_true_2 by eauto. by apply TryLoadOne_ok.
    + by rewrite bool_decide_eq_false_2 by by intros [??].
  - by rewrite bool_decide_eq_false_2 by by intros [??].
Qed.

Lemma manifest_paths dir :
  curr_path dir <> prev_path dir /\ curr_path dir <> tmp_path dir /\ prev_path dir <> tmp_path dir.
Proof.
  split_and!; intros E%(f_equal bstr); unfold curr_path, prev_path, tmp_path in E;
    rewrite !bstr_path_join in E; by apply app_inv_head in E.
Qed.

(** ** What a commit leaves behind *)

(** No system call of the run is a short write. *)
Definition no_short (d : option fault) : Prop := forall flt, d = Some flt -> flt_written flt = 0%nat.

Lemma next_fault_inv f d f' :
  next_fault f = (inr d, f') ->
  fs_files f' = fs_files f /\ (Forall no_short (fs_faults f) -> no_short d /\ Forall no_short (fs_faults f')).
Proof.
  unfold next_fault. destruct (fs_faults f) as [|d' rest] eqn:E; intros H; injection H as <- <-.
  - split; [done|]. rewrite E. done.
  - split; [done|]. cbn. by intros [? ?]%Forall_cons.
Qed.

(** The part of [Commit] before the renames. *)
Definition write_new (dir : path) (segments : list bytes) : M fs unit :=
  file ← io_NewWritableFile (tmp_path dir);
  file ← io_Append file (manifest_bytes segments);
  io_Sync file ;; io_Close file.

Definition swap_files (dir : path) : M fs unit :=
  ex ← fs_exists_throwing (curr_path dir);
  (if (ex : bool) then fs_rename (curr_path dir) (prev_path dir) "Manifest prev rename failed" else mret tt) ;;
  fs_rename (tmp_path dir) (curr_path dir) "Manifest rename failed" ;;
  ignore (FsyncDir dir).

Lemma sm_Commit_split dir segs f : sm_Commit dir segs f = (write_new dir segs ;; swap_files dir) f.
Proof.
  unfold sm_Commit, write_new, swap_files. unfold mbind, M_bind.
  destruct (io_NewWritableFile (tmp_path dir) f) as [[?|h] f1]; [done|].
  destruct (io_Append h _ f1) as [[?|h'] f2]; [done|]. destruct (io_Sync h' f2) as [[?|[]] f3]; [done|].
  by destruct (io_Close h' f3) as [[?|[]] f4].
Qed.

Lemma write_new_touches dir segs : touches_only (tmp_path dir) (write_new dir segs).
Proof.
  intros q Hq f r f' E. unfold write_new in E. unfold mbind at 1, M_bind at 1 in E.
  destruct (io_NewWritableFile (tmp_path dir) f) as [[?|h] f1] eqn:E1.
  - injection E as _ <-. unfold io_NewWritableFile, mbind, M_bind in E1.
    destruct (next_fault f) as [[?|[]] f2] eqn:E2; try done; apply preserves_next_fault in E2;
      injection E1 as _ <-; by rewrite E2.
  - apply mbind_inv in E1 as (d & f2 & E2 & E1). apply preserves_next_fault in E2. destruct d; [done|].
    injection E1 as <- <-. rewrite <-E2.
    assert (touches_only (tmp_path dir)
      (file ← io_Append (MkIoFile (tmp_path dir) 0 0) (manifest_bytes segs); io_Sync file ;; io_Close file)) as Ht.
    { apply touches_bind.
      - unfold io_Append. apply touches_bind; [apply touches_next|]. intros d.
        apply touches_bind; [apply touches_get|]. intros g. cbn [io_path].
        destruct (write_outcome d _); eauto with touches.
      - intros h. apply touches_bind; [|intros _]; apply touches_files, io_call_files. }
    rewrite (Ht q Hq _ _ _ E). cbn. by rewrite lookup_insert_ne.
Qed.

Lemma write_new_writes dir segs f u f' :
  Forall no_short (fs_faults f) -> write_new dir segs f = (inr u, f') ->
  fs_files f' !! tmp_path dir = Some (manifest_bytes segs).
Proof.
  intros Hf E. apply mbind_inv in E as (h & f1 & E1 & E).
  apply mbind_inv in E1 as (d & f2 & E2 & E1). apply next_fault_inv in E2 as [F2 Hs].
  destruct (Hs Hf) as [_ Hf2]. destruct d; [done|]. injection E1 as <- <-.
  apply mbind_inv in E as (h' & f3 & E3 & E). unfold io_Append in E3.
  apply mbind_inv in E3 as (d & f4 & E4 & E3). apply next_fault_inv in E4 as [F4 Hs4].
  destruct (Hs4 Hf2) as [Hd _]. apply mbind_inv in E3 as (g & f5 & E5 & E3). injection E5 as <- <-.
  assert (write_outcome d (manifest_bytes segs) = Some (manifest_bytes segs) \/
          write_outcome d (manifest_bytes segs) = None) as [Hw|Hw].
  { destruct d as [flt|]; [|by left]. right. cbn. by rewrite (Hd flt eq_refl). }
  2:{ by rewrite Hw in E3. }
  rewrite Hw in E3. cbn [io_path io_pos] in E3. rewrite F4 in E3. injection E3 as <- <-.
  apply mbind_inv in E as (? & f6 & E6 & E7). apply io_call_files in E6. apply io_call_files in E7.
  rewrite E7, E6. cbn [fs_files]. rewrite !lookup_insert_eq. cbn [from_option id].
  f_equal. exact (pwrite_end [] (manifest_bytes segs)).
Qed.

Lemma fs_exists_throwing_inv p f ex f' :
  fs_exists_throwing p f = (inr ex, f') ->
  fs_files f' = fs_files f /\ ex = bool_decide (is_Some (fs_files f !! p)).
Proof.
  intros E. apply mbind_inv in E as (d & f1 & E1 & E). apply preserves_next_fault in E1.
  apply mbind_inv in E as (g & f2 & E2 & E). injection E2 as <- <-. destruct d; [done|].
  injection E as <- <-. by rewrite E1.
Qed.

Lemma fs_exists_throwing_files p : preserves fs_files (fs_exists_throwing p).
Proof.
  apply preserves_bind; [apply preserves_next_fault|]. intros d. apply preserves_bind; [apply preserves_get|].
  intros g. destruct d; eauto with preserve.
Qed.

(** The renames: every outcome for a current file that exists. *)
Lemma swap_files_spec dir old new f r f' :
  fs_files f !! curr_path dir = Some old -> fs_files f !! tmp_path dir = Some new ->
  swap_files dir f = (r, f') ->
  (fs_files f' !! curr_path dir = Some old /\ fs_files f' !! prev_path dir = fs_files f !! prev_path dir /\ r <> inr tt) \/
  (fs_files f' !! curr_path dir = None /\ fs_files f' !! prev_path dir = Some old /\
   r = inl (IOError "Manifest rename failed")) \/
  (fs_files f' !! curr_path dir = Some new /\ fs_files f' !! prev_path dir = Some old /\ r = inr tt).
Proof.
  intros Hc Ht E. destruct (manifest_paths dir) as (N1 & N2 & N3).
  unfold swap_files in E. unfold mbind at 1, M_bind at 1 in E.
  destruct (fs_exists_throwing (curr_path dir) f) as [[e|ex] f1] eqn:E1.
  { injection E as <- <-. apply fs_exists_throwing_files in E1. left. by rewrite E1. }
  apply fs_exists_throwing_inv in E1 as [F1 ->]. rewrite Hc, bool_decide_eq_true_2 in E by eauto.
  unfold mbind at 1, M_bind at 1 in E.
  destruct (fs_rename (curr_path dir) (prev_path dir) _ f1) as [[e|u] f2] eqn:E2.
  { injection E as <- <-. apply fs_rename_err in E2 as [F2 ->]. left. by rewrite F2, F1. }
  apply fs_rename_inv in E2 as (c & Hc' & F2). rewrite F1, Hc in Hc'. injection Hc' as <-. rewrite F1 in F2.
  unfold mbind, M_bind in E.
  destruct (fs_rename (tmp_path dir) (curr_path dir) _ f2) as [[e|u'] f3] eqn:E3.
  { injection E as <- <-. apply fs_rename_err in E3 as [F3 ->]. right; left. rewrite F3, F2.
    rewrite lookup_insert_eq, lookup_insert_ne, lookup_delete_eq by done. done. }
  apply fs_rename_inv in E3 as (c & Hc' & F3).
  rewrite F2, lookup_insert_ne, lookup_delete_ne, Ht in Hc' by congruence. injection Hc' as <-.
  unfold ignore in E. injection E as <- <-. destruct (FsyncDir dir f3) as [x f4] eqn:E4.
  assert (fs_files f4 = fs_files f3) as F4 by by eapply FsyncDir_files.
  right; right. cbn [snd]. rewrite F4, F3, F2, lookup_insert_eq, lookup_insert_ne, lookup_delete_ne, lookup_insert_eq by congruence.
  done.
Qed.

(** A commit without I/O errors. *)
Lemma sm_Commit_ok dir segs fm :
  exists fm', sm_Commit dir segs (MkFs fm []) = (inr tt, MkFs fm' []) /\
    fm' !! curr_path dir = Some (manifest_bytes segs) /\
    (forall q, q <> curr_path dir -> q <> prev_path dir -> q <> tmp_path dir -> fm' !! q = fm !! q).
Proof.
  destruct (manifest_paths dir) as (N1 & N2 & N3).
  rewrite sm_Commit_split. set (fm1 := <[tmp_path dir := manifest_bytes segs]> fm).
  assert (write_new dir segs (MkFs fm []) = (inr tt, MkFs fm1 [])) as E1.
  { unfold write_new, io_NewWritableFile, io_Append, io_Sync, io_Close, io_call. run_fs. cbn [write_outcome io_path io_pos].
    rewrite lookup_insert_eq, insert_insert_eq. pose proof (pwrite_end [] (manifest_bytes segs)) as E. cbn [app] in E.
    change (zlen []) with 0 in E. by rewrite E. }
  rewrite (mbind_ok _ _ _ _ _ E1). unfold swap_files. rewrite (mbind_ok _ _ _ (bool_decide (is_Some (fm1 !! curr_path dir))) (MkFs fm1 [])) by done.
  assert (exists fm2, fm2 !! tmp_path dir = Some (manifest_bytes segs) /\
    (if bool_decide (is_Some (fm1 !! curr_path dir))
     then fs_rename (curr_path dir) (prev_path dir) "Manifest prev rename failed" else mret tt) (MkFs fm1 [])
    = (inr tt, MkFs fm2 []) /\ (forall q, q <> curr_path dir -> q <> prev_path dir -> fm2 !! q = fm1 !! q))
    as (fm2 & Ht & E2 & F2).
  { destruct (fm1 !! curr_path dir) as [c|] eqn:Ec.
    - rewrite bool_decide_eq_true_2 by eauto. eexists. split; [|split; [by apply fs_rename_ok|]].
      + rewrite lookup_insert_ne, lookup_delete_ne by congruence. apply lookup_insert_eq.
      + intros q ? ?. by rewrite lookup_insert_ne, lookup_delete_ne by congruence.
    - rewrite bool_decide_eq_false_2 by by intros [??]. exists fm1. split; [apply lookup_insert_eq|done]. }
  rewrite (mbind_ok _ _ _ _ _ E2), (mbind_ok _ _ _ _ _ (fs_rename_ok _ _ _ _ _ Ht)).
  eexists. split; [reflexivity|]. split; [apply lookup_insert_eq|]. intros q ? ? ?.
  rewrite lookup_insert_ne, lookup_delete_ne, F2 by congruence. unfold fm1. by rewrite lookup_insert_ne by congruence.
Qed.

(** Round trip of the segment list: a commit without I/O errors succeeds
    and the next load returns exactly the committed names. *)
Theorem sm_commit_load_roundtrip dir segs fm :
  Forall seg_name segs ->
  exists fm', sm_Commit dir segs (MkFs fm []) = (inr tt, MkFs fm' []) /\
    sm_Load dir (MkFs fm' []) = (inr segs, MkFs fm' []).
Proof.
  intros Hs. destruct (sm_Commit_ok dir segs fm) as (fm' & E & Hc & _). exists fm'. split; [done|].
  rewrite sm_Load_eq, Hc. unfold load_result. by rewrite decode_manifest_bytes.
Qed.

Lemma sm_commit_load_roundtrip_witness :
  exists fm', sm_Load "shard" (MkFs fm' []) = (inr [bstr "seg_1.dat"; bstr "seg_2.dat"], MkFs fm' []).
Proof.
  destruct (sm_commit_load_roundtrip "shard" [bstr "seg_1.dat"; bstr "seg_2.dat"] ∅) as (fm' & _ & E).
  - apply (bool_decide_unpack _). vm_compute. exact I.
  - exists fm'. exact E.
Defined.

(** C33. A commit of the segment list over a current list, the file names not
    being empty and without a newline, for every pattern of failing calls
    without short writes: unless its last rename fails, a load afterwards
    returns the old list and the commit has reported an error, or the new list
    and it has reported success.  (A failure of the last rename, reported as
    "Manifest rename failed", is the case of [sm_commit_window_loses_list].) *)
Theorem sm_commit_old_or_new dir old segs f r f' :
  Forall seg_name old -> Forall seg_name segs ->
  fs_files f !! curr_path dir = Some (manifest_bytes old) ->
  Forall no_short (fs_faults f) ->
  sm_Commit dir segs f = (r, f') -> r <> inl (IOError "Manifest rename failed") ->
  let after := (sm_Load dir (MkFs (fs_files f') [])).1 in
  (after = inr old /\ r <> inr tt) \/ (after = inr segs /\ r = inr tt).
Proof.
  intros Ho Hs Hc Hf E Hne. revert E. rewrite sm_Commit_split. unfold mbind at 1, M_bind at 1.
  destruct (manifest_paths dir) as (N1 & N2 & N3). rewrite sm_Load_eq. cbn [fst]. unfold load_result.
  destruct (write_new dir segs f) as [[e|u] f1] eqn:E1; intros E; pose proof (write_new_touches dir segs _ N2 _ _ _ E1) as F1;
    cbn beta in F1; rewrite Hc in F1.
  - injection E as <- <-. left. by rewrite F1, decode_manifest_bytes.
  - apply write_new_writes in E1; [|done].
    destruct (swap_files_spec _ _ _ _ _ _ F1 E1 E) as [(-> & _ & ?)|[(-> & Hp & ->)|(-> & _ & ->)]].
    + left. by rewrite decode_manifest_bytes.
    + done.
    + right. by rewrite decode_manifest_bytes.
Qed.

Lemma sm_commit_old_or_new_witness :
  let old := [bstr "a"] in let new := [bstr "a"; bstr "b"] in
  let f := MkFs {[ curr_path "d" := manifest_bytes old ]} [None; None; Some (MkFault "EIO" 0)] in
  let after := (sm_Load "d" (MkFs (fs_files (sm_Commit "d" new f).2) [])).1 in
  after = inr old \/ after = inr new.
Proof.
  intros old new f after. destruct (sm_Commit "d" new f) as [r f'] eqn:E.
  destruct (sm_commit_old_or_new "d" old new f r f') as [[H _]|[H _]].
  - apply (bool_decide_unpack _). vm_compute. exact I.
  - apply (bool_decide_unpack _). vm_compute. exact I.
  - reflexivity.
  - repeat (apply Forall_cons; split); [discriminate|discriminate| |apply Forall_nil; exact I].
    intros flt Hflt. injection Hflt as <-. reflexivity.
  - exact E.
  - vm_compute in E. injection E as <- _. discriminate.
  - left. exact H.
  - right. exact H.
Defined.

(** The window between the renames: when the second rename fails, or the
    process stops before it, [Load] reports success with an empty list and never
    looks at the intact [manifest.prev]. *)
Theorem sm_commit_window_loses_list dir old segs fm flt :
  Forall seg_name old -> Forall seg_name segs ->
  fm !! curr_path dir = Some (manifest_bytes old) ->
  exists fm',
    sm_Commit dir segs (MkFs fm [None; None; None; None; None; None; Some flt]) =
      (inl (IOError "Manifest rename failed"), MkFs fm' []) /\
    sm_Load dir (MkFs fm' []) = (inr [], MkFs fm' []) /\
    TryLoadOne (prev_path dir) (MkFs fm' []) = (inr old, MkFs fm' []).
Proof.
  intros Ho Hs Hc. destruct (manifest_paths dir) as (N1 & N2 & N3). unfold sm_Commit.
  do 4 (erewrite mbind_ok by reflexivity). erewrite mbind_ok by reflexivity. cbn [fs_files fs_faults set_file].
  rewrite !lookup_insert_ne, Hc, bool_decide_eq_true_2 by (congruence || eauto).
  cbn [write_outcome io_path]. erewrite mbind_ok by (apply fs_rename_next; rewrite !lookup_insert_ne by congruence; exact Hc).
  erewrite mbind_err by apply fs_rename_fault.
  eexists. split; [reflexivity|]. split.
  - rewrite sm_Load_eq. by rewrite lookup_insert_ne, lookup_delete_eq by congruence.
  - rewrite (TryLoadOne_ok _ (manifest_bytes old)) by apply lookup_insert_eq. by rewrite decode_manifest_bytes.
Qed.

Lemma sm_commit_window_loses_list_witness :
  exists fm', sm_Load "d" (MkFs fm' []) = (inr [], MkFs fm' []) /\
    TryLoadOne (prev_path "d") (MkFs fm' []) = (inr [bstr "a"], MkFs fm' []).
Proof.
  destruct (sm_commit_window_loses_list "d" [bstr "a"] [bstr "b"] {[ curr_path "d" := manifest_bytes [bstr "a"] ]}
    (MkFault "EIO" 0)) as (fm' & _ & E).
  - apply (bool_decide_unpack _). vm_compute. exact I.
  - apply (bool_decide_unpack _). vm_compute. exact I.
  - reflexivity.
  - exists fm'. exact E.
Defined.

Lemma legacy_prefix k segs :
  (0 < k < 17)%nat -> decode_manifest (take k (manifest_bytes segs)) = inr [].
Proof.
  intros Hk. assert (take k (manifest_bytes segs) = take k kManifestHeader) as ->.
  { unfold manifest_bytes. rewrite <-app_assoc, take_app_le; [done|]. cbn. lia. }
  do 17 (destruct k as [|k]; [first [lia|reflexivity]|]). lia.
Qed.

(** A short write is taken for success: when the disk accepts only the
    first bytes of the new manifest, less than its header line, [Commit] returns
    ok and the next [Load] returns ok with an empty list. *)
Theorem sm_commit_accepts_short_write dir segs fm errno k :
  (0 < k < 17)%nat -> fm !! curr_path dir = None ->
  exists fm',
    sm_Commit dir segs (MkFs fm [None; Some (MkFault errno k)]) = (inr tt, MkFs fm' []) /\
    sm_Load dir (MkFs fm' []) = (inr [], MkFs fm' []).
Proof.
  intros Hk Hc. destruct (manifest_paths dir) as (N1 & N2 & N3). unfold sm_Commit.
  erewrite mbind_ok by reflexivity. cbn [fs_files fs_faults set_file].
  erewrite mbind_ok.
  2:{ unfold io_Append. do 2 (erewrite mbind_ok by reflexivity). cbn [write_outcome flt_written].
      rewrite (proj2 (Nat.eqb_neq k 0)) by lia. reflexivity. }
  do 3 (erewrite mbind_ok by reflexivity). cbn [fs_files io_path].
  rewrite !lookup_insert_ne, Hc, bool_decide_eq_false_2 by (congruence || by intros [??]).
  erewrite mbind_ok by reflexivity. erewrite mbind_ok by (apply fs_rename_ok, lookup_insert_eq).
  eexists. split; [reflexivity|]. rewrite sm_Load_eq. cbn [fs_files]. rewrite lookup_insert_eq. unfold load_result.
  rewrite lookup_insert_eq. cbn [from_option id io_pos].
  change (pwrite [] 0 ?w) with (pwrite [] (zlen (A := byte) []) w). rewrite pwrite_end. cbn [app]. by rewrite legacy_prefix.
Qed.

Lemma sm_commit_accepts_short_write_witness :
  exists fm', sm_Commit "d" [bstr "a"] (MkFs ∅ [None; Some (MkFault "" 5)]) = (inr tt, MkFs fm' []) /\
    sm_Load "d" (MkFs fm' []) = (inr [], MkFs fm' []).
Proof. apply (sm_commit_accepts_short_write "d" [bstr "a"] ∅ "" 5); [lia|reflexivity]. Defined.
