(* ===== verification/Segment.v ===== *)
(** * Segment files (src/table/segment.h, segment.cc)

    The builder and the reader of immutable segment files, for segments whose
    vectors are stored as floats ([quant_type == kNone]): the quantisers and
    the sidecar indexes (IVF, HNSW, PQ) are not modelled, nor is running out of
    memory.  The reader works on the mapped bytes; an access outside the mapping
    is [None], which stands for undefined behaviour. *)
From S2P Require Import Prelude Crc32c Env Types PosixFile IoProvider.

Open Scope Z_scope.

Definition kMagic : bytes := bstr "pomai.seg.v1".
Definition kFlagTombstone : Z := 1.
Definition sizeof_SegmentHeader : Z := 56.

(** src/table/segment.h:38-53 [SegmentHeader]. The reserved bytes are zero. *)
Record SegmentHeader : Type := MkHeader {
  sh_magic : bytes;
  sh_version : Z;
  sh_count : Z;
  sh_dim : Z;
  sh_metadata_offset : Z;
  sh_quant_type : Z;
  sh_quant_min : Z;
  sh_quant_inv_scale : Z;
  sh_entries_start_offset : Z;
  sh_entry_size : Z;
  sh_temporal_index_offset : Z
}.

(** The memory layout of the header. *)
Definition header_bytes (h : SegmentHeader) : bytes :=
  sh_magic h ++ le_split 4 (sh_version h) ++ le_split 4 (sh_count h) ++ le_split 4 (sh_dim h) ++
  le_split 4 (sh_metadata_offset h) ++ [byte.of_Z (sh_quant_type h); Byte.x00; Byte.x00; Byte.x00] ++
  le_split 4 (sh_quant_min h) ++ le_split 4 (sh_quant_inv_scale h) ++
  le_split 4 (sh_entries_start_offset h) ++ le_split 4 (sh_entry_size h) ++
  le_split 4 (sh_temporal_index_offset h) ++ le_split 4 0.

(** ** The builder *)

(** src/table/segment.h:262-267 [SegmentBuilder::Entry]. The view of a deleted
    entry is null; [se_vec] is then empty. *)
Record SegEntry : Type := MkSegEntry {
  se_id : Z;
  se_vec : vec;
  se_deleted : bool;
  se_meta : Metadata
}.

(** src/table/segment.h:269-274 [SegmentBuilder]. *)
Record SegmentBuilder : Type := MkBuilder {
  sb_path : path;
  sb_dim : Z;
  sb_entries : list SegEntry
}.

(** src/table/segment.cc:43-64 [SegmentBuilder::Add]. *)
Definition sb_Add (id : Z) (v : vec) (is_deleted : bool) (meta : Metadata) : M SegmentBuilder unit := fun b =>
  if is_deleted then
    (inr tt, MkBuilder (sb_path b) (sb_dim b) (sb_entries b ++ [MkSegEntry id [] true meta]))
  else if negb (vec_dim v =? sb_dim b) then (inl (InvalidArgument "dimension mismatch"), b)
  else (inr tt, MkBuilder (sb_path b) (sb_dim b) (sb_entries b ++ [MkSegEntry id v false meta])).

(** src/table/segment.h:259-259 [SegmentBuilder::Count]. *)
Definition sb_Count (b : SegmentBuilder) : Z := u32 (zlen (sb_entries b)).

(** [std::sort] by id. *)
Definition id_le (a b : SegEntry) : Prop := se_id a <= se_id b.
#[global] Instance id_le_dec a b : Decision (id_le a b).
Proof. unfold id_le. apply _. Defined.

(** src/table/segment.cc:163-169 [SegmentBuilder::Finish]. *)
Definition entry_size_of (dim : Z) : Z := Z.land (8 + 4 + dim * 4 + 63) (Z.lnot 63).
Definition kEntriesStart : Z := 128.

(** src/table/segment.cc:83-92 [SegmentBuilder::Finish]. The header; the offset
    of the temporal index is zero until the metadata is laid out. *)
Definition seg_header (dim : Z) (entries : list SegEntry) (temporal : Z) : SegmentHeader :=
  MkHeader kMagic 6 (u32 (zlen entries)) dim (u32 (kEntriesStart + zlen entries * entry_size_of dim))
    0 0 0 kEntriesStart (u32 (entry_size_of dim)) temporal.

(** src/table/segment.cc:204-236 [SegmentBuilder::Finish]. The buffer of an entry. *)
Definition entry_bytes (dim : Z) (e : SegEntry) : bytes :=
  let body :=
    le_split 8 (se_id e) ++
    [byte.of_Z (if se_deleted e then kFlagTombstone else 0); Byte.x00; Byte.x00; Byte.x00] ++
    (if se_deleted e then replicate (Z.to_nat (dim * 4)) Byte.x00 else vec_bytes (se_vec e)) in
  body ++ replicate (Z.to_nat (entry_size_of dim) - length body) Byte.x00.

(** src/table/segment.cc:264-270 [SegmentBuilder::Finish]. The lambda [add_str]. *)
Definition add_str (s : bytes) : bytes := le_split 4 (u32 (zlen s)) ++ s.

(** src/table/segment.cc:256-276 [SegmentBuilder::Finish]. The metadata of an entry. *)
Definition meta_bytes (m : Metadata) : bytes :=
  le_split 8 (md_src_vid m) ++ le_split 8 (md_timestamp m) ++ le_split 8 (md_lsn m) ++
  le_split 8 (md_lat m) ++ le_split 8 (md_lon m) ++
  add_str (md_device_id m) ++ add_str (md_location_id m) ++ add_str (md_tenant m) ++
  add_str (md_text m) ++ add_str (md_payload m).

(** src/table/segment.cc:252-280 [SegmentBuilder::Finish]. The offsets before
    each entry and after the last, and the blob. *)
Fixpoint meta_offsets (off : Z) (entries : list SegEntry) : list Z :=
  match entries with
  | [] => [off]
  | e :: es => off :: meta_offsets (off + zlen (meta_bytes (se_meta e))) es
  end.
Definition meta_blob (entries : list SegEntry) : bytes := concat (map (fun e => meta_bytes (se_meta e)) entries).

(** src/table/segment.cc:282-284 [SegmentBuilder::Finish]. The temporal index:
    (timestamp, entry) pairs sorted by timestamp. *)
Definition stamp_le (a b : Z * Z) : Prop := a.1 <= b.1.
#[global] Instance stamp_le_dec a b : Decision (stamp_le a b).
Proof. unfold stamp_le. apply _. Defined.
Definition time_entries (entries : list SegEntry) : list (Z * Z) :=
  merge_sort stamp_le (imap (fun i e => (md_timestamp (se_meta e), Z.of_nat i)) entries).

(** A [TimeEntry] in memory: 16 bytes, the last four are padding that nothing
    reads (zero here). *)
Definition time_bytes (t : Z * Z) : bytes := le_split 8 t.1 ++ le_split 4 t.2 ++ le_split 4 0.

(** [for (...) Append(...)] *)
Fixpoint append_all (file : IoFile) (chunks : list bytes) : M fs IoFile :=
  match chunks with
  | [] => mret file
  | c :: chunks => file ← io_Append file c; append_all file chunks
  end.

(** src/table/segment.cc:163-331 [SegmentBuilder::Finish]. The path without
    quantisation, after the sorting and the temporary file of lines 73-92: the
    header, the entries as floats, the metadata, the temporal index, the
    checksum and the rename. *)
Definition sb_Finish (b : SegmentBuilder) : M fs unit :=
  let entries := merge_sort id_le (sb_entries b) in
  let tmp_path := sb_path b +:+ ".tmp" in
  file ← io_NewWritableFile tmp_path;
  let h := seg_header (sb_dim b) entries 0 in
  file ← io_Append file (header_bytes h);
  let crc := Crc32c (header_bytes h) 0 in
  let pad := replicate (Z.to_nat (kEntriesStart - sizeof_SegmentHeader)) Byte.x00 in
  file ← io_Append file pad;
  let crc := Crc32c pad crc in
  file ← append_all file (map (entry_bytes (sb_dim b)) entries);
  let crc := fold_left (fun crc c => Crc32c c crc) (map (entry_bytes (sb_dim b)) entries) crc in
  let offsets := concat (map (le_split 8) (meta_offsets 0 entries)) in
  let blob := meta_blob entries in
  let times := concat (map time_bytes (time_entries entries)) in
  let h := seg_header (sb_dim b) entries (u32 (sh_metadata_offset h + zlen offsets + zlen blob)) in
  file ← io_Pwrite file 0 (header_bytes h);
  file ← io_Append file offsets;
  let crc := Crc32c offsets crc in
  file ← (if bool_decide (blob = []) then mret file else io_Append file blob);
  let crc := if bool_decide (blob = []) then crc else Crc32c blob crc in
  file ← io_Append file times;
  let crc := Crc32c times crc in
  file ← io_Append file (le_split 4 crc);
  io_Sync file ;;
  io_Close file ;;
  fs_rename tmp_path (sb_path b) "rename failed".

(** ** The reader *)

(** [n] bytes of the mapping; [None] when they are not all inside it. *)
Definition rd (b : bytes) (off n : Z) : option bytes :=
  if (0 <=? off) && (off + n <=? zlen b) then Some (take (Z.to_nat n) (drop (Z.to_nat off) b)) else None.

(** [memcpy] of an [n]-byte integer. *)
Definition rd_int (b : bytes) (off n : Z) : option Z := le_combine <$> rd b off n.

(** src/table/segment.h:218-232 [SegmentReader]. *)
Record SegmentReader : Type := MkReader {
  sr_path : path;
  sr_data : bytes;
  sr_count : Z;
  sr_dim : Z;
  sr_entry_size : Z;
  sr_entries_start_offset : Z;
  sr_metadata_offset : Z;
  sr_temporal_index_offset : Z;
  sr_quant_type : Z
}.

Definition kNone_q : Z := 0.
Definition kSq8_q : Z := 1.
Definition kFp16_q : Z := 2.
Definition kBit_q : Z := 3.

(** src/table/segment.cc:488-491 [SegmentReader::Open]. *)
Definition quant_vec_bytes (quant_type dim : Z) : Z :=
  if quant_type =? kSq8_q then dim else
  if quant_type =? kFp16_q then u32 (dim * 2) else
  if quant_type =? kBit_q then u32 (dim + 7) / 8 else dim * 4.

(** The header read from the mapping. *)
Definition read_header (b : bytes) : SegmentHeader :=
  MkHeader (take 12 b) (le_read 4 12 b) (le_read 4 16 b) (le_read 4 20 b) (le_read 4 24 b)
    (le_read 1 28 b) (le_read 4 32 b) (le_read 4 36 b) (le_read 4 40 b) (le_read 4 44 b) (le_read 4 48 b).

(** src/table/segment.cc:447-524 [SegmentReader::Open]. The header checks and
    the fields of the reader. *)
Definition open_mapped (p : path) (data : bytes) : Status + SegmentReader :=
  if zlen data <? sizeof_SegmentHeader then inl (Corruption "file too small") else
  let h := read_header data in
  if negb (bool_decide (sh_magic h = kMagic)) then inl (Corruption "bad magic") else
  let v := sh_version h in
  if (v <? 2) || (6 <? v) then inl (Corruption "unsupported version") else
  let entries_start := if 5 <=? v then sh_entries_start_offset h else sizeof_SegmentHeader in
  let quant := if 4 <=? v then sh_quant_type h else kNone_q in
  let entry_size :=
    if 5 <=? v then sh_entry_size h
    else 8 + 4 + (if quant =? kNone_q then sh_dim h * 4 else quant_vec_bytes quant (sh_dim h)) in
  let temporal := if 6 <=? v then sh_temporal_index_offset h else 0 in
  let metadata := if 3 <=? v then sh_metadata_offset h else 0 in
  let expected_min := entries_start + sh_count h * entry_size + 4 in
  if zlen data <? expected_min then inl (Corruption "segment truncated") else
  inr (MkReader p data (sh_count h) (sh_dim h) entry_size entries_start metadata temporal quant).

(** src/table/segment.cc:431-565 [SegmentReader::Open]. The sidecar indexes,
    which are loaded on a best-effort basis, are not part of the reader here. *)
Definition sr_Open (p : path) : M fs SegmentReader :=
  data ← io_NewMemoryMappedFile p;
  of_sum (open_mapped p data).

(** src/table/segment.cc:642-652 [SegmentReader::GetMetadata]. The lambda
    [read_str]: the string and the cursor after it. *)
Definition read_str (b : bytes) (cursor : Z) : option (bytes * Z) :=
  len ← rd_int b cursor 4;
  s ← rd b (cursor + 4) len;
  Some (s, cursor + 4 + len).

(** src/table/segment.cc:621-660 [SegmentReader::GetMetadata]. *)
Definition sr_GetMetadata (r : SegmentReader) (index : Z) (out : Metadata) : option Metadata :=
  if (sr_metadata_offset r =? 0) || (sr_count r <=? index) then Some out else
  let b := sr_data r in
  let base := sr_metadata_offset r in
  let blob := base + u32 (sr_count r + 1) * 8 in
  start ← rd_int b (base + index * 8) 8;
  end_ ← rd_int b (base + u32 (index + 1) * 8) 8;
  if start <? end_ then
    let p := blob + start in
    src ← rd_int b p 8;
    ts ← rd_int b (p + 8) 8;
    lsn ← rd_int b (p + 16) 8;
    lat ← rd_int b (p + 24) 8;
    lon ← rd_int b (p + 32) 8;
    '(device, c) ← read_str b (p + 40);
    '(location, c) ← read_str b c;
    '(tenant, c) ← read_str b c;
    '(text, c) ← read_str b c;
    '(payload, c) ← read_str b c;
    Some (MkMeta tenant device location src ts lsn text payload lat lon)
  else Some out.

(** src/table/segment.h:80-84 [SegmentReader::FindResult]. *)
Inductive FindResult : Type := kFound (payload : Z) | kFoundTombstone | kNotFound.

(** src/table/segment.cc:766-795 [SegmentReader::FindRaw]. The binary search:
    what was found and at which index. *)
Fixpoint find_loop (fuel : nat) (r : SegmentReader) (id left right : Z) : option (FindResult * Z) :=
  match fuel with
  | O => None
  | S fuel =>
      if left <=? right then
        let mid := left + (right - left) / 2 in
        let p := sr_entries_start_offset r + mid * sr_entry_size r in
        read_id ← rd_int (sr_data r) p 8;
        if read_id =? id then
          flags ← rd_int (sr_data r) (p + 8) 1;
          if Z.testbit flags 0 then Some (kFoundTombstone, mid) else Some (kFound (p + 12), mid)
        else if read_id <? id then find_loop fuel r id (mid + 1) right
        else find_loop fuel r id left (mid - 1)
      else Some (kNotFound, 0)
  end.

(** src/table/segment.cc:757-797 [SegmentReader::FindRaw]. The search halves an
    interval of [count_] entries, so [count_ + 1] rounds are enough. *)
Definition sr_FindRaw (r : SegmentReader) (id : Z) (out : Metadata) : option (FindResult * Metadata) :=
  if sr_count r =? 0 then Some (kNotFound, out) else
  '(res, mid) ← find_loop (S (Z.to_nat (sr_count r))) r id 0 (sr_count r - 1);
  match res with
  | kNotFound => Some (kNotFound, out)
  | _ => m ← sr_GetMetadata r mid out; Some (res, m)
  end.

(** src/table/segment.cc:714-731 [SegmentReader::Find]. The vector found, the
    result of the search and the metadata. *)
Inductive FoundVec : Type := FVFound (v : vec) | FVTombstone | FVNone.
Definition sr_Find (r : SegmentReader) (id : Z) (out : Metadata) : option (FoundVec * Metadata) :=
  if negb (sr_quant_type r =? kNone_q) then Some (FVNone, out) else
  '(res, m) ← sr_FindRaw r id out;
  match res with
  | kFound p => b ← rd (sr_data r) p (sr_dim r * 4); Some (FVFound (read_vec (Z.to_nat (sr_dim r)) b), m)
  | kFoundTombstone => Some (FVTombstone, m)
  | kNotFound => Some (FVNone, m)
  end.

(** src/table/segment.cc:685-702 [SegmentReader::Get]. The bytes of the vector. *)
Definition sr_Get (r : SegmentReader) (id : Z) (out : Metadata) : option (Status + (bytes * Metadata)) :=
  '(res, m) ← sr_FindRaw r id out;
  match res with
  | kFound p =>
      b ← rd (sr_data r) p (quant_vec_bytes (sr_quant_type r) (sr_dim r));
      Some (inr (b, m))
  | kFoundTombstone => Some (inl (NotFound "tombstone"))
  | kNotFound => Some (inl (NotFound "id not found in segment"))
  end.

(** src/table/segment.cc:832-867 [SegmentReader::ReadAt]. Identifier, vector
    (empty when deleted or quantised), deletion mark and metadata. *)
Definition sr_ReadAt (r : SegmentReader) (index : Z) (out : Metadata) :
    option (Status + (Z * vec * bool * Metadata)) :=
  if sr_count r <=? index then Some (inl (InvalidArgument "index out of range")) else
  let p := sr_entries_start_offset r + index * sr_entry_size r in
  id ← rd_int (sr_data r) p 8;
  flags ← rd_int (sr_data r) (p + 8) 1;
  let is_deleted := Z.testbit flags 0 in
  v ← (if is_deleted || negb (sr_quant_type r =? kNone_q) then Some []
       else b ← rd (sr_data r) (p + 12) (sr_dim r * 4); Some (read_vec (Z.to_nat (sr_dim r)) b));
  m ← sr_GetMetadata r index out;
  Some (inr (id, v, is_deleted, m)).

(** src/table/segment.cc:677-683 [SegmentReader::ReadAtMetadata]. *)
Definition sr_ReadAtMetadata (r : SegmentReader) (index : Z) (out : Metadata) :
    option (Status + (bool * Metadata)) :=
  if sr_count r <=? index then Some (inl (InvalidArgument "index out of range")) else
  let p := sr_entries_start_offset r + index * sr_entry_size r in
  flags ← rd_int (sr_data r) (p + 8) 1;
  m ← sr_GetMetadata r index out;
  Some (inr (Z.testbit flags 0, m)).

(** [std::lower_bound]: the first index of [first, first + len) whose element
    does not satisfy [before], by halving. *)
Fixpoint partition_point (fuel : nat) (before : Z -> option bool) (first len : Z) : option Z :=
  match fuel with
  | O => None
  | S fuel =>
      if len <=? 0 then Some first else
      let half := len / 2 in
      x ← before (first + half);
      if (x : bool) then partition_point fuel before (first + half + 1) (len - half - 1)
      else partition_point fuel before first half
  end.

(** The timestamp and the entry index of the [i]-th temporal entry. *)
Definition rd_time (r : SegmentReader) (i : Z) : option Z :=
  rd_int (sr_data r) (sr_temporal_index_offset r + i * 16) 8.
Definition rd_time_idx (r : SegmentReader) (i : Z) : option Z :=
  rd_int (sr_data r) (sr_temporal_index_offset r + i * 16 + 8) 4.

(** src/table/segment.cc:574-593 [SegmentReader::SearchTemporal]. From
    [lower_bound(start)] to [upper_bound(end)]; when the first lies after the
    second the loop leaves the array, which is undefined. *)
Definition sr_SearchTemporal (r : SegmentReader) (start_ts end_ts : Z) : option (list Z) :=
  if (sr_temporal_index_offset r =? 0) || (sr_count r =? 0) then Some [] else
  let fuel := S (Z.to_nat (sr_count r)) in
  lo ← partition_point fuel (fun i => ts ← rd_time r i; Some (ts <? start_ts)) 0 (sr_count r);
  hi ← partition_point fuel (fun i => ts ← rd_time r i; Some (ts <=? end_ts)) 0 (sr_count r);
  if lo <=? hi then mapM (fun i => rd_time_idx r (lo + Z.of_nat i)) (seq 0 (Z.to_nat (hi - lo))) else None.
