(* ===== verification/SegmentTheorems.v ===== *)
(** * Segments are read back as they were built

    The bytes a builder writes, the reader over them, and for arbitrary (also
    damaged) files what the checks of [Open] guarantee. *)
From S2P Require Import Prelude Crc32c Env Types PosixFile IoProvider Segment.

Open Scope Z_scope.

(** ** Reading inside a mapping *)

Lemma rd_at pre x post : rd (pre ++ x ++ post) (zlen pre) (zlen x) = Some x.
Proof.
  unfold rd. rewrite (proj2 (Z.leb_le 0 (zlen pre))) by apply zlen_nonneg.
  rewrite (proj2 (Z.leb_le _ _)) by len. unfold zlen. rewrite !Nat2Z.id.
  by rewrite drop_app_length, take_app_length.
Qed.

Lemma rd_at' b pre x post off n :
  b = pre ++ x ++ post -> off = zlen pre -> n = zlen x -> rd b off n = Some x.
Proof. intros -> -> ->. apply rd_at. Qed.

Lemma rd_sub pre x post o n :
  0 <= o -> 0 <= n -> o + n <= zlen x ->
  rd (pre ++ x ++ post) (zlen pre + o) n = Some (take (Z.to_nat n) (drop (Z.to_nat o) x)).
Proof.
  intros Ho Hn Hx. set (y := take (Z.to_nat n) (drop (Z.to_nat o) x)).
  apply (rd_at' _ (pre ++ take (Z.to_nat o) x) y (drop (Z.to_nat n) (drop (Z.to_nat o) x) ++ post)).
  - unfold y. rewrite <-!app_assoc. f_equal. rewrite (app_assoc (take (Z.to_nat n) _)), take_drop.
    by rewrite app_assoc, take_drop.
  - len.
  - unfold y. unfold zlen in *. rewrite length_take, length_drop. lia.
Qed.

Lemma rd_int_at b pre n z post off :
  b = pre ++ le_split n z ++ post -> off = zlen pre -> 0 <= z < 2 ^ (Z.of_nat n * 8) ->
  rd_int b off (Z.of_nat n) = Some z.
Proof.
  intros -> -> Hz. unfold rd_int. rewrite (rd_at' _ pre (le_split n z) post) by (done || len).
  cbn. by rewrite le_combine_split_id.
Qed.

(** A slot of a table of equally long chunks. *)
Lemma concat_slot (k : nat) (chunks : list bytes) i c :
  Forall (fun c => length c = k) chunks -> chunks !! i = Some c ->
  exists pre post, concat chunks = pre ++ c ++ post /\ length pre = (i * k)%nat.
Proof.
  intros Hk. revert i. induction Hk as [|x chunks Hx Hk IH]; intros i Hi; [done|].
  destruct i as [|i]; cbn in Hi.
  - injection Hi as ->. exists [], (concat chunks). done.
  - destruct (IH i Hi) as (pre & post & E & Hl). exists (x ++ pre), post. cbn. rewrite E, <-app_assoc.
    split; [done|]. rewrite length_app. lia.
Qed.

Lemma length_concat_slots (k : nat) (chunks : list bytes) :
  Forall (fun c => length c = k) chunks -> length (concat chunks) = (length chunks * k)%nat.
Proof. induction 1 as [|c chunks Hc _ IH]; [done|]. cbn. rewrite length_app. lia. Qed.

Lemma rd_slot b pre chunks post (k : nat) i c o n off :
  b = pre ++ concat chunks ++ post -> Forall (fun c => length c = k) chunks -> chunks !! i = Some c ->
  off = zlen pre + Z.of_nat i * Z.of_nat k + o -> 0 <= o -> 0 <= n -> o + n <= Z.of_nat k ->
  rd b off n = Some (take (Z.to_nat n) (drop (Z.to_nat o) c)).
Proof.
  intros -> Hk Hi -> Ho Hn Hb. destruct (concat_slot k chunks i c Hk Hi) as (p & q & -> & Hp).
  assert (length c = k) as Hc by (rewrite Forall_lookup in Hk; eauto).
  rewrite <-!app_assoc, (app_assoc pre p).
  replace (zlen pre + Z.of_nat i * Z.of_nat k + o) with (zlen (pre ++ p) + o) by len.
  apply rd_sub; [done..|]. unfold zlen. lia.
Qed.

(** ** The layout of a built file *)

Section layout.
Context (dim : Z) (entries : list SegEntry).

Definition seg_offsets : bytes := concat (map (le_split 8) (meta_offsets 0 entries)).
Definition seg_times : bytes := concat (map time_bytes (time_entries entries)).
Definition seg_table : bytes := concat (map (entry_bytes dim) entries).
Definition seg_pad : bytes := replicate 72 Byte.x00.
Definition seg_temporal : Z :=
  u32 (sh_metadata_offset (seg_header dim entries 0) + zlen seg_offsets + zlen (meta_blob entries)).
Definition seg_rest : bytes := seg_pad ++ seg_table ++ seg_offsets ++ meta_blob entries ++ seg_times.

(** The footer: the checksum of the file with the first header. *)
Definition seg_footer : Z := Crc32c (header_bytes (seg_header dim entries 0) ++ seg_rest) 0.

Definition seg_file : bytes :=
  header_bytes (seg_header dim entries seg_temporal) ++ seg_rest ++ le_split 4 seg_footer.
End layout.

Lemma length_header h : length (sh_magic h) = 12%nat -> length (header_bytes h) = 56%nat.
Proof. intros H. unfold header_bytes. rewrite !length_app, H, !length_le_split. done. Qed.

Lemma length_seg_header dim es t : length (header_bytes (seg_header dim es t)) = 56%nat.
Proof. by apply length_header. Qed.

Lemma io_Append_ok p c w data fm :
  fm !! p = Some c ->
  io_Append (MkIoFile p (zlen c) w) data (MkFs fm []) =
  (inr (MkIoFile p (zlen (c ++ data)) (u64 (w + zlen data))), MkFs (<[p := c ++ data]> fm) []).
Proof.
  intros H. unfold io_Append. run_fs. cbn [io_path io_pos io_bytes_written write_outcome].
  rewrite H, pwrite_end. do 3 f_equal. len.
Qed.

Lemma append_all_ok p c w chunks fm :
  fm !! p = Some c ->
  exists w', append_all (MkIoFile p (zlen c) w) chunks (MkFs fm []) =
  (inr (MkIoFile p (zlen (c ++ concat chunks)) w'), MkFs (<[p := c ++ concat chunks]> fm) []).
Proof.
  revert c w fm. induction chunks as [|x chunks IH]; intros c w fm H; cbn [append_all concat].
  - exists w. rewrite app_nil_r, insert_id by done. done.
  - rewrite (mbind_ok _ _ _ _ _ (io_Append_ok p c w x fm H)).
    destruct (IH (c ++ x) (u64 (w + zlen x)) (<[p := c ++ x]> fm)) as (w' & ->); [apply lookup_insert_eq|].
    exists w'. by rewrite insert_insert_eq, <-app_assoc.
Qed.

Lemma Crc32c_fold_concat chunks seed :
  is_u32 seed -> fold_left (fun crc c => Crc32c c crc) chunks seed = Crc32c (concat chunks) seed.
Proof.
  revert seed. induction chunks as [|c chunks IH]; intros seed Hs.
  - symmetry. exact (u32_lnot_involutive seed Hs).
  - rewrite fold_left_cons, IH by apply Crc32c_range. cbn [concat]. by rewrite Crc32c_app.
Qed.

Lemma pwrite_head h rest h' : length h = length h' -> pwrite (h ++ rest) 0 h' = h' ++ rest.
Proof. intros Hl. unfold pwrite. change (Z.to_nat 0) with 0%nat. by rewrite take_0, Nat.add_0_l, <-Hl, drop_app_length. Qed.

Lemma io_Pwrite_head p h rest w h' fm :
  fm !! p = Some (h ++ rest) -> length h = length h' ->
  io_Pwrite (MkIoFile p (zlen (h ++ rest)) w) 0 h' (MkFs fm []) =
  (inr (MkIoFile p (zlen (h' ++ rest)) (u64 (w + zlen h'))), MkFs (<[p := h' ++ rest]> fm) []).
Proof.
  intros H Hl. unfold io_Pwrite. run_fs. cbn [io_path io_pos io_bytes_written write_outcome].
  rewrite H, pwrite_head by done. do 3 f_equal. len.
Qed.

(** Building without I/O errors leaves exactly this file. *)
Lemma sb_Finish_ok b fm :
  let entries := merge_sort id_le (sb_entries b) in
  sb_Finish b (MkFs fm []) =
  (inr tt, MkFs (<[sb_path b := seg_file (sb_dim b) entries]> (delete (sb_path b +:+ ".tmp") fm)) []).
Proof.
  intros es. unfold sb_Finish. fold es. set (tmp := sb_path b +:+ ".tmp").
  set (h0 := header_bytes (seg_header (sb_dim b) es 0)).
  change (replicate (Z.to_nat (kEntriesStart - sizeof_SegmentHeader)) Byte.x00) with seg_pad.
  fold (seg_offsets es) (seg_times es) (seg_temporal (sb_dim b) es).
  set (h1 := header_bytes (seg_header (sb_dim b) es (seg_temporal (sb_dim b) es))).
  assert (length h0 = length h1) as Hh by (unfold h0, h1; by rewrite !length_seg_header).
  rewrite (mbind_ok _ _ _ (MkIoFile tmp (zlen (A := byte) []) 0) (MkFs (<[tmp := []]> fm) [])) by done.
  erewrite mbind_ok by (apply io_Append_ok, lookup_insert_eq). rewrite insert_insert_eq. cbn [app].
  erewrite mbind_ok by (apply io_Append_ok, lookup_insert_eq). rewrite insert_insert_eq.
  edestruct (append_all_ok tmp (h0 ++ seg_pad)) as (w & Ew); [apply lookup_insert_eq|].
  erewrite mbind_ok by apply Ew. clear Ew. rewrite insert_insert_eq, <-app_assoc. fold (seg_table (sb_dim b) es).
  erewrite mbind_ok by (apply io_Pwrite_head; [apply lookup_insert_eq|exact Hh]). rewrite insert_insert_eq.
  erewrite mbind_ok by (apply io_Append_ok, lookup_insert_eq). rewrite insert_insert_eq.
  set (c := (h1 ++ seg_pad ++ seg_table (sb_dim b) es) ++ seg_offsets es).
  rewrite Crc32c_fold_concat by apply Crc32c_range. fold (seg_table (sb_dim b) es).
  set (crc := Crc32c (seg_offsets es) _).
  assert (exists w', (if bool_decide (meta_blob es = []) then mret (MkIoFile tmp (zlen c) (u64 (u64 (w + zlen h1) + zlen (seg_offsets es))))
    else io_Append (MkIoFile tmp (zlen c) (u64 (u64 (w + zlen h1) + zlen (seg_offsets es)))) (meta_blob es)) (MkFs (<[tmp := c]> fm) []) =
    (inr (MkIoFile tmp (zlen (c ++ meta_blob es)) w'), MkFs (<[tmp := c ++ meta_blob es]> fm) [])) as (w' & Ew).
  { case_bool_decide as Hb.
    - eexists. rewrite Hb, app_nil_r. reflexivity.
    - eexists. rewrite (io_Append_ok tmp c) by apply lookup_insert_eq. by rewrite insert_insert_eq. }
  erewrite mbind_ok by apply Ew. clear Ew.
  assert ((if bool_decide (meta_blob es = []) then crc else Crc32c (meta_blob es) crc) = Crc32c (meta_blob es) crc) as ->.
  { case_bool_decide as Hb; [|done]. rewrite Hb. symmetry. apply u32_lnot_involutive, Crc32c_range. }
  erewrite mbind_ok by (apply io_Append_ok, lookup_insert_eq). rewrite insert_insert_eq.
  erewrite mbind_ok by (apply io_Append_ok, lookup_insert_eq). rewrite insert_insert_eq.
  do 2 (erewrite mbind_ok by reflexivity). rewrite (fs_rename_ok _ _ _ _ _ (lookup_insert_eq _ _ _)).
  rewrite delete_insert_eq. do 3 f_equal. unfold seg_file, seg_footer, seg_rest, c, crc. fold h0 h1.
  rewrite !Crc32c_app. by rewrite <-!app_assoc.
Qed.

(** ** Sizes *)

Lemma entry_size_spec dim :
  entry_size_of dim = (dim * 4 + 75) / 64 * 64 /\ 12 + dim * 4 <= entry_size_of dim <= dim * 4 + 75.
Proof.
  unfold entry_size_of. replace (8 + 4 + dim * 4 + 63) with (dim * 4 + 75) by lia.
  change (Z.lnot 63) with (Z.lnot (Z.ones 6)). rewrite <-Z.ldiff_land, Z.ldiff_ones_r by lia.
  rewrite Z.shiftl_mul_pow2, Z.shiftr_div_pow2 by lia. change (2 ^ 6) with 64.
  pose proof (Z.div_mod (dim * 4 + 75) 64 ltac:(lia)). pose proof (Z.mod_pos_bound (dim * 4 + 75) 64 ltac:(lia)). lia.
Qed.

(** An entry fits a builder of dimension [dim] and the C++ field types. *)
Record seg_entry_ok (dim : Z) (e : SegEntry) : Prop := {
  eo_id : is_u64 (se_id e);
  eo_vec : se_deleted e = false -> zlen (se_vec e) = dim /\ vec_ok (se_vec e);
  eo_del : se_deleted e = true -> se_vec e = [];
  eo_meta : md_valid (se_meta e)
}.

Definition esz (dim : Z) : nat := Z.to_nat (entry_size_of dim).

Lemma entry_body_length dim e :
  0 <= dim -> seg_entry_ok dim e ->
  length (if se_deleted e then replicate (Z.to_nat (dim * 4)) Byte.x00 else vec_bytes (se_vec e)) = Z.to_nat (dim * 4).
Proof.
  intros Hd He. destruct (se_deleted e) eqn:E; [apply length_replicate|].
  destruct (eo_vec _ _ He E) as [Hv _]. rewrite length_vec_bytes. unfold zlen in Hv. lia.
Qed.

Lemma length_entry_bytes dim e : 0 <= dim -> seg_entry_ok dim e -> length (entry_bytes dim e) = esz dim.
Proof.
  intros Hd He. unfold entry_bytes, esz. pose proof (entry_size_spec dim) as [_ Hs].
  rewrite !length_app, length_replicate, !length_le_split, !(entry_body_length dim e Hd He). cbn [length]. lia.
Qed.

Lemma length_meta_offsets off es : length (meta_offsets off es) = S (length es).
Proof. revert off. induction es as [|e es IH]; intros off; [done|]. cbn. by rewrite IH. Qed.

Lemma le_split_lengths n l : Forall (fun c => length c = n) (map (le_split n) l).
Proof. apply Forall_map, Forall_forall. intros x _. apply length_le_split. Qed.

Lemma length_seg_offsets es : length (seg_offsets es) = (8 * S (length es))%nat.
Proof.
  unfold seg_offsets. rewrite (length_concat_slots 8) by apply le_split_lengths.
  rewrite length_map, length_meta_offsets. lia.
Qed.

Lemma length_time_bytes t : length (time_bytes t) = 16%nat.
Proof. unfold time_bytes. by rewrite !length_app, !length_le_split. Qed.

Section sizes.
Context (dim : Z) (es : list SegEntry) (Hdim : 0 <= dim) (Hok : Forall (seg_entry_ok dim) es).

Lemma table_slots : Forall (fun c => length c = esz dim) (map (entry_bytes dim) es).
Proof using Hdim Hok.
  apply Forall_map. eapply Forall_impl; [exact Hok|]. intros e He. by apply length_entry_bytes.
Qed.

Lemma length_seg_table : length (seg_table dim es) = (length es * esz dim)%nat.
Proof using Hdim Hok.
  unfold seg_table. rewrite (length_concat_slots _ _ table_slots), length_map. done.
Qed.

Lemma seg_file_length :
  zlen (seg_file dim es) =
  128 + zlen es * entry_size_of dim + zlen (seg_offsets es) + zlen (meta_blob es) + zlen (seg_times es) + 4.
Proof using Hdim Hok.
  unfold seg_file, seg_rest, zlen. rewrite !length_app, length_seg_header, length_seg_table, length_le_split.
  unfold seg_pad. rewrite length_replicate. unfold esz. pose proof (entry_size_spec dim) as [_ Hs]. lia.
Qed.
End sizes.

(** ** Opening *)

Lemma le_read_after n off m l k :
  length l = m -> (m <= off)%nat -> le_read n off (l ++ k) = le_read n (off - m) k.
Proof. intros <- H. unfold le_read. by rewrite drop_app_ge. Qed.

Ltac le_skip := repeat first
  [ rewrite (le_read_after _ _ 12) by (done || lia)
  | rewrite (le_read_after _ _ 4) by (apply length_le_split || done || lia) ]; cbn [Nat.sub].

Lemma le_read_1 b rest : le_read 1 0 (b :: rest) = byte.unsigned b.
Proof. unfold le_read. change (take 1 (drop 0 (b :: rest))) with [b]. by destruct b. Qed.

Lemma read_header_bytes h rest :
  length (sh_magic h) = 12%nat -> is_u32 (sh_version h) -> is_u32 (sh_count h) -> is_u32 (sh_dim h) ->
  is_u32 (sh_metadata_offset h) -> 0 <= sh_quant_type h < 256 -> is_u32 (sh_quant_min h) ->
  is_u32 (sh_quant_inv_scale h) -> is_u32 (sh_entries_start_offset h) -> is_u32 (sh_entry_size h) ->
  is_u32 (sh_temporal_index_offset h) -> read_header (header_bytes h ++ rest) = h.
Proof.
  destruct h as [mg v c d mo q qm qi st ez t]. cbn [sh_magic sh_version sh_count sh_dim sh_metadata_offset sh_quant_type sh_quant_min
    sh_quant_inv_scale sh_entries_start_offset sh_entry_size sh_temporal_index_offset].
  intros. unfold read_header, header_bytes. cbn [sh_magic sh_version sh_count sh_dim sh_metadata_offset sh_quant_type sh_quant_min
    sh_quant_inv_scale sh_entries_start_offset sh_entry_size sh_temporal_index_offset]. rewrite <-!app_assoc.
  f_equal; [by apply take_app_len|..]; le_skip; try (apply le_read_app_l; assumption).
  cbn [app]. rewrite le_read_1, byte.unsigned_of_Z. by apply Z.mod_small.
Qed.

Lemma elem_of_StronglySorted_lookup {A} (R : A -> A -> Prop) (l : list A) :
  StronglySorted R l -> forall i j x y, l !! i = Some x -> l !! j = Some y -> (i < j)%nat -> R x y.
Proof.
  induction 1 as [|a l Hs IH Ha]; intros i j x y Hi Hj Hij; [done|].
  destruct i as [|i], j as [|j]; [lia| |lia|].
  - cbn in Hi, Hj. injection Hi as ->. rewrite Forall_lookup in Ha. eauto.
  - cbn in Hi, Hj. eapply IH; eauto. lia.
Qed.

Lemma read_str_at b pre s post cursor :
  b = pre ++ add_str s ++ post -> cursor = zlen pre -> zlen s < 2 ^ 32 ->
  read_str b cursor = Some (s, cursor + 4 + zlen s).
Proof.
  intros -> -> Hs. unfold read_str, add_str. pose proof (zlen_nonneg s).
  rewrite u32_id by (unfold is_u32; lia). rewrite (rd_int_at _ pre 4 (zlen s) (s ++ post)); [|by rewrite <-!app_assoc|done|cbn; lia].
  cbn [mbind option_bind]. rewrite (rd_at' _ (pre ++ le_split 4 (zlen s)) s post); [done|by rewrite <-!app_assoc|len|done].
Qed.

(** Decoding the metadata block of an entry. *)
Definition decode_meta (b : bytes) (p : Z) : option Metadata :=
  src ← rd_int b p 8;
  ts ← rd_int b (p + 8) 8;
  lsn ← rd_int b (p + 16) 8;
  lat ← rd_int b (p + 24) 8;
  lon ← rd_int b (p + 32) 8;
  '(device, c) ← read_str b (p + 40);
  '(location, c) ← read_str b c;
  '(tenant, c) ← read_str b c;
  '(text, c) ← read_str b c;
  '(payload, c) ← read_str b c;
  Some (MkMeta tenant device location src ts lsn text payload lat lon).

Lemma length_add_str s : length (add_str s) = (4 + length s)%nat.
Proof. unfold add_str. by rewrite length_app, length_le_split. Qed.
#[local] Hint Rewrite length_add_str : len.

Lemma decode_meta_bytes b pre m post p :
  b = pre ++ meta_bytes m ++ post -> p = zlen pre -> md_valid m -> decode_meta b p = Some m.
Proof.
  intros -> -> Hm. destruct m as [tn dv lo src ts lsn tx pl lat lon]. destruct Hm; cbn in *. unfold decode_meta, meta_bytes.
  cbn [md_src_vid md_timestamp md_lsn md_lat md_lon md_device_id md_location_id md_tenant md_text md_payload].
  rewrite <-!app_assoc.
  erewrite (rd_int_at _ pre 8 src _ (zlen pre)); [|by rewrite <-?app_assoc|len|assumption]. cbn [mbind option_bind].
  erewrite (rd_int_at _ (pre ++ le_split 8 src) 8 ts _ (zlen pre + 8)); [|by rewrite <-?app_assoc|len|assumption]. cbn [mbind option_bind].
  erewrite (rd_int_at _ (pre ++ le_split 8 src ++ le_split 8 ts) 8 lsn _ (zlen pre + 16)); [|by rewrite <-?app_assoc|len|assumption]. cbn [mbind option_bind].
  erewrite (rd_int_at _ (pre ++ le_split 8 src ++ le_split 8 ts ++ le_split 8 lsn) 8 lat _ (zlen pre + 24)); [|by rewrite <-?app_assoc|len|assumption]. cbn [mbind option_bind].
  erewrite (rd_int_at _ (pre ++ le_split 8 src ++ le_split 8 ts ++ le_split 8 lsn ++ le_split 8 lat) 8 lon _ (zlen pre + 32)); [|by rewrite <-?app_assoc|len|assumption]. cbn [mbind option_bind].
  set (q := pre ++ le_split 8 src ++ le_split 8 ts ++ le_split 8 lsn ++ le_split 8 lat ++ le_split 8 lon).
  erewrite (read_str_at _ q dv); [|unfold q; by rewrite <-?app_assoc|unfold q; len|assumption]. cbn [mbind option_bind].
  erewrite (read_str_at _ (q ++ add_str dv) lo); [|unfold q; by rewrite <-?app_assoc|unfold q; len|assumption]. cbn [mbind option_bind].
  erewrite (read_str_at _ (q ++ add_str dv ++ add_str lo) tn); [|unfold q; by rewrite <-?app_assoc|unfold q; len|assumption]. cbn [mbind option_bind].
  erewrite (read_str_at _ (q ++ add_str dv ++ add_str lo ++ add_str tn) tx); [|unfold q; by rewrite <-?app_assoc|unfold q; len|assumption]. cbn [mbind option_bind].
  erewrite (read_str_at _ (q ++ add_str dv ++ add_str lo ++ add_str tn ++ add_str tx) pl); [|unfold q; by rewrite <-?app_assoc|unfold q; len|assumption]. done.
Qed.

(** A segment whose entries are valid and whose file is below 4 GiB, the range
    of the 32-bit offsets in the header. *)
Record seg_ok (dim : Z) (es : list SegEntry) : Prop := {
  so_dim : 0 <= dim;
  so_esz : entry_size_of dim < 2 ^ 32;
  so_size : zlen (seg_file dim es) < 2 ^ 32;
  so_entries : Forall (seg_entry_ok dim) es
}.

(** The reader over a built file. *)
Definition built_reader (p : path) (dim : Z) (es : list SegEntry) : SegmentReader :=
  MkReader p (seg_file dim es) (zlen es) dim (entry_size_of dim) 128 (128 + zlen es * entry_size_of dim)
    (128 + zlen es * entry_size_of dim + zlen (seg_offsets es) + zlen (meta_blob es)) 0.

Section built.
Context (dim : Z) (es : list SegEntry) (Hseg : seg_ok dim es) (p : path).

Lemma seg_bounds :
  0 <= dim < 2 ^ 30 /\ 12 + 4 * dim <= entry_size_of dim /\ 0 <= zlen es < 2 ^ 32 - 1 /\
  128 + zlen es * entry_size_of dim + zlen (seg_offsets es) + zlen (meta_blob es) + zlen (seg_times es) + 4 < 2 ^ 32.
Proof using Hseg.
  destruct Hseg as [H1 H2 H3 H4]. rewrite (seg_file_length dim es H1 H4) in H3.
  pose proof (entry_size_spec dim) as [_ Hs].
  pose proof (zlen_nonneg es). pose proof (zlen_nonneg (meta_blob es)). pose proof (zlen_nonneg (seg_times es)).
  pose proof (zlen_nonneg (seg_offsets es)). nia.
Qed.

Lemma seg_header_fields :
  sh_count (seg_header dim es 0) = zlen es /\
  sh_metadata_offset (seg_header dim es 0) = 128 + zlen es * entry_size_of dim /\
  sh_entry_size (seg_header dim es 0) = entry_size_of dim /\
  seg_temporal dim es = 128 + zlen es * entry_size_of dim + zlen (seg_offsets es) + zlen (meta_blob es).
Proof using Hseg.
  destruct seg_bounds as (Hd & He & Hc & Hf). unfold kEntriesStart.
  pose proof (zlen_nonneg (meta_blob es)). pose proof (zlen_nonneg (seg_times es)). pose proof (zlen_nonneg (seg_offsets es)).
  assert (u32 (128 + zlen es * entry_size_of dim) = 128 + zlen es * entry_size_of dim) as Hm
    by (apply u32_id; unfold is_u32; nia).
  unfold seg_temporal. cbn [seg_header sh_count sh_metadata_offset sh_entry_size]. unfold kEntriesStart. rewrite Hm.
  split_and!; [apply u32_id; unfold is_u32; lia|done|apply u32_id; unfold is_u32; destruct Hseg; lia|].
  apply u32_id. unfold is_u32. nia.
Qed.

Lemma open_mapped_built : open_mapped p (seg_file dim es) = inr (built_reader p dim es).
Proof using Hseg.
  destruct seg_bounds as (Hd & He & Hc & Hf). destruct seg_header_fields as (F1 & F2 & F3 & F4).
  pose proof (seg_file_length dim es (so_dim _ _ Hseg) (so_entries _ _ Hseg)) as Hlen.
  pose proof (zlen_nonneg (meta_blob es)). pose proof (zlen_nonneg (seg_times es)). pose proof (zlen_nonneg (seg_offsets es)).
  unfold open_mapped. rewrite (proj2 (Z.ltb_ge _ _)) by (unfold sizeof_SegmentHeader; nia).
  assert (read_header (seg_file dim es) = seg_header dim es (seg_temporal dim es)) as ->.
  { unfold seg_file. apply read_header_bytes; try apply u32_range; try done;
      cbn [seg_header sh_dim sh_quant_min]; unfold is_u32; lia. }
  cbn [seg_header sh_magic sh_version sh_count sh_dim sh_metadata_offset sh_quant_type sh_entries_start_offset
    sh_entry_size sh_temporal_index_offset] in *.
  rewrite bool_decide_eq_true_2 by done. cbn [negb Z.ltb Z.leb Z.compare Pos.compare Pos.compare_cont orb].
  rewrite F1, F2, F3, (proj2 (Z.ltb_ge _ _)) by (unfold kEntriesStart; lia).
  unfold built_reader. by rewrite F4.
Qed.

(** ** The entry table *)

Lemma seg_file_table :
  seg_file dim es = (header_bytes (seg_header dim es (seg_temporal dim es)) ++ seg_pad) ++
    concat (map (entry_bytes dim) es) ++
    (seg_offsets es ++ meta_blob es ++ seg_times es ++ le_split 4 (seg_footer dim es)).
Proof. unfold seg_file, seg_rest, seg_table. by rewrite <-!app_assoc. Qed.

Lemma rd_entry i e o n :
  es !! i = Some e -> 0 <= o -> 0 <= n -> o + n <= entry_size_of dim ->
  rd (seg_file dim es) (128 + Z.of_nat i * entry_size_of dim + o) n =
  Some (take (Z.to_nat n) (drop (Z.to_nat o) (entry_bytes dim e))).
Proof using Hseg.
  intros Hi Ho Hn Hb. destruct seg_bounds as (Hd & He & _).
  assert (Z.of_nat (esz dim) = entry_size_of dim) as Hz by (unfold esz; lia).
  eapply (rd_slot _ _ (map (entry_bytes dim) es) _ (esz dim) i); [apply seg_file_table|..|rewrite Hz|done|done|rewrite Hz; done].
  - apply table_slots; apply Hseg.
  - rewrite list_lookup_fmap, Hi. done.
  - unfold zlen. rewrite length_app, length_seg_header. unfold seg_pad. rewrite length_replicate. lia.
Qed.

Lemma rd_entry_id i e :
  es !! i = Some e -> rd_int (seg_file dim es) (128 + Z.of_nat i * entry_size_of dim) 8 = Some (se_id e).
Proof using Hseg.
  intros Hi. destruct seg_bounds as (Hd & He & _). unfold rd_int.
  rewrite <-(Z.add_0_r (128 + _)), (rd_entry i e) by (done || lia). cbn [fmap option_fmap option_map].
  f_equal. unfold entry_bytes. rewrite <-!app_assoc, drop_0, take_app_len by len.
  apply le_combine_split_id. eapply Forall_lookup_1 in Hi; [|apply (so_entries _ _ Hseg)]. apply Hi.
Qed.

Lemma rd_entry_flags i e :
  es !! i = Some e ->
  exists fl, rd_int (seg_file dim es) (128 + Z.of_nat i * entry_size_of dim + 8) 1 = Some fl /\ Z.testbit fl 0 = se_deleted e.
Proof using Hseg.
  intros Hi. destruct seg_bounds as (Hd & He & _). unfold rd_int.
  rewrite (rd_entry i e) by (done || lia). eexists. split; [done|].
  unfold entry_bytes. rewrite <-!app_assoc, drop_app_len by len.
  change (Z.to_nat 1) with 1%nat. cbn [app take].
  by destruct (se_deleted e).
Qed.

Lemma rd_entry_vec i e :
  es !! i = Some e -> se_deleted e = false ->
  exists b, rd (seg_file dim es) (128 + Z.of_nat i * entry_size_of dim + 12) (dim * 4) = Some b /\
    read_vec (Z.to_nat dim) b = se_vec e /\ b = vec_bytes (se_vec e).
Proof using Hseg.
  intros Hi Hdel. destruct seg_bounds as (Hd & He & _). rewrite (rd_entry i e) by (done || lia).
  eapply Forall_lookup_1 in Hi as Hok; [|apply (so_entries _ _ Hseg)]. destruct (eo_vec _ _ Hok Hdel) as [Hv Hvok].
  eexists. split; [done|]. unfold entry_bytes. rewrite Hdel.
  set (pad := replicate _ _). clearbody pad.
  rewrite (app_assoc (le_split 8 (se_id e))), <-app_assoc. rewrite drop_app_len by len.
  assert (length (vec_bytes (se_vec e)) = Z.to_nat (dim * 4)) as Hl by (rewrite length_vec_bytes; unfold zlen in Hv; lia).
  rewrite take_app_len by done. split; [|done].
  rewrite <-(app_nil_r (vec_bytes _)). replace (Z.to_nat dim) with (length (se_vec e)) by (unfold zlen in Hv; lia).
  by apply read_vec_bytes.
Qed.

(** ** The search *)

Definition find_result (i : nat) (e : SegEntry) : FindResult :=
  if se_deleted e then kFoundTombstone else kFound (128 + Z.of_nat i * entry_size_of dim + 12).

Lemma find_loop_spec id fuel left right :
  StronglySorted (fun a b => se_id a < se_id b) es ->
  0 <= left <= right + 1 -> right < zlen es -> right - left + 1 < Z.of_nat fuel ->
  (forall i e, es !! i = Some e -> (Z.of_nat i < left -> se_id e < id) /\ (right < Z.of_nat i -> id < se_id e)) ->
  (exists i e, es !! i = Some e /\ se_id e = id /\
     find_loop fuel (built_reader p dim es) id left right = Some (find_result i e, Z.of_nat i)) \/
  ((forall i e, es !! i = Some e -> se_id e <> id) /\
     find_loop fuel (built_reader p dim es) id left right = Some (kNotFound, 0)).
Proof using Hseg.
  intros Hsort. revert left right. induction fuel as [|fuel IH]; intros left right Hl Hr Hf Hinv; [lia|].
  cbn [find_loop]. destruct (Z.leb_spec left right) as [Hlr|Hlr].
  2:{ right. split; [|done]. intros i e Hi. destruct (Hinv i e Hi). destruct (Z.lt_ge_cases (Z.of_nat i) left); [lia|].
      specialize (H0 ltac:(lia)). lia. }
  assert (left <= left + (right - left) / 2 <= right) as Hmid.
  { pose proof (Z.div_pos (right - left) 2). pose proof (Z.div_le_upper_bound (right - left) 2 (right - left)). lia. }
  remember (left + (right - left) / 2) as mid eqn:Hm. clear Hm.
  destruct (Z_of_nat_complete mid ltac:(lia)) as [k ->].
  destruct (lookup_lt_is_Some_2 es k) as [e He]; [unfold zlen in Hr; lia|].
  cbn [built_reader sr_entries_start_offset sr_entry_size sr_data].
  rewrite (rd_entry_id _ _ He). cbn [mbind option_bind].
  destruct (Z.eqb_spec (se_id e) id) as [Heq|Hne].
  { destruct (rd_entry_flags _ _ He) as (fl & -> & Hfl). cbn [mbind option_bind]. left. exists k, e.
    split_and!; [done..|]. unfold find_result. rewrite Hfl. by destruct (se_deleted e). }
  destruct (Z.ltb_spec (se_id e) id) as [Hlt|Hge].
  - apply IH; [lia..|]. intros i e' Hi. split; [|apply (Hinv i e' Hi)]. intros Him.
    destruct (decide (i = k)) as [->|]; [congruence|].
    pose proof (elem_of_StronglySorted_lookup _ _ Hsort i k e' e Hi He). lia.
  - apply IH; [lia..|]. intros i e' Hi. split; [apply (Hinv i e' Hi)|]. intros Him.
    destruct (decide (i = k)) as [->|]; [assert (e' = e) as -> by congruence; lia|].
    pose proof (elem_of_StronglySorted_lookup _ _ Hsort k i e e' He Hi). lia.
Qed.

(** ** Metadata *)

Lemma meta_offsets_lookup off l i :
  (i <= length l)%nat -> meta_offsets off l !! i = Some (off + zlen (meta_blob (take i l))).
Proof.
  revert off i. induction l as [|e l IH]; intros off i Hi.
  - assert (i = 0)%nat as -> by (cbn in Hi; lia). cbn. unfold zlen. cbn. f_equal. lia.
  - destruct i as [|i]; [unfold zlen; cbn; f_equal; lia|]. cbn [meta_offsets take]. cbn in Hi.
    change ((off :: ?x) !! S i) with (x !! i). rewrite IH by lia. f_equal. unfold meta_blob. cbn [map concat]. len.
Qed.

Lemma meta_offsets_range off l i z : 0 <= off -> meta_offsets off l !! i = Some z -> 0 <= z <= off + zlen (meta_blob l).
Proof.
  intros Ho Hi. assert (i <= length l)%nat as Hl.
  { apply lookup_lt_Some in Hi. rewrite length_meta_offsets in Hi. lia. }
  rewrite meta_offsets_lookup in Hi by done. injection Hi as <-.
  assert (zlen (meta_blob (take i l)) <= zlen (meta_blob l)).
  { unfold meta_blob. rewrite <-(take_drop i l) at 2. rewrite map_app, concat_app. len. }
  pose proof (zlen_nonneg (meta_blob (take i l))). lia.
Qed.

Lemma seg_file_offsets :
  exists pre, seg_file dim es = pre ++ seg_offsets es ++ (meta_blob es ++ seg_times es ++ le_split 4 (seg_footer dim es)) /\
    zlen pre = 128 + zlen es * entry_size_of dim.
Proof using Hseg.
  exists ((header_bytes (seg_header dim es (seg_temporal dim es)) ++ seg_pad) ++ seg_table dim es). split.
  - rewrite seg_file_table. by rewrite <-!app_assoc.
  - unfold zlen. rewrite !length_app, length_seg_header, (length_seg_table dim es) by apply Hseg.
    unfold seg_pad, esz. rewrite length_replicate. pose proof (entry_size_spec dim) as [_ ?].
    destruct seg_bounds as (? & ? & _). lia.
Qed.

Lemma rd_offset i :
  (i <= length es)%nat ->
  rd_int (seg_file dim es) (128 + zlen es * entry_size_of dim + Z.of_nat i * 8) 8 = Some (zlen (meta_blob (take i es))).
Proof using Hseg.
  intros Hi. destruct seg_file_offsets as (pre & E & Hpre). destruct seg_bounds as (_ & _ & _ & Hf).
  pose proof (meta_offsets_lookup 0 es i Hi) as Ho. pose proof (meta_offsets_range 0 es i _ ltac:(lia) Ho) as Hr.
  unfold rd_int. erewrite (rd_slot _ pre (map (le_split 8) (meta_offsets 0 es)) _ 8 i _ 0);
    [|exact E|apply le_split_lengths|by rewrite list_lookup_fmap, Ho|rewrite Hpre; lia|lia..].
  cbn [fmap option_fmap option_map]. change (Z.to_nat 8) with 8%nat. rewrite drop_0, take_ge by (rewrite length_le_split; lia).
  rewrite le_combine_split_id; [f_equal; lia|].
  pose proof (zlen_nonneg (seg_times es)). pose proof (zlen_nonneg (seg_offsets es)).
  destruct seg_bounds as (? & ? & ? & _). cbn. nia.
Qed.

Lemma meta_blob_split i e :
  es !! i = Some e ->
  meta_blob es = meta_blob (take i es) ++ meta_bytes (se_meta e) ++ meta_blob (drop (S i) es).
Proof.
  intros Hi. unfold meta_blob. rewrite <-(take_drop_middle es i e Hi) at 1. by rewrite map_app, concat_app.
Qed.

Lemma meta_bytes_pos m : 60 <= zlen (meta_bytes m).
Proof. unfold meta_bytes, zlen. rewrite !length_app, !length_le_split, !length_add_str. lia. Qed.

Lemma sr_GetMetadata_built i e out :
  es !! i = Some e -> sr_GetMetadata (built_reader p dim es) (Z.of_nat i) out = Some (se_meta e).
Proof using Hseg.
  intros Hi. pose proof (lookup_lt_Some _ _ _ Hi) as Hlt. destruct seg_bounds as (Hd & He & Hc & Hf).
  unfold sr_GetMetadata. cbn [built_reader sr_metadata_offset sr_count sr_data].
  rewrite (proj2 (Z.eqb_neq _ _)) by nia. rewrite (proj2 (Z.leb_gt _ _)) by (unfold zlen; lia). cbn [orb].
  rewrite rd_offset by lia. cbn [mbind option_bind].
  rewrite (u32_id (Z.of_nat i + 1)) by (unfold is_u32; unfold zlen in Hc; lia).
  replace (Z.of_nat i + 1) with (Z.of_nat (S i)) by lia. rewrite rd_offset by lia. cbn [mbind option_bind].
  rewrite (meta_blob_split i e Hi) in Hf.
  assert (zlen (meta_blob (take (S i) es)) = zlen (meta_blob (take i es)) + zlen (meta_bytes (se_meta e))) as HS.
  { rewrite (take_S_r _ _ _ Hi). unfold meta_blob. rewrite map_app, concat_app. cbn. rewrite app_nil_r. len. }
  rewrite HS. pose proof (meta_bytes_pos (se_meta e)). rewrite (proj2 (Z.ltb_lt _ _)) by lia.
  rewrite u32_id by (unfold is_u32; lia).
  destruct seg_file_offsets as (pre & E & Hpre).
  eapply (decode_meta_bytes _ (pre ++ seg_offsets es ++ meta_blob (take i es))).
  - rewrite E, (meta_blob_split i e Hi). by rewrite <-!app_assoc.
  - unfold zlen in *. rewrite !length_app, length_seg_offsets. lia.
  - eapply Forall_lookup_1 in Hi; [|apply (so_entries _ _ Hseg)]. apply Hi.
Qed.

(** Reading an entry by index. *)
Lemma sr_ReadAt_entry i e out :
  es !! i = Some e ->
  sr_ReadAt (built_reader p dim es) (Z.of_nat i) out = Some (inr (se_id e, se_vec e, se_deleted e, se_meta e)).
Proof using Hseg.
  intros Hi. unfold sr_ReadAt. cbn [built_reader sr_count sr_entries_start_offset sr_entry_size sr_data sr_quant_type sr_dim].
  change (0 =? kNone_q) with true. cbn [negb]. pose proof (lookup_lt_Some _ _ _ Hi).
  rewrite (proj2 (Z.leb_gt _ _)) by (unfold zlen; lia).
  rewrite (rd_entry_id i e Hi). destruct (rd_entry_flags i e Hi) as (fl & -> & Hfl).
  cbn [mbind option_bind]. rewrite Hfl, orb_false_r, (sr_GetMetadata_built i e) by done.
  pose proof Hi as Hok. eapply Forall_lookup_1 in Hok; [|apply (so_entries _ _ Hseg)].
  destruct (se_deleted e) eqn:Hdel; [by rewrite (eo_del _ _ Hok Hdel)|].
  destruct (rd_entry_vec i e Hi Hdel) as (b & -> & Hb & _). cbn [mbind option_bind]. by rewrite Hb.
Qed.

(** The whole lookup. *)
Lemma sr_FindRaw_built id out :
  StronglySorted (fun a b => se_id a < se_id b) es ->
  sr_FindRaw (built_reader p dim es) id out =
  Some (match list_find (fun e => se_id e = id) es with
        | Some (i, e) => (find_result i e, se_meta e)
        | None => (kNotFound, out)
        end).
Proof using Hseg.
  intros Hsort. unfold sr_FindRaw. cbn [sr_count built_reader]. fold (built_reader p dim es).
  destruct (Z.eqb_spec (zlen es) 0) as [H0|H0].
  { destruct es; [done|unfold zlen in H0; cbn in H0; lia]. }
  destruct (find_loop_spec id (S (Z.to_nat (zlen es))) 0 (zlen es - 1) Hsort) as [(i & e & Hi & Hid & ->)|[Hno ->]].
  - pose proof (zlen_nonneg es). lia.
  - lia.
  - lia.
  - intros i e Hi. apply lookup_lt_Some in Hi. unfold zlen. split; lia.
  - assert (list_find (fun e => se_id e = id) es = Some (i, e)) as ->.
    { apply list_find_Some. split_and!; [done..|]. intros j y Hj Hji.
      pose proof (elem_of_StronglySorted_lookup _ _ Hsort j i y e Hj Hi Hji) as Hlt. cbn beta in Hlt. lia. }
    unfold find_result. destruct (se_deleted e) eqn:Hdel; cbn [mbind option_bind];
      by rewrite (sr_GetMetadata_built i e).
  - assert (list_find (fun e => se_id e = id) es = None) as ->; [|done].
    apply list_find_None, Forall_lookup. intros i e Hi. by eapply Hno.
Qed.

Lemma sr_Find_built id out :
  StronglySorted (fun a b => se_id a < se_id b) es ->
  sr_Find (built_reader p dim es) id out =
  Some (match list_find (fun e => se_id e = id) es with
        | Some (_, e) => (if se_deleted e then FVTombstone else FVFound (se_vec e), se_meta e)
        | None => (FVNone, out)
        end).
Proof using Hseg.
  intros Hsort. unfold sr_Find. cbn [built_reader sr_quant_type]. rewrite Z.eqb_refl. cbn [negb].
  fold (built_reader p dim es). rewrite sr_FindRaw_built by done.
  destruct (list_find _ es) as [[i e]|] eqn:Ef; [|done]. apply list_find_Some in Ef as (Hi & _ & _).
  cbn [mbind option_bind]. unfold find_result. destruct (se_deleted e) eqn:Hdel; [done|].
  destruct (rd_entry_vec i e Hi Hdel) as (b & Hb & Hv & _). cbn [built_reader sr_data sr_dim]. rewrite Hb. cbn. by rewrite Hv.
Qed.

Lemma sr_Get_built id out :
  StronglySorted (fun a b => se_id a < se_id b) es ->
  sr_Get (built_reader p dim es) id out =
  Some (match list_find (fun e => se_id e = id) es with
        | Some (_, e) => if se_deleted e then inl (NotFound "tombstone") else inr (vec_bytes (se_vec e), se_meta e)
        | None => inl (NotFound "id not found in segment")
        end).
Proof using Hseg.
  intros Hsort. unfold sr_Get. rewrite sr_FindRaw_built by done.
  destruct (list_find _ es) as [[i e]|] eqn:Ef; [|done]. apply list_find_Some in Ef as (Hi & _ & _).
  cbn [mbind option_bind]. unfold find_result. destruct (se_deleted e) eqn:Hdel; [done|].
  destruct (rd_entry_vec i e Hi Hdel) as (b & Hb & _ & ->). cbn [built_reader sr_data sr_dim sr_quant_type].
  change (quant_vec_bytes 0 dim) with (dim * 4). by rewrite Hb.
Qed.
End built.

(** ** Sorting *)

#[global] Instance id_le_total : Total id_le.
Proof. intros a b. unfold id_le. lia. Qed.
#[global] Instance id_le_trans : Transitive id_le.
Proof. intros a b c. unfold id_le. lia. Qed.

Lemma sorted_strict l :
  NoDup (se_id <$> l) -> StronglySorted id_le l -> StronglySorted (fun a b => se_id a < se_id b) l.
Proof.
  intros Hnd Hs. induction Hs as [|e l Hs IH He]; [constructor|]. cbn in Hnd. apply NoDup_cons in Hnd as [Hn Hnd].
  constructor; [by apply IH|]. rewrite Forall_forall in He |- *. intros x Hx. specialize (He x Hx). unfold id_le in He.
  assert (se_id e <> se_id x); [|lia]. intros E. apply Hn. rewrite E. by apply list_elem_of_fmap_2.
Qed.

(** The entries of a builder in the order of the file. *)
Definition sorted_entries (b : SegmentBuilder) : list SegEntry := merge_sort id_le (sb_entries b).

Lemma sorted_entries_perm b : sorted_entries b ≡ₚ sb_entries b.
Proof. apply merge_sort_Permutation. Qed.

Lemma sorted_entries_strict b :
  NoDup (se_id <$> sb_entries b) -> StronglySorted (fun a b => se_id a < se_id b) (sorted_entries b).
Proof.
  intros H. apply sorted_strict; [|apply StronglySorted_merge_sort; apply _].
  by rewrite sorted_entries_perm.
Qed.

Lemma sr_Open_built p dim es fm :
  seg_ok dim es -> fm !! p = Some (seg_file dim es) ->
  sr_Open p (MkFs fm []) = (inr (built_reader p dim es), MkFs fm []).
Proof.
  intros Hok Hp. unfold sr_Open. rewrite (mbind_ok _ _ _ (seg_file dim es) (MkFs fm [])).
  - unfold of_sum. by rewrite open_mapped_built.
  - unfold io_NewMemoryMappedFile, io_open, io_call. run_fs. rewrite Hp.
    pose proof (seg_file_length dim es (so_dim _ _ Hok) (so_entries _ _ Hok)) as Hl.
    pose proof (entry_size_spec dim) as [_ ?]. pose proof (so_dim _ _ Hok). pose proof (zlen_nonneg es).
    pose proof (zlen_nonneg (meta_blob es)). pose proof (zlen_nonneg (seg_times es)). pose proof (zlen_nonneg (seg_offsets es)).
    by rewrite (proj2 (Z.eqb_neq _ _)) by nia.
Qed.

(** What a lookup of an entry returns. *)
Definition entry_view (e : SegEntry) : FoundVec := if se_deleted e then FVTombstone else FVFound (se_vec e).

(** C28. Round trip of a segment: a builder with distinct ids finishes, the file
    opens, and a lookup of any id returns the vector, the tombstone and the
    metadata that were added, and nothing for an id that was not. *)
Theorem segment_build_find_roundtrip b fm :
  NoDup (se_id <$> sb_entries b) -> seg_ok (sb_dim b) (sorted_entries b) ->
  exists fm' r,
    sb_Finish b (MkFs fm []) = (inr tt, MkFs fm' []) /\
    sr_Open (sb_path b) (MkFs fm' []) = (inr r, MkFs fm' []) /\
    sr_count r = zlen (sb_entries b) /\
    (forall e out, e ∈ sb_entries b -> sr_Find r (se_id e) out = Some (entry_view e, se_meta e)) /\
    (forall id out, id ∉ se_id <$> sb_entries b -> sr_Find r id out = Some (FVNone, out)).
Proof.
  intros Hnd Hok. pose proof (sorted_entries_strict b Hnd) as Hs.
  do 2 eexists. split; [apply sb_Finish_ok|]. split; [by apply sr_Open_built, lookup_insert_eq|].
  fold (sorted_entries b). split_and!.
  - cbn. unfold zlen. by rewrite (sorted_entries_perm b).
  - intros e out He. rewrite <-sorted_entries_perm in He. apply list_elem_of_lookup in He as [i Hi].
    rewrite sr_Find_built by done.
    assert (list_find (fun x => se_id x = se_id e) (sorted_entries b) = Some (i, e)) as ->; [|done].
    apply list_find_Some. split_and!; [done..|]. intros j y Hj Hji E.
    pose proof (elem_of_StronglySorted_lookup _ _ Hs j i y e Hj Hi Hji) as Hlt. cbn beta in Hlt. lia.
  - intros id out Hid. rewrite sr_Find_built by done.
    assert (list_find (fun x => se_id x = id) (sorted_entries b) = None) as ->; [|done].
    apply list_find_None, Forall_forall. intros e He E. apply Hid. rewrite <-E, <-sorted_entries_perm.
    by apply list_elem_of_fmap_2.
Qed.

Definition test_builder : SegmentBuilder :=
  MkBuilder "s.dat" 2
    [MkSegEntry 7 [1; 2] false (MkMeta (bstr "t") [] [] 0 5 9 (bstr "hello") [] 0 0);
     MkSegEntry 3 [] true md_default;
     MkSegEntry (2 ^ 64 - 1) [0x3F800000; 0] false md_default].

Lemma test_builder_ok : NoDup (se_id <$> sb_entries test_builder) /\ seg_ok (sb_dim test_builder) (sorted_entries test_builder).
Proof.
  split; [apply (bool_decide_unpack _); vm_compute; exact I|].
  constructor; [vm_compute; congruence|vm_compute; reflexivity|vm_compute; reflexivity|].
  rewrite (sorted_entries_perm test_builder).
  repeat (apply Forall_cons; split); [..|by apply Forall_nil_2];
    (constructor; [vm_compute; split; congruence| | |]; cbn; [try done|try done|]).
  all: try (intros _; split; [reflexivity|]; repeat (apply Forall_cons; split); try apply Forall_nil_2; vm_compute; split; congruence).
  all: constructor; vm_compute; try (split; congruence); reflexivity.
Qed.

Lemma segment_build_find_roundtrip_witness :
  exists fm' r, sr_Open "s.dat" (MkFs fm' []) = (inr r, MkFs fm' []) /\
    sr_Find r (2 ^ 64 - 1) md_default = Some (FVFound [0x3F800000; 0], md_default) /\
    sr_Find r 3 md_default = Some (FVTombstone, md_default) /\ sr_Find r 4 md_default = Some (FVNone, md_default).
Proof.
  destruct (segment_build_find_roundtrip test_builder ∅ (proj1 test_builder_ok) (proj2 test_builder_ok))
    as (fm' & r & _ & E & _ & H1 & H2). exists fm', r. split; [exact E|]. split; [|split].
  - apply (H1 (MkSegEntry (2 ^ 64 - 1) [0x3F800000; 0] false md_default)). right; right; left.
  - apply (H1 (MkSegEntry 3 [] true md_default)). right; left.
  - apply (H2 4). apply (bool_decide_unpack _). vm_compute. exact I.
Defined.

(** ** Arbitrary files *)

Lemma rd_in_bounds b off n : 0 <= off -> off + n <= zlen b -> is_Some (rd b off n).
Proof. intros H1 H2. unfold rd. rewrite (proj2 (Z.leb_le _ _)), (proj2 (Z.leb_le _ _)) by done. by eexists. Qed.

(** What [Open] has checked. *)
Lemma open_mapped_inv p data r :
  open_mapped p data = inr r ->
  sr_data r = data /\ 0 <= sr_count r /\ 0 <= sr_dim r /\ 0 <= sr_entries_start_offset r /\
  sr_entries_start_offset r + sr_count r * sr_entry_size r + 4 <= zlen data.
Proof.
  unfold open_mapped. intros E. destruct (zlen data <? _); [done|]. destruct (negb _); [done|]. destruct (_ || _); [done|].
  destruct (Z.ltb_spec (zlen data)
    ((if 5 <=? sh_version (read_header data) then sh_entries_start_offset (read_header data) else sizeof_SegmentHeader) +
     sh_count (read_header data) *
     (if 5 <=? sh_version (read_header data) then sh_entry_size (read_header data)
      else 8 + 4 + (if (if 4 <=? sh_version (read_header data) then sh_quant_type (read_header data) else kNone_q) =? kNone_q
                    then sh_dim (read_header data) * 4
                    else quant_vec_bytes (if 4 <=? sh_version (read_header data) then sh_quant_type (read_header data) else kNone_q)
                           (sh_dim (read_header data)))) + 4)) as [Hlt|Hge]; [done|].
  injection E as <-. cbn [sr_data sr_count sr_dim sr_entries_start_offset sr_entry_size].
  split_and!; [done|apply le_read_bound|apply le_read_bound| |done].
  destruct (5 <=? _); [apply le_read_bound|unfold sizeof_SegmentHeader; lia].
Qed.

(** The search stays inside the mapping and ends, sorted or not. *)
Lemma find_loop_safe r id fuel left right :
  0 <= left <= right + 1 -> right < sr_count r -> right - left + 1 < Z.of_nat fuel ->
  0 <= sr_entries_start_offset r -> 12 + sr_dim r * 4 <= sr_entry_size r -> 0 <= sr_dim r ->
  sr_entries_start_offset r + sr_count r * sr_entry_size r <= zlen (sr_data r) ->
  exists res mid, find_loop fuel r id left right = Some (res, mid) /\
    forall p, res = kFound p -> is_Some (rd (sr_data r) p (sr_dim r * 4)).
Proof.
  intros Hl Hr Hf Hs He Hd Hz. revert left right Hl Hr Hf. induction fuel as [|fuel IH]; intros left right Hl Hr Hf; [lia|].
  cbn [find_loop]. destruct (Z.leb_spec left right) as [Hlr|Hlr]; [|by exists kNotFound, 0].
  assert (left <= left + (right - left) / 2 <= right) as Hmid.
  { pose proof (Z.div_pos (right - left) 2). pose proof (Z.div_le_upper_bound (right - left) 2 (right - left)). lia. }
  remember (left + (right - left) / 2) as mid eqn:Hm. clear Hm.
  set (p := sr_entries_start_offset r + mid * sr_entry_size r).
  assert (0 <= p /\ p + sr_entry_size r <= zlen (sr_data r)) as [Hp Hpz] by (unfold p; nia).
  unfold rd_int. destruct (rd_in_bounds (sr_data r) p 8) as [b1 ->]; [lia..|]. cbn [fmap option_fmap option_map mbind option_bind].
  destruct (_ =? id).
  - destruct (rd_in_bounds (sr_data r) (p + 8) 1) as [b2 ->]; [lia..|]. cbn [fmap option_fmap option_map mbind option_bind].
    destruct (Z.testbit _ 0); [by exists kFoundTombstone, mid|]. exists (kFound (p + 12)), mid. split; [done|].
    intros q [= <-]. apply rd_in_bounds; lia.
  - destruct (_ <? id); apply IH; lia.
Qed.

(** Safety on any bytes: whatever a file contains, if [Open] accepts it and
    the entries are as wide as the reader assumes, the binary search ends within
    [count_ + 1] rounds, every read of an id, of flags and of a found vector is
    inside the mapping, also when the entries are not sorted. *)
Theorem segment_search_in_bounds p data r id :
  open_mapped p data = inr r -> 0 < sr_count r -> 12 + sr_dim r * 4 <= sr_entry_size r ->
  exists res mid, find_loop (S (Z.to_nat (sr_count r))) r id 0 (sr_count r - 1) = Some (res, mid) /\
    forall p, res = kFound p -> is_Some (rd (sr_data r) p (sr_dim r * 4)).
Proof.
  intros E Hc He. destruct (open_mapped_inv p data r E) as (Hdata & _ & Hd & Hs & Hz). rewrite <-Hdata in Hz.
  apply find_loop_safe; lia.
Qed.

(** A header of version 6 with the given fields and four more bytes. *)
Definition crafted (count entry_size metadata_offset : Z) : bytes :=
  header_bytes (MkHeader kMagic 6 count 1 metadata_offset 0 0 0 56 entry_size 0) ++ replicate 20 Byte.x00.

Definition crafted_reader : SegmentReader := MkReader "s.dat" (crafted 1 16 0) 1 1 16 56 0 0 0.

Lemma segment_search_in_bounds_witness :
  open_mapped "s.dat" (crafted 1 16 0) = inr crafted_reader /\
  exists res mid, find_loop (S (Z.to_nat (sr_count crafted_reader))) crafted_reader 5 0 (sr_count crafted_reader - 1) = Some (res, mid) /\
    forall p, res = kFound p -> is_Some (rd (sr_data crafted_reader) p (sr_dim crafted_reader * 4)).
Proof.
  split; [vm_compute; reflexivity|].
  apply (segment_search_in_bounds "s.dat" (crafted 1 16 0) crafted_reader 5); vm_compute; [reflexivity|reflexivity|congruence].
Defined.

(** What [Open] does not check: it accepts a file whose entries are narrower
    than an entry header, and one whose metadata lies outside the file; the
    lookups then read outside the mapping. *)
Theorem segment_open_misses_bounds :
  (let data := take 60 (crafted 30 0 0) in let r := MkReader "s.dat" data 30 1 0 56 0 0 0 in
   open_mapped "s.dat" data = inr r /\ sr_FindRaw r 5 md_default = None) /\
  (let data := crafted 1 16 1000 in let r := MkReader "s.dat" data 1 1 16 56 1000 0 0 in
   open_mapped "s.dat" data = inr r /\ sr_GetMetadata r 0 md_default = None).
Proof. split; (split; vm_compute; reflexivity). Qed.

(** The footer never matches: the checksum at the end of every segment was
    computed over the header before its temporal offset was filled in, so it
    differs from the checksum of the bytes it follows.  (No reader verifies it.) *)
Theorem segment_footer_is_stale b fm :
  seg_ok (sb_dim b) (sorted_entries b) ->
  exists fm' body crc,
    sb_Finish b (MkFs fm []) = (inr tt, MkFs fm' []) /\
    fm' !! sb_path b = Some (body ++ le_split 4 crc) /\ crc <> Crc32c body 0.
Proof.
  intros Hok. set (es := sorted_entries b) in *. set (dim := sb_dim b) in *.
  exists (<[sb_path b := seg_file dim es]> (delete (sb_path b +:+ ".tmp") fm)).
  exists (header_bytes (seg_header dim es (seg_temporal dim es)) ++ seg_rest dim es), (seg_footer dim es).
  split; [apply sb_Finish_ok|]. split.
  { rewrite lookup_insert_eq. unfold seg_file. by rewrite <-app_assoc. }
  set (hp := kMagic ++ le_split 4 6 ++ le_split 4 (u32 (zlen es)) ++ le_split 4 dim ++
    le_split 4 (u32 (kEntriesStart + zlen es * entry_size_of dim)) ++ [Byte.x00; Byte.x00; Byte.x00; Byte.x00] ++
    le_split 4 0 ++ le_split 4 0 ++ le_split 4 kEntriesStart ++ le_split 4 (u32 (entry_size_of dim))).
  assert (forall t, header_bytes (seg_header dim es t) ++ seg_rest dim es = hp ++ le_split 4 t ++ (le_split 4 0 ++ seg_rest dim es)) as Hh.
  { intros t. unfold header_bytes, hp, seg_header.
    cbn [sh_magic sh_version sh_count sh_dim sh_metadata_offset sh_quant_type sh_quant_min
      sh_quant_inv_scale sh_entries_start_offset sh_entry_size sh_temporal_index_offset].
    by rewrite <-!app_assoc. }
  unfold seg_footer. rewrite !Hh. intros E. apply Crc32c_window in E; [|rewrite length_le_split; lia|by rewrite !length_le_split].
  destruct (seg_header_fields dim es Hok) as (_ & _ & _ & Ht). destruct (seg_bounds dim es Hok) as (? & ? & ? & ?).
  pose proof (zlen_nonneg (meta_blob es)). pose proof (zlen_nonneg (seg_times es)). pose proof (zlen_nonneg (seg_offsets es)).
  apply le_split_inj in E; [|lia|cbn; nia]. nia.
Qed.

Lemma segment_footer_is_stale_witness :
  exists body crc (fm' : gmap path bytes), fm' !! "s.dat" = Some (body ++ le_split 4 crc) /\ crc <> Crc32c body 0.
Proof.
  destruct (segment_footer_is_stale test_builder ∅ (proj2 test_builder_ok)) as (fm' & body & crc & _ & E & H).
  exists body, crc, fm'. split; [exact E|exact H].
Defined.

(** ** The temporal index *)

Lemma partition_point_spec before fuel first len :
  0 <= len < Z.of_nat fuel ->
  (forall i, first <= i < first + len -> is_Some (before i)) ->
  (forall i j, first <= i < j -> j < first + len -> before j = Some true -> before i = Some true) ->
  exists k, partition_point fuel before first len = Some k /\ first <= k <= first + len /\
    (forall i, first <= i < k -> before i = Some true) /\ (forall i, k <= i < first + len -> before i = Some false).
Proof.
  revert first len. induction fuel as [|fuel IH]; intros first len Hf Hd Hm; [lia|]. cbn [partition_point].
  destruct (Z.leb_spec len 0) as [H0|H0]; [exists first; split_and!; [done|lia|lia|intros; lia|intros; lia]|].
  pose proof (Z.div_pos len 2 ltac:(lia) ltac:(lia)). pose proof (Z.div_lt len 2 ltac:(lia) ltac:(lia)).
  set (half := len / 2) in *. destruct (Hd (first + half)) as [x Hx]; [lia|]. rewrite Hx. cbn [mbind option_bind].
  destruct x.
  - destruct (IH (first + half + 1) (len - half - 1)) as (k & -> & Hk & Hlo & Hhi); [lia|intros; apply Hd; lia| |].
    { intros i j Hi Hj. apply Hm; lia. }
    exists k. split_and!; [done|lia|lia| |intros i Hi; apply Hhi; lia].
    intros i Hi. destruct (decide (first + half < i)); [apply Hlo; lia|].
    destruct (decide (i = first + half)) as [->|]; [done|]. apply (Hm i (first + half)); [lia|lia|done].
  - destruct (IH first half) as (k & -> & Hk & Hlo & Hhi); [lia|intros; apply Hd; lia| |].
    { intros i j Hi Hj. apply Hm; lia. }
    exists k. split_and!; [done|lia|lia|done|]. intros i Hi. destruct (decide (i < first + half)); [apply Hhi; lia|].
    destruct (Hd i) as [[] Hb]; [lia| |done]. destruct (decide (i = first + half)) as [->|]; [congruence|].
    rewrite (Hm (first + half) i) in Hx; [done|lia|lia|done].
Qed.

#[global] Instance stamp_le_total : Total stamp_le.
Proof. intros a b. unfold stamp_le. lia. Qed.
#[global] Instance stamp_le_trans : Transitive stamp_le.
Proof. intros a b c. unfold stamp_le. lia. Qed.

(** The (timestamp, index) pairs before sorting. *)
Definition stamps (es : list SegEntry) : list (Z * Z) := imap (fun i e => (md_timestamp (se_meta e), Z.of_nat i)) es.

Lemma stamps_lookup es i : stamps es !! i = (fun e => (md_timestamp (se_meta e), Z.of_nat i)) <$> es !! i.
Proof. unfold stamps. by rewrite list_lookup_imap. Qed.

Section temporal.
Context (dim : Z) (es : list SegEntry) (Hseg : seg_ok dim es) (p : path).

Lemma time_entries_perm : time_entries es ≡ₚ stamps es.
Proof. apply merge_sort_Permutation. Qed.

Lemma length_time_entries : length (time_entries es) = length es.
Proof. rewrite time_entries_perm. unfold stamps. by rewrite length_imap. Qed.

Lemma time_entries_ok t : t ∈ time_entries es -> is_u64 t.1 /\ is_u32 t.2.
Proof using Hseg.
  rewrite time_entries_perm. intros [i Hi]%list_elem_of_lookup. rewrite stamps_lookup in Hi.
  destruct (es !! i) as [e|] eqn:He; [|done]. injection Hi as <-. cbn.
  destruct (seg_bounds dim es Hseg) as (_ & _ & Hc & _). apply lookup_lt_Some in He as Hlt.
  eapply Forall_lookup_1 in He; [|apply (so_entries _ _ Hseg)].
  split; [apply He|]. unfold is_u32, zlen in *. lia.
Qed.

Lemma rd_time_built i t :
  time_entries es !! i = Some t ->
  rd_time (built_reader p dim es) (Z.of_nat i) = Some t.1 /\ rd_time_idx (built_reader p dim es) (Z.of_nat i) = Some t.2.
Proof using Hseg.
  intros Hi. destruct (time_entries_ok t (list_elem_of_lookup_2 _ _ _ Hi)) as [H1 H2].
  destruct (seg_file_offsets dim es Hseg) as (pre & E & Hpre).
  assert (seg_file dim es = (pre ++ seg_offsets es ++ meta_blob es) ++ concat (map time_bytes (time_entries es)) ++
    le_split 4 (seg_footer dim es)) as E' by (rewrite E; unfold seg_times; by rewrite <-!app_assoc).
  assert (zlen (pre ++ seg_offsets es ++ meta_blob es) = sr_temporal_index_offset (built_reader p dim es)) as Hz
    by (cbn [built_reader sr_temporal_index_offset]; unfold zlen in *; rewrite !length_app; lia).
  assert (Forall (fun c => length c = 16%nat) (map time_bytes (time_entries es))) as Hf.
  { apply Forall_map, Forall_forall. intros x _. apply length_time_bytes. }
  unfold rd_time, rd_time_idx, rd_int. split.
  - erewrite (rd_slot _ _ (map time_bytes (time_entries es)) _ 16 i (time_bytes t) 0);
      [|exact E'|exact Hf|by rewrite list_lookup_fmap, Hi|rewrite Hz; lia|lia..].
    cbn [fmap option_fmap option_map]. unfold time_bytes. rewrite drop_0, take_app_len by len. by rewrite le_combine_split_id.
  - erewrite (rd_slot _ _ (map time_bytes (time_entries es)) _ 16 i (time_bytes t) 8);
      [|exact E'|exact Hf|by rewrite list_lookup_fmap, Hi|rewrite Hz; lia|lia..].
    cbn [fmap option_fmap option_map]. unfold time_bytes. rewrite drop_app_len by len.
    rewrite take_app_len by len. by rewrite le_combine_split_id.
Qed.

(** One bound of the range, for a monotone test on timestamps. *)
Lemma time_bound (test : Z -> bool) :
  (forall a b, a <= b -> test b = true -> test a = true) ->
  exists k, partition_point (S (Z.to_nat (zlen es))) (fun i => ts ← rd_time (built_reader p dim es) i; Some (test ts)) 0 (zlen es)
      = Some (Z.of_nat k) /\ (k <= length es)%nat /\
    forall i t, time_entries es !! i = Some t -> test t.1 = bool_decide (i < k)%nat.
Proof using Hseg.
  intros Hm. pose proof length_time_entries as Hl.
  assert (StronglySorted stamp_le (time_entries es)) as Hs by (apply StronglySorted_merge_sort; apply _).
  assert (forall i, 0 <= i < zlen es -> exists t, time_entries es !! Z.to_nat i = Some t /\
    (ts ← rd_time (built_reader p dim es) i; Some (test ts)) = Some (test t.1)) as Hrd.
  { intros i Hi. destruct (lookup_lt_is_Some_2 (time_entries es) (Z.to_nat i)) as [t Ht]; [unfold zlen in Hi; lia|].
    exists t. split; [done|]. destruct (rd_time_built _ _ Ht) as [Hr _].
    replace (Z.of_nat (Z.to_nat i)) with i in Hr by lia. by rewrite Hr. }
  destruct (partition_point_spec (fun i => ts ← rd_time (built_reader p dim es) i; Some (test ts))
    (S (Z.to_nat (zlen es))) 0 (zlen es)) as (k & Hk & Hkr & H1 & H2).
  - pose proof (zlen_nonneg es). lia.
  - intros i Hi. destruct (Hrd i) as (t & _ & ->); [lia|]. by eexists.
  - intros i j Hi Hj. destruct (Hrd i) as (ti & Hti & ->); [lia|]. destruct (Hrd j) as (tj & Htj & ->); [lia|].
    intros [= Ht]. f_equal. apply (Hm _ tj.1); [|done].
    apply (elem_of_StronglySorted_lookup _ _ Hs _ _ _ _ Hti Htj). lia.
  - exists (Z.to_nat k). rewrite Z2Nat.id by lia. split_and!; [done|unfold zlen in Hkr; lia|].
    intros i t Hi. pose proof (lookup_lt_Some _ _ _ Hi) as Hlt. rewrite Hl in Hlt.
    destruct (Hrd (Z.of_nat i)) as (t' & Ht' & Hb); [unfold zlen; lia|]. rewrite Nat2Z.id, Hi in Ht'. injection Ht' as <-.
    case_bool_decide as Hik.
    + rewrite H1 in Hb by lia. by injection Hb.
    + rewrite H2 in Hb by (unfold zlen; lia). by injection Hb.
Qed.
End temporal.

Lemma filter_interval {A} (P : A -> Prop) `{forall x, Decision (P x)} (l : list A) lo hi :
  (lo <= hi)%nat -> (forall i x, l !! i = Some x -> P x <-> (lo <= i < hi)%nat) ->
  filter P l = take (hi - lo) (drop lo l).
Proof.
  revert lo hi. induction l as [|x l IH]; intros lo hi Hle Hp; [by rewrite drop_nil, take_nil|].
  assert (forall i y, l !! i = Some y -> P y <-> (lo - 1 <= i < hi - 1)%nat \/ (lo = 0 /\ i < hi - 1)%nat) as Hp'.
  { intros i y Hi. rewrite (Hp (S i) y Hi). lia. }
  rewrite filter_cons. destruct lo as [|lo].
  - destruct hi as [|hi].
    + rewrite decide_False by (rewrite (Hp 0%nat x eq_refl); lia). cbn.
      rewrite (IH 0%nat 0%nat) by (lia || (intros; rewrite Hp' by done; lia)). done.
    + rewrite decide_True by (rewrite (Hp 0%nat x eq_refl); lia). cbn. f_equal.
      rewrite (IH 0%nat hi) by (lia || (intros; rewrite Hp' by done; lia)). by rewrite Nat.sub_0_r.
  - rewrite decide_False by (rewrite (Hp 0%nat x eq_refl); lia). cbn [drop].
    rewrite (IH lo (hi - 1)%nat) by (lia || (intros; rewrite Hp' by done; lia)). f_equal. lia.
Qed.

(** Temporal search of a built segment: for an ordered range it returns, each
    once, exactly the indices of the entries whose timestamp is in the range. *)
Theorem segment_temporal_search p dim es start end_ :
  seg_ok dim es -> start <= end_ ->
  exists l, sr_SearchTemporal (built_reader p dim es) start end_ = Some l /\
    l ≡ₚ (filter (fun t : Z * Z => start <= t.1 <= end_) (stamps es)).*2.
Proof.
  intros Hseg Hr. unfold sr_SearchTemporal.
  destruct (Z.eqb_spec (zlen es) 0) as [H0|H0].
  { destruct es; [|unfold zlen in H0; cbn in H0; lia]. exists []. cbn. by rewrite orb_true_r. }
  destruct (seg_bounds dim es Hseg) as (Hd & He & Hc & _).
  pose proof (zlen_nonneg (meta_blob es)). pose proof (zlen_nonneg (seg_offsets es)).
  assert (0 <= zlen es * entry_size_of dim) by nia.
  cbn [built_reader sr_temporal_index_offset sr_count]. fold (built_reader p dim es).
  rewrite (proj2 (Z.eqb_neq (_ + zlen (meta_blob es)) 0)) by lia. rewrite (proj2 (Z.eqb_neq (zlen es) 0)) by done. cbn [orb].
  destruct (time_bound dim es Hseg p (fun ts => ts <? start)) as (lo & -> & Hlo & Tlo); [intros; lia|].
  destruct (time_bound dim es Hseg p (fun ts => ts <=? end_)) as (hi & -> & Hhi & Thi); [intros; lia|].
  cbn [mbind option_bind].
  assert (lo <= hi)%nat as Hle.
  { destruct (le_lt_dec lo hi); [done|]. destruct (lookup_lt_is_Some_2 (time_entries es) hi) as [t Ht].
    { rewrite length_time_entries. lia. }
    specialize (Tlo _ _ Ht). specialize (Thi _ _ Ht). rewrite bool_decide_eq_true_2 in Tlo by lia.
    rewrite bool_decide_eq_false_2 in Thi by lia. lia. }
  rewrite (proj2 (Z.leb_le _ _)) by lia. replace (Z.to_nat (Z.of_nat hi - Z.of_nat lo)) with (hi - lo)%nat by lia.
  exists (take (hi - lo) (drop lo (time_entries es))).*2. split.
  - apply mapM_Some_2, Forall2_same_length_lookup. split.
    { rewrite length_seq, length_fmap, length_take, length_drop, length_time_entries. lia. }
    intros i x y Hx Hy. apply lookup_seq in Hx as [-> Hx]. rewrite list_lookup_fmap in Hy.
    destruct (take _ _ !! i) as [t|] eqn:Ht; [|done]. injection Hy as <-.
    rewrite lookup_take_lt, lookup_drop in Ht by lia.
    replace (Z.of_nat lo + Z.of_nat (0 + i)) with (Z.of_nat (lo + i)) by lia. by apply rd_time_built.
  - rewrite <-(filter_interval (fun t : Z * Z => start <= t.1 <= end_) (time_entries es) lo hi Hle).
    + by rewrite time_entries_perm.
    + intros i t Hi. specialize (Tlo _ _ Hi). specialize (Thi _ _ Hi). revert Tlo Thi.
      do 2 case_bool_decide; intros; lia.
Qed.

Lemma segment_temporal_search_witness :
  exists l, sr_SearchTemporal (built_reader (sb_path test_builder) 2 (sorted_entries test_builder)) 1 10 = Some l /\ l ≡ₚ [1].
Proof. apply (segment_temporal_search (sb_path test_builder) 2 (sorted_entries test_builder) 1 10 (proj2 test_builder_ok)). lia. Defined.
