(* ===== verification/Layers.v ===== *)
(** * Reading across layers (src/core/shard/layer_lookup.cc, iterator.cc, snapshot.h)

    A shard keeps the newest data in an active memtable, older data in frozen
    memtables and the oldest in segments.  Point lookup and the snapshot
    iterator walk the layers; [None] is a read outside the memory of a layer,
    which is undefined.  The decoder of quantised segments is a parameter. *)
From S2P Require Import Prelude FlatHash Types MemTable Segment.

Open Scope Z_scope.

Section layers.
Context {T : Type} `{IdMap T (option bytes)} `{F32}.
Context (quant_decode : SegmentReader -> bytes -> vec).

(** src/core/shard/snapshot.h:11-23 [VectorSnapshot]. *)
Record VectorSnapshot : Type := MkSnap {
  vs_version : Z;
  vs_frozen_memtables : list (MemTable T);
  vs_segments : list SegmentReader;
  vs_live_memtable : option (MemTable T)
}.

(** src/core/shard/layer_lookup.h:14-26 [LookupResult]. *)
Inductive LookupResult : Type := LFound (v : vec) (meta : Metadata) | LTombstone | LNotFound.

(** [std::span<const float>(p, dim)] read from memory. *)
Definition read_span (dim : Z) (mem : bytes) : option vec :=
  if dim * 4 <=? zlen mem then Some (read_vec (Z.to_nat dim) mem) else None.

(** src/core/shard/layer_lookup.cc:13-28 [LookupById]. One memtable; the same
    lines serve the active and the frozen ones. *)
Definition lookup_mem (dim id : Z) (m : MemTable T) : option LookupResult :=
  if mt_IsTombstone id m then Some LTombstone else
  match mt_Get id m with
  | inr (mem, meta) => v ← read_span dim mem; Some (LFound v meta)
  | inl _ => Some LNotFound
  end.

(** src/core/shard/layer_lookup.cc:51-72 [LookupById]. One segment. *)
Definition lookup_seg (dim id : Z) (s : SegmentReader) : option LookupResult :=
  st ← sr_Get s id md_default;
  match st with
  | inr (b, meta) =>
      if sr_quant_type s =? kNone_q then v ← read_span dim b; Some (LFound v meta)
      else Some (LFound (quant_decode s b) meta)
  | inl e => if bool_decide (e = NotFound "tombstone") then Some LTombstone else Some LNotFound
  end.

(** The first layer with an answer. *)
Fixpoint first_answer {L} (look : L -> option LookupResult) (layers : list L) : option LookupResult :=
  match layers with
  | [] => Some LNotFound
  | l :: layers =>
      r ← look l;
      match r with
      | LNotFound => first_answer look layers
      | r => Some r
      end
  end.

(** src/core/shard/layer_lookup.cc:9-75 [LookupById]. *)
Definition LookupById (active : option (MemTable T)) (snapshot : option VectorSnapshot) (id dim : Z)
    : option LookupResult :=
  r ← first_answer (lookup_mem dim id) (option_list active);
  match r, snapshot with
  | LNotFound, Some snap =>
      r ← first_answer (lookup_mem dim id) (reverse (vs_frozen_memtables snap));
      match r with
      | LNotFound => first_answer (lookup_seg dim id) (vs_segments snap)
      | r => Some r
      end
  | r, _ => Some r
  end.

(** ** The snapshot iterator *)

(** src/core/shard/iterator.h:32-32 [VectorIterator::Source]. *)
Inductive Source : Type := FROZEN_MEM | SEGMENT | DONE.
#[global] Instance Source_eq_dec : EqDecision Source.
Proof. solve_decision. Defined.

(** src/core/shard/iterator.h:27-45 [VectorIterator]. *)
Record VectorIterator : Type := MkIter {
  it_snapshot : VectorSnapshot;
  it_source : Source;
  it_source_idx : nat;
  it_entry_idx : nat;
  it_current_id : Z;
  it_current_vec : vec;
  it_seen : gset Z;
  it_ttl_sec : Z;
  it_now_sec : Z
}.

(** src/core/shard/iterator.h:47-52 [VectorIterator::IsExpired]. *)
Definition IsExpired (ttl_sec now_sec : Z) (meta : Metadata) : bool :=
  if ttl_sec =? 0 then false else
  if md_timestamp meta =? 0 then false else
  if now_sec <? md_timestamp meta then false else
  ttl_sec <=? now_sec - md_timestamp meta.

Definition it_at (it : VectorIterator) (source_idx entry_idx : nat) : VectorIterator :=
  MkIter (it_snapshot it) (it_source it) source_idx entry_idx (it_current_id it) (it_current_vec it)
    (it_seen it) (it_ttl_sec it) (it_now_sec it).
Definition it_source_at (s : Source) (it : VectorIterator) : VectorIterator :=
  MkIter (it_snapshot it) s 0 0 (it_current_id it) (it_current_vec it) (it_seen it) (it_ttl_sec it) (it_now_sec it).
Definition it_done (it : VectorIterator) : VectorIterator :=
  MkIter (it_snapshot it) DONE (it_source_idx it) (it_entry_idx it) (it_current_id it) (it_current_vec it)
    (it_seen it) (it_ttl_sec it) (it_now_sec it).
Definition it_current (id : Z) (v : vec) (it : VectorIterator) : VectorIterator :=
  MkIter (it_snapshot it) (it_source it) (it_source_idx it) (it_entry_idx it) id v
    (it_seen it) (it_ttl_sec it) (it_now_sec it).
Definition it_mark (id : Z) (it : VectorIterator) : VectorIterator :=
  MkIter (it_snapshot it) (it_source it) (it_source_idx it) (it_entry_idx it) (it_current_id it) (it_current_vec it)
    ({[id]} ∪ it_seen it) (it_ttl_sec it) (it_now_sec it).

(** The memtables in the order the iterator visits them. *)
Definition it_mems (it : VectorIterator) : list (MemTable T) :=
  option_list (vs_live_memtable (it_snapshot it)) ++ vs_frozen_memtables (it_snapshot it).

(** src/core/shard/iterator.cc:120-136 [VectorIterator::TryReadFromFrozenMem]. The
    entry as id and vector, the vector empty for a tombstone or an expired
    entry. *)
Definition mem_entry (it : VectorIterator) (e : CursorEntry) : Z * vec :=
  (ce_id e,
   if ce_is_deleted e then []
   else match ce_meta e with
        | Some meta => if IsExpired (it_ttl_sec it) (it_now_sec it) meta then [] else ce_vec e
        | None => ce_vec e
        end).

(** src/core/shard/iterator.cc:100-144 [VectorIterator::TryReadFromFrozenMem]. One
    round per memtable; [None] is [false]. *)
Fixpoint TryReadFromFrozenMem (fuel : nat) (it : VectorIterator) : option VectorIterator :=
  match fuel with
  | O => None
  | S fuel =>
      match it_mems it !! it_source_idx it with
      | None => None
      | Some mem =>
          match mt_cursor mem !! it_entry_idx it with
          | Some e => let '(id, v) := mem_entry it e in Some (it_current id v it)
          | None => TryReadFromFrozenMem fuel (it_at it (S (it_source_idx it)) 0)
          end
      end
  end.

(** src/core/shard/iterator.cc:146-185 [VectorIterator::TryReadFromSegment]. The
    outer [None] is a read outside the segment. *)
Fixpoint TryReadFromSegment (fuel : nat) (it : VectorIterator) : option (option VectorIterator) :=
  match fuel with
  | O => Some None
  | S fuel =>
      match vs_segments (it_snapshot it) !! it_source_idx it with
      | None => Some None
      | Some seg =>
          st ← sr_ReadAt seg (Z.of_nat (it_entry_idx it)) md_default;
          match st with
          | inr (id, v, is_deleted, meta) =>
              v ← (if is_deleted || IsExpired (it_ttl_sec it) (it_now_sec it) meta then Some []
                   else if sr_quant_type seg =? kNone_q then Some v
                   else st ← sr_Get seg id md_default;
                        match st with inr (b, _) => Some (quant_decode seg b) | inl _ => Some [] end);
              Some (Some (it_current id v it))
          | inl _ => TryReadFromSegment fuel (it_at it (S (it_source_idx it)) 0)
          end
      end
  end.

(** src/core/shard/iterator.cc:54-98 [VectorIterator::AdvanceToNextLive]. *)
Fixpoint AdvanceToNextLive (fuel : nat) (it : VectorIterator) : option VectorIterator :=
  match fuel with
  | O => None
  | S fuel =>
      let accept (it : VectorIterator) :=
        if bool_decide (it_current_id it ∈ it_seen it)
        then AdvanceToNextLive fuel (it_at it (it_source_idx it) (S (it_entry_idx it)))
        else if bool_decide (it_current_vec it = [])
        then let it := it_mark (it_current_id it) it in
             AdvanceToNextLive fuel (it_at it (it_source_idx it) (S (it_entry_idx it)))
        else Some it in
      match it_source it with
      | FROZEN_MEM =>
          match TryReadFromFrozenMem (S (length (it_mems it))) it with
          | Some it => accept it
          | None => AdvanceToNextLive fuel (it_source_at SEGMENT it)
          end
      | SEGMENT =>
          r ← TryReadFromSegment (S (length (vs_segments (it_snapshot it)))) it;
          match r with
          | Some it => accept it
          | None => Some (it_done it)
          end
      | DONE => Some it
      end
  end.

(** The rounds of the loop: one per entry of the layers and one per source. *)
Definition iter_fuel (snap : VectorSnapshot) : nat :=
  (sum_list_with (fun m => length (mt_cursor m)) (option_list (vs_live_memtable snap) ++ vs_frozen_memtables snap)
   + sum_list_with (fun s => Z.to_nat (sr_count s)) (vs_segments snap) + 3)%nat.

(** src/core/shard/iterator.cc:8-19 [VectorIterator::VectorIterator]. *)
Definition it_new (snap : VectorSnapshot) (ttl_sec now_sec : Z) : option VectorIterator :=
  AdvanceToNextLive (iter_fuel snap) (MkIter snap FROZEN_MEM 0 0 0 [] ∅ ttl_sec now_sec).

(** src/core/shard/iterator.cc:45-48 [VectorIterator::Valid]. *)
Definition it_Valid (it : VectorIterator) : bool := negb (bool_decide (it_source it = DONE)).

(** src/core/shard/iterator.cc:21-33 [VectorIterator::Next]. *)
Definition it_Next (it : VectorIterator) : option VectorIterator :=
  if negb (it_Valid it) then Some it else
  let it := it_mark (it_current_id it) it in
  AdvanceToNextLive (iter_fuel (it_snapshot it)) (it_at it (it_source_idx it) (S (it_entry_idx it))).

(** [while (it.Valid()) { use(it.id(), it.vector()); it.Next(); }] *)
Fixpoint it_drain (fuel : nat) (it : VectorIterator) : option (list (Z * vec)) :=
  if negb (it_Valid it) then Some [] else
  match fuel with
  | O => None
  | S fuel =>
      it' ← it_Next it;
      rest ← it_drain fuel it';
      Some ((it_current_id it, it_current_vec it) :: rest)
  end.

End layers.

Arguments VectorSnapshot : clear implicits.
Arguments VectorIterator : clear implicits.
