(* ===== verification/Runtime.v ===== *)
(** * The shard runtime (src/core/shard/runtime.h, runtime.cc)

    Writes go to the log and to the active memtable; a full memtable is rotated
    into the frozen list; a freeze turns the frozen memtables into segments and
    resets the log.  The state is the whole object; the file system is the one
    of the log.  Clock readings are arguments.  Vector
    search is in [Search].  The IVF side index that writes feed and the sidecar
    index built with a segment are not modelled; updates of the IVF index are
    taken to succeed. *)
From S2P Require Import Prelude FlatHash Env Types Wal Text PosixFile Manifest IoProvider.
From S2P Require Import SegmentManifest MemTable Segment Layers.

Open Scope Z_scope.

Definition kMaxSegmentEntries : Z := 20000.
Definition kMaxFrozenMemtables : Z := 4.
Definition kMemtableSoftLimit : Z := 5000.

(** src/core/shard/runtime.cc:63-66 [VectorMetaExpired]. *)
Definition VectorMetaExpired (ttl_sec now_sec : Z) (m : Metadata) : bool :=
  (0 <? ttl_sec) && (0 <? md_timestamp m) && (md_timestamp m <=? now_sec)
  && (ttl_sec <=? now_sec - md_timestamp m).

(** The members that never change.  [index_params_] is not among them: the
    segments written here are those of [quant_type == kNone]. *)
Record RtConf : Type := MkRtConf {
  rc_data_dir : path;
  rc_dim : Z;
  rc_kind : MembraneKind;
  rc_quantize_inmem : bool;
  rc_ttl_sec : Z;
  rc_coalesce_window_us : Z;
  rc_coalesce_batch_size : Z
}.

(** src/core/shard/runtime.h:283-287 [VectorRuntime::CoalesceEntry]. *)
Record CoalesceEntry : Type := MkCoalesce { co_id : Z; co_vec : vec; co_meta : Metadata }.

Section runtime.
Context {T : Type} `{IdMap T (option bytes)} `{F32} `{AesGcm}.
Context (quant_decode : SegmentReader -> bytes -> vec).

(** src/core/shard/runtime.h:244-291 [VectorRuntime]. *)
Record VectorRuntime : Type := MkRt {
  rt_conf : RtConf;
  rt_wal : Wal;
  rt_mem : MemTable T;
  rt_frozen_mem : list (MemTable T);
  rt_segments : list SegmentReader;
  rt_snapshot : option (VectorSnapshot T);
  rt_next_version : Z;
  rt_ops_processed : Z;
  rt_started : bool;
  rt_wal_epoch : Z;
  rt_bytes_written_wal : Z;
  rt_bytes_written_segments : Z;
  rt_coalesce_buffer : list CoalesceEntry;
  rt_coalesce_start : Z
}.

(** src/core/shard/runtime.cc:283-326 [VectorRuntime::VectorRuntime]. *)
Definition rt_new (conf : RtConf) (wal : Wal) (mem : MemTable T) : VectorRuntime :=
  MkRt conf wal mem [] [] None 1 0 false 0 0 0 [] 0.

Definition with_layers (mem : MemTable T) (frozen : list (MemTable T)) (segs : list SegmentReader) (r : VectorRuntime) :=
  MkRt (rt_conf r) (rt_wal r) mem frozen segs (rt_snapshot r) (rt_next_version r) (rt_ops_processed r) (rt_started r)
    (rt_wal_epoch r) (rt_bytes_written_wal r) (rt_bytes_written_segments r) (rt_coalesce_buffer r) (rt_coalesce_start r).
Definition with_mem (mem : MemTable T) (r : VectorRuntime) := with_layers mem (rt_frozen_mem r) (rt_segments r) r.
Definition with_wal (w : Wal) (r : VectorRuntime) :=
  MkRt (rt_conf r) w (rt_mem r) (rt_frozen_mem r) (rt_segments r) (rt_snapshot r) (rt_next_version r)
    (rt_ops_processed r) (rt_started r) (rt_wal_epoch r) (rt_bytes_written_wal r) (rt_bytes_written_segments r)
    (rt_coalesce_buffer r) (rt_coalesce_start r).
Definition with_coalesce (buf : list CoalesceEntry) (start : Z) (r : VectorRuntime) :=
  MkRt (rt_conf r) (rt_wal r) (rt_mem r) (rt_frozen_mem r) (rt_segments r) (rt_snapshot r) (rt_next_version r)
    (rt_ops_processed r) (rt_started r) (rt_wal_epoch r) (rt_bytes_written_wal r) (rt_bytes_written_segments r) buf start.
Definition with_started (b : bool) (r : VectorRuntime) :=
  MkRt (rt_conf r) (rt_wal r) (rt_mem r) (rt_frozen_mem r) (rt_segments r) (rt_snapshot r) (rt_next_version r)
    (rt_ops_processed r) b (rt_wal_epoch r) (rt_bytes_written_wal r) (rt_bytes_written_segments r)
    (rt_coalesce_buffer r) (rt_coalesce_start r).
(** [++ops_processed_] *)
Definition count_op (r : VectorRuntime) :=
  MkRt (rt_conf r) (rt_wal r) (rt_mem r) (rt_frozen_mem r) (rt_segments r) (rt_snapshot r) (rt_next_version r)
    (u64 (rt_ops_processed r + 1)) (rt_started r) (rt_wal_epoch r) (rt_bytes_written_wal r)
    (rt_bytes_written_segments r) (rt_coalesce_buffer r) (rt_coalesce_start r).
(** [++wal_epoch_; bytes_written_wal_ = wal_->GetBytesWritten();] *)
Definition note_wal (r : VectorRuntime) :=
  MkRt (rt_conf r) (rt_wal r) (rt_mem r) (rt_frozen_mem r) (rt_segments r) (rt_snapshot r) (rt_next_version r)
    (rt_ops_processed r) (rt_started r) (u64 (rt_wal_epoch r + 1)) (w_bytes_written_total (rt_wal r))
    (rt_bytes_written_segments r) (rt_coalesce_buffer r) (rt_coalesce_start r).
(** [bytes_written_segments_ += n;] *)
Definition note_segment_bytes (n : Z) (r : VectorRuntime) :=
  MkRt (rt_conf r) (rt_wal r) (rt_mem r) (rt_frozen_mem r) (rt_segments r) (rt_snapshot r) (rt_next_version r)
    (rt_ops_processed r) (rt_started r) (rt_wal_epoch r) (rt_bytes_written_wal r)
    (u64 (rt_bytes_written_segments r + n)) (rt_coalesce_buffer r) (rt_coalesce_start r).

Definition on_wal {A} (m : M Wal A) : M VectorRuntime A := fun r =>
  let '(x, w) := m (rt_wal r) in (x, with_wal w r).
Definition on_mem {A} (m : M (MemTable T) A) : M VectorRuntime A := fun r =>
  let '(x, mem) := m (rt_mem r) in (x, with_mem mem r).

#[global] Instance VectorRuntime_HasFs : HasFs VectorRuntime := {|
  get_fs r := w_env (rt_wal r);
  set_fs f r := with_wal (set_fs f (rt_wal r)) r
|}.

(** ** Snapshots and rotation *)

(** src/core/shard/runtime.cc:397-420 [VectorRuntime::PublishSnapshot]. *)
Definition PublishSnapshot (r : VectorRuntime) : VectorRuntime :=
  MkRt (rt_conf r) (rt_wal r) (rt_mem r) (rt_frozen_mem r) (rt_segments r)
    (Some (MkSnap (rt_next_version r) (rt_frozen_mem r) (rt_segments r) None)) (u64 (rt_next_version r + 1))
    (rt_ops_processed r) (rt_started r) (rt_wal_epoch r) (rt_bytes_written_wal r) (rt_bytes_written_segments r)
    (rt_coalesce_buffer r) (rt_coalesce_start r).

(** src/core/shard/runtime.cc:422-430 [VectorRuntime::RotateMemTable]. *)
Definition RotateMemTable (r : VectorRuntime) : VectorRuntime :=
  if mt_GetCount (rt_mem r) =? 0 then r else
  PublishSnapshot
    (with_layers (mt_new (rc_dim (rt_conf r)) (2 ^ 20) (rc_quantize_inmem (rt_conf r)))
       (rt_frozen_mem r ++ [rt_mem r]) (rt_segments r) r).

(** src/core/shard/runtime.cc:382-388 [VectorRuntime::LoadSegments]. The loop;
    the readers opened so far stay installed when one fails. *)
Fixpoint open_segments (names : list bytes) : M VectorRuntime unit :=
  match names with
  | [] => mret tt
  | name :: names =>
      r ← mget;
      reader ← on_fs (sr_Open (path_join (rc_data_dir (rt_conf r)) (text name)));
      mmodify (fun r => with_layers (rt_mem r) (rt_frozen_mem r) (rt_segments r ++ [reader]) r) ;;
      open_segments names
  end.

(** src/core/shard/runtime.cc:373-392 [VectorRuntime::LoadSegments]. *)
Definition LoadSegments : M VectorRuntime unit :=
  r ← mget;
  names ← on_fs (sm_Load (rc_data_dir (rt_conf r)));
  mmodify (fun r => with_layers (rt_mem r) (rt_frozen_mem r) [] r) ;;
  open_segments names ;;
  mmodify PublishSnapshot.

(** src/core/shard/runtime.cc:354-371 [VectorRuntime::Start]. *)
Definition rt_Start : M VectorRuntime unit :=
  r ← mget;
  mguard (negb (rt_started r)) (Busy "shard already started") ;;
  mmodify (with_started true) ;;
  mmodify (fun r => if 0 <? mt_GetCount (rt_mem r) then RotateMemTable r else r) ;;
  st ← try_ LoadSegments;
  match st with
  | inl e => mmodify (with_started false) ;; mfail e
  | inr _ => mret tt
  end.

(** ** Writes *)

(** src/core/shard/runtime.cc:480-485 [VectorRuntime::FlushCoalesceBuffer]. *)
Fixpoint apply_coalesced (lsn : Z) (buf : list CoalesceEntry) (m : MemTable T) : MemTable T :=
  match buf with
  | [] => m
  | e :: buf => apply_coalesced lsn buf (mt_Put (co_id e) (co_vec e) (with_lsn lsn (co_meta e)) m).2
  end.

(** src/core/shard/runtime.cc:461-492 [VectorRuntime::FlushCoalesceBuffer]. *)
Definition FlushCoalesceBuffer : M VectorRuntime unit :=
  r ← mget;
  let buf := rt_coalesce_buffer r in
  if bool_decide (buf = []) then mret tt else
  st ← try_ (on_wal (wal_AppendBatch (co_id <$> buf) (co_vec <$> buf)));
  match st with
  | inl e => mmodify (fun r => with_coalesce [] (rt_coalesce_start r) r) ;; mfail e
  | inr _ =>
      mmodify note_wal ;;
      mmodify (fun r => with_mem (apply_coalesced (w_seq (rt_wal r)) buf (rt_mem r)) r) ;;
      mmodify (fun r => with_coalesce [] (rt_coalesce_start r) r) ;;
      mmodify (fun r => if kMemtableSoftLimit <=? mt_GetCount (rt_mem r) then RotateMemTable r else r)
  end.

(** The backpressure test of the write handlers. *)
Definition backpressure (r : VectorRuntime) : bool :=
  (kMaxFrozenMemtables <=? zlen (rt_frozen_mem r)) && (kMemtableSoftLimit <=? mt_GetCount (rt_mem r)).

(** [if (m->GetCount() >= kMemtableSoftLimit) (void)RotateMemTable();] *)
Definition rotate_if_full (r : VectorRuntime) : VectorRuntime :=
  if kMemtableSoftLimit <=? mt_GetCount (rt_mem r) then RotateMemTable r else r.

(** src/core/shard/runtime.cc:508-527 [VectorRuntime::HandlePut]. The coalescing
    path; [now_us] is the steady clock in microseconds. *)
Definition coalesce_put (now_us id : Z) (v : vec) (meta : Metadata) : M VectorRuntime unit :=
  r ← mget;
  (if negb (bool_decide (rt_coalesce_buffer r = [])) &&
      ((rc_coalesce_window_us (rt_conf r) <=? u32 (now_us - rt_coalesce_start r))
       || (rc_coalesce_batch_size (rt_conf r) <=? zlen (rt_coalesce_buffer r)))
   then FlushCoalesceBuffer else mret tt) ;;
  mmodify (fun r => with_coalesce (rt_coalesce_buffer r ++ [MkCoalesce id v meta])
    (if bool_decide (rt_coalesce_buffer r = []) then now_us else rt_coalesce_start r) r).

(** src/core/shard/runtime.cc:494-547 [VectorRuntime::HandlePut]. *)
Definition HandlePut (now_us id : Z) (v : vec) (meta : Metadata) : M VectorRuntime unit :=
  r ← mget;
  mguard (bool_decide (rc_kind (rt_conf r) = kVector)) (InvalidArgument "VECTOR membrane required for Put") ;;
  mguard (vec_dim v =? rc_dim (rt_conf r)) (InvalidArgument "dim mismatch") ;;
  mguard (negb (backpressure r)) (ResourceExhausted "too many frozen memtables; backpressure") ;;
  if 0 <? rc_coalesce_window_us (rt_conf r) then coalesce_put now_us id v meta else
  on_wal (wal_AppendPut id v meta) ;;
  mmodify note_wal ;;
  r ← mget;
  on_mem (mt_Put id v (with_lsn (w_seq (rt_wal r)) meta)) ;;
  mmodify rotate_if_full.

(** src/core/shard/runtime.cc:441-458 [VectorRuntime::Put]. *)
Definition rt_Put (now_us id : Z) (v : vec) (meta : Metadata) : M VectorRuntime unit :=
  r ← mget;
  mguard (bool_decide (rc_kind (rt_conf r) = kVector)) (InvalidArgument "VECTOR membrane required for Put") ;;
  mguard (vec_dim v =? rc_dim (rt_conf r)) (InvalidArgument "dim mismatch") ;;
  mguard (rt_started r) (Aborted "shard not started") ;;
  HandlePut now_us id v meta ;;
  mmodify count_op.

(** src/core/shard/runtime.cc:840-872 [VectorRuntime::HandleBatchPut]. *)
Definition HandleBatchPut (ids : list Z) (vectors : list vec) : M VectorRuntime unit :=
  r ← mget;
  mguard (bool_decide (rc_kind (rt_conf r) = kVector)) (InvalidArgument "VECTOR membrane required for PutBatch") ;;
  mguard (zlen ids =? zlen vectors) (InvalidArgument "ids and vectors size mismatch") ;;
  mguard (negb (backpressure r)) (ResourceExhausted "too many frozen memtables; backpressure") ;;
  on_wal (wal_AppendBatch ids vectors) ;;
  mmodify note_wal ;;
  on_mem (mt_PutBatch ids vectors) ;;
  mmodify rotate_if_full.

(** src/core/shard/runtime.cc:549-574 [VectorRuntime::PutBatch]. *)
Definition rt_PutBatch (ids : list Z) (vectors : list vec) : M VectorRuntime unit :=
  r ← mget;
  mguard (bool_decide (rc_kind (rt_conf r) = kVector)) (InvalidArgument "VECTOR membrane required for PutBatch") ;;
  mguard (zlen ids =? zlen vectors) (InvalidArgument "ids and vectors size mismatch") ;;
  if bool_decide (ids = []) then mret tt else
  mguard (forallb (fun v => vec_dim v =? rc_dim (rt_conf r)) vectors) (InvalidArgument "dim mismatch") ;;
  mguard (rt_started r) (Aborted "shard not started") ;;
  HandleBatchPut ids vectors ;;
  mmodify count_op.

(** src/core/shard/runtime.cc:876-895 [VectorRuntime::HandleDel]. *)
Definition HandleDel (id : Z) : M VectorRuntime unit :=
  on_wal (wal_AppendDelete id) ;;
  mmodify note_wal ;;
  on_mem (mt_Delete id).

(** src/core/shard/runtime.cc:576-585 [VectorRuntime::Delete]. *)
Definition rt_Delete (id : Z) : M VectorRuntime unit :=
  r ← mget;
  mguard (rt_started r) (Aborted "shard not started") ;;
  HandleDel id ;;
  mmodify count_op.

(** src/core/shard/runtime.cc:698-703 [VectorRuntime::Flush]. *)
Definition rt_Flush : M VectorRuntime unit :=
  r ← mget;
  mguard (rt_started r) (Aborted "shard not started") ;;
  on_wal wal_Flush.

(** src/core/shard/runtime.cc:817-824 [VectorRuntime::BeginBatch]. *)
Definition rt_BeginBatch : M VectorRuntime unit :=
  r ← mget;
  (if bool_decide (rt_coalesce_buffer r = []) then mret tt else FlushCoalesceBuffer) ;;
  on_wal wal_BeginBatch.

(** src/core/shard/runtime.cc:826-832 [VectorRuntime::EndBatch]. *)
Definition rt_EndBatch : M VectorRuntime unit :=
  r ← mget;
  (if bool_decide (rt_coalesce_buffer r = []) then mret tt else FlushCoalesceBuffer) ;;
  on_wal wal_EndBatch.

(** ** Reads *)

(** src/core/shard/runtime.cc:592-618 [VectorRuntime::Get]. *)
Definition rt_Get (now_sec id : Z) (r : VectorRuntime) : option (Status + (vec * Metadata)) :=
  match rt_snapshot r with
  | None => Some (inl (Aborted "shard not ready"))
  | Some snap =>
      l ← LookupById quant_decode (Some (rt_mem r)) (Some snap) id (rc_dim (rt_conf r));
      Some match l with
           | LTombstone => inl (NotFound "tombstone")
           | LFound v meta => if VectorMetaExpired (rc_ttl_sec (rt_conf r)) now_sec meta
                              then inl (NotFound "vector expired") else inr (v, meta)
           | LNotFound => inl (NotFound "vector not found")
           end
  end.

(** src/core/shard/runtime.cc:641-659 [VectorRuntime::Exists]. *)
Definition rt_Exists (now_sec id : Z) (r : VectorRuntime) : option (Status + bool) :=
  match rt_snapshot r with
  | None => Some (inl (Aborted "shard not ready"))
  | Some snap =>
      l ← LookupById quant_decode (Some (rt_mem r)) (Some snap) id (rc_dim (rt_conf r));
      Some match l with
           | LFound v meta => inr (negb (VectorMetaExpired (rc_ttl_sec (rt_conf r)) now_sec meta))
           | _ => inr false
           end
  end.

(** src/core/shard/runtime.cc:620-639 [VectorRuntime::GetFromSnapshot]. *)
Definition rt_GetFromSnapshot (snap : option (VectorSnapshot T)) (now_sec id : Z) (r : VectorRuntime)
    : option (Status + (vec * Metadata)) :=
  l ← LookupById quant_decode None snap id (rc_dim (rt_conf r));
  Some match l with
       | LTombstone => inl (NotFound "tombstone")
       | LFound v meta => if VectorMetaExpired (rc_ttl_sec (rt_conf r)) now_sec meta
                          then inl (NotFound "vector expired") else inr (v, meta)
       | LNotFound => inl (NotFound "vector not found")
       end.

(** src/core/shard/runtime.cc:1011-1045 [VectorRuntime::HandleIterator]. The
    snapshot the iterator is made of. *)
Definition iterator_snapshot (r : VectorRuntime) : Status + VectorSnapshot T :=
  match rt_snapshot r with
  | None => inl (Internal "HandleIterator: snapshot is null")
  | Some base =>
      if 0 <? mt_GetCount (rt_mem r)
      then inr (MkSnap (vs_version base) (vs_frozen_memtables base) (vs_segments base) (Some (rt_mem r)))
      else inr base
  end.

(** ** Freeze *)

(** src/core/shard/runtime.cc:212-221 [BackgroundJob::Phase]. *)
Inductive Phase : Type :=
  | kBuild | kFinalizeSegment | kCommitManifest | kInstall | kResetWal | kCleanup | kPublish | kDone.
#[global] Instance Phase_eq_dec : EqDecision Phase.
Proof. solve_decision. Defined.

(** src/core/shard/runtime.cc:229-242 [BackgroundJob::FreezeState]. The cursor is
    the entries it has left.  [fz_buf] is the cursor's decode buffer, into which
    the views of quantised entries point. *)
Record FreezeState : Type := MkFreeze {
  fz_phase : Phase;
  fz_memtables : list (MemTable T);
  fz_mem_index : nat;
  fz_segment_part : nat;
  fz_cursor : option (list CursorEntry);
  fz_buf : vec;
  fz_builder : option SegmentBuilder;
  fz_filename : bytes;
  fz_done_after_finalize : bool;
  fz_built_segments : list (bytes * SegmentReader);
  fz_wal_epoch_at_start : Z
}.

Definition fz_to (p : Phase) (s : FreezeState) : FreezeState :=
  MkFreeze p (fz_memtables s) (fz_mem_index s) (fz_segment_part s) (fz_cursor s) (fz_buf s) (fz_builder s)
    (fz_filename s) (fz_done_after_finalize s) (fz_built_segments s) (fz_wal_epoch_at_start s).

(** src/core/shard/runtime.cc:1123-1126 [VectorRuntime::PumpBackgroundWork]. The
    file name, from a reading of the steady clock. *)
Definition segment_filename (tick : Z) (mem_index part : nat) : bytes :=
  bstr "seg_" ++ to_string tick ++ bstr "_" ++ to_string (Z.of_nat mem_index) ++ bstr "_" ++
  to_string (Z.of_nat part) ++ bstr ".dat".

(** [complete_job(Internal(prefix + st.message()))] *)
Definition job_step {A} (prefix : string) (m : M VectorRuntime A) : M VectorRuntime A := fun r =>
  let '(x, r') := m r in
  (match x with inl e => inl (Internal (prefix +:+ st_message e)) | inr a => inr a end, r').

(** src/core/shard/runtime.cc:1098-1157 [VectorRuntime::PumpBackgroundWork]. A
    round of the build phase. *)
Definition freeze_build (now_sec tick : Z) (s : FreezeState) : M VectorRuntime FreezeState :=
  match fz_memtables s !! fz_mem_index s with
  | None => mret (fz_to kCommitManifest s)
  | Some mem =>
      match default (mt_cursor mem) (fz_cursor s) with
      | [] =>
          match fz_builder s with
          | Some b =>
              if 0 <? sb_Count b then
                mret (MkFreeze kFinalizeSegment (fz_memtables s) (fz_mem_index s) (fz_segment_part s) None (fz_buf s)
                  (fz_builder s) (fz_filename s) true (fz_built_segments s) (fz_wal_epoch_at_start s))
              else
                mret (MkFreeze kBuild (fz_memtables s) (S (fz_mem_index s)) (fz_segment_part s) None (fz_buf s)
                  (fz_builder s) (fz_filename s) (fz_done_after_finalize s) (fz_built_segments s) (fz_wal_epoch_at_start s))
          | None =>
              mret (MkFreeze kBuild (fz_memtables s) (S (fz_mem_index s)) (fz_segment_part s) None (fz_buf s)
                None (fz_filename s) (fz_done_after_finalize s) (fz_built_segments s) (fz_wal_epoch_at_start s))
          end
      | entry :: cursor =>
          r ← mget;
          let filename := match fz_builder s with
                          | Some _ => fz_filename s
                          | None => segment_filename tick (fz_mem_index s) (fz_segment_part s)
                          end in
          let builder := default (MkBuilder (path_join (rc_data_dir (rt_conf r)) (text filename)) (rc_dim (rt_conf r)) [])
                                 (fz_builder s) in
          let meta := default md_default (ce_meta entry) in
          let expired := negb (ce_is_deleted entry) && VectorMetaExpired (rc_ttl_sec (rt_conf r)) now_sec meta in
          let '(st, builder) := sb_Add (ce_id entry) (ce_vec entry) (ce_is_deleted entry || expired) meta builder in
          match st with
          | inl e => mfail (Internal ("Freeze: SegmentBuilder::Add failed: " +:+ st_message e))
          | inr _ =>
              let full := kMaxSegmentEntries <=? sb_Count builder in
              mret (MkFreeze (if full then kFinalizeSegment else kBuild) (fz_memtables s) (fz_mem_index s)
                (fz_segment_part s) (Some cursor) (if ce_is_deleted entry then fz_buf s else ce_vec entry) (Some builder)
                filename (if full then false else fz_done_after_finalize s) (fz_built_segments s) (fz_wal_epoch_at_start s))
          end
      end
  end.

(** The vectors a builder writes.  Its entries are views: into the arena of an
    unquantised memtable, which is still there; into the one decode buffer of
    the cursor for a quantised memtable, which holds the last entry, or is gone
    once the cursor is. *)
Definition resolve_views (quantized : bool) (cursor : option (list CursorEntry)) (buf : vec) (b : SegmentBuilder)
    : Status + SegmentBuilder :=
  if negb quantized || forallb se_deleted (sb_entries b) then inr b else
  match cursor with
  | None => inl (Undefined "views into a released decode buffer")
  | Some _ =>
      inr (MkBuilder (sb_path b) (sb_dim b)
        ((fun e => if se_deleted e then e else MkSegEntry (se_id e) buf false (se_meta e)) <$> sb_entries b))
  end.

(** src/core/shard/runtime.cc:1158-1194 [VectorRuntime::PumpBackgroundWork]. The
    finalize phase, without the sidecar index of [BuildIndex]. *)
Definition freeze_finalize (s : FreezeState) : M VectorRuntime FreezeState :=
  match fz_builder s with
  | None => mfail (Undefined "null builder")
  | Some b =>
      r ← mget;
      b ← of_sum (resolve_views (rc_quantize_inmem (rt_conf r)) (fz_cursor s) (fz_buf s) b);
      job_step "Freeze: SegmentBuilder::Finish failed: " (on_fs (sb_Finish b)) ;;
      job_step "Freeze: FsyncDir after segment failed: " (on_fs (FsyncDir (rc_data_dir (rt_conf r)))) ;;
      reader ← job_step "Freeze: SegmentReader::Open failed: " (on_fs (sr_Open (sb_path b)));
      size ← on_fs (try_ (GetFileSize (sb_path b)));
      mmodify (note_segment_bytes (match size with inr n => n | inl _ => 2 ^ 64 - 1 end)) ;;
      mret (MkFreeze kBuild (fz_memtables s)
        (if fz_done_after_finalize s then S (fz_mem_index s) else fz_mem_index s) (S (fz_segment_part s))
        (if fz_done_after_finalize s then None else fz_cursor s) (fz_buf s) None (fz_filename s) false
        (fz_built_segments s ++ [(fz_filename s, reader)]) (fz_wal_epoch_at_start s))
  end.

(** [for (it = v.rbegin(); ...) target.insert(target.begin(), *it)] *)
Definition insert_reversed {A} (built target : list A) : list A :=
  fold_left (fun t x => x :: t) (reverse built) target.

(** src/core/shard/runtime.cc:1094-1245 [VectorRuntime::PumpBackgroundWork]. One
    round of the freeze loop; [None] when the job has completed. *)
Definition freeze_step (now_sec tick : Z) (s : FreezeState) : M VectorRuntime (option FreezeState) :=
  match fz_phase s with
  | kBuild => s ← freeze_build now_sec tick s; mret (Some s)
  | kFinalizeSegment => s ← freeze_finalize s; mret (Some s)
  | kCommitManifest =>
      if bool_decide (fz_built_segments s = []) then mret (Some (fz_to kResetWal s)) else
      r ← mget;
      names ← job_step "Freeze: SegmentManifest::Load failed: " (on_fs (sm_Load (rc_data_dir (rt_conf r))));
      job_step "Freeze: SegmentManifest::Commit failed: "
        (on_fs (sm_Commit (rc_data_dir (rt_conf r)) (insert_reversed (fz_built_segments s).*1 names))) ;;
      mret (Some (fz_to kInstall s))
  | kInstall =>
      mmodify (fun r => with_layers (rt_mem r) (rt_frozen_mem r)
        (insert_reversed (fz_built_segments s).*2 (rt_segments r)) r) ;;
      mret (Some (fz_to kResetWal s))
  | kResetWal =>
      let n := length (fz_memtables s) in
      mmodify (fun r => if (0 <? n)%nat && (n <=? length (rt_frozen_mem r))%nat
        then with_layers (rt_mem r) (drop n (rt_frozen_mem r)) (rt_segments r) r else r) ;;
      r ← mget;
      (if rt_wal_epoch r =? fz_wal_epoch_at_start s then job_step "Freeze: WAL::Reset failed: " (on_wal wal_Reset)
       else mret tt) ;;
      mret (Some (fz_to kPublish s))
  | kPublish => mmodify PublishSnapshot ;; mret (Some (fz_to kDone s))
  | kDone => mret None
  | kCleanup => mret (Some s)
  end.

(** src/core/shard/runtime.cc:932-943 [VectorRuntime::HandleFreeze]. The rounds
    that fit before the job is cancelled; [clock] gives the wall-clock seconds
    and the steady clock at each round.  A budget that runs out only suspends the
    loop, so the rounds follow each other as here. *)
Fixpoint freeze_run (rounds : nat) (clock : nat -> Z * Z) (s : FreezeState) : M VectorRuntime unit :=
  match rounds with
  | O => mfail (Aborted "Freeze timed out")
  | S rounds =>
      let '(now_sec, tick) := clock rounds in
      next ← freeze_step now_sec tick s;
      match next with
      | None => mret tt
      | Some s => freeze_run rounds clock s
      end
  end.

(** src/core/shard/runtime.cc:907-944 [VectorRuntime::HandleFreeze]. The loop
    runs inside the call, so no other job is ever pending. *)
Definition HandleFreeze (rounds : nat) (clock : nat -> Z * Z) : M VectorRuntime unit :=
  mmodify (fun r => if 0 <? mt_GetCount (rt_mem r) then RotateMemTable r else r) ;;
  r ← mget;
  if bool_decide (rt_frozen_mem r = []) then mret tt else
  freeze_run rounds clock
    (MkFreeze kBuild (rt_frozen_mem r) 0 0 None [] None [] false [] (rt_wal_epoch r)).

(** src/core/shard/runtime.cc:705-711 [VectorRuntime::Freeze]. *)
Definition rt_Freeze (rounds : nat) (clock : nat -> Z * Z) : M VectorRuntime unit :=
  r ← mget;
  mguard (rt_started r) (Aborted "shard not started") ;;
  HandleFreeze rounds clock.

End runtime.

Arguments VectorRuntime : clear implicits.
