(* ===== verification/RuntimeTheorems.v ===== *)
(** * Theorems about the shard's writes and reads

    A shard without in-memory quantisation and without write coalescing
    implements a store: what a lookup finds changes with every successful write
    exactly as the store does, a failed write changes nothing, and rotations are
    invisible.  A coalesced write, in contrast, is acknowledged before it is
    logged or visible. *)
From S2P Require Import Prelude FlatHash Env Types Wal WalLog WalTheorems Manifest MemTable MemTableTheorems Segment Layers Runtime.

Open Scope Z_scope.

Section store.
Context {T : Type} `{IdMapLaws T (option bytes)} `{F32} `{AesGcm}.
Context (quant_decode : SegmentReader -> bytes -> vec).
Implicit Types (m : MemTable T) (r : VectorRuntime T).

(** ** Running a write *)

Lemma mguard_cases {S A} b e (k : M S A) s res s' :
  (mguard b e ;; k) s = (res, s') -> (res = inl e /\ s' = s) \/ (b = true /\ k s = (res, s')).
Proof. destruct b; [by right|]. intros [= <- <-]. by left. Qed.

Lemma mguard_ok {S A} b e (k : M S A) s : b = true -> (mguard b e ;; k) s = k s.
Proof. by intros ->. Qed.

Lemma mbind_cases {S A B} (m : M S A) (k : A -> M S B) s res s' :
  (m ≫= k) s = (res, s') ->
  (exists e, m s = (inl e, s') /\ res = inl e) \/ (exists a s1, m s = (inr a, s1) /\ k a s1 = (res, s')).
Proof. unfold mbind, M_bind. destruct (m s) as [[e|a] s1]; naive_solver. Qed.

(** ** One memtable *)

(** A memtable of dimension [dim] that stores plain floats. *)
Record mem_ok (dim : Z) m : Prop := {
  mo_inv : mt_inv m;
  mo_dim : mt_dim m = dim;
  mo_plain : mt_quantize_inmem m = false;
  mo_vecs id mem : im_abs (mt_map m) !! id = Some (Some mem) -> exists v, mem = vec_bytes v /\ vec_dim v = dim /\ vec_ok v
}.

(** What a memtable says about an identifier. *)
Definition mem_answer (dim : Z) m (id : Z) : LookupResult :=
  match mt_view m id with
  | None => LNotFound
  | Some None => LTombstone
  | Some (Some (mem, meta)) => LFound (read_vec (Z.to_nat dim) mem) meta
  end.

Lemma lookup_mem_answer dim m id :
  mem_ok dim m -> id_ok id -> lookup_mem dim id m = Some (mem_answer dim m id).
Proof.
  intros [Hinv _ _ Hv] Hid. unfold lookup_mem, mt_IsTombstone.
  rewrite (mt_Get_view m id (mi_map _ Hinv) Hid), im_find_abs by first [done|apply Hinv].
  unfold mem_answer, mt_view. destruct (im_abs (mt_map m) !! id) as [[mem|]|] eqn:E; try done.
  destruct (Hv _ _ E) as (v & -> & Hd & _). unfold read_span.
  rewrite (proj2 (Z.leb_le _ _)); [done|]. unfold vec_dim in Hd. len.
Qed.

Lemma read_vec_dim dim v : vec_dim v = dim -> vec_ok v -> read_vec (Z.to_nat dim) (vec_bytes v) = v.
Proof.
  intros <- Hv. unfold vec_dim, zlen. rewrite Nat2Z.id.
  rewrite <-(app_nil_r (vec_bytes v)). by apply read_vec_bytes.
Qed.

Lemma mem_ok_new dim blk : mem_ok dim (mt_new (T := T) dim blk false).
Proof. split; [apply mt_inv_new|done..|]. intros id mem. cbn. by rewrite im_abs_new, lookup_empty. Qed.

Lemma mem_answer_new dim blk id : mem_answer dim (mt_new (T := T) dim blk false) id = LNotFound.
Proof. unfold mem_answer, mt_view. cbn. by rewrite im_abs_new, lookup_empty. Qed.

(** What a put keeps of the metadata. *)
Definition kept (meta : Metadata) : Metadata := if keeps_meta meta then meta else md_default.

Lemma mem_put dim m id v meta :
  mem_ok dim m -> id_ok id -> vec_dim v = dim -> vec_ok v ->
  exists m', mt_Put id v meta m = (inr tt, m') /\ mem_ok dim m' /\
    forall i, mem_answer dim m' i = if decide (i = id) then LFound v (kept meta) else mem_answer dim m i.
Proof.
  intros Hok Hid Hd Hv. pose proof Hok as [Hinv Hdim Hq Hvecs]. rewrite <-Hdim in Hd.
  pose proof (mt_inv_put m id v meta Hinv Hid Hd) as Hinv'.
  pose proof (fun i => mt_view_put m id v meta i Hinv Hid Hd) as Hview.
  destruct (mt_Put_ok m id v meta Hd) as (m' & E & Emap & _ & _ & Edim & Eq). rewrite E in *. cbn [snd] in *.
  exists m'. split; [done|].
  assert (put_mem m v = vec_bytes v) as Em by (unfold put_mem; by rewrite Hq). rewrite Em in *. split.
  - split; [done|congruence|congruence|]. intros i mem. rewrite Emap, im_abs_put by first [done|apply Hinv].
    destruct (decide (i = id)) as [->|Hne].
    + rewrite lookup_insert_eq. intros [= <-]. exists v. split_and!; [done|congruence|done].
    + rewrite lookup_insert_ne by done. apply Hvecs.
  - intros i. unfold mem_answer. rewrite Hview. case_decide; [|done].
    rewrite read_vec_dim by (first [congruence|done]). done.
Qed.

Lemma mem_delete dim m id :
  mem_ok dim m -> id_ok id ->
  exists m', mt_Delete id m = (inr tt, m') /\ mem_ok dim m' /\
    forall i, mem_answer dim m' i = if decide (i = id) then LTombstone else mem_answer dim m i.
Proof.
  intros [Hinv Hdim Hq Hvecs] Hid. exists (mt_Delete id m).2. split; [done|]. split.
  - split; [by apply mt_inv_delete|done..|]. intros i mem. cbn [snd mt_Delete mt_map].
    rewrite im_abs_put by first [done|apply Hinv]. destruct (decide (i = id)) as [->|Hne].
    + by rewrite lookup_insert_eq.
    + rewrite lookup_insert_ne by done. apply Hvecs.
  - intros i. unfold mem_answer. rewrite mt_view_delete by done. by case_decide.
Qed.

(** The vector a batch leaves under an identifier: the last one. *)
Definition batch_vec (ids : list Z) (vs : list vec) (i : Z) : option vec :=
  (list_to_map (reverse (zip ids vs)) : gmap Z vec) !! i.

Lemma fold_insert_batch (items : list (Z * vec)) (mp : gmap Z (option bytes)) i :
  fold_left (fun mp '(id, v) => <[id := Some (vec_bytes v)]> mp) items mp !! i =
  match (list_to_map (reverse items) : gmap Z vec) !! i with
  | Some v => Some (Some (vec_bytes v))
  | None => mp !! i
  end.
Proof.
  induction items as [|[id v] items IH] using rev_ind; [done|].
  rewrite fold_left_app, reverse_snoc. cbn [fold_left list_to_map foldr uncurry].
  destruct (decide (i = id)) as [->|Hne]; [by rewrite !lookup_insert_eq|by rewrite !lookup_insert_ne].
Qed.

Lemma batch_vec_in ids vs i v : batch_vec ids vs i = Some v -> (i, v) ∈ zip ids vs.
Proof. unfold batch_vec. intros Hv%elem_of_list_to_map_2. by rewrite reverse_Permutation in Hv. Qed.

Lemma mem_putbatch dim m ids vs :
  mem_ok dim m -> length ids = length vs -> Forall id_ok ids -> Forall (fun v => vec_dim v = dim /\ vec_ok v) vs ->
  exists m', mt_PutBatch ids vs m = (inr tt, m') /\ mem_ok dim m' /\
    forall i, match batch_vec ids vs i with
              | Some v => exists meta, mem_answer dim m' i = LFound v meta
              | None => mem_answer dim m' i = mem_answer dim m i
              end.
Proof.
  intros [Hinv Hdim Hq Hvecs] Hl Hid Hvs.
  assert (Forall (fun v => vec_dim v = mt_dim m) vs) as Hd by (eapply Forall_impl; [exact Hvs|]; intros v [? _]; congruence).
  pose proof (mt_inv_putbatch m ids vs Hinv Hl Hd Hid) as Hinv'.
  destruct (mt_PutBatch_ok m ids vs Hl Hd) as (m' & E & Emap & Emeta & _ & Edim & Eq). rewrite E in *. cbn [snd] in *.
  assert (Forall (fun p : Z * vec => id_ok p.1) (zip ids vs)) as Hok.
  { rewrite <-(fst_zip ids vs), Forall_fmap in Hid by lia. done. }
  destruct (batch_map_spec (zip ids vs) (mt_map m) (mi_map _ Hinv) Hok) as [_ Ha]. rewrite <-Emap in Ha.
  assert (forall i v, batch_vec ids vs i = Some v -> vec_dim v = dim /\ vec_ok v) as Hbv.
  { intros i v Hi%batch_vec_in. apply (list_elem_of_fmap_2 snd) in Hi. rewrite snd_zip in Hi by lia.
    rewrite Forall_forall in Hvs. by apply Hvs. }
  exists m'. split; [done|]. split.
  - split; [done|congruence|congruence|]. intros i mem. rewrite Ha, fold_insert_batch. fold (batch_vec ids vs i).
    destruct (batch_vec ids vs i) as [v|] eqn:Eb; [|apply Hvecs]. intros [= <-]. exists v. by eauto.
  - intros i. unfold mem_answer, mt_view. rewrite Ha, fold_insert_batch, Emeta. fold (batch_vec ids vs i).
    destruct (batch_vec ids vs i) as [v|] eqn:Eb; [|done]. destruct (Hbv _ _ Eb) as [Hdv Hov].
    eexists. by rewrite read_vec_dim.
Qed.

(** ** The layers of a shard *)

(** The first answer of a list of memtables. *)
Fixpoint mems_answer (dim : Z) (ms : list (MemTable T)) (id : Z) : LookupResult :=
  match ms with
  | [] => LNotFound
  | m :: ms => match mem_answer dim m id with LNotFound => mems_answer dim ms id | a => a end
  end.

Lemma first_answer_mems dim ms id :
  Forall (mem_ok dim) ms -> id_ok id -> first_answer (lookup_mem dim id) ms = Some (mems_answer dim ms id).
Proof.
  intros Hms Hid. induction Hms as [|m ms Hm _ IH]; [done|]. cbn [first_answer mems_answer].
  rewrite lookup_mem_answer by done. cbn [mbind option_bind]. by destruct (mem_answer dim m id).
Qed.

Lemma mems_answer_app dim ms ms' id :
  mems_answer dim (ms ++ ms') id = match mems_answer dim ms id with LNotFound => mems_answer dim ms' id | a => a end.
Proof. induction ms as [|m ms IH]; [done|]. cbn [app mems_answer]. rewrite IH. by destruct (mem_answer dim m id). Qed.

(** A started shard whose snapshot is up to date. *)
Record rt_inv r : Prop := {
  ri_mem : mem_ok (rc_dim (rt_conf r)) (rt_mem r);
  ri_frozen : Forall (mem_ok (rc_dim (rt_conf r))) (rt_frozen_mem r);
  ri_plain : rc_quantize_inmem (rt_conf r) = false;
  ri_snap : exists ver, rt_snapshot r = Some (MkSnap ver (rt_frozen_mem r) (rt_segments r) None)
}.

(** What a point lookup finds. *)
Definition rt_find r (id : Z) : option LookupResult :=
  LookupById quant_decode (Some (rt_mem r)) (rt_snapshot r) id (rc_dim (rt_conf r)).

(** What the segments say. *)
Definition segs_answer (dim : Z) (segs : list SegmentReader) (id : Z) : option LookupResult :=
  first_answer (lookup_seg quant_decode dim id) segs.

(** The memtables from the newest to the oldest, then the segments. *)
Definition layered (dim : Z) (ms : list (MemTable T)) (segs : list SegmentReader) (id : Z) : option LookupResult :=
  match mems_answer dim ms id with LNotFound => segs_answer dim segs id | a => Some a end.

Lemma rt_find_layers r id :
  rt_inv r -> id_ok id ->
  rt_find r id = layered (rc_dim (rt_conf r)) (rt_mem r :: reverse (rt_frozen_mem r)) (rt_segments r) id.
Proof.
  intros [Hm Hf _ [ver Hs]] Hid. unfold rt_find, LookupById, layered, segs_answer. rewrite Hs. cbn [option_list vs_frozen_memtables vs_segments].
  rewrite !first_answer_mems by (first [done|by apply Forall_singleton|by apply Forall_reverse]).
  change (option_list (Some (rt_mem r))) with [rt_mem r]. cbn [mbind option_bind mems_answer].
  destruct (mem_answer _ (rt_mem r) id); [done..|]. by destruct (mems_answer _ (reverse _) id).
Qed.

(** ** Rotation is invisible *)

Lemma rt_inv_rotate r : rt_inv r -> rt_inv (RotateMemTable r).
Proof.
  intros [Hm Hf Hq Hs]. unfold RotateMemTable. destruct (_ =? 0); [done|].
  split; cbn; [rewrite Hq; apply mem_ok_new|by apply Forall_app_2; [|apply Forall_singleton]|done|by eexists].
Qed.

Lemma rt_find_rotate r id : rt_inv r -> id_ok id -> rt_find (RotateMemTable r) id = rt_find r id.
Proof.
  intros Hinv Hid. rewrite !rt_find_layers by (first [done|by apply rt_inv_rotate]).
  unfold RotateMemTable. destruct (_ =? 0); [done|].
  unfold layered. cbn [PublishSnapshot with_layers rt_conf rt_mem rt_frozen_mem rt_segments mems_answer].
  rewrite (ri_plain _ Hinv), reverse_snoc. cbn [mems_answer]. by rewrite mem_answer_new.
Qed.

Lemma rt_inv_rotate_if_full r : rt_inv r -> rt_inv (rotate_if_full r).
Proof. intros. unfold rotate_if_full. destruct (_ <=? _); [by apply rt_inv_rotate|done]. Qed.

Lemma rt_find_rotate_if_full r id : rt_inv r -> id_ok id -> rt_find (rotate_if_full r) id = rt_find r id.
Proof. intros. unfold rotate_if_full. destruct (_ <=? _); [by apply rt_find_rotate|done]. Qed.

(** ** The state around a write *)

(** [r'] differs from [r] only in the log and in counters. *)
Record same_data r r' : Prop := {
  sd_conf : rt_conf r' = rt_conf r;
  sd_mem : rt_mem r' = rt_mem r;
  sd_frozen : rt_frozen_mem r' = rt_frozen_mem r;
  sd_segments : rt_segments r' = rt_segments r;
  sd_snapshot : rt_snapshot r' = rt_snapshot r;
  sd_coalesce : rt_coalesce_buffer r' = rt_coalesce_buffer r
}.

#[global] Instance same_data_equiv : Equivalence same_data.
Proof.
  split; [by intros r|intros r r' []; by split|].
  intros r1 r2 r3 [] []. split; congruence.
Qed.

Lemma same_data_inv r r' : same_data r r' -> rt_inv r -> rt_inv r'.
Proof.
  intros [Ec Em Ef Es En _] [Hm Hf Hq Hs]. split; rewrite ?Ec, ?Em, ?Ef; [done..|].
  by rewrite En, Es.
Qed.

Lemma same_data_find r r' id : same_data r r' -> rt_find r' id = rt_find r id.
Proof. intros [Ec Em _ _ En _]. unfold rt_find. by rewrite Ec, Em, En. Qed.

Lemma same_data_on_wal {A} (m : M Wal A) r x r' : on_wal m r = (x, r') -> same_data r r'.
Proof. unfold on_wal. destruct (m (rt_wal r)) as [y w]. by intros [= _ <-]. Qed.

Lemma same_data_note_wal r : same_data r (note_wal r).
Proof. done. Qed.
Lemma same_data_count_op r : same_data r (count_op r).
Proof. done. Qed.

(** Replacing the active memtable. *)
Lemma rt_inv_with_mem r m : rt_inv r -> mem_ok (rc_dim (rt_conf r)) m -> rt_inv (with_mem m r).
Proof. intros [Hm Hf Hq Hs] Hok. by split. Qed.

Lemma rt_find_with_mem r m id :
  rt_inv r -> mem_ok (rc_dim (rt_conf r)) m -> id_ok id ->
  rt_find (with_mem m r) id =
  match mem_answer (rc_dim (rt_conf r)) m id with
  | LNotFound => layered (rc_dim (rt_conf r)) (reverse (rt_frozen_mem r)) (rt_segments r) id
  | a => Some a
  end.
Proof.
  intros Hinv Hok Hid. rewrite rt_find_layers by (first [done|by apply rt_inv_with_mem]).
  unfold layered. cbn. by destruct (mem_answer _ m id).
Qed.

(** ** Writes as store updates *)

(** Writes go through to the log: coalescing is off. *)
Record writes_through r : Prop := {
  wt_window : rc_coalesce_window_us (rt_conf r) <= 0;
  wt_buffer : rt_coalesce_buffer r = []
}.

Inductive rt_op : Type :=
  | OpPut (now_us id : Z) (v : vec) (meta : Metadata)
  | OpPutBatch (ids : list Z) (vs : list vec)
  | OpDelete (id : Z)
  | OpFlushLog
  | OpBeginBatch
  | OpEndBatch.

Definition run_op (op : rt_op) : M (VectorRuntime T) unit :=
  match op with
  | OpPut now_us id v meta => rt_Put now_us id v meta
  | OpPutBatch ids vs => rt_PutBatch ids vs
  | OpDelete id => rt_Delete id
  | OpFlushLog => rt_Flush
  | OpBeginBatch => rt_BeginBatch
  | OpEndBatch => rt_EndBatch
  end.

(** Identifiers other than the reserved one, and floats as 32-bit patterns. *)
Definition shard_op_ok (op : rt_op) : Prop :=
  match op with
  | OpPut _ id v _ => id_ok id /\ vec_ok v
  | OpPutBatch ids vs => Forall id_ok ids /\ Forall vec_ok vs
  | OpDelete id => id_ok id
  | _ => True
  end.

#[global] Instance id_ok_dec id : Decision (id_ok id).
Proof. unfold id_ok. apply _. Defined.
#[global] Instance vec_ok_dec v : Decision (vec_ok v).
Proof. unfold vec_ok. apply _. Defined.
#[global] Instance shard_op_ok_dec op : Decision (shard_op_ok op).
Proof. destruct op; cbn; apply _. Defined.

(** A store maps identifiers to what a lookup finds. *)
Definition store : Type := Z -> option LookupResult.

Definition same_store (s s' : store) : Prop := forall i, id_ok i -> s' i = s i.

(** What an operation that succeeds does to the store.  A put records the
    sequence number of its log record; a batch keeps metadata of its own
    choosing. *)
Definition spec_ok (op : rt_op) (s s' : store) : Prop :=
  match op with
  | OpPut _ id v meta => exists lsn, same_store (fun i => if decide (i = id) then Some (LFound v (kept (with_lsn lsn meta))) else s i) s'
  | OpPutBatch ids vs => forall i, id_ok i ->
      match batch_vec ids vs i with
      | Some v => exists meta, s' i = Some (LFound v meta)
      | None => s' i = s i
      end
  | OpDelete id => same_store (fun i => if decide (i = id) then Some LTombstone else s i) s'
  | _ => same_store s s'
  end.

(** An operation that fails leaves the store alone. *)
Definition spec_step (op : rt_op) (res : Status + unit) (s s' : store) : Prop :=
  match res with inl _ => same_store s s' | inr _ => spec_ok op s s' end.

(** The obligations of a step of the shard. *)
Record step_sim (op : rt_op) (res : Status + unit) r r' : Prop := {
  ss_inv : rt_inv r';
  ss_through : writes_through r';
  ss_conf : rt_conf r' = rt_conf r;
  ss_spec : spec_step op res (rt_find r) (rt_find r')
}.

Lemma step_sim_fail op e r r' :
  rt_inv r -> writes_through r -> same_data r r' -> step_sim op (inl e) r r'.
Proof.
  intros Hinv [Hw Hb] Hs. pose proof Hs as [Ec _ _ _ _ Eb].
  split; [by eapply same_data_inv|by split; rewrite ?Ec, ?Eb|done|]. intros i _. by apply same_data_find.
Qed.

Lemma step_sim_ok op r r' :
  rt_inv r -> writes_through r -> same_data r r' -> spec_ok op (rt_find r) (rt_find r) -> step_sim op (inr tt) r r'.
Proof.
  intros Hinv [Hw Hb] Hs Hop. pose proof Hs as [Ec _ _ _ _ Eb].
  split; [by eapply same_data_inv|by split; rewrite ?Ec, ?Eb|done|].
  pose proof (fun i => same_data_find r r' i Hs) as E.
  unfold spec_step. destruct op; cbn [spec_ok] in *.
  1: destruct Hop as [lsn Hop]; exists lsn.
  all: intros i Hi; specialize (Hop i Hi); rewrite E; exact Hop.
Qed.

(** The guards of a write: a failing one ends the proof. *)
Ltac guard_step E Hinv Hw H :=
  apply mguard_cases in E as [[-> ->]|[H E]]; [by apply (step_sim_fail _ _ _ _ Hinv Hw)|].

(** What a lookup finds when [m'] is the active memtable over the other layers. *)
Definition find_over r m' : store := fun i =>
  match mem_answer (rc_dim (rt_conf r)) m' i with
  | LNotFound => layered (rc_dim (rt_conf r)) (reverse (rt_frozen_mem r)) (rt_segments r) i
  | a => Some a
  end.

Lemma spec_ok_ext op s s1 s2 : same_store s1 s2 -> spec_ok op s s1 -> spec_ok op s s2.
Proof.
  intros E. destruct op; cbn [spec_ok]; [intros [lsn Hop]; exists lsn|intros Hop..];
    intros i Hi; specialize (Hop i Hi); rewrite E by done; exact Hop.
Qed.

(** After the log record is written, the memtable changes and may be rotated. *)
Lemma apply_sim op r r1 m' r2 :
  rt_inv r -> writes_through r -> same_data r r1 -> mem_ok (rc_dim (rt_conf r)) m' ->
  r2 = rotate_if_full (with_mem m' r1) \/ r2 = with_mem m' r1 ->
  spec_ok op (rt_find r) (find_over r m') -> step_sim op (inr tt) r (count_op r2).
Proof.
  intros Hinv [Hwin Hbuf] Hs Hm Hr Hspec. pose proof Hs as [Ec _ Ef Eg _ Eb].
  assert (rt_inv (with_mem m' r1)) as Hinv1.
  { apply rt_inv_with_mem; [by eapply same_data_inv|by rewrite Ec]. }
  assert (rt_inv r2 /\ rt_conf r2 = rt_conf r /\ rt_coalesce_buffer r2 = [] /\
    same_store (rt_find (with_mem m' r1)) (rt_find r2)) as (Hinv2 & Ec' & Eb' & Ef').
  { destruct Hr as [->| ->]; [|by rewrite <-Hbuf, <-Eb].
    split_and!; [by apply rt_inv_rotate_if_full| | |intros i Hi; by apply rt_find_rotate_if_full];
      rewrite <-?Hbuf, <-?Eb, <-?Ec; unfold rotate_if_full, RotateMemTable; by repeat case_match. }
  split; [by eapply same_data_inv; [apply same_data_count_op|]|split; cbn; [rewrite Ec'; exact Hwin|done]|done|]. unfold spec_step. eapply spec_ok_ext; [|exact Hspec].
  intros i Hi. rewrite (same_data_find _ _ i (same_data_count_op _)), Ef' by done.
  rewrite rt_find_with_mem by (first [done|by rewrite Ec|by eapply same_data_inv]). unfold find_over. by rewrite Ec, Ef, Eg.
Qed.

Lemma find_over_old r : rt_inv r -> same_store (find_over r (rt_mem r)) (rt_find r).
Proof.
  intros Hinv i Hi. rewrite rt_find_layers by done. unfold find_over, layered. cbn [mems_answer].
  by destruct (mem_answer _ (rt_mem r) i).
Qed.

(** The log record first: when it fails, nothing else happens. *)
Lemma logged_cases {A} (w : M Wal unit) (k : M (VectorRuntime T) A) r res r1 :
  (on_wal w ;; mmodify note_wal ;; k) r = (res, r1) ->
  (exists e, res = inl e /\ same_data r r1) \/ (exists r0, same_data r r0 /\ k r0 = (res, r1)).
Proof.
  intros [(e & E & ->)|([] & r0 & E & E')]%mbind_cases.
  - left. exists e. split; [done|]. by eapply same_data_on_wal.
  - right. exists (note_wal r0). split; [|done]. etrans; [by eapply same_data_on_wal|apply same_data_note_wal].
Qed.

(** A handler either leaves the data alone and fails, or applies [P] to the
    active memtable. *)
Definition handled (P : MemTable T -> Prop) r (res : Status + unit) r1 : Prop :=
  (exists e, res = inl e /\ same_data r r1) \/
  (res = inr tt /\ exists r0 m', same_data r r0 /\ P m' /\
    (r1 = rotate_if_full (with_mem m' r0) \/ r1 = with_mem m' r0)).

Lemma handled_fail P r e : handled P r (inl e) r.
Proof. left. by exists e. Qed.

Ltac handled_guard E := apply mguard_cases in E as [[-> ->]|[_ E]]; [apply handled_fail|].

Lemma HandlePut_cases now_us id v meta r res r1 :
  rt_inv r -> writes_through r -> id_ok id -> vec_ok v -> vec_dim v = rc_dim (rt_conf r) ->
  HandlePut now_us id v meta r = (res, r1) ->
  handled (fun m' => mem_ok (rc_dim (rt_conf r)) m' /\ exists lsn, forall i, mem_answer (rc_dim (rt_conf r)) m' i =
    if decide (i = id) then LFound v (kept (with_lsn lsn meta)) else mem_answer (rc_dim (rt_conf r)) (rt_mem r) i) r res r1.
Proof.
  intros Hinv Hw Hid Hv Hd E. unfold HandlePut in E. rewrite (mbind_ok _ _ _ r r) in E by done.
  do 3 handled_guard E. rewrite (proj2 (Z.ltb_ge _ _)) in E by apply Hw.
  apply logged_cases in E as [E|(r0 & Hs & E)]; [by left|]. right.
  rewrite (mbind_ok _ _ _ r0 r0) in E by done. unfold on_mem in E. unfold mbind, M_bind in E.
  rewrite (sd_mem _ _ Hs) in E.
  destruct (mem_put (rc_dim (rt_conf r)) (rt_mem r) id v (with_lsn (w_seq (rt_wal r0)) meta)) as (m' & Em & Hm & Ha);
    [apply Hinv|done..|].
  rewrite Em in E. injection E as <- <-. split; [done|]. exists r0, m'. split_and!; [done..|by eexists|by left].
Qed.

Lemma HandleBatchPut_cases ids vs r res r1 :
  rt_inv r -> Forall id_ok ids -> Forall (fun v => vec_dim v = rc_dim (rt_conf r) /\ vec_ok v) vs ->
  HandleBatchPut ids vs r = (res, r1) ->
  handled (fun m' => mem_ok (rc_dim (rt_conf r)) m' /\ forall i,
    match batch_vec ids vs i with
    | Some v => exists meta, mem_answer (rc_dim (rt_conf r)) m' i = LFound v meta
    | None => mem_answer (rc_dim (rt_conf r)) m' i = mem_answer (rc_dim (rt_conf r)) (rt_mem r) i
    end) r res r1.
Proof.
  intros Hinv Hid Hv E. unfold HandleBatchPut in E. rewrite (mbind_ok _ _ _ r r) in E by done.
  handled_guard E. apply mguard_cases in E as [[-> ->]|[Hl E]]; [apply handled_fail|]. handled_guard E.
  apply logged_cases in E as [E|(r0 & Hs & E)]; [by left|]. right.
  unfold on_mem in E. unfold mbind, M_bind in E. rewrite (sd_mem _ _ Hs) in E.
  destruct (mem_putbatch (rc_dim (rt_conf r)) (rt_mem r) ids vs) as (m' & Em & Hm & Ha); [apply Hinv| |done..|].
  { unfold zlen in Hl. lia. }
  rewrite Em in E. injection E as <- <-. split; [done|]. exists r0, m'. split_and!; [done..|by left].
Qed.

Lemma HandleDel_cases id r res r1 :
  rt_inv r -> id_ok id -> HandleDel id r = (res, r1) ->
  handled (fun m' => mem_ok (rc_dim (rt_conf r)) m' /\ forall i, mem_answer (rc_dim (rt_conf r)) m' i =
    if decide (i = id) then LTombstone else mem_answer (rc_dim (rt_conf r)) (rt_mem r) i) r res r1.
Proof.
  intros Hinv Hid E. unfold HandleDel in E.
  apply logged_cases in E as [E|(r0 & Hs & E)]; [by left|]. right.
  unfold on_mem in E. rewrite (sd_mem _ _ Hs) in E.
  destruct (mem_delete (rc_dim (rt_conf r)) (rt_mem r) id) as (m' & Em & Hm & Ha); [apply Hinv|done|].
  rewrite Em in E. injection E as <- <-. split; [done|]. exists r0, m'. split_and!; [done..|by right].
Qed.

(** From a handler to the operation: [ops_processed_] is counted on success. *)
Lemma handled_sim op P r (h : M (VectorRuntime T) unit) res r' :
  rt_inv r -> writes_through r ->
  (forall x r1, h r = (x, r1) -> handled (fun m' => mem_ok (rc_dim (rt_conf r)) m' /\ P m') r x r1) ->
  (forall m', P m' -> spec_ok op (rt_find r) (find_over r m')) ->
  (h ;; mmodify count_op) r = (res, r') -> step_sim op res r r'.
Proof.
  intros Hinv Hw Hh Hspec [(e & E & ->)|([] & r1 & E & E')]%mbind_cases.
  - destruct (Hh _ _ E) as [(e' & _ & Hs)|[? _]]; [|done]. by apply step_sim_fail.
  - injection E' as <- <-. destruct (Hh _ _ E) as [(e' & ? & _)|(_ & r0 & m' & Hs & [Hm HP] & Hr)]; [done|].
    by eapply apply_sim; [..|apply Hspec].
Qed.

Lemma put_sim now_us id v meta r res r' :
  rt_inv r -> writes_through r -> shard_op_ok (OpPut now_us id v meta) ->
  rt_Put now_us id v meta r = (res, r') -> step_sim (OpPut now_us id v meta) res r r'.
Proof.
  intros Hinv Hw [Hid Hv] E. unfold rt_Put in E. rewrite (mbind_ok _ _ _ r r) in E by done.
  guard_step E Hinv Hw Hk. guard_step E Hinv Hw Hd. apply Z.eqb_eq in Hd. guard_step E Hinv Hw Hst.
  eapply handled_sim; [done|done| | |exact E]; [intros x r1; by apply HandlePut_cases|].
  intros m' [lsn Ha]. exists lsn. intros i Hi. unfold find_over. rewrite Ha. destruct (decide (i = id)); [done|].
  by rewrite (find_over_old r Hinv i Hi).
Qed.

Lemma putbatch_sim ids vs r res r' :
  rt_inv r -> writes_through r -> shard_op_ok (OpPutBatch ids vs) ->
  rt_PutBatch ids vs r = (res, r') -> step_sim (OpPutBatch ids vs) res r r'.
Proof.
  intros Hinv Hw [Hid Hv] E. unfold rt_PutBatch in E. rewrite (mbind_ok _ _ _ r r) in E by done.
  guard_step E Hinv Hw Hk. guard_step E Hinv Hw Hl. case_bool_decide as Hnil.
  { injection E as <- <-. subst ids. by apply step_sim_ok. }
  guard_step E Hinv Hw Hd. guard_step E Hinv Hw Hst.
  eapply handled_sim; [done|done| | |exact E].
  - intros x r1. apply HandleBatchPut_cases; [done..|]. apply Forall_forall. intros v Hin.
    rewrite forallb_forall in Hd. specialize (Hd v (proj1 (list_elem_of_In _ _) Hin)).
    rewrite Forall_forall in Hv. split; [lia|by apply Hv].
  - intros m' Ha i Hi. specialize (Ha i). unfold find_over. destruct (batch_vec ids vs i).
    + destruct Ha as [meta ->]. by exists meta.
    + rewrite Ha. by rewrite (find_over_old r Hinv i Hi).
Qed.

Lemma delete_sim id r res r' :
  rt_inv r -> writes_through r -> shard_op_ok (OpDelete id) ->
  rt_Delete id r = (res, r') -> step_sim (OpDelete id) res r r'.
Proof.
  intros Hinv Hw Hid E. unfold rt_Delete in E. rewrite (mbind_ok _ _ _ r r) in E by done. guard_step E Hinv Hw Hst.
  eapply handled_sim; [done|done| | |exact E]; [intros x r1; by apply HandleDel_cases|].
  intros m' Ha i Hi. unfold find_over. rewrite Ha. destruct (decide (i = id)); [done|].
  by rewrite (find_over_old r Hinv i Hi).
Qed.

Lemma wal_only_sim op (w : M Wal unit) r res r' :
  spec_ok op (rt_find r) (rt_find r) ->
  rt_inv r -> writes_through r -> on_wal w r = (res, r') -> step_sim op res r r'.
Proof.
  intros Hop Hinv Hw E. apply same_data_on_wal in E. destruct res as [e|[]]; [by apply step_sim_fail|by apply step_sim_ok].
Qed.

Lemma run_op_sim op r res r' :
  rt_inv r -> writes_through r -> shard_op_ok op -> run_op op r = (res, r') -> step_sim op res r r'.
Proof.
  intros Hinv Hw Hop E. destruct op; cbn [run_op] in E.
  - by apply put_sim.
  - by apply putbatch_sim.
  - by apply delete_sim.
  - unfold rt_Flush in E. rewrite (mbind_ok _ _ _ r r) in E by done. guard_step E Hinv Hw Hst.
    by eapply wal_only_sim.
  - unfold rt_BeginBatch in E. rewrite (mbind_ok _ _ _ r r), (wt_buffer _ Hw) in E by done.
    rewrite (mbind_ok _ _ _ tt r) in E by done. by eapply wal_only_sim.
  - unfold rt_EndBatch in E. rewrite (mbind_ok _ _ _ r r), (wt_buffer _ Hw) in E by done.
    rewrite (mbind_ok _ _ _ tt r) in E by done. by eapply wal_only_sim.
Qed.

(** ** Runs *)

Fixpoint run_shard (ops : list rt_op) r : list (Status + unit) * VectorRuntime T :=
  match ops with
  | [] => ([], r)
  | op :: ops =>
      let '(res, r1) := run_op op r in
      let '(rest, r2) := run_shard ops r1 in
      (res :: rest, r2)
  end.

(** The store along a run. *)
Inductive spec_run : list rt_op -> list (Status + unit) -> store -> store -> Prop :=
  | spec_run_nil s s' : same_store s s' -> spec_run [] [] s s'
  | spec_run_cons op ops res rest s s1 s2 :
      spec_step op res s s1 -> spec_run ops rest s1 s2 -> spec_run (op :: ops) (res :: rest) s s2.

(** How [Get] reports what a lookup found. *)
Definition report (ttl_sec now_sec : Z) (l : LookupResult) : Status + (vec * Metadata) :=
  match l with
  | LTombstone => inl (NotFound "tombstone")
  | LFound v meta => if VectorMetaExpired ttl_sec now_sec meta then inl (NotFound "vector expired") else inr (v, meta)
  | LNotFound => inl (NotFound "vector not found")
  end.

Lemma rt_Get_report now_sec id r :
  rt_inv r -> rt_Get quant_decode now_sec id r = report (rc_ttl_sec (rt_conf r)) now_sec <$> rt_find r id.
Proof.
  intros [_ _ _ [ver Hs]]. unfold rt_Get, rt_find. rewrite Hs.
  destruct (LookupById _ _ _ _ _) as [[]|]; done.
Qed.


(** A coalesced put is acknowledged without being logged and without being
    readable; [Flush] does not write it either. *)
Theorem coalesced_put_is_only_buffered now_us id v meta r :
  rt_inv r -> rt_started r = true -> rc_kind (rt_conf r) = kVector -> vec_dim v = rc_dim (rt_conf r) ->
  backpressure r = false -> 0 < rc_coalesce_window_us (rt_conf r) -> rt_coalesce_buffer r = [] ->
  exists r', rt_Put now_us id v meta r = (inr tt, r') /\
    rt_wal r' = rt_wal r /\ (forall i, rt_find r' i = rt_find r i) /\
    rt_coalesce_buffer r' = [MkCoalesce id v meta] /\
    (forall res r'', rt_Flush r' = (res, r'') ->
       rt_coalesce_buffer r'' = [MkCoalesce id v meta] /\ (forall i, rt_find r'' i = rt_find r i)).
Proof.
  intros Hinv Hst Hk Hd Hbp Hwin Hbuf. eexists. split.
  - unfold rt_Put. rewrite (mbind_ok _ _ _ r r) by done.
    rewrite !mguard_ok by (first [done|by rewrite Hk|lia]).
    unfold HandlePut. erewrite mbind_ok; [reflexivity|]. rewrite (mbind_ok _ _ _ r r) by done.
    rewrite !mguard_ok by (first [by rewrite Hk|by rewrite Hbp|lia]). rewrite (proj2 (Z.ltb_lt _ _) Hwin).
    unfold coalesce_put. rewrite (mbind_ok _ _ _ r r), Hbuf by done. rewrite (mbind_ok _ _ _ tt r) by done.
    unfold mmodify. by rewrite Hbuf.
  - split_and!; [done..|]. intros res r'' E. unfold rt_Flush in E. erewrite mbind_ok in E by done.
    apply mguard_cases in E as [[_ ->]|[_ E]]; [done|]. apply same_data_on_wal in E.
    split; [by rewrite (sd_coalesce _ _ E)|]. intros i. by rewrite (same_data_find _ _ i E).
Qed.
End store.

(** ** Concrete runs *)

#[local] Existing Instance test_f32.
#[local] Existing Instance test_idmap.
#[local] Existing Instance test_idmap_laws.
#[local] Existing Instance test_aes.

Definition test_decode (s : SegmentReader) (b : bytes) : vec := [].

(** A started shard of dimension 2 on an empty directory. *)
Definition test_rt (window_us : Z) : VectorRuntime (@FlatHashMemMap (option bytes)) :=
  MkRt (MkRtConf "db" 2 kVector false 0 window_us 8) (wal_Open test_wal).2 (test_mem false) [] []
    (Some (MkSnap 1 [] [] None)) 2 0 true 0 0 0 [] 0.

Lemma test_rt_inv window_us : rt_inv (test_rt window_us).
Proof. split; [apply mem_ok_new|constructor|done|by eexists]. Qed.


Lemma coalesced_put_is_only_buffered_witness :
  exists r', rt_Put 0 7 [1; 2] md_default (test_rt 100) = (inr tt, r') /\ rt_wal r' = rt_wal (test_rt 100).
Proof.
  destruct (coalesced_put_is_only_buffered test_decode 0 7 [1; 2] md_default (test_rt 100) (test_rt_inv 100))
    as (r' & E & Hw & _); [reflexivity..|cbn; lia|reflexivity|].
  exists r'. split; [exact E|exact Hw].
Defined.

(** A coalesced put outlives a later delete of the same identifier: the
    delete is logged and applied at once, the buffered put only when the buffer
    is drained, after which the deleted vector is found again. *)
Theorem coalesced_put_outlives_delete :
  let deleted := (rt_Put 0 7 [1; 2] md_default ;; rt_Delete 7) (test_rt 100) in
  let drained := rt_BeginBatch deleted.2 in
  deleted.1 = inr tt /\ rt_Get test_decode 0 7 deleted.2 = Some (inl (NotFound "tombstone")) /\
  drained.1 = inr tt /\ rt_Get test_decode 0 7 drained.2 = Some (inr ([1; 2], md_default)).
Proof. cbv zeta. split; [|split; [|split]]; vm_compute; reflexivity. Qed.
