(* ===== verification/FreezeDisk.v ===== *)
(** * Files of a shard: who touches what

    The log, the segment manifest and the segments of a shard live in one file
    system.  The names of the three kinds of files are distinct, so an operation
    on one kind leaves the others alone; a log operation changes log files only,
    under every pattern of I/O errors. *)
From S2P Require Import Prelude Env Types Wal WalCodec WalLog Text PosixFile SegmentManifest Segment SegmentTheorems Runtime.

Open Scope Z_scope.

(** ** Names *)

(** The path of a segment. *)
Definition seg_path (dir : path) (name : bytes) : path := path_join dir (text name).

(** The shape of the names a freeze makes. *)
Definition dat_name (name : bytes) : Prop := exists stem, name = stem ++ bstr ".dat" /\ no_nl stem.

Lemma dat_name_seg_name name : dat_name name -> seg_name name.
Proof.
  intros (stem & -> & Hn). split; [by destruct stem|]. unfold no_nl in *. rewrite not_elem_of_app. split; [done|].
  apply (bool_decide_unpack _). by vm_compute.
Qed.

Lemma bstr_seg_path dir name : bstr (seg_path dir name) = dir_prefix dir ++ name.
Proof. unfold seg_path. by rewrite bstr_path_join, bstr_text. Qed.

Lemma seg_path_inj dir n1 n2 : seg_path dir n1 = seg_path dir n2 -> n1 = n2.
Proof. intros E%(f_equal bstr). rewrite !bstr_seg_path in E. by apply app_inv_head in E. Qed.

(** A path of the log. *)
Definition wal_path (p : path) : Prop := exists c g, p = SegmentPath c g.

Lemma wal_path_suffix p : wal_path p -> exists pre, bstr p = pre ++ bstr ".log".
Proof.
  intros (c & g & ->). unfold SegmentPath. rewrite !bstr_app, !app_assoc. by eexists.
Qed.

(** Two paths with different endings are different. *)
Lemma suffix_ne pre1 pre2 (s1 s2 : bytes) :
  length s1 = length s2 -> s1 <> s2 -> pre1 ++ s1 <> pre2 ++ s2.
Proof. intros Hl Hne E. by apply app_inj_2 in E as [_ ?]. Qed.

Lemma seg_path_not_wal dir name : dat_name name -> ~ wal_path (seg_path dir name).
Proof.
  intros (stem & -> & _) (pre & E)%wal_path_suffix. rewrite bstr_seg_path, app_assoc in E.
  by apply suffix_ne in E.
Qed.

Lemma seg_tmp_not_wal dir name : dat_name name -> ~ wal_path (seg_path dir name +:+ ".tmp").
Proof. intros _ (pre & E)%wal_path_suffix. rewrite bstr_app in E. by apply suffix_ne in E. Qed.

Lemma seg_tmp_not_seg dir n1 n2 : dat_name n2 -> seg_path dir n1 +:+ ".tmp" <> seg_path dir n2.
Proof.
  intros (stem & -> & _) E%(f_equal bstr). rewrite bstr_app, !bstr_seg_path, (app_assoc _ stem) in E.
  by apply suffix_ne in E.
Qed.

(** The files of the segment manifest. *)
Definition manifest_path (dir p : path) : Prop := p = curr_path dir \/ p = prev_path dir \/ p = tmp_path dir.

Lemma manifest_not_wal dir p : manifest_path dir p -> ~ wal_path p.
Proof.
  intros Hp (pre & E)%wal_path_suffix.
  destruct Hp as [->|[->| ->]]; unfold curr_path, prev_path, tmp_path in E; rewrite bstr_path_join in E.
  - change (bstr "manifest.current") with (bstr "manifest.cur" ++ bstr "rent") in E. rewrite app_assoc in E. by apply suffix_ne in E.
  - change (bstr "manifest.prev") with (bstr "manifest." ++ bstr "prev") in E. rewrite app_assoc in E. by apply suffix_ne in E.
  - change (bstr "manifest.tmp") with (bstr "manifest" ++ bstr ".tmp") in E. rewrite app_assoc in E. by apply suffix_ne in E.
Qed.

(** A segment name is not one of three fixed names. *)
Lemma seg_path_not_manifest dir name p : dat_name name -> manifest_path dir p -> p <> seg_path dir name.
Proof.
  intros (stem & -> & _) Hp E%(f_equal bstr). rewrite bstr_seg_path in E.
  destruct Hp as [->|[->| ->]]; unfold curr_path, prev_path, tmp_path in E; rewrite bstr_path_join in E;
    apply app_inv_head, (f_equal reverse) in E; rewrite reverse_app in E; by vm_compute in E.
Qed.

Lemma seg_tmp_not_manifest dir name p : dat_name name -> manifest_path dir p -> p <> seg_path dir name +:+ ".tmp".
Proof.
  intros (stem & -> & _) Hp E%(f_equal bstr). rewrite bstr_app, bstr_seg_path, <-!app_assoc in E.
  destruct Hp as [->|[->| ->]]; unfold curr_path, prev_path, tmp_path in E; rewrite bstr_path_join in E;
    apply app_inv_head, (f_equal reverse) in E; rewrite reverse_app in E; by vm_compute in E.
Qed.

(** The names of one freeze differ in the number of the part. *)
Lemma segment_filename_dat tick i k :
  is_u64 tick -> is_u64 (Z.of_nat i) -> is_u64 (Z.of_nat k) -> dat_name (segment_filename tick i k).
Proof.
  intros Ht Hi Hk. unfold segment_filename.
  exists (bstr "seg_" ++ to_string tick ++ bstr "_" ++ to_string (Z.of_nat i) ++ bstr "_" ++ to_string (Z.of_nat k)).
  split; [by rewrite <-!app_assoc|]. unfold no_nl.
  assert (forall n, is_u64 n -> nl ∉ to_string n) as Hd.
  { intros n Hn Hin. pose proof (to_string_digits n Hn) as Hf. rewrite Forall_forall in Hf. by specialize (Hf _ Hin). }
  rewrite !not_elem_of_app. split_and!; try (by apply Hd); apply (bool_decide_unpack _); by vm_compute.
Qed.

Lemma last_separator {A} (x : A) pre1 pre2 ds1 ds2 :
  x ∉ ds1 -> x ∉ ds2 -> pre1 ++ x :: ds1 = pre2 ++ x :: ds2 -> ds1 = ds2.
Proof.
  revert ds2. induction ds1 as [|d ds1 IH] using rev_ind; intros ds2 H1 H2 E; destruct ds2 as [|d' ds2 _] using rev_ind.
  - done.
  - rewrite (app_comm_cons ds2), (app_assoc pre2) in E. apply app_inj_tail in E as [_ ->]. set_solver.
  - rewrite (app_comm_cons ds1), (app_assoc pre1) in E. apply app_inj_tail in E as [_ ->]. set_solver.
  - rewrite !app_comm_cons, !app_assoc in E. apply app_inj_tail in E as [E ->].
    f_equal. apply (IH ds2); [set_solver..|done].
Qed.

Lemma segment_filename_part t1 i1 k1 t2 i2 k2 :
  is_u64 (Z.of_nat k1) -> is_u64 (Z.of_nat k2) ->
  segment_filename t1 i1 k1 = segment_filename t2 i2 k2 -> k1 = k2.
Proof.
  intros H1 H2 E. unfold segment_filename in E. rewrite !app_assoc in E. apply app_inv_tail in E.
  rewrite <-!(app_assoc _ (bstr "_")) in E. change (bstr "_" ++ ?x) with (Byte.x5f :: x) in E.
  assert (forall n, is_u64 n -> Byte.x5f ∉ to_string n) as Hd.
  { intros n Hn Hin. pose proof (to_string_digits n Hn) as Hf. rewrite Forall_forall in Hf. by specialize (Hf _ Hin). }
  apply last_separator in E; [|by apply Hd..]. apply (f_equal value) in E. rewrite !to_string_value in E by done. lia.
Qed.

(** ** The log changes log files only *)

(** [m] leaves the file [p] alone, given that the open segment is another file. *)
Definition wal_frame {A} (p : path) (m : M Wal A) : Prop := forall w r w',
  (forall h, w_file w = Some h -> wf_path h <> p) -> m w = (r, w') ->
  (forall h, w_file w' = Some h -> wf_path h <> p) /\ fs_files (w_env w') !! p = fs_files (w_env w) !! p.

Section frame.
Context (p : path) (Hp : ~ wal_path p).

Lemma frame_bind {A B} (m : M Wal A) (k : A -> M Wal B) :
  wal_frame p m -> (forall a, wal_frame p (k a)) -> wal_frame p (m ≫= k).
Proof.
  intros Hm Hk w r w' Hw E. unfold mbind, M_bind in E. destruct (m w) as [[e|a] w1] eqn:E1.
  - injection E as <- <-. by eapply Hm.
  - destruct (Hm _ _ _ Hw E1) as [Hw1 F1]. destruct (Hk a _ _ _ Hw1 E) as [Hw2 F2]. split; [done|congruence].
Qed.
Lemma frame_ret {A} (a : A) : wal_frame p (mret a).
Proof. intros w r w' Hw E. by injection E as <- <-. Qed.
Lemma frame_fail {A} e : wal_frame p (mfail (A := A) e).
Proof. intros w r w' Hw E. by injection E as <- <-. Qed.
Lemma frame_guard b e : wal_frame p (mguard b e).
Proof. destruct b; [apply frame_ret|apply frame_fail]. Qed.
Lemma frame_get : wal_frame p mget.
Proof. intros w r w' Hw E. by injection E as <- <-. Qed.
Lemma frame_ignore {A} (m : M Wal A) : wal_frame p m -> wal_frame p (ignore m).
Proof. intros Hm w r w' Hw E. unfold ignore in E. injection E as <- <-. destruct (m w) eqn:E. by eapply Hm. Qed.
Lemma frame_try {A} (m : M Wal A) : wal_frame p m -> wal_frame p (try_ m).
Proof. intros Hm w r w' Hw E. unfold try_ in E. destruct (m w) eqn:E1. injection E as <- <-. by eapply Hm. Qed.
Lemma frame_modify f :
  (forall w, w_env (f w) = w_env w /\ w_file (f w) = w_file w) -> wal_frame p (mmodify f).
Proof. intros Hf w r w' Hw E. injection E as <- <-. destruct (Hf w) as [-> ->]. done. Qed.
Lemma frame_set_wfile h : (forall h', h = Some h' -> wf_path h' <> p) -> wal_frame p (mmodify (set_wfile h)).
Proof. intros Hh w r w' Hw E. by injection E as <- <-. Qed.
Lemma frame_on_fs {A} q (m : M fs A) : touches_only q m -> q <> p -> wal_frame p (on_fs m).
Proof.
  intros Hm Hq w r w' Hw E. unfold on_fs in E. destruct (m (get_fs w)) as [x f] eqn:E1. injection E as <- <-.
  split; [done|]. by eapply Hm.
Qed.
Lemma frame_on_fs_read {A} (m : M fs A) : preserves fs_files m -> wal_frame p (on_fs m).
Proof.
  intros Hm w r w' Hw E. unfold on_fs in E. destruct (m (get_fs w)) as [x f] eqn:E1. injection E as <- <-.
  split; [done|]. cbn. by rewrite (Hm _ _ _ E1).
Qed.

Lemma SegmentPath_ne c g : SegmentPath c g <> p.
Proof using Hp. intros <-. apply Hp. by eexists _, _. Qed.

Lemma frame_delete_segments fuel g : wal_frame p (delete_segments fuel g).
Proof using Hp.
  revert g. induction fuel as [|fuel IH]; intros g; [apply frame_fail|]. cbn [delete_segments].
  apply frame_bind; [apply frame_get|]. intros w. apply frame_bind; [apply frame_on_fs_read; eauto with preserve|].
  intros []; [|apply frame_ret]. apply frame_bind; [|done].
  apply frame_ignore, (frame_on_fs (SegmentPath (w_conf w) g)); [|apply SegmentPath_ne].
  apply touches_syscall, touches_bind; [apply touches_files; eauto with preserve|]. intros c q Hq.
  apply preserves_modify. intros f. cbn. by rewrite lookup_delete_ne.
Qed.

Lemma frame_count_segments fuel g : wal_frame p (count_segments fuel g).
Proof using Hp.
  revert g. induction fuel as [|fuel IH]; intros g; [apply frame_fail|]. cbn [count_segments].
  apply frame_bind; [apply frame_get|]. intros w. apply frame_bind; [apply frame_on_fs_read; eauto with preserve|].
  intros []; [done|apply frame_ret].
Qed.

Lemma frame_check_segments gs : wal_frame p (check_segments gs).
Proof using Hp.
  induction gs as [|g gs IH]; [apply frame_ret|]. cbn [check_segments]. apply frame_bind; [|done].
  unfold check_segment. apply frame_bind; [apply frame_get|]. intros w.
  apply frame_bind; [apply frame_on_fs_read; eauto with preserve|]. intros raf.
  apply frame_bind; [apply frame_on_fs_read; eauto with preserve|]. intros hs.
  apply frame_bind; [apply frame_guard|]. intros _. apply frame_guard.
Qed.

Lemma frame_file_append data : wal_frame p (file_append data).
Proof using Hp.
  intros w r w' Hw E. unfold file_append in E. rewrite (mbind_ok _ _ _ w w) in E by done.
  destruct (w_file w) as [h|] eqn:Eh; [|injection E as <- <-; by rewrite Eh].
  assert (wf_path h <> p) as Hh by by apply Hw.
  assert (touches_only (wf_path h) (wf_Append h data)) as Ht.
  { unfold wf_Append. destruct (negb (wf_open h)); [apply touches_ret|]. case_bool_decide; [apply touches_ret|].
    apply touches_bind; [apply touches_next|]. intros d. apply touches_bind; [apply touches_get|]. intros f.
    destruct d; eauto with touches. }
  unfold mbind at 1, M_bind at 1, on_fs in E. destruct (wf_Append h data (get_fs w)) as [[e|[st h']] f] eqn:E1.
  - injection E as <- <-. split; [by cbn; rewrite Eh|]. by apply (Ht p ltac:(done) _ _ _ E1).
  - assert (wf_path h' = wf_path h) as Eh'.
    { unfold wf_Append in E1. destruct (negb (wf_open h)); [by injection E1 as _ <- _|].
      case_bool_decide; [by injection E1 as _ <- _|]. unfold next_fault, mbind, M_bind in E1.
      destruct (fs_faults (get_fs w)) as [|[]]; cbn in E1; by injection E1 as _ <- _. }
    rewrite (mbind_ok _ _ _ tt (set_wfile (Some h') (set_fs f w))) in E by done.
    assert (w' = set_wfile (Some h') (set_fs f w)) as -> by (cbn [fst] in E; by destruct (st_is_ok st); injection E as _ <-).
    split; [cbn; intros h0 [= <-]; by rewrite Eh'|]. by apply (Ht p ltac:(done) _ _ _ E1).
Qed.

(** Opening a segment for appending gives a handle on it. *)
Lemma frame_open_segment {B} q (k : WritableFile -> M Wal B) :
  q <> p -> (forall h, wf_path h = q -> wal_frame p (k h)) -> wal_frame p (h ← on_fs (NewAppendableFile q); k h).
Proof.
  intros Hq Hk w r w' Hw E. unfold mbind, M_bind in E.
  destruct (on_fs (NewAppendableFile q) w) as [[e|h] w1] eqn:E1.
  - injection E as <- <-. apply (frame_on_fs q) in E1; [done| |done|done].
    unfold NewAppendableFile. eauto 10 with touches.
  - assert (wf_path h = q) as Hh.
    { unfold on_fs in E1. destruct (NewAppendableFile q (get_fs w)) as [x f] eqn:E2. injection E1 as -> _.
      apply mbind_inv in E2 as ([] & f1 & _ & E2). apply syscall_inv in E2 as (f2 & _ & E2).
      apply mbind_inv in E2 as (f3 & f4 & _ & E2). by injection E2 as <- _. }
    apply (frame_on_fs q) in E1 as [Hw1 F1]; [|unfold NewAppendableFile; eauto 10 with touches|done|done].
    destruct (Hk h Hh _ _ _ Hw1 E) as [Hw2 F2]. split; [done|congruence].
Qed.

Lemma frame_wf_Close h : wal_frame p (on_fs (wf_Close h)).
Proof. apply frame_on_fs_read. unfold wf_Close. destruct (wf_open h); eauto with preserve. Qed.

Lemma frame_wal_Open : wal_frame p wal_Open.
Proof using Hp.
  unfold wal_Open. apply frame_bind; [apply frame_get|]. intros w0.
  apply frame_bind; [apply frame_on_fs_read; eauto with preserve|]. intros _.
  apply frame_bind; [apply frame_count_segments|]. intros gen. apply frame_bind; [by apply frame_modify|]. intros _.
  apply frame_bind; [apply frame_check_segments|]. intros _. apply frame_bind; [by apply frame_set_wfile|]. intros _.
  apply frame_open_segment; [apply SegmentPath_ne|]. intros h Hh.
  apply frame_bind; [apply frame_set_wfile; intros h' [= <-]; rewrite Hh; apply SegmentPath_ne|]. intros _.
  apply frame_bind; [apply frame_on_fs_read; eauto with preserve|]. intros sz. cbv zeta.
  destruct (_ =? 0); [|by apply frame_modify].
  apply frame_bind; [apply frame_try, frame_file_append|]. intros [e|u]; [|by apply frame_modify].
  apply frame_bind; [apply frame_ignore, frame_wf_Close|]. intros _.
  apply frame_bind; [by apply frame_set_wfile|]. intros _. apply frame_fail.
Qed.

Lemma frame_wal_Reset : wal_frame p wal_Reset.
Proof using Hp.
  unfold wal_Reset. apply frame_bind; [apply frame_get|]. intros w0. apply frame_bind.
  - destruct (w_file w0) as [h|]; [|apply frame_ret].
    apply frame_bind; [apply frame_ignore, frame_wf_Close|]. intros _. by apply frame_set_wfile.
  - intros _. apply frame_bind; [apply frame_delete_segments|]. intros _.
    apply frame_bind; [by apply frame_modify|]. intros _. apply frame_wal_Open.
Qed.
End frame.

(** *** Appends *)

Section frame_appends.
Context `{AesGcm} (p : path) (Hp : ~ wal_path p).

Lemma frame_wf_Sync h : wal_frame p (on_fs (wf_Sync h)).
Proof. apply frame_on_fs_read. unfold wf_Sync. destruct (wf_open h); eauto with preserve. Qed.

Lemma frame_wf_try (m : M fs unit) : wal_frame p (on_fs m) -> wal_frame p (on_fs (try_ m)).
Proof.
  intros Hm w r w' Hw E. unfold on_fs, try_ in E. destruct (m (get_fs w)) as [x f] eqn:E1. injection E as <- <-.
  apply (Hm w x _ Hw). unfold on_fs. by rewrite E1.
Qed.

Lemma frame_RotateIfNeeded n : wal_frame p (RotateIfNeeded n).
Proof using Hp.
  unfold RotateIfNeeded. apply frame_bind; [apply frame_get|]. intros w. destruct (_ <=? _); [apply frame_ret|].
  apply frame_bind.
  - destruct (w_file w) as [h|]; [|apply frame_ret]. apply frame_bind; [apply frame_wf_try, frame_wf_Sync|]. intros st1.
    apply frame_bind; [apply frame_wf_try, frame_wf_Close|]. intros st2. apply frame_bind; [by apply frame_set_wfile|]. intros _.
    destruct st1, st2; first [apply frame_fail|apply frame_ret].
  - intros _. apply frame_bind; [by apply frame_modify|]. intros _. apply frame_bind; [apply frame_get|]. intros w1.
    apply frame_open_segment; [by apply SegmentPath_ne|]. intros h Hh.
    apply frame_bind; [apply frame_set_wfile; intros h' [= <-]; rewrite Hh; by apply SegmentPath_ne|]. intros _.
    apply frame_bind; [by apply frame_file_append|]. intros _. by apply frame_modify.
Qed.

Lemma frame_AppendIovecs l : wal_frame p (AppendIovecs l).
Proof using Hp.
  induction l as [|iov l IH]; [apply frame_ret|]. cbn [AppendIovecs]. case_bool_decide; [done|].
  apply frame_bind; [by apply frame_file_append|]. by intros _.
Qed.

Lemma frame_finish_append n : wal_frame p (finish_append n).
Proof.
  unfold finish_append. apply frame_bind; [by apply frame_modify|]. intros _. apply frame_bind; [apply frame_get|]. intros w.
  destruct (wc_fsync (w_conf w)); [apply frame_ret|]. unfold wal_Sync. apply frame_bind; [apply frame_get|]. intros w1.
  destruct (w_file w1); [apply frame_wf_Sync|apply frame_fail].
Qed.

Lemma frame_next_seq : wal_frame p next_seq.
Proof. unfold next_seq. apply frame_bind; [by apply frame_modify|]. intros _. apply frame_bind; [apply frame_get|]. intros w. apply frame_ret. Qed.

Lemma frame_append_plain (plain : Z -> bytes) : wal_frame p (seq ← next_seq; body ← seal seq (plain seq); append_body body).
Proof using Hp.
  apply frame_bind; [apply frame_next_seq|]. intros seq. apply frame_bind.
  - unfold seal. apply frame_bind; [apply frame_get|]. intros w. destruct (wc_encryption_enabled _); [|apply frame_ret].
    destruct (aes_Encrypt _ _ _) as [|[]]; [apply frame_fail|apply frame_ret].
  - intros body. unfold append_body. apply frame_bind; [apply frame_RotateIfNeeded|]. intros _.
    apply frame_bind; [apply frame_AppendIovecs|]. intros _. apply frame_finish_append.
Qed.

Lemma frame_append_each items : wal_frame p (append_each items).
Proof using Hp.
  induction items as [|[id v] items IH]; [apply frame_ret|]. cbn [append_each]. apply frame_bind; [apply (frame_append_plain (fun seq => plain_put seq id v md_default))|].
  by intros _.
Qed.

Lemma frame_batch_iovecs items : wal_frame p (batch_iovecs items).
Proof.
  induction items as [|[id v] items IH]; [apply frame_ret|]. cbn [batch_iovecs]. apply frame_bind; [apply frame_next_seq|]. intros seq.
  apply frame_bind; [done|]. intros rest. apply frame_ret.
Qed.

(** Every operation of the log. *)
Lemma frame_run_op o : wal_frame p (run_op o).
Proof using Hp.
  destruct o as [[id v m|id|op k v]|items|]; cbn [run_op].
  - apply (frame_append_plain (fun seq => plain_put seq id v m)).
  - apply (frame_append_plain (fun seq => plain_del seq id)).
  - apply (frame_append_plain (fun seq => plain_raw seq op k v)).
  - unfold wal_AppendBatch. apply frame_bind; [apply frame_guard|]. intros _. case_bool_decide; [apply frame_ret|].
    apply frame_bind; [apply frame_get|]. intros w. destruct (wc_encryption_enabled _); [apply frame_append_each|].
    apply frame_bind; [apply frame_RotateIfNeeded|]. intros _. apply frame_bind; [apply frame_batch_iovecs|]. intros l.
    apply frame_bind; [apply frame_AppendIovecs|]. intros _. apply frame_finish_append.
  - unfold wal_Flush. apply frame_bind; [apply frame_get|]. intros w. destruct (w_file w); [|apply frame_ret].
    destruct (wc_fsync _); [apply frame_ret|apply frame_wf_Sync].
Qed.
End frame_appends.

(** The log depends on its own files only. *)
Lemma wal_inv_frame `{AesGcm} ns ng w segs es fm' :
  wal_inv ns ng w segs es ->
  (forall p, wal_path p -> fm' !! p = fs_files (w_env w) !! p) ->
  wal_inv ns ng (set_fs (MkFs fm' []) w) segs es.
Proof.
  intros [Hfl [Hd He] Hg Hb Hf Hs Hr Hl Hq Hgs] Hsame.
  split; cbn [set_fs Wal_HasFs w_env fs_faults fs_files w_conf w_gen w_file w_bytes_in_seg w_seq]; try done.
  - split; [intros i es' tail Hi|]; rewrite Hsame by (by eexists _, _); [by apply Hd|done].
  - intros g Hgt. rewrite Hsame by (by eexists _, _). by apply Hb.
Qed.

Lemma wal_inv_handle `{AesGcm} ns ng w segs es p :
  wal_inv ns ng w segs es -> ~ wal_path p -> forall h, w_file w = Some h -> wf_path h <> p.
Proof.
  intros Hinv Hp h Hh. destruct (wi_file _ _ _ _ _ Hinv) as [bw E]. rewrite E in Hh. injection Hh as <-.
  by apply SegmentPath_ne.
Qed.
