(* ===== verification/FreezeTheorems.v ===== *)
(** * Theorems about freezing

    A freeze writes the frozen memtables to segments, installs them and resets
    the log.  Without I/O errors it completes within a stated number of rounds;
    afterwards a lookup consults the frozen data from the oldest memtable to the
    newest.  That preserves every answer when no identifier is in two memtables,
    and serves the stale version when one is.  The manifest and the files carry
    the new state: a restart finds the same.  A freeze that fails leaves every
    answer unchanged. *)
From S2P Require Import Prelude FlatHash Env Types Wal WalCodec WalLog WalTheorems Text PosixFile.
From S2P Require Import Manifest IoProvider SegmentManifest MemTable MemTableTheorems Segment.
From S2P Require Import SegmentTheorems Layers Runtime RuntimeTheorems FreezeDisk.

Open Scope Z_scope.

(** ** Entries of a segment and what they answer *)

(** What a list of entries says about an identifier. *)
Definition entries_answer (es : list SegEntry) (id : Z) : LookupResult :=
  match list_find (fun e => se_id e = id) es with
  | Some (_, e) => if se_deleted e then LTombstone else LFound (se_vec e) (se_meta e)
  | None => LNotFound
  end.

Lemma entries_answer_cons e es id :
  entries_answer (e :: es) id =
  if decide (se_id e = id) then (if se_deleted e then LTombstone else LFound (se_vec e) (se_meta e))
  else entries_answer es id.
Proof.
  unfold entries_answer. cbn [list_find]. case_decide; [done|].
  by destruct (list_find _ es) as [[i x]|].
Qed.

Lemma entries_answer_app es1 es2 id :
  entries_answer (es1 ++ es2) id = match entries_answer es1 id with LNotFound => entries_answer es2 id | a => a end.
Proof.
  induction es1 as [|e es1 IH]; [done|]. cbn [app]. rewrite !entries_answer_cons.
  case_decide; [by destruct (se_deleted e)|]. done.
Qed.

Lemma entries_answer_none es id : id ∉ se_id <$> es -> entries_answer es id = LNotFound.
Proof.
  intros Hn. unfold entries_answer. destruct (list_find _ es) as [[i e]|] eqn:E; [|done].
  apply list_find_Some in E as (Hi & <- & _). exfalso. apply Hn. apply list_elem_of_fmap_2. by eapply list_elem_of_lookup_2.
Qed.

Lemma entries_answer_in es e :
  NoDup (se_id <$> es) -> e ∈ es ->
  entries_answer es (se_id e) = if se_deleted e then LTombstone else LFound (se_vec e) (se_meta e).
Proof.
  induction es as [|x es IH]; [by intros _ ?%not_elem_of_nil|]. cbn. intros [Hx Hnd]%NoDup_cons [->|He]%elem_of_cons.
  - by rewrite entries_answer_cons, decide_True.
  - rewrite entries_answer_cons, decide_False; [by apply IH|]. intros E. apply Hx. rewrite E. by apply list_elem_of_fmap_2.
Qed.

(** The order does not matter when the identifiers are distinct. *)
Lemma entries_answer_perm es es' id : NoDup (se_id <$> es) -> es ≡ₚ es' -> entries_answer es id = entries_answer es' id.
Proof.
  intros Hnd Hp. destruct (decide (id ∈ se_id <$> es)) as [(e & -> & He)%list_elem_of_fmap|Hn].
  - rewrite !entries_answer_in; [done|by rewrite <-Hp|by rewrite <-Hp|done..].
  - rewrite !entries_answer_none; [done|by rewrite <-Hp|done].
Qed.

Section answers.
Context (quant_decode : SegmentReader -> bytes -> vec).

(** The reader a freeze makes of a list of entries. *)
Definition seg_of (p : path) (dim : Z) (es : list SegEntry) : SegmentReader := built_reader p dim (merge_sort id_le es).

(** The entries of a segment are distinct and fit the file format. *)
Definition chunk_ok (dim : Z) (es : list SegEntry) : Prop :=
  NoDup (se_id <$> es) /\ seg_ok dim (merge_sort id_le es).

Lemma lookup_seg_of p dim es id :
  chunk_ok dim es -> lookup_seg quant_decode dim id (seg_of p dim es) = Some (entries_answer es id).
Proof.
  intros [Hnd Hok]. pose proof (sorted_entries_strict (MkBuilder "" dim es) Hnd) as Hs. cbn in Hs.
  pose proof (merge_sort_Permutation id_le es) as Hp.
  rewrite <-(entries_answer_perm (merge_sort id_le es)) by (first [done|by rewrite Hp]).
  unfold lookup_seg, seg_of. rewrite sr_Get_built by done. cbn [mbind option_bind]. unfold entries_answer.
  destruct (list_find _ _) as [[i e]|] eqn:Ef; [|done]. apply list_find_Some in Ef as (Hi & _ & _).
  destruct (se_deleted e) eqn:Hdel; [done|]. cbn [built_reader sr_quant_type]. change (0 =? kNone_q) with true.
  eapply Forall_lookup_1 in Hi; [|apply (so_entries _ _ Hok)]. destruct (eo_vec _ _ Hi Hdel) as [Hl Hv].
  unfold read_span. rewrite (proj2 (Z.leb_le _ _)) by len. cbn [mbind option_bind].
  by rewrite read_vec_dim.
Qed.

(** Segments in the order of the list, each with the path [f] gives it. *)
Lemma segs_answer_chunks {A} (f : A -> path) dim (chunks : list (A * list SegEntry)) old id :
  Forall (chunk_ok dim) chunks.*2 ->
  segs_answer quant_decode dim (((fun '(a, es) => seg_of (f a) dim es) <$> chunks) ++ old) id =
  match entries_answer (concat chunks.*2) id with LNotFound => segs_answer quant_decode dim old id | a => Some a end.
Proof.
  induction chunks as [|[a es] chunks IH]; [done|]. rewrite !fmap_cons. intros [Hes Hch]%Forall_cons.
  unfold segs_answer in *. cbn [app first_answer concat snd]. cbn [snd] in Hes.
  rewrite lookup_seg_of by done. cbn [mbind option_bind]. rewrite entries_answer_app.
  destruct (entries_answer es id); [done..|]. by apply IH.
Qed.
End answers.

(** ** The entries a freeze makes of a memtable *)

Section mems.
Context {T : Type} `{IdMapLaws T (option bytes)} `{F32}.
Implicit Types m : MemTable T.

(** An entry of the cursor in the segment. *)
Definition to_seg (e : CursorEntry) : SegEntry :=
  MkSegEntry (ce_id e) (if ce_is_deleted e then [] else ce_vec e) (ce_is_deleted e) (default md_default (ce_meta e)).

Definition mem_entries m : list SegEntry := to_seg <$> mt_cursor m.

Lemma mem_entries_eq dim m :
  mem_ok dim m -> mem_entries m =
  (fun '(id, ptr) => match ptr with
     | None => MkSegEntry id [] true md_default
     | Some mem => MkSegEntry id (read_vec (Z.to_nat dim) mem) false (default md_default (mt_metadata m !! id))
     end) <$> im_entries (mt_map m).
Proof.
  intros [_ Hd Hq _]. unfold mem_entries, mt_cursor. rewrite <-list_fmap_compose, Hq, Hd.
  apply list_fmap_ext. intros i [id [mem|]] _; done.
Qed.

Lemma mem_entries_ids dim m : mem_ok dim m -> se_id <$> mem_entries m ≡ₚ (map_to_list (im_abs (mt_map m))).*1.
Proof.
  intros Hok. rewrite (mem_entries_eq dim) by done. rewrite <-list_fmap_compose, <-im_entries_perm by apply Hok.
  erewrite list_fmap_ext; [reflexivity|]. intros i [id [mem|]] _; done.
Qed.

Lemma mem_entries_nodup dim m : mem_ok dim m -> NoDup (se_id <$> mem_entries m).
Proof. intros Hok. rewrite (mem_entries_ids dim) by done. apply NoDup_fst_map_to_list. Qed.

Lemma mem_entries_answer dim m id : mem_ok dim m -> entries_answer (mem_entries m) id = mem_answer dim m id.
Proof.
  intros Hok. unfold mem_answer, mt_view. destruct (im_abs (mt_map m) !! id) as [ptr|] eqn:E.
  - set (e := match ptr with
      | None => MkSegEntry id [] true md_default
      | Some mem => MkSegEntry id (read_vec (Z.to_nat dim) mem) false (default md_default (mt_metadata m !! id))
      end).
    assert (e ∈ mem_entries m) as He.
    { rewrite (mem_entries_eq dim) by done. apply list_elem_of_fmap. exists (id, ptr). split; [done|].
      rewrite im_entries_perm by apply Hok. by apply elem_of_map_to_list. }
    assert (se_id e = id) as Ei by by destruct ptr.
    rewrite <-Ei at 1. rewrite entries_answer_in by (first [done|by eapply mem_entries_nodup]).
    by destruct ptr.
  - rewrite entries_answer_none; [by destruct (im_abs _ !! id)|]. rewrite (mem_entries_ids dim) by done.
    intros ((i & v) & -> & Hv%elem_of_map_to_list)%list_elem_of_fmap. cbn in E. congruence.
Qed.

(** Several memtables, in the order of the list. *)
Lemma mems_entries_answer dim ms id :
  Forall (mem_ok dim) ms -> entries_answer (ms ≫= mem_entries) id = mems_answer dim ms id.
Proof.
  induction 1 as [|m ms Hm _ IH]; [done|]. cbn [mbind list_bind mems_answer]. rewrite entries_answer_app.
  rewrite (mem_entries_answer dim) by done. by destruct (mem_answer dim m id).
Qed.

Lemma length_mem_entries dim m : mem_ok dim m -> zlen (mem_entries m) = mt_GetCount m.
Proof.
  intros Hok. unfold mt_GetCount. rewrite im_size_abs by apply Hok. unfold zlen.
  rewrite <-length_map_to_list, <-(length_fmap se_id), (mem_entries_ids dim), length_fmap by done. done.
Qed.
End mems.

(** ** Sizes *)

(** The size of the file of a segment. *)
Definition seg_size (dim : Z) (es : list SegEntry) : Z :=
  140 + foldr (fun e n => entry_size_of dim + 24 + zlen (meta_bytes (se_meta e)) + n) 0 es.

(** The entries have valid fields and a segment of them stays below 4 GiB. *)
Record fits (dim : Z) (es : list SegEntry) : Prop := {
  fit_dim : 0 <= dim;
  fit_entry : entry_size_of dim < 2 ^ 32;
  fit_ok : Forall (seg_entry_ok dim) es;
  fit_size : seg_size dim es < 2 ^ 32
}.

Lemma seg_file_size dim es : 0 <= dim -> Forall (seg_entry_ok dim) es -> zlen (seg_file dim es) = seg_size dim es.
Proof.
  intros Hd Hok. rewrite seg_file_length by done. unfold seg_size.
  assert (zlen (seg_times es) = 16 * zlen es) as ->.
  { unfold seg_times, zlen. rewrite (length_concat_slots 16), length_map, length_time_entries; [lia|].
    apply Forall_map, Forall_forall. intros t _. apply length_time_bytes. }
  assert (zlen (seg_offsets es) = 8 + 8 * zlen es) as -> by (unfold zlen; rewrite length_seg_offsets; lia).
  clear Hok. induction es as [|e es IH]; [done|].
  cbn [foldr]. unfold meta_blob, zlen in *. cbn [map concat length] in *. rewrite length_app. lia.
Qed.

Lemma seg_size_perm dim es es' : es ≡ₚ es' -> seg_size dim es = seg_size dim es'.
Proof. unfold seg_size. induction 1; cbn [foldr] in *; lia. Qed.

Lemma fits_seg_ok dim es : fits dim es -> seg_ok dim (merge_sort id_le es).
Proof.
  intros [Hd He Hok Hs]. pose proof (merge_sort_Permutation id_le es) as Hp.
  assert (Forall (seg_entry_ok dim) (merge_sort id_le es)) as Hok' by by rewrite Hp.
  split; [done..| |done]. by rewrite seg_file_size, (seg_size_perm _ _ _ Hp).
Qed.

Lemma seg_size_app dim es1 es2 : seg_size dim (es1 ++ es2) = seg_size dim es1 + seg_size dim es2 - 140.
Proof. unfold seg_size. induction es1 as [|e es1 IH]; cbn [app foldr] in *; lia. Qed.

Lemma seg_size_ge dim es : 0 <= dim -> 140 <= seg_size dim es.
Proof.
  intros Hd. pose proof (entry_size_spec dim) as [_ Hs]. unfold seg_size. induction es as [|e es IH]; cbn [foldr]; [lia|].
  pose proof (zlen_nonneg (meta_bytes (se_meta e))). lia.
Qed.

Lemma fits_mid dim es1 es2 es3 : fits dim (es1 ++ es2 ++ es3) -> fits dim es2.
Proof.
  intros [Hd He Hok Hs]. rewrite !Forall_app in Hok. rewrite !seg_size_app in Hs.
  pose proof (seg_size_ge dim es1 Hd). pose proof (seg_size_ge dim es3 Hd). split; [done..|tauto|lia].
Qed.

Lemma chunk_ok_mid dim es1 es2 es3 :
  NoDup (se_id <$> es1 ++ es2 ++ es3) -> fits dim (es1 ++ es2 ++ es3) -> chunk_ok dim es2.
Proof.
  intros Hnd Hf. split; [|by eapply fits_seg_ok, fits_mid].
  rewrite !fmap_app, !NoDup_app in Hnd. tauto.
Qed.

(** ** The freeze loop without I/O errors *)

Section loop.
Context {T : Type} `{IdMapLaws T (option bytes)} `{F32} `{AesGcm}.
Implicit Types (m : MemTable T) (r : VectorRuntime T).
Context (r0 : VectorRuntime T) (fm0 : gmap path bytes) (clock : nat -> Z * Z).

Abbreviation dir := (rc_data_dir (rt_conf r0)).
Abbreviation dim := (rc_dim (rt_conf r0)).

(** The shard as at the start of the loop, with other files. *)
Record at_disk (fm : gmap path bytes) r : Prop := {
  ad_data : same_data r0 r;
  ad_epoch : rt_wal_epoch r = rt_wal_epoch r0;
  ad_wal : rt_wal r = set_fs (MkFs fm []) (rt_wal r0)
}.

Lemma on_fs_at {A} (c : M fs A) x fm fm' r :
  at_disk fm r -> c (MkFs fm []) = (x, MkFs fm' []) -> exists r', on_fs c r = (x, r') /\ at_disk fm' r'.
Proof.
  intros [Hs He Hw] E. unfold on_fs. cbn [get_fs VectorRuntime_HasFs]. rewrite Hw. cbn [w_env set_fs Wal_HasFs]. rewrite E.
  eexists. split; [done|]. destruct Hs. split; [by split|done|]. cbn. by rewrite Hw.
Qed.

Lemma job_step_ok {A} prefix (c : M (VectorRuntime T) A) r a r' :
  c r = (inr a, r') -> job_step prefix c r = (inr a, r').
Proof. unfold job_step. by intros ->. Qed.

(** The file a finished segment leaves. *)
Definition add_segment (name : bytes) (es : list SegEntry) (fm : gmap path bytes) : gmap path bytes :=
  <[seg_path dir name := seg_file dim (merge_sort id_le es)]> (delete (seg_path dir name +:+ ".tmp") fm).

Lemma finalize_ok s r fm es :
  at_disk fm r -> rc_quantize_inmem (rt_conf r0) = false ->
  fz_builder s = Some (MkBuilder (seg_path dir (fz_filename s)) dim es) -> chunk_ok dim es ->
  exists r', at_disk (add_segment (fz_filename s) es fm) r' /\
    freeze_finalize s r = (inr (MkFreeze kBuild (fz_memtables s)
        (if fz_done_after_finalize s then S (fz_mem_index s) else fz_mem_index s) (S (fz_segment_part s))
        (if fz_done_after_finalize s then None else fz_cursor s) (fz_buf s) None (fz_filename s) false
        (fz_built_segments s ++ [(fz_filename s, seg_of (seg_path dir (fz_filename s)) dim es)]) (fz_wal_epoch_at_start s)), r').
Proof.
  intros Hat Hq Hb [Hnd Hok]. unfold freeze_finalize. rewrite Hb. rewrite (mbind_ok _ _ _ r r) by done.
  rewrite (sd_conf _ _ (ad_data _ _ Hat)), Hq. erewrite mbind_ok by done. cbn [sb_path sb_entries].
  destruct (on_fs_at (sb_Finish (MkBuilder (seg_path dir (fz_filename s)) dim es)) (inr tt) fm
    (add_segment (fz_filename s) es fm) r Hat (sb_Finish_ok _ _)) as (r1 & E1 & Hat1).
  rewrite (mbind_ok _ _ _ _ _ (job_step_ok _ _ _ _ _ E1)).
  destruct (on_fs_at (FsyncDir dir) (inr tt) _ _ r1 Hat1 eq_refl) as (r2 & E2 & Hat2).
  rewrite (mbind_ok _ _ _ _ _ (job_step_ok _ _ _ _ _ E2)).
  assert (add_segment (fz_filename s) es fm !! seg_path dir (fz_filename s) = Some (seg_file dim (merge_sort id_le es)))
    as Hfile by apply lookup_insert_eq.
  destruct (on_fs_at _ _ _ _ r2 Hat2 (sr_Open_built _ dim _ _ Hok Hfile)) as (r3 & E3 & Hat3).
  rewrite (mbind_ok _ _ _ _ _ (job_step_ok _ _ _ _ _ E3)).
  destruct (on_fs_at (try_ (GetFileSize (seg_path dir (fz_filename s)))) _ _ _ r3 Hat3
    ltac:(unfold try_; by rewrite (GetFileSize_ok _ _ _ Hfile))) as (r4 & E4 & Hat4).
  rewrite (mbind_ok _ _ _ _ _ E4). erewrite mbind_ok by done. eexists. split; [|reflexivity].
  destruct Hat4 as [[] He Hw]. by split; [split|..].
Qed.

(** *** What the loop works on *)

Context (ms : list (MemTable T)).
Context (Hplain : rc_quantize_inmem (rt_conf r0) = false) (Httl : rc_ttl_sec (rt_conf r0) = 0).
Context (Hclock : forall n, is_u64 (clock n).2).
Context (Hfresh : forall n i k, fm0 !! seg_path dir (segment_filename (clock n).2 i k) = None).

(** A name of the [k]-th segment of this freeze. *)
Definition made_name (k : nat) (name : bytes) : Prop :=
  exists n i, name = segment_filename (clock n).2 i k /\ is_u64 (Z.of_nat i) /\ is_u64 (Z.of_nat k).

Lemma made_name_dat k name : made_name k name -> dat_name name.
Proof using Hclock. intros (n & i & -> & Hi & Hk). by apply segment_filename_dat. Qed.

Definition built_ok (built : list (bytes * list SegEntry)) : Prop :=
  forall k name es, built !! k = Some (name, es) -> made_name k name /\ chunk_ok dim es.

(** The files while segments are built. *)
Record disk_built (fm : gmap path bytes) (built : list (bytes * list SegEntry)) : Prop := {
  db_other p : (forall name, dat_name name -> p <> seg_path dir name /\ p <> seg_path dir name +:+ ".tmp") ->
    fm !! p = fm0 !! p;
  db_old name c : dat_name name -> fm0 !! seg_path dir name = Some c -> fm !! seg_path dir name = Some c;
  db_new name es : (name, es) ∈ built -> fm !! seg_path dir name = Some (seg_file dim (merge_sort id_le es))
}.

Lemma built_ok_snoc built name es :
  built_ok built -> made_name (length built) name -> chunk_ok dim es -> built_ok (built ++ [(name, es)]).
Proof.
  intros Hb Hn Hc k nm e Hk. apply lookup_app_Some in Hk as [Hk|[Hl Hk]]; [by apply Hb|].
  apply list_lookup_singleton_Some in Hk as [Hk [= -> ->]]. assert (k = length built) as -> by lia. done.
Qed.

Lemma disk_built_snoc fm built name es :
  disk_built fm built -> built_ok built -> made_name (length built) name ->
  disk_built (add_segment name es fm) (built ++ [(name, es)]).
Proof using Hclock Hfresh.
  intros [Ho Hold Hnew] Hb Hn. pose proof (made_name_dat _ _ Hn) as Hdat. unfold add_segment. split.
  - intros q Hq. destruct (Hq name Hdat). rewrite lookup_insert_ne, lookup_delete_ne by congruence. by apply Ho.
  - intros nm c Hd Hc. destruct (decide (nm = name)) as [->|Hne].
    + destruct Hn as (n & i & -> & _). by rewrite Hfresh in Hc.
    + rewrite lookup_insert_ne by (by intros E%seg_path_inj).
      rewrite lookup_delete_ne by by apply seg_tmp_not_seg. by apply Hold.
  - intros nm e [Hin|Hin%list_elem_of_singleton]%elem_of_app; [|injection Hin as -> ->; apply lookup_insert_eq].
    apply list_elem_of_lookup in Hin as Hin'. destruct Hin' as [k Hk]. destruct (Hb _ _ _ Hk) as [Hm _].
    rewrite lookup_insert_ne.
    + rewrite lookup_delete_ne by (apply seg_tmp_not_seg; by eapply made_name_dat). by apply Hnew.
    + intros <-%seg_path_inj. destruct Hm as (n1 & i1 & -> & _ & Hk1). destruct Hn as (n2 & i2 & E & _ & Hk2).
      apply segment_filename_part in E; [|done..]. apply lookup_lt_Some in Hk. lia.
Qed.

(** The state of the job between two entries: [cur] is in the builder. *)
Record building (i : nat) (cur : list SegEntry) (built : list (bytes * list SegEntry)) (s : FreezeState) : Prop := {
  bd_phase : fz_phase s = kBuild;
  bd_mems : fz_memtables s = ms;
  bd_index : fz_mem_index s = i;
  bd_part : fz_segment_part s = length built;
  bd_builder : fz_builder s = match cur with [] => None | _ => Some (MkBuilder (seg_path dir (fz_filename s)) dim cur) end;
  bd_name : cur <> [] -> made_name (length built) (fz_filename s);
  bd_built : fz_built_segments s = (fun '(n, es) => (n, seg_of (seg_path dir n) dim es)) <$> built;
  bd_epoch : fz_wal_epoch_at_start s = rt_wal_epoch r0
}.

Lemma run_step rounds s r s' r' :
  freeze_step (clock rounds).1 (clock rounds).2 s r = (inr (Some s'), r') ->
  freeze_run (S rounds) clock s r = freeze_run rounds clock s' r'.
Proof. intros E. cbn [freeze_run]. destruct (clock rounds). by rewrite (mbind_ok _ _ _ _ _ E). Qed.

(** Adding the next entry of the cursor. *)
Lemma build_entry now tick i m e todo cur built s r fm :
  at_disk fm r -> building i cur built s -> ms !! i = Some m ->
  default (mt_cursor m) (fz_cursor s) = e :: todo -> seg_entry_ok dim (to_seg e) ->
  exists name, (cur <> [] -> name = fz_filename s) /\ (cur = [] -> name = segment_filename tick i (length built)) /\
    let cur' := cur ++ [to_seg e] in
    let full := kMaxSegmentEntries <=? u32 (zlen cur') in
    freeze_step now tick s r =
    (inr (Some (MkFreeze (if full then kFinalizeSegment else kBuild) ms i (length built) (Some todo)
       (if ce_is_deleted e then fz_buf s else ce_vec e) (Some (MkBuilder (seg_path dir name) dim cur')) name
       (if full then false else fz_done_after_finalize s) (fz_built_segments s) (fz_wal_epoch_at_start s))), r).
Proof using Httl.
  intros Hat Hb Hm Hc Hok. exists (match cur with [] => segment_filename tick i (length built) | _ => fz_filename s end).
  split; [by destruct cur|]. split; [by intros ->|]. cbv zeta.
  unfold freeze_step. rewrite (bd_phase _ _ _ _ Hb). unfold freeze_build.
  rewrite (bd_mems _ _ _ _ Hb), (bd_index _ _ _ _ Hb), (bd_part _ _ _ _ Hb), (bd_builder _ _ _ _ Hb), Hm, Hc.
  unfold mbind at 1 2, M_bind at 1 2, mget. rewrite (sd_conf _ _ (ad_data _ _ Hat)).
  unfold VectorMetaExpired. rewrite Httl. change (0 <? 0) with false. cbn [andb]. rewrite andb_false_r, orb_false_r.
  set (name := match cur with [] => segment_filename tick i (length built) | _ => fz_filename s end).
  assert (match match cur with [] => None | _ :: _ => Some (MkBuilder (seg_path dir (fz_filename s)) dim cur) end with
    | Some _ => fz_filename s | None => segment_filename tick i (length built) end = name) as -> by by destruct cur.
  change (path_join dir (text ?n)) with (seg_path dir n).
  assert (default (MkBuilder (seg_path dir name) dim []) match cur with [] => None
    | _ :: _ => Some (MkBuilder (seg_path dir (fz_filename s)) dim cur) end = MkBuilder (seg_path dir name) dim cur) as ->
    by by destruct cur.
  assert (sb_Add (ce_id e) (ce_vec e) (ce_is_deleted e) (default md_default (ce_meta e)) (MkBuilder (seg_path dir name) dim cur)
    = (inr tt, MkBuilder (seg_path dir name) dim (cur ++ [to_seg e]))) as ->; [|done].
  unfold sb_Add, to_seg. cbn [sb_dim sb_path sb_entries]. destruct (ce_is_deleted e) eqn:Ed; [done|].
  destruct (eo_vec _ _ Hok) as [Hl _]; [done|]. unfold to_seg in Hl. rewrite Ed in Hl. cbn [se_vec] in Hl.
  unfold vec_dim. by rewrite Hl, Z.eqb_refl.
Qed.

(** The loop has made the segments [built] and is at the start of memtable [i]. *)
Record ready (i : nat) (built : list (bytes * list SegEntry)) (fm : gmap path bytes) (s : FreezeState) r : Prop := {
  rd_at : at_disk fm r;
  rd_disk : disk_built fm built;
  rd_built : built_ok built;
  rd_building : building i [] built s;
  rd_cursor : fz_cursor s = None
}.

(** Closing the current segment: one round. *)
Lemma finish_segment rounds i cur built s r fm :
  at_disk fm r -> disk_built fm built -> built_ok built -> chunk_ok dim cur -> cur <> [] ->
  fz_phase s = kFinalizeSegment -> fz_memtables s = ms -> fz_mem_index s = i -> fz_segment_part s = length built ->
  fz_builder s = Some (MkBuilder (seg_path dir (fz_filename s)) dim cur) -> made_name (length built) (fz_filename s) ->
  fz_built_segments s = (fun '(n, es) => (n, seg_of (seg_path dir n) dim es)) <$> built -> fz_wal_epoch_at_start s = rt_wal_epoch r0 ->
  exists s' r' fm', freeze_run (S rounds) clock s r = freeze_run rounds clock s' r' /\
    at_disk fm' r' /\ disk_built fm' (built ++ [(fz_filename s, cur)]) /\ built_ok (built ++ [(fz_filename s, cur)]) /\
    building (if fz_done_after_finalize s then S i else i) [] (built ++ [(fz_filename s, cur)]) s' /\
    fz_cursor s' = (if fz_done_after_finalize s then None else fz_cursor s).
Proof using Hclock Hfresh Hplain.
  intros Hat Hdisk Hbok Hok Hne Hph Hmem Hi Hpart Hbld Hname Hbuilt Hep.
  destruct (finalize_ok s r fm cur Hat Hplain Hbld Hok) as (r' & Hat' & E).
  eexists _, r', _. split_and!.
  - apply run_step. unfold freeze_step. rewrite Hph, (mbind_ok _ _ _ _ _ E). reflexivity.
  - exact Hat'.
  - by apply disk_built_snoc.
  - by apply built_ok_snoc.
  - split; cbn; [done|done|by rewrite Hi|rewrite Hpart, length_app; cbn; lia|done|done| |done].
    by rewrite fmap_app, Hbuilt.
  - done.
Qed.

(** The cursor of a memtable is exhausted: at most two rounds. *)
Lemma mem_end rounds i m pre cur built s r fm :
  ms !! i = Some m -> at_disk fm r -> disk_built fm built -> built_ok built -> building i cur built s ->
  default (mt_cursor m) (fz_cursor s) = [] -> mem_entries m = pre ++ cur ->
  NoDup (se_id <$> mem_entries m) -> fits dim (mem_entries m) -> zlen cur < kMaxSegmentEntries -> (2 <= rounds)%nat ->
  exists rounds' new s' r' fm', freeze_run rounds clock s r = freeze_run rounds' clock s' r' /\
    (rounds <= rounds' + 2)%nat /\ new ≫= snd = cur /\
    (length new <= length cur)%nat /\ ready (S i) (built ++ new) fm' s' r'.
Proof using Hclock Hfresh Hplain.
  intros Hm Hat Hdisk Hbok Hb Hc Hpre Hnd Hfit Hlen Hr. destruct rounds as [|[|rounds]]; [lia..|].
  pose proof Hb as [Hph Hmem Hi Hpart Hbld Hname Hbuilt Hep].
  assert (forall s', freeze_build (clock (S rounds)).1 (clock (S rounds)).2 s r = (inr s', r) ->
    freeze_run (S (S rounds)) clock s r = freeze_run (S rounds) clock s' r) as Hstep.
  { intros s' E. apply run_step. unfold freeze_step. by rewrite Hph, (mbind_ok _ _ _ _ _ E). }
  unfold freeze_build in Hstep. rewrite Hmem, Hi, Hm, Hc, Hbld, Hpart in Hstep. destruct cur as [|c cur].
  - rewrite (Hstep _ eq_refl). exists (S rounds), []. rewrite app_nil_r. eexists _, r, fm. split; [reflexivity|].
    split; [lia|]. split; [done|]. split; [done|]. split; [done..|split|]; cbn; done.
  - assert ((0 <? sb_Count (MkBuilder (seg_path dir (fz_filename s)) dim (c :: cur))) = true) as Hcnt.
    { unfold sb_Count, kMaxSegmentEntries in *. cbn [sb_entries]. rewrite u32_id; [apply Z.ltb_lt; len|].
      split; [apply zlen_nonneg|lia]. }
    rewrite Hcnt in Hstep. rewrite (Hstep _ eq_refl).
    edestruct (finish_segment rounds i (c :: cur) built) as (s' & r' & fm' & -> & Hat' & Hd' & Hb' & Hbd' & Hcu');
      [exact Hat|exact Hdisk|exact Hbok| |done|reflexivity..|cbn; by apply Hname|exact Hbuilt|exact Hep|].
    { apply (chunk_ok_mid dim pre _ []); by rewrite app_nil_r, <-Hpre. }
    cbn [fz_done_after_finalize fz_filename] in *. exists rounds, [(fz_filename s, c :: cur)], s', r', fm'. split; [done|].
    split; [lia|]. split; [cbn; by rewrite app_nil_r|]. split; [cbn; lia|]. by split.
Qed.

(** All entries of one memtable. *)
Lemma mem_run i m todo : forall rounds pre cur built s r fm,
  ms !! i = Some m -> is_u64 (Z.of_nat i) ->
  at_disk fm r -> disk_built fm built -> built_ok built -> building i cur built s ->
  default (mt_cursor m) (fz_cursor s) = todo -> mem_entries m = pre ++ cur ++ (to_seg <$> todo) ->
  NoDup (se_id <$> mem_entries m) -> fits dim (mem_entries m) -> zlen cur < kMaxSegmentEntries ->
  Z.of_nat (length built + length cur + length todo) < 2 ^ 64 -> (2 * length todo + 2 <= rounds)%nat ->
  exists rounds' new s' r' fm', freeze_run rounds clock s r = freeze_run rounds' clock s' r' /\
    (rounds <= rounds' + (2 * length todo + 2))%nat /\ new ≫= snd = cur ++ (to_seg <$> todo) /\
    (length new <= length cur + length todo)%nat /\ ready (S i) (built ++ new) fm' s' r'.
Proof using Hclock Hfresh Hplain Httl.
  induction todo as [|e todo IH]; intros rounds pre cur built s r fm Hm Hiu Hat Hdisk Hbok Hb Hc Hpre Hnd Hfit Hlen Hcount Hr.
  { rewrite fmap_nil, app_nil_r in *. cbn [length] in *. rewrite !Nat.add_0_r. by eapply mem_end. }
  destruct rounds as [|rounds]; [cbn in Hr; lia|]. rewrite fmap_cons in *.
  assert (seg_entry_ok dim (to_seg e)) as Heok.
  { pose proof (fit_ok _ _ Hfit) as Hf. rewrite Hpre, !Forall_app, Forall_cons in Hf. tauto. }
  destruct (build_entry (clock rounds).1 (clock rounds).2 i m e todo cur built s r fm Hat Hb Hm Hc Heok)
    as (name & Hn1 & Hn2 & E). cbv zeta in E. rewrite (run_step _ _ _ _ _ E).
  assert (made_name (length built) name) as Hname.
  { destruct (decide (cur = [])) as [Hnil|Hne].
    - exists rounds, i. split_and!; [by apply Hn2|done|]. split; [lia|]. cbn [length] in Hcount. lia.
    - rewrite Hn1 by done. by apply (bd_name _ _ _ _ Hb). }
  assert (mem_entries m = pre ++ (cur ++ [to_seg e]) ++ (to_seg <$> todo)) as Hpre' by (by rewrite <-app_assoc).
  assert (zlen (cur ++ [to_seg e]) = zlen cur + 1) as Hz by len.
  pose proof (zlen_nonneg cur) as Hz0. unfold kMaxSegmentEntries in *.
  assert (u32 (zlen (cur ++ [to_seg e])) = zlen cur + 1) as Hu by (rewrite Hz; apply u32_id; split; lia). rewrite Hu.
  pose proof Hb as [_ _ _ _ _ _ Hbuilt Hep]. destruct (Z.leb_spec 20000 (zlen cur + 1)) as [Hfull|Hroom].
  - destruct rounds as [|rounds]; [cbn in Hr; lia|].
    edestruct (finish_segment rounds i (cur ++ [to_seg e]) built) as (s' & r' & fm' & -> & Hat' & Hd' & Hb' & Hbd' & Hcu');
      [exact Hat|exact Hdisk|exact Hbok| |by destruct cur|reflexivity|reflexivity|reflexivity|reflexivity|reflexivity|exact Hname|exact Hbuilt|exact Hep|].
    { by apply (chunk_ok_mid dim pre _ (to_seg <$> todo)); rewrite <-Hpre'. }
    cbn [fz_done_after_finalize fz_filename fz_cursor] in *.
    destruct (IH rounds (pre ++ cur ++ [to_seg e]) [] (built ++ [(name, cur ++ [to_seg e])]) s' r' fm')
      as (rounds' & new & s2 & r2 & fm2 & -> & Hr2 & Hnew & Hln & Hready); try done.
    + by rewrite Hcu'.
    + by rewrite Hpre', <-!app_assoc.
    + rewrite length_app. cbn [length] in *. lia.
    + cbn in Hr. lia.
    + exists rounds', ((name, cur ++ [to_seg e]) :: new), s2, r2, fm2. split; [done|]. cbn [length] in *.
      split; [lia|]. split; [cbn; rewrite Hnew; by rewrite <-app_assoc|]. split; [lia|].
      by rewrite <-app_assoc in Hready.
  - match goal with |- context [freeze_run rounds clock ?s0 r] =>
      destruct (IH rounds pre (cur ++ [to_seg e]) built s0 r fm) as (rounds' & new & s2 & r2 & fm2 & E2 & Hr2 & Hnew & Hln & Hready)
    end; [exact Hm|exact Hiu|exact Hat|exact Hdisk|exact Hbok| |reflexivity|exact Hpre'|exact Hnd|exact Hfit|lia| | |].
    + split; cbn; [done..| |done|done|done]. by destruct cur.
    + rewrite length_app. cbn [length] in *. lia.
    + cbn in Hr. lia.
    + exists rounds', new, s2, r2, fm2. split; [exact E2|]. rewrite length_app in Hln. cbn [length] in *.
      split; [lia|]. split; [by rewrite Hnew, <-app_assoc|]. by split; [lia|].
Qed.

(** All memtables. *)
Context (Hms : Forall (mem_ok dim) ms) (Hfits : Forall (fun m => fits dim (mem_entries m)) ms).
Context (Hsmall : Z.of_nat (length ms + length (ms ≫= mem_entries)) < 2 ^ 64).

(** Rounds for a list of memtables: two for each entry and for each table. *)
Definition build_rounds (l : list (MemTable T)) : nat := sum_list_with (fun m => 2 * length (mt_cursor m) + 2)%nat l.

Lemma mems_run rest : forall i rounds built s r fm,
  drop i ms = rest -> ready i built fm s r ->
  Z.of_nat (length built + length (rest ≫= mem_entries)) < 2 ^ 64 -> (build_rounds rest <= rounds)%nat ->
  exists rounds' new s' r' fm', freeze_run rounds clock s r = freeze_run rounds' clock s' r' /\
    (rounds <= rounds' + build_rounds rest)%nat /\ new ≫= snd = rest ≫= mem_entries /\
    ready (i + length rest) (built ++ new) fm' s' r'.
Proof using H0 Hclock Hfresh Hplain Httl Hms Hfits Hsmall.
  induction rest as [|m rest IH]; intros i rounds built s r fm Hdrop Hrd Hcount Hr.
  { exists rounds, [], s, r, fm. split_and!; [done|lia|done|]. cbn [length]. by rewrite app_nil_r, Nat.add_0_r. }
  assert (ms !! i = Some m) as Hm by (pose proof (lookup_drop ms i 0) as E; rewrite Hdrop, Nat.add_0_r in E; by rewrite <-E).
  assert (is_u64 (Z.of_nat i)) as Hiu by (apply lookup_lt_Some in Hm; split; lia).
  pose proof (Forall_lookup_1 _ _ _ _ Hms Hm) as Hmok. pose proof (Forall_lookup_1 _ _ _ _ Hfits Hm) as Hfit.
  destruct Hrd as [Hat Hdisk Hbok Hbd Hcur]. unfold build_rounds in Hr. cbn [sum_list_with mbind list_bind] in Hr, Hcount.
  assert (length (mem_entries m) = length (mt_cursor m)) as Hlm by apply length_fmap. rewrite length_app, Hlm in Hcount.
  destruct (mem_run i m (mt_cursor m) rounds [] [] built s r fm) as (rounds1 & new1 & s1 & r1 & fm1 & -> & Hr1 & Hn1 & Hl1 & Hrd1);
    try done; [by rewrite Hcur|by eapply mem_entries_nodup|cbn; lia|lia|].
  cbn [app length] in Hn1, Hl1.
  destruct (IH (S i) rounds1 (built ++ new1) s1 r1 fm1) as (rounds2 & new2 & s2 & r2 & fm2 & -> & Hr2 & Hn2 & Hrd2).
  - replace (S i) with (i + 1)%nat by lia. by rewrite <-drop_drop, Hdrop.
  - done.
  - rewrite length_app. lia.
  - unfold build_rounds. lia.
  - exists rounds2, (new1 ++ new2), s2, r2, fm2. split; [done|].
    split; [unfold build_rounds in *; cbn [sum_list_with]; lia|].
    split; [cbn [mbind list_bind]; by rewrite bind_app, Hn1, Hn2|].
    rewrite app_assoc. cbn [length]. by rewrite Nat.add_succ_r.
Qed.

Lemma insert_reversed_app {A} (built target : list A) : insert_reversed built target = built ++ target.
Proof.
  unfold insert_reversed. revert target. induction built as [|x built IH] using rev_ind; intros target; [done|].
  rewrite reverse_snoc. cbn [fold_left]. rewrite IH. by rewrite <-app_assoc.
Qed.

(** *** Commit, install, reset and publish *)

Context (names0 : list bytes) (Hload : load_result (fm0 !! curr_path dir) (fm0 !! prev_path dir) = inr names0).
Context (Hnames : Forall dat_name names0).
Context (ns ng : Z) (wsegs : list (list entry * bytes)) (wes : list entry).
Context (Hns : ns < 2 ^ 64) (Hng : ng < 2 ^ 64) (Henv : w_env (rt_wal r0) = MkFs fm0 []).
Context (Hwal : wal_inv ns ng (rt_wal r0) wsegs wes).
Context (Hfrozen : rt_frozen_mem r0 = ms).

(** The segments made by the freeze. *)
Definition segs_of (built : list (bytes * list SegEntry)) : list SegmentReader :=
  (fun '(n, es) => seg_of (seg_path dir n) dim es) <$> built.

(** The shard after the freeze. *)
Record frozen_shard (built : list (bytes * list SegEntry)) r' : Prop := {
  fs_conf : rt_conf r' = rt_conf r0;
  fs_mem : rt_mem r' = rt_mem r0;
  fs_frozen : rt_frozen_mem r' = [];
  fs_segments : rt_segments r' = segs_of built ++ rt_segments r0;
  fs_snapshot : exists ver, rt_snapshot r' = Some (MkSnap ver [] (rt_segments r') None);
  fs_coalesce : rt_coalesce_buffer r' = rt_coalesce_buffer r0;
  fs_log : wal_inv ns ng (rt_wal r') [] [];
  fs_list : load_result (fs_files (w_env (rt_wal r')) !! curr_path dir) (fs_files (w_env (rt_wal r')) !! prev_path dir)
    = inr (built.*1 ++ names0);
  fs_new name es : (name, es) ∈ built ->
    fs_files (w_env (rt_wal r')) !! seg_path dir name = Some (seg_file dim (merge_sort id_le es));
  fs_old name c : dat_name name -> fm0 !! seg_path dir name = Some c ->
    fs_files (w_env (rt_wal r')) !! seg_path dir name = Some c
}.

(** The files after the manifest is committed, when there is something to commit. *)
Record committed (built : list (bytes * list SegEntry)) (fm : gmap path bytes) : Prop := {
  cm_list : load_result (fm !! curr_path dir) (fm !! prev_path dir) = inr (built.*1 ++ names0);
  cm_names : Forall dat_name built.*1;
  cm_wal p : wal_path p -> fm !! p = fm0 !! p;
  cm_new name es : (name, es) ∈ built -> fm !! seg_path dir name = Some (seg_file dim (merge_sort id_le es));
  cm_old name c : dat_name name -> fm0 !! seg_path dir name = Some c -> fm !! seg_path dir name = Some c
}.

Lemma disk_wal fm built p : disk_built fm built -> wal_path p -> fm !! p = fm0 !! p.
Proof.
  intros Hd Hp. apply (db_other _ _ Hd). intros name Hn. split; intros ->.
  - by eapply seg_path_not_wal.
  - by eapply seg_tmp_not_wal.
Qed.
Lemma disk_manifest fm built p : disk_built fm built -> manifest_path dir p -> fm !! p = fm0 !! p.
Proof.
  intros Hd Hp. apply (db_other _ _ Hd). intros name Hn. split; [by apply seg_path_not_manifest|by apply seg_tmp_not_manifest].
Qed.

Lemma disk_load fm built : disk_built fm built -> load_result (fm !! curr_path dir) (fm !! prev_path dir) = inr names0.
Proof using Hload. intros Hd. rewrite !(disk_manifest fm built) by (done || (by left) || (by right; left)). done. Qed.

Lemma built_names built : built_ok built -> Forall dat_name built.*1.
Proof using Hclock.
  intros Hb. apply Forall_fmap, Forall_lookup. intros k [name es] Hk. destruct (Hb _ _ _ Hk) as [Hn _].
  by eapply made_name_dat.
Qed.

Lemma committed_none fm : disk_built fm [] -> committed [] fm.
Proof using Hload.
  intros Hd. split; [by apply (disk_load fm [])|constructor|intros p; by apply (disk_wal fm [])|by intros ?? ?%not_elem_of_nil|apply Hd].
Qed.

Lemma committed_some fm fm' built :
  disk_built fm built -> built_ok built ->
  fm' !! curr_path dir = Some (manifest_bytes (built.*1 ++ names0)) ->
  (forall q, q <> curr_path dir -> q <> prev_path dir -> q <> tmp_path dir -> fm' !! q = fm !! q) ->
  committed built fm'.
Proof using Hclock Hnames.
  intros Hd Hb Hc Hq.
  assert (forall name, dat_name name -> fm' !! seg_path dir name = fm !! seg_path dir name) as Hseg.
  { intros name Hn. apply Hq; apply not_eq_sym; apply seg_path_not_manifest; unfold manifest_path; tauto. }
  split.
  - rewrite Hc. unfold load_result. rewrite decode_manifest_bytes; [done|].
    eapply Forall_impl; [|exact dat_name_seg_name]. apply Forall_app. split; [by apply built_names|exact Hnames].
  - by apply built_names.
  - intros p Hp. rewrite <-(disk_wal fm built p Hd Hp).
    apply Hq; intros ->; eapply (manifest_not_wal dir); [|exact Hp| |exact Hp| |exact Hp]; unfold manifest_path; tauto.
  - intros name es Hin. rewrite Hseg; [by apply (db_new _ _ Hd)|].
    pose proof (built_names built Hb) as Hf. rewrite Forall_forall in Hf. apply Hf.
    by apply (list_elem_of_fmap_2 fst _ (name, es)) in Hin.
  - intros name c Hn Hc0. rewrite Hseg by done. by apply (db_old _ _ Hd).
Qed.

(** From the end of the build to the reset of the log. *)
Lemma commit_run rounds built s r fm :
  ready (length ms) built fm s r ->
  exists j s' r' fm', (rounds <= j)%nat /\ freeze_run (3 + rounds) clock s r = freeze_run j clock s' r' /\
    fz_phase s' = kResetWal /\ fz_memtables s' = ms /\ fz_wal_epoch_at_start s' = rt_wal_epoch r0 /\
    committed built fm' /\ rt_conf r' = rt_conf r0 /\ rt_mem r' = rt_mem r0 /\ rt_frozen_mem r' = ms /\
    rt_segments r' = segs_of built ++ rt_segments r0 /\ rt_coalesce_buffer r' = rt_coalesce_buffer r0 /\
    rt_wal_epoch r' = rt_wal_epoch r0 /\ rt_wal r' = set_fs (MkFs fm' []) (rt_wal r0).
Proof using Hclock Hload Hnames Hfrozen Hsmall.
  intros [Hat Hdisk Hbok Hbd Hcur]. pose proof Hbd as [Hph Hmem Hi Hpart Hbld Hname Hbuilt Hep].
  change (3 + rounds)%nat with (S (S (S rounds))).
  erewrite (run_step (S (S rounds)) s r (fz_to kCommitManifest s) r).
  2:{ unfold freeze_step, freeze_build. rewrite Hph, Hmem, Hi. by rewrite lookup_ge_None_2 by lia. }
  destruct (decide (built = [])) as [->|Hne].
  - erewrite (run_step (S rounds) _ r (fz_to kResetWal s) r).
    2:{ unfold freeze_step. cbn [fz_to fz_phase fz_built_segments]. by rewrite Hbuilt. }
    exists (S rounds), (fz_to kResetWal s), r, fm. destruct Hat as [[] He Hw].
    split; [lia|]. split_and!; try done; [by apply committed_none|congruence].
  - destruct (sm_Commit_ok dir (built.*1 ++ names0) fm) as (fm' & Ec & Hc & Hq).
    destruct (on_fs_at _ _ _ _ r Hat (sm_Load_eq dir fm)) as (r1 & E1 & Hat1). rewrite (disk_load fm built Hdisk) in E1.
    destruct (on_fs_at _ _ _ _ r1 Hat1 Ec) as (r2 & E2 & Hat2).
    erewrite (run_step (S rounds) _ r (fz_to kInstall s) r2).
    2:{ unfold freeze_step. cbn [fz_to fz_phase fz_built_segments]. rewrite Hbuilt, bool_decide_eq_false_2 by by destruct built.
        rewrite (mbind_ok _ _ _ r r), (sd_conf _ _ (ad_data _ _ Hat)) by done.
        rewrite (mbind_ok _ _ _ _ _ (job_step_ok _ _ _ _ _ E1)). cbv beta. rewrite insert_reversed_app.
        assert (((fun '(n, es) => (n, seg_of (seg_path dir n) dim es)) <$> built).*1 = built.*1) as ->
          by (rewrite <-list_fmap_compose; apply list_fmap_ext; by intros ? []).
        by rewrite (mbind_ok _ _ _ _ _ (job_step_ok _ _ _ _ _ E2)). }
    erewrite (run_step rounds _ r2 (fz_to kResetWal s)) by reflexivity.
    destruct Hat2 as [[] He Hw]. eexists rounds, _, _, fm'. split; [done|]. split; [reflexivity|]. split_and!; try done.
    + by eapply committed_some.
    + cbn. congruence.
    + cbn [with_layers rt_segments]. rewrite insert_reversed_app. cbn [fz_to fz_built_segments].
      rewrite Hbuilt, sd_segments. f_equal. rewrite <-!list_fmap_compose. apply list_fmap_ext. by intros ? [].
Qed.

(** The reset of the log and the publication. *)
Lemma reset_run j built s r fm :
  ms <> [] -> fz_phase s = kResetWal -> fz_memtables s = ms -> fz_wal_epoch_at_start s = rt_wal_epoch r0 ->
  committed built fm -> rt_conf r = rt_conf r0 -> rt_mem r = rt_mem r0 -> rt_frozen_mem r = ms ->
  rt_segments r = segs_of built ++ rt_segments r0 -> rt_coalesce_buffer r = rt_coalesce_buffer r0 ->
  rt_wal_epoch r = rt_wal_epoch r0 -> rt_wal r = set_fs (MkFs fm []) (rt_wal r0) ->
  exists r', freeze_run (3 + j) clock s r = (inr tt, r') /\ frozen_shard built r'.
Proof using Hclock Hns Hng Henv Hwal Hnames.
  intros Hne Hph Hmem Hep [Hlist Hnm Hw Hnew Hold] Hc Hm Hf Hs Hb He Hwl.
  assert (wal_inv ns ng (rt_wal r) wsegs wes) as Hinv.
  { rewrite Hwl. apply wal_inv_frame; [done|]. rewrite Henv. exact Hw. }
  destruct (Reset_spec ns ng _ _ _ Hinv Hns Hng) as (w' & Ew & Hinv' & _ & _).
  assert (forall q, ~ wal_path q -> fs_files (w_env w') !! q = fm !! q) as Hfr.
  { intros q Hq. destruct (frame_wal_Reset q Hq _ _ _ (wal_inv_handle _ _ _ _ _ q Hinv Hq) Ew) as [_ ->]. by rewrite Hwl. }
  set (r1 := with_layers (rt_mem r) [] (rt_segments r) r).
  change (3 + j)%nat with (S (S (S j))).
  erewrite (run_step (S (S j)) s r (fz_to kPublish s) (with_wal w' r1)).
  2:{ unfold freeze_step. rewrite Hph, Hmem. cbv zeta. rewrite (mbind_ok _ _ _ tt r1).
      2:{ unfold mmodify. rewrite Hf, (proj2 (Nat.leb_le (length ms) (length ms))) by done.
          rewrite (proj2 (Nat.ltb_lt 0 (length ms))) by (apply Nat.neq_0_lt_0; by intros ?%nil_length_inv). cbn [andb]. by rewrite drop_all. }
      rewrite (mbind_ok _ _ _ r1 r1) by done. change (rt_wal_epoch r1) with (rt_wal_epoch r). rewrite He, Hep, Z.eqb_refl.
      rewrite (mbind_ok _ _ _ tt (with_wal w' r1)); [done|]. apply job_step_ok. unfold on_wal.
      change (rt_wal r1) with (rt_wal r). by rewrite Ew. }
  erewrite (run_step (S j) _ _ (fz_to kDone (fz_to kPublish s))) by reflexivity.
  cbn [freeze_run]. destruct (clock j). eexists. split; [reflexivity|].
  assert (forall name, dat_name name -> fs_files (w_env w') !! seg_path dir name = fm !! seg_path dir name) as Hseg
    by (intros name Hn; by apply Hfr, seg_path_not_wal).
  split; try done; cbn [PublishSnapshot rt_wal with_wal].
  - by eexists.
  - rewrite !Hfr by (apply (manifest_not_wal dir); unfold manifest_path; tauto). done.
  - intros name es Hin. rewrite Hseg; [by apply Hnew|]. rewrite Forall_forall in Hnm. apply Hnm.
    by apply (list_elem_of_fmap_2 fst _ (name, es)) in Hin.
  - intros name c Hn Hc0. rewrite Hseg by done. by apply Hold.
Qed.

(** The whole loop: enough rounds lead to the frozen shard. *)
Lemma freeze_run_ok rounds s r :
  ms <> [] -> ready 0 [] fm0 s r -> (build_rounds ms + 6 <= rounds)%nat ->
  exists built r', freeze_run rounds clock s r = (inr tt, r') /\ frozen_shard built r' /\
    Forall (chunk_ok dim) built.*2 /\ concat built.*2 = ms ≫= mem_entries /\ Forall dat_name built.*1.
Proof using H0 Hclock Hfresh Hplain Httl Hms Hfits Hsmall Hload Hnames Hns Hng Henv Hwal Hfrozen.
  intros Hne Hrd Hr.
  destruct (mems_run ms 0 rounds [] s r fm0) as (rounds1 & built & s1 & r1 & fm1 & -> & Hr1 & Hbuilt & Hrd1);
    [done|done|cbn; lia|lia|].
  destruct rounds1 as [|[|[|rounds1]]]; [lia..|].
  destruct (commit_run rounds1 built s1 r1 fm1 Hrd1)
    as (j & s2 & r2 & fm2 & Hj & E & Hph & Hmem & Hep & Hcm & Hc & Hm & Hf & Hs & Hb & He & Hw).
  change (3 + rounds1)%nat with (S (S (S rounds1))) in E. rewrite E. destruct j as [|[|[|j]]]; [lia..|].
  destruct (reset_run j built s2 r2 fm2) as (r3 & E3 & Hfs); try done.
  exists built, r3. split; [exact E3|]. split; [done|]. destruct Hrd1 as [_ _ Hbok _ _]. split_and!.
  - apply Forall_fmap, Forall_lookup. intros k [name es] Hk. by destruct (Hbok _ _ _ Hk).
  - rewrite <-Hbuilt. clear. induction built as [|[n es] built IH]; [done|]. cbn. by rewrite IH.
  - by apply built_names.
Qed.
End loop.

(** ** Properties *)

Section properties.
Context {T : Type} `{IdMapLaws T (option bytes)} `{F32} `{AesGcm}.
Context (quant_decode : SegmentReader -> bytes -> vec).
Implicit Types (m : MemTable T) (r : VectorRuntime T).

(** The memtables of a shard from the oldest to the active one. *)
Definition oldest_first r : list (MemTable T) := rt_frozen_mem r ++ [rt_mem r].

(** Conditions for a freeze to complete: a started shard without TTL, a file
    system without pending errors, a readable manifest, an open log, segments
    below 4 GiB and unused file names. *)
Record can_freeze (ns ng : Z) (clock : nat -> Z * Z) (names : list bytes) r : Prop := {
  cf_inv : rt_inv r;
  cf_started : rt_started r = true;
  cf_ttl : rc_ttl_sec (rt_conf r) = 0;
  cf_log : exists segs es, wal_inv ns ng (rt_wal r) segs es;
  cf_ns : ns < 2 ^ 64 /\ ng < 2 ^ 64;
  cf_list : load_result (fs_files (w_env (rt_wal r)) !! curr_path (rc_data_dir (rt_conf r)))
    (fs_files (w_env (rt_wal r)) !! prev_path (rc_data_dir (rt_conf r))) = inr names;
  cf_names : Forall dat_name names;
  cf_clock n : is_u64 (clock n).2;
  cf_fresh n i k : fs_files (w_env (rt_wal r)) !! seg_path (rc_data_dir (rt_conf r)) (segment_filename (clock n).2 i k) = None;
  cf_fits : Forall (fun m => fits (rc_dim (rt_conf r)) (mem_entries m)) (oldest_first r);
  cf_small : Z.of_nat (length (oldest_first r) + length (oldest_first r ≫= mem_entries)) < 2 ^ 64
}.

(** Rounds that are enough: two for each entry and each memtable, six more. *)
Definition freeze_rounds r : nat := (build_rounds (oldest_first r) + 6)%nat.

(** The memtables the freeze works on. *)
Definition frozen_now r : list (MemTable T) := if 0 <? mt_GetCount (rt_mem r) then oldest_first r else rt_frozen_mem r.

Lemma empty_mem_answer dim m id : mem_ok dim m -> mt_GetCount m <= 0 -> mem_answer dim m id = LNotFound.
Proof.
  intros Hok Hc. rewrite <-(mem_entries_answer dim m id Hok). rewrite <-(length_mem_entries dim m Hok) in Hc.
  destruct (mem_entries m); [done|]. unfold zlen in Hc. cbn in Hc. lia.
Qed.

(** The shard a freeze starts from: the active memtable is rotated. *)
Lemma freeze_start ns ng clock names r rounds :
  can_freeze ns ng clock names r -> (freeze_rounds r <= rounds)%nat ->
  exists r0, rt_inv r0 /\ rt_conf r0 = rt_conf r /\ rt_frozen_mem r0 = frozen_now r /\ rt_segments r0 = rt_segments r /\
    mt_GetCount (rt_mem r0) <= 0 /\ rt_wal r0 = rt_wal r /\ rt_coalesce_buffer r0 = rt_coalesce_buffer r /\
    rt_Freeze rounds clock r =
    (if bool_decide (frozen_now r = []) then (inr tt, r0)
     else freeze_run rounds clock (MkFreeze kBuild (frozen_now r) 0 0 None [] None [] false [] (rt_wal_epoch r0)) r0).
Proof.
  intros Hcf Hr. pose proof (cf_inv _ _ _ _ _ Hcf) as Hinv. unfold rt_Freeze, HandleFreeze.
  rewrite (mbind_ok _ _ _ r r), (mguard_ok _ _ _ _ (cf_started _ _ _ _ _ Hcf)) by done. unfold frozen_now.
  destruct (Z.ltb_spec 0 (mt_GetCount (rt_mem r))) as [Hpos|Hle].
  - exists (RotateMemTable r). split; [by apply rt_inv_rotate|].
    assert (RotateMemTable r = PublishSnapshot (with_layers (mt_new (rc_dim (rt_conf r)) (2 ^ 20) (rc_quantize_inmem (rt_conf r)))
       (rt_frozen_mem r ++ [rt_mem r]) (rt_segments r) r)) as E.
    { unfold RotateMemTable. by rewrite (proj2 (Z.eqb_neq _ _)) by lia. }
    rewrite E. split_and!; try done.
    + cbn. unfold mt_GetCount. cbn. rewrite im_size_abs, im_abs_new by (apply im_wf_new; lia). by rewrite map_size_empty.
    + unfold mbind at 1, M_bind at 1, mmodify at 1. rewrite (proj2 (Z.ltb_lt _ _) Hpos), E. cbn [rt_frozen_mem PublishSnapshot with_layers].
      rewrite (mbind_ok mget _ _ _ _ eq_refl). cbn [rt_frozen_mem PublishSnapshot with_layers]. fold (oldest_first r). by case_bool_decide.
  - exists r. split_and!; try done.
    unfold mbind at 1, M_bind at 1, mmodify at 1. rewrite (proj2 (Z.ltb_ge _ _) Hle).
    rewrite (mbind_ok mget _ _ _ _ eq_refl). by case_bool_decide.
Qed.

(** Where [rt_find] looks after a freeze. *)
Lemma layered_frozen_now r id :
  rt_inv r -> id_ok id ->
  layered quant_decode (rc_dim (rt_conf r)) (frozen_now r) (rt_segments r) id =
  layered quant_decode (rc_dim (rt_conf r)) (oldest_first r) (rt_segments r) id.
Proof.
  intros Hinv Hid. unfold frozen_now. destruct (Z.ltb_spec 0 (mt_GetCount (rt_mem r))) as [|Hle]; [done|].
  unfold layered, oldest_first. rewrite mems_answer_app. cbn [mems_answer].
  rewrite (empty_mem_answer _ (rt_mem r)) by (first [apply Hinv|done]).
  by destruct (mems_answer _ (rt_frozen_mem r) id).
Qed.

Lemma frozen_now_sub (P : MemTable T -> Prop) r : Forall P (oldest_first r) -> Forall P (frozen_now r).
Proof. unfold frozen_now, oldest_first. destruct (_ <? _); [done|]. by intros [? _]%Forall_app. Qed.

Lemma frozen_now_rounds r :
  (build_rounds (frozen_now r) <= build_rounds (oldest_first r))%nat /\
  (length (frozen_now r) + length (frozen_now r ≫= mem_entries) <=
   length (oldest_first r) + length (oldest_first r ≫= mem_entries))%nat.
Proof.
  unfold frozen_now, oldest_first, build_rounds. destruct (_ <? _); [lia|].
  rewrite sum_list_with_app, bind_app, !length_app. lia.
Qed.

(** A freeze of a non-empty shard, with everything it leaves behind. *)
Lemma freeze_ok ns ng clock names r rounds :
  can_freeze ns ng clock names r -> (freeze_rounds r <= rounds)%nat -> frozen_now r <> [] ->
  exists r0 built r', rt_Freeze rounds clock r = (inr tt, r') /\
    rt_inv r0 /\ rt_conf r0 = rt_conf r /\ rt_segments r0 = rt_segments r /\ mt_GetCount (rt_mem r0) <= 0 /\
    rt_coalesce_buffer r0 = rt_coalesce_buffer r /\
    frozen_shard r0 (fs_files (w_env (rt_wal r))) names ns ng built r' /\
    Forall (chunk_ok (rc_dim (rt_conf r))) built.*2 /\ concat built.*2 = frozen_now r ≫= mem_entries /\
    Forall dat_name built.*1.
Proof.
  intros Hcf Hr Hne.
  destruct (freeze_start _ _ _ _ _ _ Hcf Hr) as (r0 & Hinv0 & Hc & Hf & Hs & Hm & Hw & Hb & ->).
  rewrite bool_decide_eq_false_2 by done.
  destruct Hcf as [Hinv Hst Httl (wsegs & wes & Hwal) [Hns Hng] Hlist Hnames Hclock Hfresh Hfits Hsmall].
  destruct (frozen_now_rounds r) as [Hr1 Hr2].
  pose proof (ri_frozen _ Hinv0) as Hms. rewrite Hf, Hc in Hms.
  assert (w_env (rt_wal r) = MkFs (fs_files (w_env (rt_wal r))) []) as Henv.
  { pose proof (wi_faults _ _ _ _ _ Hwal) as Hfl. destruct (w_env (rt_wal r)); cbn in *. by subst. }
  destruct (freeze_run_ok r0 (fs_files (w_env (rt_wal r))) clock (frozen_now r)) with (names0 := names) (ns := ns) (ng := ng)
    (wsegs := wsegs) (wes := wes) (rounds := rounds) (r := r0)
    (s := MkFreeze kBuild (frozen_now r) 0 0 None [] None [] false [] (rt_wal_epoch r0))
    as (built & r' & E & Hfs & Hch & Hcat & Hdn); rewrite ?Hc, ?Hw; try done.
  - rewrite <-Hc. apply Hinv0.
  - by apply frozen_now_sub.
  - lia.
  - split; [split; [done|done|]| |by intros ???|by split|done].
    + rewrite Hw. by rewrite <-Henv, (set_fs_same (rt_wal r) _ eq_refl).
    + split; [done|done|by intros ?? ?%not_elem_of_nil].
  - unfold freeze_rounds in Hr. lia.
  - exists r0, built, r'. split_and!; try done. by rewrite <-Hc.
Qed.

Lemma frozen_shard_inv r0 fm names ns ng built r' :
  frozen_shard r0 fm names ns ng built r' -> rt_inv r0 -> rt_inv r'.
Proof.
  intros Hfs Hinv. split.
  - rewrite (fs_conf _ _ _ _ _ _ _ Hfs), (fs_mem _ _ _ _ _ _ _ Hfs). apply Hinv.
  - rewrite (fs_frozen _ _ _ _ _ _ _ Hfs). constructor.
  - rewrite (fs_conf _ _ _ _ _ _ _ Hfs). apply Hinv.
  - destruct (fs_snapshot _ _ _ _ _ _ _ Hfs) as [ver ->]. exists ver. by rewrite (fs_frozen _ _ _ _ _ _ _ Hfs).
Qed.

Lemma frozen_shard_find r0 fm names ns ng built r' ms id :
  frozen_shard r0 fm names ns ng built r' -> rt_inv r0 -> mt_GetCount (rt_mem r0) <= 0 -> id_ok id ->
  Forall (chunk_ok (rc_dim (rt_conf r0))) built.*2 -> concat built.*2 = ms ≫= mem_entries ->
  Forall (mem_ok (rc_dim (rt_conf r0))) ms ->
  rt_find quant_decode r' id = layered quant_decode (rc_dim (rt_conf r0)) ms (rt_segments r0) id.
Proof.
  intros Hfs Hinv Hempty Hid Hch Hcat Hms. pose proof (frozen_shard_inv _ _ _ _ _ _ _ Hfs Hinv) as Hinv'.
  rewrite rt_find_layers by done. destruct Hfs as [Hc Hm Hf Hs _ _ _ _ _ _].
  rewrite Hc, Hm, Hf, Hs. unfold layered. cbn [reverse mems_answer].
  rewrite (empty_mem_answer _ (rt_mem r0)) by (first [apply Hinv|done]). cbn [mems_answer].
  unfold segs_of. rewrite (segs_answer_chunks quant_decode (seg_path (rc_data_dir (rt_conf r0)))), Hcat by done.
  rewrite (mems_entries_answer (rc_dim (rt_conf r0))) by done.
  by destruct (mems_answer _ ms id).
Qed.

Lemma all_mems_ok r : rt_inv r -> Forall (mem_ok (rc_dim (rt_conf r))) (oldest_first r).
Proof. intros Hinv. apply Forall_app. split; [apply Hinv|]. apply Forall_singleton, Hinv. Qed.

Lemma freeze_reads ns ng clock names r rounds :
  can_freeze ns ng clock names r -> (freeze_rounds r <= rounds)%nat ->
  exists r', rt_Freeze rounds clock r = (inr tt, r') /\ rt_inv r' /\
    rt_frozen_mem r' = [] /\ mt_GetCount (rt_mem r') <= 0 /\
    forall id, id_ok id -> rt_find quant_decode r' id =
      layered quant_decode (rc_dim (rt_conf r)) (oldest_first r) (rt_segments r) id.
Proof.
  intros Hcf Hr. pose proof (cf_inv _ _ _ _ _ Hcf) as Hinv. destruct (decide (frozen_now r = [])) as [Hnil|Hne].
  - destruct (freeze_start _ _ _ _ _ _ Hcf Hr) as (r0 & Hinv0 & Hc & Hf & Hs & Hm & _ & _ & E).
    rewrite Hnil in E, Hf. exists r0. split_and!; try done. intros id Hid.
    rewrite rt_find_layers, Hc, Hs, Hf by done. rewrite <-layered_frozen_now, Hnil by done. unfold layered. cbn [reverse mems_answer].
    rewrite (empty_mem_answer _ (rt_mem r0)); [done|rewrite <-Hc; apply Hinv0|done].
  - destruct (freeze_ok _ _ _ _ _ _ Hcf Hr Hne) as (r0 & built & r' & E & Hinv0 & Hc & Hs & Hm & _ & Hfs & Hch & Hcat & _).
    exists r'. split; [done|]. split; [by eapply frozen_shard_inv|]. split; [apply Hfs|].
    split; [by rewrite (fs_mem _ _ _ _ _ _ _ Hfs)|]. intros id Hid. rewrite <-layered_frozen_now by done.
    rewrite <-Hc, <-Hs. rewrite <-Hc in Hch. eapply frozen_shard_find; try done.
    rewrite Hc. apply frozen_now_sub, all_mems_ok, Hinv.
Qed.

Lemma freeze_keeps_answers ns ng clock names r rounds :
  can_freeze ns ng clock names r -> (freeze_rounds r <= rounds)%nat ->
  NoDup (se_id <$> (oldest_first r ≫= mem_entries)) ->
  exists r', rt_Freeze rounds clock r = (inr tt, r') /\
    forall id, id_ok id -> rt_find quant_decode r' id = rt_find quant_decode r id.
Proof.
  intros Hcf Hr Hnd. pose proof (cf_inv _ _ _ _ _ Hcf) as Hinv.
  destruct (freeze_reads _ _ _ _ _ _ Hcf Hr) as (r' & E & _ & _ & _ & Hfind). exists r'. split; [done|].
  intros id Hid. rewrite Hfind, rt_find_layers by done. unfold layered.
  pose proof (all_mems_ok r Hinv) as Hms.
  assert (rt_mem r :: reverse (rt_frozen_mem r) ≡ₚ oldest_first r) as Hp
    by (unfold oldest_first; rewrite reverse_Permutation; solve_Permutation).
  rewrite <-!(mems_entries_answer (rc_dim (rt_conf r))) by (first [done|by rewrite Hp]).
  rewrite (entries_answer_perm (oldest_first r ≫= mem_entries) ((rt_mem r :: reverse (rt_frozen_mem r)) ≫= mem_entries)); [done..|].
  by rewrite Hp.
Qed.

(** C9.  A freeze moves the memtables into segments without changing an answer.
    The shard is started and does not quantise, its list of segments is
    readable, its log is open and has no pending fault, its expiry is off, the
    segment files it is about to write do not exist and fit the format, no
    system call fails, and no identifier is in two memtables (in particular
    when there is only one to freeze).  Then the freeze completes within
    [freeze_rounds] rounds, leaves no memtable with data, and every lookup of
    an identifier other than the reserved 2^64-1 finds what it found before. *)
Theorem freeze_preserves_reads ns ng clock names r rounds :
  can_freeze ns ng clock names r -> (freeze_rounds r <= rounds)%nat ->
  NoDup (se_id <$> (oldest_first r ≫= mem_entries)) ->
  exists r', rt_Freeze rounds clock r = (inr tt, r') /\ rt_inv r' /\
    rt_frozen_mem r' = [] /\ mt_GetCount (rt_mem r') <= 0 /\
    forall id, id_ok id -> rt_find quant_decode r' id = rt_find quant_decode r id.
Proof.
  intros Hcf Hr Hnd. destruct (freeze_reads _ _ _ _ _ _ Hcf Hr) as (r' & E & Hi & Hf & Hm & _).
  destruct (freeze_keeps_answers ns ng clock names r rounds Hcf Hr Hnd) as (r2 & E2 & Ha). rewrite E in E2. injection E2 as <-.
  by exists r'.
Qed.

(** When an identifier is in two memtables, a freeze serves the older
    version: the first memtable with an answer wins, whatever newer ones say. *)
Theorem freeze_serves_stale_version ns ng clock names r rounds older m newer id a :
  can_freeze ns ng clock names r -> (freeze_rounds r <= rounds)%nat -> id_ok id ->
  oldest_first r = older ++ m :: newer -> mems_answer (rc_dim (rt_conf r)) older id = LNotFound ->
  mem_answer (rc_dim (rt_conf r)) m id = a -> a <> LNotFound ->
  exists r', rt_Freeze rounds clock r = (inr tt, r') /\ rt_find quant_decode r' id = Some a.
Proof.
  intros Hcf Hr Hid Hsplit Hold Ha Hne. destruct (freeze_reads _ _ _ _ _ _ Hcf Hr) as (r' & E & _ & _ & _ & Hfind).
  exists r'. split; [done|]. rewrite Hfind, Hsplit by done. unfold layered. rewrite mems_answer_app, Hold.
  cbn [mems_answer]. rewrite Ha. by destruct a.
Qed.

(** ** Restart *)

(** The file [p] opens to the segment [seg]. *)
Definition on_disk (fm : gmap path bytes) (p : path) (seg : SegmentReader) : Prop :=
  exists data, fm !! p = Some data /\ data <> [] /\ open_mapped p data = inr seg.

Lemma sr_Open_on_disk fm p seg : on_disk fm p seg -> sr_Open p (MkFs fm []) = (inr seg, MkFs fm []).
Proof.
  intros (data & Hp & Hne & Ho). unfold sr_Open. rewrite (mbind_ok _ _ _ data (MkFs fm [])); [unfold of_sum; by rewrite Ho|].
  unfold io_NewMemoryMappedFile, io_open, io_call. run_fs. rewrite Hp.
  rewrite (proj2 (Z.eqb_neq _ _)); [done|]. destruct data; [done|]. unfold zlen. cbn. lia.
Qed.

Lemma open_segments_ok fm names segs : forall r,
  w_env (rt_wal r) = MkFs fm [] -> Forall2 (fun name => on_disk fm (seg_path (rc_data_dir (rt_conf r)) name)) names segs ->
  open_segments names r = (inr tt, with_layers (rt_mem r) (rt_frozen_mem r) (rt_segments r ++ segs) r).
Proof.
  revert segs. induction names as [|name names IH]; intros segs r Henv Hall; inversion Hall as [|? seg ? segs' Hseg Hrest]; subst.
  - rewrite app_nil_r. by destruct r.
  - cbn [open_segments]. rewrite (mbind_ok _ _ _ r r) by done.
    assert (on_fs (sr_Open (seg_path (rc_data_dir (rt_conf r)) name)) r = (inr seg, r)) as E.
    { unfold on_fs. cbn [get_fs VectorRuntime_HasFs]. rewrite Henv, (sr_Open_on_disk _ _ _ Hseg). f_equal.
      change (with_wal (set_fs (MkFs fm []) (rt_wal r)) r = r). rewrite (set_fs_same _ _ Henv). by destruct r. }
    rewrite (mbind_ok _ _ _ _ _ E). erewrite mbind_ok by done. rewrite (IH segs') by done. cbn. by rewrite <-app_assoc.
Qed.

Lemma load_segments_ok fm names segs r :
  w_env (rt_wal r) = MkFs fm [] ->
  load_result (fm !! curr_path (rc_data_dir (rt_conf r))) (fm !! prev_path (rc_data_dir (rt_conf r))) = inr names ->
  Forall2 (fun name => on_disk fm (seg_path (rc_data_dir (rt_conf r)) name)) names segs ->
  LoadSegments r = (inr tt, PublishSnapshot (with_layers (rt_mem r) (rt_frozen_mem r) segs r)).
Proof.
  intros Henv Hload Hdisk. unfold LoadSegments. rewrite (mbind_ok _ _ _ r r) by done. rewrite (mbind_ok _ _ _ names r).
  2:{ unfold on_fs. cbn [get_fs VectorRuntime_HasFs]. rewrite Henv, sm_Load_eq, Hload. f_equal.
      change (with_wal (set_fs (MkFs fm []) (rt_wal r)) r = r). rewrite (set_fs_same _ _ Henv). by destruct r. }
  rewrite (mbind_ok _ _ _ tt (with_layers (rt_mem r) (rt_frozen_mem r) [] r)) by done.
  by rewrite (mbind_ok _ _ _ _ _ (open_segments_ok fm names segs (with_layers (rt_mem r) (rt_frozen_mem r) [] r) Henv Hdisk)).
Qed.

(** Starting a shard: the replayed memtable is frozen, if it has entries, and the
    listed segments are opened. *)
Definition started_shard (segs : list SegmentReader) r : VectorRuntime T :=
  let r0 := with_started true r in
  let r1 := if 0 <? mt_GetCount (rt_mem r) then RotateMemTable r0 else r0 in
  PublishSnapshot (with_layers (rt_mem r1) (rt_frozen_mem r1) segs r1).

Lemma start_run fm names segs r :
  w_env (rt_wal r) = MkFs fm [] ->
  load_result (fm !! curr_path (rc_data_dir (rt_conf r))) (fm !! prev_path (rc_data_dir (rt_conf r))) = inr names ->
  Forall2 (fun name => on_disk fm (seg_path (rc_data_dir (rt_conf r)) name)) names segs -> rt_started r = false ->
  rt_Start r = (inr tt, started_shard segs r).
Proof.
  intros Henv Hload Hdisk Hst. unfold rt_Start. rewrite (mbind_ok _ _ _ r r), mguard_ok by (done || by rewrite Hst).
  set (r0 := with_started true r). rewrite (mbind_ok _ _ _ tt r0) by done.
  set (r1 := if 0 <? mt_GetCount (rt_mem r) then RotateMemTable r0 else r0).
  rewrite (mbind_ok _ _ _ tt r1) by done.
  assert (rt_conf r1 = rt_conf r /\ rt_wal r1 = rt_wal r) as [Hc Hw].
  { unfold r1, RotateMemTable. destruct (_ <? _); [destruct (_ =? 0)|]; done. }
  rewrite <-Hc in Hload, Hdisk. rewrite <-Hw in Henv.
  rewrite (mbind_ok _ _ _ (inr tt) (started_shard segs r)); [done|].
  unfold try_. by rewrite (load_segments_ok fm names segs r1 Henv Hload Hdisk).
Qed.

(** Starting a shard with an empty memtable opens the listed segments. *)
Lemma start_ok fm names segs r blk :
  w_env (rt_wal r) = MkFs fm [] ->
  load_result (fm !! curr_path (rc_data_dir (rt_conf r))) (fm !! prev_path (rc_data_dir (rt_conf r))) = inr names ->
  Forall2 (fun name => on_disk fm (seg_path (rc_data_dir (rt_conf r)) name)) names segs ->
  rt_started r = false -> rt_mem r = mt_new (rc_dim (rt_conf r)) blk false -> rt_frozen_mem r = [] ->
  rc_quantize_inmem (rt_conf r) = false ->
  exists r', rt_Start r = (inr tt, r') /\ rt_inv r' /\ rt_conf r' = rt_conf r /\ rt_mem r' = rt_mem r /\
    rt_frozen_mem r' = [] /\ rt_segments r' = segs.
Proof.
  intros Henv Hload Hdisk Hst Hm Hf Hq. exists (started_shard segs r). split; [by eapply start_run|].
  assert ((0 <? mt_GetCount (rt_mem r)) = false) as Hcnt.
  { rewrite Hm. unfold mt_GetCount. cbn. rewrite im_size_abs, im_abs_new by (apply im_wf_new; lia). by rewrite map_size_empty. }
  unfold started_shard. rewrite Hcnt. split_and!; try done.
  split; cbn; rewrite ?Hf, ?Hm; [apply mem_ok_new|constructor|done|by eexists].
Qed.

Lemma seg_of_on_disk dim es fm p :
  chunk_ok dim es -> fm !! p = Some (seg_file dim (merge_sort id_le es)) -> on_disk fm p (seg_of p dim es).
Proof.
  intros [_ Hok] Hp. eexists. split; [exact Hp|]. split; [discriminate|]. by apply open_mapped_built.
Qed.

(** The list and the files of a frozen shard. *)
Lemma frozen_shard_on_disk r0 fm names ns ng built r' :
  frozen_shard r0 fm names ns ng built r' -> Forall (chunk_ok (rc_dim (rt_conf r0))) built.*2 -> Forall dat_name names ->
  Forall2 (fun name => on_disk fm (seg_path (rc_data_dir (rt_conf r0)) name)) names (rt_segments r0) ->
  Forall2 (fun name => on_disk (fs_files (w_env (rt_wal r'))) (seg_path (rc_data_dir (rt_conf r0)) name))
    (built.*1 ++ names) (rt_segments r').
Proof.
  intros Hfs Hch Hdn Hold. rewrite (fs_segments _ _ _ _ _ _ _ Hfs). apply Forall2_app.
  - apply Forall2_fmap_l, Forall2_fmap_r. apply Forall_Forall2_diag, Forall_forall.
    intros [name es] Hin. cbn. apply seg_of_on_disk; [|by eapply fs_new].
    rewrite Forall_forall in Hch. apply Hch. by apply (list_elem_of_fmap_2 snd _ (name, es)) in Hin.
  - pose proof (fs_old _ _ _ _ _ _ _ Hfs) as Ho. clear Hch Hfs. induction Hold as [|name seg names segs (data & Hp & Hd) _ IH]; [constructor|].
    apply Forall_cons in Hdn as [Hn Hdn]. constructor; [|by apply IH]. exists data. split; [|done]. by apply Ho.
Qed.

(** C3. Durability of a freeze: the log is empty afterwards, and a shard that
    is started on the files alone, with an empty memtable, opens the listed
    segments and finds for every identifier what the frozen shard finds. *)
Theorem freeze_survives_restart ns ng clock names r rounds :
  can_freeze ns ng clock names r -> (freeze_rounds r <= rounds)%nat -> frozen_now r <> [] ->
  Forall2 (fun name => on_disk (fs_files (w_env (rt_wal r))) (seg_path (rc_data_dir (rt_conf r)) name)) names (rt_segments r) ->
  exists r', rt_Freeze rounds clock r = (inr tt, r') /\ wal_inv ns ng (rt_wal r') [] [] /\
    forall r1 blk, rt_conf r1 = rt_conf r -> w_env (rt_wal r1) = w_env (rt_wal r') -> rt_started r1 = false ->
      rt_mem r1 = mt_new (rc_dim (rt_conf r)) blk false -> rt_frozen_mem r1 = [] ->
      exists r2, rt_Start r1 = (inr tt, r2) /\ rt_inv r2 /\
        forall id, id_ok id -> rt_find quant_decode r2 id = rt_find quant_decode r' id.
Proof.
  intros Hcf Hr Hne Hold.
  destruct (freeze_ok _ _ _ _ _ _ Hcf Hr Hne) as (r0 & built & r' & E & Hinv0 & Hc & Hs & Hm & _ & Hfs & Hch & Hcat & Hdn).
  exists r'. split; [done|]. split; [apply Hfs|]. intros r1 blk Hc1 He1 Hst1 Hm1 Hf1.
  pose proof (frozen_shard_inv _ _ _ _ _ _ _ Hfs Hinv0) as Hinv'.
  rewrite <-Hc, <-Hs in Hold. rewrite <-Hc in Hch.
  pose proof (frozen_shard_on_disk _ _ _ _ _ _ _ Hfs Hch (cf_names _ _ _ _ _ Hcf) Hold) as Hdisk.
  rewrite Hc in Hdisk.
  assert (w_env (rt_wal r1) = MkFs (fs_files (w_env (rt_wal r'))) []) as Henv1.
  { rewrite He1. pose proof (wi_faults _ _ _ _ _ (fs_log _ _ _ _ _ _ _ Hfs)) as Hfl.
    destruct (w_env (rt_wal r')); cbn in *. by subst. }
  destruct (start_ok _ (built.*1 ++ names) (rt_segments r') r1 blk Henv1) as (r2 & E2 & Hinv2 & Hc2 & Hm2 & Hf2 & Hs2);
    rewrite ?Hc1; try done.
  { rewrite <-Hc. apply Hfs. }
  { apply (ri_plain _ (cf_inv _ _ _ _ _ Hcf)). }
  exists r2. split; [done|]. split; [done|]. intros id Hid. rewrite !rt_find_layers by done.
  rewrite Hc2, Hc1, Hm2, Hf2, Hs2, Hm1, (fs_conf _ _ _ _ _ _ _ Hfs), Hc, (fs_mem _ _ _ _ _ _ _ Hfs), (fs_frozen _ _ _ _ _ _ _ Hfs).
  unfold layered. cbn [reverse mems_answer]. rewrite mem_answer_new, (empty_mem_answer _ (rt_mem r0)); [done|rewrite <-Hc; apply Hinv0|done].
Qed.

(** ** Failing freezes, under every pattern of I/O errors *)

(** What lookups depend on. *)
Definition read_view r : RtConf * MemTable T * option (VectorSnapshot T) := (rt_conf r, rt_mem r, rt_snapshot r).

Lemma read_view_find r r' id : read_view r' = read_view r -> rt_find quant_decode r' id = rt_find quant_decode r id.
Proof. intros [= Hc Hm Hs]. unfold rt_find. by rewrite Hc, Hm, Hs. Qed.

Lemma view_on_fs {A} (c : M fs A) : preserves read_view (on_fs c).
Proof. intros r x r' E. unfold on_fs in E. destruct (c (get_fs r)). by injection E as _ <-. Qed.
Lemma view_on_wal {A} (c : M Wal A) : preserves read_view (on_wal (T := T) c).
Proof. intros r x r' E. unfold on_wal in E. destruct (c (rt_wal r)). by injection E as _ <-. Qed.
Lemma view_job_step {A} prefix (c : M (VectorRuntime T) A) : preserves read_view c -> preserves read_view (job_step prefix c).
Proof. intros Hc r x r' E. unfold job_step in E. destruct (c r) eqn:E1. injection E as _ <-. by eapply Hc. Qed.
Lemma view_of_sum {A} (x : Status + A) : preserves read_view (of_sum x).
Proof. intros r y r' E. by injection E as _ <-. Qed.
#[local] Hint Resolve view_on_fs view_on_wal view_job_step view_of_sum : preserve.

Lemma freeze_build_view now tick s : preserves read_view (freeze_build (T := T) now tick s).
Proof.
  unfold freeze_build. destruct (_ !! _) as [m|]; [|apply preserves_ret]. destruct (default _ _) as [|e todo].
  - destruct (fz_builder s); [destruct (_ <? _)|]; apply preserves_ret.
  - apply preserves_bind; [apply preserves_get|]. intros r. cbv zeta. destruct (sb_Add _ _ _ _ _) as [[e'|u] b];
      [apply preserves_fail|apply preserves_ret].
Qed.

Lemma freeze_finalize_view s : preserves read_view (freeze_finalize (T := T) s).
Proof.
  unfold freeze_finalize. destruct (fz_builder s) as [b|]; [|apply preserves_fail].
  apply preserves_bind; [apply preserves_get|]. intros r.
  repeat (apply preserves_bind; [eauto with preserve|intros ?]). apply preserves_ret.
Qed.

(** Every phase but the publication leaves reads alone, and none of their errors
    is the time-out. *)
Definition timed_out : Status := Aborted "Freeze timed out".

Lemma freeze_step_view now tick s :
  fz_phase s <> kPublish -> preserves read_view (freeze_step (T := T) now tick s).
Proof.
  intros Hp. unfold freeze_step. destruct (fz_phase s); try done; try apply preserves_ret.
  - apply preserves_bind; [apply freeze_build_view|]. intros. apply preserves_ret.
  - apply preserves_bind; [apply freeze_finalize_view|]. intros. apply preserves_ret.
  - case_bool_decide; [apply preserves_ret|]. apply preserves_bind; [apply preserves_get|]. intros r.
    repeat (apply preserves_bind; [eauto with preserve|intros ?]). apply preserves_ret.
  - apply preserves_bind; [by apply preserves_modify|]. intros. apply preserves_ret.
  - cbv zeta. apply preserves_bind; [apply preserves_modify; intros r; by destruct (_ && _)|]. intros _.
    apply preserves_bind; [apply preserves_get|]. intros r. apply preserves_bind; [|intros; apply preserves_ret].
    destruct (_ =? _); [eauto with preserve|apply preserves_ret].
Qed.

Lemma freeze_run_fail rounds clock : forall s r e r',
  freeze_run (T := T) rounds clock s r = (inl e, r') -> e <> timed_out -> read_view r' = read_view r.
Proof.
  induction rounds as [|rounds IH]; intros s r e r' E He; [by injection E as <- <-|].
  cbn [freeze_run] in E. destruct (clock rounds) as [now tick].
  destruct (decide (fz_phase s = kPublish)) as [Hp|Hp].
  - unfold freeze_step in E. rewrite Hp in E. unfold mbind, M_bind, mmodify, mret, M_ret in E.
    destruct rounds as [|rounds]; [by injection E as <- <-|]. cbn in E. by destruct (clock rounds).
  - apply mbind_cases in E as [(e' & E & [= ->])|(next & r1 & E1 & E)].
    + by eapply freeze_step_view.
    + apply freeze_step_view in E1; [|done]. destruct next as [s'|]; [|done].
      rewrite <-E1. by eapply IH.
Qed.

Lemma rt_inv_set_fs f r : rt_inv r -> rt_inv (set_fs f r).
Proof. intros Hinv. by apply (same_data_inv r). Qed.

(** C26. A freeze that fails with another status than its time-out leaves every
    answer unchanged, under every pattern of I/O errors and wherever it stops,
    in a shard that does not quantise; the answers are those for identifiers
    other than the reserved 2^64-1. *)
Theorem freeze_failure_keeps_reads clock r rounds e r' id :
  rt_inv r -> id_ok id -> rt_Freeze rounds clock r = (inl e, r') -> e <> timed_out ->
  rt_find quant_decode r' id = rt_find quant_decode r id.
Proof.
  intros Hinv Hid E He. unfold rt_Freeze in E. rewrite (mbind_ok _ _ _ r r) in E by done.
  apply mguard_cases in E as [[_ ->]|[_ E]]; [done|]. unfold HandleFreeze in E.
  set (r0 := if 0 <? mt_GetCount (rt_mem r) then RotateMemTable r else r) in *.
  rewrite (mbind_ok _ _ _ tt r0), (mbind_ok _ _ _ r0 r0) in E by done.
  case_bool_decide; [done|]. apply freeze_run_fail in E; [|done]. rewrite (read_view_find r0 r' id E).
  unfold r0. destruct (_ <? _); [by apply rt_find_rotate|done].
Qed.
End properties.

(** ** Concrete freezes *)

#[local] Existing Instance test_f32.
#[local] Existing Instance test_idmap.
#[local] Existing Instance test_idmap_laws.
#[local] Existing Instance test_aes.

(** A memtable with one vector. *)
Definition one_vec (id : Z) (v : vec) : MemTable (@FlatHashMemMap (option bytes)) := (mt_Put id v md_default (test_mem false)).2.

(** A started shard with an older and an active memtable on a fresh directory. *)
Definition two_mems (old new : MemTable (@FlatHashMemMap (option bytes))) : VectorRuntime (@FlatHashMemMap (option bytes)) :=
  MkRt (MkRtConf "db" 2 kVector false 0 0 8) (wal_Open test_wal).2 new [old] []
    (Some (MkSnap 1 [old] [] None)) 2 0 true 0 0 0 [] 0.

Definition test_clock (n : nat) : Z * Z := (0, Z.of_nat n mod 1000).

Lemma one_vec_ok id v : id_ok id -> vec_dim v = 2 -> vec_ok v -> mem_ok 2 (one_vec id v).
Proof.
  intros Hid Hd Hv. destruct (mem_put 2 (test_mem false) id v md_default) as (m' & E & Hok & _);
    [apply mem_ok_new|done..|]. unfold one_vec. by rewrite E.
Qed.

Lemma one_vec_entries id v : id_ok id -> vec_dim v = 2 -> vec_ok v -> mem_entries (one_vec id v) ≡ₚ [MkSegEntry id v false md_default].
Proof.
  intros Hid Hd Hv. rewrite (mem_entries_eq 2) by by apply one_vec_ok.
  destruct (mt_Put_ok (test_mem false) id v md_default Hd) as (m' & E & Emap & Emeta & _).
  unfold one_vec. rewrite E. cbn [snd]. rewrite Emap, Emeta, im_entries_perm by (apply im_wf_put; [apply im_wf_new; lia|done]).
  rewrite im_abs_put by (first [apply im_wf_new; lia|done]). cbn [test_mem mt_new mt_map]. rewrite im_abs_new, insert_empty, map_to_list_singleton.
  cbn. by rewrite read_vec_dim.
Qed.

Lemma two_mems_ok i1 v1 i2 v2 :
  id_ok i1 -> vec_dim v1 = 2 -> vec_ok v1 -> is_u64 i1 -> id_ok i2 -> vec_dim v2 = 2 -> vec_ok v2 -> is_u64 i2 ->
  can_freeze 9 9 test_clock [] (two_mems (one_vec i1 v1) (one_vec i2 v2)).
Proof.
  intros Hi1 Hd1 Hv1 Hu1 Hi2 Hd2 Hv2 Hu2.
  assert (forall id v, id_ok id -> vec_dim v = 2 -> vec_ok v -> is_u64 id -> fits 2 (mem_entries (one_vec id v))) as Hfit.
  { intros id v Hi Hd Hv Hu. pose proof (one_vec_entries id v Hi Hd Hv) as Hp. split; [lia|done| |].
    - rewrite Hp. apply Forall_singleton. split; [done|done|done|]. split; vm_compute; first [done|by split].
    - rewrite (seg_size_perm _ _ _ Hp). by vm_compute. }
  split; cbn [two_mems rt_conf rt_mem rt_frozen_mem rt_segments rt_snapshot rt_started rt_wal rc_ttl_sec rc_data_dir rc_dim]; try done.
  - split; cbn; [by apply one_vec_ok|apply Forall_singleton; by apply one_vec_ok|done|by eexists].
  - destruct (@Open_spec test_aes 9 9 test_wal ∅ []) as (w & E & Hinv & _); [done|apply test_disk|done|done|done|done|done|].
    exists [], []. by rewrite E.
  - intros n. unfold test_clock, is_u64. cbn [snd]. pose proof (Z.mod_pos_bound (Z.of_nat n) 1000). lia.
  - unfold oldest_first. cbn [two_mems rt_frozen_mem rt_mem app]. repeat constructor; by apply Hfit || done.
  - unfold oldest_first. cbn [two_mems rt_frozen_mem rt_mem app mbind list_bind]. rewrite !length_app.
    rewrite (one_vec_entries i1 v1), (one_vec_entries i2 v2) by done. cbn. lia.
Qed.

Lemma distinct_mems_ok : can_freeze 9 9 test_clock [] (two_mems (one_vec 7 [1; 2]) (one_vec 8 [3; 4])).
Proof. apply two_mems_ok; (apply (bool_decide_unpack _); vm_compute; exact I) || reflexivity. Qed.
Lemma shared_mems_ok : can_freeze 9 9 test_clock [] (two_mems (one_vec 7 [1; 2]) (one_vec 7 [3; 4])).
Proof. apply two_mems_ok; (apply (bool_decide_unpack _); vm_compute; exact I) || reflexivity. Qed.

Lemma freeze_preserves_reads_witness :
  let r := two_mems (one_vec 7 [1; 2]) (one_vec 8 [3; 4]) in
  exists r', rt_Freeze 50 test_clock r = (inr tt, r') /\ rt_find test_decode r' 7 = rt_find test_decode r 7.
Proof.
  intros r. destruct (freeze_preserves_reads test_decode 9 9 test_clock [] r 50 distinct_mems_ok) as (r' & E & _ & _ & _ & Hfind).
  - apply Nat.leb_le. vm_compute. reflexivity.
  - apply (bool_decide_unpack _). vm_compute. exact I.
  - exists r'. split; [exact E|]. apply Hfind. discriminate.
Defined.

Lemma freeze_serves_stale_version_witness :
  let r := two_mems (one_vec 7 [1; 2]) (one_vec 7 [3; 4]) in
  rt_find test_decode r 7 = Some (LFound [3; 4] md_default) /\
  exists r', rt_Freeze 50 test_clock r = (inr tt, r') /\ rt_find test_decode r' 7 = Some (LFound [1; 2] md_default).
Proof.
  intros r. split; [vm_compute; reflexivity|].
  apply (freeze_serves_stale_version test_decode 9 9 test_clock [] r 50 [] (one_vec 7 [1; 2]) [one_vec 7 [3; 4]] 7
    (LFound [1; 2] md_default) shared_mems_ok).
  - apply Nat.leb_le. vm_compute. reflexivity.
  - discriminate.
  - reflexivity.
  - reflexivity.
  - vm_compute. reflexivity.
  - discriminate.
Defined.

Lemma freeze_survives_restart_witness :
  let r := two_mems (one_vec 7 [1; 2]) (one_vec 8 [3; 4]) in
  exists r', rt_Freeze 50 test_clock r = (inr tt, r') /\ wal_inv 9 9 (rt_wal r') [] [].
Proof.
  intros r. destruct (freeze_survives_restart test_decode 9 9 test_clock [] r 50 distinct_mems_ok) as (r' & E & Hw & _).
  - apply Nat.leb_le. vm_compute. reflexivity.
  - discriminate.
  - apply Forall2_nil; exact I.
  - exists r'. split; [exact E|exact Hw].
Defined.

(** A shard whose next system call fails. *)
Lemma freeze_failure_keeps_reads_witness :
  let r := two_mems (one_vec 7 [1; 2]) (one_vec 8 [3; 4]) in
  let broken := set_fs (MkFs (fs_files (w_env (rt_wal r))) [Some (MkFault "EIO" 0)]) r in
  exists e r', rt_Freeze 50 test_clock broken = (inl e, r') /\ rt_find test_decode r' 7 = rt_find test_decode broken 7.
Proof.
  intros r broken.
  assert ((rt_Freeze 50 test_clock broken).1 = inl (Internal "Freeze: SegmentBuilder::Finish failed: open failed: db/seg_49_0_0.dat.tmp")) as Ee
    by (vm_compute; reflexivity).
  destruct (rt_Freeze 50 test_clock broken) as [x r'] eqn:E. cbn in Ee. subst x. eexists _, r'. split; [reflexivity|].
  refine (freeze_failure_keeps_reads test_decode test_clock broken 50 _ r' 7 _ _ E _); [|discriminate|discriminate].
  exact (rt_inv_set_fs _ r (cf_inv _ _ _ _ _ distinct_mems_ok)).
Defined.
