(* ===== verification/IteratorTheorems.v ===== *)
(** * Theorems about the snapshot iterator

    Draining an iterator yields, within a stated number of steps, the first
    version of every identifier in the order of the layers, without duplicates
    and without deleted or expired entries; when no identifier is in two frozen
    memtables these are exactly the vectors that point lookups find. *)
From S2P Require Import Prelude FlatHash Env Types Wal MemTable MemTableTheorems Segment SegmentTheorems.
From S2P Require Import Layers Runtime RuntimeTheorems FreezeTheorems.

Open Scope Z_scope.

(** ** Walking a list of layers by position *)

Section walk.
Context {A : Type}.

(** What is left of the layers from entry [ei] of layer [si]. *)
Definition pos_rest (views : list (list A)) (si ei : nat) : list A :=
  match drop si views with
  | [] => []
  | view :: views => drop ei view ++ concat views
  end.

Lemma pos_rest_at views si ei view e :
  views !! si = Some view -> view !! ei = Some e -> pos_rest views si ei = e :: pos_rest views si (S ei).
Proof. intros Hs He. unfold pos_rest. rewrite (drop_S _ _ _ Hs). by rewrite (drop_S _ _ _ He). Qed.

Lemma pos_rest_next views si ei view :
  views !! si = Some view -> view !! ei = None -> pos_rest views si ei = pos_rest views (S si) 0.
Proof.
  intros Hs He%lookup_ge_None. unfold pos_rest. rewrite (drop_S _ _ _ Hs), drop_ge by done.
  by destruct (drop (S si) views) as [|v vs].
Qed.

Lemma pos_rest_end views si ei : views !! si = None -> pos_rest views si ei = [].
Proof. intros Hs%lookup_ge_None. unfold pos_rest. by rewrite drop_ge. Qed.

Lemma pos_rest_start views : pos_rest views 0 0 = concat views.
Proof. by destruct views. Qed.

Lemma length_pos_rest views si ei : (length (pos_rest views si ei) <= length (concat views))%nat.
Proof.
  unfold pos_rest. rewrite <-(take_drop si views) at 2. rewrite concat_app, length_app.
  destruct (drop si views) as [|v vs]; cbn; [lia|]. rewrite !length_app, length_drop. lia.
Qed.
End walk.

(** ** The entries an iterator shows *)

(** The first version of every identifier outside [seen] that has a vector. *)
Fixpoint live_walk (seen : gset Z) (entries : list (Z * vec)) : list (Z * vec) :=
  match entries with
  | [] => []
  | (id, v) :: entries =>
      if bool_decide (id ∈ seen) then live_walk seen entries
      else if bool_decide (v = []) then live_walk ({[id]} ∪ seen) entries
      else (id, v) :: live_walk ({[id]} ∪ seen) entries
  end.

(** The vector of the first entry of an identifier. *)
Definition first_version (entries : list (Z * vec)) (id : Z) : option vec :=
  '(_, (_, v)) ← list_find (fun p => p.1 = id) entries; Some v.

Lemma first_version_cons i v entries id :
  first_version ((i, v) :: entries) id = if decide (i = id) then Some v else first_version entries id.
Proof.
  unfold first_version. cbn [list_find fst]. case_decide; [done|].
  by destruct (list_find _ entries) as [[k [j w]]|].
Qed.

Lemma live_walk_elem entries : forall seen id v,
  ((id, v) ∈ live_walk seen entries) <-> ((id ∉ seen) /\ v <> [] /\ first_version entries id = Some v).
Proof.
  induction entries as [|[i w] entries IH]; intros seen id v; cbn [live_walk].
  { split; [by intros ?%not_elem_of_nil|]. by intros (_ & _ & ?). }
  rewrite first_version_cons. case_bool_decide as Hs; [|case_bool_decide as Hw]; rewrite ?elem_of_cons, ?IH;
    case_decide as Hi; subst; set_solver.
Qed.

Lemma live_walk_nodup entries : forall seen, NoDup (live_walk seen entries).*1.
Proof.
  induction entries as [|[i w] entries IH]; intros seen; cbn [live_walk]; [constructor|].
  repeat case_bool_decide; [done..|]. cbn. constructor; [|done].
  intros ([j v] & -> & Hin)%list_elem_of_fmap. apply live_walk_elem in Hin as [Hn _]. set_solver.
Qed.

(** ** Moving through the layers *)

Section iterator.
Context {T : Type} `{IdMapLaws T (option bytes)} `{F32}.
Context (quant_decode : SegmentReader -> bytes -> vec).
Context (snap : VectorSnapshot T) (ttl now : Z).
Implicit Types it : VectorIterator T.

(** The entries of a memtable as the iterator shows them. *)
Definition show_mem (m : MemTable T) : list (Z * vec) :=
  (fun e => (ce_id e,
     if ce_is_deleted e then [] else
     match ce_meta e with Some meta => if IsExpired ttl now meta then [] else ce_vec e | None => ce_vec e end)) <$> mt_cursor m.

(** Reading index [i] of a segment shows the [i]-th entry of [view]. *)
Definition lists_as (seg : SegmentReader) (view : list (Z * vec)) : Prop :=
  sr_count seg = zlen view /\
  forall i, match view !! i with
            | Some (id, v) => exists v0 del meta, sr_ReadAt seg (Z.of_nat i) md_default = Some (inr (id, v0, del, meta)) /\
                sr_quant_type seg = kNone_q /\ v = (if del || IsExpired ttl now meta then [] else v0)
            | None => exists e, sr_ReadAt seg (Z.of_nat i) md_default = Some (inl e)
            end.

(** An iterator over [snap]. *)
Record over it : Prop := {
  ov_snap : it_snapshot it = snap;
  ov_ttl : it_ttl_sec it = ttl;
  ov_now : it_now_sec it = now
}.

Abbreviation mems := (option_list (vs_live_memtable snap) ++ vs_frozen_memtables snap).
Abbreviation mviews := (show_mem <$> mems).
Context (sviews : list (list (Z * vec))) (Hsegs : Forall2 lists_as (vs_segments snap) sviews).

Lemma read_mem fuel : forall it,
  over it -> (length mems < it_source_idx it + fuel)%nat ->
  match pos_rest mviews (it_source_idx it) (it_entry_idx it) with
  | [] => TryReadFromFrozenMem fuel it = None
  | (id, v) :: rest => exists si ei, TryReadFromFrozenMem fuel it = Some (it_current id v (it_at it si ei)) /\
      rest = pos_rest mviews si (S ei)
  end.
Proof.
  induction fuel as [|fuel IH]; intros it Hov Hf.
  { rewrite pos_rest_end; [done|]. apply lookup_ge_None. rewrite length_fmap. lia. }
  cbn [TryReadFromFrozenMem]. assert (it_mems it = mems) as -> by (unfold it_mems; by rewrite (ov_snap _ Hov)).
  destruct (mems !! it_source_idx it) as [m|] eqn:Em.
  2:{ rewrite pos_rest_end; [done|]. by rewrite list_lookup_fmap, Em. }
  assert (mviews !! it_source_idx it = Some (show_mem m)) as Ev by by rewrite list_lookup_fmap, Em.
  destruct (mt_cursor m !! it_entry_idx it) as [e|] eqn:Ee.
  - assert (show_mem m !! it_entry_idx it = Some (mem_entry it e)) as Es.
    { unfold show_mem. rewrite list_lookup_fmap, Ee. unfold mem_entry. by rewrite (ov_ttl _ Hov), (ov_now _ Hov). }
    rewrite (pos_rest_at _ _ _ _ _ Ev Es). destruct (mem_entry it e) as [id v].
    exists (it_source_idx it), (it_entry_idx it). by destruct it.
  - rewrite (pos_rest_next _ _ _ _ Ev) by (unfold show_mem; by rewrite list_lookup_fmap, Ee).
    specialize (IH (it_at it (S (it_source_idx it)) 0)). apply IH; [destruct Hov; by split|cbn; lia].
Qed.

Lemma read_seg fuel : forall it,
  over it -> (length (vs_segments snap) < it_source_idx it + fuel)%nat ->
  match pos_rest sviews (it_source_idx it) (it_entry_idx it) with
  | [] => TryReadFromSegment quant_decode fuel it = Some None
  | (id, v) :: rest => exists si ei, TryReadFromSegment quant_decode fuel it = Some (Some (it_current id v (it_at it si ei))) /\
      rest = pos_rest sviews si (S ei)
  end.
Proof using Hsegs.
  induction fuel as [|fuel IH]; intros it Hov Hf.
  { rewrite pos_rest_end; [done|]. apply lookup_ge_None. rewrite <-(Forall2_length _ _ _ Hsegs). lia. }
  cbn [TryReadFromSegment]. rewrite (ov_snap _ Hov).
  destruct (vs_segments snap !! it_source_idx it) as [seg|] eqn:Em.
  2:{ rewrite pos_rest_end; [done|]. apply lookup_ge_None. rewrite <-(Forall2_length _ _ _ Hsegs). by apply lookup_ge_None. }
  destruct (Forall2_lookup_l _ _ _ _ _ Hsegs Em) as (view & Ev & _ & Hview).
  specialize (Hview (it_entry_idx it)). destruct (view !! it_entry_idx it) as [[id v]|] eqn:Ee.
  - rewrite (pos_rest_at _ _ _ _ _ Ev Ee). destruct Hview as (v0 & del & meta & -> & Hq & ->).
    cbn [mbind option_bind]. rewrite (ov_ttl _ Hov), (ov_now _ Hov), Hq.
    exists (it_source_idx it), (it_entry_idx it). destruct it; cbn. by destruct (del || _).
  - rewrite (pos_rest_next _ _ _ _ Ev) by done. destruct Hview as [e ->]. cbn [mbind option_bind].
    specialize (IH (it_at it (S (it_source_idx it)) 0)). apply IH; [destruct Hov; by split|cbn; lia].
Qed.

(** The entries from the current position on. *)
Definition remaining it : list (Z * vec) :=
  match it_source it with
  | FROZEN_MEM => pos_rest mviews (it_source_idx it) (it_entry_idx it) ++ concat sviews
  | SEGMENT => pos_rest sviews (it_source_idx it) (it_entry_idx it)
  | DONE => []
  end.

Definition next_pos it : VectorIterator T := it_at it (it_source_idx it) (S (it_entry_idx it)).

(** [it'] stands on the first live entry of [entries]. *)
Definition stands_on (seen : gset Z) (entries : list (Z * vec)) it' : Prop :=
  match live_walk seen entries with
  | [] => it_source it' = DONE
  | (id, v) :: rest => it_source it' <> DONE /\ it_current_id it' = id /\ it_current_vec it' = v /\
      rest = live_walk ({[id]} ∪ it_seen it') (remaining (next_pos it')) /\
      (length (remaining (next_pos it')) < length entries)%nat
  end.

Definition rounds_left it : nat :=
  length (remaining it) + match it_source it with FROZEN_MEM => 2 | _ => 1 end.

(** The two branches of a round that has read an entry. *)
Lemma accept_entry fuel it id v rest :
  over it -> it_source it <> DONE -> it_current_id it = id -> it_current_vec it = v -> remaining (next_pos it) = rest ->
  (forall it0, over it0 -> it_source it0 = it_source it -> remaining it0 = rest ->
     exists it', AdvanceToNextLive quant_decode fuel it0 = Some it' /\ over it' /\ stands_on (it_seen it0) rest it') ->
  exists it', (if bool_decide (it_current_id it ∈ it_seen it) then AdvanceToNextLive quant_decode fuel (next_pos it)
    else if bool_decide (it_current_vec it = []) then AdvanceToNextLive quant_decode fuel (next_pos (it_mark (it_current_id it) it))
    else Some it) = Some it' /\ over it' /\ stands_on (it_seen it) ((id, v) :: rest) it'.
Proof.
  intros Hov Hs Hi Hv Hr Hrec. rewrite Hi, Hv. unfold stands_on. cbn [live_walk].
  assert (forall seen it', stands_on seen rest it' -> match live_walk seen rest with
    | [] => it_source it' = DONE
    | (id0, v0) :: rest0 => it_source it' ≠ DONE ∧ it_current_id it' = id0 ∧ it_current_vec it' = v0
       ∧ rest0 = live_walk ({[id0]} ∪ it_seen it') (remaining (next_pos it'))
       ∧ (length (remaining (next_pos it')) < length ((id, v) :: rest))%nat end) as Hw.
  { intros seen it' Hst. unfold stands_on in Hst. destruct (live_walk seen rest) as [|[i w] l]; [done|].
    destruct Hst as (? & ? & ? & ? & ?). split_and!; [done..|cbn; lia]. }
  case_bool_decide; [|case_bool_decide].
  - destruct (Hrec (next_pos it)) as (it' & E & Hov' & Hst); [destruct Hov; by split|done..|]. exists it'.
    split; [done|]. split; [done|]. by apply Hw.
  - destruct (Hrec (next_pos (it_mark id it))) as (it' & E & Hov' & Hst); [destruct Hov; by split|done..|]. exists it'.
    split; [done|]. split; [done|]. by apply Hw.
  - exists it. split; [done|]. split; [done|]. rewrite Hr. split_and!; [done..|cbn; lia].
Qed.

Lemma advance fuel : forall it,
  over it -> (rounds_left it <= fuel)%nat ->
  exists it', AdvanceToNextLive quant_decode fuel it = Some it' /\ over it' /\ stands_on (it_seen it) (remaining it) it'.
Proof using Hsegs.
  induction fuel as [|fuel IH]; intros it Hov Hf; [unfold rounds_left in Hf; destruct (it_source it); lia|].
  cbn [AdvanceToNextLive]. unfold rounds_left in *. unfold remaining at 1 in Hf. unfold remaining at 1.
  destruct (it_source it) eqn:Es.
  - pose proof (read_mem (S (length (it_mems it))) it Hov) as Hrd.
    assert (it_mems it = mems) as Em by (unfold it_mems; by rewrite (ov_snap _ Hov)). rewrite Em in *.
    specialize (Hrd ltac:(lia)). destruct (pos_rest mviews _ _) as [|[id v] rest].
    + rewrite Hrd. cbn [app] in *. specialize (IH (it_source_at SEGMENT it)).
      unfold remaining in IH at 1 2. cbn [it_source_at it_source it_source_idx it_entry_idx] in IH.
      rewrite pos_rest_start in IH. apply IH; [destruct Hov; by split|cbn; lia].
    + destruct Hrd as (si & ei & -> & Er). cbn [app] in *.
      apply (accept_entry fuel (it_current id v (it_at it si ei)) id v (rest ++ concat sviews)); [destruct Hov; by split|cbn; congruence|done..| |].
      * unfold remaining. cbn. rewrite Es. by rewrite Er.
      * intros it0 Hov0 Hs0 Hr0. rewrite <-Hr0. apply IH; [done|]. rewrite Hr0. cbn in Hs0. rewrite Hs0, Es. cbn in Hf. lia.
  - pose proof (read_seg (S (length (vs_segments (it_snapshot it)))) it Hov) as Hrd. rewrite (ov_snap _ Hov) in *.
    specialize (Hrd ltac:(lia)). destruct (pos_rest sviews _ _) as [|[id v] rest].
    + rewrite Hrd. cbn [mbind option_bind]. exists (it_done it). split; [done|]. split; [destruct Hov; by split|done].
    + destruct Hrd as (si & ei & -> & Er). cbn [mbind option_bind].
      apply (accept_entry fuel (it_current id v (it_at it si ei)) id v rest); [destruct Hov; by split|cbn; congruence|done..| |].
      * unfold remaining. cbn. rewrite Es. by rewrite Er.
      * intros it0 Hov0 Hs0 Hr0. rewrite <-Hr0. apply IH; [done|]. rewrite Hr0. cbn in Hs0. rewrite Hs0, Es. cbn in Hf. lia.
  - exists it. by split_and!.
Qed.

Lemma listed_length segs views :
  Forall2 lists_as segs views -> length (concat views) = sum_list_with (fun s => Z.to_nat (sr_count s)) segs.
Proof.
  induction 1 as [|seg view segs views [Hc _] _ IH]; [done|]. cbn [concat sum_list_with].
  rewrite length_app, IH, Hc. unfold zlen. by rewrite Nat2Z.id.
Qed.

Lemma iter_fuel_enough it : (rounds_left it < iter_fuel snap)%nat.
Proof using Hsegs.
  assert (length (concat mviews) = sum_list_with (fun m => length (mt_cursor m)) mems) as Hm.
  { generalize mems as l. intros l. clear. induction l as [|m l IH]; [done|]. rewrite fmap_cons. cbn [concat sum_list_with].
    rewrite length_app, IH. unfold show_mem. by rewrite length_fmap. }
  assert (length (concat sviews) = sum_list_with (fun s => Z.to_nat (sr_count s)) (vs_segments snap)) as Hs.
  { exact (listed_length _ _ Hsegs). }
  unfold iter_fuel. rewrite <-Hm, <-Hs.
  unfold rounds_left, remaining.
  pose proof (length_pos_rest mviews (it_source_idx it) (it_entry_idx it)).
  pose proof (length_pos_rest sviews (it_source_idx it) (it_entry_idx it)).
  destruct (it_source it); rewrite ?length_app; cbn; lia.
Qed.

Lemma drain fuel : forall it seen entries,
  over it -> stands_on seen entries it -> (length entries <= fuel)%nat ->
  it_drain quant_decode fuel it = Some (live_walk seen entries).
Proof using Hsegs.
  induction fuel as [|fuel IH]; intros it seen entries Hov Hst Hf; unfold stands_on in Hst; cbn [it_drain]; unfold it_Valid.
  - destruct entries; [|cbn in Hf; lia]. cbn [live_walk] in *. by rewrite bool_decide_eq_true_2.
  - destruct (live_walk seen entries) as [|[id v] rest]; [by rewrite bool_decide_eq_true_2|].
    destruct Hst as (Hs & <- & <- & -> & Hl). rewrite bool_decide_eq_false_2 by done. cbn [negb].
    unfold it_Next, it_Valid. rewrite bool_decide_eq_false_2 by done. cbn [negb].
    set (it0 := it_at _ _ _).
    destruct (advance (iter_fuel (it_snapshot (it_mark (it_current_id it) it))) it0) as (it' & -> & Hov' & Hst').
    { destruct Hov; by split. }
    { pose proof (iter_fuel_enough it0). cbn. rewrite (ov_snap _ Hov). lia. }
    cbn [mbind option_bind]. rewrite (IH it' (it_seen it0) (remaining it0)); [done..|].
    change (remaining it0) with (remaining (next_pos it)). lia.
Qed.

(** The whole iteration. *)
Lemma iterate :
  exists it, it_new quant_decode snap ttl now = Some it /\ it_snapshot it = snap /\
    it_drain quant_decode (iter_fuel snap) it = Some (live_walk ∅ (concat mviews ++ concat sviews)).
Proof using Hsegs.
  set (it0 := MkIter snap FROZEN_MEM 0 0 0 [] ∅ ttl now).
  assert (remaining it0 = concat mviews ++ concat sviews) as Hr by (unfold remaining, it0; cbn -[mviews]; by rewrite pos_rest_start).
  pose proof (iter_fuel_enough it0) as Hf.
  destruct (advance (iter_fuel snap) it0) as (it & E & Hov & Hst); [by split|lia|].
  exists it. split; [exact E|]. split; [apply (ov_snap _ Hov)|]. rewrite Hr in Hst. apply drain; [done..|].
  rewrite <-Hr. unfold rounds_left in Hf. lia.
Qed.
End iterator.

(** ** Properties *)

Section properties.
Context {T : Type} `{IdMapLaws T (option bytes)} `{F32}.
Context (quant_decode : SegmentReader -> bytes -> vec).
Context (ttl now : Z).

Definition shown (e : SegEntry) : Z * vec :=
  (se_id e, if se_deleted e || IsExpired ttl now (se_meta e) then [] else se_vec e).

Lemma show_mem_entries (m : MemTable T) : show_mem ttl now m = shown <$> mem_entries m.
Proof.
  unfold show_mem, mem_entries. rewrite <-list_fmap_compose. apply list_fmap_ext. intros i e _.
  unfold shown, to_seg. cbn. destruct (ce_is_deleted e); [done|]. cbn [orb]. destruct (ce_meta e); [done|].
  unfold IsExpired. by destruct (ttl =? 0).
Qed.

Lemma lists_as_built p dim es : chunk_ok dim es -> lists_as ttl now (seg_of p dim es) (shown <$> merge_sort id_le es).
Proof.
  intros [_ Hok]. unfold seg_of. generalize dependent (merge_sort id_le es). clear es. intros es Hok. split.
  { unfold zlen. by rewrite length_fmap. }
  intros i. rewrite list_lookup_fmap. destruct (es !! i) as [e|] eqn:Ei.
  - rewrite (sr_ReadAt_entry dim es Hok p i e) by done. by eexists _, _, _.
  - unfold sr_ReadAt. cbn [built_reader sr_count]. apply lookup_ge_None in Ei.
    rewrite (proj2 (Z.leb_le _ _)) by (unfold zlen; lia). by eexists.
Qed.

(** What the first version among shown entries says. *)
Lemma first_shown dim es id v :
  0 < dim -> Forall (seg_entry_ok dim) es ->
  (v <> [] /\ first_version (shown <$> es) id = Some v) <->
  (exists meta, entries_answer es id = LFound v meta /\ IsExpired ttl now meta = false).
Proof.
  intros Hd. induction 1 as [|e es He _ IH]; [split; [by intros [_ ?]|by intros (? & ? & _)]|].
  rewrite fmap_cons, entries_answer_cons. unfold shown at 1. rewrite first_version_cons. case_decide as Hi; [|exact IH].
  destruct (se_deleted e) eqn:Hdel; cbn [orb].
  - split; [by intros [? [= <-]]|by intros (? & ? & _)].
  - destruct (eo_vec _ _ He Hdel) as [Hl _]. destruct (IsExpired ttl now (se_meta e)) eqn:Hx; split.
    + by intros [? [= <-]].
    + intros (meta & [= _ <-] & Hm). congruence.
    + intros [? [= <-]]. eauto.
    + intros (meta & E & _). injection E as <- _. split; [|done]. intros E. rewrite E in Hl. unfold zlen in Hl. cbn in Hl. lia.
Qed.

(** A snapshot of memtables of dimension [dim] and of segments built from [chunks]. *)
Record snap_ok (dim : Z) (chunks : list (path * list SegEntry)) (snap : VectorSnapshot T) : Prop := {
  so_pos : 0 < dim;
  so_mems : Forall (mem_ok dim) (option_list (vs_live_memtable snap) ++ vs_frozen_memtables snap);
  so_segs : vs_segments snap = (fun '(p, es) => seg_of p dim es) <$> chunks;
  so_chunks : Forall (chunk_ok dim) chunks.*2;
  so_fits : Forall (fun m => Forall (seg_entry_ok dim) (mem_entries m))
    (option_list (vs_live_memtable snap) ++ vs_frozen_memtables snap)
}.

(** The entries in the order in which the iterator visits them. *)
Definition visit_order (chunks : list (path * list SegEntry)) (snap : VectorSnapshot T) : list SegEntry :=
  ((option_list (vs_live_memtable snap) ++ vs_frozen_memtables snap) ≫= mem_entries) ++ concat (merge_sort id_le <$> chunks.*2).

Lemma visit_order_ok dim chunks snap : snap_ok dim chunks snap -> Forall (seg_entry_ok dim) (visit_order chunks snap).
Proof.
  intros [_ _ _ Hc Hf]. apply Forall_app. split.
  - apply Forall_bind. done.
  - apply Forall_concat, Forall_fmap. eapply Forall_impl; [exact Hc|]. intros es [_ Hes]. apply Hes.
Qed.

Lemma visit_shown chunks snap :
  concat (show_mem ttl now <$> option_list (vs_live_memtable snap) ++ vs_frozen_memtables snap) ++
  concat ((λ '(_, es), shown <$> merge_sort id_le es) <$> chunks) = shown <$> visit_order chunks snap.
Proof.
  unfold visit_order. generalize (option_list (vs_live_memtable snap) ++ vs_frozen_memtables snap) as l. intros l.
  rewrite fmap_app. f_equal.
  - induction l as [|m l IH]; [done|]. cbn. by rewrite show_mem_entries, IH, fmap_app.
  - induction chunks as [|[p c] chunks IH]; [done|]. cbn. by rewrite IH, fmap_app.
Qed.

Lemma iterate_visit dim chunks snap :
  snap_ok dim chunks snap ->
  exists it l, it_new quant_decode snap ttl now = Some it /\ it_snapshot it = snap /\ it_drain quant_decode (iter_fuel snap) it = Some l /\
    NoDup l.*1 /\ forall id v, (id, v) ∈ l <->
      exists meta, entries_answer (visit_order chunks snap) id = LFound v meta /\ IsExpired ttl now meta = false.
Proof.
  intros Hok. pose proof Hok as [Hd _ Hs Hc _].
  destruct (iterate quant_decode snap ttl now ((fun '(_, es) => shown <$> merge_sort id_le es) <$> chunks)) as (it & E & Esn & Ed).
  { rewrite Hs. apply Forall2_fmap, Forall_Forall2_diag. rewrite Forall_fmap in Hc. eapply Forall_impl; [exact Hc|].
    intros [p es]. apply lists_as_built. }
  eexists it, _. split; [exact E|]. split; [exact Esn|]. split; [exact Ed|]. split; [apply live_walk_nodup|]. intros id v.
  rewrite live_walk_elem, visit_shown.
  rewrite <-(first_shown dim _ id v Hd) by by apply visit_order_ok. set_solver.
Qed.
(** The answer of a list of segments does not depend on the order inside each. *)
Lemma entries_answer_sorted dim chunks id :
  Forall (chunk_ok dim) chunks -> entries_answer (concat (merge_sort id_le <$> chunks)) id = entries_answer (concat chunks) id.
Proof.
  induction 1 as [|es chunks [Hnd _] _ IH]; [done|]. rewrite fmap_cons. cbn [concat]. rewrite !entries_answer_app, IH.
  by rewrite (entries_answer_perm es (merge_sort id_le es)) by (first [done|by rewrite merge_sort_Permutation]).
Qed.

Lemma visit_answer dim chunks snap id :
  snap_ok dim chunks snap ->
  entries_answer (visit_order chunks snap) id =
  match mems_answer dim (option_list (vs_live_memtable snap) ++ vs_frozen_memtables snap) id with
  | LNotFound => entries_answer (concat chunks.*2) id
  | a => a
  end.
Proof.
  intros [_ Hm _ Hc _]. unfold visit_order. rewrite entries_answer_app, (entries_answer_sorted dim) by done.
  by rewrite (mems_entries_answer dim).
Qed.

Lemma lookup_snapshot dim chunks snap id :
  snap_ok dim chunks snap -> id_ok id ->
  LookupById quant_decode (vs_live_memtable snap) (Some snap) id dim =
  Some match mems_answer dim (option_list (vs_live_memtable snap) ++ reverse (vs_frozen_memtables snap)) id with
       | LNotFound => entries_answer (concat chunks.*2) id
       | a => a
       end.
Proof.
  intros [_ [Hl Hf]%Forall_app Hs Hc _] Hid. unfold LookupById.
  rewrite !first_answer_mems by (first [done|by apply Forall_reverse]). rewrite mems_answer_app.
  cbn [mbind option_bind]. destruct (mems_answer dim (option_list _) id); [done..|].
  destruct (mems_answer dim (reverse _) id); [done..|].
  pose proof (segs_answer_chunks quant_decode (fun p => p) dim chunks [] id Hc) as E. rewrite app_nil_r, <-Hs in E.
  unfold segs_answer in E. rewrite E. by destruct (entries_answer (concat chunks.*2) id).
Qed.

Lemma mems_answer_reverse dim (ms : list (MemTable T)) id :
  Forall (mem_ok dim) ms -> NoDup (se_id <$> (ms ≫= mem_entries)) -> mems_answer dim (reverse ms) id = mems_answer dim ms id.
Proof.
  intros Hm Hnd. rewrite <-!(mems_entries_answer dim) by (first [done|by apply Forall_reverse]).
  symmetry. apply entries_answer_perm; [done|]. by rewrite reverse_Permutation.
Qed.

(** C30. When the segments are unquantised and no identifier is in two frozen
    memtables, iterating over a snapshot terminates within [iter_fuel] steps,
    yields every identifier at most once, and yields exactly the vectors that a
    point lookup finds in the snapshot, under identifiers other than the
    reserved 2^64-1, and that have not expired. *)
Theorem iterator_agrees_with_lookup dim chunks snap :
  snap_ok dim chunks snap -> NoDup (se_id <$> (vs_frozen_memtables snap ≫= mem_entries)) ->
  exists it l, it_new quant_decode snap ttl now = Some it /\ it_drain quant_decode (iter_fuel snap) it = Some l /\
    NoDup l.*1 /\ forall id v, id_ok id ->
      ((id, v) ∈ l <-> exists meta, LookupById quant_decode (vs_live_memtable snap) (Some snap) id dim = Some (LFound v meta) /\
        IsExpired ttl now meta = false).
Proof.
  intros Hok Hnd. destruct (iterate_visit dim chunks snap Hok) as (it & l & E & _ & Ed & Hl & Hin).
  exists it, l. split_and!; [done..|]. intros id v Hid. rewrite Hin, (lookup_snapshot dim chunks), (visit_answer dim) by done.
  pose proof (so_mems _ _ _ Hok) as [_ Hf]%Forall_app. rewrite !mems_answer_app, (mems_answer_reverse dim) by done.
  split; intros (meta & Ha & Hx); exists meta; (split; [congruence|done]).
Qed.
End properties.

(** ** Concrete iterations *)

#[local] Existing Instance test_f32.
#[local] Existing Instance test_idmap.
#[local] Existing Instance test_idmap_laws.

(** An active and a frozen memtable with one vector each. *)
Definition two_layers (live frozen : MemTable (@FlatHashMemMap (option bytes))) : VectorSnapshot (@FlatHashMemMap (option bytes)) :=
  MkSnap 1 [frozen] [] (Some live).

Lemma one_vec_entry_ok id v :
  id_ok id -> vec_dim v = 2 -> vec_ok v -> is_u64 id -> Forall (seg_entry_ok 2) (mem_entries (one_vec id v)).
Proof.
  intros Hi Hd Hv Hu. rewrite (one_vec_entries id v) by done. apply Forall_singleton.
  split; [done|done|done|]. split; vm_compute; first [done|by split].
Qed.

Lemma iterator_agrees_with_lookup_witness :
  let snap := two_layers (one_vec 7 [1; 2]) (one_vec 8 [3; 4]) in
  exists it l, it_new test_decode snap 0 5 = Some it /\ it_drain test_decode (iter_fuel snap) it = Some l /\ (7, [1; 2]) ∈ l.
Proof.
  intros snap.
  destruct (iterator_agrees_with_lookup test_decode 0 5 2 [] snap) as (it & l & E & Ed & _ & Hin).
  - split; [reflexivity| |reflexivity|constructor|].
    + refine (Forall_cons_2 _ _ _ _ (Forall_cons_2 _ _ _ _ (Forall_nil_2 _))); apply one_vec_ok; (apply (bool_decide_unpack _); vm_compute; exact I) || reflexivity.
    + refine (Forall_cons_2 _ _ _ _ (Forall_cons_2 _ _ _ _ (Forall_nil_2 _)));
        apply one_vec_entry_ok; (apply (bool_decide_unpack _); vm_compute; exact I) || reflexivity.
  - apply (bool_decide_unpack _). vm_compute. exact I.
  - exists it, l. split; [exact E|]. split; [exact Ed|]. apply Hin; [discriminate|].
    exists md_default. split; [vm_compute; reflexivity|reflexivity].
Defined.

(** The iterator shows the oldest of the frozen versions where a lookup finds
    the newest. *)
Theorem iterator_shows_stale_version :
  let snap := MkSnap 1 [one_vec 7 [1; 2]; one_vec 7 [3; 4]] [] None in
  LookupById test_decode None (Some snap) 7 2 = Some (LFound [3; 4] md_default) /\
  (it ← it_new test_decode snap 0 0; it_drain test_decode (iter_fuel snap) it) = Some [(7, [1; 2])].
Proof. split; vm_compute; reflexivity. Qed.
