(* ===== verification/SearchParts.v ===== *)
(** * Parts of vector search

    The hash table and the visibility policy of a search (src/core/shard/runtime.cc),
    the sink that keeps the best hits (include/pomai/search.h), filters and
    options (include/pomai/metadata.h), the scan of a segment (src/table/segment.h)
    and the filter mask over it (src/core/bitset_mask.cc).  A score is the bit
    pattern of a float; comparing two of them is modelled, computing them is not.

    [SearchTheorems] proves that the table with its load limit is a map that
    stops taking new keys and that the sink keeps the best hits by score. *)
From S2P Require Import Prelude Types Segment.

Open Scope Z_scope.

(** ** Comparing floats *)

(** IEEE single precision: a NaN compares with nothing, otherwise the patterns
    are ordered by sign and magnitude. *)
Definition f32_nan (x : Z) : bool := 0x7F800000 <? Z.land x 0x7FFFFFFF.
Definition f32_key (x : Z) : Z := if Z.testbit x 31 then - Z.land x 0x7FFFFFFF else Z.land x 0x7FFFFFFF.
Definition f32_gtb (a b : Z) : bool := negb (f32_nan a) && negb (f32_nan b) && (f32_key b <? f32_key a).
Definition f32_eqb (a b : Z) : bool := negb (f32_nan a) && negb (f32_nan b) && (f32_key a =? f32_key b).
(** [-x] *)
Definition f32_neg (x : Z) : Z := Z.lxor x 0x80000000.

(** ** The hash table *)

Section table.
Context {V : Type} (cap : Z) (Hash : Z -> Z).

(** src/core/shard/runtime.cc:78-85 [FixedHashTable]. The occupied nodes by index. *)
Record FixedHashTable : Type := MkFht { ft_nodes : gmap Z (Z * V); ft_size : Z }.

(** src/core/shard/runtime.cc:87-89 [FixedHashTable::FixedHashTable]. *)
Definition ft_new : FixedHashTable := MkFht ∅ 0.

(** src/core/shard/runtime.cc:91-95 [FixedHashTable::Clear]. *)
Definition ft_Clear (t : FixedHashTable) : FixedHashTable := if ft_size t =? 0 then t else MkFht ∅ 0.

(** src/core/shard/runtime.cc:104-107 [FixedHashTable::Insert]. The free node the
    loop stops at, or [None] when it meets the key; the outer [None] is a loop
    that has visited every node. *)
Fixpoint ft_probe (fuel : nat) (nodes : gmap Z (Z * V)) (key h : Z) : option (option Z) :=
  match fuel with
  | O => None
  | S fuel =>
      match nodes !! h with
      | None => Some (Some h)
      | Some (k, _) => if k =? key then Some None else ft_probe fuel nodes key ((h + 1) mod cap)
      end
  end.

(** src/core/shard/runtime.cc:100-110 [FixedHashTable::Insert]. The comparison with
    [cap * 0.7] is exact for a capacity that is a power of two. *)
Definition ft_Insert (key : Z) (value : V) (t : FixedHashTable) : option FixedHashTable :=
  if 7 * cap <=? 10 * ft_size t then Some t else
  slot ← ft_probe (Z.to_nat cap) (ft_nodes t) key (Hash key mod cap);
  Some match slot with
       | None => t
       | Some h => MkFht (<[h := (key, value)]> (ft_nodes t)) (ft_size t + 1)
       end.

(** src/core/shard/runtime.cc:117-122 [FixedHashTable::Find]. *)
Fixpoint ft_find_loop (fuel : nat) (nodes : gmap Z (Z * V)) (key start h : Z) : option V :=
  match fuel with
  | O => None
  | S fuel =>
      match nodes !! h with
      | None => None
      | Some (k, v) =>
          if k =? key then Some v else
          let h := (h + 1) mod cap in
          if h =? start then None else ft_find_loop fuel nodes key start h
      end
  end.

(** src/core/shard/runtime.cc:112-123 [FixedHashTable::Find]. The loop is back at its
    start after [cap] rounds. *)
Definition ft_Find (key : Z) (t : FixedHashTable) : option V :=
  if (ft_size t =? 0) || (cap =? 0) then None else
  let h := Hash key mod cap in ft_find_loop (Z.to_nat cap) (ft_nodes t) key h h.
End table.
Arguments FixedHashTable : clear implicits.

(** ** The visibility policy *)

(** The address of a memtable or segment, which tells the layers apart. *)
Inductive Layer : Type := LActive | LFrozen (i : nat) | LSegment (i : nat).
#[global] Instance Layer_eq_dec : EqDecision Layer.
Proof. solve_decision. Defined.

(** src/core/shard/runtime.cc:69-72 [VisibilityEntry]. *)
Record VisibilityEntry : Type := MkVis { ve_is_tombstone : bool; ve_source : Layer }.

(** src/core/shard/runtime.cc:164-164 [SearchMergePolicy]. *)
Definition SearchMergePolicy : Type := FixedHashTable VisibilityEntry.
Definition kVisibilityCapacity : Z := 131072.

Section policy.
Context (Hash : Z -> Z).

(** src/core/shard/runtime.cc:146-153 [SearchMergePolicy::CheckAndAdd]. *)
Definition CheckAndAdd (id : Z) (source : Layer) (is_tombstone : bool) (p : SearchMergePolicy) : option (bool * SearchMergePolicy) :=
  match ft_Find kVisibilityCapacity Hash id p with
  | Some e => Some (bool_decide (ve_source e = source) && negb (ve_is_tombstone e), p)
  | None =>
      p ← ft_Insert kVisibilityCapacity Hash id (MkVis is_tombstone source) p;
      Some (negb is_tombstone, p)
  end.

(** src/core/shard/runtime.cc:155-157 [SearchMergePolicy::RecordIfUnresolved]. *)
Definition RecordIfUnresolved (id : Z) (is_tombstone : bool) (source : Layer) (p : SearchMergePolicy) : option SearchMergePolicy :=
  ft_Insert kVisibilityCapacity Hash id (MkVis is_tombstone source) p.
End policy.

(** ** The sink *)

(** include/pomai/search.h:39-44 [SearchHit]. Without the related ids, which a
    search leaves empty. *)
Record SearchHit : Type := MkHit { h_id : Z; h_score : Z }.
#[global] Instance SearchHit_eq_dec : EqDecision SearchHit.
Proof. solve_decision. Defined.

(** include/pomai/search.h:58-65 [WorseHit]. *)
Definition WorseHit (a b : SearchHit) : bool :=
  if negb (f32_eqb (h_score a) (h_score b)) then f32_gtb (h_score a) (h_score b) else h_id b <? h_id a.

(** include/pomai/search.h:68-73 [IsBetterHit]. *)
Definition IsBetterHit (a b : SearchHit) : bool :=
  if negb (f32_eqb (h_score a) (h_score b)) then f32_gtb (h_score a) (h_score b) else h_id a <? h_id b.

(** [std::priority_queue] with the comparator [WorseHit]: its elements from the
    greatest, which is [top], to the least. *)
Fixpoint heap_push (x : SearchHit) (heap : list SearchHit) : list SearchHit :=
  match heap with
  | [] => [x]
  | y :: heap' => if WorseHit y x then x :: heap else y :: heap_push x heap'
  end.

(** src/core/shard/runtime.cc:200-203 [VectorHitSink]. *)
Record VectorHitSink : Type := MkSink { sk_k : Z; sk_heap : list SearchHit }.

(** src/core/shard/runtime.cc:177-186 [VectorHitSink::Push]. *)
Definition sink_Push (id score : Z) (s : VectorHitSink) : VectorHitSink :=
  if sk_k s =? 0 then s else
  let hit := MkHit id score in
  if zlen (sk_heap s) <? sk_k s then MkSink (sk_k s) (heap_push hit (sk_heap s)) else
  match sk_heap s with
  | top :: rest => if IsBetterHit hit top then MkSink (sk_k s) (heap_push hit rest) else s
  | [] => s
  end.

(** [std::sort] by descending score: some order of the hits in which no score is
    above an earlier one, unless a NaN spoils the comparison. *)
Class HitSort := {
  sort_hits : list SearchHit -> list SearchHit;
  sort_hits_perm l : sort_hits l ≡ₚ l;
  sort_hits_sorted l :
    Forall (fun h => f32_nan (h_score h) = false) l ->
    StronglySorted (fun a b => f32_gtb (h_score b) (h_score a) = false) (sort_hits l)
}.

(** src/core/shard/runtime.cc:188-198 [VectorHitSink::Finalize]. *)
Definition sink_Finalize `{HitSort} (s : VectorHitSink) : list SearchHit := sort_hits (sk_heap s).

(** ** Filters and options *)

(** include/pomai/metadata.h:43-56 [Filter]. *)
Record Filter : Type := MkFilter {
  fl_field : bytes;
  fl_value : bytes;
  fl_min_ts : Z;
  fl_max_ts : Z;
  fl_spatial_lat : Z;
  fl_spatial_lon : Z;
  fl_spatial_radius : Z;
  fl_is_radius_query : bool
}.

(** include/pomai/metadata.h:113-122 [SearchOptions]. *)
Record SearchOptions : Type := MkOpts {
  so_filters : list Filter;
  so_as_of_ts : Z;
  so_as_of_lsn : Z;
  so_partition_device_id : bytes;
  so_partition_location_id : bytes
}.

Section filters.
(** The distance in double precision exceeds the radius. *)
Context (beyond_radius : Filter -> Metadata -> bool).

(** include/pomai/metadata.h:80-110 [Filter::Matches]. *)
Definition filter_Matches (f : Filter) (meta : Metadata) : bool :=
  if bool_decide (fl_field f = bstr "tenant") && negb (bool_decide (md_tenant meta = fl_value f)) then false else
  if bool_decide (fl_field f = bstr "device_id") && negb (bool_decide (md_device_id meta = fl_value f)) then false else
  if bool_decide (fl_field f = bstr "location_id") && negb (bool_decide (md_location_id meta = fl_value f)) then false else
  if bool_decide (fl_field f = bstr "timestamp") && (0 <? fl_min_ts f) && (md_timestamp meta <? fl_min_ts f) then false else
  if bool_decide (fl_field f = bstr "timestamp") && (0 <? fl_max_ts f) && (fl_max_ts f <? md_timestamp meta) then false else
  if bool_decide (fl_field f = bstr "spatial") && fl_is_radius_query f && beyond_radius f meta then false else
  true.

(** include/pomai/metadata.h:126-137 [SearchOptions::Matches]. *)
Definition opts_Matches (opts : SearchOptions) (meta : Metadata) : bool :=
  if (0 <? so_as_of_ts opts) && (so_as_of_ts opts <? md_timestamp meta) then false else
  if (0 <? so_as_of_lsn opts) && (so_as_of_lsn opts <? md_lsn meta) then false else
  if negb (bool_decide (so_partition_device_id opts = [])) && negb (bool_decide (md_device_id meta = so_partition_device_id opts)) then false else
  if negb (bool_decide (so_partition_location_id opts = [])) && negb (bool_decide (md_location_id meta = so_partition_location_id opts)) then false else
  forallb (fun f => filter_Matches f meta) (so_filters opts).
End filters.

(** src/core/bitset_mask.cc:57-66 [BitsetMask::BuildFromSegment]. The bounds of the
    first filter on the timestamp; [score_memtable] has the same loop. *)
Definition time_filter (opts : SearchOptions) : option (Z * Z) :=
  '(_, f) ← list_find (fun f => fl_field f = bstr "timestamp") (so_filters opts); Some (fl_min_ts f, fl_max_ts f).

(** [for (x : l) s = f(x, s)] with undefined behaviour. *)
Fixpoint each {A S} (f : A -> S -> option S) (l : list A) (s : S) : option S :=
  match l with
  | [] => Some s
  | x :: l => s ← f x s; each f l s
  end.

(** ** Scanning a segment *)

(** The calls a search makes to a [ProductQuantizer]; their computation is in
    single precision. *)
Record Pq : Type := MkPq {
  pq_M : Z;
  pq_Decode : bytes -> vec;
  pq_IPTable : vec -> list Z;
  pq_L2Table : vec -> list Z;
  pq_ScoreFromTable : list Z -> bytes -> Z
}.

(** What is loaded beside a segment: quantisers and approximate indexes. *)
Class Sidecars := {
  sc_quantizer : SegmentReader -> option (bytes -> vec);
  sc_pq : SegmentReader -> option Pq;
  sc_sq8 : SegmentReader -> Z * Z;
  sc_hnsw : SegmentReader -> option (vec -> Z -> Z -> Status + (list Z * list Z));
  sc_index : SegmentReader -> option (vec -> Z -> Status + list Z)
}.

Definition kPq8_q : Z := 4.

(** src/table/segment.h:184-186 [SegmentReader::ForEach]. The bytes of the codes of an
    entry; [ReadAtCodes] has the same lines. *)
Definition codes_bytes (r : SegmentReader) : Z :=
  if sr_quant_type r =? kFp16_q then sr_dim r * 2 else
  if sr_quant_type r =? kBit_q then u32 (sr_dim r + 7) / 8 else sr_dim r.

(** src/table/segment.h:139-172 [SegmentReader::ForEach]. The pointer to the metadata. *)
Definition foreach_meta (r : SegmentReader) (i : Z) : option (option Metadata) :=
  if sr_metadata_offset r =? 0 then Some None else
  start ← rd_int (sr_data r) (sr_metadata_offset r + i * 8) 8;
  end_ ← rd_int (sr_data r) (sr_metadata_offset r + u32 (i + 1) * 8) 8;
  if start <? end_ then Some <$> sr_GetMetadata r i md_default else Some None.

(** src/table/segment.h:177-193 [SegmentReader::ForEach]. The vector at [p]. *)
Definition foreach_vec `{Sidecars} (r : SegmentReader) (p : Z) (is_deleted : bool) : option vec :=
  if is_deleted then Some [] else
  match (if sr_quant_type r =? kPq8_q then sc_pq r else None) with
  | Some pq => b ← rd (sr_data r) p (pq_M pq); Some (pq_Decode pq b)
  | None =>
      match (if sr_quant_type r =? kNone_q then None else sc_quantizer r) with
      | Some decode => b ← rd (sr_data r) p (codes_bytes r); Some (decode b)
      | None => b ← rd (sr_data r) p (sr_dim r * 4); Some (read_vec (Z.to_nat (sr_dim r)) b)
      end
  end.

(** src/table/segment.h:113-199 [SegmentReader::ForEach]. The arguments of the calls
    of [func], in order. *)
Definition sr_ForEach `{Sidecars} (r : SegmentReader) : option (list (Z * vec * bool * option Metadata)) :=
  mapM (fun i : nat =>
    let p := sr_entries_start_offset r + Z.of_nat i * sr_entry_size r in
    id ← rd_int (sr_data r) p 8;
    flags ← rd_int (sr_data r) (p + 8) 1;
    let is_deleted := Z.testbit flags 0 in
    meta ← foreach_meta r (Z.of_nat i);
    v ← foreach_vec r (p + 12) is_deleted;
    Some (id, v, is_deleted, meta)) (seq 0 (Z.to_nat (sr_count r))).

(** src/table/segment.cc:567-572 [SegmentReader::Search]. *)
Definition sr_Search `{Sidecars} (r : SegmentReader) (query : vec) (nprobe : Z) : Status + list Z :=
  match sc_index r with
  | None => inr []
  | Some search => search query nprobe
  end.

(** src/table/segment.cc:799-830 [SegmentReader::ReadAtCodes]. Without metadata; the
    identifier, the codes and the deletion mark. *)
Definition sr_ReadAtCodes (r : SegmentReader) (index : Z) : option (Status + (Z * bytes * bool)) :=
  if sr_count r <=? index then Some (inl (InvalidArgument "index out of range")) else
  let p := sr_entries_start_offset r + index * sr_entry_size r in
  id ← rd_int (sr_data r) p 8;
  flags ← rd_int (sr_data r) (p + 8) 1;
  let is_deleted := Z.testbit flags 0 in
  codes ← (if is_deleted || (sr_quant_type r =? kNone_q) then Some [] else rd (sr_data r) (p + 12) (codes_bytes r));
  Some (inr (id, codes, is_deleted)).

(** ** The filter mask *)

(** src/core/bitset_mask.h:78-79 [BitsetMask]. *)
Record BitsetMask : Type := MkMask { bm_n : Z; bm_words : list Z }.

Definition mask_words (n : Z) : list Z := replicate (Z.to_nat (u32 (n + 63) / 64)) 0.

(** src/core/bitset_mask.h:40-41 [BitsetMask::BitsetMask]. *)
Definition mask_new (n : Z) : BitsetMask := MkMask n (mask_words n).

(** src/core/bitset_mask.h:81-83 [BitsetMask::Set]. *)
Definition mask_Set (idx : Z) (m : BitsetMask) : option BitsetMask :=
  w ← bm_words m !! Z.to_nat (Z.shiftr idx 6);
  Some (MkMask (bm_n m) (<[Z.to_nat (Z.shiftr idx 6) := Z.lor w (Z.shiftl 1 (Z.land idx 63))]> (bm_words m))).

(** src/core/bitset_mask.h:59-61 [BitsetMask::Test]. *)
Definition mask_Test (idx : Z) (m : BitsetMask) : option bool :=
  w ← bm_words m !! Z.to_nat (Z.shiftr idx 6);
  Some (Z.testbit (Z.shiftr w (Z.land idx 63)) 0).

Section mask.
Context (beyond_radius : Filter -> Metadata -> bool).

(** src/core/bitset_mask.cc:72-77 [BitsetMask::BuildFromSegment]. [tmp_meta] is declared
    outside the loop, so an entry without metadata sees the previous one's. *)
Definition mask_temporal (seg : SegmentReader) (opts : SearchOptions) (idx : Z) (st : BitsetMask * Metadata)
    : option (BitsetMask * Metadata) :=
  let '(m, tmp_meta) := st in
  st ← sr_ReadAtMetadata seg idx tmp_meta;
  match st with
  | inl _ => Some (m, tmp_meta)
  | inr (tmp_deleted, tmp_meta) =>
      if negb tmp_deleted && opts_Matches beyond_radius opts tmp_meta
      then m ← mask_Set idx m; Some (m, tmp_meta) else Some (m, tmp_meta)
  end.

(** src/core/bitset_mask.cc:86-91 [BitsetMask::BuildFromSegment]. *)
Definition mask_scan (seg : SegmentReader) (opts : SearchOptions) (i : nat) (st : BitsetMask * Metadata)
    : option (BitsetMask * Metadata) :=
  let '(m, tmp_meta) := st in
  st ← sr_ReadAt seg (Z.of_nat i) tmp_meta;
  match st with
  | inl _ => Some (m, tmp_meta)
  | inr (_, _, tmp_deleted, tmp_meta) =>
      if (tmp_deleted : bool) then Some (m, tmp_meta) else
      if opts_Matches beyond_radius opts tmp_meta then m ← mask_Set (Z.of_nat i) m; Some (m, tmp_meta) else Some (m, tmp_meta)
  end.

(** src/core/bitset_mask.cc:24-92 [BitsetMask::BuildFromSegment]. *)
Definition BuildFromSegment (seg : SegmentReader) (opts : SearchOptions) (m : BitsetMask) : option BitsetMask :=
  let n := sr_count seg in
  if n =? 0 then Some m else
  let m := if bm_n m <? n then MkMask n (mask_words n) else MkMask (bm_n m) ((fun _ => 0) <$> bm_words m) in
  if bool_decide (so_filters opts = []) then
    each (fun (i : nat) (m : BitsetMask) =>
      flags ← rd_int (sr_data seg) (sr_entries_start_offset seg + Z.of_nat i * sr_entry_size seg + 8) 1;
      if Z.testbit flags 0 then Some m else mask_Set (Z.of_nat i) m) (seq 0 (Z.to_nat n)) m
  else
    match time_filter opts with
    | Some (min_ts, max_ts) =>
        ids ← sr_SearchTemporal seg min_ts max_ts;
        fst <$> each (mask_temporal seg opts) ids (m, md_default)
    | None => fst <$> each (mask_scan seg opts) (seq 0 (Z.to_nat n)) (m, md_default)
    end.
End mask.
