(* ===== verification/Search.v ===== *)
(** * Vector search in a shard (src/core/shard/runtime.cc)

    [Search] and [SearchBatchLocal] record which layer holds the newest version of
    every identifier, and [SearchLocalInternal] scores the entries of the layers:
    memtables one by one, segments through an approximate index when they are
    large and have one, by a scan otherwise.  The distance kernels and the
    sidecar indexes are parameters; the order of scores and everything that
    decides what is scored is modelled.  The counter of scanned candidates, a
    statistic, is not, nor is a metadata record that the candidate loops read
    into a local and do not use. *)
From S2P Require Import Prelude FlatHash Env Types Wal Text PosixFile Manifest MemTable Segment Layers Runtime SearchParts.

Open Scope Z_scope.

(** The kernels of src/core/distance.cc, on bit patterns. *)
Class Kernels := {
  k_Dot : vec -> vec -> Z;
  k_L2Sq : vec -> vec -> Z;
  k_DotSq8 : vec -> bytes -> Z -> Z -> Z -> Z;
  k_L2SqSq8 : vec -> bytes -> Z -> Z -> Z;
  k_DotFp16 : vec -> bytes -> Z;
  k_L2SqFp16 : vec -> bytes -> Z;
  k_DotBit : vec -> bytes -> Z
}.

Section search.
Context {T : Type} `{IdMap T (option bytes)} `{F32} `{Sidecars} `{Kernels}.
Context (Hash : Z -> Z) (beyond_radius : Filter -> Metadata -> bool).
Context (metric : MetricType) (ip : IndexParams) (dim ttl_sec : Z).
Context {Sink : Type} (Push : Z -> Z -> Sink -> Sink).

Definition is_ip : bool := bool_decide (metric = kInnerProduct) || bool_decide (metric = kCosine).

(** src/core/shard/runtime.cc:1661-1663 [VectorRuntime::SearchLocalInternal]. The score of a
    vector; the same lines are in every branch that has floats. *)
Definition score_of (query v : vec) : Z := if is_ip then k_Dot query v else f32_neg (k_L2Sq query v).

(** src/core/shard/runtime.cc:1788-1805 [VectorRuntime::SearchLocalInternal]. The score of
    quantised codes, and with [bits] false the same for the other loop, which
    has no case for binary codes. *)
Definition score_codes (bits : bool) (seg : SegmentReader) (query : vec) (query_sum : Z) (codes : bytes) : Z :=
  let q := sr_quant_type seg in
  if q =? kSq8_q then
    let '(q_min, q_inv_scale) := sc_sq8 seg in
    if is_ip then k_DotSq8 query codes q_min q_inv_scale query_sum
    else f32_neg (k_L2SqSq8 query codes q_min (f32_add q_min (f32_mul f32_255 q_inv_scale)))
  else if q =? kFp16_q then (if is_ip then k_DotFp16 query codes else f32_neg (k_L2SqFp16 query codes))
  else if (q =? kBit_q) && bits then k_DotBit query codes
  else f32_0.

(** The policy and the sink. *)
Definition SearchState : Type := SearchMergePolicy * Sink.

(** [!use_visibility || merge_policy.CheckAndAdd(id, source, is_deleted)] *)
Definition check_visible (use_visibility : bool) (id : Z) (source : Layer) (is_deleted : bool) (p : SearchMergePolicy)
    : option (bool * SearchMergePolicy) :=
  if use_visibility then CheckAndAdd Hash id source is_deleted p else Some (true, p).

Section query.
Context (query : vec) (query_sum topk : Z) (opts : SearchOptions) (use_visibility : bool) (now_sec : Z).

Definition has_filters : bool := negb (bool_decide (so_filters opts = [])).

(** src/core/shard/runtime.cc:1622-1628 [VectorRuntime::SearchLocalInternal]. *)
Definition effective_nprobe : Z :=
  let n := if ip_nprobe ip =? 0 then 1 else ip_nprobe ip in
  if has_filters && (n <? 8) then Z.min 32 (u32 (n * 8)) else n.

(** src/core/shard/runtime.cc:1650-1665 [VectorRuntime::SearchLocalInternal]. The loop over the
    identifiers of the time range. *)
Definition score_mem_id (m : MemTable T) (source : Layer) (id : Z) (s : SearchState) : option SearchState :=
  let '(p, sink) := s in
  match mt_Get id m with
  | inl _ => Some s
  | inr (mem, meta) =>
      if VectorMetaExpired ttl_sec now_sec meta then Some s else
      '(visible, p) ← check_visible use_visibility id source false p;
      if negb visible then Some (p, sink) else
      if negb (opts_Matches beyond_radius opts meta) then Some (p, sink) else
      v ← read_span dim mem;
      Some (p, Push id (score_of query v) sink)
  end.

(** src/core/shard/runtime.cc:1667-1680 [VectorRuntime::SearchLocalInternal]. The callback of
    [IterateWithMetadata]. *)
Definition score_mem_entry (source : Layer) (e : CursorEntry) (s : SearchState) : option SearchState :=
  let '(p, sink) := s in
  '(visible, p) ← check_visible use_visibility (ce_id e) source (ce_is_deleted e) p;
  if negb visible then Some (p, sink) else
  if ce_is_deleted e then Some (p, sink) else
  let m := default md_default (ce_meta e) in
  if VectorMetaExpired ttl_sec now_sec m then Some (p, sink) else
  if negb (opts_Matches beyond_radius opts m) then Some (p, sink) else
  Some (p, Push (ce_id e) (score_of query (ce_vec e)) sink).

(** src/core/shard/runtime.cc:1631-1683 [VectorRuntime::SearchLocalInternal]. The lambda
    [score_memtable]. *)
Definition score_memtable (source : Layer) (m : MemTable T) (s : SearchState) : option SearchState :=
  match time_filter opts with
  | Some (min_ts, max_ts) =>
      match mt_GetByTimeRange min_ts max_ts m with
      | inl _ => None
      | inr ids => each (score_mem_id m source) ids s
      end
  | None => each (score_mem_entry source) (mt_cursor m) s
  end.

(** src/core/shard/runtime.cc:1716-1725 [VectorRuntime::SearchLocalInternal]. The hits of the graph
    index; on this path visibility is not checked. *)
Definition push_graph_hit (h : Z * Z) (s : SearchState) : option SearchState :=
  let '(id, dist) := h in Some (s.1, Push id (if is_ip then dist else f32_neg dist) s.2).

(** src/core/shard/runtime.cc:1745-1758 [VectorRuntime::SearchLocalInternal]. A candidate of a
    product-quantised segment. *)
Definition push_pq_candidate (seg : SegmentReader) (pq : Pq) (table : list Z) (idx : Z) (s : SearchState) : option SearchState :=
  let p := sr_entries_start_offset seg + idx * sr_entry_size seg in
  vid ← rd_int (sr_data seg) p 8;
  flags ← rd_int (sr_data seg) (p + 8) 1;
  if Z.testbit flags 0 then Some s else
  codes ← rd (sr_data seg) (p + 12) (pq_M pq);
  let raw := pq_ScoreFromTable pq table codes in
  Some (s.1, Push vid (if is_ip then raw else f32_neg raw) s.2).

(** src/core/shard/runtime.cc:1780-1808 [VectorRuntime::SearchLocalInternal]. A candidate of a
    segment with another quantiser. *)
Definition push_code_candidate (seg : SegmentReader) (idx : Z) (s : SearchState) : option SearchState :=
  let p := sr_entries_start_offset seg + idx * sr_entry_size seg in
  vid ← rd_int (sr_data seg) p 8;
  flags ← rd_int (sr_data seg) (p + 8) 1;
  if Z.testbit flags 0 then Some s else
  let n := if sr_quant_type seg =? kFp16_q then dim * 2 else if sr_quant_type seg =? kBit_q then u32 (dim + 7) / 8 else dim in
  codes ← rd (sr_data seg) (p + 12) n;
  Some (s.1, Push vid (score_codes true seg query query_sum codes) s.2).

(** src/core/shard/runtime.cc:1699-1813 [VectorRuntime::SearchLocalInternal]. The fast path: the new
    state when it returns, [None] when it falls through. *)
Definition fast_path (seg : SegmentReader) (s : SearchState) : option (option SearchState) :=
  let graph :=
    if ip_adaptive_threshold ip <=? sr_count seg then
      match sc_hnsw seg with
      | Some search =>
          match search query topk (Z.max (ip_hnsw_ef_search ip) (u32 (topk * 2))) with
          | inr (ids, dists) => if bool_decide (ids = []) then None else Some (ids, dists)
          | inl _ => None
          end
      | None => None
      end
    else None in
  match graph with
  | Some (ids, dists) =>
      if (length ids <=? length dists)%nat then Some <$> each push_graph_hit (zip ids dists) s else None
  | None =>
      match (if sr_quant_type seg =? kPq8_q then sc_pq seg else None) with
      | Some pq =>
          let table := if is_ip then pq_IPTable pq query else pq_L2Table pq query in
          match sr_Search seg query effective_nprobe with
          | inr cands => Some <$> each (push_pq_candidate seg pq table) cands s
          | inl _ => Some None
          end
      | None =>
          if (sr_quant_type seg =? kNone_q) || (sr_quant_type seg =? kPq8_q) then Some None else
          match sr_Search seg query effective_nprobe with
          | inr cands => Some <$> each (push_code_candidate seg) cands s
          | inl _ => Some None
          end
      end
  end.

(** src/table/segment.cc:832-867 [SegmentReader::ReadAt]. The call without metadata. *)
Definition sr_ReadAtVec (r : SegmentReader) (index : Z) : option (Status + (Z * vec * bool)) :=
  if sr_count r <=? index then Some (inl (InvalidArgument "index out of range")) else
  let p := sr_entries_start_offset r + index * sr_entry_size r in
  id ← rd_int (sr_data r) p 8;
  flags ← rd_int (sr_data r) (p + 8) 1;
  let is_deleted := Z.testbit flags 0 in
  v ← (if is_deleted || negb (sr_quant_type r =? kNone_q) then Some []
       else b ← rd (sr_data r) (p + 12) (sr_dim r * 4); Some (read_vec (Z.to_nat (sr_dim r)) b));
  Some (inr (id, v, is_deleted)).

(** [has_filters && !seg_mask.Test(idx)] *)
Definition masked_out (mask : BitsetMask) (idx : Z) : option bool :=
  if has_filters then negb <$> mask_Test idx mask else Some false.

(** src/core/shard/runtime.cc:1846-1868 [VectorRuntime::SearchLocalInternal]. What happens to a
    candidate or scanned entry once it has been read; the three other loops end
    in the same way. *)
Definition offer (source : Layer) (mask : BitsetMask) (idx id : Z) (is_deleted : bool) (score : Z) (s : SearchState) : option SearchState :=
  let '(p, sink) := s in
  '(visible, p) ← check_visible use_visibility id source is_deleted p;
  if negb visible then Some (p, sink) else
  if is_deleted then Some (p, sink) else
  out ← masked_out mask idx;
  if (out : bool) then Some (p, sink) else Some (p, Push id score sink).

(** src/core/shard/runtime.cc:1840-1887 [VectorRuntime::SearchLocalInternal]. *)
Definition score_candidate (source : Layer) (seg : SegmentReader) (mask : BitsetMask) (idx : Z) (s : SearchState) : option SearchState :=
  if sr_quant_type seg =? kNone_q then
    st ← sr_ReadAtVec seg idx;
    match st with
    | inl _ => Some s
    | inr (id, v, deleted) => offer source mask idx id deleted (score_of query v) s
    end
  else
    st ← sr_ReadAtCodes seg idx;
    match st with
    | inl _ => Some s
    | inr (id, codes, deleted) => offer source mask idx id deleted (score_codes false seg query query_sum codes) s
    end.

(** src/core/shard/runtime.cc:1892-1929 [VectorRuntime::SearchLocalInternal]. The callbacks of
    [ForEach] with the counter of entries. *)
Definition score_scanned (source : Layer) (mask : BitsetMask) (x : nat * (Z * vec * bool * option Metadata)) (s : SearchState)
    : option SearchState :=
  let '(i, (id, v, is_deleted, _)) := x in offer source mask (Z.of_nat i) id is_deleted (score_of query v) s.

(** [std::sort] and [std::unique] of indexes. *)
Definition sorted_unique (l : list Z) : list Z := merge_sort Z.le (remove_dups l).

(** src/core/shard/runtime.cc:1815-1825 [VectorRuntime::SearchLocalInternal]. *)
Definition candidates (seg : SegmentReader) : list Z :=
  if (ip_adaptive_threshold ip <=? sr_count seg) && bool_decide (is_Some (sc_index seg)) then
    match sr_Search seg query effective_nprobe with
    | inr cands => sorted_unique cands
    | inl _ => []
    end
  else [].

(** src/core/shard/runtime.cc:1685-1931 [VectorRuntime::SearchLocalInternal]. The lambda
    [score_segment]. *)
Definition score_segment (source : Layer) (seg : SegmentReader) (s : SearchState) : option SearchState :=
  mask ← (if has_filters then BuildFromSegment beyond_radius seg opts (mask_new (sr_count seg)) else Some (mask_new (sr_count seg)));
  done ← (if negb use_visibility && negb has_filters then fast_path seg s else Some None);
  match done with
  | Some s => Some s
  | None =>
      match candidates seg with
      | [] =>
          entries ← sr_ForEach seg;
          each (score_scanned source mask) (zip (seq 0 (length entries)) entries) s
      | cands => each (score_candidate source seg mask) cands s
      end
  end.

(** The layers of a snapshot, newest first, with the addresses of the objects. *)
Definition frozen_layers (snap : VectorSnapshot T) : list (Layer * MemTable T) :=
  reverse (imap (fun i m => (LFrozen i, m)) (vs_frozen_memtables snap)).
Definition segment_layers (snap : VectorSnapshot T) : list (Layer * SegmentReader) :=
  imap (fun i seg => (LSegment i, seg)) (vs_segments snap).

(** src/core/shard/runtime.cc:1600-1945 [VectorRuntime::SearchLocalInternal]. *)
Definition SearchLocalInternal (active : MemTable T) (snap : VectorSnapshot T) (s : SearchState) : option SearchState :=
  s ← score_memtable LActive active s;
  s ← each (fun lm => score_memtable lm.1 lm.2) (frozen_layers snap) s;
  each (fun ls => score_segment ls.1 ls.2) (segment_layers snap) s.
End query.
End search.

Section batch.
Context {T : Type} `{IdMap T (option bytes)} `{F32} `{Sidecars} `{Kernels} `{HitSort}.
Context (Hash : Z -> Z) (beyond_radius : Filter -> Metadata -> bool) (metric : MetricType) (ip : IndexParams).

(** src/core/shard/runtime.cc:1449-1457 [VectorRuntime::SearchBatchLocal]. The layer of the newest
    version of every entry of a memtable. *)
Definition record_mem (ttl_sec now_sec : Z) (source : Layer) (m : MemTable T) (p : SearchMergePolicy) : option SearchMergePolicy :=
  each (fun e => RecordIfUnresolved Hash (ce_id e)
    (ce_is_deleted e || VectorMetaExpired ttl_sec now_sec (default md_default (ce_meta e))) source) (mt_cursor m) p.

(** src/core/shard/runtime.cc:1467-1475 [VectorRuntime::SearchBatchLocal]. *)
Definition record_seg (ttl_sec now_sec : Z) (source : Layer) (seg : SegmentReader) (p : SearchMergePolicy) : option SearchMergePolicy :=
  entries ← sr_ForEach seg;
  each (fun '(id, _, is_deleted, meta) => RecordIfUnresolved Hash id
    (is_deleted || VectorMetaExpired ttl_sec now_sec (default md_default meta)) source) entries p.

(** src/core/shard/runtime.cc:1449-1475 [VectorRuntime::SearchBatchLocal]. [SearchLexical] builds the
    same map. *)
Definition newest_wins (ttl_sec now_sec : Z) (active : MemTable T) (snap : VectorSnapshot T) : option SearchMergePolicy :=
  p ← record_mem ttl_sec now_sec LActive active ft_new;
  p ← each (fun lm => record_mem ttl_sec now_sec lm.1 lm.2) (frozen_layers snap) p;
  each (fun ls => record_seg ttl_sec now_sec ls.1 ls.2) (segment_layers snap) p.

(** src/core/shard/runtime.cc:1430-1433 [VectorRuntime::SearchBatchLocal]. *)
Definition needs_visibility (ttl_sec : Z) (active : MemTable T) (snap : VectorSnapshot T) : bool :=
  (0 <? mt_GetCount active) || negb (bool_decide (vs_frozen_memtables snap = [])) ||
  (1 <? length (vs_segments snap))%nat || (0 <? ttl_sec).

(** src/core/shard/runtime.cc:1480-1485 [VectorRuntime::SearchBatchLocal]. *)
Definition query_sum_of (q : vec) : Z := fold_left f32_add q f32_0.

(** src/core/shard/runtime.cc:1488-1495 [VectorRuntime::SearchBatchLocal]. One query; the policy is
    shared by the queries, and a query index outside the queries or the results is undefined. *)
Definition search_one (r : VectorRuntime T) (snap : VectorSnapshot T) (now_sec : Z) (queries : vec) (topk : Z) (opts : SearchOptions)
    (use_visibility : bool) (q_idx : Z) (st : SearchMergePolicy * list (list SearchHit)) : option (SearchMergePolicy * list (list SearchHit)) :=
  let '(policy, out) := st in
  let dim := rc_dim (rt_conf r) in
  let query := take (Z.to_nat dim) (drop (Z.to_nat (u32 (q_idx * dim))) queries) in
  if negb (zlen query =? dim) || (zlen out <=? q_idx) then None else
  s ← SearchLocalInternal Hash beyond_radius metric ip dim (rc_ttl_sec (rt_conf r)) sink_Push query (query_sum_of query) topk opts
        use_visibility now_sec (rt_mem r) snap (policy, MkSink topk []);
  Some (s.1, <[Z.to_nat q_idx := sink_Finalize s.2]> out).

(** src/core/shard/runtime.cc:1414-1498 [VectorRuntime::SearchBatchLocal]. [clock 0] is the time
    read for the batch, [clock (i + 1)] the one read for its [i]-th query. *)
Definition rt_SearchBatchLocal (clock : nat -> Z) (queries : vec) (query_indices : list Z) (topk : Z) (opts : SearchOptions)
    (out : list (list SearchHit)) (r : VectorRuntime T) : option (Status + list (list SearchHit)) :=
  let conf := rt_conf r in
  if bool_decide (query_indices = []) then Some (inr out) else
  if rc_dim conf =? 0 then None else
  if negb (zlen queries mod rc_dim conf =? 0) then Some (inl (InvalidArgument "dim mismatch")) else
  match rt_snapshot r with
  | None => Some (inl (Aborted "shard not ready"))
  | Some snap =>
      let use_visibility := needs_visibility (rc_ttl_sec conf) (rt_mem r) snap in
      policy ← (if use_visibility then newest_wins (rc_ttl_sec conf) (clock O) (rt_mem r) snap else Some ft_new);
      st ← each (fun '(i, q_idx) => search_one r snap (clock (S i)) queries topk opts use_visibility q_idx)
             (zip (seq 0 (length query_indices)) query_indices) (policy, out);
      Some (inr st.2)
  end.

(** src/core/shard/runtime.cc:749-772 [VectorRuntime::Search]. *)
Definition rt_Search (clock : nat -> Z) (query : vec) (topk : Z) (opts : SearchOptions) (r : VectorRuntime T)
    : option (Status + list SearchHit) :=
  if negb (zlen query =? rc_dim (rt_conf r)) then Some (inl (InvalidArgument "dim mismatch")) else
  if topk =? 0 then Some (inr []) else
  st ← rt_SearchBatchLocal clock query [0] topk opts [[]] r;
  match st with
  | inl e => Some (inl e)
  | inr out => hits ← head out; Some (inr hits)
  end.

(** src/core/shard/runtime.cc:774-795 [VectorRuntime::Search]. The variant that pushes to a
    sink of the caller. *)
Definition rt_SearchInto {Sink : Type} (Push : Z -> Z -> Sink -> Sink) (now_sec : Z) (query : vec) (topk : Z) (opts : SearchOptions)
    (sink : Sink) (r : VectorRuntime T) : option (Status + Sink) :=
  let conf := rt_conf r in
  if negb (zlen query =? rc_dim conf) then Some (inl (InvalidArgument "dim mismatch")) else
  if topk =? 0 then Some (inr sink) else
  match rt_snapshot r with
  | None => Some (inl (Aborted "shard not ready"))
  | Some snap =>
      s ← SearchLocalInternal Hash beyond_radius metric ip (rc_dim conf) (rc_ttl_sec conf) Push query (query_sum_of query) topk opts
            true now_sec (rt_mem r) snap (ft_new, sink);
      Some (inr s.2)
  end.
End batch.
