(* ===== verification/SearchTheorems.v ===== *)
(** * Theorems about vector search

    The fixed hash table of a search is a map that stops taking keys at its load
    limit; the sink keeps the best hits of all that are pushed; and a search
    without approximate index is exact: it returns the best-scoring vectors
    among those that a point lookup finds, that have not expired and that match
    the options. *)
From S2P Require Import Prelude FlatHash Env Types Wal MemTable MemTableTheorems Segment SegmentTheorems.
From S2P Require Import WalTheorems Text PosixFile Manifest Layers Runtime RuntimeTheorems FreezeTheorems IteratorTheorems SearchParts Search.

Open Scope Z_scope.

(** ** The hash table *)

Lemma union_singleton {V} (m : gmap Z V) k v : m ∪ {[k := v]} = match m !! k with Some _ => m | None => <[k := v]> m end.
Proof.
  apply map_eq. intros i. rewrite lookup_union. destruct (decide (i = k)) as [->|Hne].
  - rewrite lookup_singleton_eq. destruct (m !! k) eqn:E; rewrite ?E, ?lookup_insert_eq; done.
  - rewrite lookup_singleton_ne by done. destruct (m !! k); rewrite ?lookup_insert_ne by done; by destruct (m !! i).
Qed.

Section table.
Context {V : Type} (cap : Z) (Hash : Z -> Z) (Hcap : 3 < cap).
Implicit Types (t : FixedHashTable V) (nodes : gmap Z (Z * V)).

(** The [j]-th node that a probe for [k] visits. *)
Definition pos (k : Z) (j : nat) : Z := (Hash k + Z.of_nat j) mod cap.

(** The first [j] nodes of the probe hold other keys. *)
Definition passed nodes (k : Z) (j : nat) : Prop :=
  forall i, (i < j)%nat -> exists k' v, nodes !! pos k i = Some (k', v) /\ k' <> k.

(** Nodes are in range, the size counts them, and the probe for the key of a
    node reaches it. *)
Record ft_inv t : Prop := {
  fi_range h kv : ft_nodes t !! h = Some kv -> 0 <= h < cap;
  fi_size : ft_size t = Z.of_nat (size (ft_nodes t));
  fi_reach h k v : ft_nodes t !! h = Some (k, v) ->
    exists j, (j < Z.to_nat cap)%nat /\ h = pos k j /\ passed (ft_nodes t) k j
}.

(** The probe for [k] ends at position [j]: a free node or the key. *)
Definition stops nodes (k : Z) (j : nat) : Prop :=
  (j < Z.to_nat cap)%nat /\ passed nodes k j /\ forall k' v, nodes !! pos k j = Some (k', v) -> k' = k.

Lemma pos_next k j : (pos k j + 1) mod cap = pos k (S j).
Proof using Hcap. unfold pos. rewrite Zplus_mod_idemp_l. f_equal. lia. Qed.

Lemma pos_cover k h : 0 <= h < cap -> exists j, (j < Z.to_nat cap)%nat /\ pos k j = h.
Proof using Hcap.
  intros Hh. pose proof (Z.mod_pos_bound (h - Hash k) cap ltac:(lia)) as Hb.
  exists (Z.to_nat ((h - Hash k) mod cap)). split; [lia|]. unfold pos. rewrite Z2Nat.id by lia.
  rewrite Zplus_mod_idemp_r. replace (Hash k + (h - Hash k)) with h by lia. by apply Z.mod_small.
Qed.

Lemma pos_inj k i j : (i < Z.to_nat cap)%nat -> (j < Z.to_nat cap)%nat -> pos k i = pos k j -> i = j.
Proof using Hcap.
  intros Hi Hj E. unfold pos in E. apply offset_mod_inj in E; lia.
Qed.

(** A table that is not full has a free node on every probe. *)
Lemma free_node nodes :
  (forall h kv, nodes !! h = Some kv -> 0 <= h < cap) -> Z.of_nat (size nodes) < cap ->
  exists h, 0 <= h < cap /\ nodes !! h = None.
Proof using Hcap.
  intros Hr Hs. destruct (decide (Forall (fun h => is_Some (nodes !! h)) (seqZ 0 cap))) as [Ha|Hn].
  - exfalso. assert (list_to_set (seqZ 0 cap) ⊆ dom nodes) as Hsub.
    { intros h Hh%elem_of_list_to_set. rewrite Forall_forall in Ha. apply elem_of_dom. by apply Ha. }
    apply subseteq_size in Hsub. rewrite size_dom, size_list_to_set, length_seqZ in Hsub by apply NoDup_seqZ. lia.
  - apply not_Forall_Exists in Hn; [|apply _]. apply Exists_exists in Hn as (h & Hh%elem_of_seqZ & Hv).
    exists h. split; [lia|]. by apply eq_None_not_Some.
Qed.

Lemma stops_exists nodes k :
  (forall h kv, nodes !! h = Some kv -> 0 <= h < cap) -> Z.of_nat (size nodes) < cap -> exists j, stops nodes k j.
Proof using Hcap.
  intros Hr Hs. destruct (free_node nodes Hr Hs) as (h & Hh & Hf). destruct (pos_cover k h Hh) as (f & Hfc & <-). clear Hh.
  assert (forall n j, (j + n = f)%nat -> passed nodes k j -> exists j, stops nodes k j) as Hgo.
  { induction n as [|n IH]; intros j Hj Hp.
    - exists j. assert (j = f) as -> by lia. split_and!; [done..|]. intros k' v E. congruence.
    - destruct (nodes !! pos k j) as [[k' v]|] eqn:E.
      2:{ exists j. split_and!; [lia|done|]. intros k' v E'. congruence. }
      destruct (decide (k' = k)) as [->|Hk].
      { exists j. split_and!; [lia|done|]. intros k' v' E'. congruence. }
      apply (IH (S j)); [lia|]. intros i Hi. destruct (decide (i = j)) as [->|]; [eauto|]. apply Hp. lia. }
  apply (Hgo f 0%nat); [lia|]. intros i Hi. lia.
Qed.

(** Where the two loops end. *)
Lemma probe_stops nodes k j :
  stops nodes k j ->
  ft_probe cap (Z.to_nat cap) nodes k (Hash k mod cap) =
  Some match nodes !! pos k j with None => Some (pos k j) | Some _ => None end.
Proof using Hcap.
  intros (Hj & Hp & Hk). replace (Hash k mod cap) with (pos k 0) by (unfold pos; by rewrite Z.add_0_r).
  assert (forall n i fuel, (i + n = j)%nat -> (n < fuel)%nat ->
    ft_probe cap fuel nodes k (pos k i) = Some match nodes !! pos k j with None => Some (pos k j) | Some _ => None end) as Hgo.
  { induction n as [|n IH]; intros i [|fuel] Hi Hf; [lia| |lia|]; cbn [ft_probe].
    - assert (i = j) as -> by lia. destruct (nodes !! pos k j) as [[k' v]|] eqn:E; [|done].
      by rewrite (Hk _ _ eq_refl), Z.eqb_refl.
    - destruct (Hp i ltac:(lia)) as (k' & v & -> & Hne). rewrite (proj2 (Z.eqb_neq _ _) Hne), pos_next. apply IH; lia. }
  apply (Hgo j); lia.
Qed.

Lemma find_stops nodes k j :
  stops nodes k j ->
  ft_find_loop cap (Z.to_nat cap) nodes k (Hash k mod cap) (Hash k mod cap) = snd <$> nodes !! pos k j.
Proof using Hcap.
  intros (Hj & Hp & Hk). replace (Hash k mod cap) with (pos k 0) by (unfold pos; by rewrite Z.add_0_r).
  assert (forall n i fuel, (i + n = j)%nat -> (n < fuel)%nat ->
    ft_find_loop cap fuel nodes k (pos k 0) (pos k i) = snd <$> nodes !! pos k j) as Hgo.
  { induction n as [|n IH]; intros i [|fuel] Hi Hf; [lia| |lia|]; cbn [ft_find_loop].
    - assert (i = j) as -> by lia. destruct (nodes !! pos k j) as [[k' v]|] eqn:E; [|done].
      by rewrite (Hk _ _ eq_refl), Z.eqb_refl.
    - destruct (Hp i ltac:(lia)) as (k' & v & -> & Hne). rewrite (proj2 (Z.eqb_neq _ _) Hne), pos_next.
      rewrite (proj2 (Z.eqb_neq _ _)); [apply IH; lia|]. intros E%pos_inj; lia. }
  apply (Hgo j); lia.
Qed.

(** A node of [k] is where the probe for it ends. *)
Lemma stops_at_key t k j h v : ft_inv t -> stops (ft_nodes t) k j -> ft_nodes t !! h = Some (k, v) -> h = pos k j.
Proof using Hcap.
  intros Hi (Hj & Hp & Hk) Hh. destruct (fi_reach _ Hi _ _ _ Hh) as (i & Hic & -> & Hpi).
  destruct (lt_eq_lt_dec i j) as [[Hlt| ->]|Hlt]; [|done|].
  - destruct (Hp i Hlt) as (k' & v' & E & Hne). congruence.
  - destruct (Hpi j Hlt) as (k' & v' & E & Hne). by destruct (Hne (Hk _ _ E)).
Qed.

(** [t] holds the map [m]. *)
Record ft_rep t (m : gmap Z V) : Prop := {
  fr_inv : ft_inv t;
  fr_room : ft_size t < cap;
  fr_size : size m = size (ft_nodes t);
  fr_map k v : m !! k = Some v <-> exists h, ft_nodes t !! h = Some (k, v)
}.

Lemma ft_rep_new : ft_rep ft_new ∅.
Proof using Hcap.
  split; [split|cbn; lia|done|]; cbn; try (intros *; rewrite lookup_empty; done); [done|].
  intros k v. rewrite lookup_empty. split; [done|]. intros [h Hh]. by rewrite lookup_empty in Hh.
Qed.

Lemma ft_rep_stops t m k : ft_rep t m -> exists j, stops (ft_nodes t) k j /\ m !! k = snd <$> ft_nodes t !! pos k j.
Proof using Hcap.
  intros [Hi Hr _ Hm]. destruct (stops_exists (ft_nodes t) k) as [j Hj]; [apply Hi|rewrite <-(fi_size _ Hi); done|].
  exists j. split; [done|]. destruct (ft_nodes t !! pos k j) as [[k' v]|] eqn:E.
  - destruct Hj as (_ & _ & Hk). rewrite (Hk _ _ E) in E. cbn. apply Hm. eauto.
  - cbn. apply eq_None_not_Some. intros [v Hv]. apply Hm in Hv as [h Hh].
    pose proof (stops_at_key _ _ _ _ _ Hi Hj Hh). congruence.
Qed.

Lemma ft_Find_rep t m k : ft_rep t m -> ft_Find cap Hash k t = m !! k.
Proof using Hcap.
  intros Hrep. destruct (ft_rep_stops t m k Hrep) as (j & Hj & ->). unfold ft_Find.
  rewrite (proj2 (Z.eqb_neq cap 0)), orb_false_r by lia. destruct (Z.eqb_spec (ft_size t) 0) as [Hz|_].
  - rewrite (fi_size _ (fr_inv _ _ Hrep)) in Hz. assert (ft_nodes t = ∅) as -> by (apply map_size_empty_inv; lia).
    by rewrite lookup_empty.
  - by apply find_stops.
Qed.

Lemma ft_inv_insert t k v j :
  ft_inv t -> stops (ft_nodes t) k j -> ft_nodes t !! pos k j = None ->
  ft_inv (MkFht (<[pos k j := (k, v)]> (ft_nodes t)) (ft_size t + 1)).
Proof using Hcap.
  intros Hi (Hj & Hp & _) Hn. split; cbn [ft_nodes ft_size].
  - intros h kv [[<- _]|[_ Hh]]%lookup_insert_Some; [apply Z.mod_pos_bound; lia|by apply (fi_range _ Hi h kv)].
  - rewrite map_size_insert_None by done. rewrite (fi_size _ Hi). lia.
  - assert (forall k' i, passed (ft_nodes t) k' i -> passed (<[pos k j:=(k, v)]> (ft_nodes t)) k' i) as Hmono.
    { intros k' i H' i' Hi'. destruct (H' i' Hi') as (k'' & v'' & E & Hne). exists k'', v''. split; [|done].
      rewrite lookup_insert_ne; [done|]. congruence. }
    intros h k' v' [[<- [= -> ->]]|[_ Hh]]%lookup_insert_Some; [eauto|].
    destruct (fi_reach _ Hi _ _ _ Hh) as (i & ? & -> & ?). eauto.
Qed.

Lemma ft_Insert_rep t m k v :
  ft_rep t m ->
  exists t', ft_Insert cap Hash k v t = Some t' /\
    ft_rep t' (if 7 * cap <=? 10 * Z.of_nat (size m) then m else m ∪ {[k := v]}).
Proof using Hcap.
  intros Hrep. pose proof Hrep as [Hi Hr Hs Hm]. unfold ft_Insert.
  rewrite Hs, <-(fi_size _ Hi). destruct (Z.leb_spec (7 * cap) (10 * ft_size t)) as [Hfull|Hroom]; [eauto|].
  destruct (ft_rep_stops t m k Hrep) as (j & Hj & Ek). rewrite (probe_stops _ _ _ Hj). cbn [mbind option_bind].
  destruct (ft_nodes t !! pos k j) as [[k' v']|] eqn:E.
  - eexists. split; [done|]. by rewrite union_singleton, Ek.
  - eexists. split; [done|]. rewrite union_singleton, Ek. cbn in Ek. cbn [fmap option_fmap option_map].
    split; [by apply ft_inv_insert| | |].
    + cbn. rewrite (fi_size _ Hi) in *. lia.
    + cbn. by rewrite !map_size_insert_None, Hs.
    + intros i w. cbn [ft_nodes]. rewrite lookup_insert_Some, Hm. split.
      * intros [[<- <-]|[Hne [h Hh]]]; [exists (pos k j); apply lookup_insert_eq|].
        exists h. rewrite lookup_insert_ne; [done|]. congruence.
      * intros [h [[<- [= <- <-]]|[Hne Hh]]%lookup_insert_Some]; [by left|].
        right. split; [|by eexists]. intros ->. assert (is_Some (m !! i)) as [? ?] by (exists w; apply Hm; eauto). congruence.
Qed.

(** While fewer than seven tenths of its nodes are taken, inserting into the
    fixed table adds the key unless the map already has it; beyond that the
    table stays as it is. The loop of [Insert] always ends, and [Find] is the
    lookup of the map. *)
Theorem fixed_table_refines_map t m k v :
  ft_rep t m ->
  ft_Find cap Hash k t = m !! k /\
  exists t', ft_Insert cap Hash k v t = Some t' /\
    ft_rep t' (if 7 * cap <=? 10 * Z.of_nat (size m) then m else m ∪ {[k := v]}).
Proof using Hcap. intros Hrep. split; [by apply ft_Find_rep|by apply ft_Insert_rep]. Qed.
End table.

(** ** The sink *)

Section sink.
Implicit Types (h : SearchHit) (hs heap : list SearchHit).

(** A score that is a number. *)
Definition is_num h : Prop := f32_nan (h_score h) = false.
Definition hit_key h : Z := f32_key (h_score h).
Definition key_le h1 h2 : Prop := hit_key h1 <= hit_key h2.

Lemma better_key h1 h2 :
  is_num h1 -> is_num h2 -> if IsBetterHit h1 h2 then key_le h2 h1 else key_le h1 h2.
Proof.
  unfold is_num, IsBetterHit, key_le, hit_key, f32_eqb, f32_gtb. intros -> ->. cbn [negb andb].
  destruct (Z.eqb_spec (f32_key (h_score h1)) (f32_key (h_score h2))); cbn [negb].
  - destruct (_ <? _); lia.
  - destruct (Z.ltb_spec (f32_key (h_score h2)) (f32_key (h_score h1))); lia.
Qed.

Lemma worse_key h1 h2 :
  is_num h1 -> is_num h2 -> if WorseHit h1 h2 then key_le h2 h1 else key_le h1 h2.
Proof.
  unfold is_num, WorseHit, key_le, hit_key, f32_eqb, f32_gtb. intros -> ->. cbn [negb andb].
  destruct (Z.eqb_spec (f32_key (h_score h1)) (f32_key (h_score h2))); cbn [negb].
  - destruct (_ <? _); lia.
  - destruct (Z.ltb_spec (f32_key (h_score h2)) (f32_key (h_score h1))); lia.
Qed.

Lemma hits_push_perm h heap : heap_push h heap ≡ₚ h :: heap.
Proof.
  induction heap as [|y heap IH]; [done|]. cbn [heap_push]. destruct (WorseHit y h); [done|].
  rewrite IH. constructor.
Qed.

Lemma hits_push_sorted h heap :
  is_num h -> Forall is_num heap -> StronglySorted key_le heap -> StronglySorted key_le (heap_push h heap).
Proof.
  intros Hh. induction 1 as [|y heap Hy Hn IH]; intros Hs; [repeat constructor|]. cbn [heap_push].
  apply StronglySorted_inv in Hs as [Hs Hall]. pose proof (worse_key y h Hy Hh) as Hw. destruct (WorseHit y h).
  - constructor; [by constructor|]. constructor; [done|]. eapply Forall_impl; [exact Hall|]. unfold key_le in *. lia.
  - constructor; [by apply IH|]. rewrite hits_push_perm. by constructor.
Qed.

(** All hits pushed so far are in the heap or were dropped; the heap has the
    [k] best by score, the worst of them first. *)
Record best_of (k : Z) hs heap : Prop := {
  bo_num : Forall is_num heap;
  bo_sorted : StronglySorted key_le heap;
  bo_len : zlen heap = Z.min k (zlen hs);
  bo_perm : exists dropped, hs ≡ₚ heap ++ dropped /\ Forall (fun d => Forall (key_le d) heap) dropped
}.

Lemma sink_Push_best k hs heap h :
  0 < k -> is_num h -> best_of k hs heap ->
  exists heap', sink_Push (h_id h) (h_score h) (MkSink k heap) = MkSink k heap' /\ best_of k (hs ++ [h]) heap'.
Proof.
  intros Hk Hh [Hn Hs Hl (dropped & Hp & Hd)]. unfold sink_Push. cbn [sk_k sk_heap].
  rewrite (proj2 (Z.eqb_neq k 0)) by lia. replace (MkHit (h_id h) (h_score h)) with h by by destruct h.
  destruct (Z.ltb_spec (zlen heap) k) as [Hroom|Hfull].
  - eexists. split; [done|].
    assert (dropped = []) as ->.
    { apply length_zero_iff_nil. apply Permutation_length in Hp. rewrite length_app in Hp. unfold zlen in *. lia. }
    rewrite app_nil_r in Hp. split.
    + rewrite hits_push_perm. by constructor.
    + by apply hits_push_sorted.
    + unfold zlen in *. rewrite hits_push_perm, length_app. cbn [length]. lia.
    + exists []. split; [|done]. rewrite app_nil_r, hits_push_perm, Hp. by rewrite Permutation_app_comm.
  - destruct heap as [|top rest]; [unfold zlen in *; cbn in *; lia|].
    apply Forall_cons in Hn as [Ht Hn]. pose proof Hs as [Hs' Htop]%StronglySorted_inv.
    pose proof (better_key h top Hh Ht) as Hb. destruct (IsBetterHit h top); eexists; (split; [done|]).
    + split.
      * rewrite hits_push_perm. by constructor.
      * by apply hits_push_sorted.
      * unfold zlen in *. rewrite hits_push_perm, length_app. cbn [length] in *. lia.
      * exists (top :: dropped). split.
        { rewrite hits_push_perm, Hp, Permutation_app_comm. cbn. constructor. apply Permutation_middle. }
        constructor; [rewrite hits_push_perm; by constructor|]. eapply Forall_impl; [exact Hd|].
        intros d [Hdt Hdr]%Forall_cons. rewrite hits_push_perm. constructor; [unfold key_le in *; lia|done].
    + split; [by constructor|done|unfold zlen in *; rewrite length_app; cbn [length] in *; lia|].
      exists (h :: dropped). split; [by rewrite Hp, <-app_assoc, (Permutation_app_comm dropped)|].
      constructor; [|done]. constructor; [done|]. eapply Forall_impl; [exact Htop|]. unfold key_le in *. lia.
Qed.

(** Pushing a list of hits. *)
Definition pushes hs (s : VectorHitSink) : VectorHitSink := fold_left (fun s h => sink_Push (h_id h) (h_score h) s) hs s.

Lemma pushes_app hs1 hs2 s : pushes (hs1 ++ hs2) s = pushes hs2 (pushes hs1 s).
Proof. apply fold_left_app. Qed.

Lemma pushes_best k hs :
  0 < k -> Forall is_num hs -> exists heap, pushes hs (MkSink k []) = MkSink k heap /\ best_of k hs heap.
Proof.
  intros Hk. induction hs as [|h hs IH] using rev_ind; intros Hn.
  - exists []. split; [done|]. split; [constructor|constructor|len|]. by exists [].
  - apply Forall_app in Hn as [Hn Hh%Forall_inv]. destruct (IH Hn) as (heap & E & Hb).
    rewrite pushes_app, E. exact (sink_Push_best k hs heap h Hk Hh Hb).
Qed.
End sink.

(** ** Scanning a built segment *)

Section scan.
Context `{Sidecars} (dim : Z) (es : list SegEntry) (Hseg : seg_ok dim es) (p : path).

Lemma foreach_meta_built i e :
  es !! i = Some e -> foreach_meta (built_reader p dim es) (Z.of_nat i) = Some (Some (se_meta e)).
Proof using Hseg.
  intros Hi. pose proof (lookup_lt_Some _ _ _ Hi) as Hlt. destruct (seg_bounds dim es Hseg) as (Hd & He & Hc & Hf).
  unfold foreach_meta. rewrite (sr_GetMetadata_built dim es Hseg p i e) by done.
  cbn [built_reader sr_metadata_offset sr_data].
  rewrite (proj2 (Z.eqb_neq _ _)) by nia.
  rewrite (rd_offset dim es Hseg) by lia. cbn [mbind option_bind].
  rewrite (u32_id (Z.of_nat i + 1)) by (unfold is_u32; unfold zlen in Hc; lia).
  replace (Z.of_nat i + 1) with (Z.of_nat (S i)) by lia. rewrite (rd_offset dim es Hseg) by lia. cbn [mbind option_bind].
  rewrite (take_S_r _ _ _ Hi). pose proof (meta_bytes_pos (se_meta e)).
  rewrite (proj2 (Z.ltb_lt _ _)); [done|].
  unfold meta_blob. rewrite map_app, concat_app. cbn. rewrite app_nil_r. len.
Qed.

Definition scanned (e : SegEntry) : Z * vec * bool * option Metadata := (se_id e, se_vec e, se_deleted e, Some (se_meta e)).

Lemma sr_ForEach_built : sr_ForEach (built_reader p dim es) = Some (scanned <$> es).
Proof using Hseg.
  unfold sr_ForEach. apply mapM_Some. cbn [built_reader sr_count]. unfold zlen. rewrite Nat2Z.id.
  apply Forall2_fmap_r, Forall2_same_length_lookup_2; [by rewrite length_seq|].
  intros k i e [-> Hlt]%lookup_seq Hi. cbn [Nat.add] in *.
  rewrite (foreach_meta_built k e) by done. cbn [built_reader sr_entries_start_offset sr_entry_size sr_data sr_quant_type sr_dim foreach_vec].
  rewrite (rd_entry_id dim es Hseg k e Hi). destruct (rd_entry_flags dim es Hseg k e Hi) as (fl & -> & Hfl).
  cbn [mbind option_bind]. rewrite Hfl. unfold compose, foreach_vec, scanned. cbn [built_reader sr_quant_type sr_dim sr_data].
  pose proof Hi as Hok. eapply Forall_lookup_1 in Hok; [|apply (so_entries _ _ Hseg)].
  destruct (se_deleted e) eqn:Hdel; [by rewrite (eo_del _ _ Hok Hdel)|].
  change (0 =? kPq8_q) with false. change (0 =? kNone_q) with true. cbn match.
  destruct (rd_entry_vec dim es Hseg k e Hi Hdel) as (b & -> & Hb & _). cbn [mbind option_bind]. by rewrite Hb.
Qed.

(** *** The filter mask *)

Context (beyond_radius : Filter -> Metadata -> bool) (opts : SearchOptions).

(** The mask has room for [n] bits, and they are set as [f] says. *)
Definition mask_is (n : nat) (f : nat -> bool) (m : BitsetMask) : Prop :=
  (n <= 64 * length (bm_words m))%nat /\ forall i, (i < n)%nat -> mask_Test (Z.of_nat i) m = Some (f i).

Lemma word_index i : Z.to_nat (Z.shiftr (Z.of_nat i) 6) = (i / 64)%nat.
Proof. rewrite Z.shiftr_div_pow2 by done. change (2 ^ 6) with (Z.of_nat 64). by rewrite <-Nat2Z.inj_div, Nat2Z.id. Qed.

Lemma bit_index i : Z.land (Z.of_nat i) 63 = Z.of_nat (i mod 64).
Proof. change 63 with (Z.ones 6). rewrite Z.land_ones by done. change (2 ^ 6) with (Z.of_nat 64). by rewrite <-Nat2Z.inj_mod. Qed.

Lemma mask_Test_eq i m :
  mask_Test (Z.of_nat i) m = (fun w => Z.testbit w (Z.of_nat (i mod 64))) <$> bm_words m !! (i / 64)%nat.
Proof.
  unfold mask_Test. rewrite word_index, bit_index. destruct (_ !! _) as [w|]; [|done].
  cbn [mbind option_bind fmap option_fmap option_map].
  by rewrite Z.shiftr_spec, Z.add_0_l by done.
Qed.

Lemma mask_Set_is n f i m :
  mask_is n f m -> (i < n)%nat ->
  exists m', mask_Set (Z.of_nat i) m = Some m' /\ mask_is n (fun j => if decide (j = i) then true else f j) m'.
Proof.
  intros [Hl Hf] Hi. unfold mask_Set. rewrite word_index, bit_index.
  assert (forall j, (j < n)%nat -> (j / 64 < length (bm_words m))%nat) as Hw.
  { intros j Hj. apply Nat.Div0.div_lt_upper_bound. lia. }
  destruct (lookup_lt_is_Some_2 (bm_words m) (i / 64)) as [w Ew]; [by apply Hw|]. rewrite Ew. cbn [mbind option_bind].
  eexists. split; [done|]. split; [cbn; by rewrite length_insert|]. intros j Hj. specialize (Hf j Hj).
  rewrite mask_Test_eq in Hf |- *. cbn [bm_words]. destruct (decide (j / 64 = i / 64)%nat) as [E|E].
  - rewrite E in Hf |- *. rewrite Ew in Hf. rewrite list_lookup_insert_eq by by apply Hw.
    cbn [fmap option_fmap option_map] in *. apply (inj Some) in Hf.
    rewrite Z.lor_spec, Hf, Z.shiftl_1_l, Z.pow2_bits_eqb by lia. f_equal. case_decide as Hji.
    + subst j. by rewrite Z.eqb_refl, orb_true_r.
    + rewrite (proj2 (Z.eqb_neq _ _)), orb_false_r; [done|]. intros Em. apply Hji.
      pose proof (Nat.div_mod_eq j 64). pose proof (Nat.div_mod_eq i 64). lia.
  - rewrite list_lookup_insert_ne by done. rewrite Hf. case_decide as Hji; [by subst|done].
Qed.

Lemma mask_new_is n : Z.of_nat n < 2 ^ 32 - 63 -> mask_is n (fun _ => false) (mask_new (Z.of_nat n)).
Proof.
  intros Hn. unfold mask_is, mask_new, mask_words. cbn [bm_words]. rewrite length_replicate, u32_id by (unfold is_u32; lia).
  replace (Z.to_nat ((Z.of_nat n + 63) / 64)) with ((n + 63) / 64)%nat
    by (change 63 with (Z.of_nat 63); change 64 with (Z.of_nat 64); by rewrite <-Nat2Z.inj_add, <-Nat2Z.inj_div, Nat2Z.id).
  pose proof (Nat.div_mod_eq (n + 63) 64). pose proof (Nat.mod_upper_bound (n + 63) 64).
  split; [lia|]. intros i Hi. rewrite mask_Test_eq. cbn [bm_words].
  rewrite lookup_replicate_2 by (apply Nat.Div0.div_lt_upper_bound; lia). cbn. by rewrite Z.testbit_0_l.
Qed.

Definition selected (i : nat) : bool :=
  match es !! i with Some e => negb (se_deleted e) && opts_Matches beyond_radius opts (se_meta e) | None => false end.

Lemma mask_scan_each n : forall k m meta,
  (k + n = length es)%nat -> mask_is (length es) (fun j => if decide (j < k)%nat then selected j else false) m ->
  exists m' meta', each (mask_scan beyond_radius (built_reader p dim es) opts) (seq k n) (m, meta) = Some (m', meta') /\
    mask_is (length es) selected m'.
Proof using Hseg.
  induction n as [|n IH]; intros k m meta Hk Hm; cbn [seq each].
  { eexists _, _. split; [done|]. destruct Hm as [Hl Hf]. split; [done|]. intros i Hi. rewrite Hf by done.
    by rewrite decide_True by lia. }
  destruct (lookup_lt_is_Some_2 es k) as [e He]; [lia|].
  assert (mask_scan beyond_radius (built_reader p dim es) opts k (m, meta) =
    if selected k then m ← mask_Set (Z.of_nat k) m; Some (m, se_meta e) else Some (m, se_meta e)) as ->.
  { unfold mask_scan, selected. rewrite (sr_ReadAt_entry dim es Hseg p k e), He by done. cbn [mbind option_bind].
    by destruct (se_deleted e). }
  assert (selected k = false -> mask_is (length es) (fun j => if decide (j < S k)%nat then selected j else false) m) as Hskip.
  { intros Hf. destruct Hm as [Hl Ht]. split; [done|]. intros j Hj. rewrite Ht by done. f_equal.
    repeat case_decide; try done; try lia. by replace j with k by lia. }
  destruct (selected k) eqn:Hsel; cbn [mbind option_bind]; [|by apply IH; [lia|apply Hskip]].
  edestruct (mask_Set_is _ _ k m Hm) as (m' & -> & Hm'); [lia|]. cbn [mbind option_bind]. apply IH; [lia|].
  destruct Hm' as [Hl Ht]. split; [done|]. intros j Hj. rewrite Ht by done. f_equal.
  repeat case_decide; subst; try done; lia.
Qed.

Lemma BuildFromSegment_built :
  so_filters opts <> [] -> time_filter opts = None ->
  exists m, BuildFromSegment beyond_radius (built_reader p dim es) opts (mask_new (zlen es)) = Some m /\
    mask_is (length es) selected m.
Proof using Hseg.
  intros Hf Ht. destruct (seg_bounds dim es Hseg) as (Hd & He & Hc & Hl).
  pose proof (zlen_nonneg (seg_offsets es)). pose proof (zlen_nonneg (meta_blob es)). pose proof (zlen_nonneg (seg_times es)).
  assert (zlen es < 2 ^ 32 - 63) as Hn by nia. unfold BuildFromSegment. cbn [built_reader sr_count].
  pose proof (mask_new_is (length es) Hn) as Hm. fold (zlen es) in Hm.
  destruct (Z.eqb_spec (zlen es) 0) as [Hz|_].
  { eexists. split; [done|]. destruct Hm as [? _]. split; [done|]. unfold zlen in Hz. lia. }
  rewrite Z.ltb_irrefl, bool_decide_eq_false_2, Ht by done.
  replace (MkMask _ _) with (mask_new (zlen es)).
  2:{ unfold mask_new, mask_words. cbn [bm_n bm_words]. f_equal. by rewrite fmap_replicate. }
  unfold zlen at 1. rewrite Nat2Z.id.
  destruct (mask_scan_each (length es) 0 (mask_new (zlen es)) md_default) as (m & meta & E & Hsel); [lia|done|].
  exists m. cbn [Z.to_nat] in E. by rewrite E.
Qed.
End scan.

(** ** Lists and loops *)

Lemma fmap_bind {A B C} (f : B -> C) (g : A -> list B) l : f <$> (l ≫= g) = l ≫= (fun x => f <$> g x).
Proof. induction l as [|x l IH]; [done|]. cbn. by rewrite fmap_app, <-IH. Qed.

Lemma filter_bind {A B} (P : B -> Prop) `{forall x, Decision (P x)} (g : A -> list B) l :
  filter P (l ≫= g) = l ≫= (fun x => filter P (g x)).
Proof. induction l as [|x l IH]; [done|]. cbn. by rewrite filter_app, <-IH. Qed.

Lemma and_iff_compat_r' (P Q R : Prop) : (R -> (P <-> Q)) -> (P /\ R) <-> (Q /\ R).
Proof. tauto. Qed.

Lemma nodup_fmap_inj {A B} (f : A -> B) l x y : NoDup (f <$> l) -> x ∈ l -> y ∈ l -> f x = f y -> x = y.
Proof.
  intros Hnd [i Hi]%list_elem_of_lookup [j Hj]%list_elem_of_lookup E.
  assert (i = j) as ->; [|congruence].
  apply (NoDup_lookup _ i j (f x) Hnd); rewrite list_lookup_fmap, ?Hi, ?Hj; cbn; congruence.
Qed.

Lemma each_app {A S} (f : A -> S -> option S) l1 l2 : forall s, each f (l1 ++ l2) s = each f l1 s ≫= each f l2.
Proof. induction l1 as [|x l1 IH]; intros s; [done|]. cbn. destruct (f x s); [apply IH|done]. Qed.

Lemma each_bind {A B S} (f : B -> S -> option S) (g : A -> list B) l : forall s, each f (l ≫= g) s = each (fun x => each f (g x)) l s.
Proof.
  induction l as [|x l IH]; intros s; [done|]. cbn. rewrite each_app. destruct (each f (g x) s); [apply IH|done].
Qed.

Lemma each_ext {A S} (f g : A -> S -> option S) l : forall s,
  Forall (fun x => forall s, f x s = g x s) l -> each f l s = each g l s.
Proof.
  induction l as [|x l IH]; intros s; [done|]. intros [Hx Hl]%Forall_cons. cbn. rewrite Hx. destruct (g x s); [by apply IH|done].
Qed.

(** ** Scoring the layers *)

Lemma zip_fmap {A B C} (f : B -> C) (l : list A) : forall k, zip l (f <$> k) = prod_map id f <$> zip l k.
Proof. induction l as [|x l IH]; intros [|y k]; cbn; [done..|]. f_equal. apply IH. Qed.

Lemma each_fmap {A B S} (g : A -> B) (f : B -> S -> option S) l : forall s, each f (g <$> l) s = each (fun x => f (g x)) l s.
Proof. induction l as [|x l IH]; intros s; [done|]. cbn. destruct (f (g x) s); [apply IH|done]. Qed.

Section layers.
Context {T : Type} `{IdMapLaws T (option bytes)} `{F32} `{Sidecars} `{Kernels}.
Context (Hash : Z -> Z) (beyond_radius : Filter -> Metadata -> bool) (metric : MetricType) (ip : IndexParams) (dim ttl now : Z).
Context (query : vec) (qsum topk : Z) (opts : SearchOptions) (use_visibility : bool) (p : SearchMergePolicy).
Context (vis : Layer -> SegEntry -> bool).

(** The policy answers for these entries as [vis] says and stays the same. *)
Definition sees (source : Layer) (es : list SegEntry) : Prop :=
  Forall (fun e => check_visible Hash use_visibility (se_id e) source (se_deleted e) p = Some (vis source e, p)) es.

Definition matches (e : SegEntry) : bool :=
  negb (se_deleted e) && negb (VectorMetaExpired ttl now (se_meta e)) && opts_Matches beyond_radius opts (se_meta e).
Definition hit_of (e : SegEntry) : SearchHit := MkHit (se_id e) (score_of metric query (se_vec e)).
Definition layer_hits (layer : Layer * list SegEntry) : list SearchHit :=
  hit_of <$> filter (fun e => vis layer.1 e && matches e) layer.2.

Lemma each_hits {A} (f : A -> SearchState -> option SearchState) (e : A -> SegEntry) source l : forall sink,
  Forall (fun x => forall sink, f x (p, sink) = Some (p, if vis source (e x) && matches (e x) then pushes [hit_of (e x)] sink else sink)) l ->
  each f l (p, sink) = Some (p, pushes (layer_hits (source, e <$> l)) sink).
Proof.
  induction l as [|x l IH]; intros sink; [done|]. intros [Hx Hl]%Forall_cons. cbn [each]. rewrite Hx. cbn [mbind option_bind].
  rewrite IH by done. unfold layer_hits. cbn [fst snd]. rewrite fmap_cons, filter_cons.
  destruct (vis source (e x) && matches (e x)); [|done]. rewrite decide_True by done. by rewrite fmap_cons.
Qed.

Lemma score_memtable_hits source (m : MemTable T) sink :
  time_filter opts = None -> sees source (mem_entries m) ->
  score_memtable Hash beyond_radius metric dim ttl sink_Push query opts use_visibility now source m (p, sink) =
  Some (p, pushes (layer_hits (source, mem_entries m)) sink).
Proof.
  intros Ht Hs. unfold score_memtable. rewrite Ht. unfold sees, mem_entries in *. rewrite Forall_fmap in Hs.
  apply (each_hits _ to_seg). eapply Forall_impl; [exact Hs|]. intros e He sk. cbn in He. unfold score_mem_entry.
  rewrite He. cbn [mbind option_bind]. unfold matches, hit_of, pushes, to_seg. cbn.
  destruct (vis _ _); [|done]. destruct (ce_is_deleted e); [done|]. cbn.
  by destruct (VectorMetaExpired _ _ _), (opts_Matches _ _ _).
Qed.

(** The segment is scanned, not searched through an approximate index. *)
Definition scans (seg : SegmentReader) : Prop :=
  sr_count seg < ip_adaptive_threshold ip \/ (sc_index seg = None /\ sc_hnsw seg = None).

(** A search on the newest data: the options that segments only apply together
    with filters are not set, unless there are filters. *)
Definition scoped : Prop :=
  so_filters opts <> [] \/
  (so_as_of_ts opts = 0 /\ so_as_of_lsn opts = 0 /\ so_partition_device_id opts = [] /\ so_partition_location_id opts = []).

Lemma scoped_matches meta : scoped -> so_filters opts = [] -> opts_Matches beyond_radius opts meta = true.
Proof. intros [?|(Ha & Hb & Hc & Hd)] Hf; [done|]. unfold opts_Matches. by rewrite Ha, Hb, Hc, Hd, Hf. Qed.

Lemma not_fast path es sink :
  scans (built_reader path dim es) ->
  fast_path metric ip dim sink_Push query qsum topk opts (built_reader path dim es) (p, sink) = Some None.
Proof.
  intros Hs. unfold fast_path. destruct Hs as [Hs|[Hi Hh]].
  - rewrite (proj2 (Z.leb_gt _ _)) by done. done.
  - rewrite Hh. by destruct (_ <=? _).
Qed.

Lemma no_candidates seg : scans seg -> candidates ip query opts seg = [].
Proof.
  intros [Hs|[Hi _]]; unfold candidates.
  - by rewrite (proj2 (Z.leb_gt _ _)) by done.
  - rewrite Hi, andb_comm. done.
Qed.

Lemma score_segment_hits source path es sink :
  time_filter opts = None -> scoped -> seg_ok dim es -> scans (built_reader path dim es) -> sees source es ->
  Forall (fun e => vis source e = true -> VectorMetaExpired ttl now (se_meta e) = false) es ->
  score_segment Hash beyond_radius metric ip dim sink_Push query qsum topk opts use_visibility source (built_reader path dim es) (p, sink) =
  Some (p, pushes (layer_hits (source, es)) sink).
Proof.
  intros Ht Hsc Hseg Hscan Hsees Hexp. unfold score_segment. rewrite no_candidates, not_fast by done.
  assert (exists mask, (if has_filters opts then BuildFromSegment beyond_radius (built_reader path dim es) opts
      (mask_new (sr_count (built_reader path dim es))) else Some (mask_new (sr_count (built_reader path dim es)))) = Some mask /\
    forall i e, es !! i = Some e -> se_deleted e = false ->
      masked_out opts mask (Z.of_nat i) = Some (negb (opts_Matches beyond_radius opts (se_meta e)))) as (mask & -> & Hmask).
  { unfold masked_out, has_filters. case_bool_decide as Hf; cbn [negb].
    - eexists. split; [done|]. intros i e _ _. by rewrite scoped_matches.
    - destruct (BuildFromSegment_built dim es Hseg path beyond_radius opts Hf Ht) as (m & E & _ & Hm).
      exists m. split; [exact E|]. intros i e Hi Hd. rewrite Hm by by eapply lookup_lt_Some.
      unfold selected. by rewrite Hi, Hd. }
  cbn [mbind option_bind]. replace (if negb use_visibility && negb (has_filters opts) then Some None else Some None)
    with (@Some (option (@SearchState VectorHitSink)) None) by by destruct (_ && _).
  cbn [mbind option_bind]. rewrite (sr_ForEach_built dim es Hseg path). cbn [mbind option_bind]. rewrite length_fmap.
  set (l := zip (seq 0 (length es)) es).
  assert (zip (seq 0 (length es)) (scanned <$> es) = prod_map id scanned <$> l) as ->.
  { apply zip_fmap. }
  assert (es = snd <$> l) as El by (unfold l; rewrite snd_zip; [done|by rewrite length_seq]).
  rewrite each_fmap, El. apply each_hits. apply Forall_forall. intros [i e] Hin sk.
  apply list_elem_of_lookup in Hin as [k Hk]. unfold l in Hk. apply lookup_zip_Some in Hk as [[-> Hlt]%lookup_seq He].
  cbn [prod_map fst snd id scanned score_scanned Nat.add]. unfold offer.
  pose proof (Forall_lookup_1 _ _ _ _ Hsees He) as Hv. cbn beta in Hv. rewrite Hv. cbn [mbind option_bind].
  pose proof (Forall_lookup_1 _ _ _ _ Hexp He) as Hx. cbn beta in Hx. unfold matches.
  destruct (vis source e); [|done]. rewrite Hx by done. cbn [negb andb].
  destruct (se_deleted e) eqn:Hd; [done|]. rewrite (Hmask k e) by done. cbn [mbind option_bind negb andb].
  by destruct (opts_Matches _ _ _).
Qed.

(** Scoring layer after layer. *)
Lemma each_layers {A} (f : A -> SearchState -> option SearchState) (view : A -> Layer * list SegEntry) l : forall sink,
  Forall (fun x => forall sink, f x (p, sink) = Some (p, pushes (layer_hits (view x)) sink)) l ->
  each f l (p, sink) = Some (p, pushes ((view <$> l) ≫= layer_hits) sink).
Proof.
  induction l as [|x l IH]; intros sink; [done|]. intros [Hx Hl]%Forall_cons. cbn [each]. rewrite Hx. cbn [mbind option_bind].
  rewrite IH by done. cbn. by rewrite pushes_app.
Qed.
End layers.

(** ** The layers of a shard *)

Section shard.
Context {T : Type} `{IdMapLaws T (option bytes)} `{F32} `{Sidecars} `{Kernels}.
Context (Hash : Z -> Z) (beyond_radius : Filter -> Metadata -> bool) (metric : MetricType) (ip : IndexParams) (dim ttl now : Z).
Context (active : MemTable T) (snap : VectorSnapshot T) (chunks : list (path * list SegEntry)).
Context (Hsegs : vs_segments snap = (fun '(path, es) => seg_of path dim es) <$> chunks) (Hchunks : Forall (chunk_ok dim) chunks.*2).

Definition tagged_chunks : list (Layer * (path * list SegEntry)) := imap (fun i c => (LSegment i, c)) chunks.

(** The entries of the layers, the newest layer first. *)
Definition views : list (Layer * list SegEntry) :=
  (LActive, mem_entries active) :: (prod_map id mem_entries <$> frozen_layers snap) ++
  (prod_map id (fun c => merge_sort id_le c.2) <$> tagged_chunks).

Lemma segment_layers_eq : segment_layers snap = (fun '(l, (path, es)) => (l, seg_of path dim es)) <$> tagged_chunks.
Proof using Hsegs.
  unfold segment_layers, tagged_chunks. rewrite Hsegs, imap_fmap, fmap_imap. apply imap_ext. by intros i [path es].
Qed.

Lemma tagged_chunks_snd : tagged_chunks.*2 = chunks.
Proof. unfold tagged_chunks. rewrite fmap_imap. rewrite <-(list_fmap_id chunks) at 2. exact (imap_const id chunks). Qed.

Lemma tagged_chunk_ok l path es : (l, (path, es)) ∈ tagged_chunks -> chunk_ok dim es.
Proof using Hchunks.
  intros Hin. rewrite Forall_forall in Hchunks. apply Hchunks. rewrite <-tagged_chunks_snd.
  apply list_elem_of_fmap. exists (path, es). split; [done|]. apply list_elem_of_fmap. by exists (l, (path, es)).
Qed.

Section query.
Context (query : vec) (qsum topk : Z) (opts : SearchOptions) (use_visibility : bool) (p : SearchMergePolicy).
Context (vis : Layer -> SegEntry -> bool).

Lemma local_hits sink :
  time_filter opts = None -> scoped opts -> Forall (scans ip) (vs_segments snap) ->
  Forall (fun v => sees Hash use_visibility p vis v.1 v.2) views ->
  Forall (fun v => Forall (fun e => vis v.1 e = true -> VectorMetaExpired ttl now (se_meta e) = false) v.2) views ->
  SearchLocalInternal Hash beyond_radius metric ip dim ttl sink_Push query qsum topk opts use_visibility now active snap (p, sink) =
  Some (p, pushes (views ≫= layer_hits beyond_radius metric ttl now query opts vis) sink).
Proof using Hsegs Hchunks.
  intros Ht Hsc Hscan [Ha [Hf Hs]%Forall_app]%Forall_cons [_ [_ He]%Forall_app]%Forall_cons. unfold SearchLocalInternal.
  rewrite (score_memtable_hits _ beyond_radius metric dim ttl now query opts use_visibility p vis) by done.
  cbn [mbind option_bind]. rewrite Forall_fmap in Hf. rewrite Forall_fmap in Hs. rewrite Forall_fmap in He.
  rewrite (each_layers beyond_radius metric ttl now query opts p vis _ (prod_map id mem_entries)).
  2:{ eapply Forall_impl; [exact Hf|]. intros [l m] Hm sk. by apply score_memtable_hits. }
  cbn [mbind option_bind]. rewrite segment_layers_eq, each_fmap.
  rewrite (each_layers beyond_radius metric ttl now query opts p vis _ (prod_map id (fun c => merge_sort id_le c.2))).
  2:{ apply Forall_forall. intros [l [path es]] Hin sk. rewrite Forall_forall in Hs. rewrite Forall_forall in He. rewrite Forall_forall in Hscan.
      pose proof (tagged_chunk_ok _ _ _ Hin) as [_ Hok]. specialize (Hs _ Hin). specialize (He _ Hin). cbn in Hs, He.
      apply score_segment_hits; [done..| |done|done]. apply Hscan. rewrite Hsegs. apply list_elem_of_fmap.
      exists (path, es). split; [done|]. rewrite <-tagged_chunks_snd. apply list_elem_of_fmap. by exists (l, (path, es)). }
  f_equal. f_equal. unfold views. rewrite bind_cons, bind_app. rewrite !pushes_app. done.
Qed.
End query.

(** *** Which version is the newest *)

Definition tagged : list (Layer * SegEntry) := views ≫= (fun v => pair v.1 <$> v.2).

(** The visibility entry of an entry. *)
Definition vis_entry (te : Layer * SegEntry) : VisibilityEntry :=
  MkVis (se_deleted te.2 || VectorMetaExpired ttl now (se_meta te.2)) te.1.

Definition record_entry (te : Layer * SegEntry) (p : SearchMergePolicy) : option SearchMergePolicy :=
  RecordIfUnresolved Hash (se_id te.2) (ve_is_tombstone (vis_entry te)) te.1 p.

Lemma newest_wins_tagged : newest_wins Hash ttl now active snap = each record_entry tagged ft_new.
Proof using Hsegs Hchunks.
  assert (forall l m p, record_mem Hash ttl now l m p = each record_entry (pair l <$> mem_entries m) p) as Hm.
  { intros l m p. unfold record_mem, mem_entries. rewrite !each_fmap. by apply each_ext, Forall_forall. }
  unfold tagged, views, newest_wins. rewrite bind_cons, bind_app, each_app. rewrite Hm.
  apply option_bind_ext_fun. intros p. rewrite each_app. apply option_bind_ext.
  2:{ rewrite each_bind, each_fmap. apply each_ext, Forall_forall. intros [l m] _ q. apply Hm. }
  intros q. rewrite each_bind, each_fmap.
  rewrite segment_layers_eq, each_fmap. apply each_ext, Forall_forall. intros [l [path es]] Hin q'.
  pose proof (tagged_chunk_ok _ _ _ Hin) as [_ Hok]. cbn [fst snd prod_map id]. unfold record_seg.
  rewrite (sr_ForEach_built dim _ Hok path). cbn [mbind option_bind]. rewrite !each_fmap. by apply each_ext, Forall_forall.
Qed.

(** The newest version of an identifier with its layer. *)
Definition newest (id : Z) : option (Layer * SegEntry) := snd <$> list_find (fun te => se_id te.2 = id) tagged.

(** Recording a list of entries keeps the first of each identifier. *)
Lemma record_rep tes : forall p m,
  ft_rep kVisibilityCapacity Hash p m -> Z.of_nat (size m + length tes) <= 91751 ->
  exists p' m', each record_entry tes p = Some p' /\ ft_rep kVisibilityCapacity Hash p' m' /\
    forall id, m' !! id = match m !! id with
                          | Some v => Some v
                          | None => vis_entry ∘ snd <$> list_find (fun te => se_id te.2 = id) tes
                          end.
Proof.
  induction tes as [|te tes IH]; intros p m Hp Hl.
  { exists p, m. split_and!; [done..|]. intros id. cbn. by destruct (m !! id). }
  cbn [each length] in *.
  destruct (ft_Insert_rep kVisibilityCapacity Hash ltac:(done) p m (se_id te.2) (vis_entry te) Hp) as (p' & E & Hp').
  destruct te as [l e]. assert (record_entry (l, e) p = Some p') as -> by exact E. cbn [fst snd mbind option_bind] in *.
  rewrite (proj2 (Z.leb_gt _ _)) in Hp' by (unfold kVisibilityCapacity; lia).
  destruct (IH p' _ Hp') as (p'' & m'' & E' & Hp'' & Hm'').
  { assert (size (m ∪ {[se_id e := vis_entry (l, e)]}) <= S (size m))%nat; [|lia].
    rewrite union_singleton. destruct (m !! se_id e) eqn:Em; [lia|]. by rewrite map_size_insert_None. }
  exists p'', m''. split_and!; [done..|]. intros id. rewrite Hm'', lookup_union. cbn [list_find fst snd].
  destruct (decide (se_id e = id)) as [<-|Hne].
  - rewrite lookup_singleton_eq. by destruct (m !! se_id e).
  - rewrite lookup_singleton_ne by done. destruct (m !! id); [done|]. cbn.
    by destruct (list_find _ tes) as [[? ?]|].
Qed.

Lemma newest_Some id te : newest id = Some te -> te ∈ tagged /\ se_id te.2 = id.
Proof.
  unfold newest. intros ([i te'] & (Hi & Hid & _)%list_find_Some & ->)%fmap_Some.
  split; [by eapply list_elem_of_lookup_2|done].
Qed.

Lemma newest_exists te : te ∈ tagged -> exists te', newest (se_id te.2) = Some te'.
Proof.
  intros Hin. destruct (list_find_elem_of (fun x => se_id x.2 = se_id te.2) tagged te Hin eq_refl) as [[i te'] E].
  exists te'. unfold newest. by rewrite E.
Qed.

(** *** Identifiers are distinct inside a layer *)

Context (Hactive : mem_ok dim active) (Hfrozen : Forall (mem_ok dim) (vs_frozen_memtables snap)).

Lemma views_tags : NoDup views.*1.
Proof.
  assert (forall A (l : list A) (c : nat -> Layer), (forall i j, c i = c j -> i = j) -> NoDup (imap (fun i _ => c i) l)) as Htags.
  { intros A l c Hc. apply NoDup_alt. intros i j x Hi Hj. rewrite list_lookup_imap in Hi, Hj.
    destruct (l !! i), (l !! j); cbn in *; simplify_eq; eauto. }
  unfold views, frozen_layers, tagged_chunks. rewrite fmap_cons, fmap_app, <-!list_fmap_compose. cbn [fst].
  rewrite fmap_reverse, !fmap_imap. apply NoDup_cons. split; [|apply NoDup_app; split_and!].
  - intros [(i & x & E & _)%elem_of_reverse%elem_of_lookup_imap_1|(i & x & E & _)%elem_of_lookup_imap_1]%elem_of_app; done.
  - rewrite reverse_Permutation. apply (Htags _ _ LFrozen). by intros i j [=].
  - intros x (i & y & -> & _)%elem_of_reverse%elem_of_lookup_imap_1 (j & z & E & _)%elem_of_lookup_imap_1. done.
  - apply (Htags _ _ LSegment). by intros i j [=].
Qed.

Lemma views_ids : Forall (fun v => NoDup (se_id <$> v.2)) views.
Proof using H0 Hactive Hfrozen Hchunks.
  constructor; [by eapply mem_entries_nodup|]. apply Forall_app. split; apply Forall_fmap, Forall_forall.
  - intros [l m] Hin. cbn. apply (mem_entries_nodup dim). rewrite Forall_forall in Hfrozen. apply Hfrozen.
    apply elem_of_reverse, elem_of_lookup_imap_1 in Hin as (i & x & [= -> ->] & Hx). by eapply list_elem_of_lookup_2.
  - intros [l [path es]] Hin. cbn. destruct (tagged_chunk_ok _ _ _ Hin) as [Hnd _]. by rewrite merge_sort_Permutation.
Qed.

Lemma tagged_nodup : NoDup ((fun te => (te.1, se_id te.2)) <$> tagged).
Proof using H0 Hactive Hfrozen Hchunks.
  unfold tagged. rewrite fmap_bind. pose proof views_tags as Ht. pose proof views_ids as Hi. rewrite Forall_forall in Hi.
  apply NoDup_bind.
  - intros v1 v2 y H1' H2' Hy1 Hy2. rewrite <-list_fmap_compose in Hy1, Hy2.
    apply list_elem_of_fmap in Hy1 as (e1 & -> & _), Hy2 as (e2 & E & _). cbn in E. injection E as E _.
    by apply (nodup_fmap_inj fst views).
  - intros v Hin. rewrite <-list_fmap_compose. apply (NoDup_fmap_1 snd). rewrite <-list_fmap_compose. by apply Hi.
  - by eapply NoDup_fmap_1.
Qed.

(** *** What is visible *)

Context (use_visibility : bool).

(** The search either records versions, or there is a single segment and no TTL. *)
Definition single : Prop := NoDup (se_id ∘ snd <$> tagged) /\ ttl <= 0.
Context (Huse : use_visibility = false -> single).

Definition vis_of (l : Layer) (e : SegEntry) : bool :=
  if use_visibility then
    match newest (se_id e) with
    | Some te => bool_decide (te.1 = l) && negb (ve_is_tombstone (vis_entry te))
    | None => false
    end
  else true.

Lemma vis_of_unexpired l e : vis_of l e = true -> (l, e) ∈ tagged -> VectorMetaExpired ttl now (se_meta e) = false.
Proof using H0 Huse Hactive Hfrozen Hchunks.
  intros Hv Hin. unfold vis_of in Hv. destruct use_visibility.
  - destruct (newest (se_id e)) as [[l' e']|] eqn:En; [|done]. cbn in Hv.
    apply andb_prop in Hv as [->%bool_decide_eq_true [_ Hx]%negb_true_iff%orb_false_elim].
    apply newest_Some in En as [Hin' Hid]. cbn in Hid.
    assert ((l, e') = (l, e)) as [= ->]; [|done]. apply (nodup_fmap_inj _ _ _ _ tagged_nodup); [done..|]. cbn. congruence.
  - destruct Huse as [_ Ht]; [done|]. unfold VectorMetaExpired. by rewrite (proj2 (Z.ltb_ge 0 ttl)) by done.
Qed.

Section matching.
Context (opts : SearchOptions).
Abbreviation fits_query := (matches beyond_radius ttl now opts).

Lemma visible_newest te :
  te ∈ tagged -> vis_of te.1 te.2 && fits_query te.2 = true <-> newest (se_id te.2) = Some te /\ fits_query te.2 = true.
Proof using H0 Huse Hactive Hfrozen Hchunks.
  intros Hin. destruct (newest_exists te Hin) as [te' En]. pose proof (newest_Some _ _ En) as [Hin' Hid].
  unfold vis_of. rewrite En, andb_true_iff. apply and_iff_compat_r'. intros Hm. destruct use_visibility.
  - rewrite andb_true_iff, bool_decide_eq_true. split.
    + intros [El _]. f_equal. apply (nodup_fmap_inj _ _ _ _ tagged_nodup); [done..|]. cbn. congruence.
    + intros [= ->]. split; [done|]. unfold matches in Hm. cbn.
      destruct (se_deleted te.2); [done|]. by destruct (VectorMetaExpired _ _ _).
  - split; [|done]. intros _. f_equal. destruct Huse as [Hnd _]; [done|]. by apply (nodup_fmap_inj _ _ _ _ Hnd).
Qed.

Context (metric' : MetricType) (query : vec).
Abbreviation all_hits := (views ≫= layer_hits beyond_radius metric' ttl now query opts vis_of).

Lemma all_hits_eq :
  all_hits = hit_of metric' query ∘ snd <$> filter (fun te => vis_of te.1 te.2 && fits_query te.2) tagged.
Proof.
  unfold tagged. rewrite filter_bind, fmap_bind. apply list_bind_ext; [|done]. intros [l es]. unfold layer_hits. cbn [fst snd].
  induction es as [|e es IH]; [done|]. rewrite fmap_cons, !filter_cons. cbn [fst snd].
  case_decide; rewrite ?fmap_cons; by rewrite IH.
Qed.

Lemma all_hits_nodup : NoDup (h_id <$> all_hits).
Proof using H0 Huse Hactive Hfrozen Hchunks.
  rewrite all_hits_eq, <-list_fmap_compose. apply NoDup_fmap_2_strong.
  - intros x y [Hx Hx']%list_elem_of_filter [Hy Hy']%list_elem_of_filter E. cbn in E.
    apply Is_true_true, visible_newest in Hx as [Hx _]; [|done]. apply Is_true_true, visible_newest in Hy as [Hy _]; [|done].
    congruence.
  - apply NoDup_filter. exact (NoDup_fmap_1 _ _ tagged_nodup).
Qed.

Lemma all_hits_elem h :
  h ∈ all_hits <-> exists te, newest (h_id h) = Some te /\ fits_query te.2 = true /\ h = hit_of metric' query te.2.
Proof using H0 Huse Hactive Hfrozen Hchunks.
  rewrite all_hits_eq, list_elem_of_fmap. split.
  - intros (te & -> & [Hv Hin]%list_elem_of_filter). apply Is_true_true, visible_newest in Hv as [Hn Hm]; [|done]. by exists te.
  - intros (te & Hn & Hm & ->). cbn in Hn. exists te. split; [done|]. apply list_elem_of_filter.
    pose proof (newest_Some _ _ Hn) as [Hin _]. split; [|done]. by apply Is_true_true, visible_newest.
Qed.
End matching.
End shard.

(** ** Searches are exact *)

Section exact.
Context {T : Type} `{IdMapLaws T (option bytes)} `{F32} `{Sidecars} `{Kernels} `{HitSort}.
Context (quant_decode : SegmentReader -> bytes -> vec).
Context (Hash : Z -> Z) (beyond_radius : Filter -> Metadata -> bool) (metric : MetricType) (ip : IndexParams).
Implicit Types r : VectorRuntime T.

(** All entries of a shard whose segments hold [chunks], newest layer first. *)
Definition entries_of r (chunks : list (path * list SegEntry)) : list SegEntry :=
  ((rt_mem r :: reverse (rt_frozen_mem r)) ≫= mem_entries) ++ concat (merge_sort id_le <$> chunks.*2).

(** A shard that an exact search covers: the segments are as built and scanned,
    the hash table has room for all entries, and scores are numbers. *)
Record searchable r (chunks : list (path * list SegEntry)) (query : vec) : Prop := {
  se_inv : rt_inv r;
  se_dim : 0 < rc_dim (rt_conf r);
  se_segs : rt_segments r = (fun '(path, es) => seg_of path (rc_dim (rt_conf r)) es) <$> chunks;
  se_chunks : Forall (chunk_ok (rc_dim (rt_conf r))) chunks.*2;
  se_scans : Forall (scans ip) (rt_segments r);
  se_room : zlen (entries_of r chunks) <= 91751;
  se_ids : Forall (fun e => id_ok (se_id e)) (entries_of r chunks);
  se_nums : Forall (fun e => f32_nan (score_of metric query (se_vec e)) = false) (entries_of r chunks)
}.

(** A vector that a lookup finds, that has not expired and that matches, with
    its score. *)
Definition eligible r (now : Z) (query : vec) (opts : SearchOptions) (h : SearchHit) : Prop :=
  id_ok (h_id h) /\
  exists v meta, rt_find quant_decode r (h_id h) = Some (LFound v meta) /\
    VectorMetaExpired (rc_ttl_sec (rt_conf r)) now meta = false /\ opts_Matches beyond_radius opts meta = true /\
    h_score h = score_of metric query v.

Section shard.
Context r (snap : VectorSnapshot T) (chunks : list (path * list SegEntry)) (query : vec).
Context (Hr : searchable r chunks query).
Context (Hmems : vs_frozen_memtables snap = rt_frozen_mem r) (Hsegs : vs_segments snap = rt_segments r).
Abbreviation dim := (rc_dim (rt_conf r)).
Abbreviation ttl := (rc_ttl_sec (rt_conf r)).
Abbreviation tes := (tagged (rt_mem r) snap chunks).

Lemma tagged_entries : tes.*2 = entries_of r chunks.
Proof using Hmems.
  unfold tagged, entries_of, views. rewrite fmap_bind.
  assert (forall l : list (Layer * list SegEntry), l ≫= (fun x => snd <$> (pair x.1 <$> x.2)) = concat l.*2) as ->.
  { induction l as [|[t es] l IH]; [done|]. cbn. f_equal; [|exact IH]. rewrite <-list_fmap_compose. apply list_fmap_id. }
  rewrite fmap_cons, fmap_app, <-!list_fmap_compose. cbn [snd concat bind_cons]. rewrite concat_app. unfold compose. cbn [snd prod_map].
  rewrite bind_cons, <-app_assoc. f_equal. f_equal.
  - assert ((frozen_layers snap).*2 = reverse (rt_frozen_mem r)) as <-.
    { unfold frozen_layers. rewrite <-Hmems, fmap_reverse, fmap_imap. f_equal.
      rewrite <-(list_fmap_id (vs_frozen_memtables snap)) at 2. exact (imap_const id _). }
    rewrite list_fmap_bind. generalize (frozen_layers snap) as l. induction l as [|x l IH]; [done|]. cbn. by rewrite IH.
  - rewrite <-(tagged_chunks_snd chunks) at 2. by rewrite <-!list_fmap_compose.
Qed.

Lemma newest_answer id :
  id_ok id ->
  rt_find quant_decode r id =
  Some match newest (rt_mem r) snap chunks id with
       | Some te => if se_deleted te.2 then LTombstone else LFound (se_vec te.2) (se_meta te.2)
       | None => LNotFound
       end.
Proof using H0 Hr Hmems.
  intros Hid. destruct Hr as [Hinv _ Hs Hc _ _ _ _]. rewrite rt_find_layers by done. unfold layered. rewrite Hs.
  pose proof (segs_answer_chunks quant_decode (fun p => p) dim chunks [] id Hc) as E. rewrite app_nil_r in E. rewrite E. clear E.
  rewrite <-(mems_entries_answer dim) by (constructor; [apply Hinv|apply Forall_reverse, Hinv]).
  transitivity (Some (entries_answer (entries_of r chunks) id)).
  { unfold entries_of. rewrite entries_answer_app, (entries_answer_sorted dim) by done.
    destruct (entries_answer (_ ≫= _) id); [done..|]. by destruct (entries_answer _ id). }
  rewrite <-tagged_entries. unfold newest, entries_answer. rewrite list_find_fmap.
  f_equal. change ((λ e, se_id e = id) ∘ snd) with (fun te : Layer * SegEntry => se_id te.2 = id).
  by destruct (list_find _ tes) as [[i te]|].
Qed.

(** Without recorded versions there is at most one segment. *)
Lemma single_segment :
  needs_visibility ttl (rt_mem r) snap = false -> single ttl (rt_mem r) snap chunks.
Proof using H0 Hr Hsegs.
  unfold needs_visibility. intros [[[Ha Hf]%orb_false_elim Hs]%orb_false_elim Ht%Z.ltb_ge]%orb_false_elim.
  split; [|done]. apply negb_false_iff, bool_decide_eq_true in Hf. apply Z.ltb_ge in Ha. apply Nat.ltb_ge in Hs.
  assert (mem_entries (rt_mem r) = []) as Ea.
  { pose proof (length_mem_entries dim (rt_mem r) (ri_mem _ (se_inv _ _ _ Hr))) as Hl. apply length_zero_iff_nil.
    unfold zlen in Hl. lia. }
  unfold tagged, views, frozen_layers. rewrite Hf, Ea. cbn [imap reverse]. change (reverse (A := Layer * MemTable T) []) with (@nil (Layer * MemTable T)).
  rewrite Hsegs, (se_segs _ _ _ Hr), length_fmap in Hs. pose proof (se_chunks _ _ _ Hr) as Hc.
  destruct chunks as [|[path es] [|? ?]]; [by constructor| |cbn in Hs; lia].
  apply Forall_inv in Hc as [Hnd _]. cbn. rewrite app_nil_r, <-list_fmap_compose.
  change (NoDup (se_id <$> merge_sort id_le es)). by rewrite merge_sort_Permutation.
Qed.

Lemma policy_sees now :
  let use := needs_visibility ttl (rt_mem r) snap in
  exists p, (if use then newest_wins Hash ttl now (rt_mem r) snap else Some ft_new) = Some p /\
    Forall (fun v => sees Hash use p (vis_of ttl now (rt_mem r) snap chunks use) v.1 v.2) (views (rt_mem r) snap chunks).
Proof using H0 Hr Hmems Hsegs.
  intros use. unfold sees, check_visible, vis_of. destruct use.
  2:{ eexists. split; [done|]. apply Forall_forall. intros v _. by apply Forall_forall. }
  pose proof (se_segs _ _ _ Hr) as Es. rewrite <-Hsegs in Es.
  rewrite (newest_wins_tagged Hash dim ttl now _ _ chunks Es (se_chunks _ _ _ Hr)).
  destruct (record_rep Hash ttl now tes ft_new ∅) as (p & m & -> & Hp & Hm).
  { apply ft_rep_new. done. }
  { rewrite map_size_empty. pose proof (se_room _ _ _ Hr) as Hl. rewrite <-tagged_entries in Hl. unfold zlen in Hl. rewrite length_fmap in Hl. lia. }
  exists p. split; [done|]. apply Forall_forall. intros [l es] Hv. apply Forall_forall. intros e He. cbn [fst snd] in *.
  unfold CheckAndAdd. rewrite (ft_Find_rep kVisibilityCapacity Hash ltac:(done) _ _ _ Hp), Hm, lookup_empty.
  destruct (newest_exists (rt_mem r) snap chunks (l, e)) as [te En].
  { apply list_elem_of_bind. exists (l, es). split; [|done]. by apply list_elem_of_fmap_2. }
  cbn [snd] in En. unfold newest in *. destruct (list_find _ tes) as [[i te']|]; [|done]. by cbn in *; simplify_eq.
Qed.

(** The state after a query: the sink has got exactly the eligible hits. *)
Lemma search_local now opts topk :
  time_filter opts = None -> scoped opts ->
  let use := needs_visibility ttl (rt_mem r) snap in
  exists p hs, (if use then newest_wins Hash ttl now (rt_mem r) snap else Some ft_new) = Some p /\
    SearchLocalInternal Hash beyond_radius metric ip dim ttl sink_Push query (query_sum_of query) topk opts use now (rt_mem r) snap
      (p, MkSink topk []) = Some (p, pushes hs (MkSink topk [])) /\
    NoDup (h_id <$> hs) /\ Forall is_num hs /\ forall h, h ∈ hs <-> eligible r now query opts h.
Proof using H0 Hr Hmems Hsegs.
  intros Ht Hsc use. assert (use = false -> single ttl (rt_mem r) snap chunks) as Hu by apply single_segment.
  destruct (policy_sees now) as (p & Ep & Hp). fold use in Ep, Hp. clearbody use.
  pose proof (se_segs _ _ _ Hr) as Es. rewrite <-Hsegs in Es. pose proof (se_chunks _ _ _ Hr) as Hc.
  pose proof (se_inv _ _ _ Hr) as [Ha Hf _ _]. rewrite <-Hmems in Hf.
  pose proof (se_ids _ _ _ Hr) as Hids. pose proof (se_nums _ _ _ Hr) as Hnum. rewrite <-tagged_entries, Forall_forall in Hids, Hnum.
    eexists p, _. split; [exact Ep|]. split; [|split; [|split]].
  - apply (local_hits Hash beyond_radius metric ip dim ttl now _ _ chunks Es Hc); [done..|rewrite Hsegs; apply Hr|exact Hp|].
    apply Forall_forall. intros [l es] Hv. apply Forall_forall. intros e He Hvis.
    apply (vis_of_unexpired dim ttl now _ _ chunks Hc Ha Hf use Hu l e Hvis).
    apply list_elem_of_bind. exists (l, es). split; [|done]. by apply list_elem_of_fmap_2.
  - by apply (all_hits_nodup beyond_radius dim).
  - apply Forall_forall. intros h (te & Hn & _ & ->)%(all_hits_elem beyond_radius dim ttl now _ _ chunks Hc Ha Hf use Hu).
    apply newest_Some in Hn as [Hin _]. apply Hnum. by apply list_elem_of_fmap_2.
  - intros h. rewrite (all_hits_elem beyond_radius dim ttl now _ _ chunks Hc Ha Hf use Hu). unfold eligible, matches. split.
    + intros (te & Hn & Hm & ->). cbn [hit_of h_id h_score] in *. pose proof (newest_Some _ _ _ _ _ Hn) as [Hin _].
      assert (id_ok (se_id te.2)) as Hid by (apply Hids; by apply list_elem_of_fmap_2). split; [done|].
      exists (se_vec te.2), (se_meta te.2). rewrite newest_answer, Hn by done.
      apply andb_prop in Hm as [[Hd%negb_true_iff Hx%negb_true_iff]%andb_prop Ho]. by rewrite Hd.
    + intros (Hid & v & meta & Hfind & Hx & Ho & Hscore). rewrite newest_answer in Hfind by done.
      destruct (newest _ _ _ (h_id h)) as [te|] eqn:Hn; [|done]. exists te. split; [done|].
      destruct (se_deleted te.2) eqn:Hd; [done|]. injection Hfind as <- <-. rewrite Hx, Ho. split; [done|].
      apply newest_Some in Hn as [_ Hi]. destruct h; cbn in *. unfold hit_of. congruence.
Qed.
End shard.

(** C7. A search is exact.  The shard does not quantise, uses no approximate
    index ([scans]: each segment is below the adaptive threshold or has none),
    holds at most 91751 entries in its memtables and segments together (the
    room of the table of seen identifiers), none under the reserved
    identifier, and no score is NaN.  The query has the dimension of the
    shard, the clock does not tick during the search, no filter is on the
    timestamp, and, when there are no filters, neither an as-of position nor a
    partition is set ([scoped]: without filters the scan of a segment ignores
    these options).  Then the search returns hits with distinct identifiers in
    descending order of score, at most [topk]; every hit is a vector that a
    point lookup finds, that has not expired and that matches the options, with
    its score; and a vector of that kind that is not returned scores no better
    than any of the [topk] that are. *)
Theorem search_exact clock query topk opts r chunks :
  searchable r chunks query -> zlen query = rc_dim (rt_conf r) -> 0 < topk -> clock 1%nat = clock 0%nat ->
  time_filter opts = None -> scoped opts ->
  exists hits, rt_Search Hash beyond_radius metric ip clock query topk opts r = Some (inr hits) /\
    NoDup (h_id <$> hits) /\ StronglySorted (fun a b => f32_gtb (h_score b) (h_score a) = false) hits /\ zlen hits <= topk /\
    (forall h, h ∈ hits -> eligible r (clock 0%nat) query opts h) /\
    (forall h, eligible r (clock 0%nat) query opts h ->
       h ∈ hits \/ (zlen hits = topk /\ forall h', h' ∈ hits -> f32_gtb (h_score h) (h_score h') = false)).
Proof.
  intros Hr Hq Hk Hclock Ht Hsc. pose proof (ri_snap _ (se_inv _ _ _ Hr)) as [ver Hsnap]. pose proof (se_dim _ _ _ Hr) as Hd.
  set (snap := MkSnap _ _ _ _) in Hsnap.
  destruct (search_local r snap chunks query Hr eq_refl eq_refl (clock 0%nat) opts topk Ht Hsc) as (p & hs & Ep & El & Hnd & Hnum & Hel).
  destruct (pushes_best topk hs Hk Hnum) as (heap & Eh & [Hn _ Hlen (dropped & Hperm & Hdrop)]).
  unfold rt_Search. rewrite Hq, Z.eqb_refl, (proj2 (Z.eqb_neq topk 0)) by lia. unfold rt_SearchBatchLocal. cbn [negb].
  rewrite bool_decide_eq_false_2, (proj2 (Z.eqb_neq (rc_dim _) 0)), Hq, Z_mod_same_full, Hsnap by (done || lia). cbn [negb Z.eqb].
  rewrite Ep. cbn [mbind option_bind length seq zip zip_with each]. unfold search_one. rewrite Hclock.
  change (Z.to_nat (u32 (0 * _))) with 0%nat. rewrite drop_0, take_ge by (unfold zlen in Hq; lia).
  rewrite Hq, Z.eqb_refl. cbn [negb orb]. rewrite El, Eh. cbn [mbind option_bind fst snd head].
  exists (sort_hits heap). split; [done|]. split_and!.
  - rewrite sort_hits_perm. rewrite Hperm, fmap_app in Hnd. by apply NoDup_app in Hnd as [? _].
  - by apply sort_hits_sorted.
  - unfold zlen in *. rewrite sort_hits_perm. lia.
  - intros h Hin. apply Hel. rewrite Hperm. rewrite sort_hits_perm in Hin. set_solver.
  - intros h Hin%Hel. rewrite Hperm in Hin. apply elem_of_app in Hin as [Hin|Hin]; [left; by rewrite sort_hits_perm|right].
    assert (0 < zlen dropped) as Hpos by (destruct dropped; [by apply not_elem_of_nil in Hin|unfold zlen; cbn; lia]).
    split; [apply Permutation_length in Hperm; rewrite length_app in Hperm; unfold zlen in *; rewrite sort_hits_perm; lia|].
    intros h' Hh'. rewrite sort_hits_perm in Hh'. rewrite Forall_forall in Hdrop. specialize (Hdrop _ Hin).
    rewrite Forall_forall in Hdrop. specialize (Hdrop _ Hh'). unfold key_le, hit_key in Hdrop.
    unfold f32_gtb. rewrite (proj2 (Z.ltb_ge _ _)) by done. by rewrite andb_false_r.
Qed.
End exact.

(** ** Concrete searches *)

#[local] Existing Instance test_f32.
#[local] Existing Instance test_idmap.
#[local] Existing Instance test_idmap_laws.

Lemma fixed_table_refines_map_witness :
  exists t', ft_Insert 8 id 17 true (MkFht {[1 := (9, false)]} 1) = Some t' /\ ft_nodes t' !! 2 = Some (17, true).
Proof.
  assert (ft_rep 8 id (MkFht {[1 := (9, false)]} 1) {[9 := false]}) as Hrep.
  { split; [split|done|done|]; cbn [ft_nodes ft_size].
    - intros h kv [<- _]%lookup_singleton_Some. lia.
    - by rewrite map_size_singleton.
    - intros h k v [<- [= <- <-]]%lookup_singleton_Some. exists 0%nat. split; [vm_compute; lia|]. split; [done|]. intros i Hi. lia.
    - intros k v. rewrite lookup_singleton_Some. split; [intros [<- <-]; by exists 1|]. intros [h [_ [= <- <-]]%lookup_singleton_Some]. done. }
  destruct (fixed_table_refines_map 8 id ltac:(done) _ _ 17 true Hrep) as (_ & t' & E & _).
  exists t'. split; [exact E|]. vm_compute in E. injection E as <-. reflexivity.
Defined.

(** Hits by descending key. *)
Definition key_ge (a b : SearchHit) : Prop := hit_key b <= hit_key a.
#[local] Instance key_ge_dec a b : Decision (key_ge a b).
Proof. unfold key_ge. apply _. Defined.
#[local] Instance key_ge_trans : Transitive key_ge.
Proof. intros a b c. unfold key_ge. lia. Qed.
#[local] Instance key_ge_total : Total key_ge.
Proof. intros a b. unfold key_ge. lia. Qed.

#[local] Program Instance test_sort : HitSort := {| sort_hits := merge_sort key_ge |}.
Next Obligation. intros l. apply merge_sort_Permutation. Qed.
Next Obligation.
  intros l _. induction (StronglySorted_merge_sort key_ge l) as [|a k _ IH Ha]; constructor; [done|].
  eapply Forall_impl; [exact Ha|]. intros b Hab. unfold f32_gtb. unfold key_ge, hit_key in Hab. rewrite (proj2 (Z.ltb_ge _ _)) by done. apply andb_false_r.
Qed.
#[local] Instance test_sidecars : Sidecars :=
  {| sc_quantizer := fun _ => None; sc_pq := fun _ => None; sc_sq8 := fun _ => (0, 0); sc_hnsw := fun _ => None; sc_index := fun _ => None |}.
#[local] Instance test_kernels : Kernels :=
  {| k_Dot := fun q v => foldr Z.add 0 (zip_with Z.mul q v); k_L2Sq := fun _ _ => 0; k_DotSq8 := fun _ _ _ _ _ => 0;
     k_L2SqSq8 := fun _ _ _ _ => 0; k_DotFp16 := fun _ _ => 0; k_L2SqFp16 := fun _ _ => 0; k_DotBit := fun _ _ => 0 |}.

(** An active memtable over a segment with an older version, a deletion and
    another vector. *)
Definition test_chunk : list SegEntry :=
  [MkSegEntry 8 [9; 9] false md_default; MkSegEntry 7 [1; 2] false md_default; MkSegEntry 3 [] true md_default].
Definition test_shard : VectorRuntime (@FlatHashMemMap (option bytes)) :=
  let segs := [seg_of "s.dat" 2 test_chunk] in
  MkRt (MkRtConf "db" 2 kVector false 0 0 8) test_wal (one_vec 8 [3; 4]) [] segs (Some (MkSnap 1 [] segs None)) 2 0 true 0 0 0 [] 0.
Definition test_opts : SearchOptions := MkOpts [] 0 0 [] [].
Definition test_params : IndexParams := IndexParams_Default.

Lemma test_chunk_ok : chunk_ok 2 test_chunk.
Proof.
  split; [apply (bool_decide_unpack _); vm_compute; exact I|].
  constructor; [vm_compute; congruence|vm_compute; reflexivity|vm_compute; reflexivity|].
  rewrite merge_sort_Permutation. repeat (apply Forall_cons; split); [..|by apply Forall_nil_2];
    (constructor; [vm_compute; split; congruence| | |]; cbn; [try done|try done|]).
  all: try (intros _; split; [reflexivity|]; repeat (apply Forall_cons; split); try apply Forall_nil_2; vm_compute; split; congruence).
  all: constructor; vm_compute; try (split; congruence); reflexivity.
Qed.

Lemma test_shard_ok : searchable kInnerProduct test_params test_shard [("s.dat", test_chunk)] [1; 1].
Proof.
  split; [|done|done|by apply Forall_singleton, test_chunk_ok|apply Forall_singleton; by right|vm_compute; congruence|..].
  - split; [apply one_vec_ok; (apply (bool_decide_unpack _); vm_compute; exact I) || reflexivity|constructor|done|by eexists].
  - apply (bool_decide_unpack _). vm_compute. exact I.
  - apply (bool_decide_unpack _). vm_compute. exact I.
Qed.

Lemma search_exact_witness :
  exists hits, rt_Search id (fun _ _ => false) kInnerProduct test_params (fun _ => 5) [1; 1] 1 test_opts test_shard = Some (inr hits) /\
    hits = [MkHit 8 7].
Proof.
  destruct (search_exact test_decode id (fun _ _ => false) kInnerProduct test_params (fun _ => 5) [1; 1] 1 test_opts test_shard
    [("s.dat", test_chunk)] test_shard_ok) as (hits & E & _); [reflexivity|reflexivity|reflexivity|reflexivity| |].
  - right. repeat split.
  - exists hits. split; [exact E|]. vm_compute in E. injection E as <-. reflexivity.
Defined.
