(* ===== verification/Rag.v ===== *)
(** * The retrieval engine (src/core/rag/rag_engine.cc)

    Chunks of token identifiers, sharded by chunk identifier, with postings from
    token to chunk; a search counts token matches, keeps the best candidates
    and scores them.  The state is the vector of shards; [Search] returns its
    hits and the counters of [explain] apart from the times.  The arithmetic of
    scores is a parameter. *)
From S2P Require Import Prelude StdSort Env Types SearchParts.

Open Scope Z_scope.

(** The conversion, the sum and the dot product (core/distance.h) of scores. *)
Class RagScore : Type := {
  f32_of_u32 : Z -> Z;
  score_add : Z -> Z -> Z;
  score_dot : vec -> vec -> Z
}.

(** include/pomai/rag.h:19-28 [RagChunk]. *)
Record RagChunk : Type := MkChunk {
  rc_chunk_id : Z; rc_doc_id : Z; rc_tokens : list Z; rc_vec : option vec; rc_offsets : list Z; rc_chunk_text : bytes; rc_meta : Metadata
}.

(** include/pomai/rag.h:30-35 [RagQuery]. *)
Record RagQuery : Type := MkRq { rq_tokens : list Z; rq_vec : option vec; rq_topk : Z }.

(** include/pomai/rag.h:37-42 [RagSearchOptions]. *)
Record RagSearchOptions : Type := MkRo { ro_candidate_budget : Z; ro_token_budget : Z; ro_enable_vector_rerank : bool }.

(** include/pomai/rag.h:55-63 [RagSearchHit]. *)
Record RagSearchHit : Type := MkHit {
  rh_chunk_id : Z; rh_doc_id : Z; rh_score : Z; rh_token_matches : Z; rh_offsets : list Z; rh_chunk_text : bytes
}.

(** include/pomai/rag.h:44-53 [RagSearchExplain]. Without the times. *)
Record RagSearchExplain : Type := MkExplain {
  rx_shards_visited : Z; rx_lexical_candidates : Z; rx_vector_candidates : Z; rx_prune_reason : string
}.

(** src/core/rag/rag_engine.h:48-58 [RagEngine::RagRecord]. *)
Record RagRecord : Type := MkRec {
  rr_chunk_id : Z; rr_doc_id : Z; rr_tokens : list Z; rr_offsets : list Z; rr_embedding : vec; rr_has_vector : bool;
  rr_chunk_text : bytes; rr_meta : Metadata
}.

(** src/core/rag/rag_engine.h:60-64 [RagEngine::RagShard]. *)
Record RagShard : Type := MkShard { sh_chunks : gmap Z RagRecord; sh_postings : gmap Z (list Z) }.

Definition shard_new : RagShard := MkShard ∅ ∅.

(** src/core/rag/rag_engine.h:70-73 [RagEngine]. The fields of [spec_] that it reads. *)
Record RagEngine : Type := MkRag {
  rg_is_rag : bool; rg_shard_count : Z; rg_dim : Z; rg_opened : bool; rg_shards : list RagShard
}.

(** src/core/rag/rag_engine.cc:35-38 [RagEngine::ShardOf]. *)
Definition ShardOf (id shard_count : Z) : Z := if shard_count =? 0 then 0 else id mod shard_count.

(** src/core/rag/rag_engine.cc:40-48 [RagEngine::ShardFor]. The index; the engine has no shards before [Open]. *)
Definition ShardFor (id : Z) (s : RagEngine) : nat := Z.to_nat (ShardOf id (zlen (rg_shards s))).

(** src/core/rag/rag_engine.cc:50-65 [RagEngine::Open]. *)
Definition rag_Open (s : RagEngine) : (Status + unit) * RagEngine :=
  if rg_opened s then (inr tt, s) else
  if negb (rg_is_rag s) then (inl (InvalidArgument "rag_engine requires RAG membrane kind"), s) else
  if rg_shard_count s =? 0 then (inl (InvalidArgument "rag_engine requires shard_count > 0"), s) else
  if rg_dim s =? 0 then (inl (InvalidArgument "rag_engine requires dim > 0"), s) else
  (inr tt, MkRag (rg_is_rag s) (rg_shard_count s) (rg_dim s) true (replicate (Z.to_nat (rg_shard_count s)) shard_new)).

(** src/core/rag/rag_engine.cc:67-72 [RagEngine::Close]. *)
Definition rag_Close (s : RagEngine) : RagEngine := MkRag (rg_is_rag s) (rg_shard_count s) (rg_dim s) false [].

(** src/core/rag/rag_engine.cc:88-106 [RagEngine::TryGetChunkExport]. *)
Definition TryGetChunkExport (id : Z) (s : RagEngine) : option (Z * bytes * Z * bool) :=
  foldr (fun sh rest => match sh_chunks sh !! id with
                        | Some rec => Some (rr_doc_id rec, rr_chunk_text rec, zlen (rr_tokens rec), rr_has_vector rec)
                        | None => rest
                        end) None (rg_shards s).

(** src/core/rag/rag_engine.cc:74-86 [RagEngine::ForEachChunk]. *)
Definition ForEachChunk `{!MapOrder Z RagRecord} (s : RagEngine) : list (Z * Z * bytes * Z * bool) :=
  sh ← rg_shards s;
  (fun p => (p.1, rr_doc_id p.2, rr_chunk_text p.2, zlen (rr_tokens p.2), rr_has_vector p.2)) <$> iter_order (sh_chunks sh).

(** src/core/rag/rag_engine.cc:122-127 [RagEngine::PutChunk]. *)
Definition unpost (id : Z) (tokens : list Z) (postings : gmap Z (list Z)) : gmap Z (list Z) :=
  fold_left (fun ps token => match ps !! token with
                             | None => ps
                             | Some l => <[token := filter (fun c => c <> id) l]> ps
                             end) tokens postings.

(** src/core/rag/rag_engine.cc:142-144 [RagEngine::PutChunk]. *)
Definition post (id : Z) (tokens : list Z) (postings : gmap Z (list Z)) : gmap Z (list Z) :=
  fold_left (fun ps token => <[token := default [] (ps !! token) ++ [id]]> ps) tokens postings.

(** src/core/rag/rag_engine.cc:130-140 [RagEngine::PutChunk]. *)
Definition record_of (c : RagChunk) : RagRecord :=
  MkRec (rc_chunk_id c) (rc_doc_id c) (rc_tokens c) (rc_offsets c) (default [] (rc_vec c)) (bool_decide (is_Some (rc_vec c)))
    (rc_chunk_text c) (rc_meta c).

(** src/core/rag/rag_engine.cc:120-145 [RagEngine::PutChunk]. The update of the shard. *)
Definition shard_put (c : RagChunk) (sh : RagShard) : RagShard :=
  let ps := match sh_chunks sh !! rc_chunk_id c with
            | Some old => unpost (rc_chunk_id c) (rr_tokens old) (sh_postings sh)
            | None => sh_postings sh
            end in
  MkShard (<[rc_chunk_id c := record_of c]> (sh_chunks sh)) (post (rc_chunk_id c) (rc_tokens c) ps).

(** src/core/rag/rag_engine.cc:108-148 [RagEngine::PutChunk]. *)
Definition rag_PutChunk (c : RagChunk) (s : RagEngine) : (Status + unit) * RagEngine :=
  if negb (rg_opened s) then (inl (InvalidArgument "rag_engine not opened"), s) else
  if bool_decide (rc_tokens c = []) then
    (inl (InvalidArgument "rag_engine requires token_blob; vector-only payload rejected"), s) else
  if match rc_vec c with Some v => negb (zlen v =? rg_dim s) | None => false end then
    (inl (InvalidArgument "rag_engine embedding dim mismatch"), s) else
  (inr tt, MkRag (rg_is_rag s) (rg_shard_count s) (rg_dim s) (rg_opened s) (alter (shard_put c) (ShardFor (rc_chunk_id c) s) (rg_shards s))).

(** ** Search *)

(** [Candidate]: the chunk and its number of token matches. *)
Abbreviation Candidate := (Z * Z)%type.

(** src/core/rag/rag_engine.cc:19-25 [BetterCandidate]. *)
Definition BetterCandidate (a b : Candidate) : bool := if a.2 =? b.2 then a.1 <? b.1 else b.2 <? a.2.

(** src/core/rag/rag_engine.cc:235-238 [RagEngine::Search]. *)
Definition better_hit (a b : RagSearchHit) : bool :=
  if f32_eqb (rh_score a) (rh_score b) then rh_chunk_id a <? rh_chunk_id b else f32_gtb (rh_score a) (rh_score b).

(** src/core/rag/rag_engine.cc:163-172 [RagEngine::Search]. *)
Definition match_counts (tokens : list Z) (shards : list RagShard) : gmap Z Z :=
  fold_left (fun m sh =>
    fold_left (fun m token =>
      fold_left (fun m id => <[id := u32 (default 0 (m !! id) + 1)]> m) (default [] (sh_postings sh !! token)) m)
      tokens m) shards ∅.

Section search.
Context `{RagScore} `{StdSort} `{NthElement} `{!MapOrder Z Z}.

(** src/core/rag/rag_engine.cc:176-191 [RagEngine::Search]. The candidates and whether they were pruned. *)
Definition rag_candidates (budget : Z) (m : gmap Z Z) : list Candidate * bool :=
  let candidates := iter_order m in
  let pruned := (0 <? budget) && (budget <? zlen candidates) in
  let candidates := if pruned then take (Z.to_nat budget) (nth_element BetterCandidate (Z.to_nat budget) candidates)
                    else candidates in
  (std_sort BetterCandidate candidates, pruned).

(** src/core/rag/rag_engine.cc:193-232 [RagEngine::Search]. The loop over the
    candidates: hits, tokens used, vector candidates and the reason of pruning. *)
Fixpoint rag_hits (q : RagQuery) (o : RagSearchOptions) (s : RagEngine) (cs : list Candidate)
    (hits : list RagSearchHit) (used vecs : Z) (reason : string) : list RagSearchHit * Z * string :=
  match cs with
  | [] => (hits, vecs, reason)
  | c :: cs =>
      if rq_topk q <=? zlen hits then (hits, vecs, reason) else
      match rg_shards s !! ShardFor c.1 s ≫= fun sh => sh_chunks sh !! c.1 with
      | None => rag_hits q o s cs hits used vecs reason
      | Some rec =>
          let score := f32_of_u32 c.2 in
          let '(score, vecs) :=
            match rq_vec q with
            | Some v => if ro_enable_vector_rerank o && rr_has_vector rec
                        then (score_add score (score_dot v (rr_embedding rec)), u32 (vecs + 1)) else (score, vecs)
            | None => (score, vecs)
            end in
          let token_count := zlen (rr_tokens rec) in
          if (0 <? ro_token_budget o) && (ro_token_budget o <? u64 (used + token_count)) then
            rag_hits q o s cs hits used vecs (if String.eqb reason "" then "token_budget" else reason)
          else
            let hit := MkHit (rr_chunk_id rec) (rr_doc_id rec) score c.2 (rr_offsets rec) (rr_chunk_text rec) in
            rag_hits q o s cs (hits ++ [hit]) (u64 (used + token_count)) vecs reason
      end
  end.

(** src/core/rag/rag_engine.cc:150-250 [RagEngine::Search]. *)
Definition rag_Search (q : RagQuery) (o : RagSearchOptions) (s : RagEngine) : Status + (list RagSearchHit * RagSearchExplain) :=
  if bool_decide (rq_tokens q = []) && bool_decide (rq_vec q = None) then
    inl (InvalidArgument "rag_engine query requires tokens or vector") else
  let m := match_counts (rq_tokens q) (rg_shards s) in
  let '(candidates, pruned) := rag_candidates (ro_candidate_budget o) m in
  let '(hits, vecs, reason) := rag_hits q o s candidates [] 0 0 (if pruned then "candidate_budget" else "") in
  inr (std_sort better_hit hits, MkExplain (u32 (zlen (rg_shards s))) (u32 (Z.of_nat (size m))) vecs reason).
End search.
