(* ===== verification/RagTheorems.v ===== *)
(** * The retrieval engine: a search returns the best matching chunks

    The postings agree with the stored chunks after any puts, so the match
    counts are exact; a search without token budget returns the chunks with
    the most token matches, and one with a budget stays within it. *)
From S2P Require Import Prelude StdSort Env Types SearchParts Rag.

Open Scope Z_scope.

(** ** Occurrences *)

Definition occ (x : Z) (l : list Z) : nat := length (filter (fun y => y = x) l).

Lemma occ_nil x : occ x [] = 0%nat.
Proof. done. Qed.
Lemma occ_app x l k : occ x (l ++ k) = (occ x l + occ x k)%nat.
Proof. unfold occ. by rewrite filter_app, length_app. Qed.
Lemma occ_cons_eq x l : occ x (x :: l) = S (occ x l).
Proof. unfold occ. by rewrite filter_cons_True. Qed.
Lemma occ_cons_ne x y l : x <> y -> occ x (y :: l) = occ x l.
Proof. intros Hne. unfold occ. by rewrite filter_cons_False. Qed.
Lemma occ_0 x l : x ∉ l -> occ x l = 0%nat.
Proof. induction l as [|y l IH]; [done|]. rewrite not_elem_of_cons. intros [Hne Hl]. by rewrite occ_cons_ne, IH. Qed.
Lemma occ_elem x l : x ∈ l -> occ x l <> 0%nat.
Proof. intros (a & b & ->)%list_elem_of_split. rewrite occ_app, occ_cons_eq. lia. Qed.

Lemma occ_remove x id l : occ x (filter (fun c => c <> id) l) = if decide (x = id) then 0%nat else occ x l.
Proof.
  case_decide as Hx.
  - apply occ_0. rewrite list_elem_of_filter. naive_solver.
  - induction l as [|y l IH]; [done|]. rewrite filter_cons. case_decide as Hy.
    + destruct (decide (x = y)) as [->|Hne]; [by rewrite !occ_cons_eq, IH|by rewrite !occ_cons_ne].
    + subst y. by rewrite occ_cons_ne.
Qed.

Definition postings_of (ps : gmap Z (list Z)) (t : Z) : list Z := default [] (ps !! t).

Lemma unpost_occ id tokens ps t c :
  occ c (postings_of (unpost id tokens ps) t) = if decide (c = id /\ t ∈ tokens) then 0%nat else occ c (postings_of ps t).
Proof.
  revert ps. induction tokens as [|u tokens IH]; intros ps; cbn [unpost fold_left].
  { rewrite decide_False; [done|]. intros [_ H%not_elem_of_nil]. done. }
  fold (unpost id tokens). unfold unpost in IH. rewrite IH. clear IH.
  assert (occ c (postings_of match ps !! u with None => ps | Some l => <[u := filter (fun c => c <> id) l]> ps end t) =
    if decide (c = id /\ t = u) then 0%nat else occ c (postings_of ps t)) as E.
  { unfold postings_of. destruct (ps !! u) as [l|] eqn:Hu.
    - destruct (decide (t = u)) as [->|Hne].
      + rewrite lookup_insert_eq, Hu. cbn [from_option Datatypes.id]. rewrite occ_remove. repeat case_decide; naive_solver.
      + rewrite lookup_insert_ne by done. rewrite (decide_False (P := c = id /\ t = u)) by naive_solver. done.
    - case_decide as Hd; [|done]. destruct Hd as [-> ->]. by rewrite Hu. }
  rewrite E. repeat case_decide; set_solver.
Qed.

Lemma post_occ id tokens ps t c :
  occ c (postings_of (post id tokens ps) t) = (occ c (postings_of ps t) + if decide (c = id) then occ t tokens else 0)%nat.
Proof.
  revert ps. induction tokens as [|u tokens IH]; intros ps; cbn [post fold_left].
  { rewrite occ_nil. case_decide; lia. }
  unfold post in IH. rewrite IH. clear IH. unfold postings_of. destruct (decide (t = u)) as [->|Hne].
  - rewrite lookup_insert_eq. cbn [from_option Datatypes.id]. rewrite occ_app, (occ_cons_eq u). case_decide as Hc.
    + subst c. rewrite occ_cons_eq, occ_nil. lia.
    + rewrite occ_cons_ne, occ_nil by done. lia.
  - rewrite lookup_insert_ne by done. by rewrite (occ_cons_ne t u).
Qed.

(** ** The shards *)

(** The occurrences of the query's tokens in a chunk. *)
Definition matches (tokens : list Z) (rec : RagRecord) : nat := sum_list ((fun t => occ t (rr_tokens rec)) <$> tokens).

Record shard_ok (sh : RagShard) : Prop := {
  so_post t id : occ id (postings_of (sh_postings sh) t) =
    match sh_chunks sh !! id with Some rec => occ t (rr_tokens rec) | None => 0%nat end;
  so_id id rec : sh_chunks sh !! id = Some rec -> rr_chunk_id rec = id
}.

Lemma shard_new_ok : shard_ok shard_new.
Proof. split; [done|]. intros id rec E. cbn in E. by rewrite lookup_empty in E. Qed.

Lemma shard_put_ok c sh : shard_ok sh -> shard_ok (shard_put c sh).
Proof.
  intros [Hp Hid]. split; cbn [shard_put sh_chunks sh_postings].
  - intros t id. rewrite post_occ. destruct (decide (id = rc_chunk_id c)) as [->|Hne].
    + rewrite lookup_insert_eq. cbn [record_of rr_tokens].
      enough (occ (rc_chunk_id c) (postings_of match sh_chunks sh !! rc_chunk_id c with
        | Some old => unpost (rc_chunk_id c) (rr_tokens old) (sh_postings sh) | None => sh_postings sh end t) = 0%nat) as -> by done.
      specialize (Hp t (rc_chunk_id c)). destruct (sh_chunks sh !! rc_chunk_id c) as [old|]; [|done].
      rewrite unpost_occ. case_decide as Hd; [done|]. rewrite Hp. apply occ_0. naive_solver.
    + rewrite lookup_insert_ne, Nat.add_0_r by done. rewrite <-Hp.
      destruct (sh_chunks sh !! rc_chunk_id c); [|done]. rewrite unpost_occ. by rewrite decide_False by naive_solver.
  - intros id rec [[<- <-]|[_ Hr]]%lookup_insert_Some; [done|]. by apply Hid.
Qed.

(** The engine against the chunks it should hold. *)
Record rag_ok (n : nat) (s : RagEngine) (chunks : gmap Z RagRecord) : Prop := {
  ro_opened : rg_opened s = true;
  ro_count : length (rg_shards s) = n;
  ro_pos : (0 < n)%nat;
  ro_shards : Forall shard_ok (rg_shards s);
  ro_home i sh id : rg_shards s !! i = Some sh -> is_Some (sh_chunks sh !! id) -> i = ShardFor id s;
  ro_chunks id : chunks !! id = rg_shards s !! ShardFor id s ≫= fun sh => sh_chunks sh !! id
}.

Lemma ShardFor_lt n s chunks id : rag_ok n s chunks -> (ShardFor id s < n)%nat.
Proof.
  intros Hok. pose proof (ro_count _ _ _ Hok). pose proof (ro_pos _ _ _ Hok). unfold ShardFor, ShardOf, zlen.
  destruct (Z.eqb_spec (Z.of_nat (length (rg_shards s))) 0); [lia|].
  pose proof (Z.mod_pos_bound id (Z.of_nat (length (rg_shards s)))). lia.
Qed.

(** A chunk the engine accepts. *)
Definition chunk_accepted (dim : Z) (c : RagChunk) : bool :=
  negb (bool_decide (rc_tokens c = [])) && match rc_vec c with Some v => zlen v =? dim | None => true end.

Lemma rag_PutChunk_ok n s chunks c :
  rag_ok n s chunks ->
  rag_ok n (rag_PutChunk c s).2 (if chunk_accepted (rg_dim s) c then <[rc_chunk_id c := record_of c]> chunks else chunks) /\
  rg_dim (rag_PutChunk c s).2 = rg_dim s.
Proof.
  intros Hok. unfold rag_PutChunk, chunk_accepted. rewrite (ro_opened _ _ _ Hok). cbn [negb].
  case_bool_decide; [done|]. cbn [negb andb].
  replace (match rc_vec c with Some v => zlen v =? rg_dim s | None => true end)
    with (negb match rc_vec c with Some v => negb (zlen v =? rg_dim s) | None => false end)
    by (destruct (rc_vec c); [by rewrite negb_involutive|done]).
  destruct (match rc_vec c with Some v => negb (zlen v =? rg_dim s) | None => false end); [done|]. cbn [negb snd].
  split; [|done]. pose proof (ShardFor_lt _ _ _ (rc_chunk_id c) Hok) as Hlt. destruct Hok as [Ho Hc Hn Hs Hh Hch].
  set (s' := MkRag _ _ _ _ _). assert (forall id, ShardFor id s' = ShardFor id s) as Hfor
    by (intros id; unfold ShardFor, zlen; cbn [s' rg_shards]; by rewrite length_alter).
  destruct (lookup_lt_is_Some_2 (rg_shards s) (ShardFor (rc_chunk_id c) s)) as [sh Hsh]; [lia|].
  split; try done.
  - cbn. by rewrite length_alter.
  - cbn. apply Forall_alter; [done|]. intros sh' _ Hok'. by apply shard_put_ok.
  - intros i sh' id Hi Hid. rewrite Hfor. cbn [s' rg_shards] in Hi.
    destruct (decide (i = ShardFor (rc_chunk_id c) s)) as [->|Hne].
    + rewrite list_lookup_alter_eq, Hsh in Hi. cbn in Hi. simplify_eq. cbn in Hid.
      destruct (decide (id = rc_chunk_id c)) as [->|Hne]; [done|]. rewrite lookup_insert_ne in Hid by done. by eapply Hh.
    + rewrite list_lookup_alter_ne in Hi by done. by eapply Hh.
  - intros id. rewrite Hfor. cbn [s' rg_shards]. destruct (decide (ShardFor (rc_chunk_id c) s = ShardFor id s)) as [E|Hne].
    + rewrite <-E, list_lookup_alter_eq, Hsh. cbn. destruct (decide (id = rc_chunk_id c)) as [->|Hne]; [by rewrite !lookup_insert_eq|].
      rewrite !lookup_insert_ne by done. rewrite Hch, <-E, Hsh. done.
    + rewrite list_lookup_alter_ne by done. rewrite lookup_insert_ne by congruence. apply Hch.
Qed.

(** ** Match counts *)

Definition bump (m : gmap Z Z) (id : Z) : gmap Z Z := <[id := u32 (default 0 (m !! id) + 1)]> m.

Lemma bump_all l m id :
  0 <= default 0 (m !! id) -> default 0 (m !! id) + Z.of_nat (occ id l) < 2 ^ 32 ->
  fold_left bump l m !! id = if decide (occ id l = 0%nat) then m !! id else Some (default 0 (m !! id) + Z.of_nat (occ id l)).
Proof.
  revert m. induction l as [|c l IH]; intros m H0 Hlt; cbn [fold_left]; [done|].
  destruct (decide (id = c)) as [->|Hne].
  - rewrite occ_cons_eq in Hlt |- *. rewrite (decide_False (P := S _ = 0%nat)) by done.
    assert (default 0 (bump m c !! c) = default 0 (m !! c) + 1) as E.
    { unfold bump. rewrite lookup_insert_eq. cbn. apply u32_id. unfold is_u32. lia. }
    rewrite IH by (rewrite E; lia). rewrite E. case_decide as Hz.
    + rewrite Hz. revert E. unfold bump. rewrite lookup_insert_eq. cbn. intros E. f_equal. lia.
    + f_equal. lia.
  - rewrite occ_cons_ne in Hlt |- * by done. assert (bump m c !! id = m !! id) as E by (unfold bump; by rewrite lookup_insert_ne).
    rewrite IH; by rewrite E.
Qed.

Lemma fold_left_bind {A B C} (f : C -> B -> C) (g : A -> list B) l (c : C) :
  fold_left (fun c a => fold_left f (g a) c) l c = fold_left f (l ≫= g) c.
Proof. revert c. induction l as [|a l IH]; intros c; [done|]. by rewrite bind_cons, fold_left_app, <-IH. Qed.

Lemma match_counts_fold tokens shards :
  match_counts tokens shards = fold_left bump (sh ← shards; t ← tokens; postings_of (sh_postings sh) t) ∅.
Proof.
  unfold match_counts. rewrite <-fold_left_bind. generalize (∅ : gmap Z Z).
  induction shards as [|sh shards IH]; intros m; [done|]. cbn [fold_left]. rewrite IH. f_equal. apply fold_left_bind.
Qed.

Lemma occ_bind {A} (f : A -> list Z) l id : occ id (l ≫= f) = sum_list ((fun a => occ id (f a)) <$> l).
Proof. induction l as [|a l IH]; [done|]. by rewrite bind_cons, occ_app, IH. Qed.

Lemma shard_matches sh id tokens :
  shard_ok sh ->
  occ id (t ← tokens; postings_of (sh_postings sh) t) = match sh_chunks sh !! id with Some rec => matches tokens rec | None => 0%nat end.
Proof.
  intros [Hp _]. rewrite occ_bind. unfold matches. destruct (sh_chunks sh !! id) as [rec|] eqn:E.
  - f_equal. apply list_fmap_ext. intros i t _. by rewrite Hp, E.
  - induction tokens as [|t tokens IH]; [done|]. cbn. by rewrite Hp, E, IH.
Qed.

Lemma sum_list_one (l : list nat) i x : l !! i = Some x -> (forall j y, l !! j = Some y -> j <> i -> y = 0%nat) -> sum_list l = x.
Proof.
  revert i. induction l as [|y l IH]; intros [|i] Hi Hz; [done..| |].
  - cbn in Hi. simplify_eq. cbn. enough (sum_list l = 0%nat) by lia.
    assert (Forall (fun y => y = 0%nat) l) as Hl by (apply Forall_lookup; intros j y Hj; by apply (Hz (S j))).
    clear -Hl. induction Hl as [|y l -> _ IH]; [done|]. done.
  - cbn. rewrite (Hz 0%nat y) by done. apply (IH i); [done|]. intros j z Hj Hne. apply (Hz (S j)); [done|lia].
Qed.

Lemma match_counts_lookup n s chunks tokens id :
  rag_ok n s chunks -> (forall rec, chunks !! id = Some rec -> Z.of_nat (matches tokens rec) < 2 ^ 32) ->
  match_counts tokens (rg_shards s) !! id =
    rec ← chunks !! id; if decide (matches tokens rec = 0%nat) then None else Some (Z.of_nat (matches tokens rec)).
Proof.
  intros Hok Hb. rewrite match_counts_fold. set (l := _ ≫= _).
  assert (occ id l = match chunks !! id with Some rec => matches tokens rec | None => 0%nat end) as Hocc.
  { subst l. rewrite occ_bind. pose proof (ShardFor_lt _ _ _ id Hok) as Hlt. destruct Hok as [Ho Hc Hn Hs Hh Hch].
    destruct (lookup_lt_is_Some_2 (rg_shards s) (ShardFor id s)) as [sh Hsh]; [lia|]. rewrite Forall_lookup in Hs.
    apply (sum_list_one _ (ShardFor id s)).
    - rewrite list_lookup_fmap, Hsh. cbn [fmap option_fmap option_map]. f_equal.
      rewrite shard_matches by eauto. rewrite Hch, Hsh. done.
    - intros j y Hj Hne. rewrite list_lookup_fmap in Hj. destruct (rg_shards s !! j) as [sh'|] eqn:E; [|done].
      cbn [fmap option_fmap option_map] in Hj. injection Hj as <-. rewrite shard_matches by eauto.
      destruct (sh_chunks sh' !! id) eqn:Eid; [|done]. destruct Hne. by eapply Hh. }
  assert (Z.of_nat (occ id l) < 2 ^ 32) as Hlt by (rewrite Hocc; destruct (chunks !! id); [by apply Hb|done]).
  rewrite bump_all; rewrite ?lookup_empty; [|done|cbn; lia]. rewrite Hocc. destruct (chunks !! id); cbn [mbind option_bind]; [|by rewrite decide_True].
  case_decide; [done|]. f_equal.
Qed.

(** ** Candidates *)

Lemma BetterCandidate_order : weak_order (fun _ => True) BetterCandidate.
Proof.
  unfold BetterCandidate. split.
  - intros a b _ _. destruct (Z.eqb_spec a.2 b.2), (Z.eqb_spec b.2 a.2); rewrite ?Z.ltb_lt, ?Z.ltb_ge; lia.
  - intros a b c _ _ _. destruct (Z.eqb_spec b.2 a.2), (Z.eqb_spec c.2 b.2), (Z.eqb_spec c.2 a.2); rewrite ?Z.ltb_ge; lia.
Qed.

Section search.
Context `{RagScore} `{StdSort} `{NthElement} `{!MapOrder Z Z}.

(** The first [k] candidates are the best of all, if the budget lets [k] through. *)
Lemma rag_candidates_best budget m k :
  budget = 0 \/ Z.of_nat k <= budget ->
  let a := take k (rag_candidates budget m).1 in
  exists rest, a ++ rest ≡ₚ map_to_list m /\ length a = (k `min` size m)%nat /\
    forall x y, x ∈ a -> y ∈ rest -> BetterCandidate y x = false.
Proof.
  intros Hk a. unfold rag_candidates in a. cbn [fst] in a.
  set (pruned := (0 <? budget) && (budget <? zlen (iter_order m))) in *.
  set (cs := if pruned then _ else _) in a.
  destruct (std_sort_take BetterCandidate _ cs k BetterCandidate_order (Forall_true _ _ (fun _ => I))) as (Hperm & _ & Hb).
  fold a in Hperm, Hb. set (b := drop k (std_sort BetterCandidate cs)) in *.
  assert (length a = (k `min` length cs)%nat) as Hlen by (subst a; by rewrite length_take, std_sort_perm).
  destruct pruned eqn:Ep.
  - apply andb_true_iff in Ep as [Ep1%Z.ltb_lt Ep2%Z.ltb_lt]. unfold zlen in Ep2. rewrite length_iter_order in Ep2.
    set (nth := nth_element BetterCandidate (Z.to_nat budget) (iter_order m)) in *.
    assert (nth ≡ₚ map_to_list m) as Hnth by (subst nth; by rewrite nth_element_perm, iter_order_perm).
    exists (b ++ drop (Z.to_nat budget) nth). split; [|split].
    + rewrite app_assoc, Hperm. subst cs. by rewrite take_drop.
    + rewrite Hlen. subst cs. rewrite length_take, Hnth, length_map_to_list. lia.
    + intros x y Hx [Hy|Hy]%elem_of_app; [by apply Hb|].
      apply (nth_element_split _ _ (Z.to_nat budget) (iter_order m) x y BetterCandidate_order (Forall_true _ _ (fun _ => I)));
        [|done]. fold nth. fold cs. rewrite <-Hperm. set_solver.
  - exists b. split; [rewrite Hperm; apply iter_order_perm|]. split; [|done]. rewrite Hlen. subst cs. by rewrite length_iter_order.
Qed.

Lemma rag_candidates_all budget m : exists dropped, (rag_candidates budget m).1 ++ dropped ≡ₚ map_to_list m.
Proof.
  unfold rag_candidates. cbn [fst]. case_match.
  - exists (drop (Z.to_nat budget) (nth_element BetterCandidate (Z.to_nat budget) (iter_order m))).
    by rewrite std_sort_perm, take_drop, nth_element_perm, iter_order_perm.
  - exists []. by rewrite app_nil_r, std_sort_perm, iter_order_perm.
Qed.

(** The hit of a candidate. *)
Definition hit_of (q : RagQuery) (o : RagSearchOptions) (n : Z) (rec : RagRecord) : RagSearchHit :=
  MkHit (rr_chunk_id rec) (rr_doc_id rec)
    (match rq_vec q with
     | Some v => if ro_enable_vector_rerank o && rr_has_vector rec then score_add (f32_of_u32 n) (score_dot v (rr_embedding rec)) else f32_of_u32 n
     | None => f32_of_u32 n
     end) n (rr_offsets rec) (rr_chunk_text rec).

Lemma rag_hits_all q o s chunks n cs hits used vecs reason :
  rag_ok n s chunks -> ro_token_budget o = 0 -> Forall (fun c => is_Some (chunks !! c.1)) cs ->
  exists vecs', rag_hits q o s cs hits used vecs reason =
    (hits ++ omap (fun c => hit_of q o c.2 <$> chunks !! c.1) (take (Z.to_nat (rq_topk q) - length hits) cs), vecs', reason).
Proof.
  intros Hok Hb Hcs. revert hits used vecs. induction Hcs as [|c cs [rec Hrec] Hcs IH]; intros hits used vecs.
  { exists vecs. by rewrite take_nil, app_nil_r. }
  cbn [rag_hits]. destruct (Z.leb_spec (rq_topk q) (zlen hits)) as [Hk|Hk]; unfold zlen in Hk.
  { exists vecs. replace (_ - _)%nat with 0%nat by lia. by rewrite app_nil_r. }
  rewrite <-(ro_chunks _ _ _ Hok), Hrec, Hb.
  replace (Z.to_nat (rq_topk q) - length hits)%nat with (S (Z.to_nat (rq_topk q) - S (length hits)))%nat by lia.
  cbn [take omap list_omap]. rewrite Hrec. cbn [fmap option_fmap option_map].
  assert (forall h used vecs, exists vecs', rag_hits q o s cs (hits ++ [h]) used vecs reason =
    (hits ++ h :: omap (fun c => hit_of q o c.2 <$> chunks !! c.1) (take (Z.to_nat (rq_topk q) - S (length hits)) cs), vecs', reason)) as Hgo.
  { intros h u v. destruct (IH (hits ++ [h]) u v) as [v' E]. exists v'. rewrite E, length_app, <-app_assoc. cbn [length].
    by rewrite Nat.add_1_r. }
  unfold hit_of at 1. destruct (rq_vec q); [destruct (_ && _)|]; cbn [Z.ltb Z.compare andb]; apply Hgo.
Qed.

(** ** The search *)

Definition rag_exec (cs : list RagChunk) (s : RagEngine) : RagEngine := fold_left (fun s c => (rag_PutChunk c s).2) cs s.

(** The last accepted chunk under every identifier. *)
Definition put_chunks (dim : Z) (cs : list RagChunk) : gmap Z RagRecord :=
  fold_left (fun m c => if chunk_accepted dim c then <[rc_chunk_id c := record_of c]> m else m) cs ∅.

Lemma rag_new_ok n dim :
  0 < n -> dim <> 0 -> let s := (rag_Open (MkRag true n dim false [])).2 in rag_ok (Z.to_nat n) s ∅ /\ rg_dim s = dim.
Proof.
  intros Hn Hd. unfold rag_Open. cbn [rg_opened rg_is_rag rg_shard_count rg_dim negb].
  rewrite (proj2 (Z.eqb_neq n 0)), (proj2 (Z.eqb_neq dim 0)) by lia. cbn [snd]. split; [|done].
  split; cbn [rg_opened rg_shards]; [done|by rewrite length_replicate|lia|by apply Forall_replicate, shard_new_ok|..].
  - intros i sh id [-> _]%lookup_replicate [? E]. cbn in E. by rewrite lookup_empty in E.
  - intros id. rewrite lookup_empty. destruct (_ !! _) as [sh|] eqn:E; [|done]. apply lookup_replicate in E as [-> _]. done.
Qed.

Lemma rag_exec_ok n dim cs :
  0 < n -> dim <> 0 -> let s := rag_exec cs (rag_Open (MkRag true n dim false [])).2 in
  rag_ok (Z.to_nat n) s (put_chunks dim cs) /\ rg_dim s = dim.
Proof.
  intros Hn Hd. cbn zeta. induction cs as [|c cs [Hok Hdim]] using rev_ind; [by apply rag_new_ok|].
  unfold rag_exec, put_chunks. rewrite !fold_left_app. cbn [fold_left].
  destruct (rag_PutChunk_ok _ _ _ c Hok) as [Hok' Hdim']. rewrite Hdim in Hok', Hdim'. by split.
Qed.

Lemma better_hit_order : weak_order (fun h => f32_nan (rh_score h) = false) better_hit.
Proof.
  unfold better_hit, f32_eqb, f32_gtb. split.
  - intros a b -> ->. cbn [negb andb]. repeat case_match; rewrite ?Z.eqb_eq, ?Z.eqb_neq, ?Z.ltb_lt, ?Z.ltb_ge in *; lia.
  - intros a b c -> -> ->. cbn [negb andb]. repeat case_match; rewrite ?Z.eqb_eq, ?Z.eqb_neq, ?Z.ltb_ge in *; lia.
Qed.

(** The match counts are those of the matching chunks. *)
Lemma match_counts_found n s chunks tokens :
  rag_ok n s chunks -> (forall id rec, chunks !! id = Some rec -> Z.of_nat (matches tokens rec) < 2 ^ 32) ->
  match_counts tokens (rg_shards s) =
    (fun rec => Z.of_nat (matches tokens rec)) <$> filter (fun p => matches tokens p.2 <> 0%nat) chunks.
Proof.
  intros Hok Hm. apply map_eq. intros id. rewrite lookup_fmap, map_lookup_filter.
  rewrite (match_counts_lookup n s chunks) by (done || apply Hm). destruct (chunks !! id) as [rec|]; [|done].
  cbn [mbind option_bind]. case_decide as Hz; cbn [snd]; [by rewrite option_guard_False by naive_solver|]. by rewrite option_guard_True.
Qed.

Lemma hits_of_candidates q o (chunks : gmap Z RagRecord) (f : RagRecord -> Z) a :
  (forall id rec, chunks !! id = Some rec -> rr_chunk_id rec = id) ->
  Forall (fun c => exists rec, chunks !! c.1 = Some rec /\ c.2 = f rec) a ->
  let hits := omap (fun c => hit_of q o c.2 <$> chunks !! c.1) a in
  rh_chunk_id <$> hits = a.*1 /\ Forall (fun h => exists rec, chunks !! rh_chunk_id h = Some rec /\ h = hit_of q o (f rec) rec) hits.
Proof.
  intros Hid Ha. cbn zeta. induction Ha as [|[id k] a (rec & Hrec & Hf) _ [IH1 IH2]]; [done|]. cbn [fst snd] in *. subst k.
  cbn [omap list_omap fst snd]. rewrite Hrec. cbn [fmap option_fmap option_map]. pose proof (Hid _ _ Hrec) as E. split.
  - cbn. f_equal; [done|exact IH1].
  - constructor; [|done]. exists rec. cbn. by rewrite E.
Qed.

(** The search against the chunks the engine holds. *)
Lemma rag_search_ok n s chunks q o :
  rag_ok n s chunks -> rq_tokens q <> [] -> 0 <= rq_topk q ->
  let found := filter (fun p => matches (rq_tokens q) p.2 <> 0%nat) chunks in
  (forall id rec, chunks !! id = Some rec -> Z.of_nat (matches (rq_tokens q) rec) < 2 ^ 32) ->
  ro_token_budget o = 0 -> ro_candidate_budget o = 0 \/ rq_topk q <= ro_candidate_budget o ->
  exists hits ex, rag_Search q o s = inr (hits, ex) /\
    NoDup (rh_chunk_id <$> hits) /\ length hits = (Z.to_nat (rq_topk q) `min` size found)%nat /\
    (forall h, h ∈ hits -> exists rec, found !! rh_chunk_id h = Some rec /\
       h = hit_of q o (Z.of_nat (matches (rq_tokens q) rec)) rec) /\
    (forall id rec h, found !! id = Some rec -> id ∉ rh_chunk_id <$> hits -> h ∈ hits ->
       BetterCandidate (id, Z.of_nat (matches (rq_tokens q) rec)) (rh_chunk_id h, rh_token_matches h) = false) /\
    (Forall (fun h => f32_nan (rh_score h) = false) hits -> StronglySorted (fun a b => better_hit b a = false) hits).
Proof.
  intros Hok Hq Hk found Hm Hb Hc. pose proof (match_counts_found _ _ _ _ Hok Hm) as Em. fold found in Em.
  set (f := fun rec => Z.of_nat (matches (rq_tokens q) rec)) in *.
  unfold rag_Search. rewrite (bool_decide_false (rq_tokens q = [])) by done. cbn [andb]. rewrite Em.
  destruct (rag_candidates_best (ro_candidate_budget o) (f <$> found) (Z.to_nat (rq_topk q))) as (rest & Hperm & Hlen & Hbest); [lia|].
  destruct (rag_candidates_all (ro_candidate_budget o) (f <$> found)) as [dropped Hall].
  destruct (rag_candidates (ro_candidate_budget o) (f <$> found)) as [cands pruned]. cbn [fst] in *.
  assert (forall id k, (id, k) ∈ map_to_list (f <$> found) <-> exists rec, found !! id = Some rec /\ k = f rec) as Hin.
  { intros id k. rewrite elem_of_map_to_list, lookup_fmap, fmap_Some. done. }
  assert (forall l, (forall c, c ∈ l -> c ∈ map_to_list (f <$> found)) ->
    Forall (fun c => exists rec, chunks !! c.1 = Some rec /\ c.2 = f rec) l) as HF.
  { intros l Hl. apply Forall_forall. intros [id k] (rec & Hr & ->)%Hl%Hin.
    apply map_lookup_filter_Some in Hr as [Hr _]. by exists rec. }
  destruct (rag_hits_all q o s chunks n cands [] 0 0 (if pruned then "candidate_budget" else "") Hok Hb) as [vecs Ehits].
  { eapply Forall_impl; [apply (HF cands)|]; [intros c Hc'; rewrite <-Hall; set_solver|]. intros c (rec & -> & _). done. }
  rewrite Ehits, Nat.sub_0_r. cbn [app]. set (a := take _ cands) in *.
  destruct (hits_of_candidates q o chunks f a) as [Hids Hhits].
  { intros id rec Hr. rewrite (ro_chunks _ _ _ Hok) in Hr. destruct (_ !! _) as [sh|] eqn:E; [|done].
    eapply so_id; [|exact Hr]. by eapply Forall_lookup_1; [apply (ro_shards _ _ _ Hok)|]. }
  { apply HF. intros c Hc'. rewrite <-Hperm. apply elem_of_app. by left. }
  set (hits := omap _ a) in *. clearbody hits. clear Ehits HF. eexists (std_sort better_hit hits), _. split; [done|].
  pose proof (std_sort_perm better_hit hits) as Hout. rewrite (map_size_fmap f found) in Hlen.
  assert (forall h, h ∈ hits -> exists rec, found !! rh_chunk_id h = Some rec /\ h = hit_of q o (f rec) rec /\ (rh_chunk_id h, f rec) ∈ a) as Hh.
  { intros h Hh. assert (rh_chunk_id h ∈ a.*1) as Ha by (rewrite <-Hids; by apply list_elem_of_fmap_2).
    apply list_elem_of_fmap in Ha as ([id k] & E & Ha). cbn [fst] in E. subst id.
    assert ((rh_chunk_id h, k) ∈ map_to_list (f <$> found)) as (rec & Hr & ->)%Hin by (rewrite <-Hperm; apply elem_of_app; by left).
    rewrite Forall_forall in Hhits. destruct (Hhits h Hh) as (rec' & Hr' & Eh).
    pose proof Hr as [Hr2 _]%map_lookup_filter_Some. cbn in Hr2. assert (rec' = rec) as -> by congruence. by exists rec. }
  split; [|split; [|split; [|split]]].
  - rewrite Hout, Hids. pose proof (NoDup_fst_map_to_list (f <$> found)) as Hnd. rewrite <-Hperm, fmap_app in Hnd.
    by apply NoDup_app in Hnd as [? _].
  - rewrite Hout. apply (f_equal length) in Hids. rewrite !length_fmap in Hids. by rewrite Hids.
  - intros h Hin'. rewrite Hout in Hin'. destruct (Hh h Hin') as (rec & ? & ? & _). by exists rec.
  - intros id rec h Hr Hnot Hin'. rewrite Hout in Hnot, Hin'. rewrite Hids in Hnot.
    destruct (Hh h Hin') as (rec' & Hr' & Eh & Ha). assert (rh_token_matches h = f rec') as -> by by rewrite Eh.
    apply Hbest; [done|]. assert ((id, f rec) ∈ map_to_list (f <$> found)) as Hx by (apply Hin; by exists rec).
    rewrite <-Hperm in Hx. apply elem_of_app in Hx as [Hx|Hx]; [|done]. destruct Hnot. by apply (list_elem_of_fmap_2 fst) in Hx.
  - intros Hnan. rewrite Hout in Hnan. by eapply std_sort_sorted; [apply better_hit_order|].
Qed.

(** C21. A search over any chunks that were put, without token budget and with a
    candidate budget that covers [topk]: it returns [topk] of the chunks that
    contain a token of the query, or all of them when there are fewer, each
    once, with its exact number of token matches and its stored document and
    text; no chunk left out has more matches than one returned; and the hits
    are ordered by score unless a score is not a number. *)
Theorem rag_search_exact n dim cs q o :
  0 < n -> dim <> 0 -> rq_tokens q <> [] -> 0 <= rq_topk q ->
  let s := rag_exec cs (rag_Open (MkRag true n dim false [])).2 in
  let found := filter (fun p => matches (rq_tokens q) p.2 <> 0%nat) (put_chunks dim cs) in
  (forall id rec, put_chunks dim cs !! id = Some rec -> Z.of_nat (matches (rq_tokens q) rec) < 2 ^ 32) ->
  ro_token_budget o = 0 -> ro_candidate_budget o = 0 \/ rq_topk q <= ro_candidate_budget o ->
  exists hits ex, rag_Search q o s = inr (hits, ex) /\
    NoDup (rh_chunk_id <$> hits) /\ length hits = (Z.to_nat (rq_topk q) `min` size found)%nat /\
    (forall h, h ∈ hits -> exists rec, found !! rh_chunk_id h = Some rec /\
       h = hit_of q o (Z.of_nat (matches (rq_tokens q) rec)) rec) /\
    (forall id rec h, found !! id = Some rec -> id ∉ rh_chunk_id <$> hits -> h ∈ hits ->
       BetterCandidate (id, Z.of_nat (matches (rq_tokens q) rec)) (rh_chunk_id h, rh_token_matches h) = false) /\
    (Forall (fun h => f32_nan (rh_score h) = false) hits -> StronglySorted (fun a b => better_hit b a = false) hits).
Proof.
  intros Hn Hd Hq Hk s found Hm Hb Hc. destruct (rag_exec_ok n dim cs Hn Hd) as [Hok _]. fold s in Hok. by eapply rag_search_ok.
Qed.

(** ** The token budget *)

Definition tokens_at (s : RagEngine) (id : Z) : Z :=
  from_option (fun rec => zlen (rr_tokens rec)) 0 (rg_shards s !! ShardFor id s ≫= fun sh => sh_chunks sh !! id).
Definition tokens_of (s : RagEngine) (hits : list RagSearchHit) : Z := foldr (fun h n => tokens_at s (rh_chunk_id h) + n) 0 hits.

Lemma tokens_of_app s a b : tokens_of s (a ++ b) = tokens_of s a + tokens_of s b.
Proof. induction a as [|h a IH]; [done|]. cbn. fold (tokens_of s (a ++ b)). fold (tokens_of s a). lia. Qed.

Lemma tokens_of_perm s a b : a ≡ₚ b -> tokens_of s a = tokens_of s b.
Proof. induction 1; cbn; unfold tokens_of in *; cbn; lia. Qed.

Lemma rag_hits_budget q o s n chunks cs hits used vecs reason :
  rag_ok n s chunks -> 0 < ro_token_budget o < 2 ^ 32 -> (forall id rec, chunks !! id = Some rec -> zlen (rr_tokens rec) < 2 ^ 63) ->
  tokens_of s hits = used -> 0 <= used <= ro_token_budget o -> 0 <= zlen hits <= Z.max 0 (rq_topk q) ->
  let out := (rag_hits q o s cs hits used vecs reason).1.1 in
  tokens_of s out <= ro_token_budget o /\ zlen out <= Z.max 0 (rq_topk q).
Proof.
  intros Hok Hb Hlen. cbn zeta. revert hits used vecs reason. induction cs as [|c cs IH]; intros hits used vecs reason Hu Hr Hz; cbn [rag_hits].
  { cbn [fst]. lia. }
  destruct (Z.leb_spec (rq_topk q) (zlen hits)) as [Hk|Hk]; [cbn [fst]; lia|].
  destruct (rg_shards s !! ShardFor c.1 s ≫= fun sh => sh_chunks sh !! c.1) as [rec|] eqn:Hrec; [|by apply IH].
  rewrite <-(ro_chunks _ _ _ Hok) in Hrec. pose proof (Hlen _ _ Hrec) as Hl. pose proof (zlen_nonneg (rr_tokens rec)) as Hnn.
  rewrite u64_id by (unfold is_u64; lia).
  assert (rr_chunk_id rec = c.1) as Hid.
  { rewrite (ro_chunks _ _ _ Hok) in Hrec. destruct (rg_shards s !! _) as [sh|] eqn:E; [|done].
    eapply so_id; [|exact Hrec]. by eapply Forall_lookup_1; [apply (ro_shards _ _ _ Hok)|]. }
  assert (forall h vecs reason, rh_chunk_id h = c.1 -> used + zlen (rr_tokens rec) <= ro_token_budget o ->
    tokens_of s (rag_hits q o s cs (hits ++ [h]) (used + zlen (rr_tokens rec)) vecs reason).1.1 <= ro_token_budget o /\
    zlen (rag_hits q o s cs (hits ++ [h]) (used + zlen (rr_tokens rec)) vecs reason).1.1 <= Z.max 0 (rq_topk q)) as Hgo.
  { intros h v r Hh Hfit. apply IH; [|lia|unfold zlen in *; rewrite length_app; cbn; lia].
    rewrite tokens_of_app, Hu. cbn. unfold tokens_at. rewrite Hh, <-(ro_chunks _ _ _ Hok), Hrec. cbn. lia. }
  destruct (match rq_vec q with Some _ => _ | None => _ end) as [score vecs'].
  destruct (Z.ltb_spec 0 (ro_token_budget o)), (Z.ltb_spec (ro_token_budget o) (used + zlen (rr_tokens rec))); cbn [andb]; try lia; [by apply IH|].
  by apply Hgo.
Qed.

(** A search with a token budget returns at most [topk] chunks, whose tokens
    together stay within the budget, whatever was put. *)
Theorem rag_budget_respected n dim cs q o :
  0 < n -> dim <> 0 -> 0 <= rq_topk q -> 0 < ro_token_budget o < 2 ^ 32 ->
  Forall (fun c => zlen (rc_tokens c) < 2 ^ 63) cs ->
  let s := rag_exec cs (rag_Open (MkRag true n dim false [])).2 in
  forall hits ex, rag_Search q o s = inr (hits, ex) -> tokens_of s hits <= ro_token_budget o /\ zlen hits <= rq_topk q.
Proof.
  intros Hn Hd Hk Hb Hcs s hits ex Hs. destruct (rag_exec_ok n dim cs Hn Hd) as [Hok _]. fold s in Hok.
  assert (forall id rec, put_chunks dim cs !! id = Some rec -> zlen (rr_tokens rec) < 2 ^ 63) as Hlen.
  { clear -Hcs. unfold put_chunks. induction cs as [|c cs IH] using rev_ind; intros id rec; [done|].
    rewrite Forall_app, Forall_singleton in Hcs. destruct Hcs as [Hcs Hc]. rewrite fold_left_app. cbn [fold_left].
    destruct (chunk_accepted dim c); [|by apply IH]. intros [[_ <-]|[_ ?]]%lookup_insert_Some; [done|by eapply IH]. }
  unfold rag_Search in Hs. destruct (_ && _); [done|].
  destruct (rag_candidates (ro_candidate_budget o) _) as [cands pruned].
  set (reason := if pruned then _ else _) in Hs.
  destruct (rag_hits_budget q o s (Z.to_nat n) (put_chunks dim cs) cands [] 0 0 reason Hok Hb Hlen) as [H2 H3];
    [done|lia|unfold zlen; cbn [length]; lia|].
  destruct (rag_hits q o s cands [] 0 0 reason) as [[out vecs] r]. cbn [fst] in H2, H3. injection Hs as <- _.
  pose proof (std_sort_perm better_hit out) as Hp. rewrite (tokens_of_perm s _ _ Hp). unfold zlen in *. rewrite Hp. lia.
Qed.

(** A query with a vector and no tokens is accepted but has no candidates. *)
Lemma rag_vector_only_finds_nothing v topk o s :
  exists ex, rag_Search (MkRq [] (Some v) topk) o s = inr ([], ex).
Proof.
  unfold rag_Search. cbn [rq_tokens rq_vec]. rewrite bool_decide_true, (bool_decide_false (Some v = None)) by done. cbn [andb].
  assert (match_counts [] (rg_shards s) = ∅) as -> by (unfold match_counts; induction (rg_shards s); done).
  assert (iter_order (∅ : gmap Z Z) = []) as E by by apply iter_order_nil.
  unfold rag_candidates. rewrite E. cbn [zlen length]. rewrite andb_comm. 
  destruct (Z.ltb_spec (ro_candidate_budget o) (zlen (@nil (Z * Z)))) as [Hx|Hx], (Z.ltb_spec 0 (ro_candidate_budget o)); unfold zlen in Hx; cbn in Hx; try lia; cbn [andb];
  (assert (std_sort BetterCandidate [] = []) as -> by (apply Permutation_nil_r, std_sort_perm)); cbn [rag_hits];
  (assert (std_sort better_hit [] = []) as -> by (apply Permutation_nil_r, std_sort_perm)); eauto.
Qed.
End search.

(** ** A run *)

#[local] Existing Instances insertion_StdSort insertion_NthElement default_order.
#[local] Instance toy_RagScore : RagScore := {| f32_of_u32 n := n; score_add := Z.add; score_dot v w := foldr Z.add 0 (zip_with Z.mul v w) |}.

Definition toy_chunk (id : Z) (tokens : list Z) : RagChunk := MkChunk id (id * 10) tokens None [] (bstr "text") md_default.
Definition toy_chunks : list RagChunk := [toy_chunk 1 [5; 6]; toy_chunk 2 [5; 5; 7]; toy_chunk 3 [8]; toy_chunk 1 [9; 5; 6; 6]].

Lemma rag_search_exact_witness :
  let s := rag_exec toy_chunks (rag_Open (MkRag true 2 4 false [])).2 in
  exists hits ex, rag_Search (MkRq [5; 6] None 1) (MkRo 1 0 true) s = inr (hits, ex) /\ length hits = 1%nat /\
    forall h, h ∈ hits -> rh_chunk_id h <> 2.
Proof.
  intros s. destruct (rag_search_exact 2 4 toy_chunks (MkRq [5; 6] None 1) (MkRo 1 0 true)) as (hits & ex & E & _ & Hlen & Hh & Hbest & _);
    [done|done|done|done| |done|by right|].
  - intros id rec Hr. assert (Forall (fun p => Z.of_nat (matches [5; 6] p.2) < 2 ^ 32) (map_to_list (put_chunks 4 toy_chunks))) as HF
      by (apply (bool_decide_eq_true_1 _); by vm_compute).
    rewrite Forall_forall in HF. apply (HF (id, rec)). by apply elem_of_map_to_list.
  - exists hits, ex. split; [exact E|]. split; [rewrite Hlen; by vm_compute|]. intros h Hin E2.
    destruct (Hh h Hin) as (rec & Hr & _). 
    assert (exists rec1, filter (fun p => matches [5; 6] p.2 <> 0%nat) (put_chunks 4 toy_chunks) !! 1 = Some rec1 /\ matches [5; 6] rec1 = 3%nat)
      as (rec1 & Hr1 & Hm1) by (eexists; split; by vm_compute).
    destruct hits as [|h0 [|? ?]]; [done| |done]. apply list_elem_of_singleton in Hin as <-.
    assert (rh_token_matches h = 2) as Hm2.
    { destruct (Hh h) as (rec2 & Hr2 & Eh); [by left|]. rewrite Eh. cbn [hit_of rh_token_matches]. rewrite E2 in Hr2.
      vm_compute in Hr2. by simplify_eq. }
    specialize (Hbest 1 rec1 h Hr1). cbn [rq_tokens] in Hbest. rewrite Hm1, Hm2, E2 in Hbest. cbn [fmap list_fmap] in Hbest. rewrite E2 in Hbest.
    discriminate Hbest; [set_solver|by left].
Defined.

Lemma rag_budget_respected_witness :
  let s := rag_exec toy_chunks (rag_Open (MkRag true 2 4 false [])).2 in
  exists hits ex, rag_Search (MkRq [5] None 9) (MkRo 0 5 true) s = inr (hits, ex) /\ tokens_of s hits <= 5.
Proof.
  intros s. destruct (rag_Search (MkRq [5] None 9) (MkRo 0 5 true) s) as [e|[hits ex]] eqn:E; [vm_compute in E; discriminate E|].
  exists hits, ex. split; [done|]. apply (rag_budget_respected 2 4 toy_chunks (MkRq [5] None 9) (MkRo 0 5 true)) with (ex := ex);
    [done|done|done|done|by repeat constructor|exact E].
Defined.
