(* ===== verification/ChunkTheorems.v ===== *)
(** * Text chunking: termination, sizes and nothing lost

    The splitter returns, no chunk exceeds the limit when some separator is not
    empty, every chunk is a part of the document, and without overlap the
    document is the chunks in their order with separators between them.  The
    windows of the sliding chunker put together are the document. *)
From S2P Require Import Prelude Chunking.

Open Scope nat_scope.

(** ** Searching *)

Lemma starts_with_spec sep s : starts_with sep s = true <-> exists r, s = sep ++ r.
Proof.
  unfold starts_with. rewrite bool_decide_eq_true. split.
  - intros E. exists (drop (length sep) s). rewrite <-E at 1. by rewrite take_drop.
  - intros [r ->]. by rewrite take_app_length.
Qed.

Lemma find_sep_spec sep w i : find_sep sep w = Some i -> take (length sep) (drop i w) = sep /\ i + length sep <= length w.
Proof.
  revert i. induction w as [|c w IH]; intros i; cbn [find_sep].
  - destruct (starts_with sep []) eqn:E; [|done]. intros [= <-]. apply starts_with_spec in E as [r E].
    symmetry in E. apply app_nil in E as [-> ->]. done.
  - destruct (starts_with sep (c :: w)) eqn:E.
    + intros [= <-]. apply starts_with_spec in E as [r ->]. rewrite drop_0, take_app_length, length_app. split; [done|lia].
    + intros (j & Hj & ->)%fmap_Some. destruct (IH j Hj) as [H1 H2]. cbn. split; [done|lia].
Qed.

(** [i] is a position of the separator in the window. *)
Definition sep_at (sep w : bytes) (i : nat) : Prop := take (length sep) (drop i w) = sep /\ i + length sep <= length w.

Lemma last_sep_loop_ok fuel sep window pos last :
  sep <> [] -> length window < pos + fuel -> pos <= length window -> (forall i, last = Some i -> sep_at sep window i) ->
  exists r, last_sep_loop fuel sep window pos last = Some r /\ forall i, r = Some i -> sep_at sep window i.
Proof.
  intros Hsep. assert (0 < length sep) as Hlen by (destruct sep; cbn; [done|lia]).
  revert pos last. induction fuel as [|fuel IH]; intros pos last Hf Hp Hlast; [lia|]. cbn [last_sep_loop].
  destruct (find_sep sep (drop pos window)) as [i|] eqn:E; [|by exists last].
  apply find_sep_spec in E as [E1 E2]. rewrite drop_drop in E1. rewrite length_drop in E2.
  apply IH; [lia|lia|]. intros ? [= <-]. split; [done|lia].
Qed.

Lemma sep_at_split sep w i : sep_at sep w i -> w = take i w ++ sep ++ drop (i + length sep) w.
Proof.
  intros [E _]. rewrite <-(take_drop i w) at 1. f_equal. rewrite <-(take_drop (length sep) (drop i w)), E, drop_drop. done.
Qed.

Lemma trim_sep_spec fuel sep s :
  exists k, s = mjoin (replicate k sep) ++ trim_sep fuel sep s.
Proof.
  revert s. induction fuel as [|fuel IH]; intros s; cbn [trim_sep]; [by exists 0|].
  destruct (starts_with sep s) eqn:E; [|by exists 0]. apply starts_with_spec in E as [r ->]. rewrite drop_app_length.
  destruct (IH r) as [k Hk]. exists (S k). cbn [replicate]. change (mjoin (sep :: replicate k sep)) with (sep ++ mjoin (replicate k sep)).
  by rewrite <-app_assoc, <-Hk.
Qed.

(** The fuel of [trim_sep] suffices: no separator is left in front. *)
Lemma trim_sep_done fuel sep s : sep <> [] -> length s <= fuel -> starts_with sep (trim_sep fuel sep s) = false.
Proof.
  intros Hsep. assert (0 < length sep) as Hlen by (destruct sep; cbn; [done|lia]).
  assert (forall s, length s = 0 -> starts_with sep s = false) as H0.
  { intros u Hu. destruct (starts_with sep u) eqn:E; [|done]. apply starts_with_spec in E as [r ->]. rewrite length_app in Hu. lia. }
  revert s. induction fuel as [|fuel IH]; intros s Hf; cbn [trim_sep]; [apply H0; lia|].
  destruct (starts_with sep s) eqn:E; [|done]. apply IH. apply starts_with_spec in E as [r ->].
  rewrite drop_app_length. rewrite length_app in Hf. lia.
Qed.

(** ** Chunks and separators *)

Section split.
Context (max_bytes overlap_bytes : nat) (seps : list bytes).

(** The document is the chunks in order with separators between them; a chunk
    starts where its offset says, or after separators that were trimmed. *)
Inductive spread : bytes -> nat -> list ChunkView -> Prop :=
| spread_nil base : spread [] base []
| spread_sep sep doc base cs : sep ∈ seps -> spread doc (base + length sep) cs -> spread (sep ++ doc) base cs
| spread_chunk text doc base off cs :
    off <= base -> spread doc (base + length text) cs -> spread (text ++ doc) base (MkView text off :: cs).

Lemma spread_app d1 d2 base cs1 cs2 :
  spread d1 base cs1 -> spread d2 (base + length d1) cs2 -> spread (d1 ++ d2) base (cs1 ++ cs2).
Proof.
  intros H1 H2. induction H1 as [base|sep doc base cs Hs _ IH|text doc base off cs Ho _ IH]; cbn [app].
  - by rewrite Nat.add_0_r in H2.
  - rewrite <-app_assoc. apply spread_sep; [done|]. apply IH. by rewrite length_app, Nat.add_assoc in H2.
  - rewrite <-app_assoc. apply spread_chunk; [done|]. apply IH. by rewrite length_app, Nat.add_assoc in H2.
Qed.

Lemma spread_seps sep k doc base cs :
  sep ∈ seps -> spread doc (base + length (mjoin (replicate k sep))) cs -> spread (mjoin (replicate k sep) ++ doc) base cs.
Proof.
  intros Hs. revert base. induction k as [|k IH]; intros base Hd; cbn [replicate] in *.
  - by rewrite Nat.add_0_r in Hd.
  - change (mjoin (sep :: replicate k sep)) with (sep ++ mjoin (replicate k sep)) in *. rewrite <-app_assoc.
    apply spread_sep; [done|]. apply IH. by rewrite length_app, Nat.add_assoc in Hd.
Qed.

(** The chunk is a part of the document, at its offset or after it. *)
Definition in_doc (doc : bytes) (base : nat) (c : ChunkView) : Prop :=
  exists i, take (length (cv_text c)) (drop i doc) = cv_text c /\ i + length (cv_text c) <= length doc /\
    base <= cv_start_offset c <= base + i.

Lemma in_doc_drop n doc base c : n <= length doc -> in_doc (drop n doc) (base + n) c -> in_doc doc base c.
Proof.
  intros Hn (i & H1 & H2 & H3). exists (n + i). rewrite length_drop in H2. rewrite drop_drop in H1. split; [done|lia].
Qed.

Lemma in_doc_take n doc base c : in_doc (take n doc) base c -> in_doc doc base c.
Proof.
  intros (i & H1 & H2 & H3). rewrite length_take in H2. exists i. split; [|lia].
  rewrite skipn_firstn_comm, take_take, Nat.min_l in H1 by lia. done.
Qed.

Record good (doc : bytes) (base : nat) (cs : list ChunkView) : Prop := {
  gd_spread : overlap_bytes = 0 -> spread doc base cs;
  gd_in : Forall (in_doc doc base) cs;
  gd_size : Forall (fun c => length (cv_text c) <= max_bytes) cs
}.

Lemma good_whole doc base : length doc <= max_bytes -> good doc base [MkView doc base].
Proof.
  intros Hl. split; [| |by repeat constructor].
  - intros _. rewrite <-(app_nil_r doc) at 1. apply spread_chunk; [lia|constructor].
  - repeat constructor. exists 0. rewrite drop_0, take_ge by done. cbn. split; [done|lia].
Qed.

Lemma good_trimmed sep doc base fuel :
  sep ∈ seps -> length doc <= max_bytes ->
  let trimmed := trim_sep fuel sep doc in good doc base (if bool_decide (trimmed = []) then [] else [MkView trimmed base]).
Proof.
  intros Hs Hl trimmed. destruct (trim_sep_spec fuel sep doc) as [k Hk]. fold trimmed in Hk. clearbody trimmed.
  pose proof (f_equal length Hk) as Hlen. rewrite length_app in Hlen. case_bool_decide as Ht.
  - split; [|done..]. intros _. rewrite Hk, Ht. apply spread_seps; [done|constructor].
  - split; [| |by repeat constructor; cbn; lia].
    + intros _. rewrite Hk. apply spread_seps; [done|]. rewrite <-(app_nil_r trimmed) at 1. apply spread_chunk; [lia|constructor].
    + repeat constructor. exists (length (mjoin (replicate k sep))). cbn. rewrite Hk at 1. rewrite drop_app_length, take_ge by done.
      split; [done|lia].
Qed.

Lemma good_app d1 d2 base cs1 cs2 :
  good d1 base cs1 -> good d2 (base + length d1) cs2 -> good (d1 ++ d2) base (cs1 ++ cs2).
Proof.
  intros [Hs1 Hi1 Hz1] [Hs2 Hi2 Hz2]. split; [intros E; apply spread_app; auto| |by apply Forall_app].
  apply Forall_app. split.
  - eapply Forall_impl; [exact Hi1|]. intros c Hc. apply (in_doc_take (length d1)). by rewrite take_app_length.
  - eapply Forall_impl; [exact Hi2|]. intros c Hc. apply (in_doc_drop (length d1)); [rewrite length_app; lia|]. by rewrite drop_app_length.
Qed.

(** One level: it returns a good split if the level below does for windows. *)
Lemma split_loop_good sep next fuel rest offset :
  0 < max_bytes -> sep <> [] -> sep ∈ seps ->
  (forall w off, length w <= max_bytes -> exists cs, next w off = Some cs /\ good w off cs) ->
  length rest <= fuel ->
  exists cs, split_loop max_bytes overlap_bytes sep next fuel rest offset = Some cs /\ good rest offset cs.
Proof.
  intros Hmax Hsep Hin Hnext. revert rest offset. induction fuel as [|fuel IH]; intros rest offset Hf; cbn [split_loop].
  { destruct rest; [|cbn in Hf; lia]. rewrite bool_decide_true by done. exists []. split; [done|]. split; [constructor|done..]. }
  case_bool_decide as Hr; [subst rest; exists []; split; [done|split; [constructor|done..]]|].
  destruct (Nat.leb_spec (length rest) max_bytes) as [Hl|Hl]; [eexists; split; [done|by apply good_trimmed]|].
  assert (length (take max_bytes rest) = max_bytes) as Hw by (rewrite length_take; lia).
  destruct (last_sep_loop_ok (S (length (take max_bytes rest))) sep (take max_bytes rest) 0 None) as (r & -> & Hat);
    [done|lia|lia|done|]. cbn [mbind option_bind]. destruct r as [i|].
  - specialize (Hat i eq_refl) as Hi. pose proof Hi as [_ Hle]. pose proof (sep_at_split _ _ _ Hi) as Hsplit.
    rewrite take_take, Nat.min_l in Hsplit by lia.
    assert (0 < length sep) as Hpos by (destruct sep; cbn; [done|lia]).
    set (adv := if _ && _ then _ else _). assert (0 < adv <= i + length sep /\ (overlap_bytes = 0 -> adv = i + length sep)) as [Hadv Hadv0].
    { subst adv. destruct (Nat.ltb_spec 0 overlap_bytes), (Nat.ltb_spec overlap_bytes (i + length sep)); cbn; lia. }
    clearbody adv. destruct (IH (drop adv rest) (offset + adv)) as (cs & -> & Hcs); [rewrite length_drop; lia|].
    cbn [mbind option_bind]. eexists. split; [done|]. destruct Hcs as [Hs Hi' Hz]. split.
    + intros E. specialize (Hs E). rewrite (Hadv0 E) in Hs.
      assert (rest = take i rest ++ sep ++ drop (i + length sep) rest) as Hrest.
      { rewrite <-(take_drop (i + length sep) rest) at 1. rewrite app_assoc. f_equal.
        replace (take (i + length sep) rest) with (take (i + length sep) (take max_bytes rest)) by (rewrite take_take; f_equal; lia).
        rewrite Hsplit.
        rewrite app_assoc, take_app_length'; [done|]. rewrite length_app, length_take. lia. }
      rewrite Hrest at 1. apply spread_chunk; [lia|]. apply spread_sep; [done|]. rewrite length_take, Nat.min_l by lia.
      by rewrite Nat.add_assoc in Hs.
    + constructor.
      * exists 0. cbn. rewrite drop_0, length_take, Nat.min_l by lia. split; [done|lia].
      * eapply Forall_impl; [exact Hi'|]. intros c Hc. apply (in_doc_drop adv); [lia|done].
    + constructor; [cbn; rewrite length_take; lia|done].
  - destruct (Hnext (take max_bytes rest) offset) as (cs1 & -> & H1); [lia|].
    destruct (IH (drop (length (take max_bytes rest)) rest) (offset + length (take max_bytes rest))) as (cs2 & -> & H2);
      [rewrite length_drop; lia|].
    cbn [mbind option_bind]. eexists. split; [done|]. rewrite <-(take_drop max_bytes rest). apply good_app; [done|].
    by rewrite Hw in H2 |- *.
Qed.

Lemma SplitRecursive_good below doc base :
  0 < max_bytes -> (forall sep, sep ∈ below -> sep ∈ seps) ->
  length doc <= max_bytes \/ Exists (fun sep => sep <> []) below ->
  exists cs, SplitRecursive max_bytes overlap_bytes below doc base = Some cs /\ good doc base cs.
Proof.
  intros Hmax. revert doc base. induction below as [|sep below IH]; intros doc base Hsub Hsep; cbn [SplitRecursive].
  - case_bool_decide as Hd; [subst; exists []; split; [done|split; [constructor|done..]]|].
    destruct Hsep as [Hl|Hx]; [|by apply Exists_nil in Hx]. eexists. split; [done|]. by apply good_whole.
  - case_bool_decide as Hd; [subst; exists []; split; [done|split; [constructor|done..]]|]. case_bool_decide as Hs.
    + apply IH; [intros; apply Hsub; by right|]. destruct Hsep as [?|[?|?]%Exists_cons]; [by left|done|by right].
    + apply split_loop_good; [done|done|apply Hsub; by left| |done].
      intros w off Hw. apply IH; [intros; apply Hsub; by right|by left].
Qed.
End split.

Lemma recursive_split_good o document :
  co_separators o = [] \/ Exists (fun sep => sep <> []) (co_separators o) ->
  let max := if co_max_chunk_bytes o =? 0 then 512 else co_max_chunk_bytes o in
  let seps := if bool_decide (co_separators o = []) then default_separators else co_separators o in
  exists cs, RecursiveChunk o document = Some cs /\
    Forall (fun c => length (cv_text c) <= max) cs /\ Forall (in_doc document 0) cs /\
    (co_overlap_bytes o = 0 -> spread seps document 0 cs).
Proof.
  intros Hsep max seps. unfold RecursiveChunk. fold max seps.
  assert (0 < max) as Hmax by (subst max; destruct (Nat.eqb_spec (co_max_chunk_bytes o) 0); lia).
  case_bool_decide as Hd; [subst; exists []; split; [done|]; split; [done|]; split; [done|]; constructor|].
  destruct (SplitRecursive_good max (co_overlap_bytes o) seps seps document 0) as (cs & E & [H1 H2 H3]); [done|done| |by exists cs].
  right. subst seps. case_bool_decide as Hs; [by left|]. by destruct Hsep.
Qed.

Lemma recursive_split_ok o document :
  co_separators o = [] \/ Exists (fun sep => sep <> []) (co_separators o) -> exists cs, RecursiveChunk o document = Some cs.
Proof. intros Hsep. destruct (recursive_split_good o document Hsep) as (cs & E & _). by exists cs. Qed.

(** C24. The recursive splitter returns for every document, and if some separator is
    not empty, as for the default ones, no chunk is longer than the limit,
    every chunk is a part of the document at or after its offset, and without
    overlap the document is the chunks in order with nothing but separators
    between them. *)
Theorem recursive_split_partitions o document :
  co_separators o = [] \/ Exists (fun sep => sep <> []) (co_separators o) ->
  let max := if co_max_chunk_bytes o =? 0 then 512 else co_max_chunk_bytes o in
  let seps := if bool_decide (co_separators o = []) then default_separators else co_separators o in
  exists cs, RecursiveChunk o document = Some cs /\
    Forall (fun c => length (cv_text c) <= max) cs /\ Forall (in_doc document 0) cs /\
    (co_overlap_bytes o = 0 -> spread seps document 0 cs).
Proof. apply recursive_split_good. Qed.

Lemma recursive_split_partitions_witness :
  exists cs, RecursiveChunk (MkRco 7 0 []) (bstr "edge db on a chip") = Some cs /\
    Forall (fun c => length (cv_text c) <= 7) cs /\ spread default_separators (bstr "edge db on a chip") 0 cs.
Proof.
  destruct (recursive_split_partitions (MkRco 7 0 []) (bstr "edge db on a chip")) as (cs & E & Hsz & _ & Hs); [by left|].
  exists cs. split; [exact E|]. split; [exact Hsz|]. by apply Hs.
Defined.

(** A chunk whose leading separators are trimmed keeps the offset of the
    separators: the text at its offset is another. *)
Lemma split_offset_before_trim :
  let doc := bstr "abcd  ef" in
  RecursiveChunk (MkRco 5 0 [bstr " "]) doc = Some [MkView (bstr "abcd") 0; MkView (bstr "ef") 5] /\
  take 2 (drop 5 doc) = bstr " e".
Proof. by vm_compute. Qed.

(** A window without the first separator fits the limit, so the level below
    emits it whole: the finer separators never split, and words are cut. *)
Lemma split_cuts_words :
  RecursiveChunk (MkRco 12 0 []) (bstr "edge node seven reports") =
    Some [MkView (bstr "edge node se") 0; MkView (bstr "ven reports") 12].
Proof. by vm_compute. Qed.

(** A separator at the start of a window gives an empty chunk. *)
Lemma split_emits_empty_chunk :
  RecursiveChunk (MkRco 3 0 [bstr " "]) (bstr " abcd") = Some [MkView [] 0; MkView (bstr "abc") 1; MkView (bstr "d") 4].
Proof. by vm_compute. Qed.

(** ** The sliding window *)

Lemma window_loop_spec fuel size stride doc offset :
  0 < size -> 0 < stride -> length doc <= offset + fuel ->
  exists cs, window_loop fuel size stride doc offset = Some cs /\
    (forall k, cs !! k = if offset + k * stride <? length doc
                         then Some (MkView (take size (drop (offset + k * stride) doc)) (offset + k * stride)) else None).
Proof.
  intros Hsz Hst. revert offset. induction fuel as [|fuel IH]; intros offset Hf; cbn [window_loop].
  { destruct (Nat.ltb_spec offset (length doc)); [lia|]. exists []. split; [done|]. intros k.
    destruct (Nat.ltb_spec (offset + k * stride) (length doc)); [lia|done]. }
  destruct (Nat.ltb_spec offset (length doc)) as [Ho|Ho].
  2: { exists []. split; [done|]. intros k. destruct (Nat.ltb_spec (offset + k * stride) (length doc)); [lia|done]. }
  assert (take (size `min` (length doc - offset)) (drop offset doc) = take size (drop offset doc)) as Et.
  { destruct (decide (size <= length doc - offset)); [by rewrite Nat.min_l|].
    rewrite Nat.min_r by lia. rewrite !take_ge; [done|rewrite length_drop; lia..]. }
  rewrite Et. destruct (Nat.leb_spec (length doc) (offset + stride)) as [Hl|Hl].
  - eexists. split; [done|]. intros [|k]; cbn [lookup list_lookup].
    + rewrite Nat.add_0_r. destruct (Nat.ltb_spec offset (length doc)); [done|lia].
    + destruct (Nat.ltb_spec (offset + S k * stride) (length doc)); [nia|done].
  - destruct (IH (offset + stride)) as (cs & -> & Hcs); [lia|]. eexists. split; [done|]. intros [|k]; cbn [lookup list_lookup].
    + rewrite Nat.add_0_r. destruct (Nat.ltb_spec offset (length doc)); [done|lia].
    + change (cs !! k = if offset + S k * stride <? length doc
        then Some (MkView (take size (drop (offset + S k * stride) doc)) (offset + S k * stride)) else None).
      rewrite Hcs. replace (offset + stride + k * stride) with (offset + S k * stride) by lia. done.
Qed.

Lemma windows_join size doc offset cs :
  0 < size ->
  (forall k, cs !! k = if offset + k * size <? length doc
                       then Some (MkView (take size (drop (offset + k * size) doc)) (offset + k * size)) else None) ->
  mjoin (cv_text <$> cs) = drop offset doc.
Proof.
  intros Hsz. revert offset. induction cs as [|c cs IH]; intros offset Hcs.
  - specialize (Hcs 0). rewrite Nat.mul_0_l, Nat.add_0_r in Hcs. destruct (Nat.ltb_spec offset (length doc)); [done|].
    by rewrite drop_ge by lia.
  - pose proof (Hcs 0) as H0. cbn [lookup list_lookup] in H0. rewrite Nat.mul_0_l, Nat.add_0_r in H0.
    destruct (Nat.ltb_spec offset (length doc)); [|done]. injection H0 as ->. cbn [fmap list_fmap].
    change (mjoin (?a :: ?l)) with (a ++ mjoin l). change (list_fmap _ _ cv_text cs) with (cv_text <$> cs). rewrite (IH (offset + size)).
    + cbn. rewrite <-drop_drop. apply take_drop.
    + intros k. specialize (Hcs (S k)). cbn [lookup list_lookup] in Hcs.
      change (cs !! k = if offset + S k * size <? length doc
        then Some (MkView (take size (drop (offset + S k * size) doc)) (offset + S k * size)) else None) in Hcs.
      rewrite Hcs. replace (offset + size + k * size) with (offset + S k * size) by lia. done.
Qed.

(** The sliding window returns for every document: the chunk number [k] is the
    window at [k] strides with exactly that offset, none is missing, and with
    the default stride the chunks put together are the document. *)
Theorem sliding_window_exact o document :
  let size := if sw_chunk_bytes o =? 0 then 256 else sw_chunk_bytes o in
  let stride := if sw_stride_bytes o =? 0 then size else sw_stride_bytes o in
  exists cs, SlidingChunk o document = Some cs /\
    (forall k, cs !! k = if k * stride <? length document
                         then Some (MkView (take size (drop (k * stride) document)) (k * stride)) else None) /\
    (stride = size -> mjoin (cv_text <$> cs) = document).
Proof.
  intros size stride. assert (0 < size) as Hsz by (subst size; destruct (Nat.eqb_spec (sw_chunk_bytes o) 0); lia).
  assert (0 < stride) as Hst by (subst stride; destruct (Nat.eqb_spec (sw_stride_bytes o) 0); lia).
  destruct (window_loop_spec (length document) size stride document 0) as (cs & E & Hcs); [done|done|lia|].
  exists cs. split; [exact E|]. split; [exact Hcs|]. intros Es. rewrite Es in Hcs.
  rewrite (windows_join size document 0 cs Hsz Hcs). by rewrite drop_0.
Qed.
