(* ===== verification/PipelineTheorems.v ===== *)
(** * The retrieval pipeline: what is ingested is retrieved

    Every chunk of every ingested document that has a word is stored with its
    text, and a query returns the texts of the chunks that share a word with
    it.  A second pipeline on the same store numbers its chunks from one again
    and replaces those of the first. *)
From S2P Require Import Prelude StdSort Env Types SearchParts Chunking ChunkTheorems Rag RagTheorems Pipeline.

Open Scope Z_scope.

Section pipeline.
Context `{RagScore} `{StdSort} `{NthElement} `{!MapOrder Z Z} `{EmbeddingProvider}.

(** A chunk together with the document it comes from. *)
Abbreviation dview := (Z * ChunkView)%type.

Definition from_view (d : dview) (rec : RagRecord) : Prop :=
  rr_doc_id rec = d.1 /\ rr_chunk_text rec = cv_text d.2 /\ rr_tokens rec = rag_Tokenize (cv_text d.2) /\ rr_tokens rec <> [].

(** The chunks after the views have been stored under consecutive identifiers. *)
Record stored (next : Z) (ds : list dview) (chunks chunks' : gmap Z RagRecord) : Prop := {
  sd_all i d : ds !! i = Some d -> rag_Tokenize (cv_text d.2) <> [] ->
    exists rec, chunks' !! (next + Z.of_nat i) = Some rec /\ from_view d rec;
  sd_old id : id < next \/ next + zlen ds <= id -> chunks' !! id = chunks !! id;
  sd_only id rec : chunks' !! id = Some rec -> chunks !! id = Some rec \/
    exists i d, ds !! i = Some d /\ id = next + Z.of_nat i /\ from_view d rec
}.

Lemma stored_nil next chunks : stored next [] chunks chunks.
Proof. split; [done|done|by left]. Qed.

Lemma stored_app next d1 d2 c0 c1 c2 :
  stored next d1 c0 c1 -> stored (next + zlen d1) d2 c1 c2 -> stored next (d1 ++ d2) c0 c2.
Proof.
  unfold zlen. intros [Ha1 Ho1 Hn1] [Ha2 Ho2 Hn2]. unfold zlen in *. split.
  - intros i d [Hi|[Hl Hi]]%lookup_app_Some Ht.
    + destruct (Ha1 i d Hi Ht) as (rec & Hr & Hv). exists rec. split; [|done]. apply lookup_lt_Some in Hi. by rewrite Ho2 by lia.
    + destruct (Ha2 _ d Hi Ht) as (rec & Hr & Hv). exists rec. split; [|done]. rewrite <-Hr. f_equal. lia.
  - intros id Hid. unfold zlen in Hid. rewrite length_app in Hid. rewrite Ho2, Ho1 by lia. done.
  - intros id rec [Hr|(i & d & Hi & -> & Hv)]%Hn2.
    + destruct (Hn1 id rec Hr) as [?|(i & d & Hi & -> & Hv)]; [by left|right]. exists i, d. split; [|done].
      by apply lookup_app_l_Some.
    + right. exists (length d1 + i)%nat, d. split; [by rewrite lookup_app_r, Nat.add_comm, Nat.add_sub by lia|]. split; [lia|done].
Qed.

(** A pipeline over an engine with these chunks. *)
Record pipe_ok (n : nat) (next : Z) (chunks : gmap Z RagRecord) (p : RagPipeline RagEngine) : Prop := {
  pk_rag : rag_ok n (rp_store p) chunks;
  pk_dim : rg_dim (rp_store p) = rp_embedding_dim p;
  pk_next : rp_next_chunk_id p = next
}.

Lemma put_batch_ok n next chunks doc_id views vs p :
  pipe_ok n next chunks p -> 0 <= next -> next + zlen views < 2 ^ 64 ->
  length vs = length views -> Forall (fun v => zlen v = rp_embedding_dim p) vs ->
  exists p' chunks', put_batch doc_id views vs p = Some (inr tt, p') /\ pipe_ok n (next + zlen views) chunks' p' /\
    stored next (pair doc_id <$> views) chunks chunks' /\ rp_options p' = rp_options p /\ rp_embedding_dim p' = rp_embedding_dim p.
Proof.
  revert next chunks vs p. induction views as [|view views IH]; intros next chunks vs p [Hok Hdim Hnext] Hge Hlt Hlen Hvs.
  { exists p, chunks. split; [done|]. split; [split; [done|done|rewrite Hnext; unfold zlen; cbn [length]; lia]|]. split; [apply stored_nil|done]. }
  destruct vs as [|v vs]; [done|]. apply Forall_cons in Hvs as [Hv Hvs]. cbn [length] in Hlen. injection Hlen as Hlen.
  assert (zlen (view :: views) = 1 + zlen views) as Hz by (unfold zlen; cbn [length]; lia). rewrite Hz in *. pose proof (zlen_nonneg views).
  cbn [put_batch tail]. rewrite Hnext, u64_id by (unfold is_u64; lia). case_bool_decide as Ht.
  - set (p1 := MkPipe _ _ _ _). destruct (IH (next + 1) chunks vs p1) as (p' & chunks' & E & Hp & Hs & Ho & Hd); [by split|lia|lia|done|done|].
    exists p', chunks'. split; [exact E|]. split; [by rewrite Z.add_assoc|].
    split; [|done]. apply (stored_app next [(doc_id, view)] _ chunks chunks); [|exact Hs].
    split; [|done|by left]. intros [|i] d; [|done]. intros [= <-] Hn. done.
  - set (c := MkChunk _ _ _ _ _ _ _). set (p1 := MkPipe _ _ _ _). cbn [store_put rag_store].
    destruct (rag_PutChunk_ok n (rp_store p1) chunks c Hok) as [Hok' Hdim'].
    assert (chunk_accepted (rg_dim (rp_store p1)) c = true) as Hacc.
    { unfold chunk_accepted. cbn [c rc_tokens rc_vec]. rewrite bool_decide_false by done. cbn [negb andb].
      apply Z.eqb_eq. rewrite Hv. symmetry. exact Hdim. }
    rewrite Hacc in Hok'. assert ((rag_PutChunk c (rp_store p1)).1 = inr tt) as Eok.
    { unfold rag_PutChunk. cbn [p1 rp_store]. rewrite (ro_opened _ _ _ Hok). cbn [negb]. rewrite bool_decide_false by done.
      cbn [c rc_vec]. rewrite Hv, Hdim, Z.eqb_refl. done. }
    destruct (rag_PutChunk c (rp_store p1)) as [r st]. cbn [fst snd] in *. subst r.
    set (p2 := MkPipe _ _ _ st). set (chunks1 := <[rc_chunk_id c := record_of c]> chunks) in *.
    destruct (IH (next + 1) chunks1 vs p2) as (p' & chunks' & E & Hp & Hs & Ho & Hd);
      [split; [done|cbn; rewrite Hdim'; exact Hdim|done]|lia|lia|done|done|].
    exists p', chunks'. split; [exact E|]. split; [by rewrite Z.add_assoc|].
    split; [|done]. apply (stored_app next [(doc_id, view)] _ chunks chunks1); [|exact Hs]. split.
    + intros [|i] d; [|done]. intros [= <-] Hn. exists (record_of c). change (Z.of_nat 0) with 0.
      rewrite Z.add_0_r. split; [apply lookup_insert_eq|done].
    + intros id Hid. unfold zlen in Hid. cbn [length] in Hid. apply lookup_insert_ne. cbn [c rc_chunk_id]. lia.
    + intros id rec [[<- <-]|[_ Hr]]%lookup_insert_Some; [right|by left]. exists 0%nat, (doc_id, view). split; [done|]. split; [cbn [c rc_chunk_id]; lia|done].
Qed.

Lemma put_batches_ok fuel n next chunks doc_id views p :
  pipe_ok n next chunks p -> embeds (rp_embedding_dim p) -> (0 < po_max_chunks_per_batch (rp_options p))%nat ->
  0 <= next -> next + zlen views < 2 ^ 64 -> (length views <= fuel)%nat ->
  exists p' chunks', put_batches fuel doc_id views p = Some (inr tt, p') /\ pipe_ok n (next + zlen views) chunks' p' /\
    stored next (pair doc_id <$> views) chunks chunks' /\ rp_options p' = rp_options p /\ rp_embedding_dim p' = rp_embedding_dim p.
Proof.
  revert next chunks views p. induction fuel as [|fuel IH]; intros next chunks views p Hp Hemb Hb Hge Hlt Hf.
  { destruct views; [|cbn in Hf; lia]. exists p, chunks. unfold zlen. cbn [length]. rewrite Z.add_0_r. split; [done|].
    split; [done|]. split; [apply stored_nil|done]. }
  destruct views as [|view views]; [exists p, chunks; unfold zlen; cbn [length]; rewrite Z.add_0_r; split; [done|];
    split; [done|]; split; [apply stored_nil|done]|].
  cbn [put_batches]. remember (view :: views) as l eqn:El. set (k := po_max_chunks_per_batch (rp_options p)) in *.
  assert (cv_text <$> take k l <> []) as Hne by (subst l; destruct k; [lia|done]).
  destruct (Hemb _ Hne) as (vs & -> & Hvl & Hvd). rewrite length_fmap in Hvl.
  assert (zlen (take k l) + zlen (drop k l) = zlen l) as Hz by (unfold zlen; rewrite length_take, length_drop; lia).
  pose proof (zlen_nonneg (take k l)). pose proof (zlen_nonneg (drop k l)).
  destruct (put_batch_ok n next chunks doc_id (take k l) vs p Hp Hge) as (p1 & c1 & -> & Hp1 & Hs1 & Ho1 & Hd1); [lia|done|done|].
  cbn [mbind option_bind]. destruct (IH (next + zlen (take k l)) c1 (drop k l) p1) as (p2 & c2 & -> & Hp2 & Hs2 & Ho2 & Hd2);
    [done|by rewrite Hd1|by rewrite Ho1|lia|lia|rewrite length_drop; subst l; cbn [length] in *; lia|].
  exists p2, c2. split; [done|]. split; [by rewrite <-Z.add_assoc, Hz in Hp2|]. split; [|split; congruence].
  rewrite <-(take_drop k l), fmap_app. eapply stored_app; [exact Hs1|]. unfold zlen in *. by rewrite length_fmap.
Qed.

(** The chunks of a document. *)
Definition views_of (o : RagPipelineOptions) (d : Z * bytes) : list dview :=
  pair d.1 <$> default [] (RecursiveChunk (MkRco (po_max_chunk_bytes o) (po_overlap_bytes o) []) d.2).

Definition ingest_all (docs : list (Z * bytes)) (p : RagPipeline RagEngine) : option ((Status + unit) * RagPipeline RagEngine) :=
  foldr (fun d k p => match IngestDocument d.1 d.2 p with
                      | Some (inr _, p) => k p
                      | r => r
                      end) (fun p => Some (inr tt, p)) docs p.

Lemma IngestDocument_ok n next chunks d p :
  pipe_ok n next chunks p -> embeds (rp_embedding_dim p) -> (0 < po_max_chunks_per_batch (rp_options p))%nat ->
  (length d.2 <= po_max_doc_bytes (rp_options p))%nat -> 0 <= next -> next + zlen (views_of (rp_options p) d) < 2 ^ 64 ->
  exists p' chunks', IngestDocument d.1 d.2 p = Some (inr tt, p') /\ pipe_ok n (next + zlen (views_of (rp_options p) d)) chunks' p' /\
    stored next (views_of (rp_options p) d) chunks chunks' /\ rp_options p' = rp_options p /\ rp_embedding_dim p' = rp_embedding_dim p.
Proof.
  intros Hp Hemb Hb Hl Hge Hlt. unfold IngestDocument. destruct (Nat.ltb_spec (po_max_doc_bytes (rp_options p)) (length d.2)); [lia|].
  unfold views_of in *. set (o := MkRco _ _ _) in *.
  destruct (recursive_split_ok o d.2) as [cs Ecs]; [by left|]. rewrite Ecs in *. cbn [mbind option_bind default from_option id] in *.
  unfold zlen in Hlt |- *. rewrite length_fmap in Hlt |- *. by apply put_batches_ok.
Qed.

Lemma ingest_all_ok n next chunks docs p :
  pipe_ok n next chunks p -> embeds (rp_embedding_dim p) -> (0 < po_max_chunks_per_batch (rp_options p))%nat ->
  Forall (fun d => (length d.2 <= po_max_doc_bytes (rp_options p))%nat) docs ->
  0 <= next -> next + zlen (docs ≫= views_of (rp_options p)) < 2 ^ 64 ->
  exists p' chunks', ingest_all docs p = Some (inr tt, p') /\ pipe_ok n (next + zlen (docs ≫= views_of (rp_options p))) chunks' p' /\
    stored next (docs ≫= views_of (rp_options p)) chunks chunks' /\ rp_embedding_dim p' = rp_embedding_dim p.
Proof.
  revert next chunks p. induction docs as [|d docs IH]; intros next chunks p Hp Hemb Hb Hl Hge Hlt.
  { exists p, chunks. unfold zlen. cbn [length]. rewrite Z.add_0_r. split; [done|]. split; [done|]. split; [apply stored_nil|done]. }
  apply Forall_cons in Hl as [Hd Hl]. rewrite bind_cons in *. unfold zlen in Hlt |- *. rewrite length_app, Nat2Z.inj_add in Hlt |- *.
  cbn [ingest_all foldr]. fold (ingest_all docs).
  destruct (IngestDocument_ok n next chunks d p Hp Hemb Hb Hd Hge) as (p1 & c1 & -> & Hp1 & Hs1 & Ho1 & Hd1); [unfold zlen; lia|].
  destruct (IH (next + zlen (views_of (rp_options p) d)) c1 p1) as (p2 & c2 & E & Hp2 & Hs2 & Hd2);
    [done|by rewrite Hd1|by rewrite Ho1|by rewrite Ho1|unfold zlen; lia|rewrite Ho1; unfold zlen; lia|].
  rewrite Ho1 in *. exists p2, c2. split; [exact E|]. unfold zlen in Hp2. rewrite Z.add_assoc. split; [exact Hp2|].
  split; [by eapply stored_app|congruence].
Qed.

(** ** Retrieval *)

Lemma rag_words_length text word : (length (rag_words text word) <= length text + length word)%nat.
Proof.
  revert word. induction text as [|c text IH]; intros word; cbn [rag_words].
  - case_bool_decide; [cbn; lia|]. destruct word; [done|cbn; lia].
  - destruct (rag_space c); [|etransitivity; [apply IH|]; rewrite length_app; cbn; lia].
    specialize (IH []). cbn in IH. case_bool_decide as Hw; cbn; [lia|]. destruct word; [done|cbn; lia].
Qed.

Lemma occ_length x l : (occ x l <= length l)%nat.
Proof. unfold occ. apply length_filter. Qed.

Lemma matches_bound tokens rec : (matches tokens rec <= length tokens * length (rr_tokens rec))%nat.
Proof.
  unfold matches. induction tokens as [|t tokens IH]; [done|]. cbn. pose proof (occ_length t (rr_tokens rec)). lia.
Qed.

Lemma matches_shares tokens rec : matches tokens rec <> 0%nat <-> Exists (fun t => t ∈ tokens) (rr_tokens rec).
Proof.
  unfold matches. rewrite Exists_exists. split.
  - intros Hm. induction tokens as [|t tokens IH]; [done|]. cbn in Hm. destruct (decide (occ t (rr_tokens rec) = 0%nat)) as [E|E].
    + destruct IH as (u & H3 & H4); [lia|]. exists u. set_solver.
    + exists t. split; [|by left]. destruct (decide (t ∈ rr_tokens rec)) as [|Hn]; [done|]. by apply occ_0 in Hn.
  - intros (u & Hu & Ht) Hm. induction tokens as [|t tokens IH]; [by apply not_elem_of_nil in Ht|]. cbn in Hm.
    apply elem_of_cons in Ht as [->|Ht]; [apply occ_elem in Hu; lia|]. apply IH; [done|lia].
Qed.

Definition shares (query : bytes) (d : dview) : Prop :=
  Exists (fun t => t ∈ rag_Tokenize query) (rag_Tokenize (cv_text d.2)).
#[global] Instance shares_dec query d : Decision (shares query d).
Proof. unfold shares. apply _. Defined.

Lemma list_to_set_size (l : list Z) : (size (list_to_set l : gset Z) <= length l)%nat.
Proof.
  induction l as [|x l IH]; [done|]. cbn [list_to_set length]. rewrite size_union_alt, size_singleton.
  assert (list_to_set l ∖ {[x]} ⊆ (list_to_set l : gset Z)) as Hs%subseteq_size by set_solver. lia.
Qed.

Lemma length_filter_imap (f : nat -> nat) query ds :
  length (filter (fun p => shares query p.2) (imap (fun i d => (f i, d)) ds)) = length (filter (shares query) ds).
Proof.
  revert f. induction ds as [|d ds IH]; intros f; [done|]. rewrite imap_cons, !filter_cons. cbn [snd].
  specialize (IH (f ∘ S)).
  destruct (decide (shares query d)); [cbn [length]; f_equal|]; exact IH.
Qed.

(** The chunks found for a query are stored views that share a word with it. *)
Lemma found_views ds chunks query :
  stored 1 ds ∅ chunks ->
  let found := filter (fun p => matches (rag_Tokenize query) p.2 <> 0%nat) chunks in
  (forall id rec, found !! id = Some rec -> exists i d, ds !! i = Some d /\ id = 1 + Z.of_nat i /\ shares query d /\ rr_chunk_text rec = cv_text d.2) /\
  (forall i d, ds !! i = Some d -> shares query d -> exists rec, found !! (1 + Z.of_nat i) = Some rec /\ rr_chunk_text rec = cv_text d.2) /\
  (size found <= length (filter (shares query) ds))%nat.
Proof.
  intros [Hall _ Honly] found.
  assert (forall id rec, found !! id = Some rec -> exists i d, ds !! i = Some d /\ id = 1 + Z.of_nat i /\ shares query d /\ rr_chunk_text rec = cv_text d.2) as Hf.
  { intros id rec [Hr Hm]%map_lookup_filter_Some. cbn in Hm. destruct (Honly id rec Hr) as [?|(i & d & Hi & -> & (_ & Htx & Htok & _))]; [done|].
    exists i, d. split; [done|]. split; [done|]. split; [|done]. unfold shares. rewrite <-Htok. by apply matches_shares. }
  split; [exact Hf|]. split.
  - intros i d Hi Hs. destruct (Hall i d Hi) as (rec & Hr & (_ & Htx & Htok & _)).
    { unfold shares in Hs. intros E. rewrite E in Hs. by apply Exists_nil in Hs. }
    exists rec. split; [|done]. apply map_lookup_filter_Some. split; [done|]. cbn. apply matches_shares. by rewrite Htok.
  - rewrite <-size_dom. set (ids := (fun p => 1 + Z.of_nat p.1) <$> filter (fun p => shares query p.2) (imap pair ds)).
    transitivity (size (list_to_set ids : gset Z)).
    + apply subseteq_size. intros id [rec Hr]%elem_of_dom. destruct (Hf id rec Hr) as (i & d & Hi & -> & Hs & _).
      apply elem_of_list_to_set, list_elem_of_fmap. exists (i, d). split; [done|]. apply list_elem_of_filter. split; [done|].
      apply list_elem_of_lookup. exists i. by rewrite list_lookup_imap, Hi.
    + transitivity (length ids); [apply list_to_set_size|]. subst ids. rewrite length_fmap. by apply Nat.eq_le_incl, (length_filter_imap (fun i => i)).
Qed.

(** C12. What is ingested is retrieved.  Let documents of at most [max_doc_bytes]
    bytes be ingested into a fresh store, with an embedding provider that
    answers with vectors of the right dimension and a positive batch size; let
    fewer than 2^64-1 chunks arise, with fewer than 2^32 matches of the query
    in a chunk, and let the query have at least one token (a token is the
    32-bit hash of a word).  For a [top_k] of at most 500, the number of candidates the store
    keeps, the retrieval returns the joined texts of at most [top_k] chunks,
    each a chunk of an ingested document that has a token in common with the
    query, and of every such chunk when there are at most [top_k] of them. *)
Theorem pipeline_retrieves_ingested n dim o docs query top_k :
  0 < n -> 0 < dim -> embeds dim -> (0 < po_max_chunks_per_batch o)%nat ->
  Forall (fun d => (length d.2 <= po_max_doc_bytes o)%nat) docs ->
  let ds := docs ≫= views_of o in
  zlen ds < 2 ^ 64 - 1 -> rag_Tokenize query <> [] -> 0 <= top_k <= 500 ->
  Forall (fun d => Z.of_nat (length (rag_Tokenize query) * length (rag_Tokenize (cv_text d.2))) < 2 ^ 32) ds ->
  exists p texts,
    ingest_all docs (MkPipe dim o 1 (rag_Open (MkRag true n dim false [])).2) = Some (inr tt, p) /\
    RetrieveContext query top_k p = Some (inr (join_lines texts)) /\
    (forall t, t ∈ texts -> exists d, d ∈ ds /\ shares query d /\ t = cv_text d.2) /\ zlen texts <= top_k /\
    (Z.of_nat (length (filter (shares query) ds)) <= top_k -> forall d, d ∈ ds -> shares query d -> cv_text d.2 ∈ texts).
Proof.
  intros Hn Hd Hemb Hb Hdocs ds Hds Hq Hk Hbound. set (p0 := MkPipe _ _ _ _).
  destruct (rag_new_ok n dim Hn) as [Hok0 Hdim0]; [lia|].
  destruct (ingest_all_ok (Z.to_nat n) 1 ∅ docs p0) as (p & chunks & Ei & [Hok Hdim Hnext] & Hst & Hpd);
    [by split|done|done|done|done|fold ds; cbn [p0 rp_options]; fold ds; lia|].
  cbn [p0 rp_options rp_embedding_dim] in Hst, Hpd. fold ds in Hst.
  destruct (found_views ds chunks query Hst) as (Hf1 & Hf2 & Hf3).
  destruct (Hemb [query]) as ([|v [|? ?]] & Ev & Hvl & _); [done|done| |done].
  assert (forall id rec, chunks !! id = Some rec -> Z.of_nat (matches (rag_Tokenize query) rec) < 2 ^ 32) as Hm.
  { intros id rec Hr. destruct (sd_only _ _ _ _ Hst id rec Hr) as [?|(i & d & Hi & -> & (_ & _ & Htok & _))]; [done|].
    pose proof (matches_bound (rag_Tokenize query) rec) as Hmb. rewrite Htok in Hmb.
    rewrite Forall_forall in Hbound. specialize (Hbound d (list_elem_of_lookup_2 _ _ _ Hi)). cbn beta in Hbound. lia. }
  destruct (rag_search_ok _ _ _ (MkRq (rag_Tokenize query) (Some v) top_k) (MkRo 500 0 true) Hok)
    as (hits & ex & Es & Hnd & Hlen & Hh & Hbest & _); [done|cbn; lia|done|done|right; cbn; lia|].
  cbn [rq_tokens rq_topk] in Hlen, Hh, Hbest. set (found := filter _ chunks) in *.
  exists p, (rh_chunk_text <$> hits). split; [exact Ei|]. split.
  { unfold RetrieveContext. rewrite Hpd, Ev. cbn [store_search rag_store]. by rewrite Es. }
  split; [|split].
  - intros t (h & -> & Hin)%list_elem_of_fmap. destruct (Hh h Hin) as (rec & Hr & Eh).
    destruct (Hf1 _ _ Hr) as (i & d & Hi & _ & Hs & Htx). exists d. split; [by eapply list_elem_of_lookup_2|]. split; [done|].
    rewrite Eh. cbn. done.
  - unfold zlen. rewrite length_fmap, Hlen. lia.
  - intros Hroom d Hin Hs. apply list_elem_of_lookup in Hin as [i Hi]. destruct (Hf2 i d Hi Hs) as (rec & Hr & Htx).
    assert (1 + Z.of_nat i ∈ rh_chunk_id <$> hits) as (h & Eid & Hhin)%list_elem_of_fmap.
    { assert (list_to_set (rh_chunk_id <$> hits) = dom found) as Heq.
      { apply set_subseteq_size_eq.
        - intros id (h & -> & Hhin)%elem_of_list_to_set%list_elem_of_fmap. destruct (Hh h Hhin) as (rec' & Hr' & _).
          apply elem_of_dom. by exists rec'.
        - rewrite size_dom, size_list_to_set, length_fmap, Hlen by done. lia. }
      apply (elem_of_list_to_set (C := gset Z)). rewrite Heq. apply elem_of_dom. by exists rec. }
    destruct (Hh h Hhin) as (rec' & Hr' & Eh). rewrite <-Eid, Hr in Hr'. injection Hr' as <-.
    apply list_elem_of_fmap. exists h. split; [|done]. rewrite Eh. cbn. done.
Qed.
End pipeline.

(** ** A run *)

#[local] Existing Instances insertion_StdSort insertion_NthElement default_order.
#[local] Instance toy_scores : RagScore := {| f32_of_u32 n := n; score_add := Z.add; score_dot v w := 0 |}.
#[local] Instance toy_provider : EmbeddingProvider := mock_provider (fun n => n) Z.div Z.sub 2.

Definition toy_options : RagPipelineOptions := MkRpo 12 100 2 0.
Definition toy_docs : list (Z * bytes) := [(7, bstr "edge node seven reports"); (8, bstr "cloud core")].

Lemma pipeline_retrieves_ingested_witness :
  exists p texts,
    ingest_all toy_docs (MkPipe 2 toy_options 1 (rag_Open (MkRag true 3 2 false [])).2) = Some (inr tt, p) /\
    RetrieveContext (bstr "which node") 5 p = Some (inr (join_lines texts)) /\ bstr "edge node se" ∈ texts.
Proof.
  destruct (pipeline_retrieves_ingested 3 2 toy_options toy_docs (bstr "which node") 5) as (p & texts & E1 & E2 & _ & _ & Hall).
  - done.
  - done.
  - by apply mock_embeds.
  - cbn. lia.
  - by apply (bool_decide_eq_true_1 _); vm_compute.
  - by vm_compute.
  - by vm_compute.
  - done.
  - by apply (bool_decide_eq_true_1 _); vm_compute.
  - exists p, texts. split; [exact E1|]. split; [exact E2|].
    apply (Hall ltac:(by vm_compute) (7, MkView (bstr "edge node se") 0)); [by apply (list_elem_of_lookup_2 _ 0); vm_compute|].
    by apply (bool_decide_eq_true_1 _); vm_compute.
Defined.

(** The text retrieved for a query, after two pipelines have each ingested one
    document into the same store. *)
Definition two_pipelines (query : bytes) : option (Status + bytes) :=
  '(_, p1) ← IngestDocument 7 (bstr "edge node") (MkPipe 2 toy_options 1 (rag_Open (MkRag true 3 2 false [])).2);
  '(_, p2) ← IngestDocument 8 (bstr "cloud core") (MkPipe 2 toy_options 1 (rp_store p1));
  RetrieveContext query 5 p2.

(** Every pipeline numbers its chunks from one: the second pipeline on a store
    replaces the chunks of the first, whose document is no longer found. *)
Lemma second_pipeline_replaces_chunks :
  two_pipelines (bstr "edge") = Some (inr []) /\ two_pipelines (bstr "cloud") = Some (inr (bstr "cloud core")).
Proof. by vm_compute. Qed.

(** A batch size of zero never finishes: no amount of fuel is enough. *)
Lemma zero_batch_never_returns fuel doc_id view views dim next st :
  (forall texts d, exists e, Embed texts d = inr e) ->
  put_batches fuel doc_id (view :: views) (MkPipe dim (MkRpo 12 100 0 0) next st) = None.
Proof.
  intros Hemb. induction fuel as [|fuel IH]; [done|]. cbn [put_batches rp_options po_max_chunks_per_batch take drop].
  destruct (Hemb (cv_text <$> []) dim) as [e E]. cbn [rp_embedding_dim] in *. rewrite E. cbn. exact IH.
Qed.
