(* ===== verification/Compact.v ===== *)
(** * Compaction of a shard's segments (src/core/shard/runtime.cc)

    [HandleCompact] and the compaction branch of [PumpBackgroundWork]: a k-way
    merge of the segments that keeps the newest live version of every
    identifier, writes new segments, commits them as the whole segment list,
    installs them and removes the old files.  The counters of the job, which
    nothing reads, and the IVF side index it feeds are not modelled. *)
From S2P Require Import Prelude FlatHash Env Types Wal Text PosixFile Manifest IoProvider SegmentManifest.
From S2P Require Import MemTable Segment Layers Runtime.

Open Scope Z_scope.

(** src/core/storage/compaction_manager.cc:17-46 [CompactionManager::PickCompaction].
    Whether a task is picked for the one level-0 entry a shard passes, whose
    score is [n / 4.0]: the loop looks at that entry only, the bias does not
    matter, and the score exceeds 1 exactly when [n] exceeds 4. *)
Definition PickCompaction (n : Z) : bool := 4 <? n.

(** src/core/shard/runtime.cc:244-254 [BackgroundJob::CompactCursor]. *)
Record CompactCursor : Type := MkCursor {
  cc_id : Z;
  cc_seg_idx : nat;
  cc_entry_idx : nat;
  cc_is_deleted : bool
}.

(** src/core/shard/runtime.cc:250-253 [CompactCursor::operator>]. [b > a], so
    that [a] leaves the heap before [b]. *)
Definition cursor_before (a b : CompactCursor) : bool :=
  if negb (cc_id a =? cc_id b) then cc_id a <? cc_id b else (cc_seg_idx a <? cc_seg_idx b)%nat.

(** [heap.push]: the heap is the list of its cursors in the order in which they
    leave it.  Two cursors of a job never compare equal. *)
Fixpoint heap_push (c : CompactCursor) (heap : list CompactCursor) : list CompactCursor :=
  match heap with
  | [] => [c]
  | d :: heap' => if cursor_before d c then d :: heap_push c heap' else c :: heap
  end.

(** src/table/segment.cc:832-867 [SegmentReader::ReadAt]. The call with null
    pointers for the vector and the metadata. *)
Definition sr_ReadAtId (r : SegmentReader) (index : Z) : option (Status + (Z * bool)) :=
  if sr_count r <=? index then Some (inl (InvalidArgument "index out of range")) else
  let p := sr_entries_start_offset r + index * sr_entry_size r in
  id ← rd_int (sr_data r) p 8;
  flags ← rd_int (sr_data r) (p + 8) 1;
  Some (inr (id, Z.testbit flags 0)).

Section compact.
Context {T : Type} `{IdMap T (option bytes)} `{F32} `{AesGcm}.
Context (quant_decode : SegmentReader -> bytes -> vec).

(** src/table/segment.cc:733-755 [SegmentReader::FindAndDecode]. *)
Definition sr_FindAndDecode (r : SegmentReader) (id : Z) : option (FoundVec * Metadata) :=
  '(res, m) ← sr_FindRaw r id md_default;
  match res with
  | kFound p =>
      if sr_quant_type r =? kNone_q
      then b ← rd (sr_data r) p (sr_dim r * 4); Some (FVFound (read_vec (Z.to_nat (sr_dim r)) b), m)
      else b ← rd (sr_data r) p (if sr_quant_type r =? kFp16_q then sr_dim r * 2 else sr_dim r);
           Some (FVFound (quant_decode r b), m)
  | kFoundTombstone => Some (FVTombstone, m)
  | kNotFound => Some (FVNone, m)
  end.

(** src/core/shard/runtime.cc:256-273 [BackgroundJob::CompactState]. *)
Record CompactState : Type := MkCompact {
  cp_phase : Phase;
  cp_input_segments : list SegmentReader;
  cp_heap : list CompactCursor;
  cp_last_id : Z;
  cp_is_first : bool;
  cp_builder : option SegmentBuilder;
  cp_filename : bytes;
  cp_segment_part : nat;
  cp_built_segments : list (bytes * SegmentReader);
  cp_old_segments : list SegmentReader
}.

Definition cp_to (p : Phase) (s : CompactState) : CompactState :=
  MkCompact p (cp_input_segments s) (cp_heap s) (cp_last_id s) (cp_is_first s) (cp_builder s) (cp_filename s)
    (cp_segment_part s) (cp_built_segments s) (cp_old_segments s).
Definition cp_with_heap (heap : list CompactCursor) (s : CompactState) : CompactState :=
  MkCompact (cp_phase s) (cp_input_segments s) heap (cp_last_id s) (cp_is_first s) (cp_builder s) (cp_filename s)
    (cp_segment_part s) (cp_built_segments s) (cp_old_segments s).
(** [state.last_id = id; state.is_first = false;] *)
Definition cp_seen (id : Z) (s : CompactState) : CompactState :=
  MkCompact (cp_phase s) (cp_input_segments s) (cp_heap s) id false (cp_builder s) (cp_filename s)
    (cp_segment_part s) (cp_built_segments s) (cp_old_segments s).
Definition cp_with_builder (filename : bytes) (b : SegmentBuilder) (s : CompactState) : CompactState :=
  MkCompact (cp_phase s) (cp_input_segments s) (cp_heap s) (cp_last_id s) (cp_is_first s) (Some b) filename
    (cp_segment_part s) (cp_built_segments s) (cp_old_segments s).

(** A read of segment memory; outside the mapping it is undefined. *)
Definition mem_read {A} (x : option A) : M (VectorRuntime T) A :=
  match x with Some a => mret a | None => mfail (Undefined "read outside a segment") end.

(** [if (input[seg]->ReadAt(entry, &id, nullptr, &del).ok()) heap.push(...)] *)
Definition push_entry (inputs : list SegmentReader) (seg entry : nat) (heap : list CompactCursor)
    : M (VectorRuntime T) (list CompactCursor) :=
  match inputs !! seg with
  | None => mfail (Undefined "segment index")
  | Some r =>
      st ← mem_read (sr_ReadAtId r (Z.of_nat entry));
      mret (match st with
            | inr (id, del) => heap_push (MkCursor id seg entry del) heap
            | inl _ => heap
            end)
  end.

(** src/core/shard/runtime.cc:1260-1266 [VectorRuntime::PumpBackgroundWork]. The
    first entry of every input segment. *)
Fixpoint fill_heap (inputs : list SegmentReader) (n seg : nat) (heap : list CompactCursor)
    : M (VectorRuntime T) (list CompactCursor) :=
  match n with
  | O => mret heap
  | S n => heap ← push_entry inputs seg 0 heap; fill_heap inputs n (S seg) heap
  end.

(** src/core/shard/runtime.cc:1296-1302 [VectorRuntime::PumpBackgroundWork]. *)
Definition compacted_filename (tick : Z) (part : nat) : bytes :=
  bstr "seg_" ++ to_string tick ++ bstr "_compacted_" ++ to_string (Z.of_nat part) ++ bstr ".dat".

(** src/core/shard/runtime.cc:1279-1319 [VectorRuntime::PumpBackgroundWork]. A
    cursor whose identifier is new: [true] when the builder is full and the
    loop is left. *)
Definition compact_new_id (now_sec tick : Z) (top : CompactCursor) (s : CompactState)
    : M (VectorRuntime T) (bool * CompactState) :=
  if cc_is_deleted top then mret (false, s) else
  match cp_input_segments s !! cc_seg_idx top with
  | None => mfail (Undefined "segment index")
  | Some seg =>
      '(found, meta) ← mem_read (sr_FindAndDecode seg (cc_id top));
      match found with
      | FVFound v =>
          r ← mget;
          if VectorMetaExpired (rc_ttl_sec (rt_conf r)) now_sec meta then mret (false, s) else
          let filename := match cp_builder s with
                          | Some _ => cp_filename s
                          | None => compacted_filename tick (cp_segment_part s)
                          end in
          let builder := default (MkBuilder (path_join (rc_data_dir (rt_conf r)) (text filename)) (rc_dim (rt_conf r)) [])
                                 (cp_builder s) in
          let '(st, builder) := sb_Add (cc_id top) v false meta builder in
          match st with
          | inl e => mfail (Internal ("Compact: SegmentBuilder::Add failed: " +:+ st_message e))
          | inr _ =>
              let s := cp_with_builder filename builder s in
              mret (if kMaxSegmentEntries <=? sb_Count builder then (true, cp_to kFinalizeSegment s) else (false, s))
          end
      | _ => mret (false, s)
      end
  end.

(** src/core/shard/runtime.cc:1273-1332 [VectorRuntime::PumpBackgroundWork]. One
    cursor of the merge loop; a full builder leaves the loop before the cursor
    is advanced and before its identifier is recorded. *)
Definition compact_entry (now_sec tick : Z) (top : CompactCursor) (s : CompactState) : M (VectorRuntime T) CompactState :=
  '(full, s) ← (if cp_is_first s || negb (cc_id top =? cp_last_id s)
                then '(full, s) ← compact_new_id now_sec tick top s;
                     mret (full : bool, if full then s else cp_seen (cc_id top) s)
                else mret (false, s));
  if (full : bool) then mret s else
  heap ← push_entry (cp_input_segments s) (cc_seg_idx top) (S (cc_entry_idx top)) (cp_heap s);
  mret (cp_with_heap heap s).

(** src/core/shard/runtime.cc:1258-1336 [VectorRuntime::PumpBackgroundWork]. A
    round of the build phase with one cursor; a budget that runs out between
    two cursors only suspends the loop. *)
Definition compact_build (now_sec tick : Z) (s : CompactState) : M (VectorRuntime T) CompactState :=
  heap ← (if bool_decide (cp_heap s = []) && bool_decide (cp_builder s = None)
          then fill_heap (cp_input_segments s) (length (cp_input_segments s)) 0 []
          else mret (cp_heap s));
  if bool_decide (heap = []) && bool_decide (cp_builder s = None) then mret (cp_to kCommitManifest s) else
  s ← match heap with
      | [] => mret s
      | top :: heap => compact_entry now_sec tick top (cp_with_heap heap s)
      end;
  mret (if bool_decide (cp_heap s = []) && negb (bool_decide (cp_builder s = None)) then cp_to kFinalizeSegment s else s).

(** src/core/shard/runtime.cc:1337-1372 [VectorRuntime::PumpBackgroundWork]. The
    finalize phase, without the sidecar index of [BuildIndex]. *)
Definition compact_finalize (s : CompactState) : M (VectorRuntime T) CompactState :=
  match cp_builder s with
  | None => mret (cp_to kCommitManifest s)
  | Some b =>
      r ← mget;
      job_step "Compact: SegmentBuilder::Finish failed: " (on_fs (sb_Finish b)) ;;
      job_step "Compact: FsyncDir after segment failed: " (on_fs (FsyncDir (rc_data_dir (rt_conf r)))) ;;
      reader ← job_step "Compact: SegmentReader::Open failed: " (on_fs (sr_Open (sb_path b)));
      size ← on_fs (try_ (GetFileSize (sb_path b)));
      mmodify (note_segment_bytes (match size with inr n => n | inl _ => 2 ^ 64 - 1 end)) ;;
      mret (MkCompact (if bool_decide (cp_heap s = []) then kCommitManifest else kBuild) (cp_input_segments s) (cp_heap s)
        (cp_last_id s) (cp_is_first s) None (cp_filename s) (S (cp_segment_part s))
        (cp_built_segments s ++ [(cp_filename s, reader)]) (cp_old_segments s))
  end.

(** [std::error_code ec; fs::remove(p, ec);] *)
Definition fs_remove (p : path) : M fs unit :=
  d ← next_fault;
  match d with
  | None => mmodify (fun f => MkFs (delete p (fs_files f)) (fs_faults f))
  | Some _ => mret tt
  end.

(** src/core/shard/runtime.cc:1391-1400 [VectorRuntime::PumpBackgroundWork]. *)
Fixpoint remove_old (old : list SegmentReader) : M (VectorRuntime T) unit :=
  match old with
  | [] => mret tt
  | seg :: old => on_fs (fs_remove (sr_path seg)) ;; remove_old old
  end.

(** src/core/shard/runtime.cc:1253-1411 [VectorRuntime::PumpBackgroundWork]. One
    round of the compaction loop; [None] when the job has completed. *)
Definition compact_step (now_sec tick : Z) (s : CompactState) : M (VectorRuntime T) (option CompactState) :=
  match cp_phase s with
  | kBuild => s ← compact_build now_sec tick s; mret (Some s)
  | kFinalizeSegment => s ← compact_finalize s; mret (Some s)
  | kCommitManifest =>
      r ← mget;
      job_step "Compact: SegmentManifest::Commit failed: "
        (on_fs (sm_Commit (rc_data_dir (rt_conf r)) (reverse (cp_built_segments s).*1))) ;;
      mret (Some (cp_to kInstall s))
  | kInstall =>
      mmodify (fun r => with_layers (rt_mem r) (rt_frozen_mem r) (reverse (cp_built_segments s).*2) r) ;;
      mret (Some (cp_to kCleanup s))
  | kCleanup => remove_old (cp_old_segments s) ;; mret (Some (cp_to kPublish s))
  | kPublish => mmodify PublishSnapshot ;; mret (Some (cp_to kDone s))
  | kDone => mret None
  | kResetWal => mret (Some s)
  end.

(** src/core/shard/runtime.cc:997-1008 [VectorRuntime::HandleCompact]. *)
Fixpoint compact_run (rounds : nat) (clock : nat -> Z * Z) (s : CompactState) : M (VectorRuntime T) unit :=
  match rounds with
  | O => mfail (Aborted "Compaction timed out")
  | S rounds =>
      let '(now_sec, tick) := clock rounds in
      next ← compact_step now_sec tick s;
      match next with
      | None => mret tt
      | Some s => compact_run rounds clock s
      end
  end.

(** [total_size += fs::file_size(seg->Path());], which throws when it fails. *)
Fixpoint segment_sizes (segs : list SegmentReader) : M (VectorRuntime T) Z :=
  match segs with
  | [] => mret 0
  | seg :: segs =>
      st ← on_fs (try_ (GetFileSize (sr_path seg)));
      match st with
      | inl _ => mfail (Undefined "filesystem_error")
      | inr n => total ← segment_sizes segs; mret (u64 (n + total))
      end
  end.

(** src/core/shard/runtime.cc:950-1009 [VectorRuntime::HandleCompact]. *)
Definition HandleCompact (rounds : nat) (clock : nat -> Z * Z) : M (VectorRuntime T) unit :=
  r ← mget;
  _ ← segment_sizes (rt_segments r);
  let n := zlen (rt_segments r) in
  if negb (PickCompaction n) && (n <=? 1) then mret tt else
  compact_run rounds clock
    (MkCompact kBuild (rt_segments r) [] (2 ^ 64 - 1) true None [] 0 [] (rt_segments r)).

(** src/core/shard/runtime.cc:713-719 [VectorRuntime::Compact]. *)
Definition rt_Compact (rounds : nat) (clock : nat -> Z * Z) : M (VectorRuntime T) unit :=
  r ← mget;
  mguard (rt_started r) (Aborted "shard not started") ;;
  HandleCompact rounds clock.

End compact.
