(* ===== verification/CompactTheorems.v ===== *)
(** * Theorems about compaction

    Without I/O errors, and as long as the live entries fit one segment, a
    compaction completes within a stated number of rounds, leaves one segment
    with exactly the newest live version of every identifier, changes no
    vector that a lookup finds, and commits a list from which a restart finds
    the same.  When nothing is live it never ends; when the builder fills up,
    the rest of an input segment is lost. *)
From S2P Require Import Prelude FlatHash Env Types Wal WalCodec WalLog WalTheorems Text PosixFile.
From S2P Require Import Manifest IoProvider SegmentManifest MemTable MemTableTheorems Segment.
From S2P Require Import SegmentTheorems Layers Runtime RuntimeTheorems FreezeDisk FreezeTheorems Compact.

Open Scope Z_scope.

(** ** The heap *)

Definition cur_le (a b : CompactCursor) : Prop := cursor_before b a = false.

Lemma cursor_before_spec a b :
  cursor_before a b = true <-> (cc_id a < cc_id b \/ (cc_id a = cc_id b /\ (cc_seg_idx a < cc_seg_idx b)%nat)).
Proof.
  unfold cursor_before. destruct (Z.eqb_spec (cc_id a) (cc_id b)); cbn [negb].
  - rewrite Nat.ltb_lt. lia.
  - rewrite Z.ltb_lt. lia.
Qed.

Lemma cur_le_spec a b :
  cur_le a b <-> (cc_id a < cc_id b \/ (cc_id a = cc_id b /\ (cc_seg_idx a <= cc_seg_idx b)%nat)).
Proof. unfold cur_le. rewrite <-not_true_iff_false, cursor_before_spec. lia. Qed.

#[global] Instance cur_le_trans : Transitive cur_le.
Proof. intros a b c. rewrite !cur_le_spec. lia. Qed.

Lemma heap_push_perm c heap : heap_push c heap ≡ₚ c :: heap.
Proof.
  induction heap as [|d heap IH]; [done|]. cbn [heap_push]. destruct (cursor_before d c); [|done].
  rewrite IH. by constructor.
Qed.

Lemma heap_push_sorted c heap : StronglySorted cur_le heap -> StronglySorted cur_le (heap_push c heap).
Proof.
  induction 1 as [|d heap Hs IH Hd]; cbn [heap_push]; [by repeat constructor|].
  destruct (cursor_before d c) eqn:E.
  - constructor; [done|]. rewrite heap_push_perm. constructor; [|done].
    apply cursor_before_spec in E. apply cur_le_spec. lia.
  - constructor; [by constructor|]. constructor; [done|]. eapply Forall_impl; [exact Hd|]. intros x Hx. by etrans.
Qed.

(** ** Merging sorted lists *)

Section merge.
Context (lists : list (list SegEntry)).
Context (Hsort : Forall (StronglySorted (fun a b => se_id a < se_id b)) lists).

(** The entry a cursor points to. *)
Definition entry_at (seg entry : nat) : option SegEntry := l ← lists !! seg; l !! entry.

Definition cursor_for (seg entry : nat) (e : SegEntry) : CompactCursor := MkCursor (se_id e) seg entry (se_deleted e).

(** [heap] holds the cursors at the positions [idxs]. *)
Record merging (idxs : list nat) (heap : list CompactCursor) : Prop := {
  mg_len : length idxs = length lists;
  mg_nodup : NoDup heap;
  mg_sorted : StronglySorted cur_le heap;
  mg_elem c : c ∈ heap <-> exists e, idxs !! cc_seg_idx c = Some (cc_entry_idx c) /\
    entry_at (cc_seg_idx c) (cc_entry_idx c) = Some e /\ c = cursor_for (cc_seg_idx c) (cc_entry_idx c) e
}.

(** What is left to merge. *)
Definition rest (idxs : list nat) : list SegEntry := concat (zip_with drop idxs lists).

(** [heap.push] of the entry at a position, if there is one. *)
Definition push_at (seg entry : nat) (heap : list CompactCursor) : list CompactCursor :=
  match entry_at seg entry with
  | Some e => heap_push (cursor_for seg entry e) heap
  | None => heap
  end.

(** Every segment is exhausted. *)
Lemma merging_none : merging (length <$> lists) [].
Proof.
  split; [by rewrite length_fmap|constructor..|]. intros c. split; [by intros ?%not_elem_of_nil|].
  intros (e & Hc & He & _). unfold entry_at in He. rewrite list_lookup_fmap in Hc.
  destruct (lists !! cc_seg_idx c) as [l|]; [|done]. injection Hc as Hc. cbn in He.
  rewrite <-Hc in He. by rewrite lookup_ge_None_2 in He.
Qed.

(** Moving the position of a segment that has no cursor. *)
Lemma merging_push idxs heap seg i i' :
  merging idxs heap -> idxs !! seg = Some i -> entry_at seg i = None ->
  merging (<[seg := i']> idxs) (push_at seg i' heap).
Proof.
  intros [Hl Hnd Hs He] Hi Hno.
  assert (forall c, c ∈ heap -> cc_seg_idx c <> seg) as Hother.
  { intros c (e & Hc & Hx & _)%He <-. rewrite Hi in Hc. injection Hc as ->. by rewrite Hno in Hx. }
  pose proof (lookup_lt_Some _ _ _ Hi) as Hlt. unfold push_at.
  assert (forall c, cc_seg_idx c <> seg -> (<[seg := i']> idxs) !! cc_seg_idx c = idxs !! cc_seg_idx c) as Hne
    by (intros; by apply list_lookup_insert_ne).
  destruct (entry_at seg i') as [e|] eqn:Ee; split; rewrite ?length_insert; try done.
  - rewrite heap_push_perm. constructor; [|done]. intros Hin%Hother. by cbn in Hin.
  - by apply heap_push_sorted.
  - intros c. rewrite heap_push_perm, elem_of_cons, He. split.
    + intros [->|(e' & Hc & Hx & Hcur)].
      * exists e. cbn. by rewrite list_lookup_insert_eq.
      * exists e'. rewrite Hne; [done|]. apply Hother, He. by eauto.
    + intros (e' & Hc & Hx & Hcur). destruct (decide (cc_seg_idx c = seg)) as [E|E].
      * rewrite E, list_lookup_insert_eq in Hc by done. injection Hc as Hc. left. rewrite Hcur. rewrite E, <-Hc in Hx |- *. congruence.
      * right. exists e'. by rewrite Hne in Hc.
  - intros c. rewrite He. split; intros (e' & Hc & Hx & Hcur); exists e'.
    + rewrite Hne; [done|]. apply Hother, He. by eauto.
    + destruct (decide (cc_seg_idx c = seg)) as [E|E]; [|by rewrite Hne in Hc].
      rewrite E, list_lookup_insert_eq in Hc by done. injection Hc as Hc. rewrite E, <-Hc in Hx. congruence.
Qed.

(** Taking the top cursor and advancing its segment. *)
Lemma merging_advance idxs top heap :
  merging idxs (top :: heap) ->
  merging (<[cc_seg_idx top := S (cc_entry_idx top)]> idxs) (push_at (cc_seg_idx top) (S (cc_entry_idx top)) heap).
Proof.
  intros [Hl Hnd Hs He]. destruct (proj1 (He top)) as (e & Hi & Hx & Hcur); [by left|].
  destruct (lists !! cc_seg_idx top) as [l|] eqn:El; [|by unfold entry_at in Hx; rewrite El in Hx].
  pose proof (lookup_lt_Some _ _ _ Hi) as Hlt. apply NoDup_cons in Hnd as [Hn Hnd].
  rewrite <-(list_insert_insert_eq idxs (cc_seg_idx top) (S (cc_entry_idx top)) (length l)).
  eapply merging_push.
  - split; [by rewrite length_insert|done|by inversion Hs|]. intros c.
    assert (c ∈ heap <-> c ∈ top :: heap /\ c <> top) as ->.
    { rewrite elem_of_cons. split; [|naive_solver]. intros Hc. split; [by right|]. by intros ->. }
    rewrite He. split.
    + intros [(e' & Hc & Hx' & Hcur') Hne]. exists e'. destruct (decide (cc_seg_idx c = cc_seg_idx top)) as [E|E].
      * exfalso. apply Hne. rewrite E, Hi in Hc. injection Hc as Hc. rewrite Hcur', Hcur, E, <-Hc.
        rewrite E, <-Hc, Hx in Hx'. congruence.
      * by rewrite list_lookup_insert_ne.
    + intros (e' & Hc & Hx' & Hcur'). destruct (decide (cc_seg_idx c = cc_seg_idx top)) as [E|E].
      * rewrite E, list_lookup_insert_eq in Hc by done. injection Hc as Hc. unfold entry_at in Hx'.
        rewrite E, <-Hc, El in Hx'. cbn in Hx'. by rewrite lookup_ge_None_2 in Hx'.
      * rewrite list_lookup_insert_ne in Hc by done. split; [by eauto|]. by intros ->.
  - by apply list_lookup_insert_eq.
  - unfold entry_at. rewrite El. cbn. by apply lookup_ge_None_2.
Qed.
(** The entries left before and after the one at a position. *)
Lemma rest_split idxs seg i e :
  length idxs = length lists -> idxs !! seg = Some i -> entry_at seg i = Some e ->
  exists before after, rest idxs = before ++ e :: after /\ rest (<[seg := S i]> idxs) = before ++ after /\
    forall x, x ∈ before -> exists j k, (j < seg)%nat /\ idxs !! j = Some k /\ exists n, (k <= n)%nat /\ entry_at j n = Some x.
Proof.
  clear Hsort. unfold entry_at, rest. intros Hlen Hi. revert idxs seg Hlen Hi.
  induction lists as [|l ls IH]; intros [|k idxs] [|seg] Hlen Hi He; try done.
  - cbn in Hi, He. injection Hi as ->. exists [], (drop (S i) l ++ concat (zip_with drop idxs ls)). cbn.
    rewrite (drop_S _ _ _ He). split_and!; [done..|]. by intros x ?%not_elem_of_nil.
  - cbn in Hlen, Hi, He. destruct (IH idxs seg) as (bef & aft & E1 & E2 & Hb); [lia|done..|].
    exists (drop k l ++ bef), aft. change (<[S seg := S i]> (k :: idxs)) with (k :: <[seg := S i]> idxs).
    cbn [zip_with concat]. rewrite E1, E2, <-!app_assoc. split_and!; [done..|].
    intros x [Hx|Hx]%elem_of_app.
    + apply list_elem_of_lookup in Hx as [n Hn]. rewrite lookup_drop in Hn. exists 0%nat, k. cbn. split_and!; [lia|done|].
      exists (k + n)%nat. split; [lia|done].
    + destruct (Hb x Hx) as (j & k' & Hj & Hk & n & Hn & En). exists (S j), k'. cbn. split_and!; [lia|done|]. by exists n.
Qed.

Lemma elem_of_rest idxs x :
  length idxs = length lists -> x ∈ rest idxs <-> exists j k n, idxs !! j = Some k /\ (k <= n)%nat /\ entry_at j n = Some x.
Proof.
  clear Hsort. unfold entry_at, rest. intros Hlen. revert idxs Hlen.
  induction lists as [|l ls IH]; intros [|k idxs] Hlen; try done; cbn.
  - split; [by intros ?%not_elem_of_nil|]. by intros (j & k & n & Hj & _).
  - rewrite elem_of_app, IH by (cbn in Hlen; lia). split.
    + intros [Hx|(j & k' & n & Hj & Hn & E)].
      * apply list_elem_of_lookup in Hx as [n Hn]. rewrite lookup_drop in Hn. exists 0%nat, k, (k + n)%nat. split_and!; [done|lia|done].
      * by exists (S j), k', n.
    + intros ([|j] & k' & n & Hj & Hn & E); [left|right; by exists j, k', n]. cbn in Hj, E. injection Hj as ->.
      apply list_elem_of_lookup. exists (n - k')%nat. rewrite lookup_drop. by replace (k' + (n - k'))%nat with n by lia.
Qed.

(** Later entries of a segment have larger identifiers. *)
Lemma entry_at_mono j k n x y :
  (k <= n)%nat -> entry_at j k = Some x -> entry_at j n = Some y -> se_id x <= se_id y.
Proof using Hsort.
  unfold entry_at. intros Hkn Hx Hy. destruct (lists !! j) as [l|] eqn:El; [|done]. cbn in Hx, Hy.
  pose proof (Forall_lookup_1 _ _ _ _ Hsort El) as Hl. destruct (decide (k = n)) as [->|]; [naive_solver|].
  pose proof (elem_of_StronglySorted_lookup _ _ Hl k n x y Hx Hy ltac:(lia)) as Hlt. cbn in Hlt. lia.
Qed.

(** The top of the heap is the least entry left, and the first of its identifier. *)
Lemma merging_least idxs top heap j k n x :
  merging idxs (top :: heap) -> idxs !! j = Some k -> (k <= n)%nat -> entry_at j n = Some x ->
  cc_id top <= se_id x /\ ((j < cc_seg_idx top)%nat -> cc_id top < se_id x).
Proof using Hsort.
  intros [Hl Hnd Hs He] Hj Hkn Hx.
  assert (exists y, entry_at j k = Some y) as [y Hy].
  { unfold entry_at in *. destruct (lists !! j) as [l|]; [|done]. cbn in *. apply lookup_lt_is_Some. apply lookup_lt_Some in Hx. lia. }
  pose proof (entry_at_mono j k n y x Hkn Hy Hx) as Hmono.
  assert (cursor_for j k y ∈ top :: heap) as Hin by (apply He; by exists y).
  assert (cur_le top (cursor_for j k y)) as Hle.
  { apply elem_of_cons in Hin as [<-|Hin]; [apply cur_le_spec; lia|]. inversion Hs as [|? ? _ Hf]; subst.
    rewrite Forall_forall in Hf. by apply Hf. }
  apply cur_le_spec in Hle. cbn in Hle. lia.
Qed.

(** *** What the merge has put out *)

(** What a lookup that found [a] returns. *)
Definition visible (a : LookupResult) : option (vec * Metadata) :=
  match a with LFound v meta => Some (v, meta) | _ => None end.

Definition all_entries : list SegEntry := concat lists.

(** The identifiers up to [last] have been merged into [out]. *)
Record merged_to (last : option Z) (idxs : list nat) (out : list SegEntry) : Prop := {
  mt_out e : e ∈ out -> e ∈ all_entries /\ se_deleted e = false /\ exists l, last = Some l /\ se_id e <= l;
  mt_nodup : NoDup (se_id <$> out);
  mt_rest e l : e ∈ rest idxs -> last = Some l -> l <= se_id e;
  mt_sub e : e ∈ rest idxs -> e ∈ all_entries;
  mt_done id l : last = Some l -> id <= l -> visible (entries_answer out id) = visible (entries_answer all_entries id);
  mt_todo id : (forall l, last = Some l -> l < id) -> entries_answer (rest idxs) id = entries_answer all_entries id
}.

Lemma entries_answer_skip before e after id :
  se_id e <> id -> entries_answer (before ++ e :: after) id = entries_answer (before ++ after) id.
Proof. intros Hne. by rewrite !entries_answer_app, entries_answer_cons, decide_False. Qed.

Lemma rest_start : rest (replicate (length lists) 0%nat) = all_entries.
Proof. clear Hsort. unfold rest, all_entries. induction lists as [|l ls IH]; [done|]. cbn. by rewrite IH. Qed.

Lemma merged_start : merged_to None (replicate (length lists) 0%nat) [].
Proof. split; rewrite ?rest_start; try done; [by intros e ?%not_elem_of_nil|constructor]. Qed.

(** The entry at the top of the heap among those left. *)
Lemma rest_top idxs top heap e :
  merging idxs (top :: heap) ->
  entry_at (cc_seg_idx top) (cc_entry_idx top) = Some e -> top = cursor_for (cc_seg_idx top) (cc_entry_idx top) e ->
  exists before after, rest idxs = before ++ e :: after /\
    rest (<[cc_seg_idx top := S (cc_entry_idx top)]> idxs) = before ++ after /\
    entries_answer before (se_id e) = LNotFound /\ forall x, x ∈ rest idxs -> se_id e <= se_id x.
Proof using Hsort.
  intros Hmg Ee Etop. pose proof (mg_len _ _ Hmg) as Hlen.
  destruct (proj1 (mg_elem _ _ Hmg top)) as (e0 & Hi & _); [by left|].
  destruct (rest_split idxs _ _ e Hlen Hi Ee) as (bef & aft & E1 & E2 & Hbef).
  assert (cc_id top = se_id e) as Hid by (rewrite Etop; done).
  exists bef, aft. split_and!; [done..| |].
  - apply entries_answer_none. intros (x & Hx & Hin)%list_elem_of_fmap.
    destruct (Hbef x Hin) as (j & k & Hj & Hk & n & Hn & En).
    destruct (merging_least _ _ _ _ _ _ _ Hmg Hk Hn En) as [_ Hlt]. specialize (Hlt Hj). rewrite Hid in Hlt. lia.
  - intros x (j & k & n & Hj & Hkn & Hx)%elem_of_rest; [|done]. rewrite <-Hid. by eapply merging_least.
Qed.

(** A step on an identifier that was seen. *)
Lemma merged_skip idxs out top heap e :
  merging idxs (top :: heap) -> merged_to (Some (se_id e)) idxs out ->
  entry_at (cc_seg_idx top) (cc_entry_idx top) = Some e -> top = cursor_for (cc_seg_idx top) (cc_entry_idx top) e ->
  merged_to (Some (se_id e)) (<[cc_seg_idx top := S (cc_entry_idx top)]> idxs) out.
Proof using Hsort.
  intros Hmg [Hout Hnd Hrest Hsub Hdone Htodo] Ee Etop.
  destruct (rest_top _ _ _ _ Hmg Ee Etop) as (bef & aft & E1 & E2 & _ & _). rewrite E1 in *.
  split; rewrite ?E2; try done; [set_solver..|]. intros id Hlt. rewrite <-Htodo by done.
  symmetry. apply entries_answer_skip. specialize (Hlt _ eq_refl). lia.
Qed.

(** The answers up to a new identifier. *)
Lemma merged_new_done last out e left id :
  (forall x, x ∈ out -> exists l, last = Some l /\ se_id x <= l) -> (forall l, last = Some l -> l < se_id e) ->
  (forall id l, last = Some l -> id <= l -> visible (entries_answer out id) = visible (entries_answer all_entries id)) ->
  (forall id, (forall l, last = Some l -> l < id) -> entries_answer left id = entries_answer all_entries id) ->
  (forall x, x ∈ left -> se_id e <= se_id x) ->
  entries_answer all_entries (se_id e) = (if se_deleted e then LTombstone else LFound (se_vec e) (se_meta e)) ->
  id <= se_id e ->
  visible (entries_answer (out ++ if se_deleted e then [] else [e]) id) = visible (entries_answer all_entries id).
Proof.
  intros Hout Hnew Hdone Htodo Hmin Hans Hid. rewrite entries_answer_app.
  assert (forall i, (forall l, last = Some l -> l < i) -> entries_answer out i = LNotFound) as Hlow.
  { intros i Hi. apply entries_answer_none. intros (x & -> & Hx)%list_elem_of_fmap.
    destruct (Hout x Hx) as (l & Hl & Hle). specialize (Hi l Hl). lia. }
  destruct (decide (id = se_id e)) as [->|Hne].
  - rewrite (Hlow _ Hnew), Hans. destruct (se_deleted e) eqn:Hd; [done|].
    by rewrite entries_answer_cons, decide_True, Hd by done.
  - assert (entries_answer (if se_deleted e then [] else [e]) id = LNotFound) as ->.
    { destruct (se_deleted e); [done|]. by rewrite entries_answer_cons, decide_False by done. }
    assert (entries_answer out id = match entries_answer out id with LNotFound => LNotFound | a => a end) as <-
      by by destruct (entries_answer out id).
    assert ((exists l, last = Some l /\ id <= l) \/ (forall l, last = Some l -> l < id)) as [(l & Hl & Hle)|Hlt].
    { destruct last as [l|]; [|by right]. destruct (Z.le_gt_cases id l); [left; by exists l|right; intros ? [= <-]; lia]. }
    { by eapply Hdone. }
    rewrite <-Htodo, Hlow by done. rewrite entries_answer_none; [done|].
    intros (x & -> & Hx)%list_elem_of_fmap. specialize (Hmin x Hx). lia.
Qed.

(** A step on a new identifier. *)
Lemma merged_new last idxs out top heap e :
  merging idxs (top :: heap) -> merged_to last idxs out -> last <> Some (se_id e) ->
  entry_at (cc_seg_idx top) (cc_entry_idx top) = Some e -> top = cursor_for (cc_seg_idx top) (cc_entry_idx top) e ->
  merged_to (Some (se_id e)) (<[cc_seg_idx top := S (cc_entry_idx top)]> idxs) (out ++ if se_deleted e then [] else [e]) /\
  entries_answer all_entries (se_id e) = (if se_deleted e then LTombstone else LFound (se_vec e) (se_meta e)).
Proof using Hsort.
  intros Hmg [Hout Hnd Hrest Hsub Hdone Htodo] Hl Ee Etop.
  destruct (rest_top _ _ _ _ Hmg Ee Etop) as (bef & aft & E1 & E2 & Hfirst & Hmin). rewrite E1 in *.
  assert (forall l, last = Some l -> l < se_id e) as Hnew.
  { intros l ->. specialize (Hrest e l ltac:(set_solver) eq_refl). assert (l <> se_id e) by congruence. lia. }
  assert (entries_answer all_entries (se_id e) = if se_deleted e then LTombstone else LFound (se_vec e) (se_meta e)) as Hans.
  { rewrite <-Htodo by done. rewrite entries_answer_app, Hfirst, entries_answer_cons, decide_True by done. done. }
  assert (forall x l, x ∈ out -> last = Some l -> se_id x <= l) as Hle.
  { intros x l Hx Hll. destruct (Hout x Hx) as (_ & _ & l' & Hll' & ?). naive_solver. }
  split; [|done]. split; rewrite ?E2.
  - intros x [Hx|Hx]%elem_of_app.
    + destruct (Hout x Hx) as (Ha & Hd & l & Hll & _). split_and!; [done..|]. exists (se_id e). split; [done|].
      specialize (Hnew l Hll). specialize (Hle x l Hx Hll). lia.
    + destruct (se_deleted e) eqn:Hd; [by apply not_elem_of_nil in Hx|]. apply list_elem_of_singleton in Hx as ->.
      split_and!; [apply Hsub; set_solver|done|by exists (se_id e)].
  - rewrite fmap_app. destruct (se_deleted e); [by rewrite app_nil_r|]. apply NoDup_app. split_and!; [done| |apply NoDup_singleton].
    intros x (y & -> & Hy)%list_elem_of_fmap Hx%list_elem_of_singleton.
    destruct (Hout y Hy) as (_ & _ & l & Hll & Hyl). specialize (Hnew l Hll). lia.
  - intros x l Hx [= <-]. apply Hmin. set_solver.
  - set_solver.
  - intros id l [= <-] Hid. eapply (merged_new_done last); try done. intros x Hx. by destruct (Hout x Hx) as (_ & _ & ?).
  - intros id Hlt. specialize (Hlt _ eq_refl). rewrite <-Htodo.
    + symmetry. apply entries_answer_skip. lia.
    + intros l Hll. specialize (Hnew l Hll). lia.
Qed.

(** At the end. *)
Lemma merging_done idxs : merging idxs [] -> rest idxs = [].
Proof.
  intros [Hl _ _ He]. destruct (rest idxs) as [|x xs] eqn:E; [done|].
  assert (x ∈ rest idxs) as Hx by (rewrite E; by left).
  apply elem_of_rest in Hx as (j & k & n & Hj & Hkn & Hx); [|done].
  assert (exists y, entry_at j k = Some y) as [y Hy].
  { unfold entry_at in *. destruct (lists !! j) as [l|]; [|done]. cbn in *. apply lookup_lt_is_Some. apply lookup_lt_Some in Hx. lia. }
  assert (cursor_for j k y ∈ []) as ?%not_elem_of_nil by (apply He; by exists y). done.
Qed.

Lemma merged_end last idxs out id :
  merged_to last idxs out -> rest idxs = [] -> visible (entries_answer out id) = visible (entries_answer all_entries id).
Proof.
  intros [Hout _ _ _ Hdone Htodo] Hr.
  assert ((exists l, last = Some l /\ id <= l) \/ (forall l, last = Some l -> l < id)) as [(l & Hl & Hle)|Hlt].
  { destruct last as [l|]; [|by right]. destruct (Z.le_gt_cases id l); [left; by exists l|right; intros ? [= <-]; lia]. }
  { by eapply Hdone. }
  rewrite <-Htodo, Hr by done. rewrite entries_answer_none; [done|].
  intros (x & -> & Hx)%list_elem_of_fmap. destruct (Hout x Hx) as (_ & _ & l & Hl & Hle). specialize (Hlt l Hl). lia.
Qed.

(** The identifiers whose newest version is live. *)
Definition live_ids (es : list SegEntry) : gset Z :=
  list_to_set (filter (fun id => is_Some (visible (entries_answer es id))) (se_id <$> es)).

Lemma merged_bound last idxs out : merged_to last idxs out -> (length out <= size (live_ids all_entries))%nat.
Proof.
  intros [Hout Hnd _ _ Hdone _].
  rewrite <-(length_fmap se_id), <-(size_list_to_set (C := gset Z) _ Hnd). apply subseteq_size.
  intros id (e & -> & He)%elem_of_list_to_set%list_elem_of_fmap. destruct (Hout e He) as (Ha & Hd & l & Hl & Hle).
  apply elem_of_list_to_set, list_elem_of_filter. split; [|by apply list_elem_of_fmap_2].
  rewrite <-(Hdone _ _ Hl Hle), entries_answer_in, Hd by done. by eexists.
Qed.
End merge.

(** ** The merge loop over segments *)

Section loop.
Context {T : Type} `{IdMapLaws T (option bytes)} `{F32} `{AesGcm}.
Context (quant_decode : SegmentReader -> bytes -> vec).
Implicit Types (r : VectorRuntime T) (s : CompactState).
Context (r0 : VectorRuntime T) (clock : nat -> Z * Z).
Context (chunks : list (path * list SegEntry)).

Abbreviation dir := (rc_data_dir (rt_conf r0)).
Abbreviation dim := (rc_dim (rt_conf r0)).
Abbreviation inputs := ((fun '(p, es) => seg_of p dim es) <$> chunks).
Abbreviation lists := (merge_sort id_le <$> chunks.*2).

Context (Hchunks : Forall (chunk_ok dim) chunks.*2).

Lemma lists_sorted : Forall (StronglySorted (fun a b => se_id a < se_id b)) lists.
Proof using Hchunks.
  apply Forall_fmap. eapply Forall_impl; [exact Hchunks|]. intros es [Hnd _].
  exact (sorted_entries_strict (MkBuilder "" dim es) Hnd).
Qed.

Lemma input_at seg : (seg < length chunks)%nat ->
  exists p es, inputs !! seg = Some (built_reader p dim (merge_sort id_le es)) /\ lists !! seg = Some (merge_sort id_le es) /\
    seg_ok dim (merge_sort id_le es) /\ StronglySorted (fun a b => se_id a < se_id b) (merge_sort id_le es).
Proof using Hchunks.
  intros Hlt. destruct (lookup_lt_is_Some_2 chunks seg Hlt) as [[p es] Hc]. exists p, es.
  rewrite !list_lookup_fmap, Hc. split_and!; [done..| |].
  - eapply (Forall_lookup_1 _ _ seg es) in Hchunks; [apply Hchunks|by rewrite list_lookup_fmap, Hc].
  - eapply (Forall_lookup_1 _ _ seg _ lists_sorted). by rewrite !list_lookup_fmap, Hc.
Qed.

Lemma push_entry_ok seg i heap r :
  (seg < length chunks)%nat -> push_entry inputs seg i heap r = (inr (push_at lists seg i heap), r).
Proof using Hchunks.
  intros Hlt. destruct (input_at seg Hlt) as (p & es & Ei & El & Hok & _). unfold push_entry, push_at, entry_at. rewrite Ei, El.
  generalize dependent (merge_sort id_le es). intros l Ei El Hok. cbn [mbind option_bind].
  unfold sr_ReadAtId. cbn [built_reader sr_count sr_entries_start_offset sr_entry_size sr_data].
  destruct (l !! i) as [e|] eqn:Ee.
  - pose proof (lookup_lt_Some _ _ _ Ee). rewrite (proj2 (Z.leb_gt _ _)) by (unfold zlen; lia).
    rewrite (rd_entry_id dim l Hok i e Ee). destruct (rd_entry_flags dim l Hok i e Ee) as (fl & -> & Hfl).
    cbn [mbind option_bind]. rewrite Hfl. done.
  - apply lookup_ge_None in Ee. rewrite (proj2 (Z.leb_le _ _)) by (unfold zlen; lia). done.
Qed.

Lemma find_decode_ok seg i e :
  entry_at lists seg i = Some e -> se_deleted e = false ->
  exists rd, inputs !! seg = Some rd /\ sr_FindAndDecode quant_decode rd (se_id e) = Some (FVFound (se_vec e), se_meta e).
Proof using Hchunks.
  intros He Hdel.
  assert (seg < length chunks)%nat as Hlt.
  { unfold entry_at in He. destruct (lists !! seg) eqn:El; [|done]. apply lookup_lt_Some in El. by rewrite !length_fmap in El. }
  destruct (input_at seg Hlt) as (p & es & Ei & El & Hok & Hs). unfold entry_at in He. rewrite El in He. cbn in He.
  eexists. split; [exact Ei|]. clear Ei El. generalize dependent (merge_sort id_le es). intros l He Hok Hs.
  assert (sr_FindAndDecode quant_decode (built_reader p dim l) (se_id e) = sr_Find (built_reader p dim l) (se_id e) md_default) as -> by done.
  rewrite sr_Find_built by done.
  assert (list_find (fun x => se_id x = se_id e) l = Some (i, e)) as ->; [|by rewrite Hdel].
  apply list_find_Some. split_and!; [done..|]. intros j y Hj Hji E.
  pose proof (elem_of_StronglySorted_lookup _ _ Hs j i y e Hj He Hji) as Hl. cbn beta in Hl. lia.
Qed.

Lemma entry_vec_dim seg i e : entry_at lists seg i = Some e -> se_deleted e = false -> vec_dim (se_vec e) = dim.
Proof using Hchunks.
  intros He Hdel.
  assert (seg < length chunks)%nat as Hlt.
  { unfold entry_at in He. destruct (lists !! seg) eqn:El; [|done]. apply lookup_lt_Some in El. by rewrite !length_fmap in El. }
  destruct (input_at seg Hlt) as (p & es & _ & El & Hok & _). unfold entry_at in He. rewrite El in He. cbn in He.
  eapply Forall_lookup_1 in He; [|apply (so_entries _ _ Hok)]. by apply (eo_vec _ _ He).
Qed.

(** Filling the heap with the first entry of every segment. *)
Lemma fill_heap_ok n : forall seg heap r,
  (seg + n = length chunks)%nat -> merging lists (replicate seg 0%nat ++ (length <$> drop seg lists)) heap ->
  exists heap', fill_heap inputs n seg heap r = (inr heap', r) /\ merging lists (replicate (seg + n) 0%nat) heap'.
Proof using Hchunks.
  induction n as [|n IH]; intros seg heap r Hn Hmg.
  { exists heap. split; [done|]. rewrite drop_ge, app_nil_r in Hmg by (rewrite !length_fmap; lia). by rewrite Nat.add_0_r. }
  cbn [fill_heap]. rewrite (mbind_ok _ _ _ _ _ (push_entry_ok seg 0 heap r ltac:(lia))).
  destruct (lookup_lt_is_Some_2 lists seg) as [l El]; [rewrite !length_fmap; lia|].
  rewrite (drop_S _ _ _ El), fmap_cons in Hmg.
  destruct (IH (S seg) (push_at lists seg 0 heap) r) as (heap' & E & Hmg'); [lia| |].
  - eapply (merging_push lists _ heap seg (length l) 0%nat) in Hmg.
    + rewrite insert_app_r_alt, length_replicate, Nat.sub_diag in Hmg by (rewrite length_replicate; lia).
      cbn in Hmg. replace (S seg) with (seg + 1)%nat at 1 by lia. rewrite replicate_add. by rewrite <-app_assoc.
    + rewrite lookup_app_r, length_replicate, Nat.sub_diag by (rewrite length_replicate; lia). done.
    + unfold entry_at. rewrite El. cbn. by apply lookup_ge_None_2.
  - exists heap'. split; [done|]. by replace (seg + S n)%nat with (S seg + n)%nat by lia.
Qed.

Lemma fill_ok r : exists heap, fill_heap inputs (length inputs) 0 [] r = (inr heap, r) /\
  merging lists (replicate (length lists) 0%nat) heap.
Proof using Hchunks.
  rewrite !length_fmap. apply (fill_heap_ok (length chunks) 0 [] r); [done|]. rewrite drop_0. apply merging_none.
Qed.

(** *** The state of the job *)

Definition last_of s : option Z := if cp_is_first s then None else Some (cp_last_id s).

Record compacting (idxs : list nat) (out : list SegEntry) s : Prop := {
  co_inputs : cp_input_segments s = inputs;
  co_old : cp_old_segments s = inputs;
  co_heap : merging lists idxs (cp_heap s);
  co_merged : merged_to lists (last_of s) idxs out;
  co_builder : cp_builder s = match out with [] => None | _ => Some (MkBuilder (seg_path dir (cp_filename s)) dim out) end;
  co_name : out <> [] -> exists n, cp_filename s = compacted_filename (clock n).2 0;
  co_part : cp_segment_part s = 0%nat;
  co_built : cp_built_segments s = []
}.

Context (Httl : rc_ttl_sec (rt_conf r0) = 0).
Context (Hroom : Z.of_nat (size (live_ids (all_entries lists))) < kMaxSegmentEntries).

(** A new identifier. *)
Lemma new_id_ok n now idxs out s r top heap e :
  rt_conf r = rt_conf r0 -> compacting idxs out (cp_with_heap (top :: heap) s) ->
  entry_at lists (cc_seg_idx top) (cc_entry_idx top) = Some e -> top = cursor_for (cc_seg_idx top) (cc_entry_idx top) e ->
  last_of s <> Some (se_id e) ->
  exists s', compact_new_id quant_decode now (clock n).2 top (cp_with_heap heap s) r = (inr (false, s'), r) /\
    cp_heap s' = heap /\ cp_phase s' = cp_phase s /\
    forall h, merging lists (<[cc_seg_idx top := S (cc_entry_idx top)]> idxs) h ->
      compacting (<[cc_seg_idx top := S (cc_entry_idx top)]> idxs) (out ++ if se_deleted e then [] else [e])
        (cp_with_heap h (cp_seen (se_id e) s')).
Proof using Hchunks Httl Hroom.
  intros Hc [Hin Hold Hmg Hmt Hb Hn Hp Hbt] Ee Etop Hlast. 
  cbn [cp_with_heap cp_input_segments cp_old_segments cp_heap cp_builder cp_filename cp_segment_part cp_built_segments] in Hin, Hold, Hmg, Hb, Hn, Hp, Hbt.
  destruct (merged_new lists lists_sorted _ _ _ _ _ _ Hmg Hmt Hlast Ee Etop) as [Hmt' _].
  assert (cc_id top = se_id e /\ cc_is_deleted top = se_deleted e) as [Hid Hdel] by (rewrite Etop; done).
  unfold compact_new_id. rewrite Hdel. destruct (se_deleted e) eqn:Hd.
  - exists (cp_with_heap heap s). split_and!; [done..|]. intros h Hh. rewrite app_nil_r in *. split; try done.
  - destruct (find_decode_ok _ _ _ Ee Hd) as (rd & Hrd & Hf). 
    cbn [cp_with_heap cp_input_segments cp_segment_part cp_builder cp_filename]. rewrite Hin, Hrd, Hid, Hf.
    rewrite (mbind_ok _ _ _ (FVFound (se_vec e), se_meta e) r), (mbind_ok _ _ _ r r) by done.
    unfold VectorMetaExpired. rewrite Hc, Httl. cbn [andb Z.ltb Z.compare].
    rewrite Hp, Hb.
    set (name := match out with [] => compacted_filename (clock n).2 0 | _ => cp_filename s end).
    assert (match match out with [] => None | _ :: _ => Some (MkBuilder (seg_path dir (cp_filename s)) dim out) end with
      | Some _ => cp_filename s | None => compacted_filename (clock n).2 0 end = name) as -> by by destruct out.
    change (path_join dir (text ?x)) with (seg_path dir x).
    assert (default (MkBuilder (seg_path dir name) dim []) match out with [] => None
      | _ :: _ => Some (MkBuilder (seg_path dir (cp_filename s)) dim out) end = MkBuilder (seg_path dir name) dim out) as ->
      by by destruct out.
    assert (sb_Add (se_id e) (se_vec e) false (se_meta e) (MkBuilder (seg_path dir name) dim out)
      = (inr tt, MkBuilder (seg_path dir name) dim (out ++ [e]))) as ->.
    { unfold sb_Add. cbn [sb_dim sb_path sb_entries]. rewrite (entry_vec_dim _ _ _ Ee Hd), Z.eqb_refl. cbn [negb].
      do 4 f_equal. destruct e. cbn in *. by subst. }
    pose proof (merged_bound _ _ _ _ Hmt') as Hlen. unfold sb_Count. cbn [sb_entries].
    rewrite u32_id by (unfold is_u32, zlen, kMaxSegmentEntries in *; lia).
    rewrite (proj2 (Z.leb_gt _ _)) by (unfold zlen; lia).
    eexists. split; [reflexivity|]. split_and!; [done..|]. intros h Hh. split; try done; cbn.
    + by destruct out.
    + intros _. unfold name. destruct out; [by exists n|]. by apply Hn.
Qed.

(** One cursor of the merge. *)
Lemma entry_round n now idxs out s r top heap :
  rt_conf r = rt_conf r0 -> compacting idxs out (cp_with_heap (top :: heap) s) ->
  exists s' idxs' out', compact_entry quant_decode now (clock n).2 top (cp_with_heap heap s) r = (inr s', r) /\
    compacting idxs' out' s' /\ cp_phase s' = cp_phase s /\ length (rest lists idxs) = S (length (rest lists idxs')).
Proof using Hchunks Httl Hroom.
  intros Hc Hco. pose proof Hco as [Hin Hold Hmg Hmt Hb Hn Hp Hbt]. cbn [cp_with_heap cp_heap cp_input_segments] in Hmg, Hin.
  destruct (proj1 (mg_elem _ _ _ Hmg top)) as (e & Hi & Ee & Etop); [by left|].
  assert (cc_id top = se_id e) as Hid by (rewrite Etop; done).
  assert (cc_seg_idx top < length chunks)%nat as Hlt.
  { apply lookup_lt_Some in Hi. by rewrite (mg_len _ _ _ Hmg), !length_fmap in Hi. }
  pose proof (merging_advance _ _ _ _ Hmg) as Hmg'.
  destruct (rest_top lists lists_sorted _ _ _ _ Hmg Ee Etop) as (bef & aft & E1 & E2 & _).
  assert (length (rest lists idxs) = S (length (rest lists (<[cc_seg_idx top := S (cc_entry_idx top)]> idxs)))) as Hlen
    by (rewrite E1, E2, !length_app; cbn; lia).
  assert (cp_is_first s || negb (cc_id top =? cp_last_id s) = bool_decide (last_of s <> Some (se_id e))) as Htest.
  { unfold last_of. rewrite Hid. destruct (cp_is_first s); cbn [orb]; [by rewrite bool_decide_eq_true_2|].
    destruct (Z.eqb_spec (se_id e) (cp_last_id s)) as [<-|Hne]; cbn [negb]; symmetry;
      [apply bool_decide_eq_false_2; naive_solver|apply bool_decide_eq_true_2; congruence]. }
  unfold compact_entry. cbn [cp_with_heap cp_is_first cp_last_id]. fold (cp_with_heap heap s). rewrite Htest.
  case_bool_decide as Hlast.
  - destruct (new_id_ok n now idxs out s r top heap e Hc Hco Ee Etop Hlast) as (s' & E & Hh & Hph & Hco').
    eexists _, _, _. rewrite (mbind_ok _ _ _ (false, cp_seen (cc_id top) s') r).
    2:{ by rewrite (mbind_ok _ _ _ _ _ E). }
    specialize (Hco' _ Hmg'). rewrite <-Hid in Hco'.
    assert (cp_input_segments (cp_seen (cc_id top) s') = inputs) as -> by apply Hco'.
    rewrite (mbind_ok _ _ _ _ _ (push_entry_ok _ _ _ _ Hlt)). cbn [cp_seen cp_heap]. rewrite Hh.
    split; [reflexivity|]. split_and!; [exact Hco'|exact Hph|exact Hlen].
  - rewrite (mbind_ok _ _ _ (false, cp_with_heap heap s) r) by done. cbn [cp_with_heap cp_input_segments cp_heap]. rewrite Hin.
    fold (cp_with_heap heap s). rewrite (mbind_ok _ _ _ _ _ (push_entry_ok _ _ _ _ Hlt)).
    eexists _, _, out. split; [reflexivity|]. split_and!; [|done|exact Hlen]. split; try done.
    change (last_of (cp_with_heap _ _)) with (last_of s).
    change (last_of (cp_with_heap (top :: heap) s)) with (last_of s) in Hmt. rewrite Hlast in *.
    by apply (merged_skip lists lists_sorted _ _ top heap e).
Qed.

Lemma crun_step rounds s r s' r' :
  compact_step quant_decode (clock rounds).1 (clock rounds).2 s r = (inr (Some s'), r') ->
  compact_run quant_decode (S rounds) clock s r = compact_run quant_decode rounds clock s' r'.
Proof. intros E. cbn [compact_run]. destruct (clock rounds). by rewrite (mbind_ok _ _ _ _ _ E). Qed.

(** The phase after a round of the build. *)
Definition after_round s : CompactState :=
  if bool_decide (cp_heap s = []) && negb (bool_decide (cp_builder s = None)) then cp_to kFinalizeSegment s else s.

(** A round with a cursor at the top. *)
Lemma build_round n idxs out s r top heap :
  rt_conf r = rt_conf r0 -> cp_phase s = kBuild -> compacting idxs out s -> cp_heap s = top :: heap ->
  exists s' idxs' out', compact_step quant_decode (clock n).1 (clock n).2 s r = (inr (Some (after_round s')), r) /\
    compacting idxs' out' s' /\ cp_phase s' = kBuild /\ length (rest lists idxs) = S (length (rest lists idxs')).
Proof using Hchunks Httl Hroom.
  intros Hc Hph Hco Hh.
  assert (cp_with_heap (top :: heap) s = s) as Es by (rewrite <-Hh; by destruct s).
  destruct (entry_round n (clock n).1 idxs out s r top heap) as (s' & idxs' & out' & E & Hco' & Hph' & Hlen); [done|by rewrite Es|].
  exists s', idxs', out'. split_and!; [|done|congruence|done].
  unfold compact_step. rewrite Hph. unfold compact_build. rewrite Hh, (bool_decide_eq_false_2 (top :: heap = [])) by done. cbn [andb].
  rewrite (mbind_ok _ _ _ (after_round s') r); [done|].
  rewrite (mbind_ok _ _ _ (top :: heap) r) by done. rewrite (bool_decide_eq_false_2 (top :: heap = [])) by done. cbn [andb].
  by rewrite (mbind_ok _ _ _ _ _ E).
Qed.

(** The rounds of the merge. *)
Lemma build_run k : forall rounds idxs out s r,
  rt_conf r = rt_conf r0 -> cp_phase s = kBuild -> compacting idxs out s -> cp_heap s <> [] ->
  length (rest lists idxs) = k -> (k <= rounds)%nat ->
  exists s' idxs' out', compact_run quant_decode rounds clock s r = compact_run quant_decode (rounds - k) clock s' r /\
    compacting idxs' out' s' /\ cp_heap s' = [] /\ rest lists idxs' = [] /\
    cp_phase s' = (if bool_decide (out' = []) then kBuild else kFinalizeSegment).
Proof using Hchunks Httl Hroom.
  induction k as [|k IH]; intros rounds idxs out s r Hc Hph Hco Hh Hk Hr;
    destruct (cp_heap s) as [|top heap] eqn:Eh; try done;
    (destruct rounds as [|rounds]; [try lia|]);
    try (destruct (build_round rounds idxs out s r top heap) as (s' & idxs' & out' & E & Hco' & Hph' & Hlen); [done..|]).
  - exfalso. pose proof (co_heap _ _ _ Hco) as Hmg. rewrite Eh in Hmg.
    destruct (proj1 (mg_elem _ _ _ Hmg top)) as (e & Hi & Ee & Etop); [by left|].
    destruct (rest_top lists lists_sorted _ _ _ _ Hmg Ee Etop) as (bef & aft & E1 & _ & _).
    rewrite E1, length_app in Hk. cbn in Hk. lia.
  - lia.
  - rewrite (crun_step _ _ _ _ _ E). destruct (cp_heap s') as [|top' heap'] eqn:Eh'.
    + assert (rest lists idxs' = []) as Hrest by (apply merging_done; rewrite <-Eh'; apply Hco').
      rewrite Hrest in Hlen. cbn in Hlen. assert (k = 0%nat) as -> by lia.
      exists (after_round s'), idxs', out'. replace (S rounds - 1)%nat with rounds by lia. split; [done|].
      unfold after_round. rewrite Eh', (bool_decide_eq_true_2 ([] = [])) by done. cbn [andb].
      rewrite (co_builder _ _ _ Hco'). destruct out' as [|e out'].
      * rewrite (bool_decide_eq_true_2 (None = None)) by done. by split_and!.
      * rewrite bool_decide_eq_false_2 by done. cbn [negb]. destruct Hco'. split_and!; [by split|done..].
    + assert (after_round s' = s') as -> by (unfold after_round; by rewrite Eh').
      destruct (IH rounds idxs' out' s' r) as (s2 & idxs2 & out2 & E2 & Hrest2); [done..|by rewrite Eh'|lia|lia|].
      exists s2, idxs2, out2. by rewrite E2.
Qed.

(** *** From the start of the job to the end of the merge *)

Definition start_state : CompactState := MkCompact kBuild inputs [] (2 ^ 64 - 1) true None [] 0 [] inputs.

Lemma run_fill rounds r heap top :
  fill_heap inputs (length inputs) 0 [] r = (inr (top :: heap), r) ->
  compact_run quant_decode rounds clock start_state r =
  compact_run quant_decode rounds clock (cp_with_heap (top :: heap) start_state) r.
Proof.
  intros E. destruct rounds as [|rounds]; [done|]. cbn [compact_run]. destruct (clock rounds) as [now tick].
  unfold compact_step, compact_build, mbind, M_bind, mret, M_ret.
  cbn [start_state cp_with_heap cp_phase cp_heap cp_builder cp_input_segments].
  rewrite (bool_decide_eq_true_2 ([] = [])), (bool_decide_eq_true_2 (None = None)) by done. cbn [andb]. rewrite E.
  by rewrite (bool_decide_eq_false_2 (top :: heap = [])).
Qed.

Context (Hlive : live_ids (all_entries lists) <> ∅).

Lemma merge_ok rounds r :
  rt_conf r = rt_conf r0 -> (length (all_entries lists) <= rounds)%nat ->
  exists s out, compact_run quant_decode rounds clock start_state r =
      compact_run quant_decode (rounds - length (all_entries lists)) clock s r /\
    cp_phase s = kFinalizeSegment /\ cp_heap s = [] /\ cp_old_segments s = inputs /\ cp_built_segments s = [] /\
    cp_builder s = Some (MkBuilder (seg_path dir (cp_filename s)) dim out) /\
    (exists n, cp_filename s = compacted_filename (clock n).2 0) /\
    NoDup (se_id <$> out) /\ (forall e, e ∈ out -> e ∈ all_entries lists) /\
    forall id, visible (entries_answer out id) = visible (entries_answer (all_entries lists) id).
Proof using Hchunks Httl Hroom Hlive.
  intros Hc Hr. destruct (fill_ok r) as (heap & E & Hmg).
  assert (rest lists (replicate (length lists) 0%nat) = all_entries lists) as Hall by apply rest_start.
  destruct heap as [|top heap].
  { exfalso. apply Hlive. apply merging_done in Hmg. rewrite Hall in Hmg. by rewrite Hmg. }
  rewrite (run_fill _ _ _ _ E).
  assert (compacting (replicate (length lists) 0%nat) [] (cp_with_heap (top :: heap) start_state)) as Hco.
  { split; try done. apply merged_start. }
  destruct (build_run (length (all_entries lists)) rounds _ _ (cp_with_heap (top :: heap) start_state) r Hc eq_refl Hco) as (s & idxs & out & -> & Hco' & Hh & Hrest & Hph);
    [done|by rewrite Hall|done|].
  assert (forall id, visible (entries_answer out id) = visible (entries_answer (all_entries lists) id)) as Hvis.
  { intros id. eapply merged_end; [apply Hco'|done]. }
  assert (out <> []) as Hne.
  { intros ->. apply Hlive. apply set_eq. intros id. split; [|set_solver].
    intros [[x Hx] _]%elem_of_list_to_set%list_elem_of_filter. by rewrite <-Hvis in Hx. }
  rewrite bool_decide_eq_false_2 in Hph by done. exists s, out. split; [done|]. destruct Hco' as [_ Hold _ Hmt Hb Hn _ Hbt].
  split_and!; try done.
  - rewrite Hb. by destruct out.
  - by apply Hn.
  - apply Hmt.
  - intros e He. by apply (mt_out _ _ _ _ Hmt).
Qed.

(** *** Writing, committing, installing and cleaning up *)

(** The files after the old segments are removed. *)
Definition without_old (fm : gmap path bytes) : gmap path bytes := foldr (fun c fm => delete c.1 fm) fm (reverse chunks).

Lemma remove_old_ok (old : list (path * list SegEntry)) : forall fm r,
  w_env (rt_wal r) = MkFs fm [] ->
  remove_old ((fun '(p, es) => seg_of p dim es) <$> old) r =
  (inr tt, with_wal (set_fs (MkFs (foldr (fun c fm => delete c.1 fm) fm (reverse old)) []) (rt_wal r)) r).
Proof.
  induction old as [|[p es] old IH]; intros fm r Hw.
  - change ((inr tt, r) = (inr (A := Status) tt, with_wal (set_fs (MkFs fm []) (rt_wal r)) r)).
    rewrite (set_fs_same _ _ Hw). by destruct r.
  - cbn [fmap list_fmap remove_old]. rewrite (mbind_ok _ _ _ tt (with_wal (set_fs (MkFs (delete p fm) []) (rt_wal r)) r)).
    + rewrite (IH (delete p fm)) by done. rewrite reverse_cons, foldr_app. done.
    + unfold on_fs. cbn [get_fs VectorRuntime_HasFs]. rewrite Hw. done.
Qed.

Lemma lookup_without_old fm p : without_old fm !! p = if decide (p ∈ chunks.*1) then None else fm !! p.
Proof.
  unfold without_old.
  assert (forall l, foldr (fun (c : path * list SegEntry) fm => delete c.1 fm) fm l !! p = if decide (p ∈ l.*1) then None else fm !! p) as ->.
  { induction l as [|[q es] l IH]; [done|]. cbn [foldr fst]. destruct (decide (q = p)) as [->|Hne].
    - rewrite lookup_delete_eq, decide_True; [done|]. by left.
    - rewrite lookup_delete_ne, IH by done. apply decide_ext. cbn. rewrite elem_of_cons. naive_solver. }
  apply decide_ext. by rewrite fmap_reverse, reverse_Permutation.
Qed.

(** The shard after a compaction into one segment. *)
Record compacted_shard (fm0 : gmap path bytes) (name : bytes) (out : list SegEntry) r' : Prop := {
  cs_conf : rt_conf r' = rt_conf r0;
  cs_mem : rt_mem r' = rt_mem r0;
  cs_frozen : rt_frozen_mem r' = rt_frozen_mem r0;
  cs_segments : rt_segments r' = [seg_of (seg_path dir name) dim out];
  cs_snapshot : exists ver, rt_snapshot r' = Some (MkSnap ver (rt_frozen_mem r') (rt_segments r') None);
  cs_files : exists fm2, fs_files (w_env (rt_wal r')) = without_old fm2 /\
    fm2 !! curr_path dir = Some (manifest_bytes [name]) /\
    forall q, q <> curr_path dir -> q <> prev_path dir -> q <> tmp_path dir -> fm2 !! q = add_segment r0 name out fm0 !! q;
  cs_wal : rt_wal r' = set_fs (MkFs (fs_files (w_env (rt_wal r'))) []) (rt_wal r0);
  cs_coalesce : rt_coalesce_buffer r' = rt_coalesce_buffer r0
}.

(** Writing the segment. *)
Lemma cfinalize_ok s r fm0 out :
  at_disk r0 fm0 r -> cp_heap s = [] -> cp_built_segments s = [] ->
  cp_builder s = Some (MkBuilder (seg_path dir (cp_filename s)) dim out) -> chunk_ok dim out ->
  exists r', at_disk r0 (add_segment r0 (cp_filename s) out fm0) r' /\
    compact_finalize s r = (inr (MkCompact kCommitManifest (cp_input_segments s) [] (cp_last_id s) (cp_is_first s) None
      (cp_filename s) (S (cp_segment_part s)) [(cp_filename s, seg_of (seg_path dir (cp_filename s)) dim out)]
      (cp_old_segments s)), r').
Proof.
  intros Hat Hh Hbt Hb [Hnd Hok].
  destruct (on_fs_at r0 (sb_Finish (MkBuilder (seg_path dir (cp_filename s)) dim out)) (inr tt) fm0
    (add_segment r0 (cp_filename s) out fm0) r Hat (sb_Finish_ok _ _)) as (r1 & E1 & Hat1).
  destruct (on_fs_at r0 (FsyncDir dir) (inr tt) _ _ r1 Hat1 eq_refl) as (r2 & E2 & Hat2).
  assert (add_segment r0 (cp_filename s) out fm0 !! seg_path dir (cp_filename s) = Some (seg_file dim (merge_sort id_le out)))
    as Hfile by apply lookup_insert_eq.
  destruct (on_fs_at r0 _ _ _ _ r2 Hat2 (sr_Open_built _ dim _ _ Hok Hfile)) as (r3 & E3 & Hat3).
  destruct (on_fs_at r0 (try_ (GetFileSize (seg_path dir (cp_filename s)))) _ _ _ r3 Hat3
    ltac:(unfold try_; by rewrite (GetFileSize_ok _ _ _ Hfile))) as (r4 & E4 & Hat4).
  eexists. unfold compact_finalize. rewrite Hb. rewrite (mbind_ok mget _ _ _ _ eq_refl), (sd_conf _ _ (ad_data _ _ _ Hat)).
  cbn [sb_path]. rewrite (mbind_ok _ _ _ _ _ (job_step_ok _ _ _ _ _ E1)), (mbind_ok _ _ _ _ _ (job_step_ok _ _ _ _ _ E2)).
  rewrite (mbind_ok _ _ _ _ _ (job_step_ok _ _ _ _ _ E3)), (mbind_ok _ _ _ _ _ E4). erewrite mbind_ok by done.
  rewrite Hh, Hbt. split; [|reflexivity]. destruct Hat4 as [[] He Hw]. by split; [split|..].
Qed.

Lemma compact_tail rounds s r fm0 out :
  at_disk r0 fm0 r -> cp_phase s = kFinalizeSegment -> cp_heap s = [] -> cp_old_segments s = inputs ->
  cp_built_segments s = [] -> cp_builder s = Some (MkBuilder (seg_path dir (cp_filename s)) dim out) -> chunk_ok dim out ->
  exists r', compact_run quant_decode (6 + rounds) clock s r = (inr tt, r') /\ compacted_shard fm0 (cp_filename s) out r'.
Proof.
  intros Hat Hph Hh Hold Hbt Hb Hok. change (6 + rounds)%nat with (S (S (S (S (S (S rounds)))))).
  destruct (cfinalize_ok s r fm0 out Hat Hh Hbt Hb Hok) as (r1 & Hat1 & E1).
  erewrite crun_step by (unfold compact_step; rewrite Hph, (mbind_ok _ _ _ _ _ E1); reflexivity).
  destruct (sm_Commit_ok dir [cp_filename s] (add_segment r0 (cp_filename s) out fm0)) as (fm2 & Ec & Hc & Hq).
  destruct (on_fs_at r0 _ _ _ _ _ Hat1 Ec) as (r2 & E2 & Hat2).
  erewrite (crun_step _ _ r1).
  2:{ unfold compact_step. cbn [cp_phase cp_built_segments]. rewrite (mbind_ok mget _ _ _ _ eq_refl), (sd_conf _ _ (ad_data _ _ _ Hat1)).
      change (reverse [(cp_filename s, ?x)].*1) with [cp_filename s].
      rewrite (mbind_ok _ _ _ _ _ (job_step_ok _ _ _ _ _ E2)). reflexivity. }
  erewrite crun_step by reflexivity. pose proof Hat2 as [[Hsc Hsm Hsf Hss Hsn Hsb] _ Hw].
  erewrite crun_step.
  2:{ unfold compact_step. cbn [cp_to cp_phase cp_old_segments]. rewrite Hold.
      erewrite mbind_ok by (apply (remove_old_ok chunks fm2); cbn; by rewrite Hw). reflexivity. }
  erewrite crun_step by reflexivity. cbn [compact_run]. destruct (clock rounds) as [now tick]. eexists. split; [reflexivity|].
  split; try done; [by eexists|exists fm2; by split_and!|]. cbn. by rewrite Hw.
Qed.
End loop.

(** ** Properties *)

Section properties.
Context {T : Type} `{IdMapLaws T (option bytes)} `{F32} `{AesGcm}.
Context (quant_decode : SegmentReader -> bytes -> vec).
Implicit Types (r : VectorRuntime T).

(** The segments of a shard by file name, with their entries. *)
Definition placed (dir : path) (named : list (bytes * list SegEntry)) : list (path * list SegEntry) :=
  (fun '(name, es) => (seg_path dir name, es)) <$> named.

(** The entries of all segments, newest segment first. *)
Definition named_entries (named : list (bytes * list SegEntry)) : list SegEntry := concat (merge_sort id_le <$> named.*2).

(** Conditions for a compaction to complete: a started shard without TTL, no
    pending I/O errors, at least two segments whose files are there, between one
    and 19,999 live identifiers, less than 4 GiB of entries and an unused file
    name. *)
Record can_compact (clock : nat -> Z * Z) (named : list (bytes * list SegEntry)) r : Prop := {
  cc_inv : rt_inv r;
  cc_started : rt_started r = true;
  cc_ttl : rc_ttl_sec (rt_conf r) = 0;
  cc_faults : fs_faults (w_env (rt_wal r)) = [];
  cc_segments : rt_segments r = (fun '(p, es) => seg_of p (rc_dim (rt_conf r)) es) <$> placed (rc_data_dir (rt_conf r)) named;
  cc_many : (2 <= length named)%nat;
  cc_names : Forall dat_name named.*1;
  cc_disk name es : (name, es) ∈ named -> is_Some (fs_files (w_env (rt_wal r)) !! seg_path (rc_data_dir (rt_conf r)) name);
  cc_chunks : Forall (chunk_ok (rc_dim (rt_conf r))) named.*2;
  cc_fits : fits (rc_dim (rt_conf r)) (named_entries named);
  cc_live : live_ids (named_entries named) <> ∅;
  cc_room : Z.of_nat (size (live_ids (named_entries named))) < kMaxSegmentEntries;
  cc_clock n : is_u64 (clock n).2;
  cc_fresh n : fs_files (w_env (rt_wal r)) !! seg_path (rc_data_dir (rt_conf r)) (compacted_filename (clock n).2 0) = None
}.

(** Rounds that are enough: one for each entry and six more. *)
Definition compact_rounds (named : list (bytes * list SegEntry)) : nat := (length (named_entries named) + 6)%nat.

(** What a lookup returns: the vector and its metadata, or nothing. *)
Definition finds r (id : Z) : option (vec * Metadata) := a ← rt_find quant_decode r id; visible a.

Lemma seg_size_sub dim es es' : 0 <= dim -> es ⊆+ es' -> seg_size dim es <= seg_size dim es'.
Proof.
  intros Hd (es2 & Hp)%submseteq_Permutation. rewrite (seg_size_perm _ _ _ Hp), seg_size_app.
  pose proof (seg_size_ge dim es2 Hd). lia.
Qed.

(** Some of the entries, each once, fit as well. *)
Lemma fits_sub dim es out :
  fits dim es -> NoDup (se_id <$> out) -> (forall e, e ∈ out -> e ∈ es) -> chunk_ok dim out.
Proof.
  intros [Hd He Hok Hs] Hnd Hin. split; [done|]. apply fits_seg_ok. split; [done..| |].
  - apply Forall_forall. intros e Hx. rewrite Forall_forall in Hok. by apply Hok, Hin.
  - eapply Z.le_lt_trans; [|exact Hs]. apply seg_size_sub; [done|]. apply NoDup_submseteq; [|done].
    by eapply NoDup_fmap_1.
Qed.

Lemma segment_sizes_ok dim (chunks : list (path * list SegEntry)) r :
  fs_faults (w_env (rt_wal r)) = [] ->
  (forall p es, (p, es) ∈ chunks -> is_Some (fs_files (w_env (rt_wal r)) !! p)) ->
  exists total, segment_sizes ((fun '(p, es) => seg_of p dim es) <$> chunks) r = (inr total, r).
Proof.
  intros Hf Hd. induction chunks as [|[p es] chunks IH]; [by exists 0|].
  destruct IH as [total IH]; [intros q es' Hin; apply (Hd q es'); by right|].
  destruct (Hd p es) as [c Hc]; [by left|]. cbn [fmap list_fmap segment_sizes].
  rewrite (mbind_ok _ _ _ (inr (zlen c)) r).
  - rewrite (mbind_ok _ _ _ _ _ IH). by eexists.
  - unfold on_fs. cbn [get_fs VectorRuntime_HasFs]. destruct (w_env (rt_wal r)) as [fm fl] eqn:E. cbn in Hf, Hc. subst fl.
    cbn [sr_path seg_of built_reader]. unfold try_. rewrite (GetFileSize_ok _ _ _ Hc). f_equal.
    change (with_wal (set_fs (MkFs fm []) (rt_wal r)) r = r). rewrite (set_fs_same _ _ E). by destruct r.
Qed.

Lemma placed_entries dir named : (placed dir named).*2 = named.*2.
Proof. unfold placed. rewrite <-list_fmap_compose. apply list_fmap_ext. by intros ? []. Qed.

(** The start of a compaction of at least two segments. *)
Lemma compact_start clock named r rounds :
  rt_started r = true -> fs_faults (w_env (rt_wal r)) = [] ->
  rt_segments r = (fun '(p, es) => seg_of p (rc_dim (rt_conf r)) es) <$> placed (rc_data_dir (rt_conf r)) named ->
  (2 <= length named)%nat ->
  (forall name es, (name, es) ∈ named -> is_Some (fs_files (w_env (rt_wal r)) !! seg_path (rc_data_dir (rt_conf r)) name)) ->
  rt_Compact quant_decode rounds clock r =
  compact_run quant_decode rounds clock (start_state r (placed (rc_data_dir (rt_conf r)) named)) r.
Proof.
  intros Hst Hf Hsegs Hmany Hdisk. set (dir := rc_data_dir (rt_conf r)) in *. set (dim := rc_dim (rt_conf r)) in *.
  unfold rt_Compact. rewrite (mbind_ok mget _ _ _ _ eq_refl), mguard_ok by done. unfold HandleCompact.
  rewrite (mbind_ok mget _ _ _ _ eq_refl). rewrite Hsegs.
  destruct (segment_sizes_ok dim (placed dir named) r Hf) as [total Esz].
  { intros p es ([name es'] & [= -> ->] & Hi)%list_elem_of_fmap. by eapply Hdisk. }
  rewrite (mbind_ok _ _ _ _ _ Esz).
  assert (2 <= zlen ((λ '(p, es), seg_of p dim es) <$> placed dir named)) as Hz
    by (unfold zlen, placed; rewrite !length_fmap; lia).
  by rewrite (proj2 (Z.leb_gt _ 1)), andb_false_r by lia.
Qed.

(** A compaction, with everything it leaves behind. *)
Lemma compact_ok clock named r rounds :
  can_compact clock named r -> (compact_rounds named <= rounds)%nat ->
  exists n out r', rt_Compact quant_decode rounds clock r = (inr tt, r') /\ chunk_ok (rc_dim (rt_conf r)) out /\
    compacted_shard r (placed (rc_data_dir (rt_conf r)) named) (fs_files (w_env (rt_wal r)))
      (compacted_filename (clock n).2 0) out r' /\
    forall id, visible (entries_answer out id) = visible (entries_answer (named_entries named) id).
Proof.
  intros [Hinv Hst Httl Hf Hsegs Hmany Hnames Hdisk Hchunks Hfits Hlive Hroom Hclock Hfresh] Hr.
  set (dir := rc_data_dir (rt_conf r)) in *. set (dim := rc_dim (rt_conf r)) in *.
  pose proof (placed_entries dir named) as Hp2.
  assert (all_entries (merge_sort id_le <$> (placed dir named).*2) = named_entries named) as Hall by by rewrite Hp2.
  assert (w_env (rt_wal r) = MkFs (fs_files (w_env (rt_wal r))) []) as Henv
    by (destruct (w_env (rt_wal r)); cbn in *; by subst).
  unfold compact_rounds in Hr.
  destruct (merge_ok quant_decode r clock (placed dir named)) with (rounds := rounds) (r := r)
    as (s & out & E & Hph & Hh & Hold & Hbt & Hb & [n Hn] & Hnd & Hin & Hvis); rewrite ?Hall, ?Hp2; try done; [lia|].
  rewrite Hall in E, Hin, Hvis. pose proof (fits_sub dim _ out Hfits Hnd Hin) as Hok.
  destruct (compact_tail quant_decode r clock (placed dir named) (rounds - length (named_entries named) - 6) s r
    (fs_files (w_env (rt_wal r))) out) as (r' & Et & Hcs); try done.
  { split; [done|done|]. by rewrite <-Henv, (set_fs_same (rt_wal r) _ eq_refl). }
  exists n, out, r'. rewrite <-Hn. split_and!; try done.
  rewrite (compact_start clock named) by done. fold dir. rewrite E, <-Et. f_equal. lia.
Qed.

Lemma compacted_shard_inv r chunks fm name out r' : compacted_shard r chunks fm name out r' -> rt_inv r -> rt_inv r'.
Proof.
  intros [Hc Hm Hf Hs Hsn _ _ _] [Im If Iq Is]. split; [by rewrite Hc, Hm|by rewrite Hc, Hf|by rewrite Hc|done].
Qed.

(** A lookup depends on the segments only through what they say. *)
Lemma finds_segments r id segs_say :
  rt_inv r -> id_ok id -> segs_answer quant_decode (rc_dim (rt_conf r)) (rt_segments r) id = Some segs_say ->
  finds r id = visible match mems_answer (rc_dim (rt_conf r)) (rt_mem r :: reverse (rt_frozen_mem r)) id with
                       | LNotFound => segs_say
                       | a => a
                       end.
Proof.
  intros Hinv Hid Hs. unfold finds. rewrite rt_find_layers by done. unfold layered. rewrite Hs.
  by destruct (mems_answer _ _ id).
Qed.

Lemma named_answer dim dir named id :
  Forall (chunk_ok dim) named.*2 ->
  segs_answer quant_decode dim ((fun '(p, es) => seg_of p dim es) <$> placed dir named) id =
  Some (entries_answer (named_entries named) id).
Proof.
  intros Hch. unfold placed. rewrite <-list_fmap_compose.
  assert (((fun '(p, es) => seg_of p dim es) ∘ (fun '(name, es) => (seg_path dir name, es))) <$> named =
    (fun '(a, es) => seg_of (seg_path dir a) dim es) <$> named) as -> by (apply list_fmap_ext; by intros ? []).
  rewrite <-(app_nil_r (_ <$> named)), (segs_answer_chunks quant_decode (seg_path dir)) by done.
  unfold named_entries. assert (entries_answer (concat (merge_sort id_le <$> named.*2)) id = entries_answer (concat named.*2) id) as ->.
  { clear quant_decode. induction named.*2 as [|es l IH]; [done|]. apply Forall_cons in Hch as [[Hnd _] Hch].
    rewrite fmap_cons. cbn [concat]. rewrite !entries_answer_app, IH by done.
    by rewrite (entries_answer_perm es (merge_sort id_le es)) by (first [done|by rewrite merge_sort_Permutation]). }
  by destruct (entries_answer (concat named.*2) id).
Qed.

Lemma compaction_keeps_answers clock named r rounds :
  can_compact clock named r -> (compact_rounds named <= rounds)%nat ->
  exists r', rt_Compact quant_decode rounds clock r = (inr tt, r') /\ rt_inv r' /\ length (rt_segments r') = 1%nat /\
    forall id, id_ok id -> finds r' id = finds r id /\ is_Some (rt_find quant_decode r' id).
Proof.
  intros Hcc Hr. destruct (compact_ok clock named r rounds Hcc Hr) as (n & out & r' & E & Hok & Hcs & Hvis).
  exists r'. split; [done|]. pose proof (compacted_shard_inv _ _ _ _ _ _ Hcs (cc_inv _ _ _ Hcc)) as Hinv'.
  split; [done|]. pose proof Hcs as [Hc Hm Hf Hs _ _ _ _]. split; [by rewrite Hs|]. intros id Hid.
  assert (segs_answer quant_decode (rc_dim (rt_conf r)) (rt_segments r') id = Some (entries_answer out id)) as Ha.
  { rewrite Hs. unfold segs_answer. cbn [first_answer]. rewrite lookup_seg_of by done.
    cbn [mbind option_bind]. by destruct (entries_answer out id). }
  rewrite <-Hc in Ha. split; [|rewrite rt_find_layers by done; unfold layered; rewrite Ha; by destruct (mems_answer _ _ id)].
  rewrite (finds_segments r' id _ Hinv' Hid Ha), Hc, Hm, Hf.
  rewrite (finds_segments r id (entries_answer (named_entries named) id) (cc_inv _ _ _ Hcc) Hid).
  - destruct (mems_answer _ _ id); [done..|]. apply Hvis.
  - rewrite (cc_segments _ _ _ Hcc). apply named_answer, Hcc.
Qed.

(** C11.  A compaction keeps what lookups find.  The shard is started, does not
    quantise and has at least two unquantised segments whose files are on disk
    and no expiry; over all segments there is at least one live identifier and
    there are fewer than 20000 of them (with none the compaction never ends,
    and a builder that fills up drops an input); the output fits the segment
    format and its file name is new; no system call fails.  Then the compaction
    completes within [compact_rounds] rounds, leaves one segment, and changes
    no vector and no metadata that a lookup finds under an identifier other
    than the reserved 2^64-1. *)
Theorem compaction_preserves_reads clock named r rounds :
  can_compact clock named r -> (compact_rounds named <= rounds)%nat ->
  exists r', rt_Compact quant_decode rounds clock r = (inr tt, r') /\ rt_inv r' /\ length (rt_segments r') = 1%nat /\
    forall id, id_ok id -> finds r' id = finds r id.
Proof.
  intros Hcc Hr. destruct (compaction_keeps_answers clock named r rounds Hcc Hr) as (r' & E & Hi & Hl & Hf).
  exists r'. split_and!; try done. intros id Hid. by apply Hf.
Qed.

(** The name of a compacted segment. *)
Lemma compacted_filename_dat tick : is_u64 tick -> dat_name (compacted_filename tick 0).
Proof.
  intros Ht. unfold compacted_filename.
  exists (bstr "seg_" ++ to_string tick ++ bstr "_compacted_" ++ to_string (Z.of_nat 0)).
  split; [by rewrite <-!app_assoc|]. unfold no_nl.
  assert (nl ∉ to_string tick) as Hd.
  { intros Hin. pose proof (to_string_digits tick Ht) as Hf. rewrite Forall_forall in Hf. by specialize (Hf _ Hin). }
  rewrite !not_elem_of_app. split_and!; try done; apply (bool_decide_unpack _); by vm_compute.
Qed.

(** The files after a compaction: the list names the new segment, which is
    there; the old ones are gone; the log is untouched. *)
Lemma compacted_files clock named r n out r' :
  can_compact clock named r -> chunk_ok (rc_dim (rt_conf r)) out ->
  compacted_shard r (placed (rc_data_dir (rt_conf r)) named) (fs_files (w_env (rt_wal r))) (compacted_filename (clock n).2 0) out r' ->
  let fm' := fs_files (w_env (rt_wal r')) in
  let dir := rc_data_dir (rt_conf r) in
  fm' !! curr_path dir = Some (manifest_bytes [compacted_filename (clock n).2 0]) /\
  on_disk fm' (seg_path dir (compacted_filename (clock n).2 0)) (seg_of (seg_path dir (compacted_filename (clock n).2 0)) (rc_dim (rt_conf r)) out) /\
  (forall name es, (name, es) ∈ named -> fm' !! seg_path dir name = None) /\
  (forall p, wal_path p -> fm' !! p = fs_files (w_env (rt_wal r)) !! p).
Proof.
  intros Hcc Hok Hcs. cbv zeta. set (dir := rc_data_dir (rt_conf r)) in *. set (name0 := compacted_filename _ 0) in *.
  destruct (cs_files _ _ _ _ _ _ Hcs) as (fm2 & -> & Hcur & Hoth). fold dir in Hcur, Hoth.
  pose proof (compacted_filename_dat _ (cc_clock _ _ _ Hcc n)) as Hdat. fold name0 in Hdat.
  assert (forall p, p ∈ (placed dir named).*1 <-> exists name es, (name, es) ∈ named /\ p = seg_path dir name) as Hpl.
  { intros p. unfold placed. rewrite <-list_fmap_compose. split.
    - intros ([name es] & -> & Hi)%list_elem_of_fmap. by exists name, es.
    - intros (name & es & Hi & ->). apply list_elem_of_fmap. by exists (name, es). }
  pose proof (cc_names _ _ _ Hcc) as Hn. rewrite Forall_fmap, Forall_forall in Hn.
  assert (forall name es, (name, es) ∈ named -> dat_name name) as Hdn by (intros name es Hi; apply (Hn _ Hi)).
  pose proof (cc_fresh _ _ _ Hcc n) as Hfr. fold dir name0 in Hfr.
  split_and!.
  - rewrite lookup_without_old, decide_False; [done|]. intros (name & es & Hi & E)%Hpl.
    apply (seg_path_not_manifest dir name (curr_path dir)); [by eapply Hdn|by left|done].
  - apply seg_of_on_disk; [done|]. rewrite lookup_without_old, decide_False.
    + rewrite Hoth by (apply not_eq_sym, seg_path_not_manifest; [done|unfold manifest_path; tauto]). apply lookup_insert_eq.
    + intros (name & es & Hi & E)%Hpl. destruct (cc_disk _ _ _ Hcc _ _ Hi) as [c Hc]. fold dir in Hc. rewrite <-E in Hc. congruence.
  - intros name es Hi. rewrite lookup_without_old, decide_True; [done|]. apply Hpl. eauto.
  - intros p Hp. rewrite lookup_without_old, decide_False.
    + rewrite Hoth.
      * unfold add_segment. rewrite lookup_insert_ne, lookup_delete_ne; [done| |].
        -- intros <-. by eapply seg_tmp_not_wal.
        -- intros <-. by eapply seg_path_not_wal.
      * intros ->. eapply (manifest_not_wal dir); [|exact Hp]. unfold manifest_path. tauto.
      * intros ->. eapply (manifest_not_wal dir); [|exact Hp]. unfold manifest_path. tauto.
      * intros ->. eapply (manifest_not_wal dir); [|exact Hp]. unfold manifest_path. tauto.
    + intros (name & es & Hi & ->)%Hpl. eapply seg_path_not_wal; [|exact Hp]. by eapply Hdn.
Qed.

(** C10. Durability of a compaction: the old files are gone, the log is
    untouched, and a shard that is started on the files alone, with an empty
    memtable, opens exactly the segment the compacted shard reads. *)
Theorem compaction_survives_restart clock named r rounds :
  can_compact clock named r -> (compact_rounds named <= rounds)%nat ->
  exists r', rt_Compact quant_decode rounds clock r = (inr tt, r') /\
    (forall name es, (name, es) ∈ named -> fs_files (w_env (rt_wal r')) !! seg_path (rc_data_dir (rt_conf r)) name = None) /\
    (forall p, wal_path p -> fs_files (w_env (rt_wal r')) !! p = fs_files (w_env (rt_wal r)) !! p) /\
    forall r1 blk, rt_conf r1 = rt_conf r -> w_env (rt_wal r1) = MkFs (fs_files (w_env (rt_wal r'))) [] -> rt_started r1 = false ->
      rt_mem r1 = mt_new (rc_dim (rt_conf r)) blk false -> rt_frozen_mem r1 = [] ->
      exists r2, rt_Start r1 = (inr tt, r2) /\ rt_inv r2 /\ rt_segments r2 = rt_segments r'.
Proof.
  intros Hcc Hr. destruct (compact_ok clock named r rounds Hcc Hr) as (n & out & r' & E & Hok & Hcs & _).
  destruct (compacted_files _ _ _ _ _ _ Hcc Hok Hcs) as (Hcur & Hdisk & Hgone & Hlog).
  exists r'. split_and!; [done..|]. intros r1 blk Hc1 He1 Hst1 Hm1 Hf1.
  destruct (start_ok _ [compacted_filename (clock n).2 0] (rt_segments r') r1 blk He1) as (r2 & E2 & Hinv2 & _ & _ & _ & Hs2);
    rewrite ?Hc1; try done.
  - rewrite Hcur. unfold load_result. rewrite decode_manifest_bytes; [done|]. apply Forall_singleton, dat_name_seg_name.
    apply compacted_filename_dat, Hcc.
  - rewrite (cs_segments _ _ _ _ _ _ Hcs). by apply Forall2_cons.
  - apply (cc_inv _ _ _ Hcc).
  - by exists r2.
Qed.

(** *** Where compaction goes wrong *)

Section idle.
Context (r0 : VectorRuntime T) (chunks : list (path * list SegEntry)).
Context (Hchunks : Forall (chunk_ok (rc_dim (rt_conf r0))) chunks.*2).
Abbreviation lists := (merge_sort id_le <$> chunks.*2).
Context (Hdead : forall e, e ∈ all_entries lists -> se_deleted e = true) (Hsome : all_entries lists <> []).

(** A job that merges and has nothing to write. *)
Record idle (s : CompactState) : Prop := {
  id_phase : cp_phase s = kBuild;
  id_inputs : cp_input_segments s = (fun '(p, es) => seg_of p (rc_dim (rt_conf r0)) es) <$> chunks;
  id_builder : cp_builder s = None;
  id_heap : exists idxs, merging lists idxs (cp_heap s)
}.

Lemma idle_entry now tick top heap idxs s r :
  idle s -> merging lists idxs (top :: heap) ->
  exists s', compact_entry quant_decode now tick top (cp_with_heap heap s) r = (inr s', r) /\ idle s'.
Proof using Hchunks Hdead.
  intros [Hph Hin Hb _] Hmg. destruct (proj1 (mg_elem _ _ _ Hmg top)) as (e & Hi & Ee & Etop); [by left|].
  assert (cc_seg_idx top < length chunks)%nat as Hlt.
  { apply lookup_lt_Some in Hi. by rewrite (mg_len _ _ _ Hmg), !length_fmap in Hi. }
  assert (cc_is_deleted top = true) as Hdel.
  { rewrite Etop. cbn. apply Hdead. rewrite <-rest_start. apply elem_of_rest; [by rewrite length_replicate|].
    exists (cc_seg_idx top), 0%nat, (cc_entry_idx top). split_and!; [|lia|done].
    apply lookup_replicate_2. by rewrite !length_fmap. }
  pose proof (merging_advance _ _ _ _ Hmg) as Hmg'. unfold compact_entry.
  set (first := cp_is_first _ || _).
  assert (exists s1, (if first then '(full, s) ← compact_new_id quant_decode now tick top (cp_with_heap heap s);
      mret (full : bool, if full then s else cp_seen (cc_id top) s) else mret (false, cp_with_heap heap s)) r = (inr (false, s1), r) /\
    cp_phase s1 = kBuild /\ cp_input_segments s1 = cp_input_segments s /\ cp_builder s1 = None /\ cp_heap s1 = heap)
    as (s1 & E1 & Hph1 & Hin1 & Hb1 & Hh1).
  { destruct first; [|by exists (cp_with_heap heap s)]. exists (cp_seen (cc_id top) (cp_with_heap heap s)).
    unfold compact_new_id. by rewrite Hdel. }
  eexists. rewrite (mbind_ok _ _ _ _ _ E1), Hin1, Hh1, Hin, (mbind_ok _ _ _ _ _ (push_entry_ok r0 chunks Hchunks _ _ _ _ Hlt)).
  split; [reflexivity|]. split; cbn; [done|congruence|done|by eexists].
Qed.

Lemma idle_step now tick s r :
  idle s -> exists s', compact_step quant_decode now tick s r = (inr (Some s'), r) /\ idle s'.
Proof using Hchunks Hdead Hsome.
  intros Hid. pose proof Hid as [Hph Hin Hb [idxs Hmg]].
  assert (exists heap idxs, (if bool_decide (cp_heap s = []) && bool_decide (cp_builder s = None)
    then fill_heap (cp_input_segments s) (length (cp_input_segments s)) 0 [] else mret (cp_heap s)) r = (inr heap, r) /\
    merging lists idxs heap /\ heap <> []) as (heap & idxs' & Ef & Hmg' & Hne).
  { rewrite Hb, (bool_decide_eq_true_2 (None = None)), andb_true_r by done. case_bool_decide; [|by exists (cp_heap s), idxs].
    rewrite Hin. destruct (fill_ok r0 chunks Hchunks r) as (heap & Ef & Hmg0). exists heap, (replicate (length lists) 0%nat).
    split_and!; [done..|]. intros ->. apply merging_done in Hmg0. by rewrite rest_start in Hmg0. }
  destruct heap as [|top heap]; [done|].
  destruct (idle_entry now tick top heap idxs' s r Hid Hmg') as (s' & E & Hid'). exists s'. split; [|done].
  unfold compact_step, compact_build. rewrite Hph. erewrite mbind_ok; [reflexivity|].
  rewrite (mbind_ok _ _ _ _ _ Ef), (bool_decide_eq_false_2 (top :: heap = [])) by done. cbn [andb].
  rewrite (mbind_ok _ _ _ _ _ E), (id_builder _ Hid'), (bool_decide_eq_true_2 (None = None)), andb_false_r by done. done.
Qed.

Lemma idle_run rounds clock : forall s r, idle s ->
  compact_run quant_decode rounds clock s r = (inl (Aborted "Compaction timed out"), r).
Proof using Hchunks Hdead Hsome.
  induction rounds as [|rounds IH]; intros s r Hid; [done|]. cbn [compact_run]. destruct (clock rounds) as [now tick].
  destruct (idle_step now tick s r Hid) as (s' & E & Hid'). rewrite (mbind_ok _ _ _ _ _ E). by apply IH.
Qed.
End idle.

(** A compaction of segments that hold nothing but tombstones never ends:
    whatever number of rounds fits before the time-out, it merges, finds nothing
    to write, fills the heap again and times out. *)
Theorem compaction_of_tombstones_never_ends clock named r rounds :
  rt_started r = true -> fs_faults (w_env (rt_wal r)) = [] ->
  rt_segments r = (fun '(p, es) => seg_of p (rc_dim (rt_conf r)) es) <$> placed (rc_data_dir (rt_conf r)) named ->
  (2 <= length named)%nat -> Forall (chunk_ok (rc_dim (rt_conf r))) named.*2 ->
  (forall name es, (name, es) ∈ named -> is_Some (fs_files (w_env (rt_wal r)) !! seg_path (rc_data_dir (rt_conf r)) name)) ->
  named_entries named <> [] -> Forall (fun e => se_deleted e = true) (named_entries named) ->
  rt_Compact quant_decode rounds clock r = (inl (Aborted "Compaction timed out"), r).
Proof.
  intros Hst Hf Hsegs Hmany Hch Hdisk Hne Hdead. set (dir := rc_data_dir (rt_conf r)) in *. set (dim := rc_dim (rt_conf r)) in *.
  pose proof (placed_entries dir named) as Hp2.
  rewrite (compact_start clock named) by done. fold dir.
  apply (idle_run r (placed dir named)); rewrite ?Hp2; try done.
  - intros e He. by eapply Forall_forall in Hdead.
  - split; [done..|]. exists (length <$> (merge_sort id_le <$> (placed dir named).*2)). apply merging_none.
Qed.

(** When an entry fills the builder, the round closes the segment without
    advancing the cursor it took: the entries after it in its input segment are
    dropped from the merge, and its identifier is not recorded as seen. *)
Theorem compaction_full_builder_drops_cursor now tick s r top heap seg v meta b :
  cp_phase s = kBuild -> cp_heap s = top :: heap -> cp_is_first s || negb (cc_id top =? cp_last_id s) = true ->
  cc_is_deleted top = false -> cp_input_segments s !! cc_seg_idx top = Some seg ->
  sr_FindAndDecode quant_decode seg (cc_id top) = Some (FVFound v, meta) -> rc_ttl_sec (rt_conf r) = 0 ->
  cp_builder s = Some b -> vec_dim v = sb_dim b -> zlen (sb_entries b) = kMaxSegmentEntries - 1 ->
  exists s', compact_step quant_decode now tick s r = (inr (Some s'), r) /\ cp_phase s' = kFinalizeSegment /\
    cp_heap s' = heap /\ cp_last_id s' = cp_last_id s /\ cp_is_first s' = cp_is_first s.
Proof.
  intros Hph Hh Hnew Hdel Hseg Hf Httl Hb Hd Hfull.
  set (b' := MkBuilder (sb_path b) (sb_dim b) (sb_entries b ++ [MkSegEntry (cc_id top) v false meta])).
  set (s1 := cp_to kFinalizeSegment (cp_with_builder (cp_filename s) b' (cp_with_heap heap s))).
  assert (compact_entry quant_decode now tick top (cp_with_heap heap s) r = (inr s1, r)) as E.
  { assert (compact_new_id quant_decode now tick top (cp_with_heap heap s) r = (inr (true, s1), r)) as E1.
    { unfold compact_new_id. cbn [cp_with_heap cp_input_segments cp_builder cp_filename]. rewrite Hdel, Hseg, Hf, Hb.
      rewrite (mbind_ok _ _ _ (FVFound v, meta) r), (mbind_ok mget _ _ _ _ eq_refl) by done.
      unfold VectorMetaExpired. rewrite Httl. cbn [andb Z.ltb Z.compare default from_option id].
      unfold sb_Add. rewrite Hd, Z.eqb_refl. cbn [negb]. fold b'.
      assert (sb_Count b' = kMaxSegmentEntries) as ->; [|done].
      unfold sb_Count, b'. cbn [sb_entries]. unfold kMaxSegmentEntries in *. rewrite u32_id; [|split]; len. }
    unfold compact_entry. cbn [cp_with_heap cp_is_first cp_last_id]. rewrite Hnew. fold (cp_with_heap heap s).
    rewrite (mbind_ok _ _ _ (true, s1) r); [done|]. by rewrite (mbind_ok _ _ _ _ _ E1). }
  unfold compact_step, compact_build. rewrite Hph, Hh, (bool_decide_eq_false_2 (top :: heap = [])) by done. cbn [andb].
  eexists. split.
  { erewrite mbind_ok; [reflexivity|]. rewrite (mbind_ok _ _ _ (top :: heap) r) by done.
    rewrite (bool_decide_eq_false_2 (top :: heap = [])) by done. cbn [andb]. rewrite (mbind_ok _ _ _ _ _ E). reflexivity. }
  destruct (_ && _); by split_and!.
Qed.
End properties.

(** ** Concrete compactions *)

#[local] Existing Instance test_f32.
#[local] Existing Instance test_idmap.
#[local] Existing Instance test_idmap_laws.
#[local] Existing Instance test_aes.

Definition live_entry (id : Z) (v : vec) : SegEntry := MkSegEntry id v false md_default.
Definition tomb (id : Z) : SegEntry := MkSegEntry id [] true md_default.

(** A started shard with two segments on disk and no data in memory. *)
Definition two_segments (newer older : list SegEntry) : VectorRuntime (@FlatHashMemMap (option bytes)) :=
  let p1 := seg_path "db" (bstr "b.dat") in
  let p2 := seg_path "db" (bstr "a.dat") in
  let fm := <[p1 := seg_file 2 (merge_sort id_le newer)]> {[p2 := seg_file 2 (merge_sort id_le older)]} in
  let segs := [seg_of p1 2 newer; seg_of p2 2 older] in
  MkRt (MkRtConf "db" 2 kVector false 0 0 8) (set_fs (MkFs fm []) test_wal) (test_mem false) [] segs
    (Some (MkSnap 1 [] segs None)) 2 0 true 0 0 0 [] 0.

Definition two_named (newer older : list SegEntry) : list (bytes * list SegEntry) :=
  [(bstr "b.dat", newer); (bstr "a.dat", older)].

Lemma entry_fits es :
  Forall (fun e => is_u64 (se_id e) /\ se_meta e = md_default /\
    (if se_deleted e then se_vec e = [] else zlen (se_vec e) = 2 /\ vec_ok (se_vec e))) es ->
  seg_size 2 es < 2 ^ 32 -> fits 2 es.
Proof.
  intros Hf Hs. split; [lia|done| |done]. eapply Forall_impl; [exact Hf|]. intros e (Hid & Hm & Hv).
  split; [done|..]; try (by intros Hd; rewrite Hd in Hv). rewrite Hm. split; vm_compute; first [done|by split].
Qed.
#[local] Instance entry_fits_dec es : Decision (Forall (fun e => is_u64 (se_id e) /\ se_meta e = md_default /\
    (if se_deleted e then se_vec e = [] else zlen (se_vec e) = 2 /\ vec_ok (se_vec e))) es).
Proof. apply Forall_dec. intros e. destruct (se_deleted e); apply _. Defined.

Lemma two_segments_ok newer older :
  let named := two_named newer older in
  Forall (fun es => NoDup (se_id <$> es) /\ fits 2 es) [newer; older] -> fits 2 (named_entries named) ->
  live_ids (named_entries named) <> ∅ -> Z.of_nat (size (live_ids (named_entries named))) < kMaxSegmentEntries ->
  can_compact test_clock named (two_segments newer older).
Proof.
  intros named Hch Hfit Hlive Hroom.
  assert (Forall (chunk_ok 2) named.*2) as Hok.
  { cbn. eapply Forall_impl; [exact Hch|]. intros es [Hnd Hf]. split; [done|]. by apply fits_seg_ok. }
  split; try done.
  - split; cbn; [apply mem_ok_new|constructor|done|by eexists].
  - apply Forall_cons_2; [|apply Forall_cons_2; [|constructor]].
    + exists (bstr "b"). split; [done|]. apply (bool_decide_unpack _). by vm_compute.
    + exists (bstr "a"). split; [done|]. apply (bool_decide_unpack _). by vm_compute.
  - intros name es [[= -> ->]|[[= -> ->]|?%not_elem_of_nil]%elem_of_cons]%elem_of_cons; [..|done]; by eexists.
  - intros n. unfold test_clock, is_u64. cbn [snd]. pose proof (Z.mod_pos_bound (Z.of_nat n) 1000). lia.
Qed.

(** An update, a tombstone and an older vector. *)
Lemma test_compact_ok :
  can_compact test_clock (two_named [live_entry 7 [5; 6]; tomb 8] [live_entry 7 [1; 2]; live_entry 8 [3; 4]])
    (two_segments [live_entry 7 [5; 6]; tomb 8] [live_entry 7 [1; 2]; live_entry 8 [3; 4]]).
Proof.
  apply two_segments_ok.
  - apply Forall_cons_2; [|apply Forall_cons_2; [|constructor]]; (split; [|apply entry_fits; [|by vm_compute]]);
      apply (bool_decide_unpack _); by vm_compute.
  - apply entry_fits; [|by vm_compute]. apply (bool_decide_unpack _). by vm_compute.
  - apply (bool_decide_unpack _). by vm_compute.
  - by vm_compute.
Qed.

Lemma compaction_preserves_reads_witness :
  let r := two_segments [live_entry 7 [5; 6]; tomb 8] [live_entry 7 [1; 2]; live_entry 8 [3; 4]] in
  exists r', rt_Compact test_decode 20 test_clock r = (inr tt, r') /\ finds test_decode r' 7 = Some ([5; 6], md_default) /\
    finds test_decode r' 8 = None.
Proof.
  intros r. destruct (compaction_preserves_reads test_decode test_clock _ r 20 test_compact_ok) as (r' & E & _ & _ & Hfind).
  - apply Nat.leb_le. vm_compute. reflexivity.
  - exists r'. split; [exact E|]. rewrite !Hfind by discriminate. split; vm_compute; reflexivity.
Defined.

Lemma compaction_survives_restart_witness :
  let r := two_segments [live_entry 7 [5; 6]; tomb 8] [live_entry 7 [1; 2]; live_entry 8 [3; 4]] in
  exists r', rt_Compact test_decode 20 test_clock r = (inr tt, r') /\
    fs_files (w_env (rt_wal r')) !! seg_path "db" (bstr "a.dat") = None.
Proof.
  intros r. destruct (compaction_survives_restart test_decode test_clock _ r 20 test_compact_ok) as (r' & E & Hgone & _ & _).
  - apply Nat.leb_le. vm_compute. reflexivity.
  - exists r'. split; [exact E|]. exact (Hgone (bstr "a.dat") _ (list_elem_of_further _ _ _ (list_elem_of_here _ _))).
Defined.

Lemma compaction_of_tombstones_never_ends_witness :
  let r := two_segments [tomb 7] [tomb 8] in
  rt_Compact test_decode 1000 test_clock r = (inl (Aborted "Compaction timed out"), r).
Proof.
  intros r. apply (compaction_of_tombstones_never_ends test_decode test_clock (two_named [tomb 7] [tomb 8]) r 1000).
  - reflexivity.
  - reflexivity.
  - reflexivity.
  - apply Nat.leb_le. reflexivity.
  - apply Forall_cons_2; [|apply Forall_cons_2; [|constructor]]; (split; [|apply fits_seg_ok, entry_fits; [|by vm_compute]]);
      apply (bool_decide_unpack _); by vm_compute.
  - intros name es [[= -> ->]|[[= -> ->]|?%not_elem_of_nil]%elem_of_cons]%elem_of_cons; [..|done]; by eexists.
  - vm_compute. discriminate.
  - apply (bool_decide_unpack _). by vm_compute.
Defined.

(** A builder with 19,999 entries and an input segment with two more. *)
Lemma compaction_full_builder_drops_cursor_witness :
  let seg := seg_of "db/a.dat" 2 [live_entry 7 [1; 2]; live_entry 8 [3; 4]] in
  let b := MkBuilder "db/c.dat" 2 (replicate (Z.to_nat 19999) (tomb 0)) in
  let s := MkCompact kBuild [seg] [MkCursor 7 0 0 false] 0 true (Some b) [] 0 [] [] in
  exists s', compact_step test_decode 0 0 s (test_rt 0) = (inr (Some s'), test_rt 0) /\
    cp_phase s' = kFinalizeSegment /\ cp_heap s' = [].
Proof.
  intros seg b s.
  destruct (compaction_full_builder_drops_cursor test_decode 0 0 s (test_rt 0) (MkCursor 7 0 0 false) [] seg [1; 2] md_default b)
    as (s' & E & Hp & Hh & _).
  - reflexivity.
  - reflexivity.
  - reflexivity.
  - reflexivity.
  - reflexivity.
  - vm_compute. reflexivity.
  - reflexivity.
  - reflexivity.
  - reflexivity.
  - unfold zlen, b. cbn [sb_entries]. rewrite length_replicate, Z2Nat.id; [reflexivity|discriminate].
  - exists s'. split; [exact E|]. split; [exact Hp|exact Hh].
Defined.
