(* ===== verification/Stream.v ===== *)
(** * File streams and append-only record logs

    The key-value, blob, time-series and spatial engines keep their data in
    memory and append one record per operation to a log file through
    [std::ofstream]; [Open] reads the records back through [std::ifstream].
    This file models the two streams over the files of [Env] and proves, once
    for every record format, what a log that was cut anywhere replays to. *)
From S2P Require Import Prelude Env.

Open Scope Z_scope.

(** ** Streams *)

(** [std::ofstream out(p, binary | app)], [if (!out.good()) return e;], the
    writes of [data] and the destructor.  The file is written when the stream
    closes; a failing write goes unnoticed and leaves a prefix of the data. *)
Definition ofstream_write (trunc : bool) (p : path) (e : Status) (data : bytes) : M fs unit :=
  opened ← next_fault;
  mguard (bool_decide (opened = None)) e ;;
  f ← mget;
  let old := if trunc then [] else default [] (fs_files f !! p) in
  d ← next_fault;
  set_file p (old ++ match d with None => data | Some flt => take (flt_written flt) data end).

(** [std::ifstream in(p, binary)] read to its end: [None] when [!in.good()].  A
    failing read ends the stream early. *)
Definition ifstream_read (p : path) : M fs (option bytes) :=
  opened ← next_fault;
  f ← mget;
  match opened, fs_files f !! p with
  | None, Some c =>
      d ← next_fault;
      mret (Some (match d with None => c | Some flt => take (flt_written flt) c end))
  | _, _ => mret None
  end.

(** [fs::create_directories(p, ec)], [if (ec) return e;] *)
Definition create_directories (p : path) (e : Status) : M fs unit :=
  d ← next_fault; mguard (bool_decide (d = None)) e.

(** ** Reading fields: [in.read(&x, n)] gives the bytes and the rest of the
    stream, or fails when fewer are left. *)

Definition rd_bytes (n : Z) (d : bytes) : option (bytes * bytes) :=
  if n <=? zlen d then Some (take (Z.to_nat n) d, drop (Z.to_nat n) d) else None.
Definition rd_num (n : nat) (d : bytes) : option (Z * bytes) :=
  '(b, d) ← rd_bytes (Z.of_nat n) d; Some (le_combine b, d).

Lemma rd_bytes_app n b d : zlen b = n -> rd_bytes n (b ++ d) = Some (b, d).
Proof.
  intros <-. unfold rd_bytes. rewrite (proj2 (Z.leb_le _ _)) by len.
  unfold zlen. by rewrite Nat2Z.id, take_app_length, drop_app_length.
Qed.

Lemma rd_bytes_short n d : zlen d < n -> rd_bytes n d = None.
Proof. intros. unfold rd_bytes. by rewrite (proj2 (Z.leb_gt _ _)). Qed.

Lemma rd_num_app n z d :
  0 <= z < 2 ^ (Z.of_nat n * 8) -> rd_num n (le_split n z ++ d) = Some (z, d).
Proof.
  intros Hz. unfold rd_num. rewrite rd_bytes_app by len. cbn. by rewrite le_combine_split_id.
Qed.

Lemma rd_num_short n d : (length d < n)%nat -> rd_num n d = None.
Proof. intros H. unfold rd_num. rewrite rd_bytes_short by len. done. Qed.

Lemma rd_bytes_inv n d b r : 0 <= n -> rd_bytes n d = Some (b, r) -> d = b ++ r /\ zlen b = n.
Proof.
  intros Hn. unfold rd_bytes. destruct (Z.leb_spec n (zlen d)); [|done].
  intros [= <- <-]. rewrite take_drop. split; [done|]. len.
Qed.

Lemma rd_num_inv n d z r : rd_num n d = Some (z, r) -> exists b, d = b ++ r /\ length b = n /\ 0 <= z.
Proof.
  unfold rd_num. destruct (rd_bytes (Z.of_nat n) d) as [[b r']|] eqn:E; [|done].
  cbn. intros [= <- <-]. apply rd_bytes_inv in E as [-> E]; [|lia]. exists b. split; [done|].
  split; [len|]. apply le_combine_bound.
Qed.

Lemma prefix_app_cases {A} (p l k : list A) :
  p `prefix_of` l ++ k -> p `prefix_of` l \/ exists p', p = l ++ p' /\ p' `prefix_of` k.
Proof.
  intros [q E]. apply app_eq_inv in E as [(x & -> & E)|(x & -> & E)].
  - left. by exists x.
  - right. exists x. split; [done|]. by exists q.
Qed.

(** A field that ends inside its own bytes or lets the rest of the record be
    read from a shorter rest. *)
Lemma rd_num_prefix n z rest p :
  p `prefix_of` le_split n z ++ rest ->
  0 <= z < 2 ^ (Z.of_nat n * 8) ->
  rd_num n p = None \/ exists p', p' `prefix_of` rest /\ p = le_split n z ++ p' /\ rd_num n p = Some (z, p').
Proof.
  intros Hp Hz. apply prefix_app_cases in Hp as [Hp|(p' & -> & Hp)].
  - destruct (decide (length p < n)%nat) as [Hl|Hl]; [left; by apply rd_num_short|].
    right. exists []. destruct Hp as [q Eq].
    assert (q = []) as ->.
    { apply length_zero_iff_nil. apply (f_equal length) in Eq. rewrite length_app, length_le_split in Eq. lia. }
    rewrite app_nil_r in Eq. split; [apply prefix_nil|].
    rewrite app_nil_r. split; [done|]. rewrite <-Eq. rewrite <-(app_nil_r (le_split n z)). by apply rd_num_app.
  - right. exists p'. split; [done|]. split; [done|]. by apply rd_num_app.
Qed.

Lemma rd_bytes_prefix n b rest p :
  p `prefix_of` b ++ rest -> zlen b = n ->
  rd_bytes n p = None \/ exists p', p' `prefix_of` rest /\ p = b ++ p' /\ rd_bytes n p = Some (b, p').
Proof.
  intros Hp Hn. apply prefix_app_cases in Hp as [Hp|(p' & -> & Hp)].
  - destruct (decide (zlen p < n)) as [Hl|Hl]; [left; by apply rd_bytes_short|].
    right. exists []. destruct Hp as [q Eq].
    assert (q = []) as ->.
    { apply length_zero_iff_nil. apply (f_equal length) in Eq. rewrite length_app in Eq. unfold zlen in *. lia. }
    rewrite app_nil_r in Eq. subst p. rewrite app_nil_r. split; [apply prefix_nil|]. split; [done|].
    rewrite <-(app_nil_r b) at 1. by apply rd_bytes_app.
  - right. exists p'. split; [done|]. split; [done|]. by apply rd_bytes_app.
Qed.

Lemma rd_bytes_last b p : p `prefix_of` b -> p <> b -> rd_bytes (zlen b) p = None.
Proof.
  intros Hp Hne. rewrite <-(app_nil_r b) in Hp.
  destruct (rd_bytes_prefix (zlen b) b [] p Hp eq_refl) as [E|(p' & Hp' & -> & E)]; [done|].
  apply prefix_nil_inv in Hp' as ->. by rewrite app_nil_r in Hne.
Qed.

Lemma rd_num_last n z p : p `prefix_of` le_split n z -> p <> le_split n z -> rd_num n p = None.
Proof.
  intros [q E] Hne. apply rd_num_short. apply (f_equal length) in E as El.
  rewrite length_app, length_le_split in El. destruct q; [|cbn in El; lia]. rewrite app_nil_r in E. congruence.
Qed.

(** ** Record logs *)

(** A record format: what one append writes and what one round of the reading
    loop consumes; [None] is the [break]. *)
Class LogCodec (R : Type) := {
  log_enc : R -> bytes;
  log_dec : bytes -> option (R * bytes)
}.

(** What the formats of the engines have in common. *)
Class LogLaws (R : Type) `{LogCodec R} := {
  log_valid : R -> Prop;
  log_dec_enc : forall r rest, log_valid r -> log_dec (log_enc r ++ rest) = Some (r, rest);
  log_dec_torn : forall r p, log_valid r -> p `prefix_of` log_enc r -> p <> log_enc r -> log_dec p = None;
  log_dec_consumes : forall d r rest, log_dec d = Some (r, rest) -> (length rest < length d)%nat
}.

Section log.
Context {R : Type} `{LogLaws R} {S : Type} (step : S -> R -> S).

(** The [while (true)] loop of [Open], with its effect on the engine. *)
Fixpoint log_loop (fuel : nat) (d : bytes) (s : S) : S :=
  match fuel with
  | O => s
  | Datatypes.S fuel =>
      match log_dec d with
      | None => s
      | Some (r, d) => log_loop fuel d (step s r)
      end
  end.

(** Every round consumes a byte, so the length of the stream bounds the rounds. *)
Definition log_replay (d : bytes) (s : S) : S := log_loop (length d) d s.

Lemma log_loop_enough f1 f2 d s :
  (length d <= f1)%nat -> (length d <= f2)%nat -> log_loop f1 d s = log_loop f2 d s.
Proof.
  revert f2 d s. induction f1 as [|f1 IH]; intros f2 d s H1 H2.
  - assert (log_dec d = None) as E.
    { destruct (log_dec d) as [[r d']|] eqn:E; [|done]. apply log_dec_consumes in E. lia. }
    destruct f2; cbn; [done|by rewrite E].
  - destruct f2 as [|f2]; cbn; destruct (log_dec d) as [[r d']|] eqn:E; try done.
    + apply log_dec_consumes in E. lia.
    + apply log_dec_consumes in E. apply IH; lia.
Qed.

Lemma log_replay_None d s : log_dec d = None -> log_replay d s = s.
Proof. intros E. unfold log_replay. destruct (length d); cbn; [done|by rewrite E]. Qed.

Lemma log_replay_cons r d s : log_valid r -> log_replay (log_enc r ++ d) s = log_replay d (step s r).
Proof.
  intros Hr. unfold log_replay at 1. pose proof (log_dec_enc r d Hr) as E.
  pose proof (log_dec_consumes _ _ _ E) as Hc.
  destruct (length (log_enc r ++ d)) as [|n] eqn:En; [lia|]. cbn. rewrite E. apply log_loop_enough; lia.
Qed.

(** What a list of records is on disk. *)
Definition log_bytes (rs : list R) : bytes := rs ≫= log_enc.

Lemma log_bytes_app rs1 rs2 : log_bytes (rs1 ++ rs2) = log_bytes rs1 ++ log_bytes rs2.
Proof. apply bind_app. Qed.

Lemma log_replay_app rs d s :
  Forall log_valid rs -> log_replay (log_bytes rs ++ d) s = log_replay d (fold_left step rs s).
Proof.
  intros Hrs. revert s. induction Hrs as [|r rs Hr Hrs IH]; intros s; [done|].
  unfold log_bytes. cbn [mbind list_bind]. rewrite <-app_assoc, log_replay_cons by done. apply IH.
Qed.

Lemma log_replay_bytes rs s : Forall log_valid rs -> log_replay (log_bytes rs) s = fold_left step rs s.
Proof.
  intros Hrs. rewrite <-(app_nil_r (log_bytes rs)), log_replay_app by done. done.
Qed.

(** A log cut at any byte replays a prefix of its records: the ones that are
    complete in what is left. *)
Lemma log_replay_prefix rs p :
  Forall log_valid rs -> p `prefix_of` log_bytes rs ->
  exists n, log_bytes (take n rs) `prefix_of` p /\ forall s, log_replay p s = fold_left step (take n rs) s.
Proof.
  intros Hrs. revert p. induction Hrs as [|r rs Hr Hrs IH]; intros p Hp.
  - exists 0%nat. split; [apply prefix_nil|]. intros s. apply prefix_nil_inv in Hp as ->. done.
  - unfold log_bytes in Hp. cbn [mbind list_bind] in Hp.
    apply prefix_app_cases in Hp as [Hp|(p' & -> & Hp)].
    + destruct (decide (p = log_enc r)) as [->|Hne].
      * exists 1%nat. split.
        { unfold log_bytes. destruct rs; cbn; by rewrite app_nil_r. }
        intros s. rewrite <-(app_nil_r (log_enc r)), log_replay_cons by done.
        destruct rs; by rewrite log_replay_None by (destruct (log_dec []) as [[? ?]|] eqn:E; [apply log_dec_consumes in E; cbn in E; lia|done]).
      * exists 0%nat. split; [apply prefix_nil|]. intros s. apply log_replay_None. by eapply log_dec_torn.
    + destruct (IH p' Hp) as (n & Hn & E). exists (Datatypes.S n). split.
      * cbn [take]. unfold log_bytes. cbn [mbind list_bind]. by apply prefix_app.
      * intros s. rewrite log_replay_cons by done. cbn [take fold_left]. apply E.
Qed.
End log.

(** ** Proving the laws of a format

    [dec_field] runs one read over an encoded field, [torn_field] over a prefix
    of the encoding, [consume] collects the lengths of a successful decoding. *)

Ltac num_range :=
  unfold is_u32, is_u64 in *;
  match goal with |- 0 <= ?z < 2 ^ (Z.of_nat ?n * 8) =>
    let w := eval vm_compute in (Z.of_nat n * 8) in change (0 <= z < 2 ^ w) end;
  first [done|lia].

Ltac dec_fields :=
  rewrite <-?app_assoc;
  repeat (first [rewrite rd_num_app by num_range|rewrite rd_bytes_app by done]; cbn [mbind option_bind]).

Ltac torn_field :=
  match goal with
  | Hp : ?p `prefix_of` le_split ?n ?z ++ ?rest |- context [rd_num ?n ?p] =>
      let E := fresh "E" in let Hp' := fresh "Hp" in let p' := fresh "p" in
      destruct (rd_num_prefix n z rest p Hp) as [E|(p' & Hp' & -> & E)];
      [num_range|by rewrite E|rewrite E; cbn [mbind option_bind]; clear Hp E]
  | Hp : ?p `prefix_of` ?b ++ ?rest |- context [rd_bytes (zlen ?b) ?p] =>
      let E := fresh "E" in let Hp' := fresh "Hp" in let p' := fresh "p" in
      destruct (rd_bytes_prefix (zlen b) b rest p Hp eq_refl) as [E|(p' & Hp' & -> & E)];
      [by rewrite E|rewrite E; cbn [mbind option_bind]; clear Hp E]
  | Hp : ?p `prefix_of` ?b |- context [rd_bytes (zlen ?b) ?p] =>
      rewrite (rd_bytes_last b p Hp) by congruence; done
  | Hp : ?p `prefix_of` le_split ?n ?z |- context [rd_num ?n ?p] =>
      rewrite (rd_num_last n z p Hp) by congruence; done
  end.

Ltac consume :=
  repeat match goal with
  | H : (rd_num ?n ?d ≫= _) = Some _ |- _ =>
      let E := fresh "E" in
      destruct (rd_num n d) as [[? ?]|] eqn:E; [|discriminate H]; cbn [mbind option_bind] in H;
      apply rd_num_inv in E as (? & -> & ? & ?)
  | H : (rd_bytes ?n ?d ≫= _) = Some _ |- _ =>
      let E := fresh "E" in
      destruct (rd_bytes n d) as [[? ?]|] eqn:E; [|discriminate H]; cbn [mbind option_bind] in H;
      apply rd_bytes_inv in E as [-> ?]; [|done]
  end.

(** ** Fault-free streams *)

Lemma ofstream_write_ok trunc p e data fm :
  ofstream_write trunc p e data (MkFs fm []) =
  (inr tt, MkFs (<[p := (if trunc then [] else default [] (fm !! p)) ++ data]> fm) []).
Proof. done. Qed.

Lemma ifstream_read_lookup p fm : ifstream_read p (MkFs fm []) = (inr (fm !! p), MkFs fm []).
Proof. unfold ifstream_read. run_fs. by destruct (fm !! p). Qed.

Lemma create_directories_ok p e fm : create_directories p e (MkFs fm []) = (inr tt, MkFs fm []).
Proof. done. Qed.
