(* ===== verification/KeyValue.v ===== *)
(** * The key-value engine (src/core/keyvalue/keyvalue_engine.cc)

    A map from strings to strings with an entry cap and a retention policy,
    logged to [kv_timed.log]; [kv.log] is the format of an older version that
    [Open] still reads.  [clock] gives the successive readings of the system
    clock, and [ord] the iteration order of the unordered map at each use: both
    are arbitrary. *)
From S2P Require Import Prelude Env Stream.

Open Scope Z_scope.

(** src/core/keyvalue/keyvalue_engine.h:15-19 [KeyValueEngine::RetentionPolicy]. *)
Record RetentionPolicy : Type := MkRetention { rp_ttl_sec : Z; rp_max_count : Z; rp_max_bytes : Z }.

(** src/core/keyvalue/keyvalue_engine.h:35-38 [KeyValueEngine::Entry]. *)
Record Entry : Type := MkEntry { e_value : bytes; e_created_at_sec : Z }.

#[global] Instance Entry_eq_dec : EqDecision Entry.
Proof. solve_decision. Defined.

(** src/core/keyvalue/keyvalue_engine.h:43-46 [KeyValueEngine]. With the number of
    clock readings and map traversals made so far, and the environment. *)
Record KeyValueEngine : Type := MkKv {
  kv_path : path;
  kv_max_entries : Z;
  kv_retention : RetentionPolicy;
  kv_map : gmap bytes Entry;
  kv_ticks : nat;
  kv_fs : fs
}.

#[global] Instance kv_HasFs : HasFs KeyValueEngine := {|
  get_fs := kv_fs;
  set_fs f s := MkKv (kv_path s) (kv_max_entries s) (kv_retention s) (kv_map s) (kv_ticks s) f
|}.

Definition kv_with_map (m : gmap bytes Entry) (ticks : nat) (s : KeyValueEngine) : KeyValueEngine :=
  MkKv (kv_path s) (kv_max_entries s) (kv_retention s) m ticks (kv_fs s).

(** ** The record formats *)

(** One record of [kv_timed.log]. *)
Record KvRecord : Type := MkKvRec { kr_op : Z; kr_ts : Z; kr_key : bytes; kr_value : bytes }.

(** src/core/keyvalue/keyvalue_engine.cc:82-90 [KeyValueEngine::Put]. The bytes of one
    record; [Delete] and [Compact] write the same fields. *)
Definition kv_enc (r : KvRecord) : bytes :=
  le_split 1 (kr_op r) ++ le_split 4 (zlen (kr_key r)) ++ le_split 4 (zlen (kr_value r)) ++
  le_split 8 (kr_ts r) ++ kr_key r ++ kr_value r.

(** src/core/keyvalue/keyvalue_engine.cc:51-61 [KeyValueEngine::Open]. *)
Definition kv_dec (d : bytes) : option (KvRecord * bytes) :=
  '(op, d) ← rd_num 1 d;
  '(ksz, d) ← rd_num 4 d;
  '(vsz, d) ← rd_num 4 d;
  '(ts, d) ← rd_num 8 d;
  '(k, d) ← rd_bytes ksz d;
  '(v, d) ← rd_bytes vsz d;
  Some (MkKvRec op ts k v, d).

#[global] Instance kv_codec : LogCodec KvRecord := {| log_enc := kv_enc; log_dec := kv_dec |}.

(** A record of [kv.log] has no time. *)
Record LegacyRecord : Type := MkLegacy { lr_op : Z; lr_key : bytes; lr_value : bytes }.

(** The older version wrote what [Open] reads. *)
Definition legacy_enc (r : LegacyRecord) : bytes :=
  le_split 1 (lr_op r) ++ le_split 4 (zlen (lr_key r)) ++ le_split 4 (zlen (lr_value r)) ++ lr_key r ++ lr_value r.

(** src/core/keyvalue/keyvalue_engine.cc:34-42 [KeyValueEngine::Open]. *)
Definition legacy_dec (d : bytes) : option (LegacyRecord * bytes) :=
  '(op, d) ← rd_num 1 d;
  '(ksz, d) ← rd_num 4 d;
  '(vsz, d) ← rd_num 4 d;
  '(k, d) ← rd_bytes ksz d;
  '(v, d) ← rd_bytes vsz d;
  Some (MkLegacy op k v, d).

#[global] Instance legacy_codec : LogCodec LegacyRecord := {| log_enc := legacy_enc; log_dec := legacy_dec |}.

(** ** The operations *)

Section kv.
Context (clock : nat -> Z) (ord : nat -> MapOrder bytes Entry).

Definition kv_tick (s : KeyValueEngine) : KeyValueEngine := kv_with_map (kv_map s) (S (kv_ticks s)) s.

(** src/core/keyvalue/keyvalue_engine.cc:12-15 [NowSec]. *)
Definition NowSec : M KeyValueEngine Z := fun s => (inr (clock (kv_ticks s)), kv_tick s).

(** src/core/keyvalue/keyvalue_engine.cc:144-147 [KeyValueEngine::IsExpired]. *)
Definition kv_IsExpired (rp : RetentionPolicy) (e : Entry) (now_sec : Z) : bool :=
  (0 <? rp_ttl_sec rp) && (0 <? e_created_at_sec e) && (e_created_at_sec e <? now_sec) &&
  (rp_ttl_sec rp <=? now_sec - e_created_at_sec e).

(** src/core/keyvalue/keyvalue_engine.cc:149-153 [KeyValueEngine::ApproxBytesUsed]. *)
Definition ApproxBytesUsed (m : gmap bytes Entry) : Z :=
  u64 (map_fold (fun k e bytes => bytes + (zlen k + zlen (e_value e))) 0 m).

(** src/core/keyvalue/keyvalue_engine.cc:164-167 [KeyValueEngine::EnforceRetention]. *)
Definition find_oldest (l : list (bytes * Entry)) : option (bytes * Entry) :=
  fold_left (fun oldest it =>
    match oldest with
    | None => Some it
    | Some o => if e_created_at_sec it.2 <? e_created_at_sec o.2 then Some it else oldest
    end) l None.

(** src/core/keyvalue/keyvalue_engine.cc:163-169 [KeyValueEngine::EnforceRetention]. *)
Definition prune_oldest (t : nat) (m : gmap bytes Entry) : gmap bytes Entry :=
  match find_oldest (@iter_order _ _ _ _ (ord t) m) with
  | Some (k, _) => delete k m
  | None => m
  end.

(** [while (cond) prune_oldest();] *)
Fixpoint prune_while (fuel : nat) (cond : gmap bytes Entry -> bool) (t : nat) (m : gmap bytes Entry)
    : gmap bytes Entry * nat :=
  match fuel with
  | O => (m, t)
  | S fuel => if cond m then prune_while fuel cond (S t) (prune_oldest t m) else (m, t)
  end.

Definition over_count (rp : RetentionPolicy) (m : gmap bytes Entry) : bool :=
  (0 <? rp_max_count rp) && (rp_max_count rp <? Z.of_nat (size m)).
Definition over_bytes (rp : RetentionPolicy) (m : gmap bytes Entry) : bool :=
  (0 <? rp_max_bytes rp) && (rp_max_bytes rp <? ApproxBytesUsed m) && negb (bool_decide (m = ∅)).

(** src/core/keyvalue/keyvalue_engine.cc:155-172 [KeyValueEngine::EnforceRetention]. A
    map of [n] entries is empty after [n] rounds of either loop. *)
Definition EnforceRetention : M KeyValueEngine unit :=
  now ← NowSec;
  mmodify (fun s =>
    let rp := kv_retention s in
    let m := kv_map s in
    let m := if 0 <? rp_ttl_sec rp then filter (fun ke => kv_IsExpired rp ke.2 now = false) m else m in
    let '(m, t) := prune_while (size m) (over_count rp) (kv_ticks s) m in
    let '(m, t) := prune_while (size m) (over_bytes rp) t m in
    kv_with_map m t s).

(** [kv_.erase(kv_.begin())] *)
Definition kv_erase_begin (s : KeyValueEngine) : KeyValueEngine :=
  kv_with_map (@erase_begin _ _ _ _ (ord (kv_ticks s)) (kv_map s)) (S (kv_ticks s)) s.

(** The effect of a record on the map. *)
Definition kv_apply (op created : Z) (k v : bytes) (m : gmap bytes Entry) : gmap bytes Entry :=
  if op =? 1 then <[k := MkEntry v created]> m else if op =? 2 then delete k m else m.

Definition kv_on_map (f : gmap bytes Entry -> gmap bytes Entry) (s : KeyValueEngine) : KeyValueEngine :=
  kv_with_map (f (kv_map s)) (kv_ticks s) s.

(** src/core/keyvalue/keyvalue_engine.cc:43-45 [KeyValueEngine::Open]. *)
Definition legacy_step (now : Z) (s : KeyValueEngine) (r : LegacyRecord) : KeyValueEngine :=
  let s := kv_on_map (kv_apply (lr_op r) now (lr_key r) (lr_value r)) s in
  if (0 <? kv_max_entries s) && (kv_max_entries s <? Z.of_nat (size (kv_map s))) then kv_erase_begin s else s.

(** src/core/keyvalue/keyvalue_engine.cc:62-63 [KeyValueEngine::Open]. *)
Definition timed_step (s : KeyValueEngine) (r : KvRecord) : KeyValueEngine :=
  kv_on_map (kv_apply (kr_op r) (kr_ts r) (kr_key r) (kr_value r)) s.

Definition kv_log_path (s : KeyValueEngine) : path := kv_path s +:+ "/kv_timed.log".

(** src/core/keyvalue/keyvalue_engine.cc:24-68 [KeyValueEngine::Open]. *)
Definition kv_Open : M KeyValueEngine unit :=
  s ← mget;
  on_fs (create_directories (kv_path s) (IOError "kv create dir failed")) ;;
  now ← NowSec;
  d ← on_fs (ifstream_read (kv_path s +:+ "/kv.log"));
  mmodify (fun s => match d with Some d => log_replay (legacy_step now) d s | None => s end) ;;
  d ← on_fs (ifstream_read (kv_log_path s));
  mmodify (fun s => match d with Some d => log_replay timed_step d s | None => s end) ;;
  EnforceRetention.

(** src/core/keyvalue/keyvalue_engine.cc:70-70 [KeyValueEngine::Close]. *)
Definition kv_Close : M KeyValueEngine unit := mret tt.

(** src/core/keyvalue/keyvalue_engine.cc:72-92 [KeyValueEngine::Put]. *)
Definition kv_Put (key value : bytes) : M KeyValueEngine unit :=
  mguard (negb (bool_decide (key = []))) (InvalidArgument "kv key empty") ;;
  mmodify (fun s =>
    if (0 <? kv_max_entries s) && (kv_max_entries s <=? Z.of_nat (size (kv_map s))) &&
       bool_decide (kv_map s !! key = None)
    then kv_erase_begin s else s) ;;
  now ← NowSec;
  mmodify (kv_on_map (insert key (MkEntry value now))) ;;
  EnforceRetention ;;
  s ← mget;
  on_fs (ofstream_write false (kv_log_path s) (IOError "kv append failed") (log_enc (MkKvRec 1 now key value))).

(** src/core/keyvalue/keyvalue_engine.cc:94-101 [KeyValueEngine::Get]. *)
Definition kv_Get (key : bytes) : M KeyValueEngine bytes :=
  s ← mget;
  match kv_map s !! key with
  | None => mfail (NotFound "kv not found")
  | Some e =>
      now ← NowSec;
      mguard (negb (kv_IsExpired (kv_retention s) e now)) (NotFound "kv expired") ;;
      mret (e_value e)
  end.

(** src/core/keyvalue/keyvalue_engine.cc:103-117 [KeyValueEngine::Delete]. The stream is
    opened before the clock is read. *)
Definition kv_Delete (key : bytes) : M KeyValueEngine unit :=
  mmodify (kv_on_map (delete key)) ;;
  s ← mget;
  let ts := clock (kv_ticks s) in
  on_fs (ofstream_write false (kv_log_path s) (IOError "kv append failed") (log_enc (MkKvRec 2 ts key []))) ;;
  mmodify kv_tick.

(** The records [Compact] writes: one put per entry, in iteration order. *)
Definition compact_records (t : nat) (m : gmap bytes Entry) : list KvRecord :=
  (fun ke => MkKvRec 1 (e_created_at_sec ke.2) ke.1 (e_value ke.2)) <$> @iter_order _ _ _ _ (ord t) m.

(** src/core/keyvalue/keyvalue_engine.cc:119-136 [KeyValueEngine::Compact]. *)
Definition kv_Compact : M KeyValueEngine unit :=
  EnforceRetention ;;
  s ← mget;
  mmodify kv_tick ;;
  on_fs (ofstream_write true (kv_log_path s) (IOError "kv compact open failed")
           (log_bytes (compact_records (kv_ticks s) (kv_map s)))).

(** src/core/keyvalue/keyvalue_engine.cc:138-142 [KeyValueEngine::SetRetentionPolicy]. *)
Definition kv_SetRetentionPolicy (rp : RetentionPolicy) : M KeyValueEngine unit :=
  mmodify (fun s => MkKv (kv_path s) (kv_max_entries s) rp (kv_map s) (kv_ticks s) (kv_fs s)) ;;
  EnforceRetention ;;
  kv_Compact.

(** ** The retention loops *)

Lemma find_oldest_elem l o : find_oldest l = Some o -> o ∈ l.
Proof.
  unfold find_oldest. enough (forall acc, fold_left _ l acc = Some o -> o ∈ l \/ acc = Some o) as Hgen
    by (intros E; by destruct (Hgen None E)).
  induction l as [|it l IH]; intros acc E; [by right|]. cbn in E. apply IH in E as [E|E]; [left; by right|].
  destruct acc as [a|]; [destruct (_ <? _)|]; simplify_eq; try (left; by left); by right.
Qed.

Lemma find_oldest_None l : find_oldest l = None -> l = [].
Proof.
  unfold find_oldest. enough (forall acc, fold_left _ l acc = None -> l = [] /\ acc = None) as Hgen
    by (intros E; by apply (Hgen None E)).
  induction l as [|it l IH]; intros acc E; [done|]. cbn in E. apply IH in E as [_ E].
  by destruct acc; [destruct (_ <? _)|].
Qed.

Lemma prune_oldest_size t m : size (prune_oldest t m) = Nat.pred (size m).
Proof.
  unfold prune_oldest. destruct (find_oldest _) as [[k e]|] eqn:E.
  - apply find_oldest_elem, elem_of_iter_order in E. rewrite map_size_delete_Some by eauto. done.
  - apply find_oldest_None, iter_order_nil in E as ->. done.
Qed.

Lemma prune_oldest_subseteq t m : prune_oldest t m ⊆ m.
Proof. unfold prune_oldest. destruct (find_oldest _) as [[k e]|]; [apply delete_subseteq|done]. Qed.

Lemma prune_while_subseteq fuel cond t m : (prune_while fuel cond t m).1 ⊆ m.
Proof.
  revert t m. induction fuel as [|fuel IH]; intros t m; cbn; [done|]. destruct (cond m); [|done].
  etrans; [apply IH|apply prune_oldest_subseteq].
Qed.

(** Both loops end because their condition is false, not because the bound of
    the model is reached. *)
Lemma prune_while_done cond t m :
  cond ∅ = false -> cond (prune_while (size m) cond t m).1 = false.
Proof.
  intros Hc. remember (size m) as n eqn:En. revert t m En. induction n as [|n IH]; intros t m En; cbn.
  - symmetry in En. apply map_size_empty_inv in En as ->. done.
  - destruct (cond m) eqn:E; [|done]. apply IH. rewrite prune_oldest_size. lia.
Qed.

(** ** What [EnforceRetention] leaves *)

(** The policy holds of a map. *)
Record retained (rp : RetentionPolicy) (m : gmap bytes Entry) : Prop := {
  ret_count : 0 < rp_max_count rp -> Z.of_nat (size m) <= rp_max_count rp;
  ret_bytes : 0 < rp_max_bytes rp -> ApproxBytesUsed m <= rp_max_bytes rp
}.

Lemma over_count_false rp m :
  over_count rp m = false <-> (0 < rp_max_count rp -> Z.of_nat (size m) <= rp_max_count rp).
Proof. unfold over_count. rewrite andb_false_iff, !Z.ltb_ge. lia. Qed.

Lemma over_bytes_false rp m :
  0 <= rp_max_bytes rp ->
  over_bytes rp m = false <-> (0 < rp_max_bytes rp -> ApproxBytesUsed m <= rp_max_bytes rp).
Proof.
  intros Hn. unfold over_bytes. rewrite !andb_false_iff, !Z.ltb_ge, negb_false_iff, bool_decide_eq_true.
  split; [|lia]. intros [[H|H]| ->]; lia || (intros; by vm_compute).
Qed.

Definition retention_ok (rp : RetentionPolicy) : Prop := 0 <= rp_ttl_sec rp /\ 0 <= rp_max_count rp /\ 0 <= rp_max_bytes rp.

Lemma EnforceRetention_spec s :
  retention_ok (kv_retention s) ->
  exists m t, EnforceRetention s = (inr tt, kv_with_map m t s) /\ m ⊆ kv_map s /\ retained (kv_retention s) m /\
    forall k e, m !! k = Some e -> kv_IsExpired (kv_retention s) e (clock (kv_ticks s)) = false.
Proof.
  intros (Ht & Hc & Hb). set (rp := kv_retention s) in *. unfold EnforceRetention, NowSec, mbind, M_bind, mmodify.
  cbn [kv_retention kv_map kv_ticks kv_tick kv_with_map]. fold rp.
  set (m0 := if 0 <? rp_ttl_sec rp then _ else _).
  assert (m0 ⊆ kv_map s) as H0 by (subst m0; destruct (0 <? _); [apply map_filter_subseteq|done]).
  assert (forall k e, m0 !! k = Some e -> kv_IsExpired rp e (clock (kv_ticks s)) = false) as Hexp.
  { intros k e He. subst m0. destruct (0 <? rp_ttl_sec rp) eqn:E.
    - by apply map_lookup_filter_Some in He as [_ He].
    - unfold kv_IsExpired. by rewrite E. }
  pose proof (prune_while_done (over_count rp) (S (kv_ticks s)) m0) as D1.
  pose proof (prune_while_subseteq (size m0) (over_count rp) (S (kv_ticks s)) m0) as S1.
  destruct (prune_while (size m0) _ _ m0) as [m1 t1] eqn:E1. cbn [fst] in *.
  pose proof (prune_while_done (over_bytes rp) t1 m1) as D2.
  pose proof (prune_while_subseteq (size m1) (over_bytes rp) t1 m1) as S2.
  destruct (prune_while (size m1) _ _ m1) as [m2 t2] eqn:E2. cbn [fst] in *.
  exists m2, t2. split; [done|]. split; [by etrans; [|etrans]|]. split.
  - split.
    + intros Hp. apply (map_subseteq_size m2 m1) in S2.
      assert (Z.of_nat (size m1) <= rp_max_count rp); [|lia]. apply over_count_false; [|done].
      apply D1. unfold over_count. rewrite map_size_empty. apply andb_false_iff. right. by apply Z.ltb_ge.
    + apply over_bytes_false; [done|]. apply D2. unfold over_bytes.
      by rewrite (bool_decide_eq_true_2 (∅ = ∅)), andb_false_r.
  - intros k e He. eapply Hexp. eapply lookup_weaken; [|exact S1]. by eapply lookup_weaken.
Qed.
End kv.
