(* ===== verification/KeyValueTheorems.v ===== *)
(** * Theorems about the key-value engine

    The log formats read back what was written, whatever byte the file is cut
    at; the retention policy holds after every operation that enforces it; an
    engine opened on the log of another one has the same entries. *)
From S2P Require Import Prelude Env Stream KeyValue.

Open Scope Z_scope.

(** ** The formats *)

Record kv_rec_valid (r : KvRecord) : Prop := {
  kvr_op : 0 <= kr_op r < 2 ^ 8;
  kvr_ts : is_u64 (kr_ts r);
  kvr_key : zlen (kr_key r) < 2 ^ 32;
  kvr_value : zlen (kr_value r) < 2 ^ 32
}.

Lemma kv_dec_enc r rest : kv_rec_valid r -> kv_dec (kv_enc r ++ rest) = Some (r, rest).
Proof.
  destruct r as [op ts k v]. intros [Hop Hts Hk Hv]. cbn in *. unfold is_u64 in *.
  pose proof (zlen_nonneg k). pose proof (zlen_nonneg v).
  unfold kv_dec, kv_enc. cbn [kr_op kr_ts kr_key kr_value]. by dec_fields.
Qed.

Lemma kv_dec_torn r p : kv_rec_valid r -> p `prefix_of` kv_enc r -> p <> kv_enc r -> kv_dec p = None.
Proof.
  destruct r as [op ts k v]. intros [Hop Hts Hk Hv]. cbn in *. unfold is_u64 in *.
  pose proof (zlen_nonneg k). pose proof (zlen_nonneg v).
  unfold kv_dec, kv_enc. cbn [kr_op kr_ts kr_key kr_value]. intros Hp Hne.
  repeat torn_field.
Qed.

Lemma kv_dec_consumes d r rest : kv_dec d = Some (r, rest) -> (length rest < length d)%nat.
Proof.
  unfold kv_dec. intros H. consume.
  simplify_eq. len.
Qed.

#[global] Instance kv_laws : LogLaws KvRecord := {|
  log_valid := kv_rec_valid;
  log_dec_enc := kv_dec_enc;
  log_dec_torn := kv_dec_torn;
  log_dec_consumes := kv_dec_consumes
|}.

(** ** What a log replays to *)

Definition kv_replay (rs : list KvRecord) (m : gmap bytes Entry) : gmap bytes Entry :=
  fold_left (fun m r => kv_apply (kr_op r) (kr_ts r) (kr_key r) (kr_value r) m) rs m.

Lemma timed_fold rs s : fold_left timed_step rs s = kv_with_map (kv_replay rs (kv_map s)) (kv_ticks s) s.
Proof.
  revert s. induction rs as [|r rs IH]; intros s; [by destruct s|]. cbn [fold_left]. rewrite IH. by destruct s.
Qed.

Lemma kv_replay_snoc rs r m :
  kv_replay (rs ++ [r]) m = kv_apply (kr_op r) (kr_ts r) (kr_key r) (kr_value r) (kv_replay rs m).
Proof. unfold kv_replay. by rewrite fold_left_app. Qed.

Definition put_record (ke : bytes * Entry) : KvRecord := MkKvRec 1 (e_created_at_sec ke.2) ke.1 (e_value ke.2).

Lemma kv_replay_puts l m : NoDup l.*1 -> kv_replay (put_record <$> l) m = list_to_map l ∪ m.
Proof.
  revert m. induction l as [|[k e] l IH]; intros m Hnd; [cbn; by rewrite map_empty_union|].
  apply NoDup_cons in Hnd as [Hk Hnd]. cbn [fmap list_fmap kv_replay fold_left]. fold (kv_replay (put_record <$> l)).
  unfold kv_apply. cbn. rewrite IH by done. destruct e as [v ts]. cbn.
  rewrite <-insert_union_r by (by apply not_elem_of_list_to_map_1). by rewrite insert_union_l.
Qed.

(** Compacting writes the map itself. *)
Lemma kv_replay_compact ord t m : kv_replay (compact_records ord t m) ∅ = m.
Proof.
  unfold compact_records. fold put_record. rewrite (kv_replay_puts _ ∅) by apply (NoDup_iter_order (MapOrder0 := ord t)).
  rewrite map_union_empty. rewrite <-(list_to_map_to_list m) at 2.
  apply list_to_map_proper; [apply (NoDup_iter_order (MapOrder0 := ord t))|apply iter_order_perm].
Qed.

Section kv_theorems.
Context (clock : nat -> Z) (ord : nat -> MapOrder bytes Entry).
Hypothesis clock_u64 : forall t, is_u64 (clock t).

(** ** Running an engine *)

Inductive KvOp : Type :=
  | OpPut (k v : bytes)
  | OpDelete (k : bytes)
  | OpCompact
  | OpRetention (rp : RetentionPolicy).

Definition kv_op (op : KvOp) : M KeyValueEngine unit :=
  match op with
  | OpPut k v => kv_Put clock ord k v
  | OpDelete k => kv_Delete clock k
  | OpCompact => kv_Compact clock ord
  | OpRetention rp => kv_SetRetentionPolicy clock ord rp
  end.

(** Keys and values fit the length fields of the log. *)
Definition kv_op_ok (op : KvOp) : Prop :=
  match op with
  | OpPut k v => k <> [] /\ zlen k < 2 ^ 32 /\ zlen v < 2 ^ 32
  | OpDelete k => zlen k < 2 ^ 32
  | OpCompact => True
  | OpRetention rp => retention_ok rp
  end.

Definition kv_exec (ops : list KvOp) (s : KeyValueEngine) : KeyValueEngine :=
  fold_left (fun s op => (kv_op op s).2) ops s.

Definition no_retention : RetentionPolicy := MkRetention 0 0 0.

(** An engine before [Open]. *)
Definition kv_new (dir : path) (max_entries : Z) (rp : RetentionPolicy) (t : nat) (fm : gmap path bytes) : KeyValueEngine :=
  MkKv dir max_entries rp ∅ t (MkFs fm []).

Definition kv_unbounded (s : KeyValueEngine) : Prop := kv_max_entries s = 0 /\ kv_retention s = no_retention.

(** Entries whose record fits the format. *)
Definition kv_entries_ok (m : gmap bytes Entry) : Prop :=
  map_Forall (fun k e => zlen k < 2 ^ 32 /\ zlen (e_value e) < 2 ^ 32 /\ is_u64 (e_created_at_sec e)) m.

Lemma kv_entries_sub m m' : m ⊆ m' -> kv_entries_ok m' -> kv_entries_ok m.
Proof. intros Hs Hm k e He. apply Hm. by eapply lookup_weaken. Qed.

(** The log of an engine without write errors: it covers the memory, and it is
    exactly the memory when nothing is ever evicted. *)
Record kv_logged (s : KeyValueEngine) (rs : list KvRecord) : Prop := {
  kl_faults : fs_faults (kv_fs s) = [];
  kl_log : default [] (fs_files (kv_fs s) !! kv_log_path s) = log_bytes rs;
  kl_legacy : fs_files (kv_fs s) !! (kv_path s +:+ "/kv.log") = None;
  kl_valid : Forall kv_rec_valid rs;
  kl_policy : retention_ok (kv_retention s);
  kl_covers : kv_map s ⊆ kv_replay rs ∅;
  kl_entries : kv_entries_ok (kv_map s)
}.

(** ** The memory part of the operations, whatever the disk does *)

Lemma EnforceRetention_off s :
  kv_retention s = no_retention -> EnforceRetention clock ord s = (inr tt, kv_tick s).
Proof.
  intros E. unfold EnforceRetention, NowSec, mbind, M_bind, mmodify. cbn [kv_retention kv_map kv_ticks kv_tick kv_with_map].
  rewrite E. cbn [rp_ttl_sec no_retention Z.ltb Z.compare].
  assert (forall fuel rp t m, rp = no_retention -> prune_while ord fuel (over_count rp) t m = (m, t)) as H1
    by (by intros [|fuel] ? ? ? ->).
  assert (forall fuel rp t m, rp = no_retention -> prune_while ord fuel (over_bytes rp) t m = (m, t)) as H2
    by (by intros [|fuel] ? ? ? ->).
  by rewrite H1, H2 by done.
Qed.

Lemma kv_Put_memory k v s :
  k <> [] -> retention_ok (kv_retention s) ->
  exists m t t0,
    kv_Put clock ord k v s =
      on_fs (ofstream_write false (kv_log_path s) (IOError "kv append failed") (log_enc (MkKvRec 1 (clock t0) k v)))
        (kv_with_map m t s) /\
    m ⊆ <[k := MkEntry v (clock t0)]> (kv_map s) /\ retained (kv_retention s) m /\
    (0 < kv_max_entries s -> Z.of_nat (size (kv_map s)) <= kv_max_entries s -> Z.of_nat (size m) <= kv_max_entries s) /\
    (kv_unbounded s -> m = <[k := MkEntry v (clock t0)]> (kv_map s)).
Proof.
  intros Hk Hrp. unfold kv_Put. rewrite bool_decide_eq_false_2 by done. cbn [negb mguard].
  rewrite (mbind_ok _ _ s tt s) by done.
  set (full := (0 <? kv_max_entries s) && (kv_max_entries s <=? Z.of_nat (size (kv_map s))) && bool_decide (kv_map s !! k = None)).
  rewrite (mbind_ok (mmodify _) _ s tt _ eq_refl). fold full.
  set (s1 := if full then kv_erase_begin ord s else s).
  assert (exists m1 t1, s1 = kv_with_map m1 t1 s /\ m1 ⊆ kv_map s /\
    (0 < kv_max_entries s -> Z.of_nat (size (kv_map s)) <= kv_max_entries s ->
     Z.of_nat (size (<[k := MkEntry v (clock t1)]> m1)) <= kv_max_entries s) /\
    (full = false -> m1 = kv_map s)) as (m1 & t1 & -> & Hsub & Hsize & Hm1).
  { subst s1. unfold full. destruct (_ && _ && _) eqn:Ef.
    - eexists _, _. split; [done|]. split; [apply (erase_begin_subseteq (MapOrder0 := ord (kv_ticks s)))|]. split; [|done].
      intros H1 H2. apply andb_true_iff in Ef as [[Hp Hl]%andb_true_iff Hn].
      apply Z.leb_le in Hl. apply bool_decide_eq_true in Hn.
      pose proof (erase_begin_size (MapOrder0 := ord (kv_ticks s)) (kv_map s)) as Hs.
      rewrite map_size_insert_None.
      + rewrite Hs in H2; [lia|]. intros E. rewrite E, map_size_empty in Hl. lia.
      + eapply lookup_weaken_None; [exact Hn|apply (erase_begin_subseteq (MapOrder0 := ord (kv_ticks s)))].
    - exists (kv_map s), (kv_ticks s). split; [by destruct s|]. split; [done|]. split; [|done].
      intros H1 H2. apply andb_false_iff in Ef as [[Hp|Hl]%andb_false_iff|Hn].
      + apply Z.ltb_ge in Hp. lia.
      + apply Z.leb_gt in Hl. rewrite map_size_insert. destruct (_ !! k); cbn; lia.
      + apply bool_decide_eq_false in Hn. rewrite map_size_insert. destruct (_ !! k); [cbn; lia|done]. }
  rewrite (mbind_ok (NowSec clock) _ _ _ _ eq_refl), (mbind_ok (mmodify _) _ _ tt _ eq_refl).
  cbn [kv_ticks kv_with_map]. set (s2 := kv_on_map _ _).
  destruct (EnforceRetention_spec clock ord s2 Hrp) as (m & t & E & Hm & Hret & _).
  rewrite (mbind_ok _ _ _ _ _ E), (mbind_ok mget _ _ _ _ eq_refl).
  exists m, t, t1. split; [by destruct s|]. split; [etrans; [exact Hm|by apply insert_mono]|].
  split; [done|]. split.
  - intros H1 H2. specialize (Hsize H1 H2). apply map_subseteq_size in Hm. cbn in Hm. lia.
  - intros [H1 H2]. rewrite (EnforceRetention_off s2 H2) in E.
    assert (m = kv_map s2) as -> by (by injection E as <-). cbn. by rewrite Hm1 by (unfold full; by rewrite H1).
Qed.

Lemma kv_Compact_memory s :
  retention_ok (kv_retention s) ->
  exists m t t0,
    kv_Compact clock ord s =
      on_fs (ofstream_write true (kv_log_path s) (IOError "kv compact open failed") (log_bytes (compact_records ord t0 m)))
        (kv_with_map m t s) /\
    m ⊆ kv_map s /\ retained (kv_retention s) m /\ (kv_retention s = no_retention -> m = kv_map s).
Proof.
  intros Hrp. destruct (EnforceRetention_spec clock ord s Hrp) as (m & t & E & Hm & Hret & _).
  exists m, (S t), t. split.
  - unfold kv_Compact. rewrite (mbind_ok _ _ _ _ _ E), (mbind_ok mget _ _ _ _ eq_refl).
    rewrite (mbind_ok (mmodify _) _ _ tt _ eq_refl). by destruct s.
  - split; [done|]. split; [done|]. intros Hoff. rewrite (EnforceRetention_off s Hoff) in E. by injection E as <-.
Qed.

Lemma kv_Delete_memory k s :
  exists t, kv_Delete clock k s =
    (on_fs (ofstream_write false (kv_log_path s) (IOError "kv append failed") (log_enc (MkKvRec 2 (clock t) k []))) ;;
     mmodify kv_tick) (kv_on_map (delete k) s).
Proof.
  exists (kv_ticks s). unfold kv_Delete.
  rewrite (mbind_ok (mmodify _) _ _ tt _ eq_refl), (mbind_ok mget _ _ _ _ eq_refl). by destruct s.
Qed.

(** Only the files change when the stream is written. *)
Lemma on_fs_kv {A} (w : M fs A) s : (on_fs w s).2 = set_fs (w (kv_fs s)).2 s.
Proof. unfold on_fs. cbn. by destruct (w (kv_fs s)). Qed.

(** ** The policy holds after every operation *)

(** The bytes of the entries, which a machine holds in its 64-bit address space. *)
Definition kv_total (m : gmap bytes Entry) : Z := map_fold (fun k e b => b + (zlen k + zlen (e_value e))) 0 m.

Lemma kv_total_nonneg m : 0 <= kv_total m.
Proof.
  unfold kv_total. apply (map_fold_weak_ind (fun b _ => 0 <= b)); [done|].
  intros k e m' b _ Hb. pose proof (zlen_nonneg k). pose proof (zlen_nonneg (e_value e)). lia.
Qed.

Lemma kv_total_delete k m : kv_total (delete k m) <= kv_total m.
Proof.
  destruct (m !! k) as [e|] eqn:E; [|by rewrite delete_id].
  unfold kv_total at 2. rewrite (map_fold_delete_L _ _ k e m) by (done || (intros; lia)).
  fold (kv_total (delete k m)). pose proof (zlen_nonneg k). pose proof (zlen_nonneg (e_value e)). lia.
Qed.

Record kv_within (s : KeyValueEngine) : Prop := {
  kw_retained : retained (kv_retention s) (kv_map s);
  kw_entries : 0 < kv_max_entries s -> Z.of_nat (size (kv_map s)) <= kv_max_entries s
}.

(** The size limits of the key-value engine hold after every operation, for
    every clock, iteration order and pattern of disk errors: at most
    [max_entries] entries, and at most [max_count] entries and [max_bytes] bytes
    under the retention policy in force.  The operations are put, delete,
    compaction and a change of policy. *)
Theorem kv_limits_hold op s :
  kv_op_ok op -> retention_ok (kv_retention s) -> kv_total (kv_map s) < 2 ^ 64 -> kv_within s ->
  retention_ok (kv_retention (kv_op op s).2) /\ kv_within (kv_op op s).2.
Proof.
  intros Hop Hrp Htot [Hret Hmax]. destruct op as [k v|k| |rp]; cbn [kv_op kv_op_ok] in *.
  - destruct Hop as (Hk & _ & _). destruct (kv_Put_memory k v s Hk Hrp) as (m & t & t0 & -> & _ & Hm & Hs & _).
    rewrite on_fs_kv. split; [done|]. split; [done|]. intros H. by apply Hs, Hmax.
  - destruct (kv_Delete_memory k s) as (t & ->).
    assert (kv_within (kv_on_map (delete k) s)) as [H1 H2].
    { split.
      - destruct Hret as [Hc Hb]. split.
        + intros H. specialize (Hc H). cbn. pose proof (map_size_delete k (kv_map s)) as Hd.
          destruct (_ !! k); cbn in Hd; lia.
        + intros H. specialize (Hb H). cbn. pose proof (kv_total_delete k (kv_map s)) as Hd.
          pose proof (kv_total_nonneg (delete k (kv_map s))).
          change (u64 (kv_total (kv_map s)) <= rp_max_bytes (kv_retention s)) in Hb.
          change (u64 (kv_total (delete k (kv_map s))) <= rp_max_bytes (kv_retention s)).
          rewrite u64_id in * by (split; lia). lia.
      - intros H. specialize (Hmax H). cbn. pose proof (map_size_delete k (kv_map s)) as Hd.
        destruct (_ !! k); cbn in Hd; lia. }
    unfold mbind, M_bind, on_fs. by destruct (ofstream_write _ _ _ _ _) as [[e|[]] f].
  - destruct (kv_Compact_memory s Hrp) as (m & t & t0 & -> & Hsub & Hm & _).
    rewrite on_fs_kv. split; [done|]. split; [done|]. intros H. specialize (Hmax H).
    apply map_subseteq_size in Hsub. cbn. lia.
  - unfold kv_SetRetentionPolicy. rewrite (mbind_ok (mmodify _) _ _ tt _ eq_refl).
    set (s1 := MkKv _ _ _ _ _ _).
    destruct (EnforceRetention_spec clock ord s1 Hop) as (m & t & E & Hm & _ & _). rewrite (mbind_ok _ _ _ _ _ E).
    destruct (kv_Compact_memory (kv_with_map m t s1) Hop) as (m' & t' & t0 & -> & Hsub & Hm' & _).
    rewrite on_fs_kv. split; [done|]. split; [done|]. intros H. specialize (Hmax H).
    apply map_subseteq_size in Hsub, Hm. cbn in *. lia.
Qed.

(** ** The log without disk errors *)

Lemma kv_path_ne dir : dir +:+ "/kv.log" <> dir +:+ "/kv_timed.log".
Proof. intros E. apply (inj (String.app dir)) in E. discriminate E. Qed.

Lemma compact_records_valid t m : kv_entries_ok m -> Forall kv_rec_valid (compact_records ord t m).
Proof.
  intros Hm. apply Forall_fmap, Forall_forall. intros [k e] Hin. apply elem_of_iter_order in Hin.
  destruct (Hm _ _ Hin) as (H1 & H2 & H3). by split.
Qed.

Lemma kv_append_logged s rs r m t :
  kv_logged s rs -> kv_rec_valid r -> kv_entries_ok m ->
  m ⊆ kv_apply (kr_op r) (kr_ts r) (kr_key r) (kr_value r) (kv_replay rs ∅) ->
  exists s', on_fs (ofstream_write false (kv_log_path s) (IOError "kv append failed") (log_enc r)) (kv_with_map m t s) = (inr tt, s') /\
    kv_logged s' (rs ++ [r]) /\ s' = kv_with_map m t (set_fs (kv_fs s') s).
Proof.
  intros [Hf Hl Hleg Hv Hp Hc He] Hr Hm Hsub. destruct s as [dir me rp m0 t0 [fm flts]]. cbn in *. subst flts.
  eexists. split; [unfold on_fs; cbn [get_fs kv_HasFs kv_fs kv_with_map]; by rewrite ofstream_write_ok|]. split; [|done].
  split; cbn; try done.
  - rewrite lookup_insert_eq. cbn. rewrite Hl, log_bytes_app. unfold log_bytes at 3. cbn. by rewrite app_nil_r.
  - rewrite lookup_insert_ne; [done|]. intros E. symmetry in E. by apply kv_path_ne in E.
  - apply Forall_app. split; [done|]. by constructor.
  - by rewrite kv_replay_snoc.
Qed.

Lemma kv_Put_logged k v s rs :
  kv_logged s rs -> kv_op_ok (OpPut k v) ->
  exists s' r, kv_Put clock ord k v s = (inr tt, s') /\ kv_logged s' (rs ++ [r]) /\
    (kv_unbounded s -> kv_unbounded s' /\ kv_map s' = kv_apply (kr_op r) (kr_ts r) (kr_key r) (kr_value r) (kv_map s)) /\
    kv_path s' = kv_path s /\ kr_key r = k /\ kr_op r = 1 /\ kr_value r = v.
Proof.
  intros Hl (Hk & Hkl & Hvl). destruct (kv_Put_memory k v s Hk (kl_policy _ _ Hl)) as (m & t & t0 & -> & Hm & _ & _ & Hu).
  assert (kv_entries_ok (<[k := MkEntry v (clock t0)]> (kv_map s))) as He.
  { apply map_Forall_insert_2; [by cbn|]. apply Hl. }
  destruct (kv_append_logged s rs (MkKvRec 1 (clock t0) k v) m t Hl) as (s' & -> & Hl' & Es').
  - by split; cbn; auto.
  - by eapply kv_entries_sub.
  - etrans; [exact Hm|]. cbn. apply insert_mono, Hl.
  - eexists s', _. split; [done|]. split; [exact Hl'|]. split; [|by rewrite Es'].
    intros Hub. split; [by rewrite Es'|]. rewrite Es'. cbn. by apply Hu.
Qed.

Lemma kv_Delete_logged k s rs :
  kv_logged s rs -> kv_op_ok (OpDelete k) ->
  exists s' r, kv_Delete clock k s = (inr tt, s') /\ kv_logged s' (rs ++ [r]) /\
    (kv_unbounded s -> kv_unbounded s' /\ kv_map s' = kv_apply (kr_op r) (kr_ts r) (kr_key r) (kr_value r) (kv_map s)) /\
    kv_path s' = kv_path s /\ kr_key r = k /\ kr_op r = 2 /\ kr_value r = [].
Proof.
  intros Hl Hk. destruct (kv_Delete_memory k s) as (t & ->).
  destruct (kv_append_logged s rs (MkKvRec 2 (clock t) k []) (delete k (kv_map s)) (kv_ticks s) Hl) as (s' & E & Hl' & Es').
  - by split; cbn; auto.
  - eapply kv_entries_sub; [apply delete_subseteq|apply Hl].
  - cbn. apply delete_mono, Hl.
  - exists (kv_tick s'), (MkKvRec 2 (clock t) k []). split; [by rewrite (mbind_ok _ _ _ _ _ E)|]. split; [by destruct Hl'|].
    split; [|by rewrite Es']. intros Hub. by rewrite Es'.
Qed.

Lemma kv_Compact_logged s rs :
  kv_logged s rs ->
  exists s' rs', kv_Compact clock ord s = (inr tt, s') /\ kv_logged s' rs' /\ kv_replay rs' ∅ = kv_map s' /\
    kv_path s' = kv_path s /\ kv_retention s' = kv_retention s /\ kv_max_entries s' = kv_max_entries s /\
    (kv_retention s = no_retention -> kv_map s' = kv_map s).
Proof.
  intros [Hf Hl Hleg Hv Hp Hc He]. destruct (kv_Compact_memory s Hp) as (m & t & t0 & -> & Hm & _ & Hu).
  assert (kv_entries_ok m) as Hem by (by eapply kv_entries_sub).
  destruct s as [dir me rp m0 t1 [fm flts]]. cbn in *. subst flts.
  eexists _, (compact_records ord t0 m). split; [unfold on_fs; cbn [get_fs kv_HasFs kv_fs kv_with_map]; by rewrite ofstream_write_ok|].
  split; [|by rewrite kv_replay_compact].
  split; cbn; try done.
  - by rewrite lookup_insert_eq.
  - rewrite lookup_insert_ne; [done|]. intros E. symmetry in E. by apply kv_path_ne in E.
  - by apply compact_records_valid.
  - by rewrite kv_replay_compact.
Qed.

Lemma kv_op_logged op s rs :
  kv_logged s rs -> kv_op_ok op ->
  exists s' rs', kv_op op s = (inr tt, s') /\ kv_logged s' rs' /\ kv_path s' = kv_path s /\
    (op = OpCompact -> kv_replay rs' ∅ = kv_map s').
Proof.
  intros Hl Hop. destruct op as [k v|k| |rp].
  - destruct (kv_Put_logged k v s rs Hl Hop) as (s' & r & E & Hl' & _ & Hp & _). by exists s', (rs ++ [r]).
  - destruct (kv_Delete_logged k s rs Hl Hop) as (s' & r & E & Hl' & _ & Hp & _). by exists s', (rs ++ [r]).
  - destruct (kv_Compact_logged s rs Hl) as (s' & rs' & E & Hl' & Hr & Hp & _). by exists s', rs'.
  - cbn [kv_op kv_op_ok] in *. unfold kv_SetRetentionPolicy. rewrite (mbind_ok (mmodify _) _ _ tt _ eq_refl).
    set (s1 := MkKv _ _ _ _ _ _).
    destruct (EnforceRetention_spec clock ord s1 Hop) as (m & t & E & Hm & _ & _).
    rewrite (mbind_ok _ _ _ _ _ E).
    destruct (kv_Compact_logged (kv_with_map m t s1) rs) as (s' & rs' & E' & Hl' & _ & Hp & _).
    { destruct Hl as [Hf Hl Hleg Hv Hpol Hc He]. split; try done.
      - by etrans.
      - by eapply kv_entries_sub. }
    by exists s', rs'.
Qed.

Lemma kv_exec_snoc ops op s : kv_exec (ops ++ [op]) s = (kv_op op (kv_exec ops s)).2.
Proof. unfold kv_exec. by rewrite fold_left_app. Qed.

(** A directory without logs. *)
Definition kv_empty_dir (dir : path) (fm : gmap path bytes) : Prop :=
  fm !! (dir +:+ "/kv.log") = None /\ fm !! (dir +:+ "/kv_timed.log") = None.

Lemma kv_new_logged dir me rp t fm :
  kv_empty_dir dir fm -> retention_ok rp -> kv_logged (kv_new dir me rp t fm) [].
Proof.
  intros [H1 H2] Hrp. split; try done.
  change (default [] (fm !! (dir +:+ "/kv_timed.log")) = []). by rewrite H2.
Qed.

Lemma kv_exec_logged dir me rp t fm ops :
  kv_empty_dir dir fm -> retention_ok rp -> Forall kv_op_ok ops ->
  let s := kv_exec ops (kv_new dir me rp t fm) in
  exists rs, kv_logged s rs /\ kv_path s = dir /\ (last ops = Some OpCompact -> kv_replay rs ∅ = kv_map s).
Proof.
  intros Hd Hrp. induction ops as [|op ops IH] using rev_ind; intros Hops.
  - exists []. split; [by apply kv_new_logged|done].
  - apply Forall_app in Hops as [Hops Hop]. rewrite Forall_singleton in Hop. destruct (IH Hops) as (rs & Hl & Hp & _).
    destruct (kv_op_logged op _ _ Hl Hop) as (s' & rs' & E & Hl' & Hp' & Hc).
    cbn zeta. rewrite kv_exec_snoc, E. exists rs'. split; [done|]. split; [cbn [snd]; congruence|].
    rewrite last_snoc. intros [= ->]. by apply Hc.
Qed.

(** ** Opening *)

Lemma kv_Open_log s rs log :
  fs_faults (kv_fs s) = [] -> fs_files (kv_fs s) !! (kv_path s +:+ "/kv.log") = None ->
  default [] (fs_files (kv_fs s) !! kv_log_path s) = log -> (forall s', log_replay timed_step log s' = fold_left timed_step rs s') ->
  kv_map s = ∅ -> retention_ok (kv_retention s) ->
  exists m t, kv_Open clock ord s = (inr tt, kv_with_map m t s) /\ m ⊆ kv_replay rs ∅ /\
    (kv_retention s = no_retention -> m = kv_replay rs ∅).
Proof.
  destruct s as [dir me rp m0 t0 [fm flts]]. cbn [kv_fs fs_faults fs_files kv_path kv_map kv_retention].
  intros -> Hleg Hlog Hrep -> Hrp. set (s := MkKv dir me rp ∅ t0 (MkFs fm [])). unfold kv_Open. rewrite (mbind_ok mget _ _ _ _ eq_refl).
  rewrite (mbind_ok (on_fs (create_directories _ _)) _ _ tt s) by done. rewrite (mbind_ok (NowSec clock) _ _ _ _ eq_refl).
  set (s1 := kv_tick s).
  assert (forall p, on_fs (ifstream_read p) s1 = (inr (fm !! p), s1)) as Hread.
  { intros p. unfold on_fs. cbn [get_fs kv_HasFs kv_fs s1 s kv_tick kv_with_map]. by rewrite ifstream_read_lookup. }
  rewrite (mbind_ok _ _ _ _ _ (Hread _)). cbn [kv_path s]. rewrite Hleg. rewrite (mbind_ok (mmodify (fun s => s)) _ s1 tt s1 eq_refl).
  rewrite (mbind_ok _ _ _ _ _ (Hread _)). set (s2 := kv_with_map (kv_replay rs ∅) (S t0) s1).
  rewrite (mbind_ok (mmodify _) _ _ tt s2).
  - destruct (EnforceRetention_spec clock ord s2 Hrp) as (m & t & E & Hm & _). exists m, t. split_and!; [exact E | exact Hm |].
    intros Hno. rewrite (EnforceRetention_off s2 Hno) in E. symmetry. exact (f_equal (fun p => kv_map p.2) E).
  - unfold mmodify. f_equal. change (kv_log_path (MkKv _ _ _ _ _ _)) with (dir +:+ "/kv_timed.log") in Hlog.
    change (kv_log_path s) with (dir +:+ "/kv_timed.log"). destruct (fm !! (dir +:+ "/kv_timed.log")) as [d|]; cbn [default from_option id] in Hlog; subst log.
    + rewrite Hrep, timed_fold. done.
    + specialize (Hrep s1). rewrite timed_fold in Hrep. exact Hrep.
Qed.

Lemma kv_Open_replay dir t fm rs log :
  fm !! (dir +:+ "/kv.log") = None -> default [] (fm !! (dir +:+ "/kv_timed.log")) = log ->
  (forall s, log_replay timed_step log s = fold_left timed_step rs s) ->
  exists s', kv_Open clock ord (kv_new dir 0 no_retention t fm) = (inr tt, s') /\ kv_map s' = kv_replay rs ∅.
Proof.
  intros Hleg Hlog Hrep. destruct (kv_Open_log (kv_new dir 0 no_retention t fm) rs log) as (m & t' & E & _ & Hm); try done.
  eexists. split; [exact E|]. by apply Hm.
Qed.

(** What the key-value engine holds in memory is in its log: after any
    sequence of puts, deletes, compactions and changes of policy without disk
    errors, opening the directory again gives every entry with its value and
    time, and exactly the entries of memory when the log was compacted last.
    Evictions are not logged, so without a compaction evicted entries return. *)
Theorem kv_reopen_keeps_entries dir me rp t fm ops t' :
  kv_empty_dir dir fm -> retention_ok rp -> Forall kv_op_ok ops ->
  let s := kv_exec ops (kv_new dir me rp t fm) in
  exists s', kv_Open clock ord (kv_new dir 0 no_retention t' (fs_files (kv_fs s))) = (inr tt, s') /\
    kv_map s ⊆ kv_map s' /\ (last ops = Some OpCompact -> kv_map s' = kv_map s).
Proof.
  intros Hd Hrp Hops s. destruct (kv_exec_logged dir me rp t fm ops Hd Hrp Hops) as (rs & Hl & Hp & Hc). fold s in Hl, Hp, Hc.
  destruct (kv_Open_replay dir t' (fs_files (kv_fs s)) rs (log_bytes rs)) as (s' & E & Hs').
  - rewrite <-Hp. apply Hl.
  - rewrite <-Hp. apply Hl.
  - intros s0. apply log_replay_bytes. apply Hl.
  - exists s'. split; [done|]. rewrite Hs'. split; [apply Hl|done].
Qed.

(** ** A log cut by a crash *)

(** Puts and deletes: the operations that append. *)
Definition appends (op : KvOp) : bool := match op with OpPut _ _ | OpDelete _ => true | _ => false end.

Definition kv_start (dir : path) (t : nat) (fm : gmap path bytes) : KeyValueEngine := kv_new dir 0 no_retention t fm.

(** One record per operation, and every prefix of them is the memory after
    that many operations. *)
Lemma kv_exec_records dir t fm ops :
  kv_empty_dir dir fm -> Forall kv_op_ok ops -> Forall (fun op => appends op = true) ops ->
  let s := kv_exec ops (kv_start dir t fm) in
  exists rs, kv_logged s rs /\ kv_path s = dir /\ kv_unbounded s /\ length rs = length ops /\
    forall n, (n <= length ops)%nat -> kv_replay (take n rs) ∅ = kv_map (kv_exec (take n ops) (kv_start dir t fm)).
Proof.
  intros Hd. induction ops as [|op ops IH] using rev_ind; intros Hops Happ.
  - exists []. split; [by apply kv_new_logged|]. split; [done|]. split; [done|]. split; [done|].
    intros n Hn. cbn in Hn. by replace n with 0%nat by lia.
  - rewrite Forall_app, Forall_singleton in Hops, Happ. destruct Hops as [Hops Hop], Happ as [Happ Ha].
    destruct (IH Hops Happ) as (rs & Hl & Hp & Hu & Hlen & Hpre). cbn zeta. rewrite kv_exec_snoc.
    set (s := kv_exec ops (kv_start dir t fm)) in *.
    assert (exists s' r, kv_op op s = (inr tt, s') /\ kv_logged s' (rs ++ [r]) /\ kv_path s' = dir /\ kv_unbounded s' /\
      kv_map s' = kv_apply (kr_op r) (kr_ts r) (kr_key r) (kr_value r) (kv_map s)) as (s' & r & E & Hl' & Hp' & Hu' & Hm').
    { destruct op as [k v|k| |]; try discriminate Ha.
      - destruct (kv_Put_logged k v s rs Hl Hop) as (s' & r & E & Hl' & Hx & Hp' & _).
        destruct (Hx Hu). exists s', r. by rewrite Hp'.
      - destruct (kv_Delete_logged k s rs Hl Hop) as (s' & r & E & Hl' & Hx & Hp' & _).
        destruct (Hx Hu). exists s', r. by rewrite Hp'. }
    exists (rs ++ [r]). rewrite E. split; [done|]. split; [done|]. split; [done|]. split; [len|].
    intros n Hn. rewrite length_app in Hn. cbn in Hn. destruct (decide (n <= length ops)%nat) as [Hle|Hgt].
    + rewrite !take_app_le by lia. by apply Hpre.
    + rewrite !take_ge by len. rewrite kv_replay_snoc, kv_exec_snoc. fold s. rewrite E. cbn [snd].
      rewrite Hm'. f_equal. specialize (Hpre (length ops) ltac:(lia)). rewrite !take_ge in Hpre by lia. exact Hpre.
Qed.

(** C18. A crash leaves the key-value engine in a state it has been in: after any
    sequence of puts and deletes on an engine without limits, opening a log
    that was cut at an arbitrary byte gives exactly the entries after some
    prefix of the operations, and after all of them when nothing was cut. *)
Theorem kv_crash_recovers_prefix dir t fm ops log t' :
  kv_empty_dir dir fm -> Forall kv_op_ok ops -> Forall (fun op => appends op = true) ops ->
  let s := kv_exec ops (kv_start dir t fm) in
  let full := default [] (fs_files (kv_fs s) !! (dir +:+ "/kv_timed.log")) in
  log `prefix_of` full ->
  exists n s', kv_Open clock ord (kv_start dir t' (<[dir +:+ "/kv_timed.log" := log]> (fs_files (kv_fs s)))) = (inr tt, s') /\
    kv_map s' = kv_map (kv_exec (take n ops) (kv_start dir t fm)) /\ (log = full -> n = length ops).
Proof.
  intros Hd Hops Happ s full Hlog.
  destruct (kv_exec_records dir t fm ops Hd Hops Happ) as (rs & Hl & Hp & _ & Hlen & Hpre). fold s in Hl, Hp.
  assert (full = log_bytes rs) as Efull by (subst full; rewrite <-Hp; apply Hl).
  assert (exists n, (n <= length ops)%nat /\ (forall s0, log_replay timed_step log s0 = fold_left timed_step (take n rs) s0) /\
    (log = full -> n = length ops)) as (n & Hn & Hrep & Hall).
  { destruct (decide (log = full)) as [->|Hne].
    - exists (length ops). split; [done|]. split; [|done]. intros s0. rewrite take_ge, Efull by lia.
      apply log_replay_bytes. apply Hl.
    - rewrite Efull in Hlog. assert (Forall log_valid rs) as Hv by apply Hl.
      destruct (log_replay_prefix timed_step rs log Hv Hlog) as (n & _ & Hrep).
      exists (n `min` length ops)%nat. split; [lia|]. split; [|done]. intros s0. rewrite Hrep. f_equal.
      destruct (decide (n <= length ops)%nat); [by rewrite Nat.min_l|rewrite Nat.min_r, !take_ge by lia; done]. }
  destruct (kv_Open_replay dir t' (<[dir +:+ "/kv_timed.log" := log]> (fs_files (kv_fs s))) (take n rs) log) as (s' & E & Hs').
  - rewrite lookup_insert_ne; [rewrite <-Hp; apply Hl|]. intros Ep. symmetry in Ep. by apply kv_path_ne in Ep.
  - by rewrite lookup_insert_eq.
  - done.
  - exists n, s'. split; [exact E|]. rewrite Hs', Hpre by done. done.
Qed.
End kv_theorems.

(** ** Witnesses *)

Definition demo_clock (_ : nat) : Z := 1000.
Definition demo_order (_ : nat) : MapOrder bytes Entry := default_order.

Lemma demo_clock_u64 t : is_u64 (demo_clock t).
Proof. by split. Qed.

Definition demo_kv_ops : list KvOp := [OpPut (bstr "a") (bstr "one"); OpPut (bstr "b") (bstr "two"); OpDelete (bstr "a")].

Lemma demo_kv_ops_ok : Forall kv_op_ok demo_kv_ops.
Proof. repeat constructor; done. Qed.

Lemma kv_limits_hold_witness :
  let s := MkKv "kv" 2 (MkRetention 60 2 10) {[bstr "a" := MkEntry (bstr "one") 990]} 0 (MkFs ∅ [Some (MkFault "EIO" 0)]) in
  kv_within (kv_op demo_clock demo_order (OpPut (bstr "b") (bstr "two")) s).2.
Proof.
  intros s. apply (kv_limits_hold demo_clock demo_order (OpPut (bstr "b") (bstr "two")) s).
  - done.
  - done.
  - by vm_compute.
  - split; [split|]; intros _; by vm_compute.
Defined.

Lemma kv_reopen_keeps_entries_witness :
  let s := kv_exec demo_clock demo_order (demo_kv_ops ++ [OpCompact]) (kv_new "kv" 1 no_retention 0 ∅) in
  exists s', kv_Open demo_clock demo_order (kv_new "kv" 0 no_retention 0 (fs_files (kv_fs s))) = (inr tt, s') /\
    kv_map s ⊆ kv_map s' /\ (last (demo_kv_ops ++ [OpCompact]) = Some OpCompact -> kv_map s' = kv_map s).
Proof.
  apply (kv_reopen_keeps_entries demo_clock demo_order demo_clock_u64); [done|done|].
  apply Forall_app. split; [apply demo_kv_ops_ok|by repeat constructor].
Defined.

Lemma kv_crash_recovers_prefix_witness :
  let s := kv_exec demo_clock demo_order demo_kv_ops (kv_start "kv" 0 ∅) in
  let full := default [] (fs_files (kv_fs s) !! ("kv" +:+ "/kv_timed.log")) in
  exists n s', kv_Open demo_clock demo_order (kv_start "kv" 0 (<["kv" +:+ "/kv_timed.log" := take 30 full]> (fs_files (kv_fs s)))) = (inr tt, s') /\
    kv_map s' = kv_map (kv_exec demo_clock demo_order (take n demo_kv_ops) (kv_start "kv" 0 ∅)) /\
    (take 30 full = full -> n = length demo_kv_ops).
Proof.
  apply (kv_crash_recovers_prefix demo_clock demo_order demo_clock_u64); [done|apply demo_kv_ops_ok|by repeat constructor|].
  eexists. symmetry. apply take_drop.
Defined.

(** The cap of the engine is not applied to [kv_timed.log]: an engine that keeps
    one entry has two after it is opened again. *)
Theorem kv_reopen_exceeds_cap :
  let put := fun k => OpPut (bstr k) (bstr "v") in
  let s := kv_exec demo_clock demo_order [put "a"; put "b"] (kv_new "kv" 1 no_retention 0 ∅) in
  size (kv_map s) = 1%nat /\
  size (kv_map (kv_Open demo_clock demo_order (kv_new "kv" 1 no_retention 0 (fs_files (kv_fs s)))).2) = 2%nat.
Proof. by vm_compute. Qed.
