(* ===== verification/Blob.v ===== *)
(** * The blob engine (src/core/blob/blob_engine.cc)

    Byte strings by identifier under a cap on their total size, logged to
    [blob.log].  The theorems: the byte counter is the size of the blobs and
    stays under the cap whatever the disk does, and opening a log that a crash
    cut anywhere gives a state the engine has been in, counter included. *)
From S2P Require Import Prelude Env Stream.

Open Scope Z_scope.

(** src/core/blob/blob_engine.h:26-29 [BlobEngine]. With the environment. *)
Record BlobEngine : Type := MkBlob {
  bl_path : path;
  bl_max_blob_bytes : Z;
  bl_current_bytes : Z;
  bl_blobs : gmap Z bytes;
  bl_fs : fs
}.

#[global] Instance blob_HasFs : HasFs BlobEngine := {|
  get_fs := bl_fs;
  set_fs f s := MkBlob (bl_path s) (bl_max_blob_bytes s) (bl_current_bytes s) (bl_blobs s) f
|}.

Definition bl_with (cur : Z) (m : gmap Z bytes) (s : BlobEngine) : BlobEngine :=
  MkBlob (bl_path s) (bl_max_blob_bytes s) cur m (bl_fs s).

(** One record of [blob.log]. *)
Inductive BlobRecord : Type := BPut (id : Z) (data : bytes) | BDel (id : Z).

(** src/core/blob/blob_engine.cc:61-66 [BlobEngine::Put]. And [Delete], lines 86-90. *)
Definition blob_enc (r : BlobRecord) : bytes :=
  match r with
  | BPut id data => le_split 1 1 ++ le_split 8 id ++ le_split 4 (zlen data) ++ data
  | BDel id => le_split 1 2 ++ le_split 8 id ++ le_split 4 0
  end.

(** src/core/blob/blob_engine.cc:18-40 [BlobEngine::Open]. One round of the loop. *)
Definition blob_dec (d : bytes) : option (BlobRecord * bytes) :=
  '(op, d) ← rd_num 1 d;
  '(id, d) ← rd_num 8 d;
  '(sz, d) ← rd_num 4 d;
  if op =? 1 then '(b, d) ← rd_bytes sz d; Some (BPut id b, d)
  else if op =? 2 then Some (BDel id, d)
  else None.

#[global] Instance blob_codec : LogCodec BlobRecord := {| log_enc := blob_enc; log_dec := blob_dec |}.

(** [old] in the sources: the size of the blob that is replaced. *)
Definition blob_old (id : Z) (m : gmap Z bytes) : Z := default 0 (zlen <$> m !! id).

(** src/core/blob/blob_engine.cc:25-39 [BlobEngine::Open]. *)
Definition blob_step (s : BlobEngine) (r : BlobRecord) : BlobEngine :=
  match r with
  | BPut id b =>
      bl_with (u64 (u64 (bl_current_bytes s - blob_old id (bl_blobs s)) + zlen b)) (<[id := b]> (bl_blobs s)) s
  | BDel id => bl_with (u64 (bl_current_bytes s - blob_old id (bl_blobs s))) (delete id (bl_blobs s)) s
  end.

Definition blob_log (s : BlobEngine) : path := bl_path s +:+ "/blob.log".

(** src/core/blob/blob_engine.cc:11-43 [BlobEngine::Open]. *)
Definition blob_Open : M BlobEngine unit :=
  s ← mget;
  on_fs (create_directories (bl_path s) (IOError "blob create dir failed")) ;;
  d ← on_fs (ifstream_read (blob_log s));
  mmodify (fun s => match d with Some d => log_replay blob_step d s | None => s end).

(** src/core/blob/blob_engine.cc:47-68 [BlobEngine::Put]. *)
Definition blob_Put (id : Z) (data : bytes) : M BlobEngine unit :=
  s ← mget;
  let incoming := zlen data in
  let old := blob_old id (bl_blobs s) in
  let sum := u64 (bl_current_bytes s - old + incoming) in
  mguard (negb ((0 <? bl_max_blob_bytes s) && (bl_max_blob_bytes s <? sum))) (ResourceExhausted "blob memory cap exceeded") ;;
  mput (bl_with sum (<[id := data]> (bl_blobs s)) s) ;;
  on_fs (ofstream_write false (blob_log s) (IOError "blob append failed") (log_enc (BPut id data))).

(** src/core/blob/blob_engine.cc:70-76 [BlobEngine::Get]. *)
Definition blob_Get (id : Z) (s : BlobEngine) : Status + bytes :=
  match bl_blobs s !! id with Some b => inr b | None => inl (NotFound "blob not found") end.

(** src/core/blob/blob_engine.cc:78-92 [BlobEngine::Delete]. *)
Definition blob_Delete (id : Z) : M BlobEngine unit :=
  mmodify (fun s => match bl_blobs s !! id with
                    | Some _ => blob_step s (BDel id)
                    | None => s
                    end) ;;
  s ← mget;
  on_fs (ofstream_write false (blob_log s) (IOError "blob append failed") (log_enc (BDel id))).

(** ** The format *)

Definition blob_rec_valid (r : BlobRecord) : Prop :=
  match r with
  | BPut id b => is_u64 id /\ zlen b < 2 ^ 32
  | BDel id => is_u64 id
  end.

Lemma blob_dec_enc r rest : blob_rec_valid r -> blob_dec (blob_enc r ++ rest) = Some (r, rest).
Proof.
  destruct r as [id b|id]; cbn [blob_rec_valid blob_enc]; unfold blob_dec.
  - intros [Hid Hb]. pose proof (zlen_nonneg b). by dec_fields.
  - intros Hid. by dec_fields.
Qed.

Lemma blob_dec_torn r p : blob_rec_valid r -> p `prefix_of` blob_enc r -> p <> blob_enc r -> blob_dec p = None.
Proof.
  destruct r as [id b|id]; cbn [blob_rec_valid blob_enc]; unfold blob_dec.
  - intros [Hid Hb] Hp Hne. pose proof (zlen_nonneg b). repeat torn_field.
  - intros Hid Hp Hne. repeat torn_field.
Qed.

Lemma blob_dec_consumes d r rest : blob_dec d = Some (r, rest) -> (length rest < length d)%nat.
Proof.
  unfold blob_dec. intros H. consume. destruct (z =? 1); [consume; simplify_eq; len|].
  destruct (z =? 2); simplify_eq. len.
Qed.

#[global] Instance blob_laws : LogLaws BlobRecord := {|
  log_valid := blob_rec_valid;
  log_dec_enc := blob_dec_enc;
  log_dec_torn := blob_dec_torn;
  log_dec_consumes := blob_dec_consumes
|}.

(** ** The byte counter *)

Definition blob_total (m : gmap Z bytes) : Z := map_fold (fun _ b n => n + zlen b) 0 m.

Lemma blob_total_delete id m : blob_total m = blob_total (delete id m) + blob_old id m.
Proof.
  unfold blob_old. destruct (m !! id) as [b|] eqn:E; cbn; [|rewrite delete_id by done; lia].
  unfold blob_total at 1. by rewrite (map_fold_delete_L _ _ id b m) by (done || (intros; lia)).
Qed.

Lemma blob_total_insert id b m : blob_total (<[id := b]> m) = blob_total (delete id m) + zlen b.
Proof.
  rewrite <-insert_delete_eq. unfold blob_total at 1. rewrite map_fold_insert_L; [done|intros; lia|apply lookup_delete_eq].
Qed.

Lemma blob_total_nonneg m : 0 <= blob_total m.
Proof.
  unfold blob_total. apply (map_fold_weak_ind (fun b _ => 0 <= b)); [done|].
  intros k b m' n _ Hn. pose proof (zlen_nonneg b). lia.
Qed.

Lemma blob_old_nonneg id m : 0 <= blob_old id m.
Proof. unfold blob_old. destruct (m !! id); cbn; [apply zlen_nonneg|done]. Qed.

(** The counter is the size of the blobs and respects the cap. *)
Record blob_inv (s : BlobEngine) : Prop := {
  bi_count : bl_current_bytes s = blob_total (bl_blobs s);
  bi_fits : blob_total (bl_blobs s) < 2 ^ 64;
  bi_cap : 0 < bl_max_blob_bytes s -> bl_current_bytes s <= bl_max_blob_bytes s
}.

Inductive BlobOp : Type := BlobPut (id : Z) (data : bytes) | BlobDelete (id : Z).

Definition blob_op (op : BlobOp) : M BlobEngine unit :=
  match op with BlobPut id data => blob_Put id data | BlobDelete id => blob_Delete id end.

Definition blob_op_ok (op : BlobOp) : Prop :=
  match op with
  | BlobPut id data => is_u64 id /\ zlen data < 2 ^ 32
  | BlobDelete id => is_u64 id
  end.

(** What an operation does to the memory: nothing when the cap refuses it. *)
Definition blob_refused (op : BlobOp) (s : BlobEngine) : bool :=
  match op with
  | BlobPut id data =>
      (0 <? bl_max_blob_bytes s) &&
      (bl_max_blob_bytes s <? blob_total (delete id (bl_blobs s)) + zlen data)
  | BlobDelete _ => false
  end.

Definition blob_record (op : BlobOp) : BlobRecord :=
  match op with BlobPut id data => BPut id data | BlobDelete id => BDel id end.

(** A 64-bit address space holds the blobs. *)
Definition blob_op_fits (op : BlobOp) (s : BlobEngine) : Prop :=
  match op with BlobPut _ data => blob_total (bl_blobs s) + zlen data < 2 ^ 64 | BlobDelete _ => True end.

Lemma blob_step_inv op s :
  blob_inv s -> blob_op_fits op s -> blob_refused op s = false -> blob_inv (blob_step s (blob_record op)).
Proof.
  intros [Hc Hf Hcap] Hfit Href. destruct op as [id data|id]; cbn in *.
  - pose proof (blob_total_delete id (bl_blobs s)). pose proof (blob_old_nonneg id (bl_blobs s)).
    pose proof (blob_total_nonneg (delete id (bl_blobs s))). pose proof (zlen_nonneg data).
    assert (u64 (u64 (bl_current_bytes s - blob_old id (bl_blobs s)) + zlen data) = blob_total (delete id (bl_blobs s)) + zlen data) as E.
    { rewrite (u64_id (_ - _)) by (unfold is_u64; lia). rewrite u64_id by (unfold is_u64; lia). lia. }
    split; cbn; rewrite ?E, ?blob_total_insert; try done; [lia|].
    intros Hp. apply andb_false_iff in Href as [Hr|Hr]; apply Z.ltb_ge in Hr; lia.
  - pose proof (blob_total_delete id (bl_blobs s)). pose proof (blob_old_nonneg id (bl_blobs s)).
    pose proof (blob_total_nonneg (delete id (bl_blobs s))).
    assert (u64 (bl_current_bytes s - blob_old id (bl_blobs s)) = blob_total (delete id (bl_blobs s))) as E.
    { rewrite u64_id by (unfold is_u64; lia). lia. }
    split; cbn; rewrite ?E; [done|lia|]. intros Hp. specialize (Hcap Hp). lia.
Qed.

(** The memory part of an operation, whatever the disk does. *)
Lemma blob_op_memory op s :
  blob_inv s -> blob_op_fits op s ->
  blob_op op s =
    if blob_refused op s then (inl (ResourceExhausted "blob memory cap exceeded"), s)
    else on_fs (ofstream_write false (blob_log s) (IOError "blob append failed") (log_enc (blob_record op)))
           (blob_step s (blob_record op)).
Proof.
  intros [Hc Hf Hcap] Hfit. destruct op as [id data|id]; cbn [blob_op blob_refused blob_record blob_op_fits] in *.
  - unfold blob_Put. rewrite (mbind_ok mget _ _ _ _ eq_refl). cbn [blob_step].
    pose proof (blob_total_delete id (bl_blobs s)). pose proof (blob_old_nonneg id (bl_blobs s)).
    pose proof (blob_total_nonneg (delete id (bl_blobs s))). pose proof (zlen_nonneg data).
    rewrite (u64_id (bl_current_bytes s - blob_old id (bl_blobs s))) by (unfold is_u64; lia).
    replace (u64 (bl_current_bytes s - blob_old id (bl_blobs s) + zlen data))
      with (blob_total (delete id (bl_blobs s)) + zlen data) by (rewrite u64_id by (unfold is_u64; lia); lia).
    destruct (_ && _); [done|]. done.
  - unfold blob_Delete. rewrite (mbind_ok (mmodify _) _ _ tt _ eq_refl), (mbind_ok mget _ _ _ _ eq_refl).
    destruct (bl_blobs s !! id) as [b|] eqn:E; [done|].
    cbn [blob_step]. unfold blob_old. rewrite E. cbn. rewrite delete_id by done.
    rewrite u64_id by (rewrite Hc; pose proof (blob_total_nonneg (bl_blobs s)); unfold is_u64; lia).
    rewrite Z.sub_0_r. by destruct s.
Qed.

(** The byte counter of the blob engine is the total size of its blobs and
    never exceeds the cap, for every pattern of disk errors; a put that would
    exceed it is refused with [ResourceExhausted] and changes nothing. *)
Theorem blob_cap_holds op s :
  blob_inv s -> blob_op_fits op s ->
  blob_inv (blob_op op s).2 /\
  (blob_refused op s = true -> blob_op op s = (inl (ResourceExhausted "blob memory cap exceeded"), s)) /\
  (blob_refused op s = false -> bl_blobs (blob_op op s).2 =
     match op with BlobPut id data => <[id := data]> (bl_blobs s) | BlobDelete id => delete id (bl_blobs s) end).
Proof.
  intros Hi Hfit. rewrite (blob_op_memory op s Hi Hfit). destruct (blob_refused op s) eqn:Href; [done|].
  pose proof (blob_step_inv op s Hi Hfit Href) as [H1 H2 H3]. unfold on_fs. cbn [get_fs blob_HasFs].
  destruct (ofstream_write _ _ _ _ _) as [r f]. split; [by split|]. split; [done|]. intros _. by destruct op.
Qed.

Lemma blob_cap_holds_witness :
  let s := MkBlob "b" 4 3 {[7 := bstr "abc"]} (MkFs ∅ [Some (MkFault "EIO" 0)]) in
  blob_inv (blob_op (BlobPut 7 (bstr "abcd")) s).2.
Proof.
  intros s. apply (blob_cap_holds (BlobPut 7 (bstr "abcd")) s); [|by vm_compute].
  split; [by vm_compute|by vm_compute|done].
Defined.

(** ** Opening again *)

Definition blob_exec (ops : list BlobOp) (s : BlobEngine) : BlobEngine :=
  fold_left (fun s op => (blob_op op s).2) ops s.

(** An engine before [Open], with any cap. *)
Definition blob_new (dir : path) (cap : Z) (fm : gmap path bytes) : BlobEngine := MkBlob dir cap 0 ∅ (MkFs fm []).

Definition blob_mem (s : BlobEngine) : Z * gmap Z bytes := (bl_current_bytes s, bl_blobs s).

Lemma blob_step_mem s s' r : blob_mem s = blob_mem s' -> blob_mem (blob_step s r) = blob_mem (blob_step s' r).
Proof. unfold blob_mem. intros [= E1 E2]. destruct r; cbn; by rewrite E1, E2. Qed.

Lemma blob_fold_mem rs s s' :
  blob_mem s = blob_mem s' -> blob_mem (fold_left blob_step rs s) = blob_mem (fold_left blob_step rs s').
Proof. revert s s'. induction rs as [|r rs IH]; intros s s' E; [done|]. cbn. by apply IH, blob_step_mem. Qed.

Definition op_bytes (op : BlobOp) : nat := match op with BlobPut _ data => length data | BlobDelete _ => 0 end.

(** The records of a run: every prefix of them is the memory after some of the
    operations, the refused ones having no record. *)
Record blob_logged (start : BlobEngine) (ops : list BlobOp) (s : BlobEngine) (rs : list BlobRecord) : Prop := {
  bg_log : bl_fs s = MkFs (fs_files (bl_fs s)) [] /\ default [] (fs_files (bl_fs s) !! blob_log s) = log_bytes rs;
  bg_path : bl_path s = bl_path start;
  bg_valid : Forall blob_rec_valid rs;
  bg_inv : blob_inv s /\ blob_total (bl_blobs s) <= Z.of_nat (sum_list_with op_bytes ops);
  bg_mem : blob_mem (fold_left blob_step rs start) = blob_mem s;
  bg_prefix : forall j, exists n, blob_mem (fold_left blob_step (take j rs) start) = blob_mem (blob_exec (take n ops) start)
}.

Lemma blob_exec_snoc ops op s : blob_exec (ops ++ [op]) s = (blob_op op (blob_exec ops s)).2.
Proof. unfold blob_exec. by rewrite fold_left_app. Qed.

Lemma blob_new_logged dir cap fm :
  0 <= cap -> fm !! (dir +:+ "/blob.log") = None -> blob_logged (blob_new dir cap fm) [] (blob_new dir cap fm) [].
Proof.
  intros Hcap Hfm. split; try done.
  - split; [done|]. change (default [] (fm !! (dir +:+ "/blob.log")) = []). by rewrite Hfm.
  - by exists 0%nat; destruct j.
Qed.

Lemma blob_op_logged start ops s rs op :
  blob_logged start ops s rs -> s = blob_exec ops start -> blob_op_ok op ->
  Z.of_nat (sum_list_with op_bytes (ops ++ [op])) < 2 ^ 64 ->
  exists rs', blob_logged start (ops ++ [op]) (blob_op op s).2 rs'.
Proof.
  intros [[Hfs Hlog] Hpath Hv [Hi Ht] Hm Hpre] Hs Hok Hsum.
  rewrite sum_list_with_app in Hsum. cbn in Hsum. rewrite Nat.add_0_r, Nat2Z.inj_add in Hsum.
  assert (blob_op_fits op s) as Hfit by (destruct op; cbn in *; unfold zlen; lia).
  assert (forall t, exists n, blob_mem (fold_left blob_step (take t rs) start) = blob_mem (blob_exec (take n (ops ++ [op])) start)) as Hpre'.
  { intros t. destruct (Hpre t) as [n Hn]. exists (n `min` length ops)%nat. rewrite take_app_le by lia.
    rewrite Hn. f_equal. destruct (decide (n <= length ops)%nat); [by rewrite Nat.min_l|rewrite Nat.min_r, !take_ge by lia; done]. }
  rewrite (blob_op_memory op s Hi Hfit). destruct (blob_refused op s) eqn:Href.
  - exists rs. split; try done. split; [done|]. rewrite sum_list_with_app. cbn. lia.
  - set (s1 := blob_step s (blob_record op)).
    assert (bl_fs s1 = MkFs (fs_files (bl_fs s)) [] /\ bl_path s1 = bl_path s) as [Hf1 Hp1] by (subst s1; by destruct op).
    unfold on_fs. cbn [get_fs blob_HasFs]. rewrite Hf1, ofstream_write_ok. cbn [snd].
    assert (forall f, blob_log (set_fs f s1) = blob_log s) as Hlp by (intros f; unfold blob_log; by rewrite <-Hp1).
    assert (blob_mem (fold_left blob_step (rs ++ [blob_record op]) start) = blob_mem s1) as Hm1
      by (rewrite fold_left_app; by apply blob_step_mem).
    exists (rs ++ [blob_record op]). split; cbn [bl_fs fs_files bl_path]; try done.
    + split; [done|]. rewrite (Hlp (MkFs _ [])). cbn [set_fs blob_HasFs bl_fs fs_files]. rewrite lookup_insert_eq.
      cbn [default from_option id]. rewrite Hlog, log_bytes_app. f_equal. unfold log_bytes. cbn. by rewrite app_nil_r.
    + change (bl_path s1 = bl_path start). by rewrite Hp1.
    + apply Forall_app. split; [done|]. constructor; [|done]. by destruct op.
    + destruct (blob_step_inv op s Hi Hfit Href) as [H1 H2 H3]. split; [by split|]. cbn [bl_blobs].
      rewrite sum_list_with_app. destruct op as [id data|id]; cbn in *.
      * rewrite blob_total_insert. pose proof (blob_total_delete id (bl_blobs s)).
        pose proof (blob_old_nonneg id (bl_blobs s)). unfold zlen. lia.
      * pose proof (blob_total_delete id (bl_blobs s)). pose proof (blob_old_nonneg id (bl_blobs s)). lia.
    + intros j. destruct (decide (j <= length rs)%nat) as [Hj|Hj]; [by rewrite take_app_le|].
      exists (S (length ops)). rewrite !take_ge by len. rewrite Hm1, blob_exec_snoc, <-Hs.
      rewrite (blob_op_memory op s Hi Hfit), Href. unfold on_fs. cbn [get_fs blob_HasFs]. fold s1. by rewrite Hf1, ofstream_write_ok.
Qed.

Lemma blob_exec_logged dir cap fm ops :
  0 <= cap -> fm !! (dir +:+ "/blob.log") = None -> Forall blob_op_ok ops ->
  Z.of_nat (sum_list_with op_bytes ops) < 2 ^ 64 ->
  exists rs, blob_logged (blob_new dir cap fm) ops (blob_exec ops (blob_new dir cap fm)) rs.
Proof.
  intros Hcap Hfm. induction ops as [|op ops IH] using rev_ind; intros Hops Hsum.
  - exists []. by apply blob_new_logged.
  - rewrite Forall_app, Forall_singleton in Hops. destruct Hops as [Hops Hop].
    destruct IH as [rs Hl]; [done|rewrite sum_list_with_app in Hsum; lia|].
    rewrite blob_exec_snoc. by eapply blob_op_logged.
Qed.

Lemma blob_Open_replay dir cap fm rs log :
  default [] (fm !! (dir +:+ "/blob.log")) = log ->
  (forall s, log_replay blob_step log s = fold_left blob_step rs s) ->
  blob_Open (blob_new dir cap fm) = (inr tt, fold_left blob_step rs (blob_new dir cap fm)).
Proof.
  intros Hlog Hrep. unfold blob_Open. rewrite (mbind_ok mget _ _ _ _ eq_refl).
  rewrite (mbind_ok (on_fs (create_directories _ _)) _ _ tt (blob_new dir cap fm)) by done.
  change (blob_log (blob_new dir cap fm)) with (dir +:+ "/blob.log").
  rewrite (mbind_ok _ _ _ (fm !! (dir +:+ "/blob.log")) (blob_new dir cap fm)).
  - subst log. unfold mmodify. f_equal. destruct (fm !! _) as [d|]; [apply Hrep|].
    exact (Hrep (blob_new dir cap fm)).
  - unfold on_fs. cbn [get_fs blob_HasFs bl_fs blob_new]. by rewrite ifstream_read_lookup.
Qed.

(** A crash leaves the blob engine in a state it has been in: after any
    sequence of puts and deletes, under any cap, opening a log that was cut at
    an arbitrary byte gives the blobs and the byte counter after some prefix of
    the operations, and after all of them when nothing was cut. *)
Theorem blob_crash_recovers_prefix dir cap fm ops log :
  0 <= cap -> fm !! (dir +:+ "/blob.log") = None -> Forall blob_op_ok ops ->
  Z.of_nat (sum_list_with op_bytes ops) < 2 ^ 64 ->
  let s := blob_exec ops (blob_new dir cap fm) in
  let full := default [] (fs_files (bl_fs s) !! (dir +:+ "/blob.log")) in
  log `prefix_of` full ->
  exists n s', blob_Open (blob_new dir cap (<[dir +:+ "/blob.log" := log]> (fs_files (bl_fs s)))) = (inr tt, s') /\
    blob_mem s' = blob_mem (blob_exec (take n ops) (blob_new dir cap fm)) /\ (log = full -> n = length ops).
Proof.
  intros Hcap Hfm Hops Hsum s full Hlog.
  destruct (blob_exec_logged dir cap fm ops Hcap Hfm Hops Hsum) as [rs [[Hfs Hl] Hpath Hv _ Hm Hpre]]. fold s in Hfs, Hl, Hpath, Hm.
  assert (full = log_bytes rs) as Efull by (subst full; unfold blob_log in Hl; by rewrite Hpath in Hl).
  assert (Forall log_valid rs) as Hv' by exact Hv.
  assert (exists j n, (forall s0, log_replay blob_step log s0 = fold_left blob_step (take j rs) s0) /\
    blob_mem (fold_left blob_step (take j rs) (blob_new dir cap fm)) = blob_mem (blob_exec (take n ops) (blob_new dir cap fm)) /\
    (log = full -> n = length ops)) as (j & n & Hrep & Hn & Hall).
  { destruct (decide (log = full)) as [->|Hne].
    - exists (length rs), (length ops). rewrite !take_ge, Efull by lia. split; [intros s0; by apply log_replay_bytes|done].
    - rewrite Efull in Hlog. destruct (log_replay_prefix blob_step rs log Hv' Hlog) as (j & _ & Hrep).
      destruct (Hpre j) as [n Hn]. by exists j, n. }
  eexists n, _. split; [apply (blob_Open_replay _ _ _ (take j rs) log); [by rewrite lookup_insert_eq|done]|].
  split; [|done]. rewrite <-Hn. by apply blob_fold_mem.
Qed.

Lemma blob_crash_recovers_prefix_witness :
  let ops := [BlobPut 7 (bstr "abc"); BlobPut 8 (bstr "defgh"); BlobDelete 7] in
  let s := blob_exec ops (blob_new "b" 6 ∅) in
  let full := default [] (fs_files (bl_fs s) !! ("b" +:+ "/blob.log")) in
  exists n s', blob_Open (blob_new "b" 6 (<["b" +:+ "/blob.log" := take 20 full]> (fs_files (bl_fs s)))) = (inr tt, s') /\
    blob_mem s' = blob_mem (blob_exec (take n ops) (blob_new "b" 6 ∅)) /\ (take 20 full = full -> n = length ops).
Proof.
  intros ops. apply (blob_crash_recovers_prefix "b" 6 ∅ ops); [done|done|by repeat constructor|done|].
  eexists. symmetry. apply take_drop.
Defined.
