(* ===== verification/TimeSeries.v ===== *)
(** * The time-series engine (src/core/timeseries/timeseries_engine.cc)

    Points per series, kept in time order and bounded in number, logged to
    [timeseries.log].  [std::sort] is not stable: the model takes any function
    that sorts, so the theorems hold for every order of equal times.

    The theorems: whatever the order of arrival and the disk errors, a series
    holds its newest points in time order; opening the log gives back the
    points of a series that is not bounded. *)
From S2P Require Import Prelude Env Stream.

Open Scope Z_scope.

(** include/pomai/pomai.h:18-21 [TimeSeriesPoint]. The value is the pattern of a double. *)
Record TimeSeriesPoint : Type := MkPoint { tp_timestamp : Z; tp_value : Z }.

#[global] Instance TimeSeriesPoint_eq_dec : EqDecision TimeSeriesPoint.
Proof. solve_decision. Defined.

Definition tp_le (a b : TimeSeriesPoint) : Prop := tp_timestamp a <= tp_timestamp b.

(** [std::sort] with the comparison of the source. *)
Class PointSort := {
  sort_points : list TimeSeriesPoint -> list TimeSeriesPoint;
  sort_points_perm : forall l, sort_points l ≡ₚ l;
  sort_points_sorted : forall l, StronglySorted tp_le (sort_points l)
}.

(** src/core/timeseries/timeseries_engine.h:25-27 [TimeSeriesEngine]. *)
Record TimeSeriesEngine : Type := MkTs {
  ts_path : path;
  ts_max_points_per_series : Z;
  ts_data : gmap Z (list TimeSeriesPoint);
  ts_fs : fs
}.

#[global] Instance ts_HasFs : HasFs TimeSeriesEngine := {|
  get_fs := ts_fs;
  set_fs f s := MkTs (ts_path s) (ts_max_points_per_series s) (ts_data s) f
|}.

Definition ts_with (m : gmap Z (list TimeSeriesPoint)) (s : TimeSeriesEngine) : TimeSeriesEngine :=
  MkTs (ts_path s) (ts_max_points_per_series s) m (ts_fs s).

(** [data_[sid]] *)
Definition ts_series (sid : Z) (s : TimeSeriesEngine) : list TimeSeriesPoint := default [] (ts_data s !! sid).

(** One record of [timeseries.log]. *)
Record TsRecord : Type := MkTsRec { tr_series : Z; tr_point : TimeSeriesPoint }.

(** src/core/timeseries/timeseries_engine.cc:54-56 [TimeSeriesEngine::Put]. *)
Definition ts_enc (r : TsRecord) : bytes :=
  le_split 8 (tr_series r) ++ le_split 8 (tp_timestamp (tr_point r)) ++ le_split 8 (tp_value (tr_point r)).

(** src/core/timeseries/timeseries_engine.cc:21-23 [TimeSeriesEngine::Open]. *)
Definition ts_dec (d : bytes) : option (TsRecord * bytes) :=
  '(sid, d) ← rd_num 8 d;
  '(t, d) ← rd_num 8 d;
  '(v, d) ← rd_num 8 d;
  Some (MkTsRec sid (MkPoint t v), d).

#[global] Instance ts_codec : LogCodec TsRecord := {| log_enc := ts_enc; log_dec := ts_dec |}.

(** src/core/timeseries/timeseries_engine.cc:48-50 [TimeSeriesEngine::Put]. The same
    lines trim a series in [Open]. *)
Definition ts_trim (max : Z) (v : list TimeSeriesPoint) : list TimeSeriesPoint :=
  if (0 <? max) && (max <? zlen v) then drop (Z.to_nat (zlen v - max)) v else v.

(** src/core/timeseries/timeseries_engine.cc:24-28 [TimeSeriesEngine::Open]. *)
Definition ts_step (s : TimeSeriesEngine) (r : TsRecord) : TimeSeriesEngine :=
  ts_with (<[tr_series r := ts_trim (ts_max_points_per_series s) (ts_series (tr_series r) s ++ [tr_point r])]> (ts_data s)) s.

Definition ts_log (s : TimeSeriesEngine) : path := ts_path s +:+ "/timeseries.log".

(** src/core/timeseries/timeseries_engine.cc:12-31 [TimeSeriesEngine::Open]. *)
Definition ts_Open : M TimeSeriesEngine unit :=
  s ← mget;
  on_fs (create_directories (ts_path s) (IOError "timeseries create dir failed")) ;;
  d ← on_fs (ifstream_read (ts_log s));
  mmodify (fun s => match d with Some d => log_replay ts_step d s | None => s end).

Section ts.
Context `{PointSort}.

(** src/core/timeseries/timeseries_engine.cc:36-47 [TimeSeriesEngine::Put]. *)
Definition ts_add (p : TimeSeriesPoint) (v : list TimeSeriesPoint) : list TimeSeriesPoint :=
  match last v with
  | None => [p]
  | Some b => if tp_timestamp p <? tp_timestamp b then sort_points (v ++ [p]) else v ++ [p]
  end.

(** src/core/timeseries/timeseries_engine.cc:35-58 [TimeSeriesEngine::Put]. *)
Definition ts_Put (sid t value : Z) : M TimeSeriesEngine unit :=
  let p := MkPoint t value in
  mmodify (fun s => ts_with (<[sid := ts_trim (ts_max_points_per_series s) (ts_add p (ts_series sid s))]> (ts_data s)) s) ;;
  s ← mget;
  on_fs (ofstream_write false (ts_log s) (IOError "timeseries append failed") (log_enc (MkTsRec sid p))).

(** src/core/timeseries/timeseries_engine.cc:60-69 [TimeSeriesEngine::Range]. *)
Definition ts_Range (sid start_ts end_ts : Z) (s : TimeSeriesEngine) : list TimeSeriesPoint :=
  match ts_data s !! sid with
  | None => []
  | Some v => filter (fun p => start_ts <= tp_timestamp p /\ tp_timestamp p <= end_ts) v
  end.
End ts.

(** ** The format *)

Record ts_rec_valid (r : TsRecord) : Prop := {
  trv_series : is_u64 (tr_series r);
  trv_ts : is_u64 (tp_timestamp (tr_point r));
  trv_value : is_u64 (tp_value (tr_point r))
}.

Lemma ts_dec_enc r rest : ts_rec_valid r -> ts_dec (ts_enc r ++ rest) = Some (r, rest).
Proof. destruct r as [sid [t v]]. intros [H1 H2 H3]. cbn in *. unfold ts_dec, ts_enc. cbn [tr_series tr_point tp_timestamp tp_value]. by dec_fields. Qed.

Lemma ts_dec_torn r p : ts_rec_valid r -> p `prefix_of` ts_enc r -> p <> ts_enc r -> ts_dec p = None.
Proof.
  destruct r as [sid [t v]]. intros [H1 H2 H3]. cbn in *. unfold ts_dec, ts_enc. cbn [tr_series tr_point tp_timestamp tp_value].
  intros Hp Hne. repeat torn_field.
Qed.

Lemma ts_dec_consumes d r rest : ts_dec d = Some (r, rest) -> (length rest < length d)%nat.
Proof. unfold ts_dec. intros H. consume. simplify_eq. len. Qed.

#[global] Instance ts_laws : LogLaws TsRecord := {|
  log_valid := ts_rec_valid;
  log_dec_enc := ts_dec_enc;
  log_dec_torn := ts_dec_torn;
  log_dec_consumes := ts_dec_consumes
|}.

(** ** Adding a point *)

Section ts_theorems.
Context `{PointSort}.

Lemma sorted_snoc v p :
  StronglySorted tp_le v -> (forall b, last v = Some b -> tp_le b p) -> StronglySorted tp_le (v ++ [p]).
Proof.
  intros Hs Hb. apply StronglySorted_app. split; [|split; [done|by repeat constructor]].
  intros x y Hx ->%list_elem_of_singleton. destruct (last v) as [b|] eqn:E.
  - specialize (Hb b eq_refl). apply last_Some in E as [v' ->].
    apply elem_of_app in Hx as [Hx|Hx%list_elem_of_singleton]; [|by subst].
    assert (tp_le x b) as Hxb by (eapply StronglySorted_app_1_elem_of; [exact Hs|done|by apply list_elem_of_singleton]).
    unfold tp_le in *. lia.
  - apply last_None in E as ->. by apply not_elem_of_nil in Hx.
Qed.

Lemma ts_add_spec p v : StronglySorted tp_le v -> StronglySorted tp_le (ts_add p v) /\ ts_add p v ≡ₚ v ++ [p].
Proof.
  intros Hs. unfold ts_add. destruct (last v) as [b|] eqn:E.
  - destruct (Z.ltb_spec (tp_timestamp p) (tp_timestamp b)).
    + split; [apply sort_points_sorted|apply sort_points_perm].
    + split; [|done]. apply sorted_snoc; [done|]. intros b' Hb'. rewrite E in Hb'. by injection Hb' as <-.
  - apply last_None in E as ->. split; [repeat constructor|done].
Qed.

(** [kept] are the newest points of [all], in time order, as many as allowed. *)
Record newest (max : Z) (all kept : list TimeSeriesPoint) : Prop := {
  nw_sorted : StronglySorted tp_le kept;
  nw_split : exists dropped, kept ++ dropped ≡ₚ all /\ (forall d k, d ∈ dropped -> k ∈ kept -> tp_le d k);
  nw_count : zlen kept = if 0 <? max then Z.min max (zlen all) else zlen all
}.

Lemma newest_add max all kept p :
  newest max all kept -> newest max (all ++ [p]) (ts_trim max (ts_add p kept)).
Proof.
  intros [Hs (dropped & Hperm & Hle) Hc]. destruct (ts_add_spec p kept Hs) as [Hs' Hp'].
  assert (zlen (ts_add p kept) = zlen kept + 1) as Hl by (unfold zlen; rewrite Hp', length_app; cbn; lia).
  assert (zlen all = zlen kept + zlen dropped) as Hall by (unfold zlen; rewrite <-Hperm, length_app; lia).
  assert (zlen (all ++ [p]) = zlen all + 1) as Hall' by len.
  pose proof (zlen_nonneg dropped).
  unfold ts_trim. destruct (Z.ltb_spec 0 max) as [Hmax|Hmax]; cbn [andb];
    [destruct (Z.ltb_spec max (zlen (ts_add p kept))) as [Hover|Hfit]|].
  - replace (Z.to_nat (zlen (ts_add p kept) - max)) with 1%nat by lia.
    destruct (ts_add p kept) as [|x w] eqn:Ew; [unfold zlen in Hl; cbn in Hl; lia|]. cbn [drop].
    apply StronglySorted_cons in Hs' as [Hx Hw]. rewrite Forall_forall in Hx. split.
    + done.
    + exists (x :: dropped). split.
      { rewrite <-Hperm, <-app_assoc, (Permutation_app_comm dropped [p]), app_assoc, <-Hp'.
        symmetry. apply Permutation_middle. }
      intros d k [->|Hd]%elem_of_cons Hk; [by apply Hx|].
      assert (k ∈ kept ++ [p]) as Hin by (rewrite <-Hp'; by right).
      apply elem_of_app in Hin as [Hin|Hin%list_elem_of_singleton]; [by apply Hle|]. subst k.
      assert (x ∈ kept ++ [p]) as Hxin by (rewrite <-Hp'; by left).
      apply elem_of_app in Hxin as [Hxin|Hxin%list_elem_of_singleton].
      * specialize (Hle d x Hd Hxin). specialize (Hx _ Hk). unfold tp_le in *. lia.
      * subst x. rewrite Permutation_app_comm in Hp'. apply Permutation_cons_inv in Hp'.
        apply Hle; [done|]. by rewrite <-Hp'.
    + rewrite Hall'. rewrite (proj2 (Z.ltb_lt 0 max)) by done. rewrite drop_0. unfold zlen in *. cbn [length] in *. lia.
  - split; [done| |rewrite (proj2 (Z.ltb_lt 0 max)) by done; lia]. exists dropped. split.
    + rewrite <-Hperm, Hp', <-!app_assoc. by rewrite (Permutation_app_comm dropped [p]).
    + assert (dropped = []) as ->.
      { destruct dropped; [done|]. unfold zlen in *. cbn [length] in *. lia. }
      intros d k Hd. by apply not_elem_of_nil in Hd.
  - split; [done| |rewrite (proj2 (Z.ltb_ge 0 max)) by done; lia]. exists dropped. split.
    + rewrite <-Hperm, Hp', <-!app_assoc. by rewrite (Permutation_app_comm dropped [p]).
    + assert (dropped = []) as ->.
      { destruct dropped; [done|]. unfold zlen in *. cbn [length] in *. lia. }
      intros d k Hd. by apply not_elem_of_nil in Hd.
Qed.

(** ** Running an engine *)

Definition ts_exec (puts : list TsRecord) (s : TimeSeriesEngine) : TimeSeriesEngine :=
  fold_left (fun s r => (ts_Put (tr_series r) (tp_timestamp (tr_point r)) (tp_value (tr_point r)) s).2) puts s.

(** The points put to one series, in the order of arrival. *)
Definition arrived (sid : Z) (puts : list TsRecord) : list TimeSeriesPoint :=
  tr_point <$> filter (fun r => tr_series r = sid) puts.

Definition ts_new (dir : path) (max : Z) (f : fs) : TimeSeriesEngine := MkTs dir max ∅ f.

Lemma ts_exec_snoc puts r s :
  ts_exec (puts ++ [r]) s = (ts_Put (tr_series r) (tp_timestamp (tr_point r)) (tp_value (tr_point r)) (ts_exec puts s)).2.
Proof. unfold ts_exec. by rewrite fold_left_app. Qed.

(** The memory part of [Put]. *)
Definition ts_put_mem (r : TsRecord) (s : TimeSeriesEngine) : TimeSeriesEngine :=
  ts_with (<[tr_series r := ts_trim (ts_max_points_per_series s) (ts_add (tr_point r) (ts_series (tr_series r) s))]> (ts_data s)) s.

Lemma ts_Put_memory r s :
  (ts_Put (tr_series r) (tp_timestamp (tr_point r)) (tp_value (tr_point r)) s).2 =
  set_fs (ofstream_write false (ts_log s) (IOError "timeseries append failed") (log_enc r) (ts_fs s)).2 (ts_put_mem r s).
Proof.
  destruct r as [sid [t v]]. unfold ts_Put. cbn [tr_series tr_point tp_timestamp tp_value].
  rewrite (mbind_ok (mmodify _) _ _ tt _ eq_refl), (mbind_ok mget _ _ _ _ eq_refl). unfold on_fs. cbn [get_fs ts_HasFs ts_with ts_fs].
  unfold ts_log. cbn [ts_path]. by destruct (ofstream_write _ _ _ _ _).
Qed.

Lemma ts_exec_max puts s : ts_max_points_per_series (ts_exec puts s) = ts_max_points_per_series s.
Proof.
  induction puts as [|r puts IH] using rev_ind; [done|]. rewrite ts_exec_snoc, ts_Put_memory. done.
Qed.

Lemma arrived_snoc sid puts r :
  arrived sid (puts ++ [r]) = arrived sid puts ++ if decide (tr_series r = sid) then [tr_point r] else [].
Proof. unfold arrived. rewrite filter_app, fmap_app. f_equal. rewrite filter_cons. by case_decide. Qed.

Lemma ts_series_put sid r s :
  ts_series sid (ts_put_mem r s) =
  if decide (tr_series r = sid) then ts_trim (ts_max_points_per_series s) (ts_add (tr_point r) (ts_series sid s)) else ts_series sid s.
Proof.
  unfold ts_series, ts_put_mem. cbn. case_decide as E.
  - rewrite E, lookup_insert_eq. done.
  - by rewrite lookup_insert_ne.
Qed.

Lemma ts_keeps_newest_aux dir max f puts sid :
  newest max (arrived sid puts) (ts_series sid (ts_exec puts (ts_new dir max f))).
Proof.
  induction puts as [|r puts IH] using rev_ind.
  - split; [constructor| |by destruct (0 <? max) eqn:E; [apply Z.ltb_lt in E; vm_compute zlen; lia|]].
    exists []. split; [done|]. intros d k Hd. by apply not_elem_of_nil in Hd.
  - rewrite ts_exec_snoc, ts_Put_memory.
    change (newest max (arrived sid (puts ++ [r])) (ts_series sid (ts_put_mem r (ts_exec puts (ts_new dir max f))))).
    rewrite ts_series_put, arrived_snoc, ts_exec_max. case_decide.
    + by apply newest_add.
    + by rewrite app_nil_r.
Qed.

(** [Range] on such a series: exactly the points of the window, in time order. *)
Lemma ts_Range_sorted sid a b s :
  StronglySorted tp_le (ts_series sid s) ->
  StronglySorted tp_le (ts_Range sid a b s) /\
  forall p, p ∈ ts_Range sid a b s <-> p ∈ ts_series sid s /\ a <= tp_timestamp p <= b.
Proof.
  unfold ts_Range, ts_series. destruct (ts_data s !! sid) as [v|]; cbn [default from_option id]; intros Hs.
  - split.
    + induction Hs as [|x v Hs IH Hx]; [constructor|]. rewrite filter_cons. case_decide; [|done].
      constructor; [done|]. rewrite Forall_forall in *. intros y [_ Hy]%list_elem_of_filter. by apply Hx.
    + intros p. rewrite list_elem_of_filter. tauto.
  - split; [constructor|]. set_solver.
Qed.

(** A series holds its newest points: after any sequence of puts in any order
    of time and to any series, for every pattern of disk errors, the points in
    memory are in time order, there are as many of them as the limit allows,
    and every point that was dropped is at most as new as every point kept.  A
    range query returns exactly the kept points of its window, in time order. *)
Theorem ts_keeps_newest dir max f puts sid :
  let s := ts_exec puts (ts_new dir max f) in
  newest max (arrived sid puts) (ts_series sid s) /\
  forall a b, StronglySorted tp_le (ts_Range sid a b s) /\
    forall p, p ∈ ts_Range sid a b s <-> p ∈ ts_series sid s /\ a <= tp_timestamp p <= b.
Proof.
  intros s. assert (newest max (arrived sid puts) (ts_series sid s)) as Hn by apply ts_keeps_newest_aux.
  split; [done|]. intros a b. apply ts_Range_sorted, Hn.
Qed.

(** ** Opening again *)

Lemma ts_exec_log dir fm puts :
  fm !! (dir +:+ "/timeseries.log") = None ->
  let s := ts_exec puts (ts_new dir 0 (MkFs fm [])) in
  ts_path s = dir /\ fs_faults (ts_fs s) = [] /\
  default [] (fs_files (ts_fs s) !! (dir +:+ "/timeseries.log")) = log_bytes puts.
Proof.
  intros Hfm. induction puts as [|r puts IH] using rev_ind.
  - split; [done|]. split; [done|]. cbn [ts_exec fold_left ts_new ts_fs fs_files]. by rewrite Hfm.
  - cbn zeta in *. rewrite ts_exec_snoc, ts_Put_memory. destruct IH as (Hp & Hf & Hl).
    set (s := ts_exec puts _) in *. destruct (ts_fs s) as [fm' flts] eqn:Efs. cbn in Hf. subst flts.
    unfold ts_log. rewrite Hp. rewrite ofstream_write_ok. cbn [snd set_fs ts_HasFs ts_fs fs_files fs_faults].
    split; [by cbn|]. split; [done|]. rewrite lookup_insert_eq. cbn [default from_option id fs_files] in *.
    rewrite Hl, log_bytes_app. done.
Qed.

Lemma ts_replay_series rs s sid :
  ts_max_points_per_series s = 0 ->
  ts_series sid (fold_left ts_step rs s) = ts_series sid s ++ arrived sid rs.
Proof.
  intros Hmax. revert s Hmax. induction rs as [|r rs IH]; intros s Hmax; [unfold arrived; cbn; by rewrite app_nil_r|].
  cbn [fold_left]. rewrite IH by done. unfold arrived. rewrite filter_cons.
  unfold ts_step, ts_series. cbn [ts_data ts_with]. rewrite Hmax. case_decide as E.
  - rewrite E, lookup_insert_eq. cbn. by rewrite <-app_assoc.
  - by rewrite lookup_insert_ne.
Qed.

(** The log of an unbounded time-series engine holds every point: opening a
    log cut at an arbitrary byte gives each series the points it had after some
    prefix of the puts, and all of them when nothing was cut.  The order of the
    points is the order of arrival, which [Open] does not sort. *)
Theorem ts_crash_recovers_points dir fm puts log :
  fm !! (dir +:+ "/timeseries.log") = None -> Forall ts_rec_valid puts ->
  let start := ts_new dir 0 (MkFs fm []) in
  let s := ts_exec puts start in
  let full := default [] (fs_files (ts_fs s) !! (dir +:+ "/timeseries.log")) in
  log `prefix_of` full ->
  exists n s', ts_Open (ts_new dir 0 (MkFs (<[dir +:+ "/timeseries.log" := log]> (fs_files (ts_fs s))) [])) = (inr tt, s') /\
    (forall sid, ts_series sid s' = arrived sid (take n puts) /\ ts_series sid s' ≡ₚ ts_series sid (ts_exec (take n puts) start)) /\
    (log = full -> n = length puts).
Proof.
  intros Hfm Hv start s full Hlog.
  destruct (ts_exec_log dir fm puts Hfm) as (_ & _ & Hl). fold start s full in Hl. rewrite Hl in *.
  assert (Forall log_valid puts) as Hv' by exact Hv.
  assert (exists n, (forall s0, log_replay ts_step log s0 = fold_left ts_step (take n puts) s0) /\
    (log = log_bytes puts -> n = length puts)) as (n & Hrep & Hall).
  { destruct (decide (log = log_bytes puts)) as [->|Hne].
    - exists (length puts). rewrite take_ge by lia. split; [intros s0; by apply log_replay_bytes|done].
    - destruct (log_replay_prefix ts_step puts log Hv' Hlog) as (n & _ & Hrep). by exists n. }
  set (s1 := ts_new dir 0 _). exists n, (fold_left ts_step (take n puts) s1). split.
  - unfold ts_Open. rewrite (mbind_ok mget _ _ _ _ eq_refl).
    rewrite (mbind_ok (on_fs (create_directories _ _)) _ _ tt s1) by done.
    change (ts_log s1) with (dir +:+ "/timeseries.log").
    rewrite (mbind_ok _ _ _ (Some log) s1).
    + unfold mmodify. by rewrite Hrep.
    + unfold on_fs. cbn [get_fs ts_HasFs ts_fs ts_new s1]. by rewrite ifstream_read_lookup, lookup_insert_eq.
  - split; [|done]. intros sid.
    assert (ts_series sid (fold_left ts_step (take n puts) s1) = arrived sid (take n puts)) as E by (by rewrite ts_replay_series).
    split; [done|]. rewrite E. destruct (ts_keeps_newest_aux dir 0 (MkFs fm []) (take n puts) sid) as [_ (dropped & Hperm & _) Hc].
    cbn in Hc. assert (dropped = []) as ->.
    { destruct dropped; [done|]. apply Permutation_length in Hperm. unfold zlen in Hc. rewrite length_app in Hperm. cbn in Hperm. lia. }
    rewrite app_nil_r in Hperm. by rewrite <-Hperm.
Qed.
End ts_theorems.

(** ** A sort exists *)

#[local] Instance tp_le_dec : RelDecision tp_le.
Proof. intros a b. unfold tp_le. apply _. Defined.
#[local] Instance tp_le_total : Total tp_le.
Proof. intros a b. unfold tp_le. lia. Qed.
#[local] Instance tp_le_trans : Transitive tp_le.
Proof. intros a b c. unfold tp_le. lia. Qed.

Lemma merge_sort_points_perm l : merge_sort tp_le l ≡ₚ l.
Proof. apply merge_sort_Permutation. Qed.
Lemma merge_sort_points_sorted l : StronglySorted tp_le (merge_sort tp_le l).
Proof. apply StronglySorted_merge_sort; apply _. Qed.

Definition merge_sort_points : PointSort := {|
  sort_points := merge_sort tp_le;
  sort_points_perm := merge_sort_points_perm;
  sort_points_sorted := merge_sort_points_sorted
|}.

Lemma ts_crash_recovers_points_witness :
  let puts := [MkTsRec 1 (MkPoint 20 0); MkTsRec 1 (MkPoint 10 0); MkTsRec 2 (MkPoint 5 7)] in
  let start := ts_new "t" 0 (MkFs ∅ []) in
  let s := ts_exec (H := merge_sort_points) puts start in
  let full := default [] (fs_files (ts_fs s) !! ("t" +:+ "/timeseries.log")) in
  exists n s', ts_Open (ts_new "t" 0 (MkFs (<["t" +:+ "/timeseries.log" := take 50 full]> (fs_files (ts_fs s))) [])) = (inr tt, s') /\
    (forall sid, ts_series sid s' = arrived sid (take n puts) /\
       ts_series sid s' ≡ₚ ts_series sid (ts_exec (H := merge_sort_points) (take n puts) start)) /\
    (take 50 full = full -> n = length puts).
Proof.
  intros puts. apply (ts_crash_recovers_points (H := merge_sort_points) "t" ∅ puts); [done|repeat (constructor; [done|]); constructor|].
  eexists. symmetry. apply take_drop.
Defined.
