(* ===== verification/SpatialTheorems.v ===== *)
(** * The spatial engine: recovery and the nearest points

    The cap, what a log cut at an arbitrary byte recovers, and the
    nearest-point query for every sort and every iteration order of the map. *)
From S2P Require Import Prelude StdSort Env Stream Spatial.

Open Scope Z_scope.

Abbreviation sput := (Z * (Z * Z))%type.

Definition sput_rec (p : sput) : SpatialRecord := MkSpr p.1 p.2.1 p.2.2.
Definition sput_ok (p : sput) : Prop := spatial_rec_valid (sput_rec p).

(** The last point written under every identifier. *)
Definition last_points (ps : list sput) : gmap Z point := fold_left (fun m p => <[p.1 := p.2]> m) ps ∅.

Lemma last_points_snoc ps p : last_points (ps ++ [p]) = <[p.1 := p.2]> (last_points ps).
Proof. unfold last_points. by rewrite fold_left_app. Qed.

Section recovery.
Context `{!MapOrder Z point}.

Definition spatial_new (dir : path) (cap : Z) (fm : gmap path bytes) : SpatialEngine := MkSpatial dir cap ∅ (MkFs fm []).

Definition spatial_exec (ps : list sput) (s : SpatialEngine) : SpatialEngine :=
  fold_left (fun s p => (spa_Put p.1 p.2.1 p.2.2 s).2) ps s.

Definition capped (cap : Z) (m : gmap Z point) : Prop := 0 < cap -> Z.of_nat (size m) <= cap.

(** The memory part of [Put], as the source writes it. *)
Definition put_points (cap : Z) (p : sput) (m : gmap Z point) : gmap Z point :=
  <[p.1 := p.2]> (if (0 <? cap) && (cap <=? Z.of_nat (size m)) && bool_decide (m !! p.1 = None) then erase_begin m else m).

Lemma put_points_capped cap p m : capped cap m -> capped cap (put_points cap p m).
Proof.
  unfold capped, put_points. intros Hm Hcap. specialize (Hm Hcap).
  destruct (decide (m !! p.1 = None)) as [Hn|Hs].
  - rewrite (bool_decide_true (m !! p.1 = None)), andb_true_r by done.
    destruct (Z.ltb_spec 0 cap), (Z.leb_spec cap (Z.of_nat (size m))); cbn; try lia.
    + assert (m <> ∅) as Hne by (intros ->; rewrite map_size_empty in *; lia).
      pose proof (erase_begin_size m Hne) as He. rewrite map_size_insert. destruct (erase_begin m !! p.1); cbn; lia.
    + rewrite map_size_insert_None by done. lia.
  - rewrite (bool_decide_false (m !! p.1 = None)), andb_false_r by done. apply not_eq_None_Some in Hs.
    by rewrite map_size_insert_Some.
Qed.

Lemma spatial_put_run s p fm :
  spa_fs s = MkFs fm [] ->
  spa_Put p.1 p.2.1 p.2.2 s =
    (inr tt, MkSpatial (spa_path s) (spa_max_points s) (put_points (spa_max_points s) p (spa_points s))
               (MkFs (<[spatial_log s := default [] (fm !! spatial_log s) ++ log_enc (sput_rec p)]> fm) [])).
Proof.
  intros Hf. unfold spa_Put. rewrite (mbind_ok (mmodify _) _ _ tt _ eq_refl), (mbind_ok mget _ _ _ _ eq_refl).
  unfold on_fs. cbn [get_fs spatial_HasFs spa_with spa_fs spa_path]. rewrite Hf, ofstream_write_ok.
  destruct p as [id [lat lon]]. done.
Qed.

Lemma put_points_subseteq cap p m l : m ⊆ l -> put_points cap p m ⊆ <[p.1 := p.2]> l.
Proof. intros Hm. apply insert_mono. case_match; [|done]. etransitivity; [apply erase_begin_subseteq|done]. Qed.

(** The state after a run: its log holds every write, whatever was evicted. *)
Lemma spatial_exec_run dir cap fm ps :
  fm !! (dir +:+ "/spatial.log") = None ->
  exists m fm', spatial_exec ps (spatial_new dir cap fm) = MkSpatial dir cap m (MkFs fm' []) /\
    capped cap m /\ m ⊆ last_points ps /\ default [] (fm' !! (dir +:+ "/spatial.log")) = log_bytes (sput_rec <$> ps).
Proof.
  intros Hfm. induction ps as [|p ps (m & fm' & E & Hc & Hm & Hl)] using rev_ind.
  - exists ∅, fm. split; [done|]. split; [by intros ?; rewrite map_size_empty; lia|]. split; [done|]. by rewrite Hfm.
  - unfold spatial_exec. rewrite fold_left_app. fold (spatial_exec ps (spatial_new dir cap fm)). rewrite E. cbn [fold_left].
    erewrite spatial_put_run by done. cbn [snd spa_path spa_max_points spa_points spa_fs].
    eexists _, _. split; [done|]. split; [by apply put_points_capped|]. rewrite last_points_snoc.
    split; [by apply put_points_subseteq|]. change (spatial_log _) with (dir +:+ "/spatial.log").
    rewrite lookup_insert_eq, fmap_app, log_bytes_app. cbn [default from_option id]. rewrite Hl. unfold log_bytes. cbn.
    by rewrite app_nil_r.
Qed.

(** ** Replay *)

Definition open_points (cap : Z) (m : gmap Z point) (p : sput) : gmap Z point :=
  let m := <[p.1 := p.2]> m in if (0 <? cap) && (cap <? Z.of_nat (size m)) then erase_begin m else m.

Lemma spatial_fold ps s :
  fold_left spatial_step (sput_rec <$> ps) s = spa_with (fold_left (open_points (spa_max_points s)) ps (spa_points s)) s.
Proof.
  revert s. induction ps as [|[id [lat lon]] ps IH]; intros s; [by destruct s|].
  cbn [fmap list_fmap fold_left]. rewrite IH. done.
Qed.

Lemma open_points_fold cap ps :
  let m := fold_left (open_points cap) ps ∅ in
  m ⊆ last_points ps /\ capped cap m /\ (cap <= 0 \/ Z.of_nat (size (last_points ps)) <= cap -> m = last_points ps).
Proof.
  cbn. induction ps as [|p ps (Hm & Hc & He)] using rev_ind.
  { split; [done|]. split; [intros Hp; cbn; rewrite map_size_empty; lia|done]. }
  rewrite fold_left_app, last_points_snoc. cbn [fold_left]. set (m := fold_left (open_points cap) ps ∅) in *.
  set (l := last_points ps) in *. assert (<[p.1 := p.2]> m ⊆ <[p.1 := p.2]> l) as Hi by by apply insert_mono.
  assert (size (<[p.1 := p.2]> m) <= S (size m))%nat as Hs by (rewrite map_size_insert; destruct (m !! p.1); cbn; lia).
  assert (size l <= size (<[p.1 := p.2]> l))%nat as Hl by (rewrite map_size_insert; destruct (l !! p.1); cbn; lia).
  unfold open_points. destruct (_ && _) eqn:E.
  - apply andb_true_iff in E as [E1%Z.ltb_lt E2%Z.ltb_lt]. split; [etransitivity; [apply erase_begin_subseteq|done]|].
    pose proof (erase_begin_size (<[p.1 := p.2]> m) (insert_non_empty _ _ _)) as Hz. specialize (Hc E1).
    split; [intros _; lia|]. intros [?|Hcap]; [lia|]. assert (m = l) as Heq by (apply He; right; lia).
    rewrite Heq in E2. lia.
  - split; [done|]. split.
    + intros Hp. apply andb_false_iff in E as [E%Z.ltb_ge|E%Z.ltb_ge]; lia.
    + intros [?|?]; (rewrite He; [done|]); [by left|right; lia].
Qed.

Lemma spatial_cut (rs : list SpatialRecord) p s :
  Forall spatial_rec_valid rs -> p `prefix_of` log_bytes rs ->
  log_replay spatial_step p s = fold_left spatial_step (take (length p / 24) rs) s.
Proof.
  intros Hrs. revert p s. induction Hrs as [|r rs Hr Hrs IH]; intros p s Hp.
  - apply prefix_nil_inv in Hp as ->. done.
  - assert (length (spatial_enc r) = 24%nat) as Hlen by (unfold spatial_enc; by rewrite !length_app, !length_le_split).
    unfold log_bytes in Hp. cbn [mbind list_bind] in Hp. apply prefix_app_cases in Hp as [Hp|(p' & -> & Hp)].
    + destruct (decide (p = spatial_enc r)) as [->|Hne].
      * rewrite Hlen. change (24 / 24)%nat with 1%nat. rewrite <-(app_nil_r (spatial_enc r)).
        change (spatial_enc r) with (log_enc r). rewrite log_replay_cons by done. by destruct rs.
      * assert (length p < 24)%nat as Hs.
        { destruct Hp as [k Hk]. cbn in Hk. rewrite Hk, length_app in Hlen. destruct k; [by rewrite app_nil_r in Hk|cbn in Hlen; lia]. }
        rewrite Nat.div_small by done. apply log_replay_None. by eapply spatial_dec_torn.
    + rewrite log_replay_cons by done. rewrite length_app. change (log_enc r) with (spatial_enc r). rewrite Hlen.
      replace (24 + length p')%nat with (length p' + 1 * 24)%nat by lia. rewrite Nat.div_add by done.
      rewrite Nat.add_1_r. cbn [take fold_left]. by apply IH.
Qed.

Lemma length_log_bytes ps : length (log_bytes (sput_rec <$> ps)) = (24 * length ps)%nat.
Proof.
  induction ps as [|p ps IH]; [done|]. change (sput_rec <$> p :: ps) with ([sput_rec p] ++ (sput_rec <$> ps)).
  rewrite log_bytes_app, length_app, IH. change (length (log_bytes [sput_rec p])) with 24%nat. cbn. lia.
Qed.

(** C35. The points recovered from a log that was cut at an arbitrary byte: the
    complete records of it are replayed, every point is the last one written
    for its identifier among them, the cap holds, and no point is missing
    unless the cap forces it. *)
Theorem spatial_crash_recovers dir cap fm ps log :
  fm !! (dir +:+ "/spatial.log") = None -> Forall sput_ok ps ->
  let s := spatial_exec ps (spatial_new dir cap fm) in
  let full := default [] (fs_files (spa_fs s) !! (dir +:+ "/spatial.log")) in
  log `prefix_of` full ->
  let n := (length log / 24)%nat in
  exists s', spa_Open (spatial_new dir cap (<[dir +:+ "/spatial.log" := log]> (fs_files (spa_fs s)))) = (inr tt, s') /\
    spa_points s' ⊆ last_points (take n ps) /\ capped cap (spa_points s') /\
    (cap <= 0 \/ Z.of_nat (size (last_points (take n ps))) <= cap -> spa_points s' = last_points (take n ps)) /\
    (log = full -> n = length ps).
Proof.
  intros Hfm Hps s full Hlog n. destruct (spatial_exec_run dir cap fm ps Hfm) as (m & fm' & E & _ & _ & Hl).
  subst full. subst s. rewrite E in *. cbn [spa_fs fs_files] in *. rewrite Hl in *.
  set (fm1 := <[dir +:+ "/spatial.log" := log]> fm').
  assert (Forall spatial_rec_valid (sput_rec <$> ps)) as Hv by by apply Forall_fmap.
  eexists. split.
  { unfold spa_Open. rewrite (mbind_ok mget _ _ _ _ eq_refl).
    rewrite (mbind_ok (on_fs (create_directories _ _)) _ _ tt (spatial_new dir cap fm1)) by done.
    rewrite (mbind_ok _ _ _ (Some log) (spatial_new dir cap fm1)); [reflexivity|].
    unfold on_fs. cbn [get_fs spatial_HasFs spa_fs spatial_new]. rewrite ifstream_read_lookup.
    change (spatial_log _) with (dir +:+ "/spatial.log"). subst fm1. by rewrite lookup_insert_eq. }
  rewrite (spatial_cut _ _ _ Hv Hlog), <-fmap_take, spatial_fold. cbn [spa_points spa_with spatial_new spa_max_points].
  destruct (open_points_fold cap (take n ps)) as (H1 & H2 & H3). split_and!; [done..|].
  intros ->. subst n. by rewrite length_log_bytes, Nat.mul_comm, Nat.div_mul.
Qed.
End recovery.

#[local] Existing Instances default_order insertion_StdSort.

Lemma spatial_crash_recovers_witness :
  let ps := [(7, (10, 20)); (8, (30, 40)); (7, (50, 60))] in
  let s := spatial_exec ps (spatial_new "g" 2 ∅) in
  let full := default [] (fs_files (spa_fs s) !! ("g" +:+ "/spatial.log")) in
  exists s', spa_Open (spatial_new "g" 2 (<["g" +:+ "/spatial.log" := take 50 full]> (fs_files (spa_fs s)))) = (inr tt, s') /\
    spa_points s' = {[7 := (10, 20); 8 := (30, 40)]}.
Proof.
  intros ps s full. destruct (spatial_crash_recovers "g" 2 ∅ ps (take 50 full)) as (s' & E & _ & _ & H & _).
  - done.
  - by repeat constructor.
  - eexists. symmetry. apply take_drop.
  - exists s'. split; [exact E|]. etransitivity; [apply H; right; by vm_compute|]. by vm_compute.
Defined.

(** ** The nearest points *)

Section nearest.
Context `{F64Ops} `{StdSort} `{!MapOrder Z point}.

(** [Nearest] returns [topk] of the points, or all of them when there are
    fewer, ordered by distance, and no point that it leaves out is closer than
    one it returns, for every order of the map and every sort, provided the
    distances compare as numbers do. *)
Theorem spatial_nearest_exact lat lon topk s :
  0 <= topk ->
  let dist (p : Z * point) := HaversineMeters lat lon p.2.1 p.2.2 in
  weak_order (fun d => exists id q, spa_points s !! id = Some q /\ d = dist (id, q)) d_lt ->
  let out := spa_Nearest lat lon topk s in
  length out = (Z.to_nat topk `min` size (spa_points s))%nat /\ NoDup out.*1 /\
  (forall id q, (id, q) ∈ out -> spa_points s !! id = Some q) /\
  StronglySorted (fun a b => d_lt (dist b) (dist a) = false) out /\
  (forall id q p, spa_points s !! id = Some q -> (id, q) ∉ out -> p ∈ out -> d_lt (dist (id, q)) (dist p) = false).
Proof.
  intros Hk dist Hd out. set (sc := (fun p => (dist p, p)) <$> iter_order (spa_points s)).
  assert (sc.*2 = iter_order (spa_points s)) as Esc by (subst sc; rewrite <-list_fmap_compose; apply list_fmap_id).
  set (P := fun e : Z * (Z * point) => e.1 = dist e.2 /\ spa_points s !! e.2.1 = Some e.2.2).
  assert (Forall P sc) as HP.
  { apply Forall_fmap, Forall_forall. intros [id q] Hq%elem_of_iter_order. by split. }
  assert (weak_order P (fun a b => d_lt a.1 b.1)) as Hw.
  { assert (forall e, P e -> exists id q, spa_points s !! id = Some q /\ e.1 = dist (id, q)) as Hp
      by (intros [d [id q]] [Hd1 Hd2]; by exists id, q).
    destruct Hd as [Ha Ht]. split; [intros a b ?%Hp ?%Hp; auto|intros a b c ?%Hp ?%Hp ?%Hp; eauto]. }
  set (n := Z.to_nat (Z.min (zlen (std_sort (fun a b => d_lt a.1 b.1) sc)) topk)).
  destruct (std_sort_take _ P sc n Hw HP) as (Hperm & Hs & Hlt). set (a := take n _) in *. set (b := drop n _) in *.
  assert (out = a.*2) as Eout by done. clearbody out.
  assert (out ++ b.*2 ≡ₚ map_to_list (spa_points s)) as Hout
    by (subst out; by rewrite <-fmap_app, Hperm, Esc, iter_order_perm).
  rewrite <-Hperm, Forall_app, !Forall_forall in HP. destruct HP as [HPa HPb].
  split; [|split; [|split; [|split]]].
  - subst out a n. rewrite length_fmap, length_take. unfold zlen. rewrite std_sort_perm.
    subst sc. rewrite length_fmap, length_iter_order. lia.
  - pose proof (NoDup_fst_map_to_list (spa_points s)) as Hnd. rewrite <-Hout, fmap_app in Hnd. by apply NoDup_app in Hnd as [? _].
  - intros id q Hq. apply elem_of_map_to_list. rewrite <-Hout. set_solver.
  - subst out. clear -Hs HPa. induction Hs as [|x a Hs IH Hx]; [constructor|]. cbn. constructor.
    + apply IH. set_solver.
    + apply Forall_fmap. rewrite Forall_forall in Hx |- *. intros y Hy. cbn. destruct (HPa x), (HPa y); [set_solver..|].
      specialize (Hx y Hy). cbn in Hx. congruence.
  - intros id q p Hq Hn Hp. assert ((id, q) ∈ b.*2) as Hb.
    { apply elem_of_map_to_list in Hq. rewrite <-Hout in Hq. set_solver. }
    subst out. apply list_elem_of_fmap in Hp as ([d1 p1] & -> & H1). apply list_elem_of_fmap in Hb as ([d2 p2] & E2 & H2).
    specialize (Hlt _ _ H1 H2). destruct (HPa _ H1), (HPb _ H2). cbn in *. congruence.
Qed.
End nearest.

(** Distances that are differences of integers, for the witness. *)
Definition toy_F64 : F64Ops := {|
  d_add := Z.add; d_sub := Z.sub; d_mul x y := x; d_div x y := x; d_lt := Z.ltb; d_le := Z.leb;
  d_sin := Z.abs; d_cos x := x; d_sqrt x := x; d_atan2 x y := y
|}.

Lemma spatial_nearest_exact_witness :
  let s := MkSpatial "g" 0 {[7 := (10, 20); 8 := (30, 40); 9 := (90, 90)]} (MkFs ∅ []) in
  length (@spa_Nearest toy_F64 insertion_StdSort default_order 0 0 2 s) = 2%nat.
Proof.
  intros s. apply (@spatial_nearest_exact toy_F64 insertion_StdSort default_order 0 0 2 s); [done|].
  split; [intros a b _ _ Hl%Z.ltb_lt|intros a b c _ _ _ H1%Z.ltb_ge H2%Z.ltb_ge]; apply Z.ltb_ge; lia.
Defined.
