(* ===== verification/SetEngines.v ===== *)
(** * Sparse vectors and bit sets (src/core/sparse, src/core/bitset, src/core/simd/simd_dispatch.cc)

    Two engines in memory over ids, and the counting kernels they call.  The
    kernels read bit sets as 32-byte blocks, 64-bit words and single bytes;
    the theorems show that every split counts the same bits, and that the
    merge loop of the sparse engine counts the common indices.  A result that
    the source converts to [double] is the integer it converts, a quotient is
    the pair of its operands. *)
From S2P Require Import Prelude.

Open Scope Z_scope.

(** ** Bits *)

(** [__builtin_popcount] and [__builtin_popcountll] of a [w]-bit value. *)
Definition popcount (w : nat) (z : Z) : Z := foldr Z.add 0 ((fun i => Z.b2z (Z.testbit z i)) <$> seqZ 0 (Z.of_nat w)).

(** The bits of a byte sequence, lowest first. *)
Definition byte_bits (c : byte) : list bool := (fun i => Z.testbit (byte.unsigned c) i) <$> seqZ 0 8.
Definition bits (b : bytes) : list bool := b ≫= byte_bits.

(** A 64-bit load at an offset. *)
Definition word_at (b : bytes) (off : nat) : Z := le_read 8 off b.

(** src/core/simd/simd_dispatch.cc:126-136 [BitsetHamming]. The 32-byte blocks of
    the vector loop: the four words of each are combined by [op] and counted.
    The loops of [BitsetJaccard] are the same. *)
Fixpoint count_blocks (op : Z -> Z -> Z) (blocks : nat) (a b : bytes) (off : nat) : Z :=
  match blocks with
  | O => 0
  | S blocks =>
      let v k := popcount 64 (op (word_at a (off + k)) (word_at b (off + k))) in
      (v 0%nat + v 8%nat + v 16%nat + v 24%nat) + count_blocks op blocks a b (off + 32)
  end.

(** src/core/simd/simd_dispatch.cc:144-146 [BitsetHamming]. *)
Fixpoint count_words (op : Z -> Z -> Z) (words : nat) (a b : bytes) (off : nat) : Z :=
  match words with
  | O => 0
  | S words => popcount 64 (op (word_at a off) (word_at b off)) + count_words op words a b (off + 8)
  end.

(** src/core/simd/simd_dispatch.cc:148-150 [BitsetHamming]. *)
Fixpoint count_bytes (op : Z -> Z -> Z) (n : nat) (a b : bytes) (off : nat) : Z :=
  match n with
  | O => 0
  | S n =>
      popcount 32 (op (byte.unsigned (nth off a Byte.x00)) (byte.unsigned (nth off b Byte.x00)))
      + count_bytes op n a b (S off)
  end.

(** src/core/simd/simd_dispatch.cc:118-153 [BitsetHamming]. [avx2] says whether
    the vector loop is compiled in. *)
Definition BitsetHamming (avx2 : bool) (a b : bytes) (n_bytes : nat) : Z :=
  if bool_decide (n_bytes = 0%nat) then 0 else
  let blocks := if avx2 then (n_bytes / 32)%nat else 0%nat in
  let i := (32 * blocks)%nat in
  let n64 := ((n_bytes - i) / 8)%nat in
  count_blocks Z.lxor blocks a b 0 + count_words Z.lxor n64 a b i + count_bytes Z.lxor (n_bytes - i - n64 * 8) a b (i + n64 * 8).

(** A similarity: 1.0, or the quotient of two counts. *)
Inductive similarity : Type := sim_one | sim_quot (inter uni : Z).

(** src/core/simd/simd_dispatch.cc:156-187 [BitsetJaccard]. *)
Definition BitsetJaccard (avx2 : bool) (a b : bytes) (n_bytes : nat) : similarity :=
  if bool_decide (n_bytes = 0%nat) then sim_one else
  let blocks := if avx2 then (n_bytes / 32)%nat else 0%nat in
  let i := (32 * blocks)%nat in
  let inter := count_blocks Z.land blocks a b 0 + count_bytes Z.land (n_bytes - i) a b i in
  let uni := count_blocks Z.lor blocks a b 0 + count_bytes Z.lor (n_bytes - i) a b i in
  if uni =? 0 then sim_one else sim_quot inter uni.

(** ** The bit set engine *)

(** src/core/bitset/bitset_engine.h:27-29 [BitsetEngine]. *)
Record BitsetEngine : Type := MkBs { bs_max_bytes : Z; bs_cur_bytes : Z; bs_bitsets : gmap Z bytes }.
Definition bs_new (max_bytes : Z) : BitsetEngine := MkBs max_bytes 0 ∅.

(** src/core/bitset/bitset_engine.cc:7-15 [BitsetEngine::Put]. *)
Definition bs_Put (id : Z) (b : bytes) : M BitsetEngine unit :=
  s ← mget;
  let old := match bs_bitsets s !! id with Some x => zlen x | None => 0 end in
  let total := u64 (bs_cur_bytes s - old + zlen b) in
  mguard (negb ((0 <? bs_max_bytes s) && (bs_max_bytes s <? total))) (ResourceExhausted "bitset cap exceeded") ;;
  mput (MkBs (bs_max_bytes s) total (<[id := b]> (bs_bitsets s))).

(** The checks that start [BinaryOp], [Hamming] and [Jaccard]. *)
Definition bs_operands (a b : Z) (s : BitsetEngine) : Status + (bytes * bytes) :=
  match bs_bitsets s !! a, bs_bitsets s !! b with
  | Some x, Some y => if zlen x =? zlen y then inr (x, y) else inl (InvalidArgument "bitset size mismatch")
  | _, _ => inl (NotFound "bitset not found")
  end.

Definition bs_with {A} (a b : Z) (f : bytes -> bytes -> A) (s : BitsetEngine) : Status + A :=
  match bs_operands a b s with inl e => inl e | inr (x, y) => inr (f x y) end.

(** src/core/bitset/bitset_engine.cc:17-30 [BitsetEngine::BinaryOp]. *)
Definition bs_BinaryOp (a b op : Z) : BitsetEngine -> Status + bytes :=
  bs_with a b (zip_with (fun x y =>
    byte.of_Z ((if op =? 0 then Z.land else if op =? 1 then Z.lor else Z.lxor) (byte.unsigned x) (byte.unsigned y)))).

(** src/core/bitset/bitset_engine.cc:32-34 [BitsetEngine::And]. With [Or] and [Xor]. *)
Definition bs_And (a b : Z) : BitsetEngine -> Status + bytes := bs_BinaryOp a b 0.
Definition bs_Or (a b : Z) : BitsetEngine -> Status + bytes := bs_BinaryOp a b 1.
Definition bs_Xor (a b : Z) : BitsetEngine -> Status + bytes := bs_BinaryOp a b 2.

(** src/core/bitset/bitset_engine.cc:36-44 [BitsetEngine::Hamming]. *)
Definition bs_Hamming (avx2 : bool) (a b : Z) : BitsetEngine -> Status + Z :=
  bs_with a b (fun x y => BitsetHamming avx2 x y (length x)).

(** src/core/bitset/bitset_engine.cc:46-54 [BitsetEngine::Jaccard]. *)
Definition bs_Jaccard (avx2 : bool) (a b : Z) : BitsetEngine -> Status + similarity :=
  bs_with a b (fun x y => BitsetJaccard avx2 x y (length x)).

(** ** The sparse engine *)

(** include/pomai/pomai.h:30-33 [SparseEntry]. *)
Record SparseEntry : Type := MkSp { sp_indices : list Z; sp_weights : list Z }.

(** [double] arithmetic of the dot product. *)
Class F64 : Type := { f64_zero : Z; f64_add : Z -> Z -> Z; f64_mul : Z -> Z -> Z; f64_of_f32 : Z -> Z }.

(** src/core/simd/simd_dispatch.cc:98-115 [SparseIntersectU32]. *)
Fixpoint SparseIntersectU32 (a : list Z) : list Z -> Z :=
  fix go (b : list Z) : Z :=
    match a, b with
    | x :: a', y :: b' =>
        if x =? y then u32 (1 + SparseIntersectU32 a' b')
        else if x <? y then SparseIntersectU32 a' b else go b'
    | _, _ => 0
    end.

Section sparse.
Context `{F64}.

(** src/core/simd/simd_dispatch.cc:79-96 [SparseDotU32F32]. *)
Fixpoint sparse_dot_loop (a : list (Z * Z)) : list (Z * Z) -> Z -> Z :=
  fix go (b : list (Z * Z)) (sum : Z) : Z :=
    match a, b with
    | (x, wx) :: a', (y, wy) :: b' =>
        if x =? y then sparse_dot_loop a' b' (f64_add sum (f64_mul (f64_of_f32 wx) (f64_of_f32 wy)))
        else if x <? y then sparse_dot_loop a' b sum else go b' sum
    | _, _ => sum
    end.
Definition SparseDotU32F32 (a b : SparseEntry) : Z :=
  sparse_dot_loop (zip (sp_indices a) (sp_weights a)) (zip (sp_indices b) (sp_weights b)) f64_zero.

Context `{!MapOrder Z SparseEntry}.

(** src/core/sparse/sparse_engine.h:24-25 [SparseEngine]. *)
Record SparseEngine : Type := MkSe { se_max_entries : Z; se_sparse : gmap Z SparseEntry }.

(** src/core/sparse/sparse_engine.cc:7-12 [SparseEngine::Put]. *)
Definition se_Put (id : Z) (entry : SparseEntry) : M SparseEngine unit :=
  mguard (zlen (sp_indices entry) =? zlen (sp_weights entry)) (InvalidArgument "sparse index/weight size mismatch") ;;
  mmodify (fun s =>
    let m := se_sparse s in
    let m := if (0 <? se_max_entries s) && (se_max_entries s <=? Z.of_nat (size m)) && bool_decide (m !! id = None)
             then erase_begin m else m in
    MkSe (se_max_entries s) (<[id := entry]> m)).

Definition se_with {A} (a b : Z) (f : SparseEntry -> SparseEntry -> A) (s : SparseEngine) : Status + A :=
  match se_sparse s !! a, se_sparse s !! b with
  | Some x, Some y => inr (f x y)
  | _, _ => inl (NotFound "sparse vector not found")
  end.

(** src/core/sparse/sparse_engine.cc:14-22 [SparseEngine::Dot]. *)
Definition se_Dot (a b : Z) : SparseEngine -> Status + Z := se_with a b SparseDotU32F32.

(** src/core/sparse/sparse_engine.cc:24-32 [SparseEngine::Intersect]. *)
Definition se_Intersect (a b : Z) : SparseEngine -> Status + Z :=
  se_with a b (fun x y => SparseIntersectU32 (sp_indices x) (sp_indices y)).

(** src/core/sparse/sparse_engine.cc:34-44 [SparseEngine::Jaccard]. *)
Definition se_Jaccard (a b : Z) (s : SparseEngine) : Status + similarity :=
  match se_Intersect a b s with
  | inl e => inl e
  | inr inter =>
      let n k := match se_sparse s !! k with Some e => zlen (sp_indices e) | None => 0 end in
      let uni := u32 (n a + n b - inter) in
      inr (if uni =? 0 then sim_one else sim_quot inter uni)
  end.
End sparse.

(** ** Counting bits *)

Definition count_true (l : list bool) : Z := foldr Z.add 0 (Z.b2z <$> l).

Lemma count_true_app l k : count_true (l ++ k) = count_true l + count_true k.
Proof. unfold count_true. rewrite fmap_app. induction (Z.b2z <$> l) as [|x xs IH]; cbn [app foldr]; lia. Qed.

Lemma popcount_bits w z : popcount w z = count_true ((fun i => Z.testbit z i) <$> seqZ 0 (Z.of_nat w)).
Proof. unfold popcount, count_true. by rewrite <-list_fmap_compose. Qed.

(** A bitwise operation on integers and the operation on bits it lifts. *)
Class BitOp (op : Z -> Z -> Z) (f : bool -> bool -> bool) : Prop := {
  bit_op x y i : 0 <= i -> Z.testbit (op x y) i = f (Z.testbit x i) (Z.testbit y i);
  bit_op_false : f false false = false
}.
#[global] Instance xor_BitOp : BitOp Z.lxor xorb.
Proof. split; [intros; apply Z.lxor_spec|done]. Qed.
#[global] Instance and_BitOp : BitOp Z.land andb.
Proof. split; [intros; apply Z.land_spec|done]. Qed.
#[global] Instance or_BitOp : BitOp Z.lor orb.
Proof. split; [intros; apply Z.lor_spec|done]. Qed.

Lemma seqZ_split n m : 0 <= n -> 0 <= m -> seqZ 0 (n + m) = seqZ 0 n ++ (Z.add n <$> seqZ 0 m).
Proof. intros Hn Hm. rewrite seqZ_app, fmap_add_seqZ by lia. do 2 f_equal. lia. Qed.

Lemma byte_high c i : 8 <= i -> Z.testbit (byte.unsigned c) i = false.
Proof.
  intros Hi. pose proof (byte.unsigned_range c) as Hr. apply (Z.bits_above_log2 _ i); [lia|].
  destruct (decide (byte.unsigned c = 0)) as [->|]; [cbn; lia|].
  assert (Z.log2 (byte.unsigned c) < 8); [|lia]. apply Z.log2_lt_pow2; lia.
Qed.

(** The bits of an integer loaded from memory are the bits of its bytes. *)
Lemma bits_le_combine b : (fun i => Z.testbit (le_combine b) i) <$> seqZ 0 (8 * zlen b) = bits b.
Proof.
  induction b as [|c b IH]; [done|]. assert (8 * zlen (c :: b) = 8 + 8 * zlen b) as -> by len.
  rewrite seqZ_split, fmap_app by (pose proof (zlen_nonneg b); lia). unfold bits. rewrite bind_cons. fold (bits b).
  rewrite <-IH, <-list_fmap_compose.
  change (le_combine (c :: b)) with (Z.lor (byte.unsigned c) (Z.shiftl (le_combine b) 8)). f_equal.
  - apply list_fmap_ext. intros j i Hi%list_elem_of_lookup_2%elem_of_seqZ.
    cbn beta. rewrite Z.lor_spec, Z.shiftl_spec_low, orb_false_r by lia. done.
  - apply list_fmap_ext. intros j i Hi%list_elem_of_lookup_2%elem_of_seqZ. cbn [compose].
    rewrite Z.lor_spec, byte_high, Z.shiftl_spec by lia. cbn [orb]. f_equal. lia.
Qed.

Section counting.
Context (op : Z -> Z -> Z) (f : bool -> bool -> bool) `{!BitOp op f}.

Lemma count_word x y :
  length x = length y ->
  popcount (8 * length x) (op (le_combine x) (le_combine y)) = count_true (zip_with f (bits x) (bits y)).
Proof.
  intros Hl. rewrite popcount_bits, <-!bits_le_combine. unfold zlen. rewrite <-Hl. f_equal.
  replace (Z.of_nat (8 * length x)) with (8 * Z.of_nat (length x)) by lia.
  rewrite zip_with_fmap_l, zip_with_fmap_r. rewrite zip_with_diag. apply list_fmap_ext.
  intros j i Hi%list_elem_of_lookup_2%elem_of_seqZ. cbn beta. apply bit_op. lia.
Qed.

(** The combined bits of the [n] bytes at [off]. *)
Definition seg (a b : bytes) (off n : nat) : Z :=
  count_true (zip_with f (bits (take n (drop off a))) (bits (take n (drop off b)))).

Lemma length_byte_bits c : length (byte_bits c) = 8%nat.
Proof. done. Qed.
Lemma length_bits b : length (bits b) = (8 * length b)%nat.
Proof.
  induction b as [|c b IH]; [done|]. unfold bits. rewrite bind_cons, length_app, length_byte_bits. fold (bits b).
  rewrite IH. cbn [length]. lia.
Qed.
Lemma bits_app a b : bits (a ++ b) = bits a ++ bits b.
Proof. apply bind_app. Qed.

Lemma seg_split a b off n m :
  (off + n + m <= length a)%nat -> (off + n + m <= length b)%nat ->
  seg a b off (n + m) = seg a b off n + seg a b (off + n) m.
Proof.
  intros Ha Hb. unfold seg. rewrite <-!(drop_drop _ n off), <-!(take_take_drop _ n m), !bits_app.
  rewrite zip_with_app by (rewrite !length_bits, !length_take, !length_drop; lia). apply count_true_app.
Qed.

Lemma seg_0 a b off : seg a b off 0 = 0.
Proof. done. Qed.

Lemma seg_word a b off :
  (off + 8 <= length a)%nat -> (off + 8 <= length b)%nat ->
  popcount 64 (op (word_at a off) (word_at b off)) = seg a b off 8.
Proof.
  intros Ha Hb. unfold word_at, le_read, seg. rewrite <-count_word by (rewrite !length_take, !length_drop; lia).
  rewrite length_take, length_drop. by replace (8 * (8 `min` (length a - off)))%nat with 64%nat by lia.
Qed.

Lemma seg_byte a b off :
  (off < length a)%nat -> (off < length b)%nat ->
  popcount 32 (op (byte.unsigned (nth off a Byte.x00)) (byte.unsigned (nth off b Byte.x00))) = seg a b off 1.
Proof.
  intros Ha Hb. assert (forall (l : bytes), (off < length l)%nat -> take 1 (drop off l) = [nth off l Byte.x00]) as Hone.
  { intros l Hl. destruct (lookup_lt_is_Some_2 l off Hl) as [x Hx]. rewrite (drop_S _ x) by done.
    by rewrite (nth_lookup_Some _ _ _ _ Hx). }
  unfold seg. rewrite !Hone by done. unfold bits. rewrite !bind_cons, !app_nil_r.
  generalize (nth off a Byte.x00) (nth off b Byte.x00). intros x y. rewrite popcount_bits.
  change (Z.of_nat 32) with (8 + 24). rewrite seqZ_split, fmap_app, count_true_app by lia.
  assert (count_true ((fun i => Z.testbit (op (byte.unsigned x) (byte.unsigned y)) i) <$> (Z.add 8 <$> seqZ 0 24)) = 0) as ->.
  { rewrite <-list_fmap_compose. unfold count_true. rewrite (list_fmap_ext _ (fun _ => false)); [done|].
    intros j i Hi%list_elem_of_lookup_2%elem_of_seqZ. cbn [compose].
    rewrite bit_op, !byte_high by lia. apply bit_op_false. }
  rewrite Z.add_0_r. f_equal. unfold byte_bits. rewrite zip_with_fmap_l, zip_with_fmap_r, zip_with_diag.
  apply list_fmap_ext. intros j i Hi%list_elem_of_lookup_2%elem_of_seqZ. cbn beta. apply bit_op. lia.
Qed.

Lemma count_blocks_seg n a b off :
  (off + 32 * n <= length a)%nat -> (off + 32 * n <= length b)%nat -> count_blocks op n a b off = seg a b off (32 * n).
Proof.
  revert off. induction n as [|n IH]; intros off Ha Hb; [done|]. cbn [count_blocks].
  rewrite !seg_word, IH by lia. replace (32 * S n)%nat with (8 + (8 + (8 + (8 + 32 * n))))%nat by lia.
  rewrite !seg_split by lia. rewrite <-!Nat.add_assoc, Nat.add_0_r. cbn [Nat.add]. lia.
Qed.

Lemma count_words_seg n a b off :
  (off + 8 * n <= length a)%nat -> (off + 8 * n <= length b)%nat -> count_words op n a b off = seg a b off (8 * n).
Proof.
  revert off. induction n as [|n IH]; intros off Ha Hb; [done|]. cbn [count_words].
  rewrite seg_word, IH by lia. replace (8 * S n)%nat with (8 + 8 * n)%nat by lia. by rewrite seg_split by lia.
Qed.

Lemma count_bytes_seg n a b off :
  (off + n <= length a)%nat -> (off + n <= length b)%nat -> count_bytes op n a b off = seg a b off n.
Proof.
  revert off. induction n as [|n IH]; intros off Ha Hb; [done|]. cbn [count_bytes].
  rewrite seg_byte, IH by lia. change (S n) with (1 + n)%nat. rewrite seg_split by lia. by rewrite Nat.add_1_r.
Qed.

Lemma seg_all a b : length a = length b -> seg a b 0 (length a) = count_true (zip_with f (bits a) (bits b)).
Proof. intros Hl. unfold seg. rewrite !drop_0, !take_ge by lia. done. Qed.
End counting.

(** The bits of the bytes that [BinaryOp] computes. *)
Lemma bits_of_op op f `{!BitOp op f} x y :
  byte_bits (byte.of_Z (op (byte.unsigned x) (byte.unsigned y))) = zip_with f (byte_bits x) (byte_bits y).
Proof.
  unfold byte_bits. rewrite zip_with_fmap_l, zip_with_fmap_r, zip_with_diag.
  apply list_fmap_ext. intros j i Hi%list_elem_of_lookup_2%elem_of_seqZ. cbn beta.
  rewrite byte.unsigned_of_Z. unfold byte.wrap. rewrite Z.mod_pow2_bits_low by lia. apply bit_op. lia.
Qed.

Lemma bits_zip_op op f `{!BitOp op f} a b :
  bits (zip_with (fun x y => byte.of_Z (op (byte.unsigned x) (byte.unsigned y))) a b) = zip_with f (bits a) (bits b).
Proof.
  revert b. induction a as [|x a IH]; intros b; [done|]. destruct b as [|y b]; [by rewrite zip_with_nil_r|].
  cbn [zip_with]. unfold bits. rewrite !bind_cons. fold (bits a) (bits b). rewrite zip_with_app by done.
  rewrite (bits_of_op op f). f_equal. apply IH.
Qed.

Lemma hamming_bits avx2 a b :
  length a = length b -> BitsetHamming avx2 a b (length a) = count_true (zip_with xorb (bits a) (bits b)).
Proof.
  intros Hl. rewrite <-seg_all by done. unfold BitsetHamming. case_bool_decide as Hn; [by rewrite Hn|].
  set (blocks := if avx2 then (length a / 32)%nat else 0%nat). set (n64 := ((length a - 32 * blocks) / 8)%nat).
  assert (32 * blocks <= length a)%nat by (unfold blocks; destruct avx2; [apply Nat.Div0.mul_div_le|lia]).
  assert (8 * n64 <= length a - 32 * blocks)%nat by apply Nat.Div0.mul_div_le.
  rewrite (count_blocks_seg _ xorb), (count_words_seg _ xorb), (count_bytes_seg _ xorb) by lia.
  replace (length a) with (32 * blocks + (8 * n64 + (length a - 32 * blocks - n64 * 8)))%nat at 2 by lia.
  rewrite !seg_split by lia. rewrite Nat.add_0_l. replace (n64 * 8)%nat with (8 * n64)%nat by lia. lia.
Qed.

Lemma blocks_and_bytes op f `{!BitOp op f} (avx2 : bool) a b :
  length a = length b ->
  let blocks := if avx2 then (length a / 32)%nat else 0%nat in
  count_blocks op blocks a b 0 + count_bytes op (length a - 32 * blocks) a b (32 * blocks) =
  count_true (zip_with f (bits a) (bits b)).
Proof.
  intros Hl blocks. rewrite <-seg_all by done.
  assert (32 * blocks <= length a)%nat by (unfold blocks; destruct avx2; [apply Nat.Div0.mul_div_le|lia]).
  rewrite (count_blocks_seg _ f), (count_bytes_seg _ f) by lia.
  replace (length a) with (32 * blocks + (length a - 32 * blocks))%nat at 2 by lia. by rewrite seg_split by lia.
Qed.

Lemma jaccard_bits avx2 a b :
  length a = length b ->
  let inter := count_true (zip_with andb (bits a) (bits b)) in
  let uni := count_true (zip_with orb (bits a) (bits b)) in
  BitsetJaccard avx2 a b (length a) = if uni =? 0 then sim_one else sim_quot inter uni.
Proof.
  intros Hl inter uni. unfold BitsetJaccard. case_bool_decide as Hn.
  - destruct a; [|done]. done.
  - by rewrite (blocks_and_bytes Z.land andb), (blocks_and_bytes Z.lor orb) by done.
Qed.

(** ** The bit set engine *)

(** Bit operations are exact: whichever loops the build uses, the results on
    two sets of the same length are the sets of the bits combined one by one,
    the distance is the number of bits in which the sets differ, and the
    similarity the quotient of the sizes of their intersection and union. *)
Theorem bitset_operations_exact avx2 s a b x y :
  bs_bitsets s !! a = Some x -> bs_bitsets s !! b = Some y -> length x = length y ->
  (exists r, bs_And a b s = inr r /\ bits r = zip_with andb (bits x) (bits y)) /\
  (exists r, bs_Or a b s = inr r /\ bits r = zip_with orb (bits x) (bits y)) /\
  (exists r, bs_Xor a b s = inr r /\ bits r = zip_with xorb (bits x) (bits y)) /\
  bs_Hamming avx2 a b s = inr (count_true (zip_with xorb (bits x) (bits y))) /\
  bs_Jaccard avx2 a b s =
    inr (let uni := count_true (zip_with orb (bits x) (bits y)) in
         if uni =? 0 then sim_one else sim_quot (count_true (zip_with andb (bits x) (bits y))) uni).
Proof.
  intros Ha Hb Hl.
  assert (forall A (g : bytes -> bytes -> A), bs_with a b g s = inr (g x y)) as Hw.
  { intros A g. unfold bs_with, bs_operands. rewrite Ha, Hb. unfold zlen. by rewrite Hl, Z.eqb_refl. }
  unfold bs_And, bs_Or, bs_Xor, bs_BinaryOp, bs_Hamming, bs_Jaccard. rewrite !Hw, hamming_bits, jaccard_bits by done.
  split_and!; try done; eexists; (split; [reflexivity|]); cbn [Z.eqb].
  - apply (bits_zip_op Z.land andb).
  - apply (bits_zip_op Z.lor orb).
  - apply (bits_zip_op Z.lxor xorb).
Qed.

Lemma bitset_operations_exact_witness :
  let s := (bs_Put 2 [Byte.x0c; Byte.xff] (bs_Put 1 [Byte.x0a; Byte.x00] (bs_new 64)).2).2 in
  bs_Hamming true 1 2 s = inr 10 /\ bs_Jaccard false 1 2 s = inr (sim_quot 1 11).
Proof.
  intros s. destruct (bitset_operations_exact true s 1 2 [Byte.x0a; Byte.x00] [Byte.x0c; Byte.xff])
    as (_ & _ & _ & Hh & _); [reflexivity..|]. split; [rewrite Hh; vm_compute; reflexivity|].
  destruct (bitset_operations_exact false s 1 2 [Byte.x0a; Byte.x00] [Byte.x0c; Byte.xff])
    as (_ & _ & _ & _ & Hj); [reflexivity..|]. rewrite Hj. vm_compute. reflexivity.
Defined.

(** The bytes held by all the sets. *)
Definition bs_total (m : gmap Z bytes) : Z := map_fold (fun _ b n => zlen b + n) 0 m.
Definition bs_inv (s : BitsetEngine) : Prop :=
  bs_cur_bytes s = bs_total (bs_bitsets s) /\ (0 < bs_max_bytes s -> bs_total (bs_bitsets s) <= bs_max_bytes s).

Lemma bs_total_insert_None m id b : m !! id = None -> bs_total (<[id := b]> m) = zlen b + bs_total m.
Proof. intros Hn. unfold bs_total. rewrite map_fold_insert_L; [done| |done]. intros. lia. Qed.
Lemma bs_total_insert m id b :
  bs_total (<[id := b]> m) = bs_total m - match m !! id with Some x => zlen x | None => 0 end + zlen b.
Proof.
  destruct (m !! id) as [x|] eqn:E.
  - rewrite <-(insert_delete_id m id x E) at 2. rewrite <-insert_delete_eq, !bs_total_insert_None by apply lookup_delete_eq. lia.
  - rewrite bs_total_insert_None by done. lia.
Qed.
Lemma bs_total_nonneg m : 0 <= bs_total m.
Proof.
  induction m as [|id b m Hn IH] using map_ind; [done|]. rewrite bs_total_insert_None by done. pose proof (zlen_nonneg b). lia.
Qed.

(** The byte counter is the size of the stored sets and never passes the cap,
    whatever is stored, replaced or refused; a refused set changes nothing. *)
Theorem bitset_cap_respected s id b :
  bs_inv s -> bs_total (bs_bitsets s) + zlen b < 2 ^ 64 ->
  let '(r, s') := bs_Put id b s in
  bs_inv s' /\ match r with inl _ => s' = s | inr _ => bs_bitsets s' = <[id := b]> (bs_bitsets s) end.
Proof.
  intros [Hc Hm] Hlt. unfold bs_Put. unfold mbind at 1, M_bind at 1, mget. cbv beta iota zeta.
  set (old := match bs_bitsets s !! id with Some x => zlen x | None => 0 end).
  assert (bs_total (<[id := b]> (bs_bitsets s)) = bs_cur_bytes s - old + zlen b) as Et by (rewrite Hc; apply bs_total_insert).
  assert (0 <= old) by (unfold old; destruct (bs_bitsets s !! id); [apply zlen_nonneg|lia]).
  pose proof (bs_total_nonneg (<[id := b]> (bs_bitsets s))). rewrite u64_id by (split; lia).
  destruct ((0 <? bs_max_bytes s) && (bs_max_bytes s <? bs_cur_bytes s - old + zlen b)) eqn:Hg; cbn.
  - by split.
  - split; [|done]. split; cbn; [lia|]. intros Hpos. apply andb_false_iff in Hg as [Hg%Z.ltb_ge|Hg%Z.ltb_ge]; lia.
Qed.

Lemma bitset_cap_respected_witness :
  let '(r, s') := bs_Put 1 [Byte.x0a; Byte.x00; Byte.x01] (MkBs 2 2 {[ 1 := [Byte.x0a; Byte.x00] ]}) in
  bs_inv s' /\ r <> inr tt.
Proof.
  pose proof (bitset_cap_respected (MkBs 2 2 {[ 1 := [Byte.x0a; Byte.x00] ]}) 1 [Byte.x0a; Byte.x00; Byte.x01]) as H.
  vm_compute in H |- *. destruct H as [H _]; [split; [reflexivity|intros _; discriminate]|reflexivity|].
  split; [exact H|discriminate].
Defined.

(** ** The sparse engine *)

Abbreviation ascending := (StronglySorted Z.lt).

Lemma ascending_head_ne x y l : ascending (y :: l) -> x < y -> x ∉ y :: l.
Proof.
  intros Hs Hlt Hin. apply StronglySorted_inv in Hs as [_ Hf]. apply elem_of_cons in Hin as [->|Hin]; [lia|].
  rewrite Forall_forall in Hf. specialize (Hf x Hin). lia.
Qed.

Lemma ascending_NoDup l : ascending l -> NoDup l.
Proof.
  induction 1 as [|x l Hs IH Hf]; constructor; [|done]. intros Hin. rewrite Forall_forall in Hf. specialize (Hf x Hin). lia.
Qed.

(** On ascending indices the merge counts the common ones. *)
Lemma intersect_spec a b :
  ascending a -> ascending b -> zlen a < 2 ^ 32 ->
  SparseIntersectU32 a b = Z.of_nat (size (list_to_set a ∩ list_to_set b : gset Z)).
Proof.
  revert b. induction a as [|x a IHa]; intros b Ha Hb Hlt.
  { cbn [list_to_set]. rewrite intersection_empty_l_L, size_empty. by destruct b. }
  pose proof (StronglySorted_inv Ha) as [Ha' Hfa].
  induction b as [|y b IHb].
  { cbn [list_to_set]. rewrite intersection_empty_r_L, size_empty. done. }
  pose proof (StronglySorted_inv Hb) as [Hb' Hfb]. cbn [SparseIntersectU32].
  destruct (Z.eqb_spec x y) as [->|Hne]; [|destruct (Z.ltb_spec x y) as [Hxy|Hxy]].
  - assert ((y ∉ a) /\ (y ∉ b)) as [Hya Hyb].
    { rewrite Forall_forall in Hfa, Hfb. split; intros Hin; [specialize (Hfa y Hin)|specialize (Hfb y Hin)]; lia. }
    rewrite IHa by (try done; revert Hlt; len). rewrite u32_id.
    + set (X := list_to_set a ∩ list_to_set b : gset Z).
      assert ((list_to_set (y :: a) ∩ list_to_set (y :: b) : gset Z) = {[ y ]} ∪ X) as -> by (unfold X; set_solver).
      rewrite (size_union {[ y ]} X) by (unfold X; set_solver). rewrite size_singleton. lia.
    + assert (size (list_to_set a ∩ list_to_set b : gset Z) <= length a)%nat.
      { transitivity (size (list_to_set a : gset Z)); [apply subseteq_size; set_solver|]. rewrite size_list_to_set; [done|]. by apply ascending_NoDup. }
      revert Hlt. unfold is_u32. len.
  - rewrite IHa by (try done; revert Hlt; len). pose proof (ascending_head_ne _ _ _ Hb Hxy). do 2 f_equal. set_solver.
  - specialize (IHb Hb'). pose proof (ascending_head_ne y x a Ha ltac:(lia)) as Hn.
    assert ((list_to_set (x :: a) ∩ list_to_set (y :: b) : gset Z) = list_to_set (x :: a) ∩ list_to_set b) as -> by set_solver.
    exact IHb.
Qed.

Section sparse_theorems.
Context `{F64} `{!MapOrder Z SparseEntry}.

(** On vectors with ascending indices, as the merge loops assume, the engine
    reports the number of common indices and the exact Jaccard quotient of the
    two index sets. *)
Theorem sparse_similarity_exact s a b x y :
  se_sparse s !! a = Some x -> se_sparse s !! b = Some y ->
  ascending (sp_indices x) -> ascending (sp_indices y) -> zlen (sp_indices x) + zlen (sp_indices y) < 2 ^ 32 ->
  let A : gset Z := list_to_set (sp_indices x) in
  let B : gset Z := list_to_set (sp_indices y) in
  se_Intersect a b s = inr (Z.of_nat (size (A ∩ B))) /\
  se_Jaccard a b s = inr (if decide (A ∪ B = ∅) then sim_one else sim_quot (Z.of_nat (size (A ∩ B))) (Z.of_nat (size (A ∪ B)))).
Proof.
  intros Ha Hb Hx Hy Hlt A B. pose proof (zlen_nonneg (sp_indices x)). pose proof (zlen_nonneg (sp_indices y)).
  assert (se_Intersect a b s = inr (Z.of_nat (size (A ∩ B)))) as Hi.
  { unfold se_Intersect, se_with. rewrite Ha, Hb, intersect_spec by (done || lia). done. }
  split; [done|]. unfold se_Jaccard. rewrite Hi, Ha, Hb.
  assert (size A = length (sp_indices x)) as HA by (by apply size_list_to_set, ascending_NoDup).
  assert (size B = length (sp_indices y)) as HB by (by apply size_list_to_set, ascending_NoDup).
  pose proof (size_union_alt A B) as Hu. pose proof (size_difference_alt B A) as Hd.
  assert (B ∩ A = A ∩ B) as Ec by set_solver. rewrite Ec in Hd. assert (size (A ∩ B) <= size B)%nat by (apply subseteq_size; set_solver).
  assert (zlen (sp_indices x) + zlen (sp_indices y) - Z.of_nat (size (A ∩ B)) = Z.of_nat (size (A ∪ B))) as ->
    by (unfold zlen in *; lia).
  rewrite u32_id by (unfold is_u32, zlen in *; lia). case_decide as Hemp.
  - rewrite Hemp, size_empty. done.
  - rewrite (proj2 (Z.eqb_neq _ _)); [done|]. intros E. apply Hemp. apply leibniz_equiv, size_empty_inv. lia.
Qed.
End sparse_theorems.

Definition example_f64 : F64 := {| f64_zero := 0; f64_add := Z.add; f64_mul := Z.mul; f64_of_f32 := id |}.
Definition example_sparse : SparseEngine :=
  MkSe 10 (<[1 := MkSp [2; 5; 9] [1; 1; 1]]> (<[2 := MkSp [5; 6; 9; 11] [1; 2; 3; 4]]> ∅)).

Lemma sparse_similarity_exact_witness :
  @se_Jaccard 1 2 example_sparse = inr (sim_quot 2 5).
Proof.
  destruct (sparse_similarity_exact example_sparse 1 2 (MkSp [2; 5; 9] [1; 1; 1]) (MkSp [5; 6; 9; 11] [1; 2; 3; 4])) as [_ E];
    [reflexivity|reflexivity|repeat constructor|repeat constructor|reflexivity|].
  rewrite E. vm_compute. reflexivity.
Defined.

(** [Put] accepts indices in any order, and the merge then misses some of the
    common ones. *)
Lemma sparse_unsorted_miscounts :
  let put id e s := (@se_Put default_order id e s).2 in
  let s := put 2 (MkSp [1; 2] [1; 1]) (put 1 (MkSp [2; 1] [1; 1]) (MkSe 10 ∅)) in
  se_Intersect 1 2 s = inr 1.
Proof. vm_compute. done. Qed.
