(* ===== verification/Mailbox.v ===== *)
(** * The lock-free mailbox (src/core/shard/mailbox.h)

    [BoundedMpscQueue]: many producers claim tickets by compare-and-swap on
    [head_], write their slot and publish it through its sequence number; one
    consumer takes the slots in ticket order.  Every atomic access is one step
    of a transition function that takes the thread to run, so a schedule is a
    list of actions and a theorem about every list covers every interleaving.
    The memory is sequentially consistent: the acquire and release orders of the
    source are not weakened further, and the relaxed counters are read in the
    order of the schedule.

    [cf_tickets] and [cf_popped] record what happened to each ticket and what
    was taken; the code does not have them and no step reads them. *)
From S2P Require Import Prelude.

Open Scope Z_scope.

(** [static_cast<std::intptr_t>(x)] *)
Definition s64 (x : Z) : Z := if x <? 2 ^ 63 then x else x - 2 ^ 64.

(** src/core/shard/mailbox.h:167-173 [BoundedMpscQueue::RoundUpPow2]. *)
Definition mb_RoundUpPow2 (n : Z) : Z :=
  if n =? 0 then 1 else
  let n := n - 1 in
  let n := Z.lor n (Z.shiftr n 1) in
  let n := Z.lor n (Z.shiftr n 2) in
  let n := Z.lor n (Z.shiftr n 4) in
  let n := Z.lor n (Z.shiftr n 8) in
  let n := Z.lor n (Z.shiftr n 16) in
  let n := Z.lor n (Z.shiftr n 32) in
  u64 (n + 1).

Section mailbox.
Context {T : Type}.

(** src/core/shard/mailbox.h:181-188 [BoundedMpscQueue]. The slots as two lists. *)
Record Mailbox : Type := MkMailbox {
  mb_mask : Z;
  mb_head : Z;
  mb_tail : Z;
  mb_sequence : list Z;
  mb_data : list (option T);
  mb_size : Z;
  mb_closed : bool
}.

(** src/core/shard/mailbox.h:33-40 [BoundedMpscQueue::BoundedMpscQueue]. *)
Definition mb_new (capacity : Z) : Mailbox :=
  let mask := u64 (mb_RoundUpPow2 capacity - 1) in
  MkMailbox mask 0 0 (seqZ 0 (mask + 1)) (replicate (Z.to_nat (mask + 1)) None) 0 false.

(** [buffer_[x & mask_]] *)
Definition mb_slot (m : Mailbox) (x : Z) : nat := Z.to_nat (Z.land x (mb_mask m)).

Definition mb_seq_of (m : Mailbox) (x : Z) : option Z := mb_sequence m !! mb_slot m x.

(** ** Threads *)

(** Where a producer is in [TryPush] (or, when [blk], in the loop of
    [PushBlocking]) and the locals it holds. *)
Inductive ProducerPc : Type :=
  | PIdle (result : option bool)
  | PGate (v : T)
  | PLoadHead (blk : bool) (v : T)
  | PLoadSeq (blk : bool) (v : T) (head : Z)
  | PCas (blk : bool) (v : T) (head : Z)
  | PClosed (blk : bool) (v : T) (head : Z)
  | PRevert (blk : bool) (v : T) (head : Z)
  | PWrite (v : T) (head : Z)
  | PPublish (v : T) (head : Z)
  | PCount.

Inductive PopKind : Type := KTry | KBlocking | KFor.

(** Where the consumer is in [TryPop], [PopBlocking] or [PopFor]. *)
Inductive ConsumerPc : Type :=
  | CIdle (result : option (option T))
  | CLoad (k : PopKind)
  | CTake
  | CRelease (tail : Z) (v : option T)
  | CSub (v : option T)
  | CClosed (k : PopKind)
  | CSize (k : PopKind)
  | CDeadline.

(** What became of a ticket. *)
Inductive Ticket : Type := Owned (p : nat) (v : T) | Reverted | Published (v : T).

Record Config : Type := MkConfig {
  cf_mb : Mailbox;
  cf_prods : gmap nat ProducerPc;
  cf_cons : ConsumerPc;
  cf_tickets : list Ticket;
  cf_popped : list (option T)
}.

(** One step of the schedule. *)
Inductive Action : Type :=
  | ACall (p : nat) (blk : bool) (v : T)
  | AProd (p : nat) (spurious : bool)
  | APop (k : PopKind)
  | ACons (expired : bool)
  | AClose.

Definition with_head (h : Z) (m : Mailbox) : Mailbox :=
  MkMailbox (mb_mask m) h (mb_tail m) (mb_sequence m) (mb_data m) (mb_size m) (mb_closed m).
Definition with_seq (x s : Z) (m : Mailbox) : Mailbox :=
  MkMailbox (mb_mask m) (mb_head m) (mb_tail m) (<[mb_slot m x := s]> (mb_sequence m)) (mb_data m) (mb_size m) (mb_closed m).
Definition with_data (x : Z) (d : option T) (m : Mailbox) : Mailbox :=
  MkMailbox (mb_mask m) (mb_head m) (mb_tail m) (mb_sequence m) (<[mb_slot m x := d]> (mb_data m)) (mb_size m) (mb_closed m).
Definition with_tail (t : Z) (m : Mailbox) : Mailbox :=
  MkMailbox (mb_mask m) (mb_head m) t (mb_sequence m) (mb_data m) (mb_size m) (mb_closed m).
Definition with_size (n : Z) (m : Mailbox) : Mailbox :=
  MkMailbox (mb_mask m) (mb_head m) (mb_tail m) (mb_sequence m) (mb_data m) n (mb_closed m).

(** [TryPush] returned false: [PushBlocking] goes round again. *)
Definition push_failed (blk : bool) (v : T) : ProducerPc := if blk then PGate v else PIdle (Some false).

(** src/core/shard/mailbox.h:49-86 [BoundedMpscQueue::TryPush]. One step of a
    producer: the mailbox, its next position and what it did to the tickets.
    [spurious] makes [compare_exchange_weak] fail although the value matches. *)
Definition producer_step (p : nat) (spurious : bool) (pc : ProducerPc) (m : Mailbox) (ts : list Ticket)
    : option (ProducerPc * Mailbox * list Ticket) :=
  match pc with
  | PIdle _ => None
  | PGate v => Some (if mb_closed m then PIdle (Some false) else PLoadHead true v, m, ts)
  | PLoadHead blk v => Some (PLoadSeq blk v (mb_head m), m, ts)
  | PLoadSeq blk v head =>
      seq ← mb_seq_of m head;
      let diff := s64 seq - s64 head in
      Some (if diff =? 0 then PCas blk v head
            else if diff <? 0 then push_failed blk v
            else PLoadHead blk v, m, ts)
  | PCas blk v head =>
      if (mb_head m =? head) && negb spurious
      then Some (PClosed blk v head, with_head (u64 (head + 1)) m, ts ++ [Owned p v])
      else Some (PLoadSeq blk v (mb_head m), m, ts)
  | PClosed blk v head => Some (if mb_closed m then PRevert blk v head else PWrite v head, m, ts)
  | PRevert blk v head => Some (push_failed blk v, with_seq head head m, <[Z.to_nat head := Reverted]> ts)
  | PWrite v head => Some (PPublish v head, with_data head (Some v) m, ts)
  | PPublish v head => Some (PCount, with_seq head (u64 (head + 1)) m, <[Z.to_nat head := Published v]> ts)
  | PCount => Some (PIdle (Some true), with_size (u64 (mb_size m + 1)) m, ts)
  end.

(** src/core/shard/mailbox.h:89-150 [BoundedMpscQueue::PopBlocking]. One step of the
    consumer, which also runs [PopFor] and [TryPop]. *)
Definition consumer_step (expired : bool) (pc : ConsumerPc) (m : Mailbox) (popped : list (option T))
    : option (ConsumerPc * Mailbox * list (option T)) :=
  match pc with
  | CIdle _ => None
  | CLoad k =>
      seq ← mb_seq_of m (mb_tail m);
      let diff := s64 seq - s64 (u64 (mb_tail m + 1)) in
      Some (if diff =? 0 then CTake
            else match k with KTry => CIdle (Some None) | _ => CClosed k end, m, popped)
  | CTake =>
      v ← mb_data m !! mb_slot m (mb_tail m);
      Some (CRelease (mb_tail m) v, with_tail (u64 (mb_tail m + 1)) (with_data (mb_tail m) None m), popped ++ [v])
  | CRelease tail v => Some (CSub v, with_seq tail (u64 (tail + mb_mask m + 1)) m, popped)
  | CSub v => Some (CIdle (Some v), with_size (u64 (mb_size m - 1)) m, popped)
  | CClosed k =>
      Some (if mb_closed m then CSize k else match k with KFor => CDeadline | _ => CLoad k end, m, popped)
  | CSize k =>
      Some (if mb_size m =? 0 then CIdle (Some None) else match k with KFor => CDeadline | _ => CLoad k end, m, popped)
  | CDeadline => Some (if expired then CIdle (Some None) else CLoad KFor, m, popped)
  end.

(** src/core/shard/mailbox.h:153-155 [BoundedMpscQueue::Close]. *)
Definition mb_Close (m : Mailbox) : Mailbox :=
  MkMailbox (mb_mask m) (mb_head m) (mb_tail m) (mb_sequence m) (mb_data m) (mb_size m) true.

Definition is_idle (pc : ProducerPc) : bool := match pc with PIdle _ => true | _ => false end.

(** A step of the system; [None] when the action is not enabled. *)
Definition mb_step (a : Action) (c : Config) : option Config :=
  match a with
  | ACall p blk v =>
      if is_idle (default (PIdle None) (cf_prods c !! p))
      then Some (MkConfig (cf_mb c) (<[p := if blk then PGate v else PLoadHead false v]> (cf_prods c))
                   (cf_cons c) (cf_tickets c) (cf_popped c))
      else None
  | AProd p spurious =>
      pc ← cf_prods c !! p;
      '(pc, m, ts) ← producer_step p spurious pc (cf_mb c) (cf_tickets c);
      Some (MkConfig m (<[p := pc]> (cf_prods c)) (cf_cons c) ts (cf_popped c))
  | APop k =>
      match cf_cons c with
      | CIdle _ => Some (MkConfig (cf_mb c) (cf_prods c) (CLoad k) (cf_tickets c) (cf_popped c))
      | _ => None
      end
  | ACons expired =>
      '(pc, m, popped) ← consumer_step expired (cf_cons c) (cf_mb c) (cf_popped c);
      Some (MkConfig m (cf_prods c) pc (cf_tickets c) popped)
  | AClose => Some (MkConfig (mb_Close (cf_mb c)) (cf_prods c) (cf_cons c) (cf_tickets c) (cf_popped c))
  end.

(** A schedule. *)
Fixpoint mb_run (acts : list Action) (c : Config) : option Config :=
  match acts with
  | [] => Some c
  | a :: acts => c' ← mb_step a c; mb_run acts c'
  end.

Definition mb_init (capacity : Z) : Config := MkConfig (mb_new capacity) ∅ (CIdle None) [] [].
End mailbox.

Arguments Mailbox : clear implicits.
Arguments ProducerPc : clear implicits.
Arguments ConsumerPc : clear implicits.
Arguments Ticket : clear implicits.
Arguments Config : clear implicits.
Arguments Action : clear implicits.
