(* ===== verification/MailboxTheorems.v ===== *)
(** * Theorems about the mailbox

    The invariant ties the sequence number of every slot to the fate of the one
    ticket of the current window that uses it.  It holds in every state that
    any schedule reaches, as long as the capacity is at least two and fewer than
    2^62 tickets have been handed out (the counters are compared as signed
    64-bit integers). *)
From S2P Require Import Prelude Mailbox.

Open Scope Z_scope.

(** ** Rounding the capacity up *)

(** The top [w] bits below bit [m] are set. *)
Definition smeared (m w n : Z) : Prop := forall i, m - w < i <= m -> 0 <= i -> Z.testbit n i = true.

Lemma smear_step m w n :
  0 <= w -> (forall i, m < i -> Z.testbit n i = false) -> smeared m w n ->
  smeared m (2 * w) (Z.lor n (Z.shiftr n w)) /\ (forall i, m < i -> Z.testbit (Z.lor n (Z.shiftr n w)) i = false).
Proof.
  intros Hw Htop Hs. split.
  - intros i Hi Hi0. rewrite Z.lor_spec, Z.shiftr_spec by done. destruct (decide (m - w < i)) as [H|H].
    + by rewrite Hs by lia.
    + rewrite (Hs (i + w)) by lia. apply orb_true_r.
  - intros i Hi. destruct (decide (0 <= i)); [|apply Z.testbit_neg_r; lia].
    rewrite Z.lor_spec, Z.shiftr_spec by done. by rewrite !Htop by lia.
Qed.

Lemma smear_ones m n :
  0 <= m -> (forall i, m < i -> Z.testbit n i = false) -> smeared m (m + 1) n -> n = Z.ones (m + 1).
Proof.
  intros Hm Htop Hs. apply Z.bits_inj'. intros i Hi. destruct (decide (i <= m)).
  - rewrite Hs, Z.ones_spec_low by lia. done.
  - rewrite Htop, Z.ones_spec_high by lia. done.
Qed.

(** The result is the least power of two that is at least the capacity. *)
Lemma mb_RoundUpPow2_spec n : 1 <= n <= 2 ^ 63 -> mb_RoundUpPow2 n = 2 ^ Z.log2_up n.
Proof.
  intros Hn. unfold mb_RoundUpPow2. rewrite (proj2 (Z.eqb_neq n 0)) by lia.
  destruct (decide (n = 1)) as [->|Hn1]; [done|].
  set (m := Z.log2 (n - 1)).
  assert (0 <= m < 63) as Hm by (split; [apply Z.log2_nonneg|apply Z.log2_lt_pow2; lia]).
  assert (smeared m 1 (n - 1)) as H0.
  { intros i Hi _. replace i with m by lia. apply Z.bit_log2. lia. }
  assert (forall i, m < i -> Z.testbit (n - 1) i = false) as T0 by (intros i Hi; apply Z.bits_above_log2; lia).
  destruct (smear_step m 1 _ ltac:(lia) T0 H0) as [H1 T1].
  destruct (smear_step m 2 _ ltac:(lia) T1 H1) as [H2 T2].
  destruct (smear_step m 4 _ ltac:(lia) T2 H2) as [H3 T3].
  destruct (smear_step m 8 _ ltac:(lia) T3 H3) as [H4 T4].
  destruct (smear_step m 16 _ ltac:(lia) T4 H4) as [H5 T5].
  destruct (smear_step m 32 _ ltac:(lia) T5 H5) as [H6 T6].
  rewrite (smear_ones m _ ltac:(lia) T6) by (intros i Hi Hi0; apply H6; lia).
  rewrite Z.ones_equiv. replace (Z.pred (2 ^ (m + 1)) + 1) with (2 ^ (m + 1)) by lia.
  rewrite u64_id.
  - f_equal. subst m. rewrite Z.log2_up_eqn by lia. unfold Z.pred. replace (n + -1) with (n - 1) by lia. lia.
  - split; [lia|]. apply Z.pow_lt_mono_r; lia.
Qed.

Section mailbox.
Context {T : Type}.
Implicit Types (c : Config T) (m : Mailbox T) (ts : list (Ticket T)).

(** ** The invariant *)

Definition ticket (ts : list (Ticket T)) (t : Z) : option (Ticket T) := ts !! Z.to_nat t.

(** The sequence number a slot has while ticket [t] is the one that uses it. *)
Definition expected ts (t : Z) : Z := match ticket ts t with Some (Published _) => t + 1 | _ => t end.

(** The first ticket whose slot has not been given back. *)
Definition eff_tail c : Z := match cf_cons c with CRelease t _ => t | _ => mb_tail (cf_mb c) end.

Definition pc_ok c (p : nat) (pc : ProducerPc T) : Prop :=
  match pc with
  | PLoadSeq _ _ h => 0 <= h <= mb_head (cf_mb c)
  | PCas _ _ h => 0 <= h <= mb_head (cf_mb c) /\ h < eff_tail c + (mb_mask (cf_mb c) + 1)
  | PClosed _ v h | PRevert _ v h | PWrite v h => 0 <= h /\ ticket (cf_tickets c) h = Some (Owned p v)
  | PPublish v h =>
      0 <= h /\ ticket (cf_tickets c) h = Some (Owned p v) /\ mb_data (cf_mb c) !! mb_slot (cf_mb c) h = Some (Some v)
  | _ => True
  end.

Definition cons_ok c : Prop :=
  match cf_cons c with
  | CTake => exists v, ticket (cf_tickets c) (mb_tail (cf_mb c)) = Some (Published v)
  | CRelease t _ => 0 <= t /\ mb_tail (cf_mb c) = t + 1
  | _ => True
  end.

Record mb_inv (k : Z) c : Prop := {
  iv_k : 1 <= k <= 62;
  iv_mask : mb_mask (cf_mb c) = 2 ^ k - 1;
  iv_len : length (mb_sequence (cf_mb c)) = Z.to_nat (2 ^ k) /\ length (mb_data (cf_mb c)) = Z.to_nat (2 ^ k);
  iv_head : mb_head (cf_mb c) = zlen (cf_tickets c);
  iv_tail : mb_tail (cf_mb c) = zlen (cf_popped c);
  iv_order : mb_tail (cf_mb c) <= mb_head (cf_mb c) <= eff_tail c + 2 ^ k;
  iv_seq : forall t, eff_tail c <= t < eff_tail c + 2 ^ k -> mb_seq_of (cf_mb c) t = Some (expected (cf_tickets c) t);
  iv_data : forall t v, mb_tail (cf_mb c) <= t -> ticket (cf_tickets c) t = Some (Published v) ->
    mb_data (cf_mb c) !! mb_slot (cf_mb c) t = Some (Some v);
  iv_popped : forall i, (i < length (cf_popped c))%nat ->
    exists v, cf_tickets c !! i = Some (Published v) /\ cf_popped c !! i = Some (Some v);
  iv_prods : forall p pc, cf_prods c !! p = Some pc -> pc_ok c p pc;
  iv_cons : cons_ok c
}.

(** ** Slots *)

Lemma mb_slot_mod k m x : 0 <= k -> mb_mask m = 2 ^ k - 1 -> mb_slot m x = Z.to_nat (x mod 2 ^ k).
Proof.
  intros Hk Hm. unfold mb_slot. rewrite Hm. replace (2 ^ k - 1) with (Z.ones k) by (rewrite Z.ones_equiv; lia).
  by rewrite Z.land_ones.
Qed.

Lemma slot_lt k m x : 0 <= k -> mb_mask m = 2 ^ k - 1 -> (mb_slot m x < Z.to_nat (2 ^ k))%nat.
Proof.
  intros Hk Hm. rewrite (mb_slot_mod k) by done.
  assert (0 < 2 ^ k) as Hp by lia. pose proof (Z.mod_pos_bound x (2 ^ k) Hp) as [? ?].
  by apply Z2Nat.inj_lt; [|apply Z.lt_le_incl|].
Qed.

Lemma mod_window P a x y : 0 < P -> a <= x < a + P -> a <= y < a + P -> x mod P = y mod P -> x = y.
Proof.
  intros HP Hx Hy E. pose proof (Z.div_mod x P ltac:(lia)) as Ex. pose proof (Z.div_mod y P ltac:(lia)) as Ey.
  rewrite E in Ex. assert (x / P = y / P) by nia. nia.
Qed.

(** Two tickets of one window that use the same slot are the same. *)
Lemma slot_inj k m a x y :
  0 <= k -> mb_mask m = 2 ^ k - 1 -> a <= x < a + 2 ^ k -> a <= y < a + 2 ^ k -> mb_slot m x = mb_slot m y -> x = y.
Proof.
  intros Hk Hm Hx Hy E. rewrite !(mb_slot_mod k) in E by done. assert (0 < 2 ^ k) as Hp by lia.
  pose proof (Z.mod_pos_bound x (2 ^ k) Hp). pose proof (Z.mod_pos_bound y (2 ^ k) Hp).
  apply Z2Nat.inj in E; [|lia|lia]. by apply (mod_window (2 ^ k) a).
Qed.

(** The ticket of the window that uses the slot of [x]. *)
Lemma slot_window k m a x :
  0 <= k -> mb_mask m = 2 ^ k - 1 ->
  exists t, a <= t < a + 2 ^ k /\ mb_slot m t = mb_slot m x /\ (x - t) mod 2 ^ k = 0.
Proof.
  intros Hk Hm. assert (0 < 2 ^ k) as Hp by lia. exists (a + (x - a) mod 2 ^ k).
  pose proof (Z.mod_pos_bound (x - a) (2 ^ k) Hp).
  assert ((x - (a + (x - a) mod 2 ^ k)) mod 2 ^ k = 0) as E.
  { replace (x - (a + (x - a) mod 2 ^ k)) with ((x - a) / 2 ^ k * 2 ^ k) by (pose proof (Z.div_mod (x - a) (2 ^ k) ltac:(lia)); lia).
    apply Z.mod_mul. lia. }
  split; [lia|]. split; [|done]. rewrite !(mb_slot_mod k) by done. f_equal.
  rewrite Z.add_mod_idemp_r by lia. f_equal. lia.
Qed.

(** ** Consequences of the invariant *)

Lemma eff_tail_le k c : mb_inv k c -> eff_tail c <= mb_tail (cf_mb c) /\ 0 <= eff_tail c.
Proof.
  intros I. pose proof (iv_cons _ _ I) as Hc. pose proof (iv_tail _ _ I). pose proof (zlen_nonneg (cf_popped c)).
  unfold eff_tail, cons_ok in *. destruct (cf_cons c); lia.
Qed.

Lemma ticket_lt ts t x : ticket ts t = Some x -> t < zlen ts.
Proof. unfold ticket, zlen. intros E%lookup_lt_Some. lia. Qed.

(** A ticket that is not published has not been taken. *)
Lemma ticket_pending k c t x :
  mb_inv k c -> 0 <= t -> ticket (cf_tickets c) t = Some x -> (forall v, x <> Published v) ->
  mb_tail (cf_mb c) <= t < mb_head (cf_mb c).
Proof.
  intros I Ht E Hx. rewrite (iv_head _ _ I). split; [|by eapply ticket_lt]. rewrite (iv_tail _ _ I).
  destruct (decide (zlen (cf_popped c) <= t)); [done|].
  destruct (iv_popped _ _ I (Z.to_nat t)) as (v & Hv & _); [unfold zlen in *; lia|].
  unfold ticket in E. rewrite E in Hv. simplify_eq. by destruct (Hx v).
Qed.

Lemma owned_pending k c p t v :
  mb_inv k c -> 0 <= t -> ticket (cf_tickets c) t = Some (Owned p v) -> mb_tail (cf_mb c) <= t < mb_head (cf_mb c).
Proof. intros I Ht E. by apply (ticket_pending k c t (Owned p v)). Qed.

(** Tickets from the effective tail on are in the window. *)
Lemma pending_window k c t :
  mb_inv k c -> eff_tail c <= t < mb_head (cf_mb c) -> eff_tail c <= t < eff_tail c + 2 ^ k.
Proof. intros I H. pose proof (iv_order _ _ I). lia. Qed.

Lemma slot_ne k c t t' :
  mb_inv k c -> eff_tail c <= t < eff_tail c + 2 ^ k -> eff_tail c <= t' < eff_tail c + 2 ^ k -> t <> t' ->
  mb_slot (cf_mb c) t <> mb_slot (cf_mb c) t'.
Proof.
  intros I Ht Ht' Hne E. apply Hne. pose proof (iv_k _ _ I).
  by apply (slot_inj k (cf_mb c) (eff_tail c)); [lia|apply I|..].
Qed.

Lemma expected_range ts t : t <= expected ts t <= t + 1.
Proof. unfold expected. destruct (ticket ts t) as [[]|]; lia. Qed.

(** ** Steps that leave the slots and the tickets alone *)

Definition core c : Z * Z * Z * list Z * list (option T) * list (Ticket T) * list (option T) * Z :=
  (mb_mask (cf_mb c), mb_head (cf_mb c), mb_tail (cf_mb c), mb_sequence (cf_mb c), mb_data (cf_mb c),
   cf_tickets c, cf_popped c, eff_tail c).

Lemma pc_ok_core c c' p pc : core c' = core c -> pc_ok c p pc -> pc_ok c' p pc.
Proof.
  unfold core. intros [= E1 E2 E3 E4 E5 E6 E7 E8]. unfold pc_ok, mb_slot. by rewrite E1, E2, E5, E6, E8.
Qed.

Lemma inv_core k c c' :
  mb_inv k c -> core c' = core c -> (forall p pc, cf_prods c' !! p = Some pc -> pc_ok c p pc) ->
  (cons_ok c -> cons_ok c') -> mb_inv k c'.
Proof.
  intros I E Hp Hc. pose proof (fun p pc => pc_ok_core c c' p pc E) as Hpc.
  destruct I as [Hk Hm Hl Hh Ht Ho Hs Hd Hpop _ Hcons]. unfold core in E. injection E as E1 E2 E3 E4 E5 E6 E7 E8.
  split; rewrite ?E1, ?E2, ?E3, ?E4, ?E5, ?E6, ?E7, ?E8; try done.
  - intros t. unfold mb_seq_of, mb_slot. rewrite E1, E4. apply Hs.
  - intros t v. unfold mb_slot. rewrite E1. apply Hd.
  - intros p pc Hpp. apply Hpc. by apply Hp.
  - by apply Hc.
Qed.

(** Replacing one producer's position by one that is fine. *)
Lemma inv_prod k c p pc m :
  mb_inv k c -> pc_ok c p pc ->
  core (MkConfig m (<[p := pc]> (cf_prods c)) (cf_cons c) (cf_tickets c) (cf_popped c)) = core c ->
  mb_inv k (MkConfig m (<[p := pc]> (cf_prods c)) (cf_cons c) (cf_tickets c) (cf_popped c)).
Proof.
  intros I Hpc E. apply (inv_core k c); [done|done| |].
  - cbn. intros p' pc'. rewrite lookup_insert_Some. intros [[<- <-]|[_ H]]; [done|by apply I].
  - unfold core in E. injection E as E1 E2 E3 E4 E5 E8. unfold cons_ok. cbn [cf_cons cf_tickets cf_mb].
    by rewrite E3.
Qed.

(** ** The steps of a producer *)

Lemma s64_id x : 0 <= x < 2 ^ 63 -> s64 x = x.
Proof. intros [_ H]. unfold s64. by rewrite (proj2 (Z.ltb_lt _ _)). Qed.

Lemma pow2_bound k : 1 <= k <= 62 -> 2 <= 2 ^ k <= 2 ^ 62.
Proof. intros Hk. split; [change 2 with (2 ^ 1) at 1|]; apply Z.pow_le_mono_r; lia. Qed.

(** The slot a producer looks at belongs to one ticket of the window. *)
Lemma seq_of_any k c h :
  mb_inv k c -> exists t, eff_tail c <= t < eff_tail c + 2 ^ k /\ (h - t) mod 2 ^ k = 0 /\
    mb_seq_of (cf_mb c) h = Some (expected (cf_tickets c) t).
Proof.
  intros I. pose proof (iv_k _ _ I). destruct (slot_window k (cf_mb c) (eff_tail c) h) as (t & Ht & Es & Em); [lia|apply I|].
  exists t. split; [done|]. split; [done|]. unfold mb_seq_of. rewrite <-Es. by apply I.
Qed.

(** A slot whose sequence number is the ticket has room for it. *)
Lemma seq_free k c h :
  mb_inv k c -> mb_seq_of (cf_mb c) h = Some h -> eff_tail c <= h < eff_tail c + 2 ^ k.
Proof.
  intros I E. destruct (seq_of_any k c h I) as (t & Ht & Em & E'). rewrite E' in E. injection E as E.
  pose proof (pow2_bound k (iv_k _ _ I)). pose proof (expected_range (cf_tickets c) t).
  destruct (decide (h = t)) as [->|Hne]; [done|]. replace (h - t) with 1 in Em by lia.
  rewrite Z.mod_small in Em by lia. lia.
Qed.

Lemma seq_bound k c h s :
  mb_inv k c -> zlen (cf_tickets c) < 2 ^ 62 -> mb_seq_of (cf_mb c) h = Some s -> 0 <= s < 2 ^ 63.
Proof.
  intros I Hb E. destruct (seq_of_any k c h I) as (t & Ht & _ & E'). rewrite E' in E. injection E as <-.
  pose proof (expected_range (cf_tickets c) t). pose proof (eff_tail_le k c I). pose proof (pow2_bound k (iv_k _ _ I)).
  pose proof (iv_order _ _ I). pose proof (iv_head _ _ I). lia.
Qed.

Lemma step_load_seq k c p spurious blk v h pc :
  mb_inv k c -> zlen (cf_tickets c) < 2 ^ 62 -> 0 <= h <= mb_head (cf_mb c) ->
  producer_step p spurious (PLoadSeq blk v h) (cf_mb c) (cf_tickets c) = Some (pc, cf_mb c, cf_tickets c) -> pc_ok c p pc.
Proof.
  intros I Hb Hh. cbn. destruct (mb_seq_of (cf_mb c) h) as [s|] eqn:E; [|done]. cbn. intros [= <-].
  pose proof (seq_bound k c h s I Hb E). rewrite (iv_head _ _ I) in Hh.
  rewrite !s64_id by lia. destruct (Z.eqb_spec (s - h) 0).
  - assert (s = h) as -> by lia. cbn. rewrite (iv_head _ _ I). split; [done|].
    apply (seq_free k c h I) in E. rewrite (iv_mask _ _ I). lia.
  - destruct (s - h <? 0); [by destruct blk|done].
Qed.

(** Another ticket's owner does not notice an append or a change of status. *)
Lemma ticket_app ts x t : 0 <= t < zlen ts -> ticket (ts ++ [x]) t = ticket ts t.
Proof. intros H. unfold ticket. apply lookup_app_l. unfold zlen in H. lia. Qed.

Lemma ticket_insert_ne ts t t' x : 0 <= t -> 0 <= t' -> t <> t' -> ticket (<[Z.to_nat t := x]> ts) t' = ticket ts t'.
Proof. intros H1 H2 Hne. unfold ticket. apply list_lookup_insert_ne. lia. Qed.

Lemma ticket_insert ts t x : 0 <= t < zlen ts -> ticket (<[Z.to_nat t := x]> ts) t = Some x.
Proof. intros H. unfold ticket. apply list_lookup_insert_eq. unfold zlen in H. lia. Qed.

Lemma expected_eq ts ts' t : ticket ts' t = ticket ts t -> expected ts' t = expected ts t.
Proof. unfold expected. by intros ->. Qed.

Lemma step_cas k c p blk v h :
  mb_inv k c -> zlen (cf_tickets c) + 1 < 2 ^ 62 -> mb_head (cf_mb c) = h -> h < eff_tail c + 2 ^ k ->
  mb_inv k (MkConfig (with_head (u64 (h + 1)) (cf_mb c)) (<[p := PClosed blk v h]> (cf_prods c)) (cf_cons c)
             (cf_tickets c ++ [Owned p v]) (cf_popped c)).
Proof.
  intros I Hb Hh Hroom. pose proof (eff_tail_le k c I) as He. pose proof (zlen_nonneg (cf_tickets c)).
  pose proof (iv_head _ _ I) as Eh. rewrite u64_id by (unfold is_u64; lia).
  set (c' := MkConfig _ _ _ _ _). assert (eff_tail c' = eff_tail c) as Ee by done.
  assert (forall t x, 0 <= t -> ticket (cf_tickets c) t = Some x -> ticket (cf_tickets c') t = Some x) as Hold.
  { intros t x Ht E. cbn. rewrite ticket_app; [done|]. apply ticket_lt in E. lia. }
  assert (ticket (cf_tickets c ++ [Owned p v]) h = Some (Owned p v)) as Hnew.
  { unfold ticket. rewrite lookup_app_r by (unfold zlen in *; lia).
    replace (Z.to_nat h - length (cf_tickets c))%nat with 0%nat by (unfold zlen in *; lia). done. }
  assert (forall t x, 0 <= t -> ticket (cf_tickets c') t = Some (Published x) -> ticket (cf_tickets c) t = Some (Published x)) as Hpub.
  { intros t x Ht E. cbn in E. destruct (decide (t = h)) as [->|Hne]; [by rewrite Hnew in E|].
    rewrite ticket_app in E; [done|]. apply ticket_lt in E. unfold zlen in *. rewrite length_app in E. cbn in E. lia. }
  destruct I as [Hk Hm Hl _ Ht Ho Hs Hd Hpop Hpr Hcons]. split; cbn [cf_mb cf_prods cf_cons cf_tickets cf_popped c' with_head
    mb_mask mb_head mb_tail mb_sequence mb_data]; try done.
  - unfold zlen in *. rewrite length_app. cbn. lia.
  - rewrite Ee. lia.
  - intros t Hw. rewrite Ee in Hw. change (mb_seq_of _ t) with (mb_seq_of (cf_mb c) t). rewrite Hs by done. f_equal.
    unfold expected. destruct (decide (t = h)) as [->|Hne].
    + rewrite Hnew. destruct (ticket (cf_tickets c) h) eqn:E; [apply ticket_lt in E; lia|done].
    + destruct (decide (t < h)); [by rewrite ticket_app by lia|].
      unfold ticket. rewrite !lookup_ge_None_2; [done| |]; rewrite ?length_app; cbn; unfold zlen in *; lia.
  - intros t x Hge E. apply Hd; [done|]. apply Hpub; [pose proof (zlen_nonneg (cf_popped c)); lia|done].
  - intros i Hi. destruct (Hpop i Hi) as (x & Hx & Hy). exists x. split; [by apply lookup_app_l_Some|done].
  - intros q pc. rewrite lookup_insert_Some. intros [[<- <-]|[Hne Hq]].
    + cbn. split; [lia|]. done.
    + specialize (Hpr q pc Hq). destruct pc; cbn in *; try done; rewrite ?Ee.
      * lia.
      * split; [lia|]. change (eff_tail c') with (eff_tail c). tauto.
      * destruct Hpr. split; [done|by apply Hold].
      * destruct Hpr. split; [done|by apply Hold].
      * destruct Hpr. split; [done|by apply Hold].
      * destruct Hpr as (? & ? & ?). split; [done|]. split; [by apply Hold|done].
  - unfold cons_ok in *. cbn. destruct (cf_cons c); try done. destruct Hcons as [x Hx]. exists x. apply Hold; [|done].
    pose proof (zlen_nonneg (cf_popped c)). lia.
Qed.

(** A position at which a producer holds no ticket. *)
Definition no_ticket (pc : ProducerPc T) : Prop := forall c p, pc_ok c p pc.

(** Settling a ticket: the owner publishes it or gives it up. *)
Lemma step_settle k c p v h x s pc :
  mb_inv k c -> 0 <= h -> ticket (cf_tickets c) h = Some (Owned p v) ->
  match x with
  | Reverted => s = h
  | Published v' => s = h + 1 /\ v' = v /\ mb_data (cf_mb c) !! mb_slot (cf_mb c) h = Some (Some v)
  | Owned _ _ => False
  end -> no_ticket pc ->
  mb_inv k (MkConfig (with_seq h s (cf_mb c)) (<[p := pc]> (cf_prods c)) (cf_cons c)
             (<[Z.to_nat h := x]> (cf_tickets c)) (cf_popped c)).
Proof.
  intros I Hh0 Eh Hx Hpc. pose proof (eff_tail_le k c I) as He. pose proof (owned_pending k c p h v I Hh0 Eh) as Hpend.
  pose proof (pending_window k c h I ltac:(lia)) as Hwin. pose proof (ticket_lt _ _ _ Eh) as Hlt.
  assert (forall t q w, 0 <= t -> ticket (cf_tickets c) t = Some (Owned q w) -> q <> p ->
    ticket (<[Z.to_nat h := x]> (cf_tickets c)) t = Some (Owned q w)) as Hown.
  { intros t q w Ht E Hq. rewrite ticket_insert_ne; [done|done|done|]. intros ->. rewrite Eh in E. congruence. }
  pose proof (fun t => slot_ne k c t h I) as Hslot.
  destruct I as [Hk Hm Hl Hhd Ht Ho Hs Hd Hpop Hpr Hcons].
  split; cbn [cf_mb cf_prods cf_cons cf_tickets cf_popped with_seq mb_mask mb_head mb_tail mb_sequence mb_data]; try done.
  - by rewrite length_insert.
  - unfold zlen in *. by rewrite length_insert.
  - intros t Hw. change (eff_tail _) with (eff_tail c) in Hw. unfold mb_seq_of. cbn [with_seq mb_sequence].
    change (mb_slot (with_seq h s (cf_mb c)) t) with (mb_slot (cf_mb c) t).
    destruct (decide (t = h)) as [->|Hne].
    + rewrite list_lookup_insert_eq by (destruct Hl as [-> _]; apply slot_lt; [lia|done]).
      f_equal. unfold expected. rewrite ticket_insert by lia. destruct x; [done|done|]. by destruct Hx as (-> & _).
    + rewrite list_lookup_insert_ne by (apply not_eq_sym; by apply Hslot).
      unfold mb_seq_of in Hs. rewrite Hs by done. f_equal. symmetry. apply expected_eq, ticket_insert_ne; [done|lia|done].
  - intros t w Hge E. change (mb_slot _ t) with (mb_slot (cf_mb c) t). destruct (decide (t = h)) as [->|Hne].
    + rewrite ticket_insert in E by lia. destruct x; simplify_eq. destruct Hx as (_ & -> & Hdata). done.
    + apply Hd; [done|]. rewrite ticket_insert_ne in E; [done|done| |done]. pose proof (zlen_nonneg (cf_popped c)). lia.
  - intros i Hi. destruct (Hpop i Hi) as (w & Hw & Hy). exists w. split; [|done].
    rewrite list_lookup_insert_ne; [done|]. unfold zlen in *. lia.
  - intros q pc'. rewrite lookup_insert_Some. intros [[<- <-]|[Hne Hq]]; [apply Hpc|].
    specialize (Hpr q pc' Hq). destruct pc'; cbn in *; try done.
    1-3: destruct Hpr; split; [done|by apply Hown].
    destruct Hpr as (? & ? & ?). split; [done|]. split; [by apply Hown|done].
  - unfold cons_ok in *. cbn. destruct (cf_cons c); try done. destruct Hcons as [w Hw]. exists w.
    rewrite ticket_insert_ne; [done|done|pose proof (zlen_nonneg (cf_popped c)); lia|]. intros ->. by rewrite Eh in Hw.
Qed.

(** Writing the slot of a ticket one owns. *)
Lemma step_write k c p v h :
  mb_inv k c -> 0 <= h -> ticket (cf_tickets c) h = Some (Owned p v) ->
  mb_inv k (MkConfig (with_data h (Some v) (cf_mb c)) (<[p := PPublish v h]> (cf_prods c)) (cf_cons c)
             (cf_tickets c) (cf_popped c)).
Proof.
  intros I Hh0 Eh. pose proof (eff_tail_le k c I) as He. pose proof (owned_pending k c p h v I Hh0 Eh) as Hpend.
  pose proof (pending_window k c h I ltac:(lia)) as Hwin.
  assert (forall t, mb_tail (cf_mb c) <= t < mb_head (cf_mb c) -> t <> h -> mb_slot (cf_mb c) h <> mb_slot (cf_mb c) t) as Hslot.
  { intros t Ht Hne. apply (slot_ne k c); [done|done| |done]. apply pending_window; [done|lia]. }
  assert (forall q t w, ticket (cf_tickets c) t = Some (Owned q w) -> 0 <= t -> mb_tail (cf_mb c) <= t < mb_head (cf_mb c)) as Hown
    by (intros; by eapply owned_pending).
  destruct I as [Hk Hm Hl Hhd Ht Ho Hs Hd Hpop Hpr Hcons].
  split; cbn [cf_mb cf_prods cf_cons cf_tickets cf_popped with_data mb_mask mb_head mb_tail mb_sequence mb_data]; try done.
  - by rewrite length_insert.
  - intros t w Hge E. change (mb_slot _ t) with (mb_slot (cf_mb c) t). rewrite list_lookup_insert_ne; [by apply Hd|].
    apply Hslot; [|intros ->; by rewrite Eh in E]. apply ticket_lt in E. lia.
  - intros q pc. rewrite lookup_insert_Some. intros [[<- <-]|[Hne Hq]].
    + cbn [pc_ok cf_tickets]. split; [done|]. split; [done|].
      change (mb_slot _ h) with (mb_slot (cf_mb c) h). apply list_lookup_insert_eq.
      destruct Hl as [_ ->]. apply slot_lt; [lia|done].
    + specialize (Hpr q pc Hq). destruct pc; cbn in *; try done.
      destruct Hpr as (H1 & H2 & H3). split; [done|]. split; [done|].
      change (mb_slot _ head) with (mb_slot (cf_mb c) head). rewrite list_lookup_insert_ne; [done|].
      apply Hslot; [by eapply Hown|]. intros ->. rewrite Eh in H2. congruence.
Qed.

Lemma producer_step_inv k c p spurious pc pc' m ts :
  mb_inv k c -> cf_prods c !! p = Some pc -> zlen ts < 2 ^ 62 ->
  producer_step p spurious pc (cf_mb c) (cf_tickets c) = Some (pc', m, ts) ->
  mb_inv k (MkConfig m (<[p := pc']> (cf_prods c)) (cf_cons c) ts (cf_popped c)).
Proof.
  intros I Hp Hb E. pose proof (iv_prods _ _ I p pc Hp) as Hpc.
  destruct pc as [r|v|blk v|blk v h|blk v h|blk v h|blk v h|v h|v h|]; cbn [producer_step] in E.
  - done.
  - simplify_eq. apply inv_prod; [done|by destruct (mb_closed _)|done].
  - simplify_eq. apply inv_prod; [done| |done]. cbn. rewrite (iv_head _ _ I). pose proof (zlen_nonneg (cf_tickets c)). lia.
  - destruct (mb_seq_of (cf_mb c) h) as [s|] eqn:Es; [|done]. cbn in E. simplify_eq.
    apply inv_prod; [done| |done].
    eapply (step_load_seq k c p spurious blk v h); [done|done|done|]. cbn. by rewrite Es.
  - destruct (Z.eqb_spec (mb_head (cf_mb c)) h); cbn [andb] in E; [destruct spurious|]; cbn [negb] in E; simplify_eq.
    + apply inv_prod; [done| |done]. cbn. rewrite (iv_head _ _ I). pose proof (zlen_nonneg (cf_tickets c)). lia.
    + apply step_cas; [done| |done|].
      * unfold zlen in *. rewrite length_app in Hb. cbn in Hb. lia.
      * destruct Hpc as [_ Hr]. rewrite (iv_mask _ _ I) in Hr. lia.
    + apply inv_prod; [done| |done]. cbn. rewrite (iv_head _ _ I). pose proof (zlen_nonneg (cf_tickets c)). lia.
  - simplify_eq. apply inv_prod; [done| |done]. by destruct (mb_closed _).
  - simplify_eq. destruct Hpc as [H1 H2]. apply (step_settle k c p v h Reverted); try done. by destruct blk.
  - simplify_eq. destruct Hpc as [H1 H2]. by apply step_write.
  - simplify_eq. destruct Hpc as (H1 & H2 & H3). pose proof (ticket_lt _ _ _ H2) as Hlt.
    unfold zlen in Hb, Hlt. rewrite length_insert in Hb. rewrite u64_id by (unfold is_u64; lia).
    by apply (step_settle k c p v h (Published v)).
  - simplify_eq. by apply inv_prod.
Qed.

(** ** The steps of the consumer *)

(** Moving the consumer to a position that holds no slot. *)
Lemma inv_cons k c pc m :
  mb_inv k c ->
  core (MkConfig m (cf_prods c) pc (cf_tickets c) (cf_popped c)) = core c ->
  cons_ok (MkConfig m (cf_prods c) pc (cf_tickets c) (cf_popped c)) ->
  mb_inv k (MkConfig m (cf_prods c) pc (cf_tickets c) (cf_popped c)).
Proof. intros I E Hc. apply (inv_core k c); [done|done|apply I|done]. Qed.

(** The number the consumer waits for is there exactly when its ticket is published. *)
Lemma ready_published k c s :
  mb_inv k c -> zlen (cf_tickets c) < 2 ^ 62 -> eff_tail c = mb_tail (cf_mb c) ->
  mb_seq_of (cf_mb c) (mb_tail (cf_mb c)) = Some s ->
  s64 s - s64 (u64 (mb_tail (cf_mb c) + 1)) = 0 <->
  exists v, ticket (cf_tickets c) (mb_tail (cf_mb c)) = Some (Published v).
Proof.
  intros I Hb Ee Es. pose proof (seq_bound k c _ s I Hb Es). pose proof (iv_order _ _ I) as Ho.
  pose proof (iv_head _ _ I). pose proof (iv_tail _ _ I). pose proof (zlen_nonneg (cf_popped c)).
  pose proof (pow2_bound k (iv_k _ _ I)).
  rewrite u64_id by (unfold is_u64; lia). rewrite !s64_id by lia.
  rewrite (iv_seq _ _ I) in Es by lia. injection Es as <-. unfold expected.
  destruct (ticket (cf_tickets c) (mb_tail (cf_mb c))) as [[]|].
  1-2: split; [lia|by intros [? ?]].
  - split; [by eexists|lia].
  - split; [lia|by intros [? ?]].
Qed.

Lemma step_take k c v d :
  mb_inv k c -> zlen (cf_tickets c) < 2 ^ 62 -> cf_cons c = CTake ->
  ticket (cf_tickets c) (mb_tail (cf_mb c)) = Some (Published v) ->
  mb_data (cf_mb c) !! mb_slot (cf_mb c) (mb_tail (cf_mb c)) = Some d ->
  d = Some v /\
  mb_inv k (MkConfig (with_tail (u64 (mb_tail (cf_mb c) + 1)) (with_data (mb_tail (cf_mb c)) None (cf_mb c)))
             (cf_prods c) (CRelease (mb_tail (cf_mb c)) d) (cf_tickets c) (cf_popped c ++ [d])).
Proof.
  intros I Hb Ec Ev Ed. assert (d = Some v) as -> by (rewrite (iv_data _ _ I _ v) in Ed by done; by simplify_eq).
  split; [done|]. pose proof (eff_tail_le k c I) as He. assert (eff_tail c = mb_tail (cf_mb c)) as Ee by (unfold eff_tail; by rewrite Ec).
  pose proof (ticket_lt _ _ _ Ev) as Hlt. rewrite u64_id by (unfold is_u64; lia).
  assert (forall t, mb_tail (cf_mb c) < t < mb_head (cf_mb c) -> mb_slot (cf_mb c) (mb_tail (cf_mb c)) <> mb_slot (cf_mb c) t) as Hslot.
  { intros t Ht. apply (slot_ne k c); [done|apply pending_window; [done|]..|]; pose proof (iv_head _ _ I); lia. }
  assert (forall q t w, ticket (cf_tickets c) t = Some (Owned q w) -> 0 <= t -> mb_tail (cf_mb c) < t < mb_head (cf_mb c)) as Hown.
  { intros q t w E Ht. pose proof (owned_pending k c q t w I Ht E). destruct (decide (t = mb_tail (cf_mb c))) as [->|]; [|lia].
    by rewrite Ev in E. }
  set (c' := MkConfig _ _ _ _ _). assert (eff_tail c' = eff_tail c) as Ee' by (by rewrite Ee).
  destruct I as [Hk Hm Hl Hhd Ht Ho Hs Hd Hpop Hpr Hcons].
  split; cbn [cf_mb cf_prods cf_cons cf_tickets cf_popped c' with_tail with_data mb_mask mb_head mb_tail mb_sequence mb_data]; try done.
  - by rewrite length_insert.
  - rewrite Ht. unfold zlen. rewrite length_app. cbn. lia.
  - rewrite Ee'. lia.
  - intros t Hw. rewrite Ee' in Hw. change (mb_seq_of _ t) with (mb_seq_of (cf_mb c) t). by apply Hs.
  - intros t w Hge E. change (mb_slot _ t) with (mb_slot (cf_mb c) t). rewrite list_lookup_insert_ne; [apply Hd; [lia|done]|].
    apply Hslot. apply ticket_lt in E. lia.
  - intros i Hi. rewrite length_app in Hi. cbn in Hi. destruct (decide (i < length (cf_popped c))%nat) as [Hi'|Hi'].
    + destruct (Hpop i Hi') as (w & Hw & Hy). exists w. split; [done|]. by apply lookup_app_l_Some.
    + assert (i = length (cf_popped c)) as -> by lia. exists v. split; [|by rewrite lookup_app_r, Nat.sub_diag by lia].
      unfold ticket in Ev. rewrite Ht in Ev. unfold zlen in Ev. by rewrite Nat2Z.id in Ev.
  - intros q pc Hq. specialize (Hpr q pc Hq). destruct pc; cbn in Hpr |- *; rewrite ?Ee in Hpr; try done.
    destruct Hpr as (H1 & H2 & H3). split; [done|]. split; [done|].
    change (mb_slot _ head) with (mb_slot (cf_mb c) head). rewrite list_lookup_insert_ne; [done|].
    apply Hslot. by eapply Hown.
  - cbn. lia.
Qed.

Lemma step_release k c t d :
  mb_inv k c -> zlen (cf_tickets c) < 2 ^ 62 -> cf_cons c = CRelease t d ->
  mb_inv k (MkConfig (with_seq t (u64 (t + mb_mask (cf_mb c) + 1)) (cf_mb c)) (cf_prods c) (CSub d) (cf_tickets c) (cf_popped c)).
Proof.
  intros I Hb Ec. pose proof (eff_tail_le k c I) as He. assert (eff_tail c = t) as Ee by (unfold eff_tail; by rewrite Ec).
  pose proof (iv_cons _ _ I) as Hcons. unfold cons_ok in Hcons. rewrite Ec in Hcons. destruct Hcons as [Ht0 Htail].
  pose proof (pow2_bound k (iv_k _ _ I)) as Hpow. pose proof (iv_order _ _ I) as Ho. pose proof (iv_head _ _ I) as Hhd.
  rewrite (iv_mask _ _ I). replace (t + (2 ^ k - 1) + 1) with (t + 2 ^ k) by lia. rewrite u64_id by (unfold is_u64; lia).
  set (c' := MkConfig _ _ _ _ _). assert (eff_tail c' = t + 1) as Ee' by (unfold eff_tail; cbn; lia).
  assert (mb_slot (cf_mb c) (t + 2 ^ k) = mb_slot (cf_mb c) t) as Eslot.
  { pose proof (iv_k _ _ I). rewrite !(mb_slot_mod k) by (lia || apply I). f_equal.
    rewrite <-(Z.mul_1_l (2 ^ k)) at 1. apply Z.mod_add. lia. }
  pose proof (fun x => slot_ne k c t x I) as Hslot. rewrite Ee in Hslot.
  destruct I as [Hk Hm Hl _ Ht _ Hs Hd Hpop Hpr _]. rewrite Ee in Hs.
  split; cbn [cf_mb cf_prods cf_cons cf_tickets cf_popped c' with_seq mb_mask mb_head mb_tail mb_sequence mb_data]; try done.
  - by rewrite length_insert.
  - rewrite Ee'. lia.
  - intros x Hw. rewrite Ee' in Hw. unfold mb_seq_of. cbn [with_seq mb_sequence].
    change (mb_slot (with_seq t (t + 2 ^ k) (cf_mb c)) x) with (mb_slot (cf_mb c) x).
    destruct (decide (x = t + 2 ^ k)) as [->|Hne].
    + rewrite Eslot, list_lookup_insert_eq by (destruct Hl as [-> _]; apply slot_lt; [lia|done]). f_equal.
      unfold expected, ticket. rewrite lookup_ge_None_2; [done|]. unfold zlen in *. lia.
    + rewrite list_lookup_insert_ne by (apply Hslot; lia). apply Hs. lia.
  - intros q pc Hq. specialize (Hpr q pc Hq). destruct pc; cbn in *; try done.
    rewrite Ee in Hpr. split; [tauto|]. change (eff_tail _) with (eff_tail c'). lia.
Qed.

Lemma consumer_step_inv k c expired pc m popped :
  mb_inv k c -> zlen (cf_tickets c) < 2 ^ 62 ->
  consumer_step expired (cf_cons c) (cf_mb c) (cf_popped c) = Some (pc, m, popped) ->
  mb_inv k (MkConfig m (cf_prods c) pc (cf_tickets c) popped).
Proof.
  intros I Hb E. pose proof (iv_cons _ _ I) as Hc. unfold cons_ok in Hc.
  destruct (cf_cons c) as [r|kd| |t d|d|kd|kd|] eqn:Ec; cbn [consumer_step] in E.
  - done.
  - destruct (mb_seq_of (cf_mb c) (mb_tail (cf_mb c))) as [s|] eqn:Es; [|done]. cbn in E. simplify_eq.
    assert (eff_tail c = mb_tail (cf_mb c)) as Ee by (unfold eff_tail; by rewrite Ec).
    destruct (Z.eqb_spec (s64 s - s64 (u64 (mb_tail (cf_mb c) + 1))) 0) as [Hz|Hz].
    + apply inv_cons; [done|unfold core, eff_tail; by rewrite Ec|]. by apply (ready_published k c s I Hb Ee Es).
    + apply inv_cons; [done|unfold core, eff_tail; rewrite Ec; by destruct kd|by destruct kd].
  - destruct (mb_data (cf_mb c) !! _) as [d|] eqn:Ed; [|done]. cbn in E. simplify_eq.
    destruct Hc as [v Hv]. by apply (step_take k c v d).
  - simplify_eq. by apply step_release.
  - simplify_eq. apply inv_cons; [done|unfold core, eff_tail; by rewrite Ec|done].
  - simplify_eq. apply inv_cons; [done|unfold core, eff_tail; rewrite Ec|]; by destruct (mb_closed _), kd.
  - simplify_eq. apply inv_cons; [done|unfold core, eff_tail; rewrite Ec|]; by destruct (mb_size _ =? 0), kd.
  - simplify_eq. apply inv_cons; [done|unfold core, eff_tail; rewrite Ec|]; by destruct expired.
Qed.

(** ** Every schedule *)

Lemma mb_step_inv k c a c' :
  mb_inv k c -> zlen (cf_tickets c') < 2 ^ 62 -> mb_step a c = Some c' -> mb_inv k c'.
Proof.
  intros I Hb E. destruct a as [p blk v|p spurious|kd|expired|]; cbn [mb_step] in E.
  - destruct (is_idle _); [|done]. simplify_eq. apply inv_prod; [done|by destruct blk|done].
  - destruct (cf_prods c !! p) as [pc|] eqn:Ep; [|done]. cbn [mbind option_bind] in E.
    destruct (producer_step _ _ _ _ _) as [[[pc' m] ts]|] eqn:Es; [|done]. cbn in E. simplify_eq.
    by eapply producer_step_inv.
  - destruct (cf_cons c) eqn:Ec; simplify_eq. apply inv_cons; [done|unfold core, eff_tail; by rewrite Ec|done].
  - destruct (consumer_step _ _ _ _) as [[[pc m] popped]|] eqn:Es; [|done]. cbn in E. simplify_eq.
    by eapply consumer_step_inv.
  - simplify_eq. apply (inv_core k c); [done|done|apply I|done].
Qed.

Lemma mb_step_tickets c a c' : mb_step a c = Some c' -> (length (cf_tickets c) <= length (cf_tickets c'))%nat.
Proof.
  destruct a as [p blk v|p spurious|kd|expired|]; cbn [mb_step]; intros E.
  - destruct (is_idle _); by simplify_eq.
  - destruct (cf_prods c !! p) as [pc|]; [|done]. cbn [mbind option_bind] in E.
    destruct pc as [| | |blk v h|blk v h| | | | |]; cbn in E.
    4: destruct (mb_seq_of (cf_mb c) h); [|done]; cbn in E.
    5: destruct ((mb_head (cf_mb c) =? h) && negb spurious).
    all: simplify_eq/=; rewrite ?length_insert, ?length_app; lia.
  - destruct (cf_cons c); by simplify_eq.
  - destruct (consumer_step _ _ _ _) as [[[pc m] popped]|]; by simplify_eq/=.
  - by simplify_eq.
Qed.

Lemma mb_run_inv k acts c c' :
  mb_inv k c -> mb_run acts c = Some c' -> zlen (cf_tickets c') < 2 ^ 62 -> mb_inv k c' /\ zlen (cf_tickets c) <= zlen (cf_tickets c').
Proof.
  revert c. induction acts as [|a acts IH]; cbn; intros c I E Hb; [by simplify_eq|].
  destruct (mb_step a c) as [c1|] eqn:E1; [|done]. cbn in E. pose proof (mb_step_tickets c a c1 E1) as Hm.
  enough (mb_inv k c1) as I1 by (destruct (IH c1 I1 E Hb); split; [done|unfold zlen in *; lia]).
  eapply mb_step_inv; [exact I| |exact E1].
  assert (forall acts c c', mb_run acts c = Some c' -> (length (cf_tickets c) <= length (cf_tickets c'))%nat) as Hmono.
  { clear. intros acts. induction acts as [|a acts IH]; cbn; intros c c' E; [by simplify_eq|].
    destruct (mb_step a c) as [c1|] eqn:E1; [|done]. cbn in E. apply IH in E. apply mb_step_tickets in E1. lia. }
  apply Hmono in E. unfold zlen in *. lia.
Qed.

Lemma mb_init_inv capacity :
  2 <= capacity <= 2 ^ 62 -> mb_inv (Z.log2_up capacity) (mb_init (T := T) capacity).
Proof.
  intros Hc. set (k := Z.log2_up capacity).
  assert (1 <= k <= 62) as Hk.
  { split; [apply (Z.log2_up_le_mono 2); lia|]. subst k. replace 62 with (Z.log2_up (2 ^ 62)) by done. apply Z.log2_up_le_mono. lia. }
  pose proof (pow2_bound k Hk) as Hp.
  assert (u64 (mb_RoundUpPow2 capacity - 1) = 2 ^ k - 1) as Em.
  { rewrite mb_RoundUpPow2_spec by lia. apply u64_id. fold k. unfold is_u64. lia. }
  unfold mb_init, mb_new. rewrite Em. replace (2 ^ k - 1 + 1) with (2 ^ k) by lia.
  split; cbn [cf_mb cf_prods cf_cons cf_tickets cf_popped mb_mask mb_head mb_tail mb_sequence mb_data]; try done.
  - by rewrite length_seqZ, length_replicate.
  - cbn. lia.
  - intros t Ht. cbn in Ht. unfold mb_seq_of. rewrite (mb_slot_mod k) by (done || lia). cbn [mb_sequence].
    rewrite Z.mod_small by lia. apply lookup_seqZ. unfold expected, ticket. rewrite lookup_nil. lia.
  - intros i Hi. cbn in Hi. lia.
Qed.

(** The slot whose data a producer, or the consumer, accesses in its next step. *)
Definition prod_access c (p : nat) : option nat :=
  match cf_prods c !! p with Some (PWrite _ h) => Some (mb_slot (cf_mb c) h) | _ => None end.
Definition cons_access c : option nat :=
  match cf_cons c with CTake => Some (mb_slot (cf_mb c) (mb_tail (cf_mb c))) | _ => None end.

Lemma mb_no_race k c p q :
  mb_inv k c -> p <> q ->
  (prod_access c p = prod_access c q -> prod_access c p = None) /\ (prod_access c p = cons_access c -> prod_access c p = None).
Proof.
  intros I Hpq. assert (forall p h v, cf_prods c !! p = Some (PWrite v h) ->
    ticket (cf_tickets c) h = Some (Owned p v) /\ eff_tail c <= h < eff_tail c + 2 ^ k) as Hown.
  { intros p' h v E. destruct (iv_prods _ _ I _ _ E) as [H1 H2]. split; [done|].
    pose proof (owned_pending k c p' h v I H1 H2). pose proof (eff_tail_le k c I). apply pending_window; [done|lia]. }
  unfold prod_access, cons_access. split; intros E.
  - destruct (cf_prods c !! p) as [[]|] eqn:Ep; try done. destruct (cf_prods c !! q) as [[]|] eqn:Eq; try done.
    destruct (Hown _ _ _ Ep) as [H1 H2], (Hown _ _ _ Eq) as [H3 H4].
    destruct (decide (head = head0)) as [->|Hne]; [rewrite H1 in H3; congruence|].
    by destruct (slot_ne k c head head0 I H2 H4 Hne); injection E.
  - destruct (cf_prods c !! p) as [[]|] eqn:Ep; try done. destruct (cf_cons c) eqn:Ec; try done.
    destruct (Hown _ _ _ Ep) as [H1 H2]. pose proof (iv_cons _ _ I) as Hc. unfold cons_ok in Hc. rewrite Ec in Hc.
    destruct Hc as [w Hw]. destruct (decide (head = mb_tail (cf_mb c))) as [->|Hne]; [by rewrite H1 in Hw|].
    assert (eff_tail c = mb_tail (cf_mb c)) as Ee by (unfold eff_tail; by rewrite Ec).
    pose proof (pow2_bound k (iv_k _ _ I)).
    destruct (slot_ne k c head (mb_tail (cf_mb c)) I H2 ltac:(lia) Hne). by injection E.
Qed.

Lemma mb_popped_prefix k c :
  mb_inv k c -> exists vs, cf_popped c = Some <$> vs /\ take (length vs) (cf_tickets c) = Published <$> vs.
Proof.
  intros I. assert (exists vs, cf_popped c = Some <$> vs) as [vs Evs].
  { pose proof (iv_popped _ _ I) as H. revert H. generalize (cf_popped c) (cf_tickets c). intros l.
    induction l as [|x l IH]; intros ts H; [by exists []|].
    destruct (H 0%nat ltac:(cbn; lia)) as (v & _ & Hv). cbn in Hv. simplify_eq.
    destruct (IH (drop 1 ts)) as [vs ->].
    { intros i Hi. destruct (H (S i) ltac:(cbn; lia)) as (w & Hw & Hx). exists w. rewrite lookup_drop. done. }
    by exists (v :: vs). }
  exists vs. split; [done|]. apply list_eq. intros i. rewrite list_lookup_fmap.
  destruct (decide (i < length vs)%nat) as [Hi|Hi].
  - destruct (iv_popped _ _ I i) as (v & Hv & Hp); [by rewrite Evs, length_fmap|].
    rewrite lookup_take_lt by done. rewrite Evs, list_lookup_fmap in Hp. destruct (vs !! i); cbn in Hp; simplify_eq. by rewrite Hv.
  - rewrite lookup_take_ge by lia. by rewrite (lookup_ge_None_2 vs) by lia.
Qed.

(** C17. The mailbox of a capacity of at least two (a ring of one slot overwrites
    an unread value, see [mailbox_capacity_one_overwrites]) and at most 2^62 is
    a bounded first-in first-out queue under every interleaving of any number
    of producers with the consumer, spurious failures of the compare-and-swap
    and a [Close] at any time, while fewer than 2^62 tickets have been drawn:
    what the consumer has taken is exactly the values of the first tickets, in
    the order in which producers won them; at most [capacity] tickets (rounded
    up to a power of two) are outstanding; and no two threads are about to
    access the data of one slot. *)
Theorem mailbox_fifo capacity acts c :
  2 <= capacity <= 2 ^ 62 -> mb_run acts (mb_init (T := T) capacity) = Some c -> zlen (cf_tickets c) < 2 ^ 62 ->
  (exists vs, cf_popped c = Some <$> vs /\ take (length vs) (cf_tickets c) = Published <$> vs) /\
  zlen (cf_popped c) <= zlen (cf_tickets c) <= zlen (cf_popped c) + 2 ^ Z.log2_up capacity /\
  forall p q, p <> q ->
    (prod_access c p = prod_access c q -> prod_access c p = None) /\
    (prod_access c p = cons_access c -> prod_access c p = None).
Proof.
  intros Hc E Hb. destruct (mb_run_inv _ _ _ _ (mb_init_inv capacity Hc) E Hb) as [I _].
  split; [by eapply mb_popped_prefix|]. split.
  - rewrite <-(iv_tail _ _ I), <-(iv_head _ _ I). pose proof (iv_order _ _ I). pose proof (eff_tail_le _ _ I). lia.
  - intros p q Hpq. by eapply mb_no_race.
Qed.

(** ** An operation that runs alone *)

Definition solo_push (p : nat) (v : T) (n : nat) : list (Action T) := ACall p false v :: replicate n (AProd p false).
Definition solo_pop (n : nat) : list (Action T) := APop KTry :: replicate n (ACons false).

(** One step of a producer whose position is known. *)
Lemma mb_run_prod p pc m prods cn ts popped pc' m' ts' acts :
  producer_step p false pc m ts = Some (pc', m', ts') ->
  mb_run (AProd p false :: acts) (MkConfig m (<[p := pc]> prods) cn ts popped) =
  mb_run acts (MkConfig m' (<[p := pc']> prods) cn ts' popped).
Proof.
  intros E. cbn [mb_run mb_step cf_prods cf_mb cf_tickets cf_cons cf_popped]. rewrite lookup_insert_eq.
  cbn [mbind option_bind]. rewrite E. cbn. by rewrite insert_insert_eq.
Qed.

Lemma mb_run_call p v c acts :
  is_idle (default (PIdle None) (cf_prods c !! p)) = true ->
  mb_run (ACall p false v :: acts) c =
  mb_run acts (MkConfig (cf_mb c) (<[p := PLoadHead false v]> (cf_prods c)) (cf_cons c) (cf_tickets c) (cf_popped c)).
Proof. intros E. cbn [mb_run mb_step]. by rewrite E. Qed.

Lemma solo_push_room k c p v :
  mb_inv k c -> zlen (cf_tickets c) + 1 < 2 ^ 62 -> is_idle (default (PIdle None) (cf_prods c !! p)) = true ->
  mb_closed (cf_mb c) = false -> mb_head (cf_mb c) < eff_tail c + 2 ^ k ->
  exists c', mb_run (solo_push p v 7) c = Some c' /\ cf_tickets c' = cf_tickets c ++ [Published v] /\
    cf_prods c' !! p = Some (PIdle (Some true)) /\ cf_popped c' = cf_popped c /\ cf_cons c' = cf_cons c.
Proof.
  intros I Hb Hidle Hopen Hroom. pose proof (eff_tail_le k c I). pose proof (iv_head _ _ I) as Eh. pose proof (iv_order _ _ I).
  set (h := mb_head (cf_mb c)) in *. pose proof (zlen_nonneg (cf_tickets c)).
  assert (mb_seq_of (cf_mb c) h = Some h) as Es.
  { rewrite (iv_seq _ _ I) by lia. f_equal. unfold expected, ticket. rewrite lookup_ge_None_2; [done|]. unfold zlen in *. lia. }
  unfold solo_push. rewrite mb_run_call by done. cbn [replicate].
  rewrite (mb_run_prod _ _ _ _ _ _ _ (PLoadSeq false v h) (cf_mb c) (cf_tickets c)) by done.
  rewrite (mb_run_prod _ _ _ _ _ _ _ (PCas false v h) (cf_mb c) (cf_tickets c))
    by (cbn; rewrite Es; cbn; by rewrite Z.sub_diag).
  rewrite (mb_run_prod _ _ _ _ _ _ _ (PClosed false v h) (with_head (u64 (h + 1)) (cf_mb c)) (cf_tickets c ++ [Owned p v]))
    by (cbn; fold h; by rewrite Z.eqb_refl).
  erewrite mb_run_prod by (cbn [producer_step with_head mb_closed]; by rewrite Hopen).
  erewrite mb_run_prod by done. erewrite mb_run_prod by done. erewrite mb_run_prod by done. cbn [mb_run].
  eexists. split; [done|]. cbn [cf_tickets cf_prods cf_popped cf_cons]. split; [|by rewrite lookup_insert_eq].
  rewrite insert_app_r_alt by (unfold zlen in *; lia).
  replace (Z.to_nat h - length (cf_tickets c))%nat with 0%nat by (unfold zlen in *; lia). done.
Qed.

Lemma solo_push_full k c p v :
  mb_inv k c -> zlen (cf_tickets c) < 2 ^ 62 -> is_idle (default (PIdle None) (cf_prods c !! p)) = true ->
  mb_head (cf_mb c) = eff_tail c + 2 ^ k ->
  exists c', mb_run (solo_push p v 2) c = Some c' /\ cf_tickets c' = cf_tickets c /\
    cf_prods c' !! p = Some (PIdle (Some false)) /\ cf_popped c' = cf_popped c.
Proof.
  intros I Hb Hidle Hfull. pose proof (eff_tail_le k c I). pose proof (iv_head _ _ I) as Eh. pose proof (pow2_bound k (iv_k _ _ I)).
  set (h := mb_head (cf_mb c)) in *.
  destruct (seq_of_any k c h I) as (t & Ht & Em & Es).
  assert (t = eff_tail c) as ->.
  { replace (h - t) with (eff_tail c - t + 1 * 2 ^ k) in Em by lia. rewrite Z.mod_add in Em by lia.
    destruct (decide (t = eff_tail c)); [done|]. exfalso.
    rewrite <-(Z.mod_add _ 1), Z.mod_small in Em by lia. lia. }
  pose proof (expected_range (cf_tickets c) (eff_tail c)).
  unfold solo_push. rewrite mb_run_call by done. cbn [replicate].
  rewrite (mb_run_prod _ _ _ _ _ _ _ (PLoadSeq false v h) (cf_mb c) (cf_tickets c)) by done.
  rewrite (mb_run_prod _ _ _ _ _ _ _ (PIdle (Some false)) (cf_mb c) (cf_tickets c)).
  - eexists. split; [done|]. cbn. by rewrite lookup_insert_eq.
  - cbn [producer_step]. rewrite Es. cbn [mbind option_bind]. rewrite !s64_id by lia.
    rewrite (proj2 (Z.eqb_neq _ _)) by lia. by rewrite (proj2 (Z.ltb_lt _ _)) by lia.
Qed.

Lemma solo_pop_ready k c r v :
  mb_inv k c -> zlen (cf_tickets c) < 2 ^ 62 -> cf_cons c = CIdle r ->
  cf_tickets c !! length (cf_popped c) = Some (Published v) ->
  exists c', mb_run (solo_pop 4) c = Some c' /\ cf_popped c' = cf_popped c ++ [Some v] /\
    cf_cons c' = CIdle (Some (Some v)) /\ cf_tickets c' = cf_tickets c.
Proof.
  intros I Hb Ec Ev. pose proof (iv_tail _ _ I) as Et. pose proof (iv_order _ _ I). pose proof (pow2_bound k (iv_k _ _ I)).
  assert (eff_tail c = mb_tail (cf_mb c)) as Ee by (unfold eff_tail; by rewrite Ec).
  assert (ticket (cf_tickets c) (mb_tail (cf_mb c)) = Some (Published v)) as Ev' by (unfold ticket; rewrite Et; unfold zlen; by rewrite Nat2Z.id).
  destruct (seq_of_any k c (mb_tail (cf_mb c)) I) as (t & _ & _ & Es).
  assert (s64 (expected (cf_tickets c) t) - s64 (u64 (mb_tail (cf_mb c) + 1)) = 0) as Hz by (apply (ready_published k c); eauto).
  pose proof (iv_data _ _ I (mb_tail (cf_mb c)) v ltac:(lia) Ev') as Ed.
  unfold solo_pop. cbn [replicate mb_run mb_step]. rewrite Ec.
  cbn [mbind option_bind mb_run mb_step consumer_step cf_cons cf_mb cf_popped cf_prods cf_tickets]. rewrite Es.
  cbn [mbind option_bind]. rewrite Hz. cbn [Z.eqb mbind option_bind mb_step consumer_step cf_cons cf_mb cf_popped cf_prods cf_tickets]. rewrite Ed.
  cbn [mbind option_bind mb_step consumer_step cf_cons cf_mb cf_popped cf_prods cf_tickets]. by eexists.
Qed.

Lemma solo_pop_empty k c r :
  mb_inv k c -> zlen (cf_tickets c) < 2 ^ 62 -> cf_cons c = CIdle r ->
  (forall v, cf_tickets c !! length (cf_popped c) <> Some (Published v)) ->
  exists c', mb_run (solo_pop 1) c = Some c' /\ cf_popped c' = cf_popped c /\
    cf_cons c' = CIdle (Some None) /\ cf_tickets c' = cf_tickets c.
Proof.
  intros I Hb Ec Ev. pose proof (iv_tail _ _ I) as Et.
  assert (eff_tail c = mb_tail (cf_mb c)) as Ee by (unfold eff_tail; by rewrite Ec).
  destruct (seq_of_any k c (mb_tail (cf_mb c)) I) as (t & _ & _ & Es).
  assert (s64 (expected (cf_tickets c) t) - s64 (u64 (mb_tail (cf_mb c) + 1)) <> 0) as Hz.
  { rewrite (ready_published k c) by eauto. intros [v Hv]. apply (Ev v). unfold ticket in Hv. rewrite Et in Hv.
    unfold zlen in Hv. by rewrite Nat2Z.id in Hv. }
  unfold solo_pop. cbn [replicate mb_run mb_step]. rewrite Ec.
  cbn [mbind option_bind mb_run mb_step consumer_step cf_cons cf_mb cf_popped cf_prods cf_tickets]. rewrite Es.
  cbn [mbind option_bind]. rewrite (proj2 (Z.eqb_neq _ _)) by done. by eexists.
Qed.

(** From every state that any schedule reaches, an operation that runs without
    interference finishes: a push of an idle producer on an open mailbox returns
    true within seven steps with its value at the end of the queue when fewer
    than [capacity] values are outstanding, and false within two steps, with
    nothing changed, when it is full; a pop returns the oldest value within
    four steps when its producer has published it, and nothing otherwise. *)
Theorem mailbox_solo_progress capacity acts c p v r :
  2 <= capacity <= 2 ^ 62 -> mb_run acts (mb_init (T := T) capacity) = Some c -> zlen (cf_tickets c) + 1 < 2 ^ 62 ->
  cf_cons c = CIdle r -> is_idle (default (PIdle None) (cf_prods c !! p)) = true -> mb_closed (cf_mb c) = false ->
  (if decide (zlen (cf_tickets c) < zlen (cf_popped c) + 2 ^ Z.log2_up capacity)
   then exists c', mb_run (solo_push p v 7) c = Some c' /\ cf_tickets c' = cf_tickets c ++ [Published v] /\
          cf_prods c' !! p = Some (PIdle (Some true))
   else exists c', mb_run (solo_push p v 2) c = Some c' /\ cf_tickets c' = cf_tickets c /\
          cf_prods c' !! p = Some (PIdle (Some false))) /\
  match cf_tickets c !! length (cf_popped c) with
  | Some (Published w) => exists c', mb_run (solo_pop 4) c = Some c' /\ cf_popped c' = cf_popped c ++ [Some w] /\
          cf_cons c' = CIdle (Some (Some w))
  | _ => exists c', mb_run (solo_pop 1) c = Some c' /\ cf_popped c' = cf_popped c /\ cf_cons c' = CIdle (Some None)
  end.
Proof.
  intros Hc E Hb Ec Hidle Hopen. destruct (mb_run_inv _ _ _ _ (mb_init_inv capacity Hc) E ltac:(lia)) as [I _].
  pose proof (iv_tail _ _ I) as Et. pose proof (iv_head _ _ I) as Eh. pose proof (iv_order _ _ I) as Ho.
  assert (eff_tail c = mb_tail (cf_mb c)) as Ee by (unfold eff_tail; by rewrite Ec). split.
  - case_decide.
    + destruct (solo_push_room _ c p v I Hb Hidle Hopen) as (c' & H1 & H2 & H3 & _); [lia|]. by exists c'.
    + destruct (solo_push_full _ c p v I ltac:(lia) Hidle) as (c' & H1 & H2 & H3 & _); [lia|]. by exists c'.
  - destruct (cf_tickets c !! length (cf_popped c)) as [[q w| |w]|] eqn:Ev.
    + destruct (solo_pop_empty _ c r I ltac:(lia) Ec) as (c' & H1 & H2 & H3 & _); [by rewrite Ev|]. by exists c'.
    + destruct (solo_pop_empty _ c r I ltac:(lia) Ec) as (c' & H1 & H2 & H3 & _); [by rewrite Ev|]. by exists c'.
    + destruct (solo_pop_ready _ c r w I ltac:(lia) Ec Ev) as (c' & H1 & H2 & H3 & _). by exists c'.
    + destruct (solo_pop_empty _ c r I ltac:(lia) Ec) as (c' & H1 & H2 & H3 & _); [by rewrite Ev|]. by exists c'.
Qed.

(** ** A push that is given up *)

Lemma wedged_step k c a c' :
  mb_inv k c -> mb_step a c = Some c' ->
  cf_tickets c !! length (cf_popped c) = Some Reverted ->
  cf_popped c' = cf_popped c /\ cf_tickets c' !! length (cf_popped c) = Some Reverted.
Proof.
  intros I E Hw. pose proof (iv_tail _ _ I) as Et.
  assert (ticket (cf_tickets c) (mb_tail (cf_mb c)) = Some Reverted) as Hw'.
  { unfold ticket. rewrite Et. unfold zlen. by rewrite Nat2Z.id. }
  destruct a as [p blk v|p spurious|kd|expired|]; cbn [mb_step] in E.
  - destruct (is_idle _); by simplify_eq.
  - destruct (cf_prods c !! p) as [pc|] eqn:Ep; [|done]. cbn [mbind option_bind] in E.
    pose proof (iv_prods _ _ I p pc Ep) as Hpc.
    assert (forall h v x, 0 <= h -> ticket (cf_tickets c) h = Some (Owned p v) ->
      <[Z.to_nat h := x]> (cf_tickets c) !! length (cf_popped c) = Some Reverted) as Hins.
    { intros h v x Hh Ho. rewrite list_lookup_insert_ne; [done|]. intros Eh. unfold ticket in Ho. rewrite Eh, Hw in Ho. done. }
    destruct pc as [| | |blk v h|blk v h| |blk v h| |v h|]; cbn in E.
    4: destruct (mb_seq_of (cf_mb c) h); [|done]; cbn in E.
    5: destruct ((mb_head (cf_mb c) =? h) && negb spurious).
    all: simplify_eq/=; split; try done.
    + by apply lookup_app_l_Some.
    + destruct Hpc. by eapply Hins.
    + destruct Hpc as (? & ? & ?). by eapply Hins.
  - destruct (cf_cons c); by simplify_eq.
  - pose proof (iv_cons _ _ I) as Hc. unfold cons_ok in Hc.
    destruct (cf_cons c) as [r|kd| |t d|d|kd|kd|] eqn:Ec; cbn in E.
    3: { destruct Hc as [v Hv]. by rewrite Hw' in Hv. }
    2: destruct (mb_seq_of _ _); [|done].
    all: by simplify_eq/=.
  - by simplify_eq.
Qed.

(** A ticket that was given up because the mailbox was closed is never passed:
    whatever the threads do, the consumer takes nothing more, although later
    tickets may be published and their pushes have returned true. *)
Theorem mailbox_reverted_ticket_blocks k c acts c' :
  mb_inv k c -> cf_tickets c !! length (cf_popped c) = Some Reverted ->
  mb_run acts c = Some c' -> zlen (cf_tickets c') < 2 ^ 62 -> cf_popped c' = cf_popped c.
Proof.
  revert c. induction acts as [|a acts IH]; cbn; intros c I Hw E Hb; [by simplify_eq|].
  destruct (mb_step a c) as [c1|] eqn:E1; [|done]. cbn in E.
  assert (zlen (cf_tickets c1) <= zlen (cf_tickets c')) as Hle.
  { clear -E. revert c1 E. induction acts as [|b acts IH]; cbn; intros c1 E; [by simplify_eq|].
    destruct (mb_step b c1) as [c2|] eqn:E2; [|done]. cbn in E. apply IH in E. apply mb_step_tickets in E2. unfold zlen in *. lia. }
  assert (mb_inv k c1) as I1 by (eapply mb_step_inv; [exact I|lia|exact E1]).
  destruct (wedged_step k c a c1 I E1 Hw) as [Hp Ht]. rewrite <-Hp. apply IH; [done|by rewrite Hp|done|done].
Qed.
End mailbox.

(** ** Witnesses and two flaws *)

(** Two producers interleave their pushes, then the consumer pops once. *)
Definition demo_schedule : list (Action Z) :=
  [ACall 1 false 10; ACall 2 true 20] ++ replicate 2 (AProd 1 false) ++ replicate 4 (AProd 2 false) ++
  [AProd 1 false; AProd 1 false; AProd 1 true; AProd 1 false; AProd 1 false] ++ replicate 4 (AProd 2 false) ++
  [APop KTry; ACons false; AProd 1 false; ACons false; AProd 1 false; ACons false; AProd 1 false; ACons false].

Definition demo_config : Config Z := default (mb_init 2) (mb_run demo_schedule (mb_init 2)).

Lemma mailbox_fifo_witness :
  mb_run demo_schedule (mb_init 2) = Some demo_config /\
  (exists vs, cf_popped demo_config = Some <$> vs /\ take (length vs) (cf_tickets demo_config) = Published <$> vs) /\
  zlen (cf_popped demo_config) <= zlen (cf_tickets demo_config) <= zlen (cf_popped demo_config) + 2 ^ Z.log2_up 2 /\
  forall p q, p <> q ->
    (prod_access demo_config p = prod_access demo_config q -> prod_access demo_config p = None) /\
    (prod_access demo_config p = cons_access demo_config -> prod_access demo_config p = None).
Proof.
  assert (mb_run demo_schedule (mb_init 2) = Some demo_config) as E by (vm_compute; reflexivity).
  split; [exact E|]. apply (mailbox_fifo 2 demo_schedule); [lia|exact E|by vm_compute].
Defined.

Lemma mailbox_solo_progress_witness :
  let c := default (mb_init 2) (mb_run (solo_push 1 10 7) (mb_init 2)) in
  exists c', mb_run (solo_push 2 20 7) c = Some c' /\ cf_tickets c' = cf_tickets c ++ [Published 20] /\
    cf_prods c' !! 2%nat = Some (PIdle (Some true)).
Proof.
  intros c. assert (mb_run (solo_push 1 10 7) (mb_init 2) = Some c) as E by (vm_compute; reflexivity).
  destruct (mailbox_solo_progress 2 (solo_push 1 10 7) c 2 20 None) as [H _]; [lia|exact E|by vm_compute|done|done|done|].
  rewrite decide_True in H by (by vm_compute). exact H.
Defined.

(** With one slot the number that marks a slot as published is the number that
    marks it as free for the next ticket: the second push overwrites the first
    value, and the consumer waits for a number the slot no longer has. *)
Theorem mailbox_capacity_one_overwrites :
  exists c, mb_run (solo_push 1 10 7 ++ solo_push 2 20 7 ++ solo_pop 1) (mb_init 1) = Some c /\
    cf_tickets c = [Published 10; Published 20] /\ cf_popped c = [] /\ cf_cons c = CIdle (Some None).
Proof. eexists. vm_compute. done. Qed.

(** A close between a claim and its check leaves a hole: the value of the second
    producer, whose push returned true, is never popped, and [PopBlocking] goes
    round for ever because the mailbox is not empty. *)
Definition close_schedule : list (Action Z) :=
  [ACall 1 false 10; ACall 2 false 20] ++ replicate 3 (AProd 1 false) ++ replicate 7 (AProd 2 false) ++
  [AClose] ++ replicate 2 (AProd 1 false).

Theorem mailbox_close_strands_value :
  exists c, mb_run close_schedule (mb_init 2) = Some c /\
    cf_prods c !! 2%nat = Some (PIdle (Some true)) /\ cf_prods c !! 1%nat = Some (PIdle (Some false)) /\
    cf_tickets c = [Reverted; Published 20] /\
    forall acts c', mb_run acts c = Some c' -> zlen (cf_tickets c') < 2 ^ 62 -> cf_popped c' = [].
Proof.
  set (c := default (mb_init 2) (mb_run close_schedule (mb_init 2))).
  assert (mb_run close_schedule (mb_init 2) = Some c) as E by (vm_compute; reflexivity).
  exists c. split; [exact E|]. split; [vm_compute; reflexivity|]. split; [vm_compute; reflexivity|].
  split; [vm_compute; reflexivity|]. intros acts c' Er Hb.
  assert (cf_popped c = []) as Ep by (vm_compute; reflexivity).
  assert (cf_tickets c !! 0%nat = Some Reverted) as Ht by (vm_compute; reflexivity). rewrite <-Ep.
  assert (zlen (cf_tickets c) < 2 ^ 62) as Hc by (vm_compute; reflexivity). clearbody c.
  destruct (mb_run_inv (Z.log2_up 2) close_schedule (mb_init 2) c) as [I _]; [apply mb_init_inv; lia|exact E|exact Hc|].
  apply (mailbox_reverted_ticket_blocks (Z.log2_up 2) c acts); [exact I|by rewrite Ep|exact Er|exact Hb].
Qed.
