(* ===== verification/Bloom.v ===== *)
(** * The Bloom-filter engine (src/core/bloom/bloom_engine.cc)

    Named Bloom filters with double hashing on 64-bit integers.  The two sizes
    the constructor computes with logarithms of doubles are fields of the
    engine; the theorems use only what its [std::max] and [std::clamp]
    guarantee.  [None] is an access outside the bit array.

    The theorem: no false negatives and no access out of range, after any
    sequence of operations. *)
From S2P Require Import Prelude.

Open Scope Z_scope.

(** src/core/bloom/bloom_engine.h:57-65 [BloomEngine::BloomFilter]. A byte is an integer below 256. *)
Record BloomFilter : Type := MkBloom {
  bf_bits : list Z;
  bf_num_bits : Z;
  bf_num_hashes : Z;
  bf_num_elements : Z
}.

(** src/core/bloom/bloom_engine.h:70-74 [BloomEngine]. *)
Record BloomEngine : Type := MkBloomEngine {
  be_bits_per_filter : Z;
  be_num_hashes : Z;
  be_filters : gmap Z BloomFilter
}.

(** src/core/bloom/bloom_engine.cc:12-15 [BloomFilter::SetBit]. *)
Definition SetBit (pos : Z) (bits : list Z) : option (list Z) :=
  b ← bits !! Z.to_nat (pos / 8);
  Some (<[Z.to_nat (pos / 8) := Z.lor b (u8 (Z.shiftl 1 (pos mod 8)))]> bits).

(** src/core/bloom/bloom_engine.cc:17-20 [BloomFilter::GetBit]. *)
Definition GetBit (pos : Z) (bits : list Z) : option bool :=
  b ← bits !! Z.to_nat (pos / 8);
  Some (negb (Z.land (Z.shiftr b (pos mod 8)) 1 =? 0)).

(** src/core/bloom/bloom_engine.cc:47-50 [BloomEngine::HashPair]. One of its two loops. *)
Definition fnv (seed prime : Z) (key : bytes) : Z :=
  fold_left (fun h c => u64 (Z.lxor h (byte.unsigned c) * prime)) key seed.

(** src/core/bloom/bloom_engine.cc:43-58 [BloomEngine::HashPair]. *)
Definition HashPair (key : bytes) : Z * Z :=
  let h1 := fnv 14695981039346656037 1099511628211 key in
  let h2 := fnv 2166136261 16777619 key in
  (h1, Z.lor (u64 (Z.shiftl h2 33)) (Z.shiftr h2 31)).

(** src/core/bloom/bloom_engine.cc:60-68 [BloomEngine::MakeFilter]. *)
Definition MakeFilter (e : BloomEngine) : BloomFilter :=
  MkBloom (replicate (Z.to_nat ((be_bits_per_filter e + 7) / 8)) 0) (be_bits_per_filter e) (be_num_hashes e) 0.

(** src/core/bloom/bloom_engine.cc:86-86 [BloomEngine::Add]. The position of round [i];
    [MightContain] computes the same. *)
Definition bloom_pos (f : BloomFilter) (h1 h2 i : Z) : Z := u64 (h1 + u64 (i * h2)) mod bf_num_bits f.

(** src/core/bloom/bloom_engine.cc:85-88 [BloomEngine::Add]. *)
Fixpoint set_all (ps : list Z) (bits : list Z) : option (list Z) :=
  match ps with
  | [] => Some bits
  | p :: ps => bits ← SetBit p bits; set_all ps bits
  end.

Definition bloom_positions (f : BloomFilter) (key : bytes) : list Z :=
  let '(h1, h2) := HashPair key in
  bloom_pos f h1 h2 <$> seqZ 0 (bf_num_hashes f).

(** src/core/bloom/bloom_engine.cc:75-91 [BloomEngine::Add]. *)
Definition bloom_Add (filter_id : Z) (key : bytes) (e : BloomEngine) : option BloomEngine :=
  let f := default (MakeFilter e) (be_filters e !! filter_id) in
  bits ← set_all (bloom_positions f key) (bf_bits f);
  Some (MkBloomEngine (be_bits_per_filter e) (be_num_hashes e)
    (<[filter_id := MkBloom bits (bf_num_bits f) (bf_num_hashes f) (u64 (bf_num_elements f + 1))]> (be_filters e))).

(** src/core/bloom/bloom_engine.cc:102-106 [BloomEngine::MightContain]. The first clear
    bit ends the loop. *)
Fixpoint test_all (ps : list Z) (bits : list Z) : option bool :=
  match ps with
  | [] => Some true
  | p :: ps => b ← GetBit p bits; if (b : bool) then test_all ps bits else Some false
  end.

(** src/core/bloom/bloom_engine.cc:93-109 [BloomEngine::MightContain]. *)
Definition bloom_MightContain (filter_id : Z) (key : bytes) (e : BloomEngine) : option bool :=
  match be_filters e !! filter_id with
  | None => Some false
  | Some f => test_all (bloom_positions f key) (bf_bits f)
  end.

(** src/core/bloom/bloom_engine.cc:111-117 [BloomEngine::Drop]. *)
Definition bloom_Drop (filter_id : Z) (e : BloomEngine) : Status * BloomEngine :=
  match be_filters e !! filter_id with
  | None => (NotFound "bloom filter not found", e)
  | Some _ => (Ok, MkBloomEngine (be_bits_per_filter e) (be_num_hashes e) (delete filter_id (be_filters e)))
  end.

(** src/core/bloom/bloom_engine.cc:136-143 [BloomEngine::EstimateCount]. *)
Definition bloom_EstimateCount (filter_id : Z) (e : BloomEngine) : Status + Z :=
  match be_filters e !! filter_id with
  | None => inl (NotFound "bloom filter not found")
  | Some f => inr (bf_num_elements f)
  end.

(** ** Bits *)

Lemma GetBit_testbit pos bits b :
  0 <= pos -> bits !! Z.to_nat (pos / 8) = Some b -> GetBit pos bits = Some (Z.testbit b (pos mod 8)).
Proof.
  intros Hp Hb. unfold GetBit. rewrite Hb. cbn. f_equal.
  pose proof (Z.mod_pos_bound pos 8 ltac:(lia)).
  change 1 with (Z.ones 1). rewrite Z.land_ones by lia.
  rewrite Z.shiftr_div_pow2 by lia. change (2 ^ 1) with 2.
  pose proof (Z.testbit_spec' b (pos mod 8) ltac:(lia)) as <-. by destruct (Z.testbit b (pos mod 8)).
Qed.

(** A position is inside the array. *)
Definition pos_ok (bits : list Z) (pos : Z) : Prop := 0 <= pos < 8 * zlen bits.

Lemma pos_ok_lookup bits pos : pos_ok bits pos -> is_Some (bits !! Z.to_nat (pos / 8)).
Proof.
  intros [H1 H2]. apply lookup_lt_is_Some. unfold zlen in H2.
  pose proof (Z.div_pos pos 8). assert (pos / 8 < Z.of_nat (length bits)) by (apply Z.div_lt_upper_bound; lia). lia.
Qed.

Lemma div_mod_eq p q : p / 8 = q / 8 -> p mod 8 = q mod 8 -> p = q.
Proof. intros H1 H2. rewrite (Z.div_mod p 8), (Z.div_mod q 8) by lia. lia. Qed.

(** Setting a bit sets it, clears none and stays inside the array. *)
Lemma SetBit_spec pos bits :
  pos_ok bits pos ->
  exists bits', SetBit pos bits = Some bits' /\ length bits' = length bits /\ GetBit pos bits' = Some true /\
    forall q, 0 <= q -> GetBit q bits = Some true -> GetBit q bits' = Some true.
Proof.
  intros Hpos. destruct (pos_ok_lookup bits pos Hpos) as [b Hb]. unfold SetBit. rewrite Hb. cbn [mbind option_bind].
  eexists. split; [done|]. split; [apply length_insert|]. destruct Hpos as [Hp _].
  pose proof (Z.mod_pos_bound pos 8 ltac:(lia)) as Hm. pose proof (lookup_lt_Some _ _ _ Hb) as Hlt.
  assert (forall i, 0 <= i -> Z.testbit (u8 (Z.shiftl 1 (pos mod 8))) i = (i =? pos mod 8)) as Hu.
  { intros i Hi. rewrite Z.shiftl_1_l. unfold u8. rewrite Z.mod_small by (split; [lia|apply Z.pow_lt_mono_r; lia]).
    rewrite Z.pow2_bits_eqb by lia. apply Z.eqb_sym. }
  split.
  - rewrite (GetBit_testbit pos _ (Z.lor b (u8 (Z.shiftl 1 (pos mod 8))))) by (done || by apply list_lookup_insert_eq).
    rewrite Z.lor_spec, Hu, Z.eqb_refl by lia. by rewrite orb_true_r.
  - intros q Hq Hget. destruct (decide (Z.to_nat (q / 8) = Z.to_nat (pos / 8))) as [E|Hne].
    + assert (q / 8 = pos / 8) as E' by (pose proof (Z.div_pos q 8); pose proof (Z.div_pos pos 8); lia).
      rewrite (GetBit_testbit q bits b) in Hget by (done || by rewrite E).
      rewrite (GetBit_testbit q _ (Z.lor b (u8 (Z.shiftl 1 (pos mod 8))))) by (done || (rewrite E; by apply list_lookup_insert_eq)).
      rewrite Z.lor_spec. injection Hget as ->. done.
    + unfold GetBit in *. by rewrite list_lookup_insert_ne.
Qed.

Lemma set_all_spec ps bits :
  Forall (pos_ok bits) ps ->
  exists bits', set_all ps bits = Some bits' /\ length bits' = length bits /\
    (forall q, q ∈ ps -> GetBit q bits' = Some true) /\
    forall q, 0 <= q -> GetBit q bits = Some true -> GetBit q bits' = Some true.
Proof.
  revert bits. induction ps as [|p ps IH]; intros bits Hps; cbn [set_all].
  - exists bits. split; [done|]. split; [done|]. split; [|done]. intros q Hq. by apply not_elem_of_nil in Hq.
  - apply Forall_cons in Hps as [Hp Hps]. destruct (SetBit_spec p bits Hp) as (b1 & -> & Hl & Hs & Hk). cbn [mbind option_bind].
    destruct (IH b1) as (b2 & -> & Hl2 & Hs2 & Hk2).
    { eapply Forall_impl; [exact Hps|]. unfold pos_ok, zlen. by rewrite Hl. }
    exists b2. split; [done|]. split; [by rewrite Hl2|]. split.
    + intros q [->|Hq]%elem_of_cons; [apply Hk2; [apply Hp|done]|by apply Hs2].
    + intros q Hq H. by apply Hk2, Hk.
Qed.

Lemma test_all_true ps bits : (forall q, q ∈ ps -> GetBit q bits = Some true) -> test_all ps bits = Some true.
Proof.
  induction ps as [|p ps IH]; intros H; [done|]. cbn. rewrite (H p) by (by left). cbn. apply IH. intros q Hq. apply H. by right.
Qed.

Lemma test_all_total ps bits : Forall (pos_ok bits) ps -> is_Some (test_all ps bits).
Proof.
  induction 1 as [|p ps Hp Hps IH]; cbn; [by eexists|]. destruct (pos_ok_lookup bits p Hp) as [b Hb].
  rewrite (GetBit_testbit p bits b) by (done || apply Hp). cbn. by destruct (Z.testbit _ _).
Qed.

(** ** The engine *)

(** What the constructor guarantees. *)
Definition sizes_ok (num_bits num_hashes : Z) : Prop := 64 <= num_bits < 2 ^ 64 - 7 /\ 1 <= num_hashes <= 16.

Definition filter_ok (f : BloomFilter) : Prop :=
  sizes_ok (bf_num_bits f) (bf_num_hashes f) /\ zlen (bf_bits f) = (bf_num_bits f + 7) / 8.

Record bloom_ok (e : BloomEngine) : Prop := {
  bo_sizes : sizes_ok (be_bits_per_filter e) (be_num_hashes e);
  bo_filters : map_Forall (fun _ => filter_ok) (be_filters e)
}.

Lemma MakeFilter_ok e : bloom_ok e -> filter_ok (MakeFilter e).
Proof.
  intros [[Hb Hh] _]. split; [done|]. cbn. unfold zlen. rewrite length_replicate.
  pose proof (Z.div_pos (be_bits_per_filter e + 7) 8). lia.
Qed.

Lemma positions_ok f key : filter_ok f -> Forall (pos_ok (bf_bits f)) (bloom_positions f key).
Proof.
  intros [[Hb Hh] Hl]. unfold bloom_positions. destruct (HashPair key) as [h1 h2].
  apply Forall_fmap, Forall_forall. intros i _. unfold pos_ok, bloom_pos. cbn. rewrite Hl.
  pose proof (Z.mod_pos_bound (u64 (h1 + u64 (i * h2))) (bf_num_bits f) ltac:(lia)).
  pose proof (Z.div_mod (bf_num_bits f + 7) 8 ltac:(lia)). pose proof (Z.mod_pos_bound (bf_num_bits f + 7) 8 ltac:(lia)). lia.
Qed.

Inductive BloomOp : Type := BAdd (filter_id : Z) (key : bytes) | BDrop (filter_id : Z).

Definition bloom_op (op : BloomOp) (e : BloomEngine) : option BloomEngine :=
  match op with BAdd fid key => bloom_Add fid key e | BDrop fid => Some (bloom_Drop fid e).2 end.

Fixpoint bloom_exec (ops : list BloomOp) (e : BloomEngine) : option BloomEngine :=
  match ops with
  | [] => Some e
  | op :: ops => e' ← bloom_op op e; bloom_exec ops e'
  end.

(** The keys a filter has been given since it was last dropped. *)
Fixpoint members (fid : Z) (ops : list BloomOp) (ks : list bytes) : list bytes :=
  match ops with
  | [] => ks
  | BAdd f key :: ops => members fid ops (if f =? fid then key :: ks else ks)
  | BDrop f :: ops => members fid ops (if f =? fid then [] else ks)
  end.

(** The keys of a list are in the filter. *)
Definition holds (e : BloomEngine) (fid : Z) (ks : list bytes) : Prop :=
  forall key, key ∈ ks -> bloom_MightContain fid key e = Some true.

Lemma bloom_Add_spec fid key e :
  bloom_ok e ->
  exists e', bloom_Add fid key e = Some e' /\ bloom_ok e' /\ bloom_MightContain fid key e' = Some true /\
    forall fid' key', bloom_MightContain fid' key' e = Some true -> bloom_MightContain fid' key' e' = Some true.
Proof.
  intros Hok. unfold bloom_Add. set (f := default (MakeFilter e) (be_filters e !! fid)).
  assert (filter_ok f) as Hf.
  { subst f. destruct (be_filters e !! fid) as [f|] eqn:E; [by apply (bo_filters _ Hok fid)|by apply MakeFilter_ok]. }
  destruct (set_all_spec (bloom_positions f key) (bf_bits f) (positions_ok f key Hf)) as (bits & -> & Hl & Hs & Hk).
  cbn [mbind option_bind]. set (f' := MkBloom bits _ _ _). eexists. split; [done|].
  split; [split; [apply Hok|]|]; [|split].
  - cbn. apply map_Forall_insert_2; [|apply Hok]. destruct Hf as [H1 H2]. split; [done|]. cbn. unfold zlen in *. by rewrite Hl.
  - unfold bloom_MightContain. cbn. rewrite lookup_insert_eq. apply test_all_true, Hs.
  - intros fid' key' H. unfold bloom_MightContain in *. cbn. destruct (decide (fid = fid')) as [<-|Hne].
    + rewrite lookup_insert_eq. change (test_all (bloom_positions f key') bits = Some true).
      destruct (be_filters e !! fid) as [f0|] eqn:E; [|done]. cbn in f. subst f.
      apply test_all_true. intros q Hq. apply Hk.
      * pose proof (positions_ok f0 key' Hf) as Hp. rewrite Forall_forall in Hp. by apply Hp.
      * revert H Hq. generalize (bloom_positions f0 key'). intros ps. induction ps as [|p ps IH]; intros H Hq;
          [by apply not_elem_of_nil in Hq|]. cbn in H. destruct (GetBit p (bf_bits f0)) as [[]|] eqn:Ep; try done.
        apply elem_of_cons in Hq as [->|Hq]; [done|]. by apply IH.
    + by rewrite lookup_insert_ne.
Qed.

Lemma bloom_exec_spec ops e ks :
  bloom_ok e -> (forall fid, holds e fid (ks fid)) ->
  exists e', bloom_exec ops e = Some e' /\ bloom_ok e' /\ forall fid, holds e' fid (members fid ops (ks fid)).
Proof.
  revert e ks. induction ops as [|op ops IH]; intros e ks Hok Hks; cbn [bloom_exec members]; [by exists e|].
  destruct op as [f key|f]; cbn [bloom_op].
  - destruct (bloom_Add_spec f key e Hok) as (e1 & -> & Hok1 & Hnew & Hold). cbn [mbind option_bind].
    destruct (IH e1 (fun fid => if f =? fid then key :: ks fid else ks fid) Hok1) as (e' & E & Hok' & H).
    + intros fid k. destruct (Z.eqb_spec f fid) as [<-|]; [intros [->|Hk]%elem_of_cons|intros Hk]; [done|..]; by apply Hold, Hks.
    + by exists e'.
  - cbn [mbind option_bind]. destruct (IH (bloom_Drop f e).2 (fun fid => if f =? fid then [] else ks fid)) as (e' & E & Hok' & H).
    + unfold bloom_Drop. destruct (be_filters e !! f); [|done]. split; [apply Hok|]. cbn. apply map_Forall_delete, Hok.
    + intros fid k. destruct (Z.eqb_spec f fid) as [<-|Hne]; [intros Hk; by apply not_elem_of_nil in Hk|].
      intros Hk. apply Hks in Hk. unfold bloom_Drop. destruct (be_filters e !! f); [|done].
      unfold bloom_MightContain in *. cbn. by rewrite lookup_delete_ne.
    + by exists e'.
Qed.

(** A Bloom filter has no false negatives: after any sequence of additions to
    and drops of any filters, a key that was added to a filter since it was last
    dropped is reported as possibly present; no operation accesses a bit
    outside the array, and every query has an answer. *)
Theorem bloom_no_false_negatives num_bits num_hashes ops :
  sizes_ok num_bits num_hashes ->
  exists e, bloom_exec ops (MkBloomEngine num_bits num_hashes ∅) = Some e /\
    (forall fid key, key ∈ members fid ops [] -> bloom_MightContain fid key e = Some true) /\
    forall fid key, is_Some (bloom_MightContain fid key e).
Proof.
  intros Hs. destruct (bloom_exec_spec ops (MkBloomEngine num_bits num_hashes ∅) (fun _ => [])) as (e & E & Hok & H).
  - by split.
  - intros fid key Hk. by apply not_elem_of_nil in Hk.
  - exists e. split; [done|]. split; [exact H|]. intros fid key. unfold bloom_MightContain.
    destruct (be_filters e !! fid) as [f|] eqn:Ef; [|by eexists]. apply test_all_total, positions_ok, (bo_filters _ Hok fid f Ef).
Qed.

Lemma bloom_no_false_negatives_witness :
  exists e, bloom_exec [BAdd 1 (bstr "x"); BDrop 1; BAdd 1 (bstr "abc"); BAdd 2 (bstr "y")] (MkBloomEngine 100 7 ∅) = Some e /\
    bloom_MightContain 1 (bstr "abc") e = Some true.
Proof.
  destruct (bloom_no_false_negatives 100 7 [BAdd 1 (bstr "x"); BDrop 1; BAdd 1 (bstr "abc"); BAdd 2 (bstr "y")]) as (e & E & H & _).
  - split; lia.
  - exists e. split; [exact E|]. apply H. by left.
Defined.
