(* ===== verification/Linker.v ===== *)
(** * The object linker (src/core/linker/object_linker.cc)

    Global identifiers that tie a vector, a graph vertex and a mesh together,
    with one reverse map per kind of object.

    The theorems: a lookup by object only returns links in force that name the
    object; an object that two identifiers share can become unreachable. *)
From S2P Require Import Prelude.

Open Scope Z_scope.

(** src/core/linker/object_linker.h:12-16 [LinkedObject]. *)
Record LinkedObject : Type := MkLinked { lo_vector_id : Z; lo_graph_vertex_id : Z; lo_mesh_id : Z }.

(** src/core/linker/object_linker.h:29-32 [ObjectLinker]. *)
Record ObjectLinker : Type := MkLinker {
  by_gid : gmap bytes LinkedObject;
  gid_by_vector : gmap Z bytes;
  gid_by_graph_vertex : gmap Z bytes;
  gid_by_mesh : gmap Z bytes
}.

Definition linker_new : ObjectLinker := MkLinker ∅ ∅ ∅ ∅.

(** src/core/linker/object_linker.cc:40-44 [ObjectLinker::ResolveByGid]. *)
Definition ResolveByGid (gid : bytes) (s : ObjectLinker) : option LinkedObject := by_gid s !! gid.

(** [gid_by_vector_.erase(..)] and the two others. *)
Definition erase_reverse (l : LinkedObject) (s : ObjectLinker) : ObjectLinker :=
  MkLinker (by_gid s) (delete (lo_vector_id l) (gid_by_vector s)) (delete (lo_graph_vertex_id l) (gid_by_graph_vertex s))
    (delete (lo_mesh_id l) (gid_by_mesh s)).

(** src/core/linker/object_linker.cc:5-28 [ObjectLinker::LinkByGid]. *)
Definition LinkByGid (gid : bytes) (vector_id graph_vertex_id mesh_id : Z) : M ObjectLinker unit :=
  mguard (negb (bool_decide (gid = []))) (InvalidArgument "gid must not be empty") ;;
  mguard (negb ((vector_id =? 0) || (graph_vertex_id =? 0) || (mesh_id =? 0)))
    (InvalidArgument "vector_id/graph_vertex_id/mesh_id must be non-zero") ;;
  mmodify (fun s => match ResolveByGid gid s with Some old => erase_reverse old s | None => s end) ;;
  mmodify (fun s => MkLinker (<[gid := MkLinked vector_id graph_vertex_id mesh_id]> (by_gid s))
    (<[vector_id := gid]> (gid_by_vector s)) (<[graph_vertex_id := gid]> (gid_by_graph_vertex s))
    (<[mesh_id := gid]> (gid_by_mesh s))).

(** src/core/linker/object_linker.cc:30-38 [ObjectLinker::UnlinkByGid]. *)
Definition UnlinkByGid (gid : bytes) : M ObjectLinker unit :=
  s ← mget;
  match by_gid s !! gid with
  | None => mfail (NotFound "gid not found")
  | Some l =>
      mmodify (erase_reverse l) ;;
      mmodify (fun s => MkLinker (delete gid (by_gid s)) (gid_by_vector s) (gid_by_graph_vertex s) (gid_by_mesh s))
  end.

(** src/core/linker/object_linker.cc:46-50 [ObjectLinker::ResolveByVectorId]. *)
Definition ResolveByVectorId (vector_id : Z) (s : ObjectLinker) : option LinkedObject :=
  gid ← gid_by_vector s !! vector_id; ResolveByGid gid s.

(** src/core/linker/object_linker.cc:52-56 [ObjectLinker::ResolveByGraphVertexId]. *)
Definition ResolveByGraphVertexId (graph_vertex_id : Z) (s : ObjectLinker) : option LinkedObject :=
  gid ← gid_by_graph_vertex s !! graph_vertex_id; ResolveByGid gid s.

(** src/core/linker/object_linker.cc:58-62 [ObjectLinker::ResolveByMeshId]. *)
Definition ResolveByMeshId (mesh_id : Z) (s : ObjectLinker) : option LinkedObject :=
  gid ← gid_by_mesh s !! mesh_id; ResolveByGid gid s.

(** ** One reverse map *)

Inductive link_op : Type := OLink (gid : bytes) (v g m : Z) | OUnlink (gid : bytes).

Definition link_run (op : link_op) : M ObjectLinker unit :=
  match op with OLink gid v g m => LinkByGid gid v g m | OUnlink gid => UnlinkByGid gid end.

Definition link_exec (ops : list link_op) : ObjectLinker := fold_left (fun s op => (link_run op s).2) ops linker_new.

(** Every entry of a reverse map leads to a link with that object. *)
Definition reverse_ok (f : LinkedObject -> Z) (fwd : gmap bytes LinkedObject) (rev : gmap Z bytes) : Prop :=
  forall x gid, rev !! x = Some gid -> exists l, fwd !! gid = Some l /\ f l = x.

Section reverse.
Context (f : LinkedObject -> Z) (fwd : gmap bytes LinkedObject) (rev : gmap Z bytes) (Hok : reverse_ok f fwd rev).

Lemma reverse_link (gid : bytes) (l : LinkedObject) :
  reverse_ok f (<[gid := l]> fwd)
    (<[f l := gid]> (match fwd !! gid with Some old => delete (f old) rev | None => rev end)).
Proof.
  intros x g. destruct (decide (x = f l)) as [-> | Hx].
  { rewrite lookup_insert_eq. intros [= <-]. exists l. by rewrite lookup_insert_eq. }
  rewrite lookup_insert_ne by done. intros Hg.
  assert (rev !! x = Some g /\ forall old, fwd !! gid = Some old -> x <> f old) as [Hr Hold].
  { destruct (fwd !! gid) as [old |] eqn:E; [| done]. apply lookup_delete_Some in Hg as [Hne Hg]. naive_solver. }
  destruct (Hok x g Hr) as (l' & Hl' & <-). exists l'. split; [| done].
  rewrite lookup_insert_ne; [done |]. intros ->. by apply (Hold l').
Qed.

Lemma reverse_unlink (gid : bytes) (l : LinkedObject) :
  fwd !! gid = Some l -> reverse_ok f (delete gid fwd) (delete (f l) rev).
Proof.
  intros Hl x g [Hne Hg]%lookup_delete_Some. destruct (Hok x g Hg) as (l' & Hl' & <-). exists l'. split; [| done].
  rewrite lookup_delete_ne; [done |]. intros ->. congruence.
Qed.
End reverse.

(** ** The linker *)

Record linker_ok (s : ObjectLinker) : Prop := {
  lk_vector : reverse_ok lo_vector_id (by_gid s) (gid_by_vector s);
  lk_vertex : reverse_ok lo_graph_vertex_id (by_gid s) (gid_by_graph_vertex s);
  lk_mesh : reverse_ok lo_mesh_id (by_gid s) (gid_by_mesh s)
}.

Lemma link_run_ok (op : link_op) (s : ObjectLinker) : linker_ok s -> linker_ok (link_run op s).2.
Proof.
  intros Hok. pose proof Hok as [Hv Hg Hm]. destruct op as [gid v g m | gid]; cbn.
  - unfold LinkByGid, mguard. destruct (negb (bool_decide _)); [| exact Hok].
    destruct (negb (_ || _)); [| exact Hok].
    unfold mbind, M_bind, mret, M_ret, mmodify. cbn. unfold ResolveByGid.
    pose proof (reverse_link _ _ _ Hv gid (MkLinked v g m)) as Hv'.
    pose proof (reverse_link _ _ _ Hg gid (MkLinked v g m)) as Hg'.
    pose proof (reverse_link _ _ _ Hm gid (MkLinked v g m)) as Hm'.
    destruct (by_gid s !! gid) as [old |] eqn:E; split; cbn; rewrite ?E in *; done.
  - unfold UnlinkByGid, mbind, M_bind, mget, mmodify. cbn. destruct (by_gid s !! gid) as [l |] eqn:E; [| done].
    split; cbn; by eapply reverse_unlink.
Qed.

Lemma link_exec_ok (ops : list link_op) : linker_ok (link_exec ops).
Proof.
  unfold link_exec. assert (linker_ok linker_new) as H by (by split). revert H. generalize linker_new.
  induction ops as [| op ops IH]; intros s H; [done |]. cbn. by apply IH, link_run_ok.
Qed.

(** A lookup by object is sound: after any sequence of links and unlinks, what a
    lookup by vector, vertex or mesh returns is a link that is in force and
    names that object. *)
Theorem linker_lookup_sound (ops : list link_op) (x : Z) (l : LinkedObject) :
  let s := link_exec ops in
  (ResolveByVectorId x s = Some l -> lo_vector_id l = x /\ exists gid, ResolveByGid gid s = Some l) /\
  (ResolveByGraphVertexId x s = Some l -> lo_graph_vertex_id l = x /\ exists gid, ResolveByGid gid s = Some l) /\
  (ResolveByMeshId x s = Some l -> lo_mesh_id l = x /\ exists gid, ResolveByGid gid s = Some l).
Proof.
  intros s. pose proof (link_exec_ok ops : linker_ok s) as [Hv Hg Hm].
  split_and!; intros (gid & Hgid & Hl)%bind_Some.
  - destruct (Hv x gid Hgid) as (l' & Hl' & <-). unfold ResolveByGid in Hl. assert (l' = l) as -> by congruence. eauto.
  - destruct (Hg x gid Hgid) as (l' & Hl' & <-). unfold ResolveByGid in Hl. assert (l' = l) as -> by congruence. eauto.
  - destruct (Hm x gid Hgid) as (l' & Hl' & <-). unfold ResolveByGid in Hl. assert (l' = l) as -> by congruence. eauto.
Qed.

(** An object shared by two identifiers becomes unreachable when one of them is
    unlinked, although the other link is still in force. *)
Theorem linker_shared_object_is_lost :
  let s := link_exec [OLink (bstr "a") 1 2 3; OLink (bstr "b") 1 4 5; OUnlink (bstr "b")] in
  ResolveByGid (bstr "a") s = Some (MkLinked 1 2 3) /\ ResolveByVectorId 1 s = None.
Proof. split; vm_compute; reflexivity. Qed.
