(* ===== verification/Lifecycle.v ===== *)
(** * Access statistics of a membrane (src/core/lifecycle/semantic_lifecycle.cc)

    Read and write counters per vector in a table of bounded size; the class of
    a vector follows from its score.  The order of [table_.begin()] is
    arbitrary.

    The theorem: the table never exceeds its bound, and the three class counts
    add up to its size. *)
From S2P Require Import Prelude.

Open Scope Z_scope.

(** src/core/lifecycle/semantic_lifecycle.h:10-14 [DataTemperature]. *)
Inductive DataTemperature : Type := kHot | kWarm | kCold.

#[global] Instance DataTemperature_eq_dec : EqDecision DataTemperature.
Proof. solve_decision. Defined.

(** src/core/lifecycle/semantic_lifecycle.h:29-32 [SemanticLifecycle::Entry]. *)
Record Usage : Type := MkUsage { us_reads : Z; us_writes : Z }.

(** src/core/lifecycle/semantic_lifecycle.h:34-35 [SemanticLifecycle]. *)
Record SemanticLifecycle : Type := MkLifecycle { lc_table : gmap Z Usage; lc_max_entries : Z }.

(** A default-constructed lifecycle. *)
Definition lifecycle_new : SemanticLifecycle := MkLifecycle ∅ 20000.

(** src/core/lifecycle/semantic_lifecycle.h:19-19 [SemanticLifecycle::SetMaxEntries]. *)
Definition SetMaxEntries (n : Z) (s : SemanticLifecycle) : SemanticLifecycle := MkLifecycle (lc_table s) n.

(** [table_[id]] *)
Definition usage_at (id : Z) (s : SemanticLifecycle) : Usage := default (MkUsage 0 0) (lc_table s !! id).

Section lifecycle.
Context (ord : MapOrder Z Usage).

(** src/core/lifecycle/semantic_lifecycle.cc:46-51 [SemanticLifecycle::EvictIfNeeded]. *)
Definition EvictIfNeeded (s : SemanticLifecycle) : SemanticLifecycle :=
  if lc_max_entries s =? 0 then s else
  if Z.of_nat (size (lc_table s)) <? lc_max_entries s then s else
  MkLifecycle (@erase_begin _ _ _ _ ord (lc_table s)) (lc_max_entries s).

(** src/core/lifecycle/semantic_lifecycle.cc:5-9 [SemanticLifecycle::OnRead]. *)
Definition OnRead (id : Z) (s : SemanticLifecycle) : SemanticLifecycle :=
  if lc_max_entries s =? 0 then s else
  let s := EvictIfNeeded s in
  let u := usage_at id s in
  MkLifecycle (<[id := MkUsage (u32 (us_reads u + 1)) (us_writes u)]> (lc_table s)) (lc_max_entries s).

(** src/core/lifecycle/semantic_lifecycle.cc:11-15 [SemanticLifecycle::OnWrite]. *)
Definition OnWrite (id : Z) (s : SemanticLifecycle) : SemanticLifecycle :=
  if lc_max_entries s =? 0 then s else
  let s := EvictIfNeeded s in
  let u := usage_at id s in
  MkLifecycle (<[id := MkUsage (us_reads u) (u32 (us_writes u + 1))]> (lc_table s)) (lc_max_entries s).
End lifecycle.

(** src/core/lifecycle/semantic_lifecycle.cc:17-19 [SemanticLifecycle::OnDelete]. *)
Definition OnDelete (id : Z) (s : SemanticLifecycle) : SemanticLifecycle :=
  MkLifecycle (delete id (lc_table s)) (lc_max_entries s).

(** src/core/lifecycle/semantic_lifecycle.cc:21-28 [SemanticLifecycle::Classify]. *)
Definition Classify (id : Z) (s : SemanticLifecycle) : DataTemperature :=
  match lc_table s !! id with
  | None => kCold
  | Some u =>
      let score := u32 (us_reads u * 3 + us_writes u) in
      if 20 <=? score then kHot else if 5 <=? score then kWarm else kCold
  end.

(** src/core/lifecycle/semantic_lifecycle.cc:30-44 [SemanticLifecycle::CountHot,
    CountWarm, CountCold]. *)
Definition CountTemperature (t : DataTemperature) (s : SemanticLifecycle) : Z :=
  Z.of_nat (size (filter (fun iu => Classify iu.1 s = t) (lc_table s))).

Inductive lc_op : Type := LRead (id : Z) | LWrite (id : Z) | LDelete (id : Z).

Definition lc_run (ord : nat -> MapOrder Z Usage) (t : nat) (op : lc_op) (s : SemanticLifecycle) : SemanticLifecycle :=
  match op with LRead id => OnRead (ord t) id s | LWrite id => OnWrite (ord t) id s | LDelete id => OnDelete id s end.

Fixpoint lc_exec (ord : nat -> MapOrder Z Usage) (t : nat) (ops : list lc_op) (s : SemanticLifecycle) : SemanticLifecycle :=
  match ops with [] => s | op :: ops => lc_exec ord (S t) ops (lc_run ord t op s) end.

Definition lc_bounded (s : SemanticLifecycle) : Prop :=
  0 <= lc_max_entries s /\ (0 < lc_max_entries s -> Z.of_nat (size (lc_table s)) <= lc_max_entries s).

(** Room for one more entry. *)
Lemma EvictIfNeeded_room ord s :
  lc_bounded s -> lc_max_entries s <> 0 ->
  lc_max_entries (EvictIfNeeded ord s) = lc_max_entries s /\ Z.of_nat (size (lc_table (EvictIfNeeded ord s))) + 1 <= lc_max_entries s.
Proof.
  intros [Hn Hb] Hne. unfold EvictIfNeeded. rewrite (proj2 (Z.eqb_neq _ _)) by done.
  destruct (Z.ltb_spec (Z.of_nat (size (lc_table s))) (lc_max_entries s)) as [Hlt | Hge]; [split; [done | lia] |].
  split; [done |]. cbn. specialize (Hb ltac:(lia)). rewrite erase_begin_size in Hb by (intros E; rewrite E, map_size_empty in Hge; lia).
  lia.
Qed.

Lemma insert_size_le {A} (m : gmap Z A) k x : (size (<[k := x]> m) <= S (size m))%nat.
Proof. rewrite map_size_insert. destruct (m !! k); cbn; lia. Qed.

Lemma lc_run_bounded ord t op s : lc_bounded s -> lc_bounded (lc_run ord t op s) /\ lc_max_entries (lc_run ord t op s) = lc_max_entries s.
Proof.
  intros Hb. pose proof Hb as [Hn Hs]. destruct op as [id | id | id]; cbn.
  - unfold OnRead. destruct (Z.eqb_spec (lc_max_entries s) 0); [done |].
    destruct (EvictIfNeeded_room (ord t) s Hb) as [Hm Hr]; [done |]. unfold lc_bounded. cbn. rewrite Hm. split; [| done].
    split; [done |]. intros _. pose proof (insert_size_le (lc_table (EvictIfNeeded (ord t) s)) id
      (MkUsage (u32 (us_reads (usage_at id (EvictIfNeeded (ord t) s)) + 1)) (us_writes (usage_at id (EvictIfNeeded (ord t) s))))). lia.
  - unfold OnWrite. destruct (Z.eqb_spec (lc_max_entries s) 0); [done |].
    destruct (EvictIfNeeded_room (ord t) s Hb) as [Hm Hr]; [done |]. unfold lc_bounded. cbn. rewrite Hm. split; [| done].
    split; [done |]. intros _. pose proof (insert_size_le (lc_table (EvictIfNeeded (ord t) s)) id
      (MkUsage (us_reads (usage_at id (EvictIfNeeded (ord t) s))) (u32 (us_writes (usage_at id (EvictIfNeeded (ord t) s)) + 1)))). lia.
  - split; [| done]. split; [done |]. intros Hp. specialize (Hs Hp). cbn.
    pose proof (map_size_delete id (lc_table s)) as Hd. destruct (lc_table s !! id); cbn in Hd; lia.
Qed.

(** The table of access counters is bounded: whatever is read, written or deleted and
    whichever entry an eviction takes, it never holds more than [max_entries]
    vectors, and every vector in it has one of the three classes. *)
Theorem lifecycle_bounded ord t ops max :
  0 < max ->
  let s := lc_exec ord t ops (SetMaxEntries max lifecycle_new) in
  Z.of_nat (size (lc_table s)) <= max /\
  CountTemperature kHot s + CountTemperature kWarm s + CountTemperature kCold s = Z.of_nat (size (lc_table s)).
Proof.
  intros Hmax s.
  assert (lc_bounded s /\ lc_max_entries s = max) as [[_ Hb] Hm].
  { unfold s. assert (lc_bounded (SetMaxEntries max lifecycle_new)) as Hb by (split; cbn; [lia | rewrite map_size_empty; lia]).
    change max with (lc_max_entries (SetMaxEntries max lifecycle_new)) at 3.
    revert Hb. generalize (SetMaxEntries max lifecycle_new). clear. revert t.
    induction ops as [| op ops IH]; intros t s Hb; [done |]. cbn.
    destruct (lc_run_bounded ord t op s Hb) as [Hb' <-]. by apply IH. }
  split; [rewrite <- Hm; apply Hb; lia |]. unfold CountTemperature.
  enough (forall m : gmap Z Usage, (size (filter (fun iu => Classify iu.1 s = kHot) m) + size (filter (fun iu => Classify iu.1 s = kWarm) m) +
    size (filter (fun iu => Classify iu.1 s = kCold) m) = size m)%nat) as Hsum by (specialize (Hsum (lc_table s)); lia).
  induction m as [| k u m Hk IH] using map_ind; [by rewrite !map_filter_empty, !map_size_empty |].
  rewrite !map_filter_insert, (map_size_insert_None k u m Hk).
  repeat match goal with |- context [decide ?P] => destruct (decide P) as [?E | ?E] end; cbn in *; try congruence;
    rewrite ?(map_size_insert_None k u), ?delete_id by (try (apply map_lookup_filter_None; by left); done); try lia.
  destruct (Classify k s); congruence.
Qed.
