(* ===== verification/Manager.v ===== *)
(** * The membrane manager (src/core/membrane/manager.cc)

    The registry of membranes on top of the root manifest: creation, restoring
    at start-up, dropping, closing, retention, and the forwarding of data
    operations to the engine of a membrane.  The sixteen engine pointers of a
    membrane are a map from pointer name to engine, a null pointer being an
    absent key; an engine is whatever implements [EngineOps].  Null result
    pointers, post-put hooks, the query orchestrator, the edge gateway and the
    maintenance that [Put], [PutChunk] and the mesh calls run first are not
    modelled. *)
From S2P Require Import Prelude Env Text PosixFile Manifest Linker Lifecycle.

Open Scope Z_scope.

(** src/core/membrane/manager.h:204-219 [MembraneState]. The engine pointers. *)
Inductive EngineSlot : Type :=
  | vector_engine | rag_engine | graph_engine | text_engine | timeseries_engine | keyvalue_engine | meta_engine
  | sketch_engine | blob_engine | spatial_engine | mesh_engine | sparse_engine | bitset_engine | audio_engine
  | bloom_engine | document_engine.

#[global] Instance EngineSlot_eq_dec : EqDecision EngineSlot.
Proof. solve_decision. Defined.

Definition all_slots : list EngineSlot :=
  [vector_engine; rag_engine; graph_engine; text_engine; timeseries_engine; keyvalue_engine; meta_engine;
   sketch_engine; blob_engine; spatial_engine; mesh_engine; sparse_engine; bitset_engine; audio_engine;
   bloom_engine; document_engine].

#[global] Instance EngineSlot_finite : finite.Finite EngineSlot.
Proof.
  refine {| finite.enum := all_slots |}.
  - apply (bool_decide_unpack _). vm_compute. exact I.
  - intros []; apply (bool_decide_unpack _); vm_compute; exact I.
Defined.

(** What the manager asks of an engine.  An operation runs on the engine and
    the file system; the constructor of the graph engine opens its log, the
    others do not fail. [eng_Open] of a graph is [WarmUp]. *)
Class EngineOps (E : Type) := {
  eng_make : EngineSlot -> path -> MembraneSpec -> M fs E;
  eng_Open : EngineSlot -> M (E * fs) unit;
  eng_Close : EngineSlot -> M (E * fs) unit;
  eng_Flush : EngineSlot -> M (E * fs) unit;
  eng_Compact : EngineSlot -> M (E * fs) unit;
  eng_SetRetentionPolicy : EngineSlot -> Z -> Z -> Z -> M (E * fs) unit
}.

(** The options of the database that the manager itself reads. *)
Record DBOptions : Type := MkOptions {
  db_path : path;
  db_dim : Z;
  db_shard_count : Z;
  db_index_params : IndexParams;
  db_metric : MetricType;
  db_max_lifecycle_entries : Z
}.

(** src/core/membrane/manager.h:201-222 [MembraneState]. *)
Record MembraneState (E : Type) : Type := MkMembrane {
  mb_spec : MembraneSpec;
  mb_engines : gmap EngineSlot E;
  mb_lifecycle : SemanticLifecycle
}.
Arguments MkMembrane {E}.
Arguments mb_spec {E}.
Arguments mb_engines {E}.
Arguments mb_lifecycle {E}.

(** src/core/membrane/manager.h:231-236 [MembraneManager]. [mg_null] records
    that a null engine pointer has been dereferenced, which is undefined. *)
Record MembraneManager (E : Type) : Type := MkManager {
  mg_base : DBOptions;
  mg_opened : bool;
  mg_membranes : gmap bytes (MembraneState E);
  mg_object_linker : ObjectLinker;
  mg_null : bool;
  mg_fs : fs
}.
Arguments MkManager {E}.
Arguments mg_base {E}.
Arguments mg_opened {E}.
Arguments mg_membranes {E}.
Arguments mg_object_linker {E}.
Arguments mg_null {E}.
Arguments mg_fs {E}.

#[global] Instance mg_HasFs E : HasFs (MembraneManager E) := {|
  get_fs := mg_fs;
  set_fs f s := MkManager (mg_base s) (mg_opened s) (mg_membranes s) (mg_object_linker s) (mg_null s) f
|}.

(** src/core/membrane/manager.h:198-198 [kDefaultMembrane]. *)
Definition kDefaultMembrane : bytes := bstr "__default__".

(** src/core/membrane/manager.cc:377-416 [MembraneManager::CreateMembrane]. The pointer that
    is set for a kind; [Open] has the same chain twice. *)
Definition slot_of (k : MembraneKind) : EngineSlot :=
  match k with
  | kVector => vector_engine
  | kRag => rag_engine
  | kGraph => graph_engine
  | kText => text_engine
  | kTimeSeries => timeseries_engine
  | kKeyValue => keyvalue_engine
  | kMeta => meta_engine
  | kSketch => sketch_engine
  | kBlob => blob_engine
  | kSpatial => spatial_engine
  | kMesh => mesh_engine
  | kSparse => sparse_engine
  | kBitset => bitset_engine
  | kAudio => audio_engine
  | kBloom => bloom_engine
  | kDocument => document_engine
  end.

Section manager.
Context {E : Type} `{EngineOps E}.

Definition with_membranes (f : gmap bytes (MembraneState E) -> gmap bytes (MembraneState E)) (s : MembraneManager E) : MembraneManager E :=
  MkManager (mg_base s) (mg_opened s) (f (mg_membranes s)) (mg_object_linker s) (mg_null s) (mg_fs s).
Definition with_opened (b : bool) (s : MembraneManager E) : MembraneManager E :=
  MkManager (mg_base s) b (mg_membranes s) (mg_object_linker s) (mg_null s) (mg_fs s).
Definition with_linker (l : ObjectLinker) (s : MembraneManager E) : MembraneManager E :=
  MkManager (mg_base s) (mg_opened s) (mg_membranes s) l (mg_null s) (mg_fs s).

Definition with_engines (g : gmap EngineSlot E) (st : MembraneState E) : MembraneState E :=
  MkMembrane (mb_spec st) g (mb_lifecycle st).
Definition with_spec (sp : MembraneSpec) (st : MembraneState E) : MembraneState E :=
  MkMembrane sp (mb_engines st) (mb_lifecycle st).
Definition with_lifecycle (l : SemanticLifecycle) (st : MembraneState E) : MembraneState E :=
  MkMembrane (mb_spec st) (mb_engines st) l.

(** src/core/membrane/manager.cc:89-92 [MembraneManager::MembraneManager]. *)
Definition mg_new (base : DBOptions) (f : fs) : MembraneManager E := MkManager base false ∅ linker_new false f.

(** [state->slot->op(..)] for the membrane [name]. *)
Definition call {A} (name : bytes) (slot : EngineSlot) (op : M (E * fs) A) : M (MembraneManager E) A := fun s =>
  match mg_membranes s !! name with
  | None => (inl (Undefined "null membrane"), MkManager (mg_base s) (mg_opened s) (mg_membranes s) (mg_object_linker s) true (mg_fs s))
  | Some st =>
      match mb_engines st !! slot with
      | None => (inl (Undefined "null engine"), MkManager (mg_base s) (mg_opened s) (mg_membranes s) (mg_object_linker s) true (mg_fs s))
      | Some e =>
          let '(r, (e', f')) := op (e, mg_fs s) in
          (r, set_fs f' (with_membranes (<[name := with_engines (<[slot := e']> (mb_engines st)) st]>) s))
      end
  end.

(** src/core/membrane/manager.cc:330-336 [MembraneManager::GetMembraneOrNull]. With the
    error its callers return. *)
Definition GetMembraneOrNull (name : bytes) : M (MembraneManager E) (MembraneState E) :=
  s ← mget;
  match mg_membranes s !! name with
  | None => mfail (NotFound "membrane not found")
  | Some st => mret st
  end.

Definition has_engine (slot : EngineSlot) (st : MembraneState E) : bool := bool_decide (is_Some (mb_engines st !! slot)).

(** [if (state->slot) st = state->slot->op();] *)
Definition visit (op : M (E * fs) unit) (slot : EngineSlot) (name : bytes) : M (MembraneManager E) unit := fun s =>
  if bool_decide (is_Some (st ← mg_membranes s !! name; mb_engines st !! slot)) then call name slot op s else (inr tt, s).

(** [base_.path + "/membranes/" + name] *)
Definition engine_path (s : MembraneManager E) (name : bytes) : path := db_path (mg_base s) +:+ "/membranes/" +:+ text name.

(** src/core/membrane/manager.cc:375-418 [MembraneManager::CreateMembrane]. The state of a
    membrane and its engine; [emplace] keeps an entry that is there. *)
Definition install (spec : MembraneSpec) (name : bytes) : M (MembraneManager E) unit :=
  s ← mget;
  e ← on_fs (eng_make (slot_of (ms_kind spec)) (engine_path s name) spec);
  mmodify (with_membranes (fun m =>
    match m !! name with
    | Some _ => m
    | None => <[name := MkMembrane spec {[slot_of (ms_kind spec) := e]}
                 (SetMaxEntries (db_max_lifecycle_entries (mg_base s)) lifecycle_new)]> m
    end)).

(** src/core/membrane/manager.cc:346-420 [MembraneManager::CreateMembrane]. *)
Definition mg_CreateMembrane (spec : MembraneSpec) : M (MembraneManager E) unit :=
  mguard (negb (bool_decide (ms_name spec = []))) (InvalidArgument "membrane name empty") ;;
  mguard (negb (dim_required (ms_kind spec) && (ms_dim spec =? 0))) (InvalidArgument "membrane dim must be > 0") ;;
  mguard (negb (ms_shard_count spec =? 0)) (InvalidArgument "membrane shard_count must be > 0") ;;
  s ← mget;
  mguard (bool_decide (mg_membranes s !! ms_name spec = None)) (AlreadyExists "membrane already exists") ;;
  on_fs (CreateMembrane (db_path (mg_base s)) spec) ;;
  install spec (ms_name spec).

(** src/core/membrane/manager.cc:422-441 [MembraneManager::DropMembrane]. *)
Definition mg_DropMembrane (name : bytes) : M (MembraneManager E) unit :=
  GetMembraneOrNull name ;;
  s ← mget;
  on_fs (DropMembrane (db_path (mg_base s)) name) ;;
  ignore (visit (eng_Close vector_engine) vector_engine name) ;;
  ignore (visit (eng_Close rag_engine) rag_engine name) ;;
  mmodify (with_membranes (delete name)).

(** src/core/membrane/manager.cc:443-471 [MembraneManager::OpenMembrane]. *)
Definition mg_OpenMembrane (name : bytes) : M (MembraneManager E) unit :=
  st ← GetMembraneOrNull name;
  match ms_kind (mb_spec st) with
  | kVector => call name vector_engine (eng_Open vector_engine)
  | kRag => call name rag_engine (eng_Open rag_engine)
  | kTimeSeries => call name timeseries_engine (eng_Open timeseries_engine)
  | kKeyValue => call name keyvalue_engine (eng_Open keyvalue_engine)
  | kMeta => call name meta_engine (eng_Open meta_engine)
  | kBlob => call name blob_engine (eng_Open blob_engine)
  | kSpatial => call name spatial_engine (eng_Open spatial_engine)
  | kMesh => call name mesh_engine (eng_Open mesh_engine)
  | kGraph => if has_engine graph_engine st then call name graph_engine (eng_Open graph_engine) else mret tt
  | _ => mret tt
  end.

(** src/core/membrane/manager.cc:473-496 [MembraneManager::CloseMembrane]. *)
Definition mg_CloseMembrane (name : bytes) : M (MembraneManager E) unit :=
  st ← GetMembraneOrNull name;
  match ms_kind (mb_spec st) with
  | kVector => call name vector_engine (eng_Close vector_engine)
  | kRag => call name rag_engine (eng_Close rag_engine)
  | kTimeSeries => call name timeseries_engine (eng_Close timeseries_engine)
  | kKeyValue => call name keyvalue_engine (eng_Close keyvalue_engine)
  | kMeta => call name meta_engine (eng_Close meta_engine)
  | kBlob => call name blob_engine (eng_Close blob_engine)
  | kSpatial => call name spatial_engine (eng_Close spatial_engine)
  | kMesh => call name mesh_engine (eng_Close mesh_engine)
  | _ => mret tt
  end.

(** ** Start-up and shutdown *)

(** src/core/membrane/manager.cc:190-255 [MembraneManager::Open]. *)
Fixpoint restore (names : list bytes) : M (MembraneManager E) unit :=
  match names with
  | [] => mret tt
  | name :: names =>
      (if bool_decide (name = kDefaultMembrane) then mret tt else
       s ← mget;
       mspec ← on_fs (GetMembrane (db_path (mg_base s)) name MembraneSpec_default);
       (if bool_decide (mg_membranes s !! name = None) then install mspec name else mret tt) ;;
       mg_OpenMembrane name) ;;
      restore names
  end.

(** src/core/membrane/manager.cc:106-111 [MembraneManager::Open]. *)
Definition default_spec (base : DBOptions) : MembraneSpec :=
  MkSpec kDefaultMembrane (db_shard_count base) (db_dim base) (db_metric base) (db_index_params base) kVector 0 0 0 0.

(** src/core/membrane/manager.cc:95-258 [MembraneManager::Open]. The registration of the
    periodic mesh task is not modelled. *)
Definition mg_Open : M (MembraneManager E) unit :=
  s ← mget;
  let root := db_path (mg_base s) in
  compat ← try_ (on_fs (CheckCompatibility root));
  (match compat with
   | inl e => mguard (bool_decide (st_code e = kIO)) e
   | inr _ => mret tt
   end) ;;
  mmodify (with_opened true) ;;
  st ← try_ (mg_CreateMembrane (default_spec (mg_base s)));
  (match st with
   | inr _ => mret tt
   | inl e =>
       if bool_decide (st_code e = kAlreadyExists)
       then loaded_spec ← on_fs (GetMembrane root kDefaultMembrane MembraneSpec_default);
            install loaded_spec kDefaultMembrane
       else mfail e
   end) ;;
  mg_OpenMembrane kDefaultMembrane ;;
  membranes ← on_fs (ListMembranes root);
  restore membranes.

(** src/core/membrane/manager.cc:286-318 [MembraneManager::CloseAll]. The engines that are
    closed, in order; the graph engine is flushed after them. *)
Definition closed_slots : list EngineSlot :=
  [vector_engine; rag_engine; timeseries_engine; keyvalue_engine; meta_engine; blob_engine; spatial_engine;
   mesh_engine; audio_engine; bloom_engine; document_engine].

Fixpoint for_each {A} (f : A -> M (MembraneManager E) unit) (l : list A) : M (MembraneManager E) unit :=
  match l with [] => mret tt | x :: l => f x ;; for_each f l end.

(** src/core/membrane/manager.cc:283-328 [MembraneManager::CloseAll]. *)
Definition mg_CloseAll (ord : MapOrder bytes (MembraneState E)) : M (MembraneManager E) unit :=
  s ← mget;
  for_each (fun name =>
    for_each (fun slot => ignore (visit (eng_Close slot) slot name)) closed_slots ;;
    ignore (visit (eng_Flush graph_engine) graph_engine name)) (iter_order (mg_membranes s)).*1 ;;
  mmodify (with_membranes (fun _ => ∅)) ;;
  mmodify (with_opened false).

(** src/core/membrane/manager.cc:265-281 [MembraneManager::FlushAll]. *)
Definition mg_FlushAll (ord : MapOrder bytes (MembraneState E)) : M (MembraneManager E) unit :=
  s ← mget;
  for_each (fun name =>
    visit (eng_Flush vector_engine) vector_engine name ;;
    visit (eng_Flush graph_engine) graph_engine name) (iter_order (mg_membranes s)).*1.

(** ** Retention and listing *)

(** src/core/membrane/manager.cc:498-517 [MembraneManager::UpdateMembraneRetention]. *)
Definition mg_UpdateMembraneRetention (name : bytes) (ttl max_count max_bytes : Z) : M (MembraneManager E) unit :=
  st ← GetMembraneOrNull name;
  mguard (has_engine meta_engine st || has_engine keyvalue_engine st)
    (InvalidArgument "retention update currently supported for META/KEYVALUE membranes") ;;
  s ← mget;
  on_fs (UpdateRetentionPolicy (db_path (mg_base s)) name ttl max_count max_bytes) ;;
  mmodify (with_membranes (alter (fun st => with_spec (set_max_bytes max_bytes (set_max_count max_count (set_ttl ttl (mb_spec st)))) st) name)) ;;
  if has_engine meta_engine st
  then call name meta_engine (eng_SetRetentionPolicy meta_engine ttl max_count max_bytes)
  else call name keyvalue_engine (eng_SetRetentionPolicy keyvalue_engine ttl max_count max_bytes).

(** src/core/membrane/manager.cc:519-530 [MembraneManager::GetMembraneRetention]. *)
Definition mg_GetMembraneRetention (name : bytes) : M (MembraneManager E) (Z * Z * Z) :=
  st ← GetMembraneOrNull name;
  mret (ms_ttl_sec (mb_spec st), ms_retention_max_count (mb_spec st), ms_retention_max_bytes (mb_spec st)).

(** src/core/membrane/manager.cc:532-542 [MembraneManager::ListMembranes]. *)
Definition mg_ListMembranes : M (MembraneManager E) (list bytes) :=
  s ← mget;
  mret (sort_names (map_to_list (mg_membranes s)).*1).

(** ** Forwarding *)

(** The engine pointer is tested. *)
Definition forward {A} (slot : EngineSlot) (msg : string) (name : bytes) (op : M (E * fs) A) : M (MembraneManager E) A :=
  st ← GetMembraneOrNull name;
  mguard (has_engine slot st) (InvalidArgument msg) ;;
  call name slot op.

(** The kind is tested and the pointer used. *)
Definition forward_kind {A} (k : MembraneKind) (msg : string) (name : bytes) (op : M (E * fs) A) : M (MembraneManager E) A :=
  st ← GetMembraneOrNull name;
  mguard (bool_decide (ms_kind (mb_spec st) = k)) (InvalidArgument msg) ;;
  call name (slot_of k) op.

Context {A : Type}.

(** src/core/membrane/manager.cc:781-793 [TsPut, TsRange]. *)
Definition mg_Ts (name : bytes) (op : M (E * fs) A) := forward timeseries_engine "TIMESERIES membrane required" name op.
(** src/core/membrane/manager.cc:795-814 [KvPut, KvGet, KvDelete]. *)
Definition mg_Kv (name : bytes) (op : M (E * fs) A) := forward keyvalue_engine "KEYVALUE membrane required" name op.
(** src/core/membrane/manager.cc:816-835 [MetaPut, MetaGet, MetaDelete]. *)
Definition mg_Meta (name : bytes) (op : M (E * fs) A) := forward meta_engine "META membrane required" name op.
(** src/core/membrane/manager.cc:864-890 [SketchAdd, SketchEstimate, SketchSeen, SketchUniqueEstimate]. *)
Definition mg_Sketch (name : bytes) (op : M (E * fs) A) := forward sketch_engine "SKETCH membrane required" name op.
(** src/core/membrane/manager.cc:892-911 [BlobPut, BlobGet, BlobDelete]. *)
Definition mg_Blob (name : bytes) (op : M (E * fs) A) := forward blob_engine "BLOB membrane required" name op.
(** src/core/membrane/manager.cc:913-939 [SpatialPut, SpatialRadiusSearch, SpatialWithinPolygon, SpatialNearest]. *)
Definition mg_Spatial (name : bytes) (op : M (E * fs) A) := forward spatial_engine "SPATIAL membrane required" name op.
(** src/core/membrane/manager.cc:990-1016 [SparsePut, SparseDot, SparseIntersect, SparseJaccard]. *)
Definition mg_Sparse (name : bytes) (op : M (E * fs) A) := forward sparse_engine "SPARSE membrane required" name op.
(** src/core/membrane/manager.cc:1018-1058 [BitsetPut, BitsetAnd, BitsetOr, BitsetXor, BitsetHamming, BitsetJaccard]. *)
Definition mg_Bitset (name : bytes) (op : M (E * fs) A) := forward bitset_engine "BITSET membrane required" name op.
(** src/core/membrane/manager.cc:1060-1090 [AddVertex, AddEdge, DeleteVertex, DeleteEdge]. *)
Definition mg_Graph (name : bytes) (op : M (E * fs) A) := forward graph_engine "Graph membrane required" name op.
(** src/core/membrane/manager.cc:1092-1104 [GetNeighbors]. *)
Definition mg_GetNeighbors (name : bytes) (op : M (E * fs) A) := forward graph_engine "GRAPH membrane required for GetNeighbors" name op.
(** src/core/membrane/manager.cc:1224-1247 [AudioPut, AudioDelete, AudioSearch]. *)
Definition mg_Audio (name : bytes) (op : M (E * fs) A) := forward audio_engine "AUDIO membrane required" name op.
(** src/core/membrane/manager.cc:1251-1280 [BloomAdd, BloomMightContain, BloomDrop, BloomEstimateFPR]. *)
Definition mg_Bloom (name : bytes) (op : M (E * fs) A) := forward bloom_engine "BLOOM membrane required" name op.
(** src/core/membrane/manager.cc:1284-1314 [DocumentPut, DocumentGet, DocumentDelete, DocumentSearch]. *)
Definition mg_Document (name : bytes) (op : M (E * fs) A) := forward document_engine "DOCUMENT membrane required" name op.

(** src/core/membrane/manager.cc:647-657 [MembraneManager::Get]. *)
Definition mg_Get (name : bytes) (op : M (E * fs) A) := forward_kind kVector "VECTOR membrane required for Get" name op.
(** src/core/membrane/manager.cc:659-669 [MembraneManager::Exists]. *)
Definition mg_Exists (name : bytes) (op : M (E * fs) A) := forward_kind kVector "VECTOR membrane required for Exists" name op.
(** src/core/membrane/manager.cc:751-762 [MembraneManager::SearchBatch]. *)
Definition mg_SearchBatch (name : bytes) (op : M (E * fs) A) := forward_kind kVector "VECTOR membrane required for SearchBatch" name op.
(** src/core/membrane/manager.cc:764-775 [MembraneManager::SearchRag]. *)
Definition mg_SearchRag (name : bytes) (op : M (E * fs) A) := forward_kind kRag "RAG membrane required for SearchRag" name op.
(** src/core/membrane/manager.cc:1106-1113 [MembraneManager::Freeze]. *)
Definition mg_Freeze (name : bytes) (op : M (E * fs) A) := forward_kind kVector "VECTOR membrane required for Freeze" name op.
(** src/core/membrane/manager.cc:1130-1138 [MembraneManager::NewIterator]. *)
Definition mg_NewIterator (name : bytes) (op : M (E * fs) A) := forward_kind kVector "VECTOR membrane required for iterator" name op.
(** src/core/membrane/manager.cc:1140-1148 [MembraneManager::GetSnapshot]. *)
Definition mg_GetSnapshot (name : bytes) (op : M (E * fs) A) := forward_kind kVector "VECTOR membrane required for snapshot" name op.

(** src/core/membrane/manager.cc:671-680 [MembraneManager::Delete]. *)
Definition mg_Delete (name : bytes) (id : Z) (op : M (E * fs) A) : M (MembraneManager E) A :=
  st ← GetMembraneOrNull name;
  mguard (bool_decide (ms_kind (mb_spec st) = kVector)) (InvalidArgument "VECTOR membrane required for Delete") ;;
  mmodify (with_membranes (alter (fun st => with_lifecycle (OnDelete id (mb_lifecycle st)) st) name)) ;;
  call name vector_engine op.

(** src/core/membrane/manager.cc:1115-1128 [MembraneManager::Compact]. *)
Definition mg_Compact (name : bytes) : M (MembraneManager E) unit :=
  st ← GetMembraneOrNull name;
  let k := ms_kind (mb_spec st) in
  if bool_decide (k = kMeta) && has_engine meta_engine st then call name meta_engine (eng_Compact meta_engine) else
  if bool_decide (k = kKeyValue) && has_engine keyvalue_engine st then call name keyvalue_engine (eng_Compact keyvalue_engine) else
  mguard (bool_decide (k = kVector)) (InvalidArgument "VECTOR membrane required for Compact") ;;
  call name vector_engine (eng_Compact vector_engine).

(** src/core/membrane/manager.cc:837-839 [MembraneManager::LinkObjects]. *)
Definition mg_LinkObjects (gid : bytes) (vector_id graph_vertex_id mesh_id : Z) : M (MembraneManager E) unit := fun s =>
  let '(r, l) := LinkByGid gid vector_id graph_vertex_id mesh_id (mg_object_linker s) in (r, with_linker l s).

(** src/core/membrane/manager.cc:841-843 [MembraneManager::UnlinkObjects]. *)
Definition mg_UnlinkObjects (gid : bytes) : M (MembraneManager E) unit := fun s =>
  let '(r, l) := UnlinkByGid gid (mg_object_linker s) in (r, with_linker l s).

End manager.
