(* ===== verification/ManagerTheorems.v ===== *)
(** * Theorems about the membrane manager

    Every membrane has exactly the engine of its kind, so the code that uses an
    engine pointer after testing only the kind never dereferences null. *)
From S2P Require Import Prelude Env Text PosixFile Manifest ManifestTheorems ManifestCatalogue Linker Lifecycle Manager.

Open Scope Z_scope.

(** ** Operations as data *)

Section typed.
Context {E : Type} `{EngineOps E}.

Inductive mgr_op : Type :=
  | MCreate (spec : MembraneSpec)
  | MDrop (name : bytes)
  | MOpen
  | MOpenMembrane (name : bytes)
  | MCloseMembrane (name : bytes)
  | MCloseAll (ord : MapOrder bytes (MembraneState E))
  | MFlushAll (ord : MapOrder bytes (MembraneState E))
  | MRetention (name : bytes) (ttl max_count max_bytes : Z)
  | MForward (slot : EngineSlot) (msg : string) (name : bytes) (op : M (E * fs) unit)
  | MForwardKind (k : MembraneKind) (msg : string) (name : bytes) (op : M (E * fs) unit)
  | MDelete (name : bytes) (id : Z) (op : M (E * fs) unit)
  | MCompact (name : bytes)
  | MLink (gid : bytes) (v g m : Z)
  | MUnlink (gid : bytes).

Definition mgr_run (op : mgr_op) : M (MembraneManager E) unit :=
  match op with
  | MCreate spec => mg_CreateMembrane spec
  | MDrop name => mg_DropMembrane name
  | MOpen => mg_Open
  | MOpenMembrane name => mg_OpenMembrane name
  | MCloseMembrane name => mg_CloseMembrane name
  | MCloseAll ord => mg_CloseAll ord
  | MFlushAll ord => mg_FlushAll ord
  | MRetention name ttl c b => mg_UpdateMembraneRetention name ttl c b
  | MForward slot msg name op => forward slot msg name op
  | MForwardKind k msg name op => forward_kind k msg name op
  | MDelete name id op => mg_Delete name id op
  | MCompact name => mg_Compact name
  | MLink gid v g m => mg_LinkObjects gid v g m
  | MUnlink gid => mg_UnlinkObjects gid
  end.

Definition mgr_exec (ops : list mgr_op) (s : MembraneManager E) : MembraneManager E :=
  fold_left (fun s op => (mgr_run op s).2) ops s.

(** ** Each membrane has the engine of its kind *)

Definition membrane_typed (st : MembraneState E) : Prop :=
  exists e, mb_engines st = {[slot_of (ms_kind (mb_spec st)) := e]}.

Definition typed (s : MembraneManager E) : Prop := mg_null s = false /\ map_Forall (fun _ => membrane_typed) (mg_membranes s).

Definition keeps_typed {A} (m : M (MembraneManager E) A) : Prop := forall s, typed s -> typed (m s).2.

Lemma typed_bind {A B} (m : M (MembraneManager E) A) (k : A -> M (MembraneManager E) B) :
  keeps_typed m -> (forall a, keeps_typed (k a)) -> keeps_typed (m ≫= k).
Proof.
  intros Hm Hk s Hs. unfold mbind, M_bind. specialize (Hm s Hs). destruct (m s) as [[e | a] s1]; [done |]. by apply Hk.
Qed.

Lemma typed_ret {A} (a : A) : keeps_typed (mret a).
Proof. by intros s. Qed.
Lemma typed_get : keeps_typed mget.
Proof. by intros s. Qed.
Lemma typed_guard b e : keeps_typed (mguard b e).
Proof. by destruct b; intros s. Qed.
Lemma typed_fail {A} e : keeps_typed (A := A) (mfail e).
Proof. by intros s. Qed.
Lemma typed_on_fs {A} (m : M fs A) : keeps_typed (on_fs m).
Proof. intros s [Hn Hm]. unfold on_fs. cbn. by destruct (m (mg_fs s)). Qed.
Lemma typed_try {A} (m : M (MembraneManager E) A) : keeps_typed m -> keeps_typed (try_ m).
Proof. intros Hm s Hs. specialize (Hm s Hs). unfold try_. by destruct (m s). Qed.
Lemma typed_opened b : keeps_typed (mmodify (with_opened b)).
Proof. by intros s. Qed.

(** A changed entry that keeps its kind and its engines. *)
Lemma typed_alter (f : MembraneState E -> MembraneState E) name :
  (forall st, ms_kind (mb_spec (f st)) = ms_kind (mb_spec st) /\ mb_engines (f st) = mb_engines st) ->
  keeps_typed (mmodify (with_membranes (alter f name))).
Proof.
  intros Hf s [Hn Hm]. split; [done |]. cbn. intros n st Hst. apply lookup_alter_Some in Hst as [(-> & st' & Hst' & ->) | [_ Hst]].
  - destruct (Hf st') as [Hk He]. unfold membrane_typed. rewrite Hk, He. by apply (Hm n).
  - by apply (Hm n).
Qed.

(** A pointer that is there can be used. *)
Lemma call_typed {A} name slot (op : M (E * fs) A) s st :
  typed s -> mg_membranes s !! name = Some st -> is_Some (mb_engines st !! slot) -> typed (call name slot op s).2.
Proof.
  intros [Hn Hm] Hst [e He]. unfold call. rewrite Hst, He. destruct (op (e, mg_fs s)) as [r [e' f']].
  split; [done |]. cbn. apply map_Forall_insert_2; [| done]. destruct (Hm name st Hst) as [e0 He0].
  rewrite He0 in He. apply lookup_singleton_Some in He as [<- <-]. exists e'. cbn. by rewrite He0, insert_singleton_eq.
Qed.

Lemma typed_slot s name st k :
  typed s -> mg_membranes s !! name = Some st -> ms_kind (mb_spec st) = k -> is_Some (mb_engines st !! slot_of k).
Proof. intros [_ Hm] Hst <-. destruct (Hm name st Hst) as [e ->]. rewrite lookup_singleton_eq. by eexists. Qed.

Lemma has_engine_true slot (st : MembraneState E) : has_engine slot st = true -> is_Some (mb_engines st !! slot).
Proof. apply bool_decide_eq_true. Qed.

Lemma typed_lookup {A} name (k : MembraneState E -> M (MembraneManager E) A) :
  (forall s st, typed s -> mg_membranes s !! name = Some st -> typed (k st s).2) ->
  keeps_typed (GetMembraneOrNull name ≫= k).
Proof.
  intros Hk s Hs. unfold GetMembraneOrNull, mbind, M_bind, mget.
  destruct (mg_membranes s !! name) as [st |] eqn:Hst; [by apply Hk | done].
Qed.
End typed.

Section typed_ops.
Context {E : Type} `{EngineOps E}.
Implicit Types s : MembraneManager E.

Lemma install_typed spec name : keeps_typed (install (E := E) spec name).
Proof.
  unfold install. apply typed_bind; [apply typed_get |]. intros s0. apply typed_bind; [apply typed_on_fs |].
  intros e s [Hn Hm]. split; [done |]. cbn. destruct (mg_membranes s !! name); [done |].
  apply map_Forall_insert_2; [by exists e | done].
Qed.

Lemma create_typed spec : keeps_typed (mg_CreateMembrane (E := E) spec).
Proof.
  unfold mg_CreateMembrane. do 3 (apply typed_bind; [apply typed_guard | intros _]).
  apply typed_bind; [apply typed_get |]. intros s0. apply typed_bind; [apply typed_guard | intros _].
  apply typed_bind; [apply typed_on_fs | intros _]. apply install_typed.
Qed.

Lemma forward_typed {A} slot msg name (op : M (E * fs) A) : keeps_typed (forward slot msg name op).
Proof.
  apply typed_lookup. intros s st Hs Hst. unfold mguard. destruct (has_engine slot st) eqn:He; [| done].
  apply (call_typed _ _ _ _ st Hs Hst), has_engine_true, He.
Qed.

Lemma forward_kind_typed {A} k msg name (op : M (E * fs) A) : keeps_typed (forward_kind k msg name op).
Proof.
  apply typed_lookup. intros s st Hs Hst. unfold mguard. case_bool_decide as Hk; [| done].
  by apply (call_typed _ _ _ _ st Hs Hst), (typed_slot s name).
Qed.

Lemma open_membrane_typed name : keeps_typed (mg_OpenMembrane (E := E) name).
Proof.
  apply typed_lookup. intros s st Hs Hst. pose proof (typed_slot s name st _ Hs Hst eq_refl) as Hslot.
  destruct (ms_kind (mb_spec st)); try done; try by apply (call_typed _ _ _ _ st).
  destruct (has_engine graph_engine st); [by apply (call_typed _ _ _ _ st) | done].
Qed.

Lemma close_membrane_typed name : keeps_typed (mg_CloseMembrane (E := E) name).
Proof.
  apply typed_lookup. intros s st Hs Hst. pose proof (typed_slot s name st _ Hs Hst eq_refl) as Hslot.
  by destruct (ms_kind (mb_spec st)); try done; apply (call_typed _ _ _ _ st).
Qed.

Lemma restore_typed names : keeps_typed (restore (E := E) names).
Proof.
  induction names as [| name names IH]; [apply typed_ret |]. cbn [restore]. apply typed_bind; [| by intros _].
  destruct (bool_decide (name = kDefaultMembrane)); [apply typed_ret |].
  apply typed_bind; [apply typed_get |]. intros s0. apply typed_bind; [apply typed_on_fs |]. intros mspec.
  apply typed_bind; [destruct (bool_decide _); [apply install_typed | apply typed_ret] |]. intros _. apply open_membrane_typed.
Qed.

Lemma open_typed : keeps_typed (mg_Open (E := E)).
Proof.
  unfold mg_Open. apply typed_bind; [apply typed_get |]. intros s0.
  apply typed_bind; [apply typed_try, typed_on_fs |]. intros compat.
  apply typed_bind; [destruct compat; [apply typed_guard | apply typed_ret] |]. intros _.
  apply typed_bind; [apply typed_opened |]. intros _. apply typed_bind; [apply typed_try, create_typed |]. intros st.
  apply typed_bind.
  { destruct st as [e |]; [| apply typed_ret]. destruct (bool_decide _); [| apply typed_fail].
    apply typed_bind; [apply typed_on_fs |]. intros spec. apply install_typed. }
  intros _. apply typed_bind; [apply open_membrane_typed |]. intros _. apply typed_bind; [apply typed_on_fs |]. apply restore_typed.
Qed.

Lemma visit_typed op slot name : keeps_typed (visit (E := E) op slot name).
Proof.
  intros s Hs. unfold visit. case_bool_decide as Hv; [| done]. destruct Hv as [e (st & Hst & He)%bind_Some].
  apply (call_typed _ _ _ _ st Hs Hst). by eexists.
Qed.

Lemma ignore_typed {A} (m : M (MembraneManager E) A) : keeps_typed m -> keeps_typed (ignore m).
Proof. intros Hm s. apply Hm. Qed.

Lemma for_each_typed {A} (f : A -> M (MembraneManager E) unit) l : (forall x, keeps_typed (f x)) -> keeps_typed (for_each f l).
Proof. intros Hf. induction l as [| x l IH]; [apply typed_ret |]. by apply typed_bind. Qed.

Lemma close_all_typed ord : keeps_typed (mg_CloseAll (E := E) ord).
Proof.
  unfold mg_CloseAll. apply typed_bind; [apply typed_get |]. intros s0. apply typed_bind.
  - apply for_each_typed. intros name. apply typed_bind; [apply for_each_typed; intros; apply ignore_typed, visit_typed |].
    intros _. apply ignore_typed, visit_typed.
  - intros _. apply typed_bind; [| intros _; apply typed_opened]. intros s [Hn _]. split; [done |]. apply map_Forall_empty.
Qed.

Lemma flush_all_typed ord : keeps_typed (mg_FlushAll (E := E) ord).
Proof.
  unfold mg_FlushAll. apply typed_bind; [apply typed_get |]. intros s0. apply for_each_typed.
  intros name. apply typed_bind; [apply visit_typed |]. intros _. apply visit_typed.
Qed.

Lemma lookup_typed name : keeps_typed (GetMembraneOrNull (E := E) name).
Proof. intros s Hs. unfold GetMembraneOrNull, mbind, M_bind, mget. by destruct (mg_membranes s !! name). Qed.

Lemma drop_typed name : keeps_typed (mg_DropMembrane (E := E) name).
Proof.
  unfold mg_DropMembrane. apply typed_bind; [apply lookup_typed |]. intros _. apply typed_bind; [apply typed_get |]. intros s0.
  apply typed_bind; [apply typed_on_fs |]. intros _. do 2 (apply typed_bind; [apply ignore_typed, visit_typed |]; intros _).
  intros s [Hn Hm]. split; [done |]. by apply map_Forall_delete.
Qed.

(** A call after changes that keep the engines of the entry. *)
Lemma alter_call_typed {A} (f : MembraneState E -> MembraneState E) name slot (op : M (E * fs) A) s st :
  (forall st, ms_kind (mb_spec (f st)) = ms_kind (mb_spec st) /\ mb_engines (f st) = mb_engines st) ->
  typed s -> mg_membranes s !! name = Some st -> is_Some (mb_engines st !! slot) ->
  typed ((mmodify (with_membranes (alter f name)) ;; call name slot op) s).2.
Proof.
  intros Hf Hs Hst Hsl. unfold mbind, M_bind, mmodify. apply (call_typed _ _ _ _ (f st)).
  - exact (typed_alter f name Hf s Hs).
  - cbn. by rewrite lookup_alter_eq, Hst.
  - by rewrite (proj2 (Hf st)).
Qed.

Lemma retention_typed name ttl c b : keeps_typed (mg_UpdateMembraneRetention (E := E) name ttl c b).
Proof.
  apply typed_lookup. intros s st Hs Hst. unfold mguard.
  destruct (has_engine meta_engine st || has_engine keyvalue_engine st) eqn:He; [| done].
  rewrite (mbind_ok (mret tt) _ _ _ _ eq_refl), (mbind_ok mget _ _ _ _ eq_refl).
  pose proof (typed_on_fs (UpdateRetentionPolicy (db_path (mg_base s)) name ttl c b) s Hs) as Hs1.
  assert (mg_membranes (on_fs (UpdateRetentionPolicy (db_path (mg_base s)) name ttl c b) s).2 = mg_membranes s) as Hm1.
  { unfold on_fs. cbn. by destruct (UpdateRetentionPolicy _ _ _ _ _ _). }
  unfold mbind at 1, M_bind at 1. destruct (on_fs _ s) as [[e | []] s1]; [done |]. cbn [snd] in *. rewrite <- Hm1 in Hst.
  destruct (has_engine meta_engine st) eqn:Hmeta.
  - apply alter_call_typed with st; try done. by apply has_engine_true.
  - apply alter_call_typed with st; try done. by apply has_engine_true.
Qed.

Lemma delete_typed {A} name id (op : M (E * fs) A) : keeps_typed (mg_Delete name id op).
Proof.
  apply typed_lookup. intros s st Hs Hst. unfold mguard. case_bool_decide as Hk; [| done].
  rewrite (mbind_ok (mret tt) _ _ _ _ eq_refl). apply alter_call_typed with st; try done.
  by apply (typed_slot s name st kVector).
Qed.

Lemma compact_typed name : keeps_typed (mg_Compact (E := E) name).
Proof.
  apply typed_lookup. intros s st Hs Hst. cbn zeta.
  destruct (bool_decide _ && has_engine meta_engine st) eqn:H1.
  { apply andb_true_iff in H1 as [_ H1%has_engine_true]. by apply (call_typed _ _ _ _ st). }
  destruct (bool_decide _ && has_engine keyvalue_engine st) eqn:H2.
  { apply andb_true_iff in H2 as [_ H2%has_engine_true]. by apply (call_typed _ _ _ _ st). }
  clear H1 H2. unfold mguard. case_bool_decide as Hk; [| done]. by apply (call_typed _ _ _ _ st Hs Hst), (typed_slot s name st kVector).
Qed.

Lemma mgr_run_typed (op : mgr_op) : keeps_typed (mgr_run op).
Proof.
  destruct op; cbn [mgr_run].
  - apply create_typed.
  - apply drop_typed.
  - apply open_typed.
  - apply open_membrane_typed.
  - apply close_membrane_typed.
  - apply close_all_typed.
  - apply flush_all_typed.
  - apply retention_typed.
  - apply forward_typed.
  - apply forward_kind_typed.
  - apply delete_typed.
  - apply compact_typed.
  - intros s Hs. unfold mg_LinkObjects. by destruct (LinkByGid _ _ _ _ _).
  - intros s Hs. unfold mg_UnlinkObjects. by destruct (UnlinkByGid _ _).
Qed.

(** The engines of a membrane are well typed: whatever engines are plugged in, whatever
    is called and whichever I/O fails, every registered membrane has exactly
    one engine pointer set, the one of its kind.  So the manager never
    dereferences a null engine pointer, although many of its operations test
    only the kind. *)
Theorem manager_engines_typed (base : DBOptions) (f : fs) (ops : list mgr_op) :
  let s := mgr_exec ops (mg_new (E := E) base f) in
  mg_null s = false /\
  forall name st, mg_membranes s !! name = Some st -> dom (mb_engines st) = {[slot_of (ms_kind (mb_spec st))]}.
Proof.
  intros s. assert (typed s) as [Hn Hm].
  { unfold s, mgr_exec. assert (typed (mg_new (E := E) base f)) as Hs by (split; [done | apply map_Forall_empty]).
    revert Hs. generalize (mg_new (E := E) base f). induction ops as [| op ops IH]; intros s0 Hs; [done |]. by apply IH, mgr_run_typed. }
  split; [done |]. intros name st Hst. destruct (Hm name st Hst) as [e ->]. by rewrite dom_singleton_L.
Qed.

End typed_ops.
