(* ===== verification/ManagerRestart.v ===== *)
(** * Restarting the membrane manager

    The registry in memory, the catalogue on disk and the files of the engines
    are kept together.  What an engine promises to the manager is the class
    [EngineLaws]; the theorem is proved for every engine that keeps the promise,
    and the key-value engine does. *)
From S2P Require Import Prelude Env Text PosixFile Manifest ManifestTheorems ManifestCatalogue Linker Lifecycle Manager ManagerTheorems.

Open Scope Z_scope.

(** ** Who owns which file *)

(** The directory of a membrane as the manager names it. *)
Definition mdir (root : path) (name : bytes) : path := root +:+ "/membranes/" +:+ text name.

(** A root that is not empty and does not end in a slash. *)
Definition root_plain (root : path) : Prop := dir_prefix root = bstr (root +:+ "/").

(** The files of the catalogue. *)
Definition manifest_file (root p : path) : Prop :=
  p = RootManifestPath root \/ p = tmp_of (RootManifestPath root) \/
  exists n, IsValidName n = true /\ (p = MembraneManifestPath root n \/ p = tmp_of (MembraneManifestPath root n)).

(** The files of an engine: those in its directory except its manifest. *)
Definition own (dir p : path) : Prop := below dir p = true /\ p <> dir +:+ "/MANIFEST" /\ p <> dir +:+ "/MANIFEST.tmp".

Definition only (dir : path) (fm fm' : gmap path bytes) : Prop := forall p, ~ own dir p -> fm' !! p = fm !! p.

Definition fresh (dir : path) (fm : gmap path bytes) : Prop := forall p, own dir p -> fm !! p = None.

Lemma only_refl dir fm : only dir fm fm.
Proof. by intros p. Qed.

Lemma only_trans dir fm1 fm2 fm3 : only dir fm1 fm2 -> only dir fm2 fm3 -> only dir fm1 fm3.
Proof. intros H1 H2 p Hp. by rewrite H2, H1. Qed.

Section paths.
Context (root : path) (Hroot : root_plain root).

Lemma bstr_mdir n : bstr (mdir root n) = dir_prefix root ++ bstr "membranes/" ++ n.
Proof using Hroot. unfold mdir. rewrite !bstr_app, bstr_text, Hroot, bstr_app, <- !app_assoc. done. Qed.

Lemma MembraneDir_mdir n : MembraneDir root n = mdir root n.
Proof using Hroot. apply bstr_inj. by rewrite bstr_MembraneDir, bstr_mdir. Qed.

Lemma MembraneManifestPath_mdir n : IsValidName n = true -> MembraneManifestPath root n = mdir root n +:+ "/MANIFEST".
Proof using Hroot.
  intros Hn. apply bstr_inj. rewrite bstr_MembraneManifestPath, bstr_app, bstr_mdir by done. by rewrite <- !app_assoc.
Qed.

Lemma tmp_MembraneManifestPath_mdir n : IsValidName n = true -> tmp_of (MembraneManifestPath root n) = mdir root n +:+ "/MANIFEST.tmp".
Proof using Hroot.
  intros Hn. apply bstr_inj. unfold tmp_of.
  rewrite bstr_app, bstr_MembraneManifestPath, bstr_app, bstr_mdir by done. by rewrite <- !app_assoc.
Qed.

Lemma below_mdir n p : below (mdir root n) p = true <-> exists k, bstr p = dir_prefix root ++ bstr "membranes/" ++ n ++ bstr "/" ++ k.
Proof using Hroot.
  unfold below. rewrite bool_decide_eq_true, bstr_app, bstr_mdir. split; intros [k Hk]; exists k; rewrite Hk; by rewrite <- !app_assoc.
Qed.

(** Directories of different membranes have no file in common. *)
Lemma below_unique n m p :
  IsValidName n = true -> IsValidName m = true -> below (mdir root n) p = true -> below (mdir root m) p = true -> n = m.
Proof using Hroot.
  intros Hn Hm [k1 H1]%below_mdir [k2 H2]%below_mdir. rewrite H1 in H2. do 2 apply app_inv_head in H2. clear H1.
  apply valid_no_slash in Hn. apply valid_no_slash in Hm. revert m Hm H2. induction n as [| c n IH]; intros [| d m] Hm H2; [done | ..].
  - cbn in H2. injection H2 as <- _. destruct Hm. by left.
  - cbn in H2. injection H2 as -> _. destruct Hn. by left.
  - cbn in H2. injection H2 as -> H2. rewrite not_elem_of_cons in Hn, Hm. f_equal. apply IH; [apply Hn | apply Hm | exact H2].
Qed.

Lemma root_not_below n : below (mdir root n) (RootManifestPath root) = false /\ below (mdir root n) (tmp_of (RootManifestPath root)) = false.
Proof using Hroot.
  split; apply not_true_is_false; intros [k Hk]%below_mdir; unfold tmp_of in Hk; rewrite ?bstr_app, bstr_RootManifestPath, <- ?app_assoc in Hk;
    by apply app_inv_head in Hk.
Qed.

(** An engine does not own a file of the catalogue. *)
Lemma manifest_not_own n p : IsValidName n = true -> manifest_file root p -> ~ own (mdir root n) p.
Proof using Hroot.
  intros Hn Hp (Hb & H1 & H2). destruct (root_not_below n) as [R1 R2].
  destruct Hp as [-> | [-> | (m & Hm & Hp)]]; [congruence | congruence |].
  assert (below (mdir root m) p = true) as Hbm.
  { apply below_mdir. destruct Hp as [-> | ->]; unfold tmp_of; rewrite ?bstr_app, bstr_MembraneManifestPath by done.
    - exists (bstr "MANIFEST"). by rewrite <- ?app_assoc.
    - exists (bstr "MANIFEST.tmp"). by rewrite <- ?app_assoc. }
  assert (m = n) as -> by (by eapply below_unique). destruct Hp as [-> | ->].
  - by rewrite MembraneManifestPath_mdir in H1.
  - by rewrite tmp_MembraneManifestPath_mdir in H2.
Qed.

Lemma own_unique n m p :
  IsValidName n = true -> IsValidName m = true -> own (mdir root n) p -> own (mdir root m) p -> n = m.
Proof using Hroot. intros Hn Hm [H1 _] [H2 _]. by eapply below_unique. Qed.

(** The catalogue does not depend on the files of the engines. *)
Lemma man_rep_local fm fm' cat : (forall p, manifest_file root p -> fm' !! p = fm !! p) -> man_rep root fm cat -> man_rep root fm' cat.
Proof using.
  intros Hl Hrep. split.
  - rewrite Hl by (by left). apply Hrep.
  - intros n s Hs. destruct (rep_spec _ _ _ Hrep n s Hs) as (H1 & H2 & H3 & H4). split_and!; [done .. |].
    rewrite Hl; [done |]. right; right. exists n. split; [by apply (rep_valid _ _ _ Hrep n s) | by left].
Qed.

Lemma man_rep_only n fm fm' cat : IsValidName n = true -> only (mdir root n) fm fm' -> man_rep root fm cat -> man_rep root fm' cat.
Proof using Hroot. intros Hn Ho. apply man_rep_local. intros p Hp. apply Ho. by apply manifest_not_own. Qed.
End paths.

(** ** The catalogue leaves the files of the engines alone *)

Definition same_at (q : path) (f : fs) : option bytes := fs_files f !! q.

Lemma AtomicWriteFile_frame p c q : q <> p -> q <> tmp_of p -> preserves (same_at q) (AtomicWriteFile p c).
Proof.
  intros Hp Ht f r f'. rewrite AtomicWriteFile_split. unfold mbind at 1, M_bind at 1. unfold same_at.
  destruct (write_tmp p c f) as [[e | u] f1] eqn:E1; intros E; pose proof (write_tmp_touches p c q Ht _ _ _ E1) as F1; cbn beta in F1.
  { by injection E as <- <-. }
  unfold mbind, M_bind in E. destruct (fs_rename (tmp_of p) p _ f1) as [[e | u'] f2] eqn:E2.
  - injection E as <- <-. apply fs_rename_err in E2 as [-> _]. done.
  - apply fs_rename_inv in E2 as (c' & Hc & F2). apply FsyncDir_files in E. rewrite E, F2.
    by rewrite lookup_insert_ne, lookup_delete_ne by done.
Qed.

Lemma same_files {A} q (m : M fs A) : preserves fs_files m -> preserves (same_at q) m.
Proof. intros Hm f r f' E. unfold same_at. by rewrite (Hm _ _ _ E). Qed.

Lemma ifstream_read_files p : preserves fs_files (ifstream_read p).
Proof.
  unfold ifstream_read. apply preserves_bind; [apply preserves_next_fault |]. intros d.
  apply preserves_bind; [apply preserves_get |]. intros f. destruct d, (fs_files f !! p); auto with preserve.
  apply preserves_bind; [apply preserves_next_fault |]. intros [|]; auto with preserve.
Qed.

Lemma ReadAll_files p : preserves fs_files (ReadAll p).
Proof.
  unfold ReadAll. apply preserves_bind; [apply ifstream_read_files |]. intros buf. repeat case_match; auto with preserve.
Qed.

Lemma LoadRoot_files root : preserves fs_files (LoadRoot root).
Proof.
  unfold LoadRoot. apply preserves_bind; [apply ReadAll_files |]. intros c. destruct (cut_line c) as [h sv].
  destruct (negb _); [apply preserves_fail |]. apply preserves_bind; [| intros; apply preserves_ret].
  intros f r f' E. by injection E as _ <-.
Qed.

Lemma GetMembrane_files root n out : preserves fs_files (GetMembrane root n out).
Proof.
  unfold GetMembrane. apply preserves_bind; [apply preserves_guard |]. intros _.
  apply preserves_bind; [apply LoadRoot_files |]. intros l. apply preserves_bind; [apply preserves_guard |]. intros _.
  unfold LoadMembraneManifest. apply preserves_bind; [apply ReadAll_files |]. intros c. destruct (cut_line c) as [h sv].
  destruct (_ && _); auto with preserve.
Qed.

Lemma create_directories_files msg : preserves fs_files (fs_create_directories msg).
Proof. unfold fs_create_directories. apply preserves_bind; [apply preserves_next_fault |]. intros [flt |]; auto with preserve. Qed.

Lemma fs_exists_files p : preserves fs_files (fs_exists p).
Proof.
  unfold fs_exists. apply preserves_bind; [apply preserves_next_fault |]. intros d.
  apply preserves_bind; [apply preserves_get |]. intros f. destruct d; auto with preserve.
Qed.

Section catalogue_frame.
Context (root : path) (q : path) (Hq : ~ manifest_file root q).

Lemma root_write_frame c : preserves (same_at q) (AtomicWriteFile (RootManifestPath root) c).
Proof using Hq. apply AtomicWriteFile_frame; intros ->; apply Hq; unfold manifest_file; auto. Qed.

Lemma spec_write_frame spec : IsValidName (ms_name spec) = true -> preserves (same_at q) (WriteMembraneManifest root spec).
Proof using Hq.
  intros Hn. apply AtomicWriteFile_frame; intros ->; apply Hq; right; right; exists (ms_name spec); auto.
Qed.

Lemma EnsureInitialized_frame : preserves (same_at q) (EnsureInitialized root).
Proof using Hq.
  unfold EnsureInitialized. do 2 (apply preserves_bind; [apply same_files, create_directories_files |]; intros _).
  apply preserves_bind; [apply same_files, fs_exists_files |]. intros [|]; [apply preserves_ret | apply root_write_frame].
Qed.

Lemma CreateMembrane_frame spec : preserves (same_at q) (CreateMembrane root spec).
Proof using Hq.
  unfold CreateMembrane. unfold mguard at 1. destruct (IsValidName (ms_name spec)) eqn:Hn.
  2:{ intros f r f' E. by injection E as _ <-. }
  apply preserves_bind; [apply preserves_ret |]. intros _. do 2 (apply preserves_bind; [apply preserves_guard |]; intros _).
  apply preserves_bind; [apply EnsureInitialized_frame |]. intros _.
  apply preserves_bind; [apply same_files, LoadRoot_files |]. intros l. apply preserves_bind; [apply preserves_guard |]. intros _.
  apply preserves_bind; [apply same_files, create_directories_files |]. intros _.
  apply preserves_bind; [by apply spec_write_frame |]. intros _. apply root_write_frame.
Qed.
End catalogue_frame.

(** ** What an engine promises *)

(** The engines that [OpenMembrane] opens. *)
Definition opens (slot : EngineSlot) : bool :=
  match slot with
  | vector_engine | rag_engine | graph_engine | timeseries_engine | keyvalue_engine | meta_engine | blob_engine
  | spatial_engine | mesh_engine => true
  | _ => false
  end.

Definition limits_ok (spec : MembraneSpec) : Prop :=
  is_u32 (ms_ttl_sec spec) /\ is_u32 (ms_retention_max_count spec) /\ is_u64 (ms_retention_max_bytes spec).

(** [eng_rep slot dir fm e]: the files [fm] hold in [dir] what the engine [e] has
    to find again; [eng_keeps slot e e']: what [e] promises to keep is in [e'];
    [eng_blank]: as constructed; [eng_admits]: the data operations of the engine. *)
Class EngineLaws (E : Type) `{EngineOps E} := {
  eng_rep : EngineSlot -> path -> gmap path bytes -> E -> Prop;
  eng_blank : EngineSlot -> E -> Prop;
  eng_keeps : EngineSlot -> E -> E -> Prop;
  eng_admits : EngineSlot -> M (E * fs) unit -> Prop;
  rep_local slot dir fm fm' e :
    (forall p, own dir p -> fm' !! p = fm !! p) -> eng_rep slot dir fm e -> eng_rep slot dir fm' e;
  make_ok slot dir spec fm :
    limits_ok spec -> fresh dir fm \/ (exists e, eng_rep slot dir fm e) ->
    exists e0 fm0, eng_make slot dir spec (MkFs fm []) = (inr e0, MkFs fm0 []) /\ only dir fm fm0 /\
      eng_blank slot e0 /\ eng_rep slot dir fm0 e0 /\ forall e, eng_rep slot dir fm e -> eng_rep slot dir fm0 e;
  open_ok slot dir fm e0 e :
    eng_blank slot e0 -> eng_rep slot dir fm e0 -> eng_rep slot dir fm e ->
    exists e1 fm1, eng_Open slot (e0, MkFs fm []) = (inr tt, (e1, MkFs fm1 [])) /\ only dir fm fm1 /\
      eng_rep slot dir fm1 e1 /\ eng_keeps slot e e1;
  unopened_keeps slot e e' : opens slot = false -> eng_keeps slot e e';
  op_ok slot op dir fm e :
    eng_admits slot op -> eng_rep slot dir fm e ->
    exists r e' fm', op (e, MkFs fm []) = (r, (e', MkFs fm' [])) /\ only dir fm fm' /\ eng_rep slot dir fm' e';
  admits_compact slot : eng_admits slot (eng_Compact slot);
  admits_retention slot ttl c b : is_u32 ttl -> is_u32 c -> is_u64 b -> eng_admits slot (eng_SetRetentionPolicy slot ttl c b);
  close_ok slot op dir fm e :
    op = eng_Close slot \/ op = eng_Flush slot -> eng_rep slot dir fm e ->
    exists r e' fm', op (e, MkFs fm []) = (r, (e', MkFs fm' [])) /\ only dir fm fm' /\ eng_rep slot dir fm' e' /\
      forall e0, eng_rep slot dir fm e0 -> eng_rep slot dir fm' e0;
  close_dropped slot dir fm0 fm e :
    eng_rep slot dir fm0 e -> fresh dir fm -> exists r e', eng_Close slot (e, MkFs fm []) = (r, (e', MkFs fm []))
}.

(** ** The registry mirrors the catalogue *)

Section sync.
Context {E : Type} `{EngineLaws E} (root : path) (Hroot : root_plain root).
Implicit Types s : MembraneManager E.

(** An entry of the registry against the catalogue and the files. *)
Definition entry_ok (fm : gmap path bytes) (sp : MembraneSpec) (n : bytes) (st : MembraneState E) : Prop :=
  stored (mb_spec st) MembraneSpec_default = sp /\ ms_name (mb_spec st) = n /\
  stored_kind (ms_kind (mb_spec st)) = ms_kind (mb_spec st) /\ limits_ok (mb_spec st) /\
  exists e, mb_engines st = {[slot_of (ms_kind (mb_spec st)) := e]} /\ eng_rep (slot_of (ms_kind (mb_spec st))) (mdir root n) fm e.

Record mg_sync (cat : catalogue) s : Prop := {
  sy_root : db_path (mg_base s) = root;
  sy_faults : fs_faults (mg_fs s) = [];
  sy_rep : man_rep root (fs_files (mg_fs s)) cat;
  sy_entry n :
    match mg_membranes s !! n, cat !! n with
    | Some st, Some sp => entry_ok (fs_files (mg_fs s)) sp n st
    | None, None => IsValidName n = true -> fresh (mdir root n) (fs_files (mg_fs s))
    | _, _ => False
    end
}.

Lemma sy_fs cat s : mg_sync cat s -> mg_fs s = MkFs (fs_files (mg_fs s)) [].
Proof. intros Hs. rewrite <- (sy_faults _ _ Hs). by destruct (mg_fs s). Qed.

Lemma sy_lookup cat s n st : mg_sync cat s -> mg_membranes s !! n = Some st ->
  exists sp, cat !! n = Some sp /\ entry_ok (fs_files (mg_fs s)) sp n st /\ IsValidName n = true.
Proof.
  intros Hs Hst. pose proof (sy_entry _ _ Hs n) as He. rewrite Hst in He. destruct (cat !! n) as [sp |] eqn:Hsp; [| done].
  exists sp. split_and!; [done | done | by apply (rep_valid _ _ _ (sy_rep _ _ Hs) n sp)].
Qed.

Lemma entry_local fm fm' sp n st : (forall p, own (mdir root n) p -> fm' !! p = fm !! p) -> entry_ok fm sp n st -> entry_ok fm' sp n st.
Proof. intros Hl (H1 & H2 & H3 & H4 & e & He & Hr). split_and!; try done. exists e. split; [done |]. by eapply rep_local. Qed.

(** Changes in the directory of one membrane do not concern the others. *)
Lemma other_entries cat s fm' n :
  mg_sync cat s -> IsValidName n = true -> only (mdir root n) (fs_files (mg_fs s)) fm' ->
  forall m, m <> n ->
    match mg_membranes s !! m, cat !! m with
    | Some st, Some sp => entry_ok fm' sp m st
    | None, None => IsValidName m = true -> fresh (mdir root m) fm'
    | _, _ => False
    end.
Proof using Hroot.
  intros Hs Hn Ho m Hm. pose proof (sy_entry _ _ Hs m) as He.
  assert (IsValidName m = true -> forall p, own (mdir root m) p -> fm' !! p = fs_files (mg_fs s) !! p) as Hl.
  { intros Hv p Hp. apply Ho. intros Hp'. apply Hm. by apply (own_unique root Hroot m n p). }
  destruct (mg_membranes s !! m) as [st |] eqn:Hst.
  - destruct (sy_lookup _ _ _ _ Hs Hst) as (sp & Hsp & _ & Hv). rewrite Hsp in *. eapply entry_local, He. auto.
  - destruct (cat !! m); [done |]. intros Hv p Hp. rewrite Hl by done. by apply He.
Qed.

(** A new state for one entry. *)
Lemma sync_update cat s n st' sp fm' :
  mg_sync cat s -> cat !! n = Some sp -> only (mdir root n) (fs_files (mg_fs s)) fm' -> entry_ok fm' sp n st' ->
  mg_sync cat (set_fs (MkFs fm' []) (with_membranes (<[n := st']>) s)).
Proof using Hroot.
  intros Hs Hsp Ho He. pose proof (rep_valid _ _ _ (sy_rep _ _ Hs) n sp Hsp) as Hn. split; cbn.
  - apply Hs.
  - done.
  - by apply (man_rep_only root Hroot n (fs_files (mg_fs s))), Hs.
  - intros m. destruct (decide (m = n)) as [-> | Hm].
    + by rewrite lookup_insert_eq, Hsp.
    + rewrite lookup_insert_ne by done. by apply (other_entries cat s fm' n).
Qed.

(** What a call does to the state, when the engine does what it promises. *)
Lemma call_eq cat s n st e slot {A} (op : M (E * fs) A) r e' fm' :
  mg_sync cat s -> mg_membranes s !! n = Some st -> mb_engines st = {[slot := e]} ->
  op (e, MkFs (fs_files (mg_fs s)) []) = (r, (e', MkFs fm' [])) ->
  call n slot op s = (r, set_fs (MkFs fm' []) (with_membranes (<[n := with_engines {[slot := e']} st]>) s)).
Proof.
  intros Hs Hst He Hop. unfold call. rewrite Hst, He, lookup_singleton_eq. rewrite (sy_fs _ _ Hs) at 1. rewrite Hop.
  by rewrite insert_singleton_eq.
Qed.

Lemma call_sync cat s n st (op : M (E * fs) unit) :
  mg_sync cat s -> mg_membranes s !! n = Some st ->
  (eng_admits (slot_of (ms_kind (mb_spec st))) op \/ op = eng_Close (slot_of (ms_kind (mb_spec st))) \/ op = eng_Flush (slot_of (ms_kind (mb_spec st)))) ->
  mg_sync cat (call n (slot_of (ms_kind (mb_spec st))) op s).2.
Proof using Hroot.
  intros Hs Hst Hop. destruct (sy_lookup _ _ _ _ Hs Hst) as (sp & Hsp & (H1 & H2 & H3 & H4 & e & He & Hr) & Hn).
  assert (exists r e' fm', op (e, MkFs (fs_files (mg_fs s)) []) = (r, (e', MkFs fm' [])) /\ only (mdir root n) (fs_files (mg_fs s)) fm' /\
    eng_rep (slot_of (ms_kind (mb_spec st))) (mdir root n) fm' e') as (r & e' & fm' & Hrun & Ho & Hr').
  { destruct Hop as [Hop | Hop]; [by eapply op_ok |]. destruct (close_ok _ op _ _ _ Hop Hr) as (r & e' & fm' & ? & ? & ? & _). eauto 10. }
  rewrite (call_eq cat s n st e _ op r e' fm' Hs Hst He Hrun). cbn [snd]. apply (sync_update cat s n _ sp); try done.
  split_and!; try done. by exists e'.
Qed.

(** ** The operations *)

(** The catalogue as the manifest updates it. *)
Lemma manifest_run op {A} (m : M fs A) (g : A -> man_reply) fm cat :
  man_rep root fm cat -> op_fits op -> (forall f, man_run root op f = (a ← m; mret (g a)) f) ->
  exists fm' r, m (MkFs fm []) = (r, MkFs fm' []) /\ (cat_run op cat).1 = (match r with inl e => inl e | inr a => inr (g a) end) /\
    man_rep root fm' (cat_run op cat).2.
Proof using.
  intros Hrep Hf Hm. destruct (sim_all root op fm cat Hrep Hf) as (fm' & Hrun & Hrep'). rewrite Hm in Hrun.
  unfold mbind, M_bind, mret, M_ret in Hrun. destruct (m (MkFs fm [])) as [[e | a] f']; injection Hrun as Hr ->;
    eexists fm', _; split_and!; try done; by rewrite <- Hr.
Qed.

Lemma own_not_manifest n p : IsValidName n = true -> own (mdir root n) p -> ~ manifest_file root p.
Proof using Hroot. intros Hn Hp Hm. by apply (manifest_not_own root Hroot n p). Qed.

(** After an update of the catalogue that leaves the files of the engines. *)
Lemma sync_catalogue cat s fm' :
  mg_sync cat s -> (forall p, ~ manifest_file root p -> fm' !! p = fs_files (mg_fs s) !! p) ->
  forall n, match mg_membranes s !! n, cat !! n with
            | Some st, Some sp => entry_ok fm' sp n st
            | None, None => IsValidName n = true -> fresh (mdir root n) fm'
            | _, _ => False
            end.
Proof using Hroot.
  intros Hs Hf n. pose proof (sy_entry _ _ Hs n) as He. destruct (mg_membranes s !! n) as [st |] eqn:Hst.
  - destruct (sy_lookup _ _ _ _ Hs Hst) as (sp & Hsp & _ & Hv). rewrite Hsp in *. eapply entry_local, He.
    intros p Hp. apply Hf. by apply (own_not_manifest n).
  - destruct (cat !! n); [done |]. intros Hv p Hp. rewrite Hf by (by apply (own_not_manifest n)). by apply He.
Qed.

Lemma engine_path_mdir cat s n : mg_sync cat s -> engine_path s n = mdir root n.
Proof. intros Hs. unfold engine_path. by rewrite (sy_root _ _ Hs). Qed.

Lemma on_fs_run cat s {A} (m : M fs A) r fm' :
  mg_sync cat s -> m (MkFs (fs_files (mg_fs s)) []) = (r, MkFs fm' []) -> on_fs m s = (r, set_fs (MkFs fm' []) s).
Proof. intros Hs Hm. unfold on_fs. cbn [get_fs mg_HasFs]. by rewrite (sy_fs _ _ Hs), Hm. Qed.

(** The result of an operation: in step with some catalogue that still has the
    membranes other than [gone]. *)
Definition steps_to (gone : option bytes) (cat : catalogue) s : Prop :=
  exists cat', mg_sync cat' s /\ forall n, gone <> Some n -> is_Some (cat !! n) -> is_Some (cat' !! n).

Lemma steps_refl gone cat s : mg_sync cat s -> steps_to gone cat s.
Proof. intros Hs. by exists cat. Qed.

Lemma cat_create_eq (cat : catalogue) spec :
  cat !! ms_name spec = None -> dim_required (ms_kind spec) && (ms_dim spec =? 0) = false -> (ms_shard_count spec =? 0) = false ->
  cat_run (OpCreate spec) cat =
    if IsValidName (ms_name spec) then (inr RDone, <[ms_name spec := stored spec MembraneSpec_default]> cat)
    else (inl (InvalidArgument "invalid membrane name"), cat).
Proof using.
  intros Hn Hd Hsh. cbn [cat_run]. unfold mguard. rewrite Hd, Hsh. destruct (IsValidName (ms_name spec)); [| done].
  unfold mbind, M_bind, mret, M_ret, mget, mput. cbn. by rewrite Hn.
Qed.

(** A new membrane over a catalogue that already lists it. *)
Lemma install_sync cat s spec fm1 :
  mg_sync cat s -> mg_membranes s !! ms_name spec = None -> limits_ok spec -> stored_kind (ms_kind spec) = ms_kind spec ->
  IsValidName (ms_name spec) = true ->
  (forall p, ~ manifest_file root p -> fm1 !! p = fs_files (mg_fs s) !! p) ->
  let cat1 := <[ms_name spec := stored spec MembraneSpec_default]> cat in
  man_rep root fm1 cat1 ->
  exists s', install spec (ms_name spec) (set_fs (MkFs fm1 []) s) = (inr tt, s') /\ mg_sync cat1 s' /\
    is_Some (mg_membranes s' !! ms_name spec) /\ exists e, eng_blank (slot_of (ms_kind spec)) e /\
    (st ← mg_membranes s' !! ms_name spec; Some (mb_engines st, ms_kind (mb_spec st))) = Some ({[slot_of (ms_kind spec) := e]}, ms_kind spec).
Proof using Hroot.
  intros Hs Hnone Hlim Hk Hv Hfr cat1 Hrep1. set (n := ms_name spec) in *.
  pose proof (sync_catalogue cat s fm1 Hs Hfr) as Hent.
  assert (cat !! n = None) as Hcn.
  { pose proof (sy_entry _ _ Hs n) as He. rewrite Hnone in He. by destruct (cat !! n). }
  assert (fresh (mdir root n) fm1) as Hfresh by (specialize (Hent n); rewrite Hnone, Hcn in Hent; auto).
  destruct (make_ok (slot_of (ms_kind spec)) (mdir root n) spec fm1 Hlim (or_introl Hfresh)) as (e & fm2 & Hmk & Ho & Hbl & Hr & _).
  unfold install. rewrite (mbind_ok mget _ _ _ _ eq_refl).
  change (engine_path (set_fs (MkFs fm1 []) s) n) with (engine_path s n). rewrite (engine_path_mdir cat s n Hs).
  assert (on_fs (eng_make (slot_of (ms_kind spec)) (mdir root n) spec) (set_fs (MkFs fm1 []) s) = (inr e, set_fs (MkFs fm2 []) s)) as Hon.
  { unfold on_fs. cbn [get_fs mg_HasFs set_fs mg_fs]. by rewrite Hmk. }
  rewrite (mbind_ok _ _ _ _ _ Hon).
  set (st := MkMembrane spec {[slot_of (ms_kind spec) := e]} (SetMaxEntries (db_max_lifecycle_entries (mg_base s)) lifecycle_new)).
  exists (set_fs (MkFs fm2 []) (with_membranes (<[n := st]>) s)). split.
  { unfold mmodify, with_membranes. cbn. by rewrite Hnone. }
  split.
  - split; cbn.
    + apply Hs.
    + done.
    + by apply (man_rep_only root Hroot n fm1).
    + intros m. destruct (decide (m = n)) as [-> | Hm].
      * unfold cat1. rewrite !lookup_insert_eq. split_and!; try done. by exists e.
      * unfold cat1. rewrite !lookup_insert_ne by done. specialize (Hent m).
        assert (IsValidName m = true -> forall p, own (mdir root m) p -> fm2 !! p = fm1 !! p) as Hl.
        { intros Hvm p Hp. apply Ho. intros Hp'. apply Hm. by apply (own_unique root Hroot m n p). }
        destruct (mg_membranes s !! m) as [sm |] eqn:Hst.
        -- destruct (sy_lookup _ _ _ _ Hs Hst) as (sp & Hsp & _ & Hvm). rewrite Hsp in *. eapply entry_local, Hent. auto.
        -- destruct (cat !! m); [done |]. intros Hvm p Hp. rewrite Hl by done. by apply Hent.
  - cbn. rewrite lookup_insert_eq. split; [by eexists |]. by exists e.
Qed.

Lemma create_sync cat s spec :
  mg_sync cat s -> op_fits (OpCreate spec) -> stored_kind (ms_kind spec) = ms_kind spec ->
  steps_to None cat (mg_CreateMembrane spec s).2.
Proof using Hroot.
  intros Hs Hfit Hk. pose proof (steps_refl None cat s Hs) as Herr.
  unfold mg_CreateMembrane, mguard. destruct (negb (bool_decide (ms_name spec = []))); [| exact Herr].
  destruct (negb (dim_required _ && _)) eqn:Hd; [| exact Herr]. destruct (negb (ms_shard_count spec =? 0)) eqn:Hsh; [| exact Herr].
  apply negb_true_iff in Hd, Hsh.
  do 3 rewrite (mbind_ok (mret tt) _ _ _ _ eq_refl). rewrite (mbind_ok mget _ _ _ _ eq_refl).
  case_bool_decide as Hnone; [| exact Herr]. rewrite (mbind_ok (mret tt) _ _ _ _ eq_refl).
  assert (cat !! ms_name spec = None) as Hcat.
  { pose proof (sy_entry _ _ Hs (ms_name spec)) as He. rewrite Hnone in He. by destruct (cat !! ms_name spec). }
  destruct (manifest_run (OpCreate spec) (CreateMembrane root spec) (fun _ => RDone) _ cat (sy_rep _ _ Hs) Hfit) as (fm1 & r & Hrun & Hr & Hrep1); [done |].
  assert (forall p, ~ manifest_file root p -> fm1 !! p = fs_files (mg_fs s) !! p) as Hfr.
  { intros p Hp. apply (CreateMembrane_frame root p Hp spec _ _ _ Hrun). }
  rewrite (sy_root _ _ Hs). pose proof (on_fs_run cat s _ _ _ Hs Hrun) as Hon.
  rewrite (cat_create_eq cat spec Hcat Hd Hsh) in Hr, Hrep1. destruct (IsValidName (ms_name spec)) eqn:Hv; cbn in Hr, Hrep1.
  - destruct r as [e | []]; [done |]. rewrite (mbind_ok _ _ _ _ _ Hon).
    assert (limits_ok spec) as Hlim by (destruct Hfit as (_ & _ & _ & _ & ?); done).
    destruct (install_sync cat s spec fm1 Hs Hnone Hlim Hk Hv Hfr Hrep1) as (s' & -> & Hs' & _).
    eexists. split; [exact Hs' |]. intros n _ Hin. apply lookup_insert_is_Some'. by right.
  - destruct r as [e |]; [| done]. rewrite (mbind_err _ _ _ _ _ Hon). exists cat. split; [| done].
    split; cbn; [apply Hs | done | done | by apply (sync_catalogue cat s fm1)].
Qed.

(** A file of a dropped membrane is gone, every other file of an engine stays. *)
Lemma DropMembrane_eq fm cat n t :
  man_rep root fm cat -> cat !! n = Some t ->
  exists fm2, DropMembrane root n (MkFs fm []) = (inr tt, MkFs fm2 []) /\ man_rep root fm2 (delete n cat) /\
    forall p, ~ manifest_file root p -> fm2 !! p = if below (mdir root n) p then None else fm !! p.
Proof using Hroot.
  intros Hrep Ht. pose proof (rep_valid _ _ _ Hrep n t Ht) as Hv.
  destruct (manifest_run (OpDrop n) (DropMembrane root n) (fun _ => RDone) fm cat Hrep I) as (fm2 & r & Hrun & Hr & Hrep2); [done |].
  cbn [cat_run] in Hr, Hrep2. unfold mbind, M_bind in Hr, Hrep2. rewrite cat_get_eq, Hv, Ht in Hr, Hrep2. cbn in Hr, Hrep2.
  destruct r as [e | []]; [done |]. exists fm2. split_and!; [done | done |]. intros p Hp.
  unfold DropMembrane, mguard in Hrun. rewrite Hv in Hrun. rewrite (mbind_ok (mret tt) _ _ _ _ eq_refl) in Hrun.
  rewrite (mbind_ok _ _ _ _ _ (EnsureInitialized_rep root fm cat Hrep)), (mbind_ok _ _ _ _ _ (LoadRoot_rep root fm cat Hrep)) in Hrun.
  rewrite bool_decide_eq_true_2 in Hrun by (apply elem_of_cat_names; eauto). rewrite (mbind_ok (mret tt) _ _ _ _ eq_refl) in Hrun.
  rewrite (mbind_ok _ _ _ _ _ (WriteRoot_ok root _ fm)) in Hrun. set (fm1 := <[RootManifestPath root := _]> _) in Hrun.
  assert (fm1 !! p = fm !! p) as <-.
  { unfold fm1. rewrite lookup_insert_ne, lookup_delete_ne; [done | |]; intros <-; apply Hp; unfold manifest_file; auto. }
  pose proof (fs_remove_all_lookup (MembraneDir root n) (MkFs fm1 []) p eq_refl) as Hl. rewrite Hrun in Hl. cbn in Hl.
  by rewrite MembraneDir_mdir in Hl.
Qed.

(** Closing the engine of a dropped membrane leaves the disk alone. *)
Lemma visit_dropped s1 n st slot e sl fm0 fm2 :
  mg_membranes s1 !! n = Some st -> mb_engines st = {[slot := e]} -> mg_fs s1 = MkFs fm2 [] ->
  eng_rep slot (mdir root n) fm0 e -> fresh (mdir root n) fm2 ->
  exists e', (ignore (visit (eng_Close sl) sl n) s1) = (inr tt, with_membranes (<[n := with_engines {[slot := e']} st]>) s1) /\
    (sl <> slot -> e' = e).
Proof using.
  intros Hst He Hfs Hrep Hfr. unfold ignore, visit. rewrite Hst. cbn. rewrite He. destruct (decide (sl = slot)) as [-> | Hne].
  - rewrite lookup_singleton_eq, bool_decide_eq_true_2 by (by eexists). destruct (close_dropped _ _ _ _ _ Hrep Hfr) as (r & e' & Hcl).
    exists e'. split; [| done]. unfold call. rewrite Hst, He, lookup_singleton_eq, Hfs, Hcl. rewrite insert_singleton_eq. cbn.
    by rewrite <- Hfs.
  - rewrite lookup_singleton_ne, bool_decide_eq_false_2 by (congruence || by intros [? ?]). exists e. split; [| done].
    cbn. rewrite <- He. do 2 f_equal. unfold with_membranes. destruct s1; cbn in *. f_equal. by rewrite insert_id; [| destruct st].
Qed.

Lemma lookup_bind {A} n (k : MembraneState E -> M (MembraneManager E) A) s :
  (GetMembraneOrNull n ≫= k) s =
    match mg_membranes s !! n with Some st => k st s | None => (inl (NotFound "membrane not found"), s) end.
Proof. unfold GetMembraneOrNull, mbind, M_bind, mget. by destruct (mg_membranes s !! n). Qed.

Lemma drop_sync cat s n : mg_sync cat s -> steps_to (Some n) cat (mg_DropMembrane n s).2.
Proof using Hroot.
  intros Hs. unfold mg_DropMembrane. rewrite lookup_bind.
  destruct (mg_membranes s !! n) as [st |] eqn:Hst; [| by apply steps_refl].
  rewrite (mbind_ok mget _ _ _ _ eq_refl), (sy_root _ _ Hs).
  destruct (sy_lookup _ _ _ _ Hs Hst) as (sp & Hsp & (_ & _ & _ & _ & e & He & Hrep) & Hv).
  destruct (DropMembrane_eq _ cat n sp (sy_rep _ _ Hs) Hsp) as (fm2 & Hrun & Hrep2 & Hl).
  rewrite (mbind_ok _ _ _ _ _ (on_fs_run cat s _ _ _ Hs Hrun)).
  assert (fresh (mdir root n) fm2) as Hfr.
  { intros p Hp. rewrite Hl by (by apply (own_not_manifest n)). by rewrite (proj1 Hp). }
  set (s1 := set_fs (MkFs fm2 []) s).
  destruct (visit_dropped s1 n st _ e vector_engine _ fm2 Hst He eq_refl Hrep Hfr) as (e1 & H1 & E1).
  rewrite (mbind_ok _ _ _ _ _ H1). set (s2 := with_membranes _ s1).
  assert (exists st3, ignore (visit (eng_Close rag_engine) rag_engine n) s2 = (inr tt, with_membranes (<[n := st3]>) s2)) as (st3 & H2).
  { destruct (decide (vector_engine = slot_of (ms_kind (mb_spec st)))) as [Hsl | Hsl].
    - exists (with_engines {[slot_of (ms_kind (mb_spec st)) := e1]} st). unfold ignore, visit, s2. cbn.
      rewrite lookup_insert_eq. cbn. rewrite <- Hsl, lookup_singleton_ne, bool_decide_eq_false_2 by (done || by intros [? ?]).
      cbn. unfold with_membranes. cbn. by rewrite insert_insert_eq.
    - specialize (E1 Hsl). subst e1. destruct (visit_dropped s2 n (with_engines {[slot_of (ms_kind (mb_spec st)) := e]} st)
        (slot_of (ms_kind (mb_spec st))) e rag_engine (fs_files (mg_fs s)) fm2) as (e2 & H2 & _);
        [by apply lookup_insert_eq | done | done | exact Hrep | done |]. by eexists. }
  rewrite (mbind_ok _ _ _ _ _ H2). exists (delete n cat). split.
  - split; cbn; [apply Hs | done | done |]. intros m. rewrite !delete_insert_eq. destruct (decide (m = n)) as [-> | Hm].
    + by rewrite !lookup_delete_eq.
    + rewrite !lookup_delete_ne by done. pose proof (sy_entry _ _ Hs m) as Hent.
      assert (IsValidName m = true -> forall p, own (mdir root m) p -> fm2 !! p = fs_files (mg_fs s) !! p) as Hlm.
      { intros Hvm p Hp. rewrite Hl by (by apply (own_not_manifest m)). destruct (below (mdir root n) p) eqn:Hb; [| done].
        destruct Hm. by apply (below_unique root Hroot m n p Hvm Hv (proj1 Hp)). }
      destruct (mg_membranes s !! m) as [sm |] eqn:Hsm.
      * destruct (sy_lookup _ _ _ _ Hs Hsm) as (sp' & Hsp' & _ & Hvm). rewrite Hsp' in *. eapply entry_local, Hent. auto.
      * destruct (cat !! m); [done |]. intros Hvm p Hp. rewrite Hlm by done. by apply Hent.
  - intros m Hm Hin. rewrite lookup_delete_ne; [done |]. congruence.
Qed.

(** A change of an entry that the catalogue already has, under files that an
    update of the catalogue left. *)
Lemma alter_sync cat s n st st' sp fm1 (f : MembraneState E -> MembraneState E) :
  mg_sync cat s -> mg_membranes s !! n = Some st -> f st = st' ->
  (forall p, ~ manifest_file root p -> fm1 !! p = fs_files (mg_fs s) !! p) ->
  man_rep root fm1 (<[n := sp]> cat) -> entry_ok fm1 sp n st' ->
  mg_sync (<[n := sp]> cat) (with_membranes (alter f n) (set_fs (MkFs fm1 []) s)).
Proof using Hroot.
  intros Hs Hst <- Hfr Hrep He. pose proof (sync_catalogue cat s fm1 Hs Hfr) as Hent. split; cbn; [apply Hs | done | done |].
  intros m. destruct (decide (m = n)) as [-> | Hm].
  - by rewrite lookup_insert_eq, lookup_alter_eq, Hst.
  - rewrite lookup_insert_ne, lookup_alter_ne by done. apply Hent.
Qed.

(** Nothing the invariant speaks of. *)
Lemma alter_sync_same cat s n (f : MembraneState E -> MembraneState E) :
  mg_sync cat s -> (forall st, mb_spec (f st) = mb_spec st /\ mb_engines (f st) = mb_engines st) ->
  mg_sync cat (with_membranes (alter f n) s).
Proof using.
  intros Hs Hf. split; cbn; [apply Hs .. |]. intros m. pose proof (sy_entry _ _ Hs m) as Hent.
  destruct (decide (m = n)) as [-> | Hm]; [| by rewrite lookup_alter_ne]. rewrite lookup_alter_eq.
  destruct (mg_membranes s !! n) as [st |]; [| done]. cbn. destruct (cat !! n); [| done]. unfold entry_ok in *.
  destruct (Hf st) as [-> ->]. done.
Qed.

Lemma slot_of_inj k k' : slot_of k = slot_of k' -> k = k'.
Proof using. by destruct k, k'. Qed.

(** The pointer that is set is the one of the kind. *)
Lemma engine_slot cat s n st slot :
  mg_sync cat s -> mg_membranes s !! n = Some st -> has_engine slot st = true -> slot = slot_of (ms_kind (mb_spec st)).
Proof using.
  intros Hs Hst Hh. destruct (sy_lookup _ _ _ _ Hs Hst) as (sp & _ & (_ & _ & _ & _ & e & He & _) & _).
  apply has_engine_true in Hh. rewrite He in Hh. by apply lookup_singleton_is_Some in Hh.
Qed.

Lemma retention_sync cat s n ttl c b :
  mg_sync cat s -> is_u32 ttl -> is_u32 c -> is_u64 b -> steps_to None cat (mg_UpdateMembraneRetention n ttl c b s).2.
Proof using Hroot.
  intros Hs Ht Hc Hb. pose proof (steps_refl None cat s Hs) as Herr. unfold mg_UpdateMembraneRetention. rewrite lookup_bind.
  destruct (mg_membranes s !! n) as [st |] eqn:Hst; [| exact Herr]. unfold mguard.
  destruct (has_engine meta_engine st || has_engine keyvalue_engine st) eqn:Hor; [| exact Herr].
  rewrite (mbind_ok (mret tt) _ _ _ _ eq_refl), (mbind_ok mget _ _ _ _ eq_refl), (sy_root _ _ Hs).
  destruct (sy_lookup _ _ _ _ Hs Hst) as (sp & Hsp & (E1 & E2 & E3 & E4 & e & He & Hr) & Hv).
  destruct (manifest_run (OpRetention n ttl c b) (UpdateRetentionPolicy root n ttl c b) (fun _ => RDone) _ cat (sy_rep _ _ Hs))
    as (fm1 & r & Hrun & Hr1 & Hrep1); [done | done |].
  cbn [cat_run] in Hr1, Hrep1. unfold mbind, M_bind in Hr1, Hrep1. rewrite cat_get_eq, Hv, Hsp in Hr1, Hrep1. cbn in Hr1, Hrep1.
  destruct r as [| []]; [done |]. clear Hr1.
  assert (forall p, ~ manifest_file root p -> fm1 !! p = fs_files (mg_fs s) !! p) as Hfr.
  { intros p Hp. unfold UpdateRetentionPolicy in Hrun.
    rewrite (mbind_ok _ _ _ sp (MkFs (fs_files (mg_fs s)) [])) in Hrun
      by (rewrite (GetMembrane_rep root _ cat (sy_rep _ _ Hs)), cat_get_eq, Hv, Hsp; done).
    refine (spec_write_frame root p Hp _ _ _ _ _ Hrun). cbn. by rewrite (proj1 (rep_spec _ _ _ (sy_rep _ _ Hs) n sp Hsp)). }
  rewrite (mbind_ok _ _ _ _ _ (on_fs_run cat s _ _ _ Hs Hrun)), (mbind_ok (mmodify _) _ _ tt _ eq_refl).
  set (f := fun st : MembraneState E => with_spec _ st). set (sp1 := set_max_bytes _ _) in *.
  assert (mg_sync (<[n := sp1]> cat) (with_membranes (alter f n) (set_fs (MkFs fm1 []) s))) as Hs1.
  { apply (alter_sync cat s n st (f st)); try done. unfold f. split_and!; cbn; [| done | done | done .. |].
    - unfold sp1. by rewrite <- E1.
    - exists e. split; [done |]. eapply rep_local, Hr. intros p Hp. apply Hfr. by apply (own_not_manifest n). }
  exists (<[n := sp1]> cat). split; [| by intros m _ Hin; apply lookup_insert_is_Some'; right].
  assert (mg_membranes (with_membranes (alter f n) (set_fs (MkFs fm1 []) s)) !! n = Some (f st)) as Hst1
    by (cbn; by rewrite lookup_alter_eq, Hst).
  destruct (has_engine meta_engine st) eqn:Hm; [apply (engine_slot cat s n) in Hm | apply (engine_slot cat s n) in Hor]; try done.
  - rewrite Hm. apply (call_sync _ _ n (f st)); [done | done | left; by apply admits_retention].
  - rewrite Hor. apply (call_sync _ _ n (f st)); [done | done | left; by apply admits_retention].
Qed.

Lemma forward_sync cat s slot msg n op :
  mg_sync cat s -> eng_admits slot op -> mg_sync cat (forward slot msg n op s).2.
Proof using Hroot.
  intros Hs Hop. unfold forward. rewrite lookup_bind. destruct (mg_membranes s !! n) as [st |] eqn:Hst; [| done]. unfold mguard.
  destruct (has_engine slot st) eqn:Hh; [| done]. rewrite (mbind_ok (mret tt) _ _ _ _ eq_refl).
  apply (engine_slot cat s n) in Hh; [| done ..]. subst slot. by apply (call_sync cat s n st); [| | left].
Qed.

Lemma forward_kind_sync cat s k msg n op :
  mg_sync cat s -> eng_admits (slot_of k) op -> mg_sync cat (forward_kind k msg n op s).2.
Proof using Hroot.
  intros Hs Hop. unfold forward_kind. rewrite lookup_bind. destruct (mg_membranes s !! n) as [st |] eqn:Hst; [| done]. unfold mguard.
  destruct (bool_decide (ms_kind (mb_spec st) = k)) eqn:Hk; [| done]. apply bool_decide_eq_true in Hk. subst k.
  rewrite (mbind_ok (mret tt) _ _ _ _ eq_refl). by apply (call_sync cat s n st); [| | left].
Qed.

Lemma delete_sync cat s n id op : mg_sync cat s -> eng_admits vector_engine op -> mg_sync cat (mg_Delete n id op s).2.
Proof using Hroot.
  intros Hs Hop. unfold mg_Delete. rewrite lookup_bind. destruct (mg_membranes s !! n) as [st |] eqn:Hst; [| done]. unfold mguard.
  destruct (bool_decide (ms_kind (mb_spec st) = kVector)) eqn:Hk; [| done]. apply bool_decide_eq_true in Hk.
  rewrite (mbind_ok (mret tt) _ _ _ _ eq_refl), (mbind_ok (mmodify _) _ _ tt _ eq_refl). set (f := fun st => with_lifecycle _ st).
  change vector_engine with (slot_of kVector) in *. rewrite <- Hk in *. change (mb_spec st) with (mb_spec (f st)) in *.
  apply (call_sync cat _ n (f st)); [by apply alter_sync_same | cbn; by rewrite lookup_alter_eq, Hst | by left].
Qed.

Lemma compact_sync cat s n : mg_sync cat s -> mg_sync cat (mg_Compact n s).2.
Proof using Hroot.
  intros Hs. unfold mg_Compact. rewrite lookup_bind. destruct (mg_membranes s !! n) as [st |] eqn:Hst; [| done]. cbn zeta.
  pose proof (call_sync cat s n st (eng_Compact (slot_of (ms_kind (mb_spec st)))) Hs Hst (or_introl (admits_compact _))) as Hc.
  destruct (ms_kind (mb_spec st)) eqn:Hk; try done; try exact Hc.
  - cbn. destruct (has_engine keyvalue_engine st); [exact Hc | done].
  - cbn. destruct (has_engine meta_engine st); [exact Hc | done].
Qed.

Lemma close_membrane_sync cat s n : mg_sync cat s -> mg_sync cat (mg_CloseMembrane n s).2.
Proof using Hroot.
  intros Hs. unfold mg_CloseMembrane. rewrite lookup_bind. destruct (mg_membranes s !! n) as [st |] eqn:Hst; [| done].
  pose proof (call_sync cat s n st (eng_Close (slot_of (ms_kind (mb_spec st)))) Hs Hst (or_intror (or_introl eq_refl))) as Hc.
  destruct (ms_kind (mb_spec st)) eqn:Hk; try done; exact Hc.
Qed.

(** ** Closing *)

(** [s'] has the entries of [s], and what the files held for an engine they
    still hold. *)
Definition still cat s s' : Prop :=
  mg_sync cat s' /\ mg_base s' = mg_base s /\ forall n st, mg_membranes s !! n = Some st ->
    exists st', mg_membranes s' !! n = Some st' /\ mb_spec st' = mb_spec st /\
      forall e, eng_rep (slot_of (ms_kind (mb_spec st))) (mdir root n) (fs_files (mg_fs s)) e ->
        eng_rep (slot_of (ms_kind (mb_spec st))) (mdir root n) (fs_files (mg_fs s')) e.

Lemma still_refl cat s : mg_sync cat s -> still cat s s.
Proof using. intros Hs. split_and!; [done | done |]. intros n st Hst. by exists st. Qed.

Lemma still_trans cat s1 s2 s3 : still cat s1 s2 -> still cat s2 s3 -> still cat s1 s3.
Proof using.
  intros (_ & B1 & H1) (Hs & B2 & H2). split_and!; [done | congruence |]. intros n st Hst. destruct (H1 n st Hst) as (st' & Hst' & Hsp & Hr).
  destruct (H2 n st' Hst') as (st'' & Hst'' & Hsp' & Hr'). exists st''. split_and!; [done | congruence |]. intros e He.
  rewrite <- Hsp. apply Hr'. rewrite Hsp. by apply Hr.
Qed.

Lemma visit_still cat s n slot op :
  mg_sync cat s -> op = eng_Close slot \/ op = eng_Flush slot -> still cat s (visit op slot n s).2.
Proof using Hroot.
  intros Hs Hop. unfold visit. case_bool_decide as Hv; [| by apply still_refl]. destruct Hv as [e (st & Hst & He)%bind_Some].
  assert (slot = slot_of (ms_kind (mb_spec st))) as -> by (apply (engine_slot cat s n); [done | done |]; apply bool_decide_eq_true; by eexists).
  pose proof (call_sync cat s n st op Hs Hst (or_intror Hop)) as Hs'.
  destruct (sy_lookup _ _ _ _ Hs Hst) as (sp & _ & (_ & _ & _ & _ & e0 & He0 & Hr) & Hn).
  destruct (close_ok _ op _ _ _ Hop Hr) as (r & e' & fm' & Hrun & Ho & _ & Hkeep).
  rewrite (call_eq cat s n st e0 _ op r e' fm' Hs Hst He0 Hrun) in *. cbn [snd] in *. split_and!; [done | done |].
  intros m sm Hsm. cbn. destruct (decide (m = n)) as [-> | Hm].
  - rewrite lookup_insert_eq. assert (sm = st) as -> by congruence. eexists. split_and!; [done | done | exact Hkeep].
  - rewrite lookup_insert_ne by done. exists sm. split_and!; [done | done |]. intros em. apply rep_local.
    destruct (sy_lookup _ _ _ _ Hs Hsm) as (_ & _ & _ & Hvm). intros p Hp. apply Ho. intros Hp'. apply Hm.
    by apply (own_unique root Hroot m n p).
Qed.

(** A step of a loop, whether it fails or not. *)
Definition stills {A} cat (m : M (MembraneManager E) A) : Prop := forall s, mg_sync cat s -> still cat s (m s).2.

Lemma stills_bind {A B} cat (m : M (MembraneManager E) A) (k : A -> M (MembraneManager E) B) :
  stills cat m -> (forall a, stills cat (k a)) -> stills cat (m ≫= k).
Proof using.
  intros Hm Hk s Hs. specialize (Hm s Hs). unfold mbind, M_bind. destruct (m s) as [[e | a] s1]; [done |].
  eapply still_trans, Hk, Hm. exact Hm.
Qed.

Lemma stills_for_each {A} cat (f : A -> M (MembraneManager E) unit) l : (forall x, stills cat (f x)) -> stills cat (for_each f l).
Proof using.
  intros Hf. induction l as [| x l IH]; [intros s Hs; by apply still_refl |]. by apply stills_bind.
Qed.

Lemma flush_all_still cat ord : stills cat (mg_FlushAll ord).
Proof using Hroot.
  apply stills_bind; [intros s Hs; by apply still_refl |]. intros s0. apply stills_for_each. intros n.
  apply stills_bind; [| intros _]; intros s Hs; apply visit_still; auto.
Qed.

(** The loop of [CloseAll]. *)
Definition close_each : bytes -> M (MembraneManager E) unit := fun name =>
  for_each (fun slot => ignore (visit (eng_Close slot) slot name)) closed_slots ;;
  ignore (visit (eng_Flush graph_engine) graph_engine name).

Lemma close_each_still cat n : stills cat (close_each n).
Proof using Hroot.
  apply stills_bind; [apply stills_for_each; intros slot | intros _]; intros s Hs; apply visit_still; auto.
Qed.

Lemma for_each_ok {A} (f : A -> M (MembraneManager E) unit) l : (forall x s, exists s', f x s = (inr tt, s')) ->
  forall s, exists s', for_each f l s = (inr tt, s').
Proof using.
  intros Hf. induction l as [| x l IH]; intros s; [by eexists |]. cbn [for_each]. destruct (Hf x s) as [s1 E1].
  rewrite (mbind_ok _ _ _ _ _ E1). apply IH.
Qed.

Lemma close_each_ok n s : exists s', close_each n s = (inr tt, s').
Proof using.
  unfold close_each. destruct (for_each_ok (fun slot => ignore (visit (E := E) (eng_Close slot) slot n)) closed_slots) with (s := s) as [s1 E1];
    [intros x s0; by eexists |]. rewrite (mbind_ok _ _ _ _ _ E1). by eexists.
Qed.

(** What [CloseAll] leaves: an empty registry over files that have everything. *)
Lemma close_all_still cat ord s :
  mg_sync cat s -> exists s1, still cat s s1 /\ mg_CloseAll ord s = (inr tt, with_opened false (with_membranes (fun _ => ∅) s1)).
Proof using Hroot.
  intros Hs. unfold mg_CloseAll. rewrite (mbind_ok mget _ _ _ _ eq_refl).
  destruct (for_each_ok close_each (iter_order (mg_membranes s)).*1 close_each_ok s) as [s1 E1].
  exists s1. split.
  - change s1 with ((inr tt : Status + unit, s1).2). rewrite <- E1. apply stills_for_each; [intros n; apply close_each_still | done].
  - rewrite (mbind_ok _ _ _ _ _ E1). done.
Qed.

(** ** Operations between two restarts *)

(** Persistent kinds, arguments within their types, data operations that the
    engine knows; the default membrane stays. *)
Definition mgr_admits (op : mgr_op) : Prop :=
  match op with
  | MCreate spec => op_fits (OpCreate spec) /\ stored_kind (ms_kind spec) = ms_kind spec
  | MDrop n => n <> kDefaultMembrane
  | MRetention _ ttl c b => is_u32 ttl /\ is_u32 c /\ is_u64 b
  | MForward slot _ _ op => eng_admits slot op
  | MForwardKind k _ _ op => eng_admits (slot_of k) op
  | MDelete _ _ op => eng_admits vector_engine op
  | MCloseMembrane _ | MFlushAll _ | MCompact _ | MLink _ _ _ _ | MUnlink _ => True
  | MOpen | MOpenMembrane _ | MCloseAll _ => False
  end.

Lemma linker_sync cat s l : mg_sync cat s -> mg_sync cat (with_linker l s).
Proof using. intros Hs. split; cbn; apply Hs. Qed.

Lemma mgr_run_sync cat s op : mg_sync cat s -> mgr_admits op ->
  steps_to (match op with MDrop n => Some n | _ => None end) cat (mgr_run op s).2.
Proof using Hroot.
  intros Hs. destruct op; cbn [mgr_admits mgr_run]; intros Ha; try done.
  - destruct Ha. by apply create_sync.
  - by apply drop_sync.
  - by apply steps_refl, close_membrane_sync.
  - by apply steps_refl, flush_all_still.
  - destruct Ha as (? & ? & ?). by apply retention_sync.
  - by apply steps_refl, forward_sync.
  - by apply steps_refl, forward_kind_sync.
  - by apply steps_refl, delete_sync.
  - by apply steps_refl, compact_sync.
  - apply steps_refl. unfold mg_LinkObjects. destruct (LinkByGid _ _ _ _ _). by apply linker_sync.
  - apply steps_refl. unfold mg_UnlinkObjects. destruct (UnlinkByGid _ _). by apply linker_sync.
Qed.

Lemma mgr_exec_sync ops : forall cat s, mg_sync cat s -> is_Some (cat !! kDefaultMembrane) -> Forall mgr_admits ops ->
  exists cat', mg_sync cat' (mgr_exec ops s) /\ is_Some (cat' !! kDefaultMembrane).
Proof using Hroot.
  induction ops as [| op ops IH]; intros cat s Hs Hd Hops; [by exists cat |]. apply Forall_cons in Hops as [Hop Hops].
  destruct (mgr_run_sync cat s op Hs Hop) as (cat1 & Hs1 & Hk). apply (IH cat1); [done | | done]. apply Hk; [| done].
  destruct op as [| n | | | | | | | | | | | |]; try done. by intros [= ->].
Qed.
End sync.
