(* ===== verification/ManagerReopen.v ===== *)
(** * Reopening the membrane manager

    [MembraneManager::Open] on the files that a closed manager left, and on an
    empty directory; the theorem about restarts. *)
From S2P Require Import Prelude Env Text PosixFile Manifest ManifestTheorems ManifestCatalogue Linker Lifecycle Manager ManagerTheorems.
From S2P Require Import ManagerRestart.

Open Scope Z_scope.

Section open.
Context {E : Type} `{EngineLaws E} (root : path) (Hroot : root_plain root).
Implicit Types s : MembraneManager E.

(** Which membranes [OpenMembrane] passes to their engine. *)
Lemma OpenMembrane_eq s n st :
  mg_membranes s !! n = Some st -> membrane_typed st ->
  mg_OpenMembrane n s =
    let slot := slot_of (ms_kind (mb_spec st)) in if opens slot then call n slot (eng_Open slot) s else (inr tt, s).
Proof using.
  intros Hst [e He]. unfold mg_OpenMembrane. rewrite lookup_bind, Hst. unfold has_engine. rewrite He.
  by destruct (ms_kind (mb_spec st)).
Qed.

(** ** Restoring one membrane *)

(** A membrane as it was and as the restart found it. *)
Definition restored (st0 st : MembraneState E) : Prop :=
  mb_spec st = stored (mb_spec st0) MembraneSpec_default /\
  exists e e1, mb_engines st0 = {[slot_of (ms_kind (mb_spec st0)) := e]} /\ mb_engines st = {[slot_of (ms_kind (mb_spec st0)) := e1]} /\
    eng_keeps (slot_of (ms_kind (mb_spec st0))) e e1.

Context (cat : catalogue) (s0 : MembraneManager E) (Hs0 : mg_sync root cat s0).

(** Some membranes of [s0] are there again, the files of the others are ready. *)
Record restoring s : Prop := {
  rs_root : db_path (mg_base s) = root;
  rs_faults : fs_faults (mg_fs s) = [];
  rs_rep : man_rep root (fs_files (mg_fs s)) cat;
  rs_entry n :
    match mg_membranes s0 !! n with
    | None => mg_membranes s !! n = None
    | Some st0 =>
        match mg_membranes s !! n with
        | Some st => restored st0 st
        | None => exists e, mb_engines st0 = {[slot_of (ms_kind (mb_spec st0)) := e]} /\
            eng_rep (slot_of (ms_kind (mb_spec st0))) (mdir root n) (fs_files (mg_fs s)) e
        end
    end
}.

Lemma rs_fs s : restoring s -> mg_fs s = MkFs (fs_files (mg_fs s)) [].
Proof using. intros Hs. rewrite <- (rs_faults _ Hs). by destruct (mg_fs s). Qed.

(** The entry [n] has been restored with the files of [n] changed. *)
Lemma restoring_step s n st0 st fm' :
  restoring s -> IsValidName n = true -> mg_membranes s0 !! n = Some st0 -> restored st0 st ->
  only (mdir root n) (fs_files (mg_fs s)) fm' -> restoring (set_fs (MkFs fm' []) (with_membranes (<[n := st]>) s)).
Proof using Hroot Hs0.
  intros Hs Hv Hst0 Hst Ho. split; cbn.
  - apply Hs.
  - done.
  - by apply (man_rep_only root Hroot n (fs_files (mg_fs s))), Hs.
  - intros m. pose proof (rs_entry _ Hs m) as Hm. destruct (decide (m = n)) as [-> | Hne].
    + by rewrite Hst0, lookup_insert_eq.
    + rewrite lookup_insert_ne by done. destruct (mg_membranes s0 !! m) as [stm |] eqn:Hstm; [| done].
      destruct (mg_membranes s !! m); [done |]. destruct Hm as (e & He & Hr). exists e. split; [done |].
      eapply rep_local, Hr. intros p Hp. apply Ho. intros Hp'. apply Hne.
      destruct (sy_lookup root _ _ _ _ Hs0 Hstm) as (_ & _ & _ & Hvm). by apply (own_unique root Hroot m n p).
Qed.

Lemma restore_one s n st0 sp :
  restoring s -> mg_membranes s0 !! n = Some st0 -> cat !! n = Some sp -> mg_membranes s !! n = None ->
  exists s' st, (install sp n ;; mg_OpenMembrane n) s = (inr tt, s') /\ restoring s' /\
    mg_membranes s' = <[n := st]> (mg_membranes s).
Proof using Hroot Hs0.
  intros Hs Hst0 Hcat Hnone. destruct (sy_lookup root _ _ _ _ Hs0 Hst0) as (sp' & Hsp' & (E1 & E2 & E3 & E4 & e & He & _) & Hv).
  assert (sp' = sp) as -> by congruence. clear Hsp'.
  pose proof (rs_entry _ Hs n) as Hent. rewrite Hst0, Hnone in Hent. destruct Hent as (e' & He' & Hr). rewrite He in He'.
  apply (map_singleton_inj) in He' as [_ <-]. set (slot := slot_of (ms_kind (mb_spec st0))) in *.
  assert (ms_kind sp = ms_kind (mb_spec st0)) as Hk by (rewrite <- E1; exact E3).
  assert (limits_ok sp) as Hlim by (rewrite <- E1; exact E4).
  destruct (make_ok slot (mdir root n) sp _ Hlim (or_intror (ex_intro _ e Hr))) as (e0 & fm0 & Hmk & Ho & Hbl & Hr0 & Hkeep).
  pose proof (Hkeep e Hr) as Hre.
  set (st := MkMembrane sp {[slot := e0]} (SetMaxEntries (db_max_lifecycle_entries (mg_base s)) lifecycle_new)).
  set (s1 := set_fs (MkFs fm0 []) (with_membranes (<[n := st]>) s)).
  assert (install sp n s = (inr tt, s1)) as Hin.
  { unfold install. rewrite (mbind_ok mget _ _ _ _ eq_refl). unfold engine_path. rewrite (rs_root _ Hs), Hk.
    fold (mdir root n) slot. rewrite (mbind_ok _ _ _ e0 (set_fs (MkFs fm0 []) s)).
    - unfold mmodify, with_membranes. cbn. by rewrite Hnone.
    - unfold on_fs. cbn [get_fs mg_HasFs]. by rewrite (rs_fs _ Hs), Hmk. }
  rewrite (mbind_ok _ _ _ _ _ Hin).
  assert (mg_membranes s1 !! n = Some st) as Hst1 by apply lookup_insert_eq.
  rewrite (OpenMembrane_eq s1 n st Hst1) by (exists e0; unfold st; cbn; by rewrite Hk). cbn zeta. change (mb_spec st) with sp.
  rewrite Hk. fold slot. destruct (opens slot) eqn:Hop.
  - destruct (open_ok slot _ _ _ _ Hbl Hr0 Hre) as (e1 & fm1 & Hrun & Ho1 & _ & Hke).
    exists (set_fs (MkFs fm1 []) (with_membranes (<[n := with_engines {[slot := e1]} st]>) s)), (with_engines {[slot := e1]} st). split_and!.
    + unfold call. rewrite Hst1. cbn [mb_engines st]. rewrite lookup_singleton_eq. cbn [mg_fs s1 set_fs mg_HasFs]. rewrite Hrun.
      rewrite insert_singleton_eq. unfold s1, with_membranes. cbn. by rewrite insert_insert_eq.
    + apply restoring_step with st0; try done; [| by eapply only_trans].
      split; [done |]. by exists e, e1.
    + done.
  - exists s1, st. split_and!; [done | | done]. apply restoring_step with st0; try done. split; [done |]. exists e, e0. split_and!; [done | done |].
    by apply unopened_keeps.
Qed.

(** ** Restoring all of them *)

Lemma in_catalogue n : is_Some (cat !! n) -> is_Some (mg_membranes s0 !! n).
Proof using Hs0.
  intros [sp Hsp]. pose proof (sy_entry root _ _ Hs0 n) as He. rewrite Hsp in He. destruct (mg_membranes s0 !! n); [by eexists | done].
Qed.

Lemma get_spec s n sp : restoring s -> cat !! n = Some sp ->
  on_fs (GetMembrane root n MembraneSpec_default) s = (inr sp, s).
Proof using.
  intros Hs Hsp. unfold on_fs. cbn [get_fs mg_HasFs]. rewrite (rs_fs _ Hs) at 1.
  rewrite (GetMembrane_rep root _ cat (rs_rep _ Hs)), cat_get_eq, Hsp, (rep_valid _ _ _ (rs_rep _ Hs) n sp Hsp). cbn.
  rewrite <- (rs_fs _ Hs). by destruct s.
Qed.

Lemma restore_all names : forall s,
  restoring s -> NoDup names -> (forall n, n ∈ names -> is_Some (cat !! n)) ->
  (forall n, n ∈ names -> n <> kDefaultMembrane -> mg_membranes s !! n = None) ->
  exists s', restore names s = (inr tt, s') /\ restoring s' /\
    forall n, is_Some (mg_membranes s !! n) \/ (n ∈ names /\ n <> kDefaultMembrane) -> is_Some (mg_membranes s' !! n).
Proof using Hroot Hs0.
  induction names as [| n names IH]; intros s Hs Hnd Hcat Hnone.
  { exists s. split_and!; [done | done |]. intros n [Hn | [Hn _]]; [done |]. by apply elem_of_nil in Hn. }
  apply NoDup_cons in Hnd as [Hn Hnd]. cbn [restore]. destruct (decide (n = kDefaultMembrane)) as [Hd | Hd].
  - rewrite bool_decide_eq_true_2, (mbind_ok (mret tt) _ _ _ _ eq_refl) by done.
    destruct (IH s Hs Hnd) as (s' & Hrun & Hs' & Hin); [intros m Hm; apply Hcat; by right | intros m Hm; apply Hnone; by right |].
    exists s'. split_and!; [done | done |]. intros m [Hm | [[-> | Hm]%elem_of_cons Hm']]; [by apply Hin; left | done | by apply Hin; right].
  - rewrite bool_decide_eq_false_2 by done. destruct (Hcat n) as [sp Hsp]; [by left |].
    destruct (in_catalogue n) as [st0 Hst0]; [by eexists |].
    assert (mg_membranes s !! n = None) as Hno by (apply Hnone; [by left | done]).
    destruct (restore_one s n st0 sp Hs Hst0 Hsp Hno) as (s1 & st & Hrun1 & Hs1 & Hm1).
    erewrite mbind_ok; cycle 1.
    { rewrite (mbind_ok mget _ _ _ _ eq_refl), (rs_root _ Hs), (mbind_ok _ _ _ _ _ (get_spec s n sp Hs Hsp)).
      rewrite bool_decide_eq_true_2 by done. exact Hrun1. }
    destruct (IH s1 Hs1 Hnd) as (s' & Hrun & Hs' & Hin).
    + intros m Hm. apply Hcat. by right.
    + intros m Hm Hmd. rewrite Hm1, lookup_insert_ne by congruence. apply Hnone; [by right | done].
    + exists s'. split_and!; [done | done |]. intros m Hm. apply Hin. rewrite Hm1. destruct Hm as [Hm | [[-> | Hm]%elem_of_cons Hm']].
      * left. apply lookup_insert_is_Some'. by right.
      * left. rewrite lookup_insert_eq. by eexists.
      * by right.
Qed.

(** ** Opening *)

Lemma cat_names_NoDup : NoDup (cat_names cat).
Proof using. unfold cat_names. rewrite sort_names_perm. apply NoDup_fst_map_to_list. Qed.

Lemma CheckCompatibility_rep fm : man_rep root fm cat -> CheckCompatibility root (MkFs fm []) = (inr tt, MkFs fm []).
Proof using.
  intros Hrep. unfold CheckCompatibility. rewrite (mbind_ok _ _ _ _ _ (ReadAll_ok _ _ _ (rep_root _ _ _ Hrep))).
  rewrite SerializeRoot_lines, cut_line_app by by apply token_no_nl, literal_token. by rewrite bool_decide_eq_true_2.
Qed.

(** The options under which a database can be opened. *)
Definition base_ok (base : DBOptions) : Prop :=
  db_path base = root /\ db_dim base <> 0 /\ db_shard_count base <> 0 /\ op_fits (OpCreate (default_spec base)).

Lemma create_default_guards base s :
  base_ok base -> mg_membranes s !! kDefaultMembrane = None -> mg_base s = base ->
  mg_CreateMembrane (default_spec base) s =
    (on_fs (CreateMembrane root (default_spec base)) ;; install (default_spec base) kDefaultMembrane) s.
Proof using.
  intros (Hp & Hd & Hsh & _) Hnone Hb. unfold mg_CreateMembrane, mguard. cbn [default_spec ms_name ms_kind ms_dim ms_shard_count].
  rewrite bool_decide_eq_false_2 by done. rewrite (proj2 (Z.eqb_neq _ _) Hd), (proj2 (Z.eqb_neq _ _) Hsh). cbn [negb andb dim_required].
  do 3 rewrite (mbind_ok (mret tt) _ _ _ _ eq_refl). rewrite (mbind_ok mget _ _ _ _ eq_refl).
  rewrite bool_decide_eq_true_2 by done. rewrite (mbind_ok (mret tt) _ _ _ _ eq_refl). by rewrite Hb, Hp.
Qed.

(** The catalogue refuses a name that it has. *)
Lemma CreateMembrane_exists fm spec :
  man_rep root fm cat -> op_fits (OpCreate spec) -> is_Some (cat !! ms_name spec) ->
  dim_required (ms_kind spec) && (ms_dim spec =? 0) = false -> (ms_shard_count spec =? 0) = false ->
  exists fm1, CreateMembrane root spec (MkFs fm []) = (inl (AlreadyExists "membrane already exists"), MkFs fm1 []) /\
    man_rep root fm1 cat /\ forall p, ~ manifest_file root p -> fm1 !! p = fm !! p.
Proof using.
  intros Hrep Hfit [sp Hsp] Hd Hsh.
  destruct (manifest_run root (OpCreate spec) (CreateMembrane root spec) (fun _ => RDone) fm cat Hrep Hfit) as (fm1 & r & Hrun & Hr & Hrep1); [done |].
  assert (cat_run (OpCreate spec) cat = (inl (AlreadyExists "membrane already exists"), cat)) as Hc.
  { cbn [cat_run]. unfold mguard. rewrite (rep_valid _ _ _ Hrep _ _ Hsp), Hd, Hsh. unfold mbind, M_bind, mget. cbn. by rewrite Hsp. }
  rewrite Hc in Hr, Hrep1. cbn in Hr. destruct r as [e |]; [| done]. injection Hr as <-. exists fm1. split_and!; [done | done |].
  intros p Hp. apply (CreateMembrane_frame root p Hp spec _ _ _ Hrun).
Qed.

Lemma restoring_files s fm1 :
  restoring s -> man_rep root fm1 cat -> (forall p, ~ manifest_file root p -> fm1 !! p = fs_files (mg_fs s) !! p) ->
  restoring (set_fs (MkFs fm1 []) s).
Proof using Hroot Hs0.
  intros Hs Hrep Hfr. split; cbn; [apply Hs | done | done |]. intros n. pose proof (rs_entry _ Hs n) as He.
  destruct (mg_membranes s0 !! n) as [st0 |] eqn:Hst0; [| done]. destruct (mg_membranes s !! n); [done |].
  destruct He as (e & He & Hr). exists e. split; [done |]. eapply rep_local, Hr. intros p Hp. apply Hfr.
  destruct (sy_lookup root _ _ _ _ Hs0 Hst0) as (_ & _ & _ & Hv). by apply (own_not_manifest root Hroot n).
Qed.

Lemma restoring_opened s b : restoring s -> restoring (with_opened b s).
Proof using. intros Hs. split; cbn; apply Hs. Qed.

Lemma open_again base fm :
  base_ok base -> restoring (mg_new base (MkFs fm [])) -> is_Some (cat !! kDefaultMembrane) ->
  exists s', mg_Open (mg_new base (MkFs fm [])) = (inr tt, s') /\
    forall n, match mg_membranes s0 !! n, mg_membranes s' !! n with
              | Some st0, Some st => restored st0 st
              | None, None => True
              | _, _ => False
              end.
Proof using Hroot Hs0.
  intros Hbase Hs Hdef. pose proof Hbase as (Hp & Hd & Hsh & Hfit). set (s := mg_new base (MkFs fm [])) in *.
  unfold mg_Open. rewrite (mbind_ok mget _ _ _ _ eq_refl). cbn zeta. rewrite (rs_root _ Hs).
  rewrite (mbind_ok _ _ _ (inr tt) s) by (unfold try_, on_fs; cbn [get_fs mg_HasFs s mg_new mg_fs]; by rewrite (CheckCompatibility_rep fm (rs_rep _ Hs))).
  rewrite (mbind_ok (mret tt) _ _ _ _ eq_refl), (mbind_ok (mmodify _) _ _ tt _ eq_refl).
  apply (restoring_opened _ true) in Hs. set (s1 := with_opened true s) in *. change (mg_base s) with base.
  destruct (CreateMembrane_exists fm (default_spec base) (rs_rep _ Hs) Hfit Hdef) as (fm1 & Hrun & Hrep1 & Hfr);
    [cbn; by apply Z.eqb_neq | by apply Z.eqb_neq |].
  assert (on_fs (CreateMembrane root (default_spec base)) s1 = (inl (AlreadyExists "membrane already exists"), set_fs (MkFs fm1 []) s1)) as Hon.
  { unfold on_fs. cbn [get_fs mg_HasFs s1 s with_opened mg_new mg_fs]. by rewrite Hrun. }
  rewrite (mbind_ok _ _ _ (inl (AlreadyExists "membrane already exists")) (set_fs (MkFs fm1 []) s1))
    by (unfold try_; rewrite create_default_guards by done; by rewrite (mbind_err _ _ _ _ _ Hon)).
  pose proof (restoring_files s1 fm1 Hs Hrep1 Hfr) as Hs1. set (s2 := set_fs (MkFs fm1 []) s1) in *.
  cbv iota. rewrite (bool_decide_eq_true_2 (st_code (AlreadyExists "membrane already exists") = kAlreadyExists)) by done.
  destruct Hdef as [sp Hsp]. destruct (in_catalogue kDefaultMembrane) as [st0 Hst0]; [by eexists |].
  destruct (restore_one s2 kDefaultMembrane st0 sp Hs1 Hst0 Hsp eq_refl) as (s3 & st3 & Hrun3 & Hs3 & Hm3).
  apply mbind_inv in Hrun3 as ([] & s2' & Hin & Hop).
  rewrite (mbind_ok _ _ _ tt s2') by (rewrite (mbind_ok _ _ _ _ _ (get_spec s2 _ sp Hs1 Hsp)); exact Hin).
  rewrite (mbind_ok _ _ _ _ _ Hop).
  rewrite (mbind_ok _ _ _ (cat_names cat) s3); cycle 1.
  { unfold on_fs. cbn [get_fs mg_HasFs]. rewrite (rs_fs _ Hs3) at 1. unfold ListMembranes.
    rewrite (mbind_ok _ _ _ _ _ (EnsureInitialized_rep root _ cat (rs_rep _ Hs3))), (LoadRoot_rep root _ cat (rs_rep _ Hs3)).
    rewrite <- (rs_fs _ Hs3). by destruct s3. }
  destruct (restore_all (cat_names cat) s3 Hs3 cat_names_NoDup) as (s' & Hrun' & Hs' & Hin').
  - intros n. by rewrite elem_of_cat_names.
  - intros n _ Hn. by rewrite Hm3, lookup_insert_ne.
  - exists s'. split; [done |]. intros n. pose proof (rs_entry _ Hs' n) as He. destruct (mg_membranes s0 !! n) as [stn |] eqn:Hstn.
    + assert (is_Some (mg_membranes s' !! n)) as [st' Hst']; [| by rewrite Hst' in *].
      apply Hin'. destruct (decide (n = kDefaultMembrane)) as [-> | Hne]; [left; rewrite Hm3, lookup_insert_eq; by eexists | right].
      split; [| done]. apply elem_of_cat_names. destruct (sy_lookup root _ _ _ _ Hs0 Hstn) as (spn & Hspn & _). by eexists.
    + by rewrite He.
Qed.
End open.

(** ** The first start *)

Section restart.
Context {E : Type} `{EngineLaws E} (root : path) (Hroot : root_plain root).
Implicit Types s : MembraneManager E.

(** No file of the catalogue's root and none of a membrane. *)
Definition no_database (fm : gmap path bytes) : Prop :=
  fm !! RootManifestPath root = None /\ forall n, IsValidName n = true -> fresh (mdir root n) fm.

Lemma EnsureInitialized_fresh fm :
  no_database fm -> exists fm0, EnsureInitialized root (MkFs fm []) = (inr tt, MkFs fm0 []) /\ man_rep root fm0 ∅ /\
    forall n, IsValidName n = true -> fresh (mdir root n) fm0.
Proof using Hroot.
  intros [Hno Hfr]. destruct (EnsureInitialized_new root fm Hno) as (fm0 & Hrun & Hrep). exists fm0. split_and!; [done | done |].
  intros n Hn p Hp. rewrite <- (Hfr n Hn p Hp).
  exact (EnsureInitialized_frame root p (own_not_manifest root Hroot n p Hn Hp) _ _ _ Hrun).
Qed.

(** [CreateMembrane] initialises the directory itself. *)
Lemma CreateMembrane_initialises spec fm fm0 :
  IsValidName (ms_name spec) = true -> dim_required (ms_kind spec) && (ms_dim spec =? 0) = false -> (ms_shard_count spec =? 0) = false ->
  EnsureInitialized root (MkFs fm []) = (inr tt, MkFs fm0 []) -> EnsureInitialized root (MkFs fm0 []) = (inr tt, MkFs fm0 []) ->
  CreateMembrane root spec (MkFs fm []) = CreateMembrane root spec (MkFs fm0 []).
Proof using.
  intros Hv Hd Hsh H1 H2. unfold CreateMembrane, mguard. rewrite Hv, Hd, Hsh. cbn [negb].
  do 6 rewrite (mbind_ok (mret tt) _ _ _ _ eq_refl). by rewrite (mbind_ok _ _ _ _ _ H1), (mbind_ok _ _ _ _ _ H2).
Qed.

Lemma open_first base fm :
  base_ok root base -> no_database fm ->
  exists s1, mg_Open (mg_new base (MkFs fm [])) = (inr tt, s1) /\
    mg_sync root {[kDefaultMembrane := stored (default_spec base) MembraneSpec_default]} s1.
Proof using Hroot.
  intros Hbase Hno. pose proof Hbase as (Hp & Hd & Hsh & Hfit). destruct (EnsureInitialized_fresh fm Hno) as (fm0 & Hi & Hrep0 & Hfr0).
  set (s := mg_new base (MkFs fm [])). unfold mg_Open. rewrite (mbind_ok mget _ _ _ _ eq_refl). cbn zeta. change (db_path (mg_base s)) with (db_path base).
  rewrite Hp, (mbind_ok _ _ _ (inl (IOError "read failed: open")) s); cycle 1.
  { unfold try_, on_fs, CheckCompatibility, ReadAll, ifstream_read. cbn [get_fs mg_HasFs s mg_new mg_fs]. unfold mbind, M_bind. cbn. by rewrite (proj1 Hno). }
  cbv iota. unfold mguard at 1. rewrite bool_decide_eq_true_2 by done.
  rewrite (mbind_ok (mret tt) _ _ _ _ eq_refl), (mbind_ok (mmodify _) _ _ tt _ eq_refl). set (s1 := with_opened true s). change (mg_base s) with base.
  set (s0 := set_fs (MkFs fm0 []) s1).
  assert (mg_sync root ∅ s0) as Hs0 by (split; cbn; [done | done | done |]; intros n; rewrite !lookup_empty; exact (Hfr0 n)).
  destruct (manifest_run root (OpCreate (default_spec base)) (CreateMembrane root (default_spec base)) (fun _ => RDone) fm0 ∅ Hrep0 Hfit)
    as (fm1 & r & Hrun & Hr & Hrep1); [done |].
  rewrite cat_create_eq in Hr, Hrep1 by (done || by apply Z.eqb_neq). cbn [default_spec ms_name] in Hr, Hrep1.
  rewrite (eq_refl : IsValidName kDefaultMembrane = true) in Hr, Hrep1. cbn in Hr. cbn [snd] in Hrep1. destruct r as [| []]; [done |]. clear Hr.
  assert (on_fs (CreateMembrane root (default_spec base)) s1 = (inr tt, set_fs (MkFs fm1 []) s0)) as Hon.
  { unfold on_fs. cbn [get_fs mg_HasFs s1 s with_opened mg_new mg_fs].
    rewrite (CreateMembrane_initialises _ fm fm0), Hrun; [done | done | cbn; by apply Z.eqb_neq | by apply Z.eqb_neq | done |].
    by apply (EnsureInitialized_rep root fm0 ∅). }
  destruct (install_sync root Hroot ∅ s0 (default_spec base) fm1 Hs0) as (s2 & Hin & Hs2 & [st Hst] & e & Hbl & He); try done.
  { intros p Hp'. apply (CreateMembrane_frame root p Hp' _ _ _ _ Hrun). }
  rewrite (mbind_ok _ _ _ (inr tt) s2) by (unfold try_; rewrite (create_default_guards root) by done; rewrite (mbind_ok _ _ _ _ _ Hon); cbn [default_spec ms_name] in Hin; by rewrite Hin).
  rewrite (mbind_ok (mret tt) _ _ _ _ eq_refl). cbn [default_spec ms_name ms_kind] in *. rewrite Hst in He. cbn in He. injection He as He Hk.
  rewrite insert_empty in Hs2. set (cat := {[kDefaultMembrane := _]}) in *.
  destruct (sy_lookup root _ _ _ _ Hs2 Hst) as (sp & Hsp & (E1 & E2 & E3 & E4 & e' & He' & Hre) & Hv).
  rewrite Hk in *. rewrite He in He'. apply map_singleton_inj in He' as [_ <-].
  destruct (open_ok _ _ _ e e Hbl Hre Hre) as (e1 & fm2 & Hrun2 & Ho & Hr1 & _).
  pose proof (call_eq root cat s2 kDefaultMembrane st e _ _ _ _ _ Hs2 Hst He Hrun2) as Hcall.
  set (s3 := set_fs (MkFs fm2 []) _) in Hcall.
  assert (mg_sync root cat s3) as Hs3.
  { apply (sync_update root Hroot cat s2 _ _ sp); try done. split_and!; cbn; try done; [by rewrite Hk .. |]. rewrite Hk. by exists e1. }
  rewrite (mbind_ok _ _ _ tt s3).
  2:{ rewrite (OpenMembrane_eq s2 _ st Hst) by (exists e; by rewrite Hk). cbn zeta. by rewrite Hk. }
  rewrite (mbind_ok _ _ _ (cat_names cat) s3).
  2:{ pose proof (sy_rep root _ _ Hs3) as Hrep3. unfold on_fs. cbn [get_fs mg_HasFs]. rewrite (sy_fs root _ _ Hs3) at 1. unfold ListMembranes.
      rewrite (mbind_ok _ _ _ _ _ (EnsureInitialized_rep root _ cat Hrep3)), (LoadRoot_rep root _ cat Hrep3).
      rewrite <- (sy_fs root _ _ Hs3). by destruct s3. }
  exists s3. split; [| done]. unfold cat_names, cat. rewrite map_to_list_singleton. reflexivity.
Qed.

(** A closed manager leaves files from which [Open] can restore everything. *)
Lemma closed_restoring cat s s1 base' :
  mg_sync root cat s -> still root cat s s1 -> base_ok root base' -> restoring root cat s (mg_new base' (mg_fs s1)).
Proof using.
  intros Hs (Hs1 & _ & Hst) (Hp & _). split; cbn; [done | apply Hs1 | apply Hs1 |]. intros n.
  destruct (mg_membranes s !! n) as [st0 |] eqn:Hst0; [| by rewrite lookup_empty]. rewrite lookup_empty.
  destruct (sy_lookup root _ _ _ _ Hs Hst0) as (sp & _ & (_ & _ & _ & _ & e & He & Hr) & _).
  exists e. split; [done |]. destruct (Hst n st0 Hst0) as (st' & _ & _ & Hkeep). by apply Hkeep.
Qed.

(** C15. A database survives a restart.  Start a manager on a directory without a
    database, run any sequence of membrane creations, drops, retention changes,
    compactions, flushes, links and data operations that [mgr_admits], close
    everything and start a new manager on the files.  Admitted are creations of
    the kinds the manifest can express (not AUDIO, BLOOM or DOCUMENT, which are
    read back as VECTOR) and drops of membranes other than the default one
    (which is created again at every start), with arguments within the widths
    of their types and data operations the engine knows.  Without I/O errors
    both starts and the close succeed and exactly the membranes that were
    registered are registered again, each with the stored part of its
    specification and an engine of the same kind that has what this engine
    promises to keep.  The promise of the engines is [EngineLaws]. *)
Theorem manager_restart_keeps_membranes base base' fm ops ord :
  base_ok root base -> base_ok root base' -> no_database fm -> Forall mgr_admits ops ->
  exists s0 s1 s2,
    mg_Open (mg_new base (MkFs fm [])) = (inr tt, s0) /\
    let s := mgr_exec ops s0 in
    mg_CloseAll ord s = (inr tt, s1) /\ mg_Open (mg_new base' (mg_fs s1)) = (inr tt, s2) /\
    dom (mg_membranes s2) = dom (mg_membranes s) /\
    forall n st, mg_membranes s !! n = Some st -> exists st2, mg_membranes s2 !! n = Some st2 /\ restored st st2.
Proof using Hroot.
  intros Hb Hb' Hno Hops. destruct (open_first base fm Hb Hno) as (s0 & Ho & Hs0). exists s0.
  destruct (mgr_exec_sync root Hroot ops _ s0 Hs0) as (cat & Hs & Hd); [rewrite lookup_singleton_eq; by eexists | done |].
  set (s := mgr_exec ops s0) in *. destruct (close_all_still root Hroot cat ord s Hs) as (s1 & Hst & Hc).
  pose proof (closed_restoring cat s s1 base' Hs Hst Hb') as Hre. rewrite (sy_fs root cat s1 (proj1 Hst)) in Hre.
  destruct (open_again root Hroot cat s Hs base' _ Hb' Hre Hd) as (s2 & Ho2 & Hall).
  rewrite <- (sy_fs root cat s1 (proj1 Hst)) in Ho2.
  exists (with_opened false (with_membranes (fun _ => ∅) s1)), s2. split; [done |]. cbv zeta. fold s. split_and!; [done | done | |].
  - apply set_eq. intros n. rewrite !elem_of_dom. specialize (Hall n).
    destruct (mg_membranes s !! n), (mg_membranes s2 !! n); try done; split; intros [? ?]; done || by eexists.
  - intros n st Hn. specialize (Hall n). rewrite Hn in Hall. destruct (mg_membranes s2 !! n) as [st2 |]; [by exists st2 | done].
Qed.
End restart.
