(* ===== verification/ManagerKv.v ===== *)
(** * The key-value engine under the membrane manager

    The engine of the membranes of kind KEYVALUE and META keeps the promise the
    manager relies on; the slots of the other kinds are left without an engine
    behind them. *)
From S2P Require Import Prelude Env Text Stream PosixFile Manifest ManifestTheorems ManifestCatalogue KeyValue KeyValueTheorems.
From S2P Require Import Linker Lifecycle Manager ManagerTheorems ManagerRestart ManagerReopen.

Open Scope Z_scope.

(** An engine, or nothing in the slots of other kinds. *)
Abbreviation KvMembrane := (option KeyValueEngine).

(** ** Facts about the engine *)

Section engine.
Context (clock : nat -> Z) (ord : nat -> MapOrder bytes Entry) (clock_u64 : forall t, is_u64 (clock t)).

Lemma ofstream_write_frame trunc p e data q : q <> p -> preserves (same_at q) (ofstream_write trunc p e data).
Proof.
  intros Hq. unfold ofstream_write. apply preserves_bind; [apply same_files, preserves_next_fault |]. intros d.
  apply preserves_bind; [apply preserves_guard |]. intros _. apply preserves_bind; [apply preserves_get |]. intros f. cbn zeta.
  apply preserves_bind; [apply same_files, preserves_next_fault |]. intros d'. intros g r g' E. unfold set_file, mmodify in E.
  injection E as <- <-. unfold same_at. cbn. by rewrite lookup_insert_ne.
Qed.

(** An operation changes no file but the log. *)
Lemma kv_op_frame op s q :
  kv_op_ok op -> retention_ok (kv_retention s) -> q <> kv_log_path s ->
  fs_files (kv_fs (kv_op clock ord op s).2) !! q = fs_files (kv_fs s) !! q.
Proof.
  intros Hop Hrp Hq. assert (forall trunc e d s', kv_log_path s' = kv_log_path s -> kv_fs s' = kv_fs s ->
    fs_files (kv_fs (on_fs (ofstream_write trunc (kv_log_path s) e d) s').2) !! q = fs_files (kv_fs s) !! q) as Hw.
  { intros trunc e d s' Hp Hf. rewrite on_fs_kv, Hf. cbn. destruct (ofstream_write trunc (kv_log_path s) e d (kv_fs s)) as [r f'] eqn:E.
    exact (ofstream_write_frame _ _ _ _ _ Hq _ _ _ E). }
  destruct op as [k v | k | | rp]; cbn [kv_op kv_op_ok] in *.
  - destruct (kv_Put_memory clock ord k v s (proj1 Hop) Hrp) as (m & t & t0 & -> & _). by apply Hw.
  - destruct (kv_Delete_memory clock k s) as (t & ->). unfold mbind, M_bind.
    pose proof (Hw false (IOError "kv append failed") (log_enc (MkKvRec 2 (clock t) k [])) (kv_on_map (delete k) s) eq_refl eq_refl) as E.
    by destruct (on_fs _ _) as [[] ?].
  - destruct (kv_Compact_memory clock ord s Hrp) as (m & t & t0 & -> & _). by apply Hw.
  - unfold kv_SetRetentionPolicy. rewrite (mbind_ok (mmodify _) _ _ tt _ eq_refl). set (s1 := MkKv _ _ _ _ _ _).
    destruct (EnforceRetention_spec clock ord s1 Hop) as (m & t & E & _). rewrite (mbind_ok _ _ _ _ _ E).
    destruct (kv_Compact_memory clock ord (kv_with_map m t s1) Hop) as (m' & t' & t0 & -> & _). by apply Hw.
Qed.

Lemma kv_replay_entries rs : Forall kv_rec_valid rs -> kv_entries_ok (kv_replay rs ∅).
Proof.
  intros Hrs. unfold kv_replay. assert (kv_entries_ok ∅) as He by apply map_Forall_empty. revert He. generalize (∅ : gmap bytes Entry).
  induction Hrs as [| r rs [Hop Hts Hk Hv] _ IH]; intros m Hm; [done |]. cbn [fold_left]. apply IH. unfold kv_apply.
  destruct (kr_op r =? 1); [by apply map_Forall_insert_2 |]. destruct (kr_op r =? 2); [by apply map_Forall_delete | done].
Qed.

(** ** As an engine of the manager *)

Definition kv_slot (slot : EngineSlot) : bool := match slot with keyvalue_engine | meta_engine => true | _ => false end.

(** An operation on the engine, which keeps its files in the manager's. *)
Definition on_kv (m : M KeyValueEngine unit) : M (KvMembrane * fs) unit := fun '(e, f) =>
  match e with
  | Some kv => let '(r, kv') := m (set_fs f kv) in (r, (Some kv', kv_fs kv'))
  | None => (inr tt, (e, f))
  end.

Context (max_kv_entries : Z).

(** src/core/membrane/manager.cc:392-395 [MembraneManager::CreateMembrane]. The
    constructor calls for the two kinds. *)
Definition kv_make (dir : path) (spec : MembraneSpec) (f : fs) : KeyValueEngine :=
  MkKv dir max_kv_entries (MkRetention (ms_ttl_sec spec) (ms_retention_max_count spec) (ms_retention_max_bytes spec)) ∅ 0 f.

#[local] Instance kv_EngineOps : EngineOps KvMembrane := {|
  eng_make slot dir spec := fun f => (inr (if kv_slot slot then Some (kv_make dir spec f) else None), f);
  eng_Open slot := if kv_slot slot then on_kv (kv_Open clock ord) else mret tt;
  eng_Close slot := if kv_slot slot then on_kv kv_Close else mret tt;
  eng_Flush slot := mret tt;
  eng_Compact slot := if kv_slot slot then on_kv (kv_Compact clock ord) else mret tt;
  eng_SetRetentionPolicy slot ttl c b :=
    if kv_slot slot then on_kv (kv_SetRetentionPolicy clock ord (MkRetention ttl c b)) else mret tt
|}.

(** The log holds what the engine has in memory. *)
Definition kv_rep (slot : EngineSlot) (dir : path) (fm : gmap path bytes) (e : KvMembrane) : Prop :=
  if kv_slot slot then exists kv rs, e = Some kv /\ kv_path kv = dir /\ kv_logged (set_fs (MkFs fm []) kv) rs else e = None.

Definition kv_blank (slot : EngineSlot) (e : KvMembrane) : Prop := forall kv, e = Some kv -> kv_map kv = ∅.

(** Nothing is lost while no retention policy is set. *)
Definition kv_keeps (slot : EngineSlot) (e e' : KvMembrane) : Prop :=
  kv_slot slot = true -> exists kv kv', e = Some kv /\ e' = Some kv' /\ (kv_retention kv' = no_retention -> kv_map kv ⊆ kv_map kv').

Definition kv_admits (slot : EngineSlot) (op : M (KvMembrane * fs) unit) : Prop :=
  if kv_slot slot then exists kop, kv_op_ok kop /\ op = on_kv (kv_op clock ord kop) else op = mret tt.

Lemma kv_files_own dir : own dir (dir +:+ "/kv_timed.log") /\ own dir (dir +:+ "/kv.log").
Proof.
  assert (forall k, below dir (dir +:+ "/" +:+ k) = true) as Hb.
  { intros k. unfold below. rewrite bool_decide_eq_true. exists (bstr k). by rewrite !bstr_app, <- app_assoc. }
  assert (forall a b, dir +:+ a = dir +:+ b -> a = b) as Hinj by (intros a b E; by apply (inj (String.app dir))).
  split; (split; [apply Hb | split; intros E%Hinj; discriminate E]).
Qed.

Lemma kv_logged_local kv rs fm fm' :
  (forall p, own (kv_path kv) p -> fm' !! p = fm !! p) ->
  kv_logged (set_fs (MkFs fm []) kv) rs -> kv_logged (set_fs (MkFs fm' []) kv) rs.
Proof.
  intros Hl [Hf Hlog Hleg Hv Hp Hc He]. destruct (kv_files_own (kv_path kv)) as [O1 O2]. split; try done.
  - change (default [] (fm' !! (kv_path kv +:+ "/kv_timed.log")) = log_bytes rs). rewrite Hl by done. exact Hlog.
  - change (fm' !! (kv_path kv +:+ "/kv.log") = None). by rewrite Hl.
Qed.

Lemma kv_make_logged dir spec fm rs (f : fs) :
  limits_ok spec -> default [] (fm !! (dir +:+ "/kv_timed.log")) = log_bytes rs -> fm !! (dir +:+ "/kv.log") = None -> Forall kv_rec_valid rs ->
  kv_logged (set_fs (MkFs fm []) (kv_make dir spec f)) rs.
Proof.
  intros (H1 & H2 & H3) Hlog Hleg Hv. split; try done; cbn.
  - split_and!; [apply H1 | apply H2 | apply H3].
  - apply map_empty_subseteq.
Qed.

Lemma kv_make_ok slot dir spec fm :
  limits_ok spec -> fresh dir fm \/ (exists e, kv_rep slot dir fm e) ->
  exists e0 fm0, eng_make slot dir spec (MkFs fm []) = (inr e0, MkFs fm0 []) /\ only dir fm fm0 /\
    kv_blank slot e0 /\ kv_rep slot dir fm0 e0 /\ forall e, kv_rep slot dir fm e -> kv_rep slot dir fm0 e.
Proof.
  intros Hlim Hfm. eexists _, fm. split_and!; [done | apply only_refl | | | done]; unfold kv_blank, kv_rep in *; destruct (kv_slot slot); try done.
  - by intros kv [= <-].
  - eexists _. destruct Hfm as [Hfr | (e & kv & rs & _ & <- & Hl)].
    + exists []. split_and!; [done | done |]. destruct (kv_files_own dir) as [O1 O2]. apply kv_make_logged; [done | | by apply Hfr | done].
      by rewrite (Hfr _ O1).
    + exists rs. split_and!; [done | done |]. destruct Hl as [Hf Hlog Hleg Hv Hp Hc He]. by apply kv_make_logged.
Qed.

Lemma kv_open_ok slot dir fm e0 e :
  kv_blank slot e0 -> kv_rep slot dir fm e0 -> kv_rep slot dir fm e ->
  exists e1 fm1, eng_Open slot (e0, MkFs fm []) = (inr tt, (e1, MkFs fm1 [])) /\ only dir fm fm1 /\
    kv_rep slot dir fm1 e1 /\ kv_keeps slot e e1.
Proof.
  cbn [eng_Open kv_EngineOps]. unfold kv_rep, kv_keeps. destruct (kv_slot slot); intros Hbl H0 H1.
  2:{ subst e0. exists None, fm. split_and!; [done | apply only_refl | done | done]. }
  destruct H0 as (kv0 & rs0 & -> & <- & Hl0), H1 as (kv & rs & -> & Hp & Hl). specialize (Hbl kv0 eq_refl).
  destruct (kv_Open_log clock ord (set_fs (MkFs fm []) kv0) rs (log_bytes rs)) as (m & t & E & Hm & Hno).
  - done.
  - apply Hl0.
  - unfold kv_log_path. change (kv_path (set_fs (MkFs fm []) kv0)) with (kv_path kv0). rewrite <- Hp. apply Hl.
  - intros s'. apply log_replay_bytes. apply Hl.
  - done.
  - apply Hl0.
  - unfold on_kv. rewrite E. eexists _, fm. split_and!; [done | apply only_refl | |].
    + eexists _, rs. split_and!; [done | done |]. destruct Hl as [Hf Hlog Hleg Hv Hpol Hc He]. split; try done.
      * unfold kv_log_path. change (kv_path (set_fs _ _)) with (kv_path kv0). rewrite <- Hp. exact Hlog.
      * change (kv_path (set_fs _ _)) with (kv_path kv0). rewrite <- Hp. exact Hleg.
      * apply Hl0.
      * eapply kv_entries_sub; [exact Hm | by apply kv_replay_entries].
    + intros _. eexists _, _. split_and!; [done | done |]. intros Hr. cbn in Hr |- *. rewrite (Hno Hr). apply Hl.
Qed.

Lemma kv_op_ok' slot op dir fm e :
  kv_admits slot op -> kv_rep slot dir fm e ->
  exists r e' fm', op (e, MkFs fm []) = (r, (e', MkFs fm' [])) /\ only dir fm fm' /\ kv_rep slot dir fm' e'.
Proof using clock_u64.
  unfold kv_admits, kv_rep. destruct (kv_slot slot).
  2:{ intros -> ->. eexists _, None, fm. split_and!; [done | apply only_refl | done]. }
  intros (kop & Hop & ->) (kv & rs & -> & <- & Hl).
  destruct (kv_op_logged clock ord clock_u64 kop _ rs Hl Hop) as (s' & rs' & E & Hl' & Hp & _).
  exists (inr tt), (Some s'), (fs_files (kv_fs s')).
  assert (kv_fs s' = MkFs (fs_files (kv_fs s')) []) as Hfs by (rewrite <- (kl_faults _ _ Hl'); by destruct (kv_fs s')).
  split_and!.
  - unfold on_kv. rewrite E. by rewrite Hfs.
  - intros p Hpo. pose proof (kv_op_frame kop _ p Hop (kl_policy _ _ Hl)) as Hfr. rewrite E in Hfr. apply Hfr.
    intros ->. apply Hpo, kv_files_own.
  - exists s', rs'. split_and!; [done | done |]. rewrite <- Hfs. by destruct s'.
Qed.

#[local] Program Instance kv_EngineLaws : EngineLaws KvMembrane := {|
  eng_rep := kv_rep; eng_blank := kv_blank; eng_keeps := kv_keeps; eng_admits := kv_admits;
  make_ok := kv_make_ok; open_ok := kv_open_ok; op_ok := kv_op_ok'
|}.
Next Obligation.
  intros slot dir fm fm' e Hl. unfold kv_rep. destruct (kv_slot slot); [| done]. intros (kv & rs & -> & <- & Hk). exists kv, rs.
  split_and!; [done | done |]. by eapply kv_logged_local.
Qed.
Next Obligation. intros slot e e' Hop Hs. by destruct slot. Qed.
Next Obligation. intros slot. unfold kv_admits. cbn. destruct (kv_slot slot); [by exists OpCompact | done]. Qed.
Next Obligation.
  intros slot ttl c b H1 H2 H3. unfold kv_admits. cbn. destruct (kv_slot slot); [| done]. exists (OpRetention (MkRetention ttl c b)).
  split; [| done]. split_and!; [apply H1 | apply H2 | apply H3].
Qed.
Next Obligation.
  intros slot op dir fm e Hop Hr. destruct Hop as [-> | ->].
  2:{ exists (inr tt), e, fm. split_and!; [done | apply only_refl | done | done]. }
  cbn. unfold kv_rep in *. destruct (kv_slot slot).
  - destruct Hr as (kv & rs & -> & Hp & Hl). exists (inr tt), (Some (set_fs (MkFs fm []) kv)), fm.
    split_and!; [done | apply only_refl | | done]. by exists (set_fs (MkFs fm []) kv), rs.
  - exists (inr tt), e, fm. split_and!; [done | apply only_refl | done | done].
Qed.
Next Obligation.
  intros slot dir fm0 fm e Hr Hfr. cbn. unfold kv_rep in Hr. destruct (kv_slot slot).
  - destruct Hr as (kv & rs & -> & _). by exists (inr tt), (Some (set_fs (MkFs fm []) kv)).
  - by exists (inr tt), e.
Qed.
End engine.

(** ** A database with a key-value membrane *)

#[local] Instance demo_EngineOps : EngineOps KvMembrane := kv_EngineOps demo_clock demo_order 0.
#[local] Instance demo_EngineLaws : EngineLaws KvMembrane := kv_EngineLaws demo_clock demo_order demo_clock_u64 0.

Definition demo_base : DBOptions := MkOptions "db" 8 1 IndexParams_ForEdge kL2 100.
Definition demo_ops : list (mgr_op (E := KvMembrane)) :=
  [MCreate (test_spec "cfg" kKeyValue); MCreate (test_spec "old" kMeta);
   MForward keyvalue_engine "KEYVALUE membrane required" (bstr "cfg") (on_kv (kv_op demo_clock demo_order (OpPut (bstr "a") (bstr "one"))));
   MDrop (bstr "old"); MCompact (bstr "cfg")].
Definition demo_started : MembraneManager KvMembrane := (mg_Open (mg_new demo_base (MkFs ∅ []))).2.
Definition demo_closed : MembraneManager KvMembrane := (mg_CloseAll default_order (mgr_exec demo_ops demo_started)).2.

Lemma demo_ops_admitted : Forall mgr_admits demo_ops.
Proof.
  repeat apply Forall_cons_2; [.. | done].
  - split; [apply (bool_decide_unpack _); vm_compute; exact I | done].
  - split; [apply (bool_decide_unpack _); vm_compute; exact I | done].
  - exists (OpPut (bstr "a") (bstr "one")). split; [by split_and! | done].
  - done.
  - done.
Qed.

(** The key-value membrane of a manager. *)
Definition demo_kv (s : MembraneManager KvMembrane) : option (MembraneKind * KeyValueEngine) :=
  st ← mg_membranes s !! bstr "cfg"; e ← mb_engines st !! keyvalue_engine; kv ← e; Some (ms_kind (mb_spec st), kv).

Lemma demo_kv_before :
  ((fun '(k, kv) => (k, kv_map kv)) <$> demo_kv (mgr_exec demo_ops demo_started)) =
    Some (kKeyValue, {[bstr "a" := MkEntry (bstr "one") 1000]}).
Proof. vm_compute. reflexivity. Qed.

Lemma demo_kv_after :
  ((fun '(k, kv) => kv_retention kv) <$> demo_kv (mg_Open (mg_new demo_base (mg_fs demo_closed))).2) = Some no_retention.
Proof. vm_compute. reflexivity. Qed.

Lemma manager_restart_keeps_membranes_witness :
  exists kv, demo_kv (mg_Open (mg_new demo_base (mg_fs demo_closed))).2 = Some (kKeyValue, kv) /\
    kv_map kv !! bstr "a" = Some (MkEntry (bstr "one") 1000).
Proof.
  edestruct (manager_restart_keeps_membranes "db" eq_refl demo_base demo_base ∅ demo_ops default_order) as (s0 & s1 & s2 & Ho & Hrest).
  - split_and!; [done | done | done |]. apply (bool_decide_unpack _). vm_compute. exact I.
  - split_and!; [done | done | done |]. apply (bool_decide_unpack _). vm_compute. exact I.
  - split; [apply lookup_empty |]. intros n _ p _. apply lookup_empty.
  - apply demo_ops_admitted.
  - cbv zeta in Hrest. destruct Hrest as (Hc & Ho2 & _ & Hall).
    apply (f_equal snd) in Ho, Hc, Ho2. cbn [snd] in Ho, Hc, Ho2. fold demo_started in Ho. subst s0. fold demo_closed in Hc. subst s1.
    pose proof demo_kv_before as Hb. pose proof demo_kv_after as Ha. rewrite Ho2 in *. clear Ho2. unfold demo_kv in *.
    destruct (mg_membranes (mgr_exec demo_ops demo_started) !! bstr "cfg") as [st |] eqn:Hst; [| discriminate Hb].
    destruct (Hall _ st Hst) as (st2 & Hst2 & Hsp & e & e1 & He & He1 & Hk). rewrite Hst2 in Ha |- *. cbn in Hb, Ha |- *.
    destruct (mb_engines st !! keyvalue_engine) as [[kv |] |] eqn:E1; [| discriminate Hb ..]. injection Hb as Hkd Hm.
    rewrite Hkd in *. cbn [slot_of] in *. rewrite He, lookup_singleton_eq in E1. injection E1 as ->. rewrite He1, lookup_singleton_eq in Ha |- *.
    destruct (Hk eq_refl) as (kv0 & kv1 & [= <-] & -> & Hsub). cbn in Ha |- *. injection Ha as Hno. exists kv1. split.
    + rewrite Hsp. cbn. by rewrite Hkd.
    + apply (lookup_weaken (kv_map kv)); [| by apply Hsub]. rewrite Hm. reflexivity.
Defined.
