(* ===== verification/PagePool.v ===== *)
(** * The page pool (src/palloc_page_pool.cc, include/palloc_page_pool.h)

    A cache of fixed-size pages over a swap file: frames with pin counts, a
    CLOCK hand that evicts unpinned frames, dirty frames written to fresh swap
    slots.  The arena is the list of its frames; the swap file is a byte string
    and every [pwrite] and [pread] can fail or be short, by a list of fault
    decisions.  Allocation succeeds.  The metrics and [last_access_epoch],
    which nothing reads, are not modelled. *)
From S2P Require Import Prelude Env.

Open Scope Z_scope.

Definition kInvalidPageId : Z := 2 ^ 64 - 1.
Definition kInvalidSwapSlot : Z := 2 ^ 64 - 1.

(** src/palloc_page_pool.cc:25-33 [PageMeta]. *)
Record PageMeta : Type := MkPage {
  pm_page_id : Z;
  pm_swap_slot : Z;
  pm_pin_count : Z;
  pm_dirty : bool;
  pm_ref_bit : bool;
  pm_in_use : bool
}.

Definition page_empty : PageMeta := MkPage kInvalidPageId kInvalidSwapSlot 0 false false false.

(** src/palloc_page_pool.cc:39-68 [palloc_page_pool_impl]. *)
Record Pool : Type := MkPool {
  pp_page_size : Z;
  pp_capacity_bytes : Z;
  pp_frames : list bytes;
  pp_swap_open : bool;
  pp_swap : bytes;
  pp_faults : list (option fault);
  pp_pages : list PageMeta;
  pp_page_index : gmap Z nat;
  pp_swapped : gmap Z Z;
  pp_free_swap_slots : list Z;
  pp_next_swap_slot : Z;
  pp_resident_pages : Z;
  pp_dirty_pages : Z;
  pp_bytes_in_swap : Z;
  pp_evictions : Z;
  pp_clock_hand : nat
}.

(** [max_resident_pages] is the number of frames and of page records. *)
Definition pp_max (p : Pool) : nat := length (pp_pages p).

(** ** Field updates *)

Definition with_pages (l : list PageMeta) (p : Pool) : Pool :=
  MkPool (pp_page_size p) (pp_capacity_bytes p) (pp_frames p) (pp_swap_open p) (pp_swap p) (pp_faults p) l (pp_page_index p)
    (pp_swapped p) (pp_free_swap_slots p) (pp_next_swap_slot p) (pp_resident_pages p) (pp_dirty_pages p) (pp_bytes_in_swap p)
    (pp_evictions p) (pp_clock_hand p).
Definition with_frame (i : nat) (b : bytes) (p : Pool) : Pool :=
  MkPool (pp_page_size p) (pp_capacity_bytes p) (<[i := b]> (pp_frames p)) (pp_swap_open p) (pp_swap p) (pp_faults p) (pp_pages p)
    (pp_page_index p) (pp_swapped p) (pp_free_swap_slots p) (pp_next_swap_slot p) (pp_resident_pages p) (pp_dirty_pages p)
    (pp_bytes_in_swap p) (pp_evictions p) (pp_clock_hand p).
Definition with_index (m : gmap Z nat) (p : Pool) : Pool :=
  MkPool (pp_page_size p) (pp_capacity_bytes p) (pp_frames p) (pp_swap_open p) (pp_swap p) (pp_faults p) (pp_pages p) m
    (pp_swapped p) (pp_free_swap_slots p) (pp_next_swap_slot p) (pp_resident_pages p) (pp_dirty_pages p) (pp_bytes_in_swap p)
    (pp_evictions p) (pp_clock_hand p).
Definition with_counts (resident dirty evictions : Z) (p : Pool) : Pool :=
  MkPool (pp_page_size p) (pp_capacity_bytes p) (pp_frames p) (pp_swap_open p) (pp_swap p) (pp_faults p) (pp_pages p)
    (pp_page_index p) (pp_swapped p) (pp_free_swap_slots p) (pp_next_swap_slot p) resident dirty (pp_bytes_in_swap p)
    evictions (pp_clock_hand p).
Definition with_hand (h : nat) (p : Pool) : Pool :=
  MkPool (pp_page_size p) (pp_capacity_bytes p) (pp_frames p) (pp_swap_open p) (pp_swap p) (pp_faults p) (pp_pages p)
    (pp_page_index p) (pp_swapped p) (pp_free_swap_slots p) (pp_next_swap_slot p) (pp_resident_pages p) (pp_dirty_pages p)
    (pp_bytes_in_swap p) (pp_evictions p) h.
Definition with_swap (swap : bytes) (faults : list (option fault)) (swapped : gmap Z Z) (free : list Z) (next in_swap : Z) (p : Pool) : Pool :=
  MkPool (pp_page_size p) (pp_capacity_bytes p) (pp_frames p) (pp_swap_open p) swap faults (pp_pages p)
    (pp_page_index p) swapped free next (pp_resident_pages p) (pp_dirty_pages p) in_swap (pp_evictions p) (pp_clock_hand p).

Definition with_faults (faults : list (option fault)) (p : Pool) : Pool :=
  with_swap (pp_swap p) faults (pp_swapped p) (pp_free_swap_slots p) (pp_next_swap_slot p) (pp_bytes_in_swap p) p.

Definition set_page (i : nat) (m : PageMeta) (p : Pool) : Pool := with_pages (<[i := m]> (pp_pages p)) p.
Definition page_at (i : nat) (p : Pool) : PageMeta := default page_empty (pp_pages p !! i).
Definition frame_at (i : nat) (p : Pool) : bytes := default [] (pp_frames p !! i).

Definition set_dirty (d : bool) (m : PageMeta) : PageMeta :=
  MkPage (pm_page_id m) (pm_swap_slot m) (pm_pin_count m) d (pm_ref_bit m) (pm_in_use m).
Definition set_pins (n : Z) (ref : bool) (m : PageMeta) : PageMeta :=
  MkPage (pm_page_id m) (pm_swap_slot m) n (pm_dirty m) ref (pm_in_use m).
Definition set_slot (s : Z) (m : PageMeta) : PageMeta :=
  MkPage (pm_page_id m) s (pm_pin_count m) (pm_dirty m) (pm_ref_bit m) (pm_in_use m).
Definition set_in_use (b : bool) (m : PageMeta) : PageMeta :=
  MkPage (pm_page_id m) (pm_swap_slot m) (pm_pin_count m) (pm_dirty m) (pm_ref_bit m) b.

(** The decision of the next system call. *)
Definition pool_fault (p : Pool) : option fault * Pool :=
  match pp_faults p with
  | [] => (None, p)
  | d :: rest => (d, with_faults rest p)
  end.

(** ** Swapping *)

(** [static_cast<off_t>(slot * page_size)]: the product wraps at 64 bits and
    is negative from [2 ^ 63] on, which the system calls refuse. *)
Definition swap_off (slot : Z) (p : Pool) : Z := u64 (slot * pp_page_size p).
Definition off_valid (off : Z) : bool := off <? 2 ^ 63.

(** What a positional write or read transfers. *)
Definition transferred (ok : bool) (d : option fault) (data : bytes) : bytes :=
  if negb ok then [] else
  match d with None => data | Some flt => take (flt_written flt) data end.

Definition swap_pwrite (c : bytes) (off : Z) (data : bytes) : bytes :=
  match data with [] => c | _ => pwrite c off data end.

(** src/palloc_page_pool.cc:104-129 [write_page_to_swap]. *)
Definition write_page_to_swap (frame : nat) (page_id : Z) (p : Pool) : bool * Pool :=
  if negb (pp_swap_open p) then (false, p) else
  let '(slot, free, next) :=
    match last (pp_free_swap_slots p) with
    | Some s => (s, removelast (pp_free_swap_slots p), pp_next_swap_slot p)
    | None => (pp_next_swap_slot p, pp_free_swap_slots p, u64 (pp_next_swap_slot p + 1))
    end in
  let '(d, p) := pool_fault p in
  let off := swap_off slot p in
  let data := transferred (off_valid off) d (frame_at frame p) in
  let swap := swap_pwrite (pp_swap p) off data in
  if negb (zlen data =? pp_page_size p)
  then (false, with_swap swap (pp_faults p) (pp_swapped p) free next (pp_bytes_in_swap p) p)
  else
    let p := with_swap swap (pp_faults p) (<[page_id := slot]> (pp_swapped p)) free next
               (Z.max (pp_bytes_in_swap p) (u64 ((slot + 1) * pp_page_size p))) p in
    (true, set_page frame (set_slot slot (page_at frame p)) p).

(** src/palloc_page_pool.cc:131-151 [read_page_from_swap]. A short read leaves what it
    read in the frame. *)
Definition read_page_from_swap (frame : nat) (page_id : Z) (p : Pool) : bool * Pool :=
  match pp_swapped p !! page_id with
  | None => (true, with_frame frame (replicate (Z.to_nat (pp_page_size p)) Byte.x00) p)
  | Some slot =>
      let '(d, p) := pool_fault p in
      let off := swap_off slot p in
      let want := take (Z.to_nat (pp_page_size p)) (drop (Z.to_nat off) (pp_swap p)) in
      let got := transferred (pp_swap_open p && off_valid off) d want in
      (zlen got =? pp_page_size p, with_frame frame (got ++ drop (length got) (frame_at frame p)) p)
  end.

(** src/palloc_page_pool.cc:153-163 [flush_frame_locked]. *)
Definition flush_frame_locked (frame : nat) (p : Pool) : bool * Pool :=
  let m := page_at frame p in
  if negb (pm_in_use m) || negb (pm_dirty m) then (true, p) else
  if negb (pp_swap_open p) then (false, p) else
  let '(ok, p) := write_page_to_swap frame (pm_page_id m) p in
  if negb ok then (false, p) else
  let p := set_page frame (set_dirty false (page_at frame p)) p in
  (true, with_counts (pp_resident_pages p) (if 0 <? pp_dirty_pages p then pp_dirty_pages p - 1 else pp_dirty_pages p) (pp_evictions p) p).

(** src/palloc_page_pool.cc:165-171 [flush_all_locked]. *)
Definition flush_all_locked (p : Pool) : bool * Pool :=
  fold_left (fun acc i => let '(ok, p) := acc in
                          let '(r, p) := flush_frame_locked i p in (ok && r, p))
    (seq 0 (pp_max p)) (true, p).

(** ** Frames *)

(** What both branches of [allocate_frame_for_page] make of a frame they take. *)
Definition take_frame (i : nat) (page_id slot : Z) (p : Pool) : Pool :=
  set_page i (MkPage page_id slot 0 false true true) p.

Definition free_frame (i : nat) (p : Pool) : Pool := set_page i (set_in_use false (page_at i p)) p.

(** src/palloc_page_pool.cc:200-234 [allocate_frame_for_page]. The CLOCK loop; the
    result is the frame, if any, and [is_new]. *)
Fixpoint clock_evict (passes : nat) (page_id : Z) (p : Pool) : option (nat * bool) * Pool :=
  match passes with
  | O => (None, p)
  | S passes =>
      let idx := pp_clock_hand p in
      let m := page_at idx p in
      let p := with_hand (Nat.modulo (pp_clock_hand p + 1) (pp_max p)) p in
      if negb (pm_in_use m) || negb (pm_pin_count m =? 0) then clock_evict passes page_id p else
      if pm_ref_bit m then clock_evict passes page_id (set_page idx (set_pins (pm_pin_count m) false m) p) else
      let '(flushed, p) := if pm_dirty m then flush_frame_locked idx p else (true, p) in
      if negb flushed then clock_evict passes page_id p else
      let p := with_index (delete (pm_page_id m) (pp_page_index p)) p in
      let p := with_counts (pp_resident_pages p) (pp_dirty_pages p) (u64 (pp_evictions p + 1)) p in
      let p := take_frame idx page_id (pm_swap_slot (page_at idx p)) p in
      let is_new := bool_decide (pp_swapped p !! page_id = None) in
      let '(ok, p) := read_page_from_swap idx page_id p in
      if ok then (Some (idx, is_new), p)
      else
        let p := free_frame idx p in
        (None, with_counts (if 0 <? pp_resident_pages p then pp_resident_pages p - 1 else pp_resident_pages p)
                 (pp_dirty_pages p) (pp_evictions p) p)
  end.

(** src/palloc_page_pool.cc:174-235 [allocate_frame_for_page]. The result is the
    frame and [is_new]; [None] is [pages.size()]. *)
Definition allocate_frame_for_page (page_id : Z) (p : Pool) : option (nat * bool) * Pool :=
  match list_find (fun m => pm_in_use m = false) (pp_pages p) with
  | Some (i, _) =>
      let p := take_frame i page_id kInvalidSwapSlot p in
      let p := with_counts (u64 (pp_resident_pages p + 1)) (pp_dirty_pages p) (pp_evictions p) p in
      let is_new := bool_decide (pp_swapped p !! page_id = None) in
      let '(ok, p) := read_page_from_swap i page_id p in
      if ok then (Some (i, is_new), p)
      else (None, with_counts (u64 (pp_resident_pages p - 1)) (pp_dirty_pages p) (pp_evictions p) (free_frame i p))
  | None => clock_evict (2 * pp_max p) page_id p
  end.

(** ** The interface *)

(** src/palloc_page_pool.cc:240-270 [fill_defaults]. The profile as its number. *)
Definition fill_defaults (page_size capacity_bytes profile : Z) : Z * Z :=
  (if page_size =? 0 then (if profile =? 0 then 4096 else if profile =? 1 then 8192 else 16384) else page_size,
   if capacity_bytes =? 0
   then (if profile =? 0 then 33554432 else if profile =? 1 then 67108864 else 134217728) else capacity_bytes).

(** src/palloc_page_pool.cc:282-328 [palloc_page_pool_create]. [swap_open] says whether the
    swap file could be opened, [garbage] is the fresh arena. *)
Definition palloc_page_pool_create (page_size capacity_bytes profile : Z) (swap_open : bool) (swap : bytes)
    (garbage : nat -> bytes) (faults : list (option fault)) : option Pool :=
  let '(page_size, capacity_bytes) := fill_defaults page_size capacity_bytes profile in
  if (page_size =? 0) || (capacity_bytes <? page_size) then None else
  let n := Z.to_nat (capacity_bytes / page_size) in
  Some (MkPool page_size capacity_bytes (garbage <$> seq 0 n) swap_open swap faults (replicate n page_empty)
          ∅ ∅ [] 0 0 0 0 0 0).

(** src/palloc_page_pool.cc:336-371 [palloc_fetch_page]. The frame, which is the address,
    and [is_new]; [None] is a null pointer. *)
Definition palloc_fetch_page (page_id : Z) (for_write : bool) (p : Pool) : option (nat * bool) * Pool :=
  match pp_page_index p !! page_id with
  | Some frame =>
      let m := page_at frame p in
      (Some (frame, false), set_page frame (set_pins (u32 (pm_pin_count m + 1)) true m) p)
  | None =>
      let '(r, p) := allocate_frame_for_page page_id p in
      match r with
      | None => (None, p)
      | Some (frame, is_new) =>
          let p := with_index (<[page_id := frame]> (pp_page_index p)) p in
          let m := set_pins 1 true (page_at frame p) in
          if for_write
          then (Some (frame, is_new), with_counts (pp_resident_pages p) (u64 (pp_dirty_pages p + 1)) (pp_evictions p)
                                        (set_page frame (set_dirty true m) p))
          else (Some (frame, is_new), set_page frame m p)
      end
  end.

(** src/palloc_page_pool.cc:373-390 [palloc_unpin_page]. *)
Definition palloc_unpin_page (page_id : Z) (mark_dirty : bool) (p : Pool) : Pool :=
  match pp_page_index p !! page_id with
  | None => p
  | Some frame =>
      let m := page_at frame p in
      let m := if 0 <? pm_pin_count m then set_pins (pm_pin_count m - 1) (pm_ref_bit m) m else m in
      if mark_dirty && negb (pm_dirty m)
      then with_counts (pp_resident_pages p) (u64 (pp_dirty_pages p + 1)) (pp_evictions p) (set_page frame (set_dirty true m) p)
      else set_page frame m p
  end.

(** src/palloc_page_pool.cc:392-401 [palloc_flush_page]. *)
Definition palloc_flush_page (page_id : Z) (p : Pool) : Z * Pool :=
  match pp_page_index p !! page_id with
  | None => (0, p)
  | Some frame => let '(ok, p) := flush_frame_locked frame p in (if (ok : bool) then 0 else -1, p)
  end.

(** src/palloc_page_pool.cc:403-407 [palloc_flush_all]. *)
Definition palloc_flush_all (p : Pool) : Z * Pool :=
  let '(ok, p) := flush_all_locked p in (if (ok : bool) then 0 else -1, p).

(** src/palloc_page_pool.cc:409-419 [palloc_page_pool_get_stats]. Page size, capacity,
    resident pages, dirty pages, bytes in swap and evictions. *)
Definition palloc_page_pool_get_stats (p : Pool) : Z * Z * Z * Z * Z * Z :=
  (pp_page_size p, pp_capacity_bytes p, pp_resident_pages p, pp_dirty_pages p, pp_bytes_in_swap p, pp_evictions p).

(** src/palloc_page_pool.cc:70-83 [~palloc_page_pool_impl]. What is left is the swap
    file. *)
Definition palloc_page_pool_destroy (p : Pool) : bytes := pp_swap (flush_all_locked p).2.

(** src/palloc_page_pool.cc:421-430 [palloc_get_default_page_pool]. [g_default_pool] is
    [None] until the first call that creates it. *)
Definition palloc_get_default_page_pool (swap_open : bool) (swap : bytes) (garbage : nat -> bytes)
    (faults : list (option fault)) (g_default_pool : option Pool) : option Pool :=
  match g_default_pool with
  | Some p => Some p
  | None => palloc_page_pool_create 0 0 1 swap_open swap garbage faults
  end.

(** What the holder of a pinned page does with the pointer it was given: it
    overwrites the frame. *)
Definition client_write (frame : nat) (data : bytes) (p : Pool) : Pool := with_frame frame data p.
