(* ===== verification/PagePoolTheorems.v ===== *)
(** * The page pool is a memory

    Whatever is evicted, flushed or fails to be read or written, the pool shows
    each client the bytes last written to a page, a pinned page stays at the
    address it was fetched at, and its counters are exact. *)
From S2P Require Import Prelude Env PagePool.

Open Scope Z_scope.

(** ** What a page holds *)

Definition slice (sz s : Z) (swap : bytes) : bytes := take (Z.to_nat sz) (drop (Z.to_nat (s * sz)) swap).

(** The bytes of a page that is not resident. *)
Definition backing (p : Pool) (pid : Z) : bytes :=
  match pp_swapped p !! pid with
  | Some s => slice (pp_page_size p) s (pp_swap p)
  | None => replicate (Z.to_nat (pp_page_size p)) Byte.x00
  end.

Definition view (p : Pool) (pid : Z) : bytes :=
  match pp_page_index p !! pid with Some f => frame_at f p | None => backing p pid end.

Definition pin_of (p : Pool) (pid : Z) : Z :=
  match pp_page_index p !! pid with Some f => pm_pin_count (page_at f p) | None => 0 end.

(** The invariant: [T] are the pages written to since they were last marked
    dirty, [k] bounds the swap slots used. *)
Record pool_ok (T : gset Z) (k : Z) (p : Pool) : Prop := {
  po_size : 0 < pp_page_size p;
  po_len : length (pp_frames p) = length (pp_pages p);
  po_frames : forall f b, pp_frames p !! f = Some b -> zlen b = pp_page_size p;
  po_hand : (pp_clock_hand p < length (pp_pages p))%nat;
  po_index : forall pid f, pp_page_index p !! pid = Some f <->
    exists m, pp_pages p !! f = Some m /\ pm_in_use m = true /\ pm_page_id m = pid;
  po_pins : forall f m, pp_pages p !! f = Some m -> 0 <= pm_pin_count m;
  po_idle : forall f m, pp_pages p !! f = Some m -> pm_in_use m = false -> pm_dirty m = false;
  po_clean : forall f m, pp_pages p !! f = Some m -> pm_in_use m = true -> pm_dirty m = false ->
    pm_page_id m ∉ T -> frame_at f p = backing p (pm_page_id m);
  po_touched : forall pid, pid ∈ T -> 0 < pin_of p pid;
  po_free : pp_free_swap_slots p = [];
  po_next : 0 <= pp_next_swap_slot p <= k;
  po_slots : forall pid s, pp_swapped p !! pid = Some s ->
    pp_swap_open p = true /\ 0 <= s < pp_next_swap_slot p /\ (s + 1) * pp_page_size p <= zlen (pp_swap p)
}.

(** What an operation that is not a client's write leaves alone. *)
Record keeps (p p' : Pool) : Prop := {
  kp_size : pp_page_size p' = pp_page_size p;
  kp_max : length (pp_pages p') = length (pp_pages p);
  kp_view : forall pid, view p' pid = view p pid;
  kp_pins : forall pid, pin_of p' pid = pin_of p pid;
  kp_addr : forall pid, 0 < pin_of p pid -> pp_page_index p' !! pid = pp_page_index p !! pid
}.

#[global] Instance keeps_po : PreOrder keeps.
Proof.
  split.
  - intros p. by split.
  - intros p q r H1 H2. split.
    + by rewrite (kp_size _ _ H2), (kp_size _ _ H1).
    + by rewrite (kp_max _ _ H2), (kp_max _ _ H1).
    + intros pid. by rewrite (kp_view _ _ H2), (kp_view _ _ H1).
    + intros pid. by rewrite (kp_pins _ _ H2), (kp_pins _ _ H1).
    + intros pid Hp. rewrite (kp_addr _ _ H2) by (by rewrite (kp_pins _ _ H1)). by apply (kp_addr _ _ H1).
Qed.

(** ** Lists of pages *)

Lemma insert_lookup_inv {A} (l : list A) (i j : nat) (x y : A) :
  <[i := x]> l !! j = Some y -> (j = i /\ y = x) \/ (j <> i /\ l !! j = Some y).
Proof. intros H%list_lookup_insert_Some. naive_solver. Qed.

Lemma page_at_eq (p : Pool) (f : nat) (m : PageMeta) : pp_pages p !! f = Some m -> page_at f p = m.
Proof. unfold page_at. by intros ->. Qed.

Lemma page_at_set (p : Pool) (f g : nat) (m m' : PageMeta) :
  pp_pages p !! f = Some m -> page_at g (set_page f m' p) = if decide (g = f) then m' else page_at g p.
Proof.
  intros Hf. unfold page_at; cbn. destruct (decide (g = f)) as [-> | Hne].
  - rewrite list_lookup_insert_eq by (eapply lookup_lt_Some, Hf). done.
  - by rewrite list_lookup_insert_ne by done.
Qed.

Lemma frame_at_set (p : Pool) (f g : nat) (b : bytes) :
  (f < length (pp_frames p))%nat -> frame_at g (with_frame f b p) = if decide (g = f) then b else frame_at g p.
Proof.
  intros Hf. unfold frame_at; cbn. destruct (decide (g = f)) as [-> | Hne].
  - by rewrite list_lookup_insert_eq.
  - by rewrite list_lookup_insert_ne by done.
Qed.

Section pool.
Context (T : gset Z) (k : Z) (p : Pool) (Hok : pool_ok T k p).

(** The page of a frame in use is indexed, by that frame alone. *)
Lemma indexed (f : nat) (m : PageMeta) :
  pp_pages p !! f = Some m -> pm_in_use m = true -> pp_page_index p !! pm_page_id m = Some f.
Proof. intros Hf Hu. apply (po_index _ _ _ Hok). eauto. Qed.

Lemma index_page (pid : Z) (f : nat) :
  pp_page_index p !! pid = Some f -> exists m, pp_pages p !! f = Some m /\ pm_in_use m = true /\ pm_page_id m = pid.
Proof. apply (po_index _ _ _ Hok). Qed.

Lemma same_frame (f g : nat) (m m' : PageMeta) :
  pp_pages p !! f = Some m -> pp_pages p !! g = Some m' -> pm_in_use m = true -> pm_in_use m' = true ->
  pm_page_id m = pm_page_id m' -> f = g.
Proof.
  intros Hf Hg Hu Hu' Heq. pose proof (indexed f m Hf Hu) as H1. pose proof (indexed g m' Hg Hu') as H2. congruence.
Qed.

Lemma pin_of_page (f : nat) (m : PageMeta) :
  pp_pages p !! f = Some m -> pm_in_use m = true -> pin_of p (pm_page_id m) = pm_pin_count m.
Proof. intros Hf Hu. unfold pin_of. rewrite (indexed f m Hf Hu). by rewrite (page_at_eq p f m). Qed.

Lemma frame_len (f : nat) (m : PageMeta) : pp_pages p !! f = Some m -> zlen (frame_at f p) = pp_page_size p.
Proof.
  intros Hf. apply lookup_lt_Some in Hf. rewrite <- (po_len _ _ _ Hok) in Hf.
  apply lookup_lt_is_Some in Hf as [b Hb]. unfold frame_at. rewrite Hb. by apply (po_frames _ _ _ Hok f).
Qed.

End pool.

(** ** The steps of the operations *)

(** A new record for a frame in use. *)
Lemma set_page_ok (T T' : gset Z) (k : Z) (p : Pool) (f : nat) (m m' : PageMeta) :
  pool_ok T k p -> pp_pages p !! f = Some m -> pm_in_use m = true ->
  pm_in_use m' = true -> pm_page_id m' = pm_page_id m -> 0 <= pm_pin_count m' ->
  (pm_dirty m' = false -> pm_page_id m ∉ T' -> frame_at f p = backing p (pm_page_id m)) ->
  (forall q, q <> pm_page_id m -> q ∈ T' <-> q ∈ T) ->
  (pm_page_id m ∈ T' -> 0 < pm_pin_count m') ->
  pool_ok T' k (set_page f m' p).
Proof.
  intros Hok Hf Hu Hu' Hid Hpin Hcl HT Htc. pose proof (lookup_lt_Some _ _ _ Hf) as Hlt.
  split; try apply Hok.
  - cbn. rewrite length_insert. apply Hok.
  - cbn. rewrite length_insert. apply Hok.
  - intros pid g. cbn. rewrite (po_index _ _ _ Hok). destruct (decide (g = f)) as [-> | Hne].
    + rewrite list_lookup_insert_eq by done. naive_solver congruence.
    + by rewrite list_lookup_insert_ne by done.
  - intros g x [[-> ->] | [Hne Hg]]%insert_lookup_inv; [done |]. by apply (po_pins _ _ _ Hok g).
  - intros g x [[-> ->] | [Hne Hg]]%insert_lookup_inv; [congruence |]. by apply (po_idle _ _ _ Hok g).
  - intros g x [[-> ->] | [Hne Hg]]%insert_lookup_inv.
    + rewrite Hid. intros _. apply Hcl.
    + intros Hux Hdx Hx. apply (po_clean _ _ _ Hok g); try done. rewrite <- HT; [done |].
      intros Heq. apply Hne. by apply (same_frame T k p Hok g f x m).
  - intros q Hq. unfold pin_of. cbn. destruct (decide (q = pm_page_id m)) as [-> | Hne].
    + rewrite (indexed _ _ _ Hok f m Hf Hu), (page_at_set _ _ _ m m' Hf), decide_True by done. auto.
    + pose proof (po_touched _ _ _ Hok q (proj1 (HT q Hne) Hq)) as Hp. unfold pin_of in Hp.
      destruct (pp_page_index p !! q) as [g |] eqn:Hg; [| done].
      rewrite (page_at_set _ _ _ m m' Hf), decide_False; [done |].
      intros ->. destruct (index_page _ _ _ Hok q f Hg) as (x & Hx & _ & <-). congruence.
Qed.

(** The pins of the other pages are unchanged. *)
Lemma set_page_pin (T : gset Z) (k : Z) (p : Pool) (f : nat) (m m' : PageMeta) (q : Z) :
  pool_ok T k p -> pp_pages p !! f = Some m -> pm_in_use m = true ->
  pin_of (set_page f m' p) q = if decide (q = pm_page_id m) then pm_pin_count m' else pin_of p q.
Proof.
  intros Hok Hf Hu. unfold pin_of. cbn. destruct (decide (q = pm_page_id m)) as [-> | Hne].
  - by rewrite (indexed _ _ _ Hok f m Hf Hu), (page_at_set _ _ _ m m' Hf), decide_True by done.
  - destruct (pp_page_index p !! q) as [g |] eqn:Hg; [| done].
    rewrite (page_at_set _ _ _ m m' Hf), decide_False; [done |].
    intros ->. destruct (index_page _ _ _ Hok q f Hg) as (x & Hx & _ & <-). congruence.
Qed.

Lemma set_page_keeps (T : gset Z) (k : Z) (p : Pool) (f : nat) (m m' : PageMeta) :
  pool_ok T k p -> pp_pages p !! f = Some m -> pm_in_use m = true -> pm_pin_count m' = pm_pin_count m ->
  keeps p (set_page f m' p).
Proof.
  intros Hok Hf Hu Hpin. split; try done.
  - cbn. by rewrite length_insert.
  - intros q. rewrite (set_page_pin _ _ _ _ _ _ q Hok Hf Hu). case_decide; [| done]. subst.
    by rewrite Hpin, (pin_of_page _ _ _ Hok f m).
Qed.

(** ** The swap file *)

(** The slots in use are not disturbed. *)
Definition extends (p : Pool) (swap : bytes) : Prop :=
  zlen (pp_swap p) <= zlen swap /\
  forall s, 0 <= s < pp_next_swap_slot p -> (s + 1) * pp_page_size p <= zlen (pp_swap p) ->
    slice (pp_page_size p) s swap = slice (pp_page_size p) s (pp_swap p).

Lemma backing_with_swap (T : gset Z) (k : Z) (p : Pool) swap flts free next ins (q : Z) :
  pool_ok T k p -> extends p swap ->
  backing (with_swap swap flts (pp_swapped p) free next ins p) q = backing p q.
Proof.
  intros Hok [_ Hx]. unfold backing. cbn. destruct (pp_swapped p !! q) as [s |] eqn:Hs; [| done].
  destruct (po_slots _ _ _ Hok q s Hs) as (_ & Hr & Hl). by apply Hx.
Qed.

(** A write that failed. *)
Lemma with_swap_ok (T : gset Z) (k k' : Z) (p : Pool) swap flts next ins :
  pool_ok T k p -> extends p swap -> pp_next_swap_slot p <= next <= k' ->
  pool_ok T k' (with_swap swap flts (pp_swapped p) [] next ins p).
Proof.
  intros Hok Hx Hn. pose proof (po_next _ _ _ Hok). split; try apply Hok; cbn; try done; try lia.
  - intros f m Hf Hu Hd HT. rewrite (backing_with_swap T k) by done. by apply (po_clean _ _ _ Hok f).
  - intros pid s Hs. destruct (po_slots _ _ _ Hok pid s Hs) as (? & ? & ?). destruct Hx. split; [done | lia].
Qed.

Lemma with_swap_keeps (T : gset Z) (k : Z) (p : Pool) swap flts free next ins :
  pool_ok T k p -> extends p swap -> keeps p (with_swap swap flts (pp_swapped p) free next ins p).
Proof.
  intros Hok Hx. split; try done. intros q. unfold view; cbn.
  destruct (pp_page_index p !! q); [done |]. by apply (backing_with_swap T k).
Qed.

(** A write of a dirty page to the next slot. *)
Definition swapped_out (pid : Z) (swap : bytes) (flts : list (option fault)) (ins : Z) (p : Pool) : Pool :=
  with_swap swap flts (<[pid := pp_next_swap_slot p]> (pp_swapped p)) [] (pp_next_swap_slot p + 1) ins p.

Lemma backing_swapped_out (T : gset Z) (k : Z) (p : Pool) (pid : Z) swap flts ins (q : Z) :
  pool_ok T k p -> extends p swap ->
  backing (swapped_out pid swap flts ins p) q =
    if decide (q = pid) then slice (pp_page_size p) (pp_next_swap_slot p) swap else backing p q.
Proof.
  intros Hok Hx. unfold backing at 1. cbn. case_decide as Hq; subst.
  - by rewrite lookup_insert_eq.
  - rewrite lookup_insert_ne by done. exact (backing_with_swap T k p swap flts [] 0 0 q Hok Hx).
Qed.

Lemma swapped_out_ok (T : gset Z) (k : Z) (p : Pool) (f : nat) (m : PageMeta) swap flts ins :
  pool_ok T k p -> extends p swap -> pp_pages p !! f = Some m -> pm_in_use m = true -> pm_dirty m = true ->
  pp_swap_open p = true -> (pp_next_swap_slot p + 1) * pp_page_size p <= zlen swap ->
  pool_ok T (k + 1) (swapped_out (pm_page_id m) swap flts ins p).
Proof.
  intros Hok Hx Hf Hu Hd Hop Hl. pose proof (po_next _ _ _ Hok). split; try apply Hok; cbn; try done; try lia.
  - intros g x Hg Hux Hdx HT.
    rewrite (backing_swapped_out T k) by done. rewrite decide_False; [by apply (po_clean _ _ _ Hok g) |].
    intros Heq. assert (g = f) as -> by (by apply (same_frame T k p Hok g f x m)). congruence.
  - intros pid s [[<- <-] | [Hne Hs]]%lookup_insert_Some; [split; [done | lia] |].
    destruct (po_slots _ _ _ Hok pid s Hs) as (? & ? & ?). destruct Hx. split; [done | lia].
Qed.

Lemma swapped_out_keeps (T : gset Z) (k : Z) (p : Pool) (f : nat) (m : PageMeta) swap flts ins :
  pool_ok T k p -> extends p swap -> pp_pages p !! f = Some m -> pm_in_use m = true ->
  keeps p (swapped_out (pm_page_id m) swap flts ins p).
Proof.
  intros Hok Hx Hf Hu. split; try done. intros q. unfold view; cbn.
  destruct (pp_page_index p !! q) eqn:Hq; [done |].
  rewrite (backing_swapped_out T k) by done. rewrite decide_False; [done |].
  intros ->. by rewrite (indexed _ _ _ Hok f m Hf Hu) in Hq.
Qed.

Lemma length_pwrite (c data : bytes) (off : Z) :
  length (pwrite c off data) = Nat.max (length c) (Z.to_nat off + length data).
Proof. unfold pwrite. rewrite !length_app, length_take, length_app, length_replicate, length_drop. lia. Qed.

Lemma pwrite_before (c data : bytes) (off : Z) (i n : nat) :
  (i + n <= Z.to_nat off)%nat -> (i + n <= length c)%nat ->
  take n (drop i (pwrite c off data)) = take n (drop i c).
Proof.
  intros Ho Hc. unfold pwrite. rewrite drop_app_le by (rewrite length_take, length_app, length_replicate; lia).
  rewrite take_app_le by (rewrite length_drop, length_take, length_app, length_replicate; lia).
  rewrite skipn_firstn_comm, take_take, Nat.min_l by lia.
  rewrite drop_app_le by lia. by rewrite take_app_le by (rewrite length_drop; lia).
Qed.

Lemma pwrite_at (c data : bytes) (off : Z) : take (length data) (drop (Z.to_nat off) (pwrite c off data)) = data.
Proof.
  unfold pwrite. rewrite drop_app_length' by (rewrite length_take, length_app, length_replicate; lia).
  by rewrite take_app_length.
Qed.

Lemma extends_pwrite (T : gset Z) (k : Z) (p : Pool) (data : bytes) :
  pool_ok T k p -> extends p (swap_pwrite (pp_swap p) (pp_next_swap_slot p * pp_page_size p) data).
Proof.
  intros Hok. pose proof (po_size _ _ _ Hok) as Hsz. unfold swap_pwrite. destruct data as [| b data]; [by split |].
  split.
  - unfold zlen. rewrite length_pwrite. lia.
  - intros s Hs Hl. unfold slice, zlen in *.
    assert ((s + 1) * pp_page_size p <= pp_next_swap_slot p * pp_page_size p) by nia.
    assert (0 <= s * pp_page_size p) by nia. apply pwrite_before; lia.
Qed.

Lemma pool_fault_eq (p : Pool) : exists d flts, pool_fault p = (d, with_faults flts p).
Proof. unfold pool_fault. destruct p as [? ? ? ? ? [| d r]]; cbn; eexists _, _; reflexivity. Qed.

(** The offset of a slot below the bound does not wrap. *)
Lemma swap_off_small (p : Pool) (s : Z) :
  0 < pp_page_size p -> 0 <= s -> (s + 1) * pp_page_size p <= 2 ^ 63 ->
  swap_off s p = s * pp_page_size p /\ off_valid (swap_off s p) = true.
Proof.
  intros Hp Hs Hb. assert (0 <= s * pp_page_size p < 2 ^ 63) as Hr by nia.
  assert (swap_off s p = s * pp_page_size p) as Heq.
  { unfold swap_off, u64. apply Z.mod_small. lia. }
  split; [done |]. unfold off_valid. rewrite Heq. lia.
Qed.

Lemma write_page_spec (T : gset Z) (k : Z) (p p' : Pool) (f : nat) (m : PageMeta) (ok : bool) :
  pool_ok T k p -> (k + 1) * pp_page_size p <= 2 ^ 63 -> pp_swap_open p = true ->
  pp_pages p !! f = Some m -> write_page_to_swap f (pm_page_id m) p = (ok, p') ->
  exists swap flts ins, extends p swap /\
    if ok
    then p' = set_page f (set_slot (pp_next_swap_slot p) m) (swapped_out (pm_page_id m) swap flts ins p) /\
         slice (pp_page_size p) (pp_next_swap_slot p) swap = frame_at f p /\
         (pp_next_swap_slot p + 1) * pp_page_size p <= zlen swap
    else p' = with_swap swap flts (pp_swapped p) [] (pp_next_swap_slot p + 1) ins p.
Proof.
  intros Hok Hb Hop Hf Hw. pose proof (po_size _ _ _ Hok) as Hsz. pose proof (po_next _ _ _ Hok) as Hn.
  pose proof (frame_len _ _ _ Hok f m Hf) as Hfl.
  assert ((pp_next_swap_slot p + 1) * pp_page_size p <= 2 ^ 63) as Hb'.
  { transitivity ((k + 1) * pp_page_size p); [apply Z.mul_le_mono_nonneg_r; lia | done]. }
  assert (pp_next_swap_slot p + 1 <= (pp_next_swap_slot p + 1) * pp_page_size p) as Hb1 by nia.
  destruct (swap_off_small p (pp_next_swap_slot p)) as [Hoff Hval]; [done | lia | done |].
  assert (u64 (pp_next_swap_slot p + 1) = pp_next_swap_slot p + 1) as Hu.
  { unfold u64. apply Z.mod_small. lia. }
  unfold write_page_to_swap in Hw. rewrite Hop, (po_free _ _ _ Hok), Hu in Hw. cbn [negb last] in Hw.
  destruct (pool_fault_eq p) as (d & flts & Hd). rewrite Hd in Hw.
  change (swap_off _ (with_faults flts p)) with (swap_off (pp_next_swap_slot p) p) in Hw.
  rewrite Hval, Hoff in Hw.
  set (data := transferred true d (frame_at f (with_faults flts p))) in Hw.
  pose proof (extends_pwrite T k p data Hok) as Hx.
  destruct (zlen data =? pp_page_size p) eqn:Hlen; cbn [negb] in Hw.
  - change (pp_page_size (with_faults flts p)) with (pp_page_size p) in Hw. rewrite Hlen in Hw. cbn [negb] in Hw.
    injection Hw as <- <-. eexists _, flts, _. split; [exact Hx |].
    assert (data = frame_at f p) as Hdata.
    { subst data. unfold transferred in *. cbn [negb] in *. destruct d as [flt |]; [| done].
      apply take_ge. apply Z.eqb_eq in Hlen. change (frame_at f (with_faults flts p)) with (frame_at f p) in *.
      unfold zlen in *. rewrite length_take in Hlen. lia. }
    split; [| split].
    + unfold set_page at 1, page_at. cbn. rewrite Hf. reflexivity.
    + unfold swap_pwrite, slice. destruct data as [| b data'] eqn:Hd'; [unfold zlen in Hlen; apply Z.eqb_eq in Hlen; cbn in Hlen; lia |].
      rewrite <- Hdata. replace (Z.to_nat (pp_page_size p)) with (length (b :: data')).
      2:{ unfold zlen in Hlen. lia. }
      apply pwrite_at.
    + unfold swap_pwrite. destruct data as [| b data'] eqn:Hd'; [unfold zlen in Hlen; apply Z.eqb_eq in Hlen; cbn in Hlen; lia |].
      unfold zlen in *. rewrite length_pwrite. nia.
  - change (pp_page_size (with_faults flts p)) with (pp_page_size p) in Hw. rewrite Hlen in Hw. cbn [negb] in Hw.
    injection Hw as <- <-. eexists _, flts, _. split; [exact Hx |]. reflexivity.
Qed.

Lemma pool_ok_mono (T : gset Z) (k k' : Z) (p : Pool) : k <= k' -> pool_ok T k p -> pool_ok T k' p.
Proof. intros Hk [? ? ? ? ? ? ? ? ? ? Hn ?]. split; try done. lia. Qed.

(** ** The counters *)

Lemma with_counts_ok (T : gset Z) (k : Z) (p : Pool) (r d e : Z) : pool_ok T k p -> pool_ok T k (with_counts r d e p).
Proof. intros [? ? ? ? ? ? ? ? ? ? ? ?]. by split. Qed.

Lemma with_counts_keeps (p p' : Pool) (r d e : Z) : keeps p p' -> keeps p (with_counts r d e p').
Proof. intros [? ? ? ? ?]. by split. Qed.

Definition count (g : PageMeta -> bool) (l : list PageMeta) : Z := foldr (fun m n => Z.b2z (g m) + n) 0 l.

Lemma count_insert (g : PageMeta -> bool) (l : list PageMeta) (i : nat) (m m' : PageMeta) :
  l !! i = Some m -> count g (<[i := m']> l) = count g l - Z.b2z (g m) + Z.b2z (g m').
Proof.
  revert i. induction l as [| x l IH]; intros [| i] Hi; try done.
  - injection Hi as ->. cbn. lia.
  - specialize (IH i Hi). change (<[S i := m']> (x :: l)) with (x :: <[i := m']> l).
    unfold count in *. cbn [foldr]. lia.
Qed.

Lemma count_le (g : PageMeta -> bool) (l : list PageMeta) : 0 <= count g l <= zlen l.
Proof. unfold zlen. induction l as [| x l IH]; cbn; [done |]. unfold count in *. destruct (g x); cbn [Z.b2z]; lia. Qed.

Lemma count_pos (g : PageMeta -> bool) (l : list PageMeta) (i : nat) (m : PageMeta) :
  l !! i = Some m -> g m = true -> 0 < count g l.
Proof.
  revert i. induction l as [| x l IH]; intros [| i] Hi Hg; try done; cbn.
  - injection Hi as ->. rewrite Hg. pose proof (count_le g l). unfold count in *. cbn. lia.
  - specialize (IH i Hi Hg). unfold count in *. destruct (g x); cbn [Z.b2z]; lia.
Qed.

#[local] Arguments count : simpl never.

Definition counted (p : Pool) : Prop :=
  zlen (pp_pages p) < 2 ^ 64 /\
  pp_resident_pages p = count pm_in_use (pp_pages p) /\ pp_dirty_pages p = count pm_dirty (pp_pages p).

(** ** Flushing *)

(** What a flush does to the record of its frame. *)
Definition same_page (m m' : PageMeta) : Prop :=
  pm_in_use m' = pm_in_use m /\ pm_page_id m' = pm_page_id m /\ pm_pin_count m' = pm_pin_count m /\ pm_ref_bit m' = pm_ref_bit m.

Lemma flush_spec (T : gset Z) (k : Z) (p p' : Pool) (f : nat) (m : PageMeta) (ok : bool) :
  pool_ok T k p -> (k + 1) * pp_page_size p <= 2 ^ 63 -> pp_pages p !! f = Some m ->
  flush_frame_locked f p = (ok, p') ->
  pool_ok T (k + 1) p' /\ keeps p p' /\ (counted p -> counted p') /\
  pp_page_index p' = pp_page_index p /\ pp_clock_hand p' = pp_clock_hand p /\
  exists m', pp_pages p' = <[f := m']> (pp_pages p) /\ same_page m m' /\
    (ok = true -> pm_in_use m = true -> pm_dirty m' = false).
Proof.
  intros Hok Hb Hf. unfold flush_frame_locked. rewrite (page_at_eq p f m Hf).
  assert (pool_ok T (k + 1) p) as Hok' by (eapply pool_ok_mono, Hok; lia).
  assert (<[f := m]> (pp_pages p) = pp_pages p) as Hsame by (by apply list_insert_id).
  destruct (negb (pm_in_use m) || negb (pm_dirty m)) eqn:Hg.
  { intros [= <- <-]. split_and!; try done. exists m. split_and!; try done.
    intros _ Hu. rewrite Hu in Hg. by destruct (pm_dirty m). }
  apply orb_false_elim in Hg as [Hu%negb_false_iff Hd%negb_false_iff].
  destruct (pp_swap_open p) eqn:Hop; cbn [negb].
  2:{ intros [= <- <-]. split_and!; try done. by exists m. }
  destruct (write_page_to_swap f (pm_page_id m) p) as [w p1] eqn:Hw.
  destruct (write_page_spec T k p p1 f m w Hok Hb Hop Hf Hw) as (swap & flts & ins & Hx & Hp1).
  pose proof (po_next _ _ _ Hok) as Hn. destruct w; cbn [negb].
  2:{ intros [= <- <-]. rewrite Hp1. split_and!; try done.
      - apply (with_swap_ok T k); [done | done | lia].
      - by apply (with_swap_keeps T k).
      - by exists m. }
  destruct Hp1 as (-> & Hsl & Hl). intros [= <- <-].
  set (q := swapped_out (pm_page_id m) swap flts ins p).
  assert (pool_ok T (k + 1) q) as Hq by (by apply (swapped_out_ok T k p f m)).
  assert (pp_pages q !! f = Some m) as Hqf by done.
  set (m' := set_dirty false (set_slot (pp_next_swap_slot p) m)).
  assert (set_page f (set_dirty false (page_at f (set_page f (set_slot (pp_next_swap_slot p) m) q)))
    (set_page f (set_slot (pp_next_swap_slot p) m) q) = set_page f m' q) as ->.
  { rewrite (page_at_set q f f m) by done. rewrite decide_True by done.
    unfold set_page, with_pages. cbn. by rewrite list_insert_insert_eq. }
  split_and!; try done.
  - apply with_counts_ok, (set_page_ok T T (k + 1) q f m m'); try done; [exact (po_pins _ _ _ Hq f m Hqf) | |].
    + intros _ _. unfold q. rewrite (backing_swapped_out T k) by done. by rewrite decide_True.
    + intros HT. change (0 < pm_pin_count m). rewrite <- (pin_of_page _ _ _ Hq f m) by done. by apply (po_touched _ _ _ Hq).
  - apply with_counts_keeps. transitivity q; [by apply (swapped_out_keeps T k p f m) |]. by apply (set_page_keeps T (k + 1) q f m m').
  - intros (Hlen & Hr & Hdc). pose proof (count_pos pm_dirty _ f m Hf Hd) as Hpos.
    unfold counted. cbn. rewrite !(count_insert _ _ f m) by done. cbn. rewrite Hu, Hd, Hdc, Hr. cbn.
    rewrite (proj2 (Z.ltb_lt _ _)) by done. unfold zlen in *. rewrite length_insert. lia.
  - by exists m'.
Qed.

(** ** Taking and dropping frames *)

Lemma untouched_absent (T : gset Z) (k : Z) (p : Pool) (pid : Z) : pool_ok T k p -> pin_of p pid = 0 -> pid ∉ T.
Proof. intros Hok Hp HT. pose proof (po_touched _ _ _ Hok pid HT). lia. Qed.

Lemma not_indexed (T : gset Z) (k : Z) (p : Pool) (f g : nat) (m : PageMeta) (pid : Z) :
  pool_ok T k p -> pp_pages p !! f = Some m -> pm_in_use m = false -> pp_page_index p !! pid = Some g -> g <> f.
Proof. intros Hok Hf Hu Hg ->. destruct (index_page _ _ _ Hok pid f Hg) as (x & Hx & Hux & _). congruence. Qed.

(** A clean unpinned page leaves its frame. *)
Definition drop_frame (f : nat) (pid : Z) (p : Pool) : Pool :=
  free_frame f (with_index (delete pid (pp_page_index p)) p).

Lemma drop_frame_spec (T : gset Z) (k : Z) (p : Pool) (f : nat) (m : PageMeta) :
  pool_ok T k p -> pp_pages p !! f = Some m -> pm_in_use m = true -> pm_dirty m = false -> pm_pin_count m = 0 ->
  pool_ok T k (drop_frame f (pm_page_id m) p) /\ keeps p (drop_frame f (pm_page_id m) p).
Proof.
  intros Hok Hf Hu Hd Hp. set (q := drop_frame f (pm_page_id m) p).
  pose proof (indexed _ _ _ Hok f m Hf Hu) as Hi. pose proof (lookup_lt_Some _ _ _ Hf) as Hlt.
  pose proof (pin_of_page _ _ _ Hok f m Hf Hu) as Hpin. rewrite Hp in Hpin.
  assert (pp_pages q = <[f := set_in_use false m]> (pp_pages p)) as Hq.
  { unfold q, drop_frame, free_frame. cbn. by rewrite (page_at_eq _ f m). }
  assert (forall pid, pin_of q pid = pin_of p pid) as Hpins.
  { intros pid. unfold pin_of at 1. cbn. destruct (decide (pid = pm_page_id m)) as [-> | Hne].
    - by rewrite lookup_delete_eq.
    - rewrite lookup_delete_ne by done. unfold pin_of. destruct (pp_page_index p !! pid) as [g |] eqn:Hg; [| done].
      unfold page_at. rewrite Hq, list_lookup_insert_ne; [done |]. intros <-. apply Hne.
      destruct (index_page _ _ _ Hok pid f Hg) as (x & Hx & _ & <-). congruence. }
  split.
  - split; try apply Hok; rewrite ?Hq, ?length_insert; try apply Hok.
    + intros pid g. cbn. rewrite lookup_delete_Some, (po_index _ _ _ Hok).
      destruct (decide (g = f)) as [-> | Hne].
      * rewrite list_lookup_insert_eq by done. naive_solver congruence.
      * rewrite list_lookup_insert_ne by done. split; [by intros [] |]. intros (x & Hx & Hux & <-).
        split; [| by eauto]. intros Heq. apply Hne. by apply (same_frame T k p Hok g f x m).
    + intros g x [[-> ->] | [Hne Hg]]%insert_lookup_inv; [cbn; lia |]. by apply (po_pins _ _ _ Hok g).
    + intros g x [[-> ->] | [Hne Hg]]%insert_lookup_inv; [done |]. by apply (po_idle _ _ _ Hok g).
    + intros g x [[-> ->] | [Hne Hg]]%insert_lookup_inv; [done |]. by apply (po_clean _ _ _ Hok g).
    + intros pid HT. rewrite Hpins. by apply Hok.
  - split; try done; [by rewrite Hq, length_insert | |].
    + intros pid. unfold view at 1. cbn. destruct (decide (pid = pm_page_id m)) as [-> | Hne].
      * rewrite lookup_delete_eq. unfold view. rewrite Hi. symmetry. apply (po_clean _ _ _ Hok f); try done.
        by apply (untouched_absent T k p).
      * by rewrite lookup_delete_ne.
    + intros pid Hpos. cbn. rewrite lookup_delete_ne; [done |]. intros <-. lia.
Qed.

(** A page moves into a free frame. *)
Definition taken (f : nat) (pid slot : Z) (b : bytes) (flts : list (option fault)) (p : Pool) : Pool :=
  with_frame f b (with_faults flts (take_frame f pid slot p)).

Definition installed (f : nat) (pid slot : Z) (b : bytes) (flts : list (option fault)) (p : Pool) : Pool :=
  with_index (<[pid := f]> (pp_page_index p)) (taken f pid slot b flts p).

Lemma installed_pin (T : gset Z) (k : Z) (p : Pool) (f : nat) (m : PageMeta) (pid slot : Z) b flts (q : Z) :
  pool_ok T k p -> pp_pages p !! f = Some m -> pm_in_use m = false -> pp_page_index p !! pid = None ->
  pin_of (installed f pid slot b flts p) q = pin_of p q.
Proof.
  intros Hok Hf Hu Hi. pose proof (lookup_lt_Some _ _ _ Hf) as Hlt. unfold pin_of. cbn.
  destruct (decide (q = pid)) as [-> | Hne].
  - rewrite lookup_insert_eq, Hi. unfold page_at. cbn. by rewrite list_lookup_insert_eq.
  - rewrite lookup_insert_ne by done. destruct (pp_page_index p !! q) as [g |] eqn:Hg; [| done].
    pose proof (not_indexed _ _ _ _ _ _ _ Hok Hf Hu Hg). unfold page_at. cbn. by rewrite list_lookup_insert_ne.
Qed.

Lemma frames_insert_len (T : gset Z) (k : Z) (p : Pool) (f g : nat) (b b' : bytes) :
  pool_ok T k p -> zlen b = pp_page_size p -> <[f := b]> (pp_frames p) !! g = Some b' -> zlen b' = pp_page_size p.
Proof. intros Hok Hb [[-> ->] | [Hne Hg]]%insert_lookup_inv; [done |]. by apply (po_frames _ _ _ Hok g). Qed.

Lemma backing_len (T : gset Z) (k : Z) (p : Pool) (pid : Z) : pool_ok T k p -> zlen (backing p pid) = pp_page_size p.
Proof.
  intros Hok. pose proof (po_size _ _ _ Hok). unfold backing, slice, zlen.
  destruct (pp_swapped p !! pid) as [s |] eqn:Hs.
  - destruct (po_slots _ _ _ Hok pid s Hs) as (_ & ? & Hl). unfold zlen in Hl.
    assert (0 <= s * pp_page_size p) by nia. rewrite length_take, length_drop. lia.
  - rewrite length_replicate. lia.
Qed.

Lemma installed_spec (T : gset Z) (k : Z) (p : Pool) (f : nat) (m : PageMeta) (pid slot : Z) flts :
  pool_ok T k p -> pp_pages p !! f = Some m -> pm_in_use m = false -> pp_page_index p !! pid = None ->
  pool_ok T k (installed f pid slot (backing p pid) flts p) /\ keeps p (installed f pid slot (backing p pid) flts p).
Proof.
  intros Hok Hf Hu Hi. pose proof (lookup_lt_Some _ _ _ Hf) as Hlt.
  assert (f < length (pp_frames p))%nat as Hlf by (by rewrite (po_len _ _ _ Hok)).
  assert (forall q, pin_of (installed f pid slot (backing p pid) flts p) q = pin_of p q) as Hpins.
  { intros q. by apply (installed_pin T k p f m). }
  split.
  - split; try apply Hok; cbn; rewrite ?length_insert; try apply Hok.
    + intros g b. apply (frames_insert_len T k p f); [done |]. by apply (backing_len T k).
    + intros q g. rewrite lookup_insert_Some, (po_index _ _ _ Hok).
      destruct (decide (g = f)) as [-> | Hne].
      * rewrite list_lookup_insert_eq by done. split; [naive_solver congruence |].
        intros (x & [= <-] & _ & <-). by left.
      * rewrite list_lookup_insert_ne by done. split; [naive_solver |]. intros (x & Hx & Hux & <-). right.
        split; [| by eauto]. intros ->. pose proof (indexed _ _ _ Hok g x Hx Hux). congruence.
    + intros g x [[-> ->] | [Hne Hg]]%insert_lookup_inv; [cbn; lia |]. by apply (po_pins _ _ _ Hok g).
    + intros g x [[-> ->] | [Hne Hg]]%insert_lookup_inv; [done |]. by apply (po_idle _ _ _ Hok g).
    + intros g x Hgx Hux Hdx HT. unfold frame_at. cbn.
      apply insert_lookup_inv in Hgx as [[-> ->] | [Hne Hg]].
      * by rewrite list_lookup_insert_eq.
      * rewrite list_lookup_insert_ne by done. by apply (po_clean _ _ _ Hok g).
    + intros q HT. rewrite Hpins. by apply Hok.
  - split; try done; [cbn; by rewrite length_insert | |].
    + intros q. unfold view. cbn. destruct (decide (q = pid)) as [-> | Hne].
      * rewrite lookup_insert_eq, Hi. unfold frame_at. cbn. by rewrite list_lookup_insert_eq.
      * rewrite lookup_insert_ne by done. destruct (pp_page_index p !! q) as [g |] eqn:Hg; [| done].
        pose proof (not_indexed _ _ _ _ _ _ _ Hok Hf Hu Hg). unfold frame_at. cbn. by rewrite list_lookup_insert_ne.
    + intros q Hpos. cbn. rewrite lookup_insert_ne; [done |]. intros <-. unfold pin_of in Hpos. rewrite Hi in Hpos. lia.
Qed.

(** A frame whose page could not be read is free again. *)
Lemma untaken_spec (T : gset Z) (k : Z) (p : Pool) (f : nat) (m : PageMeta) (pid slot : Z) b flts :
  pool_ok T k p -> pp_pages p !! f = Some m -> pm_in_use m = false -> zlen b = pp_page_size p ->
  pool_ok T k (free_frame f (taken f pid slot b flts p)) /\ keeps p (free_frame f (taken f pid slot b flts p)).
Proof.
  intros Hok Hf Hu Hb. pose proof (lookup_lt_Some _ _ _ Hf) as Hlt. set (q := free_frame f (taken f pid slot b flts p)).
  assert (f < length (pp_frames p))%nat as Hlf by (by rewrite (po_len _ _ _ Hok)).
  assert (pp_pages q = <[f := MkPage pid slot 0 false true false]> (pp_pages p)) as Hq.
  { unfold q, free_frame, page_at. cbn. rewrite list_lookup_insert_eq by done. cbn. by rewrite list_insert_insert_eq. }
  assert (forall r, pin_of q r = pin_of p r) as Hpins.
  { intros r. unfold pin_of. cbn. destruct (pp_page_index p !! r) as [g |] eqn:Hg; [| done].
    pose proof (not_indexed _ _ _ _ _ _ _ Hok Hf Hu Hg). unfold page_at. by rewrite Hq, list_lookup_insert_ne. }
  split.
  - split; try apply Hok; rewrite ?Hq; cbn; rewrite ?length_insert; try apply Hok.
    + intros g b'. by apply (frames_insert_len T k p f).
    + intros r g. rewrite (po_index _ _ _ Hok). destruct (decide (g = f)) as [-> | Hne].
      * rewrite list_lookup_insert_eq by done. naive_solver congruence.
      * by rewrite list_lookup_insert_ne by done.
    + intros g x [[-> ->] | [Hne Hg]]%insert_lookup_inv; [cbn; lia |]. by apply (po_pins _ _ _ Hok g).
    + intros g x [[-> ->] | [Hne Hg]]%insert_lookup_inv; [done |]. by apply (po_idle _ _ _ Hok g).
    + intros g x [[-> ->] | [Hne Hg]]%insert_lookup_inv; [done |]. intros Hux Hdx HT. unfold frame_at. cbn.
      rewrite list_lookup_insert_ne by done. by apply (po_clean _ _ _ Hok g).
    + intros r HT. rewrite Hpins. by apply Hok.
  - split; try done; [by rewrite Hq, length_insert |].
    intros r. unfold view. cbn. destruct (pp_page_index p !! r) as [g |] eqn:Hg; [| done].
    pose proof (not_indexed _ _ _ _ _ _ _ Hok Hf Hu Hg). unfold frame_at. cbn. by rewrite list_lookup_insert_ne.
Qed.

(** ** Reading *)

Lemma transferred_prefix (ok : bool) (d : option fault) (data : bytes) :
  exists n, transferred ok d data = take n data.
Proof. unfold transferred. destruct ok, d; cbn; [by eexists | exists (length data); by rewrite firstn_all | by exists O ..]. Qed.

Lemma read_page_spec (T : gset Z) (k : Z) (p p' : Pool) (f : nat) (m : PageMeta) (pid slot r d e : Z) (ok : bool) :
  pool_ok T k p -> pp_pages p !! f = Some m ->
  read_page_from_swap f pid (with_counts r d e (take_frame f pid slot p)) = (ok, p') -> k * pp_page_size p <= 2 ^ 63 ->
  exists b flts, p' = with_counts r d e (taken f pid slot b flts p) /\ zlen b = pp_page_size p /\
    (ok = true -> b = backing p pid).
Proof.
  intros Hok Hf Hr Hb. pose proof (frame_len _ _ _ Hok f m Hf) as Hfl. pose proof (po_size _ _ _ Hok) as Hsz.
  unfold read_page_from_swap in Hr. cbn [pp_swapped with_counts take_frame set_page with_pages] in Hr.
  destruct (pp_swapped p !! pid) as [s |] eqn:Hs.
  2:{ injection Hr as <- <-. exists (replicate (Z.to_nat (pp_page_size p)) Byte.x00), (pp_faults p). split_and!; [by destruct p | |].
      - unfold zlen. rewrite length_replicate. lia.
      - intros _. unfold backing. by rewrite Hs. }
  destruct (po_slots _ _ _ Hok pid s Hs) as (Hop & Hs' & Hl). pose proof (po_next _ _ _ Hok) as Hn.
  destruct (swap_off_small p s) as [Hoff Hval]; [done | lia | nia |].
  destruct (pool_fault_eq (with_counts r d e (take_frame f pid slot p))) as (o & flts & Hd). rewrite Hd in Hr.
  change (swap_off s (with_faults _ _)) with (swap_off s p) in Hr. rewrite Hval, Hoff in Hr.
  cbn [pp_swap_open with_faults with_swap with_counts take_frame set_page with_pages pp_swap pp_page_size] in Hr.
  change (take _ (drop _ (pp_swap p))) with (slice (pp_page_size p) s (pp_swap p)) in Hr.
  change (frame_at f (with_faults _ _)) with (frame_at f p) in Hr.
  assert (backing p pid = slice (pp_page_size p) s (pp_swap p)) as Hbk by (unfold backing; by rewrite Hs).
  rewrite <- Hbk in Hr. pose proof (backing_len T k p pid Hok) as Hbl.
  destruct (transferred_prefix (pp_swap_open p && true) o (backing p pid)) as [n Hgot]. rewrite Hgot in Hr.
  injection Hr as <- <-. eexists _, flts. split_and!; [reflexivity | |].
  - unfold zlen in *. rewrite length_app, length_take, length_drop. lia.
  - intros Hlen%Z.eqb_eq. unfold zlen in *. rewrite (take_ge (backing p pid)) in * by (rewrite length_take in Hlen; lia).
    rewrite (drop_ge (frame_at f p)) by lia. by rewrite app_nil_r.
Qed.

(** ** Allocation *)

(** The outcome of looking for a frame for [pid]. *)
Definition alloc_ok (T : gset Z) (k : Z) (p : Pool) (pid : Z) (r : option (nat * bool)) (p' : Pool) : Prop :=
  (counted p -> counted p') /\
  match r with
  | None => pool_ok T k p' /\ keeps p p'
  | Some (f, is_new) =>
      let q := with_index (<[pid := f]> (pp_page_index p')) p' in
      pool_ok T k q /\ keeps p q /\
      (exists slot, pp_pages p' !! f = Some (MkPage pid slot 0 false true true)) /\
      (is_new = true -> frame_at f p' = replicate (Z.to_nat (pp_page_size p)) Byte.x00)
  end.

Lemma counted_update (p p' : Pool) (f : nat) (m m' : PageMeta) :
  counted p -> pp_pages p !! f = Some m -> pp_pages p' = <[f := m']> (pp_pages p) ->
  pp_resident_pages p' = pp_resident_pages p - Z.b2z (pm_in_use m) + Z.b2z (pm_in_use m') ->
  pp_dirty_pages p' = pp_dirty_pages p - Z.b2z (pm_dirty m) + Z.b2z (pm_dirty m') -> counted p'.
Proof.
  intros (Hl & Hr & Hd) Hf Hp Hr' Hd'. unfold counted. rewrite Hp, !(count_insert _ _ f m) by done.
  unfold zlen in *. rewrite length_insert. lia.
Qed.

(** A count that goes up by one page does not wrap. *)
Lemma u64_count (p : Pool) (g : PageMeta -> bool) (f : nat) (m : PageMeta) :
  zlen (pp_pages p) < 2 ^ 64 -> pp_pages p !! f = Some m -> g m = false ->
  u64 (count g (pp_pages p) + 1) = count g (pp_pages p) + 1.
Proof.
  intros Hl Hf Hg. pose proof (count_pos (fun m => negb (g m)) _ f m Hf) as Hp. cbn beta in Hp. rewrite Hg in Hp. specialize (Hp eq_refl).
  assert (count (fun m => negb (g m)) (pp_pages p) = zlen (pp_pages p) - count g (pp_pages p)) as Hc.
  { clear. induction (pp_pages p) as [| x l IH]; [done |]. unfold count, zlen in *. cbn [foldr length].
    destruct (g x); cbn [negb Z.b2z]; lia. }
  unfold u64. apply Z.mod_small. pose proof (count_le g (pp_pages p)). lia.
Qed.

Lemma resident_down (p : Pool) (f : nat) (m : PageMeta) :
  counted p -> pp_pages p !! f = Some m -> pm_in_use m = true ->
  (if 0 <? pp_resident_pages p then pp_resident_pages p - 1 else pp_resident_pages p) = pp_resident_pages p - 1 /\
  u64 (pp_resident_pages p - 1) = pp_resident_pages p - 1.
Proof.
  intros (Hl & Hr & _) Hf Hu. pose proof (count_pos _ _ f m Hf Hu). pose proof (count_le pm_in_use (pp_pages p)).
  rewrite Hr. split; [by rewrite (proj2 (Z.ltb_lt _ _)) |]. unfold u64. apply Z.mod_small. lia.
Qed.

Lemma backing_new (p : Pool) (pid : Z) :
  bool_decide (pp_swapped p !! pid = None) = true -> backing p pid = replicate (Z.to_nat (pp_page_size p)) Byte.x00.
Proof. intros H%bool_decide_eq_true. unfold backing. by rewrite H. Qed.

(** A page read into a free frame [f] of [p0], which keeps what [p] shows. *)
Lemma load_ok (T : gset Z) (k : Z) (p p0 p' : Pool) (f : nat) (m : PageMeta) (pid slot r d e : Z) (ok : bool) :
  pool_ok T k p0 -> keeps p p0 -> pp_pages p0 !! f = Some m -> pm_in_use m = false -> pp_page_index p0 !! pid = None ->
  k * pp_page_size p0 <= 2 ^ 63 ->
  read_page_from_swap f pid (with_counts r d e (take_frame f pid slot p0)) = (ok, p') ->
  (counted p -> counted (with_counts r d e (take_frame f pid slot p0))) ->
  if ok then alloc_ok T k p pid (Some (f, bool_decide (pp_swapped p0 !! pid = None))) p'
  else forall x, (counted p -> x = r - 1) -> alloc_ok T k p pid None (with_counts x (pp_dirty_pages p') (pp_evictions p') (free_frame f p')).
Proof.
  intros Hok Hk Hf Hu Hi Hb Hr Hc.
  destruct (read_page_spec T k p0 p' f m pid slot r d e ok Hok Hf Hr Hb) as (b & flts & Hp' & Hbl & Hbk).
  pose proof (lookup_lt_Some _ _ _ Hf) as Hlt. subst p'.
  destruct ok.
  - rewrite (Hbk eq_refl). destruct (installed_spec T k p0 f m pid slot flts Hok Hf Hu Hi) as [Hok' Hk'].
    split; [intros (? & ? & ?)%Hc; by split_and! |]. split_and!.
    + by apply (with_counts_ok _ _ _ r d e) in Hok'.
    + etransitivity; [exact Hk |]. by apply (with_counts_keeps _ _ r d e) in Hk'.
    + exists slot. cbn. by apply list_lookup_insert_eq.
    + intros Hnew. unfold frame_at. cbn. rewrite list_lookup_insert_eq by (by rewrite (po_len _ _ _ Hok)).
      rewrite <- (kp_size _ _ Hk). by apply backing_new.
  - intros x Hx. destruct (untaken_spec T k p0 f m pid slot b flts Hok Hf Hu Hbl) as [Hok' Hk']. split_and!.
    + intros Hcp. eapply (counted_update _ _ f (MkPage pid slot 0 false true true) (MkPage pid slot 0 false true false)).
      * exact (Hc Hcp).
      * cbn. by apply list_lookup_insert_eq.
      * unfold free_frame, page_at. cbn. by rewrite list_lookup_insert_eq by done.
      * cbn. rewrite (Hx Hcp). lia.
      * cbn. lia.
    + by apply (with_counts_ok _ _ _ x d e) in Hok'.
    + etransitivity; [exact Hk |]. by apply (with_counts_keeps _ _ x d e) in Hk'.
Qed.

Lemma alloc_ok_trans (T : gset Z) (k k' : Z) (p p1 p' : Pool) (pid : Z) r :
  keeps p p1 -> (counted p -> counted p1) -> k <= k' -> alloc_ok T k p1 pid r p' -> alloc_ok T k' p pid r p'.
Proof.
  intros Hk Hc Hle [Hc' Hr]. split; [by auto |]. destruct r as [[f is_new] |].
  - destruct Hr as (Hok & Hk' & Hs & Hn). split_and!; [by apply (pool_ok_mono T k) | by transitivity p1 | done |].
    rewrite <- (kp_size _ _ Hk). done.
  - destruct Hr. split; [by apply (pool_ok_mono T k) | by transitivity p1].
Qed.

Lemma with_hand_ok (T : gset Z) (k : Z) (p : Pool) (h : nat) :
  pool_ok T k p -> (h < length (pp_pages p))%nat -> pool_ok T k (with_hand h p).
Proof. intros [? ? ? ? ? ? ? ? ? ? ? ?]. by split. Qed.

Lemma with_hand_keeps (p : Pool) (h : nat) : keeps p (with_hand h p).
Proof. by split. Qed.

(** The victim's frame takes the page. *)
Lemma evict_ok (T : gset Z) (k : Z) (p p' : Pool) (f : nat) (m : PageMeta) (pid e : Z) (ok : bool) :
  pool_ok T k p -> k * pp_page_size p <= 2 ^ 63 -> pp_page_index p !! pid = None ->
  pp_pages p !! f = Some m -> pm_in_use m = true -> pm_dirty m = false -> pm_pin_count m = 0 ->
  read_page_from_swap f pid
    (take_frame f pid (pm_swap_slot m)
      (with_counts (pp_resident_pages p) (pp_dirty_pages p) e (with_index (delete (pm_page_id m) (pp_page_index p)) p))) = (ok, p') ->
  alloc_ok T k p pid (if ok then Some (f, bool_decide (pp_swapped p !! pid = None)) else None)
    (if ok then p' else with_counts (if 0 <? pp_resident_pages p' then pp_resident_pages p' - 1 else pp_resident_pages p')
       (pp_dirty_pages p') (pp_evictions p') (free_frame f p')).
Proof.
  intros Hok Hb Hi Hf Hu Hd Hp Hr. destruct (drop_frame_spec T k p f m Hok Hf Hu Hd Hp) as [Hok0 Hk0].
  set (p0 := drop_frame f (pm_page_id m) p) in *. pose proof (lookup_lt_Some _ _ _ Hf) as Hlt.
  assert (pp_pages p0 = <[f := set_in_use false m]> (pp_pages p)) as Hp0.
  { unfold p0, drop_frame, free_frame. cbn. by rewrite (page_at_eq _ f m). }
  set (r := pp_resident_pages p) in *. set (d := pp_dirty_pages p) in *.
  assert (take_frame f pid (pm_swap_slot m) (with_counts r d e (with_index (delete (pm_page_id m) (pp_page_index p)) p)) =
          with_counts r d e (take_frame f pid (pm_swap_slot m) p0)) as Heq.
  { unfold take_frame, set_page, with_counts, with_pages. cbn. by rewrite list_insert_insert_eq. }
  assert (counted p -> counted (with_counts r d e (take_frame f pid (pm_swap_slot m) p0))) as Hc.
  { intros Hc. apply (counted_update p _ f m (MkPage pid (pm_swap_slot m) 0 false true true)); try done.
    - change (<[f := MkPage pid (pm_swap_slot m) 0 false true true]> (pp_pages p0) =
              <[f := MkPage pid (pm_swap_slot m) 0 false true true]> (pp_pages p)).
      by rewrite Hp0, list_insert_insert_eq.
    - cbn. rewrite Hu. cbn. lia.
    - cbn. rewrite Hd. cbn. lia. }
  rewrite Heq in Hr. destruct (read_page_spec T k p0 p' f (set_in_use false m) pid (pm_swap_slot m) r d e ok) as (b & flts & Hp' & _); try done.
  { rewrite Hp0. by apply list_lookup_insert_eq. }
  pose proof (load_ok T k p p0 p' f (set_in_use false m) pid (pm_swap_slot m) r d e ok Hok0 Hk0) as Hload.
  destruct ok.
  - apply Hload; try done; [rewrite Hp0; by apply list_lookup_insert_eq |]. cbn. rewrite lookup_delete_None. by right.
  - apply Hload; try done; [rewrite Hp0; by apply list_lookup_insert_eq | cbn; rewrite lookup_delete_None; by right |].
    intros Hcp. rewrite Hp'. cbn. change r with (pp_resident_pages (with_counts r d e (take_frame f pid (pm_swap_slot m) p0))).
    apply (resident_down _ f (MkPage pid (pm_swap_slot m) 0 false true true)); [by apply Hc | | done].
    change (<[f := MkPage pid (pm_swap_slot m) 0 false true true]> (pp_pages p0) !! f =
            Some (MkPage pid (pm_swap_slot m) 0 false true true)).
    apply list_lookup_insert_eq. by rewrite Hp0, length_insert.
Qed.

Lemma clock_spec (T : gset Z) (pid : Z) (passes : nat) : forall (k : Z) (p p' : Pool) r,
  pool_ok T k p -> (k + Z.of_nat passes) * pp_page_size p <= 2 ^ 63 -> pp_page_index p !! pid = None ->
  clock_evict passes pid p = (r, p') -> alloc_ok T (k + Z.of_nat passes) p pid r p'.
Proof.
  induction passes as [| passes IH]; intros k p p' r Hok Hb Hi Hr.
  { injection Hr as <- <-. split; [done |]. split; [by apply (pool_ok_mono T k); [lia |] | done]. }
  assert ((k + 1) * pp_page_size p <= 2 ^ 63) as Hb1.
  { etransitivity; [apply Z.mul_le_mono_nonneg_r | exact Hb]; [pose proof (po_size _ _ _ Hok) |]; lia. }
  pose proof (po_hand _ _ _ Hok) as Hh.
  destruct (lookup_lt_is_Some_2 _ _ Hh) as [m Hm]. cbn [clock_evict] in Hr. rewrite (page_at_eq p _ m Hm) in Hr.
  set (f := pp_clock_hand p) in *. set (h := Nat.modulo (f + 1) (pp_max p)) in *. set (p1 := with_hand h p) in *.
  assert (pool_ok T k p1) as Hok1.
  { apply with_hand_ok; [done |]. apply Nat.mod_upper_bound. unfold pp_max. lia. }
  assert (keeps p p1) as Hk1 by apply with_hand_keeps. assert (pp_pages p1 !! f = Some m) as Hm1 by done.
  assert (forall p2, pool_ok T (k + 1) p2 -> keeps p p2 -> (counted p -> counted p2) -> pp_page_index p2 !! pid = None ->
    clock_evict passes pid p2 = (r, p') -> alloc_ok T (k + Z.of_nat (S passes)) p pid r p') as Hnext.
  { intros p2 H2 Hk2 Hc2 Hi2 Hr2. apply (alloc_ok_trans T (k + 1 + Z.of_nat passes) _ p p2); [done | done | lia |].
    apply IH; try done. rewrite (kp_size _ _ Hk2). by replace (k + 1 + Z.of_nat passes) with (k + Z.of_nat (S passes)) by lia. }
  assert (pool_ok T (k + 1) p1) as Hok1' by (by apply (pool_ok_mono T k); [lia |]).
  destruct (negb (pm_in_use m) || negb (pm_pin_count m =? 0)) eqn:Hg; [by apply (Hnext p1) |].
  apply orb_false_elim in Hg as [Hu%negb_false_iff Hp%negb_false_iff%Z.eqb_eq].
  destruct (pm_ref_bit m) eqn:Href.
  { apply (Hnext (set_page f (set_pins (pm_pin_count m) false m) p1)); try done.
    - apply (set_page_ok T T (k + 1) p1 f m); try done; [cbn; lia | |].
      + intros Hd HT. by apply (po_clean _ _ _ Hok1 f).
      + intros HT. by destruct (untouched_absent T k p1 (pm_page_id m) Hok1); [rewrite (pin_of_page T k p1 Hok1 f) |].
    - transitivity p1; [done |]. by apply (set_page_keeps T k p1 f m).
    - intros Hc. apply (counted_update p _ f m (set_pins (pm_pin_count m) false m)); try done; cbn; lia. }
  assert (exists q m', (if pm_dirty m then flush_frame_locked f p1 else (true, p1)) = q /\
    pool_ok T (k + 1) q.2 /\ keeps p q.2 /\ (counted p -> counted q.2) /\ pp_page_index q.2 !! pid = None /\
    pp_pages q.2 !! f = Some m' /\ same_page m m' /\ (q.1 = true -> pm_dirty m' = false)) as (q & m' & Hq & Hokq & Hkq & Hcq & Hiq & Hfq & Hsq & Hdq).
  { destruct (pm_dirty m) eqn:Hd.
    - destruct (flush_frame_locked f p1) as [w q] eqn:Hw.
      destruct (flush_spec T k p1 q f m w Hok1) as (? & ? & ? & Hix & _ & m' & Hpg & ? & ?); try done.
      exists (w, q), m'. cbn. split_and!; try done.
      + by transitivity p1.
      + by rewrite Hix.
      + rewrite Hpg. apply list_lookup_insert_eq. by eapply lookup_lt_Some.
      + by auto.
    - exists (true, p1), m. cbn. split_and!; try done. }
  rewrite Hq in Hr. destruct q as [w q]. cbn in *. destruct w; cbn [negb] in Hr.
  - destruct Hsq as (Hu' & Hid' & Hp' & _). rewrite <- Hid' in Hr.
    rewrite (page_at_eq _ f m') in Hr by done. cbn [pp_swapped] in Hr.
    destruct (read_page_from_swap _ _ _) as [ok p2] eqn:Hrd.
    apply (alloc_ok_trans T (k + 1) _ p q); [done | done | lia |].
    assert (alloc_ok T (k + 1) q pid (if ok then Some (f, bool_decide (pp_swapped q !! pid = None)) else None)
      (if ok then p2 else with_counts (if 0 <? pp_resident_pages p2 then pp_resident_pages p2 - 1 else pp_resident_pages p2)
         (pp_dirty_pages p2) (pp_evictions p2) (free_frame f p2))) as Ha.
    { eapply (evict_ok T (k + 1) q p2 f m' pid); try done; [| by rewrite Hu' | by auto | by rewrite Hp'].
      by rewrite (kp_size _ _ Hkq). }
    destruct ok; injection Hr as <- <-; exact Ha.
  - by apply (Hnext q).
Qed.

Lemma allocate_spec (T : gset Z) (k : Z) (p p' : Pool) (pid : Z) r :
  pool_ok T k p -> (k + 2 * zlen (pp_pages p)) * pp_page_size p <= 2 ^ 63 -> pp_page_index p !! pid = None ->
  allocate_frame_for_page pid p = (r, p') -> alloc_ok T (k + 2 * zlen (pp_pages p)) p pid r p'.
Proof.
  intros Hok Hb Hi Hr. unfold allocate_frame_for_page in Hr. pose proof (zlen_nonneg (pp_pages p)) as Hz.
  destruct (list_find _ (pp_pages p)) as [[f m] |] eqn:Hfind.
  2:{ replace (2 * zlen (pp_pages p)) with (Z.of_nat (2 * pp_max p)) in * by (unfold zlen, pp_max; lia).
      by apply clock_spec. }
  apply list_find_Some in Hfind as (Hf & Hu & _). pose proof (po_idle _ _ _ Hok f m Hf Hu) as Hd.
  cbn zeta in Hr. change (pp_resident_pages (take_frame _ _ _ p)) with (pp_resident_pages p) in Hr.
  destruct (read_page_from_swap _ _ _) as [ok p2] eqn:Hrd.
  assert (k * pp_page_size p <= 2 ^ 63) as Hb'.
  { etransitivity; [apply Z.mul_le_mono_nonneg_r | exact Hb]; [pose proof (po_size _ _ _ Hok) |]; lia. }
  destruct (read_page_spec T k p p2 f m pid _ _ _ _ ok Hok Hf Hrd Hb') as (b & flts & Hp2 & _).
  set (q := with_counts _ _ _ _) in Hrd.
  assert (counted p -> counted q) as Hc.
  { intros Hc. apply (counted_update p q f m (MkPage pid kInvalidSwapSlot 0 false true true)); try done; cbn.
    - destruct Hc as (Hl & -> & _). rewrite (u64_count p pm_in_use f m) by done. rewrite Hu. cbn. lia.
    - rewrite Hd. cbn. lia. }
  apply (alloc_ok_trans T k _ p p); [done | done | lia |].
  pose proof (load_ok T k p p p2 f m pid _ _ _ _ ok Hok (reflexivity p) Hf Hu Hi Hb' Hrd Hc) as Hl.
  destruct ok; injection Hr as <- <-; [exact Hl |].
  apply Hl. intros Hcp. rewrite Hp2.
  apply (resident_down q f (MkPage pid kInvalidSwapSlot 0 false true true)); [by apply Hc | | done].
  cbn. apply list_lookup_insert_eq. by eapply lookup_lt_Some.
Qed.

(** ** The interface *)

(** A page that was handed out at frame [f]. *)
Record fetched (p p' : Pool) (pid : Z) (f : nat) (is_new : bool) : Prop := {
  fe_size : pp_page_size p' = pp_page_size p;
  fe_max : length (pp_pages p') = length (pp_pages p);
  fe_view : forall q, view p' q = view p q;
  fe_pins : forall q, pin_of p' q = if decide (q = pid) then pin_of p q + 1 else pin_of p q;
  fe_addr : forall q, 0 < pin_of p q -> pp_page_index p' !! q = pp_page_index p !! q;
  fe_here : pp_page_index p' !! pid = Some f;
  fe_new : is_new = true -> view p pid = replicate (Z.to_nat (pp_page_size p)) Byte.x00
}.

Lemma fetch_hit_spec (T : gset Z) (k : Z) (p : Pool) (pid : Z) (f : nat) :
  pool_ok T k p -> pin_of p pid + 1 < 2 ^ 32 -> pp_page_index p !! pid = Some f ->
  let p' := set_page f (set_pins (u32 (pm_pin_count (page_at f p) + 1)) true (page_at f p)) p in
  pool_ok T k p' /\ (counted p -> counted p') /\ fetched p p' pid f false.
Proof.
  intros Hok Hpin Hi. destruct (index_page _ _ _ Hok pid f Hi) as (m & Hf & Hu & <-).
  rewrite (page_at_eq p f m Hf). rewrite (pin_of_page _ _ _ Hok f m Hf Hu) in Hpin.
  pose proof (po_pins _ _ _ Hok f m Hf) as Hp0. cbv zeta.
  assert (u32 (pm_pin_count m + 1) = pm_pin_count m + 1) as -> by (unfold u32; apply Z.mod_small; lia).
  split_and!.
  - apply (set_page_ok T T k p f m); try done; cbn; [lia | | lia].
    intros Hd HT. by apply (po_clean _ _ _ Hok f).
  - intros Hc. apply (counted_update p _ f m (set_pins (pm_pin_count m + 1) true m)); try done; cbn; lia.
  - split; try done; [cbn; by rewrite length_insert |].
    intros q. rewrite (set_page_pin T k p f m _ q Hok Hf Hu). case_decide; [| done]. subst.
    by rewrite (pin_of_page _ _ _ Hok f m Hf Hu).
Qed.

Lemma fetch_spec (T : gset Z) (k : Z) (p p' : Pool) (pid : Z) (fw : bool) r :
  pool_ok T k p -> (k + 2 * zlen (pp_pages p)) * pp_page_size p <= 2 ^ 63 -> pin_of p pid + 1 < 2 ^ 32 ->
  palloc_fetch_page pid fw p = (r, p') ->
  pool_ok T (k + 2 * zlen (pp_pages p)) p' /\ (counted p -> counted p') /\
  match r with None => keeps p p' | Some (f, is_new) => fetched p p' pid f is_new end.
Proof.
  intros Hok Hb Hpin Hr. unfold palloc_fetch_page in Hr. pose proof (zlen_nonneg (pp_pages p)) as Hz.
  destruct (pp_page_index p !! pid) as [f |] eqn:Hi.
  { injection Hr as <- <-. destruct (fetch_hit_spec T k p pid f Hok Hpin Hi) as (? & ? & ?).
    split_and!; [by apply (pool_ok_mono T k); [lia |] | done | done]. }
  destruct (allocate_frame_for_page pid p) as [a p1] eqn:Ha.
  pose proof (allocate_spec T k p p1 pid a Hok Hb Hi Ha) as [Hc Hal].
  destruct a as [[f is_new] |]; [| injection Hr as <- <-; by destruct Hal].
  destruct Hal as (Hok1 & Hk1 & [slot Hf] & Hnew). set (q := with_index _ p1) in *.
  set (m := MkPage pid slot 0 false true true) in *. cbn zeta in Hr. rewrite (page_at_eq q f m) in Hr by done.
  pose proof (untouched_absent _ _ q pid Hok1) as HT. rewrite (pin_of_page _ _ _ Hok1 f m Hf eq_refl : pin_of q pid = 0) in HT.
  specialize (HT eq_refl).
  assert (pin_of p pid = 0) as Hpp by (unfold pin_of; by rewrite Hi).
  assert (forall m', pm_in_use m' = true -> pm_page_id m' = pid -> pm_pin_count m' = 1 ->
    pool_ok T (k + 2 * zlen (pp_pages p)) (set_page f m' q) /\ fetched p (set_page f m' q) pid f is_new) as Hset.
  { intros m' Hu' Hid' Hp'. split.
    - apply (set_page_ok T T _ q f m m'); try done; [lia |]. intros _ _. by apply (po_clean _ _ _ Hok1 f m).
    - split; try apply Hk1.
      + cbn. rewrite length_insert. apply Hk1.
      + intros x. rewrite (set_page_pin _ _ _ _ _ _ x Hok1 Hf eq_refl). cbn [pm_page_id m]. rewrite Hp'.
        case_decide; [subst; lia | apply Hk1].
      + apply lookup_insert_eq.
      + intros Hn. rewrite <- (kp_view _ _ Hk1), <- (Hnew Hn). unfold view, q. cbn. by rewrite lookup_insert_eq. }
  destruct fw; injection Hr as <- <-.
  - destruct (Hset (set_dirty true (set_pins 1 true m))) as [H1 H2]; [done .. |]. split_and!.
    + by apply with_counts_ok.
    + intros (Hl & Hrc & Hd)%Hc. eapply (counted_update p1 _ f m (set_dirty true (set_pins 1 true m))); try done.
      * cbn. lia.
      * cbn. rewrite Hd. rewrite (u64_count p1 pm_dirty f m) by done. lia.
    + destruct H2. by split.
  - destruct (Hset (set_pins 1 true m)) as [H1 H2]; [done .. |]. split_and!; [done | | done].
    intros Hc1%Hc. apply (counted_update p1 _ f m (set_pins 1 true m)); try done; cbn; lia.
Qed.

Lemma unpin_spec (T : gset Z) (k : Z) (p : Pool) (pid : Z) (mark : bool) :
  pool_ok T k p -> 0 < pin_of p pid -> (pid ∈ T -> mark = true \/ 1 < pin_of p pid) ->
  let p' := palloc_unpin_page pid mark p in
  pool_ok (if mark then T ∖ {[pid]} else T) k p' /\ (counted p -> counted p') /\
  pp_page_size p' = pp_page_size p /\ length (pp_pages p') = length (pp_pages p) /\
  pp_page_index p' = pp_page_index p /\ (forall q, view p' q = view p q) /\
  (forall q, pin_of p' q = if decide (q = pid) then pin_of p q - 1 else pin_of p q).
Proof.
  intros Hok Hpin HT. unfold palloc_unpin_page. destruct (pp_page_index p !! pid) as [f |] eqn:Hi.
  2:{ unfold pin_of in Hpin. rewrite Hi in Hpin. lia. }
  destruct (index_page _ _ _ Hok pid f Hi) as (m & Hf & Hu & <-). rewrite (page_at_eq p f m Hf).
  rewrite (pin_of_page _ _ _ Hok f m Hf Hu) in Hpin, HT. rewrite (proj2 (Z.ltb_lt _ _)) by done. cbv zeta.
  set (m1 := set_pins (pm_pin_count m - 1) (pm_ref_bit m) m).
  assert (forall m', pm_in_use m' = true -> pm_page_id m' = pm_page_id m -> pm_pin_count m' = pm_pin_count m - 1 ->
    (pm_dirty m' = false -> pm_dirty m = false /\ mark = false) ->
    pool_ok (if mark then T ∖ {[pm_page_id m]} else T) k (set_page f m' p) /\
    forall q, pin_of (set_page f m' p) q = if decide (q = pm_page_id m) then pin_of p q - 1 else pin_of p q) as Hset.
  { intros m' Hu' Hid' Hp' Hd'. split.
    - apply (set_page_ok T _ k p f m m'); try done; [lia | | |].
      + intros [Hd ->]%Hd' HnT. by apply (po_clean _ _ _ Hok f).
      + intros q Hq. destruct mark; set_solver.
      + intros Hin. rewrite Hp'. destruct mark; [set_solver |]. destruct (HT Hin) as [| ?]; [done | lia].
    - intros q. rewrite (set_page_pin T k p f m m' q Hok Hf Hu). case_decide; [| done]. subst.
      by rewrite (pin_of_page _ _ _ Hok f m Hf Hu). }
  destruct (mark && negb (pm_dirty m1)) eqn:Hmd.
  - apply andb_true_iff in Hmd as [-> Hd%negb_true_iff]. destruct (Hset (set_dirty true m1)) as [H1 H2]; [done .. |].
    split_and!; try done.
    + by apply with_counts_ok.
    + intros (Hl & Hr & Hdc). apply (counted_update p _ f m (set_dirty true m1)); try done; cbn; [lia |].
      rewrite Hdc, (u64_count p pm_dirty f m) by done. cbn in Hd. rewrite Hd. cbn. lia.
    + cbn. by rewrite length_insert.
  - destruct (Hset m1) as [H1 H2]; [done .. | |].
    { cbn. intros Hd. cbn in Hmd. rewrite Hd in Hmd. by destruct mark. }
    split_and!; try done; [| cbn; by rewrite length_insert].
    intros Hc. apply (counted_update p _ f m m1); try done; cbn; lia.
Qed.

Lemma client_write_spec (T : gset Z) (k : Z) (p : Pool) (pid : Z) (f : nat) (data : bytes) :
  pool_ok T k p -> pp_page_index p !! pid = Some f -> 0 < pin_of p pid -> zlen data = pp_page_size p ->
  pool_ok ({[pid]} ∪ T) k (client_write f data p) /\
  forall q, view (client_write f data p) q = if decide (q = pid) then data else view p q.
Proof.
  intros Hok Hi Hpin Hd. destruct (index_page _ _ _ Hok pid f Hi) as (m & Hf & Hu & <-).
  assert (f < length (pp_frames p))%nat as Hlf by (rewrite (po_len _ _ _ Hok); by eapply lookup_lt_Some).
  split.
  - split; try apply Hok; cbn; rewrite ?length_insert; try apply Hok.
    + intros g b. by apply (frames_insert_len T k p f).
    + intros g x Hg Hux Hdx HT. unfold client_write. rewrite frame_at_set by done. rewrite decide_False.
      * apply (po_clean _ _ _ Hok g); try done. set_solver.
      * intros ->. assert (x = m) as -> by congruence. set_solver.
    + intros q Hq. change (0 < pin_of p q). destruct (decide (q = pm_page_id m)) as [-> | Hne]; [done |].
      apply (po_touched _ _ _ Hok). set_solver.
  - intros q. unfold view, client_write. cbn. case_decide; subst.
    + rewrite Hi. rewrite frame_at_set by done. by rewrite decide_True.
    + destruct (pp_page_index p !! q) as [g |] eqn:Hg; [| done]. rewrite frame_at_set by done.
      rewrite decide_False; [done |]. intros ->. destruct (index_page _ _ _ Hok q f Hg) as (x & Hx & _ & <-). congruence.
Qed.

Lemma flush_all_spec (T : gset Z) : forall (n i : nat) (k : Z) (p p' : Pool) (ok ok' : bool),
  pool_ok T k p -> (k + Z.of_nat n) * pp_page_size p <= 2 ^ 63 -> (i + n <= length (pp_pages p))%nat ->
  fold_left (fun acc i => let '(ok, p) := acc in let '(r, p) := flush_frame_locked i p in (ok && r, p)) (seq i n) (ok, p) = (ok', p') ->
  pool_ok T (k + Z.of_nat n) p' /\ (counted p -> counted p') /\ keeps p p'.
Proof.
  induction n as [| n IH]; intros i k p p' ok ok' Hok Hb Hlen Hr.
  { injection Hr as <- <-. split_and!; [| done | done]. by apply (pool_ok_mono T k); [lia |]. }
  cbn in Hr. destruct (flush_frame_locked i p) as [r p1] eqn:Hfl.
  destruct (lookup_lt_is_Some_2 (pp_pages p) i) as [m Hm]; [lia |].
  destruct (flush_spec T k p p1 i m r Hok) as (Hok1 & Hk1 & Hc1 & _); try done.
  { etransitivity; [apply Z.mul_le_mono_nonneg_r | exact Hb]; [pose proof (po_size _ _ _ Hok) |]; lia. }
  destruct (IH (S i) (k + 1) p1 p' (ok && r) ok' Hok1) as (? & ? & ?); try done.
  - rewrite (kp_size _ _ Hk1). by replace (k + 1 + Z.of_nat n) with (k + Z.of_nat (S n)) by lia.
  - rewrite (kp_max _ _ Hk1). lia.
  - split_and!; [by replace (k + Z.of_nat (S n)) with (k + 1 + Z.of_nat n) by lia | by auto | by transitivity p1].
Qed.

(** ** Clients *)

(** A client keeps the addresses it was given, with how often it fetched
    them; [cl_touched] are the pages it wrote to and has not yet marked dirty,
    [cl_mem] is the memory it believes to have. *)
Record Client : Type := MkClient {
  cl_pool : Pool;
  cl_held : gmap Z (nat * Z);
  cl_touched : gset Z;
  cl_mem : gmap Z bytes
}.

Inductive pool_op : Type :=
| PFetch (pid : Z) (for_write : bool)
| PWrite (pid : Z) (data : bytes)
| PUnpin (pid : Z) (mark_dirty : bool)
| PFlush (pid : Z)
| PFlushAll.

Definition on_pool (p : Pool) (c : Client) : Client := MkClient p (cl_held c) (cl_touched c) (cl_mem c).

(** One call; [None] when it breaks the contract of the header: a page is
    written through a pointer that is held, a whole page at a time, and the
    last holder of a page that was written to marks it dirty. *)
Definition client_step (op : pool_op) (c : Client) : option Client :=
  match op with
  | PFetch pid fw =>
      match palloc_fetch_page pid fw (cl_pool c) with
      | (None, p) => Some (on_pool p c)
      | (Some (f, _), p) =>
          let n := default 0 (snd <$> cl_held c !! pid) in
          Some (MkClient p (<[pid := (f, n + 1)]> (cl_held c)) (cl_touched c) (cl_mem c))
      end
  | PWrite pid data =>
      '(f, _) ← cl_held c !! pid;
      if zlen data =? pp_page_size (cl_pool c)
      then Some (MkClient (client_write f data (cl_pool c)) (cl_held c) ({[pid]} ∪ cl_touched c) (<[pid := data]> (cl_mem c)))
      else None
  | PUnpin pid mark =>
      '(f, n) ← cl_held c !! pid;
      if bool_decide (pid ∈ cl_touched c) && negb mark && (n =? 1) then None else
      Some (MkClient (palloc_unpin_page pid mark (cl_pool c))
              (if n =? 1 then delete pid (cl_held c) else <[pid := (f, n - 1)]> (cl_held c))
              (if mark then cl_touched c ∖ {[pid]} else cl_touched c) (cl_mem c))
  | PFlush pid => Some (on_pool (palloc_flush_page pid (cl_pool c)).2 c)
  | PFlushAll => Some (on_pool (palloc_flush_all (cl_pool c)).2 c)
  end.

Fixpoint client_run (ops : list pool_op) (c : Client) : option Client :=
  match ops with
  | [] => Some c
  | op :: ops => c ← client_step op c; client_run ops c
  end.

Definition client_new (p : Pool) : Client := MkClient p ∅ ∅ ∅.

(** A page that was never written to is zero. *)
Definition mem_at (c : Client) (pid : Z) : bytes :=
  default (replicate (Z.to_nat (pp_page_size (cl_pool c))) Byte.x00) (cl_mem c !! pid).

(** The invariant after [j] calls on a pool of [n] pages of [sz] bytes. *)
Record client_ok (sz n j : Z) (c : Client) : Prop := {
  co_pool : pool_ok (cl_touched c) (j * (2 * n)) (cl_pool c);
  co_counted : counted (cl_pool c);
  co_size : pp_page_size (cl_pool c) = sz;
  co_max : zlen (pp_pages (cl_pool c)) = n;
  co_view : forall q, view (cl_pool c) q = mem_at c q;
  co_held : forall q, match cl_held c !! q with
                      | Some (f, cnt) => pp_page_index (cl_pool c) !! q = Some f /\ pin_of (cl_pool c) q = cnt /\ 0 < cnt
                      | None => pin_of (cl_pool c) q = 0
                      end;
  co_few : forall q, pin_of (cl_pool c) q <= j
}.

Lemma co_pin_nonneg (sz n j : Z) (c : Client) (q : Z) : client_ok sz n j c -> 0 <= pin_of (cl_pool c) q.
Proof. intros Hc. pose proof (co_held _ _ _ _ Hc q) as H. destruct (cl_held c !! q) as [[f cnt] |]; lia. Qed.

(** A call that keeps everything. *)
Lemma on_pool_ok (sz n j : Z) (c : Client) (p : Pool) :
  client_ok sz n j c -> 0 <= n -> pool_ok (cl_touched c) ((j + 1) * (2 * n)) p -> (counted (cl_pool c) -> counted p) -> keeps (cl_pool c) p ->
  client_ok sz n (j + 1) (on_pool p c).
Proof.
  intros Hc Hn Hok Hct Hk. split; cbn.
  - done.
  - by apply Hct, Hc.
  - rewrite (kp_size _ _ Hk). apply Hc.
  - unfold zlen. rewrite (kp_max _ _ Hk). apply Hc.
  - intros q. rewrite (kp_view _ _ Hk), (co_view _ _ _ _ Hc). unfold mem_at. cbn. by rewrite (kp_size _ _ Hk).
  - intros q. rewrite (kp_pins _ _ Hk). pose proof (co_held _ _ _ _ Hc q) as Hq.
    destruct (cl_held c !! q) as [[f cnt] |]; [| done]. destruct Hq as (Hi & Hp & Hpos).
    rewrite (kp_addr _ _ Hk) by lia. done.
  - intros q. rewrite (kp_pins _ _ Hk). pose proof (co_few _ _ _ _ Hc q). lia.
Qed.

Lemma fetch_step_ok (sz n j : Z) (c : Client) (pid : Z) (fw : bool) (r : option (nat * bool)) (p : Pool) :
  client_ok sz n j c -> (j + 1) * (2 * n) * sz <= 2 ^ 63 -> j + 1 < 2 ^ 32 -> 0 <= n ->
  palloc_fetch_page pid fw (cl_pool c) = (r, p) ->
  pool_ok (cl_touched c) ((j + 1) * (2 * n)) p /\ (counted (cl_pool c) -> counted p) /\
  match r with None => keeps (cl_pool c) p | Some (f, is_new) => fetched (cl_pool c) p pid f is_new end.
Proof.
  intros Hc Hb Hj Hn Hr. replace ((j + 1) * (2 * n)) with (j * (2 * n) + 2 * zlen (pp_pages (cl_pool c))).
  2:{ rewrite (co_max _ _ _ _ Hc). lia. }
  eapply fetch_spec; [apply Hc | | | done].
  - rewrite (co_max _ _ _ _ Hc), (co_size _ _ _ _ Hc). by replace (j * (2 * n) + 2 * n) with ((j + 1) * (2 * n)) by lia.
  - pose proof (co_few _ _ _ _ Hc pid). lia.
Qed.

Lemma step_fetch_ok (sz n j : Z) (c c' : Client) (pid : Z) (fw : bool) :
  client_ok sz n j c -> (j + 1) * (2 * n) * sz <= 2 ^ 63 -> j + 1 < 2 ^ 32 -> 0 <= n ->
  client_step (PFetch pid fw) c = Some c' -> client_ok sz n (j + 1) c'.
Proof.
  intros Hc Hb Hj Hn Hs. cbn in Hs. destruct (palloc_fetch_page pid fw (cl_pool c)) as [r p] eqn:Hr.
  destruct (fetch_step_ok sz n j c pid fw r p Hc Hb Hj Hn Hr) as (Hok & Hct & Hk).
  destruct r as [[f is_new] |]; injection Hs as <-; [| by apply on_pool_ok].
  pose proof (co_held _ _ _ _ Hc) as Hh. pose proof (fe_pins _ _ _ _ _ Hk) as Hpins. split; cbn.
  - done.
  - by apply Hct, Hc.
  - rewrite (fe_size _ _ _ _ _ Hk). apply Hc.
  - unfold zlen. rewrite (fe_max _ _ _ _ _ Hk). apply Hc.
  - intros q. rewrite (fe_view _ _ _ _ _ Hk), (co_view _ _ _ _ Hc). unfold mem_at. cbn. by rewrite (fe_size _ _ _ _ _ Hk).
  - intros q. rewrite Hpins. specialize (Hh q). destruct (decide (q = pid)) as [-> | Hne].
    + rewrite lookup_insert_eq. split; [apply Hk |]. destruct (cl_held c !! pid) as [[g cnt] |]; cbn; lia.
    + rewrite lookup_insert_ne by done. destruct (cl_held c !! q) as [[g cnt] |]; [| done].
      destruct Hh as (Hi & Hp & Hpos). rewrite (fe_addr _ _ _ _ _ Hk) by lia. done.
  - intros q. rewrite Hpins. pose proof (co_few _ _ _ _ Hc q). case_decide; lia.
Qed.

Lemma step_write_ok (sz n j : Z) (c c' : Client) (pid : Z) (data : bytes) :
  client_ok sz n j c -> 0 <= n -> client_step (PWrite pid data) c = Some c' -> client_ok sz n (j + 1) c'.
Proof.
  intros Hc Hn Hs. cbn in Hs. pose proof (co_held _ _ _ _ Hc pid) as Hh.
  destruct (cl_held c !! pid) as [[f cnt] |] eqn:Hheld; [| done]. cbn in Hs.
  destruct (zlen data =? pp_page_size (cl_pool c)) eqn:Hd; [| done]. apply Z.eqb_eq in Hd. injection Hs as <-.
  destruct Hh as (Hi & Hp & Hpos).
  destruct (client_write_spec _ _ _ pid f data (co_pool _ _ _ _ Hc) Hi ltac:(lia) Hd) as [Hok Hv].
  split; cbn; try apply Hc.
  - eapply pool_ok_mono, Hok. lia.
  - intros q. rewrite Hv. unfold mem_at. cbn. case_decide; subst.
    + by rewrite lookup_insert_eq.
    + rewrite lookup_insert_ne by done. apply Hc.
  - intros q. pose proof (co_few _ _ _ _ Hc q) as Hf. change (pin_of (cl_pool c) q <= j + 1). lia.
Qed.

Lemma step_unpin_ok (sz n j : Z) (c c' : Client) (pid : Z) (mark : bool) :
  client_ok sz n j c -> 0 <= n -> client_step (PUnpin pid mark) c = Some c' -> client_ok sz n (j + 1) c'.
Proof.
  intros Hc Hn Hs. cbn in Hs. pose proof (co_held _ _ _ _ Hc pid) as Hh.
  destruct (cl_held c !! pid) as [[f cnt] |] eqn:Hheld; [| done]. cbn in Hs. destruct Hh as (Hi & Hp & Hpos).
  destruct (bool_decide (pid ∈ cl_touched c) && negb mark && (cnt =? 1)) eqn:Hg; [done |]. injection Hs as <-.
  destruct (unpin_spec _ _ _ pid mark (co_pool _ _ _ _ Hc)) as (Hok & Hct & Hsz & Hmx & Hix & Hv & Hpins); [lia | |].
  { intros HT. rewrite bool_decide_eq_true_2 in Hg by done. destruct mark; [by left |]. right. cbn in Hg. lia. }
  split; cbn.
  - eapply pool_ok_mono, Hok. lia.
  - by apply Hct, Hc.
  - rewrite Hsz. apply Hc.
  - unfold zlen. rewrite Hmx. apply Hc.
  - intros q. rewrite Hv, (co_view _ _ _ _ Hc). unfold mem_at. cbn. by rewrite Hsz.
  - intros q. rewrite Hpins, Hix. pose proof (co_held _ _ _ _ Hc q) as Hq.
    destruct (decide (q = pid)) as [-> | Hne].
    + destruct (cnt =? 1) eqn:H1; [rewrite lookup_delete_eq; lia |]. rewrite lookup_insert_eq. split; [done | lia].
    + destruct (cnt =? 1); [by rewrite lookup_delete_ne | by rewrite lookup_insert_ne].
  - intros q. rewrite Hpins. pose proof (co_few _ _ _ _ Hc q). destruct (decide (q = pid)); lia.
Qed.

Lemma step_flush_ok (sz n j : Z) (c c' : Client) (op : pool_op) :
  client_ok sz n j c -> (j + 1) * (2 * n) * sz <= 2 ^ 63 -> 0 < n -> 0 <= j ->
  (op = PFlushAll \/ exists pid, op = PFlush pid) -> client_step op c = Some c' -> client_ok sz n (j + 1) c'.
Proof.
  intros Hc Hb Hn Hj Hop Hs. pose proof (co_pool _ _ _ _ Hc) as Hok. pose proof (co_max _ _ _ _ Hc) as Hmx.
  pose proof (po_size _ _ _ Hok) as Hsz. rewrite (co_size _ _ _ _ Hc) in Hsz.
  assert (forall d, 0 <= d <= n -> (j * (2 * n) + d) * pp_page_size (cl_pool c) <= 2 ^ 63) as Hd.
  { intros d Hd. rewrite (co_size _ _ _ _ Hc). etransitivity; [apply Z.mul_le_mono_nonneg_r | exact Hb]; lia. }
  destruct Hop as [-> | [pid ->]]; injection Hs as <-.
  - unfold palloc_flush_all, flush_all_locked. destruct (fold_left _ _ _) as [ok p] eqn:Hf.
    apply (flush_all_spec (cl_touched c) _ _ (j * (2 * n))) in Hf as (H1 & H2 & H3); [| done | | done].
    + apply on_pool_ok; try done; [lia |]. eapply pool_ok_mono, H1. unfold pp_max, zlen in *. lia.
    + apply Hd. unfold pp_max, zlen in *. lia.
  - unfold palloc_flush_page. destruct (pp_page_index (cl_pool c) !! pid) as [f |] eqn:Hi.
    2:{ apply on_pool_ok; try done; [lia |]. eapply pool_ok_mono, Hok. lia. }
    destruct (index_page _ _ _ Hok pid f Hi) as (m & Hf & _). destruct (flush_frame_locked f (cl_pool c)) as [ok p] eqn:Hfl.
    destruct (flush_spec _ _ _ p f m ok Hok (Hd 1 ltac:(lia)) Hf Hfl) as (H1 & H2 & H3 & _).
    apply on_pool_ok; try done; [lia |]. eapply pool_ok_mono, H1. lia.
Qed.

Lemma client_run_ok (sz n : Z) (ops : list pool_op) : forall (j : Z) (c c' : Client),
  client_ok sz n j c -> (j + zlen ops) * (2 * n) * sz <= 2 ^ 63 -> j + zlen ops < 2 ^ 32 -> 0 < n -> 0 < sz -> 0 <= j ->
  client_run ops c = Some c' -> client_ok sz n (j + zlen ops) c'.
Proof.
  induction ops as [| op ops IH]; intros j c c' Hc Hb Hj Hn Hsz Hj0 Hr.
  { injection Hr as <-. unfold zlen. cbn. by rewrite Z.add_0_r. }
  cbn in Hr. destruct (client_step op c) as [c1 |] eqn:Hs; [| done]. cbn in Hr. pose proof (zlen_nonneg ops) as Hz.
  assert (zlen (op :: ops) = zlen ops + 1) as Hl by (unfold zlen; cbn [length]; lia). rewrite Hl in *.
  replace (j + (zlen ops + 1)) with (j + 1 + zlen ops) in * by lia.
  apply (IH (j + 1) c1); try done; [| lia].
  assert ((j + 1) * (2 * n) * sz <= 2 ^ 63) as Hb1.
  { etransitivity; [apply Z.mul_le_mono_nonneg_r; [lia |]; apply Z.mul_le_mono_nonneg_r; [lia |] | exact Hb]. lia. }
  destruct op as [pid fw | pid data | pid mark | pid |].
  - by apply (step_fetch_ok sz n j c c1 pid fw); try done; lia.
  - by apply (step_write_ok sz n j c c1 pid data); try done; lia.
  - by apply (step_unpin_ok sz n j c c1 pid mark); try done; lia.
  - apply (step_flush_ok sz n j c c1 (PFlush pid)); try done. right. by eexists.
  - apply (step_flush_ok sz n j c c1 PFlushAll); try done. by left.
Qed.

(** A fresh pool. *)
Lemma client_new_ok (page_size capacity profile : Z) (swap_open : bool) swap garbage faults (p : Pool) :
  is_u64 page_size -> is_u64 capacity ->
  palloc_page_pool_create page_size capacity profile swap_open swap garbage faults = Some p ->
  (forall i, zlen (garbage i) = pp_page_size p) ->
  0 < pp_page_size p /\ 0 < zlen (pp_pages p) /\ zlen (pp_pages p) * pp_page_size p <= pp_capacity_bytes p /\
  client_ok (pp_page_size p) (zlen (pp_pages p)) 0 (client_new p).
Proof.
  intros Hp Hc Hcr Hg. unfold palloc_page_pool_create in Hcr.
  destruct (fill_defaults page_size capacity profile) as [sz cap] eqn:Hfd.
  assert (0 < sz /\ is_u64 cap) as [Hsz Hcap].
  { unfold fill_defaults in Hfd. injection Hfd as <- <-. unfold is_u64 in *. repeat case_match; lia. }
  destruct ((sz =? 0) || (cap <? sz)) eqn:Hgd; [done |]. apply orb_false_elim in Hgd as [_ Hcs%Z.ltb_ge].
  injection Hcr as <-. cbn [pp_page_size pp_pages pp_capacity_bytes] in *.
  pose proof (Z.div_str_pos cap sz) as Hpos. pose proof (Z.mul_div_le cap sz Hsz) as Hle.
  assert (cap / sz <= cap) as Hdc by (apply Z.div_le_upper_bound; [done |]; nia). unfold is_u64 in Hcap.
  set (nn := Z.to_nat (cap / sz)) in *. assert (Z.of_nat nn = cap / sz) as Hnn by (unfold nn; lia).
  assert (zlen (replicate nn page_empty) = cap / sz) as Hlen by (unfold zlen; by rewrite length_replicate).
  assert (forall f m, replicate nn page_empty !! f = Some m -> m = page_empty) as Hrep.
  { intros f m Hm. by apply lookup_replicate_1 in Hm as [-> _]. }
  rewrite Hlen. split_and!; [done | lia | lia |]. split; try done.
  - split; cbn; try done; try (intros f m ->%Hrep; done).
    + by rewrite length_fmap, length_seq, length_replicate.
    + intros f b (i & -> & _)%list_lookup_fmap_Some. apply Hg.
    + rewrite length_replicate. lia.
    + intros pid f. rewrite lookup_empty. split; [done |]. by intros (m & ->%Hrep & ? & _).
  - unfold counted. cbn. split_and!; [unfold zlen in *; cbn in *; rewrite length_replicate; lia | |]; by clear; induction nn.
Qed.

Section from_creation.
Context (page_size capacity profile : Z) (swap_open : bool) (swap : bytes) (garbage : nat -> bytes) (faults : list (option fault)).
Context (p : Pool) (ops : list pool_op) (c : Client).
Context (Hps : is_u64 page_size) (Hcap : is_u64 capacity)
  (Hp : palloc_page_pool_create page_size capacity profile swap_open swap garbage faults = Some p)
  (Hg : forall i, zlen (garbage i) = pp_page_size p)
  (Hb : (zlen ops + 1) * (2 * zlen (pp_pages p)) * pp_page_size p <= 2 ^ 63)
  (Hops : zlen ops + 1 < 2 ^ 32)
  (Hrun : client_run ops (client_new p) = Some c).

Lemma created_run_ok : client_ok (pp_page_size p) (zlen (pp_pages p)) (zlen ops) c.
Proof.
  destruct (client_new_ok _ _ _ _ _ _ _ _ Hps Hcap Hp Hg) as (Hsz & Hn & _ & Hc). pose proof (zlen_nonneg ops) as Hz.
  change (zlen ops) with (0 + zlen ops). apply (client_run_ok _ _ ops 0 (client_new p)); try done; [| lia].
  etransitivity; [apply Z.mul_le_mono_nonneg_r; [lia |]; apply Z.mul_le_mono_nonneg_r; [lia |] | exact Hb]. lia.
Qed.

End from_creation.

(** C14. The pool refines a plain memory.  Whatever a client that keeps the contract of the
    header does, and whichever reads and writes of the swap file fail or are
    short, a held address shows the bytes last written to its page (zeros if
    there were none), a fetch that succeeds returns a frame with these bytes, at
    the address of the earlier fetches while the page is held, and [is_new] is
    only set for a page of zeros. *)
Theorem pool_is_a_memory (page_size capacity profile : Z) (swap_open : bool) swap garbage faults (p : Pool) ops (c : Client) :
  is_u64 page_size -> is_u64 capacity ->
  palloc_page_pool_create page_size capacity profile swap_open swap garbage faults = Some p ->
  (forall i, zlen (garbage i) = pp_page_size p) ->
  (zlen ops + 1) * (2 * zlen (pp_pages p)) * pp_page_size p <= 2 ^ 63 -> zlen ops + 1 < 2 ^ 32 ->
  client_run ops (client_new p) = Some c ->
  (forall pid f n, cl_held c !! pid = Some (f, n) -> frame_at f (cl_pool c) = mem_at c pid) /\
  (forall pid fw f is_new p', palloc_fetch_page pid fw (cl_pool c) = (Some (f, is_new), p') ->
    frame_at f p' = mem_at c pid /\ (forall g n, cl_held c !! pid = Some (g, n) -> f = g) /\
    (is_new = true -> mem_at c pid = replicate (Z.to_nat (pp_page_size p)) Byte.x00)).
Proof.
  intros Hps Hcap Hp Hg Hb Hops Hrun.
  pose proof (created_run_ok _ _ _ _ _ _ _ _ _ _ Hps Hcap Hp Hg Hb Hops Hrun) as Hc. split.
  - intros pid f n Hh. pose proof (co_held _ _ _ _ Hc pid) as H. rewrite Hh in H. destruct H as (Hi & _).
    rewrite <- (co_view _ _ _ _ Hc). unfold view. by rewrite Hi.
  - intros pid fw f is_new p' Hf.
    destruct (fetch_step_ok _ _ _ c pid fw _ p' Hc Hb Hops (zlen_nonneg _) Hf) as (_ & _ & Hfe). split_and!.
    + rewrite <- (co_view _ _ _ _ Hc), <- (fe_view _ _ _ _ _ Hfe). unfold view. by rewrite (fe_here _ _ _ _ _ Hfe).
    + intros g n Hh. pose proof (co_held _ _ _ _ Hc pid) as H. rewrite Hh in H. destruct H as (Hi & Hpin & Hpos).
      pose proof (fe_addr _ _ _ _ _ Hfe pid ltac:(lia)) as Ha. rewrite (fe_here _ _ _ _ _ Hfe) in Ha. congruence.
    + intros Hn. rewrite <- (co_view _ _ _ _ Hc), (fe_new _ _ _ _ _ Hfe Hn). by rewrite (co_size _ _ _ _ Hc).
Qed.

(** The statistics are exact and the memory budget is kept: the pool counts its
    resident and its dirty pages, and the resident pages fit the capacity. *)
Theorem pool_counters_exact (page_size capacity profile : Z) (swap_open : bool) swap garbage faults (p : Pool) ops (c : Client) :
  is_u64 page_size -> is_u64 capacity ->
  palloc_page_pool_create page_size capacity profile swap_open swap garbage faults = Some p ->
  (forall i, zlen (garbage i) = pp_page_size p) ->
  (zlen ops + 1) * (2 * zlen (pp_pages p)) * pp_page_size p <= 2 ^ 63 -> zlen ops + 1 < 2 ^ 32 ->
  client_run ops (client_new p) = Some c ->
  let '(_, _, resident, dirty, _, _) := palloc_page_pool_get_stats (cl_pool c) in
  resident = count pm_in_use (pp_pages (cl_pool c)) /\ dirty = count pm_dirty (pp_pages (cl_pool c)) /\
  resident * pp_page_size p <= pp_capacity_bytes p.
Proof.
  intros Hps Hcap Hp Hg Hb Hops Hrun.
  pose proof (created_run_ok _ _ _ _ _ _ _ _ _ _ Hps Hcap Hp Hg Hb Hops Hrun) as Hc.
  destruct (client_new_ok _ _ _ _ _ _ _ _ Hps Hcap Hp Hg) as (Hsz & Hn & Hle & _).
  destruct (co_counted _ _ _ _ Hc) as (_ & Hr & Hd). cbn. split_and!; [done | done |]. rewrite Hr.
  pose proof (count_le pm_in_use (pp_pages (cl_pool c))) as Hcnt. rewrite (co_max _ _ _ _ Hc) in Hcnt. nia.
Qed.

(** ** Progress *)

(** The swap file is open and its reads and writes succeed. *)
Definition quiet (p : Pool) : Prop := pp_swap_open p = true /\ Forall (eq None) (pp_faults p).

Lemma pool_fault_quiet (p : Pool) : quiet p -> exists flts, pool_fault p = (None, with_faults flts p) /\ Forall (eq None) flts.
Proof.
  intros [_ Hf]. unfold pool_fault. destruct (pp_faults p) as [| d r] eqn:Hp.
  - exists []. split; [| done]. rewrite <- Hp. by destruct p.
  - inversion_clear Hf as [| ? ? <- Hr]. by exists r.
Qed.

Lemma flush_quiet (T : gset Z) (k : Z) (p : Pool) (f : nat) (m : PageMeta) :
  pool_ok T k p -> (k + 1) * pp_page_size p <= 2 ^ 63 -> quiet p -> pp_pages p !! f = Some m ->
  exists p', flush_frame_locked f p = (true, p') /\ quiet p'.
Proof.
  intros Hok Hb Hq Hf. pose proof (po_size _ _ _ Hok) as Hsz. pose proof (po_next _ _ _ Hok) as Hn.
  unfold flush_frame_locked. destruct (negb _ || negb _); [by eexists |].
  destruct Hq as [Hop Hfl]. rewrite Hop. cbn [negb]. unfold write_page_to_swap. rewrite Hop, (po_free _ _ _ Hok). cbn [negb last].
  destruct (pool_fault_quiet p (conj Hop Hfl)) as (flts & -> & Hfl').
  change (swap_off _ (with_faults flts p)) with (swap_off (pp_next_swap_slot p) p).
  destruct (swap_off_small p (pp_next_swap_slot p)) as [_ ->]; [done | lia | |].
  { transitivity ((k + 1) * pp_page_size p); [apply Z.mul_le_mono_nonneg_r; lia | done]. }
  change (transferred true None (frame_at f (with_faults flts p))) with (frame_at f p).
  change (pp_page_size (with_faults flts p)) with (pp_page_size p).
  rewrite (frame_len _ _ _ Hok f m Hf), Z.eqb_refl. cbn [negb]. eexists. split; [reflexivity |]. by split.
Qed.

Lemma read_quiet (T : gset Z) (k : Z) (p : Pool) (f : nat) (pid slot r d e : Z) ix :
  pool_ok T k p -> k * pp_page_size p <= 2 ^ 63 -> quiet p ->
  (read_page_from_swap f pid (take_frame f pid slot (with_counts r d e (with_index ix p)))).1 = true.
Proof.
  intros Hok Hb Hq. pose proof (po_size _ _ _ Hok) as Hsz. pose proof (po_next _ _ _ Hok) as Hn. unfold read_page_from_swap.
  cbn [pp_swapped with_counts with_index take_frame set_page with_pages].
  destruct (pp_swapped p !! pid) as [s |] eqn:Hs; [| done].
  destruct (po_slots _ _ _ Hok pid s Hs) as (Hop & Hs' & Hl).
  destruct (pool_fault_quiet (take_frame f pid slot (with_counts r d e (with_index ix p))) Hq) as (flts & -> & _).
  change (swap_off s (with_faults _ _)) with (swap_off s p).
  destruct (swap_off_small p s) as [Hoff Hv]; [done | lia | |].
  { transitivity (k * pp_page_size p); [apply Z.mul_le_mono_nonneg_r; lia | done]. }
  rewrite Hv, Hoff. cbn. rewrite Hop. cbn. pose proof (backing_len T k p pid Hok) as Hbl. unfold backing in Hbl.
  rewrite Hs in Hbl. unfold slice in Hbl. rewrite Hbl. apply Z.eqb_refl.
Qed.

(** Some frame within reach of the hand can be evicted. *)
Definition reachable_victim (passes : nat) (p : Pool) : Prop :=
  exists g m d, pp_pages p !! g = Some m /\ pm_in_use m = true /\ pm_pin_count m = 0 /\
    (d < pp_max p)%nat /\ Nat.modulo (pp_clock_hand p + d) (pp_max p) = g /\
    (d + (if pm_ref_bit m then pp_max p else 0) < passes)%nat.

Lemma hand_step (n h d : nat) : (0 < n)%nat -> (0 < d)%nat -> Nat.modulo (Nat.modulo (h + 1) n + (d - 1)) n = Nat.modulo (h + d) n.
Proof. intros Hn Hd. rewrite Nat.Div0.add_mod_idemp_l. f_equal. lia. Qed.

Lemma hand_here (n h d : nat) : (h < n)%nat -> (d < n)%nat -> Nat.modulo (h + d) n = h -> d = O.
Proof.
  intros Hh Hd Hm. destruct (decide (h + d < n)%nat) as [Hlt | Hge].
  - rewrite Nat.mod_small in Hm by lia. lia.
  - replace (h + d)%nat with ((h + d - n) + 1 * n)%nat in Hm by lia.
    rewrite Nat.Div0.mod_add, Nat.mod_small in Hm by lia. lia.
Qed.

(** A pass over a frame that is not evicted brings the victim nearer: [p'] is
    the pool with the hand moved on and the reference bit under it cleared, if
    that frame was a candidate. *)
Lemma victim_nearer (passes : nat) (p p' : Pool) (m : PageMeta) :
  reachable_victim (S passes) p -> (pp_clock_hand p < pp_max p)%nat -> pp_pages p !! pp_clock_hand p = Some m ->
  pp_clock_hand p' = Nat.modulo (pp_clock_hand p + 1) (pp_max p) ->
  pp_pages p' = <[pp_clock_hand p := if pm_in_use m && (pm_pin_count m =? 0) then set_pins (pm_pin_count m) false m else m]> (pp_pages p) ->
  (pm_in_use m = true -> pm_pin_count m = 0 -> pm_ref_bit m = true) ->
  reachable_victim passes p'.
Proof.
  intros (g & mg & d & Hg & Hu & Hp & Hd & Hm & Hlt) Hh Hf Hh' Hp' Href.
  assert (pp_max p' = pp_max p) as Hmax by (unfold pp_max; by rewrite Hp', length_insert).
  destruct (decide (g = pp_clock_hand p)) as [-> | Hne].
  - assert (mg = m) as -> by congruence. apply hand_here in Hm as ->; [| done | done]. rewrite (Href Hu Hp) in Hlt.
    exists (pp_clock_hand p), (set_pins (pm_pin_count m) false m), (pp_max p - 1)%nat. rewrite Hmax, Hh', Hp', Hu, Hp. cbn.
    split_and!; try done; try lia.
    + rewrite list_lookup_insert_eq by (by eapply lookup_lt_Some). done.
    + rewrite hand_step by lia. replace (pp_clock_hand p + pp_max p)%nat with (pp_clock_hand p + 1 * pp_max p)%nat by lia.
      rewrite Nat.Div0.mod_add. by apply Nat.mod_small.
  - assert (0 < d)%nat as Hd0.
    { destruct d; [| lia]. rewrite Nat.add_0_r, Nat.mod_small in Hm by done. congruence. }
    exists g, mg, (d - 1)%nat. rewrite Hmax, Hh', Hp', list_lookup_insert_ne by done. split_and!; try done; try lia.
    rewrite hand_step by lia. done.
Qed.

Lemma clock_progress (T : gset Z) (pid : Z) (passes : nat) : forall (k : Z) (p : Pool),
  pool_ok T k p -> (k + Z.of_nat passes) * pp_page_size p <= 2 ^ 63 -> quiet p -> reachable_victim passes p ->
  (clock_evict passes pid p).1 <> None.
Proof.
  induction passes as [| passes IH]; intros k p Hok Hb Hq Hv.
  { destruct Hv as (g & m & d & _ & _ & _ & _ & _ & Hlt). lia. }
  assert ((k + 1) * pp_page_size p <= 2 ^ 63) as Hb1.
  { etransitivity; [apply Z.mul_le_mono_nonneg_r | exact Hb]; [pose proof (po_size _ _ _ Hok) |]; lia. }
  assert ((k + Z.of_nat passes) * pp_page_size p <= 2 ^ 63) as Hb2.
  { etransitivity; [apply Z.mul_le_mono_nonneg_r | exact Hb]; [pose proof (po_size _ _ _ Hok) |]; lia. }
  pose proof (po_hand _ _ _ Hok) as Hh. destruct (lookup_lt_is_Some_2 _ _ Hh) as [m Hm].
  cbn [clock_evict]. rewrite (page_at_eq p _ m Hm). set (f := pp_clock_hand p) in *.
  set (p1 := with_hand (Nat.modulo (f + 1) (pp_max p)) p).
  assert (pool_ok T k p1) as Hok1.
  { apply with_hand_ok; [done |]. apply Nat.mod_upper_bound. unfold pp_max. lia. }
  destruct (negb (pm_in_use m) || negb (pm_pin_count m =? 0)) eqn:Hg.
  { apply (IH k p1); try done. apply (victim_nearer passes p p1 m); try done.
    - cbn. rewrite <- negb_andb in Hg. apply negb_true_iff in Hg. rewrite Hg. by rewrite list_insert_id.
    - intros Hu Hp. rewrite Hu, Hp in Hg. done. }
  apply orb_false_elim in Hg as [Hu%negb_false_iff Hp%negb_false_iff]. destruct (pm_ref_bit m) eqn:Href.
  { apply (IH k (set_page f (set_pins (pm_pin_count m) false m) p1)); try done.
    - apply (set_page_ok T T k p1 f m); try done; [cbn; lia | |].
      + intros Hd HT. by apply (po_clean _ _ _ Hok1 f).
      + apply Z.eqb_eq in Hp. intros HT. by destruct (untouched_absent T k p1 (pm_page_id m) Hok1); [rewrite (pin_of_page T k p1 Hok1 f) |].
    - apply (victim_nearer passes p _ m); try done. cbn. by rewrite Hu, Hp. }
  assert (exists q, (if pm_dirty m then flush_frame_locked f p1 else (true, p1)) = (true, q) /\ pool_ok T (k + 1) q /\ quiet q /\
    pp_page_size q = pp_page_size p) as (q & -> & Hokq & Hqq & Hszq).
  { destruct (pm_dirty m); [| exists p1; split_and!; try done; by apply (pool_ok_mono T k); [lia |]].
    destruct (flush_quiet T k p1 f m Hok1 Hb1 Hq Hm) as (q & Hfl & Hqq). exists q.
    destruct (flush_spec T k p1 q f m true Hok1 Hb1 Hm Hfl) as (? & Hk & _). split_and!; try done. by rewrite (kp_size _ _ Hk). }
  cbn [negb]. match goal with |- context [read_page_from_swap ?a ?b ?c] => destruct (read_page_from_swap a b c) as [ok p2] eqn:Hrd end.
  assert (ok = true) as ->.
  { change ok with (ok, p2).1. rewrite <- Hrd. apply (read_quiet T (k + 1)); try done. by rewrite Hszq. }
  done.
Qed.

(** With every frame in use and fewer pages held than there are frames, a frame
    is not pinned. *)
Lemma unpinned_frame (sz n j : Z) (c : Client) :
  client_ok sz n j c -> Forall (fun m => pm_in_use m = true) (pp_pages (cl_pool c)) ->
  (size (cl_held c) < length (pp_pages (cl_pool c)))%nat ->
  exists g m, pp_pages (cl_pool c) !! g = Some m /\ pm_in_use m = true /\ pm_pin_count m = 0.
Proof.
  intros Hc Hall Hlt. pose proof (co_pool _ _ _ _ Hc) as Hok. rewrite Forall_lookup in Hall.
  destruct (list_find (fun m => pm_pin_count m = 0) (pp_pages (cl_pool c))) as [[g m] |] eqn:Hfind.
  { apply list_find_Some in Hfind as (Hg & Hp & _). exists g, m. split_and!; [done | by apply (Hall g) | done]. }
  apply list_find_None in Hfind. rewrite Forall_lookup in Hfind. exfalso.
  assert (NoDup (pm_page_id <$> pp_pages (cl_pool c))) as Hnd.
  { apply NoDup_alt. intros i i' x (m & Hx & Hi)%list_lookup_fmap_Some (m' & Hx' & Hi')%list_lookup_fmap_Some.
    apply (same_frame _ _ _ Hok i i' m m'); [done | done | by apply (Hall i) | by apply (Hall i') | congruence]. }
  assert (list_to_set (pm_page_id <$> pp_pages (cl_pool c)) ⊆@{gset Z} dom (cl_held c)) as Hsub.
  { intros x. rewrite elem_of_list_to_set, list_elem_of_fmap. intros (m & -> & (i & Hi)%list_elem_of_lookup).
    apply elem_of_dom. pose proof (co_held _ _ _ _ Hc (pm_page_id m)) as Hh.
    destruct (cl_held c !! pm_page_id m) as [?|]; [by eexists |].
    rewrite (pin_of_page _ _ _ Hok i m Hi (Hall i m Hi)) in Hh. by destruct (Hfind i m Hi). }
  apply subseteq_size in Hsub. rewrite size_list_to_set, length_fmap, size_dom in Hsub by done. lia.
Qed.

Lemma victim_in_reach (p : Pool) (g : nat) (m : PageMeta) :
  (pp_clock_hand p < pp_max p)%nat -> pp_pages p !! g = Some m -> pm_in_use m = true -> pm_pin_count m = 0 ->
  reachable_victim (2 * pp_max p) p.
Proof.
  intros Hh Hg Hu Hp. pose proof (lookup_lt_Some _ _ _ Hg) as Hlt. change (length (pp_pages p)) with (pp_max p) in Hlt.
  set (d := Nat.modulo (g + pp_max p - pp_clock_hand p) (pp_max p)).
  assert (d < pp_max p)%nat as Hd by (apply Nat.mod_upper_bound; lia).
  exists g, m, d. split_and!; try done.
  - unfold d. rewrite Nat.Div0.add_mod_idemp_r.
    replace (pp_clock_hand p + (g + pp_max p - pp_clock_hand p))%nat with (g + 1 * pp_max p)%nat by lia.
    rewrite Nat.Div0.mod_add. by apply Nat.mod_small.
  - destruct (pm_ref_bit m); lia.
Qed.

(** Fetching makes progress: as long as the swap file works and the client holds fewer
    pages than there are frames, every page can be fetched, the two rounds of
    the clock being enough to find a victim. *)
Theorem pool_fetch_succeeds (page_size capacity profile : Z) (swap_open : bool) swap garbage faults (p : Pool) ops (c : Client) pid fw :
  is_u64 page_size -> is_u64 capacity ->
  palloc_page_pool_create page_size capacity profile swap_open swap garbage faults = Some p ->
  (forall i, zlen (garbage i) = pp_page_size p) ->
  (zlen ops + 1) * (2 * zlen (pp_pages p)) * pp_page_size p <= 2 ^ 63 -> zlen ops + 1 < 2 ^ 32 ->
  client_run ops (client_new p) = Some c -> quiet (cl_pool c) -> (size (cl_held c) < length (pp_pages p))%nat ->
  exists f is_new, (palloc_fetch_page pid fw (cl_pool c)).1 = Some (f, is_new).
Proof.
  intros Hps Hcap Hp Hg Hb Hops Hrun Hq Hsize.
  pose proof (created_run_ok _ _ _ _ _ _ _ _ _ _ Hps Hcap Hp Hg Hb Hops Hrun) as Hc.
  pose proof (co_pool _ _ _ _ Hc) as Hok. pose proof (co_max _ _ _ _ Hc) as Hmax. pose proof (zlen_nonneg (pp_pages p)) as Hn.
  set (k := zlen ops * (2 * zlen (pp_pages p))) in *.
  assert ((k + 2 * zlen (pp_pages p)) * pp_page_size (cl_pool c) <= 2 ^ 63) as Hb'.
  { rewrite (co_size _ _ _ _ Hc). unfold k. by replace (zlen ops * (2 * zlen (pp_pages p)) + 2 * zlen (pp_pages p))
      with ((zlen ops + 1) * (2 * zlen (pp_pages p))) by lia. }
  unfold palloc_fetch_page. destruct (pp_page_index (cl_pool c) !! pid) as [f |]; [by eexists _, _ |].
  assert ((allocate_frame_for_page pid (cl_pool c)).1 <> None) as Ha.
  { unfold allocate_frame_for_page. destruct (list_find _ _) as [[i m] |] eqn:Hfind.
    - cbn zeta. match goal with |- context [read_page_from_swap ?a ?b ?x] => destruct (read_page_from_swap a b x) as [ok p2] eqn:Hrd end.
      assert (ok = true) as ->; [| done]. change ok with (ok, p2).1. rewrite <- Hrd.
      apply (read_quiet _ k (cl_pool c) i pid kInvalidSwapSlot _ _ _ (pp_page_index (cl_pool c)) Hok); [| done].
      etransitivity; [apply Z.mul_le_mono_nonneg_r | exact Hb']; [pose proof (po_size _ _ _ Hok) |]; lia.
    - apply list_find_None in Hfind. destruct (unpinned_frame _ _ _ c Hc) as (g & m & Hgm & Hu & Hpin).
      + eapply Forall_impl; [exact Hfind |]. intros m. cbn. by destruct (pm_in_use m).
      + unfold zlen in Hmax. lia.
      + apply (clock_progress _ pid _ k _ Hok); [| done | by apply (victim_in_reach _ g m); [apply Hok | ..]].
        by replace (Z.of_nat (2 * pp_max (cl_pool c))) with (2 * zlen (pp_pages p)) by (rewrite <- Hmax; unfold pp_max, zlen; lia). }
  destruct (allocate_frame_for_page pid (cl_pool c)) as [[[f is_new] |] p1]; [| done]. by destruct fw; eexists _, _.
Qed.

(** ** A run with evictions and a short write *)

Definition demo_create : option Pool :=
  palloc_page_pool_create 4 8 0 true [] (fun _ => repeat Byte.x01 4) [Some (MkFault "ENOSPC" 2)].
Definition demo_pool : Pool := Eval vm_compute in default (MkPool 0 0 [] false [] [] [] ∅ ∅ [] 0 0 0 0 0 0) demo_create.

Definition demo_put (pid : Z) (b : Byte.byte) : list pool_op := [PFetch pid false; PWrite pid (repeat b 4); PUnpin pid true].
Definition demo_ops : list pool_op := demo_put 1 Byte.x0a ++ demo_put 2 Byte.x0b ++ demo_put 3 Byte.x0c ++ [PFetch 2 false].
Definition demo_client : Client := default (client_new demo_pool) (client_run demo_ops (client_new demo_pool)).

Lemma pool_is_a_memory_witness :
  pp_evictions (cl_pool demo_client) = 2 /\
  (forall pid f n, cl_held demo_client !! pid = Some (f, n) -> frame_at f (cl_pool demo_client) = mem_at demo_client pid) /\
  mem_at demo_client 2 = repeat Byte.x0b 4.
Proof.
  split; [vm_compute; reflexivity |]. split; [| vm_compute; reflexivity].
  apply (pool_is_a_memory 4 8 0 true [] (fun _ => repeat Byte.x01 4) [Some (MkFault "ENOSPC" 2)] demo_pool demo_ops demo_client).
  - unfold is_u64. lia.
  - unfold is_u64. lia.
  - vm_compute. reflexivity.
  - intros i. vm_compute. reflexivity.
  - vm_compute. discriminate.
  - vm_compute. reflexivity.
  - vm_compute. reflexivity.
Defined.

Lemma pool_counters_exact_witness :
  pp_resident_pages (cl_pool demo_client) = 2 /\
  pp_resident_pages (cl_pool demo_client) = count pm_in_use (pp_pages (cl_pool demo_client)).
Proof.
  split; [vm_compute; reflexivity |].
  apply (pool_counters_exact 4 8 0 true [] (fun _ => repeat Byte.x01 4) [Some (MkFault "ENOSPC" 2)] demo_pool demo_ops demo_client).
  - unfold is_u64. lia.
  - unfold is_u64. lia.
  - vm_compute. reflexivity.
  - intros i. vm_compute. reflexivity.
  - vm_compute. discriminate.
  - vm_compute. reflexivity.
  - vm_compute. reflexivity.
Defined.

Lemma pool_fetch_succeeds_witness : exists f is_new, (palloc_fetch_page 1 true (cl_pool demo_client)).1 = Some (f, is_new).
Proof.
  apply (pool_fetch_succeeds 4 8 0 true [] (fun _ => repeat Byte.x01 4) [Some (MkFault "ENOSPC" 2)] demo_pool demo_ops demo_client 1 true).
  - unfold is_u64. lia.
  - unfold is_u64. lia.
  - vm_compute. reflexivity.
  - intros i. vm_compute. reflexivity.
  - vm_compute. discriminate.
  - vm_compute. reflexivity.
  - vm_compute. reflexivity.
  - split; [vm_compute; reflexivity |]. assert (pp_faults (cl_pool demo_client) = []) as -> by (vm_compute; reflexivity). constructor.
  - apply Nat.ltb_lt. vm_compute. reflexivity.
Defined.

(** A fetch of a resident page ignores [for_write]: a page that is fetched for
    writing, written to and unpinned without a mark loses what was written when
    it is evicted, while the same calls on a page that was not resident keep it. *)
Definition unmarked_write (resident : bool) : bytes :=
  let p := if resident then palloc_unpin_page 1 false (palloc_fetch_page 1 false demo_pool).2 else demo_pool in
  let p := palloc_unpin_page 1 false (client_write 0 (repeat Byte.x0a 4) (palloc_fetch_page 1 true p).2) in
  let visit pid p := palloc_unpin_page pid false (palloc_fetch_page pid false p).2 in
  let p := visit 4 (visit 3 (visit 2 p)) in
  match palloc_fetch_page 1 false p with (Some (f, _), p) => frame_at f p | (None, _) => [] end.

Theorem pool_hit_ignores_for_write :
  unmarked_write false = repeat Byte.x0a 4 /\ unmarked_write true = repeat Byte.x00 4.
Proof. split; vm_compute; reflexivity. Qed.
