(* ===== verification/Kernel.v ===== *)
(** * The message kernel of the embedded database

    A fixed ring buffer (src/core/util/ring_buffer.h), the messages
    (src/core/kernel/message.h), the vector and graph pods
    (src/core/kernel/pods) and the kernel that queues messages and dispatches
    them to the pods within a budget of messages and time
    (src/core/kernel/micro_kernel.h).

    A message carries pointers to variables of the call that sent it.  The state
    therefore has the frames of the active calls; handling a message whose call
    has returned is undefined, the outer [None] of the operations below.  The
    query pod and its planner are not modelled, nor are exceptions and metrics. *)
From S2P Require Import Prelude FlatHash Env Types Wal Graph Text PosixFile Manifest MemTable Segment Layers Runtime SearchParts Search.

Open Scope Z_scope.

(** ** The ring buffer *)

Section ring.
Context {A : Type} (Capacity : Z).

(** src/core/util/ring_buffer.h:57-60 [StaticRingBuffer]. Slots that were never
    written are absent. *)
Record Ring : Type := MkRing { rb_data : gmap Z A; rb_head : Z; rb_tail : Z; rb_size : Z }.

(** src/core/util/ring_buffer.h:50-54 [StaticRingBuffer::clear]. The constructor
    sets the same indexes. *)
Definition rb_clear (r : Ring) : Ring := MkRing (rb_data r) 0 0 0.

(** src/core/util/ring_buffer.h:18-24 [StaticRingBuffer::push_back]. [None] when the buffer is full. *)
Definition rb_push_back (value : A) (r : Ring) : option Ring :=
  if rb_size r =? Capacity then None else
  Some (MkRing (<[rb_tail r := value]> (rb_data r)) (rb_head r) ((rb_tail r + 1) mod Capacity) (rb_size r + 1)).

(** src/core/util/ring_buffer.h:26-32 [StaticRingBuffer::pop_front]. *)
Definition rb_pop_front (r : Ring) : option (A * Ring) :=
  if rb_size r =? 0 then None else
  value ← rb_data r !! rb_head r;
  Some (value, MkRing (rb_data r) ((rb_head r + 1) mod Capacity) (rb_tail r) (rb_size r - 1)).
End ring.
Arguments Ring : clear implicits.

(** ** Messages *)

(** src/core/kernel/message.h:13-23 [PodId]. *)
Inductive PodId : Type := kKernel | kIngestion | kIndex | kQuery | kRag | kGraphPod | kTimeSeriesPod | kEviction | kCustom.
#[global] Instance PodId_eq_dec : EqDecision PodId.
Proof. solve_decision. Defined.

(** src/core/kernel/message.h:26-51 [Op]. *)
Inductive Op : Type :=
  | Op_kPut | Op_kGet | Op_kSearch | Op_kDelete | Op_kFlush | Op_kFreeze | Op_kSync | Op_kSearchMultiModal | Op_kExists | Op_kGetSnapshot
  | Op_kNewIterator | Op_kSearchLexical | Op_kPutBatch | Op_kPutWithMeta | Op_kGetWithMeta
  | Op_kAddVertex | Op_kAddEdge | Op_kGetNeighbors | Op_kGetNeighborsWithType | Op_kDeleteVertex | Op_kDeleteEdge.

Section kernel.
Context {T : Type} `{IdMap T (option bytes)} `{F32} `{AesGcm} `{Sidecars} `{Kernels} `{HitSort}.
Context (quant_decode : SegmentReader -> bytes -> vec).
Context (Hash : Z -> Z) (beyond_radius : Filter -> Metadata -> bool) (metric : MetricType) (ip : IndexParams).

(** The structures that the engine passes as payload. *)
Inductive Payload : Type :=
  | PNone
  | PId (id : Z)
  | PPut (id : Z) (v : vec)
  | PPutMeta (id : Z) (v : vec) (meta : Metadata)
  | PGetMeta (id : Z)
  | PSearch (topk : Z) (query : vec) (opts : SearchOptions)
  | PBatch (ids : list Z) (vectors : list vec)
  | PSnapshot (snap : option (VectorSnapshot T))
  | PVertex (id tag : Z)
  | PEdge (src dst type rank : Z)
  | PEdgeKey (src dst type : Z)
  | PTyped (src type : Z).

(** [payload.size()]: the size of the structure. *)
Definition payload_size (p : Payload) : Z :=
  match p with
  | PNone => 0
  | PId _ | PSnapshot _ => 8
  | PPut _ v => 8 + 4 * zlen v
  | PPutMeta _ _ _ | PSearch _ _ _ => 32
  | PGetMeta _ | PEdge _ _ _ _ | PEdgeKey _ _ _ => 24
  | PBatch _ _ | PVertex _ _ | PTyped _ _ => 16
  end.

(** What [result_ptr] points to: nothing, the status of the call, or another
    variable of the call. *)
Inductive ResultPtr : Type := RNull | RStatus | ROut.

(** src/core/kernel/message.h:92-120 [Message]. [msg_call] is the call whose variables the
    pointers of the message name; the fields that are never set are left out. *)
Record Message : Type := MkMsg {
  msg_target : PodId;
  msg_opcode : Op;
  msg_payload : Payload;
  msg_result : ResultPtr;
  msg_call : nat
}.

(** The output variable of a call. *)
Inductive Out : Type :=
  | ONone
  | OBool (b : bool)
  | OVec (v : vec) (meta : Metadata)
  | OHits (hits : list SearchHit)
  | ONeighbors (l : list Neighbor)
  | OSnapshot (snap : option (VectorSnapshot T))
  | OIterator (it : option (VectorIterator T)).

(** The variables of a call: its status, [inl] when it is an error, and its output. *)
Record Frame : Type := MkFrame { fr_status : Status + unit; fr_out : Out }.

(** [SetStatus] *)
Definition set_status (st : Status + unit) (f : Frame) : Frame := MkFrame st (fr_out f).
Definition set_out (o : Out) (f : Frame) : Frame := MkFrame (fr_status f) o.

(** Run a member function and store its status. *)
Definition stored {S} (m : M S unit) (s : S) (f : Frame) : Frame * S :=
  let '(r, s') := m s in (set_status r f, s').

(** What the clocks show while a message is handled. *)
Record Times : Type := MkTimes {
  t_now_us : Z;
  t_now_sec : Z;
  t_search : nat -> Z;
  t_rounds : nat;
  t_freeze : nat -> Z * Z
}.

(** ** Pods *)

(** src/core/kernel/pods/vector_pod.cc:18-204 [VectorPod::Handle]. [kSync] and
    [kSearchLexical] are not modelled. *)
Definition vp_Handle (t : Times) (msg : Message) (f : Frame) (r : VectorRuntime T) : option (Frame * VectorRuntime T) :=
  let p := msg_payload msg in
  let bad m := Some (set_status (inl (InvalidArgument m)) f, r) in
  match msg_opcode msg with
  | Op_kPut =>
      if payload_size p <? 8 then bad "vector put payload too small" else
      match p with
      | PPut id v => if bool_decide (v = []) then bad "vector put empty payload"
                     else Some (stored (rt_Put (t_now_us t) id v md_default) r f)
      | _ => None
      end
  | Op_kPutWithMeta =>
      if negb (payload_size p =? 32) then bad "vector put-meta invalid payload" else
      match p with
      | PPutMeta id v meta => if bool_decide (v = []) then bad "vector put-meta invalid payload"
                              else Some (stored (rt_Put (t_now_us t) id v meta) r f)
      | _ => None
      end
  | Op_kSearch =>
      if negb (payload_size p =? 32) then bad "vector search invalid payload" else
      match p with
      | PSearch topk query opts =>
          if bool_decide (query = []) then bad "vector search invalid payload" else
          st ← rt_Search Hash beyond_radius metric ip (t_search t) query topk opts r;
          Some (match st with
                | inr hits => set_status (inr tt) (set_out (OHits hits) f)
                | inl e => set_status (inl e) f
                end, r)
      | _ => None
      end
  | Op_kGet =>
      if payload_size p <? 8 then bad "vector get payload too small" else
      match p, msg_result msg with
      | PId id, ROut =>
          st ← rt_Get quant_decode (t_now_sec t) id r;
          Some (match st with inr (v, _) => set_out (OVec v md_default) f | inl _ => f end, r)
      | PId _, RNull => Some (f, r)
      | _, _ => None
      end
  | Op_kGetWithMeta =>
      if negb (payload_size p =? 24) then bad "vector get-meta invalid payload" else
      match p with
      | PGetMeta id =>
          st ← rt_Get quant_decode (t_now_sec t) id r;
          Some (match st with
                | inr (v, meta) => set_status (inr tt) (set_out (OVec v meta) f)
                | inl e => set_status (inl e) f
                end, r)
      | _ => None
      end
  | Op_kDelete =>
      if payload_size p <? 8 then bad "vector delete payload too small" else
      match p with PId id => Some (stored (rt_Delete id) r f) | _ => None end
  | Op_kFlush => Some (stored rt_Flush r f)
  | Op_kFreeze => Some (stored (rt_Freeze (t_rounds t) (t_freeze t)) r f)
  | Op_kExists =>
      if payload_size p <? 8 then bad "vector exists payload too small" else
      match p, msg_result msg with
      | PId id, ROut =>
          st ← rt_Exists quant_decode (t_now_sec t) id r;
          Some (match st with inr b => set_out (OBool b) f | inl _ => f end, r)
      | PId _, RNull => Some (f, r)
      | _, _ => None
      end
  | Op_kPutBatch =>
      if negb (payload_size p =? 16) then bad "vector put-batch invalid payload" else
      match p with PBatch ids vectors => Some (stored (rt_PutBatch ids vectors) r f) | _ => None end
  | Op_kGetSnapshot =>
      match msg_result msg with
      | ROut => Some (set_out (OSnapshot (rt_snapshot r)) f, r)
      | _ => Some (f, r)
      end
  | Op_kNewIterator =>
      if payload_size p <? 8 then bad "vector new-iterator payload too small" else
      match p, msg_result msg with
      | PSnapshot (Some snap), ROut =>
          it ← it_new quant_decode snap (rc_ttl_sec (rt_conf r)) (t_now_sec t);
          Some (set_out (OIterator (Some it)) f, r)
      | PSnapshot _, RNull => Some (f, r)
      | _, _ => None
      end
  | Op_kSync | Op_kSearchLexical => None
  | _ => bad "vector pod unsupported opcode"
  end.

(** src/core/kernel/pods/graph_pod.cc:24-95 [GraphPod::Handle]. *)
Definition gp_Handle (msg : Message) (f : Frame) (g : GraphMembraneImpl) : option (Frame * GraphMembraneImpl) :=
  let p := msg_payload msg in
  let bad m := Some (set_status (inl (InvalidArgument m)) f, g) in
  match msg_opcode msg with
  | Op_kAddVertex =>
      if payload_size p <? 16 then bad "graph add-vertex payload too small" else
      match p with PVertex id tag => Some (stored (AddVertex id tag md_default) g f) | _ => None end
  | Op_kAddEdge =>
      if payload_size p <? 24 then bad "graph add-edge payload too small" else
      match p with PEdge src dst type rank => Some (stored (AddEdge src dst type rank md_default) g f) | _ => None end
  | Op_kGetNeighbors =>
      if payload_size p <? 8 then bad "graph get-neighbors payload too small" else
      match p, msg_result msg, fr_out f with
      | PId src, ROut, ONeighbors out => Some (set_out (ONeighbors (GetNeighbors src out g.2)) f, g)
      | PId _, RNull, _ => Some (f, g)
      | _, _, _ => None
      end
  | Op_kGetNeighborsWithType =>
      if payload_size p <? 16 then bad "graph get-neighbors-type payload too small" else
      match p, msg_result msg, fr_out f with
      | PTyped src type, ROut, ONeighbors out => Some (set_out (ONeighbors (GetNeighbors_typed src type out g.2)) f, g)
      | PTyped _ _, RNull, _ => Some (f, g)
      | _, _, _ => None
      end
  | Op_kDeleteVertex =>
      if payload_size p <? 8 then bad "graph delete-vertex payload too small" else
      match p with PId id => Some (stored (DeleteVertex id) g f) | _ => None end
  | Op_kDeleteEdge =>
      if payload_size p <? 24 then bad "graph delete-edge payload too small" else
      match p with PEdgeKey src dst type => Some (stored (DeleteEdge src dst type) g f) | _ => None end
  | _ => bad "graph pod unsupported opcode"
  end.

(** ** The kernel *)

Definition kQueueCapacity : Z := 1024.

(** src/core/kernel/micro_kernel.h:137-138 [MicroKernel]. With the frames of the active calls, the
    number of calls so far, the number of readings of the steady clock and the
    number of handled messages. *)
Record MicroKernel : Type := MkKernel {
  k_index : option (VectorRuntime T);
  k_graph : option GraphMembraneImpl;
  k_queue : Ring Message;
  k_frames : gmap nat Frame;
  k_calls : nat;
  k_readings : nat;
  k_handled : nat
}.

Definition k_pods (i : option (VectorRuntime T)) (g : option GraphMembraneImpl) (k : MicroKernel) : MicroKernel :=
  MkKernel i g (k_queue k) (k_frames k) (k_calls k) (k_readings k) (k_handled k).
Definition k_set_queue (q : Ring Message) (k : MicroKernel) : MicroKernel :=
  MkKernel (k_index k) (k_graph k) q (k_frames k) (k_calls k) (k_readings k) (k_handled k).
Definition k_set_frames (fs : gmap nat Frame) (calls : nat) (k : MicroKernel) : MicroKernel :=
  MkKernel (k_index k) (k_graph k) (k_queue k) fs calls (k_readings k) (k_handled k).
Definition k_count (readings handled : nat) (k : MicroKernel) : MicroKernel :=
  MkKernel (k_index k) (k_graph k) (k_queue k) (k_frames k) (k_calls k) (k_readings k + readings) (k_handled k + handled).

Definition k_new : MicroKernel := MkKernel None None (MkRing ∅ 0 0 0) ∅ 0 0 0.

(** src/core/kernel/micro_kernel.h:32-40 [MicroKernel::RegisterPod]. The vector pod; its [OnStart]
    drops the status of [Start]. *)
Definition RegisterVectorPod (r : VectorRuntime T) (k : MicroKernel) : MicroKernel :=
  match k_index k with
  | Some _ => k
  | None => k_pods (Some (rt_Start r).2) (k_graph k) k
  end.

(** src/core/kernel/pods/graph_pod.h:25-25 [GraphPod::OnStart]. The graph pod registers in the
    same way; the status of [WarmUp] is dropped. *)
Definition RegisterGraphPod (g : GraphMembraneImpl) (k : MicroKernel) : MicroKernel :=
  match k_graph k with
  | Some _ => k
  | None => k_pods (k_index k) (Some (WarmUp g).2) k
  end.

(** src/core/kernel/micro_kernel.h:52-61 [MicroKernel::Enqueue]. When the queue is full a status is
    written through [result_ptr] whatever that points to. *)
Definition Enqueue (msg : Message) (k : MicroKernel) : option MicroKernel :=
  match rb_push_back kQueueCapacity msg (k_queue k) with
  | Some q => Some (k_set_queue q k)
  | None =>
      match msg_result msg with
      | RNull => Some k
      | RStatus =>
          f ← k_frames k !! msg_call msg;
          Some (k_set_frames (<[msg_call msg := set_status (inl (ResourceExhausted "Kernel message queue overflow")) f]> (k_frames k)) (k_calls k) k)
      | ROut => None
      end
  end.

Context (times : nat -> Times) (steady : nat -> Z).

(** src/core/kernel/micro_kernel.h:71-92 [MicroKernel::DispatchOne]. The message that was popped; every
    opcode of the model is known. *)
Definition dispatch (msg : Message) (k : MicroKernel) : option MicroKernel :=
  f ← k_frames k !! msg_call msg;
  let t := times (k_handled k) in
  let finish f' k := k_count 0 1 (k_set_frames (<[msg_call msg := f']> (k_frames k)) (k_calls k) k) in
  match msg_target msg, k_index k, k_graph k with
  | kIndex, Some r, _ => '(f', r') ← vp_Handle t msg f r; Some (finish f' (k_pods (Some r') (k_graph k) k))
  | kGraphPod, _, Some g => '(f', g') ← gp_Handle msg f g; Some (finish f' (k_pods (k_index k) (Some g') k))
  | kQuery, _, _ => None
  | _, _, _ => Some (finish (set_status (inl (NotFound "kernel target pod not found")) f) k)
  end.

(** src/core/kernel/micro_kernel.h:64-95 [MicroKernel::DispatchOne]. *)
Definition DispatchOne (k : MicroKernel) : option (bool * MicroKernel) :=
  match rb_pop_front kQueueCapacity (k_queue k) with
  | None => Some (false, k)
  | Some (msg, q) => k ← dispatch msg (k_set_queue q k); Some (true, k)
  end.

(** src/core/kernel/micro_kernel.h:109-113 [MicroKernel::ProcessBudget]. The loop; it has at most
    [max_msgs] rounds. *)
Fixpoint budget_loop (rounds : nat) (deadline : Z) (processed : Z) (k : MicroKernel) : option (Z * MicroKernel) :=
  match rounds with
  | O => Some (processed, k)
  | S rounds =>
      let now := steady (k_readings k) in
      let k := k_count 1 0 k in
      if deadline <=? now then Some (processed, k) else
      '(more, k) ← DispatchOne k;
      if (more : bool) then budget_loop rounds deadline (processed + 1) k else Some (processed, k)
  end.

(** src/core/kernel/micro_kernel.h:103-115 [MicroKernel::ProcessBudget]. The clock is in nanoseconds. *)
Definition ProcessBudget (max_msgs max_ms : Z) (k : MicroKernel) : option (Z * MicroKernel) :=
  let max_msgs := if max_msgs =? 0 then 1 else max_msgs in
  let max_ms := if max_ms =? 0 then 1 else max_ms in
  let start := steady (k_readings k) in
  budget_loop (Z.to_nat max_msgs) (start + max_ms * 1000000) 0 (k_count 1 0 k).

(** src/core/kernel/micro_kernel.h:118-124 [MicroKernel::Stop]. The graph pod flushes its log. The
    first component is what the logs and segments leave on the disk. *)
Definition k_Stop (k : MicroKernel) : (option fs * option fs) * MicroKernel :=
  ((w_env ∘ rt_wal <$> k_index k, (fun g => w_env (on_graph_wal wal_Flush g).2.1) <$> k_graph k),
   k_set_queue (rb_clear (k_queue k)) (k_pods None None k)).
End kernel.
