(* ===== verification/Database.v ===== *)
(** * The embedded database (src/database.cc)

    [StorageEngine] sends every operation as a message to the kernel and runs
    the kernel for a bounded time; [Database] adds the open state, the back
    pressure on the memtable and periodic maintenance
    (src/core/concurrency/scheduler.cc).  The disk is two directories, one for
    the vectors and one for the graph.

    The multi-modal queries, the lexical search and the sync receivers are not
    modelled; the only hook is [AutoEdgeHook] (src/core/hooks/auto_edge_hook.h). *)
From S2P Require Import Prelude FlatHash Env Types Wal Graph Text PosixFile Manifest MemTable Segment Layers Runtime SearchParts Search Kernel.

Open Scope Z_scope.

(** ** Computations that may be undefined *)

(** A member function that returns a status; the outer [None] is undefined
    behaviour. *)
Definition U (S A : Type) : Type := S -> option ((Status + A) * S).

#[global] Instance U_ret S : MRet (U S) := fun _ a s => Some (inr a, s).
#[global] Instance U_bind S : MBind (U S) := fun _ _ k m s =>
  match m s with
  | None => None
  | Some (inl e, s') => Some (inl e, s')
  | Some (inr a, s') => k a s'
  end.

Definition ufail {S A} (e : Status) : U S A := fun s => Some (inl e, s).
Definition uguard {S} (b : bool) (e : Status) : U S unit := if b then mret tt else ufail e.
Definition uget {S} : U S S := fun s => Some (inr s, s).
Definition umodify {S} (f : S -> S) : U S unit := fun s => Some (inr tt, f s).
(** [(void)m();] and [auto st = m();] *)
Definition utry {S A} (m : U S A) : U S (Status + A) := fun s =>
  match m s with
  | None => None
  | Some (r, s') => Some (inr r, s')
  end.
(** A value that undefined behaviour may leave out. *)
Definition udefined {S A} (o : option A) : U S A := fun s => match o with Some a => Some (inr a, s) | None => None end.
Definition uof_sum {S A} (r : Status + A) : U S A := fun s => Some (r, s).

Lemma ubind_ok {S A B} (m : U S A) (k : A -> U S B) s a s' : m s = Some (inr a, s') -> (m ≫= k) s = k a s'.
Proof. unfold mbind, U_bind. by intros ->. Qed.
Lemma ubind_err {S A B} (m : U S A) (k : A -> U S B) s e s' : m s = Some (inl e, s') -> (m ≫= k) s = Some (inl e, s').
Proof. unfold mbind, U_bind. by intros ->. Qed.
Lemma ubind_get {S B} (k : S -> U S B) s : (uget ≫= k) s = k s s.
Proof. done. Qed.
Lemma ubind_guard {S B} b e (k : unit -> U S B) s : b = true -> (uguard b e ≫= k) s = k tt s.
Proof. by intros ->. Qed.
Lemma ubind_try {S A B} (m : U S A) (k : Status + A -> U S B) s r s' : m s = Some (r, s') -> (utry m ≫= k) s = k r s'.
Proof. unfold mbind, U_bind, utry. by intros ->. Qed.

(** ** Options and state *)

(** include/pomai/database.h:36-73 [EmbeddedOptions]. The fields the embedded engine reads. *)
Record EmbeddedOptions : Type := MkEmbedded {
  eo_path : path;
  eo_dim : Z;
  eo_metric : MetricType;
  eo_fsync : FsyncPolicy;
  eo_index_params : IndexParams;
  eo_max_memtable_mb : Z;
  eo_pressure_threshold_percent : Z;
  eo_auto_freeze_on_pressure : bool;
  eo_enable_auto_edge : bool;
  eo_enable_encryption_at_rest : bool;
  eo_encryption_key_hex : bytes
}.

(** The files below the directories of the vectors and of the graph. *)
Record Disk : Type := MkDisk { dk_vectors : fs; dk_graph : fs }.

Definition kKernelHotPathMaxMsgs : Z := 8.
Definition kKernelHotPathMaxMs : Z := 2.

Section engine.
Context {T : Type} `{IdMap T (option bytes)} `{F32} `{AesGcm} `{Sidecars} `{Kernels} `{HitSort}.
Context (quant_decode : SegmentReader -> bytes -> vec).
Context (Hash : Z -> Z) (beyond_radius : Filter -> Metadata -> bool) (metric : MetricType) (ip : IndexParams).
Context (times : nat -> Times) (steady : nat -> Z).

(** src/core/hooks/auto_edge_hook.h:12-26 [AutoEdgeHook]. *)
Inductive PostPutHook : Type := AutoEdgeHook.

(** src/core/storage/internal_engine.h:69-71 [StorageEngine]. *)
Record StorageEngine : Type := MkEngine { en_kernel : MicroKernel (T := T); en_hooks : list PostPutHook }.

Definition with_kernel (k : MicroKernel) (e : StorageEngine) : StorageEngine := MkEngine k (en_hooks e).

(** What the disk holds while the engine runs. *)
Definition en_disk (k : MicroKernel (T := T)) (d : Disk) : Disk :=
  MkDisk (default (dk_vectors d) (w_env ∘ rt_wal <$> k_index k)) (default (dk_graph d) ((fun g => w_env g.1) <$> k_graph k)).

(** src/database.cc:32-63 [StorageEngine::Open]. The log of the vectors is opened but not
    replayed. *)
Definition en_Open (options : EmbeddedOptions) (d : Disk) : (Status + StorageEngine) * Disk :=
  let v_path := eo_path options +:+ "/vectors" in
  let '(st, wal) := wal_Open (wal_new (dk_vectors d) v_path 0 (1024 * 1024 * 1024) (eo_fsync options)
                      (eo_enable_encryption_at_rest options) (eo_encryption_key_hex options)) in
  match st with
  | inl e => (inl e, MkDisk (w_env wal) (dk_graph d))
  | inr _ =>
      let mem := mt_new (eo_dim options) (128 * 1024 * 1024) false in
      let k := RegisterVectorPod (rt_new (MkRtConf v_path (eo_dim options) kVector false 0 0 256) wal mem) k_new in
      let g_path := eo_path options +:+ "/graph" in
      let '(st, g_wal) := wal_Open (wal_new (dk_graph d) g_path 1 (1024 * 1024 * 1024) (eo_fsync options)
                            (eo_enable_encryption_at_rest options) (eo_encryption_key_hex options)) in
      match st with
      | inl e => (inl e, MkDisk (dk_vectors (en_disk k d)) (w_env g_wal))
      | inr _ =>
          let k := RegisterGraphPod (g_wal, MkGraph ∅ 0) k in
          (inr (MkEngine k []), en_disk k d)
      end
  end.

(** src/database.cc:82-84 [StorageEngine::Close]. The disk it leaves. *)
Definition en_Close (e : StorageEngine) (d : Disk) : Disk :=
  let '((v, g), _) := k_Stop (en_kernel e) in MkDisk (default (dk_vectors d) v) (default (dk_graph d) g).

(** The result of a call from its variables. *)
Definition result_of (f : Frame (T := T)) : Status + Out :=
  match fr_status f with inr _ => inr (fr_out f) | inl st => inl st end.

(** src/database.cc:106-120 [StorageEngine::Append]. One call: its variables, the message, a bounded
    run of the kernel, and the status; every operation of the engine has this
    shape. *)
Definition call (target : PodId) (opcode : Op) (payload : Payload (T := T)) (result : ResultPtr) (out : Out (T := T)) : U StorageEngine Out := fun e =>
  let k := en_kernel e in
  let n := k_calls k in
  let k := k_set_frames (<[n := MkFrame (inr tt) out]> (k_frames k)) (S n) k in
  k ← Enqueue (MkMsg target opcode payload result n) k;
  '(_, k) ← ProcessBudget quant_decode Hash beyond_radius metric ip times steady kKernelHotPathMaxMsgs kKernelHotPathMaxMs k;
  f ← k_frames k !! n;
  let e := with_kernel (k_set_frames (delete n (k_frames k)) (k_calls k) k) e in
  Some (result_of f, e).

(** Calls whose only result is the status. *)
Definition call_ (target : PodId) (opcode : Op) (payload : Payload) (result : ResultPtr) : U StorageEngine unit :=
  call target opcode payload result ONone ;; mret tt.

(** src/database.cc:86-94 [StorageEngine::Flush]. *)
Definition en_Flush : U StorageEngine unit := call_ kIndex Op_kFlush PNone RStatus.

(** src/database.cc:96-104 [StorageEngine::Freeze]. *)
Definition en_Freeze : U StorageEngine unit := call_ kIndex Op_kFreeze PNone RStatus.

(** src/database.cc:252-263 [StorageEngine::AddEdge]. The metadata is not sent. *)
Definition en_AddEdge (src dst type rank : Z) (meta : Metadata) : U StorageEngine unit :=
  call_ kGraphPod Op_kAddEdge (PEdge src dst type rank) RStatus.

(** src/core/hooks/auto_edge_hook.h:16-22 [AutoEdgeHook::OnPostPut]. *)
Definition OnPostPut (h : PostPutHook) (id : Z) (meta : Metadata) : U StorageEngine unit :=
  match h with
  | AutoEdgeHook =>
      if md_src_vid meta =? 0 then mret tt else utry (en_AddEdge id (md_src_vid meta) 1 0 meta) ;; mret tt
  end.

Fixpoint run_hooks (hooks : list PostPutHook) (id : Z) (meta : Metadata) : U StorageEngine unit :=
  match hooks with
  | [] => mret tt
  | h :: hooks => OnPostPut h id meta ;; run_hooks hooks id meta
  end.

(** src/database.cc:106-130 [StorageEngine::Append]. *)
Definition en_Append (id : Z) (v : vec) (meta : Metadata) : U StorageEngine unit :=
  call_ kIndex Op_kPutWithMeta (PPutMeta id v meta) RStatus ;;
  e ← uget;
  run_hooks (en_hooks e) id meta.

(** src/database.cc:132-152 [StorageEngine::AppendBatch]. The hooks see default metadata; reading
    [vectors[i]] of a shorter list is excluded by the check of the runtime. *)
Definition en_AppendBatch (ids : list Z) (vectors : list vec) : U StorageEngine unit :=
  call_ kIndex Op_kPutBatch (PBatch ids vectors) RStatus ;;
  e ← uget;
  foldr (fun id k => run_hooks (en_hooks e) id md_default ;; k) (mret tt) ids.

Definition out_vec (o : Out (T := T)) : option (vec * Metadata) := match o with OVec v m => Some (v, m) | _ => None end.

(** src/database.cc:154-169 [StorageEngine::Get]. *)
Definition en_Get (id : Z) (out : vec) (meta : Metadata) : U StorageEngine (vec * Metadata) :=
  o ← call kIndex Op_kGetWithMeta (PGetMeta id) RStatus (OVec out meta);
  udefined (out_vec o).

(** src/database.cc:171-180 [StorageEngine::Exists]. *)
Definition en_Exists (id : Z) (exists_ : bool) : U StorageEngine bool :=
  o ← call kIndex Op_kExists (PId id) ROut (OBool exists_);
  udefined (match o with OBool b => Some b | _ => None end).

(** src/database.cc:182-191 [StorageEngine::Delete]. *)
Definition en_Delete (id : Z) : U StorageEngine unit := call_ kIndex Op_kDelete (PId id) RStatus.

(** src/database.cc:193-214 [StorageEngine::Search]. *)
Definition en_Search (query : vec) (topk : Z) (opts : SearchOptions) (out : list SearchHit) : U StorageEngine (list SearchHit) :=
  o ← call kIndex Op_kSearch (PSearch topk query opts) ROut (OHits out);
  udefined (match o with OHits l => Some l | _ => None end).

(** src/database.cc:239-250 [StorageEngine::AddVertex]. *)
Definition en_AddVertex (id tag : Z) (meta : Metadata) : U StorageEngine unit :=
  call_ kGraphPod Op_kAddVertex (PVertex id tag) RStatus.

(** src/database.cc:265-274 [StorageEngine::DeleteVertex]. *)
Definition en_DeleteVertex (id : Z) : U StorageEngine unit := call_ kGraphPod Op_kDeleteVertex (PId id) RNull.

(** src/database.cc:276-286 [StorageEngine::DeleteEdge]. *)
Definition en_DeleteEdge (src dst type : Z) : U StorageEngine unit := call_ kGraphPod Op_kDeleteEdge (PEdgeKey src dst type) RNull.

(** src/database.cc:303-312 [StorageEngine::GetNeighbors]. *)
Definition en_GetNeighbors (src : Z) (out : list Neighbor) : U StorageEngine (list Neighbor) :=
  o ← call kGraphPod Op_kGetNeighbors (PId src) ROut (ONeighbors out);
  udefined (match o with ONeighbors l => Some l | _ => None end).

(** src/database.cc:314-324 [StorageEngine::GetNeighbors]. *)
Definition en_GetNeighbors_typed (src type : Z) (out : list Neighbor) : U StorageEngine (list Neighbor) :=
  o ← call kGraphPod Op_kGetNeighborsWithType (PTyped src type) ROut (ONeighbors out);
  udefined (match o with ONeighbors l => Some l | _ => None end).

(** src/database.cc:326-334 [StorageEngine::GetSnapshot]. *)
Definition en_GetSnapshot : U StorageEngine (option (VectorSnapshot T)) :=
  o ← call kIndex Op_kGetSnapshot PNone ROut (OSnapshot None);
  udefined (match o with OSnapshot s => Some s | _ => None end).

(** src/database.cc:336-346 [StorageEngine::NewIterator]. *)
Definition en_NewIterator (snap : option (VectorSnapshot T)) : U StorageEngine (option (VectorIterator T)) :=
  o ← call kIndex Op_kNewIterator (PSnapshot snap) ROut (OIterator None);
  udefined (match o with OIterator it => Some it | _ => None end).

(** src/database.cc:358-361 [StorageEngine::GetMemTableBytesUsed]. *)
Definition en_GetMemTableBytesUsed (e : StorageEngine) : Z :=
  match k_index (en_kernel e) with Some r => mt_BytesUsed (rt_mem r) | None => 0 end.

(** ** The database *)

(** src/core/concurrency/scheduler.h:54-58 [TaskScheduler::ScheduledTask]. The task is the maintenance of
    the database; times are in nanoseconds. *)
Record ScheduledTask : Type := MkTask { sc_interval : Z; sc_next_run : Z }.

(** include/pomai/database.h:216-229 [Database]. [db_disk] is the disk while no engine runs. *)
Record Database : Type := MkDb {
  db_engine : option StorageEngine;
  db_disk : Disk;
  db_opened : bool;
  db_pressure_threshold_bytes : Z;
  db_auto_freeze_on_pressure : bool;
  db_tasks : list ScheduledTask
}.

Definition with_engine (e : option StorageEngine) (db : Database) : Database :=
  MkDb e (db_disk db) (db_opened db) (db_pressure_threshold_bytes db) (db_auto_freeze_on_pressure db) (db_tasks db).
Definition with_tasks (l : list ScheduledTask) (db : Database) : Database :=
  MkDb (db_engine db) (db_disk db) (db_opened db) (db_pressure_threshold_bytes db) (db_auto_freeze_on_pressure db) l.

(** [storage_engine_->op()] *)
Definition on_engine {A} (m : U StorageEngine A) : U Database A := fun db =>
  e ← db_engine db;
  '(r, e) ← m e;
  Some (r, with_engine (Some e) db).

(** [std::chrono::steady_clock::now()] *)
Definition read_clock : U StorageEngine Z := fun e =>
  Some (inr (steady (k_readings (en_kernel e))), with_kernel (k_count 1 0 (en_kernel e)) e).

(** src/core/concurrency/scheduler.cc:9-15 [TaskScheduler::RegisterPeriodic]. *)
Definition RegisterPeriodic (interval : Z) : U Database unit :=
  now ← on_engine read_clock;
  umodify (fun db => with_tasks (db_tasks db ++ [MkTask interval now]) db).

(** src/database.cc:396-425 [Database::Open]. *)
Definition db_Open (options : EmbeddedOptions) : U Database unit :=
  db ← uget;
  uguard (negb (db_opened db)) (InvalidArgument "already open") ;;
  uguard (negb (eo_dim options =? 0)) (InvalidArgument "dimension must be greater than 0") ;;
  uguard (negb (bool_decide (eo_path options = ""))) (InvalidArgument "path cannot be empty") ;;
  let max_mb := if eo_max_memtable_mb options =? 0 then 128 else eo_max_memtable_mb options in
  let pct := if eo_pressure_threshold_percent options =? 0 then 80 else eo_pressure_threshold_percent options in
  let threshold := max_mb * 1024 * 1024 * pct / 100 in
  let '(st, disk) := en_Open options (db_disk db) in
  umodify (fun db => MkDb None disk false threshold (eo_auto_freeze_on_pressure options) (db_tasks db)) ;;
  e ← uof_sum st;
  umodify (fun db => MkDb (Some e) disk true threshold (eo_auto_freeze_on_pressure options) (db_tasks db)) ;;
  RegisterPeriodic 5000000000 ;;
  if eo_enable_auto_edge options
  then umodify (fun db => with_engine ((fun e => MkEngine (en_kernel e) (en_hooks e ++ [AutoEdgeHook])) <$> db_engine db) db)
  else mret tt.

(** src/database.cc:427-433 [Database::Close]. The scheduler keeps its tasks. *)
Definition db_Close : U Database unit := fun db =>
  if negb (db_opened db) then Some (inr tt, db) else
  e ← db_engine db;
  Some (inr tt, MkDb None (en_Close e (db_disk db)) false (db_pressure_threshold_bytes db) (db_auto_freeze_on_pressure db) (db_tasks db)).

(** [opened_ ? storage_engine_->op() : Status::InvalidArgument("closed")] *)
Definition if_open {A} (m : U StorageEngine A) : U Database A :=
  db ← uget;
  uguard (db_opened db) (InvalidArgument "closed") ;;
  on_engine m.

(** src/database.cc:435-435 [Database::Flush]. *)
Definition db_Flush : U Database unit := if_open en_Flush.
(** src/database.cc:436-436 [Database::Freeze]. *)
Definition db_Freeze : U Database unit := if_open en_Freeze.

(** src/database.cc:458-460 [Database::GetMemTableBytesUsed]. *)
Definition db_GetMemTableBytesUsed (db : Database) : Z :=
  match db_engine db with Some e => if db_opened db then en_GetMemTableBytesUsed e else 0 | None => 0 end.

(** src/database.cc:438-444 [Database::TryFreezeIfPressured]. *)
Definition TryFreezeIfPressured : U Database unit :=
  db ← uget;
  uguard (db_opened db) (InvalidArgument "closed") ;;
  if db_pressure_threshold_bytes db <? db_GetMemTableBytesUsed db then db_Freeze else mret tt.

(** src/database.cc:446-456 [Database::MaybeApplyBackpressure]. *)
Definition MaybeApplyBackpressure : U Database unit :=
  db ← uget;
  uguard (db_opened db) (InvalidArgument "closed") ;;
  if db_pressure_threshold_bytes db <? db_GetMemTableBytesUsed db then
    if db_auto_freeze_on_pressure db then db_Freeze else ufail (ResourceExhausted "memtable pressure")
  else mret tt.

(** src/core/concurrency/scheduler.cc:19-24 [TaskScheduler::Poll]. The loop; tasks are not added while
    it runs. *)
Fixpoint poll_tasks (now : Z) (todo : list ScheduledTask) (done : list ScheduledTask) : U Database unit :=
  match todo with
  | [] => mret tt
  | t :: todo =>
      if sc_next_run t <=? now then
        utry MaybeApplyBackpressure ;;
        let t := MkTask (sc_interval t) (now + sc_interval t) in
        umodify (with_tasks (done ++ t :: todo)) ;;
        poll_tasks now todo (done ++ [t])
      else poll_tasks now todo (done ++ [t])
  end.

(** src/core/concurrency/scheduler.cc:17-25 [TaskScheduler::Poll]. *)
Definition Poll : U Database unit :=
  now ← on_engine read_clock;
  db ← uget;
  poll_tasks now (db_tasks db) [].

(** The writes of the database: back pressure, the call, then the scheduler; the
    status is that of the call. *)
Definition pressured {A} (m : U StorageEngine A) : U Database A :=
  db ← uget;
  uguard (db_opened db) (InvalidArgument "closed") ;;
  MaybeApplyBackpressure ;;
  st ← utry (on_engine m);
  Poll ;;
  uof_sum st.

(** src/database.cc:462-478 [Database::AddVector]. The overload without metadata passes the default. *)
Definition db_AddVector (id : Z) (v : vec) (meta : Metadata) : U Database unit := pressured (en_Append id v meta).

(** src/database.cc:480-487 [Database::AddVectorBatch]. *)
Definition db_AddVectorBatch (ids : list Z) (vectors : list vec) : U Database unit := pressured (en_AppendBatch ids vectors).

(** src/database.cc:489-499 [Database::PutBatch]. The sizes are compared after the back pressure. *)
Definition db_PutBatch (ids : list Z) (vectors : list vec) : U Database unit :=
  db ← uget;
  uguard (db_opened db) (InvalidArgument "closed") ;;
  MaybeApplyBackpressure ;;
  uguard (zlen ids =? zlen vectors) (InvalidArgument "mismatch") ;;
  st ← utry (on_engine (en_AppendBatch ids vectors));
  Poll ;;
  uof_sum st.

(** [spans.emplace_back(vectors.data() + i * dimension, dimension)] *)
Definition spans (n : nat) (dimension : Z) (vectors : vec) : list vec :=
  (fun i => take (Z.to_nat dimension) (drop (i * Z.to_nat dimension) vectors)) <$> seq 0 n.

(** src/database.cc:501-512 [Database::PutBatch]. The flat overload. *)
Definition db_PutBatch_flat (ids : list Z) (vectors : vec) (dimension : Z) : U Database unit :=
  db ← uget;
  uguard (db_opened db) (InvalidArgument "closed") ;;
  MaybeApplyBackpressure ;;
  uguard (negb ((dimension =? 0) || bool_decide (ids = []) || negb (zlen vectors =? u64 (zlen ids * dimension)))) (InvalidArgument "invalid args") ;;
  st ← utry (on_engine (en_AppendBatch ids (spans (length ids) dimension vectors)));
  Poll ;;
  uof_sum st.

(** src/database.cc:514-521 [Database::Get]. *)
Definition db_Get (id : Z) (out : vec) (meta : Metadata) : U Database (vec * Metadata) := if_open (en_Get id out meta).

(** src/database.cc:523-525 [Database::Exists]. *)
Definition db_Exists (id : Z) (exists_ : bool) : U Database bool := if_open (en_Exists id exists_).

(** The deletions and the graph operations: no back pressure. *)
Definition polled {A} (m : U StorageEngine A) : U Database A :=
  db ← uget;
  uguard (db_opened db) (InvalidArgument "closed") ;;
  st ← utry (on_engine m);
  Poll ;;
  uof_sum st.

(** src/database.cc:527-532 [Database::Delete]. *)
Definition db_Delete (id : Z) : U Database unit := polled (en_Delete id).

(** src/database.cc:534-542 [Database::Search]. *)
Definition db_Search (query : vec) (topk : Z) (opts : SearchOptions) (out : list SearchHit) : U Database (list SearchHit) :=
  if_open (en_Search query topk opts out).

(** src/database.cc:549-552 [Database::SearchBatch]. *)
Fixpoint search_each (queries : list vec) (topk : Z) (opts : SearchOptions) (done : list (list SearchHit)) : U Database (list (list SearchHit)) :=
  match queries with
  | [] => mret done
  | q :: queries =>
      hits ← on_engine (en_Search q topk opts []);
      search_each queries topk opts (done ++ [hits])
  end.

(** src/database.cc:544-554 [Database::SearchBatch]. Without queries it divides by zero. *)
Definition db_SearchBatch (queries : vec) (num_queries topk : Z) (opts : SearchOptions) : U Database (list (list SearchHit)) :=
  db ← uget;
  uguard (db_opened db) (InvalidArgument "closed") ;;
  if num_queries =? 0 then udefined None else
  search_each (spans (Z.to_nat num_queries) (zlen queries / num_queries) queries) topk opts [].

(** src/database.cc:585-590 [Database::AddVertex]. *)
Definition db_AddVertex (id tag : Z) (meta : Metadata) : U Database unit := polled (en_AddVertex id tag meta).
(** src/database.cc:592-597 [Database::AddEdge]. *)
Definition db_AddEdge (src dst type rank : Z) (meta : Metadata) : U Database unit := polled (en_AddEdge src dst type rank meta).
(** src/database.cc:599-604 [Database::DeleteVertex]. *)
Definition db_DeleteVertex (id : Z) : U Database unit := polled (en_DeleteVertex id).
(** src/database.cc:606-611 [Database::DeleteEdge]. *)
Definition db_DeleteEdge (src dst type : Z) : U Database unit := polled (en_DeleteEdge src dst type).
(** src/database.cc:613-615 [Database::GetNeighbors]. *)
Definition db_GetNeighbors (src : Z) (out : list Neighbor) : U Database (list Neighbor) := if_open (en_GetNeighbors src out).
(** src/database.cc:617-619 [Database::GetNeighbors]. *)
Definition db_GetNeighbors_typed (src type : Z) (out : list Neighbor) : U Database (list Neighbor) := if_open (en_GetNeighbors_typed src type out).
(** src/database.cc:621-624 [Database::GetSnapshot]. *)
Definition db_GetSnapshot : U Database (option (VectorSnapshot T)) := if_open en_GetSnapshot.
(** src/database.cc:626-628 [Database::NewIterator]. *)
Definition db_NewIterator (snap : option (VectorSnapshot T)) : U Database (option (VectorIterator T)) := if_open (en_NewIterator snap).
End engine.
