(* ===== verification/DatabaseTheorems.v ===== *)
(** * Theorems about the kernel and the embedded database

    The ring buffer is a bounded queue.  A call on an idle kernel with a prompt
    clock handles exactly its own message; on such a clock the database is a
    store.  A call whose budget has run out reports success without effect, and
    leaves a message behind whose handling is undefined. *)
From S2P Require Import Prelude FlatHash Env Types Wal WalTheorems Graph Text PosixFile Manifest MemTable MemTableTheorems Segment Layers Runtime.
From S2P Require Import RuntimeTheorems FreezeTheorems SearchParts Search SearchTheorems Kernel Database.

Open Scope Z_scope.

(** ** The ring buffer *)

Section ring.
Context {A : Type} (cap : Z) (Hcap : 0 < cap).
Implicit Types (r : Ring A) (l : list A).

(** [r] holds the values [l], oldest first. *)
Record ring_rep r l : Prop := {
  rr_head : 0 <= rb_head r < cap;
  rr_tail : rb_tail r = (rb_head r + zlen l) mod cap;
  rr_size : rb_size r = zlen l;
  rr_cap : zlen l <= cap;
  rr_data i x : l !! i = Some x -> rb_data r !! ((rb_head r + Z.of_nat i) mod cap) = Some x
}.

Lemma ring_rep_clear r : ring_rep (rb_clear r) [].
Proof using Hcap. split; cbn; [lia|by rewrite Zmod_0_l|done|len|done]. Qed.

Lemma rb_push_back_rep r l x :
  ring_rep r l ->
  match rb_push_back cap x r with
  | Some r' => ring_rep r' (l ++ [x])
  | None => zlen l = cap
  end.
Proof using Hcap.
  intros [Hh Ht Hs Hc Hd]. unfold rb_push_back. destruct (Z.eqb_spec (rb_size r) cap) as [E|E]; [lia|].
  split; cbn [rb_head rb_tail rb_size rb_data]; [done|rewrite Ht, Zplus_mod_idemp_l; f_equal; len|rewrite Hs; len|len|].
  intros i y Hi. apply lookup_app_Some in Hi as [Hi|[Hi Hy]].
  - rewrite lookup_insert_ne; [by apply Hd|]. rewrite Ht. apply lookup_lt_Some in Hi.
    intros Eq%offset_mod_inj; unfold zlen in *; lia.
  - destruct (i - length l)%nat eqn:En; [|done]. cbn in Hy. injection Hy as <-.
    replace (Z.of_nat i) with (zlen l) by (unfold zlen; lia). rewrite Ht. apply lookup_insert_eq.
Qed.

Lemma rb_pop_front_rep r l :
  ring_rep r l ->
  match l with
  | [] => rb_pop_front cap r = None
  | x :: l => exists r', rb_pop_front cap r = Some (x, r') /\ ring_rep r' l
  end.
Proof using Hcap.
  intros [Hh Ht Hs Hc Hd]. unfold rb_pop_front. rewrite Hs. destruct l as [|x l]; [done|].
  rewrite (proj2 (Z.eqb_neq _ _)) by len. pose proof (Hd 0%nat x eq_refl) as H0.
  rewrite Z.add_0_r, Z.mod_small in H0 by lia. rewrite H0. cbn [mbind option_bind]. eexists. split; [done|].
  split; cbn [rb_head rb_tail rb_size rb_data]; [apply Z.mod_pos_bound; lia|rewrite Ht, Zplus_mod_idemp_l; f_equal; len|len|len|].
  intros i y Hi. rewrite Zplus_mod_idemp_l. replace (rb_head r + 1 + Z.of_nat i) with (rb_head r + Z.of_nat (S i)) by lia.
  by apply Hd.
Qed.
End ring.

(** ** Calls *)

Section calls.
Context {T : Type} `{IdMap T (option bytes)} `{F32} `{AesGcm} `{Sidecars} `{Kernels} `{HitSort}.
Context (quant_decode : SegmentReader -> bytes -> vec).
Context (Hash : Z -> Z) (beyond_radius : Filter -> Metadata -> bool) (metric : MetricType) (ip : IndexParams).
Context (times : nat -> Times) (steady : nat -> Z).
Implicit Types (k : MicroKernel (T := T)) (e : StorageEngine (T := T)) (r : VectorRuntime T) (g : GraphMembraneImpl).

Abbreviation send := (call quant_decode Hash beyond_radius metric ip times steady).
Abbreviation handle := (vp_Handle quant_decode Hash beyond_radius metric ip).

(** Between calls: both pods are there, no message waits and no frame is left. *)
Record ready e r g : Prop := {
  rd_index : k_index (en_kernel e) = Some r;
  rd_graph : k_graph (en_kernel e) = Some g;
  rd_queue : ring_rep kQueueCapacity (k_queue (en_kernel e)) [];
  rd_frames : k_frames (en_kernel e) = ∅
}.

(** The clock shows less than the time budget between its [n]-th reading and the next. *)
Definition prompt (n : nat) : Prop := steady (S n) < steady n + 2000000.

(** A message that is dispatched. *)
Lemma dispatch_index msg k f r f' r' :
  msg_target msg = kIndex -> k_index k = Some r -> k_frames k !! msg_call msg = Some f ->
  handle (times (k_handled k)) msg f r = Some (f', r') ->
  dispatch quant_decode Hash beyond_radius metric ip times msg k =
  Some (k_count 0 1 (k_set_frames (<[msg_call msg := f']> (k_frames k)) (k_calls k) (k_pods (Some r') (k_graph k) k))).
Proof. intros Ht Hi Hf Hh. unfold dispatch. rewrite Hf, Ht, Hi. cbn [mbind option_bind]. by rewrite Hh. Qed.

Lemma dispatch_graph msg k f g f' g' :
  msg_target msg = kGraphPod -> k_graph k = Some g -> k_frames k !! msg_call msg = Some f ->
  gp_Handle msg f g = Some (f', g') ->
  dispatch quant_decode Hash beyond_radius metric ip times msg k =
  Some (k_count 0 1 (k_set_frames (<[msg_call msg := f']> (k_frames k)) (k_calls k) (k_pods (k_index k) (Some g') k))).
Proof. intros Ht Hi Hf Hh. unfold dispatch. rewrite Hf, Ht, Hi. cbn [mbind option_bind]. rewrite Hh. by destruct (k_index k). Qed.

(** The second round of the budget finds the queue empty or the time over. *)
Lemma budget_rest rounds deadline n k :
  ring_rep kQueueCapacity (k_queue k) [] ->
  budget_loop quant_decode Hash beyond_radius metric ip times steady (S rounds) deadline n k = Some (n, k_count 1 0 k).
Proof.
  intros Hq. cbn [budget_loop]. destruct (deadline <=? _); [done|]. unfold DispatchOne. cbn [k_count k_queue].
  by rewrite (rb_pop_front_rep kQueueCapacity ltac:(done) (k_queue k) [] Hq).
Qed.

(** What a call changes besides the pods: the counters. *)
Record called (messages : nat) e e' : Prop := {
  cd_hooks : en_hooks e' = en_hooks e;
  cd_handled : k_handled (en_kernel e') = (k_handled (en_kernel e) + messages)%nat
}.

(** The kernel after the message of a call has been queued and the clock read. *)
Definition queued (q : Ring (Message (T := T))) out e : MicroKernel :=
  k_count 1 0 (k_set_queue q (k_set_frames (<[k_calls (en_kernel e) := MkFrame (inr tt) out]> (k_frames (en_kernel e))) (S (k_calls (en_kernel e))) (en_kernel e))).

Lemma call_queues target op p res out e l :
  ring_rep kQueueCapacity (k_queue (en_kernel e)) l -> zlen l < kQueueCapacity ->
  exists q, ring_rep kQueueCapacity q (l ++ [MkMsg target op p res (k_calls (en_kernel e))]) /\
    send target op p res out e =
    ('(_, k) ← budget_loop quant_decode Hash beyond_radius metric ip times steady 8 (steady (k_readings (en_kernel e)) + 2000000) 0 (queued q out e);
     f ← k_frames k !! k_calls (en_kernel e);
     Some (result_of f, with_kernel (k_set_frames (delete (k_calls (en_kernel e)) (k_frames k)) (k_calls k) k) e)).
Proof.
  intros Hq Hl. unfold call, Enqueue. cbn [k_set_frames k_queue].
  pose proof (rb_push_back_rep kQueueCapacity ltac:(done) _ l (MkMsg target op p res (k_calls (en_kernel e))) Hq) as Hpush.
  destruct (rb_push_back _ _ _) as [q|]; [|lia]. by exists q.
Qed.

(** The first look at the clock and at the queue. *)
Lemma budget_first rounds deadline n k :
  budget_loop quant_decode Hash beyond_radius metric ip times steady (S rounds) deadline n k =
  if deadline <=? steady (k_readings k) then Some (n, k_count 1 0 k) else
  '(more, k) ← DispatchOne quant_decode Hash beyond_radius metric ip times (k_count 1 0 k);
  if (more : bool) then budget_loop quant_decode Hash beyond_radius metric ip times steady rounds deadline (n + 1) k else Some (n, k).
Proof. done. Qed.

Lemma queued_reading q out e : k_readings (queued q out e) = S (k_readings (en_kernel e)).
Proof. cbn. lia. Qed.

Lemma DispatchOne_front msg l q k :
  ring_rep kQueueCapacity q (msg :: l) -> k_queue k = q ->
  exists q', ring_rep kQueueCapacity q' l /\
    DispatchOne quant_decode Hash beyond_radius metric ip times k =
    (k ← dispatch quant_decode Hash beyond_radius metric ip times msg (k_set_queue q' k); Some (true, k)).
Proof.
  intros Hq Hk. destruct (rb_pop_front_rep kQueueCapacity ltac:(done) _ _ Hq) as (q' & Epop & Hq').
  exists q'. split; [done|]. unfold DispatchOne. by rewrite Hk, Epop.
Qed.

Lemma call_dispatch target op p res out e r g f' r' g' :
  ready e r g -> prompt (k_readings (en_kernel e)) ->
  (forall k, k_index k = Some r -> k_graph k = Some g -> k_handled k = k_handled (en_kernel e) ->
     k_frames k !! k_calls (en_kernel e) = Some (MkFrame (inr tt) out) ->
     dispatch quant_decode Hash beyond_radius metric ip times (MkMsg target op p res (k_calls (en_kernel e))) k =
     Some (k_count 0 1 (k_set_frames (<[k_calls (en_kernel e) := f']> (k_frames k)) (k_calls k) (k_pods (Some r') (Some g') k)))) ->
  exists e', send target op p res out e = Some (result_of f', e') /\ ready e' r' g' /\ called 1 e e'.
Proof.
  intros [Hi Hg Hq Hf] Hp Hd. destruct (call_queues target op p res out e [] Hq ltac:(done)) as (q & Hq1 & ->). cbn [app] in Hq1.
  rewrite budget_first, queued_reading, (proj2 (Z.leb_gt _ _)) by exact Hp.
  destruct (DispatchOne_front _ _ _ (k_count 1 0 (queued q out e)) Hq1 eq_refl) as (q' & Hq' & ->).
  rewrite Hd; cbn [queued k_count k_set_queue k_set_frames k_index k_graph k_handled k_frames]; [|done|done|lia|apply lookup_insert_eq].
  cbn [mbind option_bind]. rewrite budget_rest by done. cbn [mbind option_bind k_count k_set_frames k_pods k_frames].
  rewrite lookup_insert_eq. eexists. split; [done|]. split; [split; cbn; [done|done|done|]|split; cbn; [done|lia]].
  rewrite Hf. by rewrite insert_insert_eq, insert_empty, delete_singleton_eq.
Qed.

Lemma call_index op p res out e r g f' r' :
  ready e r g -> prompt (k_readings (en_kernel e)) ->
  handle (times (k_handled (en_kernel e))) (MkMsg kIndex op p res (k_calls (en_kernel e))) (MkFrame (inr tt) out) r = Some (f', r') ->
  exists e', send kIndex op p res out e = Some (result_of f', e') /\ ready e' r' g /\ called 1 e e'.
Proof.
  intros Hr Hp Hh. apply (call_dispatch kIndex op p res out e r g f' r' g Hr Hp). intros k Hi Hg Hn Hf.
  rewrite (dispatch_index (MkMsg kIndex op p res _) k _ r f' r' eq_refl Hi Hf); [by rewrite Hg|by rewrite Hn].
Qed.

Lemma call_graph op p res out e r g f' g' :
  ready e r g -> prompt (k_readings (en_kernel e)) ->
  gp_Handle (MkMsg kGraphPod op p res (k_calls (en_kernel e))) (MkFrame (inr tt) out) g = Some (f', g') ->
  exists e', send kGraphPod op p res out e = Some (result_of f', e') /\ ready e' r g' /\ called 1 e e'.
Proof.
  intros Hr Hp Hh. apply (call_dispatch kGraphPod op p res out e r g f' r g' Hr Hp). intros k Hi Hg Hn Hf.
  rewrite (dispatch_graph (MkMsg kGraphPod op p res _) k _ g f' g' eq_refl Hg Hf); [by rewrite Hi|done].
Qed.

(** A member function of the vector runtime that only reports its status. *)
Lemma call_stored op p (m : M (VectorRuntime T) unit) e r g :
  ready e r g -> prompt (k_readings (en_kernel e)) ->
  (forall f msg, msg_opcode msg = op -> msg_payload msg = p -> handle (times (k_handled (en_kernel e))) msg f r = Some (stored m r f)) ->
  exists e', call_ quant_decode Hash beyond_radius metric ip times steady kIndex op p RStatus e = Some ((m r).1, e') /\
    ready e' (m r).2 g /\ called 1 e e'.
Proof.
  intros Hr Hp Hh. unfold stored in Hh. destruct (m r) as [st r'] eqn:Em. cbn [fst snd] in *.
  destruct (call_index op p RStatus ONone e r g (set_status st (MkFrame (inr tt) ONone)) r' Hr Hp) as (e' & E & Hr' & Hc).
  { by apply Hh. }
  exists e'. split; [|done]. unfold call_. unfold mbind, U_bind. rewrite E. unfold result_of. cbn.
  by destruct st as [st|[]].
Qed.

(** A call that finds a message of a returned call in front of its own. *)
Lemma call_stale msg target op p res out e :
  ring_rep kQueueCapacity (k_queue (en_kernel e)) [msg] -> k_frames (en_kernel e) = ∅ -> (msg_call msg < k_calls (en_kernel e))%nat ->
  prompt (k_readings (en_kernel e)) -> send target op p res out e = None.
Proof.
  intros Hq Hf Hn Hp. destruct (call_queues target op p res out e [msg] Hq ltac:(done)) as (q & Hq1 & ->). cbn [app] in Hq1.
  rewrite budget_first, queued_reading, (proj2 (Z.leb_gt _ _)) by exact Hp.
  destruct (DispatchOne_front _ _ _ (k_count 1 0 (queued q out e)) Hq1 eq_refl) as (q' & Hq' & ->). unfold dispatch.
  cbn [queued k_count k_set_queue k_set_frames k_frames]. rewrite Hf, lookup_insert_ne by lia. by rewrite lookup_empty.
Qed.

(** When the time budget is over before the first look at the queue, the call
    reports success, the pods have not changed and its message stays in the
    queue; the next call that gets time handles it, which is undefined because
    its pointers name the variables of a call that has returned. *)
Theorem late_call_is_lost target op p res out e r g :
  ready e r g -> steady (k_readings (en_kernel e)) + 2000000 <= steady (S (k_readings (en_kernel e))) ->
  exists e', send target op p res out e = Some (inr out, e') /\
    k_index (en_kernel e') = Some r /\ k_graph (en_kernel e') = Some g /\
    forall target' op' p' res' out', prompt (k_readings (en_kernel e')) -> send target' op' p' res' out' e' = None.
Proof.
  intros [Hi Hg Hq Hf] Hlate. destruct (call_queues target op p res out e [] Hq ltac:(done)) as (q & Hq1 & ->). cbn [app] in Hq1.
  rewrite budget_first, queued_reading, (proj2 (Z.leb_le _ _)) by exact Hlate.
  cbn [mbind option_bind queued k_count k_set_queue k_set_frames k_frames]. rewrite lookup_insert_eq. cbn [mbind option_bind].
  eexists. split; [done|]. split; [done|]. split; [done|]. intros target' op' p' res' out' Hp.
  eapply call_stale; [exact Hq1| |cbn; lia|exact Hp]. cbn. by rewrite Hf, insert_empty, delete_singleton_eq.
Qed.
End calls.

(** ** The database as a store *)

Section store.
Context {T : Type} `{IdMapLaws T (option bytes)} `{F32} `{AesGcm} `{Sidecars} `{Kernels} `{HitSort}.
Context (quant_decode : SegmentReader -> bytes -> vec).
Context (Hash : Z -> Z) (beyond_radius : Filter -> Metadata -> bool) (metric : MetricType) (ip : IndexParams).
Context (times : nat -> Times) (steady : nat -> Z).
Context (Hprompt : forall n, prompt steady n).
Implicit Types (db : Database (T := T)) (e : StorageEngine (T := T)) (r : VectorRuntime T) (g : GraphMembraneImpl).

Inductive db_op : Type :=
  | DbAdd (id : Z) (v : vec) (meta : Metadata)
  | DbBatch (ids : list Z) (vs : list vec)
  | DbDelete (id : Z)
  | DbFlush.

Definition run_db_op (op : db_op) : U Database unit :=
  match op with
  | DbAdd id v meta => db_AddVector quant_decode Hash beyond_radius metric ip times steady id v meta
  | DbBatch ids vs => db_AddVectorBatch quant_decode Hash beyond_radius metric ip times steady ids vs
  | DbDelete id => db_Delete quant_decode Hash beyond_radius metric ip times steady id
  | DbFlush => db_Flush quant_decode Hash beyond_radius metric ip times steady
  end.

(** All operations, with the status of each. *)
Fixpoint run_db (ops : list db_op) : U Database (list (Status + unit)) :=
  match ops with
  | [] => mret []
  | op :: ops => st ← utry (run_db_op op); rest ← run_db ops; mret (st :: rest)
  end.

(** The operation of the store, and what the vector pod does for it. *)
Definition store_op (now_us : Z) (op : db_op) : rt_op :=
  match op with
  | DbAdd id v meta => OpPut now_us id v meta
  | DbBatch ids vs => OpPutBatch ids vs
  | DbDelete id => OpDelete id
  | DbFlush => OpFlushLog
  end.
Definition pod_op (t : Times) (op : db_op) : M (VectorRuntime T) unit :=
  match op with
  | DbAdd _ [] _ => mfail (InvalidArgument "vector put-meta invalid payload")
  | _ => run_op (store_op (t_now_us t) op)
  end.

(** An open database over these pods, without hooks. *)
Record db_ready db r g (handled : nat) : Prop := {
  dr_engine : exists e, db_engine db = Some e /\ ready e r g /\ en_hooks e = [] /\ k_handled (en_kernel e) = handled;
  dr_opened : db_opened db = true
}.

(** The memtable stays below the pressure threshold along the run. *)
Fixpoint calm (threshold : Z) (handled : nat) (ops : list db_op) r : Prop :=
  mt_BytesUsed (rt_mem r) <= threshold /\
  match ops with
  | [] => True
  | op :: ops => calm threshold (S handled) ops (pod_op (times handled) op r).2
  end.

Lemma no_pressure db r g n :
  db_ready db r g n -> mt_BytesUsed (rt_mem r) <= db_pressure_threshold_bytes db ->
  MaybeApplyBackpressure quant_decode Hash beyond_radius metric ip times steady db = Some (inr tt, db).
Proof.
  intros [(e & Ee & [Hi _ _ _] & _) Ho] Hc. unfold MaybeApplyBackpressure, mbind, U_bind, uget. rewrite Ho. cbn.
  unfold db_GetMemTableBytesUsed, en_GetMemTableBytesUsed. rewrite Ee, Ho, Hi. by rewrite (proj2 (Z.ltb_ge _ _)).
Qed.

Lemma poll_tasks_calm now todo : forall done db r g n,
  db_ready db r g n -> mt_BytesUsed (rt_mem r) <= db_pressure_threshold_bytes db ->
  exists tasks, poll_tasks quant_decode Hash beyond_radius metric ip times steady now todo done db = Some (inr tt, with_tasks tasks db).
Proof.
  induction todo as [|t todo IH]; intros done db r g n Hr Hc.
  { exists (db_tasks db). by destruct db. }
  cbn [poll_tasks]. destruct (sc_next_run t <=? now); [|by eapply IH].
  unfold mbind at 1, U_bind at 1, utry. rewrite (no_pressure db r g n Hr Hc). unfold mbind, U_bind, umodify.
  set (db1 := with_tasks _ db). destruct (IH (done ++ [MkTask (sc_interval t) (now + sc_interval t)]) db1 r g n) as [tasks E].
  - destruct Hr. by split.
  - done.
  - exists tasks. exact E.
Qed.

Lemma Poll_calm db r g n :
  db_ready db r g n -> mt_BytesUsed (rt_mem r) <= db_pressure_threshold_bytes db ->
  exists db', Poll quant_decode Hash beyond_radius metric ip times steady db = Some (inr tt, db') /\ db_ready db' r g n /\
    db_pressure_threshold_bytes db' = db_pressure_threshold_bytes db.
Proof.
  intros [(e & Ee & [Hi Hg Hq Hf] & Hh & Hn) Ho] Hc. unfold Poll, on_engine, read_clock. unfold mbind at 1, U_bind at 1.
  rewrite Ee. cbn [mbind option_bind]. set (e1 := with_kernel _ e). set (db1 := with_engine _ db).
  assert (db_ready db1 r g n) as Hr1.
  { split; [|done]. exists e1. split; [done|]. split; [by split|]. split; [done|]. cbn. lia. }
  unfold mbind, U_bind, uget. destruct (poll_tasks_calm (steady (k_readings (en_kernel e))) (db_tasks db1) [] db1 r g n Hr1 Hc) as [tasks ->].
  eexists. split; [done|]. split; [|done]. destruct Hr1. by split.
Qed.

(** A call of the engine for one message. *)
Definition answers {A} (m : U (StorageEngine (T := T)) A) r g n res r' : Prop :=
  forall e, ready e r g -> en_hooks e = [] -> k_handled (en_kernel e) = n ->
    exists e', m e = Some (res, e') /\ ready e' r' g /\ called 1 e e'.

Lemma on_engine_answers {A} (m : U (StorageEngine (T := T)) A) db r g n res r' :
  db_ready db r g n -> answers m r g n res r' ->
  exists db', on_engine m db = Some (res, db') /\ db_ready db' r' g (S n) /\
    db_pressure_threshold_bytes db' = db_pressure_threshold_bytes db.
Proof.
  intros [(e & Ee & Hre & Hh & Hn) Ho] Hm. destruct (Hm e Hre Hh Hn) as (e' & Em & Hre' & [Hh' Hn']).
  exists (with_engine (Some e') db). split; [unfold on_engine; rewrite Ee; cbn [mbind option_bind]; by rewrite Em|].
  split; [|done]. split; [|done]. exists e'. split; [done|]. split; [done|]. rewrite Hh', Hh. split; [done|]. lia.
Qed.

Lemma if_open_answers {A} (m : U (StorageEngine (T := T)) A) db r g n res r' :
  db_ready db r g n -> answers m r g n res r' ->
  exists db', if_open m db = Some (res, db') /\ db_ready db' r' g (S n) /\
    db_pressure_threshold_bytes db' = db_pressure_threshold_bytes db.
Proof.
  intros Hr Hm. unfold if_open. rewrite ubind_get, ubind_guard by apply Hr. by eapply on_engine_answers.
Qed.

(** A deletion: the call, then the scheduler. *)
Lemma polled_answers (m : U (StorageEngine (T := T)) unit) db r g n res r' :
  db_ready db r g n -> answers m r g n res r' -> mt_BytesUsed (rt_mem r') <= db_pressure_threshold_bytes db ->
  exists db', polled quant_decode Hash beyond_radius metric ip times steady m db = Some (res, db') /\ db_ready db' r' g (S n) /\
    db_pressure_threshold_bytes db' = db_pressure_threshold_bytes db.
Proof.
  intros Hr Hm Hc. destruct (on_engine_answers m db r g n res r' Hr Hm) as (db1 & E1 & Hr1 & Ht1).
  rewrite <-Ht1 in Hc. destruct (Poll_calm db1 r' g (S n) Hr1 Hc) as (db2 & E2 & Hr2 & Ht2).
  exists db2. split; [|by rewrite Ht2]. unfold polled. rewrite ubind_get, ubind_guard by apply Hr.
  by rewrite (ubind_try _ _ _ _ _ E1), (ubind_ok _ _ _ _ _ E2).
Qed.

(** A write: back pressure first. *)
Lemma pressured_answers (m : U (StorageEngine (T := T)) unit) db r g n res r' :
  db_ready db r g n -> answers m r g n res r' -> mt_BytesUsed (rt_mem r) <= db_pressure_threshold_bytes db ->
  mt_BytesUsed (rt_mem r') <= db_pressure_threshold_bytes db ->
  exists db', pressured quant_decode Hash beyond_radius metric ip times steady m db = Some (res, db') /\ db_ready db' r' g (S n) /\
    db_pressure_threshold_bytes db' = db_pressure_threshold_bytes db.
Proof.
  intros Hr Hm Hc Hc'. destruct (polled_answers m db r g n res r' Hr Hm Hc') as (db' & E & Hr').
  exists db'. split; [|done]. rewrite <-E. unfold pressured, polled.
  rewrite !ubind_get, !ubind_guard by apply Hr. by rewrite (ubind_ok _ _ _ _ _ (no_pressure db r g n Hr Hc)).
Qed.

(** *** The operations *)

Lemma hooks_none (m : U (StorageEngine (T := T)) unit) (f : list PostPutHook -> U (StorageEngine (T := T)) unit) r g n res r' :
  answers m r g n res r' -> f [] = mret tt -> answers (m ;; e ← uget; f (en_hooks e)) r g n res r'.
Proof.
  intros Hm Hf e Hre Hh Hn. destruct (Hm e Hre Hh Hn) as (e' & E & Hre' & Hc). exists e'. split; [|done].
  destruct res as [st|[]]; [by rewrite (ubind_err _ _ _ _ _ E)|]. rewrite (ubind_ok _ _ _ _ _ E), ubind_get.
  by rewrite (cd_hooks _ _ _ Hc), Hh, Hf.
Qed.

Lemma stored_answers op p (m : M (VectorRuntime T) unit) r g n :
  (forall f msg, msg_opcode msg = op -> msg_payload msg = p ->
     vp_Handle quant_decode Hash beyond_radius metric ip (times n) msg f r = Some (stored m r f)) ->
  answers (call_ quant_decode Hash beyond_radius metric ip times steady kIndex op p RStatus) r g n (m r).1 (m r).2.
Proof using Hprompt. intros Hh e Hre _ <-. by apply call_stored. Qed.

Lemma db_step op db r g n :
  db_ready db r g n -> mt_BytesUsed (rt_mem r) <= db_pressure_threshold_bytes db ->
  mt_BytesUsed (rt_mem (pod_op (times n) op r).2) <= db_pressure_threshold_bytes db ->
  exists db', run_db_op op db = Some ((pod_op (times n) op r).1, db') /\ db_ready db' (pod_op (times n) op r).2 g (S n) /\
    db_pressure_threshold_bytes db' = db_pressure_threshold_bytes db.
Proof using Hprompt.
  intros Hr Hc Hc'. destruct op as [id v meta|ids vs|id|]; cbn [run_db_op].
  - apply (pressured_answers _ db r g n _ _ Hr); [|done..]. apply (hooks_none _ (fun hooks => run_hooks quant_decode Hash beyond_radius metric ip times steady hooks id meta)); [|done].
    apply stored_answers. intros f msg Ho Hp. unfold vp_Handle. rewrite Ho, Hp. cbn [payload_size]. by destruct v.
  - apply (pressured_answers _ db r g n _ _ Hr); [|done..].
    apply (hooks_none _ (fun hooks => foldr (fun id k => run_hooks quant_decode Hash beyond_radius metric ip times steady hooks id md_default ;; k) (mret tt) ids)).
    + apply stored_answers. intros f msg Ho Hp. unfold vp_Handle. by rewrite Ho, Hp.
    + clear Hc'. induction ids as [|i ids IH]; [done|]. cbn [foldr]. by rewrite IH.
  - apply (polled_answers _ db r g n _ _ Hr); [|done]. apply stored_answers. intros f msg Ho Hp. unfold vp_Handle. by rewrite Ho, Hp.
  - apply (if_open_answers _ db r g n _ _ Hr). apply stored_answers. intros f msg Ho Hp. unfold vp_Handle. by rewrite Ho.
Qed.

(** *** Reads *)

Lemma get_answers id out meta r g n x :
  rt_Get quant_decode (t_now_sec (times n)) id r = Some x ->
  answers (en_Get quant_decode Hash beyond_radius metric ip times steady id out meta) r g n x r.
Proof using Hprompt.
  intros Hx e Hre _ Hn.
  destruct (call_index quant_decode Hash beyond_radius metric ip times steady Op_kGetWithMeta (PGetMeta id) RStatus (OVec out meta) e r g
    (match x with inr (v, m) => MkFrame (inr tt) (OVec v m) | inl st => MkFrame (inl st) (OVec out meta) end) r Hre (Hprompt _)) as (e' & E & Hr & Hc).
  { unfold vp_Handle. cbn [msg_opcode msg_payload payload_size negb Z.eqb]. rewrite Hn, Hx. cbn [mbind option_bind].
    by destruct x as [st|[v m]]. }
  exists e'. split; [|done]. unfold en_Get. destruct x as [st|[v m]].
  - by rewrite (ubind_err _ _ _ _ _ E).
  - by rewrite (ubind_ok _ _ _ _ _ E).
Qed.

Lemma snapshot_answers r g n :
  answers (en_GetSnapshot quant_decode Hash beyond_radius metric ip times steady) r g n (inr (rt_snapshot r)) r.
Proof using Hprompt.
  intros e Hre _ _.
  destruct (call_index quant_decode Hash beyond_radius metric ip times steady Op_kGetSnapshot PNone ROut (OSnapshot None) e r g
    (MkFrame (inr tt) (OSnapshot (rt_snapshot r))) r Hre (Hprompt _) eq_refl) as (e' & E & Hr & Hc).
  exists e'. split; [|done]. unfold en_GetSnapshot. by rewrite (ubind_ok _ _ _ _ _ E).
Qed.

Lemma iterator_answers snap it r g n :
  it_new quant_decode snap (rc_ttl_sec (rt_conf r)) (t_now_sec (times n)) = Some it ->
  answers (en_NewIterator quant_decode Hash beyond_radius metric ip times steady (Some snap)) r g n (inr (Some it)) r.
Proof using Hprompt.
  intros Hit e Hre _ Hn.
  destruct (call_index quant_decode Hash beyond_radius metric ip times steady Op_kNewIterator (PSnapshot (Some snap)) ROut (OIterator None) e r g
    (MkFrame (inr tt) (OIterator (Some it))) r Hre (Hprompt _)) as (e' & E & Hr & Hc).
  { unfold vp_Handle. cbn [msg_opcode msg_payload msg_result payload_size Z.ltb Z.compare Pos.compare Pos.compare_cont]. by rewrite Hn, Hit. }
  exists e'. split; [|done]. unfold en_NewIterator. by rewrite (ubind_ok _ _ _ _ _ E).
Qed.

(** Operations with identifiers other than the reserved one. *)
Definition db_op_ok (op : db_op) : Prop := shard_op_ok (store_op 0 op).

Lemma pod_op_sim t op r res r' :
  rt_inv r -> writes_through r -> db_op_ok op -> pod_op t op r = (res, r') -> step_sim quant_decode (store_op 0 op) res r r'.
Proof.
  intros Hi Hw Hok E. destruct op as [id v meta|ids vs|id|]; cbn [pod_op store_op] in *.
  - destruct v as [|x v].
    + injection E as <- <-. by apply step_sim_fail.
    + destruct (run_op_sim quant_decode (OpPut (t_now_us t) id (x :: v) meta) r res r' Hi Hw Hok E) as [? ? ? Hs]. by split.
  - by apply (run_op_sim quant_decode (OpPutBatch ids vs)).
  - by apply (run_op_sim quant_decode (OpDelete id)).
  - by apply (run_op_sim quant_decode OpFlushLog).
Qed.

(** C8. On a clock that never skips the time budget of a call, and while the
    memtable stays below the pressure threshold, an open database is a store:
    every operation is carried out, its status is the status of the runtime, and
    a successful one updates what lookups find exactly as the store is updated;
    [Get] reports the store. *)
Theorem database_refines_store ops db r g n :
  db_ready db r g n -> rt_inv r -> writes_through r -> Forall db_op_ok ops -> calm (db_pressure_threshold_bytes db) n ops r ->
  exists results db' r', run_db ops db = Some (inr results, db') /\ db_ready db' r' g (n + length ops) /\
    spec_run (store_op 0 <$> ops) results (rt_find quant_decode r) (rt_find quant_decode r') /\
    forall id out meta l, rt_find quant_decode r' id = Some l ->
      exists db'', db_Get quant_decode Hash beyond_radius metric ip times steady id out meta db' =
        Some (report (rc_ttl_sec (rt_conf r)) (t_now_sec (times (n + length ops))) l, db'').
Proof using H0 Hprompt.
  intros Hr Hi Hw Hops. revert db r n Hr Hi Hw. induction Hops as [|op ops Hop _ IH]; intros db r n Hr Hi Hw Hc.
  - exists [], db, r. rewrite Nat.add_0_r. split; [done|]. split; [done|]. split; [by constructor|]. intros id out meta l Hl.
    destruct (if_open_answers _ db r g n _ r Hr (get_answers id out meta r g n (report (rc_ttl_sec (rt_conf r)) (t_now_sec (times n)) l) ltac:(by rewrite rt_Get_report, Hl)))
      as (db' & E & _). by exists db'.
  - destruct Hc as [Hc Hrest]. destruct (pod_op (times n) op r) as [res r1] eqn:E1. cbn [snd] in Hrest.
    assert (mt_BytesUsed (rt_mem r1) <= db_pressure_threshold_bytes db) as Hc1 by (destruct ops; apply Hrest).
    destruct (db_step op db r g n Hr Hc ltac:(by rewrite E1)) as (db1 & Ed & Hr1 & Ht). rewrite E1 in Ed, Hr1. cbn [fst snd] in *.
    destruct (pod_op_sim _ op r res r1 Hi Hw Hop E1) as [Hi1 Hw1 Hconf Hspec]. rewrite <-Ht in Hrest.
    destruct (IH db1 r1 (S n) Hr1 Hi1 Hw1 Hrest) as (results & db' & r' & E & Hr' & Hrun & Hget).
    exists (res :: results), db', r'. cbn [run_db length]. rewrite (ubind_try _ _ _ _ _ Ed), (ubind_ok _ _ _ _ _ E).
    rewrite Nat.add_succ_r. split; [done|]. split; [done|]. split; [by econstructor|]. by rewrite <-Hconf.
Qed.
End store.

(** ** Opening *)

Section opening.
Context {T : Type} `{IdMapLaws T (option bytes)} `{F32} `{AesGcm} `{Sidecars} `{Kernels} `{HitSort}.
Implicit Types r : VectorRuntime T.

(** The memtables of a shard. *)
Definition mems r : MemTable T * list (MemTable T) := (rt_mem r, rt_frozen_mem r).

Lemma preserves_mems_on_fs {A} (m : M fs A) : preserves mems (on_fs (S := VectorRuntime T) m).
Proof. intros r x r' E. unfold on_fs in E. destruct (m _) as [y f]. by injection E as _ <-. Qed.

Lemma preserves_mems_open names : preserves (S := VectorRuntime T) mems (open_segments names).
Proof.
  induction names as [|name names IH]; cbn [open_segments]; [apply preserves_ret|].
  apply preserves_bind; [apply preserves_get|]. intros r. apply preserves_bind; [apply preserves_mems_on_fs|]. intros reader.
  apply preserves_bind; [by apply preserves_modify|done].
Qed.

Lemma preserves_mems_load : preserves (S := VectorRuntime T) mems LoadSegments.
Proof.
  unfold LoadSegments. apply preserves_bind; [apply preserves_get|]. intros r.
  apply preserves_bind; [apply preserves_mems_on_fs|]. intros names.
  apply preserves_bind; [by apply preserves_modify|]. intros _. apply preserves_bind; [apply preserves_mems_open|].
  intros _. by apply preserves_modify.
Qed.

(** Starting a shard with an empty memtable does not put anything into it. *)
Lemma rt_Start_mems r : mt_GetCount (rt_mem r) <= 0 -> mems (rt_Start r).2 = mems r.
Proof.
  intros Hc. unfold rt_Start. rewrite (mbind_ok mget _ _ _ _ eq_refl).
  destruct (rt_started r); [done|]. unfold mguard. cbn [negb]. rewrite (mbind_ok (mret tt) _ _ _ _ eq_refl).
  rewrite (mbind_ok (mmodify _) _ _ tt _ eq_refl). rewrite (mbind_ok (mmodify _) _ _ tt _ eq_refl).
  cbn [with_started rt_mem]. rewrite (proj2 (Z.ltb_ge _ _)) by done. set (r1 := with_started true r).
  destruct (LoadSegments r1) as [st r2] eqn:E. pose proof (preserves_mems_load _ _ _ E) as Hm.
  unfold try_, mbind, M_bind. rewrite E. destruct st; exact Hm.
Qed.

(** A database that has been opened has an empty memtable, whatever the log holds. *)
Theorem open_ignores_the_log options d e d' :
  en_Open (T := T) options d = (inr e, d') ->
  exists r g, ready e r g /\ en_hooks e = [] /\ k_handled (en_kernel e) = 0%nat /\
    rt_mem r = mt_new (eo_dim options) (128 * 1024 * 1024) false /\ rt_frozen_mem r = [].
Proof.
  unfold en_Open. destruct (wal_Open _) as [[?|[]] wal]; [done|]. destruct (wal_Open _) as [[?|[]] gwal]; [done|].
  set (r0 := rt_new _ _ _). intros [= <- _].
  assert (mems (rt_Start r0).2 = mems r0) as Hm.
  { apply rt_Start_mems. unfold r0, rt_new. cbn [rt_mem]. unfold mt_GetCount, mt_new. cbn. by rewrite im_size_abs, im_abs_new by (apply im_wf_new; lia). }
  eexists _, _. split; [|split; [done|split; [done|]]].
  - split; [done|done| |done]. cbn. apply (ring_rep_clear kQueueCapacity ltac:(done) (MkRing ∅ 0 0 0)).
  - unfold mems in Hm. injection Hm as -> ->. done.
Qed.
End opening.

(** ** Concrete databases *)

#[local] Existing Instance test_f32.
#[local] Existing Instance test_idmap.
#[local] Existing Instance test_idmap_laws.
#[local] Existing Instance test_aes.
#[local] Existing Instance test_sort.
#[local] Existing Instance test_sidecars.
#[local] Existing Instance test_kernels.

Definition test_options : EmbeddedOptions := MkEmbedded "db" 2 kL2 kNever test_params 0 0 true false false [].
Definition test_disk : Disk := MkDisk (MkFs ∅ []) (MkFs ∅ []).
Definition test_times (n : nat) : Times := MkTimes 0 0 (fun _ => 0) 50 test_clock.
(** A clock that stands still, and one that jumps by two milliseconds. *)
Definition still (n : nat) : Z := 0.
Definition jumping (n : nat) : Z := Z.of_nat n * 2000000.

Abbreviation Db := (Database (T := @FlatHashMemMap (option bytes))).
Definition closed_db : Db := MkDb None test_disk false 0 false [].
Definition open_db (steady : nat -> Z) : U Db unit := db_Open steady test_options.
Definition add_db (steady : nat -> Z) (id : Z) (v : vec) : U Db unit :=
  db_AddVector test_decode (fun x => x) (fun _ _ => false) kL2 test_params test_times steady id v md_default.
Definition get_db (steady : nat -> Z) (id : Z) : U Db (vec * Metadata) :=
  db_Get test_decode (fun x => x) (fun _ _ => false) kL2 test_params test_times steady id [] md_default.

(** An acknowledged vector is read back, and gone after closing and opening. *)
Theorem database_reopen_loses_vector :
  fst <$> (open_db still ;; add_db still 7 [1; 2] ;; get_db still 7) closed_db = Some (inr ([1; 2], md_default)) /\
  fst <$> (open_db still ;; add_db still 7 [1; 2] ;; db_Close ;; open_db still ;; get_db still 7) closed_db =
    Some (inl (NotFound "vector not found")).
Proof. split; vm_compute; reflexivity. Qed.

(** The opened database and its pods. *)
Definition test_engine : StorageEngine (T := @FlatHashMemMap (option bytes)) :=
  match (en_Open test_options test_disk).1 with inr e => e | inl _ => MkEngine k_new [] end.
Definition test_db : Db := MkDb (Some test_engine) test_disk true (128 * 1024 * 1024 * 80 / 100) true [].
Definition test_shard_of (e : StorageEngine (T := @FlatHashMemMap (option bytes))) := default (test_rt 0) (k_index (en_kernel e)).
Definition test_graph_of (e : StorageEngine (T := @FlatHashMemMap (option bytes))) := default (test_wal, MkGraph ∅ 0) (k_graph (en_kernel e)).

Lemma test_db_ready : db_ready test_db (test_shard_of test_engine) (test_graph_of test_engine) 0.
Proof.
  split; [|reflexivity]. exists test_engine. split; [reflexivity|]. split; [|split; vm_compute; reflexivity].
  split; [vm_compute; reflexivity|vm_compute; reflexivity| |vm_compute; reflexivity].
  exact (ring_rep_clear kQueueCapacity ltac:(done) (MkRing ∅ 0 0 0)).
Qed.

Lemma test_shard_inv : rt_inv (test_shard_of test_engine) /\ writes_through (test_shard_of test_engine).
Proof.
  split; [split|split]; [..|vm_compute; congruence|vm_compute; reflexivity].
  - apply (mem_ok_new 2).
  - constructor.
  - vm_compute. reflexivity.
  - exists 1. vm_compute. reflexivity.
Qed.

Lemma database_refines_store_witness :
  let ops := [DbAdd 7 [1; 2] md_default; DbAdd 8 [] md_default; DbDelete 9; DbBatch [7] [[3; 4]]; DbFlush] in
  exists results db', run_db test_decode (fun x => x) (fun _ _ => false) kL2 test_params test_times still ops test_db = Some (inr results, db') /\
    results = [inr tt; inl (InvalidArgument "vector put-meta invalid payload"); inr tt; inr tt; inr tt].
Proof.
  intros ops.
  destruct (database_refines_store test_decode (fun x => x) (fun _ _ => false) kL2 test_params test_times still ltac:(intros n; reflexivity)
    ops test_db _ _ 0 test_db_ready (proj1 test_shard_inv) (proj2 test_shard_inv)) as (results & db' & r' & E & _).
  - apply (bool_decide_unpack _). vm_compute. exact I.
  - vm_compute. repeat split; congruence.
  - exists results, db'. split; [exact E|]. apply (f_equal (fmap fst)) in E. vm_compute in E. by injection E as <-.
Defined.

Lemma late_call_is_lost_witness :
  exists e', call test_decode (fun x => x) (fun _ _ => false) kL2 test_params test_times jumping kIndex Op_kDelete (PId 7) RStatus ONone
      test_engine = Some (inr ONone, e') /\ rb_size (k_queue (en_kernel e')) = 1.
Proof.
  destruct test_db_ready as [(e & Ee & Hr & _) _]. injection Ee as <-.
  destruct (late_call_is_lost test_decode (fun x => x) (fun _ _ => false) kL2 test_params test_times jumping
    kIndex Op_kDelete (PId 7) RStatus ONone test_engine _ _ Hr ltac:(vm_compute; congruence)) as (e' & E & _).
  exists e'. split; [exact E|]. apply (f_equal (fmap (fun x => rb_size (k_queue (en_kernel (snd x)))))) in E.
  vm_compute in E. by injection E.
Defined.
