(* ===== verification/VectorEngine.v ===== *)
(** * The vector engine of a membrane (src/core/vector_engine/vector_engine.cc)

    One log, one memtable, one shard runtime.  Opening replays the log into the
    memtable before the runtime starts.  Null output pointers, the Vulkan
    context, the zero-copy results of a search, lexical search and
    synchronisation are not modelled. *)
From S2P Require Import Prelude FlatHash Env Types Wal Recovery Text PosixFile Manifest MemTable Segment Layers Runtime Compact SearchParts Search Database.

Open Scope Z_scope.

(** src/core/vector_engine/vector_engine.cc:18-19 [kArenaBlockBytes]. *)
Definition kArenaBlockBytes : Z := 2 ^ 20.
Definition kWalSegmentBytes : Z := 64 * 2 ^ 20.

(** The options the engine reads. *)
Record VectorOptions : Type := MkVecOptions {
  vo_path : path;
  vo_dim : Z;
  vo_enable_quantization : bool;
  vo_fsync : FsyncPolicy;
  vo_index_params : IndexParams;
  vo_enable_encryption_at_rest : bool;
  vo_encryption_key_hex : bytes;
  vo_write_coalesce_window_us : Z;
  vo_write_coalesce_batch_size : Z
}.

Section vector_engine.
Context {T : Type} `{IdMap T (option bytes)} `{F32} `{AesGcm} `{Sidecars} `{Kernels} `{HitSort}.
Context (quant_decode : SegmentReader -> bytes -> vec).
Context (Hash : Z -> Z) (beyond_radius : Filter -> Metadata -> bool).

(** src/core/vector_engine/vector_engine.h:118-131 [VectorEngine]. [ve_fs] is the disk while there is no
    runtime.  The retention limits and the synchronised sequence number are only
    handed to the runtime, which does not use them in what is modelled. *)
Record VectorEngine : Type := MkVe {
  ve_opt : VectorOptions;
  ve_kind : MembraneKind;
  ve_metric : MetricType;
  ve_ttl_sec : Z;
  ve_opened : bool;
  ve_runtime : option (VectorRuntime T);
  ve_fs : fs
}.

(** src/core/vector_engine/vector_engine.cc:23-36 [VectorEngine::VectorEngine]. *)
Definition ve_new (opt : VectorOptions) (kind : MembraneKind) (metric : MetricType) (ttl_sec : Z) (f : fs) : VectorEngine :=
  MkVe opt kind metric ttl_sec false None f.

Definition ve_set (opened : bool) (rt : option (VectorRuntime T)) (f : fs) (ve : VectorEngine) : VectorEngine :=
  MkVe (ve_opt ve) (ve_kind ve) (ve_metric ve) (ve_ttl_sec ve) opened rt f.

(** src/storage/wal/wal.cc:79-88 [Wal::~Wal]. What it leaves on the disk. *)
Definition wal_destroy (w : Wal) : fs :=
  match w_file w with
  | Some h => (wf_Close h (w_env w)).2
  | None => w_env w
  end.

(** src/core/vector_engine/vector_engine.cc:40-49 [VectorEngine::EnsureOpen]. *)
Definition ve_EnsureOpen : U VectorEngine unit :=
  ve ← uget;
  uguard (ve_opened ve) (InvalidArgument "vector_engine not opened") ;;
  uguard (bool_decide (ve_kind ve = kVector)) (InvalidArgument "vector_engine requires VECTOR membrane") ;;
  uguard (negb (vo_dim (ve_opt ve) =? 0)) (InvalidArgument "vector_engine requires dim > 0").

(** src/core/vector_engine/vector_engine.cc:51-56 [VectorEngine::ValidateVector]. *)
Definition ValidateVector (v : vec) : U VectorEngine unit :=
  ve ← uget;
  uguard (u32 (zlen v) =? vo_dim (ve_opt ve)) (InvalidArgument "vector_engine dim mismatch").

(** The log and the memtable of a new runtime. *)
Definition quantize_inmem (opt : VectorOptions) : bool :=
  vo_enable_quantization opt && negb (bool_decide (ip_quant_type (vo_index_params opt) = kNone)).
Definition ve_conf (ve : VectorEngine) : RtConf :=
  MkRtConf (path_join (vo_path (ve_opt ve)) "data") (vo_dim (ve_opt ve)) (ve_kind ve) (quantize_inmem (ve_opt ve)) (ve_ttl_sec ve)
    (vo_write_coalesce_window_us (ve_opt ve)) (vo_write_coalesce_batch_size (ve_opt ve)).
Definition ve_wal (opt : VectorOptions) (f : fs) : Wal :=
  wal_new f (vo_path opt) 0 kWalSegmentBytes (vo_fsync opt) (vo_enable_encryption_at_rest opt) (vo_encryption_key_hex opt).

(** src/core/vector_engine/vector_engine.cc:64-140 [VectorEngine::OpenLocked]. *)
Definition ve_OpenLocked : U VectorEngine unit := fun ve =>
  let opt := ve_opt ve in
  if negb (bool_decide (ve_kind ve = kVector)) then Some (inl (InvalidArgument "vector_engine only supports VECTOR membranes"), ve) else
  if vo_dim opt =? 0 then Some (inl (InvalidArgument "vector_engine requires dim > 0"), ve) else
  let '(st, f) := CreateDirIfMissing (vo_path opt) (ve_fs ve) in
  match st with
  | inl _ => Some (inl (IOError "vector_engine CreateDirIfMissing failed"), ve_set false None f ve)
  | inr _ =>
  let '(st, wal) := wal_Open (ve_wal opt f) in
  match st with
  | inl e => Some (inl e, ve_set false None (wal_destroy wal) ve)
  | inr _ =>
  let '(st, (wal, mem)) := wal_ReplayInto (wal, mt_new (vo_dim opt) kArenaBlockBytes (quantize_inmem opt)) in
  match st with
  | inl e => Some (inl e, ve_set false None (wal_destroy wal) ve)
  | inr _ =>
  let f := (fs_create_directories "" (w_env wal)).2 in
  let '(st, r) := rt_Start (rt_new (ve_conf ve) (set_fs f wal) mem) in
  match st with
  | inl e => Some (inl e, ve_set false None (wal_destroy (rt_wal r)) ve)
  | inr _ => Some (inr tt, ve_set true (Some r) f ve)
  end end end end.

(** src/core/vector_engine/vector_engine.cc:58-62 [VectorEngine::Open]. *)
Definition ve_Open : U VectorEngine unit :=
  ve ← uget;
  if ve_opened ve then mret tt else ve_OpenLocked.

(** src/core/vector_engine/vector_engine.cc:142-148 [VectorEngine::Close]. *)
Definition ve_Close : U VectorEngine unit :=
  umodify (fun ve =>
    if negb (ve_opened ve) then ve
    else ve_set false None (match ve_runtime ve with Some r => wal_destroy (rt_wal r) | None => ve_fs ve end) ve).

(** [runtime_->op()]; there must be a runtime. *)
Definition on_runtime {A} (m : M (VectorRuntime T) A) : U VectorEngine A := fun ve =>
  r ← ve_runtime ve;
  let '(res, r) := m r in
  Some (res, ve_set (ve_opened ve) (Some r) (ve_fs ve) ve).
Definition ask_runtime {A} (q : VectorRuntime T -> option (Status + A)) : U VectorEngine A := fun ve =>
  r ← ve_runtime ve;
  res ← q r;
  Some (res, ve).

(** src/core/vector_engine/vector_engine.cc:160-168 [VectorEngine::Put]. The overload without metadata
    passes the default. *)
Definition ve_Put (now_us id : Z) (v : vec) (meta : Metadata) : U VectorEngine unit :=
  ve_EnsureOpen ;; ValidateVector v ;; on_runtime (rt_Put now_us id v meta).

Fixpoint ValidateVectors (vs : list vec) : U VectorEngine unit :=
  match vs with
  | [] => mret tt
  | v :: vs => ValidateVector v ;; ValidateVectors vs
  end.

(** src/core/vector_engine/vector_engine.cc:170-183 [VectorEngine::PutBatch]. The overload on vectors of
    vectors is the same. *)
Definition ve_PutBatch (ids : list Z) (vectors : list vec) : U VectorEngine unit :=
  ve_EnsureOpen ;;
  uguard (zlen ids =? zlen vectors) (InvalidArgument "vector_engine ids/vectors size mismatch") ;;
  ValidateVectors vectors ;;
  if bool_decide (ids = []) then mret tt else on_runtime (rt_PutBatch ids vectors).

(** src/core/vector_engine/vector_engine.cc:210-217 [VectorEngine::Get]. *)
Definition ve_Get (now_sec id : Z) : U VectorEngine (vec * Metadata) :=
  ve_EnsureOpen ;; ask_runtime (rt_Get quant_decode now_sec id).

(** src/core/vector_engine/vector_engine.cc:219-224 [VectorEngine::Exists]. *)
Definition ve_Exists (now_sec id : Z) : U VectorEngine bool :=
  ve_EnsureOpen ;; ask_runtime (rt_Exists quant_decode now_sec id).

(** src/core/vector_engine/vector_engine.cc:226-230 [VectorEngine::Delete]. *)
Definition ve_Delete (id : Z) : U VectorEngine unit := ve_EnsureOpen ;; on_runtime (rt_Delete id).

(** src/core/vector_engine/vector_engine.cc:234-238 [VectorEngine::Flush]. *)
Definition ve_Flush : U VectorEngine unit := ve_EnsureOpen ;; on_runtime rt_Flush.

(** src/core/vector_engine/vector_engine.cc:240-244 [VectorEngine::Freeze]. *)
Definition ve_Freeze (rounds : nat) (clock : nat -> Z * Z) : U VectorEngine unit := ve_EnsureOpen ;; on_runtime (rt_Freeze rounds clock).

(** src/core/vector_engine/vector_engine.cc:246-250 [VectorEngine::Compact]. *)
Definition ve_Compact (rounds : nat) (clock : nat -> Z * Z) : U VectorEngine unit :=
  ve_EnsureOpen ;; on_runtime (rt_Compact quant_decode rounds clock).

(** src/core/vector_engine/vector_engine.cc:262-264 [VectorEngine::MemTableBytesUsed]. *)
Definition ve_MemTableBytesUsed (ve : VectorEngine) : Z :=
  match ve_runtime ve with Some r => mt_BytesUsed (rt_mem r) | None => 0 end.

(** src/core/vector_engine/vector_engine.cc:268-275 [VectorEngine::GetSnapshot]. *)
Definition ve_GetSnapshot : U VectorEngine (option (VectorSnapshot T)) :=
  ve_EnsureOpen ;; ask_runtime (fun r => Some (inr (rt_snapshot r))).

(** src/core/shard/runtime.cc:1010-1045 [VectorRuntime::HandleIterator]. The active memtable is part of
    the view when it has entries. *)
Definition HandleIterator (now_sec : Z) (r : VectorRuntime T) : option (Status + VectorIterator T) :=
  match rt_snapshot r with
  | None => Some (inl (MkStatus kInternal "HandleIterator: snapshot is null"))
  | Some base =>
      let snap := if 0 <? mt_GetCount (rt_mem r)
                  then MkSnap (vs_version base) (vs_frozen_memtables base) (vs_segments base) (Some (rt_mem r)) else base in
      it ← it_new quant_decode snap (rc_ttl_sec (rt_conf r)) now_sec;
      Some (inr it)
  end.

(** src/core/shard/runtime.cc:721-730 [VectorRuntime::NewIterator]. *)
Definition rt_NewIterator (now_sec : Z) (r : VectorRuntime T) : option (Status + VectorIterator T) :=
  if negb (rt_started r) then Some (inl (Aborted "shard not started")) else HandleIterator now_sec r.

(** src/core/vector_engine/vector_engine.cc:277-282 [VectorEngine::NewIterator]. *)
Definition ve_NewIterator (now_sec : Z) : U VectorEngine (VectorIterator T) := ve_EnsureOpen ;; ask_runtime (rt_NewIterator now_sec).

(** src/core/vector_engine/vector_engine.cc:284-296 [VectorEngine::NewIterator]. On a snapshot of this
    engine; an iterator on a null snapshot dereferences it. *)
Definition ve_NewIterator_at (now_sec : Z) (snap : option (VectorSnapshot T)) : U VectorEngine (VectorIterator T) :=
  ve_EnsureOpen ;;
  ask_runtime (fun r => snap ← snap; it ← it_new quant_decode snap (rc_ttl_sec (rt_conf r)) now_sec; Some (inr it)).

(** src/core/vector_engine/vector_engine.cc:306-354 [VectorEngine::Search]. The hits; the counts beside
    them are constants. *)
Definition ve_Search (clock : nat -> Z) (query : vec) (topk : Z) (opts : SearchOptions) : U VectorEngine (list SearchHit) :=
  ve_EnsureOpen ;;
  ve ← uget;
  uguard (u32 (zlen query) =? vo_dim (ve_opt ve)) (InvalidArgument "vector_engine dim mismatch") ;;
  if topk =? 0 then mret [] else
  ask_runtime (rt_Search Hash beyond_radius (ve_metric ve) (vo_index_params (ve_opt ve)) clock query topk opts).

(** src/core/vector_engine/vector_engine.cc:356-370 [VectorEngine::Search]. *)
Definition ve_SearchInto {Sink : Type} (Push : Z -> Z -> Sink -> Sink) (now_sec : Z) (query : vec) (topk : Z) (opts : SearchOptions)
    (sink : Sink) : U VectorEngine Sink :=
  ve_EnsureOpen ;;
  ve ← uget;
  uguard (u32 (zlen query) =? vo_dim (ve_opt ve)) (InvalidArgument "vector_engine dim mismatch") ;;
  if topk =? 0 then mret sink else
  ask_runtime (rt_SearchInto Hash beyond_radius (ve_metric ve) (vo_index_params (ve_opt ve)) Push now_sec query topk opts sink).

(** src/core/vector_engine/vector_engine.cc:379-444 [VectorEngine::SearchBatch]. The list of results that
    the runtime fills is empty. *)
Definition ve_SearchBatch (clock : nat -> Z) (queries : vec) (num_queries topk : Z) (opts : SearchOptions) : U VectorEngine (list (list SearchHit)) :=
  ve_EnsureOpen ;;
  ve ← uget;
  uguard (zlen queries =? num_queries * vo_dim (ve_opt ve)) (InvalidArgument "vector_engine queries dimension mismatch for batch search") ;;
  if (num_queries =? 0) || (topk =? 0) then mret (replicate (Z.to_nat num_queries) []) else
  per_query ← ask_runtime (rt_SearchBatchLocal Hash beyond_radius (ve_metric ve) (vo_index_params (ve_opt ve)) clock queries
                 (seqZ 0 num_queries) topk opts []);
  udefined (if zlen per_query <? num_queries then None else Some (take (Z.to_nat num_queries) per_query)).
End vector_engine.
