(* ===== verification/VectorEngineTheorems.v ===== *)
(** * Theorems about the vector engine

    A run of writes, flushes, freezes, compactions and restarts keeps the files
    of the engine in step with its memory: opening the files gives the same answers,
    and the answers are those of a map.  At the end, the failure of batches of
    queries. *)
From S2P Require Import Prelude FlatHash Env Types Wal WalCodec WalLog WalTheorems Recovery Text PosixFile Manifest MemTable MemTableTheorems.
From S2P Require Import SegmentManifest Segment SegmentTheorems Layers Runtime RuntimeTheorems FreezeDisk FreezeTheorems Compact CompactTheorems SearchParts Search SearchTheorems Database VectorEngine.

Open Scope Z_scope.

(** ** Reading a log *)

(** What a reader finds after the numbered records, over what was there. *)
Fixpoint log_answer (rs : list (Z * wal_rec)) (id : Z) (before : LookupResult) : LookupResult :=
  match rs with
  | [] => before
  | (seq, r) :: rs =>
      log_answer rs id
        match r with
        | RPut i v m => if decide (id = i) then LFound v (kept (replayed_meta seq m)) else before
        | RDel i => if decide (id = i) then LTombstone else before
        | RRaw _ _ _ => before
        end
  end.

Lemma log_answer_app rs1 rs2 id x : log_answer (rs1 ++ rs2) id x = log_answer rs2 id (log_answer rs1 id x).
Proof. revert x. induction rs1 as [|[seq r] rs1 IH]; intros x; [done|]. apply IH. Qed.

Section replay.
Context {T : Type} `{IdMapLaws T (option bytes)} `{F32}.

(** A record that a replay can read and the table accepts. *)
Definition log_fits (dim : Z) (r : wal_rec) : Prop := rec_fits dim r /\ readable r = true.

Lemma replay_answers dim es : forall w (m : MemTable T),
  mem_ok dim m -> Forall (fun e => log_fits dim (en_rec e) /\ rec_ok (en_rec e)) es ->
  exists w' m', replay_entries es (w, m) = (inr tt, (w', m')) /\ mem_ok dim m' /\
    (exists seq, w' = set_seq seq w /\ w_seq w <= seq /\ (forall bound, w_seq w <= bound -> Forall (fun e => en_seq e <= bound) es -> seq <= bound)) /\
    forall i, mem_answer dim m' i = log_answer (untag <$> es) i (mem_answer dim m i).
Proof.
  induction es as [|e es IH]; intros w m Hm Hfit.
  { exists w, m. split; [done|]. split; [done|]. split; [|done]. exists (w_seq w). split; [by destruct w|]. split; [lia|]. auto. }
  apply Forall_cons in Hfit as [[[He Hrd] Hok] Hfit]. destruct e as [seq r body]. cbn [en_rec] in *.
  assert (exists m1, apply_rec seq r m = (inr tt, m1) /\ mem_ok dim m1 /\
    forall i, mem_answer dim m1 i = log_answer [(seq, r)] i (mem_answer dim m i)) as (m1 & E1 & Hm1 & Ha1).
  { destruct r as [id v meta|id|op k v]; cbn in He |- *.
    - destruct He as [Hd Hid], Hok as (_ & _ & Hv & _). by apply mem_put.
    - by apply mem_delete.
    - by exists m. }
  set (w1 := if w_seq w <? seq then set_seq seq w else w).
  destruct (IH w1 m1 Hm1 Hfit) as (w' & m' & E & Hm' & (s & -> & Hle & Hb) & Ha').
  assert (w_seq w1 = Z.max (w_seq w) seq) as Es by (unfold w1; destruct (Z.ltb_spec (w_seq w) seq); cbn; lia).
  exists (set_seq s w1), m'. split; [|split; [done|split]].
  - cbn [replay_entries en_seq en_rec]. unfold replay_one, on_sink, note_seq, mmodify, mbind, M_bind. rewrite Hrd. cbn [fst snd]. rewrite E1. exact E.
  - exists s. split; [unfold w1; by destruct (w_seq w <? seq), w|]. split; [lia|].
    intros bound Hw [? ?]%Forall_cons. cbn in *. apply Hb; [lia|done].
  - intros i. rewrite Ha', Ha1. done.
Qed.
End replay.

(** ** What a freeze leaves in place *)

Section stays.
Context {T : Type} `{IdMap T (option bytes)} `{F32}.

Lemma conf_on_fs {A} (m : M fs A) : preserves w_conf (on_fs m).
Proof. intros w x w' E. unfold on_fs in E. destruct (m (get_fs w)). by injection E as _ <-. Qed.
Lemma conf_ignore {A} (m : M Wal A) : preserves w_conf m -> preserves w_conf (ignore m).
Proof. intros Hm w x w' E. unfold ignore in E. destruct (m w) eqn:Em. injection E as _ <-. by eapply Hm. Qed.

Ltac keep_conf :=
  repeat (cbv zeta; first
    [ solve [auto] | apply preserves_bind; [|intros ?] | apply conf_on_fs | apply preserves_get | apply preserves_ret | apply preserves_fail | apply preserves_guard
    | by apply preserves_modify | apply preserves_try | apply conf_ignore | case_match ]).

Lemma conf_wal_Open : preserves w_conf wal_Open.
Proof.
  assert (forall fuel g, preserves w_conf (count_segments fuel g)) as Hcount.
  { induction fuel as [|fuel IH]; intros g; cbn [count_segments]; keep_conf. }
  assert (forall gs, preserves w_conf (check_segments gs)) as Hcheck.
  { induction gs as [|g gs IH]; cbn [check_segments]; unfold check_segment; keep_conf. }
  unfold wal_Open, file_append. keep_conf.
Qed.

Lemma conf_wal_Reset : preserves w_conf wal_Reset.
Proof.
  assert (forall fuel g, preserves w_conf (delete_segments fuel g)) as Hdel.
  { induction fuel as [|fuel IH]; intros g; cbn [delete_segments]; keep_conf. }
  pose proof conf_wal_Open. unfold wal_Reset. keep_conf.
Qed.

(** The parts of a shard that are as they were. *)
Definition fixed_view (r : VectorRuntime T) : bool * WalConf := (rt_started r, w_conf (rt_wal r)).

Lemma fixed_on_fs {A} (m : M fs A) : preserves fixed_view (on_fs m).
Proof. intros r x r' E. unfold on_fs in E. destruct (m (get_fs r)). by injection E as _ <-. Qed.

Lemma fixed_of_sum {A} (x : Status + A) : preserves fixed_view (of_sum x).
Proof. intros r y r' E. by injection E as _ <-. Qed.

Lemma fixed_job_step {A} prefix (m : M (VectorRuntime T) A) : preserves fixed_view m -> preserves fixed_view (job_step prefix m).
Proof. intros Hm r x r' E. unfold job_step in E. destruct (m r) eqn:E1. injection E as _ <-. by eapply Hm. Qed.

Lemma fixed_reset : preserves fixed_view (on_wal wal_Reset).
Proof.
  intros r x r' E. unfold on_wal in E. destruct (wal_Reset (rt_wal r)) as [y w] eqn:E1. injection E as _ <-.
  unfold fixed_view. cbn. by rewrite (conf_wal_Reset _ _ _ E1).
Qed.

Lemma fixed_freeze_step now tick s : preserves fixed_view (freeze_step (T := T) now tick s).
Proof.
  unfold freeze_step, freeze_build, freeze_finalize.
  repeat (cbv zeta; first
    [ apply preserves_bind; [|intros ?] | apply fixed_on_fs | apply fixed_of_sum | apply fixed_job_step | apply fixed_reset
    | apply preserves_get | apply preserves_ret | apply preserves_fail
    | apply preserves_modify; intros ?; by repeat case_match | case_match ]).
Qed.

Lemma fixed_freeze rounds clock : preserves fixed_view (rt_Freeze (T := T) rounds clock).
Proof.
  unfold rt_Freeze, HandleFreeze. apply preserves_bind; [apply preserves_get|]. intros r.
  apply preserves_bind; [apply preserves_guard|]. intros _. apply preserves_bind.
  { apply preserves_modify. intros r0. destruct (_ <? _); [|done]. unfold RotateMemTable. by destruct (_ =? 0). }
  intros _. apply preserves_bind; [apply preserves_get|]. intros r0. case_bool_decide; [apply preserves_ret|].
  generalize (MkFreeze kBuild (rt_frozen_mem r0) 0 0 None [] None [] false [] (rt_wal_epoch r0)).
  induction rounds as [|rounds IH]; intros s; cbn [freeze_run]; [apply preserves_fail|]. destruct (clock rounds).
  apply preserves_bind; [apply fixed_freeze_step|]. intros [s'|]; [apply IH|apply preserves_ret].
Qed.

Lemma fixed_compact_step quant_decode now tick s : preserves fixed_view (compact_step (T := T) quant_decode now tick s).
Proof.
  assert (forall n inputs seg heap, preserves fixed_view (fill_heap (T := T) inputs n seg heap)) as Hfill.
  { induction n as [|n IH]; intros inputs seg heap; cbn [fill_heap]; [apply preserves_ret|]. apply preserves_bind; [|intros; apply IH].
    unfold push_entry, mem_read. destruct (_ !! _); [|apply preserves_fail]. apply preserves_bind; [|intros; apply preserves_ret].
    destruct (sr_ReadAtId _ _); [apply preserves_ret|apply preserves_fail]. }
  assert (forall old, preserves fixed_view (remove_old (T := T) old)) as Hold.
  { induction old as [|seg old IH]; cbn [remove_old]; [apply preserves_ret|]. apply preserves_bind; [apply fixed_on_fs|done]. }
  unfold compact_step, compact_build, compact_entry, compact_new_id, push_entry, mem_read, compact_finalize.
  repeat (cbv zeta; first
    [ apply Hfill | apply Hold | apply preserves_bind; [|intros ?] | apply fixed_on_fs | apply fixed_job_step
    | apply preserves_get | apply preserves_ret | apply preserves_fail
    | apply preserves_modify; intros ?; by repeat case_match | case_match ]).
Qed.

Lemma fixed_compact quant_decode rounds clock : preserves fixed_view (rt_Compact (T := T) quant_decode rounds clock).
Proof.
  unfold rt_Compact, HandleCompact. apply preserves_bind; [apply preserves_get|]. intros r.
  apply preserves_bind; [apply preserves_guard|]. intros _. apply preserves_bind; [apply preserves_get|]. intros r0. apply preserves_bind.
  { generalize (rt_segments r0). intros segs. induction segs as [|seg segs IH]; cbn [segment_sizes]; [apply preserves_ret|].
    apply preserves_bind; [apply fixed_on_fs|]. intros []; [apply preserves_fail|]. apply preserves_bind; [done|]. intros. apply preserves_ret. }
  intros _. cbv zeta. destruct (_ && _); [apply preserves_ret|].
  generalize (MkCompact kBuild (rt_segments r0) [] (2 ^ 64 - 1) true None [] 0 [] (rt_segments r0)).
  induction rounds as [|rounds IH]; intros s; cbn [compact_run]; [apply preserves_fail|]. destruct (clock rounds).
  apply preserves_bind; [apply fixed_compact_step|]. intros [s'|]; [apply IH|apply preserves_ret].
Qed.
End stays.

(** ** Durable shards *)

(** Two answers agree; the metadata may differ when [loose] holds. *)
Definition agree (loose : Prop) (a b : LookupResult) : Prop :=
  match a, b with
  | LFound v m, LFound v' m' => v = v' /\ (m = m' \/ loose)
  | LTombstone, LTombstone | LNotFound, LNotFound => True
  | _, _ => False
  end.

Lemma agree_refl P a : agree P a a.
Proof. destruct a; cbn; auto. Qed.
Lemma agree_weaken (P Q : Prop) a b : (P -> Q) -> agree P a b -> agree Q a b.
Proof. intros HPQ. destruct a, b; cbn; try done. intros [-> [->|?]]; auto. Qed.

(** An answer over another. *)
Definition over (a b : LookupResult) : LookupResult := match a with LNotFound => b | _ => a end.

Section durable.
Context {T : Type} `{IdMapLaws T (option bytes)} `{F32} `{AesGcmLaws}.
Context (quant_decode : SegmentReader -> bytes -> vec) (c : WalConf).
Implicit Types (r : VectorRuntime T) (B : Z -> Prop) (names : list bytes).

(** The records of the log say of every identifier what the memtables say;
    [B] holds for identifiers written in batches, whose metadata the log does
    not keep. *)
Record log_holds B (dim : Z) (w : Wal) (L : list entry) (ms : list (MemTable T)) : Prop := {
  lh_fits : Forall (fun e => log_fits dim (en_rec e)) L;
  lh_seqs : Forall (fun e => en_seq e <= w_seq w) L;
  lh_answer id : id_ok id -> agree (B id) (log_answer (untag <$> L) id LNotFound) (mems_answer dim ms id)
}.

Definition newest_first r : list (MemTable T) := rt_mem r :: reverse (rt_frozen_mem r).
Definition dir_of r : path := rc_data_dir (rt_conf r).
Definition files_of r : gmap path bytes := fs_files (w_env (rt_wal r)).

(** The files hold everything a lookup finds; [ns] records and [ng] rotations
    still fit the counters of the log. *)
Record durable B (ns ng : Z) names r : Prop := {
  du_inv : rt_inv r;
  du_through : writes_through r;
  du_started : rt_started r = true;
  du_kind : rc_kind (rt_conf r) = kVector;
  du_aes : aes_available (w_conf (rt_wal r));
  du_log : exists segs es, wal_inv ns ng (rt_wal r) segs es /\
    log_holds B (rc_dim (rt_conf r)) (rt_wal r) (log_entries (segs ++ [(es, [])])) (newest_first r);
  du_list : load_result (files_of r !! curr_path (dir_of r)) (files_of r !! prev_path (dir_of r)) = inr names;
  du_names : Forall dat_name names;
  du_segs : Forall2 (fun name => on_disk (files_of r) (seg_path (dir_of r) name)) names (rt_segments r);
  du_wconf : w_conf (rt_wal r) = c
}.

Lemma on_disk_ext fm fm' p seg : fm' !! p = fm !! p -> on_disk fm p seg -> on_disk fm' p seg.
Proof. intros E (data & Hp & Hd). exists data. by rewrite E. Qed.

(** The list and the segments are not log files. *)
Lemma disk_frame dir names segs fm fm' :
  (forall p, ~ wal_path p -> fm' !! p = fm !! p) -> Forall dat_name names ->
  load_result (fm !! curr_path dir) (fm !! prev_path dir) = inr names ->
  Forall2 (fun name => on_disk fm (seg_path dir name)) names segs ->
  load_result (fm' !! curr_path dir) (fm' !! prev_path dir) = inr names /\
  Forall2 (fun name => on_disk fm' (seg_path dir name)) names segs.
Proof.
  intros Hf Hn Hl Hs. split.
  - rewrite !Hf; [done|apply (manifest_not_wal dir); unfold manifest_path; by auto..].
  - clear Hl. induction Hs as [|name seg names segs Hd _ IH]; [constructor|]. apply Forall_cons in Hn as [Hn1 Hn].
    constructor; [|by apply IH]. eapply on_disk_ext; [|exact Hd]. by apply Hf, seg_path_not_wal.
Qed.

Lemma number_seqs rs : forall seq, Forall (fun p => p.1 <= seq + zlen rs) (number seq rs).
Proof.
  induction rs as [|x rs IH]; intros seq; [constructor|]. cbn [number]. constructor; [cbn; len|].
  eapply Forall_impl; [apply IH|]. cbn. intros p Hp. revert Hp. len.
Qed.

(** The shard after a logged write. *)
Definition written (rotates : bool) (w' : Wal) (m' : MemTable T) r : VectorRuntime T :=
  let r1 := with_mem m' (note_wal (with_wal w' r)) in count_op (if rotates then rotate_if_full r1 else r1).

Lemma written_layers rotates w' m' r id :
  rt_inv r -> mems_answer (rc_dim (rt_conf r)) (newest_first (written rotates w' m' r)) id =
    over (mem_answer (rc_dim (rt_conf r)) m' id) (mems_answer (rc_dim (rt_conf r)) (reverse (rt_frozen_mem r)) id).
Proof.
  intros Hi. unfold written, newest_first. destruct rotates; [|cbn; by destruct (mem_answer _ m' id)].
  unfold rotate_if_full, RotateMemTable. destruct (_ <=? _); [destruct (_ =? 0)|]; cbn [count_op PublishSnapshot with_mem with_layers rt_mem rt_frozen_mem mems_answer note_wal with_wal rt_conf];
    [by destruct (mem_answer _ m' id)| |by destruct (mem_answer _ m' id)].
  rewrite reverse_snoc, (ri_plain _ Hi). cbn [mems_answer]. rewrite mem_answer_new. by destruct (mem_answer _ m' id).
Qed.

Lemma written_fields rotates w' m' r :
  let r' := written rotates w' m' r in
  rt_conf r' = rt_conf r /\ rt_wal r' = w' /\ rt_segments r' = rt_segments r /\ rt_started r' = rt_started r /\
  rt_coalesce_buffer r' = rt_coalesce_buffer r.
Proof.
  unfold written. destruct rotates; [|done]. unfold rotate_if_full, RotateMemTable. destruct (_ <=? _); [destruct (_ =? 0)|]; done.
Qed.

Lemma written_inv rotates w' m' r : rt_inv r -> mem_ok (rc_dim (rt_conf r)) m' -> rt_inv (written rotates w' m' r).
Proof.
  intros Hi Hm. apply (same_data_inv _ _ (same_data_count_op _)).
  assert (rt_inv (with_mem m' (note_wal (with_wal w' r)))) as Hi1 by (apply rt_inv_with_mem; [by apply (same_data_inv r)|done]).
  destruct rotates; [by apply rt_inv_rotate_if_full|done].
Qed.

Lemma durable_write B B' ns ng names r o w' m' rotates :
  durable B ns ng names r -> zlen (op_recs o) <= ns -> zlen (op_recs o) <= ng -> op_ok o ->
  Forall (log_fits (rc_dim (rt_conf r))) (op_recs o) ->
  WalLog.run_op o (rt_wal r) = (inr tt, w') -> mem_ok (rc_dim (rt_conf r)) m' ->
  (forall id A R, id_ok id -> agree (B id) A (over (mem_answer (rc_dim (rt_conf r)) (rt_mem r) id) R) ->
    agree (B' id) (log_answer (number (w_seq (rt_wal r)) (op_recs o)) id A) (over (mem_answer (rc_dim (rt_conf r)) m' id) R)) ->
  durable B' (ns - zlen (op_recs o)) (ng - zlen (op_recs o)) names (written rotates w' m' r).
Proof.
  intros [Hi [Hw1 Hw2] Hst Hk Hav (segs & es & Hwal & [Hfit Hseq Hans]) Hl Hn Hs Hwc] Hns Hng Hok Hfits E Hm Hstep.
  destruct (run_op_spec ns ng (rt_wal r) segs es o Hwal Hns Hng Hok Hav) as (w1 & segs' & es' & news & E1 & Hwal' & Hu & Hlog & Hc & Hsq).
  rewrite E in E1. injection E1 as <-. destruct (written_fields rotates w' m' r) as (Ec & Ew & Es & Est & Eb).
  assert (forall p, ~ wal_path p -> fs_files (w_env w') !! p = files_of r !! p) as Hframe.
  { intros p Hp. eapply (frame_run_op p Hp o); [|exact E]. by eapply wal_inv_handle. }
  destruct (disk_frame (dir_of r) names (rt_segments r) (files_of r) (fs_files (w_env w')) Hframe Hn Hl Hs) as [Hl' Hs'].
  split; unfold dir_of, files_of in *; rewrite ?Ec, ?Ew, ?Es, ?Est in *; try done.
  - by apply written_inv.
  - split; [by rewrite Ec|by rewrite Eb].
  - by rewrite Hc.
  - exists segs', es'. split; [done|]. rewrite Hlog. split.
    + apply Forall_app. split; [done|]. apply Forall_forall. intros e He. rewrite Forall_forall in Hfits. apply Hfits.
      apply (list_elem_of_fmap_2 untag) in He. rewrite Hu in He. by apply number_rec in He.
    + apply Forall_app. split.
      * eapply Forall_impl; [exact Hseq|]. cbn. intros e He. pose proof (zlen_nonneg (op_recs o)). lia.
      * rewrite Hsq. pose proof (number_seqs (op_recs o) (w_seq (rt_wal r))) as Hq. rewrite <-Hu, Forall_fmap in Hq. exact Hq.
    + intros id Hid. rewrite fmap_app, log_answer_app, Hu, written_layers by done. apply Hstep; [done|].
      specialize (Hans id Hid). unfold newest_first in Hans. cbn [mems_answer] in Hans. unfold over. by destruct (mem_answer _ (rt_mem r) id).
  - by rewrite Hc.
Qed.

(** *** Operations *)

Lemma durable_weaken B ns ng ns' ng' names r :
  ns' <= ns -> ng' <= ng -> durable B ns ng names r -> durable B ns' ng' names r.
Proof.
  intros Hns Hng [? ? ? ? ? (segs & es & [? ? ? ? ? ? ? ? [? ?] ?] & ?) ? ? ? ?]. split; try done. exists segs, es. split; [|done]. split; try done; lia.
Qed.

Lemma durable_loosen B B' ns ng names r :
  (forall id, B id -> B' id) -> durable B ns ng names r -> durable B' ns ng names r.
Proof.
  intros HB [? ? ? ? ? (segs & es & ? & [? ? Ha]) ? ? ? ?]. split; try done. exists segs, es. split; [done|].
  split; [done..|]. intros id Hid. eapply agree_weaken; [apply HB|by apply Ha].
Qed.

(** The metadata of a put that the log keeps. *)
Definition meta_logged (meta : Metadata) : Prop := md_tenant meta <> [] \/ keeps_meta meta = false.

Lemma kept_replayed seq meta : meta_logged meta -> kept (replayed_meta seq meta) = kept (with_lsn seq meta).
Proof.
  intros Hm. unfold replayed_meta. case_bool_decide as Ht; [|done]. destruct Hm as [?|Hk]; [done|].
  unfold kept. change (keeps_meta (with_lsn seq meta)) with (keeps_meta meta). by rewrite Hk.
Qed.

Lemma put_run r w' now_us id v meta :
  rc_kind (rt_conf r) = kVector -> rt_started r = true -> writes_through r -> backpressure r = false -> vec_dim v = rc_dim (rt_conf r) ->
  wal_AppendPut id v meta (rt_wal r) = (inr tt, w') -> (mt_Put id v (with_lsn (w_seq w') meta) (rt_mem r)).1 = inr tt ->
  rt_Put now_us id v meta r = (inr tt, written true w' (mt_Put id v (with_lsn (w_seq w') meta) (rt_mem r)).2 r).
Proof.
  intros Hk Hs [Hw _] Hb Hd E Em. unfold rt_Put, HandlePut. rewrite (mbind_ok mget _ _ _ _ eq_refl).
  rewrite !mguard_ok by (rewrite ?Hk, ?Hd; first [done|apply bool_decide_eq_true_2; done|lia]).
  unfold mbind at 1, M_bind at 1. rewrite (mbind_ok mget _ _ _ _ eq_refl).
  rewrite !mguard_ok by (rewrite ?Hk, ?Hd, ?Hb; first [done|apply bool_decide_eq_true_2; done|lia]).
  rewrite (proj2 (Z.ltb_ge _ _)) by exact Hw.
  rewrite (mbind_ok (on_wal _) _ r tt (with_wal w' r)) by (unfold on_wal; by rewrite E).
  rewrite (mbind_ok (mmodify note_wal) _ _ tt (note_wal (with_wal w' r)) eq_refl), (mbind_ok mget _ _ _ _ eq_refl).
  unfold on_mem. unfold mbind, M_bind. cbn [rt_wal note_wal with_wal rt_mem].
  destruct (mt_Put id v (with_lsn (w_seq w') meta) (rt_mem r)) as [x m']. cbn [fst] in Em. by subst x.
Qed.

Lemma put_durable B ns ng names r now_us id v meta :
  durable B ns ng names r -> 0 < ns -> 0 < ng -> rec_ok (RPut id v meta) -> id_ok id -> meta_logged meta -> readable (RPut id v meta) = true ->
  exists res r', rt_Put now_us id v meta r = (res, r') /\ durable B (ns - 1) (ng - 1) names r' /\ rt_conf r' = rt_conf r.
Proof.
  intros Hdu Hns Hng Hok Hid Hm Hrd. pose proof Hdu as [Hi Hw Hst Hk Hav (segs & es & Hwal & _) _ _ _ _].
  assert (exists res, rt_Put now_us id v meta r = (res, r) \/ (vec_dim v = rc_dim (rt_conf r) /\ backpressure r = false)) as [res [E|[Hd Hb]]].
  { destruct (Z.eqb_spec (vec_dim v) (rc_dim (rt_conf r))) as [Hd|Hd].
    - destruct (backpressure r) eqn:Hb; [|eexists (inr tt); by right]. eexists. left. unfold rt_Put, HandlePut.
      rewrite (mbind_ok mget _ _ _ _ eq_refl). rewrite !mguard_ok by (rewrite ?Hk, ?Hd; first [done|apply bool_decide_eq_true_2; done|lia]).
      unfold mbind at 1, M_bind at 1. rewrite (mbind_ok mget _ _ _ _ eq_refl).
      do 2 rewrite mguard_ok by (rewrite ?Hk, ?Hd; first [done|apply bool_decide_eq_true_2; done|lia]). by rewrite Hb.
    - eexists. left. unfold rt_Put. rewrite (mbind_ok mget _ _ _ _ eq_refl).
      rewrite mguard_ok by (rewrite ?Hk; by apply bool_decide_eq_true_2). by rewrite (proj2 (Z.eqb_neq _ _) Hd). }
  { exists res, r. split; [done|]. split; [by eapply durable_weaken; [..|exact Hdu]; lia|done]. }
  destruct (append_rec_spec ns ng (rt_wal r) segs es (RPut id v meta) Hwal Hns Hng Hok Hav) as (w' & _ & _ & _ & E & _ & _ & _ & _ & Hsq & _).
  destruct (mem_put (rc_dim (rt_conf r)) (rt_mem r) id v (with_lsn (w_seq w') meta)) as (m' & Em & Hm' & Ha);
    [apply Hi|done|done|by destruct Hok as (_ & _ & ? & _)|].
  eexists _, _. split; [apply (put_run r w'); [done..|by rewrite Em]|]. rewrite Em. cbn [snd].
  split; [|apply written_fields]. apply (durable_write B B ns ng names r (OpRec (RPut id v meta)) w' m' true Hdu); cbn; try done; try (unfold zlen; cbn; lia).
  - by apply Forall_singleton.
  - intros i A R _ HA. rewrite Ha. cbn. rewrite Hsq in *. case_decide as Hd'; [|exact HA]. cbn. split; [done|]. left. by apply kept_replayed.
Qed.

Lemma delete_run r w' id :
  rt_started r = true -> wal_AppendDelete id (rt_wal r) = (inr tt, w') ->
  rt_Delete id r = (inr tt, written false w' (mt_Delete id (rt_mem r)).2 r).
Proof.
  intros Hs E. unfold rt_Delete, HandleDel. rewrite (mbind_ok mget _ _ _ _ eq_refl), mguard_ok by done.
  unfold mbind at 1, M_bind at 1. rewrite (mbind_ok (on_wal _) _ r tt (with_wal w' r)) by (unfold on_wal; by rewrite E).
  by rewrite (mbind_ok (mmodify note_wal) _ _ tt (note_wal (with_wal w' r)) eq_refl).
Qed.

Lemma delete_durable B ns ng names r id :
  durable B ns ng names r -> 0 < ns -> 0 < ng -> is_u64 id -> id_ok id ->
  exists res r', rt_Delete id r = (res, r') /\ durable B (ns - 1) (ng - 1) names r' /\ rt_conf r' = rt_conf r.
Proof.
  intros Hdu Hns Hng Hu Hid. pose proof Hdu as [Hi Hw Hst Hk Hav (segs & es & Hwal & _) _ _ _ _].
  assert (rec_ok (RDel id)) as Hok by (split; [|done]; vm_compute; reflexivity).
  destruct (append_rec_spec ns ng (rt_wal r) segs es (RDel id) Hwal Hns Hng Hok Hav) as (w' & _ & _ & _ & E & _).
  destruct (mem_delete (rc_dim (rt_conf r)) (rt_mem r) id) as (m' & Em & Hm' & Ha); [apply Hi|done|].
  eexists _, _. split; [by apply (delete_run r w')|]. rewrite Em. cbn [snd]. split; [|apply written_fields].
  apply (durable_write B B ns ng names r (OpRec (RDel id)) w' m' false Hdu); cbn; try done; try (unfold zlen; cbn; lia).
  - by apply Forall_singleton.
  - intros i A R _ HA. rewrite Ha. cbn. by case_decide.
Qed.

Lemma log_answer_batch items seq id A :
  log_answer (number seq (op_recs (OpBatch items))) id A =
  match (list_to_map (reverse items) : gmap Z vec) !! id with Some v => LFound v md_default | None => A end.
Proof.
  cbn [op_recs]. induction items as [|[i v] items IH] using rev_ind; [done|]. rewrite fmap_app, number_app, log_answer_app, IH, reverse_snoc.
  cbn [fmap list_fmap number log_answer fst snd list_to_map foldr uncurry]. case_decide as Hd.
  - subst. by rewrite lookup_insert_eq.
  - by rewrite lookup_insert_ne.
Qed.

Lemma batch_run r w' m' ids vs :
  rc_kind (rt_conf r) = kVector -> rt_started r = true -> backpressure r = false -> zlen ids = zlen vs -> ids <> [] ->
  forallb (fun v => vec_dim v =? rc_dim (rt_conf r)) vs = true ->
  wal_AppendBatch ids vs (rt_wal r) = (inr tt, w') -> mt_PutBatch ids vs (rt_mem r) = (inr tt, m') ->
  rt_PutBatch ids vs r = (inr tt, written true w' m' r).
Proof.
  intros Hk Hs Hb Hl Hne Hd E Em. unfold rt_PutBatch, HandleBatchPut. rewrite (mbind_ok mget _ _ _ _ eq_refl).
  rewrite !mguard_ok by (rewrite ?Hk; first [done|apply bool_decide_eq_true_2; done|lia]).
  rewrite bool_decide_eq_false_2 by done. rewrite !mguard_ok by done.
  unfold mbind at 1, M_bind at 1. rewrite (mbind_ok mget _ _ _ _ eq_refl).
  rewrite !mguard_ok by (rewrite ?Hk, ?Hb; first [done|apply bool_decide_eq_true_2; done|lia]).
  rewrite (mbind_ok (on_wal _) _ r tt (with_wal w' r)) by (unfold on_wal; by rewrite E).
  rewrite (mbind_ok (mmodify note_wal) _ _ tt (note_wal (with_wal w' r)) eq_refl).
  unfold on_mem. unfold mbind, M_bind. cbn [rt_wal note_wal with_wal rt_mem]. by rewrite Em.
Qed.

(** A batch either does nothing or passes every test. *)
Lemma batch_cases r ids vs :
  rc_kind (rt_conf r) = kVector -> rt_started r = true ->
  (exists res, rt_PutBatch ids vs r = (res, r)) \/
  (zlen ids = zlen vs /\ ids <> [] /\ backpressure r = false /\ forallb (fun v => vec_dim v =? rc_dim (rt_conf r)) vs = true).
Proof.
  intros Hk Hs. unfold rt_PutBatch. rewrite (mbind_ok mget _ _ _ _ eq_refl), mguard_ok by (rewrite Hk; by apply bool_decide_eq_true_2).
  destruct (Z.eqb_spec (zlen ids) (zlen vs)) as [Hl|]; [|left; by eexists]. rewrite mguard_ok by done.
  case_bool_decide; [left; by eexists|]. destruct (forallb _ vs) eqn:Hd; [|left; by eexists]. rewrite !mguard_ok by done.
  destruct (backpressure r) eqn:Hb; [left|by right]. eexists. unfold HandleBatchPut, mbind at 1, M_bind at 1.
  rewrite (mbind_ok mget _ _ _ _ eq_refl). do 2 rewrite mguard_ok by (rewrite ?Hk; first [apply bool_decide_eq_true_2; done|lia]).
  by rewrite Hb.
Qed.

Lemma batch_durable B ns ng names r ids vs :
  durable B ns ng names r -> zlen ids <= ns -> zlen ids <= ng -> op_ok (OpBatch (zip ids vs)) -> Forall id_ok ids ->
  exists res r', rt_PutBatch ids vs r = (res, r') /\
    durable (fun id => B id \/ id ∈ ids) (ns - zlen ids) (ng - zlen ids) names r' /\ rt_conf r' = rt_conf r.
Proof.
  intros Hdu Hns Hng Hok Hids. pose proof Hdu as [Hi Hw Hst Hk Hav (segs & es & Hwal & _) _ _ _ _].
  pose proof (zlen_nonneg ids) as Hnn.
  destruct (batch_cases r ids vs Hk Hst) as [[res E]|(Hl & Hne & Hb & Hd)].
  { exists res, r. split; [done|]. split; [|done]. apply (durable_weaken _ ns ng); [lia|lia|]. apply (durable_loosen B); [by left|done]. }
  assert (length ids = length vs) as Hl' by (unfold zlen in Hl; lia).
  assert ((zip ids vs).*1 = ids) as E1 by (apply fst_zip; lia). assert ((zip ids vs).*2 = vs) as E2 by (apply snd_zip; lia).
  assert (zlen (op_recs (OpBatch (zip ids vs))) = zlen ids) as Ez by (cbn; unfold zlen; rewrite length_fmap, length_zip_with; lia).
  destruct (run_op_spec ns ng (rt_wal r) segs es (OpBatch (zip ids vs)) Hwal) as (w' & _ & _ & _ & E & _); [lia|lia|done|done|].
  assert (Forall (fun v => vec_dim v = rc_dim (rt_conf r) /\ vec_ok v) vs) as Hvs.
  { destruct Hok as [Hit _]. apply Forall_forall. intros v Hv. rewrite forallb_forall in Hd. split; [by apply Z.eqb_eq, Hd, list_elem_of_In|].
    rewrite <-E2 in Hv. apply list_elem_of_fmap in Hv as (p & -> & Hp). rewrite Forall_forall in Hit. by destruct (Hit _ Hp) as (_ & _ & ? & _). }
  destruct (mem_putbatch (rc_dim (rt_conf r)) (rt_mem r) ids vs) as (m' & Em & Hm' & Ha); [apply Hi|done..|].
  eexists _, _. split; [eapply (batch_run r w' m'); try done; cbn in E; by rewrite E1, E2 in E|]. split; [|apply written_fields].
  rewrite <-Ez. apply (durable_write B _ ns ng names r (OpBatch (zip ids vs)) w' m' true Hdu); rewrite ?Ez; try done.
  - cbn. apply Forall_fmap, Forall_forall. intros [i v] Hp. rewrite Forall_forall in Hvs. pose proof (proj1 (Forall_forall _ _) Hids) as Hids'.
    split; [|done]. split; [apply (Hvs v), (elem_of_zip_r _ _ _ _ Hp)|apply Hids', (elem_of_zip_l _ _ _ _ Hp)].
  - intros id A R _ HA. rewrite log_answer_batch. specialize (Ha id). unfold batch_vec in Ha.
    destruct ((list_to_map (reverse (zip ids vs)) : gmap Z vec) !! id) as [v|] eqn:Ev.
    + destruct Ha as [meta ->]. cbn. split; [done|]. right. right. apply (batch_vec_in ids vs id v) in Ev.
      apply (elem_of_zip_l _ _ _ _ Ev).
    + rewrite Ha. eapply agree_weaken; [|exact HA]. by left.
Qed.

Lemma flush_durable B ns ng names r :
  durable B ns ng names r -> exists res r', rt_Flush r = (res, r') /\ durable B ns ng names r' /\ rt_conf r' = rt_conf r.
Proof.
  intros Hdu. pose proof Hdu as [Hi Hw Hst Hk Hav (segs & es & Hwal & Hlh) Hl Hn Hs Hwc].
  pose proof (wi_seq _ _ _ _ _ Hwal) as Hq. 
  assert (wal_Flush (rt_wal r) = (inr tt, rt_wal r)) as E.
  { destruct Hwal as [Hfl _ _ _ [bw Hf] _ _ _ _ _]. unfold wal_Flush, mbind, M_bind, mget. rewrite Hf.
    destruct (wc_fsync (w_conf (rt_wal r))); [done|]. destruct (rt_wal r) as [[fm fl] ? ? ? ? ? ? ?]. cbn in *. by subst. }
  exists (inr tt), r. split; [|done]. unfold rt_Flush. rewrite (mbind_ok mget _ _ _ _ eq_refl), mguard_ok by done.
  unfold on_wal. rewrite E. by destruct r.
Qed.
(** Conditions under which a freeze does not fail: readings of the clock that
    give unused file names, and memtables that fit segment files. *)
Record freeze_fits (clock : nat -> Z * Z) r : Prop := {
  ff_ttl : rc_ttl_sec (rt_conf r) = 0;
  ff_clock n : is_u64 (clock n).2;
  ff_fresh n i k : files_of r !! seg_path (dir_of r) (segment_filename (clock n).2 i k) = None;
  ff_fits : Forall (fun m => fits (rc_dim (rt_conf r)) (mem_entries m)) (oldest_first r);
  ff_small : Z.of_nat (length (oldest_first r) + length (oldest_first r ≫= mem_entries)) < 2 ^ 64
}.

Lemma durable_can_freeze B ns ng names r clock :
  durable B ns ng names r -> freeze_fits clock r -> can_freeze ns ng clock names r.
Proof.
  intros [Hi Hw Hst Hk Hav (segs & es & Hwal & Hlh) Hl Hn Hs Hwc] [? ? ? ? ?]. split; try done.
  - by exists segs, es.
  - pose proof (wi_seq _ _ _ _ _ Hwal). pose proof (wi_gens _ _ _ _ _ Hwal). rewrite (wi_gen _ _ _ _ _ Hwal) in *.
    pose proof (zlen_nonneg segs). lia.
Qed.

Lemma empty_mems dim m : mem_ok dim m -> mt_GetCount m <= 0 -> forall id, mems_answer (T := T) dim [m] id = LNotFound.
Proof. intros Hm Hc id. cbn. by rewrite (empty_mem_answer dim m id Hm Hc). Qed.

Lemma freeze_durable B ns ng names r rounds clock :
  durable B ns ng names r -> freeze_fits clock r -> (freeze_rounds r <= rounds)%nat ->
  exists names' r', rt_Freeze rounds clock r = (inr tt, r') /\ durable B ns ng names' r' /\ rt_conf r' = rt_conf r.
Proof.
  intros Hdu Hff Hr. pose proof (durable_can_freeze _ _ _ _ _ _ Hdu Hff) as Hcf.
  pose proof Hdu as [Hi [Hw1 Hw2] Hst Hk Hav (segs & es & Hwal & [Hfit Hseq Hans]) Hl Hn Hs Hwc].
  destruct (decide (frozen_now r = [])) as [Hnil|Hne].
  - destruct (freeze_start _ _ _ _ _ _ Hcf Hr) as (r0 & Hi0 & Hc & Hf & Hg & Hm & Hw & Hb & E). rewrite Hnil in E, Hf. cbn in E.
    exists names, r0. split; [done|]. split; [|done]. pose proof (fixed_freeze _ _ _ _ _ E) as [= Hst0 Hwc0].
    split; unfold dir_of, files_of in *; rewrite ?Hc, ?Hw, ?Hg; try done; [split; [by rewrite Hc|by rewrite Hb]|congruence|].
    exists segs, es. split; [done|]. split; [done..|]. intros id Hid. unfold newest_first in *. rewrite Hf.
    rewrite (empty_mems _ (rt_mem r0)); [|rewrite <-Hc; apply Hi0|done]. specialize (Hans id Hid). revert Hans.
    unfold frozen_now, oldest_first in Hnil. destruct (Z.ltb_spec 0 (mt_GetCount (rt_mem r))); [by apply app_nil in Hnil as [_ ?]|].
    rewrite Hnil. cbn [reverse rev_append]. rewrite (empty_mems _ (rt_mem r)); [done|apply Hi|done].
  - destruct (freeze_ok _ _ _ _ _ _ Hcf Hr Hne) as (r0 & built & r' & E & Hi0 & Hc & Hg & Hm & Hb & Hfs & Hch & Hcat & Hdn).
    exists (built.*1 ++ names), r'. split; [done|]. pose proof (fixed_freeze _ _ _ _ _ E) as [= Hst' Hwc'].
    pose proof (fs_conf _ _ _ _ _ _ _ Hfs) as Hc'. rewrite Hc in Hc'. split; [|done].
    split; unfold dir_of, files_of; rewrite ?Hc', ?Hst', ?Hwc'; try done.
    + by eapply frozen_shard_inv.
    + split; [by rewrite Hc'|]. rewrite (fs_coalesce _ _ _ _ _ _ _ Hfs). by rewrite Hb.
    + exists [], []. split; [apply Hfs|]. split; [constructor..|]. intros id Hid. unfold newest_first.
      rewrite (fs_frozen _ _ _ _ _ _ _ Hfs), (fs_mem _ _ _ _ _ _ _ Hfs), (empty_mems _ (rt_mem r0)); [done|rewrite <-Hc; apply Hi0|done].
    + rewrite <-Hc. apply Hfs.
    + by apply Forall_app_2.
    + rewrite <-Hc. eapply frozen_shard_on_disk; [done|by rewrite Hc|done|by rewrite Hc, Hg].
Qed.

Lemma compact_durable B ns ng names r named rounds clock :
  durable B ns ng names r -> can_compact clock named r -> (compact_rounds named <= rounds)%nat ->
  exists names' r', rt_Compact quant_decode rounds clock r = (inr tt, r') /\ durable B ns ng names' r' /\ rt_conf r' = rt_conf r.
Proof.
  intros [Hi [Hw1 Hw2] Hst Hk Hav (segs & es & Hwal & [Hfit Hseq Hans]) Hl Hn Hs Hwc] Hcc Hr.
  destruct (compact_ok quant_decode clock named r rounds Hcc Hr) as (n & out & r' & E & Hok & Hcs & _).
  destruct (compacted_files _ _ _ _ _ _ Hcc Hok Hcs) as (Hcur & Hdisk & _ & Hlog).
  pose proof (fixed_compact _ _ _ _ _ _ E) as [= Hst' Hwc']. pose proof (compacted_filename_dat _ (cc_clock _ _ _ Hcc n)) as Hdat.
  exists [compacted_filename (clock n).2 0], r'. split; [done|]. pose proof Hcs as [Hc Hm Hf Hg _ _ Hw Hb]. split; [|done].
  assert (w_seq (rt_wal r') = w_seq (rt_wal r)) as Hsq by (rewrite Hw; done).
  split; unfold dir_of, files_of, newest_first in *; rewrite ?Hc, ?Hst', ?Hwc', ?Hm, ?Hf, ?Hg; try done.
  - by eapply compacted_shard_inv.
  - split; [by rewrite Hc|by rewrite Hb].
  - exists segs, es. split; [rewrite Hw; by apply wal_inv_frame|]. split; [done|by rewrite Hsq|done].
  - rewrite Hcur. unfold load_result. rewrite decode_manifest_bytes; [done|]. by apply Forall_singleton, dat_name_seg_name.
  - by apply Forall_singleton.
  - by apply Forall2_cons.
Qed.
End durable.

(** ** Opening *)

Section opening.
Context {T : Type} `{IdMapLaws T (option bytes)} `{F32} `{AesGcmLaws}.

Abbreviation engine := (VectorEngine (T := T)).
Abbreviation runtime := (VectorRuntime T).

(** The configuration of the log. *)
Definition wal_conf (opt : VectorOptions) : WalConf := w_conf (ve_wal opt (MkFs ∅ [])).

Lemma ve_wal_conf opt f : w_conf (ve_wal opt f) = wal_conf opt.
Proof. unfold wal_conf, ve_wal, wal_new. by destruct (vo_enable_encryption_at_rest _); [destruct (ParseKeyHex _)|]. Qed.

(** Options of a vector membrane without quantisation and without coalescing of
    writes. *)
Record plain_options (ve : engine) : Prop := {
  po_kind : ve_kind ve = kVector;
  po_dim : vo_dim (ve_opt ve) <> 0;
  po_quant : ip_quant_type (vo_index_params (ve_opt ve)) = kNone;
  po_window : vo_write_coalesce_window_us (ve_opt ve) <= 0;
  po_aes : aes_available (wal_conf (ve_opt ve));
  po_arena : 4 * vo_dim (ve_opt ve) <= kArenaBlockBytes
}.

Lemma plain_inmem (ve : engine) : plain_options ve -> quantize_inmem (ve_opt ve) = false.
Proof. intros [_ _ Hq _ _ _]. unfold quantize_inmem. rewrite Hq. by destruct (vo_enable_quantization _). Qed.

(** Files that an engine can be opened on. *)
Record openable (ns ng : Z) (names : list bytes) (segs : list (list entry * bytes)) (readers : list SegmentReader) (ve : engine) : Prop := {
  op_faults : fs_faults (ve_fs ve) = [];
  op_log : log_on_disk (wal_conf (ve_opt ve)) (fs_files (ve_fs ve)) segs;
  op_beyond g : zlen segs < g -> fs_files (ve_fs ve) !! SegmentPath (wal_conf (ve_opt ve)) g = None;
  op_fit : Forall (fun e => log_fits (vo_dim (ve_opt ve)) (en_rec e)) (log_entries segs);
  op_seqs : Forall (fun e => en_seq e + ns < 2 ^ 64) (log_entries segs) /\ ns < 2 ^ 64;
  op_gens : zlen segs + ng < 2 ^ 64;
  op_list : load_result (fs_files (ve_fs ve) !! curr_path (rc_data_dir (ve_conf ve))) (fs_files (ve_fs ve) !! prev_path (rc_data_dir (ve_conf ve)))
    = inr names;
  op_names : Forall dat_name names;
  op_segs : Forall2 (fun name => on_disk (fs_files (ve_fs ve)) (seg_path (rc_data_dir (ve_conf ve)) name)) names readers
}.

Lemma fs_calm f : fs_faults f = [] -> f = MkFs (fs_files f) [].
Proof. destruct f. cbn. by intros ->. Qed.

Lemma log_entries_ok c fm segs : log_on_disk c fm segs -> Forall (entry_ok c) (log_entries segs).
Proof.
  intros [Hseg _]. apply Forall_bind, Forall_lookup. intros i [es tail] Hi. by destruct (Hseg _ _ _ Hi) as (_ & ? & _).
Qed.

Lemma wal_inv_set_seq ns ng w segs es seq : wal_inv ns ng w segs es -> 0 <= seq -> seq + ns < 2 ^ 64 -> wal_inv ns ng (set_seq seq w) segs es.
Proof. intros [] ? ?. destruct w. by split. Qed.

Lemma started_shard_ok segs (r : runtime) :
  mem_ok (rc_dim (rt_conf r)) (rt_mem r) -> rt_frozen_mem r = [] -> rc_quantize_inmem (rt_conf r) = false ->
  let r' := started_shard segs r in
  rt_inv r' /\ rt_conf r' = rt_conf r /\ rt_wal r' = rt_wal r /\ rt_started r' = true /\ rt_segments r' = segs /\
  rt_coalesce_buffer r' = rt_coalesce_buffer r /\
  forall id, mems_answer (rc_dim (rt_conf r)) (newest_first r') id = mem_answer (rc_dim (rt_conf r)) (rt_mem r) id.
Proof.
  intros Hm Hf Hq. unfold started_shard, RotateMemTable, newest_first. cbn [with_started rt_mem].
  destruct (Z.ltb_spec 0 (mt_GetCount (rt_mem r))); [rewrite (proj2 (Z.eqb_neq _ _)) by lia|]; cbn; rewrite ?Hf, ?Hq; split_and!; try done.
  - split; cbn; rewrite ?Hq; [apply mem_ok_new|by apply Forall_singleton|done|by eexists].
  - intros id. rewrite mem_answer_new. cbn. by destruct (mem_answer _ (rt_mem r) id).
  - split; cbn; rewrite ?Hf; [done|constructor|done|by eexists].
  - intros id. by destruct (mem_answer _ (rt_mem r) id).
Qed.

(** The log is opened and replayed. *)
Lemma replay_open ns ng names segs readers (ve : engine) :
  plain_options ve -> openable ns ng names segs readers ve ->
  exists w m, wal_Open (ve_wal (ve_opt ve) (ve_fs ve)) = (inr tt, w) /\
    exists w', wal_ReplayInto (w, mt_new (T := T) (vo_dim (ve_opt ve)) kArenaBlockBytes false) = (inr tt, (w', m)) /\
    wal_inv ns ng w' segs [] /\ w_conf w' = wal_conf (ve_opt ve) /\
    mem_ok (vo_dim (ve_opt ve)) m /\ Forall (fun e => en_seq e <= w_seq w') (log_entries segs) /\
    (forall p, ~ wal_path p -> fs_files (w_env w') !! p = fs_files (ve_fs ve) !! p) /\
    forall id, mem_answer (vo_dim (ve_opt ve)) m id = log_answer (untag <$> log_entries segs) id LNotFound.
Proof.
  intros Hpo [Hfl Hlog Hbey Hfit [Hsq Hns] Hgens Hl Hn Hs]. rewrite <-(ve_wal_conf (ve_opt ve) (ve_fs ve)) in *.
  set (w0 := ve_wal (ve_opt ve) (ve_fs ve)) in *.
  assert (w_env w0 = ve_fs ve /\ w_seq w0 = 0 /\ wc_segment_bytes (w_conf w0) = kWalSegmentBytes /\ w_file w0 = None) as (Ew0 & Es0 & Eb0 & Ef0).
  { unfold w0, ve_wal, wal_new. by destruct (vo_enable_encryption_at_rest _); [destruct (ParseKeyHex _)|]. }
  assert (w_env w0 = MkFs (fs_files (ve_fs ve)) []) as Henv by (rewrite Ew0; by apply fs_calm).
  destruct (Open_spec ns ng w0 (fs_files (ve_fs ve)) segs Henv Hlog Hbey) as (w & Eo & Hw & Hc & Hq);
    [rewrite Eb0; unfold kWalSegmentBytes; lia|lia|lia|done|].
  assert (forall p, ~ wal_path p -> fs_files (w_env w) !! p = fs_files (ve_fs ve) !! p) as Hframe.
  { intros p Hp. rewrite <-Ew0. eapply (frame_wal_Open p Hp); [|exact Eo]. intros h Hh. by rewrite Ef0 in Hh. }
  destruct (replay_answers (vo_dim (ve_opt ve)) (log_entries segs) w (mt_new (T := T) (vo_dim (ve_opt ve)) kArenaBlockBytes false))
    as (w' & m & Er & Hm & (seq & -> & Hle & Hb) & Ha); [apply mem_ok_new| |].
  { apply Forall_and. split; [done|]. eapply Forall_impl; [by eapply log_entries_ok|]. by intros ? []. }
  exists w, m. split; [done|]. exists (set_seq seq w). rewrite Hq, Es0 in *. split; [|split; [|split; [|split; [done|split; [|split]]]]].
  - rewrite (replay_into_spec (segs ++ [([], [])]) (fs_files (w_env w))).
    + unfold log_entries in *. rewrite bind_app. cbn. by rewrite app_nil_r.
    + apply Hw.
    + apply fs_calm, (wi_faults _ _ _ _ _ Hw).
  - apply wal_inv_set_seq; [done|lia|]. enough (seq <= 2 ^ 64 - 1 - ns) by lia. apply Hb; [lia|]. eapply Forall_impl; [exact Hsq|]. cbn. intros. lia.
  - by destruct w.
  - by destruct (replay_entries_seq _ _ _ Er).
  - intros p Hp. by apply Hframe.
  - intros id. rewrite Ha, mem_answer_new. done.
Qed.

Lemma open_durable ns ng names segs readers (ve : engine) :
  plain_options ve -> openable ns ng names segs readers ve ->
  exists r f, ve_OpenLocked ve = Some (inr tt, ve_set true (Some r) f ve) /\
    durable (wal_conf (ve_opt ve)) (fun _ => False) ns ng names r /\
    rt_conf r = ve_conf ve /\ rt_segments r = readers /\
    forall id, mems_answer (vo_dim (ve_opt ve)) (newest_first r) id = log_answer (untag <$> log_entries segs) id LNotFound.
Proof.
  intros Hpo Hop. destruct (replay_open _ _ _ _ _ _ Hpo Hop) as (w & m & Eo & w' & Er & Hw & Hc & Hm & Hsq & Hframe & Ha).
  pose proof (plain_inmem _ Hpo) as Hq. destruct Hpo as [Hk Hd _ Hwin Haes _], Hop as [Hfl Hlog Hbey Hfit _ _ Hl Hn Hs].
  assert (w_env w' = MkFs (fs_files (w_env w')) []) as Ew by (apply fs_calm, (wi_faults _ _ _ _ _ Hw)).
  destruct (disk_frame _ _ _ _ _ Hframe Hn Hl Hs) as [Hl' Hs'].
  set (r0 := rt_new (ve_conf ve) w' m).
  pose proof (start_run _ names readers r0 Ew Hl' Hs' eq_refl) as Est.
  destruct (started_shard_ok readers r0 Hm eq_refl Hq) as (Hi & Ec & Ewal & Es & Eg & Eb & Hans).
  exists (started_shard readers r0), (w_env w'). split; [|split; [|split; [done|split; [done|]]]].
  - unfold ve_OpenLocked. rewrite bool_decide_eq_true_2 by done. cbn [negb]. rewrite (proj2 (Z.eqb_neq _ _) Hd).
    pose proof (fs_calm _ Hfl) as Ef. rewrite Ef at 1. rewrite CreateDirIfMissing_ok, <-Ef, Eo, Hq, Er.
    assert ((fs_create_directories "" (w_env w')).2 = w_env w') as -> by (rewrite Ew; done).
    rewrite (set_fs_same w' _ eq_refl). fold r0. by rewrite Est.
  - split; unfold dir_of, files_of; rewrite ?Ec, ?Ewal, ?Es, ?Eg; try done.
    + split; [by rewrite Ec|by rewrite Eb].
    + change (aes_available (w_conf w')). by rewrite Hc.
    + exists segs, []. split; [done|]. unfold log_entries in *. rewrite bind_app. cbn [mbind list_bind]. rewrite !app_nil_r.
      split; [done..|]. intros id Hid. rewrite Hans. cbn [r0 rt_new rt_conf rt_mem]. cbn [ve_conf rc_dim]. rewrite Ha. apply agree_refl.
  - intros id. rewrite <-Ha. apply Hans.
Qed.

(** Everything a closed engine leaves behind can be opened. *)
Lemma reopen_files B ns ng names (r : runtime) (ve : engine) :
  durable (wal_conf (ve_opt ve)) B ns ng names r -> rt_conf r = ve_conf ve -> ve_fs ve = w_env (rt_wal r) ->
  exists segs, openable ns (ng - 1) names segs (rt_segments r) ve /\
    forall id, id_ok id -> agree (B id) (log_answer (untag <$> log_entries segs) id LNotFound) (mems_answer (rc_dim (rt_conf r)) (newest_first r) id).
Proof.
  intros [Hi Hw Hst Hk Hav (segs & es & [Hfl Hdisk Hgen Hbey _ _ _ _ [Hs1 Hs2] Hgens] & [Hfit Hseq Hans]) Hl Hn Hs Hwc] Hc Hf.
  exists (segs ++ [(es, [])]). split; [|done]. unfold dir_of, files_of in *. rewrite Hc, Hwc, <-Hf in *. pose proof (zlen_nonneg segs) as Hnn.
  assert (zlen (segs ++ [(es, [])]) = zlen segs + 1) as Ez by (unfold zlen; rewrite length_app; cbn; lia).
  split; rewrite ?Ez; try done.
  - intros g Hg. apply Hbey. lia.
  - split; [|lia]. eapply Forall_impl; [exact Hseq|]. cbn. intros e He. lia.
  - lia.
Qed.
End opening.

(** ** The engine as a persistent map *)

Section engine.
Context {T : Type} `{IdMapLaws T (option bytes)} `{F32} `{AesGcmLaws}.
Context (quant_decode : SegmentReader -> bytes -> vec).
Abbreviation engine := (VectorEngine (T := T)).
Abbreviation runtime := (VectorRuntime T).

Inductive ve_op : Type :=
  | VePut (now_us id : Z) (v : vec) (meta : Metadata)
  | VePutBatch (ids : list Z) (vs : list vec)
  | VeDelete (id : Z)
  | VeFlush
  | VeFreeze (rounds : nat) (clock : nat -> Z * Z)
  | VeCompact (rounds : nat) (clock : nat -> Z * Z)
  | VeReopen.

Definition ve_run (op : ve_op) : U engine unit :=
  match op with
  | VePut now_us id v meta => ve_Put now_us id v meta
  | VePutBatch ids vs => ve_PutBatch ids vs
  | VeDelete id => ve_Delete id
  | VeFlush => ve_Flush
  | VeFreeze rounds clock => ve_Freeze rounds clock
  | VeCompact rounds clock => ve_Compact quant_decode rounds clock
  | VeReopen => ve_Close ;; ve_Open
  end.

Fixpoint ve_runs (ops : list ve_op) (ve : engine) : option (list (Status + unit) * engine) :=
  match ops with
  | [] => Some ([], ve)
  | op :: ops => '(res, ve1) ← ve_run op ve; '(rest, ve2) ← ve_runs ops ve1; Some (res :: rest, ve2)
  end.

(** What the operations are given.  With [distinct], a freeze also finds no
    identifier in two memtables. *)
Definition op_fits (distinct : bool) (op : ve_op) (ve : engine) : Prop :=
  match op with
  | VePut _ id v meta => rec_ok (RPut id v meta) /\ id_ok id /\ meta_logged meta /\ readable (RPut id v meta) = true
  | VePutBatch ids vs => op_ok (OpBatch (zip ids vs)) /\ Forall id_ok ids /\ Forall vec_ok vs
  | VeDelete id => is_u64 id /\ id_ok id
  | VeFreeze rounds clock => forall r, ve_runtime ve = Some r ->
      freeze_fits clock r /\ (freeze_rounds r <= rounds)%nat /\
      (distinct = true -> NoDup (se_id <$> (oldest_first r ≫= mem_entries)))
  | VeCompact rounds clock => forall r, ve_runtime ve = Some r ->
      exists named, can_compact clock named r /\ (compact_rounds named <= rounds)%nat
  | VeFlush | VeReopen => True
  end.

Fixpoint runs_fit (distinct : bool) (ops : list ve_op) (ve : engine) : Prop :=
  match ops with
  | [] => True
  | op :: ops => op_fits distinct op ve /\ match ve_run op ve with Some (_, ve1) => runs_fit distinct ops ve1 | None => True end
  end.

(** Records and segments of the log that an operation uses up. *)
Definition op_cost (op : ve_op) : Z :=
  match op with VePut _ _ _ _ | VeDelete _ | VeReopen => 1 | VePutBatch ids _ => zlen ids | _ => 0 end.
Definition run_cost (ops : list ve_op) : Z := foldr (fun op n => op_cost op + n) 0 ops.
Definition op_batched (op : ve_op) : list Z := match op with VePutBatch ids _ => ids | _ => [] end.

(** The abstract store: the vector of each identifier. *)
Definition vectors : Type := Z -> option vec.
Definition store_step (op : ve_op) (res : Status + unit) (s : vectors) : vectors := fun i =>
  match res, op with
  | inr _, VePut _ id v _ => if decide (i = id) then Some v else s i
  | inr _, VePutBatch ids vs => match batch_vec ids vs i with Some v => Some v | None => s i end
  | inr _, VeDelete id => if decide (i = id) then None else s i
  | _, _ => s i
  end.
Fixpoint store_run (ops : list ve_op) (results : list (Status + unit)) (s : vectors) : vectors :=
  match ops, results with
  | op :: ops, res :: results => store_run ops results (store_step op res s)
  | _, _ => s
  end.

Definition vec_of (l : LookupResult) : option vec := match l with LFound v _ => Some v | _ => None end.
Definition holds (r : runtime) (s : vectors) : Prop :=
  forall id, id_ok id -> exists l, rt_find quant_decode r id = Some l /\ vec_of l = s id.

(** An open engine on files that hold all its data. *)
Record serving (B : Z -> Prop) (ns ng : Z) (ve : engine) (r : runtime) : Prop := {
  sv_plain : plain_options ve;
  sv_opened : ve_opened ve = true;
  sv_runtime : ve_runtime ve = Some r;
  sv_conf : rt_conf r = ve_conf ve;
  sv_durable : exists names, durable (wal_conf (ve_opt ve)) B ns ng names r
}.

Lemma EnsureOpen_ok B ns ng ve r {A} (k : U engine A) : serving B ns ng ve r -> (ve_EnsureOpen ;; k) ve = k ve.
Proof.
  intros [[Hk Hd _ _ _ _] Ho _ _ _]. unfold ve_EnsureOpen. rewrite (ubind_ok _ _ ve tt ve); [done|].
  rewrite ubind_get, !ubind_guard by (done || by apply bool_decide_eq_true_2). by rewrite (proj2 (Z.eqb_neq _ _) Hd).
Qed.

(** An operation of the runtime, called on an open engine. *)
Lemma serving_call B B' ns ng ns' ng' ve r m res r' :
  serving B ns ng ve r -> m r = (res, r') -> rt_conf r' = rt_conf r ->
  (exists names, durable (wal_conf (ve_opt ve)) B' ns' ng' names r') ->
  exists ve', on_runtime (A := unit) m ve = Some (res, ve') /\ serving B' ns' ng' ve' r' /\ ve_opt ve' = ve_opt ve /\ ve_ttl_sec ve' = ve_ttl_sec ve.
Proof.
  intros [[] Ho Hr Hc _] E Hc' Hd. unfold on_runtime. rewrite Hr. cbn. rewrite E. eexists. split; [done|]. split; [|done].
  split; try done. by rewrite Hc'.
Qed.

(** The writes of the shard. *)
Definition as_rt (op : ve_op) : option rt_op :=
  match op with
  | VePut now_us id v meta => Some (OpPut now_us id v meta)
  | VePutBatch ids vs => Some (OpPutBatch ids vs)
  | VeDelete id => Some (OpDelete id)
  | VeFlush => Some OpFlushLog
  | _ => None
  end.

Lemma holds_same r r' s : same_store (rt_find quant_decode r) (rt_find quant_decode r') -> holds r s -> holds r' s.
Proof. intros Hs Hh id Hid. rewrite Hs by done. by apply Hh. Qed.

Lemma holds_sim op rop res r r' s :
  as_rt op = Some rop -> step_sim quant_decode rop res r r' -> holds r s -> holds r' (store_step op res s).
Proof.
  intros Eo [_ _ _ Hspec] Hh. destruct res as [e|[]]; cbn [spec_step] in Hspec.
  { apply (holds_same r); [done|]. intros id Hid. destruct (Hh id Hid) as (l & ? & Hl). exists l. by destruct op. }
  destruct op; try discriminate Eo; injection Eo as <-; cbn [spec_ok] in Hspec; intros i Hi; destruct (Hh i Hi) as (l & El & Hl).
  - destruct Hspec as [lsn Hspec]. rewrite Hspec by done. unfold store_step. case_decide; by eexists.
  - specialize (Hspec i Hi). unfold store_step. destruct (batch_vec ids vs i); [destruct Hspec as [meta ->]; by eexists|].
    rewrite Hspec. by eexists.
  - rewrite Hspec by done. unfold store_step. case_decide; by eexists.
  - rewrite Hspec by done. by eexists.
Qed.

(** What a step of the engine does. *)
Definition step_done (distinct : bool) (op : ve_op) B ns ng ve r : Prop :=
  exists res ve' r', ve_run op ve = Some (res, ve') /\
    serving (fun id => B id \/ id ∈ op_batched op) (ns - op_cost op) (ng - op_cost op) ve' r' /\
    ve_opt ve' = ve_opt ve /\ ve_ttl_sec ve' = ve_ttl_sec ve /\
    (distinct = true -> forall s, holds r s -> holds r' (store_step op res s)).

Lemma serving_weaken (B B' : Z -> Prop) ns ng ns' ng' ve r :
  (forall id, B id -> B' id) -> ns' <= ns -> ng' <= ng -> serving B ns ng ve r -> serving B' ns' ng' ve r.
Proof.
  intros HB Hn Hg [? ? ? ? [names Hd]]. split; try done. exists names. apply (durable_weaken _ _ ns ng); [done..|].
  by eapply durable_loosen.
Qed.

(** An operation that is refused by a check changes nothing. *)
Lemma step_refused distinct op B ns ng ve r e :
  serving B ns ng ve r -> ve_run op ve = Some (inl e, ve) -> step_done distinct op B ns ng ve r.
Proof.
  intros Hs E. exists (inl e), ve, r. split; [done|]. split.
  - eapply serving_weaken; [| | |exact Hs]; [by left|destruct op; cbn; try lia; pose proof (zlen_nonneg ids); lia..].
  - split; [done|]. split; [done|]. intros _ s Hh id Hid. destruct (Hh id Hid) as (l & ? & ?). exists l. by destruct op.
Qed.

(** An operation that calls the runtime. *)
Lemma step_called distinct op rop B ns ng ve r :
  serving B ns ng ve r -> as_rt op = Some rop -> shard_op_ok rop ->
  ve_run op ve = on_runtime (RuntimeTheorems.run_op rop) ve ->
  (forall c names, durable c B ns ng names r -> exists res r', RuntimeTheorems.run_op rop r = (res, r') /\
    durable c (fun id => B id \/ id ∈ op_batched op) (ns - op_cost op) (ng - op_cost op) names r' /\ rt_conf r' = rt_conf r) ->
  step_done distinct op B ns ng ve r.
Proof.
  intros Hs Eo Hok E Hd. destruct (sv_durable _ _ _ _ _ Hs) as [names Hdu].
  destruct (Hd _ _ Hdu) as (res & r' & E' & Hdu' & Hc).
  destruct (serving_call B (fun id => B id \/ id ∈ op_batched op) ns ng (ns - op_cost op) (ng - op_cost op) ve r
    (RuntimeTheorems.run_op rop) res r' Hs E' Hc) as (ve' & Er & Hs' & Ho & Ht); [by exists names|].
  exists res, ve', r'. split; [by rewrite E|]. split; [done|]. split; [done|]. split; [done|]. intros _ s.
  apply (holds_sim op rop); [done|]. apply run_op_sim; [apply Hdu|apply Hdu|done|done].
Qed.

Lemma step_put distinct now_us id v meta B ns ng ve r :
  serving B ns ng ve r -> 1 <= ns -> 1 <= ng -> op_fits distinct (VePut now_us id v meta) ve ->
  step_done distinct (VePut now_us id v meta) B ns ng ve r.
Proof.
  intros Hs Hns Hng (Hok & Hid & Hm & Hrd). destruct (u32 (zlen v) =? vo_dim (ve_opt ve)) eqn:Ev.
  - eapply (step_called _ _ (OpPut now_us id v meta)); [done|done|by destruct Hok as (_ & _ & ? & _)| |].
    + cbn [ve_run]. unfold ve_Put, ValidateVector. rewrite (EnsureOpen_ok _ _ _ _ _ _ Hs).
      by rewrite (ubind_ok _ _ ve tt ve) by (rewrite ubind_get, Ev; done).
    + intros c names Hd. destruct (put_durable c B ns ng names r now_us id v meta Hd) as (res & r' & E & Hd' & Hc); [lia|lia|done..|].
      exists res, r'. split; [done|]. split; [|done]. eapply durable_loosen; [|exact Hd']. by left.
  - eapply step_refused; [done|]. cbn [ve_run]. unfold ve_Put, ValidateVector. rewrite (EnsureOpen_ok _ _ _ _ _ _ Hs).
    by rewrite (ubind_err _ _ ve (InvalidArgument "vector_engine dim mismatch") ve) by (rewrite ubind_get, Ev; done).
Qed.

Lemma ValidateVectors_cases vs (ve : engine) : exists res, ValidateVectors vs ve = Some (res, ve) /\ match res with inl _ => True | inr u => u = tt end.
Proof.
  induction vs as [|v vs (res & E & Hres)]; cbn [ValidateVectors]; [by exists (inr tt)|]. unfold ValidateVector.
  destruct (u32 (zlen v) =? vo_dim (ve_opt ve)) eqn:Ev.
  - rewrite (ubind_ok _ _ ve tt ve) by (rewrite ubind_get, Ev; done). by exists res.
  - eexists (inl _). split; [|done]. rewrite (ubind_err _ _ ve (InvalidArgument "vector_engine dim mismatch") ve) by (rewrite ubind_get, Ev; done). done.
Qed.

Lemma step_batch distinct ids vs B ns ng ve r :
  serving B ns ng ve r -> zlen ids <= ns -> zlen ids <= ng -> op_fits distinct (VePutBatch ids vs) ve ->
  step_done distinct (VePutBatch ids vs) B ns ng ve r.
Proof.
  intros Hs Hns Hng (Hok & Hid & Hv).
  assert (ve_run (VePutBatch ids vs) ve = (uguard (zlen ids =? zlen vs) (InvalidArgument "vector_engine ids/vectors size mismatch") ;;
    ValidateVectors vs ;; if bool_decide (ids = []) then mret tt else on_runtime (rt_PutBatch ids vs)) ve) as E.
  { cbn [ve_run]. unfold ve_PutBatch. by rewrite (EnsureOpen_ok _ _ _ _ _ _ Hs). }
  destruct (zlen ids =? zlen vs) eqn:El; [|eapply step_refused; [done|]; by rewrite E].
  rewrite ubind_guard in E by done. destruct (ValidateVectors_cases vs ve) as ([e|[]] & Ev & _).
  { eapply step_refused; [done|]. by rewrite E, (ubind_err _ _ _ _ _ Ev). }
  rewrite (ubind_ok _ _ _ _ _ Ev) in E. case_bool_decide as Hnil.
  - subst ids. exists (inr tt), ve, r. split; [done|]. split; [|split; [done|split; [done|]]].
    + eapply serving_weaken; [| | |exact Hs]; [by left|cbn; unfold zlen; cbn; lia..].
    + intros _ s Hh. exact Hh.
  - apply (step_called _ _ (OpPutBatch ids vs)); [done..|]. intros c names Hd. by apply batch_durable.
Qed.

Lemma step_delete distinct id B ns ng ve r :
  serving B ns ng ve r -> 1 <= ns -> 1 <= ng -> op_fits distinct (VeDelete id) ve -> step_done distinct (VeDelete id) B ns ng ve r.
Proof.
  intros Hs Hns Hng [Hu Hid]. apply (step_called _ _ (OpDelete id)); [done..| |].
  - cbn [ve_run]. unfold ve_Delete. by rewrite (EnsureOpen_ok _ _ _ _ _ _ Hs).
  - intros c names Hd. destruct (delete_durable c B ns ng names r id Hd) as (res & r' & E & Hd' & Hc); [lia|lia|done..|].
    exists res, r'. split; [done|]. split; [|done]. eapply durable_loosen; [|exact Hd']. by left.
Qed.

Lemma step_flush distinct B ns ng ve r : serving B ns ng ve r -> step_done distinct VeFlush B ns ng ve r.
Proof.
  intros Hs. apply (step_called _ _ OpFlushLog); [done..| |].
  - cbn [ve_run]. unfold ve_Flush. by rewrite (EnsureOpen_ok _ _ _ _ _ _ Hs).
  - intros c names Hd. destruct (flush_durable c B ns ng names r Hd) as (res & r' & E & Hd' & Hc).
    exists res, r'. split; [done|]. split; [|done]. cbn. rewrite !Z.sub_0_r. eapply durable_loosen; [|exact Hd']. by left.
Qed.

Lemma step_freeze distinct rounds clock B ns ng ve r :
  serving B ns ng ve r -> op_fits distinct (VeFreeze rounds clock) ve -> step_done distinct (VeFreeze rounds clock) B ns ng ve r.
Proof.
  intros Hs Hfit. destruct (Hfit r) as (Hff & Hr & Hnd); [apply Hs|]. destruct (sv_durable _ _ _ _ _ Hs) as [names Hd].
  destruct (freeze_durable _ B ns ng names r rounds clock Hd Hff Hr) as (names' & r' & E & Hd' & Hc).
  destruct (serving_call B B ns ng ns ng ve r (rt_Freeze rounds clock) (inr tt) r' Hs E Hc) as (ve' & Er & Hs' & Ho & Ht); [by exists names'|].
  exists (inr tt), ve', r'. split; [|split; [|split; [done|split; [done|]]]].
  - cbn [ve_run]. unfold ve_Freeze. by rewrite (EnsureOpen_ok _ _ _ _ _ _ Hs).
  - cbn. rewrite !Z.sub_0_r. eapply serving_weaken; [..|exact Hs']; [by left|lia..].
  - intros Hdist s. apply holds_same. destruct (freeze_keeps_answers quant_decode ns ng clock names r rounds) as (r1 & E1 & Hfind);
      [by eapply durable_can_freeze|done|by apply Hnd|]. rewrite E in E1. injection E1 as <-. exact Hfind.
Qed.

Lemma step_compact distinct rounds clock B ns ng ve r :
  serving B ns ng ve r -> op_fits distinct (VeCompact rounds clock) ve -> step_done distinct (VeCompact rounds clock) B ns ng ve r.
Proof.
  intros Hs Hfit. destruct (Hfit r) as (named & Hcc & Hr); [apply Hs|]. destruct (sv_durable _ _ _ _ _ Hs) as [names Hd].
  destruct (compact_durable quant_decode _ B ns ng names r named rounds clock Hd Hcc Hr) as (names' & r' & E & Hd' & Hc).
  destruct (serving_call B B ns ng ns ng ve r (rt_Compact quant_decode rounds clock) (inr tt) r' Hs E Hc) as (ve' & Er & Hs' & Ho & Ht); [by exists names'|].
  exists (inr tt), ve', r'. split; [|split; [|split; [done|split; [done|]]]].
  - cbn [ve_run]. unfold ve_Compact. by rewrite (EnsureOpen_ok _ _ _ _ _ _ Hs).
  - cbn. rewrite !Z.sub_0_r. eapply serving_weaken; [..|exact Hs']; [by left|lia..].
  - intros _ s Hh id Hid. destruct (compaction_keeps_answers quant_decode clock named r rounds Hcc Hr) as (r1 & E1 & _ & _ & Hf).
    rewrite E in E1. injection E1 as <-. destruct (Hf id Hid) as [Hfind [l El]], (Hh id Hid) as (l0 & El0 & Hl0).
    exists l. split; [done|]. cbn [store_step]. rewrite <-Hl0. unfold finds in Hfind. rewrite El, El0 in Hfind. cbn in Hfind.
    destruct l, l0; cbn in *; congruence.
Qed.

Definition agree_opt (loose : Prop) (a b : option LookupResult) : Prop :=
  match a, b with
  | Some a, Some b => agree loose a b
  | None, None => True
  | _, _ => False
  end.

Lemma layered_agree loose dim ms ms' segs id :
  agree loose (mems_answer (T := T) dim ms id) (mems_answer dim ms' id) ->
  agree_opt loose (layered quant_decode dim ms segs id) (layered quant_decode dim ms' segs id).
Proof.
  unfold layered. destruct (mems_answer dim ms id), (mems_answer dim ms' id); cbn; try done. intros _.
  destruct (segs_answer _ _ _ _) as [l|]; cbn; [apply agree_refl|done].
Qed.

(** Closing keeps the files, opening finds them. *)
Lemma reopen_ok B ns ng ve r :
  serving B ns ng ve r -> exists ve' r', ve_run VeReopen ve = Some (inr tt, ve') /\ serving (fun _ => False) ns (ng - 1) ve' r' /\
    ve_opt ve' = ve_opt ve /\ ve_ttl_sec ve' = ve_ttl_sec ve /\
    forall id, id_ok id -> agree_opt (B id) (rt_find quant_decode r' id) (rt_find quant_decode r id).
Proof.
  intros [Hpl Ho Hr Hc [names Hd]]. set (ve1 := ve_set false None (w_env (rt_wal r)) ve).
  assert (wal_destroy (rt_wal r) = w_env (rt_wal r)) as Ew.
  { destruct (du_log _ _ _ _ _ _ Hd) as (segs & es & [Hfl _ _ _ [bw Hf] _ _ _ _ _] & _). unfold wal_destroy. rewrite Hf, (fs_calm _ Hfl). done. }
  destruct (reopen_files B ns ng names r ve1 Hd Hc eq_refl) as (segs & Hop & Hans).
  assert (plain_options ve1) as Hpl1 by (by destruct Hpl; split).
  destruct (open_durable ns (ng - 1) names segs (rt_segments r) ve1 Hpl1 Hop) as (r' & f & E & Hd' & Hc' & Hg & Ha).
  exists (ve_set true (Some r') f ve1), r'. split; [|split; [|split; [done|split; [done|]]]].
  - cbn [ve_run]. rewrite (ubind_ok _ _ ve tt ve1) by (unfold ve_Close, umodify; by rewrite Ho, Hr, Ew).
    unfold ve_Open. rewrite ubind_get. exact E.
  - split; try done; [by destruct Hpl1; split|]. by exists names.
  - intros id Hid. rewrite !rt_find_layers by (done || apply Hd || apply Hd'). rewrite Hc', Hc, Hg.
    apply layered_agree. fold (newest_first r') (newest_first r). cbn [ve_conf rc_dim]. change (ve_opt ve) with (ve_opt ve1) at 1.
    rewrite Ha. specialize (Hans id Hid). by rewrite Hc in Hans.
Qed.

Lemma agree_vec loose a b : agree loose a b -> vec_of a = vec_of b.
Proof. destruct a, b; cbn; try done. by intros [-> _]. Qed.

Lemma step_reopen distinct B ns ng ve r : serving B ns ng ve r -> step_done distinct VeReopen B ns ng ve r.
Proof.
  intros Hs. destruct (reopen_ok _ _ _ _ _ Hs) as (ve' & r' & E & Hs' & Ho & Ht & Ha).
  exists (inr tt), ve', r'. split; [done|]. split; [|split; [done|split; [done|]]].
  - eapply serving_weaken; [..|exact Hs']; [done|cbn; lia..].
  - intros _ s Hh id Hid. destruct (Hh id Hid) as (l & El & Hl). specialize (Ha id Hid). rewrite El in Ha.
    destruct (rt_find quant_decode r' id) as [l'|]; [|done]. exists l'. split; [done|]. by rewrite (agree_vec _ _ _ Ha).
Qed.

Lemma step_ok distinct op B ns ng ve r :
  serving B ns ng ve r -> op_cost op <= ns -> op_cost op <= ng -> op_fits distinct op ve -> step_done distinct op B ns ng ve r.
Proof.
  destruct op; cbn [op_cost]; [apply step_put|apply step_batch|apply step_delete|intros; by apply step_flush| | |intros; by apply step_reopen];
    intros Hs _ _; [by apply step_freeze|by apply step_compact].
Qed.

Lemma run_ok distinct ops : forall B ns ng ve r,
  serving B ns ng ve r -> run_cost ops <= ns -> run_cost ops <= ng -> runs_fit distinct ops ve ->
  exists results ve' r', ve_runs ops ve = Some (results, ve') /\
    serving (fun id => B id \/ id ∈ ops ≫= op_batched) (ns - run_cost ops) (ng - run_cost ops) ve' r' /\
    ve_ttl_sec ve' = ve_ttl_sec ve /\
    (distinct = true -> forall s, holds r s -> holds r' (store_run ops results s)).
Proof.
  induction ops as [|op ops IH]; intros B ns ng ve r Hs Hns Hng Hfit.
  { exists [], ve, r. split; [done|]. cbn. rewrite !Z.sub_0_r. split; [|done]. eapply serving_weaken; [..|exact Hs]; [by left|lia..]. }
  cbn [run_cost foldr] in Hns, Hng. fold (run_cost ops) in Hns, Hng. destruct Hfit as [Hop Hfit].
  assert (forall op, 0 <= op_cost op) as Hpos by (intros []; cbn; try lia; apply zlen_nonneg).
  assert (0 <= run_cost ops) as Hrc by (clear -Hpos; induction ops as [|o ops IH]; cbn; [lia|]; pose proof (Hpos o); unfold run_cost in IH; lia).
  destruct (step_ok distinct op B ns ng ve r Hs) as (res & ve1 & r1 & E1 & Hs1 & Ho1 & Ht1 & Hh1); [lia|lia|done|]. rewrite E1 in Hfit.
  destruct (IH _ _ _ _ _ Hs1) as (results & ve2 & r2 & E2 & Hs2 & Ht2 & Hh2); [lia|lia|done|].
  exists (res :: results), ve2, r2. cbn [ve_runs]. rewrite E1. cbn. rewrite E2. split; [done|]. split; [|split; [congruence|auto]].
  eapply serving_weaken; [..|exact Hs2]; [|cbn; fold (run_cost ops); lia..]. intros id. rewrite elem_of_app. tauto.
Qed.

(** A directory without log and without segments. *)
Record fresh_disk (ve : engine) : Prop := {
  fd_closed : ve_opened ve = false;
  fd_faults : fs_faults (ve_fs ve) = [];
  fd_log g : fs_files (ve_fs ve) !! SegmentPath (wal_conf (ve_opt ve)) g = None;
  fd_list : fs_files (ve_fs ve) !! curr_path (rc_data_dir (ve_conf ve)) = None
}.

Lemma open_fresh ns ng (ve : engine) :
  plain_options ve -> fresh_disk ve -> ns < 2 ^ 64 -> ng < 2 ^ 64 ->
  exists ve1 r, ve_Open ve = Some (inr tt, ve1) /\ serving (fun _ => False) ns ng ve1 r /\ ve_ttl_sec ve1 = ve_ttl_sec ve /\ holds r (fun _ => None).
Proof.
  intros Hpl [Hcl Hfl Hlog Hlist] Hns Hng. destruct (open_durable ns ng [] [] [] ve Hpl) as (r & f & E & Hd & Hc & Hg & Ha).
  { split; [done|split; [done|apply Hlog]|intros g _; apply Hlog|constructor|by split; [constructor|]|unfold zlen; cbn; lia|by rewrite Hlist|constructor..]. }
  exists (ve_set true (Some r) f ve), r. split; [unfold ve_Open; by rewrite ubind_get, Hcl|]. split; [|split; [done|]].
  - split; try done; [by destruct Hpl; split|by exists []].
  - intros id Hid. exists LNotFound. split; [|done]. rewrite rt_find_layers by (done || apply Hd). fold (newest_first r).
    unfold layered. rewrite Hc, Hg. cbn [ve_conf rc_dim]. by rewrite Ha.
Qed.

Lemma ve_Get_report B ns ng ve r now_sec id :
  serving B ns ng ve r ->
  ve_Get quant_decode now_sec id ve = (fun l => (report (ve_ttl_sec ve) now_sec l, ve)) <$> rt_find quant_decode r id.
Proof.
  intros Hs. unfold ve_Get. rewrite (EnsureOpen_ok _ _ _ _ _ _ Hs). destruct Hs as [_ _ Hr Hc [names Hd]].
  unfold ask_runtime. rewrite Hr. cbn [mbind option_bind]. rewrite rt_Get_report, Hc by apply Hd. by destruct (rt_find quant_decode r id).
Qed.

(** Two answers of [Get] are the same but for the metadata, when [loose]. *)
Definition gets_agree (loose : Prop) (a b : option ((Status + vec * Metadata) * engine)) : Prop :=
  match a, b with
  | Some (inr (v, meta), _), Some (inr (v', meta'), _) => v = v' /\ (meta = meta' \/ loose)
  | Some (inl e, _), Some (inl e', _) => e = e'
  | None, None => True
  | _, _ => False
  end.

Lemma report_agree loose ttl now_sec a b (ve ve' : engine) :
  agree loose a b -> (loose -> ttl <= 0) -> gets_agree loose (Some (report ttl now_sec a, ve)) (Some (report ttl now_sec b, ve')).
Proof.
  intros Ha Ht. assert (ttl <= 0 -> forall m, VectorMetaExpired ttl now_sec m = false) as Hexp.
  { intros Hl m. unfold VectorMetaExpired. by rewrite (proj2 (Z.ltb_ge _ _)) by done. }
  destruct a as [v m| |], b as [v' m'| |]; cbn in Ha; try done. destruct Ha as [<- [<-|Hl]]; cbn.
  - destruct (VectorMetaExpired ttl now_sec m); cbn; auto.
  - rewrite !Hexp by auto. cbn. auto.
Qed.

(** C2.  Durability of the engine.  Options: a vector membrane with a
    dimension, no quantisation of the vectors, no coalescing of writes (a
    coalesced put is lost at [Close]), vectors that fit an arena block,
    encryption that does not fail when it is on.  On a directory without a log
    and a segment list, and with no failing system call, opening succeeds; and
    after any run of puts, batches, deletes, flushes, freezes, compactions and
    restarts that satisfies [runs_fit], closing and opening the engine succeeds
    and every [Get] answers as before.  The identifiers are all but the
    reserved 2^64-1, and fewer than 2^63 writes and restarts are made.
    [runs_fit] asks of a put that its metadata survive the log: it has a
    tenant, or none of device, location, timestamp, source vertex and text (a
    put without a tenant that has one of the first four makes the next open
    fail, see [engine_with_unreadable_put]); of all writes that they fit the
    formats; of freezes and compactions that the expiry is off, that their file
    names are new, that their segments fit the format and that they are given
    enough rounds; and of compactions that there are at least two segments and
    between 1 and 19999 live identifiers.  For vectors written in batches the
    metadata may differ, as the log does not keep it, and the expiry must be
    off. *)
Theorem vector_engine_survives_restart ops (ve : engine) :
  plain_options ve -> fresh_disk ve -> run_cost ops < 2 ^ 63 ->
  exists ve1, ve_Open ve = Some (inr tt, ve1) /\
    (runs_fit false ops ve1 -> exists results ve2 ve3,
      ve_runs ops ve1 = Some (results, ve2) /\ (ve_Close ;; ve_Open) ve2 = Some (inr tt, ve3) /\
      forall now_sec id, id_ok id -> id ∉ ops ≫= op_batched \/ ve_ttl_sec ve <= 0 ->
        gets_agree (id ∈ ops ≫= op_batched) (ve_Get quant_decode now_sec id ve3) (ve_Get quant_decode now_sec id ve2)).
Proof.
  intros Hpl Hfr Hcost. destruct (open_fresh (2 ^ 63) (2 ^ 63) ve Hpl Hfr) as (ve1 & r1 & E1 & Hs1 & Ht1 & _); [lia|lia|].
  exists ve1. split; [done|]. intros Hfit.
  destruct (run_ok false ops _ _ _ _ _ Hs1) as (results & ve2 & r2 & E2 & Hs2 & Ht2 & _); [lia|lia|done|].
  destruct (reopen_ok _ _ _ _ _ Hs2) as (ve3 & r3 & E3 & Hs3 & _ & Ht3 & Ha).
  exists results, ve2, ve3. split; [done|]. split; [done|]. intros now_sec id Hid Hb.
  rewrite (ve_Get_report _ _ _ _ _ _ _ Hs3), (ve_Get_report _ _ _ _ _ _ _ Hs2), Ht3, Ht2, Ht1. specialize (Ha id Hid).
  destruct (rt_find quant_decode r3 id) as [a|], (rt_find quant_decode r2 id) as [b|]; cbn in Ha; try done.
  apply report_agree; [|tauto]. eapply agree_weaken; [|exact Ha]. tauto.
Qed.

(** C1.  The engine is a persistent map.  Options: a vector membrane with a
    dimension, no quantisation of the vectors, no coalescing of writes, no
    expiry, vectors that fit an arena block, encryption that does not fail when
    it is on.  On a directory without a log and a segment list, and with no
    failing system call, opening succeeds; and after any run of puts, batches,
    deletes, flushes, freezes, compactions and restarts that satisfies
    [runs_fit], [Get] returns the vector that was written last with success and
    not deleted since, and otherwise fails with not-found.  The identifiers are
    all but the reserved 2^64-1, and fewer than 2^63 writes and restarts are
    made.  [runs_fit] asks of a put that its metadata survive the log: it has a
    tenant, or none of device, location, timestamp, source vertex and text
    (otherwise the next open can fail, see [engine_with_unreadable_put]); of
    all writes that they fit the formats; of freezes that no identifier is in
    two memtables; of freezes and compactions that their file names are new,
    that their segments fit the format and that they are given enough rounds;
    and of compactions that there are at least two segments and between 1 and
    19999 live identifiers. *)
Theorem vector_engine_is_persistent_map ops (ve : engine) :
  plain_options ve -> fresh_disk ve -> ve_ttl_sec ve <= 0 -> run_cost ops < 2 ^ 63 ->
  exists ve1, ve_Open ve = Some (inr tt, ve1) /\
    (runs_fit true ops ve1 -> exists results ve2, ve_runs ops ve1 = Some (results, ve2) /\
      forall now_sec id, id_ok id ->
        match store_run ops results (fun _ => None) id with
        | Some v => exists meta, ve_Get quant_decode now_sec id ve2 = Some (inr (v, meta), ve2)
        | None => exists msg, ve_Get quant_decode now_sec id ve2 = Some (inl (NotFound msg), ve2)
        end).
Proof.
  intros Hpl Hfr Httl Hcost. destruct (open_fresh (2 ^ 63) (2 ^ 63) ve Hpl Hfr) as (ve1 & r1 & E1 & Hs1 & Ht1 & Hh1); [lia|lia|].
  exists ve1. split; [done|]. intros Hfit.
  destruct (run_ok true ops _ _ _ _ _ Hs1) as (results & ve2 & r2 & E2 & Hs2 & Ht2 & Hh2); [lia|lia|done|].
  exists results, ve2. split; [done|]. intros now_sec id Hid. destruct (Hh2 eq_refl _ Hh1 id Hid) as (l & El & <-).
  rewrite (ve_Get_report _ _ _ _ _ _ _ Hs2), El. destruct l as [v meta| |]; cbn; [|by eexists..].
  exists meta. unfold VectorMetaExpired. by rewrite (proj2 (Z.ltb_ge _ _)) by lia.
Qed.
End engine.

(** ** Batches of queries *)

Section batch_search.
Context {T : Type} `{IdMapLaws T (option bytes)} `{F32} `{AesGcmLaws} `{Sidecars} `{Kernels} `{HitSort}.
Context (Hash : Z -> Z) (beyond_radius : Filter -> Metadata -> bool).

Lemma search_one_empty metric ip (r : VectorRuntime T) snap now_sec queries topk opts vis policy :
  search_one Hash beyond_radius metric ip r snap now_sec queries topk opts vis 0 (policy, []) = None.
Proof. unfold search_one. change (zlen [] <=? 0) with true. by rewrite orb_true_r. Qed.

(** A batch search of at least one query writes past the end of the empty list
    of results. *)
Theorem batch_search_is_undefined B ns ng (ve : VectorEngine (T := T)) r clock queries n topk opts :
  serving B ns ng ve r -> zlen queries = n * vo_dim (ve_opt ve) -> 0 < n -> topk <> 0 ->
  ve_SearchBatch Hash beyond_radius clock queries n topk opts ve = None.
Proof.
  intros Hs Hq Hn Ht. unfold ve_SearchBatch. rewrite (EnsureOpen_ok _ _ _ _ _ _ Hs), ubind_get, ubind_guard by lia.
  rewrite (proj2 (Z.eqb_neq _ _)), (proj2 (Z.eqb_neq _ _) Ht) by lia. cbn [orb].
  destruct Hs as [[_ Hd _ _ _ _] _ Hr Hc [names Hdu]].
  assert (rt_SearchBatchLocal Hash beyond_radius (ve_metric ve) (vo_index_params (ve_opt ve)) clock queries (seqZ 0 n) topk opts [] r = None) as E.
  2:{ unfold mbind, U_bind. unfold ask_runtime at 1. rewrite Hr. unfold mbind, option_bind. by rewrite E. }
  destruct (ri_snap _ (du_inv _ _ _ _ _ _ Hdu)) as [ver Hsn]. unfold rt_SearchBatchLocal. rewrite Hsn, Hc. cbn [ve_conf rc_dim].
  rewrite bool_decide_eq_false_2 by (rewrite seqZ_cons by lia; discriminate).
  rewrite (proj2 (Z.eqb_neq _ _) Hd), Hq, Z_mod_mult. cbn [negb Z.eqb]. rewrite seqZ_cons by lia.
  destruct (if needs_visibility _ _ _ then _ else _) as [policy|]; [|done]. cbn [mbind option_bind length seq zip zip_with each].
  by rewrite search_one_empty.
Qed.
End batch_search.

(** ** Examples *)

#[local] Existing Instance test_f32.
#[local] Existing Instance test_idmap.
#[local] Existing Instance test_idmap_laws.
#[local] Existing Instance test_aes.
#[local] Existing Instance test_aes_laws.
#[local] Existing Instance entry_fits_dec.

Definition test_vec_options : VectorOptions := MkVecOptions "v" 2 true kAlways test_params false [] 0 0.
Definition test_ve : VectorEngine (T := @FlatHashMemMap (option bytes)) := ve_new test_vec_options kVector kL2 0 (MkFs ∅ []).

(** A clock that stands still. *)
Definition at_tick (t : Z) (n : nat) : Z * Z := (0, t).

(** Two freezes, a compaction of their segments, and restarts. *)
Definition test_writes : list ve_op := [VePut 0 7 [1; 2] md_default].
Definition test_frozen : list ve_op := test_writes ++ [VeFreeze 40 (at_tick 1)].
Definition test_rewritten : list ve_op := (test_frozen ++ [VePutBatch [7; 9] [[3; 4]; [5; 6]]]) ++ [VeDelete 9].
Definition test_refrozen : list ve_op := test_rewritten ++ [VeFreeze 40 (at_tick 2)].
Definition test_ve_ops : list ve_op := (((test_refrozen ++ [VeCompact 40 (at_tick 3)]) ++ [VeReopen]) ++ [VePut 0 7 [1; 2] md_default]) ++ [VeReopen].

Lemma test_ve_plain : plain_options test_ve.
Proof. split; vm_compute; discriminate || reflexivity. Qed.

Lemma test_ve_fresh : fresh_disk test_ve.
Proof. by split. Qed.

(** The shard after a run. *)
Definition test_shard_after (ops : list ve_op) : option (VectorRuntime (@FlatHashMemMap (option bytes))) :=
  '(_, ve1) ← ve_Open test_ve; '(_, ve2) ← ve_runs test_decode ops ve1; ve_runtime ve2.

Lemma shard_fact {A} (f : VectorRuntime (@FlatHashMemMap (option bytes)) -> A) ops ve1 results ve2 r a :
  ve_Open test_ve = Some (inr tt, ve1) -> ve_runs test_decode ops ve1 = Some (results, ve2) -> ve_runtime ve2 = Some r ->
  f <$> test_shard_after ops = Some a -> f r = a.
Proof.
  intros E1 E2 E3. unfold test_shard_after. rewrite E1. cbn [mbind option_bind]. rewrite E2. cbn [mbind option_bind]. rewrite E3. by intros [= <-].
Qed.

Lemma runs_fit_snoc {T} `{IdMapLaws T (option bytes)} `{F32} `{AesGcm} quant_decode distinct ops op : forall ve : VectorEngine (T := T),
  runs_fit quant_decode distinct ops ve ->
  (forall results ve2, ve_runs quant_decode ops ve = Some (results, ve2) -> op_fits distinct op ve2) ->
  runs_fit quant_decode distinct (ops ++ [op]) ve.
Proof.
  induction ops as [|o ops IH]; intros ve Hfit Hop; cbn [app runs_fit].
  - split; [by eapply Hop|]. by destruct (ve_run quant_decode op ve) as [[]|].
  - destruct Hfit as [Ho Hfit]. split; [done|]. destruct (ve_run quant_decode o ve) as [[res ve1]|] eqn:E; [|done].
    apply IH; [done|]. intros results ve2 E2. apply (Hop (res :: results)). cbn [ve_runs]. rewrite E. cbn [mbind option_bind]. by rewrite E2.
Qed.

(** What a freeze is given, as far as it can be computed. *)
Definition freeze_view (r : VectorRuntime (@FlatHashMemMap (option bytes))) :=
  (rc_ttl_sec (rt_conf r), dir_of r, rc_dim (rt_conf r), (freeze_rounds r <=? 40)%nat, (map_to_list (files_of r)).*1, mem_entries <$> oldest_first r).

Lemma freeze_view_fits t r keys ess :
  freeze_view r = (0, "v/data", 2, true, keys, ess) -> is_u64 t -> (forall i k, seg_path "v/data" (segment_filename t i k) ∉ keys) ->
  Forall (fits 2) ess -> NoDup (se_id <$> concat ess) -> Z.of_nat (length ess + length (concat ess)) < 2 ^ 64 ->
  freeze_fits (at_tick t) r /\ (freeze_rounds r <= 40)%nat /\ NoDup (se_id <$> (oldest_first r ≫= mem_entries)).
Proof.
  intros [= Ht Hdir Hd Hr%Nat.leb_le Hf Em] Hu Hfresh Hfit Hnd Hsmall.
  assert (oldest_first r ≫= mem_entries = concat ess) as Eb.
  { rewrite <-Em. generalize (oldest_first r). intros l. induction l as [|m l IH]; [done|]. by rewrite bind_cons, IH. }
  split; [|by rewrite Eb]. split; [done|done| | |].
  - intros n i k. rewrite Hdir. destruct (files_of r !! _) as [data|] eqn:E; [|done]. exfalso. apply elem_of_map_to_list in E.
    apply (list_elem_of_fmap_2 fst) in E. rewrite Hf in E. by eapply Hfresh.
  - rewrite Hd. apply (Forall_fmap mem_entries (fits 2) (oldest_first r)). by rewrite Em.
  - rewrite Eb, <-(length_fmap mem_entries (oldest_first r)), Em. exact Hsmall.
Qed.

Definition test_newer : list SegEntry := [live_entry 7 [3; 4]; tomb 9].
Definition test_older : list SegEntry := [live_entry 7 [1; 2]].
Definition test_named : list (bytes * list SegEntry) :=
  [(segment_filename 2 0 0, test_newer); (segment_filename 1 0 0, test_older)].

Lemma test_entries_fit : fits 2 test_newer /\ fits 2 test_older /\ fits 2 (named_entries test_named).
Proof.
  split_and!; (apply entry_fits; [apply (bool_decide_unpack _); vm_compute; exact I|vm_compute; reflexivity]).
Qed.

Lemma test_first_freeze r :
  freeze_view r = (0, "v/data", 2, true, ["v/wal_0_0.log"], [test_older]) ->
  freeze_fits (at_tick 1) r /\ (freeze_rounds r <= 40)%nat /\ NoDup (se_id <$> (oldest_first r ≫= mem_entries)).
Proof.
  intros E. apply (freeze_view_fits _ _ _ _ E); [by split| |apply Forall_singleton, test_entries_fit|apply NoDup_singleton|vm_compute; reflexivity].
  intros i k Hin. apply list_elem_of_singleton in Hin. discriminate Hin.
Qed.

Lemma test_second_freeze r :
  freeze_view r = (0, "v/data", 2, true, ["v/wal_0_0.log"; "v/data/seg_1_0_0.dat"; "v/data/manifest.current"], [test_newer]) ->
  freeze_fits (at_tick 2) r /\ (freeze_rounds r <= 40)%nat /\ NoDup (se_id <$> (oldest_first r ≫= mem_entries)).
Proof.
  intros E. apply (freeze_view_fits _ _ _ _ E);
    [by split| |apply Forall_singleton, test_entries_fit|apply (bool_decide_unpack _); vm_compute; exact I|vm_compute; reflexivity].
  intros i k [Hin|[Hin|[Hin|Hin%not_elem_of_nil]%elem_of_cons]%elem_of_cons]%elem_of_cons; [discriminate Hin..|done].
Qed.

(** What a compaction is given. *)
Definition compact_view (r : VectorRuntime (@FlatHashMemMap (option bytes))) :=
  (rc_ttl_sec (rt_conf r), dir_of r, rc_dim (rt_conf r), rt_segments r,
   bool_decide (Forall (fun c => is_Some (files_of r !! seg_path "v/data" c.1)) test_named),
   files_of r !! seg_path "v/data" (compacted_filename 3 0)).

Lemma test_can_compact r :
  rt_inv r -> rt_started r = true -> fs_faults (w_env (rt_wal r)) = [] ->
  compact_view r = (0, "v/data", 2, (fun '(p, es) => seg_of p 2 es) <$> placed "v/data" test_named, true, None) ->
  can_compact (at_tick 3) test_named r.
Proof.
  intros Hi Hst Hfl [= Ht Hdir Hd Hsegs Hdisk%bool_decide_eq_true Hfresh]. unfold dir_of, files_of in *. destruct test_entries_fit as (Hn & Ho & Ha).
  split; rewrite ?Hdir, ?Hd; try done.
  - repeat constructor; apply segment_filename_dat; by split.
  - intros name es Hin. rewrite Forall_forall in Hdisk. exact (Hdisk _ Hin).
  - apply Forall_cons_2; [|apply Forall_singleton]; (split; [apply (bool_decide_unpack _); vm_compute; exact I|by apply fits_seg_ok]).
Qed.

Lemma test_put_ok : rec_ok (RPut 7 [1; 2] md_default).
Proof. repeat constructor; cbn; unfold is_u64, is_u32; try lia; vm_compute; done. Qed.

Lemma test_batch_ok : op_ok (OpBatch (zip [7; 9] [[3; 4]; [5; 6]])).
Proof. repeat constructor; cbn; unfold is_u64, is_u32; try lia; vm_compute; done. Qed.

Lemma test_refrozen_fit distinct ve1 : ve_Open test_ve = Some (inr tt, ve1) -> runs_fit test_decode distinct test_refrozen ve1.
Proof.
  intros E1. apply runs_fit_snoc.
  - apply runs_fit_snoc; [apply runs_fit_snoc; [apply runs_fit_snoc; [apply (runs_fit_snoc _ _ [])|]|]|]; [done|..]; intros results ve2 E2.
    + split; [apply test_put_ok|split; [discriminate|split; [by right|done]]].
    + intros r Hr. destruct (test_first_freeze r) as (Hf & Hn & Hnd); [|split; [exact Hf|split; [exact Hn|intros _; exact Hnd]]].
      eapply shard_fact; [exact E1|exact E2|exact Hr|vm_compute; reflexivity].
    + split; [apply test_batch_ok|]. split; apply (bool_decide_unpack _); vm_compute; exact I.
    + clear. by split.
  - intros results ve2 E2 r Hr. destruct (test_second_freeze r) as (Hf & Hn & Hnd); [|split; [exact Hf|split; [exact Hn|intros _; exact Hnd]]].
    eapply shard_fact; [exact E1|exact E2|exact Hr|vm_compute; reflexivity].
Qed.

Lemma test_ve_ops_fit distinct ve1 : ve_Open test_ve = Some (inr tt, ve1) -> runs_fit test_decode distinct test_ve_ops ve1.
Proof.
  intros E1. pose proof (test_refrozen_fit distinct ve1 E1) as Hfit.
  apply runs_fit_snoc; [apply runs_fit_snoc; [apply runs_fit_snoc; [apply runs_fit_snoc|]|]|]; [done|..]; intros results ve2 E2; [|done| |done].
  - intros r Hr. exists test_named. split; [|apply Nat.leb_le; vm_compute; reflexivity].
    destruct (open_fresh test_decode (2 ^ 63) (2 ^ 63) test_ve test_ve_plain test_ve_fresh) as (ve1' & r1 & E1' & Hs & _); [lia|lia|].
    rewrite E1 in E1'. injection E1' as <-.
    destruct (run_ok test_decode distinct test_refrozen _ _ _ _ _ Hs) as (results' & ve2' & r' & E2' & [_ _ Hr' _ [names Hd]] & _); [vm_compute; discriminate..|done|].
    rewrite E2 in E2'. injection E2' as <- <-. rewrite Hr in Hr'. injection Hr' as <-.
    apply test_can_compact; [apply Hd|apply Hd| |].
    + destruct (du_log _ _ _ _ _ _ Hd) as (segs & es & Hw & _). apply Hw.
    + eapply shard_fact; [exact E1|exact E2|exact Hr|vm_compute; reflexivity].
  - split; [apply test_put_ok|split; [discriminate|split; [by right|done]]].
Qed.

(** A put without a tenant but with a device is acknowledged and found, and the
    engine cannot be opened again. *)
Lemma engine_with_unreadable_put :
  let put := VePut 0 7 [1; 2] (MkMeta [] (bstr "dev-1") [] 0 0 0 [] [] 0 0) in
  ('(_, ve1) ← ve_Open test_ve; fst <$> ve_runs test_decode [put; VeFlush; VeReopen] ve1) =
  Some [inr tt; inr tt; inl (Corruption "wal put length mismatch")].
Proof. vm_compute. done. Qed.

Lemma vector_engine_survives_restart_witness :
  exists ve1 results ve2 ve3, ve_Open test_ve = Some (inr tt, ve1) /\ ve_runs test_decode test_ve_ops ve1 = Some (results, ve2) /\
    (ve_Close ;; ve_Open) ve2 = Some (inr tt, ve3) /\
    gets_agree (7 ∈ test_ve_ops ≫= op_batched) (ve_Get test_decode 0 7 ve3) (ve_Get test_decode 0 7 ve2).
Proof.
  destruct (vector_engine_survives_restart test_decode test_ve_ops test_ve test_ve_plain test_ve_fresh) as (ve1 & E1 & Hrun); [vm_compute; reflexivity|].
  destruct (Hrun (test_ve_ops_fit false ve1 E1)) as (results & ve2 & ve3 & E2 & E3 & Hget).
  exists ve1, results, ve2, ve3. split; [exact E1|]. split; [exact E2|]. split; [exact E3|]. apply Hget; [discriminate|]. right. vm_compute. discriminate.
Defined.

Lemma vector_engine_is_persistent_map_witness :
  exists ve1 ve2 meta, ve_Open test_ve = Some (inr tt, ve1) /\
    ve_runs test_decode test_ve_ops ve1 = Some (replicate 9 (inr tt), ve2) /\
    ve_Get test_decode 0 7 ve2 = Some (inr ([1; 2], meta), ve2).
Proof.
  destruct (vector_engine_is_persistent_map test_decode test_ve_ops test_ve test_ve_plain test_ve_fresh) as (ve1 & E1 & Hrun);
    [vm_compute; discriminate|vm_compute; reflexivity|].
  destruct (Hrun (test_ve_ops_fit true ve1 E1)) as (results & ve2 & E2 & Hget). pose proof E1 as Eres.
  assert (results = replicate 9 (inr tt)) as ->.
  { vm_compute in E1. injection E1 as <-. apply (f_equal (fmap fst)) in E2. vm_compute in E2. by injection E2 as <-. }
  destruct (Hget 0 7 ltac:(discriminate)) as [meta Hg]. exists ve1, ve2, meta. split; [exact Eres|]. split; [exact E2|exact Hg].
Defined.
