(* ===== verification/AgentMemory.v ===== *)
(** * Agent memory (src/core/rag/agent_memory.cc)

    Records of agents over an embedded database.  A record is a vector whose
    tenant field holds the encoded record; the operations scan a snapshot with
    an iterator and look every id up again.  The square root of single precision
    is a parameter.  The diagnostic output of [GetRecent] is
    not modelled. *)
From S2P Require Import Prelude StdSort FlatHash Env Types Wal Graph Text PosixFile Manifest MemTable Segment Layers Runtime SearchParts Search Kernel Database.

Open Scope Z_scope.

(** ** Records *)

(** include/pomai/agent_memory.h:41-46 [AgentMemoryKind]. *)
Inductive AgentMemoryKind : Type := kMessage | kSummary | kKnowledge.
#[global] Instance AgentMemoryKind_eq_dec : EqDecision AgentMemoryKind.
Proof. solve_decision. Defined.

(** include/pomai/agent_memory.h:48-56 [AgentMemoryRecord]. *)
Record AgentMemoryRecord : Type := MkRecord {
  am_agent_id : bytes;
  am_session_id : bytes;
  am_kind : AgentMemoryKind;
  am_logical_ts : Z;
  am_text : bytes;
  am_embedding : vec
}.

Definition backslash : byte := Byte.x5c.
Definition pipe : byte := Byte.x7c.
Definition equals : byte := Byte.x3d.

(** src/core/rag/agent_memory.cc:16-29 [EscapeField]. *)
Fixpoint EscapeField (s : bytes) : bytes :=
  match s with
  | [] => []
  | c :: s => (if bool_decide (c = backslash) || bool_decide (c = pipe) then [backslash; c] else [c]) ++ EscapeField s
  end.

(** The loop of [UnescapeField], from the value of [escape]. *)
Fixpoint unescape_loop (escape : bool) (s : bytes) : option bytes :=
  match s with
  | [] => if escape then None else Some []
  | c :: s => if negb escape && bool_decide (c = backslash) then unescape_loop true s else cons c <$> unescape_loop false s
  end.

(** src/core/rag/agent_memory.cc:31-52 [UnescapeField]. [None] is [false]. *)
Definition UnescapeField (s : bytes) : option bytes := unescape_loop false s.

(** [std::to_string] and [std::from_chars] of a signed 64-bit integer. *)
Definition to_string_signed (n : Z) : bytes := if n <? 0 then Byte.x2d :: to_string (- n) else to_string n.
Definition from_chars (s : bytes) : option Z :=
  let '(neg, ds) := match s with c :: r => if bool_decide (c = Byte.x2d) then (true, digit_prefix r) else (false, digit_prefix s) | [] => (false, []) end in
  let n := if neg then - value ds else value ds in
  if bool_decide (ds = []) || negb ((- 2 ^ 63 <=? n) && (n <? 2 ^ 63)) then None else Some n.

(** [field.find('=')]: what is before and after. *)
Fixpoint cut_at (d : byte) (s : bytes) : option (bytes * bytes) :=
  match s with
  | [] => None
  | c :: s => if bool_decide (c = d) then Some ([], s) else (fun x => (c :: x.1, x.2)) <$> cut_at d s
  end.

(** src/core/rag/agent_memory.cc:72-126 [flush_field]. [None] is [false]. *)
Definition flush_field (field : bytes) (rec : AgentMemoryRecord) : option AgentMemoryRecord :=
  let '(MkRecord agent session kind ts text emb) := rec in
  if bool_decide (field = []) then Some rec else
  '(k, v) ← cut_at equals field;
  key ← UnescapeField k;
  val ← UnescapeField v;
  Some (
    if bool_decide (key = bstr "agent") then MkRecord val session kind ts text emb
    else if bool_decide (key = bstr "session") then MkRecord agent val kind ts text emb
    else if bool_decide (key = bstr "kind") then
      let kind := if bool_decide (val = bstr "message") then kMessage
                  else if bool_decide (val = bstr "summary") then kSummary
                  else if bool_decide (val = bstr "knowledge") then kKnowledge else kind in
      MkRecord agent session kind ts text emb
    else if bool_decide (key = bstr "ts") then MkRecord agent session kind (default ts (from_chars val)) text emb
    else if bool_decide (key = bstr "text") then MkRecord agent session kind ts val emb
    else rec).

(** The loop of [ParseEncodedMetadata] and the last field. *)
Fixpoint parse_fields (escape : bool) (field_buf encoded : bytes) (rec : AgentMemoryRecord) : option AgentMemoryRecord :=
  match encoded with
  | [] => flush_field field_buf rec
  | c :: encoded =>
      if negb escape && bool_decide (c = backslash) then parse_fields true field_buf encoded rec
      else if negb escape && bool_decide (c = pipe) then rec ← flush_field field_buf rec; parse_fields escape [] encoded rec
      else parse_fields false (field_buf ++ [c]) encoded rec
  end.

(** src/core/rag/agent_memory.cc:57-161 [ParseEncodedMetadata]. [None] is [false]. *)
Definition ParseEncodedMetadata (encoded : bytes) : option AgentMemoryRecord :=
  if bool_decide (take 3 encoded = bstr "am|")
  then parse_fields false [] (drop 3 encoded) (MkRecord [] [] kMessage 0 [] []) else None.

(** src/core/rag/agent_memory.cc:163-175 [EncodeKind]. *)
Definition EncodeKind (kind : AgentMemoryKind) : bytes :=
  match kind with kMessage => bstr "message" | kSummary => bstr "summary" | kKnowledge => bstr "knowledge" end.

(** src/core/rag/agent_memory.cc:296-316 [AgentMemory::EncodeMetadata]. *)
Definition EncodeMetadata (record : AgentMemoryRecord) : bytes :=
  bstr "am|" ++ bstr "agent=" ++ EscapeField (am_agent_id record) ++ [pipe] ++
  bstr "session=" ++ EscapeField (am_session_id record) ++ [pipe] ++
  bstr "kind=" ++ EncodeKind (am_kind record) ++ [pipe] ++
  bstr "ts=" ++ to_string_signed (am_logical_ts record) ++ [pipe] ++
  bstr "text=" ++ EscapeField (am_text record).

(** src/core/rag/agent_memory.cc:318-322 [AgentMemory::DecodeMetadata]. *)
Definition DecodeMetadata (encoded : bytes) : option AgentMemoryRecord := ParseEncodedMetadata encoded.

(** [Metadata meta(encoded);] *)
Definition md_of (tenant : bytes) : Metadata := MkMeta tenant [] [] 0 0 0 [] [] 0 0.

(** ** The facade *)

(** include/pomai/agent_memory.h:19-39 [AgentMemoryOptions]. Without the flush threshold, which the
    database does not read. *)
Record AgentMemoryOptions : Type := MkAmOptions {
  ao_path : path;
  ao_dim : Z;
  ao_metric : MetricType;
  ao_max_memtable_mb : Z;
  ao_auto_freeze_on_pressure : bool;
  ao_max_messages_per_agent : Z;
  ao_max_device_bytes : Z
}.

(** include/pomai/agent_memory.h:58-76 [AgentMemoryQuery]. *)
Record AgentMemoryQuery : Type := MkQuery {
  aq_agent_id : bytes;
  aq_session_id : bytes;
  aq_has_session_filter : bool;
  aq_kind : AgentMemoryKind;
  aq_has_kind_filter : bool;
  aq_min_ts : Z;
  aq_max_ts : Z;
  aq_embedding : vec;
  aq_topk : Z
}.

(** include/pomai/agent_memory.h:160-168 [AgentMemory::PruneEntry]. *)
Record PruneEntry : Type := MkPrune {
  pe_id : Z;
  pe_agent_id : bytes;
  pe_session_id : bytes;
  pe_kind : AgentMemoryKind;
  pe_logical_ts : Z;
  pe_approx_bytes : Z
}.

Definition INT64_MIN : Z := - 2 ^ 63.
Definition f32_minus_inf : Z := 0xFF800000.

(** The comparisons of the sorts. *)
Definition recent_lt (a b : AgentMemoryRecord) : bool :=
  if negb (am_logical_ts a =? am_logical_ts b) then am_logical_ts a <? am_logical_ts b else bytes_ltb (am_text a) (am_text b).
Definition prune_lt (a b : PruneEntry) : bool :=
  if negb (pe_logical_ts a =? pe_logical_ts b) then pe_logical_ts a <? pe_logical_ts b else pe_id a <? pe_id b.
Definition better (a b : AgentMemoryRecord * Z) : bool := f32_gtb a.2 b.2.

Section facade.
Context {T : Type} `{IdMap T (option bytes)} `{F32} `{AesGcm} `{Sidecars} `{Kernels} `{HitSort} `{StdSort}.
Context (quant_decode : SegmentReader -> bytes -> vec).
Context (Hash : Z -> Z) (beyond_radius : Filter -> Metadata -> bool) (metric : MetricType) (ip : IndexParams).
Context (times : nat -> Times) (steady : nat -> Z) (f32_sqrt : Z -> Z).

(** src/core/rag/agent_memory.cc:177-219 [ComputeFallbackScore]. *)
Definition ComputeFallbackScore (query candidate : vec) (m : MetricType) : Z :=
  if negb (zlen query =? zlen candidate) then f32_minus_inf else
  let '(dot, l2, qn, cn) :=
    fold_left (fun '(dot, l2, qn, cn) '(qv, cv) =>
      let d := f32_sub qv cv in
      (f32_add dot (f32_mul qv cv), f32_add l2 (f32_mul d d), f32_add qn (f32_mul qv qv), f32_add cn (f32_mul cv cv)))
      (zip query candidate) (f32_0, f32_0, f32_0, f32_0) in
  match m with
  | kInnerProduct => dot
  | kCosine =>
      let denom := f32_mul (f32_sqrt qn) (f32_sqrt cn) in
      if f32_gtb f32_0 denom || f32_eqb denom f32_0 then f32_minus_inf else f32_div dot denom
  | kL2 => f32_neg l2
  end.

(** include/pomai/agent_memory.h:176-180 [AgentMemory]. *)
Record AgentMemory : Type := MkAm {
  am_options : AgentMemoryOptions;
  am_db : Database (T := T);
  am_dim : Z;
  am_opened : bool;
  am_next_id : Z
}.

Definition am_with_db (db : Database) (a : AgentMemory) : AgentMemory := MkAm (am_options a) db (am_dim a) (am_opened a) (am_next_id a).
Definition am_with_next_id (id : Z) (a : AgentMemory) : AgentMemory := MkAm (am_options a) (am_db a) (am_dim a) (am_opened a) id.

(** [db_->op()] *)
Definition on_db {A} (m : U Database A) : U AgentMemory A := fun a =>
  '(r, db) ← m (am_db a);
  Some (r, am_with_db db a).

Definition am_Get (id : Z) : U AgentMemory (vec * Metadata) :=
  on_db (db_Get quant_decode Hash beyond_radius metric ip times steady id [] md_default).
Definition am_Delete (id : Z) : U AgentMemory unit := on_db (db_Delete quant_decode Hash beyond_radius metric ip times steady id).

(** An iterator on the snapshot of the database; using a null iterator is
    undefined. *)
Definition am_scan : U AgentMemory (VectorIterator T) :=
  snap ← on_db (db_GetSnapshot quant_decode Hash beyond_radius metric ip times steady);
  it ← on_db (db_NewIterator quant_decode Hash beyond_radius metric ip times steady snap);
  udefined it.

(** [while (it->Next()) body(it->id());] *)
Fixpoint while_next {A} (fuel : nat) (it : VectorIterator T) (body : Z -> A -> U AgentMemory A) (acc : A) : U AgentMemory A :=
  match fuel with
  | O => udefined None
  | S fuel =>
      it ← udefined (it_Next quant_decode it);
      if it_Valid it then acc ← body (it_current_id it) acc; while_next fuel it body acc else mret acc
  end.
Definition for_ids {A} (it : VectorIterator T) (body : Z -> A -> U AgentMemory A) (acc : A) : U AgentMemory A :=
  while_next (S (iter_fuel (it_snapshot it))) it body acc.

(** src/core/rag/agent_memory.cc:258-281 [AgentMemory::Open]. The block that computes the next id. *)
Definition am_init_next_id : U AgentMemory unit :=
  it ← am_scan;
  max_id ← for_ids it (fun id max_id => mret (Z.max max_id id)) 0;
  umodify (am_with_next_id (u64 (max_id + 1))).

(** src/core/rag/agent_memory.cc:232-285 [AgentMemory::Open]. A failure destroys the database, which
    closes it, and leaves the disk. *)
Definition am_Open (options : AgentMemoryOptions) (disk : Disk) : option (Status * Disk + AgentMemory) :=
  if bool_decide (ao_path options = "") then Some (inl (InvalidArgument "AgentMemoryOptions.path is empty", disk)) else
  if ao_dim options =? 0 then Some (inl (InvalidArgument "AgentMemoryOptions.dim must be > 0", disk)) else
  let emb := MkEmbedded (ao_path options) (ao_dim options) (ao_metric options) kNever IndexParams_Default (ao_max_memtable_mb options) 0
               (ao_auto_freeze_on_pressure options) false false [] in
  let destroy st (db : Database) := '(_, db) ← db_Close db; Some (inl (st, db_disk db)) in
  '(st, db) ← db_Open steady emb (MkDb None disk false 0 true []);
  match st with
  | inl st => destroy st db
  | inr _ =>
      '(st, a) ← am_init_next_id (MkAm options db (ao_dim options) true 1);
      match st with
      | inl st => destroy st (am_db a)
      | inr _ => Some (inr a)
      end
  end.

(** src/core/rag/agent_memory.cc:287-294 [AgentMemory::EnsureOpen]. *)
Definition EnsureOpen : U AgentMemory unit :=
  a ← uget;
  uguard (am_opened a && db_opened (am_db a)) (MkStatus kFailedPrecondition "AgentMemory is not open").

(** What the scans keep of one id: the entry is read again and decoded. *)
Definition am_fetch (id : Z) : U AgentMemory (option (vec * Metadata * AgentMemoryRecord)) :=
  st ← utry (am_Get id);
  mret (match st with
        | inl _ => None
        | inr (v, meta) => rec ← DecodeMetadata (md_tenant meta); Some (v, meta, rec)
        end).

(** src/core/rag/agent_memory.cc:619-666 [AgentMemory::CollectPruneEntries]. *)
Definition CollectPruneEntries : U AgentMemory (list PruneEntry) :=
  EnsureOpen ;;
  it ← am_scan;
  for_ids it (fun id out_entries =>
    r ← am_fetch id;
    mret (match r with
          | None => out_entries
          | Some (v, meta, rec) =>
              out_entries ++ [MkPrune id (am_agent_id rec) (am_session_id rec) (am_kind rec) (am_logical_ts rec) (u64 (4 * zlen v + zlen (md_tenant meta)))]
          end)) [].

(** The loop of [PruneOld] over the entries from index [i] on. *)
Fixpoint prune_loop (i cutoff_index : nat) (min_ts_to_keep : Z) (filtered : list PruneEntry) : U AgentMemory unit :=
  match filtered with
  | [] => mret tt
  | e :: filtered =>
      (if (min_ts_to_keep <=? pe_logical_ts e) || (cutoff_index <=? i)%nat then mret tt else utry (am_Delete (pe_id e)) ;; mret tt) ;;
      prune_loop (S i) cutoff_index min_ts_to_keep filtered
  end.

(** src/core/rag/agent_memory.cc:668-716 [AgentMemory::PruneOld]. *)
Definition PruneOld (agent_id : bytes) (keep_last_n min_ts_to_keep : Z) : U AgentMemory unit :=
  entries ← CollectPruneEntries;
  let filtered := std_sort prune_lt (filter (fun e => pe_agent_id e = agent_id) entries) in
  let to_keep := Z.to_nat (Z.min keep_last_n (zlen filtered)) in
  prune_loop 0 (length filtered - to_keep) min_ts_to_keep filtered.

(** The loop of [PruneDeviceWide]. *)
Fixpoint shrink_loop (total target_total_bytes : Z) (entries : list PruneEntry) : U AgentMemory unit :=
  match entries with
  | [] => mret tt
  | e :: entries =>
      if total <=? target_total_bytes then mret tt else
      utry (am_Delete (pe_id e)) ;;
      shrink_loop (if pe_approx_bytes e <=? total then total - pe_approx_bytes e else 0) target_total_bytes entries
  end.

(** src/core/rag/agent_memory.cc:718-761 [AgentMemory::PruneDeviceWide]. *)
Definition PruneDeviceWide (target_total_bytes : Z) : U AgentMemory unit :=
  entries ← CollectPruneEntries;
  let total := fold_left (fun t e => u64 (t + pe_approx_bytes e)) entries 0 in
  if total <=? target_total_bytes then mret tt else shrink_loop total target_total_bytes (std_sort prune_lt entries).

(** The caps after an append. *)
Definition am_prune (agent_id : bytes) : U AgentMemory unit :=
  a ← uget;
  (if 0 <? ao_max_messages_per_agent (am_options a)
   then utry (PruneOld agent_id (ao_max_messages_per_agent (am_options a)) INT64_MIN) ;; mret tt else mret tt) ;;
  (if 0 <? ao_max_device_bytes (am_options a)
   then utry (PruneDeviceWide (ao_max_device_bytes (am_options a))) ;; mret tt else mret tt).

(** One record under the next id. *)
Definition am_add (record : AgentMemoryRecord) : U AgentMemory Z :=
  a ← uget;
  let id := am_next_id a in
  umodify (am_with_next_id (u64 (id + 1))) ;;
  on_db (db_AddVector quant_decode Hash beyond_radius metric ip times steady id (am_embedding record) (md_of (EncodeMetadata record))) ;;
  mret id.

(** src/core/rag/agent_memory.cc:324-364 [AgentMemory::AppendMessage]. *)
Definition AppendMessage (record : AgentMemoryRecord) : U AgentMemory Z :=
  EnsureOpen ;;
  a ← uget;
  uguard (zlen (am_embedding record) =? am_dim a) (InvalidArgument "embedding dimension mismatch") ;;
  id ← am_add record;
  utry (on_db (TryFreezeIfPressured quant_decode Hash beyond_radius metric ip times steady)) ;;
  am_prune (am_agent_id record) ;;
  mret id.

Fixpoint am_add_all (records : list AgentMemoryRecord) : U AgentMemory (list Z) :=
  match records with
  | [] => mret []
  | r :: records => id ← am_add r; ids ← am_add_all records; mret (id :: ids)
  end.

(** src/core/rag/agent_memory.cc:366-428 [AgentMemory::AppendBatch]. *)
Definition AppendBatch (records : list AgentMemoryRecord) : U AgentMemory (list Z) :=
  EnsureOpen ;;
  a ← uget;
  match last records with
  | None => mret []
  | Some back =>
      uguard (forallb (fun r => zlen (am_embedding r) =? am_dim a) records) (InvalidArgument "embedding dimension mismatch in batch") ;;
      ids ← am_add_all records;
      utry (on_db (TryFreezeIfPressured quant_decode Hash beyond_radius metric ip times steady)) ;;
      am_prune (am_agent_id back) ;;
      mret ids
  end.

(** [all.end() - limit] *)
Definition last_n {A} (limit : Z) (l : list A) : list A := drop (length l - Z.to_nat (Z.min limit (zlen l))) l.

(** src/core/rag/agent_memory.cc:430-503 [AgentMemory::GetRecent]. *)
Definition GetRecent (agent_id session_id : bytes) (limit : Z) : U AgentMemory (list AgentMemoryRecord) :=
  EnsureOpen ;;
  it ← am_scan;
  all ← for_ids it (fun id all =>
    r ← am_fetch id;
    mret (match r with
          | Some (_, _, rec) =>
              if bool_decide (am_agent_id rec = agent_id) && (bool_decide (session_id = []) || bool_decide (am_session_id rec = session_id))
              then all ++ [rec] else all
          | None => all
          end)) [];
  mret (last_n limit (std_sort recent_lt all)).

(** src/core/rag/agent_memory.cc:565-580 [AgentMemory::SearchAndFilter]. The filters on a record. *)
Definition query_selects (q : AgentMemoryQuery) (rec : AgentMemoryRecord) : bool :=
  bool_decide (am_agent_id rec = aq_agent_id q) &&
  negb (aq_has_session_filter q && negb (bool_decide (am_session_id rec = aq_session_id q))) &&
  negb (aq_has_kind_filter q && negb (bool_decide (am_kind rec = aq_kind q))) &&
  negb ((am_logical_ts rec <? aq_min_ts q) || (aq_max_ts q <? am_logical_ts rec)).

(** The hits of known ids, when the search finds none. *)
Fixpoint probe_ids (ids : list Z) (hits : list SearchHit) : U AgentMemory (list SearchHit) :=
  match ids with
  | [] => mret hits
  | id :: ids => st ← utry (am_Get id); probe_ids ids (match st with inr _ => hits ++ [MkHit id f32_0] | inl _ => hits end)
  end.

Fixpoint keep_hits (q : AgentMemoryQuery) (raw : list SearchHit) (hits : list (AgentMemoryRecord * Z)) : U AgentMemory (list (AgentMemoryRecord * Z)) :=
  match raw with
  | [] => mret hits
  | h :: raw =>
      r ← am_fetch (h_id h);
      a ← uget;
      keep_hits q raw
        (match r with
         | Some (v, _, rec) =>
             if query_selects q rec
             then hits ++ [(rec, if negb (f32_eqb (h_score h) f32_0) then h_score h else ComputeFallbackScore (aq_embedding q) v (ao_metric (am_options a)))]
             else hits
         | None => hits
         end)
  end.

(** src/core/rag/agent_memory.cc:505-608 [AgentMemory::SearchAndFilter]. A hit is a record with its score. *)
Definition SearchAndFilter (q : AgentMemoryQuery) : U AgentMemory (list (AgentMemoryRecord * Z)) :=
  a ← uget;
  uguard (zlen (aq_embedding q) =? am_dim a) (InvalidArgument "query.embedding dimension mismatch") ;;
  let internal_topk := if aq_topk q =? 0 then 1 else aq_topk q in
  let internal_topk := Z.min (u32 (internal_topk * 4)) 1024 in
  raw ← on_db (db_Search quant_decode Hash beyond_radius metric ip times steady (aq_embedding q) internal_topk (MkOpts [] 0 0 [] []) []);
  raw ← (if bool_decide (raw = []) then probe_ids (seqZ 1 (am_next_id a - 1)) [] else mret raw);
  hits ← keep_hits q raw [];
  mret (take (Z.to_nat (aq_topk q)) (std_sort better hits)).

(** src/core/rag/agent_memory.cc:610-617 [AgentMemory::SemanticSearch]. *)
Definition SemanticSearch (q : AgentMemoryQuery) : U AgentMemory (list (AgentMemoryRecord * Z)) := EnsureOpen ;; SearchAndFilter q.

(** src/core/rag/agent_memory.cc:763-769 [AgentMemory::FreezeIfNeeded]. *)
Definition FreezeIfNeeded : U AgentMemory unit :=
  EnsureOpen ;; on_db (TryFreezeIfPressured quant_decode Hash beyond_radius metric ip times steady).
End facade.
