(* ===== verification/AgentMemoryTheorems.v ===== *)
(** * Theorems about the agent memory

    The encoding of records, the scans and the prunes, on top of the theorems
    about the database, the iterator and the shard. *)
From S2P Require Import Prelude StdSort FlatHash Env Types Wal WalCodec WalLog WalTheorems Graph Text PosixFile Manifest MemTable MemTableTheorems Segment SegmentTheorems.
From S2P Require Import Layers Runtime RuntimeTheorems FreezeTheorems IteratorTheorems SearchParts Search SearchTheorems Kernel Database DatabaseTheorems AgentMemory.

Open Scope Z_scope.

(** ** The encoding *)

Definition plain (s : bytes) : Prop := Forall (fun c => c <> backslash /\ c <> pipe) s.

Lemma parse_plain s : forall buf rest rec, plain s -> parse_fields false buf (s ++ rest) rec = parse_fields false (buf ++ s) rest rec.
Proof.
  induction s as [|c s IH]; intros buf rest rec Hs; [by rewrite app_nil_r|]. apply Forall_cons in Hs as [[Hb Hp] Hs].
  cbn [app parse_fields]. rewrite !bool_decide_eq_false_2 by done. cbn [negb andb]. rewrite IH by done. by rewrite <-app_assoc.
Qed.

Lemma parse_escaped s : forall buf rest rec, parse_fields false buf (EscapeField s ++ rest) rec = parse_fields false (buf ++ s) rest rec.
Proof.
  induction s as [|c s IH]; intros buf rest rec; [by rewrite app_nil_r|]. cbn [EscapeField].
  case_bool_decide as Hb; [|case_bool_decide as Hp]; cbn [orb app parse_fields]; cbn [negb andb];
    rewrite ?bool_decide_eq_true_2, ?bool_decide_eq_false_2 by done; rewrite IH; by rewrite <-app_assoc.
Qed.

Lemma parse_pipe buf rest rec : parse_fields false buf ([pipe] ++ rest) rec = flush_field buf rec ≫= parse_fields false [] rest.
Proof. done. Qed.

Lemma unescape_plain s : backslash ∉ s -> UnescapeField s = Some s.
Proof.
  unfold UnescapeField. induction s as [|c s IH]; intros Hs; [done|]. rewrite not_elem_of_cons in Hs. destruct Hs as [Hc Hs].
  cbn [unescape_loop negb andb]. rewrite bool_decide_eq_false_2 by done. by rewrite IH.
Qed.

Lemma digits_plain ds : Forall (fun c => is_digit c = true) ds -> plain ds.
Proof. intros H. eapply Forall_impl; [exact H|]. intros c Hc. split; intros ->; vm_compute in Hc; congruence. Qed.

(** *** Signed numbers *)

Definition is_i64 (n : Z) : Prop := - 2 ^ 63 <= n < 2 ^ 63.

Lemma from_chars_range s n : from_chars s = Some n -> is_i64 n.
Proof.
  unfold from_chars, is_i64. destruct (match s with [] => _ | _ => _ end) as [neg ds].
  destruct (bool_decide (ds = []) || _) eqn:E; [done|]. intros [= <-].
  apply orb_false_iff in E as [_ E]. apply negb_false_iff, andb_true_iff in E as [E1%Z.leb_le E2%Z.ltb_lt]. lia.
Qed.

Lemma from_chars_digits (neg : bool) n :
  0 <= n -> is_i64 (if neg then - n else n) ->
  from_chars ((if neg then [Byte.x2d] else []) ++ to_string n) = Some (if neg then - n else n).
Proof.
  intros H0 Hn. assert (is_u64 n) as Hu by (unfold is_i64, is_u64 in *; destruct neg; lia).
  pose proof (to_string_digits n Hu) as Hd. pose proof (to_string_nonempty n Hu) as Hne. pose proof (to_string_value n Hu) as Hv.
  pose proof (digit_prefix_digits _ Hd) as Hp. unfold from_chars.
  assert (match (if neg then [Byte.x2d] else []) ++ to_string n with
    | [] => (false, []) | c :: r => if bool_decide (c = Byte.x2d) then (true, digit_prefix r) else (false, digit_prefix ((if neg then [Byte.x2d] else []) ++ to_string n)) end
    = (neg, to_string n)) as E.
  { destruct neg; cbn [app]; [by rewrite bool_decide_eq_true_2, Hp|]. destruct (to_string n) as [|c r] eqn:Et; [done|].
    rewrite bool_decide_eq_false_2; [by rewrite Hp|]. intros ->. by apply Forall_cons in Hd as [? _]. }
  rewrite E. rewrite Hv, bool_decide_eq_false_2 by done. cbn [orb]. unfold is_i64 in Hn.
  rewrite (proj2 (Z.leb_le _ _)), (proj2 (Z.ltb_lt _ _)) by lia. done.
Qed.

Lemma from_chars_to_string n : is_i64 n -> from_chars (to_string_signed n) = Some n.
Proof.
  intros Hn. unfold to_string_signed. destruct (Z.ltb_spec n 0).
  - etransitivity; [apply (from_chars_digits true (- n)); unfold is_i64 in *; lia|]. f_equal. lia.
  - by apply (from_chars_digits false n).
Qed.

Lemma to_string_signed_plain n : is_i64 n -> plain (to_string_signed n).
Proof.
  intros Hn. unfold to_string_signed, is_i64 in *.
  destruct (Z.ltb_spec n 0); [apply Forall_cons; split; [done|]|]; apply digits_plain, to_string_digits; unfold is_u64; lia.
Qed.

(** *** Fields *)

Lemma flush_agent v a s k t x e :
  flush_field (bstr "agent=" ++ v) (MkRecord a s k t x e) = v ← UnescapeField v; Some (MkRecord v s k t x e).
Proof. reflexivity. Qed.
Lemma flush_session v a s k t x e :
  flush_field (bstr "session=" ++ v) (MkRecord a s k t x e) = v ← UnescapeField v; Some (MkRecord a v k t x e).
Proof. reflexivity. Qed.
Lemma flush_kind kind a s k t x e :
  flush_field (bstr "kind=" ++ EncodeKind kind) (MkRecord a s k t x e) = Some (MkRecord a s kind t x e).
Proof. by destruct kind. Qed.
Lemma flush_ts v a s k t x e :
  flush_field (bstr "ts=" ++ v) (MkRecord a s k t x e) = v ← UnescapeField v; Some (MkRecord a s k (default t (from_chars v)) x e).
Proof. reflexivity. Qed.
Lemma flush_text v a s k t x e :
  flush_field (bstr "text=" ++ v) (MkRecord a s k t x e) = v ← UnescapeField v; Some (MkRecord a s k t v e).
Proof. reflexivity. Qed.

#[local] Instance plain_dec s : Decision (plain s).
Proof. unfold plain. apply _. Defined.
Lemma key_plain (k : string) : bool_decide (plain (bstr k)) = true -> plain (bstr k).
Proof. apply bool_decide_eq_true_1. Qed.

Lemma kind_plain kind : plain (EncodeKind kind).
Proof. apply (bool_decide_unpack _). by destruct kind. Qed.

Lemma plain_unescape s : plain s -> UnescapeField s = Some s.
Proof. intros Hs. apply unescape_plain. intros Hi. by destruct (proj1 (Forall_forall _ _) Hs _ Hi). Qed.

(** Decoding an encoded record unescapes the agent, the session and the text
    once more than encoding escapes them, keeps the kind and the timestamp, and
    drops the embedding; fields without backslashes, pipes included, come back
    as they were. *)
Theorem agent_record_decodes rec :
  is_i64 (am_logical_ts rec) ->
  DecodeMetadata (EncodeMetadata rec) =
    (agent ← UnescapeField (am_agent_id rec); session ← UnescapeField (am_session_id rec); text ← UnescapeField (am_text rec);
     Some (MkRecord agent session (am_kind rec) (am_logical_ts rec) text [])) /\
  (backslash ∉ am_agent_id rec -> backslash ∉ am_session_id rec -> backslash ∉ am_text rec ->
   DecodeMetadata (EncodeMetadata rec) =
     Some (MkRecord (am_agent_id rec) (am_session_id rec) (am_kind rec) (am_logical_ts rec) (am_text rec) [])).
Proof.
  intros Ht. destruct rec as [agent session kind ts text emb]. cbn [am_agent_id am_session_id am_kind am_logical_ts am_text] in *.
  match goal with |- ?l = ?r /\ _ => assert (l = r) as E end.
  { unfold DecodeMetadata, ParseEncodedMetadata, EncodeMetadata. cbn [am_agent_id am_session_id am_kind am_logical_ts am_text].
    rewrite take_app_length' by done. rewrite bool_decide_eq_true_2 by done. rewrite drop_app_length' by done.
    rewrite parse_plain by (by apply key_plain). rewrite parse_escaped, app_nil_l. rewrite parse_pipe, flush_agent.
    destruct (UnescapeField agent) as [agent'|]; [|done]. cbn [mbind option_bind].
    rewrite parse_plain by (by apply key_plain). rewrite parse_escaped, app_nil_l. rewrite parse_pipe, flush_session.
    destruct (UnescapeField session) as [session'|]; [|done]. cbn [mbind option_bind].
    rewrite parse_plain by (by apply key_plain). rewrite parse_plain by apply kind_plain. rewrite app_nil_l, parse_pipe, flush_kind. cbn [mbind option_bind].
    rewrite parse_plain by (by apply key_plain). rewrite parse_plain by by apply to_string_signed_plain.
    rewrite app_nil_l, parse_pipe, flush_ts, plain_unescape by by apply to_string_signed_plain.
    cbn [mbind option_bind]. rewrite from_chars_to_string by done. cbn [default].
    rewrite parse_plain by (by apply key_plain). rewrite <-(app_nil_r (EscapeField text)), parse_escaped. cbn [parse_fields]. by rewrite app_nil_l, flush_text. }
  split; [exact E|]. intros Ha Hs Hx. by rewrite E, !unescape_plain.
Qed.

Lemma flush_ts_range field rec rec' : is_i64 (am_logical_ts rec) -> flush_field field rec = Some rec' -> is_i64 (am_logical_ts rec').
Proof.
  destruct rec as [a s k t x e]. cbn [am_logical_ts]. intros Ht E. unfold flush_field in E.
  case_bool_decide; [by injection E as <-|].
  destruct (cut_at equals field) as [[key val]|]; [|done]. cbn [mbind option_bind] in E.
  destruct (UnescapeField key) as [key'|]; [|done]. cbn [mbind option_bind] in E.
  destruct (UnescapeField val) as [val'|]; [|done]. cbn [mbind option_bind] in E. injection E as <-.
  repeat case_bool_decide; cbn [am_logical_ts]; try done.
  destruct (from_chars val') as [n|] eqn:En; [by eapply from_chars_range|done].
Qed.

Lemma parse_ts_range s : forall escape buf rec rec',
  is_i64 (am_logical_ts rec) -> parse_fields escape buf s rec = Some rec' -> is_i64 (am_logical_ts rec').
Proof.
  induction s as [|c s IH]; intros escape buf rec rec' Ht; cbn [parse_fields]; [by apply flush_ts_range|].
  destruct (negb escape && bool_decide (c = backslash)); [by apply IH|].
  destruct (negb escape && bool_decide (c = pipe)); [|by apply IH].
  destruct (flush_field buf rec) as [rec1|] eqn:E; [|done]. cbn [mbind option_bind]. apply IH. by eapply flush_ts_range.
Qed.

Lemma decode_ts_range s rec : DecodeMetadata s = Some rec -> is_i64 (am_logical_ts rec).
Proof.
  unfold DecodeMetadata, ParseEncodedMetadata. case_bool_decide; [|done]. apply parse_ts_range. cbn. unfold is_i64. lia.
Qed.

(** ** Scans *)

Section scans.
Context {T : Type} `{IdMapLaws T (option bytes)} `{F32} `{AesGcm} `{Sidecars} `{Kernels} `{HitSort} `{StdSort}.
Context (quant_decode : SegmentReader -> bytes -> vec).
Context (Hash : Z -> Z) (beyond_radius : Filter -> Metadata -> bool) (metric : MetricType) (ip : IndexParams).
Context (times : nat -> Times) (steady : nat -> Z).
Context (Hprompt : forall n, prompt steady n) {Hlaws : AesGcmLaws}.
Implicit Types (a : AgentMemory (T := T)) (r : VectorRuntime T) (g : GraphMembraneImpl).

Fixpoint each_id {A} (body : Z -> A -> U (AgentMemory (T := T)) A) (ids : list Z) (acc : A) : U AgentMemory A :=
  match ids with
  | [] => mret acc
  | id :: ids => acc ← body id acc; each_id body ids acc
  end.

(** [while (it->Next())] visits what the iterator has left after its first entry. *)
Lemma while_next_drain {A} (body : Z -> A -> U (AgentMemory (T := T)) A) fuel : forall it l acc a,
  it_drain quant_decode fuel it = Some l -> while_next quant_decode (S fuel) it body acc a = each_id body (tail l.*1) acc a.
Proof.
  induction fuel as [|fuel IH]; intros it l acc a Ed; cbn [it_drain] in Ed.
  - destruct (it_Valid it) eqn:Hv; [done|]. injection Ed as <-. cbn [while_next]. unfold it_Next. rewrite Hv.
    cbn [negb]. unfold mbind, U_bind, udefined. by rewrite Hv.
  - destruct (it_Valid it) eqn:Hv; cbn [negb] in Ed.
    + destruct (it_Next quant_decode it) as [it'|] eqn:En; [|done]. cbn [mbind option_bind] in Ed.
      destruct (it_drain quant_decode fuel it') as [rest|] eqn:Er; [|done]. injection Ed as <-.
      specialize (IH it' rest). change (while_next quant_decode (S (S fuel)) it body acc a) with
        ((it1 ← udefined (it_Next quant_decode it);
          if it_Valid it1 then acc ← body (it_current_id it1) acc; while_next quant_decode (S fuel) it1 body acc else mret acc) a).
      rewrite En. rewrite (ubind_ok (udefined (Some it')) _ a it' a eq_refl). rewrite fmap_cons. cbn [tail].
      destruct (it_Valid it') eqn:Hv'.
      * assert (exists rest', rest = (it_current_id it', it_current_vec it') :: rest') as [rest' ->].
        { destruct fuel; cbn [it_drain] in Er; rewrite Hv' in Er; [done|]. cbn [negb] in Er.
          destruct (it_Next quant_decode it') as [it2|]; [|done]. cbn [mbind option_bind] in Er.
          destruct (it_drain _ _ it2); [|done]. injection Er as <-. by eexists. }
        rewrite fmap_cons. cbn [each_id fst]. unfold mbind, U_bind. destruct (body _ acc a) as [[[|acc'] a']|]; [done| |done].
        by rewrite IH.
      * assert (rest = []) as -> by (destruct fuel; cbn [it_drain] in Er; rewrite Hv' in Er; cbn in Er; congruence). done.
    + injection Ed as <-. cbn [while_next]. unfold it_Next. rewrite Hv.
      cbn [negb]. unfold mbind, U_bind, udefined. by rewrite Hv.
Qed.

(** *** Calls of the database *)

Definition am_fixed a := (am_options a, am_dim a, am_opened a, am_next_id a, db_pressure_threshold_bytes (am_db a)).

Record am_ready a r g (handled : nat) : Prop := {
  ar_db : db_ready (am_db a) r g handled;
  ar_opened : am_opened a = true
}.

Lemma on_db_ok {A} (m : U (Database (T := T)) A) a r' g n' res :
  am_opened a = true ->
  (exists db', m (am_db a) = Some (res, db') /\ db_ready db' r' g n' /\ db_pressure_threshold_bytes db' = db_pressure_threshold_bytes (am_db a)) ->
  exists a', on_db m a = Some (res, a') /\ am_ready a' r' g n' /\ am_fixed a' = am_fixed a.
Proof.
  intros Ho (db' & E & Hr & Ht). exists (am_with_db db' a). split; [unfold on_db; by rewrite E|].
  split; [by split|]. unfold am_fixed. cbn. by rewrite Ht.
Qed.

Lemma ensure_open a r g n : am_ready a r g n -> EnsureOpen a = Some (inr tt, a).
Proof. intros [Hr Ho]. unfold EnsureOpen. rewrite ubind_get, Ho, (dr_opened _ _ _ _ Hr). done. Qed.

(** The identifiers the snapshot shows. *)
Definition published (chunks : list (path * list SegEntry)) r (id : Z) : Prop :=
  exists snap v meta, rt_snapshot r = Some snap /\ entries_answer (visit_order chunks snap) id = LFound v meta.

(** A shard whose published snapshot consists of memtables and built segments. *)
Record scannable (chunks : list (path * list SegEntry)) r : Prop := {
  sb_inv : rt_inv r;
  sb_snap : forall snap, rt_snapshot r = Some snap -> snap_ok (rc_dim (rt_conf r)) chunks snap;
  sb_ids : forall id, published chunks r id -> id_ok id;
  sb_ttl : rc_ttl_sec (rt_conf r) = 0
}.

Lemma am_scan_ok chunks a r g n :
  am_ready a r g n -> scannable chunks r ->
  exists it ids a', am_scan quant_decode Hash beyond_radius metric ip times steady a = Some (inr it, a') /\
    am_ready a' r g (S (S n)) /\ am_fixed a' = am_fixed a /\
    NoDup ids /\ (forall id, id ∈ ids <-> published chunks r id) /\
    forall A (body : Z -> A -> U AgentMemory A) acc s, for_ids quant_decode it body acc s = each_id body (tail ids) acc s.
Proof using Hprompt H0.
  intros [Hdb Ho] [Hi Hsn _ Httl]. destruct (ri_snap _ Hi) as [ver Es].
  destruct (iterate_visit quant_decode (rc_ttl_sec (rt_conf r)) (t_now_sec (times (S n))) _ chunks _ (Hsn _ Es)) as (it & l & En & Eit & Ed & Hnd & Hin).
  destruct (on_db_ok (db_GetSnapshot quant_decode Hash beyond_radius metric ip times steady) a r g (S n) (inr (rt_snapshot r)) Ho
    (if_open_answers _ _ _ _ _ _ _ Hdb (snapshot_answers quant_decode Hash beyond_radius metric ip times steady Hprompt r g n))) as (a1 & E1 & [Hdb1 Ho1] & Hf1).
  destruct (on_db_ok (db_NewIterator quant_decode Hash beyond_radius metric ip times steady (rt_snapshot r)) a1 r g (S (S n)) (inr (Some it)) Ho1) as (a2 & E2 & Hr2 & Hf2).
  { rewrite Es. eapply if_open_answers; [exact Hdb1|]. by apply iterator_answers. }
  exists it, l.*1, a2. split; [unfold am_scan; by rewrite (ubind_ok _ _ _ _ _ E1), (ubind_ok _ _ _ _ _ E2)|].
  split; [done|]. split; [congruence|]. split; [done|]. split.
  - intros id. rewrite list_elem_of_fmap. split.
    + intros ([i v] & -> & Hm). apply Hin in Hm as (meta & Ha & _). by exists (MkSnap ver (rt_frozen_mem r) (rt_segments r) None), v, meta.
    + intros (snap & v & meta & Esn & Ha). exists (id, v). split; [done|]. apply Hin. exists meta.
      rewrite Es in Esn. injection Esn as <-. split; [done|]. unfold IsExpired. by rewrite Httl.
  - intros A body acc s. unfold for_ids. rewrite Eit. by apply while_next_drain.
Qed.

(** *** Reading the entries again *)

(** What a scan gets for an identifier. *)
Definition found r (id : Z) : option (vec * Metadata * AgentMemoryRecord) :=
  match rt_find quant_decode r id with
  | Some (LFound v meta) => rec ← DecodeMetadata (md_tenant meta); Some (v, meta, rec)
  | _ => None
  end.

Abbreviation fetch := (am_fetch quant_decode Hash beyond_radius metric ip times steady).

Lemma fetch_ok a r g n id l :
  am_ready a r g n -> rt_inv r -> rc_ttl_sec (rt_conf r) = 0 -> rt_find quant_decode r id = Some l ->
  exists a', fetch id a = Some (inr (found r id), a') /\ am_ready a' r g (S n) /\ am_fixed a' = am_fixed a.
Proof using Hprompt H0.
  intros [Hdb Ho] Hi Ht Hl.
  assert (rt_Get quant_decode (t_now_sec (times n)) id r = Some (report 0 (t_now_sec (times n)) l)) as Hg.
  { rewrite rt_Get_report by done. by rewrite Hl, Ht. }
  destruct (on_db_ok (db_Get quant_decode Hash beyond_radius metric ip times steady id [] md_default) a r g (S n) (report 0 (t_now_sec (times n)) l) Ho)
    as (a' & E & Hr & Hf).
  { eapply if_open_answers; [exact Hdb|]. by apply get_answers. }
  exists a'. split; [|done]. unfold am_fetch, am_Get. rewrite (ubind_try _ _ _ _ _ E). unfold found. rewrite Hl. by destruct l as [v meta| |].
Qed.

Lemma find_total chunks r id : scannable chunks r -> id_ok id -> exists l, rt_find quant_decode r id = Some l.
Proof using H0.
  intros [Hi Hsn _ _] Hid. destruct (ri_snap _ Hi) as [ver Es]. pose proof (so_segs _ _ _ (Hsn _ Es)) as Hs. cbn in Hs.
  pose proof (so_chunks _ _ _ (Hsn _ Es)) as Hc.
  rewrite rt_find_layers by done. unfold layered. destruct (mems_answer _ _ id); [by eexists|by eexists|].
  pose proof (segs_answer_chunks quant_decode (fun p => p) (rc_dim (rt_conf r)) chunks [] id Hc) as E. rewrite app_nil_r, <-Hs in E.
  rewrite E. destruct (entries_answer _ id); by eexists.
Qed.

Lemma fetch_each {A} (f : Z -> option (vec * Metadata * AgentMemoryRecord) -> A -> A) chunks r g ids : forall acc a n,
  am_ready a r g n -> scannable chunks r -> Forall id_ok ids ->
  exists a', each_id (fun id acc => x ← fetch id; mret (f id x acc)) ids acc a =
      Some (inr (fold_left (fun acc id => f id (found r id) acc) ids acc), a') /\
    am_ready a' r g (n + length ids) /\ am_fixed a' = am_fixed a.
Proof using Hprompt H0.
  induction ids as [|id ids IH]; intros acc a n Hr Hs Hids.
  { exists a. by rewrite Nat.add_0_r. }
  apply Forall_cons in Hids as [Hid Hids]. destruct (find_total _ _ _ Hs Hid) as [l Hl].
  destruct (fetch_ok a r g n id l Hr (sb_inv _ _ Hs) (sb_ttl _ _ Hs) Hl) as (a1 & E1 & Hr1 & Hf1).
  destruct (IH (f id (found r id) acc) a1 (S n) Hr1 Hs Hids) as (a' & E & Hr' & Hf'). exists a'.
  split; [|split; [cbn [length]; by rewrite Nat.add_succ_r|congruence]]. cbn [each_id fold_left].
  assert ((x ← fetch id; mret (f id x acc)) a = Some (inr (f id (found r id) acc), a1)) as E2 by by rewrite (ubind_ok _ _ _ _ _ E1).
  by rewrite (ubind_ok _ _ _ _ _ E2).
Qed.

Lemma collect_omap {A B} (h : A -> option B) (ids : list A) : forall acc,
  fold_left (fun acc id => match h id with Some y => acc ++ [y] | None => acc end) ids acc = acc ++ omap h ids.
Proof.
  induction ids as [|id ids IH]; intros acc; cbn [fold_left omap list_omap]; [by rewrite app_nil_r|].
  destruct (h id) as [y|] eqn:E; rewrite IH; [by rewrite <-app_assoc|done].
Qed.

Lemma each_id_ext {A} (body body' : Z -> A -> U (AgentMemory (T := T)) A) ids : forall acc a,
  (forall id acc a, body id acc a = body' id acc a) -> each_id body ids acc a = each_id body' ids acc a.
Proof.
  induction ids as [|id ids IH]; intros acc a Hb; [done|]. cbn [each_id]. unfold mbind, U_bind. rewrite Hb.
  destruct (body' id acc a) as [[[|acc'] a']|]; [done| |done]. by apply IH.
Qed.

(** A scan that collects what [h] makes of the entries. *)
Lemma scan_collects {B} (h : Z -> option (vec * Metadata * AgentMemoryRecord) -> option B) chunks a r g n :
  am_ready a r g n -> scannable chunks r ->
  exists ids it a1 a', NoDup ids /\ (forall id, id ∈ ids <-> published chunks r id) /\
    am_scan quant_decode Hash beyond_radius metric ip times steady a = Some (inr it, a1) /\
    (forall body : Z -> list B -> U AgentMemory (list B),
      (forall id acc a, body id acc a = (x ← fetch id; mret (match h id x with Some y => acc ++ [y] | None => acc end)) a) ->
      for_ids quant_decode it body [] a1 = Some (inr (omap (fun id => h id (found r id)) (tail ids)), a')) /\
    am_ready a' r g (S (S n) + length (tail ids)) /\ am_fixed a' = am_fixed a.
Proof using Hprompt H0.
  intros Hr Hs. destruct (am_scan_ok chunks a r g n Hr Hs) as (it & ids & a1 & E1 & Hr1 & Hf1 & Hnd & Hin & Hfor).
  assert (Forall id_ok (tail ids)) as Hids.
  { apply Forall_tail, Forall_forall. intros id Hi. apply (sb_ids _ _ Hs). by apply Hin. }
  destruct (fetch_each (fun id x acc => match h id x with Some y => acc ++ [y] | None => acc end) chunks r g (tail ids) [] a1 _ Hr1 Hs Hids)
    as (a' & E & Hr' & Hf'). rewrite collect_omap in E.
  exists ids, it, a1, a'. split; [done|]. split; [done|]. split; [done|]. split; [|split; [done|congruence]].
  intros body Hb. rewrite Hfor. rewrite (each_id_ext _ _ _ _ _ Hb). exact E.
Qed.

(** *** Sorted suffixes *)

Lemma recent_lt_order : weak_order (fun _ => True) recent_lt.
Proof.
  split.
  - intros x y _ _. unfold recent_lt. destruct (Z.eqb_spec (am_logical_ts x) (am_logical_ts y)) as [->|]; cbn [negb].
    + rewrite Z.eqb_refl. cbn [negb]. intros E. rewrite bytes_ltb_spec. destruct (bytes_le_total (am_text x) (am_text y)) as [|Hle]; [done|].
      apply bytes_ltb_spec in Hle. congruence.
    + intros ?%Z.ltb_lt. rewrite (proj2 (Z.eqb_neq _ _)) by lia. cbn. lia.
  - intros x y z _ _ _. unfold recent_lt.
    destruct (Z.eqb_spec (am_logical_ts y) (am_logical_ts x)), (Z.eqb_spec (am_logical_ts z) (am_logical_ts y)), (Z.eqb_spec (am_logical_ts z) (am_logical_ts x));
      cbn [negb]; rewrite ?bytes_ltb_spec, ?Z.ltb_ge; try lia. intros. by etrans.
Qed.

Lemma prune_lt_order : weak_order (fun _ => True) prune_lt.
Proof.
  split.
  - intros x y _ _. unfold prune_lt.
    destruct (Z.eqb_spec (pe_logical_ts x) (pe_logical_ts y)), (Z.eqb_spec (pe_logical_ts y) (pe_logical_ts x)); cbn [negb]; lia.
  - intros x y z _ _ _. unfold prune_lt.
    destruct (Z.eqb_spec (pe_logical_ts y) (pe_logical_ts x)), (Z.eqb_spec (pe_logical_ts z) (pe_logical_ts y)), (Z.eqb_spec (pe_logical_ts z) (pe_logical_ts x));
      cbn [negb]; lia.
Qed.

(** The last [n] of a list in the order of [lt], and the others. *)
Definition split_newest {A} (lt : A -> A -> bool) (n : Z) (l older newest : list A) : Prop :=
  older ++ newest ≡ₚ l /\ StronglySorted (fun x y => lt y x = false) (older ++ newest) /\ zlen newest = Z.min n (zlen l).

Lemma std_sort_split {A} (lt : A -> A -> bool) n l :
  weak_order (fun _ => True) lt -> 0 <= n ->
  let k := (length (std_sort lt l) - Z.to_nat (Z.min n (zlen (std_sort lt l))))%nat in
  split_newest lt n l (take k (std_sort lt l)) (drop k (std_sort lt l)).
Proof.
  intros Hlt Hn k. unfold split_newest. rewrite take_drop. split; [apply std_sort_perm|]. split.
  - apply (std_sort_sorted lt (fun _ => True)); [done|by apply Forall_true].
  - assert (length (std_sort lt l) = length l) as El by by rewrite std_sort_perm. unfold zlen in *. rewrite length_drop. unfold k. lia.
Qed.

(** ** Recent records *)

Definition recent_of (agent_id session_id : bytes) (x : option (vec * Metadata * AgentMemoryRecord)) : option AgentMemoryRecord :=
  match x with
  | Some (_, _, rec) =>
      if bool_decide (am_agent_id rec = agent_id) && (bool_decide (session_id = []) || bool_decide (am_session_id rec = session_id))
      then Some rec else None
  | None => None
  end.

(** [GetRecent] scans the published snapshot without its first identifier,
    reads each of the others again, and returns the newest [limit] of the records
    of the agent and session by timestamp and text, oldest first. *)
Theorem get_recent_exact chunks a r g n agent_id session_id limit :
  am_ready a r g n -> scannable chunks r -> 0 <= limit ->
  exists ids older out a', NoDup ids /\ (forall id, id ∈ ids <-> published chunks r id) /\
    split_newest recent_lt limit (omap (fun id => recent_of agent_id session_id (found r id)) (tail ids)) older out /\
    GetRecent quant_decode Hash beyond_radius metric ip times steady agent_id session_id limit a = Some (inr out, a') /\
    am_ready a' r g (S (S n) + length (tail ids)) /\ am_fixed a' = am_fixed a.
Proof using Hprompt H0.
  intros Hr Hs Hl.
  destruct (scan_collects (fun _ => recent_of agent_id session_id) chunks a r g n Hr Hs) as (ids & it & a1 & a' & Hnd & Hin & E1 & E & Hr' & Hf).
  pose proof (std_sort_split recent_lt limit (omap (fun id => recent_of agent_id session_id (found r id)) (tail ids)) recent_lt_order Hl) as Hsp.
  eexists ids, _, _, a'. split; [done|]. split; [done|]. split; [exact Hsp|]. split; [|done].
  unfold GetRecent. rewrite (ubind_ok _ _ _ _ _ (ensure_open _ _ _ _ Hr)), (ubind_ok _ _ _ _ _ E1). erewrite ubind_ok; [done|]. apply E.
  intros id acc s. unfold mbind, U_bind. destruct (fetch id s) as [[[|x] s']|]; [done| |done].
  destruct x as [[[v meta] rec]|]; [|done]. unfold recent_of. by destruct (_ && _).
Qed.

(** ** Pruning *)

Lemma rt_Delete_bytes id r : mt_BytesUsed (rt_mem (rt_Delete id r).2) = mt_BytesUsed (rt_mem r).
Proof.
  destruct (rt_Delete id r) as [res r'] eqn:E. cbn [snd]. unfold rt_Delete in E. rewrite (mbind_ok _ _ _ r r) in E by done.
  apply mguard_cases in E as [[-> ->]|[_ E]]; [done|]. unfold mbind, M_bind in E.
  destruct (HandleDel id r) as [x r1] eqn:Eh.
  assert (mt_BytesUsed (rt_mem r1) = mt_BytesUsed (rt_mem r)) as Hb.
  { unfold HandleDel in Eh. apply logged_cases in Eh as [(? & _ & Hs)|(r0 & Hs & Eh)]; [by rewrite (sd_mem _ _ Hs)|].
    unfold on_mem in Eh. rewrite (sd_mem _ _ Hs) in Eh. by injection Eh as <- <-. }
  by destruct x; injection E as <- <-.
Qed.

Abbreviation del := (am_Delete quant_decode Hash beyond_radius metric ip times steady).

Lemma delete_ok a r g n id :
  am_ready a r g n -> mt_BytesUsed (rt_mem r) <= db_pressure_threshold_bytes (am_db a) ->
  exists a', del id a = Some ((rt_Delete id r).1, a') /\ am_ready a' (rt_Delete id r).2 g (S n) /\ am_fixed a' = am_fixed a.
Proof using Hprompt.
  intros [Hdb Ho] Hc. apply on_db_ok; [done|].
  pose proof (db_step quant_decode Hash beyond_radius metric ip times steady Hprompt (DbDelete id) (am_db a) r g n Hdb Hc) as Hstep.
  cbn [pod_op store_op run_op run_db_op] in Hstep. rewrite rt_Delete_bytes in Hstep. exact (Hstep Hc).
Qed.

Definition victims (cutoff : nat) (min_ts : Z) (sorted : list PruneEntry) : list PruneEntry :=
  filter (fun e => pe_logical_ts e < min_ts) (take cutoff sorted).

(** A started shard whose log is open, without pending faults, and has room for
    [k] more records. *)
Definition log_ready (k : nat) r : Prop :=
  rt_started r = true /\ aes_available (w_conf (rt_wal r)) /\
  exists ns ng segs es, wal_inv ns ng (rt_wal r) segs es /\ Z.of_nat k <= ns /\ Z.of_nat k <= ng.

Lemma log_ready_delete k r id :
  log_ready (S k) r -> is_u64 id -> exists r', rt_Delete id r = (inr tt, r') /\ log_ready k r'.
Proof using Hlaws.
  intros (Hst & Hav & ns & ng & segs & es & Hinv & Hns & Hng) Hu.
  assert (rec_ok (RDel id)) as Hok by (split; [|done]; vm_compute; reflexivity).
  destruct (append_rec_spec ns ng (rt_wal r) segs es (RDel id) Hinv ltac:(lia) ltac:(lia) Hok Hav)
    as (w' & segs' & es' & _ & E & Hinv' & _ & _ & Hc & _). cbn [WalLog.run_op] in E.
  eexists. split.
  - unfold rt_Delete, HandleDel. rewrite (mbind_ok mget _ _ _ _ eq_refl), mguard_ok by done.
    unfold mbind at 1, M_bind at 1. rewrite (mbind_ok (on_wal _) _ r tt (with_wal w' r)) by (unfold on_wal; by rewrite E).
    by rewrite (mbind_ok (mmodify note_wal) _ _ tt (note_wal (with_wal w' r)) eq_refl).
  - split; [done|]. split; [cbn; by rewrite Hc|]. exists (ns - 1), (ng - 1), segs', es'. split; [exact Hinv'|]. lia.
Qed.

Lemma log_ready_le j k r : (j <= k)%nat -> log_ready k r -> log_ready j r.
Proof using. intros Hj (? & ? & ns & ng & segs & es & ? & ? & ?). split; [done|]. split; [done|]. exists ns, ng, segs, es. split; [done|]. lia. Qed.

Lemma prune_loop_deletes cutoff min_ts g es : forall i a r n,
  am_ready a r g n -> rt_inv r -> writes_through r -> mt_BytesUsed (rt_mem r) <= db_pressure_threshold_bytes (am_db a) ->
  Forall (fun e => id_ok (pe_id e)) es ->
  exists results a' r', prune_loop quant_decode Hash beyond_radius metric ip times steady i cutoff min_ts es a = Some (inr tt, a') /\
    am_ready a' r' g (n + length (victims (cutoff - i) min_ts es)) /\ am_fixed a' = am_fixed a /\
    spec_run ((fun e => OpDelete (pe_id e)) <$> victims (cutoff - i) min_ts es) results (rt_find quant_decode r) (rt_find quant_decode r') /\
    (log_ready (length es) r -> Forall (fun e => is_u64 (pe_id e)) es -> Forall (eq (inr tt)) results).
Proof using Hprompt H0 Hlaws.
  induction es as [|e es IH]; intros i a r n Hr Hi Hw Hc Hids.
  { exists [], a, r. unfold victims. rewrite take_nil, Nat.add_0_r. split; [done|]. split; [done|]. split; [done|]. by repeat constructor. }
  apply Forall_cons in Hids as [Hid Hids]. cbn [prune_loop].
  destruct ((min_ts <=? pe_logical_ts e) || (cutoff <=? i)%nat) eqn:Hk.
  - assert (victims (cutoff - i) min_ts (e :: es) = victims (cutoff - S i) min_ts es) as ->.
    { unfold victims. destruct (Nat.leb_spec cutoff i).
      - rewrite !(proj2 (Nat.sub_0_le _ _)) by lia. by rewrite !take_0.
      - rewrite orb_false_r in Hk. apply Z.leb_le in Hk. replace (cutoff - i)%nat with (S (cutoff - S i)) by lia.
        cbn [take]. by rewrite filter_cons_False by lia. }
    destruct (IH (S i) a r n Hr Hi Hw Hc Hids) as (results & a' & r' & E & Hr' & Hf' & Hrun & Hall).
    exists results, a', r'. split_and!; try done. intros Hlog [_ Hu]%Forall_cons. apply Hall; [|done].
    eapply log_ready_le, Hlog. cbn. lia.
  - apply orb_false_iff in Hk as [Hts%Z.leb_gt Hcut%Nat.leb_gt]. destruct (delete_ok a r g n (pe_id e) Hr Hc) as (a1 & E1 & Hr1 & Hf1).
    destruct (rt_Delete (pe_id e) r) as [res r1] eqn:Ed. cbn [fst snd] in *.
    destruct (delete_sim quant_decode (pe_id e) r res r1 Hi Hw Hid Ed) as [Hi1 Hw1 _ Hspec].
    assert (mt_BytesUsed (rt_mem r1) <= db_pressure_threshold_bytes (am_db a1)) as Hc1.
    { pose proof (rt_Delete_bytes (pe_id e) r) as Eb. rewrite Ed in Eb. cbn in Eb. unfold am_fixed in Hf1. simplify_eq. lia. }
    destruct (IH (S i) a1 r1 (S n) Hr1 Hi1 Hw1 Hc1 Hids) as (results & a' & r' & E & Hr' & Hf' & Hrun & Hall).
    assert (victims (cutoff - i) min_ts (e :: es) = e :: victims (cutoff - S i) min_ts es) as ->.
    { unfold victims. replace (cutoff - i)%nat with (S (cutoff - S i)) by lia. cbn [take]. by rewrite filter_cons_True. }
    exists (res :: results), a', r'. split; [|split; [cbn [length]; by rewrite Nat.add_succ_r|split; [congruence|split; [by econstructor|]]]].
    2:{ intros Hlog [Hu Hus]%Forall_cons. destruct (log_ready_delete _ _ _ Hlog Hu) as (r2 & E2 & Hlog2).
        rewrite E2 in Ed. injection Ed as <- <-. constructor; [done|by apply Hall]. }
    assert ((utry (del (pe_id e)) ;; mret tt) a = Some (inr tt, a1)) as E2 by by rewrite (ubind_try _ _ _ _ _ E1).
    by rewrite (ubind_ok _ _ _ _ _ E2).
Qed.

Definition entry_of (id : Z) (x : option (vec * Metadata * AgentMemoryRecord)) : option PruneEntry :=
  '(v, meta, rec) ← x;
  Some (MkPrune id (am_agent_id rec) (am_session_id rec) (am_kind rec) (am_logical_ts rec) (u64 (4 * zlen v + zlen (md_tenant meta)))).

Lemma collect_ok chunks a r g n :
  am_ready a r g n -> scannable chunks r ->
  exists ids a', NoDup ids /\ (forall id, id ∈ ids <-> published chunks r id) /\
    CollectPruneEntries quant_decode Hash beyond_radius metric ip times steady a = Some (inr (omap (fun id => entry_of id (found r id)) (tail ids)), a') /\
    am_ready a' r g (S (S n) + length (tail ids)) /\ am_fixed a' = am_fixed a.
Proof using Hprompt H0.
  intros Hr Hs. destruct (scan_collects entry_of chunks a r g n Hr Hs) as (ids & it & a1 & a' & Hnd & Hin & E1 & E & Hr' & Hf).
  exists ids, a'. split; [done|]. split; [done|]. split; [|done].
  unfold CollectPruneEntries. rewrite (ubind_ok _ _ _ _ _ (ensure_open _ _ _ _ Hr)), (ubind_ok _ _ _ _ _ E1). apply E.
  intros id acc s. unfold mbind, U_bind. destruct (fetch id s) as [[[|x] s']|]; [done| |done]. by destruct x as [[[v meta] rec]|].
Qed.

(** The entries of an agent. *)
Definition agent_entries (agent_id : bytes) r (ids : list Z) : list PruneEntry :=
  filter (fun e => pe_agent_id e = agent_id) (omap (fun id => entry_of id (found r id)) ids).

Lemma entry_elem agent_id r ids e :
  e ∈ agent_entries agent_id r ids -> pe_id e ∈ ids /\ is_i64 (pe_logical_ts e).
Proof.
  unfold agent_entries. rewrite list_elem_of_filter, list_elem_of_omap. intros [_ (id & Hid & E)].
  destruct (found r id) as [[[v meta] rec]|] eqn:Ef; [|done]. injection E as <-. split; [done|]. cbn [pe_logical_ts].
  unfold found in Ef. destruct (rt_find quant_decode r id) as [[v' meta'| |]|]; try done.
  destruct (DecodeMetadata (md_tenant meta')) as [rec'|] eqn:Ed; [|done]. injection Ef as _ _ <-. by eapply decode_ts_range.
Qed.

Lemma published_entry chunks r ids agent_id e :
  scannable chunks r -> (forall id, id ∈ ids <-> published chunks r id) -> e ∈ agent_entries agent_id r (tail ids) -> id_ok (pe_id e).
Proof.
  intros Hs Hin [He _]%entry_elem. apply (sb_ids _ _ Hs), Hin. destruct ids; [by apply not_elem_of_nil in He|by apply list_elem_of_further].
Qed.

Lemma length_tail_le (ids : list Z) : (length (tail ids) <= length ids)%nat.
Proof using. destruct ids; cbn; lia. Qed.

Lemma agent_entries_length agent_id r ids : (length (agent_entries agent_id r (tail ids)) <= length ids)%nat.
Proof using.
  unfold agent_entries. etrans; [apply length_filter|]. etrans; [|apply (length_tail_le ids)].
  induction (tail ids) as [|id l IH]; cbn; [lia|]. destruct (entry_of id _); cbn; lia.
Qed.

(** The deletions of [PruneOld]: of the records of the agent that its scan sees,
    which leaves out the first identifier, those older than [min_ts_to_keep]
    that are not among the newest [keep_last_n]. *)
Lemma prune_old_deletes chunks a r g n agent_id keep_last_n min_ts :
  am_ready a r g n -> scannable chunks r -> writes_through r -> 0 <= keep_last_n ->
  mt_BytesUsed (rt_mem r) <= db_pressure_threshold_bytes (am_db a) ->
  exists ids older newest results a' r', NoDup ids /\ (forall id, id ∈ ids <-> published chunks r id) /\
    split_newest prune_lt keep_last_n (agent_entries agent_id r (tail ids)) older newest /\
    PruneOld quant_decode Hash beyond_radius metric ip times steady agent_id keep_last_n min_ts a = Some (inr tt, a') /\
    spec_run ((fun e => OpDelete (pe_id e)) <$> filter (fun e => pe_logical_ts e < min_ts) older) results
      (rt_find quant_decode r) (rt_find quant_decode r') /\
    am_ready a' r' g (S (S n) + length (tail ids) + length results) /\ am_fixed a' = am_fixed a /\
    (log_ready (length ids) r -> Forall is_u64 ids -> Forall (eq (inr tt)) results).
Proof using Hprompt H0 Hlaws.
  intros Hr Hs Hw Hk Hc. destruct (collect_ok chunks a r g n Hr Hs) as (ids & a1 & Hnd & Hin & E1 & Hr1 & Hf1).
  set (sorted := std_sort prune_lt (agent_entries agent_id r (tail ids))).
  set (cutoff := (length sorted - Z.to_nat (Z.min keep_last_n (zlen sorted)))%nat).
  assert (Forall (fun e => id_ok (pe_id e)) sorted) as Hids.
  { apply Forall_forall. intros e He. unfold sorted in He. rewrite std_sort_perm in He. by eapply published_entry. }
  assert (mt_BytesUsed (rt_mem r) <= db_pressure_threshold_bytes (am_db a1)) as Hc1 by (unfold am_fixed in Hf1; simplify_eq; lia).
  destruct (prune_loop_deletes cutoff min_ts g sorted 0 a1 r _ Hr1 (sb_inv _ _ Hs) Hw Hc1 Hids) as (results & a' & r' & E & Hr' & Hf' & Hrun & Hall).
  rewrite Nat.sub_0_r in *. exists ids, (take cutoff sorted), (drop cutoff sorted), results, a', r'.
  split; [done|]. split; [done|]. split; [by apply (std_sort_split prune_lt _ _ prune_lt_order)|].
  split; [unfold PruneOld; by rewrite (ubind_ok _ _ _ _ _ E1)|]. split; [done|]. split; [|split; [congruence|]].
  2:{ intros Hlog Hu. apply Hall.
      - eapply log_ready_le, Hlog. unfold sorted. rewrite std_sort_perm. apply agent_entries_length.
      - apply Forall_forall. intros e He. unfold sorted in He. rewrite std_sort_perm in He. apply entry_elem in He as [He _].
        rewrite Forall_forall in Hu. apply Hu. destruct ids; [by apply not_elem_of_nil in He|by apply list_elem_of_further]. }
  assert (length results = length (victims cutoff min_ts sorted)) as ->; [|done].
  rewrite <-(length_fmap (fun e => OpDelete (pe_id e))). clear -Hrun. by induction Hrun; cbn; f_equal.
Qed.

Lemma deletes_effect {A} (f : A -> Z) l results st st' id :
  spec_run ((fun x => OpDelete (f x)) <$> l) results st st' -> id_ok id ->
  st' id = st id \/ (st' id = Some LTombstone /\ exists x, x ∈ l /\ f x = id).
Proof.
  revert results st. induction l as [|x l IH]; intros results st Hr Hid; inversion Hr as [? ? Hs|? ? res rest ? s1 ? Hstep Hrest]; subst.
  { left. by apply Hs. }
  assert (s1 id = st id \/ (s1 id = Some LTombstone /\ f x = id)) as Hx.
  { destruct res; cbn in Hstep; rewrite (Hstep id Hid); [by left|]. case_decide; [right|left]; done. }
  destruct (IH rest s1 Hrest Hid) as [->|(-> & y & Hy & Ey)].
  - destruct Hx as [->|[-> Ex]]; [by left|]. right. split; [done|]. exists x. split; [by left|done].
  - right. split; [done|]. exists y. split; [by right|done].
Qed.

Lemma agent_entries_nodup agent_id r ids : NoDup ids -> NoDup (pe_id <$> agent_entries agent_id r ids).
Proof.
  intros Hnd. unfold agent_entries. eapply sublist_NoDup; [|apply fmap_sublist, sublist_filter].
  induction Hnd as [|id ids Hid _ IH]; [constructor|]. cbn [omap list_omap].
  destruct (entry_of id (found r id)) as [e|] eqn:Ee; [|done]. cbn [fmap list_fmap]. constructor; [|done].
  intros (e' & Ee' & (id' & Hid' & E')%list_elem_of_omap)%list_elem_of_fmap.
  assert (forall i x, entry_of i (found r i) = Some x -> pe_id x = i) as Hpe.
  { intros i x. unfold entry_of. destruct (found r i) as [[[v meta] rec]|]; [|done]. by intros [= <-]. }
  apply Hpe in Ee, E'. congruence.
Qed.

Lemma agent_entries_tail agent_id r ids : agent_entries agent_id r (tail ids) `sublist_of` agent_entries agent_id r ids.
Proof.
  destruct ids as [|id ids]; [done|]. unfold agent_entries. cbn [tail omap list_omap].
  destruct (entry_of id (found r id)) as [e|]; [|done]. rewrite filter_cons. case_decide; [by constructor|done].
Qed.

Lemma agent_entries_head agent_id r ids e :
  e ∈ agent_entries agent_id r ids -> e ∈ agent_entries agent_id r (tail ids) \/ Some (pe_id e) = head ids.
Proof.
  intros He. destruct ids as [|id ids]; [by left|]. unfold agent_entries in *. cbn [tail omap list_omap] in *.
  destruct (entry_of id (found r id)) as [x|] eqn:Ex; [|by left]. rewrite filter_cons in He. case_decide; [|by left].
  apply elem_of_cons in He as [->|He]; [right|by left]. unfold entry_of in Ex. cbn.
  destruct (found r id) as [[[v meta] rec]|]; [|done]. by injection Ex as <-.
Qed.

(** Without failures every deleted record is a tombstone. *)
Lemma deletes_complete {A} (f : A -> Z) l results st st' x :
  spec_run ((fun x => OpDelete (f x)) <$> l) results st st' -> Forall (eq (inr tt)) results ->
  x ∈ l -> id_ok (f x) -> st' (f x) = Some LTombstone.
Proof.
  intros Hr Hok Hx Hid. revert results st Hr Hok. induction l as [|y l IH]; intros results st Hr Hok; [by apply not_elem_of_nil in Hx|].
  inversion Hr as [|? ? res rest ? s1 ? Hstep Hrest]; subst. apply Forall_cons in Hok as [<- Hok]. cbn in Hstep.
  apply elem_of_cons in Hx as [->|Hx]; [|by eapply IH].
  destruct (deletes_effect f _ _ _ _ (f y) Hrest Hid) as [->|[-> _]]; [|done]. rewrite (Hstep _ Hid). by rewrite decide_True.
Qed.

Lemma published_u64 chunks r snap id :
  scannable chunks r -> rt_snapshot r = Some snap -> published chunks r id -> is_u64 id /\ id ∈ se_id <$> visit_order chunks snap.
Proof.
  intros Hs Hsn (snap' & v & meta & Hsn' & Ha). rewrite Hsn in Hsn'. injection Hsn' as <-.
  destruct (decide (id ∈ se_id <$> visit_order chunks snap)) as [Hin|Hin]; [|by rewrite entries_answer_none in Ha].
  split; [|done]. apply list_elem_of_fmap in Hin as (e & -> & He).
  pose proof (visit_order_ok _ _ _ (sb_snap _ _ Hs _ Hsn)) as Hok. rewrite Forall_forall in Hok. apply (Hok e He).
Qed.

Lemma prune_keeps chunks agent_id keep_last_n min_ts r r' ids older newest results id :
  scannable chunks r -> (forall id, id ∈ ids <-> published chunks r id) -> 0 <= keep_last_n ->
  split_newest prune_lt keep_last_n (agent_entries agent_id r (tail ids)) older newest -> NoDup (pe_id <$> older ++ newest) ->
  spec_run ((fun e => OpDelete (pe_id e)) <$> filter (fun e => pe_logical_ts e < min_ts) older) results
    (rt_find quant_decode r) (rt_find quant_decode r') -> id_ok id ->
  rt_find quant_decode r' id = rt_find quant_decode r id \/
    (rt_find quant_decode r' id = Some LTombstone /\
     exists e newest, e ∈ agent_entries agent_id r ids /\ pe_id e = id /\ pe_logical_ts e < min_ts /\
       NoDup (pe_id <$> newest) /\ zlen newest = keep_last_n /\
       forall e', e' ∈ newest -> e' ∈ agent_entries agent_id r ids /\ prune_lt e' e = false /\
         rt_find quant_decode r' (pe_id e') = rt_find quant_decode r (pe_id e')).
Proof.
  intros Hs Hin Hk (Hperm & Hsort & Hlen) Hnd' Hrun Hid.
  assert (forall e, e ∈ older ++ newest -> e ∈ agent_entries agent_id r ids) as Hsub.
  { intros e. rewrite Hperm. intros He. eapply elem_of_sublist; [exact He|apply agent_entries_tail]. }
  destruct (deletes_effect pe_id _ _ _ _ id Hrun Hid) as [->|(-> & e & [Hts He]%list_elem_of_filter & Ee)]; [by left|].
  right. split; [done|]. exists e, newest. split; [apply Hsub, elem_of_app; by left|]. split; [done|]. split; [done|].
  rewrite fmap_app, NoDup_app in Hnd'. destruct Hnd' as (_ & Hdis & Hn). split; [done|]. split.
  { apply Permutation_length in Hperm. rewrite length_app in Hperm. destruct older; [by apply not_elem_of_nil in He|]. cbn in Hperm. unfold zlen in *. lia. }
  intros e' He'. assert (e' ∈ older ++ newest) as Hin' by (apply elem_of_app; by right). split; [by apply Hsub|]. split.
  { apply StronglySorted_app in Hsort as (Hcross & _ & _). by apply Hcross. }
  destruct (deletes_effect pe_id _ _ _ _ (pe_id e') Hrun) as [->|(_ & x & [_ Hx]%list_elem_of_filter & Ex)]; [|done|].
  - eapply published_entry; [done|exact Hin|]. by rewrite <-Hperm.
  - exfalso. apply (Hdis (pe_id x)); [by apply list_elem_of_fmap_2|]. rewrite Ex. by apply list_elem_of_fmap_2.
Qed.

Lemma prune_leaves_few chunks agent_id keep_last_n min_ts r r' ids older newest results :
  scannable chunks r -> (forall id, id ∈ ids <-> published chunks r id) -> 0 <= keep_last_n ->
  split_newest prune_lt keep_last_n (agent_entries agent_id r (tail ids)) older newest ->
  spec_run ((fun e => OpDelete (pe_id e)) <$> filter (fun e => pe_logical_ts e < min_ts) older) results
    (rt_find quant_decode r) (rt_find quant_decode r') -> Forall (eq (inr tt)) results ->
  forall left, NoDup (pe_id <$> left) ->
    (forall e, e ∈ left -> e ∈ agent_entries agent_id r ids /\ pe_logical_ts e < min_ts /\
       rt_find quant_decode r' (pe_id e) <> Some LTombstone) ->
    zlen left <= keep_last_n + 1.
Proof.
  intros Hs Hin Hk (Hperm & Hsort & Hlen) Hrun Hok left Hnd Hleft.
  assert ((pe_id <$> left) ⊆+ option_list (head ids) ++ (pe_id <$> newest)) as Hsub%submseteq_length.
  { apply NoDup_submseteq; [done|]. intros id (e & -> & He)%list_elem_of_fmap. destruct (Hleft e He) as (Ha & Hts & Hf).
    apply elem_of_app. destruct (agent_entries_head _ _ _ _ Ha) as [Ht|<-]; [|left; by apply list_elem_of_singleton].
    right. apply list_elem_of_fmap_2. pose proof Ht as Ho. rewrite <-Hperm in Ho. apply elem_of_app in Ho as [Ho|Ho]; [|done].
    exfalso. apply Hf. eapply (deletes_complete pe_id); [exact Hrun|done|by apply list_elem_of_filter|].
    by eapply published_entry. }
  rewrite length_app, !length_fmap in Hsub. unfold zlen in *.
  assert (length (option_list (head ids)) <= 1)%nat by (destruct ids; cbn; lia). lia.
Qed.


(** Every timestamp is at least [INT64_MIN], so the caps on the number of
    messages delete nothing. *)
Theorem message_cap_keeps_everything chunks a r g n agent_id :
  am_ready a r g n -> scannable chunks r ->
  exists a' n', PruneOld quant_decode Hash beyond_radius metric ip times steady agent_id (ao_max_messages_per_agent (am_options a)) INT64_MIN a =
      Some (inr tt, a') /\ am_ready a' r g n'.
Proof using Hprompt H0.
  intros Hr Hs. destruct (collect_ok chunks a r g n Hr Hs) as (ids & a1 & Hnd & Hin & E1 & Hr1 & Hf1).
  exists a1. eexists. split; [|exact Hr1]. unfold PruneOld. rewrite (ubind_ok _ _ _ _ _ E1).
  fold (agent_entries agent_id r (tail ids)). set (sorted := std_sort prune_lt _).
  assert (Forall (fun e => INT64_MIN <= pe_logical_ts e) sorted) as Hts.
  { apply Forall_forall. intros e He. unfold sorted in He. rewrite std_sort_perm in He. by apply entry_elem in He as [_ [? _]]. }
  generalize 0%nat as i, (length sorted - Z.to_nat (Z.min (ao_max_messages_per_agent (am_options a)) (zlen sorted)))%nat as c.
  intros i c. revert i. induction Hts as [|e es He _ IH]; intros i; [done|]. cbn [prune_loop].
  rewrite (proj2 (Z.leb_le _ _)) by done. cbn [orb]. rewrite (ubind_ok (mret tt) _ _ tt a1 eq_refl). apply IH.
Qed.

(** ** Appending *)

Lemma kept_encoded lsn rec : md_tenant (kept (with_lsn lsn (md_of (EncodeMetadata rec)))) = EncodeMetadata rec.
Proof. done. Qed.

Definition stored_op (t : Times) (id : Z) (rec : AgentMemoryRecord) : M (VectorRuntime T) unit :=
  pod_op t (DbAdd id (am_embedding rec) (md_of (EncodeMetadata rec))).

Lemma append_steps a r g n rec :
  am_ready a r g n -> zlen (am_embedding rec) = am_dim a ->
  ao_max_messages_per_agent (am_options a) = 0 -> ao_max_device_bytes (am_options a) = 0 ->
  mt_BytesUsed (rt_mem r) <= db_pressure_threshold_bytes (am_db a) ->
  mt_BytesUsed (rt_mem (stored_op (times n) (am_next_id a) rec r).2) <= db_pressure_threshold_bytes (am_db a) ->
  exists a', AppendMessage quant_decode Hash beyond_radius metric ip times steady rec a =
      Some (match (stored_op (times n) (am_next_id a) rec r).1 with inr _ => inr (am_next_id a) | inl e => inl e end, a') /\
    am_ready a' (stored_op (times n) (am_next_id a) rec r).2 g (S n) /\ am_next_id a' = u64 (am_next_id a + 1).
Proof using Hprompt.
  intros Hr Hd Hm Hb Hc Hc'. set (id := am_next_id a) in *. unfold AppendMessage.
  rewrite (ubind_ok _ _ _ _ _ (ensure_open _ _ _ _ Hr)), ubind_get, ubind_guard by lia.
  destruct Hr as [Hdb Ho]. set (a0 := am_with_next_id (u64 (id + 1)) a).
  pose proof (db_step quant_decode Hash beyond_radius metric ip times steady Hprompt (DbAdd id (am_embedding rec) (md_of (EncodeMetadata rec))) (am_db a0) r g n Hdb Hc Hc') as Hstep.
  fold (stored_op (times n) id rec) in Hstep. destruct (stored_op (times n) id rec r) as [res r1]. cbn [fst snd run_db_op] in *.
  destruct (on_db_ok _ a0 r1 g (S n) res Ho Hstep) as (a1 & E1 & Hr1 & Hf1). unfold am_fixed in Hf1. simplify_eq.
  assert (am_add quant_decode Hash beyond_radius metric ip times steady rec a = Some (match res with inr _ => inr id | inl e => inl e end, a1)) as E2.
  { unfold am_add. rewrite ubind_get, (ubind_ok (umodify (am_with_next_id (u64 (am_next_id a + 1)))) _ a tt a0 eq_refl).
    destruct res as [e|[]]; [by rewrite (ubind_err _ _ _ _ _ E1)|by rewrite (ubind_ok _ _ _ _ _ E1)]. }
  destruct res as [e|[]]; [exists a1; by rewrite (ubind_err _ _ _ _ _ E2)|]. rewrite (ubind_ok _ _ _ _ _ E2).
  assert (on_db (TryFreezeIfPressured quant_decode Hash beyond_radius metric ip times steady) a1 = Some (inr tt, a1)) as E3.
  { unfold on_db, TryFreezeIfPressured. destruct Hr1 as [Hdb1 _]. rewrite ubind_get, ubind_guard by apply Hdb1.
    destruct Hdb1 as [(e & Ee & [Hi _ _ _] & _) Hop]. unfold db_GetMemTableBytesUsed, en_GetMemTableBytesUsed. rewrite Ee, Hop, Hi.
    rewrite (proj2 (Z.ltb_ge _ _)) by (cbn in *; lia). cbn. by destruct a1. }
  rewrite (ubind_try _ _ _ _ _ E3). exists a1. split; [|done]. unfold am_prune. unfold mbind, U_bind, uget.
  match goal with Ho : am_options a1 = _ |- _ => rewrite Ho end. cbn. by rewrite Hm, Hb.
Qed.

(** An append uses up the next id.  When it fails, lookups find what they
    found; when it succeeds, the record is readable at once under the id it
    reports, as its encoding decodes, and no other entry changes. *)
Theorem append_message_readable a r g n rec :
  am_ready a r g n -> rt_inv r -> writes_through r -> id_ok (am_next_id a) -> vec_ok (am_embedding rec) ->
  zlen (am_embedding rec) = am_dim a -> ao_max_messages_per_agent (am_options a) = 0 -> ao_max_device_bytes (am_options a) = 0 ->
  mt_BytesUsed (rt_mem r) <= db_pressure_threshold_bytes (am_db a) ->
  mt_BytesUsed (rt_mem (stored_op (times n) (am_next_id a) rec r).2) <= db_pressure_threshold_bytes (am_db a) ->
  exists res a' r', AppendMessage quant_decode Hash beyond_radius metric ip times steady rec a = Some (res, a') /\
    am_ready a' r' g (S n) /\ am_next_id a' = u64 (am_next_id a + 1) /\ rt_inv r' /\ writes_through r' /\
    match res with
    | inl _ => same_store (rt_find quant_decode r) (rt_find quant_decode r')
    | inr id => id = am_next_id a /\
        (exists meta, found r' id = rec' ← DecodeMetadata (EncodeMetadata rec); Some (am_embedding rec, meta, rec')) /\
        forall i, id_ok i -> i <> id -> rt_find quant_decode r' i = rt_find quant_decode r i
    end.
Proof using Hprompt H0.
  intros Hr Hi Hw Hid Hv Hd Hm Hb Hc Hc'.
  destruct (append_steps a r g n rec Hr Hd Hm Hb Hc Hc') as (a' & E & Hr' & Hn). clear Hc Hc'.
  destruct (stored_op (times n) (am_next_id a) rec r) as [res r'] eqn:Es. cbn [fst snd] in *.
  destruct (pod_op_sim quant_decode _ _ r res r' Hi Hw (conj Hid Hv : db_op_ok (DbAdd _ _ _)) Es) as [Hi' Hw' _ Hspec].
  eexists _, a', r'. split; [exact E|]. split; [done|]. split; [done|]. split; [done|]. split; [done|].
  destruct res as [e|[]]; [exact Hspec|]. destruct Hspec as [lsn Hspec]. split; [done|]. split.
  - exists (kept (with_lsn lsn (md_of (EncodeMetadata rec)))). unfold found. rewrite (Hspec _ Hid). rewrite decide_True by done.
    by rewrite kept_encoded.
  - intros i Hok Hne. rewrite (Hspec _ Hok). by rewrite decide_False.
Qed.
End scans.

(** ** A concrete sort *)

#[local] Existing Instance insertion_StdSort.

(** ** A concrete memory *)

#[local] Existing Instance test_f32.
#[local] Existing Instance test_idmap.
#[local] Existing Instance test_idmap_laws.
#[local] Existing Instance test_aes.
#[local] Existing Instance test_aes_laws.
#[local] Existing Instance test_sort.
#[local] Existing Instance test_sidecars.
#[local] Existing Instance test_kernels.

(** Three frozen records of one agent. *)
Definition message (ts : Z) (text : string) : AgentMemoryRecord := MkRecord (bstr "bot") (bstr "s|1") kMessage ts (bstr text) [].
Definition frozen_messages : MemTable (@FlatHashMemMap (option bytes)) :=
  fold_left (fun m '(id, rec) => (mt_Put id [1; 2] (md_of (EncodeMetadata rec)) m).2)
    [(1, message 10 "a"); (2, message 30 "b"); (3, message 20 "c")] (test_mem false).
Definition memory_shard := two_mems frozen_messages (test_mem false).
Definition memory_options : AgentMemoryOptions := MkAmOptions "db" 2 kL2 0 true 0 0.
Definition memory : AgentMemory (T := @FlatHashMemMap (option bytes)) :=
  MkAm memory_options
    (MkDb (Some (MkEngine (k_pods (Some memory_shard) (Some (test_wal, MkGraph ∅ 0)) k_new) [])) test_disk true (2 ^ 20) true []) 2 true 4.

Lemma mem_ok_put dim (m : MemTable (@FlatHashMemMap (option bytes))) id v meta :
  mem_ok dim m -> id_ok id -> vec_dim v = dim -> vec_ok v -> mem_ok dim (mt_Put id v meta m).2.
Proof. intros Hm Hid Hd Hv. destruct (mem_put dim m id v meta Hm Hid Hd Hv) as (m' & -> & Hok & _). exact Hok. Qed.

Lemma frozen_messages_ok : mem_ok 2 frozen_messages.
Proof. unfold frozen_messages. cbn [fold_left]. repeat apply mem_ok_put; try reflexivity; try done; try (apply (bool_decide_unpack _); vm_compute; exact I). apply mem_ok_new. Qed.

Lemma memory_shard_inv : rt_inv memory_shard /\ writes_through memory_shard.
Proof.
  split; [|split; vm_compute; congruence]. split; [apply (mem_ok_new 2)| |reflexivity|by eexists].
  apply Forall_singleton. exact frozen_messages_ok.
Qed.

Lemma memory_ready : am_ready memory memory_shard (test_wal, MkGraph ∅ 0) 0.
Proof.
  split; [|reflexivity]. split; [|reflexivity]. eexists. split; [reflexivity|]. split; [|by split].
  split; [done|done| |done]. exact (ring_rep_clear kQueueCapacity ltac:(done) (MkRing ∅ 0 0 0)).
Qed.

Lemma memory_scannable : scannable [] memory_shard.
Proof.
  split; [apply memory_shard_inv| | |reflexivity].
  - intros snap [= <-]. split; [reflexivity|apply Forall_singleton; exact frozen_messages_ok|reflexivity|constructor|].
    apply Forall_singleton.
    assert (mem_entries frozen_messages = (fun '(id, rec) => MkSegEntry id [1; 2] false (md_of (EncodeMetadata rec))) <$>
      [(1, message 10 "a"); (2, message 30 "b"); (3, message 20 "c")]) as -> by (vm_compute; reflexivity).
    repeat apply Forall_cons_2; try apply Forall_nil_2; (split; [by vm_compute| |done|split; by vm_compute]);
      intros _; (split; [reflexivity|]); apply (bool_decide_unpack _); vm_compute; exact I.
  - intros id (snap & v & meta & [= <-] & Ha) ->. vm_compute in Ha. congruence.
Qed.

Abbreviation Am := (AgentMemory (T := @FlatHashMemMap (option bytes))).
Definition test_recent (limit : Z) : U Am (list AgentMemoryRecord) :=
  GetRecent test_decode (fun x => x) (fun _ _ => false) kL2 test_params test_times still (bstr "bot") [] limit.
Definition test_prune (keep_last_n min_ts : Z) : U Am unit :=
  PruneOld test_decode (fun x => x) (fun _ _ => false) kL2 test_params test_times still (bstr "bot") keep_last_n min_ts.
Definition test_append (rec : AgentMemoryRecord) : U Am Z :=
  AppendMessage test_decode (fun x => x) (fun _ _ => false) kL2 test_params test_times still rec.

Lemma agent_record_decodes_witness :
  DecodeMetadata (EncodeMetadata (message (-7) "a|b")) = Some (message (-7) "a|b").
Proof. apply (agent_record_decodes (message (-7) "a|b")); [by vm_compute|apply (bool_decide_unpack _); vm_compute; exact I..]. Defined.

Lemma get_recent_exact_witness : exists a', test_recent 1 memory = Some (inr [message 30 "b"], a').
Proof.
  destruct (get_recent_exact test_decode (fun x => x) (fun _ _ => false) kL2 test_params test_times still ltac:(intros n; reflexivity)
    [] memory _ _ 0 (bstr "bot") [] 1 memory_ready memory_scannable ltac:(lia)) as (ids & older & out & a' & _ & _ & _ & E & _).
  exists a'. assert (out = [message 30 "b"]) as <-; [|exact E].
  apply (f_equal (fmap fst)) in E. vm_compute in E. vm_compute. by injection E as <-.
Defined.

Lemma memory_log_ready snap : rt_snapshot memory_shard = Some snap -> log_ready (length (visit_order [] snap)) memory_shard.
Proof.
  intros [= <-]. split; [reflexivity|]. split; [vm_compute; done|]. exists 9, 9, [], [].
  destruct (@Open_spec test_aes 9 9 test_wal ∅ []) as (w & E & Hinv & _); [done|apply WalTheorems.test_disk|done..|].
  split; [|split; vm_compute; congruence]. unfold memory_shard, two_mems. cbn [rt_wal]. by rewrite E.
Qed.


Lemma append_message_readable_witness :
  let rec := MkRecord (bstr "bot") [] kSummary 40 (bstr "d") [5; 6] in
  exists a', test_append rec memory = Some (inr 4, a') /\ am_next_id a' = 5.
Proof.
  intros rec.
  destruct (append_message_readable test_decode (fun x => x) (fun _ _ => false) kL2 test_params test_times still ltac:(intros n; reflexivity)
    memory _ _ 0 rec memory_ready (proj1 memory_shard_inv) (proj2 memory_shard_inv)) as (res & a' & r' & E & _ & Hn & _);
    [by vm_compute|apply (bool_decide_unpack _); vm_compute; exact I|reflexivity..|vm_compute; congruence|vm_compute; congruence|].
  exists a'. split; [|exact Hn]. assert (res = inr 4) as <-; [|exact E]. apply (f_equal (fmap fst)) in E. vm_compute in E. by injection E as <-.
Defined.

(** ** What an application sees *)

(** Opening a memory on an empty disk and appending: the record is not recent
    while it is in the active memtable, nor when it is the only frozen one; after
    closing, the next memory hands out its id again. *)
Definition opened (disk : Disk) : option Am :=
  match am_Open test_decode (fun x => x) (fun _ _ => false) kL2 test_params test_times still memory_options disk with
  | Some (inr a) => Some a
  | _ => None
  end.
Definition hello : AgentMemoryRecord := MkRecord (bstr "bot") [] kMessage 1 (bstr "hello") [5; 6].
Definition test_freeze : U Am unit := on_db (db_Freeze test_decode (fun x => x) (fun _ _ => false) kL2 test_params test_times still).
Definition test_close (a : Am) : option Disk := '(_, db) ← db_Close (am_db a); Some (db_disk db).

Theorem recent_misses_message :
  (a ← opened test_disk; fst <$> (test_append hello ;; test_recent 10) a) = Some (inr []) /\
  (a ← opened test_disk; fst <$> (test_append hello ;; test_freeze ;; test_recent 10) a) = Some (inr []).
Proof. split; vm_compute; reflexivity. Qed.

Theorem reopened_memory_reuses_id :
  (a ← opened test_disk; '(_, a) ← (id ← test_append hello; test_freeze ;; mret id) a; d ← test_close a; a ← opened d;
   fst <$> test_append hello a) = Some (inr 1).
Proof. vm_compute; reflexivity. Qed.
