(* ===== verification/Scan.v ===== *)
(** * Scans of a membrane (src/core/membrane/membrane_record_iterator.cc)

    [NewMembraneRecordIterator] for every kind of membrane and the five iterator
    classes.  [steady] gives the successive readings of the steady clock in
    nanoseconds and [wall] those of the system clock in milliseconds; a state of
    the monad is the number of readings made.  [std::hash] and
    [std::to_string(double)] are parameters.  The iterators that load a row on
    demand read the engine at that moment, so their operations take it as an
    argument. *)
From S2P Require Import Prelude StdSort Env Stream Text Manifest Types KeyValue TimeSeries Blob Spatial SetEngines.
From S2P Require Import Lexical DocEngines Rag Graph.

Open Scope Z_scope.

(** include/pomai/membrane_iterator.h:23-28 [MembraneScanOptions]. *)
Record MembraneScanOptions : Type := MkScan {
  so_max_records : Z; so_max_materialized_keys : Z; so_deadline_ms : Z; so_max_field_bytes : Z
}.

(** include/pomai/membrane_iterator.h:34-40 [MembraneRecord]. *)
Record MembraneRecord : Type := MkRow { mr_kind : MembraneKind; mr_id : Z; mr_key : bytes; mr_value : bytes; mr_vector : vec }.

Definition kEmptyMembraneRecord : MembraneRecord := MkRow kVector 0 [] [] [].

(** src/core/membrane/membrane_record_iterator.cc:46-50 [TruncateField]. *)
Definition TruncateField (max_bytes : Z) (s : bytes) : bytes :=
  if (max_bytes =? 0) || (zlen s <=? max_bytes) then s else take (Z.to_nat max_bytes) s ++ bstr "...".

(** src/core/membrane/membrane_record_iterator.cc:53-65 [PreviewText]. *)
Fixpoint preview_loop (max_n : Z) (t o : bytes) : bytes :=
  match t with
  | [] => o
  | c :: t =>
      if max_n <=? zlen o then o ++ bstr "..." else
      let z := byte.unsigned c in
      preview_loop max_n t (o ++ [if (z =? 10) || (z =? 13) || (z =? 9) then Byte.x20 else c])
  end.

(** src/core/membrane/membrane_record_iterator.cc:52-66 [PreviewText]. *)
Definition PreviewText (t : bytes) (max_n : Z) : bytes := preview_loop max_n t [].

Definition UINT64_MAX : Z := 2 ^ 64 - 1.

(** src/core/membrane/membrane_record_iterator.cc:72-74 [EffectiveMaxRecords]. *)
Definition EffectiveMaxRecords (o : MembraneScanOptions) : Z := if so_max_records o =? 0 then UINT64_MAX else so_max_records o.

Section scan.
Context (steady wall : nat -> Z) (hash_string : bytes -> Z) (double_to_string : Z -> bytes) `{StdSort}.

(** One reading of a clock. *)
Definition read_clock (clock : nat -> Z) : M nat Z := fun n => (inr (clock n), S n).

(** src/core/membrane/membrane_record_iterator.cc:40-44 [ScanDeadlineExceeded]. *)
Definition ScanDeadlineExceeded (t0 deadline_ms : Z) : M nat bool :=
  if deadline_ms =? 0 then mret false else
  now ← read_clock steady;
  mret (deadline_ms <=? Z.quot (now - t0) 1000000).

(** src/core/membrane/membrane_record_iterator.cc:77-85 [TimeSeriesSampleExpired]. *)
Definition TimeSeriesSampleExpired (ttl_sec sample_ts : Z) : M nat bool :=
  if (ttl_sec =? 0) || (sample_ts =? 0) then mret false else
  now_ms ← read_clock wall;
  let now_u := Z.max 0 now_ms in
  mret ((sample_ts <=? now_u) && (ttl_sec * 1000 <=? now_u - sample_ts)).

(** src/core/membrane/membrane_record_iterator.cc:68-70 [HashKey]. *)
Definition HashKey (k : bytes) : Z := hash_string k.

Definition deadline_exceeded : Status := Aborted "membrane scan deadline exceeded".

(** ** The iterators *)

(** src/core/membrane/membrane_record_iterator.cc:154-158 [ListMembraneIterator]. The
    status is always [Ok] and is left out. *)
Record ListMembraneIterator : Type := MkList { ls_rows : list MembraneRecord; ls_i : nat; ls_truncated : bool }.

(** src/core/membrane/membrane_record_iterator.cc:163-163 [ListMembraneIterator::Valid]. *)
Definition list_Valid (it : ListMembraneIterator) : bool := bool_decide (ls_i it < length (ls_rows it))%nat.

(** src/core/membrane/membrane_record_iterator.cc:164-166 [ListMembraneIterator::Next]. *)
Definition list_Next (it : ListMembraneIterator) : ListMembraneIterator :=
  if list_Valid it then MkList (ls_rows it) (S (ls_i it)) (ls_truncated it) else it.

(** src/core/membrane/membrane_record_iterator.cc:167-170 [ListMembraneIterator::Record]. *)
Definition list_Record (it : ListMembraneIterator) : MembraneRecord := default kEmptyMembraneRecord (ls_rows it !! ls_i it).

(** src/core/membrane/membrane_record_iterator.cc:175-182 [RagLazyIterator]. The text and key-value iterators
    (224-231, 264-272) have the same fields; the keys are identifiers or strings. *)
Record LazyIterator (K : Type) : Type := MkLazy {
  lz_keys : list K; lz_i : nat; lz_opts : MembraneScanOptions; lz_rec : MembraneRecord; lz_truncated : bool
}.
Arguments MkLazy {K}. Arguments lz_keys {K}. Arguments lz_i {K}. Arguments lz_opts {K}. Arguments lz_rec {K}. Arguments lz_truncated {K}.

(** src/core/membrane/membrane_record_iterator.cc:210-210 [RagLazyIterator::Valid]. *)
Definition lazy_Valid {K} (it : LazyIterator K) : bool := bool_decide (lz_i it < length (lz_keys it))%nat.

(** src/core/membrane/membrane_record_iterator.cc:216-219 [RagLazyIterator::Record]. *)
Definition lazy_Record {K} (it : LazyIterator K) : MembraneRecord := if lazy_Valid it then lz_rec it else kEmptyMembraneRecord.

Section lazy.
Context {K E : Type} (LoadCurrent : MembraneScanOptions -> K -> E -> MembraneRecord * E).

Definition lazy_load (it : LazyIterator K) (e : E) : LazyIterator K * E :=
  match lz_keys it !! lz_i it with
  | Some k => let '(r, e) := LoadCurrent (lz_opts it) k e in (MkLazy (lz_keys it) (lz_i it) (lz_opts it) r (lz_truncated it), e)
  | None => (it, e)
  end.

(** src/core/membrane/membrane_record_iterator.cc:205-209 [RagLazyIterator::RagLazyIterator]. *)
Definition lazy_new (keys : list K) (o : MembraneScanOptions) (truncated : bool) (e : E) : LazyIterator K * E :=
  lazy_load (MkLazy keys 0 o kEmptyMembraneRecord truncated) e.

(** src/core/membrane/membrane_record_iterator.cc:211-215 [RagLazyIterator::Next]. *)
Definition lazy_Next (it : LazyIterator K) (e : E) : LazyIterator K * E :=
  if lazy_Valid it then lazy_load (MkLazy (lz_keys it) (S (lz_i it)) (lz_opts it) (lz_rec it) (lz_truncated it)) e else (it, e).
End lazy.

(** src/core/membrane/membrane_record_iterator.cc:184-202 [RagLazyIterator::LoadCurrent]. *)
Definition rag_LoadCurrent (o : MembraneScanOptions) (id : Z) (e : RagEngine) : MembraneRecord * RagEngine :=
  (match TryGetChunkExport id e with
   | None => MkRow kRag 0 [] [] []
   | Some (did, text, ntok, hv) =>
       MkRow kRag id (TruncateField (so_max_field_bytes o) (bstr "doc_id=" ++ to_string did))
         (TruncateField (so_max_field_bytes o)
            (bstr "tokens=" ++ to_string ntok ++ bstr " embedding=" ++ bstr (if hv : bool then "yes" else "no") ++
             bstr " text=" ++ PreviewText text 480)) []
   end, e).

(** src/core/membrane/membrane_record_iterator.cc:233-242 [TextLazyIterator::LoadCurrent]. *)
Definition text_LoadCurrent (o : MembraneScanOptions) (id : Z) (e : TextMembrane) : MembraneRecord * TextMembrane :=
  (match text_Get id e with
   | inl _ => MkRow kText 0 [] [] []
   | inr t => MkRow kText id [] (TruncateField (so_max_field_bytes o) (PreviewText t 480)) []
   end, e).

(** src/core/membrane/membrane_record_iterator.cc:274-290 [KvLazyIterator::LoadCurrent]. *)
Definition kv_LoadCurrent (kind : MembraneKind) (o : MembraneScanOptions) (k : bytes) (e : KeyValueEngine) : MembraneRecord * KeyValueEngine :=
  match kv_Get wall k e with
  | (inl _, e) => (MkRow kind (HashKey k) k [] [], e)
  | (inr v, e) => (MkRow kind (HashKey k) (TruncateField (so_max_field_bytes o) k) (TruncateField (so_max_field_bytes o) v) [], e)
  end.

(** ** The vector scan *)

(** include/pomai/iterator.h:26-45 [SnapshotIterator]. [None] is an undefined read. *)
Class SnapshotIterator (I : Type) : Type := {
  si_Valid : I -> bool; si_id : I -> Z; si_vector : I -> vec; si_Next : I -> option I
}.

(** src/core/membrane/membrane_record_iterator.cc:87-95 [VectorMembraneScanIterator]. *)
Record VectorScan (I : Type) : Type := MkVScan {
  vs_it : option I; vs_opts : MembraneScanOptions; vs_rec : MembraneRecord; vs_row_index : Z; vs_truncated : bool;
  vs_st : Status; vs_t0 : Z; vs_counter : Z
}.
Arguments MkVScan {I}. Arguments vs_it {I}. Arguments vs_opts {I}. Arguments vs_rec {I}. Arguments vs_row_index {I}.
Arguments vs_truncated {I}. Arguments vs_st {I}. Arguments vs_t0 {I}. Arguments vs_counter {I}.

Section vector.
Context {I : Type} `{!SnapshotIterator I}.

(** src/core/membrane/membrane_record_iterator.cc:97-108 [VectorMembraneScanIterator::Refresh]. *)
Definition vscan_row (it : option I) : MembraneRecord :=
  match it with
  | Some it => if si_Valid it then MkRow kVector (si_id it) [] (bstr "dim=" ++ to_string (zlen (si_vector it))) (si_vector it)
               else kEmptyMembraneRecord
  | None => kEmptyMembraneRecord
  end.

(** src/core/membrane/membrane_record_iterator.cc:111-115 [VectorMembraneScanIterator]. *)
Definition vscan_new (it : I) (o : MembraneScanOptions) : M nat (VectorScan I) :=
  t0 ← read_clock steady;
  mret (MkVScan (Some it) o (vscan_row (Some it)) 0 false Ok t0 0).

(** src/core/membrane/membrane_record_iterator.cc:116-116 [VectorMembraneScanIterator::Valid]. *)
Definition vscan_Valid (s : VectorScan I) : bool := st_is_ok (vs_st s) && match vs_it s with Some it => si_Valid it | None => false end.

(** src/core/membrane/membrane_record_iterator.cc:146-149 [VectorMembraneScanIterator::Record]. *)
Definition vscan_Record (s : VectorScan I) : MembraneRecord := if vscan_Valid s then vs_rec s else kEmptyMembraneRecord.

Definition vscan_abort (s : VectorScan I) : VectorScan I :=
  MkVScan None (vs_opts s) (vs_rec s) (vs_row_index s) (vs_truncated s) deadline_exceeded (vs_t0 s) (vs_counter s).

(** src/core/membrane/membrane_record_iterator.cc:129-144 [VectorMembraneScanIterator::Next]. The part after
    the periodic check; [None] is an undefined read of the snapshot. *)
Definition vscan_advance (s : VectorScan I) (it : I) : M nat (option (VectorScan I)) :=
  let o := vs_opts s in
  match si_Next it with
  | None => mret None
  | Some it =>
      if (0 <? so_max_records o) && (so_max_records o <=? u64 (vs_row_index s + 1)) then
        mret (Some (MkVScan None o (vs_rec s) (vs_row_index s) (si_Valid it) (vs_st s) (vs_t0 s) (vs_counter s)))
      else if negb (si_Valid it) then
        mret (Some (MkVScan None o (vs_rec s) (vs_row_index s) (vs_truncated s) (vs_st s) (vs_t0 s) (vs_counter s)))
      else
        let s := MkVScan (Some it) o (vscan_row (Some it)) (u64 (vs_row_index s + 1)) (vs_truncated s) (vs_st s) (vs_t0 s) (vs_counter s) in
        late ← (if so_deadline_ms o =? 0 then mret false else ScanDeadlineExceeded (vs_t0 s) (so_deadline_ms o));
        mret (Some (if late : bool then vscan_abort s else s))
  end.

(** src/core/membrane/membrane_record_iterator.cc:117-145 [VectorMembraneScanIterator::Next]. *)
Definition vscan_Next (s : VectorScan I) : M nat (option (VectorScan I)) :=
  match vs_it s with
  | Some it =>
      if negb (vscan_Valid s) then mret (Some s) else
      if so_deadline_ms (vs_opts s) =? 0 then vscan_advance s it else
      let c := u32 (vs_counter s + 1) in
      let due := 4096 <=? c in
      let s := MkVScan (Some it) (vs_opts s) (vs_rec s) (vs_row_index s) (vs_truncated s) (vs_st s) (vs_t0 s) (if due then 0 else c) in
      late ← (if due then ScanDeadlineExceeded (vs_t0 s) (so_deadline_ms (vs_opts s)) else mret false);
      if late : bool then mret (Some (vscan_abort s)) else vscan_advance s it
  | None => mret (Some s)
  end.
End vector.

(** ** Collecting keys *)

Section keys.
Context (o : MembraneScanOptions) (t0 : Z).

(** src/core/membrane/membrane_record_iterator.cc:345-355 [NewMembraneRecordIterator]. The callback over the
    elements of [ForEach]: the keys, and whether the deadline or the limit was hit. *)
Fixpoint collect {A} (l acc : list A) (deadline_hit overflow : bool) : M nat (list A * bool * bool) :=
  match l with
  | [] => mret (acc, deadline_hit, overflow)
  | x :: l =>
      late ← ScanDeadlineExceeded t0 (so_deadline_ms o);
      if late : bool then collect l acc true overflow else
      if (0 <? so_max_materialized_keys o) && (so_max_materialized_keys o <=? zlen acc) then collect l acc deadline_hit true
      else collect l (acc ++ [x]) deadline_hit overflow
  end.

(** src/core/membrane/membrane_record_iterator.cc:341-361 [NewMembraneRecordIterator]. *)
Definition materialize {A} (what : string) (l : list A) : M nat (list A) :=
  '(keys, deadline_hit, overflow) ← collect l [] false false;
  late ← (if deadline_hit : bool then mret true else ScanDeadlineExceeded t0 (so_deadline_ms o));
  mguard (negb late) deadline_exceeded ;;
  mguard (negb overflow) (ResourceExhausted what) ;;
  mret keys.

(** src/core/membrane/membrane_record_iterator.cc:364-365 [NewMembraneRecordIterator]. *)
Definition limit_keys {A} (keys : list A) : list A * bool :=
  let truncated := (0 <? so_max_records o) && (EffectiveMaxRecords o <? zlen keys) in
  (if truncated then take (Z.to_nat (EffectiveMaxRecords o)) keys else keys, truncated).

(** src/core/membrane/membrane_record_iterator.cc:554-566 [NewMembraneRecordIterator]. The callback that builds
    the rows; [skip] is the test of expired samples. *)
Fixpoint collect_rows {A} (skip : A -> M nat bool) (row : A -> MembraneRecord) (l : list A) (rows : list MembraneRecord) (truncated : bool)
    : M nat (list MembraneRecord * bool) :=
  match l with
  | [] => mret (rows, truncated)
  | x :: l =>
      late ← ScanDeadlineExceeded t0 (so_deadline_ms o);
      if late : bool then collect_rows skip row l rows truncated else
      expired ← skip x;
      if expired : bool then collect_rows skip row l rows truncated else
      if (0 <? so_max_records o) && (EffectiveMaxRecords o <=? zlen rows) then collect_rows skip row l rows true
      else collect_rows skip row l (rows ++ [row x]) truncated
  end.

(** src/core/membrane/membrane_record_iterator.cc:552-572 [NewMembraneRecordIterator]. *)
Definition row_scan {A} (skip : A -> M nat bool) (row : A -> MembraneRecord) (lt : MembraneRecord -> MembraneRecord -> bool) (l : list A)
    : M nat ListMembraneIterator :=
  '(rows, truncated) ← collect_rows skip row l [] false;
  late ← ScanDeadlineExceeded t0 (so_deadline_ms o);
  mguard (negb late) deadline_exceeded ;;
  mret (MkList (std_sort lt rows) 0 truncated).
End keys.

(** ** The kinds *)

(** [std::unique] after the sort. *)
Fixpoint unique (l : list Z) : list Z :=
  match l with
  | x :: (y :: _) as l' => if x =? y then unique l' else x :: unique l'
  | _ => l
  end.

Definition by_id (a b : MembraneRecord) : bool := mr_id a <? mr_id b.

(** src/core/membrane/membrane_record_iterator.cc:500-503 [NewMembraneRecordIterator]. *)
Definition by_key (a b : MembraneRecord) : bool :=
  if negb (bool_decide (mr_key a = mr_key b)) then bytes_ltb (mr_key a) (mr_key b) else mr_id a <? mr_id b.

Definition never {A} (_ : A) : M nat bool := mret false.

(** The engines of a membrane; [NewIterator] of the vector engine by its result. *)
Record ScanMembrane (I : Type) : Type := MkMembrane {
  sm_kind : MembraneKind; sm_ttl_sec : Z; sm_vector : option (Status + I); sm_rag : option RagEngine;
  sm_meta : option KeyValueEngine; sm_keyvalue : option KeyValueEngine; sm_text : option TextMembrane;
  sm_sketch : option SketchEngine; sm_timeseries : option TimeSeriesEngine; sm_blob : option BlobEngine;
  sm_spatial : option SpatialEngine; sm_mesh : option (gmap Z Z); sm_sparse : option SparseEngine;
  sm_bitset : option BitsetEngine; sm_graph : option GraphMem
}.

Inductive RecordIterator (I : Type) : Type :=
  | IVector (it : VectorScan I)
  | IList (it : ListMembraneIterator)
  | IRag (it : LazyIterator Z) (e : RagEngine)
  | IText (it : LazyIterator Z) (e : TextMembrane)
  | IKv (it : LazyIterator bytes) (e : KeyValueEngine).
Arguments IVector {I}. Arguments IList {I}. Arguments IRag {I}. Arguments IText {I}. Arguments IKv {I}.

Section kinds.
Context (o : MembraneScanOptions) (t0 : Z).
Context `{!MapOrder Z RagRecord} `{!MapOrder bytes Entry} `{!MapOrder Z bytes} `{!MapOrder bytes Z}.
Context `{!MapOrder Z (list TimeSeriesPoint)} `{!MapOrder Z point} `{!MapOrder Z SparseEntry} `{!MapOrder Z Z} `{!MapOrder Z (list Neighbor)}.

(** src/core/membrane/membrane_record_iterator.cc:339-368 [NewMembraneRecordIterator]. *)
Definition scan_rag (e : RagEngine) : M nat (LazyIterator Z * RagEngine) :=
  ids ← materialize o t0 "membrane scan chunk id materialization cap exceeded" ((fun c => c.1.1.1.1) <$> ForEachChunk e);
  let '(ids, truncated) := limit_keys o (unique (std_sort Z.ltb ids)) in
  mret (lazy_new rag_LoadCurrent ids o truncated e).

(** src/core/keyvalue/keyvalue_engine.cc:174-176 [KeyValueEngine::ForEach]. *)
Definition kv_ForEach (e : KeyValueEngine) : list (bytes * bytes) := (fun p => (p.1, e_value p.2)) <$> iter_order (kv_map e).

(** src/core/membrane/membrane_record_iterator.cc:369-400 [NewMembraneRecordIterator]. *)
Definition scan_kv (kind : MembraneKind) (e : KeyValueEngine) : M nat (LazyIterator bytes * KeyValueEngine) :=
  keys ← materialize o t0 "membrane scan key materialization cap exceeded" (kv_ForEach e).*1;
  let '(keys, truncated) := limit_keys o (std_sort bytes_ltb keys) in
  mret (lazy_new (kv_LoadCurrent kind) keys o truncated e).

(** src/core/membrane/membrane_record_iterator.cc:401-429 [NewMembraneRecordIterator]. *)
Definition scan_text (e : TextMembrane) : M nat (LazyIterator Z * TextMembrane) :=
  ids ← materialize o t0 "membrane scan doc id materialization cap exceeded" (text_ForEach e).*1;
  let '(ids, truncated) := limit_keys o (std_sort Z.ltb ids) in
  mret (lazy_new text_LoadCurrent ids o truncated e).

(** src/core/membrane/membrane_record_iterator.cc:464-470 [NewMembraneRecordIterator]. *)
Definition sketch_row (e : SketchEngine) (k : bytes) : MembraneRecord :=
  MkRow kSketch (HashKey k) (TruncateField (so_max_field_bytes o) k)
    (TruncateField (so_max_field_bytes o) (bstr "count=" ++ to_string (sketch_Estimate k e))) [].

(** src/core/membrane/membrane_record_iterator.cc:458-472 [NewMembraneRecordIterator]. *)
Fixpoint sketch_rows (e : SketchEngine) (keys : list bytes) : M nat (list MembraneRecord) :=
  match keys with
  | [] => mret []
  | k :: keys =>
      late ← ScanDeadlineExceeded t0 (so_deadline_ms o);
      mguard (negb late) deadline_exceeded ;;
      rows ← sketch_rows e keys;
      mret (sketch_row e k :: rows)
  end.

(** src/core/membrane/membrane_record_iterator.cc:430-475 [NewMembraneRecordIterator]. *)
Definition scan_sketch (e : SketchEngine) : M nat ListMembraneIterator :=
  keys ← materialize o t0 "membrane scan key materialization cap exceeded" (sketch_ForEach e).*1;
  let '(keys, truncated) := limit_keys o (std_sort bytes_ltb keys) in
  rows ← sketch_rows e keys;
  mret (MkList rows 0 truncated).

(** src/core/timeseries/timeseries_engine.cc:71-77 [TimeSeriesEngine::ForEach]. *)
Definition ts_ForEach (e : TimeSeriesEngine) : list (Z * TimeSeriesPoint) := p ← iter_order (ts_data e); pair p.1 <$> p.2.

(** src/core/membrane/membrane_record_iterator.cc:488-494 [NewMembraneRecordIterator]. *)
Definition ts_row (p : Z * TimeSeriesPoint) : MembraneRecord :=
  MkRow kTimeSeries (tp_timestamp p.2) (TruncateField (so_max_field_bytes o) (bstr "series_id=" ++ to_string p.1))
    (TruncateField (so_max_field_bytes o)
       (bstr "ts=" ++ to_string (tp_timestamp p.2) ++ bstr " value=" ++ double_to_string (tp_value p.2))) [].

(** src/core/membrane/membrane_record_iterator.cc:476-506 [NewMembraneRecordIterator]. *)
Definition scan_timeseries (ttl_sec : Z) (e : TimeSeriesEngine) : M nat ListMembraneIterator :=
  row_scan o t0 (fun p => TimeSeriesSampleExpired ttl_sec (tp_timestamp p.2)) ts_row by_key (ts_ForEach e).

(** src/core/blob/blob_engine.cc:94-96 [BlobEngine::ForEach]. *)
Definition blob_ForEach (e : BlobEngine) : list (Z * Z) := (fun p => (p.1, zlen p.2)) <$> iter_order (bl_blobs e).

(** src/core/membrane/membrane_record_iterator.cc:507-544 [NewMembraneRecordIterator]. *)
Definition scan_blob (e : BlobEngine) : M nat ListMembraneIterator :=
  items ← materialize o t0 "membrane scan id materialization cap exceeded" (blob_ForEach e);
  let '(items, truncated) := limit_keys o (std_sort (fun a b => a.1 <? b.1) items) in
  mret (MkList ((fun p => MkRow kBlob p.1 [] (bstr "bytes=" ++ to_string p.2) []) <$> items) 0 truncated).

(** src/core/spatial/spatial_engine.cc:94-96 [SpatialEngine::ForEach]. *)
Definition spatial_ForEach (e : SpatialEngine) : list (Z * point) := iter_order (spa_points e).

(** src/core/membrane/membrane_record_iterator.cc:550-573 [NewMembraneRecordIterator]. *)
Definition scan_spatial (e : SpatialEngine) : M nat ListMembraneIterator :=
  row_scan o t0 never
    (fun p => MkRow kSpatial p.1 [] (TruncateField (so_max_field_bytes o)
       (bstr "lat=" ++ double_to_string p.2.1 ++ bstr " lon=" ++ double_to_string p.2.2)) [])
    by_id (spatial_ForEach e).

(** src/core/membrane/membrane_record_iterator.cc:574-596 [NewMembraneRecordIterator]. The engine by the
    number of coordinates of every mesh. *)
Definition scan_mesh (base_floats : gmap Z Z) : M nat ListMembraneIterator :=
  row_scan o t0 never (fun p => MkRow kMesh p.1 [] (bstr "base_xyz_floats=" ++ to_string p.2) []) by_id (iter_order base_floats).

(** src/core/sparse/sparse_engine.cc:46-48 [SparseEngine::ForEach]. *)
Definition se_ForEach (e : SparseEngine) : list (Z * Z) := (fun p => (p.1, zlen (sp_indices p.2))) <$> iter_order (se_sparse e).

(** src/core/membrane/membrane_record_iterator.cc:597-619 [NewMembraneRecordIterator]. *)
Definition scan_sparse (e : SparseEngine) : M nat ListMembraneIterator :=
  row_scan o t0 never (fun p => MkRow kSparse p.1 [] (bstr "nnz=" ++ to_string p.2) []) by_id (se_ForEach e).

(** src/core/bitset/bitset_engine.cc:56-58 [BitsetEngine::ForEach]. *)
Definition bs_ForEach (e : BitsetEngine) : list (Z * Z) := (fun p => (p.1, zlen p.2)) <$> iter_order (bs_bitsets e).

(** src/core/membrane/membrane_record_iterator.cc:620-642 [NewMembraneRecordIterator]. *)
Definition scan_bitset (e : BitsetEngine) : M nat ListMembraneIterator :=
  row_scan o t0 never (fun p => MkRow kBitset p.1 [] (bstr "bytes=" ++ to_string p.2) []) by_id (bs_ForEach e).

(** src/core/graph/graph_membrane_impl.h:190-192 [GraphMembraneImpl::ForEachVertex]. *)
Definition ForEachVertex (g : GraphMem) : list (Z * Z) := (fun p => (p.1, zlen p.2)) <$> iter_order (gm_adj g).

(** src/core/membrane/membrane_record_iterator.cc:643-666 [NewMembraneRecordIterator]. *)
Definition scan_graph (g : GraphMem) : M nat ListMembraneIterator :=
  row_scan o t0 never (fun p => MkRow kGraph p.1 [] (bstr "out_degree=" ++ to_string p.2) []) by_id (ForEachVertex g).
End kinds.

Section new.
Context (o : MembraneScanOptions) {I : Type} `{!SnapshotIterator I}.
Context `{!MapOrder Z RagRecord} `{!MapOrder bytes Entry} `{!MapOrder Z bytes} `{!MapOrder bytes Z}.
Context `{!MapOrder Z (list TimeSeriesPoint)} `{!MapOrder Z point} `{!MapOrder Z SparseEntry} `{!MapOrder Z Z} `{!MapOrder Z (list Neighbor)}.

Definition need {A} (x : option A) (e : Status) : M nat A := match x with Some a => mret a | None => mfail e end.

Definition as_list (m : M nat ListMembraneIterator) : M nat (RecordIterator I) := it ← m; mret (IList it).

(** src/core/membrane/membrane_record_iterator.cc:319-671 [MembraneManager::NewMembraneRecordIterator]. The
    argument is what [GetMembraneOrNull] returns, after [PollMaintenance]. *)
Definition NewMembraneRecordIterator (state : option (ScanMembrane I)) : M nat (RecordIterator I) :=
  m ← need state (NotFound "membrane not found");
  t0 ← read_clock steady;
  match sm_kind I m with
  | kVector =>
      r ← need (sm_vector I m) (InvalidArgument "vector engine missing");
      match r with
      | inl st => mfail st
      | inr it => s ← vscan_new it o; mret (IVector s)
      end
  | kRag =>
      e ← need (sm_rag I m) (InvalidArgument "rag engine missing");
      '(it, e) ← scan_rag o t0 e;
      mret (IRag it e)
  | kMeta =>
      e ← need (sm_meta I m) (InvalidArgument "kv/meta engine missing");
      '(it, e) ← scan_kv o t0 kMeta e;
      mret (IKv it e)
  | kKeyValue =>
      e ← need (sm_keyvalue I m) (InvalidArgument "kv/meta engine missing");
      '(it, e) ← scan_kv o t0 kKeyValue e;
      mret (IKv it e)
  | kText =>
      e ← need (sm_text I m) (InvalidArgument "text engine missing");
      '(it, e) ← scan_text o t0 e;
      mret (IText it e)
  | kSketch => e ← need (sm_sketch I m) (InvalidArgument "sketch engine missing"); as_list (scan_sketch o t0 e)
  | kTimeSeries =>
      e ← need (sm_timeseries I m) (InvalidArgument "timeseries engine missing");
      as_list (scan_timeseries o t0 (sm_ttl_sec I m) e)
  | kBlob => e ← need (sm_blob I m) (InvalidArgument "blob engine missing"); as_list (scan_blob o t0 e)
  | kSpatial => e ← need (sm_spatial I m) (InvalidArgument "spatial engine missing"); as_list (scan_spatial o t0 e)
  | kMesh => e ← need (sm_mesh I m) (InvalidArgument "mesh engine missing"); as_list (scan_mesh o t0 e)
  | kSparse => e ← need (sm_sparse I m) (InvalidArgument "sparse engine missing"); as_list (scan_sparse o t0 e)
  | kBitset => e ← need (sm_bitset I m) (InvalidArgument "bitset engine missing"); as_list (scan_bitset o t0 e)
  | kGraph => e ← need (sm_graph I m) (InvalidArgument "graph engine implementation unavailable"); as_list (scan_graph o t0 e)
  | kAudio | kBloom | kDocument => mret (IList (MkList [] 0 false))
  end.
End new.
End scan.

Arguments MkLazy {K}. Arguments lz_keys {K}. Arguments lz_i {K}. Arguments lz_opts {K}. Arguments lz_rec {K}. Arguments lz_truncated {K}.
Arguments MkVScan {I}. Arguments vs_it {I}. Arguments vs_opts {I}. Arguments vs_rec {I}. Arguments vs_row_index {I}.
Arguments vs_truncated {I}. Arguments vs_st {I}. Arguments vs_t0 {I}. Arguments vs_counter {I}.
Arguments IVector {I}. Arguments IList {I}. Arguments IRag {I}. Arguments IText {I}. Arguments IKv {I}.
