(* ===== verification/ScanTheorems.v ===== *)
(** * Scans of a membrane: complete, ordered and bounded

    A scan that succeeds returns every key in order, or the first [max_records]
    of them with the truncation flag; a missed deadline is always reported
    rather than giving a shorter result.  The kinds that build their rows
    during the traversal cap them before sorting. *)
From S2P Require Import Prelude StdSort Env Stream Text Manifest Types KeyValue TimeSeries Blob Spatial SetEngines.
From S2P Require Import Lexical DocEngines Rag Graph FlatHash MemTable Segment Layers Scan.

Open Scope Z_scope.

Section scan.
Context (steady wall : nat -> Z) (hash_string : bytes -> Z) (double_to_string : Z -> bytes) `{StdSort}.
Context (o : MembraneScanOptions) (t0 : Z).

(** ** Keys *)

Lemma exceeded_run d n : exists b n', ScanDeadlineExceeded steady t0 d n = (inr b, n') /\ (d = 0 -> b = false /\ n' = n).
Proof.
  unfold ScanDeadlineExceeded. destruct (Z.eqb_spec d 0) as [->|Hd]; [by exists false, n|]. eexists _, _. split; [done|]. done.
Qed.

Lemma collect_spec {A} (l acc : list A) hit over n :
  exists keys hit' over' n', collect steady o t0 l acc hit over n = (inr (keys, hit', over'), n') /\
    (hit' = false -> over' = false ->
       hit = false /\ over = false /\ keys = acc ++ l /\ (0 < so_max_materialized_keys o -> zlen acc <= so_max_materialized_keys o -> zlen keys <= so_max_materialized_keys o)) /\
    (so_deadline_ms o = 0 -> hit = false -> over = false ->
       so_max_materialized_keys o <= 0 \/ zlen acc + zlen l <= so_max_materialized_keys o -> hit' = false /\ over' = false).
Proof.
  revert acc hit over n. induction l as [|x l IH]; intros acc hit over n; cbn [collect].
  { eexists _, _, _, _. split; [done|]. rewrite app_nil_r. split; [intros; done|done]. }
  destruct (exceeded_run (so_deadline_ms o) n) as (b & n1 & E & Hb). rewrite (mbind_ok _ _ _ _ _ E). destruct b.
  - destruct (IH acc true over n1) as (keys & h & v & n' & E' & H1 & _). exists keys, h, v, n'. split; [exact E'|].
    split; [intros -> ->; by destruct (H1 eq_refl eq_refl)|]. intros Hd. by destruct (Hb Hd).
  - destruct (_ && _) eqn:Ec.
    + destruct (IH acc hit true n1) as (keys & h & v & n' & E' & H1 & _). exists keys, h, v, n'. split; [exact E'|].
      split; [intros -> ->; by destruct (H1 eq_refl eq_refl) as (_ & ? & _)|].
      intros _ _ _ Hm. apply andb_true_iff in Ec as [E1%Z.ltb_lt E2%Z.leb_le]. unfold zlen in *. cbn in Hm. lia.
    + destruct (IH (acc ++ [x]) hit over n1) as (keys & h & v & n' & E' & H1 & H2). exists keys, h, v, n'. split; [exact E'|].
      split.
      * intros Hh Hv. destruct (H1 Hh Hv) as (? & ? & -> & Hk). split; [done|]. split; [done|]. split; [by rewrite <-app_assoc|].
        intros Hp Ha. apply Hk; [done|]. apply andb_false_iff in Ec as [Ec%Z.ltb_ge|Ec%Z.leb_gt]; [lia|].
        unfold zlen in *. rewrite length_app. cbn. lia.
      * intros Hd Hh Hv Hm. apply H2; [done..|]. unfold zlen in *. rewrite length_app. cbn in *. lia.
Qed.

(** Collecting succeeds with all the keys or fails; without a deadline it
    succeeds when the keys are within the limit. *)
Lemma materialize_spec {A} what (l : list A) n :
  (forall keys n', materialize steady o t0 what l n = (inr keys, n') ->
     keys = l /\ (0 < so_max_materialized_keys o -> zlen l <= so_max_materialized_keys o)) /\
  (so_deadline_ms o = 0 -> so_max_materialized_keys o <= 0 \/ zlen l <= so_max_materialized_keys o ->
     exists n', materialize steady o t0 what l n = (inr l, n')).
Proof.
  unfold materialize. destruct (collect_spec l [] false false n) as (keys & h & v & n1 & E & H1 & H2).
  rewrite (mbind_ok _ _ _ _ _ E). destruct h.
  - split; [by intros keys' n' E'|]. intros Hd Hm. by destruct (H2 Hd eq_refl eq_refl Hm).
  - destruct (exceeded_run (so_deadline_ms o) n1) as (b & n2 & E2 & Hb). rewrite (mbind_ok _ _ _ _ _ E2). split.
    + intros keys' n'. destruct b; [done|]. destruct v; [done|]. cbn. intros [= <- <-].
      destruct (H1 eq_refl eq_refl) as (_ & _ & -> & Hk). split; [done|]. intros Hp. apply Hk; [done|]. change (zlen (@nil A)) with 0. lia.
    + intros Hd Hm. destruct (Hb Hd) as [-> _]. destruct (H2 Hd eq_refl eq_refl Hm) as [_ ->].
      destruct (H1 eq_refl) as (_ & _ & -> & _); [by destruct (H2 Hd eq_refl eq_refl Hm)|]. by eexists.
Qed.

(** ** Iterators that load on demand *)

Section lazy.
Context {K E : Type} (load : MembraneScanOptions -> K -> E -> MembraneRecord * E).

(** [while (it.Valid()) { use(it.Record()); it.Next(); }] *)
Fixpoint lazy_drain (fuel : nat) (it : LazyIterator K) (e : E) : list MembraneRecord :=
  if lazy_Valid it then
    match fuel with
    | O => []
    | Datatypes.S fuel => lazy_Record it :: (let '(it, e) := lazy_Next load it e in lazy_drain fuel it e)
    end
  else [].

Lemma lazy_drain_spec (row : K -> MembraneRecord) (keep : E -> Prop) fuel keys i o' r tr e :
  (forall k e, keep e -> (load o' k e).1 = row k /\ keep (load o' k e).2) -> keep e ->
  (length keys <= i + fuel)%nat -> (forall k, keys !! i = Some k -> r = row k) ->
  lazy_drain fuel (MkLazy keys i o' r tr) e = row <$> drop i keys.
Proof.
  intros Hload. revert i r e. induction fuel as [|fuel IH]; intros i r e He Hf Hr; cbn [lazy_drain]; unfold lazy_Valid; cbn [lz_i lz_keys].
  - rewrite bool_decide_false by lia. by rewrite drop_ge by lia.
  - case_bool_decide as Hi; [|by rewrite drop_ge by lia]. destruct (lookup_lt_is_Some_2 keys i Hi) as [k Hk].
    rewrite (drop_S keys k i Hk). cbn [fmap list_fmap]. unfold lazy_Record, lazy_Valid. cbn [lz_i lz_keys lz_rec].
    rewrite bool_decide_true by done. f_equal; [by apply Hr|]. unfold lazy_Next, lazy_Valid. cbn [lz_i lz_keys lz_opts lz_rec lz_truncated].
    rewrite bool_decide_true by done. unfold lazy_load. cbn [lz_i lz_keys lz_opts lz_rec lz_truncated].
    destruct (keys !! Datatypes.S i) as [k'|] eqn:Hk'.
    + destruct (Hload k' e He) as [H1 H2]. destruct (load o' k' e) as [r' e']. cbn [fst snd] in *. subst r'.
      change (list_fmap _ _ row (drop (Datatypes.S i) keys)) with (row <$> drop (Datatypes.S i) keys).
      apply IH; [done|lia|]. intros k2 E2. congruence.
    + change (list_fmap _ _ row (drop (Datatypes.S i) keys)) with (row <$> drop (Datatypes.S i) keys).
      apply IH; [done|lia|]. intros k2 E2. congruence.
Qed.

Lemma lazy_new_drain (row : K -> MembraneRecord) (keep : E -> Prop) keys o' tr e :
  (forall k e, keep e -> (load o' k e).1 = row k /\ keep (load o' k e).2) -> keep e ->
  let '(it, e') := lazy_new load keys o' tr e in
  lazy_drain (length keys) it e' = row <$> keys /\ lz_truncated it = tr /\ length (lz_keys it) = length keys /\ keep e'.
Proof.
  intros Hload He. unfold lazy_new, lazy_load. cbn [lz_i lz_keys lz_opts lz_rec lz_truncated].
  destruct (keys !! 0%nat) as [k|] eqn:Hk.
  - destruct (Hload k e He) as [H1 H2]. destruct (load o' k e) as [r e']. cbn [fst snd] in *. subst r. split; [|done].
    rewrite (lazy_drain_spec row keep _ keys 0); [by rewrite drop_0|done|done|lia|]. intros k2 E2. congruence.
  - destruct keys; [|done]. split; [|done]. done.
Qed.
End lazy.

Lemma limit_keys_spec {A} (keys : list A) :
  let '(kept, truncated) := limit_keys o keys in
  kept = (if 0 <? so_max_records o then take (Z.to_nat (so_max_records o)) keys else keys) /\
  truncated = (0 <? so_max_records o) && (so_max_records o <? zlen keys).
Proof.
  unfold limit_keys, EffectiveMaxRecords. destruct (Z.ltb_spec 0 (so_max_records o)) as [Hp|Hp]; cbn [andb]; [|done].
  rewrite (proj2 (Z.eqb_neq _ 0)) by lia. destruct (Z.ltb_spec (so_max_records o) (zlen keys)); [done|].
  split; [|done]. rewrite take_ge; [done|]. unfold zlen in *. lia.
Qed.

(** ** Sorted keys *)

Lemma sort_ids (l : list Z) : NoDup l -> StronglySorted Z.lt (std_sort Z.ltb l) /\ std_sort Z.ltb l ≡ₚ l.
Proof.
  intros Hnd. split; [|apply std_sort_perm]. pose proof (std_sort_key_sorted (fun x : Z => x) l) as Hs. cbn beta in Hs.
  assert (NoDup (std_sort Z.ltb l)) as Hn by by rewrite std_sort_perm. revert Hs Hn. change (fun a b => a <? b) with Z.ltb.
  induction (std_sort Z.ltb l) as [|x k IH]; intros Hs Hn; [constructor|]. apply StronglySorted_inv in Hs as [Hs Hx].
  apply NoDup_cons in Hn as [Hx' Hn]. constructor; [by apply IH|]. rewrite Forall_forall in Hx |- *. intros y Hy. specialize (Hx y Hy).
  cbn in Hx. assert (x <> y) by (intros ->; done). lia.
Qed.

Lemma bytes_ltb_order : weak_order (fun _ => True) bytes_ltb.
Proof.
  split.
  - intros a b _ _ E. rewrite bytes_ltb_spec. destruct (bytes_le_total a b) as [|Hle]; [done|]. apply bytes_ltb_spec in Hle. congruence.
  - intros a b c _ _ _. rewrite !bytes_ltb_spec. intros. by etrans.
Qed.

Lemma sort_keys (l : list bytes) : StronglySorted bytes_le (std_sort bytes_ltb l) /\ std_sort bytes_ltb l ≡ₚ l.
Proof.
  split; [|apply std_sort_perm].
  pose proof (std_sort_sorted bytes_ltb _ l bytes_ltb_order (Forall_true _ _ (fun _ => I))) as Hs.
  induction Hs as [|x k Hs IH Hx]; constructor; [done|]. eapply Forall_impl; [exact Hx|]. intros y Hy. by apply bytes_ltb_spec.
Qed.

Definition limited {A} (l : list A) : list A := if 0 <? so_max_records o then take (Z.to_nat (so_max_records o)) l else l.
Definition cut {A} (l : list A) : bool := (0 <? so_max_records o) && (so_max_records o <? zlen l).

Lemma limited_elem {A} (l : list A) x : x ∈ limited l -> x ∈ l.
Proof. unfold limited. case_match; [apply subseteq_take|done]. Qed.

(** A scan that collects keys, sorts and cuts them. *)
Lemma key_scan_ok {A B} what (l : list A) (srt : list A -> list A) (f : list A -> bool -> B) n :
  let m : M nat B := keys ← materialize steady o t0 what l; let '(kept, truncated) := limit_keys o (srt keys) in mret (f kept truncated) in
  (forall r n', m n = (inr r, n') -> r = f (limited (srt l)) (cut (srt l))) /\
  (so_deadline_ms o = 0 -> so_max_materialized_keys o <= 0 \/ zlen l <= so_max_materialized_keys o -> exists r n', m n = (inr r, n')).
Proof.
  cbn zeta. destruct (materialize_spec what l n) as [H1 H2].
  pose proof (limit_keys_spec (srt l)) as Hl. destruct (limit_keys o (srt l)) as [kept tr] eqn:El. destruct Hl as [-> ->]. split.
  - intros r n'. destruct (materialize _ _ _ _ _ n) as [[st|keys] n1] eqn:E; [by rewrite (mbind_err _ _ _ _ _ E)|].
    rewrite (mbind_ok _ _ _ _ _ E). destruct (H1 _ _ eq_refl) as [-> _]. rewrite El. by intros [= <- <-].
  - intros Hd Hm. destruct (H2 Hd Hm) as [n1 E]. rewrite (mbind_ok _ _ _ _ _ E), El. by eexists _, _.
Qed.

Lemma elem_of_keys `{Countable K} {V} `{!MapOrder K V} (m : gmap K V) k : k ∈ (iter_order m).*1 <-> is_Some (m !! k).
Proof.
  rewrite list_elem_of_fmap. split; [intros ([k' v] & -> & Hk%elem_of_iter_order); by exists v|].
  intros [v Hv]. exists (k, v). split; [done|]. by apply elem_of_iter_order.
Qed.

(** ** Texts *)

(** A scan of a text membrane without deadline and within the limit on keys
    succeeds, and every scan that succeeds yields one row per stored text in
    increasing order of the identifiers, cut after [max_records] rows exactly
    when it says so. *)
Theorem text_scan_exact `{!MapOrder Z bytes} e n :
  (so_deadline_ms o = 0 -> so_max_materialized_keys o <= 0 \/ Z.of_nat (size (tx_docs e)) <= so_max_materialized_keys o ->
     exists r n', scan_text steady o t0 e n = (inr r, n')) /\
  (forall it e' n', scan_text steady o t0 e n = (inr (it, e'), n') ->
     exists ids, StronglySorted Z.lt ids /\ (forall id, id ∈ ids <-> is_Some (tx_docs e !! id)) /\
       lazy_drain text_LoadCurrent (length (lz_keys it)) it e' =
         (fun id => MkRow kText id [] (TruncateField (so_max_field_bytes o) (PreviewText (default [] (tx_docs e !! id)) 480)) []) <$> limited ids /\
       lz_truncated it = (0 <? so_max_records o) && (so_max_records o <? Z.of_nat (size (tx_docs e)))).
Proof.
  set (ids := std_sort Z.ltb (text_ForEach e).*1).
  destruct (key_scan_ok "membrane scan doc id materialization cap exceeded" (text_ForEach e).*1 (std_sort Z.ltb)
    (fun ids tr => lazy_new text_LoadCurrent ids o tr e) n) as [H1 H2]. fold ids in H1.
  assert (zlen (text_ForEach e).*1 = Z.of_nat (size (tx_docs e))) as Hlen by (unfold zlen, text_ForEach; by rewrite length_fmap, length_iter_order).
  split; [by rewrite <-Hlen|]. intros it e' n' E. pose proof (H1 _ _ E) as Er. clear H1 H2 E. exists ids.
  destruct (sort_ids (text_ForEach e).*1) as [Hs Hp]; [apply NoDup_iter_order|]. fold ids in Hs, Hp.
  assert (forall id, id ∈ ids <-> is_Some (tx_docs e !! id)) as Hin by (intros id; rewrite Hp; apply elem_of_keys).
  split; [done|]. split; [done|].
  pose proof (lazy_new_drain text_LoadCurrent (fun id => (text_LoadCurrent o id e).1) (fun e' => e' = e) (limited ids) o (cut ids) e) as Hn.
  rewrite <-Er in Hn. destruct Hn as (Hd & Ht & Hl & He); [by intros k ? ->|done|]. rewrite Hl, Hd, Ht. split.
  - apply list_fmap_ext. intros i id Hi%list_elem_of_lookup_2%limited_elem%Hin. unfold text_LoadCurrent, text_Get.
    destruct Hi as [v ->]. done.
  - unfold cut. rewrite <-Hlen. unfold zlen. by rewrite Hp.
Qed.

(** ** Key-value entries *)


(** ** Rows built during the traversal *)

(** A steady clock does not go back. *)
Definition monotone (clock : nat -> Z) : Prop := forall i j, (i <= j)%nat -> clock i <= clock j.

Definition late_at (n : nat) : bool := negb (so_deadline_ms o =? 0) && (so_deadline_ms o <=? Z.quot (steady n - t0) 1000000).

Lemma exceeded_late n :
  ScanDeadlineExceeded steady t0 (so_deadline_ms o) n = (inr (late_at n), if so_deadline_ms o =? 0 then n else Datatypes.S n).
Proof. unfold ScanDeadlineExceeded, late_at. by destruct (so_deadline_ms o =? 0). Qed.

Lemma late_mono i j : monotone steady -> (i <= j)%nat -> late_at i = true -> late_at j = true.
Proof.
  intros Hm Hij. unfold late_at. destruct (so_deadline_ms o =? 0); [done|]. cbn. rewrite !Z.leb_le. intros Hl.
  etransitivity; [exact Hl|]. apply Z.quot_le_mono; [lia|]. pose proof (Hm i j Hij). lia.
Qed.

(** If the last reading is not late, no earlier one was, and no row was skipped. *)
Lemma collect_rows_spec {A} (row : A -> MembraneRecord) l rows tr n :
  monotone steady -> (0 < so_max_records o -> zlen rows <= so_max_records o) ->
  exists rows' tr' n', collect_rows steady o t0 never row l rows tr n = (inr (rows', tr'), n') /\ (n <= n')%nat /\
    (late_at n' = false -> rows' = limited (rows ++ (row <$> l)) /\ tr' = tr || cut (rows ++ (row <$> l))).
Proof.
  intros Hm. revert rows tr n. induction l as [|x l IH]; intros rows tr n Hr; cbn [collect_rows].
  { exists rows, tr, n. split; [done|]. split; [done|]. intros _. cbn [fmap list_fmap]. rewrite app_nil_r. unfold limited, cut.
    destruct (Z.ltb_spec 0 (so_max_records o)) as [Hp|Hp]; cbn [andb]; [|by rewrite orb_false_r]. specialize (Hr Hp).
    rewrite take_ge by (unfold zlen in Hr; lia). destruct (Z.ltb_spec (so_max_records o) (zlen rows)); [lia|]. by rewrite orb_false_r. }
  rewrite (mbind_ok _ _ _ _ _ (exceeded_late n)). set (n1 := if so_deadline_ms o =? 0 then n else Datatypes.S n).
  assert (n <= n1)%nat as Hn1 by (subst n1; case_match; lia). destruct (late_at n) eqn:El.
  - destruct (IH rows tr n1 Hr) as (rows' & tr' & n' & E & Hn & Hx). exists rows', tr', n'. split; [exact E|]. split; [lia|].
    intros Hl. rewrite (late_mono n n' Hm ltac:(lia) El) in Hl. done.
  - rewrite (mbind_ok (never x) _ n1 false n1) by done.
    assert (EffectiveMaxRecords o = so_max_records o \/ so_max_records o <= 0) as Heff
      by (unfold EffectiveMaxRecords; destruct (Z.eqb_spec (so_max_records o) 0); lia).
    destruct (_ && _) eqn:Ec.
    + apply andb_true_iff in Ec as [E1%Z.ltb_lt E2%Z.leb_le]. destruct Heff as [Heff|]; [|lia]. rewrite Heff in E2.
      destruct (IH rows true n1 Hr) as (rows' & tr' & n' & E & Hn & Hx). exists rows', tr', n'. split; [exact E|]. split; [lia|].
      intros Hl. destruct (Hx Hl) as [-> ->]. specialize (Hr E1). unfold limited, cut. destruct (Z.ltb_spec 0 (so_max_records o)); [|lia].
      unfold zlen in *. rewrite !take_app_le by lia. split; [done|]. rewrite !length_app, !length_fmap. cbn [andb orb length].
      symmetry. apply orb_true_iff. right. apply Z.ltb_lt. lia.
    + destruct (IH (rows ++ [row x]) tr n1) as (rows' & tr' & n' & E & Hn & Hx).
      { intros Hp. apply andb_false_iff in Ec as [Ec%Z.ltb_ge|Ec%Z.leb_gt]; [lia|]. destruct Heff as [Heff|]; [|lia].
        unfold zlen in *. rewrite length_app. cbn. lia. }
      exists rows', tr', n'. split; [exact E|]. split; [lia|]. intros Hl. destruct (Hx Hl) as [-> ->]. by rewrite <-app_assoc.
Qed.

(** C34. The scans of spatial, mesh, sparse, bitset and graph membranes never return
    part of the data in silence: with a clock that does not go back, a scan that
    succeeds returns all rows in the order of the comparison, or, exactly when
    it says so, [max_records] of the rows that the traversal met first. *)
Theorem row_scan_never_silently_partial {A} (row : A -> MembraneRecord) lt l n it n' :
  monotone steady -> weak_order (fun r => r ∈ row <$> l) lt ->
  row_scan steady o t0 never row lt l n = (inr it, n') ->
  ls_rows it ≡ₚ limited (row <$> l) /\ StronglySorted (fun a b => lt b a = false) (ls_rows it) /\
  ls_truncated it = cut (row <$> l) /\ ls_i it = 0%nat.
Proof.
  intros Hm Hlt Hrun. unfold row_scan in Hrun.
  destruct (collect_rows_spec row l [] false n Hm) as (rows & tr & n1 & E & _ & Hx); [intros; change (zlen (@nil MembraneRecord)) with 0; lia|].
  rewrite (mbind_ok _ _ _ _ _ E), (mbind_ok _ _ _ _ _ (exceeded_late n1)) in Hrun.
  destruct (late_at n1); [done|]. cbn in Hrun. injection Hrun as <- _. destruct (Hx eq_refl) as [-> ->]. cbn [ls_rows ls_truncated ls_i app orb].
  split; [apply std_sort_perm|]. split; [|done]. eapply std_sort_sorted; [exact Hlt|]. apply Forall_forall. intros r Hr. by apply limited_elem.
Qed.
End scan.

(** ** The vector scan *)

Section vector.
Context (steady : nat -> Z) {I : Type} `{!SnapshotIterator I}.

(** What the snapshot iterator goes through. *)
Inductive yields : I -> list (Z * vec) -> Prop :=
| yields_done it : si_Valid it = false -> yields it []
| yields_row it it' rows :
    si_Valid it = true -> si_Next it = Some it' -> yields it' rows -> yields it ((si_id it, si_vector it) :: rows).

Definition vector_row (p : Z * vec) : MembraneRecord := MkRow kVector p.1 [] (bstr "dim=" ++ to_string (zlen p.2)) p.2.

(** [while (it.Valid()) { use(it.Record()); it.Next(); }] *)
Fixpoint vscan_drain (fuel : nat) (s : VectorScan I) : M nat (option (list MembraneRecord * VectorScan I)) :=
  if vscan_Valid s then
    match fuel with
    | O => mret None
    | Datatypes.S fuel =>
        r ← vscan_Next steady s;
        match r with
        | None => mret None
        | Some s' =>
            rest ← vscan_drain fuel s';
            mret ((fun p => (vscan_Record s :: p.1, p.2)) <$> rest)
        end
    end
  else mret (Some ([], s)).

Lemma yields_valid it rows : yields it rows -> si_Valid it = negb (bool_decide (rows = [])).
Proof. by destruct 1. Qed.

Lemma yields_head it rows : yields it rows -> rows <> [] -> vscan_row (Some it) = vector_row (si_id it, si_vector it).
Proof. intros Hy Hne. unfold vscan_row. rewrite (yields_valid _ _ Hy), bool_decide_false by done. done. Qed.

(** A scan in progress at row [row_index] with these rows ahead. *)
Definition vscan_at (o : MembraneScanOptions) (t0 c : Z) (it : I) (i : Z) : VectorScan I :=
  MkVScan (Some it) o (vscan_row (Some it)) i false Ok t0 c.

(** Reading [k] of the clock is [deadline_ms] or more after the start [t0]. *)
Definition missed (o : MembraneScanOptions) (t0 : Z) (k : nat) : bool :=
  negb (so_deadline_ms o =? 0) && (so_deadline_ms o <=? Z.quot (steady k - t0) 1000000).

(** The readings from [n] to [n'] are in time; or all but the last are. *)
Definition in_time (o : MembraneScanOptions) (t0 : Z) (n n' : nat) : Prop :=
  (n <= n')%nat /\ forall k, (n <= k < n')%nat -> missed o t0 k = false.
Definition late_at_last (o : MembraneScanOptions) (t0 : Z) (n n' : nat) : Prop :=
  exists m, n' = Datatypes.S m /\ in_time o t0 n m /\ missed o t0 m = true.

Lemma in_time_refl o t0 n : in_time o t0 n n.
Proof. split; [lia|]. intros k Hk. lia. Qed.
Lemma in_time_step o t0 n : missed o t0 n = false -> in_time o t0 n (Datatypes.S n).
Proof. intros Hm. split; [lia|]. intros k Hk. by replace k with n by lia. Qed.
Lemma in_time_trans o t0 n n1 n2 : in_time o t0 n n1 -> in_time o t0 n1 n2 -> in_time o t0 n n2.
Proof.
  intros [H1 H2] [H3 H4]. split; [lia|]. intros k Hk. destruct (decide (k < n1)%nat); [apply H2|apply H4]; lia.
Qed.
Lemma late_trans o t0 n n1 n2 : in_time o t0 n n1 -> late_at_last o t0 n1 n2 -> late_at_last o t0 n n2.
Proof. intros H1 (m & -> & H2 & H3). exists m. split; [done|]. split; [by eapply in_time_trans|done]. Qed.
Lemma late_now o t0 n : missed o t0 n = true -> late_at_last o t0 n (Datatypes.S n).
Proof. intros Hm. exists n. split; [done|]. split; [apply in_time_refl|done]. Qed.

Lemma exceeded_missed o t0 n :
  so_deadline_ms o <> 0 -> ScanDeadlineExceeded steady t0 (so_deadline_ms o) n = (inr (missed o t0 n), Datatypes.S n).
Proof. intros Hd. unfold ScanDeadlineExceeded, missed. by rewrite (proj2 (Z.eqb_neq _ _) Hd). Qed.

(** The outcome between the readings [n] and [n'] of the clock: all rows up to
    the limit and no reading late, or a prefix, the status of a missed deadline
    and the last reading late. *)
Definition vscan_outcome (o : MembraneScanOptions) (t0 : Z) (n n' : nat) (i : Z) (rows : list (Z * vec)) (out : list MembraneRecord) (s : VectorScan I) : Prop :=
  (in_time o t0 n n' /\ vs_st s = Ok /\ out = vector_row <$> (if 0 <? so_max_records o then take (Z.to_nat (so_max_records o - i)) rows else rows) /\
     vs_truncated s = (0 <? so_max_records o) && (so_max_records o - i <? zlen rows)) \/
  (late_at_last o t0 n n' /\ vs_st s = deadline_exceeded /\ out `prefix_of` vector_row <$> rows).

(** A step of the iterator, whatever the clock shows. *)
Lemma vscan_Next_run o t0 c it i n :
  si_Valid it = true ->
  exists late n', vscan_Next steady (vscan_at o t0 c it i) n =
    (if late : bool then (inr (Some (vscan_abort (vscan_at o t0 0 it i))), n') else vscan_advance steady (vscan_at o t0 (if so_deadline_ms o =? 0 then c else if 4096 <=? u32 (c + 1) then 0 else u32 (c + 1)) it i) it n') /\
    (if late then late_at_last o t0 n n' else in_time o t0 n n').
Proof.
  intros Hv. unfold vscan_Next, vscan_Valid, vscan_at. cbn [vs_it vs_st vs_opts vs_counter vs_rec vs_row_index vs_truncated vs_t0].
  rewrite Hv. change (st_is_ok Ok) with true. cbn [andb negb]. destruct (Z.eqb_spec (so_deadline_ms o) 0) as [Hd|Hd].
  { exists false, n. split; [done|apply in_time_refl]. }
  cbv zeta. cbn [vs_it vs_st vs_opts vs_counter vs_rec vs_row_index vs_truncated vs_t0]. destruct (4096 <=? u32 (c + 1)).
  - rewrite (mbind_ok _ _ _ _ _ (exceeded_missed o t0 n Hd)). exists (missed o t0 n), (Datatypes.S n).
    destruct (missed o t0 n) eqn:Em; (split; [done|]); [by apply late_now|by apply in_time_step].
  - exists false, n. split; [done|apply in_time_refl].
Qed.

Lemma vscan_done fuel s n : vscan_Valid s = false -> vscan_drain fuel s n = (inr (Some ([], s)), n).
Proof. intros Hv. destruct fuel; cbn [vscan_drain]; by rewrite Hv. Qed.

Lemma vscan_abort_invalid s : vscan_Valid (vscan_abort s) = false.
Proof. done. Qed.

(** Advancing from a row: the last one, the next one in time, or a missed deadline. *)
Lemma vscan_advance_run o t0 c it it' rows i n :
  si_Next it = Some it' -> yields it' rows -> 0 <= i -> i + 1 < 2 ^ 64 ->
  exists s n', vscan_advance steady (vscan_at o t0 c it i) it n = (inr (Some s), n') /\
    ((in_time o t0 n n' /\ vs_it s = None /\ vs_st s = Ok /\
        ((0 < so_max_records o <= i + 1 /\ vs_truncated s = negb (bool_decide (rows = []))) \/ (rows = [] /\ vs_truncated s = false))) \/
     (in_time o t0 n n' /\ rows <> [] /\ s = vscan_at o t0 c it' (i + 1) /\ (so_max_records o <= 0 \/ i + 1 < so_max_records o)) \/
     (late_at_last o t0 n n' /\ s = vscan_abort (vscan_at o t0 c it' (i + 1)))).
Proof.
  intros Hnext Hy Hi Hlt. pose proof (yields_valid _ _ Hy) as Hv. unfold vscan_advance.
  cbn [vscan_at vs_opts vs_row_index vs_rec vs_truncated vs_st vs_t0 vs_counter]. rewrite Hnext, Hv.
  rewrite (u64_id (i + 1)) by (unfold is_u64; lia). destruct (_ && _) eqn:Ec.
  { apply andb_true_iff in Ec as [E1%Z.ltb_lt E2%Z.leb_le]. eexists _, _. split; [done|]. left. split; [apply in_time_refl|]. split; [done|]. split; [done|]. by left. }
  case_bool_decide as Hr; cbn [negb].
  { eexists _, _. split; [done|]. left. split; [apply in_time_refl|]. split; [done|]. split; [done|]. by right. }
  assert (so_max_records o <= 0 \/ i + 1 < so_max_records o) as Hmax by (apply andb_false_iff in Ec as [Ec%Z.ltb_ge|Ec%Z.leb_gt]; lia).
  destruct (Z.eqb_spec (so_deadline_ms o) 0) as [Hd|Hd].
  - eexists _, _. split; [done|]. right. left. split; [apply in_time_refl|done].
  - rewrite (mbind_ok _ _ _ _ _ (exceeded_missed o t0 n Hd)). eexists _, _. split; [done|]. right.
    destruct (missed o t0 n) eqn:Em; [right|left]; (split; [|done]); [by apply late_now|by apply in_time_step].
Qed.

Lemma vscan_drain_spec o t0 rows fuel c it i n :
  yields it rows -> (length rows <= fuel)%nat -> 0 <= i -> i + zlen rows < 2 ^ 64 -> so_max_records o <= 0 \/ i < so_max_records o ->
  exists out s n', vscan_drain fuel (vscan_at o t0 c it i) n = (inr (Some (out, s)), n') /\ vscan_outcome o t0 n n' i rows out s.
Proof.
  intros Hy. revert fuel c i n. induction Hy as [it Hv|it it' rows Hv Hnext Hy IH]; intros fuel c i n Hf Hi Hlt Hmax.
  { exists [], (vscan_at o t0 c it i), n. split; [apply vscan_done; unfold vscan_Valid; cbn; by rewrite Hv|]. left. split; [apply in_time_refl|]. split; [done|].
    rewrite take_nil. change (zlen []) with 0. split; [by destruct (0 <? _)|]. cbn. symmetry. apply andb_false_iff.
    rewrite Z.ltb_ge, Z.ltb_ge. lia. }
  destruct fuel as [|fuel]; [cbn in Hf; lia|]. cbn [length] in Hf.
  assert (zlen ((si_id it, si_vector it) :: rows) = 1 + zlen rows) as Hz by (unfold zlen; cbn [length]; lia).
  pose proof (zlen_nonneg rows). rewrite Hz in Hlt.
  assert (vscan_Valid (vscan_at o t0 c it i) = true) as HV by (unfold vscan_Valid; cbn; by rewrite Hv).
  assert (vscan_Record (vscan_at o t0 c it i) = vector_row (si_id it, si_vector it)) as HR.
  { unfold vscan_Record. rewrite HV. cbn. by rewrite Hv. }
  cbn [vscan_drain]. rewrite HV. destruct (vscan_Next_run o t0 c it i n Hv) as (late & n1 & E & Hlate).
  assert (forall s n2, vscan_Next steady (vscan_at o t0 c it i) n = (inr (Some s), n2) -> vscan_Valid s = false ->
    (r ← vscan_Next steady (vscan_at o t0 c it i);
     match r with
     | None => mret None
     | Some s' => rest ← vscan_drain fuel s'; mret ((fun p => (vscan_Record (vscan_at o t0 c it i) :: p.1, p.2)) <$> rest)
     end) n = (inr (Some ([vector_row (si_id it, si_vector it)], s)), n2)) as Hstop.
  { intros s n2 E2 Hvs. rewrite (mbind_ok _ _ _ _ _ E2), (mbind_ok _ _ _ _ _ (vscan_done fuel s n2 Hvs)). cbn. by rewrite HR. }
  destruct late.
  { eexists _, _, _. split; [apply (Hstop _ _ E); done|]. right. split; [exact Hlate|]. split; [done|]. by exists (vector_row <$> rows). }
  set (c1 := if _ =? 0 then c else _) in E.
  destruct (vscan_advance_run o t0 c1 it it' rows i n1 Hnext Hy Hi) as (s & n2 & E2 & Hs); [lia|]. rewrite E2 in E.
  destruct Hs as [(Hin & Hnone & Hst & Htr)|[(Hin & Hne & -> & Hmax')|(Hd & ->)]].
  - eexists _, _, _. split; [apply (Hstop _ _ E); unfold vscan_Valid; by rewrite Hnone, andb_false_r|]. left. split; [by eapply in_time_trans|]. split; [done|].
    rewrite Hz. destruct (Z.ltb_spec 0 (so_max_records o)) as [Hp|Hp]; cbn [andb].
    + destruct Htr as [[Hm Ht]|[-> Ht]]; rewrite Ht.
      * replace (so_max_records o - i) with 1 by lia. cbn [take Z.to_nat Pos.to_nat]. split; [done|].
        case_bool_decide as Hr; [subst rows; by vm_compute|]. destruct rows; [done|]. symmetry. apply Z.ltb_lt. unfold zlen. cbn [length]. lia.
      * split; [rewrite take_ge by (cbn; lia); done|]. change (zlen (@nil (Z * vec))) with 0. symmetry. apply Z.ltb_ge. lia.
    + destruct Htr as [[Hm _]|[-> Ht]]; [lia|]. done.
  - destruct (IH fuel c1 (i + 1) n2) as (out & s & n3 & E3 & Ho); [lia|lia|lia|done|].
    rewrite (mbind_ok _ _ _ _ _ E), (mbind_ok _ _ _ _ _ E3). eexists _, _, _. split; [done|]. cbn [fst snd]. rewrite HR.
    destruct Ho as [(Hin' & Hst & -> & Ht)|(Hd & Hst & Hp)].
    + left. split; [do 2 (eapply in_time_trans; [eassumption|]); done|]. split; [done|]. rewrite Ht, Hz. destruct (Z.ltb_spec 0 (so_max_records o)) as [Hp|Hp]; cbn [andb]; [|done].
      replace (Z.to_nat (so_max_records o - i)) with (Datatypes.S (Z.to_nat (so_max_records o - (i + 1)))) by lia. split; [done|].
      apply eq_true_iff_eq. rewrite !Z.ltb_lt. lia.
    + right. split; [do 2 (eapply late_trans; [eassumption|]); done|]. split; [done|]. cbn [fmap list_fmap]. by apply prefix_cons.
  - eexists _, _, _. split; [apply (Hstop _ _ E); done|]. right. split; [by eapply late_trans|]. split; [done|]. by exists (vector_row <$> rows).
Qed.

(** C22. A scan of a vector membrane over a snapshot that yields [rows] returns.
    Either no reading of the clock during the scan is [deadline_ms] or more
    after its start, and then with status [Ok] it has yielded every vector of
    the snapshot, cut after [max_records] rows exactly when it says so; or the
    last reading it made is the first that late, and then the status says so
    and it has yielded the vectors before that point.  Without a deadline no
    reading is late. *)
Theorem vector_scan_exact o it rows n :
  yields it rows -> zlen rows < 2 ^ 64 -> 0 <= so_max_records o ->
  exists s0 out s n', vscan_new steady it o n = (inr s0, Datatypes.S n) /\
    vscan_drain (length rows) s0 (Datatypes.S n) = (inr (Some (out, s)), n') /\
    ((in_time o (steady n) (Datatypes.S n) n' /\ vs_st s = Ok /\
        out = vector_row <$> (if 0 <? so_max_records o then take (Z.to_nat (so_max_records o)) rows else rows) /\
        vs_truncated s = (0 <? so_max_records o) && (so_max_records o <? zlen rows)) \/
     (late_at_last o (steady n) (Datatypes.S n) n' /\ vs_st s = deadline_exceeded /\ out `prefix_of` vector_row <$> rows)).
Proof.
  intros Hy Hlt Hm. destruct (vscan_drain_spec o (steady n) rows (length rows) 0 it 0 (Datatypes.S n) Hy) as (out & s & n' & E & Ho); [done|done|lia|lia|].
  exists (vscan_at o (steady n) 0 it 0), out, s, n'. split; [done|]. split; [exact E|].
  unfold vscan_outcome in Ho. by rewrite Z.sub_0_r in Ho.
Qed.
End vector.

(** ** The iterator over a snapshot of the vector engine *)

Section snapshot.
Context {T : Type} `{IdMap T (option bytes)} `{F32} (quant_decode : SegmentReader -> bytes -> vec).

Definition vector_snapshot_iterator : SnapshotIterator (VectorIterator T) := {|
  si_Valid := it_Valid; si_id := it_current_id; si_vector := it_current_vec; si_Next := it_Next quant_decode
|}.

Lemma it_drain_yields fuel it rows : it_drain quant_decode fuel it = Some rows -> @yields _ vector_snapshot_iterator it rows.
Proof.
  revert it rows. induction fuel as [|fuel IH]; intros it rows E; cbn [it_drain] in E; destruct (it_Valid it) eqn:Hv; cbn [negb] in E.
  - done.
  - injection E as <-. by constructor.
  - destruct (it_Next quant_decode it) as [it'|] eqn:En; [|done]. cbn [mbind option_bind] in E.
    destruct (it_drain quant_decode fuel it') as [rest|] eqn:Er; [|done]. injection E as <-.
    apply (@yields_row _ vector_snapshot_iterator _ it'); [done|done|by apply IH].
  - injection E as <-. by constructor.
Qed.
End snapshot.

(** ** Concrete scans *)

#[local] Instance list_iterator : SnapshotIterator (list (Z * vec)) := {|
  si_Valid l := negb (bool_decide (l = [])); si_id l := match l with p :: _ => p.1 | [] => 0 end; si_vector l := match l with p :: _ => p.2 | [] => [] end; si_Next l := Some (tail l)
|}.

Lemma list_yields (l : list (Z * vec)) : yields l l.
Proof.
  induction l as [|[k v] l IH]; [by constructor|]. pose proof (yields_row ((k, v) :: l) l l eq_refl eq_refl IH) as Hy. exact Hy.
Qed.

Lemma vector_scan_exact_witness :
  let rows := [(4, [1; 2]); (5, [3; 4]); (9, [5; 6])] in
  exists s0 out s n', vscan_new (fun n => Z.of_nat n) rows (MkScan 2 0 10 0) 0%nat = (inr s0, 1%nat) /\
    vscan_drain (fun n => Z.of_nat n) 3 s0 1%nat = (inr (Some (out, s)), n') /\ out = vector_row <$> [(4, [1; 2]); (5, [3; 4])] /\ vs_truncated s = true.
Proof.
  intros rows. destruct (vector_scan_exact (fun n => Z.of_nat n) (MkScan 2 0 10 0) rows rows 0%nat) as (s0 & out & s & n' & E1 & E2 & Ho);
    [apply list_yields|done|done|].
  exists s0, out, s, n'. split; [exact E1|]. split; [exact E2|].
  destruct Ho as [(_ & _ & -> & ->)|(_ & Hst & _)]; [done|]. exfalso. injection E1 as <-. revert E2. vm_compute. intros [= _ <- _]. done.
Defined.

#[local] Existing Instances default_order insertion_StdSort.

Lemma text_scan_exact_witness :
  let e := MkText lex_new {[3 := bstr "edge"; 1 := bstr "node"]} 0 in
  exists it e' n', scan_text (fun _ => 0) (MkScan 1 5 0 3) 0 e 0%nat = (inr (it, e'), n') /\ lz_truncated it = true.
Proof.
  intros e. destruct (text_scan_exact (fun _ => 0) (MkScan 1 5 0 3) 0 e 0%nat) as [Hok Hall].
  destruct Hok as ([it e'] & n' & E); [done|right; by vm_compute|]. exists it, e', n'. split; [exact E|].
  destruct (Hall it e' n' E) as (ids & _ & _ & _ & ->). by vm_compute.
Defined.


Definition toy_bitsets : BitsetEngine := MkBs 0 2 {[1 := bstr "x"; 2 := bstr "y"]}.

Lemma row_scan_never_silently_partial_witness :
  exists it n', scan_bitset (fun n => Z.of_nat n) (MkScan 0 0 5 0) 0 toy_bitsets 0%nat = (inr it, n') /\ mr_id <$> ls_rows it = [1; 2].
Proof.
  destruct (scan_bitset (fun n => Z.of_nat n) (MkScan 0 0 5 0) 0 toy_bitsets 0%nat) as [[st|it] n'] eqn:E; [vm_compute in E; discriminate E|].
  exists it, n'. split; [done|].
  destruct (row_scan_never_silently_partial (fun n => Z.of_nat n) (MkScan 0 0 5 0) 0
    (fun p => MkRow kBitset p.1 [] (bstr "bytes=" ++ to_string p.2) []) by_id (bs_ForEach toy_bitsets) 0%nat it n') as (Hp & Hs & _ & _).
  - intros i j Hij. lia.
  - split; [intros a b _ _ Hl%Z.ltb_lt|intros a b c _ _ _ H1%Z.ltb_ge H2%Z.ltb_ge]; apply Z.ltb_ge; lia.
  - exact E.
  - injection E as <- _. by vm_compute.
Defined.

Lemma reverse_order_perm {K V} `{Countable K} (m : gmap K V) : reverse (map_to_list m) ≡ₚ map_to_list m.
Proof. apply reverse_Permutation. Qed.
Definition reverse_order {K V} `{Countable K} : MapOrder K V := {| iter_order m := reverse (map_to_list m); iter_order_perm := reverse_order_perm |}.

(** The kinds that build rows during the traversal cut before they sort: which
    rows a truncated scan returns depends on the order of the map. *)
Lemma truncated_rows_depend_on_order :
  let ids (ord : MapOrder Z bytes) :=
    match (@scan_bitset (fun _ => 0) _ (MkScan 1 0 0 0) 0 ord toy_bitsets 0%nat).1 with inr it => mr_id <$> ls_rows it | inl _ => [] end in
  ids default_order <> ids reverse_order.
Proof. by vm_compute. Qed.
